(* ===== verification/_CoqProject ===== *)
-Q . S2P
Prelude.v
GoFloat.v
GoFloatProps.v
GoStrings.v
GoBase64.v
NetIP.v
ClientIdentity.v
DestinationAllowlist.v
WaitingRoomQueue.v
WafCookies.v
WaitingRoom.v
RateLimiter.v
RateLimiterProps.v
CaptchaLimiter.v
Waf.v
AgentHub.v
TargetHealth.v
Routing.v
LoadBalancer.v
TargetSelection.v
Forwarding.v
LoginThrottle.v
MemoryPressure.v
StreamCapacity.v
StreamCapacityLeases.v
StreamCapacityQueue.v
StreamCapacityInv.v
StreamCapacityCheck.v
StreamCapacityProps.v
TunnelProtocol.v
LaneOwners.v
LaneOwnersInv.v
LaneOwnersProps.v
LaneOwnersTheorems.v
TunnelResources.v
AgentCapacity.v
AgentScavenge.v
RetryPolicy.v
RetryBuffers.v
RetryTransport.v
RetryLedger.v
PathSecurity.v
CacheRules.v
CacheIndex.v
CacheStore.v
CacheWorld.v
TrafficShaper.v
TrafficShaperProps.v
TrafficShaperTheorems.v
UpdateAuth.v
UpdateAuthProps.v
Updater.v
UpdaterProps.v
UpdaterInv.v
UpdaterRuns.v
UpdaterTheorems.v
