(* ===== verification/Prelude.v ===== *)
(** * A verification development for p2pstream

    p2pstream is a reverse proxy: a server terminates public HTTP traffic and
    forwards it over multiplexed tunnels to agents that dial the origins.  The
    development models the parts of the Go code that decide (who is admitted,
    which target is chosen, what is reserved and when it is given back) and
    proves what makes each of them correct.  Paths below are under src/.

    ** Parts and how they interact

    A public request arrives at a listener.  The client identity resolver decides
    who sent it, trusting forwarding headers only from configured proxies.  The
    web application firewall lets it pass, blocks it, challenges it with a captcha
    or puts it into a waiting room; its cookies are signed, and its own endpoints
    are rate limited.  Rate limit rules may refuse it, and so may the inspection of
    its path.  Traffic shaping rules may slow its bodies down.  Routing finds the site and
    the route; target selection, with the health monitor, the hub of connected
    agents and the load balancer, finds the target and the agent; the forwarded
    headers tell the upstream the identity resolved before.  The response cache may
    answer before anything is forwarded, and captures what comes back.  A request through an
    agent needs a stream of an agent session: the stream capacity manager of the
    server grants it, under the limits that the adaptive memory controller derives
    from samples of the process, or queues the caller; the admission runtime of the
    agent does the same on the other side, and its destination allowlist decides
    what it dials.  The session itself is a lane of a tunnel generation: lane
    ownership decides which physical session serves a lane and holds the memory
    reservations of its receive window, which the tunnel resource model computes
    and the upgrade protocol negotiates.  Administrators log in through the login
    throttle.  Agents are updated by a root activator on their host, which carries out
    the activations and rollbacks the management authority signs.

    ** Files: the language and its library

    - Prelude.v (this file): Go's fixed-width integers, time, sums over finite
      maps, the invariant rule for step relations, tactics and hint databases.
    - GoFloat.v, GoFloatProps.v: float64 ([SpecFloat] binary64) and its conversions;
      rounding as a relation, exactness on integers, monotonicity of the operations.
    - GoStrings.v: strconv, strings, http.Header and net.SplitHostPort as the code
      uses them, with their round trips, prefixes, suffixes and segments.
    - GoBase64.v: encoding/base64 without padding and its round trip, and the standard
      alphabet.
    - NetIP.v: net/netip, addresses and prefixes, parsing and printing.

    ** Files: the public request (internal/server)

    - ClientIdentity.v (client_identity.go): sources, resolution of single
      addresses and of chains.  An untrusted peer is the client itself, a chain
      resolves to its rightmost untrusted hop, disagreement fails closed.
    - WaitingRoomQueue.v, WaitingRoom.v (public_waf_waiting_room.go): the array
      queue with its head index and lazy compaction, and the visits.  It refines a
      first-come-first-served line ([Spec]); bounds, order and expiry follow.
    - WafCookies.v (public_waf_captcha.go): signed cookies and challenges.  A cookie
      is accepted exactly for what it was issued for; [WafCodec] is the class of the
      cryptographic operations and [WafCodecLaws] what is relied on.
    - CaptchaLimiter.v (public_waf_captcha_limiter.go), Waf.v (public_waf.go,
      public_waf_geo.go, the captcha and status handlers): rules, activation,
      decisions.  When a request passes, what a captcha pass needs and gives, and
      automatic activation against its whole history.
    - RateLimiter.v, RateLimiterProps.v (rate_limiter.go): the four algorithms, keys
      and pruning, and the validation of rules.  The sliding and fixed windows
      against references that keep every grant; what pruning may forget.
    - Routing.v (public_routing.go, public_sites.go): hosts, paths, sites, matching,
      redirects.  Sites are isolated, priorities decide, prefixes match segments.
    - LoadBalancer.v (load_balancer.go): smooth weights, round-robin counters and
      active counts, each algorithm against its specification.
    - AgentHub.v (agent_hub.go): the connected agents and their two indexes.
    - TargetHealth.v (public_target_health.go): checks, thresholds, generations,
      passive failures, connectivity, active requests.
    - TargetSelection.v (public_routing.go): composes the last four.  A selection
      returns something usable of the best priority group, and fails only when
      there is nothing.
    - Forwarding.v (public_routing.go): the identity headers an upstream sees.
    - RetryPolicy.v, RetryBuffers.v, RetryTransport.v, RetryLedger.v (public_retry.go,
      public_retry_transport.go): retry rules with their validation and loading and
      the classification of errors; the shared replay budget as an interleaving of
      its atomic operations, the request body and the response read ahead by a
      concurrent pump; the attempts of a request.  A request is sent at most once
      unless a rule accepted the risk of duplicates, every attempt is offered the
      whole body if it is buffered, or if the transports stop reading when they return
      (the finding [late_read_loses] is a body that is not), agents are distinct and
      bounded, counters of active requests and of the budget return to what they were,
      and reading ahead is invisible to the client.  A transport call is atomic and its
      outcome (bytes read by its return and after it, request written, answer) an
      argument, the context of the
      request is read once per attempt, and [ReplayResources] is the class of the
      working memory it reserves, discharged by the stream capacity manager.
    - PathSecurity.v (public_proxy_pipeline.go): the inspection of the spellings of a
      path through their layers of escapes, and the stages that reject.  What passes
      hides no dot segment (with backslashes read as slashes) and no NUL byte at any
      depth of decoding, and on strict routes no separator.
    - CacheRules.v, CacheIndex.v, CacheStore.v, CacheWorld.v (public_cache.go, its
      queries in internal/db/query.sql.go, the lookup stage): rules, keys, what may be
      stored and for how long; the index, the known misses, the copies in memory and
      the counters; the table, the files, lookup, hit, capture, commit, invalidation,
      cleanup and purge; and their interleaving as a step relation with ghost state
      for the origin of every row.  Equal keys mean equal requests, a hit serves one
      whole captured response of a request with the same key, a purge is final, the
      limits hold, the counters are exact unless a deleted rule took rows along by the
      foreign key of the table (the finding [usage_drift]), and a cleanup whose statements
      succeed ends within the limits.  The
      digests are parameters ([CacheCodec], [LookupCodec]) that tell keys apart; the
      answers of the database and of the file system are arguments, and the removal of
      a file after a failed commit is taken to succeed.  A commit, and a hit up to the
      opening of its body, are atomic, since they hold the fence of their digest.
    - TrafficShaper.v, TrafficShaperProps.v, TrafficShaperTheorems.v
      (public_traffic_shaper.go and its stage): the byte buckets in floating point,
      waiting, shaped bodies and upgraded connections, the rules with their validation
      and loading, and the shaper.  The buckets are a heap, since requests share them;
      what other goroutines do to a bucket between two attempts, the clock and the
      cancellation are a schedule, and a wait that the schedule does not finish is
      [Blocked].  A bucket never holds more than its burst, every byte read or written
      is charged once, a waiter is released in time, and a decision shares its buckets
      with exactly the requests of its key.
    - LoginThrottle.v (login_throttle.go): the throttle objects are a heap, the
      operations atomic functions on it; concurrent attempts are a step relation.  Counts
      are exact and bounded unless a retry-after query forgot attempts in flight (the
      finding [login_retry_after_forgets]).

    ** Files: capacity and tunnels

    - MemoryPressure.v (internal/sysmetrics/memory_pressure.go): the adaptive memory
      controller.  Limits are backed by headroom; incomplete samples fail closed.
    - StreamCapacity.v, StreamCapacityLeases.v, StreamCapacityQueue.v,
      StreamCapacityInv.v, StreamCapacityCheck.v, StreamCapacityProps.v
      (internal/server/agent_stream_capacity.go, agent_stream_capacity_adaptive.go):
      data and operations, the ledgers, the fair queue, the invariant, its relation to
      the self-check the code carries, and the theorems: the self-check never fails,
      no wakeup is lost, a grant is backed, dispatch terminates, leases live once.
    - AgentCapacity.v, AgentScavenge.v (internal/agent/adaptive_capacity.go): the
      agent's runtime with its byte counters, control sessions and release functions,
      and the interleaving of the memory scavenger.  The books are exact, grants are
      backed by the controller of MemoryPressure.v, one worker scavenges at a time.
    - DestinationAllowlist.v (internal/agent/destination_allowlist.go): what an agent
      may dial, literal and resolved addresses.
    - TunnelProtocol.v (internal/tunnel/protocol.go): headers of the tunnel upgrade;
      round trip and exactness of the parsers.
    - LaneOwners.v, LaneOwnersInv.v, LaneOwnersProps.v, LaneOwnersTheorems.v
      (internal/tunnel/lane_owners.go and the leases of growing_conn.go): one
      definition per critical section, a step relation that interleaves them, three
      invariants, and the theorems: exact ledgers, refund only after the join, the
      opening fence, termination of both Close functions.
    - TunnelResources.v (internal/tunnel/yamux.go): the reservation arithmetic.

    ** Files: updates (internal/updater, internal/agentupdate, internal/agentupdateauth)

    - UpdateAuth.v, UpdateAuthProps.v (agentupdateauth, agentupdate, releaseversion):
      versions, authorizations and receipts with payloads, signing and verification,
      release manifests.  A payload determines the kind and every field of a record;
      a signature is accepted exactly while its authorization is valid.  [Crypto] and
      [Semver] are the classes of what the code calls, [CryptoLaws] what is relied on.
    - Updater.v (activate.go, rollback.go, attestation.go, assignment_auth.go,
      slot_retention.go, failure.go and parts of runtime.go, stage.go, identity.go): the root
      activator as programs of a state monad over the tree of its files.  Every operation
      on the disk, the service manager or the clock consumes one answer, which may let it
      fail, before or after its effect; the worker's staging directory is part of the
      answers, so it may change between any two operations; the end of the answers is a
      crash.
    - UpdaterProps.v, UpdaterInv.v, UpdaterRuns.v: weakest preconditions with
      postconditions for results, errors and crashes; the invariant [Inv] of the tree
      with a ghost log of receipts; each program keeps it, up to the whole run.
    - UpdaterTheorems.v: over every history of runs and crashes from an enrolled host the
      link leads to an authorized executable, receipts are unique and ordered, releases
      do not go back, the metadata describe what runs, and an interrupted activation is
      undone.  An interrupted rollback whose authorization expires is never resumed
      ([rollback_never_recovers]), which is a finding.  The last section runs an example
      host through an activation, a rollback and their interruptions.

    ** Conventions

    A Go struct is a Record with the source's fields, a map a [gmap] (or a heap
    indexed by pointer where identity matters), an enum an Inductive type, an error
    a constructor of a sum.  An operation that holds one mutex throughout is one
    function; one that releases it is a sequence of functions interleaved by a step
    relation.  int64 and uint64 results are wrapped ([i64], [u64]) unless a theorem
    bounds them.  The iteration order of a Go map, the readings of the clock,
    random numbers, and the answers of the operating system, of the vendored Yamux,
    of other third-party packages and of callbacks are arguments, so every theorem
    holds for all of them.  A release function guarded by a [sync.Once] is an entry of
    a map that running it removes.

    ** Fuel

    Recursion is structural except in these places.  The dispatch loop of the stream
    capacity manager takes one more than [dispatchMeasure] (queue keys plus queued
    waiters), and [capacity_dispatch_terminates] shows that more fuel changes nothing.
    [FormatUint] takes 20, the digits of the largest uint64; [formatHexDigits] the
    hexadecimal digits of a group; [TrimSpace] the length of its argument, since each
    round removes a byte; [parseGroups] one more than the length of the text, since each
    round consumes a byte; [pruneHeads] the length of the waiting queue, since each round drops a head.
    Releasing the growth leases of a lane is structural in the number of leases held.
    The eviction loop of the cache takes one more than the number of rows, and
    [cache_cleanup_terminates] shows that this is enough when its deletions succeed;
    waiting for a bucket takes the length of its schedule, since every round uses an
    attempt, and writing the length of the payload, since every round writes a byte;
    the layers of a path are bounded by the code's own limit of eight decodings.
    A run of the updater is bounded by its list of answers; none of its programs loops,
    but for the removal of slots, which is structural in the listing of the directory.

    ** Not modelled, and the plan

    Not modelled: network, file and database I/O, the relaying of bytes, RPC handlers
    and the management of configuration, TLS and ACME, policy expressions (compiled CEL
    programs are functions here), the vendored multiplexer (but for its two accounting
    functions), generated code and the user interface.  Of the updater: the unprivileged
    worker that downloads and reports, enrollment beyond the first slot, and the catalog
    and key of the authority on the server; writing a file and switching the link are
    atomic and durable when they return, as the rename and the sync of the code make
    them, and one activator runs at a time, as its lock makes it.  Next in the plan: lane
    retirement and window growth of internal/tunnel.

    ** This file

    - [i64]/[u64] write out wrap-around, [sat64] is the saturation of
      [time.Time.Sub].
    - [time.Time] is nanoseconds since the zero time ([time.Time{}] is 0),
      [time.Duration] nanoseconds.
    - [msum] is the sum of the values of a finite map, with its update lemmas.
    - Generic lemmas on lists, maps and step relations, and the shared tactics. *)

From stdpp Require Export gmap strings list fin_maps relations.
From Stdlib Require Export ZArith Lia.
From Stdlib Require Sorted.

#[export] Set Default Proof Using "Type".

Declare Scope go_scope.
Delimit Scope go_scope with go.
Open Scope Z_scope.

(** ** Machine integers *)

Definition two63 : Z := 9223372036854775808.
Definition two64 : Z := 18446744073709551616.
Definition max_int64 : Z := 9223372036854775807.
Definition min_int64 : Z := -9223372036854775808.

(** Two's complement wrap-around of a signed 64-bit result. *)
Definition i64 (z : Z) : Z := (z + two63) mod two64 - two63.

(** Wrap-around of an unsigned 64-bit result. *)
Definition u64 (z : Z) : Z := z mod two64.

(** Saturation at the bounds of int64. *)
Definition sat64 (z : Z) : Z := Z.max min_int64 (Z.min max_int64 z).

Definition in_i64 (z : Z) : Prop := min_int64 ≤ z ≤ max_int64.

Lemma i64_id z : in_i64 z → i64 z = z.
Proof.
  unfold in_i64, min_int64, max_int64, i64, two63, two64. intros H.
  rewrite Z.mod_small; lia.
Qed.

Lemma u64_id z : 0 ≤ z < two64 → u64 z = z.
Proof. intros H. unfold u64. by rewrite Z.mod_small. Qed.

Lemma u64_range z : 0 ≤ u64 z < two64.
Proof. unfold u64. apply Z.mod_pos_bound. unfold two64. lia. Qed.

Lemma sat64_id z : in_i64 z → sat64 z = z.
Proof. unfold in_i64, sat64, min_int64, max_int64. lia. Qed.

Lemma sat64_mono a b : a ≤ b → sat64 a ≤ sat64 b.
Proof. unfold sat64. lia. Qed.

(** ** Time *)

Definition is_zero_time (t : Z) : bool := t =? 0.

(** [a.Before(b)] *)
Definition before (a b : Z) : bool := a <? b.

(** [a.Sub(b)]: the difference, saturated to the range of [time.Duration]. *)
Definition time_sub (a b : Z) : Z := sat64 (a - b).

Definition nanosecond : Z := 1.
Definition millisecond : Z := 1000000.
Definition second : Z := 1000000000.
Definition minute : Z := 60 * second.

Lemma time_sub_gt a b d : in_i64 d → d < max_int64 → (d <? time_sub a b) = (d <? a - b).
Proof.
  unfold in_i64, time_sub, sat64, min_int64, max_int64. intros.
  destruct (Z.ltb_spec d (a - b)), (Z.ltb_spec d (Z.max (-9223372036854775808)
    (Z.min 9223372036854775807 (a - b)))); lia.
Qed.

(** ** Sum of the values of a finite map *)

Section msum.
Context {K : Type} `{Countable K}.
Implicit Types m : gmap K Z.

Definition msum (m : gmap K Z) : Z := map_fold (λ _ v acc, v + acc) 0 m.

Lemma msum_empty : msum ∅ = 0.
Proof. done. Qed.

Lemma msum_insert_fresh m k v : m !! k = None → msum (<[k:=v]> m) = v + msum m.
Proof.
  intros. unfold msum. rewrite map_fold_insert_L; [done | | done]. intros; lia.
Qed.

Lemma msum_delete m k : msum (delete k m) = msum m - default 0 (m !! k).
Proof.
  destruct (m !! k) as [v|] eqn:E; simpl.
  - rewrite <- (insert_delete_id m k v E) at 2.
    rewrite msum_insert_fresh; [lia | apply lookup_delete_eq].
  - rewrite delete_id by done. lia.
Qed.

Lemma msum_insert m k v : msum (<[k:=v]> m) = msum m - default 0 (m !! k) + v.
Proof.
  rewrite <- insert_delete_eq, msum_insert_fresh by apply lookup_delete_eq.
  rewrite msum_delete. lia.
Qed.

Lemma msum_nonneg m : map_Forall (λ _ v, 0 ≤ v) m → 0 ≤ msum m.
Proof.
  induction m as [|k v m Hk IH] using map_ind; intros Hm; [done|].
  rewrite msum_insert_fresh by done.
  apply map_Forall_insert in Hm as [Hv Hm]; [|done]. specialize (IH Hm). lia.
Qed.

Lemma msum_lookup_le m k v :
  map_Forall (λ _ v, 0 ≤ v) m → m !! k = Some v → v ≤ msum m.
Proof.
  intros Hm Hk. rewrite <- (insert_delete_id m k v Hk).
  rewrite msum_insert_fresh by apply lookup_delete_eq.
  enough (0 ≤ msum (delete k m)) by lia.
  by apply msum_nonneg, map_Forall_delete.
Qed.
End msum.

(** ** Sums of lists *)

Definition zsum (l : list Z) : Z := foldr Z.add 0 l.

Lemma zsum_app l1 l2 : zsum (l1 ++ l2) = zsum l1 + zsum l2.
Proof. induction l1 as [|x l1 IH]; simpl; [done|]. unfold zsum in *. lia. Qed.

Lemma zsum_perm l1 l2 : l1 ≡ₚ l2 → zsum l1 = zsum l2.
Proof. induction 1; simpl in *; unfold zsum in *; lia. Qed.

Lemma msum_list {K A} `{Countable K} (f : A → Z) (m : gmap K A) :
  msum (f <$> m) = zsum (map (λ kv, f kv.2) (map_to_list m)).
Proof.
  induction m as [|k v m Hk IH] using map_ind; [by rewrite fmap_empty, map_to_list_empty|].
  rewrite fmap_insert, msum_insert_fresh by (by rewrite lookup_fmap, Hk).
  rewrite (zsum_perm _ (map (λ kv : K * A, f kv.2) ((k, v) :: map_to_list m))).
  - simpl. by rewrite IH.
  - by rewrite (map_to_list_insert m k v Hk).
Qed.

Lemma msum_ones {K A} `{Countable K} (m : gmap K A) : msum ((λ _, 1) <$> m) = Z.of_nat (size m).
Proof.
  induction m as [|k x m Hk IH] using map_ind; [by rewrite fmap_empty, map_size_empty|].
  rewrite fmap_insert, msum_insert_fresh, map_size_insert, Hk, IH; [lia|]. by rewrite lookup_fmap, Hk.
Qed.

Lemma msum_fmap_le {K A} `{Countable K} (f h : A → Z) (m : gmap K A) :
  (∀ k x, m !! k = Some x → f x ≤ h x) → msum (f <$> m) ≤ msum (h <$> m).
Proof.
  induction m as [|k x m Hk IH] using map_ind; intros Hle; [by rewrite !fmap_empty|].
  rewrite !fmap_insert, !msum_insert_fresh by (by rewrite lookup_fmap, Hk).
  pose proof (Hle k x (lookup_insert_eq _ _ _)). enough (msum (f <$> m) ≤ msum (h <$> m)) by lia.
  apply IH. intros k' y E. apply (Hle k'). rewrite lookup_insert_ne; [done|congruence].
Qed.

(** The sum over the keys of a map, listed without repetition. *)
Lemma msum_keys {K A} `{Countable K} (f : option A → Z) (m : gmap K A) (keys : list K) :
  f None = 0 → NoDup keys → (∀ k, k ∈ keys ↔ is_Some (m !! k)) →
  zsum (map (λ k, f (m !! k)) keys) = msum ((λ v, f (Some v)) <$> m).
Proof.
  intros Hf. revert m. induction keys as [|k keys IH]; intros m Hnd Hdom.
  - simpl. destruct (decide (m = ∅)) as [->|Hne]; [by rewrite fmap_empty|].
    apply map_choose in Hne as (k & v & Hk). specialize (Hdom k). rewrite Hk in Hdom.
    exfalso. apply (not_elem_of_nil k). apply Hdom. eauto.
  - apply NoDup_cons in Hnd as [Hk Hnd]. simpl.
    destruct (proj1 (Hdom k)) as [v Hv]; [left|].
    rewrite <- (insert_delete_id m k v Hv) at 2.
    rewrite fmap_insert, msum_insert_fresh by (by rewrite lookup_fmap, lookup_delete_eq).
    rewrite Hv, <- (IH (delete k m)); [|done|].
    + f_equal. f_equal. apply map_ext_in. intros k' Hk'. rewrite lookup_delete_ne; [done|].
      intros ->. apply Hk. by rewrite list_elem_of_In.
    + intros k'. destruct (decide (k' = k)) as [->|Hne].
      * rewrite lookup_delete_eq. split; [done|intros [? ?]; done].
      * rewrite lookup_delete_ne by done. rewrite <- Hdom. set_solver.
Qed.

(** Removing one element of a list. *)
Lemma delete_split {A} (l : list A) i x :
  l !! i = Some x → ∃ l1 l2, l = l1 ++ x :: l2 ∧ i = length l1 ∧ delete i l = l1 ++ l2.
Proof.
  intros H. exists (take i l), (drop (S i) l). split; [by rewrite take_drop_middle|].
  split; [|by rewrite delete_take_drop].
  apply lookup_lt_Some in H. rewrite length_take. lia.
Qed.

Lemma insert_size_le {K A} `{Countable K} (m : gmap K A) k x : (size (<[k := x]> m) ≤ S (size m))%nat.
Proof. rewrite map_size_insert. destruct (m !! k); simpl; lia. Qed.

Lemma sorted_snoc (l : list Z) x :
  Sorted.StronglySorted Z.le l → Forall (λ t, t ≤ x) l → Sorted.StronglySorted Z.le (l ++ [x]).
Proof.
  induction 1 as [|y l Hs IH Hf]; intros Hx; [repeat constructor|]. apply Forall_cons in Hx as [Hy Hx]. simpl.
  constructor; [by apply IH|]. apply Forall_app. split; [done|by constructor].
Qed.

(** ** Invariants of step relations *)

Lemma rtc_invariant {A} (R : relation A) (I : A → Prop) :
  (∀ x y, R x y → I x → I y) → ∀ x y, rtc R x y → I x → I y.
Proof. intros Hstep x y Hxy. induction Hxy; eauto. Qed.

(** ** Tactics *)

(** Turn the boolean tests of the source into propositions. *)
Ltac bprop :=
  repeat match goal with
  | H : context [ _ && _ = true ] |- _ => rewrite andb_true_iff in H
  | H : context [ _ || _ = false ] |- _ => rewrite orb_false_iff in H
  | H : context [ _ || _ = true ] |- _ => rewrite orb_true_iff in H
  | H : context [ _ && _ = false ] |- _ => rewrite andb_false_iff in H
  | H : context [ negb _ = true ] |- _ => rewrite negb_true_iff in H
  | H : context [ negb _ = false ] |- _ => rewrite negb_false_iff in H
  | H : (_ <? _) = true |- _ => apply Z.ltb_lt in H
  | H : (_ <? _) = false |- _ => apply Z.ltb_ge in H
  | H : (_ <=? _) = true |- _ => apply Z.leb_le in H
  | H : (_ <=? _) = false |- _ => apply Z.leb_gt in H
  | H : (_ =? _) = true |- _ => apply Z.eqb_eq in H
  | H : (_ =? _) = false |- _ => apply Z.eqb_neq in H
  | H : String.eqb _ _ = true |- _ => apply String.eqb_eq in H
  | H : String.eqb _ _ = false |- _ => apply String.eqb_neq in H
  | H : bool_decide _ = true |- _ => apply bool_decide_eq_true in H
  | H : bool_decide _ = false |- _ => apply bool_decide_eq_false in H
  | H : _ ∧ _ |- _ => destruct H
  end.

(** Split on the innermost conditional or match of the goal. *)
Ltac case_goal :=
  match goal with
  | |- context [ if ?b then _ else _ ] => destruct b eqn:?
  | |- context [ match ?x with _ => _ end ] => destruct x eqn:?
  end.

(** The same with a name for the outcome of the first [if]. *)
Ltac case_if E :=
  match goal with |- context [ if ?b then _ else _ ] => destruct b eqn:E end.

(** The same in a hypothesis, when the first branch contradicts it. *)
Ltac case_if_hyp H E :=
  match type of H with context [ if ?b then _ else _ ] => destruct b eqn:E; [discriminate H|] end.

Ltac case_hyp H :=
  match type of H with
  | context [ if ?b then _ else _ ] => destruct b eqn:?
  | context [ match ?x with _ => _ end ] => destruct x eqn:?
  end.

(** Split on the tests at the head of an equation [f ... = r], outermost first. *)
Ltac case_head H :=
  repeat match type of H with
  | (if ?b then _ else _) = _ => destruct b eqn:?
  | (match ?x with _ => _ end) = _ => destruct x eqn:?
  end.

Create HintDb gomodel.
#[export] Hint Resolve msum_nonneg u64_range : gomodel.
Create Rewrite HintDb gosum.
#[export] Hint Rewrite @msum_insert @msum_delete using typeclasses eauto : gosum.
