(* ===== verification/GoFloat.v ===== *)
(** Go's float64: IEEE binary64 numbers, computed with the Standard Library's
    [SpecFloat] (53 bits of significand, exponents up to 1024), rounded to nearest
    with ties to even as the language requires. *)

From Stdlib Require Import SpecFloat.
From S2P Require Import Prelude.

Definition float64 : Type := spec_float.

(** [float64(z)] of an int64: rounded to nearest, ties to even. *)
Definition float_of_int (z : Z) : float64 := binary_normalize 53 1024 z 0 false.
Definition fadd (a b : float64) : float64 := SFadd 53 1024 a b.
Definition fsub (a b : float64) : float64 := SFsub 53 1024 a b.
Definition fmul (a b : float64) : float64 := SFmul 53 1024 a b.
Definition fdiv (a b : float64) : float64 := SFdiv 53 1024 a b.

(** [a >= b], [a > b] and [a < b]; false on NaN. *)
Definition fge (a b : float64) : bool := SFleb b a.
Definition fgt (a b : float64) : bool := SFltb b a.
Definition flt (a b : float64) : bool := SFltb a b.

(** [time.Duration.Seconds]: whole seconds plus the fraction. *)
Definition Seconds (d : Z) : float64 :=
  fadd (float_of_int (Z.quot d second))
       (fdiv (float_of_int (Z.rem d second)) (float_of_int second)).

(** ** math *)

Definition isNaN (a : float64) : bool := match a with S754_nan => true | _ => false end.
Definition isZero (a : float64) : bool := match a with S754_zero _ => true | _ => false end.

(** [math.Min] and [math.Max]: NaN wins, and the sign of zero decides between zeros. *)
Definition fmin (a b : float64) : float64 :=
  if isNaN a || isNaN b then S754_nan
  else if isZero a && isZero b then (match a with S754_zero true => a | _ => b end)
  else if flt a b then a else b.
Definition fmax (a b : float64) : float64 :=
  if isNaN a || isNaN b then S754_nan
  else if isZero a && isZero b then (match a with S754_zero true => b | _ => a end)
  else if fgt a b then a else b.

(** [int64(math.Floor(a))] and [int64(math.Ceil(a))]; a value outside int64 converts to the
    smallest one, as on amd64. *)
Definition clampInt (z : Z) : Z := if (min_int64 <=? z) && (z <=? max_int64) then z else min_int64.
Definition floorInt (a : float64) : Z :=
  match a with
  | S754_zero _ => 0
  | S754_finite s m e =>
      let z := if s then Z.neg m else Z.pos m in
      clampInt (if 0 <=? e then z * 2 ^ e else z / 2 ^ (- e))
  | _ => min_int64
  end.
Definition ceilInt (a : float64) : Z :=
  match a with
  | S754_zero _ => 0
  | S754_finite s m e =>
      let z := if s then Z.neg m else Z.pos m in
      clampInt (if 0 <=? e then z * 2 ^ e else - (- z / 2 ^ (- e)))
  | _ => min_int64
  end.

Example ceil_1 : ceilInt (fdiv (float_of_int 7) (float_of_int 2)) = 4.
Proof. reflexivity. Qed.
Example floor_1 : floorInt (fdiv (float_of_int (-7)) (float_of_int 2)) = -4.
Proof. reflexivity. Qed.

(** [a == b]; false on NaN, and the two zeros are equal. *)
Definition feq (a b : float64) : bool := SFeqb a b.
