(* ===== verification/GoFloatProps.v ===== *)
(** Facts about Go's float64 (GoFloat.v): what rounding to nearest guarantees for the
    numbers the token buckets compute with.

    [val x] is the value of a float that is not negative, scaled by [2 ^ base] so that
    it is an integer; infinity is [top], above every finite value.  [good x]: canonical,
    not negative and not NaN.  Rounding an exact result is monotone with respect to
    every [good] float ([round_upper], [round_lower]), hence sums and differences are
    bounded by what bounds them exactly, and integers up to [2 ^ 53] are computed
    without error. *)

From Stdlib Require Import SpecFloat.
From S2P Require Import Prelude.
From S2P Require Import GoFloat.

Definition base : Z := 5000.
Definition V (m e : Z) : Z := m * 2 ^ (e + base).
Definition top : Z := V 1 1024.

Definition val (x : float64) : Z :=
  match x with
  | S754_zero _ => 0
  | S754_finite s m e => if s then - V (Z.pos m) e else V (Z.pos m) e
  | S754_infinity s => if s then - top else top
  | S754_nan => 0
  end.

(** Not negative and not NaN. *)
Definition nonneg (x : float64) : bool :=
  match x with
  | S754_zero _ => true
  | S754_finite s _ _ | S754_infinity s => negb s
  | S754_nan => false
  end.
Definition good (x : float64) : Prop := valid_binary 53 1024 x = true ∧ nonneg x = true.

(** ** Powers and digits *)

Lemma pow_split a b : 0 ≤ b → b ≤ a → 2 ^ a = 2 ^ (a - b) * 2 ^ b.
Proof. intros. rewrite <- Z.pow_add_r by lia. f_equal. lia. Qed.

Lemma pow_pos k : 0 ≤ k → 0 < 2 ^ k.
Proof. intros. apply Z.pow_pos_nonneg; lia. Qed.

Lemma digits_log2 p : Z.pos (digits2_pos p) = Z.log2 (Z.pos p) + 1.
Proof.
  induction p as [p IH|p IH|]; [| |done]; simpl digits2_pos; rewrite Pos2Z.inj_succ, IH.
  - rewrite (Pos2Z.inj_xI p), Z.log2_succ_double by lia. lia.
  - rewrite (Pos2Z.inj_xO p), Z.log2_double by lia. lia.
Qed.

Lemma Zdigits_log2 m : 0 < m → Zdigits2 m = Z.log2 m + 1.
Proof. destruct m; intros; try lia. apply digits_log2. Qed.

Lemma fexp_eq d : fexp 53 1024 d = Z.max (d - 53) (-1074).
Proof. reflexivity. Qed.

Lemma V_shift m e e' : - base ≤ e' → e' ≤ e → V m e = V (m * 2 ^ (e - e')) e'.
Proof.
  unfold V, base. intros. rewrite <- Z.mul_assoc, <- Z.pow_add_r by lia. do 2 f_equal. lia.
Qed.

Lemma V_mono m m' e : - base ≤ e → m ≤ m' → V m e ≤ V m' e.
Proof. unfold V. intros. apply Z.mul_le_mono_nonneg_r; [|done]. apply Z.lt_le_incl, pow_pos. lia. Qed.

Lemma V_mono_inv m m' e : - base ≤ e → V m e ≤ V m' e → m ≤ m'.
Proof. unfold V. intros ? H. apply Z.mul_le_mono_pos_r in H; [done|]. apply pow_pos. lia. Qed.

Lemma V_pos m e : - base ≤ e → 0 < m → 0 < V m e.
Proof. unfold V. intros. apply Z.mul_pos_pos; [done|]. apply pow_pos. lia. Qed.

(** The position of the leading digit is monotone in the value. *)
Lemma V_log2 m e m' e' : - base ≤ e → - base ≤ e' → 0 < m → 0 < m' →
  V m e ≤ V m' e' → Z.log2 m + e ≤ Z.log2 m' + e'.
Proof.
  unfold V, base. intros ? ? ? ? H. apply Z.log2_le_mono in H.
  rewrite !Z.log2_mul_pow2 in H by lia. lia.
Qed.

Lemma log2_bounds m d : 0 < m → Z.log2 m + 1 ≤ d → m < 2 ^ d.
Proof.
  intros Hm Hd. destruct (Z.log2_spec m Hm) as [_ H]. eapply Z.lt_le_trans; [exact H|].
  apply Z.pow_le_mono_r; lia.
Qed.

(** ** Shifting out digits *)

Lemma iter_pos_spec {A} (f : A → A) p : ∀ x, SpecFloat.iter_pos f p x = Nat.iter (Pos.to_nat p) f x.
Proof.
  assert (Hadd : ∀ n m x, Nat.iter n f (Nat.iter m f x) = Nat.iter (n + m) f x).
  { intros n m x. induction n as [|n IH]; simpl; [done|]. by rewrite IH. }
  induction p as [p IH|p IH|]; intros x; cbn [SpecFloat.iter_pos]; [| |done]; rewrite !IH, Hadd.
  - rewrite Pos2Nat.inj_xI. change (f x) with (Nat.iter 1 f x). rewrite Hadd. f_equal. lia.
  - rewrite Pos2Nat.inj_xO. f_equal. lia.
Qed.

Lemma shr_1_spec m r s : 0 ≤ m →
  shr_m (shr_1 (Build_shr_record m r s)) = m / 2 ∧
  (m mod 2 = 0 → r = false → s = false → shr_1 (Build_shr_record m r s) = Build_shr_record (m / 2) false false).
Proof.
  intros Hm. destruct m as [|[p|p|]|]; [| | | |lia]; simpl.
  - split; [done|]. intros _ -> ->. done.
  - split; [rewrite Pos2Z.inj_xI; apply (Z.div_unique _ _ _ 1); lia|].
    intros H. rewrite Pos2Z.inj_xI in H. exfalso. Z.div_mod_to_equations. lia.
  - assert (E : Z.pos p~0 / 2 = Z.pos p) by (rewrite Pos2Z.inj_xO, Z.mul_comm; by apply Z.div_mul).
    rewrite E. split; [done|]. intros _ -> ->. done.
  - split; [done|]. intros H. discriminate H.
Qed.

Lemma iter_shr_spec (n : nat) : ∀ m r s, 0 ≤ m →
  shr_m (Nat.iter n shr_1 (Build_shr_record m r s)) = m / 2 ^ Z.of_nat n ∧
  ((2 ^ Z.of_nat n | m) → r = false → s = false →
   Nat.iter n shr_1 (Build_shr_record m r s) = Build_shr_record (m / 2 ^ Z.of_nat n) false false).
Proof.
  induction n as [|n IH]; intros m r s Hm.
  { simpl. rewrite Z.div_1_r. split; [done|]. by intros _ -> ->. }
  destruct (IH m r s Hm) as [H1 H2].
  assert (Hp : 2 ^ Z.of_nat (S n) = 2 ^ Z.of_nat n * 2) by (rewrite Nat2Z.inj_succ, Z.pow_succ_r by lia; lia).
  assert (Hpos := pow_pos (Z.of_nat n) ltac:(lia)).
  rewrite Hp, <- Z.div_div by lia. simpl Nat.iter. split.
  - destruct (Nat.iter n shr_1 _) as [m' r' s'] eqn:E. simpl in H1. subst m'.
    apply shr_1_spec. apply Z.div_pos; lia.
  - intros [k ->] Hr Hs. rewrite H2; [|exists (k * 2); lia|done|done].
    apply shr_1_spec; [apply Z.div_pos; lia| |done|done].
    rewrite (Z.mul_comm (2 ^ Z.of_nat n)), Z.mul_assoc, Z.div_mul by lia. by apply Z.mod_mul.
Qed.

(** The quotient after shifting by [n] and rounding: the floor or the next integer, and
    exact when nothing is lost. *)
Lemma shr_round m l e n : 0 ≤ m → 0 ≤ n →
  let '(mrs, e') := shr (shr_record_of_loc m l) e n in
  let q := round_nearest_even (shr_m mrs) (loc_of_shr_record mrs) in
  e' = e + n ∧ m / 2 ^ n ≤ q ≤ m / 2 ^ n + 1 ∧ (l = loc_Exact → (2 ^ n | m) → q = m / 2 ^ n).
Proof.
  intros Hm Hn.
  assert (Hq : ∀ mrs, shr_m mrs = m / 2 ^ n →
    m / 2 ^ n ≤ round_nearest_even (shr_m mrs) (loc_of_shr_record mrs) ≤ m / 2 ^ n + 1).
  { intros [k r s] Hk. simpl in Hk. subst k. destruct r, s; simpl; try case_match; lia. }
  assert (Hrec : ∃ r s, shr_record_of_loc m l = Build_shr_record m r s) by (destruct l as [|[]]; simpl; eauto).
  destruct Hrec as (r & s & Er). destruct n as [|p|p]; [| |lia].
  - cbn [shr]. split; [lia|]. split; [apply Hq; by rewrite Er, Z.div_1_r|].
    intros -> _. simpl. by rewrite Z.div_1_r.
  - simpl shr. rewrite iter_pos_spec, Er. rewrite <- (positive_nat_Z p).
    destruct (iter_shr_spec (Pos.to_nat p) m r s Hm) as [H1 H2].
    split; [done|]. rewrite positive_nat_Z in H1, H2 |- *. split; [by apply Hq|].
    intros -> Hd. simpl in Er. injection Er as <- <-. by rewrite H2.
Qed.

(** ** Rounding *)

(** The float with significand [q] of at most 53 bits, or [2 ^ 53], and exponent [e]. *)
Definition finish (s : bool) (q e : Z) : float64 :=
  if q =? 0 then S754_zero s
  else if q =? 2 ^ 53 then
    (if e + 1 <=? 971 then S754_finite s (2 ^ 52)%positive (e + 1) else S754_infinity s)
  else if e <=? 971 then S754_finite s (Z.to_pos q) e else S754_infinity s.

(** A rounded significand: at most [2 ^ 53], with all its bits unless subnormal. *)
Definition rounded (q e : Z) : Prop := 0 ≤ q ≤ 2 ^ 53 ∧ -1074 ≤ e ∧ (-1074 < e → 2 ^ 52 ≤ q).

Lemma shr_none mrs e n : n ≤ 0 → shr mrs e n = (mrs, e).
Proof. by destruct n. Qed.

Lemma finish_spec s q e : rounded q e →
  (let '(mrs, e') := shr_fexp 53 1024 q e loc_Exact in
   match shr_m mrs with
   | Z0 => S754_zero s
   | Z.pos m => if e' <=? 1024 - 53 then S754_finite s m e' else S754_infinity s
   | _ => S754_nan
   end) = finish s q e.
Proof.
  intros (Hq & He & Hn). unfold shr_fexp, finish. rewrite fexp_eq.
  destruct (Z.eqb_spec q 0) as [->|Hq0]; [by rewrite shr_none by (simpl Zdigits2; lia)|].
  destruct (Z.eqb_spec q (2 ^ 53)) as [->|Hq1].
  - assert (Z.max (Zdigits2 (2 ^ 53) + e - 53) (-1074) - e = 1) as -> by (simpl Zdigits2; lia). done.
  - assert (Hl : Zdigits2 q ≤ 53).
    { rewrite Zdigits_log2 by lia. enough (Z.log2 q < 53) by lia. apply Z.log2_lt_pow2; lia. }
    rewrite shr_none by lia. simpl. destruct q; [done|done|lia].
Qed.

Lemma round_aux_spec s m e l :
  0 ≤ m → let e1 := fexp 53 1024 (Zdigits2 m + e) in e ≤ e1 →
  ∃ q, binary_round_aux 53 1024 s m e l = finish s q e1 ∧ rounded q e1 ∧
    m / 2 ^ (e1 - e) ≤ q ≤ m / 2 ^ (e1 - e) + 1 ∧ (l = loc_Exact → (2 ^ (e1 - e) | m) → q = m / 2 ^ (e1 - e)).
Proof.
  intros Hm e1 He. unfold binary_round_aux.
  pose proof (shr_round m l e (e1 - e) Hm ltac:(lia)) as Hs. unfold shr_fexp at 1. fold e1.
  destruct (shr (shr_record_of_loc m l) e (e1 - e)) as [mrs e'] eqn:Es. cbv zeta in Hs.
  destruct Hs as (-> & Hb & Hx). set (q := round_nearest_even _ _) in *. exists q.
  replace (e + (e1 - e)) with e1 by lia.
  assert (Hr : rounded q e1).
  { assert (He1 : e1 = Z.max (Zdigits2 m + e - 53) (-1074)) by apply fexp_eq.
    destruct (Z.eq_dec m 0) as [->|Hm0].
    { rewrite Z.div_0_l in Hb by (pose proof (pow_pos (e1 - e)); lia). simpl Zdigits2 in He1.
      split; [|split]; lia. }
    rewrite Zdigits_log2 in He1 by lia. pose proof (Z.log2_nonneg m).
    destruct (Z.log2_spec m ltac:(lia)) as [Hlo Hhi]. rewrite <- Z.add_1_r in Hhi.
    assert (Hk : m / 2 ^ (e1 - e) < 2 ^ 53).
    { apply Z.div_lt_upper_bound; [apply pow_pos; lia|]. rewrite <- Z.pow_add_r by lia.
      eapply Z.lt_le_trans; [exact Hhi|]. apply Z.pow_le_mono_r; lia. }
    assert (0 ≤ m / 2 ^ (e1 - e)) by (apply Z.div_pos; [lia|apply pow_pos; lia]).
    split; [lia|]. split; [lia|]. intros Hn.
    enough (2 ^ 52 ≤ m / 2 ^ (e1 - e)) by lia. apply Z.div_le_lower_bound; [apply pow_pos; lia|].
    rewrite <- Z.pow_add_r by lia. replace (e1 - e + 52) with (Z.log2 m) by lia. done. }
  split; [|done]. rewrite <- (finish_spec s q e1 Hr). done.
Qed.

(** The bits a significand has at exponent [e1] do not depend on how it is written. *)
Lemma shl_align_spec m e e1 :
  let '(m', e') := shl_align m e e1 in
  e' = Z.min e e1 ∧ Z.pos m' = Z.pos m * 2 ^ (e - e').
Proof.
  unfold shl_align. destruct (e1 - e) as [|p|p] eqn:E.
  - split; [lia|]. rewrite Z.sub_diag. lia.
  - split; [lia|]. rewrite Z.sub_diag. lia.
  - split; [lia|]. replace (e - e1) with (Z.pos p) by lia. clear E.
    rewrite <- (positive_nat_Z p), Pos2Nat.inj_iter.
    induction (Pos.to_nat p) as [|n IH]; [simpl; lia|].
    rewrite Nat2Z.inj_succ, Z.pow_succ_r by lia. simpl in IH |- *. rewrite Pos2Z.inj_xO, IH. lia.
Qed.

Lemma round_spec s m e :
  let e1 := fexp 53 1024 (Z.log2 (Z.pos m) + 1 + e) in
  ∃ q, binary_round 53 1024 s m e = finish s q e1 ∧ rounded q e1 ∧
    (e1 ≤ e → q = Z.pos m * 2 ^ (e - e1)) ∧
    (e ≤ e1 → Z.pos m / 2 ^ (e1 - e) ≤ q ≤ Z.pos m / 2 ^ (e1 - e) + 1 ∧
      ((2 ^ (e1 - e) | Z.pos m) → q = Z.pos m / 2 ^ (e1 - e))).
Proof.
  intros e1. unfold binary_round. rewrite digits_log2. fold e1.
  pose proof (shl_align_spec m e e1) as Hs. destruct (shl_align m e e1) as [m' e'].
  destruct Hs as [-> Hm'].
  assert (Hd : Zdigits2 (Z.pos m') + Z.min e e1 = Z.log2 (Z.pos m) + 1 + e).
  { rewrite Zdigits_log2, Hm', Z.log2_mul_pow2 by lia. lia. }
  pose proof (round_aux_spec s (Z.pos m') (Z.min e e1) loc_Exact ltac:(lia)) as Ha. cbv zeta in Ha.
  rewrite Hd in Ha. fold e1 in Ha. destruct (Ha ltac:(lia)) as (q & Hq & Hr & Hb & Hx). clear Ha. rewrite Hm' in Hb, Hx.
  exists q. split; [done|]. split; [done|]. split.
  - intros Hle. rewrite Z.min_r in Hb, Hx by done. rewrite Z.sub_diag, Z.pow_0_r, Z.div_1_r in Hx. apply Hx; [done|].
    apply Z.divide_1_l.
  - intros Hle. rewrite Z.min_l in Hb, Hx by done. rewrite Z.sub_diag, Z.pow_0_r, Z.mul_1_r in Hb, Hx. split; [done|].
    by apply Hx.
Qed.

(** ** Values *)

Lemma good_finite s m e : good (S754_finite s m e) →
  s = false ∧ e = Z.max (Z.log2 (Z.pos m) - 52 + e) (-1074) ∧ e ≤ 971 ∧ Z.pos m < 2 ^ 53.
Proof.
  intros [Hv Hn]. destruct s; [done|]. simpl in Hv. unfold SpecFloat.bounded, canonical_mantissa in Hv.
  rewrite fexp_eq, digits_log2 in Hv. bprop.
  split; [done|]. split; [lia|]. split; [lia|]. apply log2_bounds; lia.
Qed.

Lemma pow_top m e : - base ≤ e → 0 ≤ m → (m < 2 ^ (1024 - e) → V m e < top) ∧ (2 ^ (1024 - e) ≤ m → e ≤ 1024 → top ≤ V m e).
Proof.
  intros He Hm. unfold top. pose proof (pow_pos (e + base) ltac:(lia)). split.
  - intros Hlt. destruct (Z.le_gt_cases e 1024).
    + rewrite (V_shift 1 1024 e) by (unfold base in *; lia). unfold V. apply Z.mul_lt_mono_pos_r; lia.
    + rewrite Z.pow_neg_r in Hlt by lia. lia.
  - intros Hle Hle'. rewrite (V_shift 1 1024 e) by (unfold base in *; lia). apply V_mono; lia.
Qed.

Lemma val_finish q e : rounded q e →
  good (finish false q e) ∧ val (finish false q e) = Z.min (V q e) top.
Proof.
  intros (Hq & He & Hn). unfold finish, good.
  assert (Hb : - base ≤ e) by (unfold base; lia).
  pose proof (V_pos 1 1024 ltac:(unfold base; lia) ltac:(lia)) as Htop. fold top in Htop.
  destruct (Z.eqb_spec q 0) as [->|Hq0].
  { simpl. split; [done|]. unfold V at 1. lia. }
  assert (Hlt : ∀ k, 0 ≤ k → q ≤ 2 ^ k → e + k < 1024 → V q e < top).
  { intros k Hk Hqk Hlt. apply pow_top; [done|lia|]. eapply Z.le_lt_trans; [exact Hqk|]. apply Z.pow_lt_mono_r; lia. }
  assert (Hge : e ≤ 1024 → 2 ^ (1024 - e) ≤ q → top ≤ V q e) by (intros; apply pow_top; auto; lia).
  destruct (Z.eqb_spec q (2 ^ 53)) as [->|Hq1].
  - destruct (Z.leb_spec (e + 1) 971).
    + assert (HV : val (S754_finite false (2 ^ 52)%positive (e + 1)) = V (2 ^ 53) e).
      { unfold val. rewrite (V_shift _ (e + 1) e) by lia. f_equal. replace (e + 1 - e) with 1 by lia. done. }
      split.
      * simpl. unfold SpecFloat.bounded, canonical_mantissa. rewrite fexp_eq. simpl digits2_pos.
        rewrite andb_true_iff, Z.eqb_eq, Z.leb_le. lia.
      * rewrite HV. pose proof (Hlt 53 ltac:(lia) ltac:(lia) ltac:(lia)). lia.
    + split; [done|]. simpl val. destruct (Z.le_gt_cases e 1024).
      * assert (top ≤ V (2 ^ 53) e); [|lia]. apply Hge; [done|]. apply Z.pow_le_mono_r; lia.
      * enough (top ≤ V (2 ^ 53) e) by lia. unfold top. rewrite (V_shift _ e 1024) by (unfold base; lia).
        apply V_mono; [unfold base; lia|]. pose proof (pow_pos (e - 1024)). nia.
  - destruct (Z.leb_spec e 971).
    + assert (Hl : Z.log2 q ≤ 52) by (enough (Z.log2 q < 53) by lia; apply Z.log2_lt_pow2; lia).
      assert (Hl' : -1074 < e → 52 ≤ Z.log2 q) by (intros; apply Z.log2_le_pow2; [lia|auto]).
      split.
      * simpl. unfold SpecFloat.bounded, canonical_mantissa. rewrite fexp_eq, digits_log2, Z2Pos.id by lia.
        rewrite andb_true_iff, Z.eqb_eq, Z.leb_le. lia.
      * unfold val. rewrite Z2Pos.id by lia. assert (V q e < top); [|lia].
        apply pow_top; [done|lia|]. apply Z.lt_le_trans with (2 ^ 53); [lia|]. apply Z.pow_le_mono_r; lia.
    + split; [done|]. simpl val. specialize (Hn ltac:(lia)). destruct (Z.le_gt_cases e 1024).
      * enough (top ≤ V q e) by lia. apply Hge; [done|]. etrans; [|exact Hn]. apply Z.pow_le_mono_r; lia.
      * enough (top ≤ V q e) by lia. unfold top. rewrite (V_shift _ e 1024) by (unfold base; lia).
        apply V_mono; [unfold base; lia|]. pose proof (pow_pos (e - 1024)). nia.
Qed.

Lemma val_range x : good x → 0 ≤ val x ≤ top.
Proof.
  assert (0 < top) by (apply V_pos; unfold base; lia).
  destruct x as [s|s| |s m e]; intros Hx; [simpl; lia| |by destruct Hx|].
  - destruct Hx as [_ Hx]. destruct s; [done|]. simpl. lia.
  - apply good_finite in Hx as (-> & He & He' & Hm). simpl.
    assert (Hb : - base ≤ e) by (unfold base; lia).
    pose proof (V_pos (Z.pos m) e Hb ltac:(lia)). split; [lia|]. apply Z.lt_le_incl, pow_top; [done|lia|].
    eapply Z.lt_le_trans; [exact Hm|]. apply Z.pow_le_mono_r; lia.
Qed.

(** Only infinity has the value [top]. *)
Lemma val_finite_lt s m e : good (S754_finite s m e) → val (S754_finite s m e) < top.
Proof.
  intros Hg. apply good_finite in Hg as (-> & He & He' & Hm). unfold val. apply pow_top; [unfold base; lia|lia|].
  eapply Z.lt_le_trans; [exact Hm|]. apply Z.pow_le_mono_r; lia.
Qed.

(** Canonical significands are compared by exponent first. *)
Lemma canonical_lt m e m' e' : good (S754_finite false m e) → good (S754_finite false m' e') →
  e < e' → V (Z.pos m) e < V (Z.pos m') e'.
Proof.
  intros Hg Hg' Hlt. apply good_finite in Hg as (_ & He & He' & Hm). apply good_finite in Hg' as (_ & Hf & Hf' & Hm').
  rewrite (V_shift (Z.pos m') e' e) by (unfold base; lia). unfold V. apply Z.mul_lt_mono_pos_r; [apply pow_pos; unfold base; lia|].
  apply Z.lt_le_trans with (2 ^ 53); [lia|].
  assert (2 ^ 52 ≤ Z.pos m') by (apply Z.log2_le_pow2; lia).
  assert (2 ^ 1 ≤ 2 ^ (e' - e)) by (apply Z.pow_le_mono_r; lia).
  change (2 ^ 53) with (2 ^ 52 * 2 ^ 1). apply Z.mul_le_mono_nonneg; lia.
Qed.

Lemma val_finite_pos s m e : good (S754_finite s m e) → 0 < val (S754_finite s m e).
Proof. intros Hg. apply good_finite in Hg as (-> & He & _). apply V_pos; unfold base; lia. Qed.

Lemma compare_good x y : good x → good y → SFcompare x y = Some (val x ?= val y).
Proof.
  intros Hx Hy.
  assert (Htop : 0 < top) by (apply V_pos; unfold base; lia).
  pose proof (Z.compare_lt_iff 0 top) as Hlt. pose proof (Z.compare_gt_iff top 0) as Hgt.
  destruct x as [s|s| |s m e]; [| |by destruct Hx|];
    try (assert (s = false) as -> by (destruct Hx as [_ Hx]; by destruct s));
    (destruct y as [s'|s'| |s' m' e']; [| |by destruct Hy|]);
    try (assert (s' = false) as -> by (destruct Hy as [_ Hy]; by destruct s'));
    try (pose proof (val_finite_pos _ _ _ Hx)); try (pose proof (val_finite_lt _ _ _ Hx));
    try (pose proof (val_finite_pos _ _ _ Hy)); try (pose proof (val_finite_lt _ _ _ Hy));
    cbn [SFcompare val] in *; f_equal; symmetry;
    try (by apply Z.compare_lt_iff); try (by apply Z.compare_gt_iff); try (by apply Z.compare_refl).
  assert (He : - base ≤ e) by (apply good_finite in Hx; unfold base; lia).
  destruct (Z.compare_spec e e') as [->|Hl|Hl].
  - change (V (Z.pos m) e' ?= V (Z.pos m') e' = (Z.pos m ?= Z.pos m')). unfold V.
    symmetry. apply Zmult_compare_compat_r. apply Z.lt_gt, pow_pos. lia.
  - apply Z.compare_lt_iff. by apply canonical_lt.
  - apply Z.compare_gt_iff. by apply canonical_lt.
Qed.

Lemma fge_good x y : good x → good y → fge x y = (val y <=? val x).
Proof. intros. unfold fge, SFleb, Z.leb. rewrite compare_good by done. by destruct (val y ?= val x). Qed.
Lemma flt_good x y : good x → good y → flt x y = (val x <? val y).
Proof. intros. unfold flt, SFltb, Z.ltb. rewrite compare_good by done. by destruct (val x ?= val y). Qed.
Lemma fgt_good x y : good x → good y → fgt x y = (val y <? val x).
Proof. intros. unfold fgt, SFltb, Z.ltb. rewrite compare_good by done. by destruct (val y ?= val x). Qed.

(** ** Rounding is monotone with respect to floats *)

Lemma round_bounds m e : - base ≤ e → -1074 ≤ e →
  let r := binary_round 53 1024 false m e in
  good r ∧ (∀ a, good a → V (Z.pos m) e ≤ val a → val r ≤ val a)
         ∧ (∀ a, good a → val a ≤ V (Z.pos m) e → val a ≤ val r).
Proof.
  intros Hb He. destruct (round_spec false m e) as (q & -> & Hr & Hle & Hge).
  set (e1 := fexp 53 1024 (Z.log2 (Z.pos m) + 1 + e)) in *. cbv zeta.
  destruct (val_finish q e1 Hr) as [Hg Hv]. split; [done|]. rewrite Hv.
  assert (He1 : e1 = Z.max (Z.log2 (Z.pos m) - 52 + e) (-1074)) by (unfold e1; rewrite fexp_eq; lia).
  assert (Hb1 : - base ≤ e1) by (unfold base; lia).
  destruct Hr as (Hq & _ & Hn).
  split; intros a Ha Hva; pose proof (val_range a Ha) as Ra.
  - destruct a as [s|s| |s ma ea]; [| |by destruct Ha|].
    + pose proof (V_pos (Z.pos m) e Hb ltac:(lia)). simpl in Hva. lia.
    + assert (s = false) as -> by (destruct Ha as [_ Ha]; by destruct s). simpl. lia.
    + apply good_finite in Ha as (-> & Hea & Hea' & Hma). simpl in Hva |- *. etrans; [apply Z.le_min_l|].
      pose proof (V_log2 (Z.pos m) e (Z.pos ma) ea Hb ltac:(unfold base; lia) ltac:(lia) ltac:(lia) Hva) as Hlog.
      rewrite (V_shift (Z.pos ma) ea e1) by lia. apply V_mono; [done|].
      destruct (Z.le_ge_cases e1 e) as [Hc|Hc].
      * rewrite (Hle Hc). apply (V_mono_inv _ _ e1 Hb1). rewrite <- !V_shift by lia. done.
      * destruct (Hge Hc) as [Hfl Hex]. pose proof (pow_pos (e1 - e) ltac:(lia)) as Hp.
        set (A := Z.pos ma * 2 ^ (ea - e1)) in *.
        assert (HmA : Z.pos m ≤ A * 2 ^ (e1 - e)).
        { apply (V_mono_inv _ _ e Hb). rewrite <- V_shift by lia. unfold A. by rewrite <- V_shift by lia. }
        destruct (Z.eq_dec (Z.pos m) (A * 2 ^ (e1 - e))) as [E|E].
        -- rewrite Hex by (by exists A). rewrite E, Z.div_mul by lia. done.
        -- assert (Z.pos m / 2 ^ (e1 - e) < A) by (apply Z.div_lt_upper_bound; lia). lia.
  - destruct a as [s|s| |s ma ea]; [| |by destruct Ha|].
    + simpl. apply Z.min_glb; [|simpl in Ra; lia]. unfold V. pose proof (pow_pos (e1 + base) ltac:(lia)). nia.
    + assert (s = false) as -> by (destruct Ha as [_ Ha]; by destruct s). simpl in Hva |- *.
      apply Z.min_glb; [|done]. unfold top in Hva |- *.
      pose proof (V_log2 1 1024 (Z.pos m) e ltac:(unfold base; lia) Hb ltac:(lia) ltac:(lia) Hva) as Hlog.
      change (Z.log2 1) with 0 in Hlog.
      specialize (Hn ltac:(lia)). destruct (Z.le_gt_cases e1 1024).
      * apply pow_top; [done|lia| |done]. etrans; [|exact Hn]. apply Z.pow_le_mono_r; lia.
      * rewrite (V_shift _ e1 1024) by (unfold base; lia). apply V_mono; [unfold base; lia|].
        pose proof (pow_pos (e1 - 1024)). nia.
    + apply Z.min_glb; [|lia]. pose proof Ha as Ha'.
      apply good_finite in Ha' as (-> & Hea & Hea' & Hma). simpl in Hva |- *.
      pose proof (V_log2 (Z.pos ma) ea (Z.pos m) e ltac:(unfold base; lia) Hb ltac:(lia) ltac:(lia) Hva) as Hlog.
      destruct (Z.lt_ge_cases ea e1) as [Hl|Hl].
      * rewrite (V_shift q e1 ea) by (unfold base; lia). apply V_mono; [unfold base; lia|].
        apply Z.le_trans with (2 ^ 53); [lia|]. specialize (Hn ltac:(lia)).
        assert (2 ^ 1 ≤ 2 ^ (e1 - ea)) by (apply Z.pow_le_mono_r; lia).
        change (2 ^ 53) with (2 ^ 52 * 2 ^ 1). apply Z.mul_le_mono_nonneg; lia.
      * assert (ea = e1) as -> by lia. apply V_mono; [done|].
        destruct (Z.le_ge_cases e1 e) as [Hc|Hc].
        -- rewrite (Hle Hc). apply (V_mono_inv _ _ e1 Hb1). by rewrite <- V_shift by lia.
        -- destruct (Hge Hc) as [[Hfl _] _]. etrans; [|exact Hfl].
           apply Z.div_le_lower_bound; [apply pow_pos; lia|]. apply (V_mono_inv _ _ e Hb).
           rewrite Z.mul_comm. by rewrite <- V_shift by lia.
Qed.

(** ** Operations *)

(** [r] is [v] rounded: every float that bounds [v] bounds [r]. *)
Definition rounds_to (v : Z) (r : float64) : Prop :=
  good r ∧ (∀ a, good a → v ≤ val a → val r ≤ val a) ∧ (∀ a, good a → val a ≤ v → val a ≤ val r).

Lemma rounds_self x : good x → rounds_to (val x) x.
Proof. intros. split; [done|]. split; auto. Qed.

(** A value that is a float is not changed by rounding. *)
Lemma rounds_exact v r a : rounds_to v r → good a → val a = v → val r = v.
Proof. intros (Hg & Hu & Hl) Ha <-. apply Z.le_antisymm; auto with lia. Qed.

Lemma good_zero s : good (S754_zero s).
Proof. done. Qed.
Lemma good_inf : good (S754_infinity false).
Proof. done. Qed.

Lemma normalize_rounds z e s : 0 ≤ z → -1074 ≤ e → rounds_to (V z e) (binary_normalize 53 1024 z e s).
Proof.
  intros Hz He. destruct z as [|m|]; [|by apply round_bounds; [unfold base; lia|]|lia].
  apply (rounds_self (S754_zero s)). apply good_zero.
Qed.

Lemma shl_align_fst m e ez : ez ≤ e → Z.pos (shl_align m e ez).1 = Z.pos m * 2 ^ (e - ez).
Proof.
  intros Hz. pose proof (shl_align_spec m e ez) as Hs. destruct (shl_align m e ez) as [m' e'].
  destruct Hs as [-> Hs]. simpl fst. rewrite Hs. do 2 f_equal. lia.
Qed.

Lemma good_exp s m e : good (S754_finite s m e) → s = false ∧ -1074 ≤ e.
Proof. intros H. apply good_finite in H as (-> & ? & _). split; [done|lia]. Qed.

Lemma fadd_rounds x y : good x → good y → rounds_to (val x + val y) (fadd x y).
Proof.
  intros Hx Hy. pose proof (val_range x Hx). pose proof (val_range y Hy).
  assert (Hinf : ∀ v, top ≤ v → rounds_to v (S754_infinity false)).
  { intros v Hv. split; [done|]. split; intros a Ha; pose proof (val_range a Ha); simpl; lia. }
  destruct x as [s|s| |s m e]; [| |by destruct Hx|];
    try (assert (s = false) as -> by (destruct Hx as [_ Hx]; by destruct s));
    (destruct y as [s'|s'| |s' m' e']; [| |by destruct Hy|]);
    try (assert (s' = false) as -> by (destruct Hy as [_ Hy]; by destruct s')); cbn [fadd SFadd];
    try (apply Hinf; simpl in *; lia).
  - destruct s, s'; by apply (rounds_self (S754_zero _)).
  - by apply (rounds_self (S754_finite _ _ _)).
  - change (val (S754_zero s')) with 0. rewrite Z.add_0_r. by apply (rounds_self (S754_finite _ _ _)).
  - apply good_exp in Hx as [_ He], Hy as [_ He']. unfold fadd, SFadd, cond_Zopp.
    rewrite !shl_align_fst by lia.
    assert (val (S754_finite false m e) + val (S754_finite false m' e')
            = V (Z.pos m * 2 ^ (e - Z.min e e') + Z.pos m' * 2 ^ (e' - Z.min e e')) (Z.min e e')) as ->.
    { unfold val. rewrite (V_shift (Z.pos m) e (Z.min e e')), (V_shift (Z.pos m') e' (Z.min e e')) by (unfold base; lia).
      unfold V. ring. }
    apply normalize_rounds; [|lia]. pose proof (pow_pos (e - Z.min e e')). pose proof (pow_pos (e' - Z.min e e')). nia.
Qed.

Lemma fsub_rounds x y : good x → good y → val y ≤ val x → val x < top → rounds_to (val x - val y) (fsub x y).
Proof.
  intros Hx Hy Hle Hfin. 
  destruct x as [s|s| |s m e]; [| |by destruct Hx|];
    try (assert (s = false) as -> by (destruct Hx as [_ Hx]; by destruct s));
    (destruct y as [s'|s'| |s' m' e']; [| |by destruct Hy|]);
    try (assert (s' = false) as -> by (destruct Hy as [_ Hy]; by destruct s'));
    try (pose proof (val_finite_pos _ _ _ Hy)); try (cbn [val] in *; lia).
  - destruct s, s'; by apply (rounds_self (S754_zero _)).
  - change (val (S754_zero s')) with 0. rewrite Z.sub_0_r. by apply (rounds_self (S754_finite _ _ _)).
  - apply good_exp in Hx as [_ He], Hy as [_ He']. unfold fsub, SFsub, cond_Zopp.
    rewrite !shl_align_fst by lia. unfold val in *.
    rewrite (V_shift (Z.pos m) e (Z.min e e')), (V_shift (Z.pos m') e' (Z.min e e')) in * by (unfold base; lia).
    apply V_mono_inv in Hle; [|unfold base; lia]. unfold V at 1 2. rewrite <- Z.mul_sub_distr_r.
    apply normalize_rounds; lia.
Qed.

Lemma fmul_good x y : good x → good y → 0 < val y < top → good (fmul x y).
Proof.
  intros Hx Hy Hv. destruct y as [s'|s'| |s' m' e']; [simpl in Hv; lia| |by destruct Hy|].
  { assert (s' = false) as -> by (destruct Hy as [_ Hy]; by destruct s'). simpl in Hv. lia. }
  destruct x as [s|s| |s m e]; [done| |by destruct Hx|].
  { assert (s = false) as -> by (destruct Hx as [_ Hx]; by destruct s). apply good_exp in Hy as [-> _]. done. }
  apply good_finite in Hx as (-> & He & _ & _), Hy as (-> & He' & _ & _). unfold fmul, SFmul.
  pose proof (round_aux_spec false (Z.pos (m * m')) (e + e') loc_Exact ltac:(lia)) as Ha. cbv zeta in Ha.
  destruct Ha as (q & Hq & Hr & _); [|change (xorb false false) with false; rewrite Hq; by apply val_finish].
  rewrite fexp_eq, Zdigits_log2, Pos2Z.inj_mul by lia.
  pose proof (Z.log2_mul_below (Z.pos m) (Z.pos m') ltac:(lia) ltac:(lia)).
  pose proof (Z.log2_nonneg (Z.pos m)). pose proof (Z.log2_nonneg (Z.pos m')). lia.
Qed.

Lemma fdiv_good x y : good x → good y → 0 < val y < top → good (fdiv x y).
Proof.
  intros Hx Hy Hv. destruct y as [s'|s'| |s' m2 e2]; [simpl in Hv; lia| |by destruct Hy|].
  { assert (s' = false) as -> by (destruct Hy as [_ Hy]; by destruct s'). simpl in Hv. lia. }
  destruct x as [s|s| |s m1 e1]; [done| |by destruct Hx|].
  { assert (s = false) as -> by (destruct Hx as [_ Hx]; by destruct s). apply good_exp in Hy as [-> _]. done. }
  apply good_exp in Hx as [-> _], Hy as [-> _]. unfold fdiv, SFdiv, SFdiv_core_binary.
  rewrite !Zdigits_log2, fexp_eq by lia. set (D := Z.log2 (Z.pos m1) + 1 + e1 - (Z.log2 (Z.pos m2) + 1 + e2)).
  set (e' := Z.min (Z.max (D - 53) (-1074)) (e1 - e2)). cbv zeta.
  assert (Hs : 0 ≤ e1 - e2 - e') by lia.
  assert (match e1 - e2 - e' with Z0 => Z.pos m1 | Z.pos _ => Z.shiftl (Z.pos m1) (e1 - e2 - e') | Z.neg _ => 0 end
          = Z.pos m1 * 2 ^ (e1 - e2 - e')) as ->.
  { rewrite <- Z.shiftl_mul_pow2 by done. destruct (e1 - e2 - e') eqn:E; [by rewrite Z.shiftl_0_r|done|lia]. }
  set (m' := Z.pos m1 * 2 ^ (e1 - e2 - e')).
  assert (Hm' : 2 ^ (Z.log2 (Z.pos m1) + (e1 - e2 - e')) ≤ m').
  { pose proof (Z.log2_nonneg (Z.pos m1)). unfold m'. rewrite Z.pow_add_r by lia.
    apply Z.mul_le_mono_nonneg_r; [apply Z.lt_le_incl, pow_pos; lia|]. apply Z.log2_spec. lia. }
  pose proof (pow_pos (Z.log2 (Z.pos m1) + (e1 - e2 - e'))) as Hp. pose proof (Z.log2_nonneg (Z.pos m1)).
  destruct (Z.div_eucl m' (Z.pos m2)) as [q r] eqn:E.
  assert (Hq : q = m' / Z.pos m2) by (unfold Z.div; by rewrite E).
  assert (Hq0 : 0 ≤ q) by (rewrite Hq; apply Z.div_pos; lia).
  pose proof (round_aux_spec false q e' (new_location (Z.pos m2) r) Hq0) as Ha. cbv zeta in Ha.
  destruct Ha as (k & Hk & Hr & _); [|change (xorb false false) with false; rewrite Hk; by apply val_finish].
  assert (Hm2 : m' < (q + 1) * Z.pos m2) by (rewrite Hq; pose proof (Z.mul_succ_div_gt m' (Z.pos m2) ltac:(lia)); lia).
  destruct (Z.log2_spec (Z.pos m2) ltac:(lia)) as [_ Hb2]. rewrite fexp_eq.
  assert (Hlog : Z.log2 (Z.pos m1) + (e1 - e2 - e') < Zdigits2 q + (Z.log2 (Z.pos m2) + 1)).
  { pose proof (Z.log2_nonneg (Z.pos m2)).
    assert (Hq1 : q + 1 ≤ 2 ^ Zdigits2 q ∧ 0 ≤ Zdigits2 q).
    { destruct (Z.eq_dec q 0) as [->|]; [done|]. rewrite Zdigits_log2 by lia. pose proof (Z.log2_nonneg q).
      split; [|lia]. destruct (Z.log2_spec q ltac:(lia)). rewrite Z.add_1_r in *. lia. }
    apply (Z.pow_lt_mono_r_iff 2); [lia|lia|].
    rewrite (Z.pow_add_r 2 (Zdigits2 q)) by lia. rewrite <- Z.add_1_r in Hb2.
    eapply Z.le_lt_trans; [exact Hm'|]. eapply Z.lt_le_trans; [exact Hm2|].
    apply Z.mul_le_mono_nonneg; lia. }
  unfold D in e'. unfold e' in *. lia.
Qed.

(** ** Integers *)

Lemma of_int_rounds z : 0 ≤ z → rounds_to (V z 0) (float_of_int z).
Proof. intros. by apply normalize_rounds. Qed.

Lemma of_int_good z : 0 ≤ z → good (float_of_int z).
Proof. intros. by apply of_int_rounds. Qed.

(** Integers of 53 bits are exact. *)
Lemma of_int_val z : 0 ≤ z ≤ 2 ^ 53 → val (float_of_int z) = V z 0.
Proof.
  intros Hz. destruct (Z.eq_dec z (2 ^ 53)) as [->|Hne]; [reflexivity|].
  destruct z as [|m|]; [done| |lia]. change (float_of_int (Z.pos m)) with (binary_round 53 1024 false m 0).
  destruct (round_spec false m 0) as (q & -> & Hr & Hle & _).
  rewrite fexp_eq in *. assert (Z.log2 (Z.pos m) < 53) by (apply Z.log2_lt_pow2; lia).
  set (e1 := Z.max (Z.log2 (Z.pos m) + 1 + 0 - 53) (-1074)) in *.
  destruct (val_finish q e1 Hr) as [_ ->]. rewrite Hle by lia.
  rewrite <- V_shift by (unfold base; lia). apply Z.min_l, Z.lt_le_incl, pow_top; [unfold base; lia|lia|].
  eapply Z.le_lt_trans; [apply Hz|]. apply Z.pow_lt_mono_r; lia.
Qed.

Lemma of_int_finite z : 0 ≤ z ≤ 2 ^ 63 → val (float_of_int z) < top.
Proof.
  intros Hz. destruct (of_int_rounds z ltac:(lia)) as (_ & Hu & _).
  specialize (Hu (float_of_int (2 ^ 63)) ltac:(by apply of_int_good)).
  apply Z.le_lt_trans with (val (float_of_int (2 ^ 63))); [apply Hu|done].
  change (val (float_of_int (2 ^ 63))) with (V (2 ^ 52) 11). rewrite (V_shift _ 11 0) by (unfold base; lia).
  apply V_mono; [unfold base; lia|]. change (2 ^ 52 * 2 ^ (11 - 0)) with (2 ^ 63). lia.
Qed.

Lemma of_int_pos z : 0 < z → 0 < val (float_of_int z).
Proof.
  intros Hz. destruct (of_int_rounds z ltac:(lia)) as (_ & _ & Hl).
  specialize (Hl (float_of_int 1) ltac:(by apply of_int_good)). rewrite of_int_val in Hl by lia.
  apply Z.lt_le_trans with (V 1 0); [apply V_pos; unfold base; lia|]. apply Hl, V_mono; [unfold base; lia|lia].
Qed.

Lemma fsub_int a b : 0 ≤ b ≤ a → a ≤ 2 ^ 53 → val (fsub (float_of_int a) (float_of_int b)) = V (a - b) 0.
Proof.
  intros Hb Ha.
  assert (Hsub : V a 0 - V b 0 = V (a - b) 0) by (unfold V; ring).
  rewrite <- Hsub. rewrite <- (of_int_val a), <- (of_int_val b) by lia.
  apply (rounds_exact _ _ (float_of_int (a - b))); [|by apply of_int_good; lia|].
  - apply fsub_rounds; [apply of_int_good; lia..| |apply of_int_finite; lia].
    rewrite !of_int_val by lia. apply V_mono; [unfold base; lia|lia].
  - rewrite !of_int_val by lia. by rewrite Hsub.
Qed.

(** A good float that has the value of an integer compares like it. *)
Lemma V0_le a b : V a 0 ≤ V b 0 ↔ a ≤ b.
Proof. split; intros; [by apply (V_mono_inv _ _ 0); [unfold base; lia|]|apply V_mono; [unfold base; lia|done]]. Qed.

Lemma Seconds_good d : 0 ≤ d → good (Seconds d).
Proof.
  intros Hd. unfold Seconds. apply fadd_rounds.
  - apply of_int_good. apply Z.quot_pos; unfold second; lia.
  - apply fdiv_good.
    + apply of_int_good. apply Z.rem_nonneg; unfold second; lia.
    + by apply of_int_good.
    + split; [by apply of_int_pos|by apply of_int_finite].
Qed.
