(* ===== verification/GoStrings.v ===== *)
(** Go strings and the standard library functions on them.

    Go strings are byte strings ([string]).  The functions the code calls are
    modelled here: [strings.TrimSpace] (with the UTF-8 encodings of Unicode's white
    space), [strings.ToLower] and [ToUpper] on ASCII, searching, cutting and
    splitting, [strconv.Atoi], [ParseInt], [ParseUint] and [FormatUint] in base 10,
    [net.SplitHostPort], and [http.Header], whose [Set] and [Values] canonicalise the
    name. *)

From S2P Require Import Prelude.
From Stdlib Require Import Ascii.

(** ** strconv, base 10 *)

Definition digit (c : ascii) : option Z :=
  let n := Z.of_nat (nat_of_ascii c) - 48 in
  if (0 <=? n) && (n <=? 9) then Some n else None.

(** The value of a string of digits after the prefix worth [acc]. *)
Fixpoint digits (acc : Z) (s : string) : option Z :=
  match s with
  | EmptyString => Some acc
  | String c s => match digit c with
      | Some d => digits (acc * 10 + d) s
      | None => None end
  end.

(** A syntax error and a range error are both [None]. *)
Definition ParseUint (s : string) (max : Z) : option Z :=
  match s with
  | EmptyString => None
  | _ => match digits 0 s with
      | Some v => if v <=? max then Some v else None
      | None => None end
  end.

Definition ParseInt (s : string) : option Z :=
  match s with
  | EmptyString => None
  | String c rest =>
      if Ascii.eqb c "-" then match ParseUint rest two63 with Some v => Some (- v) | None => None end
      else if Ascii.eqb c "+" then ParseUint rest max_int64
      else ParseUint s max_int64
  end.

(** The value [strconv.ParseInt] returns beside its error: 0 on bad syntax, the nearest
    int64 out of range. *)
Definition ParseIntValue (s : string) : Z :=
  match ParseInt s with
  | Some v => v
  | None =>
      let '(neg, ds) := match s with
        | String c s' => if Ascii.eqb c "-" then (true, s') else if Ascii.eqb c "+" then (false, s') else (false, s)
        | EmptyString => (false, s) end in
      match ds, digits 0 ds with
      | EmptyString, _ | _, None => 0
      | _, Some _ => if neg then min_int64 else max_int64
      end
  end.

(** [int] has 64 bits. *)
Definition Atoi (s : string) : option Z := ParseInt s.

Definition digitChar (d : Z) : ascii := ascii_of_nat (Z.to_nat (48 + d)).

(** The digits of [n] before [acc]; [fuel] bounds their number. *)
Fixpoint formatDigits (fuel : nat) (n : Z) (acc : string) : string :=
  match fuel with
  | O => acc
  | S fuel =>
      let acc := String (digitChar (n mod 10)) acc in
      if n <? 10 then acc else formatDigits fuel (n / 10) acc
  end.

(** Twenty digits hold every uint64. *)
Definition FormatUint (n : Z) : string := formatDigits 20 n "".

(** [strconv.FormatInt(n, 10)] *)
Definition FormatInt (n : Z) : string :=
  if n <? 0 then String "-" (FormatUint (- n)) else FormatUint n.

(** ** strings.TrimSpace *)

(** The bytes listed, as a string. *)
Fixpoint bytes (l : list nat) : string :=
  match l with [] => "" | n :: l => String (ascii_of_nat n) (bytes l) end.

(** The UTF-8 encodings of the characters with the White_Space property. *)
Definition spaces : list string :=
  map bytes ([[9]; [10]; [11]; [12]; [13]; [32]; [194; 133]; [194; 160]; [225; 154; 128];
    [226; 128; 168]; [226; 128; 169]; [226; 128; 175]; [226; 129; 159]; [227; 128; 128]]
    ++ map (λ k, [226; 128; 128 + k]%nat) (seq 0 11))%nat.

Definition stripPrefix (p s : string) : option string :=
  if String.prefix p s then Some (String.substring (String.length p) (String.length s - String.length p) s)
  else None.

Definition stripSuffix (p s : string) : option string :=
  let n := (String.length s - String.length p)%nat in
  if (String.length p <=? String.length s)%nat && String.eqb (String.substring n (String.length p) s) p
  then Some (String.substring 0 n s) else None.

Fixpoint firstSome {A B} (f : A → option B) (l : list A) : option B :=
  match l with [] => None | x :: l => match f x with Some y => Some y | None => firstSome f l end end.

Fixpoint trimWith (strip : string → option string) (fuel : nat) (s : string) : string :=
  match fuel with
  | O => s
  | S fuel => match strip s with Some s => trimWith strip fuel s | None => s end
  end.

(** Each step removes at least one byte, so the length is enough fuel. *)
Definition TrimSpace (s : string) : string :=
  let s := trimWith (λ s, firstSome (λ p, stripPrefix p s) spaces) (String.length s) s in
  trimWith (λ s, firstSome (λ p, stripSuffix p s) spaces) (String.length s) s.

(** ** http.Header *)

Definition toUpper (c : ascii) : ascii :=
  let n := nat_of_ascii c in if (97 <=? n)%nat && (n <=? 122)%nat then ascii_of_nat (n - 32) else c.
Definition toLower (c : ascii) : ascii :=
  let n := nat_of_ascii c in if (65 <=? n)%nat && (n <=? 90)%nat then ascii_of_nat (n + 32) else c.

(** [textproto.CanonicalMIMEHeaderKey] on a valid field name: upper case at the
    start and after a hyphen. *)
Fixpoint canonical (upper : bool) (s : string) : string :=
  match s with
  | EmptyString => EmptyString
  | String c s => String (if upper then toUpper c else toLower c) (canonical (Ascii.eqb c "-") s)
  end.
Definition CanonicalMIMEHeaderKey (s : string) : string := canonical true s.

Definition Set_ (h : gmap string (list string)) (name value : string) : gmap string (list string) :=
  <[CanonicalMIMEHeaderKey name := [value]]> h.
Definition Values (h : gmap string (list string)) (name : string) : list string :=
  default [] (h !! CanonicalMIMEHeaderKey name).

(** ** Decimal numbers *)

Lemma digit_digitChar d : 0 ≤ d ≤ 9 → digit (digitChar d) = Some d.
Proof.
  intros Hd. unfold digitChar. assert (∃ n, d = Z.of_nat n ∧ (n ≤ 9)%nat) as (n & -> & Hn).
  { exists (Z.to_nat d). lia. }
  do 10 (destruct n as [|n]; [reflexivity|]). lia.
Qed.

Lemma digits_format fuel : ∀ n s, 0 ≤ n < 10 ^ Z.of_nat fuel →
  digits 0 (formatDigits fuel n s) = digits n s.
Proof.
  induction fuel as [|fuel IH]; intros n s Hn.
  - simpl in *. by assert (n = 0) as -> by lia.
  - simpl. pose proof (Z.mod_pos_bound n 10 ltac:(lia)). pose proof (Z.div_mod n 10 ltac:(lia)).
    destruct (Z.ltb_spec n 10).
    + rewrite Z.mod_small by lia. simpl. by rewrite digit_digitChar by lia.
    + rewrite Nat2Z.inj_succ, Z.pow_succ_r in Hn by lia. rewrite IH.
      * simpl. rewrite digit_digitChar by lia. f_equal. lia.
      * split; [apply Z.div_pos; lia|apply Z.div_lt_upper_bound; lia].
Qed.

Lemma digits_nonneg s : ∀ acc v, digits acc s = Some v → 0 ≤ acc → 0 ≤ v.
Proof.
  induction s as [|c s IH]; intros acc v H Ha; simpl in H; [by injection H as <-|].
  destruct (digit c) as [d|] eqn:E; [|done]. apply (IH _ _ H).
  unfold digit in E. case_hyp E; [|done]. injection E as <-. bprop. lia.
Qed.

Lemma format_nonempty fuel : ∀ n s, (0 < fuel)%nat → formatDigits fuel n s ≠ "".
Proof.
  induction fuel as [|fuel IH]; intros n s Hf; [lia|]. simpl. case_goal; [done|].
  destruct fuel; [done|]. apply IH. lia.
Qed.

Lemma ParseUint_FormatUint v max : 0 ≤ v ≤ max → max < two64 → ParseUint (FormatUint v) max = Some v.
Proof.
  intros Hv Hm. unfold ParseUint.
  assert (Hne : FormatUint v ≠ "") by (apply format_nonempty; lia).
  assert (Hd : digits 0 (FormatUint v) = Some v).
  { unfold FormatUint. rewrite digits_format; [done|]. unfold two64 in Hm. simpl. lia. }
  destruct (FormatUint v); [done|]. rewrite Hd. by destruct (Z.leb_spec v max); [|lia].
Qed.

(** A string that starts with a digit has no sign. *)
Lemma ParseInt_unsigned s v : ParseUint s max_int64 = Some v → ParseInt s = Some v.
Proof.
  destruct s as [|c s]; [done|]. intros H.
  assert (Hd : ∃ d, digit c = Some d).
  { unfold ParseUint in H. simpl in H. destruct (digit c) as [d|]; [eauto|done]. }
  destruct Hd as [d Hd]. unfold ParseInt.
  destruct (Ascii.eqb_spec c "-") as [->|]; [done|]. by destruct (Ascii.eqb_spec c "+") as [->|].
Qed.

Lemma ParseInt_FormatInt n : in_i64 n → ParseInt (FormatInt n) = Some n.
Proof.
  unfold in_i64. intros H. unfold FormatInt. destruct (Z.ltb_spec n 0).
  - cbn [ParseInt]. rewrite Ascii.eqb_refl. rewrite ParseUint_FormatUint by (unfold min_int64, two63, two64 in *; lia).
    f_equal. lia.
  - apply ParseInt_unsigned, ParseUint_FormatUint; unfold max_int64, two64 in *; lia.
Qed.

Lemma FormatInt_inj a b : in_i64 a → in_i64 b → FormatInt a = FormatInt b → a = b.
Proof. intros Ha Hb E. apply ParseInt_FormatInt in Ha, Hb. congruence. Qed.

Lemma Atoi_FormatUint n : 0 ≤ n ≤ max_int64 → Atoi (FormatUint n) = Some n.
Proof. intros Hn. by apply ParseInt_unsigned, ParseUint_FormatUint. Qed.

(** ** White space *)

Definition printableChar (c : ascii) : bool :=
  let n := nat_of_ascii c in (33 <=? n)%nat && (n <=? 126)%nat.
Fixpoint printable (s : string) : bool :=
  match s with EmptyString => true | String c s => printableChar c && printable s end.

Lemma printable_substring s : ∀ n m, printable s = true → printable (String.substring n m s) = true.
Proof.
  induction s as [|c s IH]; intros n m H; [by destruct n, m|].
  simpl in H. bprop. destruct n as [|n].
  - destruct m as [|m]; [done|]. simpl. rewrite H. simpl. by apply IH.
  - simpl. by apply IH.
Qed.

Lemma firstSome_None {A B} (f : A → option B) l : (∀ x, x ∈ l → f x = None) → firstSome f l = None.
Proof.
  induction l as [|x l IH]; intros H; [done|]. simpl. rewrite H by set_solver. apply IH. set_solver.
Qed.

Lemma spaces_unprintable p : p ∈ spaces → printable p = false.
Proof.
  assert (H : Forall (λ p, printable p = false) spaces).
  { apply (bool_decide_unpack _). vm_compute. exact I. }
  rewrite Forall_forall in H. apply H.
Qed.

Lemma trimWith_stop strip fuel s : strip s = None → trimWith strip fuel s = s.
Proof. intros H. destruct fuel; simpl; [done|]. by rewrite H. Qed.

(** A string without white space is its own trim. *)
Lemma TrimSpace_printable s : printable s = true → TrimSpace s = s.
Proof.
  intros H.
  assert (Hp : firstSome (λ p, stripPrefix p s) spaces = None).
  { apply firstSome_None. intros p Hin. unfold stripPrefix. destruct (String.prefix p s) eqn:E; [|done].
    apply String.prefix_correct in E. pose proof (printable_substring s 0 (String.length p) H) as Hs.
    rewrite E, (spaces_unprintable _ Hin) in Hs. done. }
  assert (Hsx : firstSome (λ p, stripSuffix p s) spaces = None).
  { apply firstSome_None. intros p Hin. unfold stripSuffix. case_goal; [|done]. bprop.
    match goal with E : String.substring ?n ?m s = p |- _ =>
      pose proof (printable_substring s n m H) as Hs; rewrite E, (spaces_unprintable _ Hin) in Hs; done end. }
  unfold TrimSpace.
  rewrite (trimWith_stop (λ s, firstSome (λ p, stripPrefix p s) spaces) _ s Hp).
  by rewrite (trimWith_stop (λ s, firstSome (λ p, stripSuffix p s) spaces) _ s Hsx).
Qed.

Lemma format_printable fuel : ∀ n s, 0 ≤ n → printable s = true → printable (formatDigits fuel n s) = true.
Proof.
  induction fuel as [|fuel IH]; intros n s Hn H; [done|]. simpl.
  assert (Hd : printable (String (digitChar (n mod 10)) s) = true).
  { simpl. rewrite H, andb_true_r. pose proof (Z.mod_pos_bound n 10 ltac:(lia)).
    pose proof (digit_digitChar (n mod 10) ltac:(lia)) as E. unfold digit in E. unfold printableChar.
    case_hyp E; [|done]. bprop. apply andb_true_iff. rewrite !Nat.leb_le. lia. }
  case_goal; [done|]. apply IH; [apply Z.div_pos; lia|done].
Qed.

Lemma TrimSpace_FormatUint n : 0 ≤ n → TrimSpace (FormatUint n) = FormatUint n.
Proof. intros Hn. apply TrimSpace_printable. by apply format_printable. Qed.


(** ** strings: case, searching, cutting *)

Fixpoint mapString (f : ascii → ascii) (s : string) : string :=
  match s with EmptyString => EmptyString | String c s => String (f c) (mapString f s) end.

(** On ASCII; other bytes are left alone. *)
Definition ToLower (s : string) : string := mapString toLower s.
Definition ToUpper (s : string) : string := mapString toUpper s.

(** [strings.EqualFold] on ASCII. *)
Definition EqualFold (a b : string) : bool := String.eqb (ToLower a) (ToLower b).

Definition HasPrefix (s p : string) : bool := String.prefix p s.
Definition HasSuffix (s p : string) : bool := bool_decide (is_Some (stripSuffix p s)).
Definition TrimSuffix (s p : string) : string := default s (stripSuffix p s).
Definition TrimPrefix (s p : string) : string := default s (stripPrefix p s).

Fixpoint containsByte (c : ascii) (s : string) : bool :=
  match s with EmptyString => false | String d s => Ascii.eqb d c || containsByte c s end.

Fixpoint countByte (c : ascii) (s : string) : nat :=
  match s with
  | EmptyString => 0
  | String d s => ((if Ascii.eqb d c then 1 else 0) + countByte c s)%nat
  end.

(** [strings.Cut] around the first occurrence of a byte. *)
Fixpoint Cut (c : ascii) (s : string) : option (string * string) :=
  match s with
  | EmptyString => None
  | String d s =>
      if Ascii.eqb d c then Some ("", s)
      else match Cut c s with Some (a, b) => Some (String d a, b) | None => None end
  end.

(** The same around the last occurrence ([LastIndexByte]). *)
Fixpoint CutLast (c : ascii) (s : string) : option (string * string) :=
  match s with
  | EmptyString => None
  | String d s =>
      match CutLast c s with
      | Some (a, b) => Some (String d a, b)
      | None => if Ascii.eqb d c then Some ("", s) else None
      end
  end.

(** [strings.Split] at every occurrence of a byte. *)
Fixpoint Split (c : ascii) (s : string) : list string :=
  match s with
  | EmptyString => [""]
  | String d s =>
      if Ascii.eqb d c then "" :: Split c s
      else match Split c s with
           | w :: ws => String d w :: ws
           | [] => [String d ""]
           end
  end.

(** [strings.Trim] with a cutset given as a predicate. *)
Definition trimLeftBy (f : ascii → bool) : string → string :=
  fix go s := match s with EmptyString => EmptyString | String c r => if f c then go r else s end.
Fixpoint trimRightBy (f : ascii → bool) (s : string) : string :=
  match s with
  | EmptyString => EmptyString
  | String c r =>
      match trimRightBy f r with
      | EmptyString => if f c then EmptyString else String c EmptyString
      | r' => String c r'
      end
  end.
Definition TrimBy (f : ascii → bool) (s : string) : string := trimRightBy f (trimLeftBy f s).

(** ** net.SplitHostPort *)

Definition startsWith (c : ascii) (s : string) : bool :=
  match s with String d _ => Ascii.eqb d c | EmptyString => false end.

Definition tail (s : string) : string :=
  match s with String _ r => r | EmptyString => EmptyString end.

(** Every error is [None]. *)
Definition SplitHostPort (hostport : string) : option (string * string) :=
  match CutLast ":" hostport with
  | None => None
  | Some (pre, port) =>
      if startsWith "[" hostport then
        match Cut "]" hostport with
        | None => None
        | Some (open, rest) =>
            if String.eqb pre (open ++ "]")
               && negb (containsByte "[" (tail hostport)) && negb (containsByte "]" rest)
            then Some (tail open, port) else None
        end
      else if containsByte ":" pre then None
      else if containsByte "[" hostport || containsByte "]" hostport then None
      else Some (pre, port)
  end.

Example split_1 : SplitHostPort "[::1]:443" = Some ("::1", "443").
Proof. reflexivity. Qed.
Example split_2 : SplitHostPort "::1:443" = None.
Proof. reflexivity. Qed.
Example split_3 : SplitHostPort "example.com:80" = Some ("example.com", "80").
Proof. reflexivity. Qed.
Example split_4 : SplitHostPort "[::1]x:80" = None.
Proof. reflexivity. Qed.

(** ** Lemmas *)

(** The library keeps [simpl] from unfolding [++]; these equations do it. *)
Lemma string_app_cons c (a b : string) : (String c a ++ b)%string = String c (a ++ b).
Proof. done. Qed.
Lemma string_app_nil (b : string) : ("" ++ b)%string = b.
Proof. done. Qed.
Create Rewrite HintDb gostring.
#[export] Hint Rewrite string_app_cons string_app_nil : gostring.

Lemma string_app_assoc (a b c : string) : ((a ++ b) ++ c)%string = (a ++ (b ++ c))%string.
Proof. induction a as [|x a IH]; autorewrite with gostring; [done|]. by rewrite IH. Qed.

Lemma Cut_app c a b : containsByte c a = false → Cut c (a ++ String c b) = Some (a, b).
Proof.
  induction a as [|d a IH]; autorewrite with gostring; simpl; intros H.
  - by rewrite Ascii.eqb_refl.
  - apply orb_false_iff in H as [Hd H]. rewrite Hd, IH by done. done.
Qed.

Lemma Cut_Some c s a b : Cut c s = Some (a, b) → s = (a ++ String c b)%string ∧ containsByte c a = false.
Proof.
  revert a b. induction s as [|d s IH]; intros a b H; simpl in H; [done|].
  destruct (Ascii.eqb_spec d c) as [->|Hne].
  - injection H as <- <-. done.
  - destruct (Cut c s) as [[a' b']|] eqn:E; [|done]. injection H as <- <-.
    destruct (IH _ _ eq_refl) as [-> Hc]. simpl. by destruct (Ascii.eqb_spec d c).
Qed.

Lemma containsByte_app c a b : containsByte c (a ++ b) = containsByte c a || containsByte c b.
Proof. induction a as [|d a IH]; autorewrite with gostring; simpl; [done|]. by rewrite IH, orb_assoc. Qed.

Lemma CutLast_None c s : containsByte c s = false → CutLast c s = None.
Proof.
  induction s as [|d s IH]; simpl; intros H; [done|]. apply orb_false_iff in H as [Hd H].
  by rewrite IH, Hd.
Qed.

Lemma CutLast_None_inv c s : CutLast c s = None → containsByte c s = false.
Proof.
  induction s as [|d s IH]; simpl; [done|].
  destruct (CutLast c s) as [[? ?]|]; [done|]. destruct (Ascii.eqb d c); [done|]. intros _. by rewrite IH.
Qed.

Lemma CutLast_app c a b : containsByte c b = false → CutLast c (a ++ String c b) = Some (a, b).
Proof.
  intros Hb. induction a as [|d a IH]; autorewrite with gostring; simpl.
  - by rewrite CutLast_None, Ascii.eqb_refl by done.
  - by rewrite IH.
Qed.

Lemma CutLast_Some c s a b : CutLast c s = Some (a, b) → s = (a ++ String c b)%string ∧ containsByte c b = false.
Proof.
  revert a b. induction s as [|d s IH]; intros a b H; simpl in H; [done|].
  destruct (CutLast c s) as [[a' b']|] eqn:E.
  - injection H as <- <-. destruct (IH _ _ eq_refl) as [-> Hc]. done.
  - destruct (Ascii.eqb_spec d c) as [->|]; [|done]. injection H as <- <-. split; [done|].
    by apply CutLast_None_inv.
Qed.

Lemma mapString_app f a b : mapString f (a ++ b) = (mapString f a ++ mapString f b)%string.
Proof. induction a as [|c a IH]; autorewrite with gostring; simpl; [done|]. by rewrite IH. Qed.

(** ** Prefixes and suffixes *)

Lemma length_string_app (a b : string) : String.length (a ++ b) = (String.length a + String.length b)%nat.
Proof. induction a as [|c a IH]; autorewrite with gostring; simpl; [done|]. by rewrite IH. Qed.

Lemma string_app_empty (a : string) : (a ++ "")%string = a.
Proof. induction a as [|c a IH]; autorewrite with gostring; [done|]. by rewrite IH. Qed.

Lemma string_app_inj (a b c : string) : (a ++ b)%string = (a ++ c)%string → b = c.
Proof. induction a as [|x a IH]; autorewrite with gostring; intros H; [done|]. injection H as H. auto. Qed.

Lemma string_app_inj_r (a b c : string) : (a ++ c)%string = (b ++ c)%string → a = b.
Proof.
  revert b. induction a as [|x a IH]; intros [|y b]; autorewrite with gostring; intros H; [done| | |].
  - apply (f_equal String.length) in H. simpl in H. rewrite length_string_app in H. lia.
  - apply (f_equal String.length) in H. simpl in H. rewrite length_string_app in H. lia.
  - injection H as -> H. by rewrite (IH _ H).
Qed.

Lemma substring_whole (s : string) : String.substring 0 (String.length s) s = s.
Proof. induction s as [|c s IH]; simpl; [done|]. by rewrite IH. Qed.

Lemma substring_head (a b : string) : String.substring 0 (String.length a) (a ++ b) = a.
Proof. induction a as [|c a IH]; autorewrite with gostring; simpl; [by destruct b|]. by rewrite IH. Qed.

Lemma substring_rest (a b : string) : String.substring (String.length a) (String.length b) (a ++ b) = b.
Proof. induction a as [|c a IH]; autorewrite with gostring; simpl; [apply substring_whole|done]. Qed.

Lemma substring_split (s : string) : ∀ n, (n ≤ String.length s)%nat →
  s = (String.substring 0 n s ++ String.substring n (String.length s - n) s)%string.
Proof.
  induction s as [|c s IH]; intros [|n] H; simpl in *; autorewrite with gostring; try done; try lia.
  - by rewrite substring_whole.
  - by rewrite <- IH by lia.
Qed.

Lemma HasPrefix_spec s p : HasPrefix s p = true ↔ ∃ r, s = (p ++ r)%string.
Proof.
  unfold HasPrefix. revert s. induction p as [|c p IH]; intros s; simpl.
  - split; [by exists s|by destruct s].
  - destruct s as [|d s]; [split; [done|]; intros [r H]; by rewrite string_app_cons in H|].
    cbn [String.prefix]. case_if E; [subst d|split; [done|]; intros [r H]; rewrite string_app_cons in H; congruence].
    rewrite IH. split; intros [r H]; exists r; rewrite string_app_cons in *; congruence.
Qed.

Lemma stripPrefix_spec p s r : stripPrefix p s = Some r ↔ s = (p ++ r)%string.
Proof.
  unfold stripPrefix. fold (HasPrefix s p). destruct (HasPrefix s p) eqn:E.
  - apply HasPrefix_spec in E as [r' ->]. rewrite length_string_app.
    replace (String.length p + String.length r' - String.length p)%nat with (String.length r') by lia.
    rewrite substring_rest. split; [by intros [= ->]|intros H; by apply string_app_inj in H as ->].
  - split; [done|]. intros H. enough (HasPrefix s p = true) by congruence. apply HasPrefix_spec. eauto.
Qed.

Lemma stripSuffix_spec p s a : stripSuffix p s = Some a ↔ s = (a ++ p)%string.
Proof.
  unfold stripSuffix. cbv zeta. split.
  - intros H. case_hyp H; [|done]. injection H as <-. bprop.
    apply Nat.leb_le in H. remember (String.length s - String.length p)%nat as n eqn:En.
    rewrite (substring_split s n) at 1 by lia. replace (String.length s - n)%nat with (String.length p) by lia. congruence.
  - intros ->. rewrite length_string_app.
    replace (String.length a + String.length p - String.length p)%nat with (String.length a) by lia.
    rewrite substring_rest, substring_head, String.eqb_refl.
    by rewrite (proj2 (Nat.leb_le _ _)) by lia.
Qed.

Lemma HasSuffix_spec s p : HasSuffix s p = true ↔ ∃ a, s = (a ++ p)%string.
Proof.
  unfold HasSuffix. rewrite bool_decide_eq_true. split; intros [a H]; exists a; by apply stripSuffix_spec.
Qed.

Lemma TrimSuffix_app a p : TrimSuffix (a ++ p) p = a.
Proof. unfold TrimSuffix. by rewrite (proj2 (stripSuffix_spec p (a ++ p) a) eq_refl). Qed.
Lemma TrimPrefix_app p a : TrimPrefix (p ++ a) p = a.
Proof. unfold TrimPrefix. by rewrite (proj2 (stripPrefix_spec p (p ++ a) a) eq_refl). Qed.

Lemma get_app (a b : string) : String.get (String.length a) (a ++ b) = String.get 0 b.
Proof. by rewrite (String.append_correct2 a b 0). Qed.

(** ** Segments *)

Lemma Split_nonempty c s : Split c s ≠ [].
Proof. destruct s as [|d s]; simpl; [done|]. destruct (Ascii.eqb d c); [done|]. by destruct (Split c s). Qed.

(** Cutting at a separator cuts the list of segments. *)
Lemma Split_app c a b : Split c (a ++ String c b) = Split c a ++ Split c b.
Proof.
  induction a as [|d a IH]; autorewrite with gostring; simpl; [by rewrite Ascii.eqb_refl|].
  rewrite IH. destruct (Ascii.eqb d c); [done|]. pose proof (Split_nonempty c a). by destruct (Split c a).
Qed.

Lemma Split_inj c a b : Split c a = Split c b → a = b.
Proof.
  revert b. induction a as [|x a IH]; intros [|y b]; simpl; intros H; [done| | |].
  - destruct (Ascii.eqb y c); [|by destruct (Split c b)]. injection H as H. by destruct (Split_nonempty c b).
  - destruct (Ascii.eqb x c); [|by destruct (Split c a)]. injection H as H. by destruct (Split_nonempty c a).
  - pose proof (Split_nonempty c a) as Ha. pose proof (Split_nonempty c b) as Hb.
    destruct (Ascii.eqb_spec x c) as [->|Hx], (Ascii.eqb_spec y c) as [->|Hy].
    + injection H as H. by rewrite (IH _ H).
    + by destruct (Split c b).
    + by destruct (Split c a).
    + destruct (Split c a) as [|u us] eqn:Ea, (Split c b) as [|v vs] eqn:Eb; try done.
      injection H as -> -> ->. rewrite (IH b) by congruence. done.
Qed.

(** The segments of a string begin with those of another one exactly when the string is
    that one, or continues it with a separator. *)
Lemma Split_prefix c p s : Split c p `prefix_of` Split c s ↔ s = p ∨ ∃ r, s = (p ++ String c r)%string.
Proof.
  split.
  - revert s. induction p as [|x p IH]; intros s H.
    + destruct s as [|y s]; [by left|]. right. simpl in H. exists s. destruct (Ascii.eqb_spec y c) as [->|Hy]; [done|].
      destruct (Split c s); apply prefix_cons_inv_1 in H; done.
    + simpl in H. pose proof (Split_nonempty c p) as Hp. destruct (Ascii.eqb_spec x c) as [->|Hx].
      * destruct s as [|y s]; [by apply prefix_cons_inv_2, prefix_nil_inv in H|]. simpl in H.
        destruct (Ascii.eqb_spec y c) as [->|Hy]; [|by destruct (Split c s); apply prefix_cons_inv_1 in H].
        apply prefix_cons_inv_2 in H. destruct (IH _ H) as [->|[r ->]]; [by left|right]. by exists r.
      * destruct (Split c p) as [|w ws] eqn:Ep; [done|]. destruct s as [|y s]; simpl in H; [by apply prefix_cons_inv_1 in H|].
        destruct (Ascii.eqb_spec y c) as [->|Hy]; [by apply prefix_cons_inv_1 in H|].
        pose proof (Split_nonempty c s) as Hs. destruct (Split c s) as [|v vs] eqn:Es; [done|].
        pose proof (prefix_cons_inv_1 _ _ _ _ H) as E. apply prefix_cons_inv_2 in H. injection E as -> ->.
        destruct (IH s) as [->|[r ->]]; [rewrite Es; by apply prefix_cons|by left|right]. by exists r.
  - intros [->|[r ->]]; [done|]. rewrite Split_app. by apply prefix_app_r.
Qed.
