(* ===== verification/GoBase64.v ===== *)
(** Go's encoding/base64.RawURLEncoding, the URL alphabet without padding, and
    StdEncoding, the standard alphabet with padding.

    Encoding groups bytes by three into sextets; the last group may have one or two
    bytes and gives two or three characters.  Decoding skips carriage returns and
    line feeds, refuses other characters and a last group of a single character, and
    ignores the unused low bits of the last sextet (the encoding is not strict). *)

From S2P Require Import Prelude.
From Stdlib Require Import Ascii.

Definition byteVal (c : ascii) : Z := Z.of_nat (nat_of_ascii c).
Definition byteOf (z : Z) : ascii := ascii_of_nat (Z.to_nat z).

Definition alphabet : list ascii :=
  String.list_ascii_of_string "ABCDEFGHIJKLMNOPQRSTUVWXYZabcdefghijklmnopqrstuvwxyz0123456789-_".

Definition sextetChar (v : Z) : ascii := default "A"%char (alphabet !! Z.to_nat v).

Fixpoint indexOf (c : ascii) (l : list ascii) : option Z :=
  match l with
  | [] => None
  | d :: l => if Ascii.eqb c d then Some 0 else (λ i, i + 1) <$> indexOf c l
  end.
Definition sextetVal (c : ascii) : option Z := indexOf c alphabet.

Fixpoint encodeBytes (l : list ascii) : list ascii :=
  match l with
  | a :: b :: c :: l =>
      let '(a, b, c) := (byteVal a, byteVal b, byteVal c) in
      sextetChar (a / 4) :: sextetChar (a mod 4 * 16 + b / 16)
      :: sextetChar (b mod 16 * 4 + c / 64) :: sextetChar (c mod 64) :: encodeBytes l
  | [a; b] =>
      let '(a, b) := (byteVal a, byteVal b) in
      [sextetChar (a / 4); sextetChar (a mod 4 * 16 + b / 16); sextetChar (b mod 16 * 4)]
  | [a] => let a := byteVal a in [sextetChar (a / 4); sextetChar (a mod 4 * 16)]
  | [] => []
  end.

Fixpoint decodeSextets (l : list Z) : option (list ascii) :=
  match l with
  | a :: b :: c :: d :: l =>
      (λ r, byteOf (a * 4 + b / 16) :: byteOf (b mod 16 * 16 + c / 4)
            :: byteOf (c mod 4 * 64 + d) :: r) <$> decodeSextets l
  | [a; b; c] => Some [byteOf (a * 4 + b / 16); byteOf (b mod 16 * 16 + c / 4)]
  | [a; b] => Some [byteOf (a * 4 + b / 16)]
  | [_] => None
  | [] => Some []
  end.

Fixpoint sextets (l : list ascii) : option (list Z) :=
  match l with
  | [] => Some []
  | c :: l =>
      if Ascii.eqb c "010" || Ascii.eqb c "013" then sextets l
      else match sextetVal c, sextets l with
           | Some v, Some vs => Some (v :: vs)
           | _, _ => None
           end
  end.

Definition EncodeToString (s : string) : string :=
  String.string_of_list_ascii (encodeBytes (String.list_ascii_of_string s)).

Definition DecodeString (s : string) : option string :=
  match sextets (String.list_ascii_of_string s) with
  | Some vs => String.string_of_list_ascii <$> decodeSextets vs
  | None => None
  end.

Example b64_1 : EncodeToString "hi?>" = "aGk_Pg".
Proof. reflexivity. Qed.
Example b64_2 : DecodeString "aGk_Pg" = Some "hi?>".
Proof. reflexivity. Qed.
Example b64_3 : DecodeString "aGk_P" = None.
Proof. reflexivity. Qed.

(** ** encoding/base64.StdEncoding: the standard alphabet with padding *)

Definition stdAlphabet : list ascii :=
  String.list_ascii_of_string "ABCDEFGHIJKLMNOPQRSTUVWXYZabcdefghijklmnopqrstuvwxyz0123456789+/".
Definition stdSextet (c : ascii) : option Z := indexOf c stdAlphabet.

(** Groups of four; a padded group is the last one. *)
Fixpoint stdDecodeGroups (l : list ascii) : option (list ascii) :=
  match l with
  | [] => Some []
  | a :: b :: c :: d :: rest =>
      match stdSextet a, stdSextet b with
      | Some a, Some b =>
          if Ascii.eqb d "=" then
            match rest with
            | [] =>
                if Ascii.eqb c "=" then Some [byteOf (a * 4 + b / 16)]
                else (λ c, [byteOf (a * 4 + b / 16); byteOf (b mod 16 * 16 + c / 4)]) <$> stdSextet c
            | _ => None
            end
          else match stdSextet c, stdSextet d, stdDecodeGroups rest with
               | Some c, Some d, Some r =>
                   Some (byteOf (a * 4 + b / 16) :: byteOf (b mod 16 * 16 + c / 4) :: byteOf (c mod 4 * 64 + d) :: r)
               | _, _, _ => None
               end
      | _, _ => None
      end
  | _ => None
  end.

(** Carriage returns and line feeds are skipped. *)
Definition stdDecodeString (s : string) : option string :=
  String.string_of_list_ascii <$>
    stdDecodeGroups (List.filter (λ c, negb (Ascii.eqb c "010" || Ascii.eqb c "013")) (String.list_ascii_of_string s)).

Definition stdChar (v : Z) : ascii := default "A"%char (stdAlphabet !! Z.to_nat v).

Fixpoint stdEncodeBytes (l : list ascii) : list ascii :=
  match l with
  | a :: b :: c :: l =>
      let '(a, b, c) := (byteVal a, byteVal b, byteVal c) in
      stdChar (a / 4) :: stdChar (a mod 4 * 16 + b / 16) :: stdChar (b mod 16 * 4 + c / 64) :: stdChar (c mod 64)
      :: stdEncodeBytes l
  | [a; b] =>
      let '(a, b) := (byteVal a, byteVal b) in
      [stdChar (a / 4); stdChar (a mod 4 * 16 + b / 16); stdChar (b mod 16 * 4); "="%char]
  | [a] => let a := byteVal a in [stdChar (a / 4); stdChar (a mod 4 * 16); "="%char; "="%char]
  | [] => []
  end.

Definition stdEncodeToString (s : string) : string :=
  String.string_of_list_ascii (stdEncodeBytes (String.list_ascii_of_string s)).

Example std_4 : stdEncodeToString "hi?>" = "aGk/Pg==".
Proof. reflexivity. Qed.
Example std_1 : stdDecodeString "aGk/Pg==" = Some "hi?>".
Proof. reflexivity. Qed.
Example std_2 : stdDecodeString "aGk/Pg" = None.
Proof. reflexivity. Qed.
Example std_3 : stdDecodeString "aGk/Pg==x" = None.
Proof. reflexivity. Qed.

(** ** Round trip *)

Lemma byteVal_range c : 0 ≤ byteVal c < 256.
Proof. unfold byteVal. pose proof (nat_ascii_bounded c). lia. Qed.

Lemma byteOf_byteVal c : byteOf (byteVal c) = c.
Proof. unfold byteOf, byteVal. by rewrite Nat2Z.id, ascii_nat_embedding. Qed.

Lemma byteOf_is z c : z = byteVal c → byteOf z = c.
Proof. intros ->. apply byteOf_byteVal. Qed.

(** Every sextet has a character that reads back as the sextet, and is no dot. *)
Definition sextetGood (v : Z) : Prop :=
  sextetVal (sextetChar v) = Some v ∧
  (Ascii.eqb (sextetChar v) "010" || Ascii.eqb (sextetChar v) "013") = false ∧
  Ascii.eqb (sextetChar v) "." = false.

Lemma sextet_good v : 0 ≤ v < 64 → sextetGood v.
Proof.
  intros Hv. assert (H : Forall sextetGood (map Z.of_nat (seq 0 64))).
  { repeat (constructor; [by vm_compute|]). constructor. }
  rewrite Forall_forall in H. apply H. rewrite list_elem_of_In. apply in_map_iff.
  exists (Z.to_nat v). split; [lia|]. apply in_seq. lia.
Qed.

Lemma sextets_char v l : 0 ≤ v < 64 → sextets (sextetChar v :: l) = (cons v) <$> sextets l.
Proof.
  intros Hv. destruct (sextet_good v Hv) as (E & Hs & _). simpl. rewrite Hs, E. by destruct (sextets l).
Qed.

#[local] Ltac Zify.zify_post_hook ::= Z.to_euclidean_division_equations.

(** The sextets of an encoding decode to the bytes. *)
Lemma decode_encode_bytes n : ∀ l, (length l ≤ n)%nat →
  ∃ vs, sextets (encodeBytes l) = Some vs ∧ decodeSextets vs = Some l.
Proof.
  induction n as [|n IH]; intros l Hl; [destruct l; [by exists []|simpl in Hl; lia]|].
  destruct l as [|a [|b [|c l]]]; [by exists []| | |].
  - pose proof (byteVal_range a). eexists. simpl encodeBytes. rewrite !sextets_char by lia.
    split; [done|]. simpl. by rewrite (byteOf_is _ a) by lia.
  - pose proof (byteVal_range a). pose proof (byteVal_range b). eexists. simpl encodeBytes.
    rewrite !sextets_char by lia. split; [done|]. simpl.
    by rewrite (byteOf_is _ a), (byteOf_is _ b) by lia.
  - pose proof (byteVal_range a). pose proof (byteVal_range b). pose proof (byteVal_range c).
    destruct (IH l) as (vs & E & D); [simpl in Hl; lia|]. simpl encodeBytes.
    rewrite !sextets_char by lia. rewrite E. eexists. split; [done|]. simpl. rewrite D. simpl.
    by rewrite (byteOf_is _ a), (byteOf_is _ b), (byteOf_is _ c) by lia.
Qed.

Lemma Decode_Encode s : DecodeString (EncodeToString s) = Some s.
Proof.
  unfold DecodeString, EncodeToString. rewrite String.list_ascii_of_string_of_list_ascii.
  destruct (decode_encode_bytes (length (String.list_ascii_of_string s)) (String.list_ascii_of_string s))
    as (vs & E & D); [lia|].
  rewrite E, D. simpl. by rewrite String.string_of_list_ascii_of_string.
Qed.

Lemma encodeBytes_nodot n : ∀ l, (length l ≤ n)%nat → Forall (λ c, Ascii.eqb c "." = false) (encodeBytes l).
Proof.
  induction n as [|n IH]; intros l Hl; [destruct l; [constructor|simpl in Hl; lia]|].
  assert (Hc : ∀ v, 0 ≤ v < 64 → Ascii.eqb (sextetChar v) "." = false) by (intros; by apply sextet_good).
  destruct l as [|a [|b [|c l]]]; simpl encodeBytes; [constructor| | |];
    pose proof (byteVal_range a); [|pose proof (byteVal_range b)|pose proof (byteVal_range b)]; [| |pose proof (byteVal_range c)];
    repeat (constructor; [apply Hc; lia|]); [constructor..|].
  apply IH. simpl in Hl. lia.
Qed.

(** An encoding contains no dot. *)
Lemma Encode_nodot s : Forall (λ c, Ascii.eqb c "." = false) (String.list_ascii_of_string (EncodeToString s)).
Proof.
  unfold EncodeToString. rewrite String.list_ascii_of_string_of_list_ascii.
  by apply (encodeBytes_nodot (length (String.list_ascii_of_string s))).
Qed.

Lemma Encode_nonempty s : s ≠ "" → EncodeToString s ≠ "".
Proof.
  destruct s as [|a s]; [done|]. intros _. unfold EncodeToString. simpl.
  by destruct (String.list_ascii_of_string s) as [|b [|c l]].
Qed.
