(* ===== verification/NetIP.v ===== *)
(** Go's net/netip, as far as the code uses it: addresses, their textual form,
    prefixes and containment.

    An address is the zero [Addr], a 32-bit IPv4 address or a 128-bit IPv6 address
    with a zone (empty: none).  The parsers follow the grammar of ParseAddr,
    ParseAddrPort and ParsePrefix; every error is [None]. *)

From S2P Require Import Prelude.
From S2P Require Import GoStrings.
From Stdlib Require Import Ascii.

Module NetIP.

(** ** Addresses *)

Inductive Addr :=
  | AddrZero
  | V4 (n : Z)
  | V6 (n : Z) (zone : string).

#[export] Instance addr_eq_dec : EqDecision Addr.
Proof. solve_decision. Defined.

Definition IsValid (a : Addr) : bool := match a with AddrZero => false | _ => true end.
Definition Is4 (a : Addr) : bool := match a with V4 _ => true | _ => false end.
Definition Is6 (a : Addr) : bool := match a with V6 _ _ => true | _ => false end.
Definition Is4In6 (a : Addr) : bool :=
  match a with V6 n _ => Z.shiftr n 32 =? 65535 | _ => false end.
Definition Zone (a : Addr) : string := match a with V6 _ z => z | _ => "" end.
Definition BitLen (a : Addr) : Z := match a with AddrZero => 0 | V4 _ => 32 | V6 _ _ => 128 end.
Definition WithoutZone (a : Addr) : Addr := match a with V6 n _ => V6 n "" | _ => a end.

(** The numeric value of the bytes. *)
Definition addrVal (a : Addr) : Z := match a with AddrZero => 0 | V4 n => n | V6 n _ => n end.

Definition Unmap (a : Addr) : Addr :=
  match a with
  | V6 n _ => if Is4In6 a then V4 (Z.land n 4294967295) else a
  | _ => a
  end.

#[global] Arguments Is4In6 : simpl never.
#[global] Arguments Unmap : simpl never.

(** [a.Compare(b)]: by length, then value, then zone. *)
Fixpoint stringLe (a b : string) : bool :=
  match a, b with
  | EmptyString, _ => true
  | String _ _, EmptyString => false
  | String c a, String d b =>
      if (nat_of_ascii c =? nat_of_ascii d)%nat then stringLe a b else (nat_of_ascii c <? nat_of_ascii d)%nat
  end.

Definition addrLess (a b : Addr) : bool :=
  if BitLen a =? BitLen b then
    if addrVal a =? addrVal b then stringLe (Zone a) (Zone b) && negb (String.eqb (Zone a) (Zone b))
    else addrVal a <? addrVal b
  else BitLen a <? BitLen b.

(** ** Parsing addresses *)

(** A decimal octet without a leading zero. *)
Definition parseOctet (s : string) : option Z :=
  if (1 <? String.length s)%nat && startsWith "0" s then None else ParseUint s 255.

Definition parseIPv4Fields (s : string) : option Z :=
  match Split "." s with
  | [a; b; c; d] =>
      match parseOctet a, parseOctet b, parseOctet c, parseOctet d with
      | Some a, Some b, Some c, Some d => Some (((a * 256 + b) * 256 + c) * 256 + d)
      | _, _, _, _ => None
      end
  | _ => None
  end.

Definition hexDigit (c : ascii) : option Z :=
  let n := Z.of_nat (nat_of_ascii c) in
  if (48 <=? n) && (n <=? 57) then Some (n - 48)
  else if (97 <=? n) && (n <=? 102) then Some (n - 87)
  else if (65 <=? n) && (n <=? 70) then Some (n - 55)
  else None.

(** The leading hex digits of a string: their number, their value, the rest. *)
Fixpoint scanHex (off : nat) (acc : Z) (s : string) : nat * Z * string :=
  match s with
  | EmptyString => (off, acc, s)
  | String c r => match hexDigit c with
      | Some d => scanHex (S off) (acc * 16 + d) r
      | None => (off, acc, s) end
  end.

(** The 16-bit groups of an address whose text is [s]: those parsed so far are [ip]
    (last first), [ellipsis] the number of groups before a "::".  Each group consumes
    a character, so the length of [s] is enough fuel. *)
Fixpoint parseGroups (fuel : nat) (s : string) (ip : list Z) (ellipsis : option nat)
    : option (list Z * option nat) :=
  match fuel with
  | O => None
  | S fuel =>
      if (8 <=? length ip)%nat then (if String.eqb s "" then Some (ip, ellipsis) else None)
      else
      let '(off, acc, rest) := scanHex 0 0 s in
      if (off =? 0)%nat || (4 <? off)%nat then None
      else if startsWith "." rest then
        if (bool_decide (ellipsis = None) && negb (length ip =? 6)%nat) || (6 <? length ip)%nat then None
        else match parseIPv4Fields s with
             | Some v => Some (v mod 65536 :: v / 65536 :: ip, ellipsis)
             | None => None
             end
      else
        let ip := acc :: ip in
        if String.eqb rest "" then Some (ip, ellipsis)
        else if negb (startsWith ":" rest) || String.eqb rest ":" then None
        else
          let s := tail rest in
          if startsWith ":" s then
            match ellipsis with
            | Some _ => None
            | None =>
                if String.eqb (tail s) "" then Some (ip, Some (length ip))
                else parseGroups fuel (tail s) ip (Some (length ip))
            end
          else parseGroups fuel s ip ellipsis
  end.

(** Fill the groups an ellipsis stands for. *)
Definition expandGroups (ip : list Z) (ellipsis : option nat) : option (list Z) :=
  let ip := rev ip in
  if (length ip <? 8)%nat then
    match ellipsis with
    | None => None
    | Some e => Some (take e ip ++ repeat 0 (8 - length ip) ++ drop e ip)
    end
  else match ellipsis with None => Some ip | Some _ => None end.

Definition joinGroups (l : list Z) : Z := fold_left (λ acc g, acc * 65536 + g) l 0.

Definition parseIPv6 (input : string) : option Addr :=
  let '(s, zone, zoneOk) :=
    match Cut "%" input with
    | Some (s, z) => (s, z, negb (String.eqb z ""))
    | None => (input, "", true)
    end in
  if negb zoneOk then None
  else
    let '(s, ellipsis) :=
      if HasPrefix s "::" then (tail (tail s), Some 0%nat) else (s, None) in
    if bool_decide (ellipsis = Some 0%nat) && String.eqb s "" then Some (V6 0 zone)
    else
      match parseGroups (S (String.length s)) s [] ellipsis with
      | Some (ip, ellipsis) =>
          match expandGroups ip ellipsis with
          | Some groups => Some (V6 (joinGroups groups) zone)
          | None => None
          end
      | None => None
      end.

(** The first of '.', ':' and '%' decides the family. *)
Fixpoint addrFamily (s : string) : option ascii :=
  match s with
  | EmptyString => None
  | String c s =>
      if Ascii.eqb c "." || Ascii.eqb c ":" || Ascii.eqb c "%" then Some c else addrFamily s
  end.

Definition ParseAddr (s : string) : option Addr :=
  match addrFamily s with
  | Some c =>
      if Ascii.eqb c "." then V4 <$> parseIPv4Fields s
      else if Ascii.eqb c ":" then parseIPv6 s
      else None
  | None => None
  end.

Definition endsWith (c : ascii) (s : string) : bool :=
  match s with
  | EmptyString => false
  | _ => match String.get (String.length s - 1) s with Some d => Ascii.eqb d c | None => false end
  end.

(** The address and the port. *)
Definition ParseAddrPort (s : string) : option (Addr * Z) :=
  match CutLast ":" s with
  | None => None
  | Some (ip, port) =>
      if String.eqb ip "" || String.eqb port "" then None
      else
        let bracketed := startsWith "[" ip in
        if bracketed && ((String.length ip <? 2)%nat || negb (endsWith "]" ip)) then None
        else
          let ip := if bracketed then String.substring 1 (String.length ip - 2) ip else ip in
          match ParseUint port 65535, ParseAddr ip with
          | Some p, Some a =>
              if (bracketed && Is4 a) || (negb bracketed && Is6 a) then None else Some (a, p)
          | _, _ => None
          end
  end.

(** ** Prefixes *)

(** [bits] is -1 in an invalid prefix. *)
Record Prefix := mkPrefix { prefixAddr : Addr; prefixBits : Z }.

#[export] Instance prefix_eq_dec : EqDecision Prefix.
Proof. solve_decision. Defined.

Definition PrefixFrom (a : Addr) (bits : Z) : Prefix :=
  mkPrefix (WithoutZone a)
    (if IsValid a && (0 <=? bits) && (bits <=? BitLen a) then bits else -1).

Definition prefixIsValid (p : Prefix) : bool := 0 <=? p.(prefixBits).

Definition ParsePrefix (s : string) : option Prefix :=
  match CutLast "/" s with
  | None => None
  | Some (ip, bitsStr) =>
      match ParseAddr ip with
      | None => None
      | Some a =>
          if Is6 a && negb (String.eqb (Zone a) "") then None
          else if (1 <? String.length bitsStr)%nat &&
                  negb (match bitsStr with
                        | String c _ => match digit c with Some d => negb (d =? 0) | None => false end
                        | EmptyString => false end) then None
          else match Atoi bitsStr with
               | Some bits =>
                   if (bits <? 0) || (BitLen a <? bits) then None else Some (PrefixFrom a bits)
               | None => None
               end
      end
  end.

(** Clear the host bits of [n], [w] of them. *)
Definition clearLow (n w : Z) : Z := Z.shiftl (Z.shiftr n w) w.

Definition Masked (p : Prefix) : Prefix :=
  if prefixIsValid p then
    let a := p.(prefixAddr) in
    let w := BitLen a - p.(prefixBits) in
    mkPrefix (match a with
              | V4 n => V4 (clearLow n w)
              | V6 n z => V6 (clearLow n w) z
              | AddrZero => AddrZero end) p.(prefixBits)
  else mkPrefix AddrZero (-1).

Definition Contains (p : Prefix) (a : Addr) : bool :=
  if negb (prefixIsValid p) || negb (String.eqb (Zone a) "") then false
  else
    IsValid a && (BitLen p.(prefixAddr) =? BitLen a)
    && (Z.shiftr (addrVal p.(prefixAddr)) (BitLen a - p.(prefixBits))
        =? Z.shiftr (addrVal a) (BitLen a - p.(prefixBits))).

(** ** Printing addresses *)

Definition formatIPv4 (n : Z) : string :=
  (FormatUint (n / 16777216 mod 256) ++ "." ++ FormatUint (n / 65536 mod 256) ++ "."
   ++ FormatUint (n / 256 mod 256) ++ "." ++ FormatUint (n mod 256))%string.

Definition hexChar (d : Z) : ascii :=
  ascii_of_nat (Z.to_nat (if d <? 10 then 48 + d else 87 + d)).

(** Four digits hold a group. *)
Fixpoint formatHexDigits (fuel : nat) (n : Z) (acc : string) : string :=
  match fuel with
  | O => acc
  | S fuel =>
      let acc := String (hexChar (n mod 16)) acc in
      if n <? 16 then acc else formatHexDigits fuel (n / 16) acc
  end.

Definition groupsOf (n : Z) : list Z :=
  map (λ i, Z.land (Z.shiftr n (16 * (7 - Z.of_nat i))) 65535) (seq 0 8).

(** The length of the run of zero groups at the front. *)
Fixpoint zeroRun (l : list Z) : nat :=
  match l with g :: l => if g =? 0 then S (zeroRun l) else 0 | [] => 0 end.

(** The first longest run of zero groups, from position [i]: start and length. *)
Fixpoint longestRun (i : nat) (l : list Z) (best : nat * nat) : nat * nat :=
  match l with
  | [] => best
  | _ :: l' => let n := zeroRun l in
      longestRun (S i) l' (if (best.2 <? n)%nat then (i, n) else best)
  end.

Fixpoint joinHex (l : list Z) : string :=
  match l with
  | [] => ""
  | [g] => formatHexDigits 4 g ""
  | g :: l => (formatHexDigits 4 g "" ++ ":" ++ joinHex l)%string
  end.

Definition formatIPv6 (n : Z) : string :=
  let groups := groupsOf n in
  let '(start, len) := longestRun 0 groups (0, 0)%nat in
  if (len <=? 1)%nat then joinHex groups
  else (joinHex (take start groups) ++ "::" ++ joinHex (drop (start + len) groups))%string.

Definition addrString (a : Addr) : string :=
  match a with
  | AddrZero => "invalid IP"
  | V4 n => formatIPv4 n
  | V6 n zone =>
      let s := if Is4In6 a then ("::ffff:" ++ formatIPv4 (Z.land n 4294967295))%string
               else formatIPv6 n in
      if String.eqb zone "" then s else (s ++ "%" ++ zone)%string
  end.

(** [net.JoinHostPort] *)
Definition JoinHostPort (host port : string) : string :=
  if containsByte ":" host || containsByte "%" host then ("[" ++ host ++ "]:" ++ port)%string
  else (host ++ ":" ++ port)%string.

Example parse_v4 : ParseAddr "10.1.2.3" = Some (V4 167838211).
Proof. reflexivity. Qed.
Example parse_v4_zero : ParseAddr "10.01.2.3" = None.
Proof. reflexivity. Qed.
Example parse_v6 : ParseAddr "2001:db8::1" = Some (V6 42540766411282592856903984951653826561 "").
Proof. reflexivity. Qed.
Example parse_mapped : Unmap <$> ParseAddr "::ffff:10.1.2.3" = Some (V4 167838211).
Proof. reflexivity. Qed.
Example parse_multi : ParseAddr "1::2::3" = None.
Proof. reflexivity. Qed.
Example parse_full : ParseAddr "1:2:3:4:5:6:7:8" = Some (V6 5192455318486707404433266433261576 "").
Proof. reflexivity. Qed.
Example parse_full_ellipsis : ParseAddr "1:2:3:4:5:6:7::8" = None.
Proof. reflexivity. Qed.
Example parse_port : ParseAddrPort "[::1]:80" = Some (V6 1 "", 80).
Proof. reflexivity. Qed.
Example contains_1 : (λ p, Contains p (V4 167838211)) <$> ParsePrefix "10.0.0.0/8" = Some true.
Proof. reflexivity. Qed.
Example string_v6 : addrString (V6 42540766411282592856903984951653826561 "") = "2001:db8::1".
Proof. reflexivity. Qed.
Example string_v4 : addrString (V4 167838211) = "10.1.2.3".
Proof. reflexivity. Qed.

(** ** Well-formed addresses *)

(** The value fits the family. *)
Definition addrWf (a : Addr) : Prop :=
  match a with
  | AddrZero => True
  | V4 n => 0 ≤ n < 2 ^ 32
  | V6 n _ => 0 ≤ n < 2 ^ 128
  end.

(** A client address as the server keeps it: valid, in range, without a zone and not
    an IPv4 address written as IPv6. *)
Definition canonicalAddr (a : Addr) : Prop :=
  IsValid a = true ∧ addrWf a ∧ Zone a = "" ∧ Is4In6 a = false.

Lemma ParseUint_range s m v : ParseUint s m = Some v → 0 ≤ v ≤ m.
Proof.
  unfold ParseUint. destruct s as [|c s]; [done|].
  destruct (digits 0 (String c s)) as [x|] eqn:E; [|done]. case_goal; [|done]. intros [= <-]. bprop.
  pose proof (digits_nonneg _ _ _ E). lia.
Qed.

Lemma parseOctet_range s v : parseOctet s = Some v → 0 ≤ v ≤ 255.
Proof. unfold parseOctet. case_goal; [done|]. apply ParseUint_range. Qed.

Lemma parseIPv4Fields_range s v : parseIPv4Fields s = Some v → 0 ≤ v < 2 ^ 32.
Proof.
  unfold parseIPv4Fields. destruct (Split "." s) as [|a [|b [|c [|d [|]]]]]; try done.
  destruct (parseOctet a) as [x|] eqn:Ea; [|done]. destruct (parseOctet b) as [y|] eqn:Eb; [|done].
  destruct (parseOctet c) as [z|] eqn:Ec; [|done]. destruct (parseOctet d) as [w|] eqn:Ed; [|done].
  intros [= <-]. apply parseOctet_range in Ea, Eb, Ec, Ed. lia.
Qed.

Lemma hexDigit_range c d : hexDigit c = Some d → 0 ≤ d < 16.
Proof. unfold hexDigit. repeat case_goal; intros [= <-]; bprop; lia. Qed.

Lemma scanHex_range s : ∀ off acc off' acc' rest,
  scanHex off acc s = (off', acc', rest) → 0 ≤ acc < 16 ^ Z.of_nat off → 0 ≤ acc' < 16 ^ Z.of_nat off'.
Proof.
  induction s as [|c s IH]; intros off acc off' acc' rest; simpl; [by intros [= <- <- <-]|].
  destruct (hexDigit c) as [d|] eqn:E; [|by intros [= <- <- <-]].
  intros H Hacc. apply hexDigit_range in E. apply (IH _ _ _ _ _ H).
  rewrite Nat2Z.inj_succ, Z.pow_succ_r by lia. lia.
Qed.

Definition groupRange (g : Z) : Prop := 0 ≤ g < 65536.

Lemma parseGroups_range fuel : ∀ s ip e ip' e', parseGroups fuel s ip e = Some (ip', e') →
  Forall groupRange ip → (length ip ≤ 8)%nat → Forall groupRange ip' ∧ (length ip' ≤ 8)%nat.
Proof.
  induction fuel as [|fuel IH]; intros s ip e ip' e'; [done|]. cbn [parseGroups].
  destruct (Nat.leb_spec 8 (length ip)).
  { case_goal; [|done]. by intros [= <- <-]. }
  destruct (scanHex 0 0 s) as [[off acc] rest] eqn:E.
  destruct ((off =? 0)%nat || (4 <? off)%nat) eqn:Hoff; [done|]. bprop.
  assert (Hg : groupRange acc).
  { apply scanHex_range in E; [|simpl; lia].
    match goal with Ho : (4 <? off)%nat = false |- _ => apply Nat.ltb_ge in Ho;
      pose proof (Z.pow_le_mono_r 16 (Z.of_nat off) 4 ltac:(lia) ltac:(lia)) end. unfold groupRange. lia. }
  destruct (startsWith "." rest).
  - destruct (_ || (6 <? length ip)%nat) eqn:Hroom; [done|].
    destruct (parseIPv4Fields s) as [v|] eqn:Ev; [|done]. intros [= <- <-] Hip Hl.
    apply parseIPv4Fields_range in Ev. bprop. repeat match goal with
      Hx : (_ <? _)%nat = false |- _ => apply Nat.ltb_ge in Hx end. split; [|simpl; lia].
    constructor; [apply Z.mod_pos_bound; lia|]. constructor; [|done]. unfold groupRange.
    split; [apply Z.div_pos; lia|apply Z.div_lt_upper_bound; lia].
  - intros H' Hip Hl. assert (Hip' : Forall groupRange (acc :: ip)) by (by constructor).
    assert (Hl' : (length (acc :: ip) ≤ 8)%nat) by (simpl; lia).
    repeat case_hyp H'; try done; try (by injection H' as <- <-); by apply IH in H'.
Qed.

Lemma joinGroups_range l : Forall groupRange l → ∀ acc k, 0 ≤ acc < 65536 ^ Z.of_nat k →
  0 ≤ fold_left (λ acc g, acc * 65536 + g) l acc < 65536 ^ Z.of_nat (k + length l).
Proof.
  induction 1 as [|g l Hg Hl IH]; intros acc k Hk; simpl.
  - by rewrite Nat.add_0_r.
  - replace (k + S (length l))%nat with (S k + length l)%nat by lia. apply IH.
    unfold groupRange in Hg. rewrite Nat2Z.inj_succ, Z.pow_succ_r by lia. nia.
Qed.

Lemma expandGroups_range ip e l : expandGroups ip e = Some l → Forall groupRange ip → (length ip ≤ 8)%nat →
  Forall groupRange l ∧ length l = 8%nat.
Proof.
  unfold expandGroups. intros H Hip Hl. rewrite length_rev in H.
  assert (Hr : Forall groupRange (rev ip)) by (by apply Forall_rev).
  destruct (Nat.ltb_spec (length ip) 8).
  - destruct e as [e|]; [|done]. injection H as <-. split.
    + apply Forall_app. split; [by apply Forall_take|]. apply Forall_app. split; [|by apply Forall_drop].
      apply Forall_forall. intros x Hx. apply list_elem_of_In, repeat_spec in Hx as ->. unfold groupRange. lia.
    + rewrite !length_app, length_take, length_drop, repeat_length, length_rev. lia.
  - destruct e; [done|]. injection H as <-. rewrite length_rev. split; [done|lia].
Qed.

Lemma parseIPv6_range s a : parseIPv6 s = Some a → IsValid a = true ∧ addrWf a.
Proof.
  unfold parseIPv6. destruct (match Cut "%" s with Some _ => _ | None => _ end) as [[t zone] ok].
  destruct ok; [|done]. simpl negb.
  destruct (if HasPrefix t "::" then _ else _) as [u e]. cbv iota.
  case_goal; [intros [= <-]; simpl; lia|].
  destruct (parseGroups _ u [] e) as [[ip e']|] eqn:E; [|done].
  destruct (expandGroups ip e') as [l|] eqn:El; [|done]. intros [= <-]. split; [done|].
  destruct (parseGroups_range _ _ _ _ _ _ E) as [Hip Hlen]; [constructor|simpl; lia|].
  destruct (expandGroups_range _ _ _ El Hip Hlen) as [Hl Hl8]. simpl.
  pose proof (joinGroups_range l Hl 0 0 ltac:(simpl; lia)) as Hj. rewrite Hl8 in Hj. unfold joinGroups.
  simpl in Hj. lia.
Qed.

Lemma ParseAddr_wf s a : ParseAddr s = Some a → IsValid a = true ∧ addrWf a.
Proof.
  unfold ParseAddr. destruct (addrFamily s) as [c|]; [|done]. case_goal.
  - destruct (parseIPv4Fields s) as [v|] eqn:E; [|done]. intros [= <-]. split; [done|].
    by apply parseIPv4Fields_range in E.
  - case_goal; [apply parseIPv6_range|done].
Qed.

Lemma Unmap_canonical a : IsValid a = true → addrWf a → Zone a = "" → canonicalAddr (Unmap a).
Proof.
  intros Hv Hw Hz. destruct a as [|n|n z]; [done|by repeat split; apply Hw|].
  unfold Unmap. destruct (Is4In6 (V6 n z)) eqn:E.
  - repeat split; simpl; change 4294967295 with (Z.ones 32); rewrite Z.land_ones by lia;
      pose proof (Z.mod_pos_bound n (2 ^ 32) ltac:(lia)); lia.
  - repeat split; [apply Hw|apply Hw|done|done].
Qed.

Lemma Unmap_id a : canonicalAddr a → Unmap a = a.
Proof.
  intros (_ & _ & _ & H). destruct a as [|n|n z]; [done..|]. unfold Unmap. by rewrite H.
Qed.

(** Clearing the host bits does not change what a prefix contains. *)
Lemma shiftr_clearLow n w : 0 ≤ w → Z.shiftr (clearLow n w) w = Z.shiftr n w.
Proof. intros Hw. unfold clearLow. by rewrite Z.shiftr_shiftl_l, Z.sub_diag, Z.shiftl_0_r by lia. Qed.

Lemma Masked_Contains p a : p.(prefixBits) ≤ BitLen p.(prefixAddr) → Contains (Masked p) a = Contains p a.
Proof.
  intros Hb. destruct p as [pa bits]. unfold Masked, Contains, prefixIsValid. simpl in *.
  destruct (0 <=? bits) eqn:E; simpl; [|done]. rewrite E. simpl.
  destruct (negb (Zone a =? "")%string); [done|].
  destruct pa as [|n|n z], a as [|m|m z']; simpl in *; try done; by rewrite shiftr_clearLow by lia.
Qed.

Lemma clearLow_idem n w : 0 ≤ w → clearLow (clearLow n w) w = clearLow n w.
Proof. intros Hw. unfold clearLow at 1. by rewrite shiftr_clearLow. Qed.

Lemma Masked_idem p : p.(prefixBits) ≤ BitLen p.(prefixAddr) → Masked (Masked p) = Masked p.
Proof.
  intros Hb. destruct p as [pa bits]. unfold Masked, prefixIsValid. simpl in *.
  destruct (0 <=? bits) eqn:E; simpl; [|done].
  rewrite E. destruct pa; simpl in *; [done|by rewrite clearLow_idem by lia..].
Qed.

End NetIP.
