(* ===== verification/ClientIdentity.v ===== *)
(** Who the client of a public request is (internal/server/client_identity.go).

    The resolver knows the prefixes of trusted proxies and the header in which each
    names its client.  A peer outside them is the client; a trusted peer's header
    decides, and anything missing, malformed or conflicting leaves the client
    unresolved.

    [httpRequest] holds what the server reads of a request and of its context; it is
    shared by the components that decide about requests.  A Go map's keys collected
    and sorted are a sorted list without repetition. *)

From S2P Require Import Prelude.
From S2P Require Import GoStrings.
From S2P Require Import NetIP.
From Stdlib Require Import Ascii.

Module ClientIdentity.
Import NetIP.

(** ** Data *)

Definition DefaultTrustedProxyHeaderBytes : Z := 8192.
Definition DefaultTrustedProxyMaxHops : Z := 32.
Definition ClientIdentitySourceDirect := "direct".
Definition TrustedProxyHeaderSingleIP := "single_ip".
Definition TrustedProxyHeaderTrustedChain := "trusted_chain".

Record TrustedProxySource := mkSource {
  Name : string;
  Provider : string;
  Enabled : bool;
  Prefixes : list Prefix;
  HeaderName : string;
  HeaderMode : string }.

Record ClientIdentityResolverOptions := mkOptions { MaxHeaderBytes : Z; MaxHops : Z }.

Inductive ClientIdentityUnknownReason :=
  | NoReason
  | ClientIdentityUnknownInvalidPeer
  | ClientIdentityUnknownMissingHeader
  | ClientIdentityUnknownMalformedHeader
  | ClientIdentityUnknownNoUntrustedHop
  | ClientIdentityUnknownConflictingSource.

Record ClientIdentity := mkIdentity {
  Peer : Addr;
  Resolved : Addr;
  Unknown : bool;
  Direct : bool;
  Source : string;
  MatchedSources : list string;
  UnknownReason : ClientIdentityUnknownReason }.

Record trustedProxyResolverSource := mkResolverSource {
  name : string;
  prefixes : list Prefix;
  headerName : string;
  headerMode : string;
  chainTrusted : list Prefix }.

Record ClientIdentityResolver := mkResolver {
  sources : list trustedProxyResolverSource;
  headerNames : list string;
  maxHeaderBytes : Z;
  maxHops : Z }.

(** The request: the method, the Host field, the parsed URL, the transport, the
    header, the parsed cookies and query, and what the context carries. *)
Record httpRequest := mkRequest {
  Method : string;
  Host : string;
  URLHost : string;
  URLPath : string;
  RequestURI : string;
  TLS : bool;
  RemoteAddr : string;
  Header : gmap string (list string);
  Cookies : list (string * string);
  Query : gmap string (list string);
  Identity : option ClientIdentity;
  IdentityHeaderNames : list string }.

(** ** Sorting *)

Section sort.
Context {A : Type} (le : A → A → bool).

Fixpoint insertSorted (x : A) (l : list A) : list A :=
  match l with
  | [] => [x]
  | y :: l' => if le x y then x :: l else y :: insertSorted x l'
  end.
Definition sortBy (l : list A) : list A := foldr insertSorted [] l.

Lemma insertSorted_perm x l : insertSorted x l ≡ₚ x :: l.
Proof.
  induction l as [|y l IH]; simpl; [done|]. case_goal; [done|]. rewrite IH. apply Permutation_swap.
Qed.
Lemma sortBy_perm l : sortBy l ≡ₚ l.
Proof. induction l as [|x l IH]; simpl; [done|]. by rewrite insertSorted_perm, IH. Qed.

(** For a total preorder the result is sorted. *)
Lemma sortBy_sorted l : (∀ x y, le x y = true ∨ le y x = true) → (∀ x y z, le x y = true → le y z = true → le x z = true) →
  Sorted.StronglySorted (λ x y, le x y = true) (sortBy l).
Proof.
  intros Htotal Htrans. induction l as [|x l IH]; simpl; [constructor|]. induction IH as [|y l' Hs IH Hall]; simpl.
  - repeat constructor.
  - case_if E.
    + constructor; [by constructor|]. constructor; [done|]. eapply Forall_impl; [exact Hall|]. simpl. eauto.
    + constructor; [done|]. rewrite insertSorted_perm. constructor; [|done]. by destruct (Htotal x y) as [H|H]; [congruence|].
Qed.
End sort.

Definition sortStrings : list string → list string := sortBy stringLe.

(** ** Normalisation *)

Definition prefixLe (p q : Prefix) : bool :=
  if bool_decide (p.(prefixAddr) = q.(prefixAddr)) then p.(prefixBits) <=? q.(prefixBits)
  else addrLess p.(prefixAddr) q.(prefixAddr).

(** The first occurrences, in order. *)
Fixpoint dedupSeen {A} `{EqDecision A} (seen l : list A) : list A :=
  match l with
  | [] => []
  | x :: l => if bool_decide (x ∈ seen) then dedupSeen seen l else x :: dedupSeen (x :: seen) l
  end.

Definition deduplicatePrefixes (input : list Prefix) : list Prefix :=
  sortBy prefixLe (dedupSeen [] (map Masked input)).

(** [None] is an invalid prefix. *)
Definition normalizePrefix (p : Prefix) : option Prefix :=
  if negb (prefixIsValid p) || negb (String.eqb (Zone p.(prefixAddr)) "") then None
  else
    let addr := Unmap p.(prefixAddr) in
    let bits := if Is4In6 p.(prefixAddr) then p.(prefixBits) - 96 else p.(prefixBits) in
    if (bits <? 0) || (BitLen addr <? bits) then None else Some (Masked (PrefixFrom addr bits)).

Definition normalizeTrustedProxyPrefixes (input : list Prefix) : option (list Prefix) :=
  deduplicatePrefixes <$> mapM normalizePrefix input.

Definition prefixesContain (ps : list Prefix) (addr : Addr) : bool :=
  existsb (λ p, Contains p (Unmap addr)) ps.

Definition tokenChar (c : ascii) : bool :=
  let n := nat_of_ascii c in
  ((97 <=? n)%nat && (n <=? 122)%nat) || ((65 <=? n)%nat && (n <=? 90)%nat)
  || ((48 <=? n)%nat && (n <=? 57)%nat)
  || existsb (Ascii.eqb c) (String.list_ascii_of_string "!#$%&'*+-.^_`|~").

Fixpoint allBytes (f : ascii → bool) (s : string) : bool :=
  match s with EmptyString => true | String c s => f c && allBytes f s end.

Definition validHTTPFieldName (value : string) : bool :=
  negb (String.eqb value "") && allBytes tokenChar value.

Definition parseBareIP (value : string) : option Addr :=
  let value := TrimBy (λ c, Ascii.eqb c " " || Ascii.eqb c "009") value in
  if String.eqb value "" || containsByte "[" value || containsByte "]" value then None
  else match ParseAddr value with
       | Some addr => if String.eqb (Zone addr) "" then Some (Unmap addr) else None
       | None => None
       end.

Definition peerAddrFromRequest (remoteAddr : string) : option Addr :=
  let value := TrimSpace remoteAddr in
  if String.eqb value "" then None
  else match ParseAddrPort value with
       | Some (addr, _) => if String.eqb (Zone addr) "" then Some (Unmap addr) else None
       | None =>
           match ParseAddr value with
           | Some addr => if String.eqb (Zone addr) "" then Some (Unmap addr) else None
           | None => None
           end
       end.

(** ** The resolver *)

Inductive resolverError :=
  | ErrHeaderBytes
  | ErrHops
  | ErrNoName
  | ErrDuplicate (name : string)
  | ErrHeaderName (name : string)
  | ErrHeaderMode (name : string)
  | ErrNoPrefixes (name : string)
  | ErrPrefix (name : string).

(** The loop over the configured sources: names seen so far, header names collected,
    sources built. *)
Fixpoint buildSources (input : list TrustedProxySource) (seenNames headers : list string)
    (built : list trustedProxyResolverSource)
    : resolverError + list string * list trustedProxyResolverSource :=
  match input with
  | [] => inr (headers, built)
  | source :: input =>
      let header := TrimSpace source.(HeaderName) in
      let headers := if validHTTPFieldName header then headers ++ [CanonicalMIMEHeaderKey header] else headers in
      if negb source.(Enabled) then buildSources input seenNames headers built
      else
        let nm := TrimSpace source.(Name) in
        if String.eqb nm "" then inl ErrNoName
        else if bool_decide (nm ∈ seenNames) then inl (ErrDuplicate nm)
        else if negb (validHTTPFieldName header) then inl (ErrHeaderName nm)
        else if negb (String.eqb source.(HeaderMode) TrustedProxyHeaderSingleIP)
                && negb (String.eqb source.(HeaderMode) TrustedProxyHeaderTrustedChain)
        then inl (ErrHeaderMode nm)
        else if (length source.(Prefixes) =? 0)%nat then inl (ErrNoPrefixes nm)
        else match normalizeTrustedProxyPrefixes source.(Prefixes) with
             | None => inl (ErrPrefix nm)
             | Some ps =>
                 buildSources input (nm :: seenNames) headers
                   (built ++ [mkResolverSource nm ps (CanonicalMIMEHeaderKey header) source.(HeaderMode) []])
             end
  end.

Definition isChain (s : trustedProxyResolverSource) : bool :=
  String.eqb s.(headerMode) TrustedProxyHeaderTrustedChain.

(** [chainTrustDomains[header]] *)
Definition chainTrustDomain (l : list trustedProxyResolverSource) (header : string) : list Prefix :=
  concat (map prefixes (filter (λ s, isChain s = true ∧ s.(headerName) = header) l)).

Definition withChainTrusted (l : list trustedProxyResolverSource) (s : trustedProxyResolverSource)
    : trustedProxyResolverSource :=
  if isChain s then
    mkResolverSource s.(name) s.(prefixes) s.(headerName) s.(headerMode)
      (deduplicatePrefixes (chainTrustDomain l s.(headerName)))
  else s.

Definition NewClientIdentityResolver (input : list TrustedProxySource)
    (options : ClientIdentityResolverOptions) : resolverError + ClientIdentityResolver :=
  let maxHeaderBytes :=
    if options.(MaxHeaderBytes) =? 0 then DefaultTrustedProxyHeaderBytes else options.(MaxHeaderBytes) in
  let maxHops := if options.(MaxHops) =? 0 then DefaultTrustedProxyMaxHops else options.(MaxHops) in
  if maxHeaderBytes <? 1 then inl ErrHeaderBytes
  else if maxHops <? 1 then inl ErrHops
  else match buildSources input [] [] [] with
       | inl e => inl e
       | inr (headers, built) =>
           inr (mkResolver (map (withChainTrusted built) built)
                  (sortStrings (dedupSeen [] headers)) maxHeaderBytes maxHops)
       end.

(** ** Resolving a request *)

Definition directClientIdentity (peer : Addr) : ClientIdentity :=
  mkIdentity peer peer false true ClientIdentitySourceDirect [] NoReason.

Definition joinNames (names : list string) : string := String.concat "+" names.

Definition unresolvedTrustedIdentity (peer : Addr) (names : list string)
    (reason : ClientIdentityUnknownReason) : ClientIdentity :=
  let names := sortStrings names in
  mkIdentity peer AddrZero true false (joinNames names) names reason.

(** The hops of the header values, none if one is malformed or there are too many. *)
Fixpoint parseHops (limit : nat) (raw : list string) (hops : list Addr) : option (list Addr) :=
  match raw with
  | [] => Some hops
  | r :: raw =>
      if (length hops =? limit)%nat then None
      else match parseBareIP r with
           | Some hop => parseHops limit raw (hops ++ [hop])
           | None => None
           end
  end.

(** The loop from the last hop to the first. *)
Fixpoint lastUntrusted (trusted : list Prefix) (revHops : list Addr) : option Addr :=
  match revHops with
  | [] => None
  | hop :: revHops => if prefixesContain trusted hop then lastUntrusted trusted revHops else Some hop
  end.

Definition headerSize (values : list string) : Z :=
  zsum (map (λ v, Z.of_nat (String.length v)) values) + (Z.of_nat (length values) - 1).

Definition resolveSource (r : ClientIdentityResolver) (header : gmap string (list string))
    (source : trustedProxyResolverSource) : ClientIdentityUnknownReason + Addr :=
  let values := Values header source.(headerName) in
  match values with
  | [] => inl ClientIdentityUnknownMissingHeader
  | first :: more =>
      if r.(maxHeaderBytes) <? headerSize values then inl ClientIdentityUnknownMalformedHeader
      else if String.eqb source.(headerMode) TrustedProxyHeaderSingleIP then
        if negb (length values =? 1)%nat || containsByte "," first
        then inl ClientIdentityUnknownMalformedHeader
        else match parseBareIP first with
             | Some addr => inr addr
             | None => inl ClientIdentityUnknownMalformedHeader
             end
      else if String.eqb source.(headerMode) TrustedProxyHeaderTrustedChain then
        match parseHops (Z.to_nat r.(maxHops)) (concat (map (Split ",") values)) [] with
        | None => inl ClientIdentityUnknownMalformedHeader
        | Some hops =>
            match lastUntrusted source.(chainTrusted) (rev hops) with
            | Some hop => inr hop
            | None => inl ClientIdentityUnknownNoUntrustedHop
            end
        end
      else inl ClientIdentityUnknownMalformedHeader
  end.

(** The loop over the matching sources. *)
Fixpoint resolveAll (r : ClientIdentityResolver) (header : gmap string (list string))
    (matching : list trustedProxyResolverSource) (resolved : Addr)
    : ClientIdentityUnknownReason + Addr :=
  match matching with
  | [] => inr resolved
  | source :: matching =>
      match resolveSource r header source with
      | inl reason => inl reason
      | inr candidate =>
          if IsValid resolved && negb (bool_decide (resolved = candidate))
          then inl ClientIdentityUnknownConflictingSource
          else resolveAll r header matching candidate
      end
  end.

Definition matchingSources (r : ClientIdentityResolver) (peer : Addr) : list trustedProxyResolverSource :=
  filter (λ s, prefixesContain s.(prefixes) peer = true) r.(sources).

(** A nil resolver is [None]. *)
Definition Resolve (r : option ClientIdentityResolver) (req : httpRequest) : ClientIdentity :=
  match peerAddrFromRequest req.(RemoteAddr) with
  | None => mkIdentity AddrZero AddrZero true false "" [] ClientIdentityUnknownInvalidPeer
  | Some peer =>
      match r with
      | None => directClientIdentity peer
      | Some r =>
          let matching := matchingSources r peer in
          if (length matching =? 0)%nat then directClientIdentity peer
          else
            let names := sortStrings (map name matching) in
            match resolveAll r req.(Header) matching AddrZero with
            | inl reason => unresolvedTrustedIdentity peer names reason
            | inr resolved => mkIdentity peer resolved false false (joinNames names) names NoReason
            end
      end
  end.

(** The identity and the header names go into the context of the request. *)
Definition ResolveRequest (r : option ClientIdentityResolver) (req : httpRequest) : httpRequest :=
  mkRequest req.(Method) req.(Host) req.(URLHost) req.(URLPath) req.(RequestURI) req.(TLS)
    req.(RemoteAddr) req.(Header) req.(Cookies) req.(Query) (Some (Resolve r req))
    (match r with Some r => r.(headerNames) | None => [] end).

Definition ConfiguredHeaderNames (r : option ClientIdentityResolver) : list string :=
  match r with Some r => r.(headerNames) | None => [] end.

(** ** Reading the context *)

Definition ClientIdentityFromContext (req : httpRequest) : option ClientIdentity := req.(Identity).

Definition ClientIdentityPeer (req : httpRequest) : option Addr :=
  match ClientIdentityFromContext req with
  | Some id => if IsValid id.(Peer) then Some id.(Peer) else None
  | None => None
  end.

Definition ClientIdentityResolved (req : httpRequest) : option Addr :=
  match ClientIdentityFromContext req with
  | Some id => if negb id.(Unknown) && IsValid id.(Resolved) then Some id.(Resolved) else None
  | None => None
  end.

Definition ClientIdentityIsUnknown (req : httpRequest) : bool :=
  match ClientIdentityFromContext req with Some id => id.(Unknown) | None => true end.

Definition ClientIdentitySource (req : httpRequest) : string :=
  match ClientIdentityFromContext req with Some id => id.(Source) | None => "" end.

Definition ClientIdentityHeaderNames (req : httpRequest) : list string := req.(IdentityHeaderNames).

(** ** Parsed addresses are canonical *)

Lemma parsed_canonical s a : ParseAddr s = Some a → Zone a = "" → canonicalAddr (Unmap a).
Proof. intros H Hz. apply ParseAddr_wf in H as [? ?]. by apply Unmap_canonical. Qed.

Lemma parseBareIP_canonical s a : parseBareIP s = Some a → canonicalAddr a.
Proof.
  unfold parseBareIP. cbv zeta. set (t := TrimBy _ s). case_goal; [done|].
  destruct (ParseAddr t) as [x|] eqn:E; [|done]. destruct (String.eqb_spec (Zone x) ""); [|done].
  intros [= <-]. by apply (parsed_canonical t).
Qed.

Lemma ParseAddrPort_addr s a p : ParseAddrPort s = Some (a, p) → ∃ t, ParseAddr t = Some a.
Proof.
  unfold ParseAddrPort. intros H. repeat case_hyp H; try done; injection H as <- <-; eauto.
Qed.

Lemma peerAddr_canonical s a : peerAddrFromRequest s = Some a → canonicalAddr a.
Proof.
  unfold peerAddrFromRequest. cbv zeta. destruct (String.eqb (TrimSpace s) ""); [done|].
  destruct (ParseAddrPort (TrimSpace s)) as [[x p]|] eqn:E.
  - apply ParseAddrPort_addr in E as [t E]. destruct (String.eqb_spec (Zone x) ""); [|done].
    intros [= <-]. by apply (parsed_canonical t).
  - destruct (ParseAddr (TrimSpace s)) as [x|] eqn:E'; [|done].
    destruct (String.eqb_spec (Zone x) ""); [|done]. intros [= <-]. by apply (parsed_canonical (TrimSpace s)).
Qed.

(** ** Hops *)

(** Every hop of the header, when all of them parse. *)
Definition hopsOf (values : list string) : option (list Addr) :=
  mapM parseBareIP (concat (map (Split ",") values)).

Lemma parseHops_spec limit raw : ∀ acc, (length acc ≤ limit)%nat →
  parseHops limit raw acc =
  match mapM parseBareIP raw with
  | Some hops => if (length acc + length hops <=? limit)%nat then Some (acc ++ hops) else None
  | None => None
  end.
Proof.
  induction raw as [|r raw IH]; intros acc Hacc; simpl.
  { destruct (Nat.leb_spec (length acc + 0) limit); [by rewrite app_nil_r|lia]. }
  destruct (Nat.eqb_spec (length acc) limit) as [E|Hne].
  - destruct (parseBareIP r) as [h|]; simpl; [|done]. destruct (mapM parseBareIP raw) as [hops|]; simpl; [|done].
    destruct (Nat.leb_spec (length acc + S (length hops)) limit); [lia|done].
  - destruct (parseBareIP r) as [h|]; simpl; [|done]. rewrite IH by (rewrite length_app; simpl; lia).
    destruct (mapM parseBareIP raw) as [hops|]; simpl; [|done].
    rewrite length_app, <- app_assoc. simpl. by replace (length acc + 1 + length hops)%nat
      with (length acc + S (length hops))%nat by lia.
Qed.

Lemma lastUntrusted_spec trusted hops a :
  lastUntrusted trusted (rev hops) = Some a ↔
  ∃ pre post, hops = pre ++ a :: post ∧ prefixesContain trusted a = false ∧
    Forall (λ h, prefixesContain trusted h = true) post.
Proof.
  induction hops as [|h hops IH] using rev_ind; simpl.
  { split; [done|]. intros (pre & post & E & _). by destruct pre. }
  rewrite rev_app_distr. simpl. destruct (prefixesContain trusted h) eqn:Eh.
  - rewrite IH. split.
    + intros (pre & post & -> & Ha & Hp). exists pre, (post ++ [h]). rewrite <- app_assoc. split; [done|].
      split; [done|]. apply Forall_app. by repeat constructor.
    + intros (pre & post & E & Ha & Hp). destruct post as [|x post _] using rev_ind.
      * apply app_inj_tail in E as [_ <-]. congruence.
      * rewrite app_comm_cons, app_assoc in E. apply app_inj_tail in E as [-> <-].
        apply Forall_app in Hp as [Hp _]. eauto.
  - split.
    + intros [= <-]. exists hops, []. by repeat split.
    + intros (pre & post & E & Ha & Hp). destruct post as [|x post _] using rev_ind.
      * by apply app_inj_tail in E as [_ <-].
      * rewrite app_comm_cons, app_assoc in E. apply app_inj_tail in E as [_ <-].
        apply Forall_app in Hp as [_ Hp]. inversion Hp. congruence.
Qed.

Lemma chain_mode_not_single s : isChain s = true →
  String.eqb s.(headerMode) TrustedProxyHeaderSingleIP = false ∧
  String.eqb s.(headerMode) TrustedProxyHeaderTrustedChain = true.
Proof. unfold isChain. intros H. split; [|done]. by apply String.eqb_eq in H as ->. Qed.

Lemma resolveSource_canonical r h s a : resolveSource r h s = inr a → canonicalAddr a.
Proof.
  unfold resolveSource. cbv zeta. destruct (Values h (headerName s)) as [|first more]; [done|].
  destruct (maxHeaderBytes r <? _); [done|]. destruct (String.eqb (headerMode s) TrustedProxyHeaderSingleIP).
  - case_goal; [done|]. destruct (parseBareIP first) as [x|] eqn:E; [|done]. intros [= <-].
    by apply (parseBareIP_canonical first).
  - destruct (String.eqb _ _); [|done]. rewrite parseHops_spec by (simpl; lia).
    destruct (mapM parseBareIP _) as [hops|] eqn:E; [|done]. case_goal; [|done].
    destruct (lastUntrusted _ _) as [x|] eqn:Ex; [|done]. intros [= <-].
    apply lastUntrusted_spec in Ex as (pre & post & Eh & _). simpl in Eh.
    apply mapM_Some in E. rewrite Eh in E. apply Forall2_app_inv_r in E as (? & ? & _ & E & _).
    inversion E. by eapply parseBareIP_canonical.
Qed.

(** ** Agreement of the matching sources *)

Lemma resolveAll_spec r h a l : ∀ res, (IsValid res = true ∨ res = AddrZero) →
  resolveAll r h l res = inr a ↔
  match l with
  | [] => a = res
  | _ => (res = AddrZero ∨ res = a) ∧ ∀ s, s ∈ l → resolveSource r h s = inr a
  end.
Proof.
  induction l as [|s l IH]; intros res Hres; simpl; [split; congruence|].
  destruct (resolveSource r h s) as [reason|c] eqn:E.
  { split; [done|]. intros [_ H]. specialize (H s ltac:(left)). congruence. }
  pose proof (resolveSource_canonical _ _ _ _ E) as (Hc & _).
  destruct (IsValid res && negb (bool_decide (res = c))) eqn:Econf.
  - split; [done|]. intros [Hr H]. specialize (H s ltac:(left)). rewrite E in H. injection H as <-. bprop.
    destruct Hr as [-> | ->]; done.
  - rewrite IH by auto. assert (Hrc : res = AddrZero ∨ res = c).
    { destruct Hres as [Hv| ->]; [|by left]. rewrite Hv in Econf. simpl in Econf. bprop. by right. }
    destruct l as [|s' l].
    + split; [intros ->|intros [_ H]].
      * split; [done|]. intros s0 Hs. apply list_elem_of_singleton in Hs as ->. done.
      * specialize (H s ltac:(left)). congruence.
    + split; intros [Hr H].
      * assert (c = a) as -> by (destruct Hr as [-> |]; done). split; [done|].
        intros s0 Hs. rewrite elem_of_cons in Hs. destruct Hs as [->|Hs]; [done|]. by apply H.
      * pose proof (H s ltac:(left)) as Hc'. rewrite E in Hc'. injection Hc' as ->.
        split; [by right|]. intros s0 Hs. apply H. by right.
Qed.

Lemma resolveSource_reason r h s e : resolveSource r h s = inl e → e ≠ NoReason.
Proof.
  unfold resolveSource. intros H. repeat case_hyp H; try done; by injection H as <-.
Qed.

Lemma resolveAll_reason r h l : ∀ res e, resolveAll r h l res = inl e → e ≠ NoReason.
Proof.
  induction l as [|s l IH]; intros res e; simpl; [done|].
  destruct (resolveSource r h s) as [e'|c] eqn:E.
  - intros [= <-]. by apply resolveSource_reason in E.
  - case_goal; [by intros [= <-]|apply IH].
Qed.

Lemma resolveAll_canonical r h s l a : resolveAll r h (s :: l) AddrZero = inr a → canonicalAddr a.
Proof.
  intros H. apply resolveAll_spec in H as [_ H]; [|by right].
  apply (resolveSource_canonical r h s). apply H. left.
Qed.

(** ** The sources of a resolver *)

(** What an operator's prefix covers: an IPv4 prefix written as IPv6 covers the IPv4
    addresses it maps. *)
Definition covers (p : Prefix) (a : Addr) : bool :=
  if Is4In6 p.(prefixAddr) then Contains (mkPrefix (Unmap p.(prefixAddr)) (p.(prefixBits) - 96)) a
  else Contains p a.

Lemma Unmap_plain a : Is4In6 a = false → Unmap a = a.
Proof. destruct a as [| |n z]; [done..|]. intros H. unfold Unmap. by rewrite H. Qed.

Lemma PrefixFrom_Contains x bits a : Zone x = "" → 0 ≤ bits ≤ BitLen x → IsValid a = true →
  Contains (Masked (PrefixFrom x bits)) a = Contains (mkPrefix x bits) a.
Proof.
  intros Hz Hb Ha.
  destruct (decide (x = AddrZero)) as [->|Hx].
  { simpl in Hb. assert (bits = 0) as -> by lia. by destruct a as [| |? z]; [..|destruct z]. }
  assert (PrefixFrom x bits = mkPrefix x bits) as ->.
  { unfold PrefixFrom. destruct (Z.leb_spec 0 bits), (Z.leb_spec bits (BitLen x)); try lia.
    destruct x as [|n|n z]; [done..|]. simpl in Hz. by subst z. }
  apply Masked_Contains. simpl. lia.
Qed.

Lemma Zone_Unmap x : Zone x = "" → Zone (Unmap x) = "".
Proof. destruct x as [|n|n z]; [done..|]. intros H. unfold Unmap. by destruct (Is4In6 (V6 n z)). Qed.

Lemma normalizePrefix_covers p q a : normalizePrefix p = Some q → IsValid a = true →
  Contains q a = covers p a ∧ q.(prefixBits) ≤ BitLen q.(prefixAddr) ∧ Masked q = q.
Proof.
  unfold normalizePrefix. case_goal; [done|]. cbv zeta.
  set (bits := if Is4In6 _ then _ else _). case_goal; [done|]. intros [= <-] Ha. bprop.
  assert (Hpb : (PrefixFrom (Unmap (prefixAddr p)) bits).(prefixBits)
      ≤ BitLen (PrefixFrom (Unmap (prefixAddr p)) bits).(prefixAddr)).
  { unfold PrefixFrom. simpl.
    assert (BitLen (WithoutZone (Unmap (prefixAddr p))) = BitLen (Unmap (prefixAddr p))) as -> by
      (by destruct (Unmap (prefixAddr p))).
    case_goal; [lia|]. destruct (Unmap (prefixAddr p)); simpl; lia. }
  split; [|split; [|by apply Masked_idem]].
  - rewrite PrefixFrom_Contains by (try apply Zone_Unmap; done || lia). unfold covers, bits.
    destruct (Is4In6 (prefixAddr p)) eqn:E; [done|]. rewrite (Unmap_plain _ E). by destruct p.
  - destruct (PrefixFrom _ _) as [x b]. unfold Masked, prefixIsValid. simpl in *.
    destruct (0 <=? b) eqn:Eb; simpl; [|lia]. by destruct x.
Qed.

Lemma dedupSeen_elem {A} `{EqDecision A} (l : list A) : ∀ seen x, x ∈ dedupSeen seen l ↔ x ∈ l ∧ x ∉ seen.
Proof.
  induction l as [|y l IH]; intros seen x; simpl; [set_solver|].
  case_bool_decide as Hy; rewrite ?elem_of_cons, IH; [set_solver|].
  destruct (decide (x = y)); set_solver.
Qed.

Lemma dedupSeen_nodup {A} `{EqDecision A} (l : list A) : ∀ seen, NoDup (dedupSeen seen l).
Proof.
  induction l as [|y l IH]; intros seen; simpl; [constructor|]. case_bool_decide; [done|].
  apply NoDup_cons. split; [rewrite dedupSeen_elem; set_solver|done].
Qed.

Lemma existsb_perm {A} (f : A → bool) l k : l ≡ₚ k → existsb f l = existsb f k.
Proof. induction 1; simpl; [done|congruence| |congruence]. by rewrite !orb_assoc, (orb_comm (f y)). Qed.

Lemma existsb_elems {A} (f g : A → bool) l k :
  (∀ x, x ∈ l → f x = true → ∃ y, y ∈ k ∧ g y = true) →
  (∀ y, y ∈ k → g y = true → ∃ x, x ∈ l ∧ f x = true) → existsb f l = existsb g k.
Proof.
  intros H1 H2. apply eq_true_iff_eq. rewrite !existsb_exists. setoid_rewrite <- list_elem_of_In. split.
  - intros (x & Hx & E). destruct (H1 x Hx E) as (y & ? & ?). eauto.
  - intros (y & Hy & E). destruct (H2 y Hy E) as (x & ? & ?). eauto.
Qed.

(** Masking, removing repetitions and sorting keep what a list of prefixes contains. *)
Lemma deduplicate_contains l a : Forall (λ p, p.(prefixBits) ≤ BitLen p.(prefixAddr)) l →
  prefixesContain (deduplicatePrefixes l) a = prefixesContain l a.
Proof.
  intros Hl. unfold prefixesContain, deduplicatePrefixes. rewrite (existsb_perm _ _ _ (sortBy_perm _ _)).
  rewrite Forall_forall in Hl. apply existsb_elems.
  - intros q Hq E. rewrite dedupSeen_elem, list_elem_of_In, in_map_iff in Hq.
    destruct Hq as [(p & <- & Hp) _]. apply list_elem_of_In in Hp. exists p. split; [done|].
    by rewrite Masked_Contains in E by (by apply Hl).
  - intros p Hp E. exists (Masked p). rewrite dedupSeen_elem, list_elem_of_In, in_map_iff. split.
    + split; [|apply not_elem_of_nil]. exists p. split; [done|]. by apply list_elem_of_In.
    + by rewrite Masked_Contains by (by apply Hl).
Qed.

Lemma normalize_contains ps qs a : normalizeTrustedProxyPrefixes ps = Some qs → canonicalAddr a →
  prefixesContain qs a = existsb (λ p, covers p a) ps.
Proof.
  unfold normalizeTrustedProxyPrefixes. destruct (mapM normalizePrefix ps) as [l|] eqn:E; [|done].
  intros [= <-] Ha. apply mapM_Some in E. pose proof Ha as (Hv & _). rewrite deduplicate_contains.
  - unfold prefixesContain. rewrite (Unmap_id _ Ha). induction E as [|p q ps l Hpq _ IH]; [done|]. simpl.
    by rewrite (proj1 (normalizePrefix_covers _ _ _ Hpq Hv)), IH.
  - induction E as [|p q ps l Hpq _ IH]; constructor; [|done].
    by apply (normalizePrefix_covers _ _ _ Hpq Hv).
Qed.

(** A source of the resolver and the configured source it comes from. *)
Record builtFrom (src : TrustedProxySource) (s : trustedProxyResolverSource) : Prop := {
  bf_name : s.(name) = TrimSpace src.(Name) ∧ s.(name) ≠ "";
  bf_header : s.(headerName) = CanonicalMIMEHeaderKey (TrimSpace src.(HeaderName)) ∧
    validHTTPFieldName (TrimSpace src.(HeaderName)) = true;
  bf_mode : s.(headerMode) = src.(HeaderMode) ∧
    (s.(headerMode) = TrustedProxyHeaderSingleIP ∨ s.(headerMode) = TrustedProxyHeaderTrustedChain);
  bf_prefixes : normalizeTrustedProxyPrefixes src.(Prefixes) = Some s.(prefixes) ∧ src.(Prefixes) ≠ [] }.

Definition headerNamesOf (input : list TrustedProxySource) : list string :=
  map CanonicalMIMEHeaderKey (filter (λ h, validHTTPFieldName h = true)
    (map (λ src, TrimSpace src.(HeaderName)) input)).

Lemma buildSources_spec input : ∀ seen headers built headers' built',
  buildSources input seen headers built = inr (headers', built') →
  headers' = headers ++ headerNamesOf input ∧
  ∃ new, built' = built ++ new ∧
    Forall2 builtFrom (filter (λ src, src.(Enabled) = true) input) new ∧
    NoDup (map name new) ∧ Forall (λ n, n ∉ seen) (map name new).
Proof.
  induction input as [|src input IH]; intros seen headers built headers' built' H; simpl in H.
  { injection H as <- <-. split; [by rewrite app_nil_r|]. exists []. rewrite app_nil_r. repeat constructor. }
  set (h := TrimSpace src.(HeaderName)) in *.
  assert (Hh : (if validHTTPFieldName h then headers ++ [CanonicalMIMEHeaderKey h] else headers)
      ++ headerNamesOf input = headers ++ headerNamesOf (src :: input)).
  { unfold headerNamesOf. simpl. fold h. destruct (validHTTPFieldName h) eqn:E.
    - rewrite filter_cons_True by done. simpl. by rewrite <- app_assoc.
    - by rewrite filter_cons_False by congruence. }
  destruct src.(Enabled) eqn:En; simpl in H.
  - destruct (String.eqb_spec (TrimSpace (Name src)) ""); [done|].
    destruct (bool_decide (TrimSpace (Name src) ∈ seen)) eqn:Es; [done|].
    destruct (validHTTPFieldName h) eqn:Ev; simpl in H; [|done].
    destruct (_ && _) eqn:Em in H; [done|].
    destruct (length (Prefixes src) =? 0)%nat eqn:El; [done|].
    destruct (normalizeTrustedProxyPrefixes (Prefixes src)) as [ps|] eqn:Ep; [|done].
    apply IH in H as (-> & new & -> & Hf & Hnd & Hs). split; [done|].
    eexists (_ :: new). rewrite <- app_assoc. split; [done|]. rewrite filter_cons_True by done. split.
    + constructor; [|done]. split; simpl; [done|done| |].
      * split; [done|]. bprop. destruct Em as [Em|Em]; bprop; auto.
      * split; [done|]. apply Nat.eqb_neq in El. by intros E0; rewrite E0 in El.
    + simpl. bprop. split.
      * apply NoDup_cons. split; [|done]. intros Hin. rewrite Forall_forall in Hs.
        by apply (Hs _ Hin); left.
      * constructor; [done|]. rewrite Forall_forall in Hs |- *. intros n' Hn Hin. apply (Hs _ Hn). by right.
  - apply IH in H as (-> & new & -> & Hf & Hnd & Hs). split; [done|]. exists new.
    rewrite filter_cons_False by congruence. done.
Qed.

(** Some enabled source has a prefix that covers the peer. *)
Definition trusts (input : list TrustedProxySource) (peer : Addr) : bool :=
  existsb (λ src, src.(Enabled) && existsb (λ p, covers p peer) src.(Prefixes)) input.

Lemma New_built input opts r : NewClientIdentityResolver input opts = inr r →
  ∃ built, r.(sources) = map (withChainTrusted built) built ∧
    r.(headerNames) = sortStrings (dedupSeen [] (headerNamesOf input)) ∧
    0 < r.(maxHeaderBytes) ∧ 0 < r.(maxHops) ∧
    Forall2 builtFrom (filter (λ src, src.(Enabled) = true) input) built ∧ NoDup (map name built).
Proof.
  unfold NewClientIdentityResolver. cbv zeta. destruct (_ <? 1) eqn:Eb; [done|].
  destruct (_ <? 1) eqn:Eh in |- *; [done|].
  destruct (buildSources input [] [] []) as [e|[hs built]] eqn:E; [done|]. intros [= <-]. bprop.
  apply buildSources_spec in E as (-> & new & -> & Hf & Hnd & _). exists new. simpl. split_and!; try done; lia.
Qed.

Lemma withChainTrusted_same l s : let s' := withChainTrusted l s in
  s'.(name) = s.(name) ∧ s'.(prefixes) = s.(prefixes) ∧ s'.(headerName) = s.(headerName) ∧
  s'.(headerMode) = s.(headerMode).
Proof. unfold withChainTrusted. by destruct (isChain s). Qed.

Lemma existsb_map {A B} (g : A → B) (f : B → bool) l : existsb f (map g l) = existsb (λ x, f (g x)) l.
Proof. induction l as [|x l IH]; simpl; [done|]. by rewrite IH. Qed.

Lemma existsb_ext' {A} (f g : A → bool) l : (∀ x, f x = g x) → existsb f l = existsb g l.
Proof. intros H. induction l as [|x l IH]; simpl; [done|]. by rewrite IH, H. Qed.

Lemma filter_none {A} (f : A → bool) l : (length (filter (λ x, f x = true) l) =? 0)%nat = negb (existsb f l).
Proof.
  induction l as [|x l IH]; [done|]. simpl existsb. destruct (f x) eqn:E.
  - by rewrite filter_cons_True by done.
  - by rewrite filter_cons_False, IH by congruence.
Qed.

Lemma matching_trusts input opts r peer : NewClientIdentityResolver input opts = inr r → canonicalAddr peer →
  (length (matchingSources r peer) =? 0)%nat = negb (trusts input peer).
Proof.
  intros H Hp. apply New_built in H as (built & Hs & _ & _ & _ & Hf & _).
  unfold matchingSources. rewrite filter_none, Hs, existsb_map. f_equal. unfold trusts.
  rewrite (existsb_ext' _ (λ s, prefixesContain s.(prefixes) peer)) by
    (intros s; by destruct (withChainTrusted_same built s) as (_ & -> & _)).
  clear Hs. revert built Hf. induction input as [|src input IH]; intros built Hf.
  { by inversion Hf. }
  destruct src.(Enabled) eqn:En.
  - rewrite filter_cons_True in Hf by done. inversion Hf as [|? s ? built' Hb Hf']; subst. simpl.
    rewrite En, <- (IH _ Hf'). simpl. f_equal.
    apply (normalize_contains src.(Prefixes)); [by apply bf_prefixes|done].
  - rewrite filter_cons_False in Hf by congruence. simpl. rewrite En. simpl. by apply IH.
Qed.

Lemma chainTrustDomain_contains l0 l h a :
  prefixesContain (chainTrustDomain l h) a =
  existsb (λ x, isChain (withChainTrusted l0 x) && String.eqb (withChainTrusted l0 x).(headerName) h
    && prefixesContain (withChainTrusted l0 x).(prefixes) a) l.
Proof.
  unfold chainTrustDomain. induction l as [|u l IH]; [done|]. simpl existsb.
  destruct (withChainTrusted_same l0 u) as (_ & Ep & Ehu & Emu).
  assert (isChain (withChainTrusted l0 u) = isChain u) as -> by (unfold isChain; by rewrite Emu).
  rewrite Ep, Ehu, <- IH.
  destruct (isChain u && String.eqb u.(headerName) h) eqn:E.
  - rewrite filter_cons_True by (bprop; done). simpl. unfold prefixesContain. by rewrite existsb_app.
  - rewrite filter_cons_False; [done|]. intros [H1 H2]. rewrite H1, H2, String.eqb_refl in E. done.
Qed.

(** Every trusted chain source of a header trusts the prefixes of all of them. *)
Lemma chain_domain input opts r s a : NewClientIdentityResolver input opts = inr r →
  s ∈ r.(sources) → isChain s = true → canonicalAddr a →
  prefixesContain s.(chainTrusted) a =
  existsb (λ t, isChain t && String.eqb t.(headerName) s.(headerName) && prefixesContain t.(prefixes) a)
    r.(sources).
Proof.
  intros H Hs Hc Ha. apply New_built in H as (built & Es & _ & _ & _ & Hf & _).
  rewrite Es in Hs |- *. apply list_elem_of_In, in_map_iff in Hs as (t & <- & Ht).
  destruct (withChainTrusted_same built t) as (_ & _ & Eh & Em).
  assert (Ht' : isChain t = true) by (unfold isChain in Hc |- *; by rewrite Em in Hc).
  rewrite existsb_map, Eh. unfold withChainTrusted at 1. rewrite Ht'. simpl. rewrite deduplicate_contains.
  - apply chainTrustDomain_contains.
  - apply Forall_concat, Forall_forall. intros ps Hps. apply list_elem_of_In, in_map_iff in Hps as (u & <- & Hu).
    apply list_elem_of_In, list_elem_of_filter in Hu as [_ Hu]. apply list_elem_of_lookup in Hu as [i Hi].
    destruct (Forall2_lookup_r _ _ _ _ _ Hf Hi) as (src & _ & Hb). apply bf_prefixes in Hb as [Hb _].
    unfold normalizeTrustedProxyPrefixes in Hb. destruct (mapM normalizePrefix _) as [l|] eqn:El; [|done].
    injection Hb as <-. apply mapM_Some in El. unfold deduplicatePrefixes. rewrite sortBy_perm.
    apply Forall_forall. intros q Hq. rewrite dedupSeen_elem in Hq. destruct Hq as [Hq _].
    apply list_elem_of_In, in_map_iff in Hq as (q' & <- & Hq'). apply list_elem_of_In, list_elem_of_lookup in Hq' as [j Hj].
    destruct (Forall2_lookup_r _ _ _ _ _ El Hj) as (p0 & _ & Hp0).
    destruct (normalizePrefix_covers _ _ a Hp0) as (_ & Hb & ->); [apply Ha|done].
Qed.

Lemma resolveAll_no_peer_reason r h l : ∀ res, resolveAll r h l res ≠ inl ClientIdentityUnknownInvalidPeer.
Proof.
  induction l as [|s l IH]; intros res; simpl; [done|].
  destruct (resolveSource r h s) as [e|c] eqn:E; [|case_goal; [done|apply IH]].
  unfold resolveSource in E. intros [= ->]. by repeat case_hyp E.
Qed.

(** ** Theorems *)

(** C40: an identity is either unresolved, with the zero address and a reason, or
    resolved to a canonical address (valid, within the range of its family, without a
    zone, never an IPv4 address written as IPv6); a direct one is its peer, and the
    peer is canonical unless its text is not an address. *)
Theorem identity_wellformed (r : option ClientIdentityResolver) (req : httpRequest) :
  let id := Resolve r req in
  (id.(Unknown) = true → id.(Resolved) = AddrZero ∧ id.(UnknownReason) ≠ NoReason ∧ id.(Direct) = false) ∧
  (id.(Unknown) = false → canonicalAddr id.(Resolved) ∧ canonicalAddr id.(Peer) ∧ id.(UnknownReason) = NoReason) ∧
  (id.(Direct) = true → id.(Resolved) = id.(Peer)) ∧
  (id.(Peer) = AddrZero ↔ id.(UnknownReason) = ClientIdentityUnknownInvalidPeer).
Proof.
  unfold Resolve. cbv zeta. destruct (peerAddrFromRequest req.(RemoteAddr)) as [peer|] eqn:Ep; [|by simpl].
  apply peerAddr_canonical in Ep. assert (Hne : peer ≠ AddrZero) by (destruct Ep as (? & _); by intros ->).
  assert (Hd : let id := directClientIdentity peer in
    (id.(Unknown) = true → id.(Resolved) = AddrZero ∧ id.(UnknownReason) ≠ NoReason ∧ id.(Direct) = false) ∧
    (id.(Unknown) = false → canonicalAddr id.(Resolved) ∧ canonicalAddr id.(Peer) ∧ id.(UnknownReason) = NoReason) ∧
    (id.(Direct) = true → id.(Resolved) = id.(Peer)) ∧
    (id.(Peer) = AddrZero ↔ id.(UnknownReason) = ClientIdentityUnknownInvalidPeer)) by (by simpl).
  destruct r as [r|]; [|exact Hd]. destruct (matchingSources r peer) as [|m ms] eqn:Em; [exact Hd|]. simpl length.
  cbv iota beta. destruct (resolveAll r req.(Header) (m :: ms) AddrZero) as [e|a] eqn:E; cbn -[resolveAll].
  - pose proof (resolveAll_reason _ _ _ _ _ E). split; [done|]. split; [done|]. split; [done|].
    split; [done|]. intros ->. by apply resolveAll_no_peer_reason in E.
  - apply resolveAll_canonical in E. by split_and!.
Qed.

(** A peer that no enabled source covers is the client, whatever headers it sends;
    a covered peer is never taken for the client because of its own address. *)
Theorem identity_untrusted_peer (input : list TrustedProxySource) (opts : ClientIdentityResolverOptions)
    (r : ClientIdentityResolver) (req : httpRequest) (peer : Addr) :
  NewClientIdentityResolver input opts = inr r →
  peerAddrFromRequest req.(RemoteAddr) = Some peer →
  (trusts input peer = false → Resolve (Some r) req = directClientIdentity peer) ∧
  (Resolve (Some r) req).(Direct) = negb (trusts input peer).
Proof.
  intros Hr Hp. pose proof (peerAddr_canonical _ _ Hp) as Hc.
  pose proof (matching_trusts _ _ _ _ Hr Hc) as Hm. unfold Resolve. rewrite Hp. cbv zeta. rewrite Hm.
  destruct (trusts input peer); simpl; [|done]. split; [done|]. by destruct (resolveAll _ _ _ _).
Qed.

(** C39: behind a trusted peer the client is resolved to [a] exactly when every source
    that covers the peer names [a]; a missing or malformed header, or a disagreement,
    leaves it unresolved. *)
Theorem identity_fails_closed (r : ClientIdentityResolver) (req : httpRequest) (peer a : Addr) :
  peerAddrFromRequest req.(RemoteAddr) = Some peer →
  matchingSources r peer ≠ [] →
  (Resolve (Some r) req).(Unknown) = false ∧ (Resolve (Some r) req).(Resolved) = a ↔
  ∀ s, s ∈ matchingSources r peer → resolveSource r req.(Header) s = inr a.
Proof.
  intros Hp Hm. unfold Resolve. rewrite Hp. cbv zeta.
  destruct (matchingSources r peer) as [|m ms]; [done|]. simpl length. cbv iota beta.
  pose proof (resolveAll_spec r req.(Header) a (m :: ms) AddrZero (or_intror eq_refl)) as Hs. cbv iota in Hs.
  destruct (resolveAll r req.(Header) (m :: ms) AddrZero) as [e|b]; cbn -[resolveSource].
  - split; [by intros [? _]|]. intros H. by discriminate (proj2 Hs (conj (or_introl eq_refl) H)).
  - split.
    + intros [_ ->]. by apply Hs.
    + intros H. split; [done|]. by injection (proj2 Hs (conj (or_introl eq_refl) H)).
Qed.

(** A trusted-chain source names the last hop that none of the proxies of its
    header covers: the hops before it, which the client can write, do not matter. *)
Theorem identity_chain_rightmost (r : ClientIdentityResolver) (header : gmap string (list string))
    (s : trustedProxyResolverSource) (a : Addr) :
  isChain s = true →
  resolveSource r header s = inr a ↔
  let values := Values header s.(headerName) in
  values ≠ [] ∧ headerSize values ≤ r.(maxHeaderBytes) ∧
  ∃ pre post, hopsOf values = Some (pre ++ a :: post) ∧
    (length (pre ++ a :: post) ≤ Z.to_nat r.(maxHops))%nat ∧
    prefixesContain s.(chainTrusted) a = false ∧
    Forall (λ h, prefixesContain s.(chainTrusted) h = true) post.
Proof.
  intros Hc. destruct (chain_mode_not_single _ Hc) as [Es Ec]. unfold resolveSource. cbv zeta.
  destruct (Values header s.(headerName)) as [|first more] eqn:Ev; [by split; [|intros [? _]]|].
  rewrite <- Ev. rewrite Es, Ec. destruct (Z.ltb_spec r.(maxHeaderBytes) (headerSize (Values header (headerName s)))).
  { split; [done|]. intros (_ & ? & _). lia. }
  rewrite parseHops_spec by (simpl; lia). unfold hopsOf. simpl length.
  destruct (mapM parseBareIP _) as [hops|] eqn:Eh; [|by split; [|intros (_ & _ & ? & ? & ? & _)]].
  rewrite Nat.add_0_l. destruct (Nat.leb_spec (length hops) (Z.to_nat r.(maxHops))) as [Hle|Hgt]; simpl.
  - pose proof (lastUntrusted_spec s.(chainTrusted) hops a) as Hl.
    destruct (lastUntrusted s.(chainTrusted) (rev hops)) as [b|].
    + split.
      * intros [= ->]. destruct (proj1 Hl eq_refl) as (pre & post & -> & Ha & Hp).
        split; [by rewrite Ev|]. split; [done|]. by exists pre, post.
      * intros (_ & _ & pre & post & [= ->] & _ & Ha & Hp). assert (Some b = Some a) as [= ->]; [|done].
        apply Hl. by exists pre, post.
    + split; [done|]. intros (_ & _ & pre & post & [= ->] & _ & Ha & Hp).
      discriminate (proj2 Hl (ex_intro _ pre (ex_intro _ post (conj eq_refl (conj Ha Hp))))).
  - split; [done|]. intros (_ & _ & pre & post & [= ->] & Hl & _). lia.
Qed.

(** A resolver that was built has positive limits, one source per enabled
    configured source with distinct non-empty names; a chain source trusts exactly the
    proxies of the chain sources with its header; and the header names to strip are
    the valid configured ones, of disabled sources too, without repetition. *)
Theorem identity_resolver_valid (input : list TrustedProxySource) (opts : ClientIdentityResolverOptions)
    (r : ClientIdentityResolver) :
  NewClientIdentityResolver input opts = inr r →
  0 < r.(maxHeaderBytes) ∧ 0 < r.(maxHops) ∧
  map name r.(sources) = map (λ src, TrimSpace src.(Name)) (filter (λ src, src.(Enabled) = true) input) ∧
  NoDup (map name r.(sources)) ∧
  (∀ s a, s ∈ r.(sources) → isChain s = true → canonicalAddr a →
    prefixesContain s.(chainTrusted) a =
    existsb (λ t, isChain t && String.eqb t.(headerName) s.(headerName) && prefixesContain t.(prefixes) a)
      r.(sources)) ∧
  NoDup r.(headerNames) ∧ (∀ h, h ∈ r.(headerNames) ↔ h ∈ headerNamesOf input).
Proof.
  intros H. pose proof (New_built _ _ _ H) as (built & Hs & Hh & Hb & Hm & Hf & Hnd).
  assert (Hn : map name r.(sources) = map name built).
  { rewrite Hs, map_map. apply map_ext. intros s. apply withChainTrusted_same. }
  split; [done|]. split; [done|]. split; [|split; [by rewrite Hn|split]].
  - rewrite Hn. clear -Hf. induction Hf as [|src s l k Hb _ IH]; [done|]. simpl.
    by rewrite IH, (proj1 (bf_name _ _ Hb)).
  - intros s a. by apply (chain_domain input opts).
  - rewrite Hh. unfold sortStrings. rewrite (sortBy_perm stringLe). split; [apply dedupSeen_nodup|].
    intros h. rewrite (sortBy_perm stringLe), dedupSeen_elem. set_solver.
Qed.

(** ** Examples and witnesses *)

Definition prefix (s : string) : Prefix := default (mkPrefix AddrZero (-1)) (ParsePrefix s).

Definition exSources : list TrustedProxySource :=
  [mkSource "edge" "custom" true [prefix "10.0.0.0/8"; prefix "::ffff:192.168.0.0/112"] "x-forwarded-for"
     TrustedProxyHeaderTrustedChain;
   mkSource "cdn" "cloudflare" false [prefix "203.0.113.0/24"] "CF-Connecting-IP" TrustedProxyHeaderSingleIP].

Definition exResolver : ClientIdentityResolver :=
  match NewClientIdentityResolver exSources (mkOptions 0 0) with
  | inr r => r | inl _ => mkResolver [] [] 0 0 end.

Definition exRequest (remote xff : string) : httpRequest :=
  mkRequest "GET" "example.com" "" "/" "/" false remote {["X-Forwarded-For" := [xff]]} [] ∅ None [].

Example ex_headers : exResolver.(headerNames) = ["Cf-Connecting-Ip"; "X-Forwarded-For"].
Proof. vm_compute. reflexivity. Qed.
Example ex_chain : (Resolve (Some exResolver) (exRequest "10.0.0.7:443" "9.9.9.9, 198.51.100.4, 192.168.0.9")).(Resolved)
  = V4 3325256708.
Proof. vm_compute. reflexivity. Qed.
Example ex_malformed : (Resolve (Some exResolver) (exRequest "10.0.0.7:443" "nonsense")).(UnknownReason)
  = ClientIdentityUnknownMalformedHeader.
Proof. vm_compute. reflexivity. Qed.

Lemma identity_wellformed_witness :
  (Resolve (Some exResolver) (exRequest "10.0.0.7:443" "nonsense")).(Resolved) = AddrZero.
Proof.
  assert (E : (Resolve (Some exResolver) (exRequest "10.0.0.7:443" "nonsense")).(Unknown) = true)
    by (vm_compute; reflexivity).
  exact (proj1 (proj1 (identity_wellformed (Some exResolver) (exRequest "10.0.0.7:443" "nonsense")) E)).
Defined.

Lemma identity_untrusted_peer_witness :
  Resolve (Some exResolver) (exRequest "203.0.113.9:5000" "10.0.0.1") = directClientIdentity (V4 3405803785).
Proof.
  assert (Hr : NewClientIdentityResolver exSources (mkOptions 0 0) = inr exResolver) by (vm_compute; reflexivity).
  assert (Hp : peerAddrFromRequest (exRequest "203.0.113.9:5000" "10.0.0.1").(RemoteAddr) = Some (V4 3405803785))
    by (vm_compute; reflexivity).
  assert (Ht : trusts exSources (V4 3405803785) = false) by (vm_compute; reflexivity).
  exact (proj1 (identity_untrusted_peer exSources (mkOptions 0 0) exResolver
    (exRequest "203.0.113.9:5000" "10.0.0.1") (V4 3405803785) Hr Hp) Ht).
Defined.

Lemma identity_fails_closed_witness :
  (Resolve (Some exResolver) (exRequest "10.0.0.7:443" "198.51.100.4")).(Resolved) = V4 3325256708.
Proof.
  assert (Hp : peerAddrFromRequest (exRequest "10.0.0.7:443" "198.51.100.4").(RemoteAddr) = Some (V4 167772167))
    by (vm_compute; reflexivity).
  assert (Hm : matchingSources exResolver (V4 167772167) ≠ []) by (vm_compute; discriminate).
  assert (Hs : ∀ s, s ∈ matchingSources exResolver (V4 167772167) →
    resolveSource exResolver (exRequest "10.0.0.7:443" "198.51.100.4").(Header) s = inr (V4 3325256708)).
  { assert (E : matchingSources exResolver (V4 167772167) = exResolver.(sources)) by (vm_compute; reflexivity).
    rewrite E. intros s Hs. vm_compute in Hs. apply list_elem_of_In in Hs as [<-|[]]. vm_compute. reflexivity. }
  exact (proj2 (proj2 (identity_fails_closed exResolver (exRequest "10.0.0.7:443" "198.51.100.4")
    (V4 167772167) (V4 3325256708) Hp Hm) Hs)).
Defined.

Definition exChain : trustedProxyResolverSource :=
  mkResolverSource "edge" [prefix "10.0.0.0/8"] "X-Forwarded-For" TrustedProxyHeaderTrustedChain [prefix "10.0.0.0/8"].

Lemma identity_chain_rightmost_witness :
  resolveSource exResolver {["X-Forwarded-For" := ["1.1.1.1, 198.51.100.4"; "10.0.0.2"]]} exChain = inr (V4 3325256708).
Proof.
  refine (proj2 (identity_chain_rightmost exResolver {["X-Forwarded-For" := ["1.1.1.1, 198.51.100.4"; "10.0.0.2"]]}
    exChain (V4 3325256708) eq_refl) _).
  split; [vm_compute; discriminate|]. split; [vm_compute; discriminate|].
  exists [V4 16843009], [V4 167772162]. split; [vm_compute; reflexivity|].
  split; [apply (bool_decide_unpack _); vm_compute; exact I|].
  split; [vm_compute; reflexivity|]. repeat constructor.
Defined.

Lemma identity_resolver_valid_witness : NoDup exResolver.(headerNames).
Proof.
  assert (Hr : NewClientIdentityResolver exSources (mkOptions 0 0) = inr exResolver) by (vm_compute; reflexivity).
  exact (proj1 (proj2 (proj2 (proj2 (proj2 (proj2 (identity_resolver_valid exSources (mkOptions 0 0) exResolver Hr))))))).
Defined.

End ClientIdentity.
