(* ===== verification/DestinationAllowlist.v ===== *)
(** Which destinations an agent may dial (internal/agent/destination_allowlist.go).

    The rules are parsed once into a policy; [dialAddress] decides for each requested
    address and returns the address to dial.  The DNS lookup is a function argument,
    [lookup]: the answer of the resolver, its addresses already converted from
    [net.IPAddr].  Error texts are constructors. *)

From S2P Require Import Prelude.
From S2P Require Import GoStrings.
From S2P Require Import NetIP.
From Stdlib Require Import Ascii.

Module DestinationAllowlist.
Import NetIP.

(** ** Data *)

Record agentDestinationPortRange := mkPorts { any : bool; min : Z; max : Z }.

Record agentDestinationRule := mkRule {
  hostname : string;
  prefix : Prefix;
  hasPrefix : bool;
  ports : agentDestinationPortRange }.

Record agentDestinationPolicy := mkPolicy {
  rules : list agentDestinationRule;
  hasPrefixRules : bool;
  allowAny : bool }.

Inductive parseError :=
  | ErrTarget | ErrBracket | ErrAfterBracket | ErrHost | ErrHostSpace | ErrPort | ErrPortRange
  | ErrCIDR | ErrHostname | ErrWildcard | ErrAnyWithRules.

Definition defaultAgentDestinationRules : list string := ["127.0.0.0/8"; "::1/128"].

(** ** Parsing rules *)

Definition isDigit (c : ascii) : bool := match digit c with Some _ => true | None => false end.
Fixpoint allDigits (s : string) : bool :=
  match s with EmptyString => true | String c s => isDigit c && allDigits s end.

Definition parseAgentDestinationPort (spec : string) : parseError + Z :=
  let spec := TrimSpace spec in
  if String.eqb spec "" then inl ErrPort
  else if negb (allDigits spec) then inl ErrPort
  else match Atoi spec with
       | None => inl ErrPort
       | Some port => if (port <? 1) || (65535 <? port) then inl ErrPort else inr port
       end.

Definition parseAgentDestinationPortRange (spec : string) : parseError + agentDestinationPortRange :=
  let spec := TrimSpace spec in
  if String.eqb spec "" then inl ErrPort
  else match Cut "-" spec with
       | Some (startText, endText) =>
           match parseAgentDestinationPort startText with
           | inl e => inl e
           | inr start =>
               match parseAgentDestinationPort endText with
               | inl e => inl e
               | inr stop => if stop <? start then inl ErrPortRange else inr (mkPorts false start stop)
               end
           end
       | None =>
           match parseAgentDestinationPort spec with
           | inl e => inl e
           | inr port => inr (mkPorts false port port)
           end
       end.

(** The host and the port specification, if there is one. *)
Definition splitAgentAllowTarget (raw : string) : parseError + string * option string :=
  let value := TrimSpace raw in
  if String.eqb value "" then inl ErrTarget
  else if HasPrefix value "[" then
    match CutLast "]" value with
    | None => inl ErrBracket
    | Some (open, rest) =>
        let host := tail open in
        if String.eqb rest "" then inr (host, None)
        else if HasPrefix rest ":" && (1 <? String.length rest)%nat then inr (host, Some (tail rest))
        else inl ErrAfterBracket
    end
  else if (countByte ":" value =? 1)%nat then
    match Cut ":" value with
    | Some (before, after) =>
        if String.eqb before "" then inl ErrHost
        else if String.eqb after "" then inl ErrPort
        else inr (before, Some after)
    | None => inl ErrHost
    end
  else inr (value, None).

Definition normalizeAgentDestinationHost (host : string) : string :=
  TrimSuffix (ToLower (TrimSpace host)) ".".

Definition normalizeAgentDestinationAddr (addr : Addr) : Addr := WithoutZone (Unmap addr).

Definition normalizeAgentDestinationPrefix (p : Prefix) : Prefix :=
  let addr := normalizeAgentDestinationAddr p.(prefixAddr) in
  let bits := if Is4In6 p.(prefixAddr) && Is4 addr then p.(prefixBits) - 96 else p.(prefixBits) in
  let bits := if Is4 addr && (32 <? bits) then 32 else bits in
  let bits := if bits <? 0 then 0 else bits in
  Masked (PrefixFrom addr bits).

Definition prefixForAgentDestinationAddr (addr : Addr) : Prefix :=
  let addr := normalizeAgentDestinationAddr addr in
  if Is4 addr then PrefixFrom addr 32 else PrefixFrom addr 128.

Definition containsAny (cs : string) (s : string) : bool :=
  existsb (λ c, containsByte c s) (String.list_ascii_of_string cs).

Definition noPrefix : Prefix := mkPrefix AddrZero (-1).

(** The white space a host may not contain: space, tab, CR, LF. *)
Definition hostSpace : string := bytes [32; 9; 13; 10]%nat.

Definition parseAgentAllowTarget (raw : string) : parseError + agentDestinationRule :=
  match splitAgentAllowTarget raw with
  | inl e => inl e
  | inr (host, portSpec) =>
      match (match portSpec with
             | None => inr (mkPorts true 0 0)
             | Some spec => parseAgentDestinationPortRange spec
             end) with
      | inl e => inl e
      | inr ports =>
          let host := TrimSpace host in
          if String.eqb host "" then inl ErrHost
          else if containsAny hostSpace host then inl ErrHostSpace
          else match ParsePrefix host with
          | Some p => inr (mkRule "" (normalizeAgentDestinationPrefix p) true ports)
          | None =>
              if containsByte "/" host then inl ErrCIDR
              else match ParseAddr host with
              | Some addr => inr (mkRule "" (prefixForAgentDestinationAddr addr) true ports)
              | None =>
                  let hostname := normalizeAgentDestinationHost host in
                  if String.eqb hostname "" then inl ErrHostname
                  else if containsByte "*" hostname then inl ErrWildcard
                  else if containsAny "[]/:" hostname then inl ErrHostname
                  else inr (mkRule hostname noPrefix false ports)
              end
          end
      end
  end.

Definition hasNonEmptyAgentDestinationRule (rawRules : list string) : bool :=
  existsb (λ raw, negb (String.eqb (TrimSpace raw) "")) rawRules.

(** The loop over the raw rules. *)
Fixpoint parseRules (rawRules : list string) (p : agentDestinationPolicy)
    : parseError + agentDestinationPolicy :=
  match rawRules with
  | [] => inr p
  | raw :: rawRules =>
      let raw := TrimSpace raw in
      if String.eqb raw "" then parseRules rawRules p
      else match parseAgentAllowTarget raw with
           | inl e => inl e
           | inr rule =>
               parseRules rawRules
                 (mkPolicy (p.(rules) ++ [rule]) (p.(hasPrefixRules) || rule.(hasPrefix)) p.(allowAny))
           end
  end.

Definition newAgentDestinationPolicy (rawRules : list string) (anyTarget : bool)
    : parseError + agentDestinationPolicy :=
  let rawRules :=
    if negb anyTarget && negb (hasNonEmptyAgentDestinationRule rawRules)
    then defaultAgentDestinationRules else rawRules in
  match parseRules rawRules (mkPolicy [] false anyTarget) with
  | inl e => inl e
  | inr p => if p.(allowAny) && (0 <? length p.(rules))%nat then inl ErrAnyWithRules else inr p
  end.

(** ** Deciding *)

Definition portMatches (r : agentDestinationPortRange) (port : Z) : bool :=
  if r.(any) then true else (r.(min) <=? port) && (port <=? r.(max)).

Definition matchesHostname (p : agentDestinationPolicy) (hostname : string) (port : Z) : bool :=
  existsb (λ rule, negb (String.eqb rule.(DestinationAllowlist.hostname) "")
    && String.eqb rule.(DestinationAllowlist.hostname) hostname && portMatches rule.(ports) port) p.(rules).

Definition matchesAddr (p : agentDestinationPolicy) (addr : Addr) (port : Z) : bool :=
  existsb (λ rule, rule.(hasPrefix) && (Contains rule.(prefix) addr && portMatches rule.(ports) port))
    p.(rules).

Definition agentDestinationAddrMatchesNetwork (addr : Addr) (network : string) : bool :=
  let network := ToLower (TrimSpace network) in
  if String.eqb network "tcp4" then Is4 addr
  else if String.eqb network "tcp6" then Is6 addr
  else true.

(** The resolver's answer: addresses, or a failure that is a timeout or a
    cancellation, or another failure. *)
Inductive lookupResult :=
  | LookupFound (addrs : list Addr)
  | LookupTransient
  | LookupFailed.

(** The conversion of the resolver's answer; no address is a failure. *)
Definition lookupAgentDestinationIP (answer : lookupResult) : lookupResult :=
  match answer with
  | LookupFound ips =>
      let addrs := map normalizeAgentDestinationAddr (filter (λ a, IsValid a = true) ips) in
      if (length addrs =? 0)%nat then LookupFailed else LookupFound addrs
  | _ => answer
  end.

Inductive forbiddenReason :=
  | NoDestinations | BadAddress | BadPort | HostRequired | AddressNotAllowed | HostnameInvalid
  | HostnameNotAllowed | DidNotResolve | ResolvedOutside.

Inductive dialError :=
  | Forbidden (reason : forbiddenReason)
  | LookupError.

(** The first resolved address that is allowed. *)
Fixpoint firstAllowed (p : agentDestinationPolicy) (network : string) (port : Z) (addrs : list Addr)
    : option Addr :=
  match addrs with
  | [] => None
  | addr :: addrs =>
      let addr := normalizeAgentDestinationAddr addr in
      if negb (agentDestinationAddrMatchesNetwork addr network) then firstAllowed p network port addrs
      else if matchesAddr p addr port then Some addr
      else firstAllowed p network port addrs
  end.

Section dial.
Context (lookup : string → lookupResult).

(** A nil policy is [None]. *)
Definition dialAddress (policy : option agentDestinationPolicy) (network address : string)
    : dialError + string :=
  match policy with
  | None => inl (Forbidden NoDestinations)
  | Some p =>
      if p.(allowAny) then inr address
      else if (length p.(rules) =? 0)%nat then inl (Forbidden NoDestinations)
      else match SplitHostPort (TrimSpace address) with
      | None => inl (Forbidden BadAddress)
      | Some (host, portText) =>
          match parseAgentDestinationPort portText with
          | inl _ => inl (Forbidden BadPort)
          | inr port =>
              let host := TrimSpace host in
              if String.eqb host "" then inl (Forbidden HostRequired)
              else match ParseAddr host with
              | Some addr =>
                  if matchesAddr p (normalizeAgentDestinationAddr addr) port then inr address
                  else inl (Forbidden AddressNotAllowed)
              | None =>
                  let hostname := normalizeAgentDestinationHost host in
                  if String.eqb hostname "" || containsAny "[]/:" hostname
                  then inl (Forbidden HostnameInvalid)
                  else if matchesHostname p hostname port then inr address
                  else if negb p.(hasPrefixRules) then inl (Forbidden HostnameNotAllowed)
                  else match lookupAgentDestinationIP (lookup host) with
                  | LookupTransient => inl LookupError
                  | LookupFailed => inl (Forbidden DidNotResolve)
                  | LookupFound addrs =>
                      match firstAllowed p network port addrs with
                      | Some addr => inr (JoinHostPort (addrString addr) (FormatUint port))
                      | None => inl (Forbidden ResolvedOutside)
                      end
                  end
              end
          end
      end
  end.
End dial.

(** ** What a policy allows *)

Definition allowsAddr (p : agentDestinationPolicy) (addr : Addr) (port : Z) : Prop :=
  ∃ rule, rule ∈ p.(rules) ∧ rule.(hasPrefix) = true ∧ Contains rule.(prefix) addr = true ∧
    portMatches rule.(ports) port = true.

Definition allowsHost (p : agentDestinationPolicy) (host : string) (port : Z) : Prop :=
  ∃ rule, rule ∈ p.(rules) ∧ rule.(hostname) ≠ "" ∧ rule.(hostname) = host ∧
    portMatches rule.(ports) port = true.

Lemma matchesAddr_spec p addr port : matchesAddr p addr port = true ↔ allowsAddr p addr port.
Proof.
  unfold matchesAddr, allowsAddr. rewrite existsb_exists. setoid_rewrite <- list_elem_of_In.
  setoid_rewrite andb_true_iff. setoid_rewrite andb_true_iff. done.
Qed.

Lemma matchesHostname_spec p host port : matchesHostname p host port = true ↔ allowsHost p host port.
Proof.
  unfold matchesHostname, allowsHost. rewrite existsb_exists. setoid_rewrite <- list_elem_of_In.
  setoid_rewrite andb_true_iff. setoid_rewrite andb_true_iff. setoid_rewrite negb_true_iff.
  setoid_rewrite String.eqb_neq. setoid_rewrite String.eqb_eq.
  split; [intros (r & Hr & [Hn He] & Hp)|intros (r & Hr & Hn & He & Hp)]; exists r; auto.
Qed.

Lemma firstAllowed_Some p network port addrs a : firstAllowed p network port addrs = Some a →
  (∃ b, b ∈ addrs ∧ a = normalizeAgentDestinationAddr b) ∧ allowsAddr p a port ∧
  agentDestinationAddrMatchesNetwork a network = true.
Proof.
  induction addrs as [|b addrs IH]; simpl; [done|]. 
  destruct (agentDestinationAddrMatchesNetwork (normalizeAgentDestinationAddr b) network) eqn:En; simpl.
  - destruct (matchesAddr p (normalizeAgentDestinationAddr b) port) eqn:Em.
    + intros H. injection H as <-. apply matchesAddr_spec in Em. split; [exists b; split; [left|done]|done].
    + intros H. destruct (IH H) as ((x & Hx & ->) & ?). split; [exists x; split; [by right|done]|done].
  - intros H. destruct (IH H) as ((x & Hx & ->) & ?). split; [exists x; split; [by right|done]|done].
Qed.

Lemma firstAllowed_None p network port addrs : firstAllowed p network port addrs = None →
  ∀ b, b ∈ addrs → agentDestinationAddrMatchesNetwork (normalizeAgentDestinationAddr b) network = true →
  ¬ allowsAddr p (normalizeAgentDestinationAddr b) port.
Proof.
  induction addrs as [|b addrs IH]; simpl; intros H x Hx Hn; [by apply not_elem_of_nil in Hx|].
  destruct (agentDestinationAddrMatchesNetwork (normalizeAgentDestinationAddr b) network) eqn:En; simpl in H;
    [destruct (matchesAddr p (normalizeAgentDestinationAddr b) port) eqn:Em; [done|]|];
    apply elem_of_cons in Hx as [->|Hx]; try (by apply IH); [|congruence].
  rewrite <- matchesAddr_spec. congruence.
Qed.

Lemma parsePort_range spec port : parseAgentDestinationPort spec = inr port → 1 ≤ port ≤ 65535.
Proof.
  unfold parseAgentDestinationPort. cbv zeta. intros H. repeat case_hyp H; try done. injection H as <-. bprop. lia.
Qed.

(** ** Well-formed policies *)

Definition portsWf (r : agentDestinationPortRange) : Prop :=
  r.(any) = true ∨ 1 ≤ r.(min) ≤ r.(max) ∧ r.(max) ≤ 65535.

(** A rule has a valid masked prefix without a zone, or a non-empty host name without
    a wildcard; never both. *)
Definition ruleWf (r : agentDestinationRule) : Prop :=
  portsWf r.(ports) ∧
  if r.(hasPrefix) then
    r.(hostname) = "" ∧ prefixIsValid r.(prefix) = true ∧ Zone r.(prefix).(prefixAddr) = "" ∧
    Masked r.(prefix) = r.(prefix)
  else r.(hostname) ≠ "" ∧ containsByte "*" r.(hostname) = false.

Lemma parsePortRange_wf spec r : parseAgentDestinationPortRange spec = inr r → portsWf r.
Proof.
  unfold parseAgentDestinationPortRange. cbv zeta. intros H. destruct (String.eqb _ _); [done|].
  destruct (Cut "-" (TrimSpace spec)) as [[a b]|].
  - destruct (parseAgentDestinationPort a) as [|x] eqn:Ea; [done|].
    destruct (parseAgentDestinationPort b) as [|y] eqn:Eb; [done|].
    destruct (Z.ltb_spec y x); [done|]. injection H as <-. apply parsePort_range in Ea, Eb. right. simpl. lia.
  - destruct (parseAgentDestinationPort (TrimSpace spec)) as [|x] eqn:Ea; [done|].
    injection H as <-. apply parsePort_range in Ea. right. simpl. lia.
Qed.

Lemma normalizeAddr_zone a : Zone (normalizeAgentDestinationAddr a) = "".
Proof. unfold normalizeAgentDestinationAddr. by destruct (Unmap a). Qed.

Lemma normalizeAddr_bits a : BitLen (normalizeAgentDestinationAddr a) = BitLen (Unmap a) ∧
  Is4 (normalizeAgentDestinationAddr a) = Is4 (Unmap a) ∧ IsValid (normalizeAgentDestinationAddr a) = IsValid a ∧
  Is4In6 (normalizeAgentDestinationAddr a) = false.
Proof.
  unfold normalizeAgentDestinationAddr. destruct a as [|n|n z]; [done..|]. unfold Unmap.
  destruct (Is4In6 (V6 n z)) eqn:E; [done|]. repeat split. exact E.
Qed.

Lemma PrefixFrom_wf a bits : IsValid a = true → 0 ≤ bits ≤ BitLen a →
  let p := PrefixFrom a bits in
  p.(prefixBits) = bits ∧ prefixIsValid p = true ∧ Zone p.(prefixAddr) = "" ∧
  p.(prefixBits) ≤ BitLen p.(prefixAddr).
Proof.
  intros Hv Hb. unfold PrefixFrom, prefixIsValid. rewrite Hv.
  destruct (Z.leb_spec 0 bits), (Z.leb_spec bits (BitLen a)); try lia. simpl. split; [done|].
  split; [by apply Z.leb_le|]. by destruct a.
Qed.

Lemma Masked_wf p : prefixIsValid p = true → Zone p.(prefixAddr) = "" → p.(prefixBits) ≤ BitLen p.(prefixAddr) →
  prefixIsValid (Masked p) = true ∧ Zone (Masked p).(prefixAddr) = "" ∧ Masked (Masked p) = Masked p.
Proof.
  intros Hv Hz Hb. split; [|split; [|by apply Masked_idem]]; unfold Masked; rewrite Hv; [done|].
  simpl. by destruct (prefixAddr p).
Qed.

(** Addresses of one family in the prefix of full length are equal. *)
Lemma Masked_full a : IsValid a = true → Zone a = "" → Masked (PrefixFrom a (BitLen a)) = PrefixFrom a (BitLen a).
Proof.
  intros Hv Hz. destruct (PrefixFrom_wf a (BitLen a) Hv) as (Hb & Hp & _); [destruct a; simpl; lia|].
  unfold Masked. rewrite Hp, Hb. unfold PrefixFrom in *. simpl in *. rewrite Hb.
  destruct a as [|n|n z]; [done|..]; simpl; unfold clearLow; rewrite Z.shiftr_0_r, Z.shiftl_0_r; done.
Qed.

Lemma ParsePrefix_wf s p : ParsePrefix s = Some p →
  IsValid p.(prefixAddr) = true ∧ 0 ≤ p.(prefixBits) ≤ BitLen p.(prefixAddr) ∧ Zone p.(prefixAddr) = "".
Proof.
  unfold ParsePrefix. destruct (CutLast "/" s) as [[ip bits]|]; [|done].
  destruct (ParseAddr ip) as [a|] eqn:Ea; [|done]. apply ParseAddr_wf in Ea as [Hv _].
  case_goal; [done|]. destruct (_ && _) in |- *; [done|]. destruct (Atoi bits) as [b|]; [|done].
  destruct ((b <? 0) || (BitLen a <? b)) eqn:Eb; [done|]. intros [= <-]. bprop.
  destruct (PrefixFrom_wf a b Hv) as (-> & _ & Hz & _); [lia|]. simpl. destruct a; [done|..]; simpl in *; auto with lia.
Qed.

Lemma normalizePrefix_wf p : IsValid p.(prefixAddr) = true → 0 ≤ p.(prefixBits) ≤ BitLen p.(prefixAddr) →
  let q := normalizeAgentDestinationPrefix p in
  prefixIsValid q = true ∧ Zone q.(prefixAddr) = "" ∧ Masked q = q.
Proof.
  intros Hv Hb. unfold normalizeAgentDestinationPrefix. cbv zeta.
  destruct (normalizeAddr_bits p.(prefixAddr)) as (Ebl & E4 & Evd & _).
  set (a := normalizeAgentDestinationAddr p.(prefixAddr)) in *.
  set (b0 := if Is4In6 _ && _ then _ else _). set (b1 := if Is4 a && _ then _ else _).
  assert (Hb1 : b1 ≤ BitLen a).
  { unfold b1. destruct (Is4 a) eqn:Ea; simpl.
    - assert (BitLen a = 32) as -> by (by destruct a). destruct (Z.ltb_spec 32 b0); lia.
    - unfold b0. rewrite andb_false_r. rewrite Ebl. clear -Hb Ea E4. rewrite E4 in Ea.
      destruct (prefixAddr p) as [|n|n z]; [simpl in *; lia|done|]. unfold Unmap in *.
      destruct (Is4In6 (V6 n z)); [done|]. simpl in Hb |- *. lia. }
  destruct (PrefixFrom_wf a (if b1 <? 0 then 0 else b1)) as (_ & Hp & Hz & Hle).
  - by rewrite Evd.
  - destruct (Z.ltb_spec b1 0); [|lia]. destruct a; simpl in *; lia.
  - by apply Masked_wf.
Qed.

Lemma parseTarget_wf raw r : parseAgentAllowTarget raw = inr r → ruleWf r.
Proof.
  unfold parseAgentAllowTarget. destruct (splitAgentAllowTarget raw) as [|[host spec]]; [done|].
  destruct (match spec with None => _ | Some s => _ end) as [|pr] eqn:Epr; [done|].
  assert (Hpr : portsWf pr).
  { destruct spec; [by apply parsePortRange_wf in Epr|]. injection Epr as <-. by left. }
  cbv zeta. destruct (String.eqb (TrimSpace host) ""); [done|]. destruct (containsAny hostSpace _); [done|].
  destruct (ParsePrefix (TrimSpace host)) as [p|] eqn:Ep.
  { intros [= <-]. split; [done|]. simpl. split; [done|]. apply ParsePrefix_wf in Ep as (? & ? & ?).
    by apply normalizePrefix_wf. }
  destruct (containsByte "/" _); [done|]. destruct (ParseAddr (TrimSpace host)) as [a|] eqn:Ea.
  { intros [= <-]. split; [done|]. simpl. split; [done|]. apply ParseAddr_wf in Ea as [Hv _].
    unfold prefixForAgentDestinationAddr. cbv zeta. pose proof (normalizeAddr_zone a) as Hz.
    destruct (normalizeAddr_bits a) as (_ & _ & Evd & _). rewrite Hv in Evd.
    set (x := normalizeAgentDestinationAddr a) in *.
    assert ((if Is4 x then PrefixFrom x 32 else PrefixFrom x 128) = PrefixFrom x (BitLen x)) as ->
      by (by destruct x).
    destruct (PrefixFrom_wf x (BitLen x) Evd) as (_ & Hp & Hz' & _); [destruct x; simpl; lia|].
    split; [done|]. split; [done|]. by apply Masked_full. }
  destruct (String.eqb_spec (normalizeAgentDestinationHost (TrimSpace host)) ""); [done|].
  destruct (containsByte "*" _) eqn:Ew; [done|]. destruct (containsAny "[]/:" _); [done|].
  intros [= <-]. split; [done|]. by split.
Qed.

Lemma parseRules_wf raws : ∀ p q, parseRules raws p = inr q → Forall ruleWf p.(rules) →
  p.(hasPrefixRules) = existsb hasPrefix p.(rules) →
  Forall ruleWf q.(rules) ∧ q.(hasPrefixRules) = existsb hasPrefix q.(rules) ∧ q.(allowAny) = p.(allowAny).
Proof.
  induction raws as [|raw raws IH]; intros p q H Hw Hh; simpl in H; [by injection H as <-|].
  destruct (String.eqb (TrimSpace raw) ""); [by apply IH|].
  destruct (parseAgentAllowTarget (TrimSpace raw)) as [|r] eqn:Er; [done|]. apply parseTarget_wf in Er.
  apply IH in H; simpl in *; [done|apply Forall_app_2; [done|by apply Forall_singleton]|].
  rewrite existsb_app, Hh. simpl. by rewrite orb_false_r.
Qed.

(** ** Theorems *)

(** C32: with a policy that does not allow everything, an address is handed to the
    dialer only if it is an IP literal a prefix rule allows on that port, a name a
    host rule allows on that port, or the literal of an address the name resolved to,
    of the requested family, that a prefix rule allows on that port. *)
Theorem allowlist_dial_sound (lookup : string → lookupResult) (p : agentDestinationPolicy)
    (network address target : string) :
  p.(allowAny) = false →
  dialAddress lookup (Some p) network address = inr target →
  ∃ host portText port,
    SplitHostPort (TrimSpace address) = Some (host, portText) ∧
    parseAgentDestinationPort portText = inr port ∧ 1 ≤ port ≤ 65535 ∧
    match ParseAddr (TrimSpace host) with
    | Some addr => target = address ∧ allowsAddr p (normalizeAgentDestinationAddr addr) port
    | None =>
        target = address ∧ allowsHost p (normalizeAgentDestinationHost (TrimSpace host)) port ∨
        (∃ ips ip, lookup (TrimSpace host) = LookupFound ips ∧ ip ∈ ips ∧
          let addr := normalizeAgentDestinationAddr (normalizeAgentDestinationAddr ip) in
          allowsAddr p addr port ∧ agentDestinationAddrMatchesNetwork addr network = true ∧
          target = JoinHostPort (addrString addr) (FormatUint port))
    end.
Proof.
  intros Hany. unfold dialAddress. rewrite Hany. destruct (length p.(rules) =? 0)%nat; [done|].
  destruct (SplitHostPort (TrimSpace address)) as [[host portText]|]; [|done].
  destruct (parseAgentDestinationPort portText) as [|port] eqn:Ep; [done|]. cbv zeta.
  destruct (String.eqb (TrimSpace host) ""); [done|]. intros H. exists host, portText, port.
  split; [done|]. split; [done|]. split; [by apply (parsePort_range portText)|].
  destruct (ParseAddr (TrimSpace host)) as [addr|].
  - destruct (matchesAddr p _ port) eqn:Em; [|done]. injection H as <-. by apply matchesAddr_spec in Em.
  - destruct (_ || _) in H; [done|]. destruct (matchesHostname p _ port) eqn:Em.
    + injection H as <-. apply matchesHostname_spec in Em. by left.
    + destruct (negb p.(hasPrefixRules)); [done|]. right.
      destruct (lookup (TrimSpace host)) as [ips| |]; simpl in H; [|done..].
      destruct (length _ =? 0)%nat in H; [done|]. destruct (firstAllowed _ _ _ _) as [a|] eqn:Ef in H; [|done].
      injection H as <-. apply firstAllowed_Some in Ef as ((b & Hb & ->) & Ha & Hn).
      apply list_elem_of_In, in_map_iff in Hb as (ip & <- & Hip).
      apply list_elem_of_In, list_elem_of_filter in Hip as [_ Hip]. by exists ips, ip.
Qed.

(** Every policy that was built has well-formed rules (ports within 1 to 65535; a
    valid masked prefix, or a non-empty name without a wildcard, never both), knows
    whether it has prefix rules, and never combines rules with "allow any". *)
Theorem allowlist_policy_wf (rawRules : list string) (anyTarget : bool) (p : agentDestinationPolicy) :
  newAgentDestinationPolicy rawRules anyTarget = inr p →
  Forall ruleWf p.(rules) ∧ p.(hasPrefixRules) = existsb hasPrefix p.(rules) ∧
  p.(allowAny) = anyTarget ∧ (p.(allowAny) = true → p.(rules) = []).
Proof.
  unfold newAgentDestinationPolicy. cbv zeta.
  match goal with |- context [parseRules ?r _] => set (raws := r) end.
  destruct (parseRules raws _) as [|q] eqn:E; [done|].
  destruct (q.(allowAny) && (0 <? length q.(rules))%nat) eqn:Ea; [done|]. intros [= <-].
  apply parseRules_wf in E as (Hw & Hh & Hq); [|constructor|done]. split_and!; [done..|].
  intros Ht. rewrite Ht in Ea. simpl in Ea. apply Nat.ltb_ge in Ea. apply nil_length_inv. lia.
Qed.

(** The loopback addresses. *)
Definition loopback (a : Addr) : bool :=
  match a with V4 n => n / 2 ^ 24 =? 127 | V6 n _ => n =? 1 | AddrZero => false end.

Definition defaultPolicy : agentDestinationPolicy :=
  mkPolicy [mkRule "" (mkPrefix (V4 2130706432) 8) true (mkPorts true 0 0);
            mkRule "" (mkPrefix (V6 1 "") 128) true (mkPorts true 0 0)] true false.

Lemma contains_v4_loopback a : Zone a = "" →
  Contains (mkPrefix (V4 2130706432) 8) a = match a with V4 n => n / 2 ^ 24 =? 127 | _ => false end.
Proof.
  intros Hz. unfold Contains. rewrite Hz. destruct a as [|n|n z]; [done| |done].
  cbn -[Z.shiftr Z.div]. change (32 - 8) with 24. rewrite (Z.shiftr_div_pow2 n) by lia.
  change (Z.shiftr 2130706432 24) with 127. apply Z.eqb_sym.
Qed.

Lemma contains_v6_loopback a : Zone a = "" →
  Contains (mkPrefix (V6 1 "") 128) a = match a with V6 n _ => n =? 1 | _ => false end.
Proof.
  intros Hz. unfold Contains. rewrite Hz. destruct a as [|n|n z]; [done|done|].
  cbn -[Z.shiftr]. rewrite !Z.shiftr_0_r. apply Z.eqb_sym.
Qed.

(** Without rules of the operator the policy is loopback only: an address without
    zone is allowed, on any port, exactly when it is in 127.0.0.0/8 or is ::1. *)
Theorem allowlist_default_loopback (rawRules : list string) :
  hasNonEmptyAgentDestinationRule rawRules = false →
  ∃ p, newAgentDestinationPolicy rawRules false = inr p ∧ p.(allowAny) = false ∧
    ∀ addr port, Zone addr = "" → matchesAddr p addr port = loopback addr.
Proof.
  intros H. unfold newAgentDestinationPolicy. rewrite H.
  exists defaultPolicy. split; [vm_compute; reflexivity|]. split; [done|].
  intros addr port Hz. unfold matchesAddr, defaultPolicy, portMatches. cbn [existsb rules hasPrefix prefix ports any].
  rewrite contains_v4_loopback, contains_v6_loopback by done.
  destruct addr; cbn [loopback andb]; by rewrite ?orb_false_r, ?andb_true_r.
Qed.

(** ** Examples and witnesses *)

Definition exPolicy : agentDestinationPolicy :=
  match newAgentDestinationPolicy ["10.0.0.0/8:80-443"; " Db.Internal.:5432 "; "[2001:db8::1]:22"] false with
  | inr p => p | inl _ => mkPolicy [] false false end.

Definition exLookup (host : string) : lookupResult :=
  if String.eqb host "web.internal" then LookupFound [V4 3232235777; V6 281470849581572 ""]
  else LookupFailed.

Example ex_literal : dialAddress exLookup (Some exPolicy) "tcp" "10.1.2.3:443" = inr "10.1.2.3:443".
Proof. vm_compute. reflexivity. Qed.
Example ex_port : dialAddress exLookup (Some exPolicy) "tcp" "10.1.2.3:444" = inl (Forbidden AddressNotAllowed).
Proof. vm_compute. reflexivity. Qed.
Example ex_host : dialAddress exLookup (Some exPolicy) "tcp" "DB.internal:5432" = inr "DB.internal:5432".
Proof. vm_compute. reflexivity. Qed.
Example ex_resolved : dialAddress exLookup (Some exPolicy) "tcp" "web.internal:80" = inr "10.1.2.4:80".
Proof. vm_compute. reflexivity. Qed.
Example ex_any : newAgentDestinationPolicy ["10.0.0.1"] true = inl ErrAnyWithRules.
Proof. vm_compute. reflexivity. Qed.

Lemma allowlist_dial_sound_witness : ∃ host portText port,
  SplitHostPort (TrimSpace "web.internal:80") = Some (host, portText) ∧
  parseAgentDestinationPort portText = inr port ∧ 1 ≤ port ≤ 65535.
Proof.
  assert (Ha : exPolicy.(allowAny) = false) by (vm_compute; reflexivity).
  assert (Hd : dialAddress exLookup (Some exPolicy) "tcp" "web.internal:80" = inr "10.1.2.4:80")
    by (vm_compute; reflexivity).
  destruct (allowlist_dial_sound exLookup exPolicy "tcp" "web.internal:80" "10.1.2.4:80" Ha Hd)
    as (h & pt & port & H1 & H2 & H3 & _).
  exact (ex_intro _ h (ex_intro _ pt (ex_intro _ port (conj H1 (conj H2 H3))))).
Defined.

Lemma allowlist_policy_wf_witness : Forall ruleWf exPolicy.(rules).
Proof.
  assert (Hp : newAgentDestinationPolicy ["10.0.0.0/8:80-443"; " Db.Internal.:5432 "; "[2001:db8::1]:22"] false
    = inr exPolicy) by (vm_compute; reflexivity).
  exact (proj1 (allowlist_policy_wf _ _ _ Hp)).
Defined.

Lemma allowlist_default_loopback_witness : ∃ p, newAgentDestinationPolicy [" "] false = inr p.
Proof.
  destruct (allowlist_default_loopback [" "] eq_refl) as (p & Hp & _). exact (ex_intro _ p Hp).
Defined.

End DestinationAllowlist.
