(* ===== verification/WaitingRoomQueue.v ===== *)
(** The queue of a WAF waiting room (internal/server/public_waf_waiting_room.go,
    the methods of publicWaitingRoomRuntime).

    The code keeps the waiting sessions in a slice whose live part starts at
    [queueHead], with a map from session to slice index, a map from session to
    enqueue time, and compacts the slice now and then.  [Spec] is what it promises:
    a list of sessions with their enqueue times, first come first served.  [wf] is the
    representation invariant, [waiting] the abstraction, and the [_refines] lemmas
    show that each operation implements its counterpart on lists.

    Indexes and lengths are [nat]; the session identifiers are byte strings; the
    admission tokens are binary64 numbers. *)

From S2P Require Import Prelude.
From S2P Require Import GoFloat.

Module WaitingRoomQueue.

(** ** Data *)

Definition defaultWafWaitingRoomMaxAdmitted : Z := 50.
Definition defaultWafWaitingRoomAdmissionRate : Z := 10.
Definition defaultWafWaitingRoomAdmissionTTL : Z := 10 * minute.
Definition defaultWafWaitingRoomPollInterval : Z := 5 * second.
Definition defaultWafWaitingRoomQueueTimeout : Z := 30 * minute.
Definition maxWafWaitingRoomQueuedSessions : nat := 100000.

Record publicWafWaitingRoomConfig := mkRoomConfig {
  MaxAdmittedSessions : Z;
  AdmissionRatePerSecond : Z;
  AdmissionSessionTTLMillis : Z;
  QueuePollIntervalMillis : Z;
  QueueTimeoutMillis : Z;
  PageTitle : string;
  PageBody : string }.

Record publicWaitingRoomRuntime := mkRoom {
  queue : list string;
  queueHead : nat;
  queueIndex : gmap string nat;
  queued : gmap string Z;
  admitted : gmap string Z;
  admissionTokens : float64;
  lastRefillAt : Z }.

Definition newPublicWaitingRoomRuntime : publicWaitingRoomRuntime :=
  mkRoom [] 0 ∅ ∅ ∅ (float_of_int 0) 0.

(** ** Operations *)

Definition queueLenLocked (rt : publicWaitingRoomRuntime) : nat :=
  (length rt.(queue) - rt.(queueHead))%nat.

(** [for idx, sessionID := range l { queueIndex[sessionID] = from + idx }] *)
Fixpoint reindex (index : gmap string nat) (from : nat) (l : list string) : gmap string nat :=
  match l with
  | [] => index
  | s :: l => reindex (<[s := from]> index) (S from) l
  end.

(** The copy to the front, the blanked tail and the reslice leave the live part. *)
Definition compactQueueLocked (rt : publicWaitingRoomRuntime) : publicWaitingRoomRuntime :=
  if (rt.(queueHead) =? 0)%nat then rt
  else if (rt.(queueHead) =? length rt.(queue))%nat then
    mkRoom [] 0 ∅ rt.(queued) rt.(admitted) rt.(admissionTokens) rt.(lastRefillAt)
  else if (rt.(queueHead) <? 1024)%nat && (rt.(queueHead) * 2 <? length rt.(queue))%nat then rt
  else
    let active := drop rt.(queueHead) rt.(queue) in
    mkRoom active 0 (reindex rt.(queueIndex) 0 active) rt.(queued) rt.(admitted)
      rt.(admissionTokens) rt.(lastRefillAt).

(** Blank the head cell and forget its index. *)
Definition dropHead (rt : publicWaitingRoomRuntime) (sessionID : string) (queued' : gmap string Z)
    : publicWaitingRoomRuntime :=
  mkRoom (<[rt.(queueHead) := ""]> rt.(queue)) (S rt.(queueHead)) (delete sessionID rt.(queueIndex))
    queued' rt.(admitted) rt.(admissionTokens) rt.(lastRefillAt).

(** The loop over expired heads; each round advances the head, so the length of the
    queue is enough fuel. *)
Fixpoint pruneHeads (fuel : nat) (now queueTimeout : Z) (rt : publicWaitingRoomRuntime)
    : publicWaitingRoomRuntime :=
  match fuel with
  | O => rt
  | S fuel =>
      match rt.(queue) !! rt.(queueHead) with
      | None => rt
      | Some sessionID =>
          match rt.(queued) !! sessionID with
          | None => pruneHeads fuel now queueTimeout (dropHead rt sessionID rt.(queued))
          | Some enqueuedAt =>
              if time_sub now enqueuedAt <=? queueTimeout then rt
              else pruneHeads fuel now queueTimeout
                     (dropHead rt sessionID (delete sessionID rt.(queued)))
          end
      end
  end.

(** The admitted sessions that have not expired. *)
Definition liveAdmitted (now : Z) (m : gmap string Z) : gmap string Z :=
  filter (λ kv, before now kv.2 = true) m.

Definition pruneLocked (rt : publicWaitingRoomRuntime) (now queueTimeout : Z)
    : publicWaitingRoomRuntime :=
  let rt := mkRoom rt.(queue) rt.(queueHead) rt.(queueIndex) rt.(queued)
              (liveAdmitted now rt.(admitted)) rt.(admissionTokens) rt.(lastRefillAt) in
  let queueTimeout := if queueTimeout <=? 0 then defaultWafWaitingRoomQueueTimeout else queueTimeout in
  compactQueueLocked (pruneHeads (length rt.(queue)) now queueTimeout rt).

(** The token bucket of admissions: the new tokens and refill time, and the verdict. *)
Definition takeToken (rate now : Z) (tokens : float64) (last : Z) : (float64 * Z) * bool :=
  let '(tokens, last) :=
    if is_zero_time last then (float_of_int rate, now) else (tokens, last) in
  let elapsed := Seconds (time_sub now last) in
  let '(tokens, last) :=
    if fgt elapsed (float_of_int 0) then
      let tokens := fadd tokens (fmul elapsed (float_of_int rate)) in
      (if fgt tokens (float_of_int rate) then float_of_int rate else tokens, now)
    else (tokens, last) in
  if flt tokens (float_of_int 1) then ((tokens, last), false)
  else ((fsub tokens (float_of_int 1), last), true).

Definition maxAdmittedOf (c : publicWafWaitingRoomConfig) : Z :=
  if c.(MaxAdmittedSessions) <=? 0 then defaultWafWaitingRoomMaxAdmitted else c.(MaxAdmittedSessions).
Definition admissionRateOf (c : publicWafWaitingRoomConfig) : Z :=
  if c.(AdmissionRatePerSecond) <=? 0 then defaultWafWaitingRoomAdmissionRate
  else c.(AdmissionRatePerSecond).

Definition canAdmitLocked (rt : publicWaitingRoomRuntime) (c : publicWafWaitingRoomConfig)
    (now : Z) (sessionID : string) : publicWaitingRoomRuntime * bool :=
  if (queueLenLocked rt =? 0)%nat
     || negb (bool_decide (rt.(queue) !! rt.(queueHead) = Some sessionID)) then (rt, false)
  else if maxAdmittedOf c <=? Z.of_nat (size rt.(admitted)) then (rt, false)
  else
    let '((tokens, last), ok) :=
      takeToken (admissionRateOf c) now rt.(admissionTokens) rt.(lastRefillAt) in
    (mkRoom rt.(queue) rt.(queueHead) rt.(queueIndex) rt.(queued) rt.(admitted) tokens last, ok).

Definition positionLocked (rt : publicWaitingRoomRuntime) (sessionID : string) : Z :=
  match rt.(queueIndex) !! sessionID with
  | Some idx =>
      if (rt.(queueHead) <=? idx)%nat && (idx <? length rt.(queue))%nat
      then Z.of_nat (idx - rt.(queueHead) + 1)
      else Z.of_nat (queueLenLocked rt + 1)
  | None => Z.of_nat (queueLenLocked rt + 1)
  end.

Definition removeFromQueueLocked (rt : publicWaitingRoomRuntime) (sessionID : string)
    : publicWaitingRoomRuntime :=
  match rt.(queueIndex) !! sessionID with
  | None => rt
  | Some idx =>
      if (idx <? rt.(queueHead))%nat || (length rt.(queue) <=? idx)%nat then rt
      else if (idx =? rt.(queueHead))%nat then
        compactQueueLocked (dropHead rt sessionID rt.(queued))
      else
        let queue' := delete idx rt.(queue) in
        mkRoom queue' rt.(queueHead)
          (reindex (delete sessionID rt.(queueIndex)) idx (drop idx queue'))
          rt.(queued) rt.(admitted) rt.(admissionTokens) rt.(lastRefillAt)
  end.

Definition enqueueLocked (rt : publicWaitingRoomRuntime) (sessionID : string) (now : Z)
    : publicWaitingRoomRuntime :=
  mkRoom (rt.(queue) ++ [sessionID]) rt.(queueHead)
    (<[sessionID := length rt.(queue)]> rt.(queueIndex)) (<[sessionID := now]> rt.(queued))
    rt.(admitted) rt.(admissionTokens) rt.(lastRefillAt).

(** ** Representation invariant and abstraction *)

(** The live part of the slice. *)
Definition live (rt : publicWaitingRoomRuntime) : list string := drop rt.(queueHead) rt.(queue).

Record wf (rt : publicWaitingRoomRuntime) : Prop := {
  wf_head : (rt.(queueHead) ≤ length rt.(queue))%nat;
  wf_index : ∀ s i, rt.(queueIndex) !! s = Some i ↔
    (rt.(queueHead) ≤ i)%nat ∧ rt.(queue) !! i = Some s;
  wf_queued : ∀ s, is_Some (rt.(queued) !! s) ↔ s ∈ live rt }.

(** The sessions that wait, in order, with their enqueue times. *)
Definition waiting (rt : publicWaitingRoomRuntime) : list (string * Z) :=
  map (λ s, (s, default 0 (rt.(queued) !! s))) (live rt).

(** ** What the queue promises *)

Module Spec.

(** Drop the expired sessions at the front. *)
Fixpoint expire (now timeout : Z) (l : list (string * Z)) : list (string * Z) :=
  match l with
  | [] => []
  | (s, t) :: l' => if time_sub now t <=? timeout then l else expire now timeout l'
  end.

(** The place of a session, counted from 1; one past the end when it does not wait. *)
Fixpoint position (s : string) (l : list (string * Z)) : Z :=
  match l with
  | [] => 1
  | (s', _) :: l => if bool_decide (s = s') then 1 else 1 + position s l
  end.

Definition isHead (s : string) (l : list (string * Z)) : bool :=
  bool_decide (head (map fst l) = Some s).

Definition remove (s : string) (l : list (string * Z)) : list (string * Z) :=
  filter (λ e, e.1 ≠ s) l.

End Spec.

(** ** Lemmas on the slice and its index *)

Lemma reindex_lookup l : ∀ index from s i, NoDup l →
  reindex index from l !! s = Some i ↔
    (∃ k, l !! k = Some s ∧ i = (from + k)%nat) ∨ (s ∉ l ∧ index !! s = Some i).
Proof.
  induction l as [|x l IH]; intros index from s i Hnd; simpl.
  - split; [intros H; right; split; [apply not_elem_of_nil|done]|]. intros [(k & Hk & _)|[_ H]]; [done|done].
  - apply NoDup_cons in Hnd as [Hx Hnd]. rewrite (IH _ _ _ _ Hnd). split.
    + intros [(k & Hk & ->)|[Hs H]]; [left; exists (S k); split; [done|lia]|].
      apply lookup_insert_Some in H as [[-> <-]|[Hne H]].
      * left. exists 0%nat. split; [done|lia].
      * right. split; [|done]. rewrite elem_of_cons. intros [->|]; done.
    + intros [(k & Hk & ->)|[Hs H]].
      * destruct k as [|k]; simpl in Hk.
        -- injection Hk as ->. right. rewrite lookup_insert_eq. split; [done|f_equal; lia].
        -- left. exists k. split; [done|lia].
      * rewrite elem_of_cons in Hs. right. split; [tauto|]. rewrite lookup_insert_ne; [done|]. intros ->. tauto.
Qed.

Lemma live_lookup rt k : live rt !! k = rt.(queue) !! (rt.(queueHead) + k)%nat.
Proof. unfold live. apply lookup_drop. Qed.

Lemma elem_of_live rt s :
  s ∈ live rt ↔ ∃ i, (rt.(queueHead) ≤ i)%nat ∧ rt.(queue) !! i = Some s.
Proof.
  rewrite list_elem_of_lookup. split.
  - intros [k Hk]. rewrite live_lookup in Hk. exists (rt.(queueHead) + k)%nat. split; [lia|done].
  - intros (i & Hi & H). exists (i - rt.(queueHead))%nat. rewrite live_lookup. rewrite <- H. f_equal. lia.
Qed.

(** A session has at most one live cell, because the index is a function. *)
Lemma live_unique rt s i j : wf rt →
  (rt.(queueHead) ≤ i)%nat → rt.(queue) !! i = Some s →
  (rt.(queueHead) ≤ j)%nat → rt.(queue) !! j = Some s → i = j.
Proof.
  intros H Hi Ei Hj Ej. pose proof (proj2 (wf_index _ H s i) (conj Hi Ei)).
  pose proof (proj2 (wf_index _ H s j) (conj Hj Ej)). congruence.
Qed.

Lemma wf_nodup rt : wf rt → NoDup (live rt).
Proof.
  intros H. apply NoDup_alt. intros i j s Hi Hj. rewrite live_lookup in Hi, Hj.
  enough (rt.(queueHead) + i = rt.(queueHead) + j)%nat by lia.
  apply (live_unique rt s); [done|lia|done|lia|done].
Qed.

Lemma queueLen_live rt : queueLenLocked rt = length (live rt).
Proof. unfold live, queueLenLocked. by rewrite length_drop. Qed.

Lemma wf_indexed rt s : wf rt → is_Some (rt.(queueIndex) !! s) ↔ s ∈ live rt.
Proof.
  intros H. rewrite elem_of_live. split.
  - intros [i Hi]. exists i. by apply (wf_index _ H).
  - intros (i & Hi). exists i. by apply (wf_index _ H).
Qed.

(** Two runtimes with the same live sessions, times, admissions and bucket. *)
Definition same (rt rt' : publicWaitingRoomRuntime) : Prop :=
  live rt' = live rt ∧ rt'.(queued) = rt.(queued) ∧ rt'.(admitted) = rt.(admitted) ∧
  rt'.(admissionTokens) = rt.(admissionTokens) ∧ rt'.(lastRefillAt) = rt.(lastRefillAt).

Lemma same_waiting rt rt' : same rt rt' → waiting rt' = waiting rt.
Proof. intros (E & Q & _). unfold waiting. by rewrite E, Q. Qed.

(** Compaction is invisible. *)
Lemma compact_refines rt : wf rt → wf (compactQueueLocked rt) ∧ same rt (compactQueueLocked rt).
Proof.
  intros H. unfold compactQueueLocked.
  destruct (Nat.eqb_spec rt.(queueHead) 0) as [E0|_]; [done|].
  destruct (Nat.eqb_spec rt.(queueHead) (length rt.(queue))) as [E1|_].
  { assert (Hl : live rt = []) by (unfold live; rewrite E1; apply drop_all).
    split; [split|]; simpl.
    - lia.
    - intros s i. rewrite lookup_empty, lookup_nil. split; [done|intros [_ ?]; done].
    - intros s. rewrite (wf_queued _ H), Hl. done.
    - unfold same. by rewrite Hl. }
  case_goal; [done|].
  assert (Hl : live (mkRoom (drop rt.(queueHead) rt.(queue)) 0
    (reindex rt.(queueIndex) 0 (drop rt.(queueHead) rt.(queue))) rt.(queued) rt.(admitted)
      rt.(admissionTokens) rt.(lastRefillAt)) = live rt) by done.
  split; [split|]; simpl.
  - lia.
  - intros s i. rewrite (reindex_lookup _ _ _ _ _ (wf_nodup _ H)). split.
    + intros [(k & Hk & ->)|[Hs Hi]]; [split; [lia|done]|].
      exfalso. apply Hs, (wf_indexed _ _ H). eauto.
    + intros [_ Hi]. left. eauto.
  - intros s. rewrite Hl. apply (wf_queued _ H).
  - done.
Qed.

(** Dropping the head cell together with its time. *)
Lemma dropHead_refines rt s : wf rt → rt.(queue) !! rt.(queueHead) = Some s →
  let rt' := dropHead rt s (delete s rt.(queued)) in
  wf rt' ∧ live rt = s :: live rt' ∧ waiting rt = (s, default 0 (rt.(queued) !! s)) :: waiting rt'.
Proof.
  intros H Hs rt'.
  assert (Hlive : live rt = s :: live rt').
  { unfold live, rt', dropHead. simpl. rewrite (drop_S _ _ _ Hs). by rewrite drop_insert_lt by lia. }
  assert (Hnin : s ∉ live rt').
  { pose proof (wf_nodup _ H) as Hnd. rewrite Hlive in Hnd. by apply NoDup_cons in Hnd as [? _]. }
  split; [split|split; [done|]].
  - unfold rt', dropHead. simpl. rewrite length_insert. by apply lookup_lt_Some in Hs.
  - intros t i. unfold rt', dropHead. simpl. rewrite lookup_delete_Some, (wf_index _ H). split.
    + intros [Hne [Hi E]]. assert (i ≠ rt.(queueHead)) by congruence.
      rewrite list_lookup_insert_ne by lia. split; [lia|done].
    + intros [Hi E]. rewrite list_lookup_insert_ne in E by lia. split; [|split; [lia|done]].
      intros <-. assert (i = rt.(queueHead)); [|lia].
      apply (live_unique rt s); [done|lia|done|lia|done].
  - intros t. unfold rt' at 1. simpl. destruct (decide (t = s)) as [->|Hne].
    + rewrite lookup_delete_eq. split; [intros [? ?]; done|done].
    + rewrite lookup_delete_ne by done. rewrite (wf_queued _ H), Hlive, elem_of_cons. tauto.
  - unfold waiting. rewrite Hlive. simpl. f_equal. apply map_ext_in. intros t Ht.
    unfold rt' in Ht |- *. simpl. rewrite lookup_delete_ne; [done|]. intros <-. by apply Hnin, list_elem_of_In.
Qed.

(** Pruning the heads implements [Spec.expire]. *)
Lemma pruneHeads_refines now timeout fuel : ∀ rt, wf rt → (length (live rt) ≤ fuel)%nat →
  let rt' := pruneHeads fuel now timeout rt in
  wf rt' ∧ waiting rt' = Spec.expire now timeout (waiting rt) ∧ rt'.(admitted) = rt.(admitted) ∧
  rt'.(admissionTokens) = rt.(admissionTokens) ∧ rt'.(lastRefillAt) = rt.(lastRefillAt).
Proof.
  induction fuel as [|fuel IH]; intros rt H Hf; simpl.
  { assert (Hl : live rt = []) by (by apply nil_length_inv; lia).
    unfold waiting. rewrite Hl. done. }
  destruct (rt.(queue) !! rt.(queueHead)) as [s|] eqn:Hs.
  - destruct (dropHead_refines rt s H Hs) as (Hwf & Hlive & Hw). rewrite Hw. simpl.
    assert (Hq : is_Some (rt.(queued) !! s)) by (apply (wf_queued _ H); rewrite Hlive; left).
    destruct Hq as [t Ht]. rewrite Ht. simpl. case_goal.
    + rewrite Hw, Ht. done.
    + destruct (IH (dropHead rt s (delete s rt.(queued))) Hwf) as (? & ? & ? & ? & ?);
        [rewrite Hlive in Hf; simpl in Hf; lia|]. done.
  - assert (Hl : live rt = []).
    { unfold live. apply drop_ge. by apply lookup_ge_None. }
    unfold waiting. rewrite Hl. done.
Qed.

Definition timeoutOrDefault (d : Z) : Z := if d <=? 0 then defaultWafWaitingRoomQueueTimeout else d.

Lemma prune_refines rt now timeout : wf rt →
  let rt' := pruneLocked rt now timeout in
  wf rt' ∧ waiting rt' = Spec.expire now (timeoutOrDefault timeout) (waiting rt) ∧
  rt'.(admitted) = liveAdmitted now rt.(admitted) ∧
  rt'.(admissionTokens) = rt.(admissionTokens) ∧ rt'.(lastRefillAt) = rt.(lastRefillAt).
Proof.
  intros H. unfold pruneLocked. fold (timeoutOrDefault timeout).
  set (rt0 := mkRoom _ _ _ _ _ _ _).
  assert (H0 : wf rt0) by (destruct H; by constructor).
  destruct (pruneHeads_refines now (timeoutOrDefault timeout) (length rt0.(queue)) rt0 H0)
    as (H1 & Hw & Ha & Ht & Hl); [unfold live; rewrite length_drop; lia|].
  destruct (compact_refines _ H1) as [H2 Hs]. cbv zeta. split; [done|].
  rewrite (same_waiting _ _ Hs), Hw. destruct Hs as (_ & _ & -> & -> & ->). by rewrite Ha, Ht, Hl.
Qed.

Lemma waiting_keys rt : map fst (waiting rt) = live rt.
Proof.
  unfold waiting. rewrite map_map. simpl. apply map_id.
Qed.

Lemma elem_of_waiting rt s : s ∈ map fst (waiting rt) ↔ s ∈ live rt.
Proof. by rewrite waiting_keys. Qed.

Lemma enqueue_refines rt s now : wf rt → rt.(queued) !! s = None →
  wf (enqueueLocked rt s now) ∧ waiting (enqueueLocked rt s now) = waiting rt ++ [(s, now)].
Proof.
  intros H Hs.
  assert (Hlive : live (enqueueLocked rt s now) = live rt ++ [s]).
  { unfold live, enqueueLocked. simpl. rewrite drop_app_le by apply (wf_head _ H). done. }
  assert (Hnin : s ∉ live rt).
  { intros Hin. apply (wf_queued _ H) in Hin as [? ?]. congruence. }
  split; [split|].
  - simpl. rewrite length_app. pose proof (wf_head _ H). lia.
  - intros t i. simpl. rewrite lookup_insert_Some. split.
    + intros [[-> <-]|[Hne Hi]].
      * split; [apply (wf_head _ H)|]. by apply list_lookup_middle.
      * apply (wf_index _ H) in Hi as [Hi E]. split; [done|]. rewrite lookup_app_l; [done|].
        by apply lookup_lt_Some in E.
    + intros [Hi E]. apply lookup_app_Some in E as [E|[Hlen E]].
      * right. split; [|by apply (wf_index _ H)]. intros ->. apply Hnin, elem_of_live. eauto.
      * left. apply list_lookup_singleton_Some in E as [Hi' <-]. split; [done|lia].
  - intros t. rewrite Hlive. simpl. rewrite elem_of_app, list_elem_of_singleton, <- (wf_queued _ H).
    rewrite lookup_insert_is_Some. destruct (decide (t = s)) as [->|]; [tauto|].
    split; [intros [?|[? ?]]; auto|intros [?|?]; [auto|done]].
  - unfold waiting. rewrite Hlive, map_app. simpl. rewrite lookup_insert_eq. simpl. f_equal.
    apply map_ext_in. intros t Ht. rewrite lookup_insert_ne; [done|]. intros <-.
    by apply Hnin, list_elem_of_In.
Qed.

Lemma position_map (f : string → Z) s l i : NoDup l → l !! i = Some s →
  Spec.position s (map (λ t, (t, f t)) l) = Z.of_nat i + 1.
Proof.
  revert i. induction l as [|x l IH]; intros i Hnd E; [done|]. apply NoDup_cons in Hnd as [Hx Hnd].
  destruct i as [|i]; simpl in E |- *.
  - injection E as ->. by rewrite bool_decide_eq_true_2.
  - rewrite bool_decide_eq_false_2; [rewrite (IH i) by done; lia|].
    intros ->. apply Hx. by apply list_elem_of_lookup_2 in E.
Qed.

Lemma position_absent (f : string → Z) s l : s ∉ l →
  Spec.position s (map (λ t, (t, f t)) l) = Z.of_nat (length l) + 1.
Proof.
  induction l as [|x l IH]; intros Hs; [done|]. rewrite elem_of_cons in Hs. simpl.
  rewrite bool_decide_eq_false_2 by tauto. rewrite IH by tauto. lia.
Qed.

(** The reported position is the place in the list. *)
Lemma position_refines rt s : wf rt → positionLocked rt s = Spec.position s (waiting rt).
Proof.
  intros H. unfold positionLocked, waiting. destruct (rt.(queueIndex) !! s) as [i|] eqn:Ei.
  - apply (wf_index _ H) in Ei as [Hi E]. pose proof (lookup_lt_Some _ _ _ E).
    destruct (Nat.leb_spec rt.(queueHead) i); [|lia].
    destruct (Nat.ltb_spec i (length rt.(queue))); [|lia]. simpl.
    rewrite (position_map _ s (live rt) (i - rt.(queueHead))); [lia|by apply wf_nodup|].
    rewrite live_lookup, <- E. f_equal. lia.
  - rewrite position_absent; [rewrite queueLen_live; lia|].
    rewrite <- (wf_indexed _ _ H), Ei. intros [? ?]. done.
Qed.

Lemma isHead_refines rt s : wf rt →
  ((queueLenLocked rt =? 0)%nat || negb (bool_decide (rt.(queue) !! rt.(queueHead) = Some s)))
  = negb (Spec.isHead s (waiting rt)).
Proof.
  intros H. unfold Spec.isHead. rewrite waiting_keys, queueLen_live.
  assert (E : rt.(queue) !! rt.(queueHead) = head (live rt)).
  { rewrite head_lookup, live_lookup. f_equal. lia. }
  rewrite E. by destruct (live rt).
Qed.

(** [delete(rt.queued, sessionID)] *)
Definition forgetQueued (rt : publicWaitingRoomRuntime) (s : string) : publicWaitingRoomRuntime :=
  mkRoom rt.(queue) rt.(queueHead) rt.(queueIndex) (delete s rt.(queued)) rt.(admitted)
    rt.(admissionTokens) rt.(lastRefillAt).

(** Removing a cell in the middle shifts the ones behind it. *)
Lemma shift_lookup rt s idx t i : wf rt →
  (rt.(queueHead) < idx)%nat → rt.(queue) !! idx = Some s →
  reindex (delete s rt.(queueIndex)) idx (drop idx (delete idx rt.(queue))) !! t = Some i ↔
  (rt.(queueHead) ≤ i)%nat ∧ delete idx rt.(queue) !! i = Some t.
Proof.
  intros H Hidx Hs.
  assert (Hcell : ∀ k, drop idx (delete idx rt.(queue)) !! k = rt.(queue) !! S (idx + k)).
  { intros k. rewrite lookup_drop, list_lookup_delete_ge by lia. done. }
  rewrite reindex_lookup.
  - rewrite lookup_delete_Some, (wf_index _ H). split.
    + intros [(k & Hk & ->)|(Hnin & Hne & Hi & E)].
      * rewrite Hcell in Hk. split; [lia|]. rewrite list_lookup_delete_ge by lia. done.
      * assert (i < idx)%nat as Hlt.
        { destruct (Nat.lt_trichotomy i idx) as [?|[->|Hgt]]; [done|congruence|].
          exfalso. apply Hnin, list_elem_of_lookup. exists (i - S idx)%nat. rewrite Hcell, <- E. f_equal. lia. }
        split; [done|]. by rewrite list_lookup_delete_lt.
    + intros [Hi E]. destruct (Nat.lt_ge_cases i idx) as [Hlt|Hge].
      * rewrite list_lookup_delete_lt in E by done. right.
        assert (Hfar : ∀ j, (rt.(queueHead) ≤ j)%nat → rt.(queue) !! j = Some t → j = i).
        { intros j Hj Ej. by apply (live_unique rt t j i). }
        split; [|split; [|done]].
        -- rewrite list_elem_of_lookup. intros [k Hk]. rewrite Hcell in Hk.
           apply Hfar in Hk; lia.
        -- intros <-. apply Hfar in Hs; lia.
      * rewrite list_lookup_delete_ge in E by done. left. exists (i - idx)%nat.
        rewrite Hcell, <- E. split; [f_equal; lia|lia].
  - apply NoDup_alt. intros k k' x Hk Hk'. rewrite Hcell in Hk, Hk'.
    enough (S (idx + k) = S (idx + k')) by lia. apply (live_unique rt x); [done|lia|done|lia|done].
Qed.

Lemma filter_remove_map (q : gmap string Z) s l : NoDup l →
  map (λ t, (t, default 0 (delete s q !! t))) (filter (λ t, t ≠ s) l)
  = Spec.remove s (map (λ t, (t, default 0 (q !! t))) l).
Proof.
  unfold Spec.remove. induction l as [|x l IH]; intros Hnd; [done|].
  apply NoDup_cons in Hnd as [_ Hnd]. simpl. destruct (decide (x = s)) as [->|Hne].
  - rewrite !filter_cons_False by (simpl; tauto). by apply IH.
  - rewrite !filter_cons_True by done. simpl. rewrite lookup_delete_ne by done. by rewrite IH.
Qed.

Lemma filter_absent s (l : list string) : s ∉ l → filter (λ t, t ≠ s) l = l.
Proof.
  induction l as [|x l IH]; intros Hs; [done|]. rewrite elem_of_cons in Hs.
  rewrite filter_cons_True by (intros ->; tauto). rewrite IH; tauto.
Qed.

(** Deleting the only cell of a session is filtering it out. *)
Lemma delete_filter (l : list string) i s : NoDup l → l !! i = Some s → delete i l = filter (λ t, t ≠ s) l.
Proof.
  intros Hnd E. destruct (delete_split l i s E) as (l1 & l2 & -> & _ & ->).
  apply NoDup_app in Hnd as (Hn1 & Hdis & Hnd). apply NoDup_cons in Hnd as [Hn2 _].
  rewrite filter_app, filter_cons_False by tauto.
  rewrite !filter_absent; [done|done|]. intros Hin. apply (Hdis s Hin). left.
Qed.

Lemma remove_live rt s idx : wf rt → (rt.(queueHead) ≤ idx)%nat → rt.(queue) !! idx = Some s →
  drop rt.(queueHead) (delete idx rt.(queue)) = filter (λ t, t ≠ s) (live rt).
Proof.
  intros H Hi E. rewrite <- (delete_filter (live rt) (idx - rt.(queueHead)) s).
  - apply list_eq. intros k. rewrite lookup_drop. destruct (Nat.lt_ge_cases (rt.(queueHead) + k) idx).
    + rewrite !list_lookup_delete_lt, live_lookup by lia. done.
    + rewrite !list_lookup_delete_ge, live_lookup by lia. f_equal. lia.
  - by apply wf_nodup.
  - rewrite live_lookup, <- E. f_equal. lia.
Qed.

(** Forgetting a session and removing its cell implements [Spec.remove]. *)
Lemma remove_refines rt s : wf rt → s ∈ live rt →
  let rt' := removeFromQueueLocked (forgetQueued rt s) s in
  wf rt' ∧ waiting rt' = Spec.remove s (waiting rt) ∧ rt'.(admitted) = rt.(admitted) ∧
  rt'.(admissionTokens) = rt.(admissionTokens) ∧ rt'.(lastRefillAt) = rt.(lastRefillAt).
Proof.
  intros H Hin. apply (wf_indexed _ _ H) in Hin as [idx Hidx].
  pose proof (proj1 (wf_index _ H _ _) Hidx) as [Hi E].
  pose proof (lookup_lt_Some _ _ _ E). pose proof (remove_live rt s idx H Hi E) as Hlive.
  unfold removeFromQueueLocked. simpl. rewrite Hidx.
  destruct (Nat.ltb_spec idx rt.(queueHead)); [lia|].
  destruct (Nat.leb_spec (length rt.(queue)) idx); [lia|]. simpl.
  assert (Hw : waiting rt = map (λ t, (t, default 0 (rt.(queued) !! t))) (live rt)) by done.
  destruct (Nat.eqb_spec idx rt.(queueHead)) as [->|Hne].
  - destruct (dropHead_refines rt s H E) as (Hd1 & Hl1 & _).
    destruct (compact_refines _ Hd1) as [Hc Hs].
    assert (Hd : dropHead (forgetQueued rt s) s (delete s rt.(queued)) = dropHead rt s (delete s rt.(queued)))
      by done.
    rewrite Hd. split; [done|]. rewrite (same_waiting _ _ Hs). split; [|by destruct Hs as (_ & _ & -> & -> & ->)].
    rewrite Hw, <- filter_remove_map by (by apply wf_nodup). unfold waiting. f_equal.
    pose proof (wf_nodup _ H) as Hnd. rewrite Hl1 in Hnd |- *. apply NoDup_cons in Hnd as [? _].
    rewrite filter_cons_False by tauto. by rewrite filter_absent.
  - set (rt' := mkRoom _ _ _ _ _ _ _).
    assert (Hl' : live rt' = filter (λ t, t ≠ s) (live rt)) by done.
    split; [split|split; [|done]].
    + simpl. rewrite length_delete by (by eexists). lia.
    + intros t i. simpl. apply shift_lookup; [done|lia|done].
    + intros t. rewrite Hl', list_elem_of_filter. simpl.
      rewrite <- (wf_queued _ H). destruct (decide (t = s)) as [->|].
      * rewrite lookup_delete_eq. split; [intros [? ?]; done|tauto].
      * rewrite lookup_delete_ne by done. tauto.
    + rewrite Hw, <- filter_remove_map by (by apply wf_nodup). unfold waiting. by rewrite Hl'.
Qed.

End WaitingRoomQueue.
