(* ===== verification/WafCookies.v ===== *)
(** Signed cookies and challenge tokens of the web application firewall
    (internal/server/public_waf_captcha.go), and the data the WAF components share
    (internal/server/public_waf.go).

    A cookie carries a payload and its HMAC, both in base64.  HMAC-SHA256, the JSON
    encoding of the payloads and url.Parse are operations of the class [WafCodec];
    [WafCodecLaws] states what the code relies on: a MAC is not empty, and decoding
    inverts encoding on payloads of ASCII strings.  The evaluated policy expression of a
    rule (a compiled CEL program) is a function from listener and request to a verdict,
    [None] for an evaluation error. *)

From S2P Require Import Prelude.
From S2P Require Import GoStrings.
From S2P Require Import GoFloat.
From S2P Require Import GoBase64.
From S2P Require Import NetIP.
From S2P Require Import ClientIdentity.
From S2P Require Import WaitingRoomQueue.
From Stdlib Require Import Ascii.

Module WafCookies.
Import ClientIdentity.
Import WaitingRoomQueue.

(** ** Shared data *)

Record publicListenerConfig := mkListener {
  ListenerID : Z;
  ListenerName : string;
  BindAddress : string;
  Port : Z;
  Protocol : string;
  ListenerEnabled : bool }.

Record publicWafCaptchaProviderConfig := mkProvider {
  ProviderID : Z;
  ProviderName : string;
  ProviderType : string;
  SiteKey : string;
  SecretKey : string;
  ProviderEnabled : bool }.

Record publicWafTriggerConfig := mkTriggers {
  RequestWindowMillis : Z;
  MinimumRequestRate : Z;
  TrafficSpikeMultiplier : float64;
  ProxyActiveRequests : Z;
  RouteTargetActiveRequests : Z;
  AgentActiveRequests : Z;
  ServerCPUPercent : float64;
  AgentCPUPercent : float64;
  MinimumActiveMillis : Z;
  QuietPeriodMillis : Z }.

Record publicWafGeoRestrictionConfig := mkGeo {
  GeoMode : string;
  CountryCodes : list string;
  UnknownBehavior : string }.

Definition policyMatch : Type := publicListenerConfig → httpRequest → option bool.

(** The fields the request path reads. *)
Record publicWafRuleConfig := mkWafRule {
  RuleID : Z;
  Priority : Z;
  RuleEnabled : bool;
  Action : string;
  ActivationMode : string;
  Match : policyMatch;
  GeoRestriction : publicWafGeoRestrictionConfig;
  CaptchaProviderID : Z;
  CaptchaPassTTL : Z;
  WaitingRoom : publicWafWaitingRoomConfig;
  Triggers : publicWafTriggerConfig;
  BlockResponseStatusCode : Z;
  BlockResponseBody : string;
  BlockResponseContentType : string;
  BlockResponseHeaders : list (string * string);
  Fingerprint : string }.

Definition publicListenerProtocolHTTPS := "https".
Definition publicWafActionBlock := "block".
Definition publicWafActionCaptcha := "captcha".
Definition publicWafActionWaitingRoom := "waiting_room".
Definition publicWafCaptchaCookieKind := "captcha".
Definition publicWafAdmissionCookieKind := "admission".
Definition publicWafQueueCookieKind := "queue".
Definition defaultWafCaptchaPassTTL : Z := 30 * minute.
Definition publicWafCaptchaChallengeTTL : Z := 10 * minute.
Definition publicWafCaptchaVerifyPath := "/.p2pstream/waf/captcha/verify".
Definition publicWafWaitingRoomPath := "/.p2pstream/waf/waiting-room".
Definition publicWafWaitingRoomStatusPath := "/.p2pstream/waf/waiting-room/status".

Record publicWafCookiePayload := mkPayload {
  pRuleID : Z;
  pListenerID : Z;
  pRuleFingerprint : string;
  pHost : string;
  pKind : string;
  pSessionID : string;
  pExpiresUnixMs : Z }.

Record publicWafCaptchaChallengePayload := mkChallenge {
  cRuleID : Z;
  cListenerID : Z;
  cRuleFingerprint : string;
  cHost : string;
  cMethod : string;
  cReturnTo : string;
  cExpiresUnixMs : Z }.

(** An http.Cookie. *)
Record cookie := mkCookie {
  cookieName : string;
  cookieValue : string;
  cookiePath : string;
  cookieExpires : Z;
  cookieMaxAge : Z;
  cookieHttpOnly : bool;
  cookieSecure : bool }.

(** ** Host of a request *)

Definition bracket (c : ascii) : bool := Ascii.eqb c "[" || Ascii.eqb c "]".

Definition normalizeBareRequestHost (host : string) : string :=
  let host := TrimSpace (ToLower (TrimBy bracket host)) in
  if containsByte ":" host then host else TrimSuffix host ".".

Definition normalizeRequestHost (host : string) : string :=
  let host := TrimSpace (ToLower host) in
  if HasPrefix host "[" then
    match SplitHostPort host with
    | Some (h, _) => normalizeBareRequestHost h
    | None => normalizeBareRequestHost (TrimBy bracket host)
    end
  else match SplitHostPort host with
  | Some (h, _) => normalizeBareRequestHost h
  | None =>
      match CutLast ":" host with
      | Some (h, _) =>
          if (countByte ":" host =? 1)%nat then normalizeBareRequestHost h
          else normalizeBareRequestHost host
      | None => normalizeBareRequestHost host
      end
  end.

Definition publicWafChallengeRequestHost (r : httpRequest) : string :=
  let host := normalizeRequestHost r.(Host) in
  if String.eqb host "" then normalizeRequestHost r.(URLHost) else host.

(** ** Redirect targets *)

Record URL := mkURL {
  uScheme : string;
  uOpaque : string;
  uHost : string;
  uPath : string;
  uEscapedPath : string;
  uForceQuery : bool;
  uRawQuery : string }.

Class WafCodec := {
  hmacSHA256 : string → string → string;
  marshalCookie : publicWafCookiePayload → string;
  unmarshalCookie : string → option publicWafCookiePayload;
  marshalChallenge : publicWafCaptchaChallengePayload → string;
  unmarshalChallenge : string → option publicWafCaptchaChallengePayload;
  urlParse : string → option URL }.

Definition isASCII (s : string) : bool := allBytes (λ c, (nat_of_ascii c <? 128)%nat) s.

Definition asciiPayload (p : publicWafCookiePayload) : Prop :=
  isASCII p.(pRuleFingerprint) = true ∧ isASCII p.(pHost) = true ∧ isASCII p.(pKind) = true ∧
  isASCII p.(pSessionID) = true.

Definition asciiChallenge (p : publicWafCaptchaChallengePayload) : Prop :=
  isASCII p.(cRuleFingerprint) = true ∧ isASCII p.(cHost) = true ∧ isASCII p.(cMethod) = true ∧
  isASCII p.(cReturnTo) = true.

Class WafCodecLaws `{WafCodec} : Prop := {
  hmac_nonempty : ∀ key message, hmacSHA256 key message ≠ "";
  marshal_nonempty : ∀ p, marshalCookie p ≠ "";
  unmarshal_marshal : ∀ p, asciiPayload p → unmarshalCookie (marshalCookie p) = Some p;
  marshalChallenge_nonempty : ∀ p, marshalChallenge p ≠ "";
  unmarshalChallenge_marshal : ∀ p, asciiChallenge p → unmarshalChallenge (marshalChallenge p) = Some p }.

Definition isSafeLocalRedirectTarget (path : string) : bool :=
  if negb (startsWith "/" path) then false
  else match String.get 1 path with
       | Some c => negb (Ascii.eqb c "/" || Ascii.eqb c "\")
       | None => true
       end.

Definition isPublicWAFReservedPath (path : string) : bool :=
  String.eqb path publicWafCaptchaVerifyPath || String.eqb path publicWafWaitingRoomPath
  || String.eqb path publicWafWaitingRoomStatusPath.

(** [url.PathUnescape]: percent escapes, and nothing else. *)
Fixpoint PathUnescape (s : string) : option string :=
  match s with
  | EmptyString => Some ""
  | String c r =>
      if Ascii.eqb c "%" then
        match r with
        | String a (String b r) =>
            match NetIP.hexDigit a, NetIP.hexDigit b with
            | Some x, Some y => String (byteOf (x * 16 + y)) <$> PathUnescape r
            | _, _ => None
            end
        | _ => None
        end
      else String c <$> PathUnescape r
  end.

(** [u.RequestURI()] *)
Definition urlRequestURI (u : URL) : string :=
  let result :=
    if String.eqb u.(uOpaque) "" then (if String.eqb u.(uEscapedPath) "" then "/" else u.(uEscapedPath))
    else if HasPrefix u.(uOpaque) "//" then (u.(uScheme) ++ ":" ++ u.(uOpaque))%string
    else u.(uOpaque) in
  if u.(uForceQuery) || negb (String.eqb u.(uRawQuery) "") then (result ++ String "?" u.(uRawQuery))%string
  else result.

(** Nanoseconds from the zero time to the Unix epoch. *)
Definition unixEpoch : Z := 62135596800 * second.
Definition UnixMilli (t : Z) : Z := (t - unixEpoch) / millisecond.

Lemma UnixMilli_le a b : a ≤ b → UnixMilli a ≤ UnixMilli b.
Proof. intros H. unfold UnixMilli. apply Z.div_le_mono; [unfold millisecond; lia|lia]. Qed.

Definition cookieOf (r : httpRequest) (name : string) : option string :=
  (λ found, found.2.2) <$> list_find (λ c, c.1 = name) r.(Cookies).

Section cookies.
Context `{WafCodec}.

Definition sanitizeWAFReturnTo (value : string) : string :=
  let value := TrimSpace value in
  if String.eqb value "" then "/"
  else match urlParse value with
  | None => "/"
  | Some parsed =>
      if negb (String.eqb parsed.(uScheme) "") || negb (String.eqb parsed.(uHost) "")
         || negb (String.eqb parsed.(uOpaque) "") then "/"
      else if negb (isSafeLocalRedirectTarget parsed.(uPath)) then "/"
      else if negb (String.eqb parsed.(uEscapedPath) "")
              && negb (match PathUnescape parsed.(uEscapedPath) with
                       | Some p => isSafeLocalRedirectTarget p
                       | None => false end) then "/"
      else if isPublicWAFReservedPath parsed.(uPath) then "/"
      else urlRequestURI parsed
  end.

(** ** Signing *)

(** The body in base64, a dot, its MAC in base64. *)
Definition sealBody (secret body : string) : string :=
  let encoded := EncodeToString body in
  (encoded ++ String "." (EncodeToString (hmacSHA256 secret encoded)))%string.

(** The body of a sealed value, if its MAC is right. *)
Definition openBody (secret value : string) : option string :=
  match Cut "." value with
  | None => None
  | Some (encoded, signature) =>
      if String.eqb encoded "" || String.eqb signature "" || String.eqb secret "" then None
      else match DecodeString signature with
      | None => None
      | Some actual =>
          if negb (String.eqb (hmacSHA256 secret encoded) actual) then None
          else DecodeString encoded
      end
  end.

Definition signCookieValue (secret : string) (p : publicWafCookiePayload) : string :=
  if String.eqb secret "" then "" else sealBody secret (marshalCookie p).

Definition verifyCookieValueLocked (secret value : string) (now : Z) : option publicWafCookiePayload :=
  match openBody secret value with
  | None => None
  | Some body =>
      match unmarshalCookie body with
      | None => None
      | Some p => if p.(pExpiresUnixMs) <=? UnixMilli now then None else Some p
      end
  end.

Definition wafCookieName (ruleID : Z) (kind : string) : string :=
  let base := ("p2pstream_waf_" ++ FormatInt ruleID)%string in
  if String.eqb kind publicWafCaptchaCookieKind then base else (base ++ "_" ++ kind)%string.

Definition publicWafCookieMatchesRequest (p : publicWafCookiePayload) (r : httpRequest)
    (rule : publicWafRuleConfig) (listener : publicListenerConfig) (kind : string) : bool :=
  (0 <? rule.(RuleID)) && (0 <? listener.(ListenerID)) && negb (String.eqb rule.(Fingerprint) "")
  && (p.(pRuleID) =? rule.(RuleID)) && (p.(pListenerID) =? listener.(ListenerID))
  && String.eqb p.(pRuleFingerprint) rule.(Fingerprint)
  && String.eqb p.(pHost) (publicWafChallengeRequestHost r) && String.eqb p.(pKind) kind.

Definition validRuleCookieLocked (secret : string) (r : httpRequest) (rule : publicWafRuleConfig)
    (listener : publicListenerConfig) (kind : string) (now : Z) : bool :=
  match cookieOf r (wafCookieName rule.(RuleID) kind) with
  | None => false
  | Some value =>
      match verifyCookieValueLocked secret value now with
      | None => false
      | Some p => publicWafCookieMatchesRequest p r rule listener kind
      end
  end.

Definition publicWafCookieSecure (listener : publicListenerConfig) (r : httpRequest) : bool :=
  if String.eqb listener.(Protocol) publicListenerProtocolHTTPS then true else r.(TLS).

(** The payload [signedRuleCookie] signs. *)
Definition rulePayload (rule : publicWafRuleConfig) (listener : publicListenerConfig) (r : httpRequest)
    (kind sessionID : string) (ttl now : Z) : publicWafCookiePayload :=
  mkPayload rule.(RuleID) listener.(ListenerID) rule.(Fingerprint) (publicWafChallengeRequestHost r) kind
    sessionID (UnixMilli (now + ttl)).

Definition signedRuleCookie (secret : string) (rule : publicWafRuleConfig)
    (listener : publicListenerConfig) (r : httpRequest) (kind sessionID : string) (ttl now : Z) : cookie :=
  let ttl := if ttl <=? 0 then defaultWafCaptchaPassTTL else ttl in
  mkCookie (wafCookieName rule.(RuleID) kind)
    (signCookieValue secret (rulePayload rule listener r kind sessionID ttl now))
    "/" (now + ttl) (Z.quot ttl second) true (publicWafCookieSecure listener r).

Definition queueCookiePayloadLocked (secret : string) (r : httpRequest) (rule : publicWafRuleConfig)
    (listener : publicListenerConfig) (now : Z) : option publicWafCookiePayload :=
  match cookieOf r (wafCookieName rule.(RuleID) publicWafQueueCookieKind) with
  | None => None
  | Some value =>
      match verifyCookieValueLocked secret value now with
      | None => None
      | Some p =>
          if negb (publicWafCookieMatchesRequest p r rule listener publicWafQueueCookieKind)
             || String.eqb p.(pSessionID) "" then None
          else Some p
      end
  end.

Definition signCaptchaChallenge (secret : string) (rule : publicWafRuleConfig)
    (listener : publicListenerConfig) (r : httpRequest) (returnTo : string) (now : Z) : string :=
  if String.eqb secret "" then ""
  else sealBody secret (marshalChallenge
    (mkChallenge rule.(RuleID) listener.(ListenerID) rule.(Fingerprint) (publicWafChallengeRequestHost r)
       (ToUpper (TrimSpace r.(Method))) (sanitizeWAFReturnTo returnTo)
       (UnixMilli (now + publicWafCaptchaChallengeTTL)))).

Definition verifyCaptchaChallenge (secret value : string) (now : Z) : option publicWafCaptchaChallengePayload :=
  match openBody secret value with
  | None => None
  | Some body =>
      match unmarshalChallenge body with
      | None => None
      | Some p =>
          if (p.(cRuleID) <=? 0) || (p.(cListenerID) <=? 0) || String.eqb p.(cRuleFingerprint) ""
             || String.eqb p.(cMethod) "" || (p.(cExpiresUnixMs) <=? UnixMilli now) then None
          else if String.eqb p.(cReturnTo) ""
                  || negb (String.eqb p.(cReturnTo) (sanitizeWAFReturnTo p.(cReturnTo))) then None
          else Some p
      end
  end.
End cookies.

(** [captchaRetryAfterSeconds] *)
Definition captchaRetryAfterSeconds (d : Z) : string :=
  if d <=? second then "1" else FormatInt (Z.quot (i64 (d + second - nanosecond)) second).

Example host_1 : normalizeRequestHost " Example.COM.:8443" = "example.com".
Proof. reflexivity. Qed.
Example host_2 : normalizeRequestHost "[2001:DB8::1]:443" = "2001:db8::1".
Proof. reflexivity. Qed.
Example unescape_1 : PathUnescape "/%2e%2E/a+b" = Some "/../a+b".
Proof. reflexivity. Qed.

(** ** Sealed values *)

Section laws.
Context {codec : WafCodec} {laws : WafCodecLaws}.

Lemma string_nodot s : Forall (λ c, Ascii.eqb c "." = false) (String.list_ascii_of_string s) →
  containsByte "." s = false.
Proof.
  induction s as [|c s IH]; simpl; intros Hs; [done|]. apply Forall_cons in Hs as [-> Hs]. by apply IH.
Qed.

Lemma open_seal secret body : secret ≠ "" → body ≠ "" → openBody secret (sealBody secret body) = Some body.
Proof using laws.
  intros Hs Hb. unfold openBody, sealBody.
  rewrite (Cut_app "." _ (EncodeToString (hmacSHA256 secret (EncodeToString body)))) by
    apply string_nodot, Encode_nodot.
  destruct (String.eqb_spec (EncodeToString body) ""); [by destruct (Encode_nonempty body)|].
  destruct (String.eqb_spec (EncodeToString (hmacSHA256 secret (EncodeToString body))) "") as [E|].
  { by destruct (Encode_nonempty (hmacSHA256 secret (EncodeToString body)) (hmac_nonempty _ _)). }
  destruct (String.eqb_spec secret ""); [done|]. simpl.
  rewrite Decode_Encode, String.eqb_refl. simpl. apply Decode_Encode.
Qed.

(** Opening succeeds only with the MAC of the part before the dot. *)
Lemma openBody_Some secret value body : openBody secret value = Some body →
  secret ≠ "" ∧ ∃ encoded signature, value = (encoded ++ String "." signature)%string ∧
    DecodeString signature = Some (hmacSHA256 secret encoded) ∧ DecodeString encoded = Some body.
Proof.
  unfold openBody. destruct (Cut "." value) as [[encoded signature]|] eqn:Ec; [|done].
  apply Cut_Some in Ec as [-> _]. intros Ho.
  destruct (_ || String.eqb secret "") eqn:Ee in Ho; [done|]. bprop.
  destruct (DecodeString signature) as [actual|] eqn:Ed; [|done].
  destruct (String.eqb_spec (hmacSHA256 secret encoded) actual) as [<-|]; [|done].
  split; [done|]. by exists encoded, signature.
Qed.

Lemma verify_sign secret p now : secret ≠ "" → asciiPayload p →
  verifyCookieValueLocked secret (signCookieValue secret p) now =
  if p.(pExpiresUnixMs) <=? UnixMilli now then None else Some p.
Proof using laws.
  intros Hs Hp. unfold verifyCookieValueLocked, signCookieValue.
  destruct (String.eqb_spec secret ""); [done|].
  by rewrite open_seal, unmarshal_marshal by (try apply marshal_nonempty; done).
Qed.

Lemma cookieMatches_spec p r rule listener kind : publicWafCookieMatchesRequest p r rule listener kind = true ↔
  0 < rule.(RuleID) ∧ 0 < listener.(ListenerID) ∧ rule.(Fingerprint) ≠ "" ∧
  p.(pRuleID) = rule.(RuleID) ∧ p.(pListenerID) = listener.(ListenerID) ∧
  p.(pRuleFingerprint) = rule.(Fingerprint) ∧ p.(pHost) = publicWafChallengeRequestHost r ∧ p.(pKind) = kind.
Proof.
  unfold publicWafCookieMatchesRequest. rewrite !andb_true_iff, !Z.ltb_lt, !Z.eqb_eq, !String.eqb_eq,
    negb_true_iff, String.eqb_neq. tauto.
Qed.

(** When the cookie issued for a rule is accepted. *)
Lemma cookie_accepted (secret : string) (rule rule' : publicWafRuleConfig)
    (listener listener' : publicListenerConfig) (r r' : httpRequest) (kind kind' sessionID : string)
    (ttl issued now : Z) :
  let lifetime := if ttl <=? 0 then defaultWafCaptchaPassTTL else ttl in
  secret ≠ "" →
  asciiPayload (rulePayload rule listener r kind sessionID lifetime issued) →
  cookieOf r' (wafCookieName rule'.(RuleID) kind')
    = Some (signedRuleCookie secret rule listener r kind sessionID ttl issued).(cookieValue) →
  validRuleCookieLocked secret r' rule' listener' kind' now = true ↔
    0 < rule'.(RuleID) ∧ 0 < listener'.(ListenerID) ∧ rule'.(Fingerprint) ≠ "" ∧
    rule.(RuleID) = rule'.(RuleID) ∧ listener.(ListenerID) = listener'.(ListenerID) ∧
    rule.(Fingerprint) = rule'.(Fingerprint) ∧
    publicWafChallengeRequestHost r = publicWafChallengeRequestHost r' ∧ kind = kind' ∧
    UnixMilli now < UnixMilli (issued + lifetime).
Proof using laws.
  intros lifetime Hs Hp Hc. unfold validRuleCookieLocked. rewrite Hc. unfold signedRuleCookie. cbv zeta.
  fold lifetime. cbn [cookieValue]. rewrite verify_sign by done.
  destruct (Z.leb_spec (rulePayload rule listener r kind sessionID lifetime issued).(pExpiresUnixMs) (UnixMilli now))
    as [Hle|Hgt]; simpl in *.
  - split; [done|]. intros (_ & _ & _ & _ & _ & _ & _ & _ & ?). lia.
  - rewrite cookieMatches_spec. simpl. tauto.
Qed.

End laws.

(** ** Theorems *)

(** C38: the cookie issued for a rule, listener, host and kind is accepted exactly for
    the same rule version (identifier and fingerprint), listener, host and kind, and
    until it expires. *)
Theorem waf_cookie_exact `{WafCodecLaws} (secret : string) (rule rule' : publicWafRuleConfig)
    (listener listener' : publicListenerConfig) (r r' : httpRequest) (kind kind' sessionID : string)
    (ttl issued now : Z) :
  let lifetime := if ttl <=? 0 then defaultWafCaptchaPassTTL else ttl in
  secret ≠ "" →
  asciiPayload (rulePayload rule listener r kind sessionID lifetime issued) →
  cookieOf r' (wafCookieName rule'.(RuleID) kind')
    = Some (signedRuleCookie secret rule listener r kind sessionID ttl issued).(cookieValue) →
  validRuleCookieLocked secret r' rule' listener' kind' now = true ↔
    0 < rule'.(RuleID) ∧ 0 < listener'.(ListenerID) ∧ rule'.(Fingerprint) ≠ "" ∧
    rule.(RuleID) = rule'.(RuleID) ∧ listener.(ListenerID) = listener'.(ListenerID) ∧
    rule.(Fingerprint) = rule'.(Fingerprint) ∧
    publicWafChallengeRequestHost r = publicWafChallengeRequestHost r' ∧ kind = kind' ∧
    UnixMilli now < UnixMilli (issued + lifetime).
Proof. apply cookie_accepted. Qed.

(** Whatever value a client sends, it is accepted only if its signature decodes to
    the MAC, under the current non-empty secret, of the part before the dot, and that
    part decodes to an unexpired payload for this rule version, listener, host and
    kind. *)
Theorem waf_cookie_unforgeable `{WafCodec} (secret : string) (r : httpRequest) (rule : publicWafRuleConfig)
    (listener : publicListenerConfig) (kind : string) (now : Z) :
  validRuleCookieLocked secret r rule listener kind now = true →
  secret ≠ "" ∧ ∃ encoded signature body p,
    cookieOf r (wafCookieName rule.(RuleID) kind) = Some (encoded ++ String "." signature)%string ∧
    DecodeString signature = Some (hmacSHA256 secret encoded) ∧
    DecodeString encoded = Some body ∧ unmarshalCookie body = Some p ∧
    UnixMilli now < p.(pExpiresUnixMs) ∧
    p.(pRuleID) = rule.(RuleID) ∧ p.(pListenerID) = listener.(ListenerID) ∧
    p.(pRuleFingerprint) = rule.(Fingerprint) ∧ p.(pHost) = publicWafChallengeRequestHost r ∧ p.(pKind) = kind.
Proof.
  unfold validRuleCookieLocked, verifyCookieValueLocked. destruct (cookieOf r _) as [value|]; [|done].
  destruct (openBody secret value) as [body|] eqn:Eo; [|done].
  destruct (unmarshalCookie body) as [p|] eqn:Eu; [|done].
  destruct (Z.leb_spec p.(pExpiresUnixMs) (UnixMilli now)); [done|]. rewrite cookieMatches_spec.
  intros (_ & _ & _ & Hm). apply openBody_Some in Eo as (Hs & encoded & signature & -> & Hd & Hb).
  split; [done|]. by exists encoded, signature, body, p.
Qed.

(** A redirect target that no browser takes for another host: it starts with a slash
    that neither a slash nor a backslash follows, or with a percent escape, which
    makes it relative. *)
Definition localTarget (s : string) : Prop :=
  isSafeLocalRedirectTarget s = true ∨ startsWith "%" s = true.

Definition notSlash (c : ascii) : bool := negb (Ascii.eqb c "/" || Ascii.eqb c "\").

Lemma safe_cons c s : isSafeLocalRedirectTarget (String c s) =
  Ascii.eqb c "/" && match s with EmptyString => true | String d _ => notSlash d end.
Proof.
  unfold isSafeLocalRedirectTarget. cbn [startsWith String.get]. destruct (Ascii.eqb c "/"); [|done]. by destruct s.
Qed.

Lemma safe_app s q : isSafeLocalRedirectTarget s = true → localTarget (s ++ String "?" q).
Proof.
  intros Hs. left. destruct s as [|c s]; [done|]. rewrite string_app_cons. rewrite safe_cons in *. bprop.
  rewrite H. by destruct s.
Qed.

Lemma unescape_cons c e : Ascii.eqb c "%" = false → PathUnescape (String c e) = String c <$> PathUnescape e.
Proof. intros Hc. cbn [PathUnescape]. by rewrite Hc. Qed.

Lemma unescape_safe e p : PathUnescape e = Some p → isSafeLocalRedirectTarget p = true → e ≠ "" → localTarget e.
Proof.
  destruct e as [|c e]; [done|]. intros Hu Hp _. destruct (Ascii.eqb c "%") eqn:Hc; [by right|]. left.
  rewrite unescape_cons in Hu by done. destruct (PathUnescape e) as [p'|] eqn:Ee; [|done]. injection Hu as <-.
  rewrite safe_cons in *. apply andb_true_iff in Hp as [-> Hp]. destruct e as [|d e]; [done|].
  destruct (Ascii.eqb d "%") eqn:Hd; [by apply Ascii.eqb_eq in Hd as ->|].
  rewrite unescape_cons in Ee by done. destruct (PathUnescape e); [|done]. by injection Ee as <-.
Qed.

(** The return address of a challenge never leaves the site: whatever the client
    supplied and however the URL parser reads it, the result is a local target. *)
Theorem waf_return_to_local `{WafCodec} (value : string) : localTarget (sanitizeWAFReturnTo value).
Proof.
  assert (Hroot : localTarget "/") by (by left). unfold sanitizeWAFReturnTo. cbv zeta.
  destruct (String.eqb (TrimSpace value) ""); [done|]. destruct (urlParse (TrimSpace value)) as [u|]; [|done].
  destruct (_ || negb (String.eqb u.(uOpaque) "")) eqn:Eo; [done|].
  destruct (negb (isSafeLocalRedirectTarget u.(uPath))); [done|].
  destruct (negb (String.eqb u.(uEscapedPath) "") && _) eqn:Ee; [done|].
  destruct (isPublicWAFReservedPath u.(uPath)); [done|]. unfold urlRequestURI. cbv zeta.
  assert (String.eqb u.(uOpaque) "" = true) as -> by (apply orb_false_iff in Eo as [_ Eo]; by apply negb_false_iff in Eo).
  assert (Hb : localTarget (if String.eqb u.(uEscapedPath) "" then "/" else u.(uEscapedPath))).
  { destruct (String.eqb_spec u.(uEscapedPath) ""); [done|]. simpl in Ee.
    destruct (PathUnescape u.(uEscapedPath)) as [p|] eqn:Ep; [|done]. apply negb_false_iff in Ee.
    by apply (unescape_safe _ p). }
  cbv zeta. destruct (u.(uForceQuery) || _); [|done]. destruct Hb as [Hb|Hb]; [by apply safe_app|].
  right. revert Hb. generalize (if String.eqb u.(uEscapedPath) "" then "/" else u.(uEscapedPath)).
  intros [|c s]; [done|]. by autorewrite with gostring.
Qed.

(** ** A codec, examples and witnesses *)

(** Positive numbers as strings of bits, least significant first. *)
Fixpoint bitString (p : positive) : string :=
  match p with
  | xH => "I"
  | xO p => String "0" (bitString p)
  | xI p => String "1" (bitString p)
  end.
Fixpoint bitsOf (s : string) : option positive :=
  match s with
  | EmptyString => None
  | String c s =>
      if Ascii.eqb c "I" then Some xH
      else if Ascii.eqb c "0" then xO <$> bitsOf s
      else xI <$> bitsOf s
  end.
Lemma bits_roundtrip p : bitsOf (bitString p) = Some p.
Proof. induction p as [p IH|p IH|]; simpl; [by rewrite IH..|done]. Qed.

Definition payloadTuple (p : publicWafCookiePayload) :=
  (p.(pRuleID), p.(pListenerID), p.(pRuleFingerprint), p.(pHost), p.(pKind), p.(pSessionID), p.(pExpiresUnixMs)).
Definition tuplePayload t : publicWafCookiePayload :=
  let '(a, b, c, d, e, f, g) := t in mkPayload a b c d e f g.
Definition challengeTuple (p : publicWafCaptchaChallengePayload) :=
  (p.(cRuleID), p.(cListenerID), p.(cRuleFingerprint), p.(cHost), p.(cMethod), p.(cReturnTo), p.(cExpiresUnixMs)).
Definition tupleChallenge t : publicWafCaptchaChallengePayload :=
  let '(a, b, c, d, e, f, g) := t in mkChallenge a b c d e f g.

(** A concrete codec: binary encodings for JSON, a keyed copy for the MAC, and a parser
    of absolute paths. *)
#[export] Instance exCodec : WafCodec := {|
  hmacSHA256 key message := (key ++ "!" ++ message)%string;
  marshalCookie p := bitString (encode (payloadTuple p));
  unmarshalCookie s := bitsOf s ≫= λ b, tuplePayload <$> decode b;
  marshalChallenge p := bitString (encode (challengeTuple p));
  unmarshalChallenge s := bitsOf s ≫= λ b, tupleChallenge <$> decode b;
  urlParse s := if startsWith "/" s then Some (mkURL "" "" "" s s false "") else None |}.

#[export] Instance exCodecLaws : WafCodecLaws.
Proof.
  split.
  - intros key message. simpl. by destruct key.
  - intros p. simpl. by destruct (encode (payloadTuple p)).
  - intros p _. simpl. rewrite bits_roundtrip. simpl. rewrite decode_encode. by destruct p.
  - intros p. simpl. by destruct (encode (challengeTuple p)).
  - intros p _. simpl. rewrite bits_roundtrip. simpl. rewrite decode_encode. by destruct p.
Qed.

Definition exListener : publicListenerConfig := mkListener 3 "web" "0.0.0.0" 443 "https" true.
Definition exRoom : publicWafWaitingRoomConfig := mkRoomConfig 1 10 60000 1000 120000 "" "".
Definition exRule : publicWafRuleConfig :=
  mkWafRule 7 1 true publicWafActionWaitingRoom "always" (λ _ _, Some true) (mkGeo "disabled" [] "") 0 0 exRoom
    (mkTriggers 0 0 (float_of_int 0) 0 0 0 (float_of_int 0) (float_of_int 0) 0 0) 403 "" "" [] "f1".
Definition exNow : Z := unixEpoch + 1000 * second.
Definition exVisit (cookies : list (string * string)) : httpRequest :=
  mkRequest "GET" "Shop.example:443" "" "/" "/" true "198.51.100.4:5000" ∅ cookies ∅ None [].
Definition exAdmission : cookie :=
  signedRuleCookie "key" exRule exListener (exVisit []) publicWafAdmissionCookieKind "s1" 60000000000 exNow.
Definition exReturn : httpRequest := exVisit [(exAdmission.(cookieName), exAdmission.(cookieValue))].

Lemma waf_cookie_exact_witness :
  validRuleCookieLocked "key" exReturn exRule exListener publicWafAdmissionCookieKind (exNow + second) = true.
Proof.
  assert (Hs : "key" ≠ "") by discriminate.
  assert (Ha : asciiPayload (rulePayload exRule exListener (exVisit []) publicWafAdmissionCookieKind "s1" 60000000000 exNow))
    by (repeat split; vm_compute; reflexivity).
  assert (Hc : cookieOf exReturn (wafCookieName exRule.(RuleID) publicWafAdmissionCookieKind)
    = Some exAdmission.(cookieValue)) by (vm_compute; reflexivity).
  refine (proj2 (waf_cookie_exact "key" exRule exRule exListener exListener (exVisit []) exReturn
    publicWafAdmissionCookieKind publicWafAdmissionCookieKind "s1" 60000000000 exNow (exNow + second) Hs Ha Hc) _).
  repeat split; vm_compute; done.
Defined.

Lemma waf_cookie_unforgeable_witness : "key" ≠ "".
Proof.
  assert (Hv : validRuleCookieLocked "key" exReturn exRule exListener publicWafAdmissionCookieKind (exNow + second) = true)
    by (vm_compute; reflexivity).
  exact (proj1 (waf_cookie_unforgeable "key" exReturn exRule exListener publicWafAdmissionCookieKind (exNow + second) Hv)).
Defined.

End WafCookies.
