(* ===== verification/WaitingRoom.v ===== *)
(** The waiting room of a WAF rule (internal/server/public_waf_waiting_room.go,
    evaluateLocked): sessions are recognised by signed cookies, wait in the queue of
    WaitingRoomQueue.v, and are admitted from its head under a cap and a token bucket.

    [Spec.visit] says what a visit does to a first-come-first-served room;
    [waiting_room_refines] shows that the code implements it.  The random session
    identifier is an argument. *)

From S2P Require Import Prelude.
From S2P Require Import GoStrings.
From S2P Require Import GoFloat.
From S2P Require Import GoBase64.
From S2P Require Import NetIP.
From S2P Require Import ClientIdentity.
From S2P Require Import WaitingRoomQueue.
From S2P Require Import WafCookies.
From Stdlib Require Import Sorted.

Module WaitingRoom.
Import ClientIdentity.
Import WaitingRoomQueue.
Import WafCookies.

(** ** Decisions *)

(** The zero value of a Go struct field is [None], 0, "" or the empty list. *)
Record publicWafDecision := mkDecision {
  dRule : option publicWafRuleConfig;
  dListener : option publicListenerConfig;
  dMatchError : bool;
  dAction : string;
  dStatusCode : Z;
  dErrorKind : string;
  dBody : string;
  dContentType : string;
  dHeaders : list (string * string);
  dRetryAfter : Z;
  dCookies : list cookie;
  dRedirectLocation : string;
  dAutomaticActive : bool;
  dChallengeKind : string;
  dQueuePosition : Z;
  dCaptchaProvider : option publicWafCaptchaProviderConfig;
  dCaptchaChallengeToken : string;
  dCaptchaReturnTo : string;
  dGeoCountryCode : string;
  dGeoCountryKnown : bool;
  dGeoRestrictionApplied : bool }.

Definition emptyDecision : publicWafDecision :=
  mkDecision None None false "" 0 "" "" "" [] 0 [] "" false "" 0 None "" "" "" false false.

Definition StatusSeeOther : Z := 303.
Definition StatusServiceUnavailable : Z := 503.

(** [time.Duration(ms) * time.Millisecond], or the default when it is not positive. *)
Definition millisOr (ms fallback : Z) : Z :=
  let d := i64 (ms * millisecond) in if d <=? 0 then fallback else d.

(** A decision of the waiting room. *)
Definition roomDecision (rule : publicWafRuleConfig) (listener : publicListenerConfig) (status : Z)
    (errorKind redirect : string) (cookies : list cookie) (retryAfter : Z) (automaticActive : bool)
    (position : Z) : publicWafDecision :=
  mkDecision (Some rule) (Some listener) false publicWafActionWaitingRoom status errorKind "" "" []
    retryAfter cookies redirect automaticActive publicWafActionWaitingRoom position None "" "" "" false false.

(** [rt.admitted[sessionID] = until] *)
Definition enterRoom (rt : publicWaitingRoomRuntime) (sessionID : string) (until : Z) : publicWaitingRoomRuntime :=
  mkRoom rt.(queue) rt.(queueHead) rt.(queueIndex) rt.(queued) (<[sessionID := until]> rt.(admitted))
    rt.(admissionTokens) rt.(lastRefillAt).

Section evaluate.
Context `{WafCodec}.

(** The session of the queue cookie, or a new one. *)
Definition sessionOf (secret : string) (rule : publicWafRuleConfig) (listener : publicListenerConfig)
    (r : httpRequest) (now : Z) (fresh : string) : string :=
  let sessionID :=
    match queueCookiePayloadLocked secret r rule listener now with
    | Some p => p.(pSessionID)
    | None => ""
    end in
  if String.eqb sessionID "" then fresh else sessionID.

Definition evaluateLocked (secret : string) (rt : publicWaitingRoomRuntime) (rule : publicWafRuleConfig)
    (listener : publicListenerConfig) (r : httpRequest) (now : Z) (automaticActive : bool)
    (fresh : string) : publicWaitingRoomRuntime * publicWafDecision * bool :=
  if validRuleCookieLocked secret r rule listener publicWafAdmissionCookieKind now
  then (rt, emptyDecision, true)
  else
    let sessionID := sessionOf secret rule listener r now fresh in
    let queueTimeout := millisOr rule.(WaitingRoom).(QueueTimeoutMillis) defaultWafWaitingRoomQueueTimeout in
    let retryAfter := millisOr rule.(WaitingRoom).(QueuePollIntervalMillis) defaultWafWaitingRoomPollInterval in
    let rt := pruneLocked rt now queueTimeout in
    let absent := bool_decide (rt.(queued) !! sessionID = None) in
    if absent && (maxWafWaitingRoomQueuedSessions <=? size rt.(queued))%nat then
      (rt, roomDecision rule listener StatusServiceUnavailable "waf_waiting_room_queue_full" "" []
             retryAfter automaticActive (Z.of_nat (queueLenLocked rt + 1)), false)
    else
      let rt := if absent then enqueueLocked rt sessionID now else rt in
      let position := positionLocked rt sessionID in
      let queueCookie :=
        signedRuleCookie secret rule listener r publicWafQueueCookieKind sessionID queueTimeout now in
      let '(rt, ok) := canAdmitLocked rt rule.(WaitingRoom) now sessionID in
      if ok then
        let admissionTTL :=
          millisOr rule.(WaitingRoom).(AdmissionSessionTTLMillis) defaultWafWaitingRoomAdmissionTTL in
        let rt := removeFromQueueLocked (forgetQueued rt sessionID) sessionID in
        (enterRoom rt sessionID (now + admissionTTL),
         roomDecision rule listener StatusSeeOther "" (sanitizeWAFReturnTo r.(RequestURI))
           [queueCookie;
            signedRuleCookie secret rule listener r publicWafAdmissionCookieKind sessionID admissionTTL now]
           0 automaticActive position, false)
      else
        (rt, roomDecision rule listener StatusServiceUnavailable "waf_waiting_room" "" [queueCookie]
               retryAfter automaticActive position, false).
End evaluate.

(** ** What a room promises *)

Module Spec.

Record room := mkSpecRoom {
  line : list (string * Z);
  inside : gmap string Z;
  tokens : float64;
  refilledAt : Z }.

Inductive outcome :=
  | QueueFull (position : Z)
  | Entered (position : Z)
  | Waiting (position : Z).

Definition hasRoom (c : publicWafWaitingRoomConfig) (inside : gmap string Z) : bool :=
  Z.of_nat (size inside) <? maxAdmittedOf c.

(** Expired sessions leave; a new session joins at the end unless the line is full;
    the first in line enters when there is room and a token. *)
Definition visit (c : publicWafWaitingRoomConfig) (capacity : nat) (timeout ttl now : Z)
    (s : string) (m : room) : room * outcome :=
  let line := WaitingRoomQueue.Spec.expire now timeout m.(line) in
  let inside := liveAdmitted now m.(inside) in
  let absent := bool_decide (s ∉ map fst line) in
  if absent && (capacity <=? length line)%nat then
    (mkSpecRoom line inside m.(tokens) m.(refilledAt), QueueFull (Z.of_nat (length line) + 1))
  else
    let line := if absent then line ++ [(s, now)] else line in
    let position := WaitingRoomQueue.Spec.position s line in
    if WaitingRoomQueue.Spec.isHead s line && hasRoom c inside then
      let '((tokens, refilledAt), ok) := takeToken (admissionRateOf c) now m.(tokens) m.(refilledAt) in
      if ok then
        (mkSpecRoom (WaitingRoomQueue.Spec.remove s line) (<[s := now + ttl]> inside) tokens refilledAt,
         Entered position)
      else (mkSpecRoom line inside tokens refilledAt, Waiting position)
    else (mkSpecRoom line inside m.(tokens) m.(refilledAt), Waiting position).

End Spec.

(** The room a runtime stands for. *)
Definition abstract (rt : publicWaitingRoomRuntime) : Spec.room :=
  Spec.mkSpecRoom (waiting rt) rt.(admitted) rt.(admissionTokens) rt.(lastRefillAt).

(** What the client is told: the status, the error kind and the position. *)
Definition outcomeOf (o : Spec.outcome) : Z * string * Z :=
  match o with
  | Spec.QueueFull p => (StatusServiceUnavailable, "waf_waiting_room_queue_full", p)
  | Spec.Entered p => (StatusSeeOther, "", p)
  | Spec.Waiting p => (StatusServiceUnavailable, "waf_waiting_room", p)
  end.

(** ** Lemmas *)

Lemma wf_new : wf newPublicWaitingRoomRuntime.
Proof.
  split; simpl; [lia| |].
  - intros s i. rewrite lookup_empty, lookup_nil. split; [done|intros [_ ?]; done].
  - intros s. rewrite lookup_empty. split; [intros [? ?]; done|]. intros Hs. by apply not_elem_of_nil in Hs.
Qed.

Lemma size_queued rt : wf rt → size rt.(queued) = length (waiting rt).
Proof.
  intros Hw. rewrite <- size_dom.
  assert (dom rt.(queued) = list_to_set (live rt)) as ->.
  { apply set_eq. intros s. rewrite elem_of_dom, elem_of_list_to_set. apply (wf_queued _ Hw). }
  rewrite size_list_to_set by (by apply wf_nodup). unfold waiting. by rewrite length_map.
Qed.

Lemma absent_refines rt s : wf rt → bool_decide (rt.(queued) !! s = None) = bool_decide (s ∉ map fst (waiting rt)).
Proof.
  intros Hw. apply bool_decide_ext. rewrite elem_of_waiting, <- (wf_queued _ Hw), eq_None_not_Some. done.
Qed.

Lemma canAdmit_refines rt c now s : wf rt →
  let '(rt', ok) := canAdmitLocked rt c now s in
  wf rt' ∧ waiting rt' = waiting rt ∧ rt'.(admitted) = rt.(admitted) ∧
  (rt'.(admissionTokens), rt'.(lastRefillAt), ok) =
    if WaitingRoomQueue.Spec.isHead s (waiting rt) && Spec.hasRoom c rt.(admitted)
    then takeToken (admissionRateOf c) now rt.(admissionTokens) rt.(lastRefillAt)
    else (rt.(admissionTokens), rt.(lastRefillAt), false).
Proof.
  intros Hw. unfold canAdmitLocked. rewrite (isHead_refines _ _ Hw). unfold Spec.hasRoom.
  destruct (WaitingRoomQueue.Spec.isHead s (waiting rt)); simpl; [|by split_and!].
  rewrite Z.leb_antisym. destruct (Z.of_nat (size rt.(admitted)) <? maxAdmittedOf c); simpl; [|by split_and!].
  destruct (takeToken _ now _ _) as [[tokens last] ok]. split_and!; try done. destruct Hw. by constructor.
Qed.

Lemma admit_wf rt s until : wf rt → wf (enterRoom rt s until).
Proof. intros []. by constructor. Qed.

Lemma isHead_live rt s : wf rt → WaitingRoomQueue.Spec.isHead s (waiting rt) = true → s ∈ live rt.
Proof.
  unfold WaitingRoomQueue.Spec.isHead. rewrite waiting_keys. intros _ Hh. apply bool_decide_eq_true in Hh.
  destruct (live rt) as [|x l]; [done|]. injection Hh as ->. left.
Qed.

Lemma millisOr_pos ms d : 0 < d → 0 < millisOr ms d.
Proof. unfold millisOr. intros Hd. cbv zeta. destruct (Z.leb_spec (i64 (ms * millisecond)) 0); lia. Qed.

Lemma timeout_pos ms : timeoutOrDefault (millisOr ms defaultWafWaitingRoomQueueTimeout)
  = millisOr ms defaultWafWaitingRoomQueueTimeout.
Proof.
  unfold timeoutOrDefault. pose proof (millisOr_pos ms defaultWafWaitingRoomQueueTimeout).
  destruct (Z.leb_spec (millisOr ms defaultWafWaitingRoomQueueTimeout) 0) as [Hle|]; [|done].
  unfold defaultWafWaitingRoomQueueTimeout, minute, second in *. lia.
Qed.

(** What a decision tells the client. *)
Definition told (d : publicWafDecision) : Z * string * Z := (d.(dStatusCode), d.(dErrorKind), d.(dQueuePosition)).

Definition visitOf (rule : publicWafRuleConfig) (now : Z) (s : string) : Spec.room → Spec.room * Spec.outcome :=
  Spec.visit rule.(WaitingRoom) maxWafWaitingRoomQueuedSessions
    (millisOr rule.(WaitingRoom).(QueueTimeoutMillis) defaultWafWaitingRoomQueueTimeout)
    (millisOr rule.(WaitingRoom).(AdmissionSessionTTLMillis) defaultWafWaitingRoomAdmissionTTL) now s.

(** The queue part of a visit, from a pruned runtime in which the session waits. *)
Lemma admission_refines rt c ttl now s : wf rt → s ∈ live rt →
  let '(rt1, ok) := canAdmitLocked rt c now s in
  let rt2 := if ok then enterRoom (removeFromQueueLocked (forgetQueued rt1 s) s) s (now + ttl) else rt1 in
  let '(m, o) :=
    if WaitingRoomQueue.Spec.isHead s (waiting rt) && Spec.hasRoom c rt.(admitted) then
      let '((tokens, refilledAt), ok) := takeToken (admissionRateOf c) now rt.(admissionTokens) rt.(lastRefillAt) in
      if ok then
        (Spec.mkSpecRoom (WaitingRoomQueue.Spec.remove s (waiting rt)) (<[s := now + ttl]> rt.(admitted))
           tokens refilledAt, Spec.Entered (positionLocked rt s))
      else (Spec.mkSpecRoom (waiting rt) rt.(admitted) tokens refilledAt, Spec.Waiting (positionLocked rt s))
    else (abstract rt, Spec.Waiting (positionLocked rt s)) in
  wf rt2 ∧ abstract rt2 = m ∧
  o = if ok then Spec.Entered (positionLocked rt s) else Spec.Waiting (positionLocked rt s).
Proof.
  intros Hw Hs. pose proof (canAdmit_refines rt c now s Hw) as Hc.
  destruct (canAdmitLocked rt c now s) as [rt1 ok]. destruct Hc as (Hw1 & Ew & Ea & Et).
  assert (Hs1 : s ∈ live rt1) by (by rewrite <- waiting_keys, Ew, waiting_keys).
  destruct (WaitingRoomQueue.Spec.isHead s (waiting rt) && Spec.hasRoom c rt.(admitted)).
  - destruct (takeToken _ now _ _) as [[tokens last] ok']. injection Et as Et El ->. destruct ok'.
    + destruct (remove_refines rt1 s Hw1 Hs1) as (Hw2 & Ew2 & Ea2 & Et2 & El2).
      split; [by apply admit_wf|]. split; [|done]. unfold abstract, enterRoom. simpl.
      change (waiting (mkRoom _ _ _ _ (<[s:=now + ttl]> _) _ _)) with (waiting (removeFromQueueLocked (forgetQueued rt1 s) s)).
      by rewrite Ew2, Ea2, Et2, El2, Ew, Ea, Et, El.
    + split; [done|]. split; [|done]. unfold abstract. by rewrite Ew, Ea, Et, El.
  - injection Et as Et El ->. split; [done|]. split; [|done]. unfold abstract. by rewrite Ew, Ea, Et, El.
Qed.

(** The queue invariant and the refinement for a visit without an admission cookie. *)
Lemma evaluate_refines `{WafCodec} secret rt rule listener r now auto fresh : wf rt →
  validRuleCookieLocked secret r rule listener publicWafAdmissionCookieKind now = false →
  let '(rt', d, allowed) := evaluateLocked secret rt rule listener r now auto fresh in
  let '(m, o) := visitOf rule now (sessionOf secret rule listener r now fresh) (abstract rt) in
  allowed = false ∧ wf rt' ∧ abstract rt' = m ∧ told d = outcomeOf o.
Proof.
  intros Hw Hv. unfold evaluateLocked, visitOf, Spec.visit. rewrite Hv. cbv zeta.
  set (s := sessionOf secret rule listener r now fresh). cbn [Spec.line Spec.inside Spec.tokens Spec.refilledAt abstract].
  set (timeout := millisOr rule.(WaitingRoom).(QueueTimeoutMillis) _). set (ttl := millisOr _ defaultWafWaitingRoomAdmissionTTL).
  destruct (prune_refines rt now timeout Hw) as (Hw1 & Ew & Ea & Et & El).
  unfold timeout in Ew at 2. rewrite timeout_pos in Ew. fold timeout in Ew.
  set (rt1 := pruneLocked rt now timeout) in *. rewrite <- Ew, <- Ea.
  rewrite (absent_refines _ _ Hw1), (size_queued _ Hw1).
  destruct (bool_decide (s ∉ map fst (waiting rt1)) && _) eqn:Efull.
  { split; [done|]. split; [done|]. unfold abstract, told. simpl. rewrite Et, El. split; [done|].
    rewrite queueLen_live. unfold waiting. rewrite length_map. do 2 f_equal. lia. }
  set (absent := bool_decide (s ∉ map fst (waiting rt1))) in *.
  set (rt2 := if absent then enqueueLocked rt1 s now else rt1).
  assert (H2 : wf rt2 ∧ waiting rt2 = (if absent then waiting rt1 ++ [(s, now)] else waiting rt1) ∧ s ∈ live rt2 ∧
    rt2.(admitted) = rt1.(admitted) ∧ rt2.(admissionTokens) = rt1.(admissionTokens) ∧
    rt2.(lastRefillAt) = rt1.(lastRefillAt)).
  { unfold rt2, absent. destruct (bool_decide (s ∉ map fst (waiting rt1))) eqn:Eabs.
    - rewrite <- absent_refines in Eabs by done. apply bool_decide_eq_true in Eabs.
      destruct (enqueue_refines rt1 s now Hw1 Eabs) as [? Eq]. split_and!; try done.
      rewrite <- waiting_keys, Eq, map_app. apply elem_of_app. right. by left.
    - apply bool_decide_eq_false, dec_stable in Eabs. rewrite waiting_keys in Eabs. by split_and!. }
  destruct H2 as (Hw2 & Ew2 & Hin & Ea2 & Et2 & El2). rewrite <- Ew2, <- Ea2, <- (position_refines _ _ Hw2).
  rewrite <- Et, <- El, <- Et2, <- El2.
  pose proof (admission_refines rt2 rule.(WaitingRoom) ttl now s Hw2 Hin) as Hr. unfold abstract in Hr at 1.
  destruct (canAdmitLocked rt2 rule.(WaitingRoom) now s) as [rt3 ok].
  destruct (if WaitingRoomQueue.Spec.isHead s (waiting rt2) && _ then _ else _) as [m o].
  destruct Hr as (Hw3 & Em & Eo). subst o. by destruct ok.
Qed.

Lemma sorted_app_l k l : StronglySorted Z.le (k ++ l) → StronglySorted Z.le k.
Proof.
  induction k as [|x k IH]; simpl; intros Hs; [constructor|]. apply StronglySorted_inv in Hs as [Hs Hf].
  constructor; [by apply IH|]. by apply Forall_app in Hf as [Hf _].
Qed.

Lemma sorted_app_last k x : StronglySorted Z.le (k ++ [x]) → Forall (λ t, t ≤ x) k.
Proof.
  induction k as [|y k IH]; simpl; intros Hs; [constructor|]. apply StronglySorted_inv in Hs as [Hs Hf].
  constructor; [|by apply IH]. apply Forall_app in Hf as [_ Hf]. by apply Forall_cons in Hf as [? _].
Qed.

(** ** Runs of a room *)

(** One request that reaches the room of the rule. *)
Record visitor := mkVisitor { vRequest : httpRequest; vNow : Z; vAutomatic : bool; vFresh : string }.

Section runs.
Context `{WafCodec} (secret : string) (rule : publicWafRuleConfig) (listener : publicListenerConfig).

(** The code: the runtime after a list of visits, and what each visitor was told. *)
Fixpoint runCode (l : list visitor) (rt : publicWaitingRoomRuntime)
    : publicWaitingRoomRuntime * list (bool * (Z * string * Z)) :=
  match l with
  | [] => (rt, [])
  | v :: l =>
      let '(rt, d, allowed) :=
        evaluateLocked secret rt rule listener v.(vRequest) v.(vNow) v.(vAutomatic) v.(vFresh) in
      let '(rt, out) := runCode l rt in (rt, (allowed, told d) :: out)
  end.

Definition hasAdmission (v : visitor) : bool :=
  validRuleCookieLocked secret v.(vRequest) rule listener publicWafAdmissionCookieKind v.(vNow).

Definition visitorSession (v : visitor) : string :=
  sessionOf secret rule listener v.(vRequest) v.(vNow) v.(vFresh).

(** The specification: an admission cookie passes and changes nothing. *)
Fixpoint runSpec (l : list visitor) (m : Spec.room) : Spec.room * list (bool * (Z * string * Z)) :=
  match l with
  | [] => (m, [])
  | v :: l =>
      if hasAdmission v then
        let '(m, out) := runSpec l m in (m, (true, (0, "", 0)) :: out)
      else
        let '(m, o) := visitOf rule v.(vNow) (visitorSession v) m in
        let '(m, out) := runSpec l m in (m, (false, outcomeOf o) :: out)
  end.

(** One visit keeps the invariant and implements the specification. *)
Lemma step_refines v rt : wf rt →
  let '(rt', d, allowed) :=
    evaluateLocked secret rt rule listener v.(vRequest) v.(vNow) v.(vAutomatic) v.(vFresh) in
  wf rt' ∧ (abstract rt', (allowed, told d)) =
    if hasAdmission v then (abstract rt, (true, (0, "", 0)))
    else let '(m, o) := visitOf rule v.(vNow) (visitorSession v) (abstract rt) in (m, (false, outcomeOf o)).
Proof.
  intros Hw. unfold hasAdmission.
  destruct (validRuleCookieLocked secret v.(vRequest) rule listener publicWafAdmissionCookieKind v.(vNow)) eqn:Ev.
  - unfold evaluateLocked. rewrite Ev. done.
  - pose proof (evaluate_refines secret rt rule listener v.(vRequest) v.(vNow) v.(vAutomatic) v.(vFresh) Hw Ev) as Hr.
    unfold visitorSession. destruct (evaluateLocked _ _ _ _ _ _ _ _) as [[rt' d] allowed].
    destruct (visitOf _ _ _ _) as [m o]. destruct Hr as (-> & ? & -> & ->). done.
Qed.

Lemma run_refines l : ∀ rt, wf rt →
  wf (runCode l rt).1 ∧ (abstract (runCode l rt).1, (runCode l rt).2) = runSpec l (abstract rt).
Proof.
  induction l as [|v l IH]; intros rt Hw; [done|]. simpl. pose proof (step_refines v rt Hw) as Hs.
  destruct (evaluateLocked _ _ _ _ _ _ _ _) as [[rt' d] allowed]. destruct Hs as [Hw' Hs].
  specialize (IH rt' Hw'). destruct (runCode l rt') as [rt'' out]. simpl in *. destruct IH as [? Hi]. split; [done|].
  destruct (hasAdmission v); [|destruct (visitOf _ _ _ (abstract rt)) as [m o]];
    pose proof (f_equal fst Hs) as Em; pose proof (f_equal snd Hs) as Eo; cbn [fst snd] in Em, Eo;
    by rewrite <- Em, <- Hi, Eo.
Qed.

(** ** Invariants of the specification *)

Definition maxInside : Z := maxAdmittedOf rule.(WaitingRoom).

Lemma expire_sublist now timeout l : WaitingRoomQueue.Spec.expire now timeout l `suffix_of` l.
Proof.
  induction l as [|[s t] l IH]; simpl; [done|]. case_goal; [done|]. by apply suffix_cons_r.
Qed.

Lemma maxAdmittedOf_pos c : 0 < maxAdmittedOf c.
Proof.
  unfold maxAdmittedOf, defaultWafWaitingRoomMaxAdmitted. destruct (Z.leb_spec c.(MaxAdmittedSessions) 0); lia.
Qed.

Lemma liveAdmitted_size now m : (size (liveAdmitted now m) ≤ size m)%nat.
Proof. apply map_size_filter. Qed.

Lemma remove_length s l : (length (WaitingRoomQueue.Spec.remove s l) ≤ length l)%nat.
Proof. apply length_filter. Qed.

Definition bounded (m : Spec.room) : Prop :=
  (length m.(Spec.line) ≤ maxWafWaitingRoomQueuedSessions)%nat ∧ Z.of_nat (size m.(Spec.inside)) ≤ maxInside.

(** Case analysis of a visit, with its branches as cases. *)
Lemma visit_cases (P : Spec.room * Spec.outcome → Prop) c cap timeout ttl now s m :
  let line := WaitingRoomQueue.Spec.expire now timeout m.(Spec.line) in
  let inside := liveAdmitted now m.(Spec.inside) in
  (s ∉ map fst line → (cap ≤ length line)%nat →
    P (Spec.mkSpecRoom line inside m.(Spec.tokens) m.(Spec.refilledAt), Spec.QueueFull (Z.of_nat (length line) + 1))) →
  (∀ line', (s ∈ map fst line ∧ line' = line ∨
             s ∉ map fst line ∧ (length line < cap)%nat ∧ line' = line ++ [(s, now)]) →
    (∀ tokens refilled, P (Spec.mkSpecRoom line' inside tokens refilled,
        Spec.Waiting (WaitingRoomQueue.Spec.position s line'))) ∧
    (∀ tokens refilled, WaitingRoomQueue.Spec.isHead s line' = true → Spec.hasRoom c inside = true →
      P (Spec.mkSpecRoom (WaitingRoomQueue.Spec.remove s line') (<[s := now + ttl]> inside) tokens refilled,
         Spec.Entered (WaitingRoomQueue.Spec.position s line')))) →
  P (Spec.visit c cap timeout ttl now s m).
Proof.
  intros line inside Hfull Hrest. unfold Spec.visit. fold line inside. cbv zeta.
  destruct (decide (s ∈ map fst line)) as [Hin|Hout].
  - rewrite bool_decide_eq_false_2 by tauto. simpl. destruct (Hrest line) as [Hw Ha]; [by left|].
    destruct (_ && _) eqn:E; [|apply Hw]. bprop. destruct (takeToken _ _ _ _) as [[tok ref] []]; auto.
  - rewrite bool_decide_eq_true_2 by done. simpl. destruct (Nat.leb_spec cap (length line)); [by apply Hfull|].
    destruct (Hrest (line ++ [(s, now)])) as [Hw Ha]; [by right|].
    destruct (_ && _) eqn:E; [|apply Hw]. bprop. destruct (takeToken _ _ _ _) as [[tok ref] []]; auto.
Qed.

Lemma visit_bounded now s m : bounded m → bounded (visitOf rule now s m).1.
Proof.
  intros [Hl Hi]. unfold visitOf.
  set (timeout := millisOr rule.(WaitingRoom).(QueueTimeoutMillis) _).
  pose proof (suffix_length _ _ (expire_sublist now timeout m.(Spec.line))) as He.
  pose proof (liveAdmitted_size now m.(Spec.inside)) as Hs.
  apply (visit_cases (λ p, bounded p.1)).
  - intros _ _. split; simpl; lia.
  - intros line' Hline.
    assert (Hl' : (length line' ≤ maxWafWaitingRoomQueuedSessions)%nat).
    { destruct Hline as [[_ ->]|(_ & Hlt & ->)]; [lia|]. rewrite length_app. cbn [length]. lia. }
    split; [intros; split; cbn [fst Spec.line Spec.inside]; lia|]. intros tok ref _ Hroom. unfold Spec.hasRoom in Hroom. bprop.
    split; cbn [fst Spec.line Spec.inside].
    + pose proof (remove_length s line'). lia.
    + pose proof (insert_size_le (liveAdmitted now m.(Spec.inside)) s
        (now + millisOr rule.(WaitingRoom).(AdmissionSessionTTLMillis) defaultWafWaitingRoomAdmissionTTL)).
      unfold maxInside. lia.
Qed.

(** ** Order and positions *)

Lemma position_ge1 s l : 1 ≤ WaitingRoomQueue.Spec.position s l.
Proof. induction l as [|[t x] l IH]; simpl; [lia|]. case_goal; lia. Qed.

Lemma position_skip s k l : s ∉ map fst k →
  WaitingRoomQueue.Spec.position s (k ++ l) = Z.of_nat (length k) + WaitingRoomQueue.Spec.position s l.
Proof.
  induction k as [|[t x] k IH]; intros Hs; [done|]. simpl in *. rewrite elem_of_cons in Hs.
  rewrite bool_decide_eq_false_2 by tauto. rewrite IH by tauto. lia.
Qed.

Lemma position_app s l k : s ∈ map fst l →
  WaitingRoomQueue.Spec.position s (l ++ k) = WaitingRoomQueue.Spec.position s l.
Proof.
  induction l as [|[t x] l IH]; simpl; intros Hs; [by apply not_elem_of_nil in Hs|].
  rewrite elem_of_cons in Hs. case_bool_decide; [done|]. rewrite IH by tauto. done.
Qed.

Lemma position_remove s t l : s ≠ t →
  WaitingRoomQueue.Spec.position s (WaitingRoomQueue.Spec.remove t l) ≤ WaitingRoomQueue.Spec.position s l.
Proof.
  unfold WaitingRoomQueue.Spec.remove. intros Hne. induction l as [|[u x] l IH]; [done|].
  destruct (decide (u = t)) as [->|Hu].
  - rewrite filter_cons_False by (simpl; tauto). simpl. rewrite bool_decide_eq_false_2 by done. lia.
  - rewrite filter_cons_True by done. simpl. case_goal; lia.
Qed.

Lemma position_head s l : WaitingRoomQueue.Spec.isHead s l = true → WaitingRoomQueue.Spec.position s l = 1.
Proof.
  unfold WaitingRoomQueue.Spec.isHead. intros Hh. apply bool_decide_eq_true in Hh.
  destruct l as [|[t x] l]; [done|]. injection Hh as ->. simpl. by rewrite bool_decide_eq_true_2.
Qed.

(** The visit of another session does not move a waiting session back. *)
Lemma visit_position now t m s : NoDup (map fst m.(Spec.line)) → s ≠ t →
  s ∈ map fst (visitOf rule now t m).1.(Spec.line) →
  s ∈ map fst m.(Spec.line) ∧
  WaitingRoomQueue.Spec.position s (visitOf rule now t m).1.(Spec.line)
  ≤ WaitingRoomQueue.Spec.position s m.(Spec.line).
Proof.
  intros Hnd Hst. unfold visitOf. set (timeout := millisOr rule.(WaitingRoom).(QueueTimeoutMillis) _).
  destruct (expire_sublist now timeout m.(Spec.line)) as [k Ek].
  set (line := WaitingRoomQueue.Spec.expire now timeout m.(Spec.line)) in *.
  assert (Hexp : s ∈ map fst line → s ∈ map fst m.(Spec.line) ∧
    WaitingRoomQueue.Spec.position s line ≤ WaitingRoomQueue.Spec.position s m.(Spec.line)).
  { intros Hin. rewrite Ek, map_app in Hnd. apply NoDup_app in Hnd as (_ & Hdis & _). split.
    - rewrite Ek, map_app. apply elem_of_app. by right.
    - rewrite Ek, position_skip; [lia|]. intros Hk. by apply (Hdis s Hk). }
  apply (visit_cases (λ p, s ∈ map fst p.1.(Spec.line) → s ∈ map fst m.(Spec.line) ∧
    WaitingRoomQueue.Spec.position s p.1.(Spec.line) ≤ WaitingRoomQueue.Spec.position s m.(Spec.line))).
  - intros _ _. apply Hexp.
  - intros line' Hline.
    assert (Hl : s ∈ map fst line' → s ∈ map fst m.(Spec.line) ∧
      WaitingRoomQueue.Spec.position s line' ≤ WaitingRoomQueue.Spec.position s m.(Spec.line)).
    { intros Hin. destruct Hline as [[_ ->]|(_ & _ & ->)]; [by apply Hexp|].
      rewrite map_app, elem_of_app in Hin. destruct Hin as [Hin|Hin].
      - rewrite position_app by done. by apply Hexp.
      - apply list_elem_of_singleton in Hin. done. }
    split; [intros tok ref; exact Hl|]. intros tok ref _ _. cbn [fst Spec.line]. intros Hin.
    destruct Hl as [Hm Hp].
    { apply list_elem_of_In, in_map_iff in Hin as (e & <- & He). apply list_elem_of_In, list_elem_of_filter in He as [_ He].
      apply list_elem_of_In, in_map_iff. exists e. split; [done|]. by apply list_elem_of_In. }
    split; [done|]. pose proof (position_remove s t line' Hst). lia.
Qed.

(** Only the first in line is admitted. *)
Lemma visit_admits_first now t m p : (visitOf rule now t m).2 = Spec.Entered p → p = 1.
Proof.
  unfold visitOf. apply (visit_cases (λ x, x.2 = Spec.Entered p → p = 1)); [done|].
  intros line' _. split; [done|]. intros tok ref Hh _ [= <-]. by apply position_head.
Qed.

(** ** Expiry *)

(** The line is ordered by arrival, nobody arrived after [now], and nobody waits longer
    than [timeout]. *)
Definition orderedBy (now : Z) (l : list (string * Z)) : Prop :=
  StronglySorted Z.le (map snd l) ∧ Forall (λ t, t ≤ now) (map snd l).

Lemma expire_fresh now timeout l : orderedBy now l → Forall (λ e, time_sub now e.2 ≤ timeout)
  (WaitingRoomQueue.Spec.expire now timeout l).
Proof.
  intros [Hs _]. induction l as [|[s t] l IH]; simpl; [constructor|]. simpl in Hs. apply StronglySorted_inv in Hs as [Hs' Hf].
  destruct (Z.leb_spec (time_sub now t) timeout); [|by apply IH]. constructor; [done|].
  rewrite list.Forall_forall in Hf. apply list.Forall_forall. intros [s' t'] Hin. simpl.
  assert (t ≤ t') by (apply Hf, list_elem_of_In, in_map_iff; exists (s', t'); split; [done|by apply list_elem_of_In]).
  unfold time_sub in *. pose proof (sat64_mono (now - t') (now - t) ltac:(lia)). lia.
Qed.

Lemma sorted_suffix k l : StronglySorted Z.le (k ++ l) → StronglySorted Z.le l.
Proof. induction k as [|x k IH]; simpl; [done|]. intros Hs. apply StronglySorted_inv in Hs as [Hs _]. auto. Qed.

Lemma sorted_filter (l : list (string * Z)) s :
  StronglySorted Z.le (map snd l) → StronglySorted Z.le (map snd (WaitingRoomQueue.Spec.remove s l)).
Proof.
  unfold WaitingRoomQueue.Spec.remove. induction l as [|e l IH]; intros Hs; [done|]. simpl in Hs.
  apply StronglySorted_inv in Hs as [Hs' Hf]. destruct (decide (e.1 = s)).
  - rewrite filter_cons_False by tauto. by apply IH.
  - rewrite filter_cons_True by done. simpl. constructor; [by apply IH|]. rewrite list.Forall_forall in Hf. apply list.Forall_forall.
    intros t Ht. apply Hf. apply list_elem_of_In, in_map_iff in Ht as (x & <- & Hx).
    apply list_elem_of_In, list_elem_of_filter in Hx as [_ Hx]. apply list_elem_of_In, in_map_iff.
    exists x. split; [done|]. by apply list_elem_of_In.
Qed.

Lemma Forall_remove (P : string * Z → Prop) l s : Forall P l → Forall P (WaitingRoomQueue.Spec.remove s l).
Proof.
  intros HP. rewrite list.Forall_forall in HP. apply list.Forall_forall. intros x Hx.
  apply HP. by apply list_elem_of_filter in Hx as [_ Hx].
Qed.

Lemma ordered_entries now l : orderedBy now l ↔ StronglySorted Z.le (map snd l) ∧ Forall (λ e, e.2 ≤ now) l.
Proof. unfold orderedBy. by rewrite Forall_map. Qed.

(** A visit at [now] leaves an ordered line in which nobody has expired. *)
Lemma visit_fresh now s m : (∃ before, before ≤ now ∧ orderedBy before m.(Spec.line)) →
  let line' := (visitOf rule now s m).1.(Spec.line) in
  let timeout := millisOr rule.(WaitingRoom).(QueueTimeoutMillis) defaultWafWaitingRoomQueueTimeout in
  orderedBy now line' ∧ Forall (λ e, time_sub now e.2 ≤ timeout) line'.
Proof.
  intros (b & Hb & Ho). rewrite ordered_entries in Ho. destruct Ho as [Hs Hf].
  assert (Hn : orderedBy now m.(Spec.line)).
  { apply ordered_entries. split; [done|]. eapply Forall_impl; [done|]. simpl. lia. }
  cbv zeta. unfold visitOf. set (timeout := millisOr rule.(WaitingRoom).(QueueTimeoutMillis) _).
  assert (Ht : 0 < timeout) by (apply millisOr_pos; unfold defaultWafWaitingRoomQueueTimeout, minute, second; lia).
  pose proof (expire_fresh now timeout _ Hn) as He. apply ordered_entries in Hn as [_ Hn].
  destruct (expire_sublist now timeout m.(Spec.line)) as [k Ek].
  set (line := WaitingRoomQueue.Spec.expire now timeout m.(Spec.line)) in *.
  assert (Hline : StronglySorted Z.le (map snd line) ∧ Forall (λ e, e.2 ≤ now) line).
  { rewrite Ek in Hs, Hn. rewrite map_app in Hs. apply sorted_suffix in Hs. apply Forall_app in Hn as [_ ?]. done. }
  apply (visit_cases (λ p, orderedBy now p.1.(Spec.line) ∧ Forall (λ e, time_sub now e.2 ≤ timeout) p.1.(Spec.line))).
  - intros _ _. rewrite ordered_entries. done.
  - intros line' Hl.
    assert (Hgood : (StronglySorted Z.le (map snd line') ∧ Forall (λ e, e.2 ≤ now) line') ∧
      Forall (λ e, time_sub now e.2 ≤ timeout) line').
    { destruct Hl as [[_ ->]|(_ & _ & ->)]; [done|]. destruct Hline as [Hl1 Hl2]. split; [split|].
      - rewrite map_app. apply sorted_snoc; [done|]. by apply Forall_map.
      - apply Forall_app_2; [done|]. by apply Forall_singleton.
      - apply Forall_app_2; [done|]. apply Forall_singleton. simpl. unfold time_sub, sat64, max_int64, min_int64. lia. }
    split; [intros tok ref; cbn [fst Spec.line]; by rewrite ordered_entries|].
    intros tok ref _ _. cbn [fst Spec.line]. rewrite ordered_entries.
    destruct Hgood as [[? ?] ?]. split; [split|]; [by apply sorted_filter|by apply Forall_remove..].
Qed.

Definition emptyRoom : Spec.room := Spec.mkSpecRoom [] ∅ (float_of_int 0) 0.

(** The runtime after a list of visits to a new room. *)
Definition reached (l : list visitor) : publicWaitingRoomRuntime := (runCode l newPublicWaitingRoomRuntime).1.

Lemma reached_wf l : wf (reached l).
Proof. apply run_refines, wf_new. Qed.

Lemma reached_spec l : abstract (reached l) = (runSpec l emptyRoom).1.
Proof.
  destruct (run_refines l _ wf_new) as [_ E]. unfold reached. apply (f_equal fst) in E. exact E.
Qed.

Lemma run_invariant (I : Spec.room → Prop) l : ∀ m,
  (∀ v m, v ∈ l → I m → I (visitOf rule v.(vNow) (visitorSession v) m).1) → I m → I (runSpec l m).1.
Proof.
  induction l as [|v l IH]; intros m Hstep Hm; [done|]. simpl. destruct (hasAdmission v).
  - specialize (IH m). destruct (runSpec l m) as [m' out]. apply IH; [|done]. intros. apply Hstep; [by right|done].
  - pose proof (Hstep v m ltac:(left) Hm) as Hv. destruct (visitOf _ _ _ m) as [m1 o]. simpl in Hv.
    specialize (IH m1). destruct (runSpec l m1) as [m' out]. apply IH; [|done]. intros. apply Hstep; [by right|done].
Qed.

(** Visits in the order of the clock keep the line ordered. *)
Lemma run_ordered l : ∀ m b, StronglySorted Z.le (b :: map vNow l) → orderedBy b m.(Spec.line) →
  ∃ b', orderedBy b' (runSpec l m).1.(Spec.line) ∧ ∀ n, b ≤ n → Forall (λ t, t ≤ n) (map vNow l) → b' ≤ n.
Proof.
  induction l as [|v l IH]; intros m b Hs Ho; [exists b; split; [done|by intros]|].
  apply StronglySorted_inv in Hs as [Hs Hb]. simpl in Hs, Hb. apply Forall_cons in Hb as [Hbv _].
  assert (Hm : ∃ m1, orderedBy v.(vNow) m1.(Spec.line) ∧ (runSpec (v :: l) m).1 = (runSpec l m1).1).
  { simpl. destruct (hasAdmission v).
    - exists m. split; [|by destruct (runSpec l m)]. apply ordered_entries in Ho as [H1 H2]. apply ordered_entries.
      split; [done|]. eapply Forall_impl; [done|]. simpl. lia.
    - destruct (visit_fresh v.(vNow) (visitorSession v) m) as [Hf _]; [by exists b|].
      destruct (visitOf _ _ _ m) as [m1 o]. exists m1. split; [done|]. by destruct (runSpec l m1). }
  destruct Hm as (m1 & Ho1 & ->). destruct (IH m1 v.(vNow) Hs Ho1) as (b' & Hb' & Hle). exists b'. split; [done|].
  intros n Hn Hall. simpl in Hall. apply Forall_cons in Hall as [Hv Hall]. by apply Hle.
Qed.
End runs.

(** ** Theorems *)

(** C15: from a new room, any sequence of visits leaves the runtime well-formed and in
    the state of the abstract first-come-first-served room after the same visits, and
    every visitor is told what the abstract room says. *)
Theorem waiting_room_refines `{WafCodec} (secret : string) (rule : publicWafRuleConfig)
    (listener : publicListenerConfig) (visitors : list visitor) :
  let '(rt, out) := runCode secret rule listener visitors newPublicWaitingRoomRuntime in
  wf rt ∧ (abstract rt, out) = runSpec secret rule listener visitors emptyRoom.
Proof.
  pose proof (run_refines secret rule listener visitors _ wf_new) as Hr.
  destruct (runCode secret rule listener visitors newPublicWaitingRoomRuntime) as [rt out]. exact Hr.
Qed.

(** At most the configured number of sessions is inside and at most 100000 wait,
    after any visits. *)
Theorem waiting_room_bounded `{WafCodec} (secret : string) (rule : publicWafRuleConfig)
    (listener : publicListenerConfig) (visitors : list visitor) :
  let rt := reached secret rule listener visitors in
  Z.of_nat (size rt.(admitted)) ≤ maxAdmittedOf rule.(WaitingRoom) ∧
  (size rt.(queued) ≤ maxWafWaitingRoomQueuedSessions)%nat ∧
  queueLenLocked rt = size rt.(queued).
Proof.
  cbv zeta. pose proof (reached_wf secret rule listener visitors) as Hw.
  assert (Hb : bounded rule (abstract (reached secret rule listener visitors))).
  { rewrite reached_spec. apply run_invariant; [intros; by apply visit_bounded|].
    split; simpl; [lia|]. rewrite map_size_empty. pose proof (maxAdmittedOf_pos rule.(WaitingRoom)). unfold maxInside. lia. }
  destruct Hb as [Hl Hi]. split; [done|]. rewrite (size_queued _ Hw). split; [done|].
  rewrite queueLen_live. unfold waiting. by rewrite length_map.
Qed.

(** The room is fair: the visit of another session never moves a waiting session
    back, nobody starts to wait through another session's visit, and a visitor is
    admitted only from the first place. *)
Theorem waiting_room_fifo `{WafCodec} (secret : string) (rule : publicWafRuleConfig)
    (listener : publicListenerConfig) (visitors : list visitor) (v : visitor) :
  let rt := reached secret rule listener visitors in
  let '(rt', d, _) := evaluateLocked secret rt rule listener v.(vRequest) v.(vNow) v.(vAutomatic) v.(vFresh) in
  (∀ s, s ≠ visitorSession secret rule listener v → is_Some (rt'.(queued) !! s) →
    is_Some (rt.(queued) !! s) ∧ positionLocked rt' s ≤ positionLocked rt s) ∧
  (d.(dStatusCode) = StatusSeeOther → d.(dQueuePosition) = 1).
Proof.
  cbv zeta. pose proof (reached_wf secret rule listener visitors) as Hw.
  set (rt := reached secret rule listener visitors) in *.
  pose proof (step_refines secret rule listener v rt Hw) as Hs.
  destruct (evaluateLocked secret rt rule listener v.(vRequest) v.(vNow) v.(vAutomatic) v.(vFresh)) as [[rt' d] allowed].
  destruct Hs as [Hw' Hs]. destruct (hasAdmission secret rule listener v).
  - pose proof (f_equal fst Hs) as Em. pose proof (f_equal (λ x, x.2.2) Hs) as Eo. cbn [fst snd] in Em, Eo.
    apply (f_equal Spec.line) in Em. simpl in Em. split.
    + intros s _ Hin. rewrite !position_refines, Em by done. split; [|lia].
      by rewrite (wf_queued _ Hw), <- waiting_keys, <- Em, waiting_keys, <- (wf_queued _ Hw').
    + intros E. unfold told in Eo. rewrite E in Eo. done.
  - pose proof (visit_position rule v.(vNow) (visitorSession secret rule listener v) (abstract rt)) as Hp.
    pose proof (visit_admits_first rule v.(vNow) (visitorSession secret rule listener v) (abstract rt)) as Hf.
    destruct (visitOf rule v.(vNow) _ (abstract rt)) as [m o]. cbn [fst snd] in Hp, Hf.
    pose proof (f_equal fst Hs) as Em. pose proof (f_equal (λ x, x.2.2) Hs) as Eo. cbn [fst snd] in Em, Eo. subst m.
    cbn [Spec.line abstract] in Hp. split.
    + intros s Hne Hin. rewrite !position_refines by done.
      rewrite (wf_queued _ Hw), <- elem_of_waiting. apply Hp; [|done|].
      * rewrite waiting_keys. by apply wf_nodup.
      * by rewrite elem_of_waiting, <- (wf_queued _ Hw').
    + intros E. unfold told in Eo. destruct o as [q|q|q]; simpl in Eo; rewrite E in Eo; [done| |done].
      injection Eo as _ ->. by apply (Hf q).
Qed.

(** When the clock does not go back, a visit leaves nobody in the queue who has
    waited longer than the timeout, although only the head of the queue is examined. *)
Theorem waiting_room_expiry `{WafCodec} (secret : string) (rule : publicWafRuleConfig)
    (listener : publicListenerConfig) (visitors : list visitor) (v : visitor) :
  StronglySorted Z.le (0 :: map vNow (visitors ++ [v])) →
  hasAdmission secret rule listener v = false →
  let '(rt', _, _) := evaluateLocked secret (reached secret rule listener visitors) rule listener
    v.(vRequest) v.(vNow) v.(vAutomatic) v.(vFresh) in
  ∀ s t, rt'.(queued) !! s = Some t →
    time_sub v.(vNow) t ≤ millisOr rule.(WaitingRoom).(QueueTimeoutMillis) defaultWafWaitingRoomQueueTimeout.
Proof.
  intros Hsort Ha. pose proof (reached_wf secret rule listener visitors) as Hw.
  pose proof (step_refines secret rule listener v _ Hw) as Hs. rewrite Ha in Hs.
  destruct (run_ordered secret rule listener visitors emptyRoom 0) as (b & Hb & Hle).
  { rewrite map_app, app_comm_cons in Hsort. by apply sorted_app_l in Hsort. }
  { by split; constructor. }
  rewrite <- (reached_spec secret rule listener visitors) in Hb.
  assert (Hbv : b ≤ v.(vNow)).
  { rewrite map_app in Hsort. change (0 :: map vNow visitors ++ map vNow [v]) with ((0 :: map vNow visitors) ++ [v.(vNow)]) in Hsort.
    apply sorted_app_last in Hsort. apply Forall_cons in Hsort as [H0 Hall]. by apply Hle. }
  destruct (visit_fresh rule v.(vNow) (visitorSession secret rule listener v)
    (abstract (reached secret rule listener visitors))) as [_ Hf]; [by exists b|].
  destruct (evaluateLocked _ _ _ _ _ _ _ _) as [[rt' d] allowed]. destruct Hs as [Hw' Hs].
  destruct (visitOf rule v.(vNow) _ _) as [m o]. apply (f_equal fst) in Hs. cbn [fst] in Hs, Hf. subst m.
  cbn [Spec.line abstract] in Hf. rewrite list.Forall_forall in Hf. intros s t E. apply (Hf (s, t)).
  apply list_elem_of_In, in_map_iff. exists s. rewrite E. split; [done|]. apply list_elem_of_In, (wf_queued _ Hw').
  by eexists.
Qed.

(** ** Examples and witnesses *)

Definition exVisitor (n : Z) (cookies : list (string * string)) (fresh : string) : visitor :=
  mkVisitor (exVisit cookies) (exNow + n * second) false fresh.

Example ex_run : (runCode "key" exRule exListener
    [exVisitor 0 [] "a"; exVisitor 1 [] "b"; exVisitor 2 [] "c"] newPublicWaitingRoomRuntime).2
  = [(false, (303, "", 1)); (false, (503, "waf_waiting_room", 1)); (false, (503, "waf_waiting_room", 2))].
Proof. vm_compute. reflexivity. Qed.

Definition exVisitors : list visitor := [exVisitor 0 [] "a"; exVisitor 1 [] "b"].
Definition exLate : visitor := exVisitor 500 [] "c".

Lemma waiting_room_expiry_witness :
  let '(rt', _, _) := evaluateLocked "key" (reached "key" exRule exListener exVisitors) exRule exListener
    exLate.(vRequest) exLate.(vNow) exLate.(vAutomatic) exLate.(vFresh) in
  ∀ s t, rt'.(queued) !! s = Some t →
    time_sub exLate.(vNow) t ≤ millisOr exRule.(WaitingRoom).(QueueTimeoutMillis) defaultWafWaitingRoomQueueTimeout.
Proof.
  assert (Hs : StronglySorted Z.le (0 :: map vNow (exVisitors ++ [exLate]))).
  { repeat constructor; vm_compute; discriminate. }
  assert (Ha : hasAdmission "key" exRule exListener exLate = false) by (vm_compute; reflexivity).
  exact (waiting_room_expiry "key" exRule exListener exVisitors exLate Hs Ha).
Defined.

End WaitingRoom.
