(* ===== verification/RateLimiter.v ===== *)
(** Rate limiting of public requests (internal/server/rate_limiter.go): the four
    algorithms on the state of a key, the limiter that keeps the keys of every rule,
    and the validation of the key of a rule.

    Times of the algorithms are Unix milliseconds.  SHA-256 (hex) is the argument
    [hash], the order in which Go iterates over a map of keys the argument [order];
    theorems quantify over both.  The evaluated policy expression of a rule is a
    function, as in WafCookies.v. *)

From S2P Require Import Prelude.
From S2P Require Import GoStrings.
From S2P Require Import GoFloat.
From S2P Require Import NetIP.
From S2P Require Import ClientIdentity.
From S2P Require Import WafCookies.
From Stdlib Require Import Ascii.

Module RateLimiter.
Import NetIP.
Import ClientIdentity.
Import WafCookies.

(** ** Data *)

Definition defaultRateLimitName := "rate-limit".
Definition defaultRateLimitLimit : Z := 60.
Definition defaultRateLimitWindowMillis : Z := 60000.
Definition defaultRateLimitStatusCode : Z := 429.
Definition maxRateLimitWindowMillis : Z := 86400000.
Definition maxRateLimitKeyParts : nat := 8.
Definition maxRateLimitKeyValueBytes : nat := 256.
Definition maxRateLimitResponseHeaders : nat := 32.
Definition maxRateLimitKeysPerRule : nat := 10000.
Definition rateLimitIdleStateTTL : Z := 15 * minute.
Definition rateLimitPruneInterval : Z := minute.
Definition rateLimitMissingValue := "<missing>".
Definition publicRateLimitKeySourceRemoteIP := "remote_ip".
Definition publicRateLimitKeySourceHost := "host".
Definition publicRateLimitKeySourceMethod := "method".
Definition publicRateLimitKeySourcePath := "path".
Definition publicRateLimitKeySourceProtocol := "protocol".
Definition publicRateLimitKeySourceHeader := "header".
Definition publicRateLimitKeySourceCookie := "cookie".
Definition publicRateLimitKeySourceQueryParam := "query_param".
Definition publicRateLimitAlgorithmFixedWindow := "fixed_window".
Definition publicRateLimitAlgorithmSlidingWindow := "sliding_window".
Definition publicRateLimitAlgorithmTokenBucket := "token_bucket".
Definition publicRateLimitAlgorithmLeakyBucket := "leaky_bucket".

Record publicRateLimitKeyPartConfig := mkKeyPart { Source : string; PartName : string }.

#[export] Instance keypart_eq_dec : EqDecision publicRateLimitKeyPartConfig.
Proof. solve_decision. Defined.

(** The fields the request path reads. *)
Record publicRateLimitRuleConfig := mkRateRule {
  ID : Z;
  RatePriority : Z;
  RateEnabled : bool;
  Algorithm : string;
  Limit : Z;
  WindowMillis : Z;
  Burst : Z;
  RateMatch : policyMatch;
  KeyParts : list publicRateLimitKeyPartConfig;
  ResponseStatusCode : Z;
  ResponseBody : string;
  RateFingerprint : string }.

Record publicRateLimitKeyRuntime := mkKey {
  fixedWindowStart : Z;
  fixedCount : Z;
  slidingHits : list Z;
  tokens : float64;
  tokenLastRefill : Z;
  tokenInitialized : bool;
  leakyLevel : float64;
  leakyLastDrain : Z;
  leakyInitialized : bool;
  lastSeenAt : Z }.

Record publicRateLimitRuleRuntime := mkRuleRuntime {
  fingerprint : string;
  keys : gmap string publicRateLimitKeyRuntime }.

Record publicRateLimiter := mkLimiter {
  rules : gmap Z publicRateLimitRuleRuntime;
  lastPrune : Z }.

Record publicRateLimitAllowResult := mkResult { allowed : bool; remaining : Z; retryAfter : Z }.

Definition newPublicRateLimiter : publicRateLimiter := mkLimiter ∅ 0.
Definition newKey : publicRateLimitKeyRuntime :=
  mkKey 0 0 [] (float_of_int 0) 0 false (float_of_int 0) 0 false 0.

(** ** Algorithms *)

Definition effectiveRateLimitBurst (rule : publicRateLimitRuleConfig) : Z :=
  if 0 <? rule.(Burst) then rule.(Burst) else rule.(Limit).

Definition millisDuration (ms : Z) : Z := i64 ((if ms <? 1 then 1 else ms) * millisecond).

Definition allowFixedWindow (s : publicRateLimitKeyRuntime) (rule : publicRateLimitRuleConfig) (nowMs : Z)
    : publicRateLimitKeyRuntime * publicRateLimitAllowResult :=
  let window := rule.(WindowMillis) in
  let windowStart := Z.quot nowMs window * window in
  let count := if s.(fixedWindowStart) =? windowStart then s.(fixedCount) else 0 in
  let set count := mkKey windowStart count s.(slidingHits) s.(tokens) s.(tokenLastRefill)
    s.(tokenInitialized) s.(leakyLevel) s.(leakyLastDrain) s.(leakyInitialized) s.(lastSeenAt) in
  let retry := millisDuration (windowStart + window - nowMs) in
  if rule.(Limit) <=? count then (set count, mkResult false 0 retry)
  else (set (count + 1), mkResult true (Z.max 0 (rule.(Limit) - (count + 1))) retry).

(** The hits after the cutoff, found from the front. *)
Fixpoint dropHits (cutoff : Z) (hits : list Z) : list Z :=
  match hits with
  | [] => []
  | h :: hits' => if h <=? cutoff then dropHits cutoff hits' else hits
  end.

Definition allowSlidingWindow (s : publicRateLimitKeyRuntime) (rule : publicRateLimitRuleConfig) (nowMs : Z)
    : publicRateLimitKeyRuntime * publicRateLimitAllowResult :=
  let hits := dropHits (nowMs - rule.(WindowMillis)) s.(slidingHits) in
  let set hits := mkKey s.(fixedWindowStart) s.(fixedCount) hits s.(tokens) s.(tokenLastRefill)
    s.(tokenInitialized) s.(leakyLevel) s.(leakyLastDrain) s.(leakyInitialized) s.(lastSeenAt) in
  if rule.(Limit) <=? Z.of_nat (length hits) then
    (set hits, mkResult false 0 (millisDuration (hd 0 hits + rule.(WindowMillis) - nowMs)))
  else
    (set (hits ++ [nowMs]),
     mkResult true (Z.max 0 (rule.(Limit) - Z.of_nat (length (hits ++ [nowMs]))))
       (millisDuration rule.(WindowMillis))).

(** [float64(elapsed) * float64(rule.Limit) / float64(rule.WindowMillis)] *)
Definition drained (rule : publicRateLimitRuleConfig) (elapsed : Z) : float64 :=
  fdiv (fmul (float_of_int elapsed) (float_of_int rule.(Limit))) (float_of_int rule.(WindowMillis)).

(** [int64(math.Ceil(x * float64(rule.WindowMillis) / float64(rule.Limit)))] *)
Definition waitFor (rule : publicRateLimitRuleConfig) (x : float64) : Z :=
  ceilInt (fdiv (fmul x (float_of_int rule.(WindowMillis))) (float_of_int rule.(Limit))).

Definition allowTokenBucket (s : publicRateLimitKeyRuntime) (rule : publicRateLimitRuleConfig) (nowMs : Z)
    : publicRateLimitKeyRuntime * publicRateLimitAllowResult :=
  let capacity := effectiveRateLimitBurst rule in
  let '(tok, last) :=
    if s.(tokenInitialized) then (s.(tokens), s.(tokenLastRefill)) else (float_of_int capacity, nowMs) in
  let elapsed := Z.max 0 (nowMs - last) in
  let '(tok, last) :=
    if 0 <? elapsed then (fmin (float_of_int capacity) (fadd tok (drained rule elapsed)), nowMs)
    else (tok, last) in
  let set tok := mkKey s.(fixedWindowStart) s.(fixedCount) s.(slidingHits) tok last true
    s.(leakyLevel) s.(leakyLastDrain) s.(leakyInitialized) s.(lastSeenAt) in
  if flt tok (float_of_int 1) then
    (set tok, mkResult false 0 (millisDuration (waitFor rule (fsub (float_of_int 1) tok))))
  else
    let tok := fsub tok (float_of_int 1) in
    (set tok, mkResult true (floorInt tok) (millisDuration rule.(WindowMillis))).

Definition allowLeakyBucket (s : publicRateLimitKeyRuntime) (rule : publicRateLimitRuleConfig) (nowMs : Z)
    : publicRateLimitKeyRuntime * publicRateLimitAllowResult :=
  let capacity := effectiveRateLimitBurst rule in
  let last := if s.(leakyInitialized) then s.(leakyLastDrain) else nowMs in
  let elapsed := Z.max 0 (nowMs - last) in
  let '(level, last) :=
    if 0 <? elapsed then (fmax (float_of_int 0) (fsub s.(leakyLevel) (drained rule elapsed)), nowMs)
    else (s.(leakyLevel), last) in
  let set level := mkKey s.(fixedWindowStart) s.(fixedCount) s.(slidingHits) s.(tokens) s.(tokenLastRefill)
    s.(tokenInitialized) level last true s.(lastSeenAt) in
  if fgt (fadd level (float_of_int 1)) (float_of_int capacity) then
    (set level,
     mkResult false 0 (millisDuration
       (waitFor rule (fsub (fadd level (float_of_int 1)) (float_of_int capacity)))))
  else
    let level := fadd level (float_of_int 1) in
    (set level, mkResult true (Z.max 0 (capacity - ceilInt level)) (millisDuration rule.(WindowMillis))).

Definition allow (s : publicRateLimitKeyRuntime) (rule : publicRateLimitRuleConfig) (now : Z)
    : publicRateLimitKeyRuntime * publicRateLimitAllowResult :=
  let nowMs := UnixMilli now in
  if String.eqb rule.(Algorithm) publicRateLimitAlgorithmSlidingWindow then allowSlidingWindow s rule nowMs
  else if String.eqb rule.(Algorithm) publicRateLimitAlgorithmTokenBucket then allowTokenBucket s rule nowMs
  else if String.eqb rule.(Algorithm) publicRateLimitAlgorithmLeakyBucket then allowLeakyBucket s rule nowMs
  else allowFixedWindow s rule nowMs.

(** ** Keys of a request *)

(** The host of RemoteAddr, or all of it. *)
Definition remoteHost (r : httpRequest) : string :=
  match SplitHostPort r.(RemoteAddr) with
  | Some (host, _) =>
      if negb (String.eqb host "") then host
      else if negb (String.eqb r.(RemoteAddr) "") then r.(RemoteAddr) else rateLimitMissingValue
  | None => if negb (String.eqb r.(RemoteAddr) "") then r.(RemoteAddr) else rateLimitMissingValue
  end.

Definition remoteIPForRateLimit (r : httpRequest) : string :=
  match ClientIdentityFromContext r with
  | Some _ =>
      match ClientIdentityResolved r with
      | Some addr => addrString addr
      | None => rateLimitMissingValue
      end
  | None => remoteHost r
  end.

Definition peerIPForRequest (r : httpRequest) : string :=
  match ClientIdentityPeer r with
  | Some addr => addrString addr
  | None => remoteHost r
  end.

(** [Header.Get] and [Values.Get]: the first value. *)
Definition headerGet (h : gmap string (list string)) (name : string) : string := hd "" (Values h name).
Definition queryGet (q : gmap string (list string)) (name : string) : string := hd "" (default [] (q !! name)).

Definition keyValue (part : publicRateLimitKeyPartConfig) (listener : publicListenerConfig)
    (r : httpRequest) : string :=
  let s := part.(Source) in
  if String.eqb s publicRateLimitKeySourceRemoteIP then remoteIPForRateLimit r
  else if String.eqb s publicRateLimitKeySourceHost then normalizeRequestHost r.(Host)
  else if String.eqb s publicRateLimitKeySourceMethod then ToUpper r.(Method)
  else if String.eqb s publicRateLimitKeySourcePath then r.(URLPath)
  else if String.eqb s publicRateLimitKeySourceProtocol then listener.(Protocol)
  else if String.eqb s publicRateLimitKeySourceHeader then headerGet r.(Header) part.(PartName)
  else if String.eqb s publicRateLimitKeySourceCookie then
    match cookieOf r part.(PartName) with Some v => v | None => rateLimitMissingValue end
  else if String.eqb s publicRateLimitKeySourceQueryParam then queryGet r.(Query) part.(PartName)
  else rateLimitMissingValue.

Definition keyValues (rule : publicRateLimitRuleConfig) (listener : publicListenerConfig)
    (r : httpRequest) : list string :=
  let parts := match rule.(KeyParts) with
    | [] => [mkKeyPart publicRateLimitKeySourceRemoteIP ""] | parts => parts end in
  concat (map (λ part,
    let value := keyValue part listener r in
    let value := if String.eqb value "" then rateLimitMissingValue else value in
    let value := if (maxRateLimitKeyValueBytes <? String.length value)%nat
                 then String.substring 0 maxRateLimitKeyValueBytes value else value in
    [(part.(Source) ++ ":" ++ ToLower part.(PartName))%string; value]) parts).

(** Each value is followed by a zero byte. *)
Fixpoint hashInput (values : list string) : string :=
  match values with
  | [] => ""
  | v :: values => (v ++ String "000" (hashInput values))%string
  end.

(** ** The limiter *)

(** The scan for the key seen longest ago; "" is no key.  The limiters of captchas and
    reserved endpoints have the same loop over their own buckets. *)
Definition older {A} (seen : A → Z) (m : gmap string A) (best : string * Z) (key : string) : string * Z :=
  match m !! key with
  | Some st => if String.eqb best.1 "" || before (seen st) best.2 then (key, seen st) else best
  | None => best
  end.

Definition oldestKey {A} (seen : A → Z) (m : gmap string A) (order : list string) : string :=
  (fold_left (older seen m) order ("", 0)).1.

Definition evictOldest {A} (seen : A → Z) (m : gmap string A) (order : list string) : gmap string A :=
  let oldest := oldestKey seen m order in
  if String.eqb oldest "" then m else delete oldest m.

Definition evictOldestRateLimitKey (m : gmap string publicRateLimitKeyRuntime) (order : list string)
    : gmap string publicRateLimitKeyRuntime := evictOldest lastSeenAt m order.

Definition idleKey (now : Z) (st : publicRateLimitKeyRuntime) : bool :=
  is_zero_time st.(lastSeenAt) || (rateLimitIdleStateTTL <? time_sub now st.(lastSeenAt)).

Definition pruneLocked (l : publicRateLimiter) (now : Z) : publicRateLimiter :=
  if negb (is_zero_time l.(lastPrune)) && (time_sub now l.(lastPrune) <? rateLimitPruneInterval) then l
  else mkLimiter
    ((λ rt, mkRuleRuntime rt.(fingerprint) (filter (λ kv, idleKey now kv.2 = false) rt.(keys))) <$> l.(rules))
    now.

(** [keep[rule.ID] = rule.Fingerprint] for the enabled rules, in order. *)
Definition keepOf (config : list publicRateLimitRuleConfig) : gmap Z string :=
  fold_left (λ m rule, if rule.(RateEnabled) then <[rule.(ID) := rule.(RateFingerprint)]> m else m) config ∅.

(** A nil snapshot has no rules. *)
Definition reconcile (l : publicRateLimiter) (config : list publicRateLimitRuleConfig) : publicRateLimiter :=
  let keep := keepOf config in
  mkLimiter
    (map_imap (λ id fp,
       Some (match l.(rules) !! id with
             | Some rt => if String.eqb rt.(fingerprint) fp then rt else mkRuleRuntime fp ∅
             | None => mkRuleRuntime fp ∅
             end)) keep)
    l.(lastPrune).

Inductive rateDecision :=
  | RateAllowed
  | RateMatchError (rule : publicRateLimitRuleConfig)
  | RateLimited (rule : publicRateLimitRuleConfig) (result : publicRateLimitAllowResult).

Section evaluate.
Context (hash : string → string).
Context (order : gmap string publicRateLimitKeyRuntime → list string).

Definition rateLimitKeyHash (values : list string) : string := hash (hashInput values).

(** The rules that match, with the key of the request; the first evaluation error
    stops the loop. *)
Fixpoint candidatesOf (config : list publicRateLimitRuleConfig) (listener : publicListenerConfig)
    (r : httpRequest) : publicRateLimitRuleConfig + list (publicRateLimitRuleConfig * string) :=
  match config with
  | [] => inr []
  | rule :: config =>
      if negb rule.(RateEnabled) then candidatesOf config listener r
      else match rule.(RateMatch) listener r with
           | None => inl rule
           | Some false => candidatesOf config listener r
           | Some true =>
               match candidatesOf config listener r with
               | inl e => inl e
               | inr l => inr ((rule, rateLimitKeyHash (keyValues rule listener r)) :: l)
               end
           end
  end.

(** One candidate: find or create the state of its key and ask the algorithm. *)
Definition evaluateKey (l : publicRateLimiter) (rule : publicRateLimitRuleConfig) (key : string) (now : Z)
    : publicRateLimiter * publicRateLimitAllowResult :=
  let runtime :=
    match l.(rules) !! rule.(ID) with
    | Some rt => if String.eqb rt.(fingerprint) rule.(RateFingerprint) then rt
                 else mkRuleRuntime rule.(RateFingerprint) ∅
    | None => mkRuleRuntime rule.(RateFingerprint) ∅
    end in
  let '(m, st) :=
    match runtime.(keys) !! key with
    | Some st => (runtime.(keys), st)
    | None =>
        let m := if (maxRateLimitKeysPerRule <=? size runtime.(keys))%nat
                 then evictOldestRateLimitKey runtime.(keys) (order runtime.(keys)) else runtime.(keys) in
        (m, newKey)
    end in
  let st := mkKey st.(fixedWindowStart) st.(fixedCount) st.(slidingHits) st.(tokens) st.(tokenLastRefill)
    st.(tokenInitialized) st.(leakyLevel) st.(leakyLastDrain) st.(leakyInitialized) now in
  let '(st, result) := allow st rule now in
  (mkLimiter (<[rule.(ID) := mkRuleRuntime runtime.(fingerprint) (<[key := st]> m)]> l.(rules)) l.(lastPrune),
   result).

Fixpoint evaluateCandidates (l : publicRateLimiter) (candidates : list (publicRateLimitRuleConfig * string))
    (now : Z) : publicRateLimiter * rateDecision :=
  match candidates with
  | [] => (l, RateAllowed)
  | (rule, key) :: candidates =>
      let '(l, result) := evaluateKey l rule key now in
      if result.(allowed) then evaluateCandidates l candidates now else (l, RateLimited rule result)
  end.

Definition evaluate (l : publicRateLimiter) (config : list publicRateLimitRuleConfig)
    (listener : publicListenerConfig) (r : httpRequest) (now : Z) : publicRateLimiter * rateDecision :=
  match candidatesOf config listener r with
  | inl rule => (l, RateMatchError rule)
  | inr [] => (l, RateAllowed)
  | inr candidates => evaluateCandidates (pruneLocked l now) candidates now
  end.
End evaluate.

(** ** Validation of a rule *)

Inductive validationError :=
  | ErrName | ErrAlgorithm | ErrLimit | ErrWindow | ErrBurst | ErrTooManyKeyParts | ErrKeySource
  | ErrHeaderRequired | ErrHeaderInvalid | ErrNameRequired | ErrForwardingHeader | ErrMatch
  | ErrStatus | ErrBody | ErrTooManyHeaders | ErrResponseHeader (name : string).

(** The values of the protocol enumerations; any other number is invalid. *)
Inductive protoKeySource :=
  | KEY_UNSPECIFIED | KEY_REMOTE_IP | KEY_HOST | KEY_METHOD | KEY_PATH | KEY_PROTOCOL
  | KEY_HEADER | KEY_COOKIE | KEY_QUERY_PARAM | KEY_INVALID.
Inductive protoAlgorithm :=
  | ALG_UNSPECIFIED | ALG_FIXED_WINDOW | ALG_SLIDING_WINDOW | ALG_TOKEN_BUCKET | ALG_LEAKY_BUCKET
  | ALG_INVALID.

Definition rateLimitAlgorithmStringFromProto (a : protoAlgorithm) : validationError + string :=
  match a with
  | ALG_UNSPECIFIED | ALG_FIXED_WINDOW => inr publicRateLimitAlgorithmFixedWindow
  | ALG_SLIDING_WINDOW => inr publicRateLimitAlgorithmSlidingWindow
  | ALG_TOKEN_BUCKET => inr publicRateLimitAlgorithmTokenBucket
  | ALG_LEAKY_BUCKET => inr publicRateLimitAlgorithmLeakyBucket
  | ALG_INVALID => inl ErrAlgorithm
  end.

Definition normalizePublicRateLimitAlgorithm (a : string) : string :=
  if String.eqb a publicRateLimitAlgorithmSlidingWindow || String.eqb a publicRateLimitAlgorithmTokenBucket
     || String.eqb a publicRateLimitAlgorithmLeakyBucket then a
  else publicRateLimitAlgorithmFixedWindow.

Definition protoRateLimitAlgorithmFromString (a : string) : protoAlgorithm :=
  let a := normalizePublicRateLimitAlgorithm a in
  if String.eqb a publicRateLimitAlgorithmSlidingWindow then ALG_SLIDING_WINDOW
  else if String.eqb a publicRateLimitAlgorithmTokenBucket then ALG_TOKEN_BUCKET
  else if String.eqb a publicRateLimitAlgorithmLeakyBucket then ALG_LEAKY_BUCKET
  else ALG_FIXED_WINDOW.

Definition rateLimitKeySourceStringFromProto (k : protoKeySource) : validationError + string :=
  match k with
  | KEY_UNSPECIFIED | KEY_REMOTE_IP => inr publicRateLimitKeySourceRemoteIP
  | KEY_HOST => inr publicRateLimitKeySourceHost
  | KEY_METHOD => inr publicRateLimitKeySourceMethod
  | KEY_PATH => inr publicRateLimitKeySourcePath
  | KEY_PROTOCOL => inr publicRateLimitKeySourceProtocol
  | KEY_HEADER => inr publicRateLimitKeySourceHeader
  | KEY_COOKIE => inr publicRateLimitKeySourceCookie
  | KEY_QUERY_PARAM => inr publicRateLimitKeySourceQueryParam
  | KEY_INVALID => inl ErrKeySource
  end.

Definition validStoredRateLimitKeySource (s : string) : bool :=
  existsb (String.eqb s)
    [publicRateLimitKeySourceRemoteIP; publicRateLimitKeySourceHost; publicRateLimitKeySourceMethod;
     publicRateLimitKeySourcePath; publicRateLimitKeySourceProtocol; publicRateLimitKeySourceHeader;
     publicRateLimitKeySourceCookie; publicRateLimitKeySourceQueryParam].

Definition validHTTPToken (value : string) : bool := negb (String.eqb value "") && allBytes tokenChar value.

(** [textproto.CanonicalMIMEHeaderKey]: a name with a byte that is no token byte is
    returned unchanged. *)
Definition canonicalHeaderKey (name : string) : string :=
  if allBytes tokenChar name then CanonicalMIMEHeaderKey name else name.

(** The common part of both loops: the name of one part. *)
Definition normalizeKeyPart (source name : string) : validationError + publicRateLimitKeyPartConfig :=
  if String.eqb source publicRateLimitKeySourceHeader then
    if String.eqb name "" then inl ErrHeaderRequired
    else
      let name := canonicalHeaderKey name in
      if negb (validHTTPToken name) then inl ErrHeaderInvalid else inr (mkKeyPart source name)
  else if String.eqb source publicRateLimitKeySourceCookie
          || String.eqb source publicRateLimitKeySourceQueryParam then
    if String.eqb name "" then inl ErrNameRequired else inr (mkKeyPart source name)
  else inr (mkKeyPart source "").

Definition remoteIPPart : publicRateLimitKeyPartConfig := mkKeyPart publicRateLimitKeySourceRemoteIP "".

(** Nil parts are skipped. *)
Fixpoint keyPartsLoop (parts : list (option (protoKeySource * string)))
    : validationError + list publicRateLimitKeyPartConfig :=
  match parts with
  | [] => inr []
  | None :: parts => keyPartsLoop parts
  | Some (k, name) :: parts =>
      match rateLimitKeySourceStringFromProto k with
      | inl e => inl e
      | inr source =>
          match normalizeKeyPart source (TrimSpace name) with
          | inl e => inl e
          | inr part => match keyPartsLoop parts with inl e => inl e | inr l => inr (part :: l) end
          end
      end
  end.

Definition validateRateLimitKeyParts (parts : list (option (protoKeySource * string)))
    : validationError + list publicRateLimitKeyPartConfig :=
  if (length parts =? 0)%nat then inr [remoteIPPart]
  else if (maxRateLimitKeyParts <? length parts)%nat then inl ErrTooManyKeyParts
  else match keyPartsLoop parts with
       | inl e => inl e
       | inr [] => inr [remoteIPPart]
       | inr l => inr l
       end.

Fixpoint storedKeyPartsLoop (parts : list publicRateLimitKeyPartConfig)
    : validationError + list publicRateLimitKeyPartConfig :=
  match parts with
  | [] => inr []
  | p :: parts =>
      let source := TrimSpace p.(Source) in
      let name := TrimSpace p.(PartName) in
      if negb (validStoredRateLimitKeySource source) then inl ErrKeySource
      else match normalizeKeyPart source name with
           | inl e => inl e
           | inr part => match storedKeyPartsLoop parts with inl e => inl e | inr l => inr (part :: l) end
           end
  end.

Definition validateStoredRateLimitKeyParts (parts : list publicRateLimitKeyPartConfig)
    : validationError + list publicRateLimitKeyPartConfig :=
  if (length parts =? 0)%nat then inr [remoteIPPart]
  else if (maxRateLimitKeyParts <? length parts)%nat then inl ErrTooManyKeyParts
  else match storedKeyPartsLoop parts with
       | inl e => inl e
       | inr [] => inr [remoteIPPart]
       | inr l => inr l
       end.

Definition unsafeForwardingKeyPartHeader (name : string) : bool :=
  existsb (String.eqb (ToLower (canonicalHeaderKey (TrimSpace name))))
    ["forwarded"; "x-forwarded-for"; "x-forwarded-host"; "x-forwarded-proto"; "x-forwarded-port"; "x-real-ip";
     "client-ip"; "true-client-ip"; "cf-connecting-ip"; "fastly-client-ip"; "x-client-ip"; "x-cluster-client-ip"].

Definition validateRateLimitClientIdentityKeyPartConfig (parts : list publicRateLimitKeyPartConfig)
    : validationError + list publicRateLimitKeyPartConfig :=
  if existsb (λ p, String.eqb p.(Source) publicRateLimitKeySourceHeader
                   && unsafeForwardingKeyPartHeader p.(PartName)) parts
  then inl ErrForwardingHeader else inr parts.

Definition validateRateLimitClientIdentityKeyParts (parts : list (option (protoKeySource * string)))
    : validationError + list publicRateLimitKeyPartConfig :=
  match validateRateLimitKeyParts parts with
  | inl e => inl e
  | inr config => validateRateLimitClientIdentityKeyPartConfig config
  end.

Definition validateStoredRateLimitClientIdentityKeyParts (parts : list publicRateLimitKeyPartConfig)
    : validationError + list publicRateLimitKeyPartConfig :=
  match validateStoredRateLimitKeyParts parts with
  | inl e => inl e
  | inr config => validateRateLimitClientIdentityKeyPartConfig config
  end.

Definition protectedRateLimitResponseHeader (name : string) : bool :=
  existsb (String.eqb (ToLower name))
    ["connection"; "transfer-encoding"; "content-length"; "retry-after"; "ratelimit-limit";
     "ratelimit-remaining"; "ratelimit-reset"; "x-ratelimit-limit"; "x-ratelimit-remaining"; "x-ratelimit-reset"].

(** Nil headers and empty names are skipped. *)
Fixpoint responseHeadersLoop (headers : list (option (string * string)))
    : validationError + list (string * string) :=
  match headers with
  | [] => inr []
  | None :: headers => responseHeadersLoop headers
  | Some (n, v) :: headers =>
      let name := canonicalHeaderKey (TrimSpace n) in
      if String.eqb name "" then responseHeadersLoop headers
      else if negb (validHTTPToken name) || protectedRateLimitResponseHeader name then inl (ErrResponseHeader name)
      else match responseHeadersLoop headers with inl e => inl e | inr l => inr ((name, v) :: l) end
  end.

Definition validateRateLimitResponseHeaders (headers : list (option (string * string)))
    : validationError + list (string * string) :=
  if (maxRateLimitResponseHeaders <? length headers)%nat then inl ErrTooManyHeaders
  else responseHeadersLoop headers.

(** ** Eviction *)

Section evict.
Context {A : Type} (seen : A → Z).

Lemma oldestKey_in (m : gmap string A) (l : list string) : ∀ best : string * Z,
  (∀ k, k ∈ l → is_Some (m !! k)) → m !! "" = None → (best.1 = "" ∨ is_Some (m !! best.1)) →
  let found := (fold_left (older seen m) l best).1 in
  (found = "" → l = [] ∧ best.1 = "") ∧ (found ≠ "" → is_Some (m !! found)).
Proof.
  induction l as [|k l IH]; intros best Hl He Hb; simpl.
  { split; [done|]. intros Hne. by destruct Hb. }
  destruct (Hl k ltac:(left)) as [st Hk]. 
  assert (older seen m best k = if String.eqb best.1 "" || before (seen st) best.2 then (k, seen st) else best) as ->
    by (unfold older; by rewrite Hk).
  assert (Hkne : k ≠ "") by (intros ->; congruence).
  assert (Hl' : ∀ x, x ∈ l → is_Some (m !! x)) by (intros; apply Hl; by right).
  assert (Hnew : ∀ t, let found := (fold_left (older seen m) l (k, t)).1 in
    (found = "" → k :: l = [] ∧ best.1 = "") ∧ (found ≠ "" → is_Some (m !! found))).
  { intros t. destruct (IH (k, t) Hl' He) as [H1 H2]; [right; by eexists|]. split; [|done].
    intros H0. by destruct (H1 H0). }
  destruct (String.eqb_spec best.1 "") as [E|Hne]; simpl; [apply Hnew|].
  destruct (before (seen st) best.2); [apply Hnew|].
  destruct (IH best Hl' He Hb) as [H1 H2]. split; [|done]. intros H0. by destruct (H1 H0).
Qed.

(** Evicting from a map without the empty key removes exactly one entry. *)
Lemma evictOldest_spec (m : gmap string A) order :
  (∀ k, k ∈ order ↔ is_Some (m !! k)) → m !! "" = None → m ≠ ∅ →
  ∃ k st, m !! k = Some st ∧ evictOldest seen m order = delete k m.
Proof.
  intros Ho He Hm. unfold evictOldest. cbv zeta.
  destruct (oldestKey_in m order ("", 0)) as [H1 H2]; [intros k; apply Ho|done|by left|].
  fold (oldestKey seen m order) in H1, H2. destruct (String.eqb_spec (oldestKey seen m order) "") as [E|Hne].
  - destruct (H1 E) as [Hnil _]. exfalso. apply Hm. apply map_empty. intros k.
    destruct (m !! k) as [st|] eqn:Ek; [|done]. exfalso.
    apply (not_elem_of_nil k). rewrite <- Hnil. apply Ho. eauto.
  - destruct (H2 Hne) as [st Hk]. eauto.
Qed.
End evict.

End RateLimiter.
