(* ===== verification/RateLimiterProps.v ===== *)
(** Theorems on the rate limiter of RateLimiter.v.

    Each window algorithm is compared with a reference that keeps the whole history of
    granted requests; the bounds on grants follow.  Pruning idle keys is harmless for
    windows up to the idle time and forgets grants of longer ones.  The table of a rule
    stays within its bound, and validated keys are stable under validation. *)

From S2P Require Import Prelude.
From S2P Require Import GoStrings.
From S2P Require Import GoFloat.
From S2P Require Import NetIP.
From S2P Require Import ClientIdentity.
From S2P Require Import WafCookies.
From S2P Require Import RateLimiter.
From Stdlib Require Import Ascii Sorted.

Module RateLimiterProps.
Import ClientIdentity.
Import WafCookies.
Import RateLimiter.

(** ** Sliding window: equivalence with a count over the whole history *)

Section sliding.
Context (rule : publicRateLimitRuleConfig).

(** The code on a sequence of request times. *)
Fixpoint runSliding (s : publicRateLimitKeyRuntime) (times : list Z) : list bool :=
  match times with
  | [] => []
  | t :: times =>
      let '(s, res) := allowSlidingWindow s rule t in res.(allowed) :: runSliding s times
  end.

(** The hits of a history inside the window that ends at [t]. *)
Definition inWindow (t : Z) (hist : list Z) : list Z := filter (λ h, t - rule.(WindowMillis) < h) hist.

(** The reference: keep every granted time, grant when fewer than the limit are in the
    window. *)
Definition slidingRef (hist : list Z) (t : Z) : bool := Z.of_nat (length (inWindow t hist)) <? rule.(Limit).
Fixpoint refSliding (hist : list Z) (times : list Z) : list bool :=
  match times with
  | [] => []
  | t :: times =>
      let ok := slidingRef hist t in ok :: refSliding (if ok then hist ++ [t] else hist) times
  end.

(** All granted times of a run of the reference. *)
Fixpoint granted (hist : list Z) (times : list Z) : list Z :=
  match times with
  | [] => hist
  | t :: times => granted (if slidingRef hist t then hist ++ [t] else hist) times
  end.

Lemma dropHits_filter c hits : StronglySorted Z.le hits → dropHits c hits = filter (λ h, c < h) hits.
Proof.
  induction 1 as [|h hits Hs IH Hf]; [done|]. simpl. destruct (Z.leb_spec h c).
  - by rewrite filter_cons_False by lia.
  - rewrite filter_cons_True by lia. f_equal. rewrite list.Forall_forall in Hf. clear IH Hs.
    induction hits as [|x hits IH]; [done|]. rewrite filter_cons_True.
    + f_equal. apply IH. intros y Hy. apply Hf. by right.
    + pose proof (Hf x ltac:(left)). lia.
Qed.

Lemma filter_sorted (P : Z → Prop) `{∀ x, Decision (P x)} l : StronglySorted Z.le l → StronglySorted Z.le (filter P l).
Proof.
  induction 1 as [|h l Hs IH Hf]; [constructor|]. destruct (decide (P h)).
  - rewrite filter_cons_True by done. constructor; [done|]. rewrite list.Forall_forall in Hf |- *.
    intros x Hx. apply list_elem_of_filter in Hx as [_ Hx]. auto.
  - by rewrite filter_cons_False by done.
Qed.

(** Hits older than an earlier cutoff do not matter later. *)
Lemma window_narrow t t' hist : t ≤ t' → inWindow t' (inWindow t hist) = inWindow t' hist.
Proof.
  intros Ht. unfold inWindow. rewrite list_filter_filter. apply list_filter_iff. intros x. lia.
Qed.

Lemma sliding_equiv times : 0 < rule.(WindowMillis) → ∀ s hist last,
  StronglySorted Z.le hist → Forall (λ h, h ≤ last) hist → StronglySorted Z.le (last :: times) →
  s.(slidingHits) = inWindow last hist →
  runSliding s times = refSliding hist times.
Proof.
  intros Hw. induction times as [|t times IH]; intros s hist last Hh Hl Ht Hs; [done|].
  apply StronglySorted_inv in Ht as [Ht Hf]. apply Forall_cons in Hf as [Hlt Hf].
  simpl. unfold allowSlidingWindow. cbv zeta.
  assert (Hd : dropHits (t - rule.(WindowMillis)) s.(slidingHits) = inWindow t hist).
  { rewrite dropHits_filter, Hs by (rewrite Hs; by apply filter_sorted). by apply window_narrow. }
  rewrite Hd. unfold slidingRef. rewrite Z.leb_antisym.
  assert (Hl' : Forall (λ h, h ≤ t) hist) by (eapply Forall_impl; [done|]; simpl; lia).
  destruct (Z.ltb_spec (Z.of_nat (length (inWindow t hist))) rule.(Limit)); simpl; f_equal.
  - apply (IH _ _ t); [by apply sorted_snoc|apply Forall_app_2; [done|by apply Forall_singleton]|done|].
    simpl. unfold inWindow at 2. rewrite filter_app. fold (inWindow t hist). f_equal.
    destruct (decide (t - rule.(WindowMillis) < t)).
    + by rewrite filter_cons_True.
    + lia.
  - by apply (IH _ _ t).
Qed.

Lemma sliding_equiv_new times : 0 < rule.(WindowMillis) → StronglySorted Z.le times →
  runSliding newKey times = refSliding [] times.
Proof.
  intros Hw Ht. destruct times as [|t times]; [done|].
  apply (sliding_equiv (t :: times) Hw newKey [] t); [constructor|constructor| |done].
  constructor; [done|]. apply StronglySorted_inv in Ht as [_ Hf]. by constructor; [lia|].
Qed.

(** Every grant of a history found fewer than the limit before it in its window. *)
Definition spaced (hist : list Z) : Prop :=
  ∀ p x q, hist = p ++ x :: q → Z.of_nat (length (inWindow x p)) < rule.(Limit).

Lemma spaced_snoc hist t : spaced hist → slidingRef hist t = true → spaced (hist ++ [t]).
Proof.
  intros Hs Ht p x q E. destruct q as [|y q _] using rev_ind.
  - apply app_inj_tail in E as [-> ->]. unfold slidingRef in Ht. by bprop.
  - rewrite app_comm_cons, app_assoc in E. apply app_inj_tail in E as [-> _]. by eapply Hs.
Qed.

Lemma granted_spaced times : ∀ hist, spaced hist → spaced (granted hist times).
Proof.
  induction times as [|t times IH]; intros hist Hs; simpl; [done|]. apply IH.
  destruct (slidingRef hist t) eqn:E; [by apply spaced_snoc|done].
Qed.

Lemma filter_length_le {A} (P Q : A → Prop) `{∀ x, Decision (P x), ∀ x, Decision (Q x)} l :
  (∀ x, P x → Q x) → (length (filter P l) ≤ length (filter Q l))%nat.
Proof.
  intros HPQ. induction l as [|x l IH]; [done|]. destruct (decide (P x)) as [Hp|Hp].
  - rewrite !filter_cons_True by auto. simpl. lia.
  - rewrite filter_cons_False by done. destruct (decide (Q x)).
    + rewrite filter_cons_True by done. simpl. lia.
    + by rewrite filter_cons_False.
Qed.

Lemma spaced_bound hist t : 0 ≤ rule.(Limit) → spaced hist →
  Z.of_nat (length (filter (λ h, t - rule.(WindowMillis) < h ≤ t) hist)) ≤ rule.(Limit).
Proof.
  intros HL. induction hist as [|x hist IH] using rev_ind; intros Hs; [simpl; lia|].
  assert (Hs' : spaced hist).
  { intros p y q ->. apply (Hs p y (q ++ [x])). by rewrite <- app_assoc. }
  rewrite filter_app, length_app. destruct (decide (t - rule.(WindowMillis) < x ≤ t)) as [Hx|Hx].
  - rewrite filter_cons_True by done. simpl. pose proof (Hs hist x [] eq_refl) as Hl. unfold inWindow in Hl.
    pose proof (filter_length_le (λ h, t - rule.(WindowMillis) < h ≤ t) (λ h, x - rule.(WindowMillis) < h) hist
      ltac:(cbv beta; intros; lia)). lia.
  - rewrite filter_cons_False by done. simpl. specialize (IH Hs'). lia.
Qed.

(** The granted times are those the run grants. *)
Lemma granted_run hist times : granted hist times = hist ++ map fst (filter (λ p, p.2 = true) (zip times (refSliding hist times))).
Proof.
  revert hist. induction times as [|t times IH]; intros hist; simpl; [by rewrite app_nil_r|]. rewrite IH.
  destruct (slidingRef hist t) eqn:E.
  - rewrite filter_cons_True by done. simpl. by rewrite <- app_assoc.
  - by rewrite filter_cons_False by done.
Qed.
End sliding.

(** ** Fixed window *)

Section fixed.
Context (rule : publicRateLimitRuleConfig).

Fixpoint runFixed (s : publicRateLimitKeyRuntime) (times : list Z) : list bool :=
  match times with
  | [] => []
  | t :: times => let '(s, res) := allowFixedWindow s rule t in res.(allowed) :: runFixed s times
  end.

(** The aligned window of a time. *)
Definition windowOf (t : Z) : Z := Z.quot t rule.(WindowMillis) * rule.(WindowMillis).

Definition sameWindow (w : Z) (hist : list Z) : list Z := filter (λ h, windowOf h = w) hist.
Definition fixedRef (hist : list Z) (t : Z) : bool := Z.of_nat (length (sameWindow (windowOf t) hist)) <? rule.(Limit).
Fixpoint refFixed (hist : list Z) (times : list Z) : list bool :=
  match times with
  | [] => []
  | t :: times => let ok := fixedRef hist t in ok :: refFixed (if ok then hist ++ [t] else hist) times
  end.

Lemma windowOf_mono a b : 0 < rule.(WindowMillis) → 0 ≤ a ≤ b → windowOf a ≤ windowOf b.
Proof.
  intros Hw Hab. unfold windowOf. rewrite !Z.quot_div_nonneg by lia.
  apply Z.mul_le_mono_nonneg_r; [lia|]. apply Z.div_le_mono; lia.
Qed.

Lemma windowOf_bounds t : 0 < rule.(WindowMillis) → 0 ≤ t → windowOf t ≤ t < windowOf t + rule.(WindowMillis).
Proof.
  intros Hw Ht. unfold windowOf. rewrite Z.quot_div_nonneg by lia.
  pose proof (Z.div_mod t rule.(WindowMillis) ltac:(lia)). pose proof (Z.mod_pos_bound t rule.(WindowMillis) Hw). lia.
Qed.

Lemma sameWindow_none w hist : Forall (λ h, windowOf h < w) hist → sameWindow w hist = [].
Proof.
  unfold sameWindow. induction 1 as [|h hist Hh _ IH]; [done|]. by rewrite filter_cons_False by lia.
Qed.

Lemma fixed_equiv times : 0 < rule.(WindowMillis) → ∀ s hist last,
  0 ≤ last → StronglySorted Z.le (last :: times) → Forall (λ h, windowOf h ≤ s.(fixedWindowStart)) hist →
  s.(fixedWindowStart) ≤ windowOf last →
  s.(fixedCount) = Z.of_nat (length (sameWindow s.(fixedWindowStart) hist)) →
  runFixed s times = refFixed hist times.
Proof.
  intros Hw. induction times as [|t times IH]; intros s hist last Hlast Ht Hh Hs Hc; [done|].
  apply StronglySorted_inv in Ht as [Ht Hf]. apply Forall_cons in Hf as [Hlt _].
  pose proof (windowOf_mono last t Hw ltac:(lia)) as Hwm. simpl. unfold allowFixedWindow. cbv zeta.
  change (Z.quot t rule.(WindowMillis) * rule.(WindowMillis)) with (windowOf t).
  set (count := if _ =? _ then _ else _).
  assert (Ec : count = Z.of_nat (length (sameWindow (windowOf t) hist))).
  { unfold count. destruct (Z.eqb_spec s.(fixedWindowStart) (windowOf t)) as [<-|Hne]; [done|].
    rewrite sameWindow_none; [done|]. eapply Forall_impl; [exact Hh|]. simpl. lia. }
  assert (Hh' : Forall (λ h, windowOf h ≤ windowOf t) hist) by (eapply Forall_impl; [exact Hh|]; simpl; lia).
  unfold fixedRef. rewrite Z.leb_antisym, Ec.
  destruct (Z.ltb_spec (Z.of_nat (length (sameWindow (windowOf t) hist))) rule.(Limit)); simpl; f_equal.
  - apply (IH _ _ t); simpl; [lia|done|apply Forall_app_2; [done|apply Forall_singleton; lia]|lia|].
    unfold sameWindow. rewrite filter_app, length_app, filter_cons_True by done. simpl. unfold sameWindow. lia.
  - by apply (IH _ _ t); simpl; [lia| | |lia|].
Qed.

Fixpoint grantedFixed (hist : list Z) (times : list Z) : list Z :=
  match times with
  | [] => hist
  | t :: times => grantedFixed (if fixedRef hist t then hist ++ [t] else hist) times
  end.

Lemma grantedFixed_bound times : 0 ≤ rule.(Limit) → ∀ hist w,
  (∀ w, Z.of_nat (length (sameWindow w hist)) ≤ rule.(Limit)) →
  Z.of_nat (length (sameWindow w (grantedFixed hist times))) ≤ rule.(Limit).
Proof.
  intros HL. induction times as [|t times IH]; intros hist w Hh; simpl; [done|]. apply IH. intros w'.
  destruct (fixedRef hist t) eqn:E; [|done]. unfold fixedRef in E. bprop. unfold sameWindow in *.
  rewrite filter_app, length_app. destruct (decide (windowOf t = w')) as [<-|].
  - rewrite filter_cons_True by done. simpl. lia.
  - rewrite filter_cons_False by done. simpl. pose proof (Hh w'). lia.
Qed.

Lemma grantedFixed_run hist times :
  grantedFixed hist times = hist ++ map fst (filter (λ p, p.2 = true) (zip times (refFixed hist times))).
Proof.
  revert hist. induction times as [|t times IH]; intros hist; simpl; [by rewrite app_nil_r|]. rewrite IH.
  destruct (fixedRef hist t) eqn:E.
  - rewrite filter_cons_True by done. simpl. by rewrite <- app_assoc.
  - by rewrite filter_cons_False by done.
Qed.
End fixed.


(** ** Pruning *)

Lemma UnixMilli_far a b : b - a > rateLimitIdleStateTTL → UnixMilli a + 900000 ≤ UnixMilli b.
Proof.
  unfold UnixMilli, rateLimitIdleStateTTL, minute, second, millisecond. intros H.
  pose proof (Z.div_le_mono (a - unixEpoch + 900000 * 1000000) (b - unixEpoch) 1000000 ltac:(lia) ltac:(lia)) as Hd.
  rewrite Z.div_add in Hd by lia. exact Hd.
Qed.

Lemma idleKey_far now st : st.(lastSeenAt) ≠ 0 → idleKey now st = true → now - st.(lastSeenAt) > rateLimitIdleStateTTL.
Proof.
  unfold idleKey, is_zero_time. intros Hz. destruct (Z.eqb_spec st.(lastSeenAt) 0); [done|]. simpl.
  rewrite time_sub_gt by (unfold in_i64, rateLimitIdleStateTTL, min_int64, max_int64, minute, second; lia).
  intros H. bprop. lia.
Qed.

(** What a key remembers is not newer than its last request. *)
Definition keyWf (st : publicRateLimitKeyRuntime) : Prop :=
  st.(fixedWindowStart) ≤ UnixMilli st.(lastSeenAt) ∧
  Forall (λ h, h ≤ UnixMilli st.(lastSeenAt)) st.(slidingHits).

Lemma dropHits_all c hits : Forall (λ h, h ≤ c) hits → dropHits c hits = [].
Proof. induction 1 as [|h hits Hh _ IH]; simpl; [done|]. destruct (Z.leb_spec h c); [done|lia]. Qed.

Lemma sliding_forget st rule now : keyWf st → st.(lastSeenAt) ≠ 0 → idleKey now st = true →
  rule.(WindowMillis) ≤ 900000 →
  (allowSlidingWindow st rule (UnixMilli now)).2 = (allowSlidingWindow newKey rule (UnixMilli now)).2.
Proof.
  intros [_ Hh] Hz Hi Hw. apply idleKey_far in Hi; [|done]. apply UnixMilli_far in Hi.
  unfold allowSlidingWindow. cbv zeta. rewrite dropHits_all.
  - change (dropHits (UnixMilli now - rule.(WindowMillis)) newKey.(slidingHits)) with (@nil Z).
    cbn [length]. by destruct (rule.(Limit) <=? Z.of_nat 0).
  - eapply Forall_impl; [exact Hh|]. simpl. lia.
Qed.

Lemma fixed_forget st rule now : keyWf st → st.(lastSeenAt) ≠ 0 → idleKey now st = true → 0 ≤ UnixMilli now →
  0 < rule.(WindowMillis) ≤ 900000 →
  (allowFixedWindow st rule (UnixMilli now)).2 = (allowFixedWindow newKey rule (UnixMilli now)).2.
Proof.
  intros [Hs _] Hz Hi Hn Hw. apply idleKey_far in Hi; [|done]. apply UnixMilli_far in Hi.
  pose proof (windowOf_bounds rule (UnixMilli now) ltac:(lia) Hn) as Hb.
  unfold allowFixedWindow. cbv zeta.
  change (Z.quot (UnixMilli now) rule.(WindowMillis) * rule.(WindowMillis)) with (windowOf rule (UnixMilli now)).
  destruct (Z.eqb_spec st.(fixedWindowStart) (windowOf rule (UnixMilli now))); [lia|].
  assert ((if newKey.(fixedWindowStart) =? windowOf rule (UnixMilli now) then newKey.(fixedCount) else 0) = 0) as ->
    by (by destruct (newKey.(fixedWindowStart) =? windowOf rule (UnixMilli now))).
  by destruct (rule.(Limit) <=? 0).
Qed.

(** ** The table of a rule *)

Section table.
Context (hash : string → string) (order : gmap string publicRateLimitKeyRuntime → list string).
Hypothesis hash_nonempty : ∀ s, hash s ≠ "".
Hypothesis order_complete : ∀ m k, k ∈ order m ↔ is_Some (m !! k).

(** At most the allowed number of keys, none of them empty. *)
Definition runtimeWf (rt : publicRateLimitRuleRuntime) : Prop :=
  (size rt.(keys) ≤ maxRateLimitKeysPerRule)%nat ∧ rt.(keys) !! "" = None.
Definition limiterWf (l : publicRateLimiter) : Prop := map_Forall (λ _ rt, runtimeWf rt) l.(rules).

Lemma maxKeys_pos : (0 < maxRateLimitKeysPerRule)%nat.
Proof. apply Nat.ltb_lt. vm_compute. reflexivity. Qed.

#[local] Opaque maxRateLimitKeysPerRule.

Lemma evict_size (m : gmap string publicRateLimitKeyRuntime) : m !! "" = None → (0 < size m)%nat →
  let m' := evictOldestRateLimitKey m (order m) in (size m' < size m)%nat ∧ m' !! "" = None.
Proof using order_complete.
  intros He Hs. destruct (evictOldest_spec lastSeenAt m (order m) (order_complete m) He) as (k & st & Hk & E).
  { intros ->. rewrite map_size_empty in Hs. lia. }
  unfold evictOldestRateLimitKey. cbv zeta. rewrite E. split.
  - rewrite map_size_delete, Hk. simpl. lia.
  - by apply lookup_delete_None; right.
Qed.

Lemma evaluateKey_wf l rule key now : key ≠ "" → limiterWf l → limiterWf (evaluateKey order l rule key now).1.
Proof using order_complete.
  intros Hkey Hl. unfold evaluateKey. cbv zeta.
  set (rt := match l.(rules) !! rule.(ID) with Some _ => _ | None => _ end).
  assert (Hrt : runtimeWf rt).
  { assert (He : runtimeWf (mkRuleRuntime rule.(RateFingerprint) ∅)).
    { split; [apply Nat.le_0_l|apply lookup_empty]. }
    unfold rt. destruct (l.(rules) !! rule.(ID)) as [x|] eqn:E; [|done]. case_goal; [|done]. by apply (Hl rule.(ID)). }
  destruct Hrt as [Hsize Hempty].
  assert (Hm : ∀ m st, (match rt.(keys) !! key with
      | Some st => (rt.(keys), st)
      | None => (if (maxRateLimitKeysPerRule <=? size rt.(keys))%nat
                 then evictOldestRateLimitKey rt.(keys) (order rt.(keys)) else rt.(keys), newKey) end) = (m, st) →
    ∀ x, runtimeWf (mkRuleRuntime rt.(fingerprint) (<[key := x]> m))).
  { intros m st E x. unfold runtimeWf. simpl. rewrite lookup_insert_ne by done.
    rewrite map_size_insert. destruct (rt.(keys) !! key) as [st0|] eqn:Ek.
    - injection E as <- <-. rewrite Ek. simpl. done.
    - injection E as <- <-. destruct (Nat.leb_spec maxRateLimitKeysPerRule (size rt.(keys))).
      + destruct (evict_size rt.(keys) Hempty) as [Hlt Hn]; [by eapply Nat.lt_le_trans; [exact maxKeys_pos|]|].
        split; [|done]. cbv zeta in Hlt. case_match; unfold id; lia.
      + rewrite Ek. simpl. split; [lia|done]. }
  destruct (match rt.(keys) !! key with Some _ => _ | None => _ end) as [m st] eqn:E.
  specialize (Hm m st eq_refl). destruct (allow _ rule now) as [st' res]. simpl.
  intros id x Hx. cbn [rules] in Hx. apply lookup_insert_Some in Hx as [[_ <-]|[_ Hx]]; [apply Hm|by apply (Hl id)].
Qed.

Lemma evaluateCandidates_wf cs now : ∀ l, Forall (λ c, c.2 ≠ "") cs → limiterWf l →
  limiterWf (evaluateCandidates order l cs now).1.
Proof using order_complete.
  induction cs as [|[rule key] cs IH]; intros l Hc Hl; [done|]. apply Forall_cons in Hc as [Hk Hc]. simpl.
  pose proof (evaluateKey_wf l rule key now Hk Hl) as Hw. destruct (evaluateKey order l rule key now) as [l' res].
  destruct res.(allowed); [by apply IH|done].
Qed.

Lemma candidates_nonempty config listener r cs : candidatesOf hash config listener r = inr cs →
  Forall (λ c, c.2 ≠ "") cs.
Proof using hash_nonempty.
  revert cs. induction config as [|rule config IH]; intros cs H; simpl in H; [by injection H as <-|].
  destruct (negb rule.(RateEnabled)); [by apply IH|]. destruct (rule.(RateMatch) listener r) as [[]|]; [|by apply IH|done].
  destruct (candidatesOf hash config listener r) as [|l]; [done|]. injection H as <-. constructor; [|by apply IH].
  apply hash_nonempty.
Qed.

Lemma filter_runtimeWf now rt : runtimeWf rt →
  runtimeWf (mkRuleRuntime rt.(fingerprint) (filter (λ kv, idleKey now kv.2 = false) rt.(keys))).
Proof.
  intros [Hs He]. split; simpl.
  - pose proof (map_size_filter (λ kv : string * publicRateLimitKeyRuntime, idleKey now kv.2 = false) rt.(keys)). lia.
  - apply map_lookup_filter_None. by left.
Qed.

Lemma pruneLocked_wf l now : limiterWf l → limiterWf (pruneLocked l now).
Proof.
  intros Hl. unfold pruneLocked. case_goal; [done|]. intros id x Hx. simpl in Hx.
  apply lookup_fmap_Some in Hx as (rt & <- & Hrt). by apply filter_runtimeWf, (Hl id).
Qed.

Lemma reconcile_wf l config : limiterWf l → limiterWf (reconcile l config).
Proof.
  intros Hl id x Hx. unfold reconcile in Hx. simpl in Hx. rewrite map_lookup_imap in Hx.
  destruct (keepOf config !! id) as [fp|]; [|done]. simpl in Hx. injection Hx as <-.
  assert (He : runtimeWf (mkRuleRuntime fp ∅)) by (split; [apply Nat.le_0_l|apply lookup_empty]).
  destruct (l.(rules) !! id) as [rt|] eqn:E; [|done]. case_goal; [by apply (Hl id)|done].
Qed.

(** ** Reachable states *)

(** The limiter after any sequence of requests and reloads, with the time of the last
    request; the clock starts at the Unix epoch or later and does not run backwards. *)
Inductive reachable : publicRateLimiter → Z → Prop :=
  | reach_new t : unixEpoch ≤ t → reachable newPublicRateLimiter t
  | reach_evaluate l t t' config listener r : reachable l t → t ≤ t' →
      reachable (evaluate hash order l config listener r t').1 t'
  | reach_reconcile l t config : reachable l t → reachable (reconcile l config) t.

Lemma reachable_limiterWf l t : reachable l t → limiterWf l.
Proof using hash_nonempty order_complete.
  induction 1 as [t Ht|l t t' config listener r Hr IH Ht|l t config Hr IH].
  - intros id x Hx. unfold newPublicRateLimiter in Hx. cbn [rules] in Hx.
    by rewrite lookup_empty in Hx.
  - unfold evaluate. destruct (candidatesOf hash config listener r) as [rule|cs] eqn:E; [done|].
    apply candidates_nonempty in E. destruct cs as [|c cs]; [done|].
    apply evaluateCandidates_wf; [done|]. by apply pruneLocked_wf.
  - by apply reconcile_wf.
Qed.

(** Every key was last seen between the start and [t], and remembers nothing newer. *)
Definition keySeen (t : Z) (st : publicRateLimitKeyRuntime) : Prop :=
  keyWf st ∧ unixEpoch ≤ st.(lastSeenAt) ≤ t.
Definition keysSeen (t : Z) (l : publicRateLimiter) : Prop :=
  map_Forall (λ _ rt, map_Forall (λ _ st, keySeen t st) rt.(keys)) l.(rules).

Lemma keysSeen_later t t' l : t ≤ t' → keysSeen t l → keysSeen t' l.
Proof.
  intros Ht Hl id rt Hrt k st Hst. destruct (Hl id rt Hrt k st Hst) as [? ?]. split; [done|lia].
Qed.

Lemma UnixMilli_epoch a : unixEpoch ≤ a → 0 ≤ UnixMilli a.
Proof. intros H. unfold UnixMilli. apply Z.div_pos; [lia|unfold millisecond; lia]. Qed.

Lemma windowStart_le n w : 0 ≤ n → Z.quot n w * w ≤ n.
Proof.
  intros Hn. pose proof (Z.quot_rem' n w). destruct (decide (w = 0)) as [->|Hw]; [lia|].
  pose proof (Z.rem_nonneg n w Hw Hn). lia.
Qed.

Lemma dropHits_Forall (P : Z → Prop) c hits : Forall P hits → Forall P (dropHits c hits).
Proof. induction 1 as [|h hits Hh Hf IH]; simpl; [done|]. case_goal; [done|by constructor]. Qed.

(** The bucket algorithms do not touch the fields of the windows. *)
Lemma bucket_fields st rule nowMs st' :
  st' = (allowTokenBucket st rule nowMs).1 ∨ st' = (allowLeakyBucket st rule nowMs).1 →
  st'.(fixedWindowStart) = st.(fixedWindowStart) ∧ st'.(slidingHits) = st.(slidingHits)
  ∧ st'.(lastSeenAt) = st.(lastSeenAt).
Proof.
  intros [-> | ->].
  - unfold allowTokenBucket. destruct (tokenInitialized st); cbv zeta; destruct (0 <? _); by destruct (flt _ _).
  - unfold allowLeakyBucket. cbv zeta. destruct (0 <? _); by destruct (fgt _ _).
Qed.

(** The last-seen time is set before the algorithm runs, and not by it. *)
Lemma allow_seen st rule now : unixEpoch ≤ now → st.(lastSeenAt) = now → keyWf st →
  keySeen now (allow st rule now).1.
Proof.
  intros Hn Hl Hk. pose proof (UnixMilli_epoch now Hn) as H0.
  assert (Hb : ∀ st', st' = (allowTokenBucket st rule (UnixMilli now)).1 ∨ st' = (allowLeakyBucket st rule (UnixMilli now)).1 →
    keySeen now st').
  { intros st' H. apply bucket_fields in H as (E1 & E2 & E3). unfold keySeen, keyWf. rewrite E1, E2, E3.
    split; [exact Hk|lia]. }
  destruct Hk as [Hs Hh]. unfold allow. cbv zeta. destruct (String.eqb _ _); [|destruct (String.eqb _ _);
    [apply Hb; by left|destruct (String.eqb _ _); [apply Hb; by right|]]].
  - unfold allowSlidingWindow. cbv zeta.
    assert (Hd : Forall (λ h, h ≤ UnixMilli now) (dropHits (UnixMilli now - rule.(WindowMillis)) st.(slidingHits))).
    { apply dropHits_Forall. by rewrite <- Hl. }
    destruct (_ <=? _); unfold keySeen, keyWf; cbn [fst fixedWindowStart slidingHits lastSeenAt]; rewrite Hl in *;
      (split; [split; [done|]|lia]); [done|]. apply Forall_app_2; [done|by apply Forall_singleton].
  - unfold allowFixedWindow. cbv zeta. pose proof (windowStart_le (UnixMilli now) rule.(WindowMillis) H0) as Hq.
    destruct (rule.(Limit) <=? _); unfold keySeen, keyWf; cbn [fst fixedWindowStart slidingHits lastSeenAt];
      rewrite Hl in *; (split; [done|lia]).
Qed.

(** Touching a seen key, or a new one, at [now]. *)
Lemma touch_wf t now st : unixEpoch ≤ now → t ≤ now → st = newKey ∨ keySeen t st →
  keyWf (mkKey st.(fixedWindowStart) st.(fixedCount) st.(slidingHits) st.(tokens) st.(tokenLastRefill)
    st.(tokenInitialized) st.(leakyLevel) st.(leakyLastDrain) st.(leakyInitialized) now).
Proof.
  intros Hn Ht [->|[[Hs Hh] Hl]].
  - split; [by apply UnixMilli_epoch|constructor].
  - pose proof (UnixMilli_le st.(lastSeenAt) now ltac:(lia)). split; cbn [fixedWindowStart slidingHits lastSeenAt]; [lia|].
    eapply Forall_impl; [exact Hh|]. cbv beta. lia.
Qed.

Lemma evict_seen t (m : gmap string publicRateLimitKeyRuntime) o :
  map_Forall (λ _ st, keySeen t st) m → map_Forall (λ _ st, keySeen t st) (evictOldestRateLimitKey m o).
Proof. intros Hm. unfold evictOldestRateLimitKey, evictOldest. cbv zeta. case_goal; [done|]. by apply map_Forall_delete. Qed.

Lemma evaluateKey_seen t l rule key now : unixEpoch ≤ now → t ≤ now → keysSeen t l →
  keysSeen now (evaluateKey order l rule key now).1.
Proof.
  intros Hn Ht Hl. unfold evaluateKey. cbv zeta.
  set (rt := match l.(rules) !! rule.(ID) with Some _ => _ | None => _ end).
  assert (Hrt : map_Forall (λ _ st, keySeen t st) rt.(keys)).
  { unfold rt. destruct (l.(rules) !! rule.(ID)) as [x|] eqn:E; [|apply map_Forall_empty].
    case_goal; [by apply (Hl rule.(ID))|apply map_Forall_empty]. }
  set (p := match rt.(keys) !! key with Some _ => _ | None => _ end).
  assert (Hp : map_Forall (λ _ st, keySeen t st) p.1 ∧ (p.2 = newKey ∨ keySeen t p.2)).
  { unfold p. destruct (rt.(keys) !! key) as [st|] eqn:E; [split; [done|right; by apply (Hrt key)]|].
    split; [|by left]. simpl. case_goal; [by apply evict_seen|done]. }
  destruct p as [m st]. simpl in Hp. destruct Hp as [Hm Hst].
  pose proof (touch_wf t now st Hn Ht Hst) as Htouch.
  eapply (allow_seen _ rule now Hn) in Htouch as Ha; [|reflexivity].
  destruct (allow _ rule now) as [st' res]. apply (keysSeen_later _ _ _ Ht) in Hl.
  unfold keysSeen. cbn [fst rules]. apply map_Forall_insert_2; [|exact Hl].
  cbn [keys]. apply map_Forall_insert_2; [exact Ha|]. intros k x Hx. destruct (Hm k x Hx). split; [done|lia].
Qed.

Lemma evaluateCandidates_seen cs now : unixEpoch ≤ now → ∀ l, keysSeen now l →
  keysSeen now (evaluateCandidates order l cs now).1.
Proof.
  intros Hn. induction cs as [|[rule key] cs IH]; intros l Hl; [done|]. simpl.
  pose proof (evaluateKey_seen now l rule key now Hn ltac:(lia) Hl) as Hw.
  destruct (evaluateKey order l rule key now) as [l' res]. destruct res.(allowed); [by apply IH|done].
Qed.

Lemma pruneLocked_seen t l now : keysSeen t l → keysSeen t (pruneLocked l now).
Proof.
  intros Hl. unfold pruneLocked. case_goal; [done|]. intros id x Hx k st Hst. cbn [rules] in Hx.
  apply lookup_fmap_Some in Hx as (rt & <- & Hrt). cbn [keys] in Hst. apply map_lookup_filter_Some in Hst as [Hst _].
  by eapply Hl.
Qed.

Lemma reachable_seen l t : reachable l t → unixEpoch ≤ t ∧ keysSeen t l.
Proof.
  induction 1 as [t Ht|l t t' config listener r Hr [He IH] Ht|l t config Hr [He IH]].
  - split; [done|]. apply map_Forall_empty.
  - split; [lia|]. apply (keysSeen_later _ _ _ Ht) in IH. unfold evaluate.
    destruct (candidatesOf hash config listener r) as [rule|[|c cs]]; [done..|].
    apply evaluateCandidates_seen; [lia|]. by apply pruneLocked_seen.
  - split; [done|]. intros id x Hx. unfold reconcile in Hx. cbn [rules] in Hx. rewrite map_lookup_imap in Hx.
    destruct (keepOf config !! id) as [fp|]; [|done]. cbn in Hx. injection Hx as <-.
    destruct (l.(rules) !! id) as [rt|] eqn:E; [|apply map_Forall_empty].
    case_goal; [by apply (IH id)|apply map_Forall_empty].
Qed.
End table.

(** ** Theorems *)

(** The times of the requests a run granted. *)
Definition grants (times : list Z) (oks : list bool) : list Z := map fst (filter (λ p, p.2 = true) (zip times oks)).


Definition rateRule alg lim win : publicRateLimitRuleConfig :=
  mkRateRule 1 0 true alg lim win 0 (λ _ _, Some true) [] 429 "limited" "fp".

Lemma sorted_Z (l : list Z) : bool_decide (Forall2 Z.le (removelast l) (tl l)) = true → StronglySorted Z.le l.
Proof.
  intros H. apply bool_decide_eq_true in H. apply Sorted_StronglySorted; [intros ???; lia|].
  induction l as [|x [|y l] IH]; [constructor|by repeat constructor|].
  inversion H; subst. constructor; [by apply IH|by constructor].
Qed.


(** The sliding window never grants more than [Limit] requests within any window of
    [WindowMillis] that ends at any time. *)
Theorem rate_sliding_bound rule times t :
  0 < rule.(WindowMillis) → 0 ≤ rule.(Limit) → StronglySorted Z.le times →
  Z.of_nat (length (filter (λ h, t - rule.(WindowMillis) < h ≤ t)
    (grants times (runSliding rule newKey times)))) ≤ rule.(Limit).
Proof.
  intros Hw HL Ht. rewrite sliding_equiv_new by done.
  pose proof (granted_run rule [] times) as E. simpl in E. unfold grants. rewrite <- E.
  apply spaced_bound; [done|]. apply granted_spaced. intros p x q Hp. by destruct p.
Qed.

Lemma rate_sliding_bound_witness :
  Z.of_nat (length (filter (λ h, 1200 - 1000 < h ≤ 1200)
    (grants [100; 200; 900; 1150; 1200] (runSliding (rateRule "sliding_window" 2 1000) newKey [100; 200; 900; 1150; 1200])))) ≤ 2.
Proof.
  apply (rate_sliding_bound (rateRule "sliding_window" 2 1000)); [reflexivity|done|apply sorted_Z; vm_compute; reflexivity].
Defined.

(** On requests in time order the fixed window grants exactly the requests that find
    fewer than [Limit] grants in their aligned window, so no aligned window ever holds
    more than [Limit] grants. *)
Theorem rate_fixed_window_exact rule times w :
  0 < rule.(WindowMillis) → 0 ≤ rule.(Limit) → StronglySorted Z.le (0 :: times) →
  runFixed rule newKey times = refFixed rule [] times
  ∧ Z.of_nat (length (sameWindow rule w (grants times (runFixed rule newKey times)))) ≤ rule.(Limit).
Proof.
  intros Hw HL Ht.
  assert (runFixed rule newKey times = refFixed rule [] times) as ->.
  { apply (fixed_equiv rule times Hw newKey [] 0); [lia|done|constructor| |done].
    unfold windowOf. by rewrite Z.quot_0_l by lia. }
  split; [done|]. pose proof (grantedFixed_run rule [] times) as E. simpl in E. unfold grants. rewrite <- E.
  apply grantedFixed_bound; [done|]. intros w'. exact HL.
Qed.

Lemma rate_fixed_window_exact_witness :
  runFixed (rateRule "fixed_window" 2 1000) newKey [100; 200; 900; 1150; 1200; 5000]
  = refFixed (rateRule "fixed_window" 2 1000) [] [100; 200; 900; 1150; 1200; 5000]
  ∧ Z.of_nat (length (sameWindow (rateRule "fixed_window" 2 1000) 1000
      (grants [100; 200; 900; 1150; 1200; 5000]
        (runFixed (rateRule "fixed_window" 2 1000) newKey [100; 200; 900; 1150; 1200; 5000])))) ≤ 2.
Proof.
  exact (rate_fixed_window_exact (rateRule "fixed_window" 2 1000) [100; 200; 900; 1150; 1200; 5000] 1000
    eq_refl ltac:(done) ltac:(apply sorted_Z; vm_compute; reflexivity)).
Defined.

(** In every reachable state of the limiter no rule keeps more than
    [maxRateLimitKeysPerRule] keys, whatever requests, evictions, prunings and reloads
    led there. *)
Theorem rate_keys_bounded hash order l t id rt :
  (∀ s, hash s ≠ "") → (∀ m k, k ∈ order m ↔ is_Some (m !! k)) →
  reachable hash order l t → l.(rules) !! id = Some rt →
  (size rt.(keys) ≤ maxRateLimitKeysPerRule)%nat.
Proof. intros Hh Ho Hr Hrt. by apply (reachable_limiterWf hash order Hh Ho l t Hr id rt Hrt). Qed.

Definition exHash (s : string) : string := String "h" s.
Definition exOrder (m : gmap string publicRateLimitKeyRuntime) : list string := map fst (map_to_list m).
Definition exRequestFrom (addr : string) : httpRequest := 
  mkRequest "GET" "a.example" "" "/" "/" true addr ∅ [] ∅ None [].

Lemma exOrder_complete m k : k ∈ exOrder m ↔ is_Some (m !! k).
Proof.
  unfold exOrder. split.
  - intros H. apply list_elem_of_fmap in H as ([k' v] & -> & H). apply elem_of_map_to_list in H. by eexists.
  - intros [v H]. apply list_elem_of_fmap. exists (k, v). split; [done|]. by apply elem_of_map_to_list.
Qed.

(** A run of the limiter: the decisions on requests at given times from given hosts. *)
Fixpoint runLimiter (hash : string → string) (order : gmap string publicRateLimitKeyRuntime → list string)
    (l : publicRateLimiter) (config : list publicRateLimitRuleConfig) (reqs : list (Z * string))
    : publicRateLimiter * list bool :=
  match reqs with
  | [] => (l, [])
  | (t, addr) :: reqs =>
      let '(l, d) := evaluate hash order l config exListener (exRequestFrom addr) t in
      let '(l, ds) := runLimiter hash order l config reqs in
      (l, (match d with RateAllowed => true | _ => false end) :: ds)
  end.

Definition exStart : Z := unixEpoch + 1000 * second.

Lemma reachable_run hash order config reqs : ∀ l t t', reachable hash order l t →
  bool_decide (Forall2 Z.le (removelast (t :: map fst reqs)) (map fst reqs)) = true →
  t' = default t (last (map fst reqs)) →
  reachable hash order (runLimiter hash order l config reqs).1 t'.
Proof.
  induction reqs as [|[t1 addr] reqs IH]; intros l t t' Hr Hs ->; [done|]. cbn [map fst]. rewrite last_cons. simpl.
  apply bool_decide_eq_true in Hs. cbn [map fst] in Hs.
  destruct (evaluate hash order l config exListener (exRequestFrom addr) t1) as [l' d] eqn:E.
  assert (Ht : t ≤ t1 ∧ Forall2 Z.le (removelast (t1 :: map fst reqs)) (map fst reqs)) by (by inversion Hs; subst).
  destruct Ht as [Ht Hs'].
  pose proof (reach_evaluate hash order l t t1 config exListener (exRequestFrom addr) Hr Ht) as H1. rewrite E in H1.
  specialize (IH l' t1 _ H1 ltac:(by apply bool_decide_eq_true) eq_refl).
  destruct (runLimiter hash order l' config reqs) as [l'' ds]. simpl in IH |- *.
  by destruct (last (map fst reqs)).
Qed.

Definition exRun : publicRateLimiter * list bool :=
  runLimiter exHash exOrder newPublicRateLimiter [rateRule "sliding_window" 1 60000]
    [(exStart, "10.0.0.1:5"); (exStart + second, "10.0.0.2:5"); (exStart + 2 * second, "10.0.0.1:9")].

Lemma exRun_reachable : reachable exHash exOrder exRun.1 (exStart + 2 * second).
Proof.
  apply (reachable_run exHash exOrder _ _ newPublicRateLimiter exStart); [|vm_compute; reflexivity|reflexivity].
  constructor. unfold exStart, second. lia.
Qed.

Lemma rate_keys_bounded_witness :
  exRun.1.(rules) !! 1%Z = Some (default (mkRuleRuntime "" ∅) (exRun.1.(rules) !! 1%Z))
  ∧ (size (default (mkRuleRuntime "" ∅) (exRun.1.(rules) !! 1%Z)).(keys) ≤ maxRateLimitKeysPerRule)%nat.
Proof.
  assert (H : exRun.1.(rules) !! 1%Z = Some (default (mkRuleRuntime "" ∅) (exRun.1.(rules) !! 1%Z)))
    by (vm_compute; reflexivity).
  split; [exact H|].
  exact (rate_keys_bounded exHash exOrder exRun.1 _ 1 _ (λ s, ltac:(discriminate)) exOrder_complete exRun_reachable H).
Defined.

(** Dropping a key that was idle for [rateLimitIdleStateTTL] changes no decision of a
    fixed or sliding window up to that long: in a reachable state the idle key answers a
    request exactly as a new key does. *)
Theorem rate_prune_harmless hash order l t now id rt key st rule :
  reachable hash order l t → t ≤ now → l.(rules) !! id = Some rt → rt.(keys) !! key = Some st →
  idleKey now st = true → 0 < rule.(WindowMillis) ≤ 900000 →
  rule.(Algorithm) = publicRateLimitAlgorithmFixedWindow ∨ rule.(Algorithm) = publicRateLimitAlgorithmSlidingWindow →
  (allow st rule now).2 = (allow newKey rule now).2.
Proof.
  intros Hr Ht Hrt Hst Hi Hw Ha. apply reachable_seen in Hr as [He Hr]. destruct (Hr id rt Hrt key st Hst) as [Hk Hl].
  assert (Hz : st.(lastSeenAt) ≠ 0) by (unfold unixEpoch, second in *; lia).
  unfold allow. cbv zeta. destruct Ha as [-> | ->]; cbn [String.eqb].
  - apply fixed_forget; [done..|apply UnixMilli_epoch; lia|done].
  - apply sliding_forget; [done..|lia].
Qed.

Definition exKey : publicRateLimitKeyRuntime :=
  default newKey ((default (mkRuleRuntime "" ∅) (exRun.1.(rules) !! 1%Z)).(keys) !!
    rateLimitKeyHash exHash (keyValues (rateRule "sliding_window" 1 60000) exListener (exRequestFrom "10.0.0.2:5"))).

Lemma rate_prune_harmless_witness :
  exKey.(slidingHits) ≠ [] ∧
  (allow exKey (rateRule "sliding_window" 1 60000) (exStart + 2000 * second)).2
  = (allow newKey (rateRule "sliding_window" 1 60000) (exStart + 2000 * second)).2.
Proof.
  split; [vm_compute; discriminate|].
  assert (H1 : exRun.1.(rules) !! 1%Z = Some (default (mkRuleRuntime "" ∅) (exRun.1.(rules) !! 1%Z)))
    by (vm_compute; reflexivity).
  assert (H2 : (default (mkRuleRuntime "" ∅) (exRun.1.(rules) !! 1%Z)).(keys) !!
    rateLimitKeyHash exHash (keyValues (rateRule "sliding_window" 1 60000) exListener (exRequestFrom "10.0.0.2:5"))
    = Some exKey) by (vm_compute; reflexivity).
  assert (H3 : idleKey (exStart + 2000 * second) exKey = true) by (vm_compute; reflexivity).
  exact (rate_prune_harmless exHash exOrder exRun.1 (exStart + 2 * second) (exStart + 2000 * second) 1 _ _ exKey
    (rateRule "sliding_window" 1 60000) exRun_reachable ltac:(unfold second; lia) H1 H2 H3 ltac:(simpl; lia)
    (or_intror eq_refl)).
Defined.

(** For a longer window pruning is not harmless: with one request per hour, a host that
    stays idle for sixteen minutes is granted a second request in the same hour, because
    its key was dropped.  (Windows of up to a day are accepted.) *)
Theorem rate_prune_forgets :
  (runLimiter exHash exOrder newPublicRateLimiter [rateRule "sliding_window" 1 3600000]
    [(exStart, "10.0.0.1:5"); (exStart + second, "10.0.0.1:5"); (exStart + 17 * minute, "10.0.0.1:5")]).2
  = [true; false; true]
  ∧ (runLimiter exHash exOrder newPublicRateLimiter [rateRule "fixed_window" 1 3600000]
    [(exStart, "10.0.0.1:5"); (exStart + second, "10.0.0.1:5"); (exStart + 17 * minute, "10.0.0.1:5")]).2
  = [true; false; true]
  ∧ 3600000 ≤ maxRateLimitWindowMillis.
Proof. split_and!; vm_compute; congruence. Qed.

End RateLimiterProps.
