(* ===== verification/CaptchaLimiter.v ===== *)
(** The limiters of captcha verifications and of the reserved WAF endpoints
    (internal/server/public_waf_captcha_limiter.go): fixed windows of a minute, kept per
    key in a bounded map.

    A bucket is a Go pointer that [allow] keeps while it creates a second bucket, which
    may evict the first; [writeBack] updates the map only when the pointer is still in
    it.  The order of iteration over the map is the argument [order]. *)

From S2P Require Import Prelude.
From S2P Require Import GoStrings.
From S2P Require Import GoFloat.
From S2P Require Import NetIP.
From S2P Require Import ClientIdentity.
From S2P Require Import WafCookies.
From S2P Require Import RateLimiter.
From Stdlib Require Import Sorted.

Module CaptchaLimiter.
Import WafCookies.

Definition publicWafCaptchaVerifyWindow : Z := minute.
Definition publicWafCaptchaVerifyIPLimit : Z := 10.
Definition publicWafCaptchaVerifyRuleLimit : Z := 120.
Definition publicWafCaptchaVerifyMaxKeys : nat := 20000.
Definition publicWafCaptchaVerifyIdleTTL : Z := 15 * minute.
Definition publicWafCaptchaVerifyPruneInterval : Z := minute.
Definition publicWafReservedEndpointWindow : Z := minute.
Definition publicWafReservedEndpointIPLimit : Z := 60.
Definition publicWafReservedEndpointPathLimit : Z := 1200.
Definition publicWafReservedEndpointMaxKeys : nat := publicWafCaptchaVerifyMaxKeys.
Definition publicWafReservedEndpointIdleTTL : Z := publicWafCaptchaVerifyIdleTTL.
Definition publicWafReservedEndpointPruneInterval : Z := publicWafCaptchaVerifyPruneInterval.
#[global] Opaque publicWafCaptchaVerifyMaxKeys.

Record publicWafFixedWindowBucket := mkBucket { windowStart : Z; count : Z; seenAt : Z }.

(** Both limiters have these fields. *)
Record limiter := mkWafLimiter { keys : gmap string publicWafFixedWindowBucket; lastPrune : Z }.

Definition newPublicWafCaptchaVerifyLimiter : limiter := mkWafLimiter ∅ 0.
Definition newPublicWafReservedEndpointLimiter : limiter := mkWafLimiter ∅ 0.

(** [d.Milliseconds()] *)
Definition Milliseconds (d : Z) : Z := Z.quot d millisecond.

Definition rollWindow (b : publicWafFixedWindowBucket) (window now : Z) : publicWafFixedWindowBucket :=
  let windowMs := Milliseconds window in
  let start := Z.quot (UnixMilli now) windowMs * windowMs in
  if b.(windowStart) =? start then b else mkBucket start 0 b.(seenAt).

(** The bucket after the call, the time to wait, and the answer. *)
Definition canAllow (b : publicWafFixedWindowBucket) (limit window now : Z)
    : publicWafFixedWindowBucket * Z * bool :=
  let b := rollWindow b window now in
  if b.(count) <? limit then (b, 0, true)
  else
    let windowEnd := b.(windowStart) + Milliseconds window in
    (b, i64 (Z.max 1 (windowEnd - UnixMilli now) * millisecond), false).

Definition writeBack (key : string) (b : publicWafFixedWindowBucket)
    (m : gmap string publicWafFixedWindowBucket) : gmap string publicWafFixedWindowBucket :=
  match m !! key with Some _ => <[key := b]> m | None => m end.

(** [count++] and [lastSeenAt = now] *)
Definition hit (b : publicWafFixedWindowBucket) (now : Z) : publicWafFixedWindowBucket :=
  mkBucket b.(windowStart) (b.(count) + 1) now.

Definition maxDuration (a b : Z) : Z := if b <? a then a else b.

Definition idleBucket (ttl now : Z) (b : publicWafFixedWindowBucket) : bool :=
  is_zero_time b.(seenAt) || (ttl <? time_sub now b.(seenAt)).

(** [pruneLocked] of both limiters. *)
Definition pruneLocked (interval ttl : Z) (l : limiter) (now : Z) : limiter :=
  if negb (is_zero_time l.(lastPrune)) && (time_sub now l.(lastPrune) <? interval) then l
  else mkWafLimiter (filter (λ kv, idleBucket ttl now kv.2 = false) l.(keys)) now.

Section limiters.
Context (order : gmap string publicWafFixedWindowBucket → list string).

(** [evictOldestLocked] *)
Definition evictOldestLocked (m : gmap string publicWafFixedWindowBucket)
    : gmap string publicWafFixedWindowBucket := RateLimiter.evictOldest seenAt m (order m).

(** [bucketLocked]: find or create, roll, touch. *)
Definition bucketLocked (maxKeys : nat) (window : Z) (m : gmap string publicWafFixedWindowBucket)
    (key : string) (now : Z) : gmap string publicWafFixedWindowBucket * publicWafFixedWindowBucket :=
  let '(m, b) :=
    match m !! key with
    | Some b => (m, b)
    | None => (if (maxKeys <=? size m)%nat then evictOldestLocked m else m, mkBucket 0 0 0)
    end in
  let b := rollWindow b window now in
  let b := mkBucket b.(windowStart) b.(count) now in
  (<[key := b]> m, b).

Definition ipKey (listenerID ruleID : Z) (remoteIP : string) : string :=
  ("ip:" ++ FormatInt listenerID ++ ":" ++ FormatInt ruleID ++ ":" ++ remoteIP)%string.
Definition ruleKey (listenerID ruleID : Z) : string :=
  ("rule:" ++ FormatInt listenerID ++ ":" ++ FormatInt ruleID)%string.

(** [publicWafCaptchaVerifyLimiter.allow] *)
Definition allowVerify (l : limiter) (listenerID ruleID : Z) (remoteIP : string) (now : Z)
    : limiter * Z * bool :=
  let l := pruneLocked publicWafCaptchaVerifyPruneInterval publicWafCaptchaVerifyIdleTTL l now in
  let kip := ipKey listenerID ruleID remoteIP in
  let krule := ruleKey listenerID ruleID in
  let '(m, ipBucket) := bucketLocked publicWafCaptchaVerifyMaxKeys publicWafCaptchaVerifyWindow l.(keys) kip now in
  let '(m, ruleBucket) := bucketLocked publicWafCaptchaVerifyMaxKeys publicWafCaptchaVerifyWindow m krule now in
  let '(ipBucket, ipRetryAfter, ipAllowed) :=
    canAllow ipBucket publicWafCaptchaVerifyIPLimit publicWafCaptchaVerifyWindow now in
  let '(ruleBucket, ruleRetryAfter, ruleAllowed) :=
    canAllow ruleBucket publicWafCaptchaVerifyRuleLimit publicWafCaptchaVerifyWindow now in
  if negb ipAllowed || negb ruleAllowed then
    (mkWafLimiter (writeBack kip ipBucket (writeBack krule ruleBucket m)) l.(lastPrune),
     maxDuration ipRetryAfter ruleRetryAfter, false)
  else
    (mkWafLimiter (writeBack kip (hit ipBucket now) (writeBack krule (hit ruleBucket now) m)) l.(lastPrune),
     0, true).

Definition reservedIPKey (listenerID : Z) (path remoteIP : string) : string :=
  ("reserved:ip:" ++ FormatInt listenerID ++ ":" ++ path ++ ":" ++ remoteIP)%string.
Definition reservedPathKey (listenerID : Z) (path : string) : string :=
  ("reserved:path:" ++ FormatInt listenerID ++ ":" ++ path)%string.

(** [publicWafReservedEndpointLimiter.allow]: polls of the waiting room have no limit
    per path. *)
Definition allowReserved (l : limiter) (listenerID : Z) (path remoteIP : string) (now : Z)
    : limiter * Z * bool :=
  let l := pruneLocked publicWafReservedEndpointPruneInterval publicWafReservedEndpointIdleTTL l now in
  let kip := reservedIPKey listenerID path remoteIP in
  let '(m, ipBucket) :=
    bucketLocked publicWafReservedEndpointMaxKeys publicWafReservedEndpointWindow l.(keys) kip now in
  let '(ipBucket, ipRetryAfter, ipAllowed) :=
    canAllow ipBucket publicWafReservedEndpointIPLimit publicWafReservedEndpointWindow now in
  let m := writeBack kip ipBucket m in
  if negb ipAllowed then (mkWafLimiter m l.(lastPrune), ipRetryAfter, false)
  else if String.eqb path publicWafWaitingRoomStatusPath then
    (mkWafLimiter (writeBack kip (hit ipBucket now) m) l.(lastPrune), 0, true)
  else
    let kpath := reservedPathKey listenerID path in
    let '(m, pathBucket) :=
      bucketLocked publicWafReservedEndpointMaxKeys publicWafReservedEndpointWindow m kpath now in
    let '(pathBucket, pathRetryAfter, pathAllowed) :=
      canAllow pathBucket publicWafReservedEndpointPathLimit publicWafReservedEndpointWindow now in
    let m := writeBack kpath pathBucket m in
    if negb pathAllowed then (mkWafLimiter m l.(lastPrune), pathRetryAfter, false)
    else
      (mkWafLimiter (writeBack kpath (hit pathBucket now) (writeBack kip (hit ipBucket now) m)) l.(lastPrune),
       0, true).
End limiters.

(** ** The reference *)

(** The aligned minute of a time, in Unix milliseconds. *)
Definition win (t : Z) : Z := Z.quot (UnixMilli t) 60000 * 60000.

(** The granted calls: the keys they count against and their times. *)
Notation history := (list (list string * Z)) (only parsing).
Definition hits (hist : history) (k : string) (w : Z) : Z :=
  Z.of_nat (length (filter (λ h, k ∈ h.1 ∧ win h.2 = w) hist)).

(** A call counts against keys with limits; it is granted when each key has fewer grants
    in the minute than its limit. *)
Definition grantable (hist : history) (lims : list (string * Z)) (t : Z) : bool :=
  forallb (λ kl, hits hist kl.1 (win t) <? kl.2) lims.
Definition record (hist : history) (lims : list (string * Z)) (t : Z) : history :=
  if grantable hist lims t then hist ++ [(map fst lims, t)] else hist.
Fixpoint refRun (hist : history) (calls : list (list (string * Z) * Z)) : list bool :=
  match calls with
  | [] => []
  | (lims, t) :: calls => grantable hist lims t :: refRun (record hist lims t) calls
  end.
Fixpoint refHistory (hist : history) (calls : list (list (string * Z) * Z)) : history :=
  match calls with
  | [] => hist
  | (lims, t) :: calls => refHistory (record hist lims t) calls
  end.

(** ** Windows *)

Lemma win_div t : unixEpoch ≤ t → win t = UnixMilli t / 60000 * 60000.
Proof.
  intros H. unfold win. rewrite Z.quot_div_nonneg; [done| |lia].
  unfold UnixMilli. apply Z.div_pos; [lia|unfold millisecond; lia].
Qed.

Lemma win_le a b : unixEpoch ≤ a ≤ b → win a ≤ win b.
Proof.
  intros H. rewrite !win_div by lia. apply Z.mul_le_mono_nonneg_r; [lia|].
  apply Z.div_le_mono; [lia|]. apply UnixMilli_le. lia.
Qed.

(** A bucket idle for the time to live belongs to an earlier minute. *)
Lemma win_idle a b : unixEpoch ≤ a → b - a > publicWafCaptchaVerifyIdleTTL → win a < win b.
Proof.
  unfold publicWafCaptchaVerifyIdleTTL, minute, second. intros Ha Hb. rewrite !win_div by lia.
  assert (UnixMilli a + 60000 ≤ UnixMilli b) as H.
  { unfold UnixMilli, millisecond.
    pose proof (Z.div_le_mono (a - unixEpoch + 60000 * 1000000) (b - unixEpoch) 1000000 ltac:(lia) ltac:(lia)) as Hd.
    rewrite Z.div_add in Hd by lia. exact Hd. }
  pose proof (Z.div_le_mono _ _ 60000 ltac:(lia) H) as Hd.
  replace (UnixMilli a + 60000) with (UnixMilli a + 1 * 60000) in Hd by lia. rewrite Z.div_add in Hd by lia. lia.
Qed.

Lemma roll_win b now : rollWindow b minute now = if b.(windowStart) =? win now then b else mkBucket (win now) 0 b.(seenAt).
Proof. done. Qed.

Lemma hits_app hist h k w : hits (hist ++ [h]) k w = hits hist k w + (if decide (k ∈ h.1 ∧ win h.2 = w) then 1 else 0).
Proof.
  unfold hits. rewrite filter_app, length_app. destruct (decide _).
  - rewrite filter_cons_True by done. simpl. lia.
  - rewrite filter_cons_False by done. simpl. lia.
Qed.

Lemma hits_none hist k w : (∀ h, h ∈ hist → k ∈ h.1 → win h.2 ≠ w) → hits hist k w = 0.
Proof.
  intros H. unfold hits. induction hist as [|h hist IH]; [done|]. rewrite filter_cons_False.
  - apply IH. intros x Hx. apply H. by right.
  - intros [Hk Hw]. by apply (H h ltac:(left)).
Qed.

(** ** The map follows the history *)

Record tracks (m : gmap string publicWafFixedWindowBucket) (hist : history) (t : Z) : Prop := {
  tr_time : unixEpoch ≤ t;
  tr_hist : ∀ h, h ∈ hist → unixEpoch ≤ h.2 ≤ t;
  tr_bucket : ∀ k b, m !! k = Some b → unixEpoch ≤ b.(seenAt) ≤ t ∧ b.(windowStart) = win b.(seenAt)
    ∧ b.(count) = hits hist k b.(windowStart) ∧ (∀ h, h ∈ hist → k ∈ h.1 → h.2 ≤ b.(seenAt));
  tr_absent : ∀ k, m !! k = None → hits hist k (win t) = 0 }.

Lemma tracks_empty t : unixEpoch ≤ t → tracks ∅ [] t.
Proof. intros Ht. split; [done| | |done]; intros; [by apply not_elem_of_nil in H|by rewrite lookup_empty in H]. Qed.

Lemma tracks_later m hist t t' : t ≤ t' → tracks m hist t → tracks m hist t'.
Proof.
  intros Ht [H0 Hh Hb Ha]. split; [lia| | |].
  - intros h Hin. specialize (Hh h Hin). lia.
  - intros k b Hk. destruct (Hb k b Hk) as (? & ? & ? & ?). split_and!; try done; lia.
  - intros k Hk. pose proof (win_le t t' ltac:(lia)). destruct (decide (win t' = win t)) as [->|Hne]; [by apply Ha|].
    apply hits_none. intros h Hin _. pose proof (Hh h Hin). pose proof (win_le h.2 t ltac:(lia)). lia.
Qed.

Lemma tracks_prune m hist t : tracks m hist t →
  tracks (filter (λ kv, idleBucket publicWafCaptchaVerifyIdleTTL t kv.2 = false) m) hist t.
Proof.
  intros [H0 Hh Hb Ha]. split; [done|done| |].
  - intros k b Hk. apply map_lookup_filter_Some in Hk as [Hk _]. by apply Hb.
  - intros k Hk. apply map_lookup_filter_None in Hk as [Hk|Hk]; [by apply Ha|].
    destruct (m !! k) as [b|] eqn:E; [|by apply Ha]. specialize (Hk b eq_refl). simpl in Hk.
    destruct (Hb k b E) as (Hs & Hw & _ & Hle). apply hits_none. intros h Hin Hkin.
    specialize (Hle h Hin Hkin). specialize (Hh h Hin). pose proof (win_le h.2 b.(seenAt) ltac:(lia)).
    enough (win b.(seenAt) < win t) by lia. apply win_idle; [lia|].
    unfold idleBucket, is_zero_time in Hk. destruct (Z.eqb_spec b.(seenAt) 0) as [E0|_].
    + exfalso. unfold unixEpoch, second in Hs. lia.
    + simpl in Hk. apply not_false_is_true in Hk.
      rewrite time_sub_gt in Hk by (vm_compute; split; congruence || reflexivity). bprop. lia.
Qed.

Lemma tracks_pruneLocked l hist t : tracks l.(keys) hist t →
  tracks (pruneLocked publicWafCaptchaVerifyPruneInterval publicWafCaptchaVerifyIdleTTL l t).(keys) hist t.
Proof. intros H. unfold pruneLocked. case_goal; [done|]. by apply tracks_prune. Qed.

Lemma prune_size l t :
  (size (pruneLocked publicWafCaptchaVerifyPruneInterval publicWafCaptchaVerifyIdleTTL l t).(keys) ≤ size l.(keys))%nat.
Proof. unfold pruneLocked. case_goal; [done|]. apply map_size_filter. Qed.

(** The bucket [bucketLocked] returns when it does not evict. *)
Definition current (hist : history) (k : string) (t : Z) : publicWafFixedWindowBucket := mkBucket (win t) (hits hist k (win t)) t.

Lemma tracks_touch m hist k t : tracks m hist t → tracks (<[k := current hist k t]> m) hist t.
Proof.
  intros [H0 Hh Hb Ha]. split; [done|done| |].
  - intros k' b Hk. apply lookup_insert_Some in Hk as [[<- <-]|[_ Hk]]; [|by apply Hb].
    split_and!; simpl; [lia|lia|done|done|]. intros h Hin _. by apply Hh.
  - intros k' Hk. apply lookup_insert_None in Hk as [Hk _]. by apply Ha.
Qed.

Lemma bucket_tracks order maxKeys m hist k t : tracks m hist t → (size m < maxKeys)%nat →
  bucketLocked order maxKeys minute m k t = (<[k := current hist k t]> m, current hist k t).
Proof.
  intros Ht Hs. assert (Hc : ∀ b, b.(windowStart) = win t → b.(count) = hits hist k (win t) →
    mkBucket b.(windowStart) b.(count) t = current hist k t) by (intros b -> ->; done).
  destruct Ht as [H0 Hh Hb Ha]. unfold bucketLocked. destruct (m !! k) as [b|] eqn:E.
  - destruct (Hb k b E) as (Hbs & Hbw & Hbc & Hle). rewrite roll_win.
    destruct (Z.eqb_spec b.(windowStart) (win t)) as [Ew|Hne].
    + rewrite Hc; [done|done|]. by rewrite Hbc, Ew.
    + rewrite Hc; [done|done|]. simpl. symmetry. apply hits_none. intros h Hin Hk Hwt.
      specialize (Hle h Hin Hk). specialize (Hh h Hin). pose proof (win_le h.2 b.(seenAt) ltac:(lia)).
      pose proof (win_le b.(seenAt) t ltac:(lia)). lia.
  - destruct (Nat.leb_spec maxKeys (size m)); [lia|]. rewrite roll_win. cbn [windowStart].
    destruct (Z.eqb_spec 0 (win t)) as [Ew|Hne]; rewrite Hc; simpl; rewrite ?Ha by done; try done.
Qed.

Lemma canAllow_current hist k limit t : ∃ retry,
  canAllow (current hist k t) limit minute t = (current hist k t, retry, hits hist k (win t) <? limit).
Proof.
  unfold canAllow. cbv zeta. rewrite roll_win. cbn [windowStart current]. rewrite Z.eqb_refl. cbn [count].
  destruct (_ <? limit); by eexists.
Qed.

Lemma writeBack_present k b (m : gmap string publicWafFixedWindowBucket) : is_Some (m !! k) → writeBack k b m = <[k := b]> m.
Proof. intros [x E]. unfold writeBack. by rewrite E. Qed.

Lemma tracks_grant m m' hist ks t : tracks m hist t →
  (∀ k, k ∈ ks → m' !! k = Some (hit (current hist k t) t)) → (∀ k, k ∉ ks → m' !! k = m !! k) →
  tracks m' (hist ++ [(ks, t)]) t.
Proof.
  intros [H0 Hh Hb Ha] Hin Hout. split; [done| | |].
  - intros h Hx. apply elem_of_app in Hx as [Hx|Hx]; [by apply Hh|]. apply list_elem_of_singleton in Hx as ->. simpl. lia.
  - intros k b Hk. destruct (decide (k ∈ ks)) as [Hks|Hks].
    + rewrite Hin in Hk by done. injection Hk as <-. cbn [hit current windowStart count seenAt]. rewrite hits_app.
      destruct (decide _) as [_|Hn]; [|exfalso; by apply Hn]. split_and!; [lia|lia|done|lia|].
      intros h Hx _. apply elem_of_app in Hx as [Hx|Hx]; [by apply Hh|]. by apply list_elem_of_singleton in Hx as ->.
    + rewrite Hout in Hk by done. destruct (Hb k b Hk) as (H1 & H2 & H3 & H4). split_and!; [lia|lia|done| |].
      * rewrite hits_app, <- H3. destruct (decide _) as [[? _]|_]; [done|lia].
      * intros h Hx Hkx. apply elem_of_app in Hx as [Hx|Hx]; [by apply H4|]. by apply list_elem_of_singleton in Hx as ->.
  - intros k Hk. destruct (decide (k ∈ ks)) as [Hks|Hks]; [by rewrite Hin in Hk|]. rewrite Hout in Hk by done.
    rewrite hits_app, Ha by done. destruct (decide _) as [[? _]|_]; [done|lia].
Qed.

(** The keys and limits of the calls. *)
Record verifyCall := mkVerify { vListener : Z; vRule : Z; vIP : string; vTime : Z }.
Definition verifyLimits (c : verifyCall) : list (string * Z) :=
  [(ipKey c.(vListener) c.(vRule) c.(vIP), publicWafCaptchaVerifyIPLimit);
   (ruleKey c.(vListener) c.(vRule), publicWafCaptchaVerifyRuleLimit)].

Record reservedCall := mkReserved { rListener : Z; rPath : string; rIP : string; rTime : Z }.
Definition reservedLimits (c : reservedCall) : list (string * Z) :=
  (reservedIPKey c.(rListener) c.(rPath) c.(rIP), publicWafReservedEndpointIPLimit) ::
  (if String.eqb c.(rPath) publicWafWaitingRoomStatusPath then []
   else [(reservedPathKey c.(rListener) c.(rPath), publicWafReservedEndpointPathLimit)]).

Lemma verify_keys_ne l r ip l' r' : ipKey l r ip ≠ ruleKey l' r'.
Proof. unfold ipKey, ruleKey. autorewrite with gostring. discriminate. Qed.
Lemma reserved_keys_ne l p ip l' p' : reservedIPKey l p ip ≠ reservedPathKey l' p'.
Proof. unfold reservedIPKey, reservedPathKey. autorewrite with gostring. discriminate. Qed.

Section steps.
Context (order : gmap string publicWafFixedWindowBucket → list string).

Lemma verify_step l hist t c : tracks l.(keys) hist t → t ≤ c.(vTime) →
  (size l.(keys) + 2 ≤ publicWafCaptchaVerifyMaxKeys)%nat →
  let '(l', retry, ok) := allowVerify order l c.(vListener) c.(vRule) c.(vIP) c.(vTime) in
  ok = grantable hist (verifyLimits c) c.(vTime) ∧
  tracks l'.(keys) (record hist (verifyLimits c) c.(vTime)) c.(vTime).
Proof.
  intros Ht Hle Hs. destruct c as [ls ru ip now]. cbn [vTime vListener vRule vIP] in *.
  apply (tracks_later _ _ _ _ Hle), tracks_pruneLocked in Ht. unfold allowVerify. cbv zeta.
  pose proof (prune_size l now) as Hp. destruct (pruneLocked _ _ l now) as [m lp]. cbn [keys] in *.
  set (kip := ipKey ls ru ip) in *. set (krule := ruleKey ls ru) in *.
  assert (Hne : kip ≠ krule) by apply verify_keys_ne.
  rewrite (bucket_tracks order _ m hist kip now Ht) by lia.
  assert (Ht1 := tracks_touch m hist kip now Ht). pose proof (insert_size_le m kip (current hist kip now)) as Hs1.
  rewrite (bucket_tracks order _ _ hist krule now Ht1) by lia.
  assert (Ht2 := tracks_touch _ hist krule now Ht1). set (m2 := <[krule := _]> (<[kip := _]> m)) in *.
  destruct (canAllow_current hist kip publicWafCaptchaVerifyIPLimit now) as [r1 E1].
  destruct (canAllow_current hist krule publicWafCaptchaVerifyRuleLimit now) as [r2 E2].
  change publicWafCaptchaVerifyWindow with minute. rewrite E1, E2. unfold record, grantable, verifyLimits.
  cbn [forallb fst snd vListener vRule vIP]. fold kip krule. rewrite andb_true_r, <- negb_andb.
  assert (Hr : m2 !! krule = Some (current hist krule now)) by apply lookup_insert_eq.
  assert (Hi : m2 !! kip = Some (current hist kip now))
    by (unfold m2; rewrite lookup_insert_ne by done; apply lookup_insert_eq).
  destruct (_ && _) eqn:E; cbn [negb keys]; (split; [done|]).
  - rewrite (writeBack_present krule) by (by rewrite Hr). rewrite writeBack_present by (rewrite lookup_insert_ne by done; by rewrite Hi).
    apply (tracks_grant m2); [done| |].
    + intros k Hk. cbn [map fst] in Hk. destruct (decide (k = kip)) as [->|Hki]; [apply lookup_insert_eq|].
      assert (k = krule) as -> by set_solver. rewrite lookup_insert_ne by done. apply lookup_insert_eq.
    + intros k Hk. cbn [map fst] in Hk. rewrite !lookup_insert_ne by set_solver. done.
  - rewrite (writeBack_present krule) by (by rewrite Hr). rewrite (insert_id m2 krule) by done.
    rewrite writeBack_present by (by rewrite Hi). by rewrite insert_id.
Qed.

Lemma reserved_step l hist t c : tracks l.(keys) hist t → t ≤ c.(rTime) →
  (size l.(keys) + 2 ≤ publicWafCaptchaVerifyMaxKeys)%nat →
  let '(l', retry, ok) := allowReserved order l c.(rListener) c.(rPath) c.(rIP) c.(rTime) in
  ok = grantable hist (reservedLimits c) c.(rTime) ∧
  tracks l'.(keys) (record hist (reservedLimits c) c.(rTime)) c.(rTime).
Proof.
  intros Ht Hle Hs. destruct c as [ls path ip now]. cbn [rTime rListener rPath rIP] in *.
  apply (tracks_later _ _ _ _ Hle), tracks_pruneLocked in Ht. unfold allowReserved. cbv zeta.
  change (pruneLocked publicWafReservedEndpointPruneInterval publicWafReservedEndpointIdleTTL l now)
    with (pruneLocked publicWafCaptchaVerifyPruneInterval publicWafCaptchaVerifyIdleTTL l now).
  change publicWafReservedEndpointMaxKeys with publicWafCaptchaVerifyMaxKeys.
  change publicWafReservedEndpointWindow with minute.
  pose proof (prune_size l now) as Hp. destruct (pruneLocked _ _ l now) as [m lp]. cbn [keys] in *.
  set (kip := reservedIPKey ls path ip) in *. set (kpath := reservedPathKey ls path) in *.
  assert (Hne : kip ≠ kpath) by apply reserved_keys_ne.
  rewrite (bucket_tracks order _ m hist kip now Ht) by lia.
  assert (Ht1 := tracks_touch m hist kip now Ht). pose proof (insert_size_le m kip (current hist kip now)) as Hs1.
  set (m1 := <[kip := _]> m) in *.
  assert (Hi : m1 !! kip = Some (current hist kip now)) by apply lookup_insert_eq.
  destruct (canAllow_current hist kip publicWafReservedEndpointIPLimit now) as [r1 E1]. rewrite E1.
  rewrite (writeBack_present kip (current hist kip now)) by (by rewrite Hi). rewrite (insert_id m1 kip) by done.
  unfold record, grantable, reservedLimits. cbn [rListener rPath rIP]. fold kip kpath. cbn [forallb fst snd].
  destruct (hits hist kip (win now) <? publicWafReservedEndpointIPLimit) eqn:Eip; cbn [negb andb]; [|done].
  destruct (String.eqb path publicWafWaitingRoomStatusPath); cbn [forallb fst snd].
  - split; [done|]. rewrite writeBack_present by (by rewrite Hi). apply (tracks_grant m1); [done| |]; cbn [map fst keys].
    + intros k Hk. apply list_elem_of_singleton in Hk as ->. apply lookup_insert_eq.
    + intros k Hk. rewrite lookup_insert_ne by set_solver. done.
  - rewrite (bucket_tracks order _ m1 hist kpath now Ht1) by lia. assert (Ht2 := tracks_touch m1 hist kpath now Ht1).
    set (m2 := <[kpath := _]> m1) in *.
    destruct (canAllow_current hist kpath publicWafReservedEndpointPathLimit now) as [r2 E2]. rewrite E2.
    assert (Hr : m2 !! kpath = Some (current hist kpath now)) by apply lookup_insert_eq.
    assert (Hi2 : m2 !! kip = Some (current hist kip now)) by (unfold m2; by rewrite lookup_insert_ne).
    rewrite (writeBack_present kpath (current hist kpath now)) by (by rewrite Hr). rewrite (insert_id m2 kpath) by done.
    destruct (hits hist kpath (win now) <? publicWafReservedEndpointPathLimit) eqn:Epath; cbn [negb andb]; [|done].
    split; [done|]. rewrite (writeBack_present kip) by (by rewrite Hi2).
    rewrite writeBack_present by (by rewrite lookup_insert_ne, Hr). apply (tracks_grant m2); [done| |]; cbn [map fst keys].
    + intros k Hk. destruct (decide (k = kpath)) as [->|Hkp]; [apply lookup_insert_eq|].
      assert (k = kip) as -> by set_solver. rewrite lookup_insert_ne by done. apply lookup_insert_eq.
    + intros k Hk. rewrite !lookup_insert_ne by set_solver. done.
Qed.

(** ** Runs *)

(** The answers, and whether every call found room for its buckets. *)
Fixpoint runVerify (l : limiter) (calls : list verifyCall) : list bool * bool :=
  match calls with
  | [] => ([], true)
  | c :: calls =>
      let roomy := (size l.(keys) + 2 <=? publicWafCaptchaVerifyMaxKeys)%nat in
      let '(l, _, ok) := allowVerify order l c.(vListener) c.(vRule) c.(vIP) c.(vTime) in
      let '(oks, rest) := runVerify l calls in (ok :: oks, roomy && rest)
  end.
Fixpoint runReserved (l : limiter) (calls : list reservedCall) : list bool * bool :=
  match calls with
  | [] => ([], true)
  | c :: calls =>
      let roomy := (size l.(keys) + 2 <=? publicWafCaptchaVerifyMaxKeys)%nat in
      let '(l, _, ok) := allowReserved order l c.(rListener) c.(rPath) c.(rIP) c.(rTime) in
      let '(oks, rest) := runReserved l calls in (ok :: oks, roomy && rest)
  end.

Definition verifyRef (calls : list verifyCall) : list (list (string * Z) * Z) := map (λ c, (verifyLimits c, c.(vTime))) calls.
Definition reservedRef (calls : list reservedCall) : list (list (string * Z) * Z) :=
  map (λ c, (reservedLimits c, c.(rTime))) calls.

Lemma runVerify_exact calls : ∀ l hist t, tracks l.(keys) hist t → StronglySorted Z.le (t :: map vTime calls) →
  (runVerify l calls).2 = true → (runVerify l calls).1 = refRun hist (verifyRef calls).
Proof.
  induction calls as [|c calls IH]; intros l hist t Ht Hs Hr; [done|]. cbn [map] in Hs.
  apply StronglySorted_inv in Hs as [Hs Hf]. apply Forall_cons in Hf as [Hle _]. cbn [runVerify verifyRef map refRun] in *.
  pose proof (verify_step l hist t c Ht Hle) as Hstep. destruct (allowVerify _ _ _ _ _ _) as [[l' retry] ok].
  specialize (IH l'). destruct (runVerify l' calls) as [oks rest]. cbn [fst snd] in *.
  apply andb_true_iff in Hr as [Hroom Hrest]. apply Nat.leb_le in Hroom. destruct (Hstep Hroom) as [-> Htr].
  f_equal. by apply (IH _ _ Htr).
Qed.

Lemma runReserved_exact calls : ∀ l hist t, tracks l.(keys) hist t → StronglySorted Z.le (t :: map rTime calls) →
  (runReserved l calls).2 = true → (runReserved l calls).1 = refRun hist (reservedRef calls).
Proof.
  induction calls as [|c calls IH]; intros l hist t Ht Hs Hr; [done|]. cbn [map] in Hs.
  apply StronglySorted_inv in Hs as [Hs Hf]. apply Forall_cons in Hf as [Hle _]. cbn [runReserved reservedRef map refRun] in *.
  pose proof (reserved_step l hist t c Ht Hle) as Hstep. destruct (allowReserved _ _ _ _ _ _) as [[l' retry] ok].
  specialize (IH l'). destruct (runReserved l' calls) as [oks rest]. cbn [fst snd] in *.
  apply andb_true_iff in Hr as [Hroom Hrest]. apply Nat.leb_le in Hroom. destruct (Hstep Hroom) as [-> Htr].
  f_equal. by apply (IH _ _ Htr).
Qed.
End steps.

(** A key that always counts with the same limit never exceeds it in a minute. *)
Lemma refHistory_bound k limit w calls : 0 ≤ limit → ∀ hist,
  (∀ c n, c ∈ calls → (k, n) ∈ c.1 → n = limit) → (∀ w, hits hist k w ≤ limit) → hits (refHistory hist calls) k w ≤ limit.
Proof.
  intros HL. induction calls as [|[lims t] calls IH]; intros hist Hc Hh; [done|]. cbn [refHistory]. apply IH.
  { intros c n Hin. apply Hc. by right. }
  intros w'. unfold record. destruct (grantable hist lims t) eqn:E; [|done]. rewrite hits_app.
  destruct (decide _) as [[Hk Hw]|_]; [|specialize (Hh w'); lia]. simpl in Hw. subst w'.
  simpl in Hk. apply list_elem_of_fmap in Hk as ([k' n] & -> & Hk). unfold grantable in E. rewrite forallb_forall in E.
  specialize (E (k', n) ltac:(by apply list_elem_of_In)). simpl in E. bprop.
  rewrite (Hc (lims, t) n ltac:(left) Hk) in E. simpl. lia.
Qed.

(** The calls a run granted. *)
Definition grantedCalls {A} (calls : list A) (oks : list bool) : list A :=
  map fst (filter (λ p, p.2 = true) (zip calls oks)).

Lemma refHistory_granted {A} (lims : A → list (string * Z)) (time : A → Z) (calls : list A) : ∀ hist,
  refHistory hist (map (λ c, (lims c, time c)) calls)
  = hist ++ map (λ c, (map fst (lims c), time c)) (grantedCalls calls (refRun hist (map (λ c, (lims c, time c)) calls))).
Proof.
  induction calls as [|c calls IH]; intros hist; [by rewrite app_nil_r|]. cbn [map refHistory refRun].
  rewrite IH. unfold grantedCalls. cbn [zip_with]. unfold record. destruct (grantable hist (lims c) (time c)) eqn:E.
  - rewrite filter_cons_True by done. cbn [map fst]. by rewrite <- app_assoc.
  - by rewrite filter_cons_False by done.
Qed.

Lemma granted_bound {A} (lims : A → list (string * Z)) (time : A → Z) (calls : list A) (P : A → Prop)
    `{∀ c, Decision (P c)} k limit :
  0 ≤ limit → (∀ c n, c ∈ calls → (k, n) ∈ lims c → n = limit) →
  ∀ w, (∀ c, P c → k ∈ map fst (lims c) ∧ win (time c) = w) →
  Z.of_nat (length (filter P (grantedCalls calls (refRun [] (map (λ c, (lims c, time c)) calls))))) ≤ limit.
Proof.
  intros HL Hk w HP. pose proof (refHistory_bound k limit w (map (λ c, (lims c, time c)) calls) HL []) as Hb.
  rewrite refHistory_granted in Hb. cbn [app] in Hb. etrans; [|apply Hb].
  - unfold hits. apply Nat2Z.inj_le. set (l := grantedCalls _ _). clearbody l. clear -HP.
    induction l as [|c l IH]; [done|]. cbn [map]. destruct (decide (P c)) as [Hc|Hc].
    + rewrite filter_cons_True by done. rewrite filter_cons_True by (by apply HP). simpl. lia.
    + rewrite filter_cons_False by done. rewrite filter_cons. case_decide; simpl; lia.
  - intros c n Hin Hn. apply list_elem_of_fmap in Hin as (c' & -> & Hin). by apply (Hk c').
  - intros w'. exact HL.
Qed.

(** ** Theorems *)

(** Captcha verifications: as long as the table has room for the two buckets of a call,
    the limiter answers exactly as counting all grants does, and so in any minute grants
    at most [publicWafCaptchaVerifyIPLimit] calls of one address on one rule and at most
    [publicWafCaptchaVerifyRuleLimit] calls on one rule. *)
Theorem captcha_verify_limited order calls listenerID ruleID remoteIP w :
  StronglySorted Z.le (unixEpoch :: map vTime calls) →
  (runVerify order newPublicWafCaptchaVerifyLimiter calls).2 = true →
  let oks := (runVerify order newPublicWafCaptchaVerifyLimiter calls).1 in
  oks = refRun [] (verifyRef calls) ∧
  Z.of_nat (length (filter (λ c, c.(vListener) = listenerID ∧ c.(vRule) = ruleID ∧ c.(vIP) = remoteIP ∧ win c.(vTime) = w)
    (grantedCalls calls oks))) ≤ publicWafCaptchaVerifyIPLimit ∧
  Z.of_nat (length (filter (λ c, c.(vListener) = listenerID ∧ c.(vRule) = ruleID ∧ win c.(vTime) = w)
    (grantedCalls calls oks))) ≤ publicWafCaptchaVerifyRuleLimit.
Proof.
  intros Hs Hr. cbv zeta. rewrite (runVerify_exact order calls newPublicWafCaptchaVerifyLimiter [] unixEpoch);
    [|by apply tracks_empty|done|done].
  split; [done|]. unfold verifyRef. split.
  - apply (granted_bound verifyLimits vTime calls _ (ipKey listenerID ruleID remoteIP) publicWafCaptchaVerifyIPLimit) with (w := w); [vm_compute; congruence| |].
    + intros c n _ Hin. unfold verifyLimits in Hin. apply elem_of_cons in Hin as [E|Hin]; [exact (f_equal snd E)|].
      apply list_elem_of_singleton in Hin. exfalso. exact (verify_keys_ne _ _ _ _ _ (f_equal fst Hin)).
    + intros c (<- & <- & <- & <-). split; [left|done].
  - apply (granted_bound verifyLimits vTime calls _ (ruleKey listenerID ruleID) publicWafCaptchaVerifyRuleLimit) with (w := w); [vm_compute; congruence| |].
    + intros c n _ Hin. unfold verifyLimits in Hin. apply elem_of_cons in Hin as [E|Hin].
      * exfalso. symmetry in E. exact (verify_keys_ne _ _ _ _ _ (f_equal fst E)).
      * apply list_elem_of_singleton in Hin. exact (f_equal snd Hin).
    + intros c (<- & <- & <-). split; [right; left|done].
Qed.

Definition exOrder (m : gmap string publicWafFixedWindowBucket) : list string := map fst (map_to_list m).
Definition exCalls : list verifyCall :=
  map (λ i, mkVerify 1 2 "10.0.0.1" (unixEpoch + Z.of_nat i * second)) (seq 0 12).

Lemma captcha_verify_limited_witness :
  (runVerify exOrder newPublicWafCaptchaVerifyLimiter exCalls).1 = replicate 10 true ++ [false; false] ∧
  Z.of_nat (length (filter (λ c, c.(vListener) = 1 ∧ c.(vRule) = 2 ∧ c.(vIP) = "10.0.0.1" ∧ win c.(vTime) = 0)
    (grantedCalls exCalls (runVerify exOrder newPublicWafCaptchaVerifyLimiter exCalls).1))) ≤ 10.
Proof.
  split; [vm_compute; reflexivity|].
  assert (Hs : StronglySorted Z.le (unixEpoch :: map vTime exCalls)).
  { apply Sorted_StronglySorted; [intros ???; lia|]. vm_compute. repeat constructor; congruence. }
  assert (Hr : (runVerify exOrder newPublicWafCaptchaVerifyLimiter exCalls).2 = true) by (vm_compute; reflexivity).
  exact (proj1 (proj2 (captcha_verify_limited exOrder exCalls 1 2 "10.0.0.1" 0 Hs Hr))).
Defined.

(** Reserved WAF endpoints: the same, with at most [publicWafReservedEndpointIPLimit]
    calls of one address on one path in a minute, and at most
    [publicWafReservedEndpointPathLimit] calls on one path, polls of the waiting room
    excepted. *)
Theorem captcha_reserved_limited order calls listenerID path remoteIP w :
  StronglySorted Z.le (unixEpoch :: map rTime calls) →
  (runReserved order newPublicWafReservedEndpointLimiter calls).2 = true →
  let oks := (runReserved order newPublicWafReservedEndpointLimiter calls).1 in
  oks = refRun [] (reservedRef calls) ∧
  Z.of_nat (length (filter (λ c, c.(rListener) = listenerID ∧ c.(rPath) = path ∧ c.(rIP) = remoteIP ∧ win c.(rTime) = w)
    (grantedCalls calls oks))) ≤ publicWafReservedEndpointIPLimit ∧
  (path ≠ publicWafWaitingRoomStatusPath →
   Z.of_nat (length (filter (λ c, c.(rListener) = listenerID ∧ c.(rPath) = path ∧ win c.(rTime) = w)
    (grantedCalls calls oks))) ≤ publicWafReservedEndpointPathLimit).
Proof.
  intros Hs Hr. cbv zeta. rewrite (runReserved_exact order calls newPublicWafReservedEndpointLimiter [] unixEpoch);
    [|by apply tracks_empty|done|done].
  split; [done|]. unfold reservedRef. split; [|intros Hpath].
  - apply (granted_bound reservedLimits rTime calls _ (reservedIPKey listenerID path remoteIP) publicWafReservedEndpointIPLimit) with (w := w); [vm_compute; congruence| |].
    + intros c n _ Hin. unfold reservedLimits in Hin. apply elem_of_cons in Hin as [E|Hin]; [exact (f_equal snd E)|].
      case_match; [by apply not_elem_of_nil in Hin|].
      apply list_elem_of_singleton in Hin. exfalso. exact (reserved_keys_ne _ _ _ _ _ (f_equal fst Hin)).
    + intros c (<- & <- & <- & <-). split; [left|done].
  - apply (granted_bound reservedLimits rTime calls _ (reservedPathKey listenerID path) publicWafReservedEndpointPathLimit) with (w := w); [vm_compute; congruence| |].
    + intros c n _ Hin. unfold reservedLimits in Hin. apply elem_of_cons in Hin as [E|Hin].
      * exfalso. symmetry in E. exact (reserved_keys_ne _ _ _ _ _ (f_equal fst E)).
      * case_match; [by apply not_elem_of_nil in Hin|]. apply list_elem_of_singleton in Hin. exact (f_equal snd Hin).
    + intros c (<- & <- & <-). split; [|done]. unfold reservedLimits.
      apply String.eqb_neq in Hpath. rewrite Hpath. right. left.
Qed.

Lemma captcha_reserved_limited_witness :
  let calls := [mkReserved 1 "/.p2pstream/waf/captcha/verify" "10.0.0.1" unixEpoch] in
  Z.of_nat (length (filter (λ c, c.(rListener) = 1 ∧ c.(rPath) = "/.p2pstream/waf/captcha/verify" ∧ c.(rIP) = "10.0.0.1" ∧ win c.(rTime) = 0)
    (grantedCalls calls (runReserved exOrder newPublicWafReservedEndpointLimiter calls).1))) ≤ 60.
Proof.
  intros calls.
  assert (Hs : StronglySorted Z.le (unixEpoch :: map rTime calls)).
  { apply Sorted_StronglySorted; [intros ???; lia|]. vm_compute. repeat constructor; congruence. }
  assert (Hr : (runReserved exOrder newPublicWafReservedEndpointLimiter calls).2 = true) by (vm_compute; reflexivity).
  exact (proj1 (proj2 (captcha_reserved_limited exOrder calls 1 "/.p2pstream/waf/captcha/verify" "10.0.0.1" 0 Hs Hr))).
Defined.

End CaptchaLimiter.
