(* ===== verification/Waf.v ===== *)
(** The web application firewall (internal/server/public_waf.go, public_waf_geo.go and the
    handlers of public_waf_captcha.go and public_waf_waiting_room.go): its rules in
    order, automatic activation under pressure, the captcha and waiting-room actions and
    the endpoints that serve them.

    The pressure signals of other components (active requests of targets and agents,
    CPU), the country database, the captcha service and the random session identifier
    are arguments. *)

From S2P Require Import Prelude.
From S2P Require Import GoStrings.
From S2P Require Import GoFloat.
From S2P Require Import GoBase64.
From S2P Require Import NetIP.
From S2P Require Import ClientIdentity.
From S2P Require Import WaitingRoomQueue.
From S2P Require Import WafCookies.
From S2P Require Import WaitingRoom.
From S2P Require Import RateLimiter.
From S2P Require Import CaptchaLimiter.
From Stdlib Require Import Ascii Sorted.

Module Waf.
Import NetIP.
Import ClientIdentity.
Import WafCookies.
Import WaitingRoom.

Definition publicWafActivationAutomatic := "automatic".
Definition publicWafGeoModeSelected := "selected_countries".
Definition publicWafGeoModeOutsideSelected := "outside_selected_countries".
Definition publicWafGeoUnknownBypassRule := "bypass_rule".
Definition defaultWafTriggerRequestWindow : Z := 10 * second.
Definition defaultWafBlockContentType := "text/plain; charset=utf-8".
Definition publicPolicyMatchFailureErrorKind := "policy_match_failed".
Definition newline : string := String (Ascii.ascii_of_nat 10) "".
Definition publicPolicyMatchFailureBody := ("Service Unavailable" ++ newline)%string.
Definition publicWafCaptchaVerifyMaxConcurrentCalls : Z := 32.
Definition StatusForbidden : Z := 403.
Definition StatusNotFound : Z := 404.
Definition StatusBadRequest : Z := 400.
Definition StatusMethodNotAllowed : Z := 405.
Definition StatusRequestEntityTooLarge : Z := 413.
Definition StatusTooManyRequests : Z := 429.

(** ** State *)

Record publicWafRuleRuntime := mkWafRuntime {
  wFingerprint : string;
  requestHits : list Z;
  baselineRPS : float64;
  pressureStartedAt : Z;
  quietStartedAt : Z;
  automaticActive : bool;
  waitingRoom : WaitingRoomQueue.publicWaitingRoomRuntime }.

Record publicWAF := mkWAF {
  rules : gmap Z publicWafRuleRuntime;
  cookieSecret : string;
  proxyActiveRequests : Z;
  captchaVerifyLimiter : CaptchaLimiter.limiter;
  reservedEndpointLimiter : CaptchaLimiter.limiter;
  captchaVerifySlots : Z;
  lastCPUSampleAt : Z;
  lastCPUPercent : float64 }.

(** The part of a snapshot the WAF reads. *)
Record publicProxySnapshot := mkSnapshot {
  WafRules : list publicWafRuleConfig;
  WafCaptchaProviders : gmap Z publicWafCaptchaProviderConfig;
  Listeners : gmap Z publicListenerConfig;
  RouteTargets : list Z;
  WafCookieSecret : string }.

(** What the WAF asks of other components at one time: the active requests of a target
    and of each connected agent, the last agent report (active requests, CPU), the CPU
    sample of the server, and the country of an address ([None] is an error). *)
Record App := mkApp {
  targetActiveRequests : Z → Z;
  agentActiveRequests : list Z;
  LatestAgentStats : option (Z * float64);
  cpuSample : option float64;
  LookupCountry : option (Addr → option (string * bool)) }.

Definition newPublicWAF : publicWAF :=
  mkWAF ∅ "" 0 CaptchaLimiter.newPublicWafCaptchaVerifyLimiter
    CaptchaLimiter.newPublicWafReservedEndpointLimiter 0 0 (float_of_int 0).

Definition newRuntime (fp : string) : publicWafRuleRuntime :=
  mkWafRuntime fp [] (float_of_int 0) 0 0 false WaitingRoomQueue.newPublicWaitingRoomRuntime.

Definition setRules (w : publicWAF) (m : gmap Z publicWafRuleRuntime) : publicWAF :=
  mkWAF m w.(cookieSecret) w.(proxyActiveRequests) w.(captchaVerifyLimiter) w.(reservedEndpointLimiter)
    w.(captchaVerifySlots) w.(lastCPUSampleAt) w.(lastCPUPercent).
Definition setCPU (w : publicWAF) (at_ : Z) (percent : float64) : publicWAF :=
  mkWAF w.(rules) w.(cookieSecret) w.(proxyActiveRequests) w.(captchaVerifyLimiter)
    w.(reservedEndpointLimiter) w.(captchaVerifySlots) at_ percent.
Definition setRoom (rt : publicWafRuleRuntime) (room : WaitingRoomQueue.publicWaitingRoomRuntime)
    : publicWafRuleRuntime :=
  mkWafRuntime rt.(wFingerprint) rt.(requestHits) rt.(baselineRPS) rt.(pressureStartedAt)
    rt.(quietStartedAt) rt.(automaticActive) room.

(** ** Operations *)

Definition storeCookieSecret (w : publicWAF) (secret : string) : publicWAF :=
  if String.eqb secret "" then w
  else mkWAF w.(rules) secret w.(proxyActiveRequests) w.(captchaVerifyLimiter) w.(reservedEndpointLimiter)
         w.(captchaVerifySlots) w.(lastCPUSampleAt) w.(lastCPUPercent).

(** [beginProxyRequest] and the function it returns. *)
Definition beginProxyRequest (w : publicWAF) (delta : Z) : publicWAF :=
  mkWAF w.(rules) w.(cookieSecret) (i64 (w.(proxyActiveRequests) + delta)) w.(captchaVerifyLimiter)
    w.(reservedEndpointLimiter) w.(captchaVerifySlots) w.(lastCPUSampleAt) w.(lastCPUPercent).

Definition keepOf (config : list publicWafRuleConfig) : gmap Z string :=
  fold_left (λ m rule, if rule.(RuleEnabled) then <[rule.(RuleID) := rule.(Fingerprint)]> m else m) config ∅.

Definition reconcile (w : publicWAF) (snap : option publicProxySnapshot) : publicWAF :=
  let keep := match snap with Some s => keepOf s.(WafRules) | None => ∅ end in
  let w := match snap with Some s => storeCookieSecret w s.(WafCookieSecret) | None => w end in
  setRules w (map_imap (λ id fp,
    Some (match w.(rules) !! id with
          | Some rt => if String.eqb rt.(wFingerprint) fp then rt else newRuntime fp
          | None => newRuntime fp
          end)) keep).

(** The runtime of a rule; a new one when the rule has changed. *)
Definition runtimeLocked (w : publicWAF) (rule : publicWafRuleConfig) : publicWAF * publicWafRuleRuntime :=
  match w.(rules) !! rule.(RuleID) with
  | Some rt =>
      if String.eqb rt.(wFingerprint) rule.(Fingerprint) then (w, rt)
      else (setRules w (<[rule.(RuleID) := newRuntime rule.(Fingerprint)]> w.(rules)), newRuntime rule.(Fingerprint))
  | None => (setRules w (<[rule.(RuleID) := newRuntime rule.(Fingerprint)]> w.(rules)), newRuntime rule.(Fingerprint))
  end.
Definition storeRuntime (w : publicWAF) (rule : publicWafRuleConfig) (rt : publicWafRuleRuntime) : publicWAF :=
  setRules w (<[rule.(RuleID) := rt]> w.(rules)).

(** *** Countries *)

Definition geoEnabled (g : publicWafGeoRestrictionConfig) : bool :=
  String.eqb g.(GeoMode) publicWafGeoModeSelected || String.eqb g.(GeoMode) publicWafGeoModeOutsideSelected.

Definition geoMatches (g : publicWafGeoRestrictionConfig) (countryCode : string) (known : bool) : bool :=
  if negb (geoEnabled g) then true
  else
    let code := ToUpper (TrimSpace countryCode) in
    if negb known || String.eqb code "" then negb (String.eqb g.(UnknownBehavior) publicWafGeoUnknownBypassRule)
    else
      let selected := existsb (λ candidate, EqualFold (TrimSpace candidate) code) g.(CountryCodes) in
      if String.eqb g.(GeoMode) publicWafGeoModeOutsideSelected then negb selected else selected.

Definition publicRequestResolvedAddr (r : httpRequest) : option Addr :=
  match ClientIdentityFromContext r with
  | Some _ => ClientIdentityResolved r
  | None => peerAddrFromRequest r.(RemoteAddr)
  end.

Definition evaluatePublicWafGeoRestriction (app : App) (r : httpRequest) (g : publicWafGeoRestrictionConfig)
    : bool * string * bool :=
  if negb (geoEnabled g) then (true, "", false)
  else
    let unknown := (geoMatches g "" false, "", false) in
    match publicRequestResolvedAddr r, app.(LookupCountry) with
    | Some addr, Some lookup =>
        match lookup addr with
        | None => unknown
        | Some (code, known) =>
            let code := ToUpper (TrimSpace code) in
            let known := known && negb (String.eqb code "") in
            (geoMatches g code known, code, known)
        end
    | _, _ => unknown
    end.

Definition publicWafDecisionWithGeo (d : publicWafDecision) (g : publicWafGeoRestrictionConfig)
    (countryCode : string) (known : bool) : publicWafDecision :=
  mkDecision d.(dRule) d.(dListener) d.(dMatchError) d.(dAction) d.(dStatusCode) d.(dErrorKind) d.(dBody)
    d.(dContentType) d.(dHeaders) d.(dRetryAfter) d.(dCookies) d.(dRedirectLocation) d.(dAutomaticActive)
    d.(dChallengeKind) d.(dQueuePosition) d.(dCaptchaProvider) d.(dCaptchaChallengeToken)
    d.(dCaptchaReturnTo) countryCode known (geoEnabled g).

(** *** Automatic activation *)

(** The hits not before the cutoff, found from the front. *)
Fixpoint dropBefore (cutoff : Z) (hits : list Z) : list Z :=
  match hits with
  | [] => []
  | h :: hits' => if before h cutoff then dropBefore cutoff hits' else hits
  end.

Definition recordAndRate (rt : publicWafRuleRuntime) (rule : publicWafRuleConfig) (now : Z)
    : publicWafRuleRuntime * float64 :=
  let window := millisOr rule.(Triggers).(RequestWindowMillis) defaultWafTriggerRequestWindow in
  let hits := dropBefore (now - window) rt.(requestHits) ++ [now] in
  (mkWafRuntime rt.(wFingerprint) hits rt.(baselineRPS) rt.(pressureStartedAt) rt.(quietStartedAt)
     rt.(automaticActive) rt.(waitingRoom),
   fdiv (float_of_int (Z.of_nat (length hits))) (Seconds window)).

Definition serverCPUPercentLocked (w : publicWAF) (app : App) (now : Z) : publicWAF * float64 :=
  if negb (is_zero_time w.(lastCPUSampleAt)) && (time_sub now w.(lastCPUSampleAt) <? 5 * second)
  then (w, w.(lastCPUPercent))
  else match app.(cpuSample) with
       | None => (setCPU w now (float_of_int 0), float_of_int 0)
       | Some percent => (setCPU w now percent, percent)
       end.

Definition maxPublicRouteTargetActiveRequests (app : App) (snap : publicProxySnapshot) : Z :=
  fold_left (λ acc id, if acc <? app.(targetActiveRequests) id then app.(targetActiveRequests) id else acc)
    snap.(RouteTargets) 0.

Definition maxAgentActiveRequests (app : App) : Z :=
  let maxActive := fold_left (λ acc active, if acc <? active then active else acc) app.(agentActiveRequests) 0 in
  match app.(LatestAgentStats) with
  | Some (active, _) => if maxActive <? active then active else maxActive
  | None => maxActive
  end.

Definition maxAgentCPUPercent (app : App) : float64 :=
  match app.(LatestAgentStats) with Some (_, cpu) => cpu | None => float_of_int 0 end.

Definition fzero : float64 := float_of_int 0.

(** Whether any trigger of the rule fires at a request rate. *)
Definition pressureOf (w : publicWAF) (rt : publicWafRuleRuntime) (rule : publicWafRuleConfig)
    (snap : publicProxySnapshot) (app : App) (now : Z) (rate : float64) : publicWAF * bool :=
  let t := rule.(Triggers) in
  let '(w, cpuFires) :=
    if fgt t.(ServerCPUPercent) fzero
    then let '(w, cpu) := serverCPUPercentLocked w app now in (w, fge cpu t.(ServerCPUPercent))
    else (w, false) in
  (w,
   ((0 <? t.(MinimumRequestRate)) && fge rate (float_of_int t.(MinimumRequestRate)))
   || (fgt t.(TrafficSpikeMultiplier) fzero && fgt rt.(baselineRPS) fzero
       && fge rate (fmul rt.(baselineRPS) t.(TrafficSpikeMultiplier)))
   || ((0 <? t.(ProxyActiveRequests)) && (t.(ProxyActiveRequests) <=? w.(proxyActiveRequests)))
   || ((0 <? t.(RouteTargetActiveRequests))
       && (t.(RouteTargetActiveRequests) <=? maxPublicRouteTargetActiveRequests app snap))
   || ((0 <? t.(AgentActiveRequests)) && (t.(AgentActiveRequests) <=? maxAgentActiveRequests app))
   || cpuFires
   || (fgt t.(AgentCPUPercent) fzero && fge (maxAgentCPUPercent app) t.(AgentCPUPercent))).

(** The baseline follows the rate while the rule is inactive. *)
Definition updateBaseline (rt : publicWafRuleRuntime) (rate : float64) : publicWafRuleRuntime :=
  let baseline :=
    if negb rt.(automaticActive) && fgt rate fzero then
      if feq rt.(baselineRPS) fzero then rate
      else fadd (fmul rt.(baselineRPS) (fdiv (float_of_int 9) (float_of_int 10)))
                (fmul rate (fdiv (float_of_int 1) (float_of_int 10)))
    else rt.(baselineRPS) in
  mkWafRuntime rt.(wFingerprint) rt.(requestHits) baseline rt.(pressureStartedAt) rt.(quietStartedAt)
    rt.(automaticActive) rt.(waitingRoom).

Definition setActivation (rt : publicWafRuleRuntime) (pressureAt quietAt : Z) (active : bool)
    : publicWafRuleRuntime :=
  mkWafRuntime rt.(wFingerprint) rt.(requestHits) rt.(baselineRPS) pressureAt quietAt active rt.(waitingRoom).

Definition activate (rt : publicWafRuleRuntime) (minActive quiet now : Z) (pressure : bool)
    : publicWafRuleRuntime :=
  if pressure then
    let started := if is_zero_time rt.(pressureStartedAt) then now else rt.(pressureStartedAt) in
    setActivation rt started 0
      (if (minActive <=? 0) || (minActive <=? time_sub now started) then true else rt.(automaticActive))
  else if rt.(automaticActive) then
    let started := if is_zero_time rt.(quietStartedAt) then now else rt.(quietStartedAt) in
    if (quiet <=? 0) || (quiet <=? time_sub now started) then setActivation rt 0 0 false
    else setActivation rt 0 started true
  else setActivation rt 0 rt.(quietStartedAt) false.

Definition millisToDuration (ms : Z) : Z := i64 (ms * millisecond).

Definition updateAutomaticActivationLocked (w : publicWAF) (rt : publicWafRuleRuntime)
    (rule : publicWafRuleConfig) (snap : publicProxySnapshot) (app : App) (now : Z)
    : publicWAF * publicWafRuleRuntime * bool :=
  let '(rt, rate) := recordAndRate rt rule now in
  let '(w, pressure) := pressureOf w rt rule snap app now rate in
  let rt := updateBaseline rt rate in
  let rt := activate rt (millisToDuration rule.(Triggers).(MinimumActiveMillis))
    (millisToDuration rule.(Triggers).(QuietPeriodMillis)) now pressure in
  (w, rt, rt.(automaticActive)).

(** *** Evaluation *)

Definition wafDecision (rule : publicWafRuleConfig) (listener : publicListenerConfig) (action : string)
    (status : Z) (errorKind body contentType : string) (headers : list (string * string)) (automatic : bool)
    (challengeKind : string) (provider : option publicWafCaptchaProviderConfig) (token returnTo : string)
    : publicWafDecision :=
  mkDecision (Some rule) (Some listener) false action status errorKind body contentType headers 0 [] ""
    automatic challengeKind 0 provider token returnTo "" false false.

Definition matchErrorDecision (rule : publicWafRuleConfig) (listener : publicListenerConfig) : publicWafDecision :=
  mkDecision (Some rule) (Some listener) true "" StatusServiceUnavailable publicPolicyMatchFailureErrorKind
    publicPolicyMatchFailureBody defaultWafBlockContentType [] 0 [] "" false "" 0 None "" "" "" false false.

Section evaluate.
Context `{WafCodec}.

(** The action of a rule that applies. *)
Definition applyAction (w : publicWAF) (rule : publicWafRuleConfig) (snap : publicProxySnapshot)
    (listener : publicListenerConfig) (r : httpRequest) (now : Z) (automatic : bool)
    (country : string) (known : bool) (fresh : string) : publicWAF * publicWafDecision * bool :=
  let geo d := publicWafDecisionWithGeo d rule.(GeoRestriction) country known in
  if String.eqb rule.(Action) publicWafActionCaptcha then
    if validRuleCookieLocked w.(cookieSecret) r rule listener publicWafCaptchaCookieKind now
    then (w, emptyDecision, true)
    else
      match (match snap.(WafCaptchaProviders) !! rule.(CaptchaProviderID) with
             | Some p => if p.(ProviderEnabled) then Some p else None
             | None => None end) with
      | None =>
          (w, geo (wafDecision rule listener rule.(Action) StatusServiceUnavailable
                     "waf_captcha_provider_unavailable" ("Captcha provider unavailable" ++ newline)%string
                     defaultWafBlockContentType [] automatic publicWafActionCaptcha None "" ""), false)
      | Some provider =>
          let returnTo := sanitizeWAFReturnTo r.(RequestURI) in
          (w, geo (wafDecision rule listener rule.(Action) StatusForbidden "waf_captcha_required" "" "" []
                     automatic provider.(ProviderType) (Some provider)
                     (signCaptchaChallenge w.(cookieSecret) rule listener r returnTo now) returnTo), false)
      end
  else if String.eqb rule.(Action) publicWafActionWaitingRoom then
    let '(w, rt) := runtimeLocked w rule in
    let '(room, decision, allowed) :=
      evaluateLocked w.(cookieSecret) rt.(waitingRoom) rule listener r now automatic fresh in
    (storeRuntime w rule (setRoom rt room), geo decision, allowed)
  else
    (w, geo (wafDecision rule listener publicWafActionBlock rule.(BlockResponseStatusCode) "waf_blocked"
               rule.(BlockResponseBody) rule.(BlockResponseContentType) rule.(BlockResponseHeaders) automatic
               publicWafActionBlock None "" ""), false).

(** Whether an automatic rule is active now; a rule that is always active is. *)
Definition ruleActive (w : publicWAF) (rule : publicWafRuleConfig) (snap : publicProxySnapshot) (app : App)
    (now : Z) : publicWAF * bool * bool :=
  if String.eqb rule.(ActivationMode) publicWafActivationAutomatic then
    let '(w, rt) := runtimeLocked w rule in
    let '(w, rt, active) := updateAutomaticActivationLocked w rt rule snap app now in
    (storeRuntime w rule rt, active, active)
  else (w, true, false).

Fixpoint evaluateRules (w : publicWAF) (config : list publicWafRuleConfig) (snap : publicProxySnapshot)
    (listener : publicListenerConfig) (r : httpRequest) (now : Z) (app : App) (fresh : string)
    : publicWAF * publicWafDecision * bool :=
  match config with
  | [] => (w, emptyDecision, true)
  | rule :: config =>
      let next w := evaluateRules w config snap listener r now app fresh in
      if negb rule.(RuleEnabled) then next w
      else match rule.(Match) listener r with
      | None => (w, matchErrorDecision rule listener, false)
      | Some false => next w
      | Some true =>
          let '(geoOk, country, known) := evaluatePublicWafGeoRestriction app r rule.(GeoRestriction) in
          if negb geoOk then next w
          else
            let '(w, applies, automatic) := ruleActive w rule snap app now in
            if negb applies then next w
            else applyAction w rule snap listener r now automatic country known fresh
      end
  end.

Definition evaluate (w : publicWAF) (snap : publicProxySnapshot) (listener : publicListenerConfig)
    (r : httpRequest) (now : Z) (app : App) (fresh : string) : publicWAF * publicWafDecision * bool :=
  evaluateRules w snap.(WafRules) snap listener r now app fresh.

Definition checkPublicWAFWithSnapshot (w : publicWAF) (snap : option publicProxySnapshot) (listenerID : Z)
    (r : httpRequest) (now : Z) (app : App) (fresh : string) : publicWAF * publicWafDecision * bool :=
  match snap with
  | None => (w, emptyDecision, true)
  | Some snap =>
      if (length snap.(WafRules) =? 0)%nat then (w, emptyDecision, true)
      else match snap.(Listeners) !! listenerID with
           | None => (w, emptyDecision, true)
           | Some listener => evaluate w snap listener r now app fresh
           end
  end.

(** *** The captcha endpoint *)

(** What the body of a submission is. *)
Inductive formResult :=
  | FormTooLarge
  | FormInvalid
  | Form (values : gmap string string).

Definition formGet (f : gmap string string) (name : string) : string := default "" (f !! name).

Definition listenerOrBare (snap : publicProxySnapshot) (listenerID : Z) : publicListenerConfig :=
  default (mkListener listenerID "" "" 0 "" false) (snap.(Listeners) !! listenerID).

(** The first enabled captcha rule with this id, and its provider when it is enabled. *)
Fixpoint findCaptchaRule (config : list publicWafRuleConfig) (ruleID : Z) : option publicWafRuleConfig :=
  match config with
  | [] => None
  | rule :: config =>
      if negb (rule.(RuleID) =? ruleID) || negb (String.eqb rule.(Action) publicWafActionCaptcha)
         || negb rule.(RuleEnabled) then findCaptchaRule config ruleID
      else Some rule
  end.

Definition captchaDecision (rule : option publicWafRuleConfig) (listener : option publicListenerConfig)
    (status : Z) (errorKind challengeKind : string) (provider : option publicWafCaptchaProviderConfig)
    (token returnTo : string) : publicWafDecision :=
  mkDecision rule listener false publicWafActionCaptcha status errorKind "" "" [] 0 [] "" false challengeKind 0
    provider token returnTo "" false false.

Definition wafRuleAndProviderFromSnapshot (snap : option publicProxySnapshot) (ruleID listenerID : Z)
    : publicWafDecision * option (publicWafRuleConfig * publicWafCaptchaProviderConfig) :=
  let unavailable rule listener :=
    captchaDecision rule (Some listener) StatusServiceUnavailable "waf_captcha_provider_unavailable" "" None "" "" in
  match snap with
  | None => (unavailable None (mkListener listenerID "" "" 0 "" false), None)
  | Some snap =>
      let listener := listenerOrBare snap listenerID in
      match findCaptchaRule snap.(WafRules) ruleID with
      | None => (unavailable None listener, None)
      | Some rule =>
          match snap.(WafCaptchaProviders) !! rule.(CaptchaProviderID) with
          | Some p => if p.(ProviderEnabled) then (unavailable (Some rule) listener, Some (rule, p))
                      else (unavailable (Some rule) listener, None)
          | None => (unavailable (Some rule) listener, None)
          end
      end
  end.

Definition captchaEndpointKnown (providerType : string) : bool :=
  existsb (String.eqb providerType) ["turnstile"; "hcaptcha"; "recaptcha_v2"].

(** [siteverify] is the answer of the captcha service: success of a token for a provider
    and an address. *)
Definition verifyCaptcha (siteverify : publicWafCaptchaProviderConfig → string → string → bool)
    (provider : publicWafCaptchaProviderConfig) (token remoteIP : string) : bool :=
  captchaEndpointKnown provider.(ProviderType) &&
  siteverify provider token
    (if negb (String.eqb remoteIP "") && negb (String.eqb remoteIP RateLimiter.rateLimitMissingValue)
     then remoteIP else "").

Definition setVerifyLimiter (w : publicWAF) (l : CaptchaLimiter.limiter) : publicWAF :=
  mkWAF w.(rules) w.(cookieSecret) w.(proxyActiveRequests) l w.(reservedEndpointLimiter)
    w.(captchaVerifySlots) w.(lastCPUSampleAt) w.(lastCPUPercent).
Definition setReservedLimiter (w : publicWAF) (l : CaptchaLimiter.limiter) : publicWAF :=
  mkWAF w.(rules) w.(cookieSecret) w.(proxyActiveRequests) w.(captchaVerifyLimiter) l
    w.(captchaVerifySlots) w.(lastCPUSampleAt) w.(lastCPUPercent).

(** The first token of the submission. *)
Definition captchaToken (f : gmap string string) : string :=
  let t := TrimSpace (formGet f "cf-turnstile-response") in
  if negb (String.eqb t "") then t
  else let t := TrimSpace (formGet f "h-captcha-response") in
  if negb (String.eqb t "") then t else TrimSpace (formGet f "g-recaptcha-response").

(** The handler: the new state, the decision, and the cookie it sets.  A call holds one
    of the verification slots only while it asks the service. *)
Definition servePublicWAFCaptchaVerify (order : gmap string CaptchaLimiter.publicWafFixedWindowBucket → list string)
    (siteverify : publicWafCaptchaProviderConfig → string → string → bool) (w : publicWAF)
    (snap : option publicProxySnapshot) (r : httpRequest) (form : formResult) (listenerID now : Z)
    : publicWAF * publicWafDecision * option cookie :=
  let fail status kind := (w, captchaDecision None None status kind publicWafActionCaptcha None "" "", None) in
  if negb (String.eqb r.(Method) "POST") then fail StatusMethodNotAllowed "waf_captcha_method_not_allowed"
  else match form with
  | FormTooLarge => fail StatusRequestEntityTooLarge "waf_captcha_form_too_large"
  | FormInvalid => fail StatusBadRequest "waf_captcha_invalid_form"
  | Form f =>
      let ruleID := ParseIntValue (formGet f "rule_id") in
      let returnTo := sanitizeWAFReturnTo (formGet f "return_to") in
      match verifyCaptchaChallenge w.(cookieSecret) (TrimSpace (formGet f "captcha_challenge")) now with
      | None => fail StatusBadRequest "waf_captcha_invalid_challenge"
      | Some challenge =>
          if (ruleID <=? 0) || negb (ruleID =? challenge.(cRuleID)) || negb (listenerID =? challenge.(cListenerID))
             || negb (String.eqb returnTo challenge.(cReturnTo))
             || negb (String.eqb (publicWafChallengeRequestHost r) challenge.(cHost))
          then fail StatusBadRequest "waf_captcha_invalid_challenge"
          else
            let token := captchaToken f in
            match wafRuleAndProviderFromSnapshot snap ruleID listenerID with
            | (decision, None) => (w, decision, None)
            | (decision, Some (rule, provider)) =>
                let listener := default (mkListener listenerID "" "" 0 "" false) decision.(dListener) in
                if negb (String.eqb rule.(Fingerprint) challenge.(cRuleFingerprint)) then
                  (w, captchaDecision (Some rule) (Some listener) StatusBadRequest "waf_captcha_invalid_challenge"
                        "" None "" "", None)
                else
                  let answer status kind challengeToken :=
                    captchaDecision (Some rule) (Some listener) status kind provider.(ProviderType) (Some provider)
                      challengeToken returnTo in
                  let again := signCaptchaChallenge w.(cookieSecret) rule listener r returnTo now in
                  if String.eqb token "" then (w, answer StatusForbidden "waf_captcha_required" again, None)
                  else
                    let remoteIP := RateLimiter.remoteIPForRateLimit r in
                    let '(limiter, retryAfter, allowed) :=
                      CaptchaLimiter.allowVerify order w.(captchaVerifyLimiter) listenerID rule.(RuleID) remoteIP now in
                    let w := setVerifyLimiter w limiter in
                    if negb allowed then (w, answer StatusTooManyRequests "waf_captcha_rate_limited" "", None)
                    else if publicWafCaptchaVerifyMaxConcurrentCalls <=? w.(captchaVerifySlots) then
                      (w, answer StatusTooManyRequests "waf_captcha_busy" "", None)
                    else if negb (verifyCaptcha siteverify provider token remoteIP) then
                      (w, answer StatusForbidden "waf_captcha_failed" again, None)
                    else
                      (w, answer StatusSeeOther "" "",
                       Some (signedRuleCookie w.(cookieSecret) rule listener r publicWafCaptchaCookieKind ""
                               rule.(CaptchaPassTTL) now))
            end
      end
  end.

(** *** The waiting-room endpoint and the dispatch of reserved paths *)

Fixpoint findRoomRule (config : list publicWafRuleConfig) (ruleID : Z) : option publicWafRuleConfig :=
  match config with
  | [] => None
  | rule :: config =>
      if (rule.(RuleID) =? ruleID) && String.eqb rule.(Action) publicWafActionWaitingRoom then Some rule
      else findRoomRule config ruleID
  end.

Definition servePublicWAFWaitingRoomStatus (w : publicWAF) (snap : option publicProxySnapshot)
    (r : httpRequest) (listenerID now : Z) : publicWAF * publicWafDecision :=
  let ruleID := ParseIntValue (RateLimiter.queryGet r.(Query) "rule_id") in
  let notFound := mkDecision None None false publicWafActionWaitingRoom StatusNotFound "waf_waiting_room_not_found"
    "" "" [] 0 [] "" false "" 0 None "" "" "" false false in
  match snap with
  | None => (w, notFound)
  | Some snap =>
      if ruleID <=? 0 then (w, notFound)
      else match findRoomRule snap.(WafRules) ruleID with
      | None => (w, notFound)
      | Some rule =>
          let listener := listenerOrBare snap listenerID in
          if validRuleCookieLocked w.(cookieSecret) r rule listener publicWafAdmissionCookieKind now then
            (w, roomDecision rule listener StatusSeeOther "" "" [] 0 false 0)
          else
            let '(w, rt) := runtimeLocked w rule in
            let position :=
              match queueCookiePayloadLocked w.(cookieSecret) r rule listener now with
              | Some p => if String.eqb p.(pSessionID) "" then 0
                          else WaitingRoomQueue.positionLocked rt.(waitingRoom) p.(pSessionID)
              | None => 0
              end in
            (w, roomDecision rule listener StatusServiceUnavailable "waf_waiting_room" "" []
                  (millisToDuration rule.(WafCookies.WaitingRoom).(WaitingRoomQueue.QueuePollIntervalMillis))
                  false position)
      end
  end.

Definition publicWafReservedRateLimitDecision (listenerID : Z) (path : string) (retryAfter : Z) : publicWafDecision :=
  let kind :=
    if String.eqb path publicWafCaptchaVerifyPath then publicWafActionCaptcha
    else if String.eqb path publicWafWaitingRoomPath || String.eqb path publicWafWaitingRoomStatusPath
    then publicWafActionWaitingRoom else "" in
  mkDecision None (Some (mkListener listenerID "" "" 0 "" false)) false kind StatusTooManyRequests
    "waf_reserved_rate_limited" "" "" [] retryAfter [] "" false kind 0 None "" "" "" false false.

Definition servePublicWAFReserved (order : gmap string CaptchaLimiter.publicWafFixedWindowBucket → list string)
    (siteverify : publicWafCaptchaProviderConfig → string → string → bool) (w : publicWAF)
    (snap : option publicProxySnapshot) (r : httpRequest) (form : formResult) (listenerID now : Z)
    : publicWAF * option (publicWafDecision * option cookie) :=
  if negb (isPublicWAFReservedPath r.(URLPath)) then (w, None)
  else
    let '(limiter, retryAfter, allowed) :=
      CaptchaLimiter.allowReserved order w.(reservedEndpointLimiter) listenerID r.(URLPath)
        (RateLimiter.peerIPForRequest r) now in
    let w := setReservedLimiter w limiter in
    if negb allowed then (w, Some (publicWafReservedRateLimitDecision listenerID r.(URLPath) retryAfter, None))
    else if String.eqb r.(URLPath) publicWafCaptchaVerifyPath then
      let '(w, d, c) := servePublicWAFCaptchaVerify order siteverify w snap r form listenerID now in (w, Some (d, c))
    else
      let '(w, d) := servePublicWAFWaitingRoomStatus w snap r listenerID now in (w, Some (d, None)).
End evaluate.

(** ** The rule that decides *)

Inductive verdict :=
  | NoRule
  | MatchFailed (rule : publicWafRuleConfig)
  | Decides (rule : publicWafRuleConfig) (automatic : bool) (country : string) (known : bool).

Section verdict.
Context `{WafCodec} (snap : publicProxySnapshot) (listener : publicListenerConfig) (r : httpRequest)
  (now : Z) (app : App) (fresh : string).

(** The first enabled rule that matches the request and its country and is active. *)
Fixpoint decidingRule (w : publicWAF) (config : list publicWafRuleConfig) : publicWAF * verdict :=
  match config with
  | [] => (w, NoRule)
  | rule :: config =>
      if negb rule.(RuleEnabled) then decidingRule w config
      else match rule.(Match) listener r with
      | None => (w, MatchFailed rule)
      | Some false => decidingRule w config
      | Some true =>
          let '(geoOk, country, known) := evaluatePublicWafGeoRestriction app r rule.(GeoRestriction) in
          if negb geoOk then decidingRule w config
          else
            let '(w, applies, automatic) := ruleActive w rule snap app now in
            if negb applies then decidingRule w config else (w, Decides rule automatic country known)
      end
  end.

Lemma evaluateRules_verdict config : ∀ w,
  evaluateRules w config snap listener r now app fresh =
  match decidingRule w config with
  | (w, NoRule) => (w, emptyDecision, true)
  | (w, MatchFailed rule) => (w, matchErrorDecision rule listener, false)
  | (w, Decides rule automatic country known) =>
      applyAction w rule snap listener r now automatic country known fresh
  end.
Proof.
  induction config as [|rule config IH]; intros w; simpl; [done|].
  destruct (negb rule.(RuleEnabled)); [apply IH|]. destruct (rule.(Match) listener r) as [[]|]; [|apply IH|done].
  destruct (evaluatePublicWafGeoRestriction app r rule.(GeoRestriction)) as [[geoOk country] known].
  destruct (negb geoOk); [apply IH|]. destruct (ruleActive w rule snap app now) as [[w' applies] automatic].
  destruct (negb applies); [apply IH|done].
Qed.

(** The cookie that satisfies a rule. *)
Definition satisfied (secret : string) (rule : publicWafRuleConfig) : bool :=
  if String.eqb rule.(Action) publicWafActionCaptcha
  then validRuleCookieLocked secret r rule listener publicWafCaptchaCookieKind now
  else String.eqb rule.(Action) publicWafActionWaitingRoom
       && validRuleCookieLocked secret r rule listener publicWafAdmissionCookieKind now.

Lemma runtimeLocked_secret w rule : (runtimeLocked w rule).1.(cookieSecret) = w.(cookieSecret).
Proof. unfold runtimeLocked. destruct (w.(rules) !! _); [case_goal|]; done. Qed.

Lemma applyAction_allowed w rule automatic country known :
  (applyAction w rule snap listener r now automatic country known fresh).2 = satisfied w.(cookieSecret) rule.
Proof.
  unfold applyAction, satisfied. cbv zeta. destruct (String.eqb rule.(Action) publicWafActionCaptcha).
  - destruct (validRuleCookieLocked _ _ _ _ _ _); [done|]. by case_match.
  - destruct (String.eqb rule.(Action) publicWafActionWaitingRoom); [|done].
    pose proof (runtimeLocked_secret w rule) as Es. destruct (runtimeLocked w rule) as [w' rt]. simpl in Es. rewrite Es.
    unfold evaluateLocked. destruct (validRuleCookieLocked _ _ _ _ _ _); [done|]. cbv zeta.
    case_goal; [done|]. destruct (WaitingRoomQueue.canAdmitLocked _ _ _ _) as [rt' ok]. by destruct ok.
Qed.
End verdict.

(** ** Activation against its history *)

(** Since when the samples, newest first, have had this pressure; [t] if they have not. *)
Fixpoint heldSince (hist : list (Z * bool)) (p : bool) (t : Z) : Z :=
  match hist with
  | (t', p') :: hist => if Bool.eqb p' p then heldSince hist p t' else t
  | [] => t
  end.

(** The reference: a rule turns on when pressure has held for [minActive] and off when
    it has been absent for [quiet]. *)
Definition refActive (minActive quiet : Z) (hist : list (Z * bool)) (active : bool) (t : Z) (p : bool) : bool :=
  if p then active || (minActive <=? time_sub t (heldSince hist true t))
  else active && negb (quiet <=? time_sub t (heldSince hist false t)).

Definition follows (hist : list (Z * bool)) (last : Z) (rt : publicWafRuleRuntime) : Prop :=
  Forall (λ s, 0 < s.1 ≤ last) hist ∧
  rt.(pressureStartedAt) = (match hist with (t, true) :: hist => heldSince hist true t | _ => 0 end) ∧
  rt.(quietStartedAt) = (if rt.(automaticActive)
    then (match hist with (t, false) :: hist => heldSince hist false t | _ => 0 end) else 0).

Lemma heldSince_pos hist p : ∀ t, 0 < t → Forall (λ s, 0 < s.1) hist → 0 < heldSince hist p t.
Proof.
  induction hist as [|[t' p'] hist IH]; intros t Ht Hf; [done|]. apply Forall_cons in Hf as [Hp Hf]. simpl in *.
  case_goal; [by apply IH|done].
Qed.

Lemma heldSince_le hist p last : ∀ t, t ≤ last → Forall (λ s, s.1 ≤ last) hist → heldSince hist p t ≤ last.
Proof.
  induction hist as [|[t' p'] hist IH]; intros t Ht Hf; [done|]. apply Forall_cons in Hf as [Hp Hf]. simpl in *.
  case_goal; [by apply IH|done].
Qed.

Lemma time_sub_nonneg a b : b ≤ a → 0 ≤ time_sub a b.
Proof. unfold time_sub, sat64, min_int64, max_int64. lia. Qed.

(** The start the code keeps, or now, is the one of the history. *)
Lemma started_spec hist last t p : Forall (λ s, 0 < s.1 ≤ last) hist → last ≤ t → 0 < t →
  (let s := match hist with (t', p') :: hist => if Bool.eqb p' p then heldSince hist p t' else 0 | [] => 0 end in
   if is_zero_time s then t else s) = heldSince hist p t ∧ heldSince hist p t ≤ t ∧ 0 < heldSince hist p t.
Proof.
  intros Hf Hl Ht. split_and!.
  - destruct hist as [|[t' p'] hist]; cbv zeta; simpl; [done|]. destruct (Bool.eqb p' p) eqn:Ep; [|done].
    apply Forall_cons in Hf as [Hp Hf]. simpl in Hp.
    assert (0 < heldSince hist p t') by (apply heldSince_pos; [lia|eapply Forall_impl; [exact Hf|]; simpl; lia]).
    unfold is_zero_time. destruct (Z.eqb_spec (heldSince hist p t') 0); [lia|done].
  - apply heldSince_le; [lia|]. eapply Forall_impl; [exact Hf|]. simpl. lia.
  - apply heldSince_pos; [lia|]. eapply Forall_impl; [exact Hf|]. simpl. lia.
Qed.

Lemma activate_follows hist last rt minActive quiet t p :
  follows hist last rt → last ≤ t → 0 < t →
  (activate rt minActive quiet t p).(automaticActive) = refActive minActive quiet hist rt.(automaticActive) t p
  ∧ follows ((t, p) :: hist) t (activate rt minActive quiet t p).
Proof.
  intros (Hf & Hp & Hq) Hl Ht. destruct (started_spec hist last t p Hf Hl Ht) as (Hs & Hle & Hpos).
  assert (Hf' : Forall (λ s, 0 < s.1 ≤ t) ((t, p) :: hist)).
  { constructor; [simpl; lia|]. eapply Forall_impl; [exact Hf|]. simpl. lia. }
  pose proof (time_sub_nonneg t _ Hle) as Hn. unfold activate, refActive. destruct p.
  - assert (Hp' : rt.(pressureStartedAt) = match hist with (t', p') :: hist => if Bool.eqb p' true then heldSince hist true t' else 0 | [] => 0 end)
      by (rewrite Hp; by destruct hist as [|[? []] ?]).
    cbv zeta in Hs. rewrite <- Hp' in Hs. cbv zeta. rewrite Hs. split.
    + cbn [automaticActive setActivation]. destruct (Z.leb_spec minActive 0); cbn [orb].
      * destruct (Z.leb_spec minActive (time_sub t (heldSince hist true t))); [by rewrite orb_true_r|lia].
      * destruct (minActive <=? _); [by rewrite orb_true_r|by rewrite orb_false_r].
    + split_and!; [done|done|]. cbn [quietStartedAt automaticActive setActivation]. by case_goal.
  - destruct rt.(automaticActive) eqn:Ea; cbn [andb].
    + assert (Hq' : rt.(quietStartedAt) = match hist with (t', p') :: hist => if Bool.eqb p' false then heldSince hist false t' else 0 | [] => 0 end)
        by (rewrite Hq; by destruct hist as [|[? []] ?]).
      cbv zeta in Hs. rewrite <- Hq' in Hs. cbv zeta. rewrite Hs.
      destruct (Z.leb_spec quiet 0); cbn [orb].
      * destruct (Z.leb_spec quiet (time_sub t (heldSince hist false t))); [|lia]. by split.
      * destruct (quiet <=? _); by split.
    + split; [done|]. split_and!; [done|done|]. cbn [quietStartedAt automaticActive setActivation]. done.
Qed.

(** A sequence of requests that reach an automatic rule. *)
Section activation.
Context (rule : publicWafRuleConfig).
Let minActive := millisToDuration rule.(Triggers).(MinimumActiveMillis).
Let quiet := millisToDuration rule.(Triggers).(QuietPeriodMillis).

(** The answers of the code, with the pressure it saw at each request. *)
Fixpoint runActivation (w : publicWAF) (rt : publicWafRuleRuntime) (events : list (publicProxySnapshot * App * Z))
    : list (bool * (Z * bool)) :=
  match events with
  | [] => []
  | (snap, app, now) :: events =>
      let '(rt0, rate) := recordAndRate rt rule now in
      let p := (pressureOf w rt0 rule snap app now rate).2 in
      let '(w, rt, active) := updateAutomaticActivationLocked w rt rule snap app now in
      (active, (now, p)) :: runActivation w rt events
  end.

Fixpoint refActivation (hist : list (Z * bool)) (active : bool) (samples : list (Z * bool)) : list bool :=
  match samples with
  | [] => []
  | (t, p) :: samples =>
      let active := refActive minActive quiet hist active t p in active :: refActivation ((t, p) :: hist) active samples
  end.

Lemma runActivation_exact events : ∀ w rt hist last, follows hist last rt → 0 < last →
  StronglySorted Z.le (last :: map snd events) →
  map fst (runActivation w rt events) = refActivation hist rt.(automaticActive) (map snd (runActivation w rt events)).
Proof.
  induction events as [|[[snap app] now] events IH]; intros w rt hist last Hf H0 Hs; [done|].
  cbn [map snd] in Hs. apply StronglySorted_inv in Hs as [Hs Hlt]. apply Forall_cons in Hlt as [Hlt _].
  cbn [runActivation]. unfold updateAutomaticActivationLocked.
  destruct (recordAndRate rt rule now) as [rt0 rate] eqn:E0. destruct (pressureOf w rt0 rule snap app now rate) as [w' p].
  assert (Hf0 : follows hist last (updateBaseline rt0 rate)).
  { unfold recordAndRate in E0. injection E0 as <- _. exact Hf. }
  assert (Ea : (updateBaseline rt0 rate).(automaticActive) = rt.(automaticActive)).
  { unfold recordAndRate in E0. injection E0 as <- _. done. }
  destruct (activate_follows hist last _ minActive quiet now p Hf0 ltac:(lia) ltac:(lia)) as [Hact Hf1].
  rewrite Ea in Hact. fold minActive quiet. cbn [snd map fst refActivation]. rewrite Hact. f_equal.
  rewrite <- Hact. apply (IH _ _ _ now Hf1); [lia|done].
Qed.
End activation.

(** ** Captcha verification *)

Section captcha.
Context `{WafCodec}.

Lemma recordAndRate_secret w rt rule snap app now :
  (updateAutomaticActivationLocked w rt rule snap app now).1.1.(cookieSecret) = w.(cookieSecret).
Proof.
  unfold updateAutomaticActivationLocked. destruct (recordAndRate rt rule now) as [rt0 rate]. unfold pressureOf.
  destruct (fgt _ _); [|done]. unfold serverCPUPercentLocked. case_goal; [done|]. by destruct (app.(cpuSample)).
Qed.

Lemma ruleActive_secret w rule snap app now : (ruleActive w rule snap app now).1.1.(cookieSecret) = w.(cookieSecret).
Proof.
  unfold ruleActive. case_goal; [|done]. pose proof (runtimeLocked_secret w rule) as E.
  destruct (runtimeLocked w rule) as [w1 rt]. pose proof (recordAndRate_secret w1 rt rule snap app now) as E'.
  destruct (updateAutomaticActivationLocked w1 rt rule snap app now) as [[w2 rt2] active]. simpl in *. congruence.
Qed.

Lemma decidingRule_secret snap listener r now app config : ∀ w,
  (decidingRule snap listener r now app w config).1.(cookieSecret) = w.(cookieSecret).
Proof.
  induction config as [|rule config IH]; intros w; simpl; [done|]. case_goal; [apply IH|].
  destruct (rule.(Match) listener r) as [[]|]; [|apply IH|done].
  destruct (evaluatePublicWafGeoRestriction app r rule.(GeoRestriction)) as [[geoOk country] known].
  case_goal; [apply IH|]. pose proof (ruleActive_secret w rule snap app now) as E.
  destruct (ruleActive w rule snap app now) as [[w' applies] automatic]. simpl in E.
  case_goal; [by rewrite IH|done].
Qed.

Lemma findCaptchaRule_spec config ruleID rule : findCaptchaRule config ruleID = Some rule →
  rule ∈ config ∧ rule.(RuleID) = ruleID ∧ rule.(Action) = publicWafActionCaptcha ∧ rule.(RuleEnabled) = true.
Proof.
  induction config as [|rl config IH]; simpl; [done|]. case_if E.
  - intros H1. destruct (IH H1) as [? ?]. split; [by right|done].
  - intros [= ->]. bprop. split; [left|]. by split_and!.
Qed.

(** What a submission that earns a cookie went through. *)
Definition earned order siteverify (w : publicWAF) (snap : publicProxySnapshot) (r : httpRequest)
    (f : gmap string string) (listenerID now : Z) (rule : publicWafRuleConfig)
    (provider : publicWafCaptchaProviderConfig) (challenge : publicWafCaptchaChallengePayload) : Prop :=
  findCaptchaRule snap.(WafRules) rule.(RuleID) = Some rule ∧
  snap.(WafCaptchaProviders) !! rule.(CaptchaProviderID) = Some provider ∧ provider.(ProviderEnabled) = true ∧
  verifyCaptchaChallenge w.(cookieSecret) (TrimSpace (formGet f "captcha_challenge")) now = Some challenge ∧
  challenge.(cRuleID) = rule.(RuleID) ∧ challenge.(cListenerID) = listenerID ∧
  challenge.(cRuleFingerprint) = rule.(Fingerprint) ∧ challenge.(cHost) = publicWafChallengeRequestHost r ∧
  challenge.(cReturnTo) = sanitizeWAFReturnTo (formGet f "return_to") ∧
  (CaptchaLimiter.allowVerify order w.(captchaVerifyLimiter) listenerID rule.(RuleID)
     (RateLimiter.remoteIPForRateLimit r) now).2 = true ∧
  w.(captchaVerifySlots) < publicWafCaptchaVerifyMaxConcurrentCalls ∧
  captchaToken f ≠ "" ∧
  verifyCaptcha siteverify provider (captchaToken f) (RateLimiter.remoteIPForRateLimit r) = true.

Lemma captcha_earned order siteverify w snap r form listenerID now w' d c :
  servePublicWAFCaptchaVerify order siteverify w snap r form listenerID now = (w', d, Some c) →
  ∃ s f rule provider challenge, snap = Some s ∧ form = Form f ∧ r.(Method) = "POST" ∧
    earned order siteverify w s r f listenerID now rule provider challenge ∧
    w'.(cookieSecret) = w.(cookieSecret) ∧ d.(dRule) = Some rule ∧
    c = signedRuleCookie w.(cookieSecret) rule (listenerOrBare s listenerID) r publicWafCaptchaCookieKind ""
          rule.(CaptchaPassTTL) now.
Proof.
  unfold servePublicWAFCaptchaVerify. cbv zeta. case_if Em; [done|]. destruct form as [| |f]; [done..|].
  destruct (verifyCaptchaChallenge _ _ _) as [challenge|] eqn:Ec; [|done]. case_if Eb; [done|].
  unfold wafRuleAndProviderFromSnapshot. destruct snap as [s|]; [|done]. cbv zeta.
  destruct (findCaptchaRule _ _) as [rule|] eqn:Ef; [|done].
  destruct (s.(WafCaptchaProviders) !! rule.(CaptchaProviderID)) as [provider|] eqn:Ep; [|done].
  destruct provider.(ProviderEnabled) eqn:Ee; [|done]. cbn [dListener captchaDecision default from_option].
  case_if Efp; [done|]. case_if Et; [done|].
  destruct (CaptchaLimiter.allowVerify _ _ _ _ _ _) as [[lim retry] ok] eqn:Ea. case_if Eok; [done|].
  case_if Es; [done|]. case_if Ev; [done|]. intros [= <- <- <-].
  pose proof (findCaptchaRule_spec _ _ _ Ef) as (_ & Eid & _ & _). rewrite Eid in Ea.
  bprop. exists s, f, rule, provider, challenge.
  unfold earned. rewrite Eid in *. rewrite Ea. cbn [snd]. split_and!; done || congruence.
Qed.

(** A challenge that verifies was signed with a secret, for an identified rule. *)
Lemma verifyChallenge_facts secret value now p : verifyCaptchaChallenge secret value now = Some p →
  secret ≠ "" ∧ 0 < p.(cRuleID) ∧ 0 < p.(cListenerID) ∧ p.(cRuleFingerprint) ≠ "".
Proof.
  unfold verifyCaptchaChallenge. destruct (openBody secret value) as [body|] eqn:E; [|done].
  apply openBody_Some in E as [Hs _]. destruct (unmarshalChallenge body) as [q|]; [|done].
  case_if E1; [done|]. case_if E2; [done|]. intros [= ->]. bprop. by split_and!.
Qed.
End captcha.

(** ** Theorems *)


(** A pass cookie is set only for a submission whose challenge this server signed for the
    same enabled captcha rule, rule version, listener, host and return address, whose
    token the captcha service confirmed, and that the limiter and the slots let
    through. *)
Theorem waf_captcha_sound `{WafCodec} order siteverify w snap r form listenerID now w' d c :
  servePublicWAFCaptchaVerify order siteverify w snap r form listenerID now = (w', d, Some c) →
  ∃ s f rule provider challenge, snap = Some s ∧ form = Form f ∧ r.(Method) = "POST" ∧
    rule ∈ s.(WafRules) ∧ rule.(Action) = publicWafActionCaptcha ∧ rule.(RuleEnabled) = true ∧
    earned order siteverify w s r f listenerID now rule provider challenge ∧
    c = signedRuleCookie w.(cookieSecret) rule (listenerOrBare s listenerID) r publicWafCaptchaCookieKind ""
          rule.(CaptchaPassTTL) now.
Proof.
  intros E. apply captcha_earned in E as (s & f & rule & provider & challenge & Hs & Hf & Hm & He & _ & _ & Hc).
  destruct (findCaptchaRule_spec _ _ _ (proj1 He)) as (Hin & _ & Hact & Hen).
  exists s, f, rule, provider, challenge. by split_and!.
Qed.

(** The way of a visitor through a captcha: the cookie of a successful submission, sent
    back to the same host before it expires, satisfies the rule, so the request passes
    whenever that rule decides it. *)
Theorem waf_captcha_pass `{WafCodecLaws} order siteverify w snap r form listenerID now w' d c
    w2 snap2 r2 now2 app fresh w3 rule automatic country known :
  servePublicWAFCaptchaVerify order siteverify w (Some snap) r form listenerID now = (w', d, Some c) →
  d.(dRule) = Some rule →
  (listenerOrBare snap listenerID).(ListenerID) = listenerID →
  isASCII rule.(Fingerprint) = true → isASCII (publicWafChallengeRequestHost r) = true →
  w2.(cookieSecret) = w'.(cookieSecret) →
  publicWafChallengeRequestHost r2 = publicWafChallengeRequestHost r →
  cookieOf r2 (wafCookieName rule.(RuleID) publicWafCaptchaCookieKind) = Some c.(cookieValue) →
  UnixMilli now2 < UnixMilli (now + (if rule.(CaptchaPassTTL) <=? 0 then defaultWafCaptchaPassTTL else rule.(CaptchaPassTTL))) →
  decidingRule snap2 (listenerOrBare snap listenerID) r2 now2 app w2 snap2.(WafRules)
    = (w3, Decides rule automatic country known) →
  (evaluate w2 snap2 (listenerOrBare snap listenerID) r2 now2 app fresh).2 = true.
Proof.
  intros E Hd Hl Hfp Hh Hs Hhost Hc Hexp Hdec.
  apply captcha_earned in E as (s & f & rule' & provider & challenge & [= <-] & _ & _ & He & Hsec & Hd' & ->).
  assert (rule' = rule) as -> by congruence.
  destruct He as (Hf & _ & _ & Hv & E1 & E2 & E3 & _). destruct (findCaptchaRule_spec _ _ _ Hf) as (_ & _ & Hact & _).
  destruct (verifyChallenge_facts _ _ _ _ Hv) as (Hsecret & Hpos & Hpos' & Hfp').
  pose proof (decidingRule_secret snap2 (listenerOrBare snap listenerID) r2 now2 app snap2.(WafRules) w2) as Es.
  unfold evaluate. rewrite evaluateRules_verdict. rewrite Hdec in Es |- *. simpl in Es.
  rewrite applyAction_allowed. unfold satisfied. rewrite Hact. cbn [String.eqb publicWafActionCaptcha].
  rewrite Es, Hs, Hsec. eapply cookie_accepted; [done| |exact Hc|].
  - by split_and!.
  - split_and!; try done; congruence.
Qed.

(** Automatic activation keeps two start times; its answers are those of a reference
    that looks at the whole history of samples: a rule turns on once every request for
    [MinimumActiveMillis] saw pressure, and off once no request for [QuietPeriodMillis]
    did. *)
Theorem waf_activation_exact rule w start events :
  0 < start → StronglySorted Z.le (start :: map snd events) →
  let run := runActivation rule w (newRuntime rule.(Fingerprint)) events in
  map fst run = refActivation rule [] false (map snd run).
Proof.
  intros H0 Hs. cbv zeta. apply (runActivation_exact rule events w (newRuntime rule.(Fingerprint)) [] start); [|done|done].
  by split_and!.
Qed.

(** ** Concrete runs *)

Definition exApp (active : Z) : App := mkApp (λ _, active) [] None None None.
Definition exAuto : publicWafRuleConfig :=
  mkWafRule 8 1 true publicWafActionBlock publicWafActivationAutomatic (λ _ _, Some true) (mkGeo "disabled" [] "") 0 0 exRoom
    (mkTriggers 0 0 (float_of_int 0) 0 10 0 (float_of_int 0) (float_of_int 0) 30000 60000) 403 "" "" [] "f2".
Definition exSnap (l : list publicWafRuleConfig) : publicProxySnapshot :=
  mkSnapshot l {[ 4 := mkProvider 4 "t" "turnstile" "site" "sec" true ]} {[ 3 := exListener ]} [1] "key".
Definition exEvents : list (publicProxySnapshot * App * Z) :=
  map (λ p, (exSnap [exAuto], exApp p.2, exNow + p.1 * second))
    [(0, 10); (20, 12); (30, 11); (40, 0); (90, 0); (100, 0)].

Example activation_run : map fst (runActivation exAuto newPublicWAF (newRuntime "f2") exEvents)
  = [false; false; true; true; true; false].
Proof. vm_compute. reflexivity. Qed.

Lemma waf_activation_exact_witness :
  map fst (runActivation exAuto newPublicWAF (newRuntime "f2") exEvents)
  = refActivation exAuto [] false (map snd (runActivation exAuto newPublicWAF (newRuntime "f2") exEvents)).
Proof.
  apply (waf_activation_exact exAuto newPublicWAF exNow exEvents); [vm_compute; reflexivity|].
  apply Sorted_StronglySorted; [intros ???; lia|]. vm_compute. repeat constructor; congruence.
Defined.

Definition exCaptcha : publicWafRuleConfig :=
  mkWafRule 9 1 true publicWafActionCaptcha "always" (λ _ _, Some true) (mkGeo "disabled" [] "") 4 (600 * second) exRoom
    (mkTriggers 0 0 (float_of_int 0) 0 0 0 (float_of_int 0) (float_of_int 0) 0 0) 403 "" "" [] "f3".
Definition exWAF : publicWAF := reconcile newPublicWAF (Some (exSnap [exCaptcha])).
Definition exSubmit : httpRequest :=
  mkRequest "POST" "Shop.example:443" "" publicWafCaptchaVerifyPath publicWafCaptchaVerifyPath true "198.51.100.4:5000" ∅ [] ∅ None [].
Definition exForm : gmap string string :=
  {[ "rule_id" := "9"; "return_to" := "/"; "cf-turnstile-response" := "tok";
     "captcha_challenge" := signCaptchaChallenge "key" exCaptcha exListener (exVisit []) "/" exNow ]}.
Definition exVerified : publicWAF * publicWafDecision * option cookie :=
  servePublicWAFCaptchaVerify CaptchaLimiter.exOrder (λ _ t _, String.eqb t "tok") exWAF (Some (exSnap [exCaptcha]))
    exSubmit (Form exForm) 3 (exNow + second).
Definition exPass : cookie := default exAdmission exVerified.2.
Definition exNext : httpRequest := exVisit [(exPass.(cookieName), exPass.(cookieValue))].

Lemma exVerified_eq : servePublicWAFCaptchaVerify CaptchaLimiter.exOrder (λ _ t _, String.eqb t "tok") exWAF
    (Some (exSnap [exCaptcha])) exSubmit (Form exForm) 3 (exNow + second) = (exVerified.1.1, exVerified.1.2, Some exPass).
Proof. vm_compute. reflexivity. Qed.

Lemma waf_captcha_sound_witness : exSubmit.(Method) = "POST".
Proof.
  destruct (waf_captcha_sound CaptchaLimiter.exOrder (λ _ t _, String.eqb t "tok") exWAF (Some (exSnap [exCaptcha]))
    exSubmit (Form exForm) 3 (exNow + second) exVerified.1.1 exVerified.1.2 exPass exVerified_eq)
    as (_ & _ & _ & _ & _ & _ & _ & Hm & _). exact Hm.
Defined.

Lemma waf_captcha_pass_witness :
  (evaluate exVerified.1.1 (exSnap [exCaptcha]) (listenerOrBare (exSnap [exCaptcha]) 3) exNext (exNow + 2 * second)
    (exApp 0) "s").2 = true.
Proof.
  assert (H1 : exVerified.1.2.(dRule) = Some exCaptcha) by (vm_compute; reflexivity).
  assert (H2 : (listenerOrBare (exSnap [exCaptcha]) 3).(ListenerID) = 3) by (vm_compute; reflexivity).
  assert (H3 : isASCII exCaptcha.(Fingerprint) = true) by (vm_compute; reflexivity).
  assert (H4 : isASCII (publicWafChallengeRequestHost exSubmit) = true) by (vm_compute; reflexivity).
  assert (H5 : publicWafChallengeRequestHost exNext = publicWafChallengeRequestHost exSubmit) by (vm_compute; reflexivity).
  assert (H6 : cookieOf exNext (wafCookieName exCaptcha.(RuleID) publicWafCaptchaCookieKind) = Some exPass.(cookieValue))
    by (vm_compute; reflexivity).
  assert (H7 : UnixMilli (exNow + 2 * second) < UnixMilli (exNow + second
    + (if exCaptcha.(CaptchaPassTTL) <=? 0 then defaultWafCaptchaPassTTL else exCaptcha.(CaptchaPassTTL)))) by (vm_compute; reflexivity).
  assert (H8 : decidingRule (exSnap [exCaptcha]) (listenerOrBare (exSnap [exCaptcha]) 3) exNext (exNow + 2 * second)
    (exApp 0) exVerified.1.1 (exSnap [exCaptcha]).(WafRules) = (exVerified.1.1, Decides exCaptcha false "" false)) by reflexivity.
  exact (waf_captcha_pass CaptchaLimiter.exOrder (λ _ t _, String.eqb t "tok") exWAF (exSnap [exCaptcha]) exSubmit
    (Form exForm) 3 (exNow + second) _ _ exPass exVerified.1.1 (exSnap [exCaptcha]) exNext (exNow + 2 * second) (exApp 0)
    "s" exVerified.1.1 exCaptcha false "" false exVerified_eq H1 H2 H3 H4 eq_refl H5 H6 H7 H8).
Defined.
End Waf.
