(* ===== verification/AgentHub.v ===== *)
(** The table of connected agents (internal/server/agent_hub.go): two maps, by agent and
    by public identifier, that hold the same connections.

    A connection is a pointer: two connections with equal fields are different, so a
    connection carries the identity [connID] of its object. *)

From S2P Require Import Prelude.

Module AgentHub.

Record AgentConn := mkConn { connID : Z; AgentID : Z; PublicID : string }.

#[export] Instance conn_eq_dec : EqDecision AgentConn.
Proof. solve_decision. Defined.

(** [closed] are the connections whose Done channel is closed. *)
Record agentHub := mkHub {
  byID : gmap Z AgentConn;
  byPublicID : gmap string AgentConn;
  closed : gset Z }.

Definition newAgentHub : agentHub := mkHub ∅ ∅ ∅.

(** ** Operations *)

(** [None]: the agent is already connected. *)
Definition connect (h : agentHub) (c : AgentConn) : option agentHub :=
  match h.(byID) !! c.(AgentID), h.(byPublicID) !! c.(PublicID) with
  | None, None => Some (mkHub (<[c.(AgentID) := c]> h.(byID)) (<[c.(PublicID) := c]> h.(byPublicID)) h.(closed))
  | _, _ => None
  end.

(** The connections the new one takes the place of, in the order of the code. *)
Definition displacedBy (h : agentHub) (c : AgentConn) : list AgentConn :=
  match h.(byID) !! c.(AgentID), h.(byPublicID) !! c.(PublicID) with
  | None, None => []
  | Some a, None => [a]
  | None, Some b => [b]
  | Some a, Some b => if decide (a = b) then [a] else [a; b]
  end.

Definition forget (h : agentHub) (old : AgentConn) : agentHub :=
  mkHub (delete old.(AgentID) h.(byID)) (delete old.(PublicID) h.(byPublicID)) h.(closed).

(** [None]: the connection is already registered. *)
Definition replace (h : agentHub) (c : AgentConn) : option (agentHub * list AgentConn) :=
  if decide (h.(byID) !! c.(AgentID) = Some c ∨ h.(byPublicID) !! c.(PublicID) = Some c) then None
  else
    let displaced := displacedBy h c in
    let h := fold_left forget displaced h in
    Some (mkHub (<[c.(AgentID) := c]> h.(byID)) (<[c.(PublicID) := c]> h.(byPublicID)) h.(closed), displaced).

Definition disconnectLocked (h : agentHub) (c : AgentConn) : agentHub * bool :=
  let inPublic := bool_decide (h.(byPublicID) !! c.(PublicID) = Some c) in
  let inID := bool_decide (h.(byID) !! c.(AgentID) = Some c) in
  (mkHub (if inID then delete c.(AgentID) h.(byID) else h.(byID))
     (if inPublic then delete c.(PublicID) h.(byPublicID) else h.(byPublicID))
     ({[ c.(connID) ]} ∪ h.(closed)), inPublic || inID).

(** The state, whether it was connected, and the connections [onDisconnect] is told of. *)
Definition disconnect (h : agentHub) (c : AgentConn) : agentHub * bool * list AgentConn :=
  let '(h, ok) := disconnectLocked h c in (h, ok, if ok then [c] else []).

Definition disconnectByID (h : agentHub) (agentID : Z) : agentHub * option AgentConn * list AgentConn :=
  match h.(byID) !! agentID with
  | None => (h, None, [])
  | Some c => let '(h, ok) := disconnectLocked h c in (h, Some c, if ok then [c] else [])
  end.

Definition connectedByID (h : agentHub) (agentID : Z) : option AgentConn := h.(byID) !! agentID.
Definition connectedCount (h : agentHub) : nat := size h.(byID).
Definition connectedIDs (h : agentHub) : gmap Z AgentConn := h.(byID).

(** Whether the exact connection is registered. *)
Definition lockCurrentConnection (h : agentHub) (agentID : Z) (expected : AgentConn) : bool :=
  bool_decide (h.(byID) !! agentID = Some expected).

(** ** Invariant *)

(** Every entry is under the identifiers of its connection, and both maps hold the same
    connections. *)
Record wf (h : agentHub) : Prop := {
  wf_id : ∀ i c, h.(byID) !! i = Some c → c.(AgentID) = i;
  wf_pub : ∀ p c, h.(byPublicID) !! p = Some c → c.(PublicID) = p;
  wf_same : ∀ c, h.(byID) !! c.(AgentID) = Some c ↔ h.(byPublicID) !! c.(PublicID) = Some c }.

Lemma hub_wf_new : wf newAgentHub.
Proof. split; unfold newAgentHub; cbn [byID byPublicID]; intros *; by rewrite !lookup_empty. Qed.

(** Removing a registered connection. *)
Lemma forget_wf h c : wf h → h.(byID) !! c.(AgentID) = Some c → wf (forget h c).
Proof.
  intros Hw Hc. assert (Hc' := proj1 (wf_same _ Hw c) Hc). split; simpl.
  - intros i x H. apply lookup_delete_Some in H as [_ H]. by apply (wf_id _ Hw).
  - intros p x H. apply lookup_delete_Some in H as [_ H]. by apply (wf_pub _ Hw).
  - intros x. rewrite !lookup_delete_Some, (wf_same _ Hw x). split; intros [Hne H]; (split; [|done]).
    + intros E. apply Hne. rewrite E in Hc'. rewrite Hc' in H. by injection H as ->.
    + apply (wf_same _ Hw) in H. intros E. apply Hne. rewrite E in Hc. rewrite Hc in H. by injection H as ->.
Qed.

(** Adding a connection whose identifiers are free. *)
Lemma insert_wf h c : wf h → h.(byID) !! c.(AgentID) = None → h.(byPublicID) !! c.(PublicID) = None →
  wf (mkHub (<[c.(AgentID) := c]> h.(byID)) (<[c.(PublicID) := c]> h.(byPublicID)) h.(closed)).
Proof.
  intros Hw Hi Hp. split; simpl.
  - intros i x H. apply lookup_insert_Some in H as [[<- <-]|[_ H]]; [done|by apply (wf_id _ Hw)].
  - intros p x H. apply lookup_insert_Some in H as [[<- <-]|[_ H]]; [done|by apply (wf_pub _ Hw)].
  - intros x. rewrite !lookup_insert_Some, (wf_same _ Hw x). split; intros [[E ->]|[Hne H]]; try by left.
    + right. split; [intros E; congruence|done].
    + right. split; [|done]. intros E. apply (wf_same _ Hw) in H. congruence.
Qed.

Lemma displaced_spec h c x : wf h → x ∈ displacedBy h c ↔
  h.(byID) !! x.(AgentID) = Some x ∧ (x.(AgentID) = c.(AgentID) ∨ x.(PublicID) = c.(PublicID)).
Proof.
  intros Hw. assert (Hspec : x ∈ displacedBy h c ↔ h.(byID) !! c.(AgentID) = Some x ∨ h.(byPublicID) !! c.(PublicID) = Some x).
  { unfold displacedBy. destruct (h.(byID) !! c.(AgentID)) as [a|], (h.(byPublicID) !! c.(PublicID)) as [b|];
      [destruct (decide (a = b)) as [->|]|..]; set_solver. }
  rewrite Hspec. split.
  - intros [H|H].
    + pose proof (wf_id _ Hw _ _ H) as E. rewrite <- E in H. split; [done|by left].
    + pose proof (wf_pub _ Hw _ _ H) as E. rewrite <- E in H. split; [by apply (wf_same _ Hw)|by right].
  - intros [H [E|E]]; rewrite <- E; [by left|right; by apply (wf_same _ Hw)].
Qed.

Lemma displaced_nodup h c : NoDup (displacedBy h c).
Proof.
  unfold displacedBy. destruct (h.(byID) !! _) as [a|], (h.(byPublicID) !! _) as [b|]; [case_decide|..];
    repeat constructor; set_solver.
Qed.

(** Forgetting registered connections one after the other. *)
Lemma forget_all l : ∀ h, wf h → NoDup l → (∀ x, x ∈ l → h.(byID) !! x.(AgentID) = Some x) →
  let h' := fold_left forget l h in
  wf h' ∧ (∀ x, h'.(byID) !! x.(AgentID) = Some x ↔ h.(byID) !! x.(AgentID) = Some x ∧ x ∉ l) ∧ h'.(closed) = h.(closed).
Proof.
  induction l as [|c l IH]; intros h Hw Hnd Hl; simpl.
  { split_and!; [done|set_solver|done]. }
  apply NoDup_cons in Hnd as [Hc Hnd]. assert (Hin : h.(byID) !! c.(AgentID) = Some c) by (apply Hl; left).
  assert (Hf : ∀ x, (forget h c).(byID) !! x.(AgentID) = Some x ↔ h.(byID) !! x.(AgentID) = Some x ∧ x ≠ c).
  { intros x. simpl. rewrite lookup_delete_Some. split; intros [H1 H2].
    - split; [done|]. by intros ->.
    - split; [|done]. intros E. apply H2. rewrite E in Hin. congruence. }
  destruct (IH (forget h c)) as (H1 & H2 & H3); [by apply forget_wf|done| |].
  { intros x Hx. apply Hf. split; [apply Hl; by right|]. by intros ->. }
  split_and!; [done| |done]. intros x. rewrite H2, Hf. set_solver.
Qed.

Lemma disconnect_eq h c : wf h → (disconnectLocked h c).2 = bool_decide (h.(byID) !! c.(AgentID) = Some c).
Proof.
  intros Hw. simpl. destruct (decide (h.(byID) !! c.(AgentID) = Some c)) as [H|H].
  - rewrite (bool_decide_true _ H). apply orb_true_r.
  - rewrite (bool_decide_false _ H), orb_false_r. apply bool_decide_eq_false. by rewrite <- (wf_same _ Hw).
Qed.

Lemma disconnect_wf h c : wf h → wf (disconnectLocked h c).1.
Proof.
  intros Hw. unfold disconnectLocked. destruct (decide (h.(byID) !! c.(AgentID) = Some c)) as [H|H].
  - assert (H' := proj1 (wf_same _ Hw c) H). rewrite (bool_decide_true _ H), (bool_decide_true _ H'). simpl.
    destruct (forget_wf h c Hw H) as [A B C]. by split.
  - assert (H' : h.(byPublicID) !! c.(PublicID) ≠ Some c) by by rewrite <- (wf_same _ Hw).
    rewrite (bool_decide_false _ H), (bool_decide_false _ H'). simpl. destruct Hw as [A B C]. by split.
Qed.

(** ** The hub as a set of connections *)

(** The registered connections. *)
Definition registered (h : agentHub) (c : AgentConn) : Prop := h.(byID) !! c.(AgentID) = Some c.

Inductive op :=
  | OpConnect (c : AgentConn)
  | OpReplace (c : AgentConn)
  | OpDisconnect (c : AgentConn)
  | OpDisconnectByID (agentID : Z).

Definition apply (h : agentHub) (o : op) : agentHub :=
  match o with
  | OpConnect c => default h (connect h c)
  | OpReplace c => match replace h c with Some (h, _) => h | None => h end
  | OpDisconnect c => (disconnect h c).1.1
  | OpDisconnectByID i => (disconnectByID h i).1.1
  end.

Lemma replace_spec h c h' displaced : wf h → replace h c = Some (h', displaced) →
  wf h' ∧ ¬ registered h c ∧
  (∀ x, registered h' x ↔ x = c ∨ (registered h x ∧ x ∉ displaced)) ∧
  (∀ x, x ∈ displaced ↔ registered h x ∧ (x.(AgentID) = c.(AgentID) ∨ x.(PublicID) = c.(PublicID))).
Proof.
  intros Hw. unfold replace. destruct (decide _) as [|Hn]; [done|]. cbv zeta.
  destruct (forget_all (displacedBy h c) h Hw (displaced_nodup h c)) as (Hw' & Hs & _).
  { intros x Hx. by apply displaced_spec in Hx as [? _]. }
  set (h1 := fold_left forget (displacedBy h c) h) in *. intros [= <- <-].
  assert (Hi : h1.(byID) !! c.(AgentID) = None).
  { destruct (h1.(byID) !! c.(AgentID)) as [x|] eqn:E; [|done]. exfalso.
    pose proof (wf_id _ Hw' _ _ E) as Ex. rewrite <- Ex in E. apply Hs in E as [E Hx]. apply Hx.
    apply displaced_spec; [done|]. split; [done|by left]. }
  assert (Hp : h1.(byPublicID) !! c.(PublicID) = None).
  { destruct (h1.(byPublicID) !! c.(PublicID)) as [x|] eqn:E; [|done]. exfalso.
    pose proof (wf_pub _ Hw' _ _ E) as Ex. rewrite <- Ex in E. apply (wf_same _ Hw') in E. apply Hs in E as [E Hx]. apply Hx.
    apply displaced_spec; [done|]. split; [done|by right]. }
  split_and!.
  - by apply insert_wf.
  - intros Hr. apply Hn. by left.
  - intros x. unfold registered. cbn [byID]. rewrite lookup_insert_Some. rewrite Hs. split.
    + intros [[_ <-]|[_ ?]]; [by left|by right].
    + intros [->|[Hx Hd]]; [by left|]. right. split; [|done]. intros E.
      assert (h1.(byID) !! x.(AgentID) = Some x) as Hx1 by by apply Hs. rewrite <- E in Hx1. congruence.
  - intros x. by apply displaced_spec.
Qed.

Lemma apply_wf h o : wf h → wf (apply h o).
Proof.
  intros Hw. destruct o as [c|c|c|i]; simpl.
  - unfold connect. destruct (h.(byID) !! c.(AgentID)) eqn:Ei, (h.(byPublicID) !! c.(PublicID)) eqn:Ep; simpl; try done.
    by apply insert_wf.
  - destruct (replace h c) as [[h' d]|] eqn:E; [|done]. by apply (replace_spec h c h' d Hw).
  - by apply disconnect_wf.
  - unfold disconnectByID. destruct (h.(byID) !! i) as [c|]; [|done].
    pose proof (disconnect_wf h c Hw) as Hd. by destruct (disconnectLocked h c).
Qed.

Lemma run_wf ops : ∀ h, wf h → wf (fold_left apply ops h).
Proof. induction ops as [|o ops IH]; intros h Hw; simpl; [done|]. by apply IH, apply_wf. Qed.

(** ** Theorems *)

(** After any operations the two maps hold the same connections, each under its own
    identifiers, so no two registered connections share an agent or a public
    identifier. *)
Theorem hub_consistent ops c d :
  let h := fold_left apply ops newAgentHub in
  (h.(byID) !! c.(AgentID) = Some c ↔ h.(byPublicID) !! c.(PublicID) = Some c) ∧
  (registered h c → registered h d → c.(AgentID) = d.(AgentID) ∨ c.(PublicID) = d.(PublicID) → c = d).
Proof.
  cbv zeta. pose proof (run_wf ops newAgentHub hub_wf_new) as Hw. split; [apply (wf_same _ Hw)|].
  unfold registered. intros Hc Hd [E|E]; [congruence|]. apply (wf_same _ Hw) in Hc, Hd. congruence.
Qed.

(** A reconnecting agent takes over: in any reached state [replace] registers the new
    connection, displaces exactly the registered connections that share one of its
    identifiers and keeps every other; disconnecting a displaced connection later changes
    nothing. *)
Theorem hub_replace_exact ops c h' displaced :
  let h := fold_left apply ops newAgentHub in
  replace h c = Some (h', displaced) →
  (∀ x, x ∈ displaced ↔ registered h x ∧ (x.(AgentID) = c.(AgentID) ∨ x.(PublicID) = c.(PublicID))) ∧
  (∀ x, registered h' x ↔ x = c ∨ (registered h x ∧ x ∉ displaced)) ∧
  (∀ x y, x ∈ displaced → registered (disconnect h' x).1.1 y ↔ registered h' y).
Proof.
  intros h E. pose proof (run_wf ops newAgentHub hub_wf_new) as Hw.
  apply replace_spec in E as (Hw' & Hc & Hr & Hd); [|exact Hw]. split_and!; [done|done|].
  intros x y Hx. assert (Hn : ¬ registered h' x).
  { rewrite Hr. intros [->|[_ ?]]; [|done]. apply Hd in Hx as [? _]. done. }
  unfold disconnect. destruct (disconnectLocked h' x) as [h2 ok] eqn:Ex. unfold disconnectLocked in Ex.
  injection Ex as <- _. unfold registered in *. cbn [fst byID]. by rewrite bool_decide_false.
Qed.

Definition exOld : AgentConn := mkConn 1 7 "agent-a".
Definition exNew : AgentConn := mkConn 2 7 "agent-a".

Lemma hub_replace_exact_witness :
  let h := fold_left apply [OpConnect exOld] newAgentHub in
  ∀ x, registered (mkHub {[ 7 := exNew ]} {[ "agent-a" := exNew ]} ∅) x ↔ x = exNew ∨ (registered h x ∧ x ∉ [exOld]).
Proof.
  intros h.
  assert (E : replace h exNew = Some (mkHub {[ 7 := exNew ]} {[ "agent-a" := exNew ]} ∅, [exOld])) by (vm_compute; reflexivity).
  exact (proj1 (proj2 (hub_replace_exact [OpConnect exOld] exNew _ _ E))).
Defined.

End AgentHub.
