(* ===== verification/TargetHealth.v ===== *)
(** Health of route targets (internal/server/public_target_health.go): explicit checks
    with thresholds, passive failures with a cooldown, the generations that fence the
    check loops, agent connectivity, and the count of active requests.

    [time.Now()] is the argument [now]; the outcome of a check is an argument.  A health
    state is a pointer that requests keep, so each has an object identity and the
    counters are kept per object.  The traces and the transports are not modelled, and
    generations are unbounded. *)

From S2P Require Import Prelude.
From S2P Require Import AgentHub.

Module TargetHealth.
Import AgentHub.

Definition publicRouteTargetPassiveUnhealthyCooldown : Z := 30 * second.
Definition defaultTargetHealthCheckHealthyThreshold : Z := 2.
Definition defaultTargetHealthCheckUnhealthyThreshold : Z := 2.
Definition publicRouteTargetTypeProxy := "proxy".
Definition publicRouteTargetTypeStatic := "static".
Definition publicRouteTargetTransportDirect := "direct".
Definition publicRouteTargetTransportAgent := "agent".

(** ** Data *)

Inductive PublicRouteTargetHealthStatus :=
  | STATUS_UNSPECIFIED | STATUS_UNKNOWN | STATUS_HEALTHY | STATUS_UNHEALTHY | STATUS_DISABLED | STATUS_DISCONNECTED.

#[export] Instance status_eq_dec : EqDecision PublicRouteTargetHealthStatus.
Proof. solve_decision. Defined.

Record publicRouteTargetHealthCheckConfig := mkCheckConfig {
  CheckEnabled : bool;
  CheckPath : string;
  HealthyThreshold : Z;
  UnhealthyThreshold : Z }.

Record publicRouteTargetAgentAssignment := mkAssignment { AssignedAgent : Z; AssignmentEnabled : bool }.

(** [Origin] is [None] when the URL did not parse; [Settings] stands for the other
    compared fields (headers, credentials, timeouts). *)
Record publicRouteTargetHealthConfig := mkHealthConfig {
  HealthID : Z;
  HealthTargetType : string;
  HealthTransport : string;
  HealthEnabled : bool;
  Origin : option string;
  AgentAssignments : list publicRouteTargetAgentAssignment;
  HealthCheck : publicRouteTargetHealthCheckConfig;
  Settings : string }.

#[export] Instance check_config_eq_dec : EqDecision publicRouteTargetHealthCheckConfig.
Proof. solve_decision. Defined.
#[export] Instance assignment_eq_dec : EqDecision publicRouteTargetAgentAssignment.
Proof. solve_decision. Defined.
#[export] Instance health_config_eq_dec : EqDecision publicRouteTargetHealthConfig.
Proof. solve_decision. Defined.

Record publicRouteTargetCheckState := mkCheck {
  explicitStatus : PublicRouteTargetHealthStatus;
  lastCheckedAt : Z;
  lastError : string;
  passiveUnhealthyUntil : Z;
  healthyStreak : Z;
  unhealthyStreak : Z }.

Record publicRouteTargetAgentHealthState := mkAgentState {
  agentPublicID : string;
  connected : bool;
  checkRunning : bool;
  agentCheck : publicRouteTargetCheckState }.

Record publicRouteTargetHealthState := mkHealthState {
  stateObject : Z;
  target : publicRouteTargetHealthConfig;
  directCheckRunning : bool;
  directGeneration : Z;
  direct : publicRouteTargetCheckState;
  agentStates : gmap Z publicRouteTargetAgentHealthState }.

(** [requests] are the counters of all health objects, [nextObject] the next identity. *)
Record publicRouteTargetHealthMonitor := mkMonitor {
  hasApp : bool;
  states : gmap Z publicRouteTargetHealthState;
  requests : gmap Z Z;
  nextObject : Z }.

(** The outcome of a check. *)
Inductive attempt :=
  | Passed
  | Failed (err : string)
  | Skipped.

Definition unknownPublicRouteTargetCheckState : publicRouteTargetCheckState := mkCheck STATUS_UNKNOWN 0 "" 0 0 0.
Definition newPublicRouteTargetHealthMonitor : publicRouteTargetHealthMonitor := mkMonitor false ∅ ∅ 0.

(** ** One check state *)

Definition normalizedThreshold (value fallback : Z) : Z := if value <=? 0 then fallback else value.

Definition recordPublicRouteTargetCheckResult (s : publicRouteTargetCheckState)
    (config : publicRouteTargetHealthCheckConfig) (err : option string) (now : Z) : publicRouteTargetCheckState :=
  match err with
  | None =>
      let streak := s.(healthyStreak) + 1 in
      mkCheck
        (if normalizedThreshold config.(HealthyThreshold) defaultTargetHealthCheckHealthyThreshold <=? streak
         then STATUS_HEALTHY else s.(explicitStatus)) now "" 0 streak 0
  | Some e =>
      let streak := s.(unhealthyStreak) + 1 in
      mkCheck
        (if normalizedThreshold config.(UnhealthyThreshold) defaultTargetHealthCheckUnhealthyThreshold <=? streak
         then STATUS_UNHEALTHY else s.(explicitStatus)) now e s.(passiveUnhealthyUntil) 0 streak
  end.

Definition markCheckPassiveFailureLocked (s : publicRouteTargetCheckState) (err : option string) (now : Z)
    : publicRouteTargetCheckState :=
  mkCheck s.(explicitStatus) s.(lastCheckedAt) (default "temporary upstream failure" err)
    (now + publicRouteTargetPassiveUnhealthyCooldown) s.(healthyStreak) s.(unhealthyStreak).

Definition checkStateAvailable (s : publicRouteTargetCheckState) (healthEnabled : bool) (now : Z) : bool :=
  if negb healthEnabled then true
  else if now <? s.(passiveUnhealthyUntil) then false
  else negb (bool_decide (s.(explicitStatus) = STATUS_UNHEALTHY)) && negb (bool_decide (s.(explicitStatus) = STATUS_DISABLED)).

(** The status, and until when it is a passive one in Unix milliseconds (0: it is not). *)
Definition checkStateSnapshotStatus (toMilli : Z → Z) (s : publicRouteTargetCheckState) (healthEnabled : bool) (now : Z)
    : PublicRouteTargetHealthStatus * Z :=
  if negb healthEnabled then (STATUS_UNKNOWN, 0)
  else if now <? s.(passiveUnhealthyUntil) then (STATUS_UNHEALTHY, toMilli s.(passiveUnhealthyUntil))
  else (if bool_decide (s.(explicitStatus) = STATUS_UNSPECIFIED) then STATUS_UNKNOWN else s.(explicitStatus), 0).

(** ** Updates of states *)

Definition setDirect (s : publicRouteTargetHealthState) (d : publicRouteTargetCheckState) : publicRouteTargetHealthState :=
  mkHealthState s.(stateObject) s.(target) s.(directCheckRunning) s.(directGeneration) d s.(agentStates).
Definition setLoop (s : publicRouteTargetHealthState) (running : bool) (generation : Z) : publicRouteTargetHealthState :=
  mkHealthState s.(stateObject) s.(target) running generation s.(direct) s.(agentStates).
Definition setTarget (s : publicRouteTargetHealthState) (t : publicRouteTargetHealthConfig) : publicRouteTargetHealthState :=
  mkHealthState s.(stateObject) t s.(directCheckRunning) s.(directGeneration) s.(direct) s.(agentStates).
Definition setAgents (s : publicRouteTargetHealthState) (a : gmap Z publicRouteTargetAgentHealthState)
    : publicRouteTargetHealthState :=
  mkHealthState s.(stateObject) s.(target) s.(directCheckRunning) s.(directGeneration) s.(direct) a.
Definition setCheck (a : publicRouteTargetAgentHealthState) (c : publicRouteTargetCheckState)
    : publicRouteTargetAgentHealthState := mkAgentState a.(agentPublicID) a.(connected) a.(checkRunning) c.
Definition putState (m : publicRouteTargetHealthMonitor) (id : Z) (s : publicRouteTargetHealthState)
    : publicRouteTargetHealthMonitor :=
  mkMonitor m.(hasApp) (<[id := s]> m.(states)) m.(requests) m.(nextObject).

Definition newAgentState : publicRouteTargetAgentHealthState :=
  mkAgentState "" false false unknownPublicRouteTargetCheckState.

Definition ensureAgentStateLocked (s : publicRouteTargetHealthState) (agentID : Z)
    : publicRouteTargetHealthState * publicRouteTargetAgentHealthState :=
  match s.(agentStates) !! agentID with
  | Some a => (s, a)
  | None => (setAgents s (<[agentID := newAgentState]> s.(agentStates)), newAgentState)
  end.
Definition putAgent (s : publicRouteTargetHealthState) (agentID : Z) (a : publicRouteTargetAgentHealthState)
    : publicRouteTargetHealthState := setAgents s (<[agentID := a]> s.(agentStates)).

(** Cancelling the loops is not visible in the state beyond their flags. *)
Definition stopDirectLocked (s : publicRouteTargetHealthState) : publicRouteTargetHealthState :=
  setLoop s false s.(directGeneration).

Definition clearHealthStateLocked (s : publicRouteTargetHealthState) : publicRouteTargetHealthState :=
  setAgents (setDirect s unknownPublicRouteTargetCheckState)
    ((λ a, setCheck a unknownPublicRouteTargetCheckState) <$> s.(agentStates)).

Definition newPublicRouteTargetHealthState (object : Z) (t : publicRouteTargetHealthConfig)
    : publicRouteTargetHealthState := mkHealthState object t false 0 unknownPublicRouteTargetCheckState ∅.

(** The configuration [ensureStateLocked] makes up. *)
Definition bareConfig (id : Z) : publicRouteTargetHealthConfig :=
  mkHealthConfig id "" "" true None [] (mkCheckConfig false "" 0 0) "".

(** The state of a target; the new object's counter starts at zero. *)
Definition getState (m : publicRouteTargetHealthMonitor) (id : Z) (t : publicRouteTargetHealthConfig)
    : publicRouteTargetHealthMonitor * publicRouteTargetHealthState :=
  match m.(states) !! id with
  | Some s => (m, s)
  | None =>
      let s := newPublicRouteTargetHealthState m.(nextObject) t in
      (mkMonitor m.(hasApp) (<[id := s]> m.(states)) (<[m.(nextObject) := 0]> m.(requests)) (m.(nextObject) + 1), s)
  end.

Definition ensureStateLocked (m : publicRouteTargetHealthMonitor) (id : Z)
    : publicRouteTargetHealthMonitor * publicRouteTargetHealthState := getState m id (bareConfig id).

(** ** Reconciliation *)

(** The conditions on the target, whatever the transport. *)
Definition shouldCheck (active : bool) (t : publicRouteTargetHealthConfig) : bool :=
  active && t.(HealthEnabled) && String.eqb t.(HealthTargetType) publicRouteTargetTypeProxy
  && t.(HealthCheck).(CheckEnabled) && bool_decide (is_Some t.(Origin)).
Definition viaAgent (t : publicRouteTargetHealthConfig) : bool :=
  String.eqb t.(HealthTransport) publicRouteTargetTransportAgent.
Definition shouldRunDirect (active : bool) (t : publicRouteTargetHealthConfig) : bool :=
  shouldCheck active t && negb (viaAgent t).

(** The direct loop of a target, and the generation of the loop it starts. *)
Definition reconcileDirect (active : bool) (t : publicRouteTargetHealthConfig) (s : publicRouteTargetHealthState)
    : publicRouteTargetHealthState * option Z :=
  let s := if bool_decide (s.(target) ≠ t) && s.(directCheckRunning)
           then setLoop s false (s.(directGeneration) + 1) else s in
  let s := setTarget s t in
  if shouldRunDirect active t then
    if s.(directCheckRunning) then (s, None)
    else (setLoop s true (s.(directGeneration) + 1), Some (s.(directGeneration) + 1))
  else
    let s := if s.(directCheckRunning) then setLoop s true (s.(directGeneration) + 1) else s in
    (stopDirectLocked s, None).

(** The agents whose loops should run. *)
Definition desiredAgents (active : bool) (t : publicRouteTargetHealthConfig) : list Z :=
  if shouldCheck active t && viaAgent t
  then map AssignedAgent (List.filter AssignmentEnabled t.(AgentAssignments)) else [].

Definition reconcileAgents (active : bool) (t : publicRouteTargetHealthConfig) (s : publicRouteTargetHealthState)
    : publicRouteTargetHealthState :=
  let desired := desiredAgents active t in
  let started := fold_left (λ m id,
    let a := default newAgentState (m !! id) in
    <[id := mkAgentState a.(agentPublicID) a.(connected) true a.(agentCheck)]> m) desired s.(agentStates) in
  setAgents s (filter (λ kv, kv.1 ∈ desired) started).

Definition reconcileTarget (active : bool) (t : publicRouteTargetHealthConfig) (s : publicRouteTargetHealthState)
    : publicRouteTargetHealthState * option Z :=
  let '(s, started) := reconcileDirect active t s in
  let s := reconcileAgents active t s in
  (if t.(HealthCheck).(CheckEnabled) then s else clearHealthStateLocked s, started).

(** One target of the new configuration; the loops started are collected. *)
Definition reconcileOne (active : bool) (m : publicRouteTargetHealthMonitor * list (Z * Z))
    (t : publicRouteTargetHealthConfig) : publicRouteTargetHealthMonitor * list (Z * Z) :=
  let '(m, loops) := m in
  let '(m, s) := getState m t.(HealthID) t in
  let '(s, started) := reconcileTarget active t s in
  (putState m t.(HealthID) s, match started with Some g => loops ++ [(t.(HealthID), g)] | None => loops end).

(** [None]: no configuration.  The new targets come in the order of the iteration over
    their map. *)
Definition reconcile (m : publicRouteTargetHealthMonitor) (targets : option (list publicRouteTargetHealthConfig))
    (active : bool) : publicRouteTargetHealthMonitor * list (Z * Z) :=
  match targets with
  | None => (mkMonitor false ∅ m.(requests) m.(nextObject), [])
  | Some ts =>
      let kept := filter (λ kv, kv.1 ∈ map HealthID ts) m.(states) in
      fold_left (reconcileOne active) ts (mkMonitor true kept m.(requests) m.(nextObject), [])
  end.

(** ** Checks *)

(** What a direct loop checks, if it is still the loop of the target. *)
Definition directCheckForGeneration (m : publicRouteTargetHealthMonitor) (targetID generation : Z)
    : option publicRouteTargetHealthConfig :=
  match m.(states) !! targetID with
  | None => None
  | Some s => if negb s.(directCheckRunning) || negb (s.(directGeneration) =? generation) then None else Some s.(target)
  end.

Definition recordDirectExplicitCheckLocked (s : publicRouteTargetHealthState) (a : attempt) (now : Z)
    : publicRouteTargetHealthState :=
  match a with
  | Skipped => s
  | Passed => setDirect s (recordPublicRouteTargetCheckResult s.(direct) s.(target).(HealthCheck) None now)
  | Failed e => setDirect s (recordPublicRouteTargetCheckResult s.(direct) s.(target).(HealthCheck) (Some e) now)
  end.

Definition recordDirectExplicitCheckForGeneration (m : publicRouteTargetHealthMonitor) (targetID generation : Z)
    (a : attempt) (now : Z) : publicRouteTargetHealthMonitor :=
  match m.(states) !! targetID with
  | None => m
  | Some s =>
      if negb s.(directCheckRunning) || negb (s.(directGeneration) =? generation) then m
      else putState m targetID (recordDirectExplicitCheckLocked s a now)
  end.

Definition recordDirectExplicitCheck (m : publicRouteTargetHealthMonitor) (targetID : Z) (a : attempt) (now : Z)
    : publicRouteTargetHealthMonitor :=
  match m.(states) !! targetID with
  | None => m
  | Some s => putState m targetID (recordDirectExplicitCheckLocked s a now)
  end.

Definition backendForAgentCheck (m : publicRouteTargetHealthMonitor) (targetID agentID : Z)
    : option publicRouteTargetHealthConfig :=
  match m.(states) !! targetID with
  | None => None
  | Some s => match s.(agentStates) !! agentID with
      | None => None
      | Some a => if a.(checkRunning) then Some s.(target) else None end
  end.

Definition recordAgentExplicitCheck (m : publicRouteTargetHealthMonitor) (targetID agentID : Z) (a : attempt) (now : Z)
    : publicRouteTargetHealthMonitor :=
  match m.(states) !! targetID with
  | None => m
  | Some s =>
      let '(s, ag) := ensureAgentStateLocked s agentID in
      putState m targetID
        (match a with
         | Skipped => s
         | Passed => putAgent s agentID (setCheck ag (recordPublicRouteTargetCheckResult ag.(agentCheck) s.(target).(HealthCheck) None now))
         | Failed e => putAgent s agentID (setCheck ag (recordPublicRouteTargetCheckResult ag.(agentCheck) s.(target).(HealthCheck) (Some e) now))
         end)
  end.

(** ** Connectivity *)

Definition backendHasAgentAssignment (t : publicRouteTargetHealthConfig) (agentID : Z) : bool :=
  existsb (λ a, a.(AssignedAgent) =? agentID) t.(AgentAssignments).

Definition recordAgentConnectedLocked (s : publicRouteTargetHealthState) (agentID : Z) (publicID : string)
    : publicRouteTargetHealthState :=
  let '(s, a) := ensureAgentStateLocked s agentID in
  putAgent s agentID (mkAgentState publicID true a.(checkRunning)
    (if a.(connected) then a.(agentCheck) else unknownPublicRouteTargetCheckState)).

Definition recordAgentDisconnectedLocked (s : publicRouteTargetHealthState) (agentID : Z)
    : publicRouteTargetHealthState :=
  let '(s, a) := ensureAgentStateLocked s agentID in
  let c := a.(agentCheck) in
  putAgent s agentID (mkAgentState a.(agentPublicID) false a.(checkRunning)
    (mkCheck STATUS_UNKNOWN c.(lastCheckedAt) c.(lastError) c.(passiveUnhealthyUntil) 0 0)).

Definition recordAgentConnected (m : publicRouteTargetHealthMonitor) (targetID agentID : Z) (publicID : string)
    : publicRouteTargetHealthMonitor :=
  match m.(states) !! targetID with
  | None => m
  | Some s => putState m targetID (recordAgentConnectedLocked s agentID publicID)
  end.
Definition recordAgentDisconnected (m : publicRouteTargetHealthMonitor) (targetID agentID : Z)
    : publicRouteTargetHealthMonitor :=
  match m.(states) !! targetID with
  | None => m
  | Some s => putState m targetID (recordAgentDisconnectedLocked s agentID)
  end.

Definition mapStates (f : publicRouteTargetHealthState → publicRouteTargetHealthState)
    (m : publicRouteTargetHealthMonitor) : publicRouteTargetHealthMonitor :=
  mkMonitor m.(hasApp) (f <$> m.(states)) m.(requests) m.(nextObject).

Definition recordAgentConnectedForAll (m : publicRouteTargetHealthMonitor) (agentID : Z) (publicID : string)
    : publicRouteTargetHealthMonitor :=
  if agentID <=? 0 then m
  else mapStates (λ s, if backendHasAgentAssignment s.(target) agentID
                       then recordAgentConnectedLocked s agentID publicID else s) m.
Definition recordAgentDisconnectedForAll (m : publicRouteTargetHealthMonitor) (agentID : Z)
    : publicRouteTargetHealthMonitor :=
  if agentID <=? 0 then m
  else mapStates (λ s, if backendHasAgentAssignment s.(target) agentID
                       then recordAgentDisconnectedLocked s agentID else s) m.

(** ** Passive failures *)

Definition passiveFailuresEnabledLocked (s : publicRouteTargetHealthState) : bool := s.(target).(HealthCheck).(CheckEnabled).

Definition markPassiveFailure (m : publicRouteTargetHealthMonitor) (targetID : Z) (err : option string) (now : Z)
    : publicRouteTargetHealthMonitor :=
  if targetID <=? 0 then m
  else match m.(states) !! targetID with
  | None => m
  | Some s =>
      putState m targetID
        (setDirect s (if passiveFailuresEnabledLocked s then markCheckPassiveFailureLocked s.(direct) err now
                      else unknownPublicRouteTargetCheckState))
  end.

Definition markAgentPassiveFailure (m : publicRouteTargetHealthMonitor) (targetID agentID : Z) (err : option string)
    (now : Z) : publicRouteTargetHealthMonitor :=
  if (targetID <=? 0) || (agentID <=? 0) then m
  else match m.(states) !! targetID with
  | None => m
  | Some s =>
      if negb (passiveFailuresEnabledLocked s) then
        match s.(agentStates) !! agentID with
        | Some a => putState m targetID (putAgent s agentID (setCheck a unknownPublicRouteTargetCheckState))
        | None => m
        end
      else
        let '(s, a) := ensureAgentStateLocked s agentID in
        putState m targetID (putAgent s agentID (setCheck a (markCheckPassiveFailureLocked a.(agentCheck) err now)))
  end.

(** ** Active requests *)

(** The monitor and the object the request keeps; [None] for no target. *)
Definition beginRequest (m : publicRouteTargetHealthMonitor) (targetID : Z)
    : publicRouteTargetHealthMonitor * option Z :=
  if targetID <=? 0 then (m, None)
  else
    let '(m, s) := ensureStateLocked m targetID in
    (mkMonitor m.(hasApp) m.(states)
       (<[s.(stateObject) := i64 (default 0 (m.(requests) !! s.(stateObject)) + 1)]> m.(requests)) m.(nextObject),
     Some s.(stateObject)).

(** The function [beginRequest] returned. *)
Definition endRequest (m : publicRouteTargetHealthMonitor) (object : Z) : publicRouteTargetHealthMonitor :=
  mkMonitor m.(hasApp) m.(states) (<[object := i64 (default 0 (m.(requests) !! object) - 1)]> m.(requests)) m.(nextObject).

Definition activeRequests (m : publicRouteTargetHealthMonitor) (targetID : Z) : Z :=
  if targetID <=? 0 then 0
  else match m.(states) !! targetID with
       | None => 0
       | Some s => default 0 (m.(requests) !! s.(stateObject))
       end.

(** ** Availability *)

Section availability.
(** The connected agents, and those cordoned for an update. *)
Context (hub : agentHub) (cordoned : Z → bool).

Definition agentAvailableLocked (m : publicRouteTargetHealthMonitor) (targetID agentID : Z) (healthEnabled : bool)
    (now : Z) : bool :=
  match m.(states) !! targetID with
  | None => true
  | Some s => match s.(agentStates) !! agentID with
      | None => true
      | Some a => checkStateAvailable a.(agentCheck) healthEnabled now end
  end.

Definition agentAvailable (m : publicRouteTargetHealthMonitor) (targetID agentID now : Z) : bool :=
  if (targetID <=? 0) || (agentID <=? 0) then true
  else if m.(hasApp) && cordoned agentID then false
  else
    let healthEnabled := match m.(states) !! targetID with
      | Some s => s.(target).(HealthCheck).(CheckEnabled) | None => false end in
    agentAvailableLocked m targetID agentID healthEnabled now.

Definition backendAgentPoolAvailable (m : publicRouteTargetHealthMonitor) (t : publicRouteTargetHealthConfig) (now : Z)
    : bool :=
  existsb (λ a, a.(AssignmentEnabled)
    && negb (m.(hasApp) && cordoned a.(AssignedAgent))
    && negb (m.(hasApp) && bool_decide (connectedByID hub a.(AssignedAgent) = None))
    && agentAvailableLocked m t.(HealthID) a.(AssignedAgent) t.(HealthCheck).(CheckEnabled) now) t.(AgentAssignments).

Definition available (m : publicRouteTargetHealthMonitor) (t : publicRouteTargetHealthConfig) (now : Z) : bool :=
  if negb t.(HealthEnabled) then false
  else if viaAgent t then backendAgentPoolAvailable m t now
  else match m.(states) !! t.(HealthID) with
       | None => true
       | Some s => checkStateAvailable s.(direct) t.(HealthCheck).(CheckEnabled) now
       end.
End availability.

(** ** Thresholds against the whole history *)

(** How many of the newest results, newest first, are like this. *)
Fixpoint trailing (ok : bool) (hist : list (option string)) : Z :=
  match hist with
  | r :: hist => if Bool.eqb (bool_decide (r = None)) ok then 1 + trailing ok hist else 0
  | [] => 0
  end.

(** The reference: the status changes when the newest results of a kind reach its
    threshold, and is otherwise what it was before the newest result. *)
Fixpoint refStatus (config : publicRouteTargetHealthCheckConfig) (hist : list (option string))
    : PublicRouteTargetHealthStatus :=
  match hist with
  | [] => STATUS_UNKNOWN
  | r :: rest =>
      if bool_decide (r = None) then
        if normalizedThreshold config.(HealthyThreshold) defaultTargetHealthCheckHealthyThreshold <=? trailing true hist
        then STATUS_HEALTHY else refStatus config rest
      else if normalizedThreshold config.(UnhealthyThreshold) defaultTargetHealthCheckUnhealthyThreshold <=? trailing false hist
        then STATUS_UNHEALTHY else refStatus config rest
  end.

(** The code on results with their times, oldest first. *)
Definition runChecks (config : publicRouteTargetHealthCheckConfig) (results : list (option string * Z))
    : publicRouteTargetCheckState :=
  fold_left (λ s r, recordPublicRouteTargetCheckResult s config r.1 r.2) results unknownPublicRouteTargetCheckState.

Lemma runChecks_snoc config results r : runChecks config (results ++ [r]) =
  recordPublicRouteTargetCheckResult (runChecks config results) config r.1 r.2.
Proof. unfold runChecks. by rewrite fold_left_app. Qed.

Lemma runChecks_exact config results :
  let hist := rev (map fst results) in
  let s := runChecks config results in
  s.(explicitStatus) = refStatus config hist ∧ s.(healthyStreak) = trailing true hist
  ∧ s.(unhealthyStreak) = trailing false hist ∧ s.(passiveUnhealthyUntil) = 0.
Proof.
  induction results as [|[r t] results IH] using rev_ind; [done|]. cbv zeta in *.
  rewrite map_app, rev_app_distr, runChecks_snoc. simpl. destruct IH as (Hs & Hh & Hu & Hp).
  destruct r as [e|]; unfold recordPublicRouteTargetCheckResult; cbv zeta;
    cbn [fst snd explicitStatus healthyStreak unhealthyStreak passiveUnhealthyUntil rev app].
  - rewrite bool_decide_false by done. simpl. rewrite Hs, Hu. split_and!; try done; try lia.
    by rewrite (Z.add_comm 1).
  - rewrite bool_decide_true by done. simpl. rewrite Hs, Hh. split_and!; try done; try lia.
    by rewrite (Z.add_comm 1).
Qed.

(** ** Checks in flight *)

Record flight := mkFlight { fTarget : Z; fGeneration : Z; fConfig : publicRouteTargetHealthConfig }.

(** What requests and agents do to the monitor between reconciliations. *)
Inductive update : publicRouteTargetHealthMonitor → publicRouteTargetHealthMonitor → Prop :=
  | UpPassive m id err now : update m (markPassiveFailure m id err now)
  | UpAgentPassive m id agentID err now : update m (markAgentPassiveFailure m id agentID err now)
  | UpAgentCheck m id agentID a now : update m (recordAgentExplicitCheck m id agentID a now)
  | UpConnected m agentID publicID : update m (recordAgentConnectedForAll m agentID publicID)
  | UpDisconnected m agentID : update m (recordAgentDisconnectedForAll m agentID)
  | UpDirect m id generation a now : update m (recordDirectExplicitCheckForGeneration m id generation a now).

(** A loop asks what to check, checks it, and records the result; meanwhile the
    configuration may change, but no target goes away. *)
Inductive step : publicRouteTargetHealthMonitor * list flight → publicRouteTargetHealthMonitor * list flight → Prop :=
  | StepReconcile m fl ts active :
      (∀ id, is_Some (m.(states) !! id) → id ∈ map HealthID ts) →
      step (m, fl) ((reconcile m (Some ts) active).1, fl)
  | StepFetch m fl id generation config :
      directCheckForGeneration m id generation = Some config → step (m, fl) (m, mkFlight id generation config :: fl)
  | StepUpdate m m' fl : update m m' → step (m, fl) (m', fl)
  | StepBegin m fl id : step (m, fl) ((beginRequest m id).1, fl)
  | StepEnd m fl object : step (m, fl) (endRequest m object, fl).

(** A flight of the current generation of a running loop checks the current target. *)
Definition fenced (s : publicRouteTargetHealthState) (f : flight) : Prop :=
  f.(fGeneration) ≤ s.(directGeneration) ∧
  (f.(fGeneration) = s.(directGeneration) → s.(directCheckRunning) = true → f.(fConfig) = s.(target)).
Definition fences (m : publicRouteTargetHealthMonitor) (fl : list flight) : Prop :=
  ∀ f, f ∈ fl → ∃ s, m.(states) !! f.(fTarget) = Some s ∧ fenced s f.

(** The new state of a target fences what the old one fenced. *)
Definition advances (s s' : publicRouteTargetHealthState) : Prop :=
  s.(directGeneration) ≤ s'.(directGeneration) ∧
  (s'.(directGeneration) = s.(directGeneration) → s'.(directCheckRunning) = true →
   s.(directCheckRunning) = true ∧ s'.(target) = s.(target)).

Lemma advances_fenced s s' f : advances s s' → fenced s f → fenced s' f.
Proof.
  intros [Hg Hr] [Hf Hc]. split; [lia|]. intros Eg Erun. assert (E : directGeneration s' = directGeneration s) by lia.
  destruct (Hr E Erun) as [Hrun ->]. apply Hc; [lia|done].
Qed.

Lemma advances_same s s' : s'.(directGeneration) = s.(directGeneration) → s'.(directCheckRunning) = s.(directCheckRunning) →
  s'.(target) = s.(target) → advances s s'.
Proof. intros E1 E2 E3. split; [lia|]. intros _ H. by rewrite <- E2. Qed.

Lemma reconcileTarget_advances active t s : advances s (reconcileTarget active t s).1.
Proof.
  assert (Hd : advances s (reconcileDirect active t s).1).
  { unfold reconcileDirect. cbv zeta. destruct (decide (s.(target) = t)) as [<-|Hne].
    - rewrite bool_decide_false by (intros H; by apply H). simpl.
      destruct (shouldRunDirect active s.(target)), s.(directCheckRunning) eqn:Er; simpl; split; simpl; try lia; done.
    - rewrite bool_decide_true by done. simpl.
      destruct s.(directCheckRunning) eqn:Er; simpl; destruct (shouldRunDirect active t); simpl;
        rewrite ?Er; simpl; split; simpl; rewrite ?Er; simpl; try lia; try done. }
  unfold reconcileTarget. destruct (reconcileDirect active t s) as [s' started]. simpl in *.
  unfold advances in *. by destruct (t.(HealthCheck).(CheckEnabled)).
Qed.

Lemma fences_put m fl id s s' : m.(states) !! id = Some s → advances s s' → fences m fl → fences (putState m id s') fl.
Proof.
  intros Hs Ha Hf f Hin. destruct (Hf f Hin) as (x & Hx & Hfx). simpl.
  destruct (decide (id = f.(fTarget))) as [->|Hne].
  - exists s'. rewrite lookup_insert_eq. split; [done|]. rewrite Hs in Hx. injection Hx as <-. by apply (advances_fenced s).
  - exists x. by rewrite lookup_insert_ne.
Qed.

Lemma getState_fences m fl id t : fences m fl → fences (getState m id t).1 fl ∧
  (getState m id t).1.(states) !! id = Some (getState m id t).2.
Proof.
  intros Hf. unfold getState. destruct (m.(states) !! id) as [s|] eqn:E; simpl; [done|]. split; [|apply lookup_insert_eq].
  intros f Hin. destruct (Hf f Hin) as (x & Hx & Hfx). exists x. simpl. rewrite lookup_insert_ne; [done|congruence].
Qed.

Lemma reconcile_fences m ts active fl : (∀ id, is_Some (m.(states) !! id) → id ∈ map HealthID ts) →
  fences m fl → fences (reconcile m (Some ts) active).1 fl.
Proof.
  intros Hkeep Hf. unfold reconcile.
  set (m0 := mkMonitor true _ _ _). assert (H0 : fences m0 fl).
  { intros f Hin. destruct (Hf f Hin) as (s & Hs & Hfs). exists s. split; [|done].
    apply map_lookup_filter_Some. split; [done|]. apply Hkeep. eauto. }
  clearbody m0. clear Hf Hkeep. generalize (@nil (Z * Z)). revert m0 H0.
  induction ts as [|t ts IH]; intros m0 H0 loops; [done|]. cbn [fold_left]. unfold reconcileOne at 2.
  destruct (getState_fences m0 fl t.(HealthID) t H0) as [H1 Hs]. destruct (getState m0 t.(HealthID) t) as [m1 s].
  simpl in H1, Hs. pose proof (reconcileTarget_advances active t s) as Ha.
  destruct (reconcileTarget active t s) as [s' started]. apply IH. by apply (fences_put _ _ _ s).
Qed.

(** An update keeps what identifies each state. *)
Definition alike (s s' : publicRouteTargetHealthState) : Prop :=
  s'.(stateObject) = s.(stateObject) ∧ s'.(target) = s.(target) ∧ s'.(directCheckRunning) = s.(directCheckRunning)
  ∧ s'.(directGeneration) = s.(directGeneration).
Record updated (m m' : publicRouteTargetHealthMonitor) : Prop := {
  up_states : ∀ id, option_relation alike (λ _, False) (λ _, False) (m.(states) !! id) (m'.(states) !! id);
  up_requests : m'.(requests) = m.(requests);
  up_next : m'.(nextObject) = m.(nextObject) }.

Lemma alike_refl s : alike s s.
Proof. by split_and!. Qed.

Lemma updated_refl m : updated m m.
Proof. split; [|done|done]. intros id. by destruct (m.(states) !! id); [apply alike_refl|]. Qed.

Lemma updated_put m id s s' : m.(states) !! id = Some s → alike s s' → updated m (putState m id s').
Proof.
  intros Hs Ha. split; [|done|done]. intros id'. simpl. destruct (decide (id = id')) as [<-|Hne].
  - by rewrite lookup_insert_eq, Hs.
  - rewrite lookup_insert_ne by done. by destruct (m.(states) !! id'); [apply alike_refl|].
Qed.

Lemma updated_map f m : (∀ s, alike s (f s)) → updated m (mapStates f m).
Proof. intros Ha. split; [|done|done]. intros id. simpl. rewrite lookup_fmap. destruct (m.(states) !! id); [apply Ha|done]. Qed.

Lemma ensureAgent_alike s agentID : alike s (ensureAgentStateLocked s agentID).1.
Proof. unfold ensureAgentStateLocked. by destruct (s.(agentStates) !! agentID). Qed.

Lemma connected_alike s agentID publicID : alike s (recordAgentConnectedLocked s agentID publicID).
Proof.
  unfold recordAgentConnectedLocked. pose proof (ensureAgent_alike s agentID) as H.
  by destruct (ensureAgentStateLocked s agentID) as [s' a].
Qed.

Lemma disconnected_alike s agentID : alike s (recordAgentDisconnectedLocked s agentID).
Proof.
  unfold recordAgentDisconnectedLocked. pose proof (ensureAgent_alike s agentID) as H.
  by destruct (ensureAgentStateLocked s agentID) as [s' a].
Qed.

Lemma update_updated m m' : update m m' → updated m m'.
Proof.
  destruct 1 as [m id err now|m id ag err now|m id ag a now|m ag pid|m ag|m id g a now].
  - unfold markPassiveFailure. case_goal; [apply updated_refl|].
    destruct (m.(states) !! id) as [s|] eqn:E; [by apply (updated_put _ _ s)|apply updated_refl].
  - unfold markAgentPassiveFailure. case_goal; [apply updated_refl|].
    destruct (m.(states) !! id) as [s|] eqn:E; [|apply updated_refl]. case_goal.
    + destruct (s.(agentStates) !! ag); [by apply (updated_put _ _ s)|apply updated_refl].
    + pose proof (ensureAgent_alike s ag) as H. destruct (ensureAgentStateLocked s ag). by apply (updated_put _ _ s).
  - unfold recordAgentExplicitCheck. destruct (m.(states) !! id) as [s|] eqn:E; [|apply updated_refl].
    pose proof (ensureAgent_alike s ag) as H. destruct (ensureAgentStateLocked s ag).
    by destruct a; apply (updated_put _ _ s).
  - unfold recordAgentConnectedForAll. case_goal; [apply updated_refl|]. apply updated_map. intros s.
    case_goal; [apply connected_alike|apply alike_refl].
  - unfold recordAgentDisconnectedForAll. case_goal; [apply updated_refl|]. apply updated_map. intros s.
    case_goal; [apply disconnected_alike|apply alike_refl].
  - unfold recordDirectExplicitCheckForGeneration. destruct (m.(states) !! id) as [s|] eqn:E; [|apply updated_refl].
    case_goal; [apply updated_refl|]. apply (updated_put _ _ s); [done|]. by destruct a.
Qed.

Lemma updated_lookup m m' id s : updated m m' → m.(states) !! id = Some s → ∃ s', m'.(states) !! id = Some s' ∧ alike s s'.
Proof.
  intros [H _ _] Hs. specialize (H id). rewrite Hs in H. destruct (m'.(states) !! id) as [s'|]; [by exists s'|done].
Qed.
Lemma updated_lookup_back m m' id s' : updated m m' → m'.(states) !! id = Some s' → ∃ s, m.(states) !! id = Some s ∧ alike s s'.
Proof.
  intros [H _ _] Hs. specialize (H id). rewrite Hs in H. destruct (m.(states) !! id) as [s|]; [by exists s|done].
Qed.

Lemma step_fences x y : step x y → fences x.1 x.2 → fences y.1 y.2.
Proof.
  destruct 1 as [m fl ts active Hk|m fl id g c Hc|m m' fl Hu|m fl id|m fl o]; simpl; intros Hf.
  - by apply reconcile_fences.
  - unfold directCheckForGeneration in Hc. destruct (m.(states) !! id) as [s|] eqn:E; [|done].
    destruct s.(directCheckRunning) eqn:Er; simpl in Hc; [|done].
    destruct (Z.eqb_spec s.(directGeneration) g) as [Eg|]; simpl in Hc; [|done]. injection Hc as <-.
    intros f Hin. apply elem_of_cons in Hin as [->|Hin]; [|by apply Hf]. exists s. split; [done|]. split; simpl; [lia|done].
  - apply update_updated in Hu. intros f Hin. destruct (Hf f Hin) as (s & Hs & Hfs).
    destruct (updated_lookup _ _ _ _ Hu Hs) as (s' & Hs' & _ & E1 & E2 & E3). exists s'. split; [done|].
    apply (advances_fenced s); [by apply advances_same|done].
  - unfold beginRequest. case_goal; [done|]. unfold ensureStateLocked.
    destruct (getState_fences m fl id (bareConfig id) Hf) as [H _]. by destruct (getState m id (bareConfig id)).
  - done.
Qed.

(** ** Active requests *)

(** The requests in progress, by the object they keep. *)
Definition heldBy (held : list Z) (object : Z) : Z := Z.of_nat (length (filter (λ o, o = object) held)).

Inductive requestStep : publicRouteTargetHealthMonitor * list Z → publicRouteTargetHealthMonitor * list Z → Prop :=
  | ReqBegin m held id m' o : beginRequest m id = (m', Some o) → Z.of_nat (length held) < max_int64 →
      requestStep (m, held) (m', o :: held)
  | ReqEnd m k l o : requestStep (m, k ++ o :: l) (endRequest m o, k ++ l)
  | ReqReconcile m held ts active : requestStep (m, held) ((reconcile m ts active).1, held)
  | ReqUpdate m m' held : update m m' → requestStep (m, held) (m', held).

(** Counters are exact, and the states have objects of their own. *)
Record counted (m : publicRouteTargetHealthMonitor) (held : list Z) : Prop := {
  ct_count : ∀ o, default 0 (m.(requests) !! o) = heldBy held o;
  ct_fresh : ∀ id s, m.(states) !! id = Some s → s.(stateObject) < m.(nextObject);
  ct_held : Forall (λ o, o < m.(nextObject)) held;
  ct_inj : ∀ id id' s s', m.(states) !! id = Some s → m.(states) !! id' = Some s' →
    s.(stateObject) = s'.(stateObject) → id = id';
  ct_bound : Z.of_nat (length held) ≤ max_int64 }.

Lemma heldBy_cons o held x : heldBy (o :: held) x = heldBy held x + (if decide (o = x) then 1 else 0).
Proof.
  unfold heldBy. destruct (decide (o = x)).
  - rewrite filter_cons_True by done. simpl. lia.
  - rewrite filter_cons_False by done. lia.
Qed.

Lemma heldBy_middle k o l x : heldBy (k ++ o :: l) x = heldBy (k ++ l) x + (if decide (o = x) then 1 else 0).
Proof.
  unfold heldBy. rewrite !filter_app, !length_app. pose proof (heldBy_cons o l x) as H. unfold heldBy in H. lia.
Qed.

Lemma heldBy_bound held x : 0 ≤ heldBy held x ≤ Z.of_nat (length held).
Proof. unfold heldBy. pose proof (length_filter (λ o, o = x) held). lia. Qed.

Lemma heldBy_fresh held x : Forall (λ o, o < x) held → heldBy held x = 0.
Proof.
  induction 1 as [|o held Ho _ IH]; [done|]. rewrite heldBy_cons, IH. by rewrite decide_False by lia.
Qed.

Lemma getState_counted m id t held : counted m held → counted (getState m id t).1 held ∧
  (getState m id t).1.(states) !! id = Some (getState m id t).2 ∧ (getState m id t).2.(stateObject) < (getState m id t).1.(nextObject).
Proof.
  intros [Hc Hf Hh Hi Hb]. unfold getState. destruct (m.(states) !! id) as [s|] eqn:E; simpl.
  { split_and!; [by split|done|by apply (Hf id)]. }
  split_and!; [|apply lookup_insert_eq|lia]. split; simpl.
  - intros o. destruct (decide (m.(nextObject) = o)) as [<-|Hne]; [|by rewrite lookup_insert_ne].
    rewrite lookup_insert_eq. simpl. symmetry. by apply heldBy_fresh.
  - intros id' s Hs. apply lookup_insert_Some in Hs as [[_ <-]|[_ Hs]]; simpl; [lia|]. specialize (Hf id' s Hs). lia.
  - eapply Forall_impl; [exact Hh|]. simpl. lia.
  - intros a b s s' Ha Hb'. rewrite lookup_insert_Some in Ha, Hb'. intros Eo.
    destruct Ha as [[<- <-]|[Ha Hs]], Hb' as [[<- <-]|[Hb' Hs']]; simpl in Eo.
    + done.
    + specialize (Hf b s' Hs'). lia.
    + specialize (Hf a s Hs). lia.
    + by apply (Hi a b s s').
  - done.
Qed.

(** Only the objects of the states matter. *)
Lemma counted_put m held id s s' : m.(states) !! id = Some s → s'.(stateObject) = s.(stateObject) →
  counted m held → counted (putState m id s') held.
Proof.
  intros Hs Ho [Hc Hf Hh Hi Hb]. split; simpl; [done| |done| |done].
  - intros id' x Hx. apply lookup_insert_Some in Hx as [[<- <-]|[_ Hx]]; [rewrite Ho|]; eauto.
  - intros a b x y Hx Hy Exy. rewrite lookup_insert_Some in Hx, Hy.
    destruct Hx as [[<- <-]|[Ha Hx]], Hy as [[<- <-]|[Hy' Hy]]; rewrite ?Ho in Exy; eauto.
Qed.

Lemma reconcileTarget_object active t s : (reconcileTarget active t s).1.(stateObject) = s.(stateObject).
Proof.
  assert (Hd : (reconcileDirect active t s).1.(stateObject) = s.(stateObject)).
  { unfold reconcileDirect. cbv zeta. by repeat case_goal. }
  unfold reconcileTarget. destruct (reconcileDirect active t s). by case_goal.
Qed.

Lemma reconcile_counted m ts active held : counted m held → counted (reconcile m ts active).1 held.
Proof.
  intros [Hc Hf Hh Hi Hb]. destruct ts as [ts|]; simpl; [|by split].
  set (m0 := mkMonitor true _ _ _). assert (H0 : counted m0 held).
  { split; simpl; [done| |done| |done].
    - intros id s Hs. apply map_lookup_filter_Some in Hs as [Hs _]. eauto.
    - intros a b s s' Hs Hs'. apply map_lookup_filter_Some in Hs as [Hs _], Hs' as [Hs' _]. eauto. }
  clearbody m0. clear Hc Hf Hh Hi Hb. generalize (@nil (Z * Z)). revert m0 H0.
  induction ts as [|t ts IH]; intros m0 H0 loops; [done|]. cbn [fold_left]. unfold reconcileOne at 2.
  destruct (getState_counted m0 t.(HealthID) t held H0) as (H1 & Hs & _). destruct (getState m0 t.(HealthID) t) as [m1 s].
  simpl in H1, Hs. pose proof (reconcileTarget_object active t s) as Ho.
  destruct (reconcileTarget active t s) as [s' started]. apply IH. by apply (counted_put _ _ _ s).
Qed.

Lemma i64_count held x : Z.of_nat (length held) ≤ max_int64 → i64 (heldBy held x) = heldBy held x.
Proof. intros H. pose proof (heldBy_bound held x). apply i64_id. unfold in_i64, min_int64, max_int64 in *. lia. Qed.

(** The counter of one object follows the requests that hold it. *)
Lemma counted_requests m held held' o v : counted m held →
  (∀ x, x ≠ o → heldBy held' x = heldBy held x) → v = heldBy held' o →
  Forall (λ x, x < m.(nextObject)) held' → Z.of_nat (length held') ≤ max_int64 →
  counted (mkMonitor m.(hasApp) m.(states) (<[o := v]> m.(requests)) m.(nextObject)) held'.
Proof.
  intros [Hc Hf Hh Hi Hb] Hx -> Hh' Hb'. split; simpl; [|done|done|done|done]. intros x.
  destruct (decide (o = x)) as [<-|Hne]; [by rewrite lookup_insert_eq|].
  rewrite lookup_insert_ne by done. rewrite Hc, Hx; done.
Qed.

Lemma requestStep_counted x y : requestStep x y → counted x.1 x.2 → counted y.1 y.2.
Proof.
  destruct 1 as [m held id m' o Hbegin Hlen|m k l o|m held ts active|m m' held Hu]; simpl; intros H.
  - unfold beginRequest, ensureStateLocked in Hbegin. case_hyp Hbegin; [done|].
    destruct (getState_counted m id (bareConfig id) held H) as (H1 & Hs & Hlt).
    destruct (getState m id (bareConfig id)) as [m1 s]. simpl in *. injection Hbegin as <- <-.
    apply (counted_requests m1 held); [done| | | |simpl; lia].
    + intros x Hx. rewrite heldBy_cons, decide_False by done. lia.
    + rewrite (ct_count _ _ H1). rewrite <- (i64_count (_ :: held)) by (simpl; lia).
      by rewrite heldBy_cons, decide_True.
    + constructor; [done|apply (ct_held _ _ H1)].
  - pose proof (ct_bound _ _ H) as Hb. rewrite length_app in Hb. simpl in Hb.
    assert (Hb' : Z.of_nat (length (k ++ l)) ≤ max_int64) by (rewrite length_app; lia).
    apply (counted_requests m (k ++ o :: l)); [done| | | |done].
    + intros x Hx. rewrite heldBy_middle, decide_False by done. lia.
    + rewrite (ct_count _ _ H), heldBy_middle, decide_True by done. rewrite Z.add_simpl_r. by apply i64_count.
    + pose proof (ct_held _ _ H) as Hh. rewrite Forall_app, Forall_cons in Hh. apply Forall_app. tauto.
  - by apply reconcile_counted.
  - apply update_updated in Hu. destruct H as [Hc Hf Hh Hi Hb]. split; [| | | |done].
    + by rewrite (up_requests _ _ Hu).
    + intros id s' Hs'. destruct (updated_lookup_back _ _ _ _ Hu Hs') as (s & Hs & -> & _).
      rewrite (up_next _ _ Hu). eauto.
    + by rewrite (up_next _ _ Hu).
    + intros a b s1 s2 H1 H2 E. destruct (updated_lookup_back _ _ _ _ Hu H1) as (x & Hx & Ex & _).
      destruct (updated_lookup_back _ _ _ _ Hu H2) as (y & Hy & Ey & _). apply (Hi a b x y); congruence.
Qed.

Lemma new_counted : counted newPublicRouteTargetHealthMonitor [].
Proof. by split; simpl. Qed.
(** ** The properties *)

(** After any sequence of explicit checks the status is the one the reference
    reading of the thresholds gives for the whole history of results: it turns healthy or
    unhealthy exactly when the newest results of a kind reach the (normalised) threshold
    of that kind, and the streaks are the numbers of newest results of each kind. *)
Theorem health_threshold_exact config results :
  let hist := rev (map fst results) in
  let s := runChecks config results in
  s.(explicitStatus) = refStatus config hist ∧ s.(healthyStreak) = trailing true hist
  ∧ s.(unhealthyStreak) = trailing false hist.
Proof. cbv zeta. destruct (runChecks_exact config results) as (H1 & H2 & H3 & _). done. Qed.

(** While no target is removed, a check that is in flight when the target's
    configuration changes is not recorded: whenever recording the result of a fetched
    check changes the monitor, the target it was fetched for is the current one. *)
Theorem health_stale_result_dropped m fl f a now :
  rtc step (newPublicRouteTargetHealthMonitor, []) (m, fl) → f ∈ fl →
  recordDirectExplicitCheckForGeneration m f.(fTarget) f.(fGeneration) a now ≠ m →
  ∃ s, m.(states) !! f.(fTarget) = Some s ∧ s.(target) = f.(fConfig).
Proof.
  intros Hr Hin Hchange.
  assert (Hf : fences m fl).
  { apply (rtc_invariant step (λ x, fences x.1 x.2) step_fences _ _ Hr). intros x Hx. by apply elem_of_nil in Hx. }
  destruct (Hf f Hin) as (s & Hs & _ & Hc). exists s. split; [done|].
  unfold recordDirectExplicitCheckForGeneration in Hchange. rewrite Hs in Hchange. case_hyp Hchange; [done|].
  bprop. symmetry. apply Hc; [congruence|]. by destruct s.(directCheckRunning).
Qed.

(** The number of active requests of a target is the number of requests in progress
    that started on its current state: begins and ends pair up whatever reconciliations,
    checks and failures happen between, and a request on a removed target never changes
    the count of the target that replaces it. *)
Theorem health_active_exact m held id :
  rtc requestStep (newPublicRouteTargetHealthMonitor, []) (m, held) →
  activeRequests m id =
    if id <=? 0 then 0 else match m.(states) !! id with Some s => heldBy held s.(stateObject) | None => 0 end.
Proof.
  intros Hr. assert (H : counted m held)
    by exact (rtc_invariant requestStep (λ x, counted x.1 x.2) requestStep_counted _ _ Hr new_counted).
  unfold activeRequests. case_goal; [done|]. destruct (m.(states) !! id) as [s|]; [|done]. apply (ct_count _ _ H).
Qed.

(** ** Examples *)

Definition exampleTarget (origin : string) : publicRouteTargetHealthConfig :=
  mkHealthConfig 7 publicRouteTargetTypeProxy publicRouteTargetTransportDirect true (Some origin) []
    (mkCheckConfig true "/" 2 2) "".

Definition exampleStarted : publicRouteTargetHealthMonitor :=
  (reconcile newPublicRouteTargetHealthMonitor (Some [exampleTarget "a"]) true).1.

Lemma health_stale_result_dropped_witness :
  ∃ s, exampleStarted.(states) !! 7 = Some s ∧ s.(target) = exampleTarget "a".
Proof.
  assert (H1 : rtc step (newPublicRouteTargetHealthMonitor, []) (exampleStarted, [mkFlight 7 1 (exampleTarget "a")])).
  { apply (rtc_l _ _ (exampleStarted, [])).
    - apply StepReconcile. intros id [s Hs]. done.
    - apply rtc_once. apply StepFetch. vm_compute. reflexivity. }
  assert (H2 : mkFlight 7 1 (exampleTarget "a") ∈ [mkFlight 7 1 (exampleTarget "a")]) by (constructor).
  assert (H3 : recordDirectExplicitCheckForGeneration exampleStarted 7 1 (Failed "refused") 5 ≠ exampleStarted)
    by (vm_compute; discriminate).
  exact (health_stale_result_dropped exampleStarted _ _ (Failed "refused") 5 H1 H2 H3).
Defined.

(** One request begins, the target is removed and comes back, another one begins. *)
Definition exampleReplaced : publicRouteTargetHealthMonitor :=
  (beginRequest (reconcile (reconcile (beginRequest exampleStarted 7).1 (Some []) true).1
     (Some [exampleTarget "b"]) true).1 7).1.

Lemma health_active_exact_witness : activeRequests exampleReplaced 7 = 1.
Proof.
  assert (H : rtc requestStep (newPublicRouteTargetHealthMonitor, []) (exampleReplaced, [1; 0])).
  { eapply rtc_l; [apply (ReqReconcile _ _ (Some [exampleTarget "a"]) true)|].
    eapply rtc_l; [apply (ReqBegin _ _ 7 (beginRequest exampleStarted 7).1 0); [vm_compute|]; reflexivity|].
    eapply rtc_l; [apply (ReqReconcile _ _ (Some []) true)|].
    eapply rtc_l; [apply (ReqReconcile _ _ (Some [exampleTarget "b"]) true)|].
    apply rtc_once. apply (ReqBegin _ _ 7 exampleReplaced 1); [vm_compute|]; reflexivity. }
  rewrite (health_active_exact _ _ 7 H). vm_compute. reflexivity.
Defined.

(** The failures in a row that the monitor has of target 7. *)
Definition exampleStreak (m : publicRouteTargetHealthMonitor) : option Z :=
  (λ s, s.(direct).(unhealthyStreak)) <$> (m.(states) !! 7).

(** Generations restart when a target is removed: a check of target 7 at origin a is
    in flight with generation 1, the target is removed and added again with origin b,
    and the failure of origin a is recorded against origin b, whose loop has
    generation 1 as well. *)
Theorem health_generation_reuse :
  directCheckForGeneration exampleStarted 7 1 = Some (exampleTarget "a") ∧
  let m := (reconcile (reconcile exampleStarted (Some []) true).1 (Some [exampleTarget "b"]) true).1 in
  directCheckForGeneration m 7 1 = Some (exampleTarget "b") ∧ exampleStreak m = Some 0 ∧
  exampleStreak (recordDirectExplicitCheckForGeneration m 7 1 (Failed "refused") 5) = Some 1.
Proof. vm_compute. split_and!; reflexivity. Qed.
End TargetHealth.
