(* ===== verification/Routing.v ===== *)
(** Route matching of the public proxy (internal/server/public_routing.go and the host
    name rules of internal/server/public_sites.go): which site and which route a request
    belongs to, and where a redirect route sends it.

    [idna.Lookup.ToASCII] (golang.org/x/net) and the result of [url.Parse] are arguments.
    Every error value is kept apart; the messages inside an authority error are not. *)

From S2P Require Import Prelude.
From S2P Require Import GoStrings.
From S2P Require Import NetIP.
From S2P Require Import ClientIdentity.
From S2P Require Import WafCookies.
From Stdlib Require Import Ascii.

Module Routing.
Import NetIP.
Import ClientIdentity(allBytes).
Import WafCookies(publicListenerConfig, ListenerID, Port, Protocol, mkListener, normalizeRequestHost,
  isSafeLocalRedirectTarget, bracket).

(** ** Constants and data *)

Definition publicSiteHostBehaviorServe := "serve".
Definition publicSiteHostBehaviorRedirect := "redirect".
Definition publicSiteListenerBehaviorServe := "serve".
Definition publicSiteListenerBehaviorRedirectHTTPS := "redirect_https".
Definition publicRouteActionForward := "forward".
Definition publicRouteActionRedirect := "redirect".
Definition publicRouteRedirectTargetModeSameHostPath := "same_host_path".
Definition publicRouteRedirectTargetModeExternalOriginKeepPath := "external_origin_keep_path".
Definition publicRouteRedirectTargetModeAbsoluteURL := "absolute_url".
Definition publicRoutePathSecurityModeAllowEncodedSeparators := "allow_encoded_separators".
Definition publicListenerProtocolHTTPS := "https".
Definition StatusPermanentRedirect : Z := 308.

Record publicAgentSelectorConfig := mkSelector { MatchLabels : gmap string string }.

(** [ParsedURL] is [None] when the URL did not parse; [CheckSettings] are the fields only
    the health configuration copies. *)
Record publicRouteTargetConfig := mkTarget {
  TargetID : Z;
  Position : Z;
  PriorityGroup : Z;
  Weight : Z;
  TargetEnabled : bool;
  TargetType : string;
  Transport : string;
  AgentSelector : publicAgentSelectorConfig;
  AgentLoadBalancing : string;
  ParsedURL : option string;
  CheckEnabled : bool;
  CheckPath : string;
  CheckHealthyThreshold : Z;
  CheckUnhealthyThreshold : Z;
  CheckSettings : string }.

Record publicRouteConfig := mkRoute {
  RouteID : Z;
  RouteListenerID : Z;
  RouteSiteID : Z;
  Priority : Z;
  HostPattern : string;
  PathPrefix : string;
  TargetLoadBalancing : string;
  IsDefault : bool;
  Targets : list publicRouteTargetConfig;
  Action : string;
  RedirectTargetMode : string;
  RedirectTarget : string;
  RedirectStatusCode : Z;
  RedirectPreservePathSuffix : bool;
  RedirectPreserveQuery : bool;
  PathSecurityMode : string;
  AccessPolicyID : Z;
  RouteEnabled : bool }.

Record publicSiteConfig := mkSite {
  SiteID : Z;
  SiteEnabled : bool;
  CanonicalHostname : string;
  PrimaryHostname : string }.

Record publicSiteHostConfig := mkSiteHost {
  HostSiteID : Z;
  HostnamePattern : string;
  Primary : bool;
  HostBehavior : string }.

Record publicSiteListenerBindingConfig := mkBinding {
  BindingSiteID : Z;
  BindingListenerID : Z;
  BindingBehavior : string;
  RedirectListenerID : Z;
  RedirectHostname : string }.

Record publicAgentConfig := mkAgent {
  AgentConfigEnabled : bool;
  Labels : option (gmap string string) }.

Record publicProxySnapshot := mkSnapshot {
  Agents : gmap Z publicAgentConfig;
  Listeners : gmap Z publicListenerConfig;
  Sites : gmap Z publicSiteConfig;
  SiteHostsByListener : gmap Z (list publicSiteHostConfig);
  SiteBindingsByListener : gmap Z (list publicSiteListenerBindingConfig);
  DefaultSiteByListener : gmap Z publicSiteListenerBindingConfig;
  RoutesByListener : gmap Z (list publicRouteConfig);
  RoutesBySite : gmap Z (list publicRouteConfig) }.

(** [siteAuthority] is the host name an earlier stage left in the context. *)
Record request := mkRequest {
  reqHost : string;
  siteAuthority : option string;
  reqPath : string;
  reqRawPath : string;
  reqRawQuery : string;
  reqForceQuery : bool }.

Record publicRouteMatch := mkMatch {
  MatchListener : publicListenerConfig;
  MatchRoute : publicRouteConfig;
  DefaultRoute : bool }.

Inductive routeError :=
  | ConfigNotLoaded
  | ListenerNotFound
  | MalformedPublicAuthority
  | NoPublicRouteAvailable
  | NoRouteTargetAvailable.

(** The zero values of the maps. *)
Definition noBinding : publicSiteListenerBindingConfig := mkBinding 0 0 "" 0 "".
Definition noRoute : publicRouteConfig := mkRoute 0 0 0 0 "" "" "" false [] "" "" "" 0 false false "" 0 false.

(** ** Paths and hosts *)

Definition pathPrefixMatches (requestPath pathPrefix : string) : bool :=
  let pathPrefix := TrimSpace pathPrefix in
  if String.eqb pathPrefix "" || String.eqb pathPrefix "/" then true
  else
    let requestPath := if String.eqb requestPath "" then "/" else requestPath in
    if negb (HasPrefix requestPath pathPrefix) then false
    else if (String.length requestPath =? String.length pathPrefix)%nat then true
    else if HasSuffix pathPrefix "/" then true
    else match String.get (String.length pathPrefix) requestPath with
         | Some c => Ascii.eqb c "/"
         | None => false
         end.

Definition hostMatchesPattern (host pattern : string) : bool :=
  let host := TrimSuffix (ToLower (TrimSpace host)) "." in
  let pattern := TrimSuffix (ToLower (TrimSpace pattern)) "." in
  if String.eqb pattern "" then true
  else if HasPrefix pattern "*." then
    let suffix := TrimPrefix pattern "*" in
    HasSuffix host suffix && (String.length (TrimPrefix suffix ".") <? String.length host)%nat
  else String.eqb host pattern.

Definition strictPublicSiteHostMatches (hostname pattern : string) : bool :=
  let hostname := TrimSuffix (ToLower (TrimSpace hostname)) "." in
  let pattern := TrimSuffix (ToLower (TrimSpace pattern)) "." in
  if negb (HasPrefix pattern "*.") then String.eqb hostname pattern
  else
    let suffix := TrimPrefix pattern "*." in
    if negb (HasSuffix hostname ("." ++ suffix)) then false
    else
      let prefix := TrimSuffix hostname ("." ++ suffix) in
      negb (String.eqb prefix "") && negb (containsByte "." prefix).

(** [strconv.ParseUint (value, 10, 16)] *)
Definition validPublicAuthorityPort (value : string) : bool :=
  match ParseUint value 65535 with Some port => 0 <? port | None => false end.

Definition labelChar (c : ascii) : bool :=
  let n := nat_of_ascii c in
  ((97 <=? n)%nat && (n <=? 122)%nat) || ((48 <=? n)%nat && (n <=? 57)%nat) || Ascii.eqb c "-".

(** The test both name checks make of a label. *)
Definition validLabel (label : string) : bool :=
  negb (String.eqb label "") && (String.length label <=? 63)%nat && negb (startsWith "-" label)
  && negb (endsWith "-" label) && allBytes labelChar label.

Definition validPublicSiteDNSName (value : string) : bool :=
  let labels := Split "." value in
  if (length labels <? 2)%nat then false else forallb validLabel labels.

Section hosts.
Context (toASCII : string → option string).

Definition normalizePublicSiteRequestDNSName (value : string) : option string :=
  if String.eqb value "" || negb (String.eqb value (TrimSpace value)) || containsByte "*" value then None
  else
    let value := ToLower value in
    let trimmed := TrimSuffix value "." in
    if HasSuffix value "." && HasSuffix trimmed "." then None
    else match toASCII trimmed with
    | None => None
    | Some ascii =>
        if (String.length ascii =? 0)%nat || (253 <? String.length ascii)%nat then None
        else if forallb validLabel (Split "." ascii) then Some ascii else None
    end.

Definition normalizePublicSiteRequestHostname (host : string) : option string :=
  if String.eqb host "" || negb (String.eqb host (TrimSpace host)) || containsByte "*" host then None
  else
    let host := ToLower host in
    match ParseAddr host with
    | Some address => if String.eqb (Zone address) "" then Some (addrString address) else None
    | None => normalizePublicSiteRequestDNSName host
    end.

Definition forbiddenAuthorityByte (c : ascii) : bool :=
  existsb (Ascii.eqb c) ["*"; "/"; "\"; "@"; ","; "009"; "013"; "010"]%char.

Definition parsePublicSiteRequestAuthority (authority : string) : option string :=
  if String.eqb authority "" || negb (String.eqb authority (TrimSpace authority))
     || negb (allBytes (λ c, negb (forbiddenAuthorityByte c)) authority) then None
  else if HasPrefix authority "[" then
    match Cut "]" authority with
    | None => None
    | Some (open, rest) =>
        let host := tail open in
        if negb (String.eqb rest "") && negb (startsWith ":" rest && validPublicAuthorityPort (tail rest)) then None
        else match ParseAddr host with
        | Some address =>
            if Is6 address && String.eqb (Zone address) "" then normalizePublicSiteRequestHostname host else None
        | None => None
        end
    end
  else match countByte ":" authority with
  | 0%nat => normalizePublicSiteRequestHostname authority
  | 1%nat =>
      match Cut ":" authority with
      | Some (host, port) => if validPublicAuthorityPort port then normalizePublicSiteRequestHostname host else None
      | None => None
      end
  | _ => None
  end.

Definition normalizePublicSiteHostnamePattern (value : string) : option string :=
  let value := TrimSuffix (TrimSpace (ToLower value)) "." in
  if String.eqb value "" then None
  else
    let wildcard := HasPrefix value "*." in
    let value := if wildcard then TrimPrefix value "*." else value in
    if containsByte "*" value
       || negb (allBytes (λ c, negb (existsb (Ascii.eqb c) ["/"; "\"; "@"; "["; "]"; " "]%char)) value) then None
    else match ParseAddr value with
    | Some address =>
        if negb (String.eqb (Zone address) "") || wildcard then None else Some (addrString address)
    | None =>
        match toASCII value with
        | None => None
        | Some ascii =>
            if (253 <? String.length ascii)%nat || negb (validPublicSiteDNSName ascii) then None
            else if wildcard then if containsByte "." ascii then Some ("*." ++ ascii)%string else None
            else Some ascii
        end
    end.
End hosts.

(** ** Sites *)

Definition matchPublicSiteHost (bindings : list publicSiteHostConfig) (host : string) : option publicSiteHostConfig :=
  match List.find (λ b, String.eqb b.(HostnamePattern) host) bindings with
  | Some b => Some b
  | None => List.find (λ b, strictPublicSiteHostMatches host b.(HostnamePattern)) bindings
  end.

Definition matchPublicSiteForListener (snap : publicProxySnapshot) (listenerID : Z) (host : string)
    : option (publicSiteHostConfig * publicSiteListenerBindingConfig) :=
  match matchPublicSiteHost (default [] (snap.(SiteHostsByListener) !! listenerID)) host with
  | Some hostBinding =>
      match List.find (λ b, b.(BindingSiteID) =? hostBinding.(HostSiteID))
              (default [] (snap.(SiteBindingsByListener) !! listenerID)) with
      | Some listenerBinding => Some (hostBinding, listenerBinding)
      | None => Some (hostBinding, mkBinding hostBinding.(HostSiteID) listenerID publicSiteListenerBehaviorServe 0 "")
      end
  | None =>
      let defaultBinding := default noBinding (snap.(DefaultSiteByListener) !! listenerID) in
      if defaultBinding.(BindingSiteID) =? 0 then None
      else Some (mkSiteHost defaultBinding.(BindingSiteID) "" false publicSiteHostBehaviorServe, defaultBinding)
  end.

(** [escape (host, encodeHost)] of net/url. *)
Definition hostByte (c : ascii) : bool :=
  let n := nat_of_ascii c in
  ((97 <=? n)%nat && (n <=? 122)%nat) || ((65 <=? n)%nat && (n <=? 90)%nat) || ((48 <=? n)%nat && (n <=? 57)%nat)
  || existsb (Nat.eqb n) [45; 95; 46; 126; 33; 36; 38; 39; 40; 41; 42; 43; 44; 59; 61; 58; 91; 93; 60; 62; 34]%nat.
Definition upperHex (n : nat) : ascii := ascii_of_nat (if (n <? 10)%nat then 48 + n else 55 + n).
Fixpoint escapeHost (s : string) : string :=
  match s with
  | EmptyString => EmptyString
  | String c s =>
      if hostByte c then String c (escapeHost s)
      else String "%" (String (upperHex (nat_of_ascii c / 16)) (String (upperHex (nat_of_ascii c mod 16)) (escapeHost s)))
  end.

(** The [String] of a URL with a scheme and a host only. *)
Definition originString (scheme host : string) : string :=
  (scheme ++ ":" ++ (if String.eqb host "" then "" else "//" ++ escapeHost host))%string.

(** [net.ParseIP (host) <> nil] and a colon in it. *)
Definition bracketIPv6 (host : string) : string :=
  match ParseAddr host with
  | Some a => if String.eqb (Zone a) "" && containsByte ":" host then ("[" ++ host ++ "]")%string else host
  | None => host
  end.

Definition redirectRoute (target : string) (site : publicSiteConfig) (listener : publicListenerConfig) : publicRouteConfig :=
  mkRoute 0 listener.(ListenerID) site.(SiteID) 0 "" "" "" false [] publicRouteActionRedirect
    publicRouteRedirectTargetModeExternalOriginKeepPath target StatusPermanentRedirect false true
    publicRoutePathSecurityModeAllowEncodedSeparators 0 true.

Definition publicSiteRedirectRoute (listener : publicListenerConfig) (site : publicSiteConfig) : publicRouteConfig :=
  let host := if String.eqb site.(CanonicalHostname) "" then site.(PrimaryHostname) else site.(CanonicalHostname) in
  let host := bracketIPv6 host in
  let https := String.eqb listener.(Protocol) publicListenerProtocolHTTPS in
  let defaultPort := (https && (listener.(Port) =? 443)) || (negb https && (listener.(Port) =? 80)) in
  let host := if negb defaultPort && (0 <? listener.(Port))
              then JoinHostPort (TrimBy bracket host) (FormatInt listener.(Port)) else host in
  redirectRoute (originString (if https then "https" else "http") host) site listener.

Definition publicSiteListenerRedirectRoute (source target : publicListenerConfig) (site : publicSiteConfig)
    (binding : publicSiteListenerBindingConfig) (hostBinding : publicSiteHostConfig) (requestHost : string)
    : publicRouteConfig :=
  let host := binding.(RedirectHostname) in
  let host := if String.eqb host "" && String.eqb hostBinding.(HostBehavior) publicSiteHostBehaviorRedirect
              then site.(CanonicalHostname) else host in
  let host := if String.eqb host "" then requestHost else host in
  let host := bracketIPv6 host in
  let host := if (0 <? target.(Port)) && negb (target.(Port) =? 443)
              then JoinHostPort (TrimBy bracket host) (FormatInt target.(Port)) else host in
  redirectRoute (originString "https" host) site source.

(** ** Matching *)

(** The loops over the routes: the first one that applies ([noRoute] when none does),
    and the first default route seen before it. *)
Fixpoint scanRoutes (applies : publicRouteConfig → bool) (skip : publicRouteConfig → bool)
    (routes : list publicRouteConfig) (defaultRoute : publicRouteConfig) : publicRouteConfig * publicRouteConfig :=
  match routes with
  | [] => (noRoute, defaultRoute)
  | route :: routes =>
      if skip route then scanRoutes applies skip routes defaultRoute
      else if route.(IsDefault) then
        scanRoutes applies skip routes (if defaultRoute.(RouteID) =? 0 then route else defaultRoute)
      else if applies route then (route, defaultRoute)
      else scanRoutes applies skip routes defaultRoute
  end.

(** What both loops do with their result. *)
Definition chooseRoute (listener : publicListenerConfig) (found : publicRouteConfig * publicRouteConfig)
    : routeError + publicRouteMatch :=
  let '(matchedRoute, defaultRoute) := found in
  if matchedRoute.(RouteID) =? 0 then
    if defaultRoute.(RouteID) =? 0 then inl NoPublicRouteAvailable
    else inr (mkMatch listener defaultRoute true)
  else inr (mkMatch listener matchedRoute false).

Definition siteSkips (siteID : Z) (route : publicRouteConfig) : bool :=
  negb route.(RouteEnabled) || negb (route.(RouteSiteID) =? siteID).
Definition pathApplies (r : request) (route : publicRouteConfig) : bool :=
  String.eqb route.(PathPrefix) "" || pathPrefixMatches r.(reqPath) route.(PathPrefix).
Definition legacyApplies (host : string) (r : request) (route : publicRouteConfig) : bool :=
  (String.eqb route.(HostPattern) "" || hostMatchesPattern host route.(HostPattern)) && pathApplies r route.

(** A request for a host that a site claims. *)
Definition matchSiteRoute (snap : publicProxySnapshot) (listener : publicListenerConfig) (listenerID : Z) (r : request)
    (host : string) (hostBinding : publicSiteHostConfig) (listenerBinding : publicSiteListenerBindingConfig)
    : routeError + publicRouteMatch :=
  match snap.(Sites) !! listenerBinding.(BindingSiteID) with
  | None => inl NoPublicRouteAvailable
  | Some site =>
      if negb site.(SiteEnabled) then inl NoPublicRouteAvailable
      else if String.eqb listenerBinding.(BindingBehavior) publicSiteListenerBehaviorRedirectHTTPS then
        match snap.(Listeners) !! listenerBinding.(RedirectListenerID) with
        | None => inl NoPublicRouteAvailable
        | Some target =>
            inr (mkMatch listener (publicSiteListenerRedirectRoute listener target site listenerBinding hostBinding host) false)
        end
      else if String.eqb hostBinding.(HostBehavior) publicSiteHostBehaviorRedirect && negb hostBinding.(Primary) then
        inr (mkMatch listener (publicSiteRedirectRoute listener site) false)
      else
        let routes := match snap.(RoutesBySite) !! site.(SiteID) with
          | Some routes => routes
          | None => default [] (snap.(RoutesByListener) !! listenerID) end in
        chooseRoute listener (scanRoutes (pathApplies r) (siteSkips site.(SiteID)) routes noRoute)
  end.

Definition matchLegacyRoute (snap : publicProxySnapshot) (listener : publicListenerConfig) (listenerID : Z) (r : request)
    : routeError + publicRouteMatch :=
  let host := normalizeRequestHost r.(reqHost) in
  chooseRoute listener
    (scanRoutes (legacyApplies host r) (siteSkips 0) (default [] (snap.(RoutesByListener) !! listenerID)) noRoute).

Definition hasSites (snap : publicProxySnapshot) (listenerID : Z) : bool :=
  negb (bool_decide (default [] (snap.(SiteHostsByListener) !! listenerID) = []))
  || negb (bool_decide (default [] (snap.(SiteBindingsByListener) !! listenerID) = []))
  || negb ((default noBinding (snap.(DefaultSiteByListener) !! listenerID)).(BindingSiteID) =? 0).

Section matching.
Context (toASCII : string → option string).

(** The host name sites are looked up with. *)
Definition requestAuthority (r : request) : option string :=
  match r.(siteAuthority) with
  | Some host => Some host
  | None => parsePublicSiteRequestAuthority toASCII r.(reqHost)
  end.

Definition matchPublicRouteInSnapshot (snap : option publicProxySnapshot) (listenerID : Z) (r : request)
    : routeError + publicRouteMatch :=
  match snap with
  | None => inl ConfigNotLoaded
  | Some snap =>
      match snap.(Listeners) !! listenerID with
      | None => inl ListenerNotFound
      | Some listener =>
          if hasSites snap listenerID then
            match requestAuthority r with
            | None => inl MalformedPublicAuthority
            | Some host =>
                match matchPublicSiteForListener snap listenerID host with
                | Some (hostBinding, listenerBinding) =>
                    matchSiteRoute snap listener listenerID r host hostBinding listenerBinding
                | None => matchLegacyRoute snap listener listenerID r
                end
            end
          else matchLegacyRoute snap listener listenerID r
      end
  end.
End matching.

(** [sort.SliceStable] by priority, then by identifier. *)
Definition routeLe (a b : publicRouteConfig) : bool :=
  if a.(Priority) =? b.(Priority) then a.(RouteID) <=? b.(RouteID) else a.(Priority) <=? b.(Priority).
Definition sortPublicRoutes (routes : list publicRouteConfig) : list publicRouteConfig := ClientIdentity.sortBy routeLe routes.

(** ** Redirects *)

Definition slashOrBackslash (c : ascii) : bool := Ascii.eqb c "/" || Ascii.eqb c "\".

Definition normalizeLocalRedirectPath (path : string) : string :=
  let path := TrimSpace path in
  if String.eqb path "" then "/"
  else if isSafeLocalRedirectTarget path then path
  else
    let path := trimLeftBy slashOrBackslash path in
    if String.eqb path "" || startsWith "/" path || startsWith "\" path then "/"
    else
      let normalized := ("/" ++ path)%string in
      if isSafeLocalRedirectTarget normalized then normalized else "/".

Definition joinRedirectPath (basePath suffix : string) : string :=
  let basePath := normalizeLocalRedirectPath basePath in
  if String.eqb suffix "" then basePath
  else
    let suffix := normalizeLocalRedirectPath suffix in
    if String.eqb basePath "/" then suffix
    else (trimRightBy (Ascii.eqb "/") basePath ++ "/" ++ trimLeftBy (Ascii.eqb "/") suffix)%string.

Definition redirectPathSuffix (requestPath pathPrefix : string) : string :=
  let requestPath := if String.eqb requestPath "" then "/" else requestPath in
  let pathPrefix := TrimSpace pathPrefix in
  if String.eqb pathPrefix "" || String.eqb pathPrefix "/" then normalizeLocalRedirectPath requestPath
  else if negb (pathPrefixMatches requestPath pathPrefix) then ""
  else
    let suffix := TrimPrefix requestPath pathPrefix in
    if String.eqb suffix "" then "" else normalizeLocalRedirectPath suffix.

Definition mergeRedirectQuery (configuredQuery incomingQuery : string) (preserveIncoming : bool) : string :=
  if negb preserveIncoming || String.eqb incomingQuery "" then configuredQuery
  else if String.eqb configuredQuery "" then incomingQuery
  else (configuredQuery ++ "&" ++ incomingQuery)%string.

Definition normalizePublicRouteAction (action : string) : string :=
  let a := TrimSpace (ToLower action) in
  if String.eqb a "" || String.eqb a publicRouteActionForward then publicRouteActionForward else a.
Definition normalizePublicRouteRedirectTargetMode (mode : string) : string := TrimSpace (ToLower mode).

(** The fields of the parsed redirect target that change; scheme, user and host stay. *)
Record targetURL := mkTargetURL {
  tPath : string;
  tRawPath : string;
  tRawQuery : string;
  tForceQuery : bool }.

(** [parsed] is the result of [url.Parse] on the target of the route; the caller renders
    the URL that comes back. *)
Definition redirectLocationForRequest (r : request) (route : publicRouteConfig) (parsed : option targetURL)
    : option targetURL :=
  let mode := normalizePublicRouteRedirectTargetMode route.(RedirectTargetMode) in
  if String.eqb mode publicRouteRedirectTargetModeSameHostPath || String.eqb mode publicRouteRedirectTargetModeAbsoluteURL then
    match parsed with
    | None => None
    | Some target =>
        let suffix := redirectPathSuffix r.(reqPath) route.(PathPrefix) in
        let query := mergeRedirectQuery target.(tRawQuery) r.(reqRawQuery) route.(RedirectPreserveQuery) in
        Some (mkTargetURL
          (if route.(RedirectPreservePathSuffix) then joinRedirectPath target.(tPath) suffix else target.(tPath))
          (if route.(RedirectPreservePathSuffix) then "" else target.(tRawPath))
          query (route.(RedirectPreserveQuery) && r.(reqForceQuery) && String.eqb query ""))
    end
  else if String.eqb mode publicRouteRedirectTargetModeExternalOriginKeepPath then
    match parsed with
    | None => None
    | Some _ =>
        let query := mergeRedirectQuery "" r.(reqRawQuery) route.(RedirectPreserveQuery) in
        Some (mkTargetURL (if String.eqb r.(reqPath) "" then "/" else r.(reqPath)) r.(reqRawPath)
          query (route.(RedirectPreserveQuery) && r.(reqForceQuery) && String.eqb query ""))
    end
  else None.

Definition shouldWriteStaticResponseBody (method : string) (statusCode : Z) : bool :=
  if String.eqb method "HEAD" then false
  else if (100 <=? statusCode) && (statusCode <? 200) then false
  else negb (statusCode =? 204) && negb (statusCode =? 304).

(** ** Lemmas: scanning routes *)

Definition eligible (applies skip : publicRouteConfig → bool) (r : publicRouteConfig) : Prop :=
  skip r = false ∧ r.(IsDefault) = false ∧ applies r = true.
Definition fallback (skip : publicRouteConfig → bool) (r : publicRouteConfig) : Prop :=
  skip r = false ∧ r.(IsDefault) = true.

(** The first eligible route and what comes before it. *)
Lemma scanRoutes_matched applies skip routes d m d' : scanRoutes applies skip routes d = (m, d') →
  (m = noRoute ∧ ∀ r, r ∈ routes → ¬ eligible applies skip r) ∨
  (eligible applies skip m ∧ ∃ pre post, routes = pre ++ m :: post ∧ ∀ r, r ∈ pre → ¬ eligible applies skip r).
Proof.
  revert d. induction routes as [|r routes IH]; intros d; simpl.
  { intros [= <- <-]. left. split; [done|]. intros r Hr. by apply elem_of_nil in Hr. }
  assert (Hnext : ∀ d, ¬ eligible applies skip r → scanRoutes applies skip routes d = (m, d') →
    (m = noRoute ∧ ∀ x, x ∈ r :: routes → ¬ eligible applies skip x) ∨
    (eligible applies skip m ∧ ∃ pre post, r :: routes = pre ++ m :: post ∧ ∀ x, x ∈ pre → ¬ eligible applies skip x)).
  { intros d0 Hr Hs. destruct (IH _ Hs) as [[-> Hnone]|(Hm & pre & post & -> & Hpre)].
    - left. split; [done|]. intros x [->|Hx]%elem_of_cons; auto.
    - right. split; [done|]. exists (r :: pre), post. split; [done|]. intros x [->|Hx]%elem_of_cons; auto. }
  unfold eligible in Hnext at 1. case_if Es; [apply Hnext; intros (? & _); congruence|].
  case_if Ed; [apply Hnext; intros (_ & ? & _); congruence|].
  case_if Ea; [|apply Hnext; intros (_ & _ & ?); congruence].
  intros [= <- <-]. right. split; [done|]. exists [], routes. split; [done|]. intros x Hx. by apply elem_of_nil in Hx.
Qed.

(** The default route the scan keeps is the first one, and it looks at every route when
    none is eligible. *)
Lemma scanRoutes_default applies skip routes d m d' : scanRoutes applies skip routes d = (m, d') →
  (∀ r, r ∈ routes → r.(RouteID) ≠ 0) →
  (d.(RouteID) ≠ 0 → d' = d) ∧
  (d.(RouteID) = 0 →
    (d' = d ∧ (m = noRoute → ∀ r, r ∈ routes → ¬ fallback skip r)) ∨
    (fallback skip d' ∧ ∃ pre post, routes = pre ++ d' :: post ∧ ∀ r, r ∈ pre → ¬ fallback skip r)).
Proof.
  intros H Hid. revert d H. induction routes as [|r routes IH]; intros d; simpl.
  { intros [= <- <-]. split; [done|]. intros _. left. split; [done|]. intros _ r Hr. by apply elem_of_nil in Hr. }
  assert (Hid' : ∀ x, x ∈ routes → x.(RouteID) ≠ 0) by (intros x Hx; apply Hid; by right).
  assert (Hnext : ∀ m, ¬ fallback skip r →
    (d' = d ∧ (m = noRoute → ∀ x, x ∈ routes → ¬ fallback skip x)) ∨
    (fallback skip d' ∧ ∃ pre post, routes = pre ++ d' :: post ∧ ∀ x, x ∈ pre → ¬ fallback skip x) →
    (d' = d ∧ (m = noRoute → ∀ x, x ∈ r :: routes → ¬ fallback skip x)) ∨
    (fallback skip d' ∧ ∃ pre post, r :: routes = pre ++ d' :: post ∧ ∀ x, x ∈ pre → ¬ fallback skip x)).
  { intros m0 Hr [[-> Hn]|(Hf & pre & post & -> & Hp)].
    - left. split; [done|]. intros E x [->|Hx]%elem_of_cons; [done|]. by apply Hn.
    - right. split; [done|]. exists (r :: pre), post. split; [done|]. intros x [->|Hx]%elem_of_cons; auto. }
  case_if Es.
  { intros H. destruct (IH Hid' _ H) as [H1 H2]. split; [done|]. intros E. apply Hnext; [intros [? _]; congruence|auto]. }
  case_if Ed.
  { intros H. destruct (IH Hid' _ H) as [H1 H2]. destruct (Z.eqb_spec d.(RouteID) 0) as [E|E].
    - split; [done|]. intros _. right. rewrite H1 by (apply Hid; by left). split; [done|]. exists [], routes.
      split; [done|]. intros x Hx. by apply elem_of_nil in Hx.
    - split; [auto|done]. }
  case_if Ea.
  - intros [= <- <-]. split; [done|]. intros _. left. split; [done|]. intros ->. exfalso. by apply (Hid noRoute); [left|].
  - intros H. destruct (IH Hid' _ H) as [H1 H2]. split; [done|]. intros E. apply Hnext; [intros [_ ?]; congruence|auto].
Qed.

Lemma routeLe_total x y : routeLe x y = true ∨ routeLe y x = true.
Proof. unfold routeLe. destruct (Z.eqb_spec x.(Priority) y.(Priority)), (Z.eqb_spec y.(Priority) x.(Priority)); lia. Qed.
Lemma routeLe_trans x y z : routeLe x y = true → routeLe y z = true → routeLe x z = true.
Proof.
  unfold routeLe. destruct (Z.eqb_spec x.(Priority) y.(Priority)), (Z.eqb_spec y.(Priority) z.(Priority)),
    (Z.eqb_spec x.(Priority) z.(Priority)); lia.
Qed.

(** In a sorted list the first element with a property is a least one. *)
Lemma sorted_first_least (P : publicRouteConfig → Prop) rs x pre post : sortPublicRoutes rs = pre ++ x :: post →
  (∀ y, y ∈ pre → ¬ P y) → ∀ y, y ∈ rs → P y → routeLe x y = true.
Proof.
  intros E Hpre y Hy HP.
  pose proof (ClientIdentity.sortBy_sorted routeLe rs routeLe_total routeLe_trans) as Hs. fold (sortPublicRoutes rs) in Hs.
  assert (Hin : y ∈ sortPublicRoutes rs) by (unfold sortPublicRoutes; by rewrite ClientIdentity.sortBy_perm).
  rewrite E in Hs, Hin. apply elem_of_app in Hin as [Hin|[->|Hin]%elem_of_cons].
  - by destruct (Hpre y Hin).
  - unfold routeLe. rewrite Z.eqb_refl. lia.
  - clear E Hpre. induction pre as [|z pre IH]; simpl in Hs.
    + apply Sorted.StronglySorted_inv in Hs as [_ Hs]. rewrite Forall_forall in Hs. by apply Hs.
    + apply IH. by apply Sorted.StronglySorted_inv in Hs as [Hs _].
Qed.

Lemma sortPublicRoutes_elem rs x : x ∈ sortPublicRoutes rs ↔ x ∈ rs.
Proof. unfold sortPublicRoutes. by rewrite ClientIdentity.sortBy_perm. Qed.

(** What the choice among sorted routes is. *)
Lemma chooseRoute_sorted listener applies skip rs : (∀ r, r ∈ rs → r.(RouteID) ≠ 0) →
  match chooseRoute listener (scanRoutes applies skip (sortPublicRoutes rs) noRoute) with
  | inr m => m.(MatchListener) = listener ∧ m.(MatchRoute) ∈ rs ∧
      if m.(DefaultRoute) then fallback skip m.(MatchRoute) ∧ (∀ r, r ∈ rs → ¬ eligible applies skip r) ∧
        ∀ r, r ∈ rs → fallback skip r → routeLe m.(MatchRoute) r = true
      else eligible applies skip m.(MatchRoute) ∧ ∀ r, r ∈ rs → eligible applies skip r → routeLe m.(MatchRoute) r = true
  | inl e => e = NoPublicRouteAvailable ∧ ∀ r, r ∈ rs → ¬ eligible applies skip r ∧ ¬ fallback skip r
  end.
Proof.
  intros Hid. assert (Hid' : ∀ r, r ∈ sortPublicRoutes rs → r.(RouteID) ≠ 0) by (intros r; rewrite sortPublicRoutes_elem; auto).
  destruct (scanRoutes applies skip (sortPublicRoutes rs) noRoute) as [m d] eqn:E.
  pose proof (scanRoutes_matched _ _ _ _ _ _ E) as Hm. pose proof (scanRoutes_default _ _ _ _ _ _ E Hid') as [_ Hd].
  specialize (Hd eq_refl). unfold chooseRoute. destruct Hm as [[-> Hnone]|(Hm & pre & post & Ers & Hpre)].
  - change (RouteID noRoute =? 0) with true. cbv iota. setoid_rewrite sortPublicRoutes_elem in Hnone.
    destruct Hd as [[-> Hn]|(Hf & pre & post & Ers & Hpre)].
    + change (RouteID noRoute =? 0) with true. cbv iota. split; [done|]. intros r Hr. split; [auto|].
      apply Hn; [done|]. by apply sortPublicRoutes_elem.
    + assert (Hin : d ∈ rs) by (apply sortPublicRoutes_elem; rewrite Ers; set_solver).
      rewrite (proj2 (Z.eqb_neq _ _) (Hid d Hin)). cbn [MatchListener MatchRoute DefaultRoute]. split_and!; try done.
      by apply (sorted_first_least (fallback skip) rs d pre post).
  - assert (Hin : m ∈ rs) by (apply sortPublicRoutes_elem; rewrite Ers; set_solver).
    rewrite (proj2 (Z.eqb_neq _ _) (Hid m Hin)). cbn [MatchListener MatchRoute DefaultRoute]. split_and!; try done.
    by apply (sorted_first_least (eligible applies skip) rs m pre post).
Qed.

(** ** Lemmas: hosts, paths, redirects *)

Lemma normalizeLocalRedirectPath_safe path : isSafeLocalRedirectTarget (normalizeLocalRedirectPath path) = true.
Proof. unfold normalizeLocalRedirectPath. cbv zeta. case_if E1; [done|]. case_if E2; [done|]. case_if E3; [done|]. by case_if E4. Qed.

(** A safe path is the root, or has a second byte that is not a separator. *)
Lemma safe_inv path : isSafeLocalRedirectTarget path = true →
  path = "/" ∨ ∃ c r, path = String "/" (String c r) ∧ slashOrBackslash c = false.
Proof.
  unfold isSafeLocalRedirectTarget. destruct path as [|a [|c r]]; [done| |]; simpl;
    destruct (Ascii.eqb_spec a "/") as [->|]; try done; [by left|].
  intros H. right. exists c, r. split; [done|]. unfold slashOrBackslash. by apply negb_true_iff in H.
Qed.

Lemma trimRightBy_keep f c r : f c = false → ∃ r', trimRightBy f (String c r) = String c r'.
Proof. intros Hc. simpl. destruct (trimRightBy f r) as [|d r']; [rewrite Hc|]; eauto. Qed.

Lemma joinRedirectPath_safe basePath suffix : isSafeLocalRedirectTarget (joinRedirectPath basePath suffix) = true.
Proof.
  unfold joinRedirectPath. cbv zeta. pose proof (normalizeLocalRedirectPath_safe basePath) as Hb.
  case_if E; [done|]. case_if E2; [apply normalizeLocalRedirectPath_safe|].
  destruct (safe_inv _ Hb) as [H|(c & r & -> & Hc)]; [by rewrite H in E2|].
  assert (Hs : Ascii.eqb "/" c = false).
  { unfold slashOrBackslash in Hc. apply orb_false_iff in Hc as [Hc _]. by rewrite Ascii.eqb_sym. }
  destruct (trimRightBy_keep (Ascii.eqb "/") c r Hs) as [r' Hr].
  assert (Ht : trimRightBy (Ascii.eqb "/") (String "/" (String c r)) = String "/" (String c r')).
  { change (trimRightBy (Ascii.eqb "/") (String "/" (String c r))) with
      (match trimRightBy (Ascii.eqb "/") (String c r) with
       | EmptyString => if Ascii.eqb "/" "/" then EmptyString else String "/" EmptyString | r' => String "/" r' end).
    by rewrite Hr. }
  rewrite Ht. autorewrite with gostring. unfold isSafeLocalRedirectTarget. simpl. by unfold slashOrBackslash in Hc; rewrite Hc.
Qed.

(** The site that claims the host of the request, if one does. *)
Definition siteClaim (toASCII : string → option string) (snap : publicProxySnapshot) (listenerID : Z) (r : request)
    : option Z :=
  if hasSites snap listenerID then
    match requestAuthority toASCII r with
    | Some host => (λ p, p.2.(BindingSiteID)) <$> matchPublicSiteForListener snap listenerID host
    | None => None
    end
  else None.

Lemma chooseRoute_inv listener found m : chooseRoute listener found = inr m →
  m.(MatchListener) = listener ∧ m.(MatchRoute).(RouteID) ≠ 0 ∧
  m.(MatchRoute) = if m.(DefaultRoute) then found.2 else found.1.
Proof.
  unfold chooseRoute. destruct found as [x d]. intros H. destruct (Z.eqb_spec x.(RouteID) 0); [destruct (Z.eqb_spec d.(RouteID) 0)|];
    [done| |]; by injection H as <-.
Qed.

(** Both results of a scan are routes the scan did not skip, or have no identifier. *)
Lemma scanRoutes_kept applies skip routes d : d.(RouteID) = 0 ∨ skip d = false →
  let '(m, d') := scanRoutes applies skip routes d in
  (m.(RouteID) = 0 ∨ skip m = false) ∧ (d'.(RouteID) = 0 ∨ skip d' = false).
Proof.
  revert d. induction routes as [|r routes IH]; intros d Hd; simpl; [by split; [left|]|].
  case_if Es; [by apply IH|]. case_if Ed; [apply IH; destruct (RouteID d =? 0); auto|].
  case_if Ea; [split; [by right|done]|by apply IH].
Qed.

Lemma chosen_site listener applies siteID routes m :
  chooseRoute listener (scanRoutes applies (siteSkips siteID) routes noRoute) = inr m →
  m.(MatchListener) = listener ∧ m.(MatchRoute).(RouteSiteID) = siteID ∧ m.(MatchRoute).(RouteEnabled) = true.
Proof.
  intros H. apply chooseRoute_inv in H as (Hl & Hid & Hr). split; [done|].
  pose proof (scanRoutes_kept applies (siteSkips siteID) routes noRoute (or_introl eq_refl)) as Hk.
  destruct (scanRoutes _ _ _ _) as [x d]. simpl in Hr.
  assert (Hskip : siteSkips siteID m.(MatchRoute) = false).
  { destruct Hk as [Hx Hd]. destruct m.(DefaultRoute); rewrite Hr in *; [destruct Hd|destruct Hx]; done. }
  unfold siteSkips in Hskip. destruct (RouteEnabled (MatchRoute m)); simpl in Hskip; [|done].
  destruct (Z.eqb_spec (RouteSiteID (MatchRoute m)) siteID); done.
Qed.

(** ** The properties *)

(** C21: A site claims its hosts completely: a request for a claimed host is answered by a
    route, or a redirect, of the claiming site, which exists and is enabled, and never by
    a legacy route; a request for any other host is answered by a legacy route only. *)
Theorem route_site_isolation toASCII snap listenerID r m :
  (∀ id site, snap.(Sites) !! id = Some site → site.(SiteID) = id) →
  matchPublicRouteInSnapshot toASCII (Some snap) listenerID r = inr m →
  snap.(Listeners) !! listenerID = Some m.(MatchListener) ∧ m.(MatchRoute).(RouteEnabled) = true ∧
  match siteClaim toASCII snap listenerID r with
  | Some id => m.(MatchRoute).(RouteSiteID) = id ∧ ∃ site, snap.(Sites) !! id = Some site ∧ site.(SiteEnabled) = true
  | None => m.(MatchRoute).(RouteSiteID) = 0
  end.
Proof.
  intros Hwf. simpl. unfold siteClaim. destruct (snap.(Listeners) !! listenerID) as [l|]; [|done].
  assert (Hleg : matchLegacyRoute snap l listenerID r = inr m →
    Some l = Some m.(MatchListener) ∧ m.(MatchRoute).(RouteEnabled) = true ∧ m.(MatchRoute).(RouteSiteID) = 0).
  { intros H. apply chosen_site in H as (<- & H1 & H2). done. }
  destruct (hasSites snap listenerID); [|done]. destruct (requestAuthority toASCII r) as [host|]; [|done].
  destruct (matchPublicSiteForListener snap listenerID host) as [[hb b]|]; [|done]. simpl. unfold matchSiteRoute.
  destruct (snap.(Sites) !! b.(BindingSiteID)) as [site|] eqn:Es; [|done]. apply Hwf in Es as Hid.
  destruct site.(SiteEnabled) eqn:Een; [|done]. cbn [negb]. cbv iota. case_if E1.
  { destruct (snap.(Listeners) !! b.(RedirectListenerID)); [|done]. intros [= <-]. simpl. eauto 6. }
  case_if E2; [intros [= <-]; simpl; eauto 6|].
  intros H. apply chosen_site in H as (<- & H1 & H2). split_and!; [done|done|congruence|eauto].
Qed.

(** Among the routes the loader sorted, a request for an unclaimed host gets the
    enabled legacy route that matches its host and path and comes first by priority, then
    by identifier; the first default route only when none matches; and an error only when
    there is no default route either. *)
Theorem route_match_priority snap listener listenerID r routes :
  snap.(RoutesByListener) !! listenerID = Some (sortPublicRoutes routes) →
  (∀ x, x ∈ routes → x.(RouteID) ≠ 0) →
  let applies := legacyApplies (normalizeRequestHost r.(reqHost)) r in
  match matchLegacyRoute snap listener listenerID r with
  | inr m => m.(MatchListener) = listener ∧ m.(MatchRoute) ∈ routes ∧
      if m.(DefaultRoute) then fallback (siteSkips 0) m.(MatchRoute) ∧
        (∀ x, x ∈ routes → ¬ eligible applies (siteSkips 0) x) ∧
        ∀ x, x ∈ routes → fallback (siteSkips 0) x → routeLe m.(MatchRoute) x = true
      else eligible applies (siteSkips 0) m.(MatchRoute) ∧
        ∀ x, x ∈ routes → eligible applies (siteSkips 0) x → routeLe m.(MatchRoute) x = true
  | inl e => e = NoPublicRouteAvailable ∧
      ∀ x, x ∈ routes → ¬ eligible applies (siteSkips 0) x ∧ ¬ fallback (siteSkips 0) x
  end.
Proof. intros Hr Hid applies. unfold matchLegacyRoute. rewrite Hr. by apply chooseRoute_sorted. Qed.

(** A path prefix matches whole segments: for a prefix without a trailing slash the
    request path matches exactly when its list of segments begins with the segments of
    the prefix. *)
Theorem path_prefix_segments requestPath pathPrefix :
  TrimSpace pathPrefix = pathPrefix → pathPrefix ≠ "" → HasSuffix pathPrefix "/" = false →
  pathPrefixMatches requestPath pathPrefix = true ↔
  Split "/" pathPrefix `prefix_of` Split "/" (if String.eqb requestPath "" then "/" else requestPath).
Proof.
  intros Ht Hne Hs. unfold pathPrefixMatches. cbv zeta. rewrite Ht, Split_prefix.
  destruct (String.eqb_spec pathPrefix "") as [|_]; [done|]. destruct (String.eqb_spec pathPrefix "/") as [->|_]; [done|].
  cbn [orb]. cbv iota. set (path := if String.eqb requestPath "" then "/" else requestPath). clearbody path.
  destruct (HasPrefix path pathPrefix) eqn:Ep; cbn [negb]; cbv iota.
  - apply HasPrefix_spec in Ep as [rest ->]. rewrite length_string_app, Hs, get_app.
    destruct rest as [|c rest]; simpl.
    + rewrite Nat.add_0_r, Nat.eqb_refl. split; [|done]. intros _. left. apply string_app_empty.
    + rewrite (proj2 (Nat.eqb_neq _ _)) by lia. destruct (Ascii.eqb_spec c "/") as [->|Hc]; split; try done.
      * intros _. right. by exists rest.
      * intros [H|[rest' H]].
        -- apply (f_equal String.length) in H. rewrite length_string_app in H. simpl in H. lia.
        -- apply string_app_inj in H. congruence.
  - split; [done|]. intros H. enough (HasPrefix path pathPrefix = true) by congruence. apply HasPrefix_spec.
    destruct H as [->|[rest ->]]; [exists ""; by rewrite string_app_empty|eauto].
Qed.

(** A wildcard of a site covers exactly one label: with a host and a pattern in
    canonical form, "*.suffix" matches the hosts made of one non-empty label without dots
    followed by the suffix. *)
Theorem site_wildcard_one_label host suffix :
  TrimSuffix (ToLower (TrimSpace host)) "." = host →
  TrimSuffix (ToLower (TrimSpace ("*." ++ suffix))) "." = ("*." ++ suffix)%string →
  strictPublicSiteHostMatches host ("*." ++ suffix) = true ↔
  ∃ label, host = (label ++ "." ++ suffix)%string ∧ label ≠ "" ∧ containsByte "." label = false.
Proof.
  intros Hh Hp. unfold strictPublicSiteHostMatches. cbv zeta. rewrite Hh, Hp.
  rewrite (proj2 (HasPrefix_spec ("*." ++ suffix) "*.")) by eauto. cbn [negb]. cbv iota. rewrite TrimPrefix_app.
  destruct (HasSuffix host ("." ++ suffix)) eqn:Es; cbn [negb]; cbv iota.
  - apply HasSuffix_spec in Es as [label ->]. rewrite TrimSuffix_app. rewrite andb_true_iff, !negb_true_iff, String.eqb_neq.
    split; [eauto|]. intros (l & E & H1 & H2). apply string_app_inj_r in E as ->. done.
  - split; [done|]. intros (l & -> & _). enough (HasSuffix (l ++ "." ++ suffix) ("." ++ suffix) = true) by congruence.
    apply HasSuffix_spec. eauto.
Qed.

(** A redirect that keeps the rest of the path stays on its host: whatever the request
    path and the configured target, the new path starts with one slash that is not
    followed by another slash or a backslash. *)
Theorem redirect_suffix_local r route target :
  normalizePublicRouteRedirectTargetMode route.(RedirectTargetMode) = publicRouteRedirectTargetModeSameHostPath ∨
  normalizePublicRouteRedirectTargetMode route.(RedirectTargetMode) = publicRouteRedirectTargetModeAbsoluteURL →
  route.(RedirectPreservePathSuffix) = true →
  ∃ u, redirectLocationForRequest r route (Some target) = Some u ∧ isSafeLocalRedirectTarget u.(tPath) = true.
Proof.
  intros Hm Hp. unfold redirectLocationForRequest. cbv zeta. rewrite Hp.
  assert (E : String.eqb (normalizePublicRouteRedirectTargetMode route.(RedirectTargetMode)) publicRouteRedirectTargetModeSameHostPath
    || String.eqb (normalizePublicRouteRedirectTargetMode route.(RedirectTargetMode)) publicRouteRedirectTargetModeAbsoluteURL = true)
    by (by destruct Hm as [-> | ->]).
  rewrite E. eexists. split; [done|]. simpl. apply joinRedirectPath_safe.
Qed.

(** ** Examples *)

Definition exampleListener : publicListenerConfig := mkListener 1 "public" "" 8443 "https" true.
Definition exampleRoute (id site priority : Z) (prefix : string) : publicRouteConfig :=
  mkRoute id 1 site priority "" prefix "" false [] "forward" "same_host_path" "/new/" 308 true true "strict" 0 true.
Definition exampleRoutes : list publicRouteConfig := [exampleRoute 3 0 20 "/"; exampleRoute 2 0 10 "/api"].
Definition exampleSnapshot : publicProxySnapshot :=
  mkSnapshot ∅ {[1 := exampleListener]} {[5 := mkSite 5 true "" "shop.example.com"]}
    {[1 := [mkSiteHost 5 "*.example.com" true "serve"]]} ∅ ∅
    {[1 := sortPublicRoutes exampleRoutes]} {[5 := [exampleRoute 4 5 1 "/api"]]}.
Definition exampleRequest (host path : string) : request := mkRequest host None path "" "" false.

Lemma route_site_isolation_witness :
  ∃ site, exampleSnapshot.(Sites) !! 5 = Some site ∧ site.(SiteEnabled) = true.
Proof.
  assert (H1 : ∀ id site, exampleSnapshot.(Sites) !! id = Some site → site.(SiteID) = id).
  { intros id site H. unfold exampleSnapshot in H. cbn [Sites] in H. apply lookup_singleton_Some in H as [<- <-]. done. }
  assert (H2 : matchPublicRouteInSnapshot Some (Some exampleSnapshot) 1 (exampleRequest "shop.example.com:8443" "/api/x") =
    inr (mkMatch exampleListener (exampleRoute 4 5 1 "/api") false)) by (vm_compute; reflexivity).
  pose proof (route_site_isolation Some exampleSnapshot 1 (exampleRequest "shop.example.com:8443" "/api/x") _ H1 H2) as (_ & _ & H).
  assert (E : siteClaim Some exampleSnapshot 1 (exampleRequest "shop.example.com:8443" "/api/x") = Some 5)
    by (vm_compute; reflexivity).
  rewrite E in H. exact (proj2 H).
Defined.

Lemma route_match_priority_witness :
  matchLegacyRoute exampleSnapshot exampleListener 1 (exampleRequest "other.org" "/api/x") =
    inr (mkMatch exampleListener (exampleRoute 2 0 10 "/api") false) ∧
  ∀ x, x ∈ exampleRoutes →
    eligible (legacyApplies "other.org" (exampleRequest "other.org" "/api/x")) (siteSkips 0) x →
    routeLe (exampleRoute 2 0 10 "/api") x = true.
Proof.
  assert (H1 : exampleSnapshot.(RoutesByListener) !! 1 = Some (sortPublicRoutes exampleRoutes)) by (vm_compute; reflexivity).
  assert (H2 : ∀ x, x ∈ exampleRoutes → x.(RouteID) ≠ 0).
  { intros x Hx. unfold exampleRoutes in Hx. rewrite !elem_of_cons, elem_of_nil in Hx. by destruct Hx as [->|[->|[]]]. }
  assert (E : matchLegacyRoute exampleSnapshot exampleListener 1 (exampleRequest "other.org" "/api/x") =
    inr (mkMatch exampleListener (exampleRoute 2 0 10 "/api") false)) by (vm_compute; reflexivity).
  pose proof (route_match_priority exampleSnapshot exampleListener 1 (exampleRequest "other.org" "/api/x") _ H1 H2) as H.
  rewrite E in H. split; [exact E|]. exact (proj2 (proj2 (proj2 H))).
Defined.

Lemma path_prefix_segments_witness : pathPrefixMatches "/api/v1" "/api" = true ∧ pathPrefixMatches "/apix" "/api" = false.
Proof.
  split.
  - apply path_prefix_segments; [vm_compute; reflexivity|done|vm_compute; reflexivity|]. exists ["v1"]. vm_compute. reflexivity.
  - vm_compute. reflexivity.
Defined.

Lemma site_wildcard_one_label_witness : strictPublicSiteHostMatches "shop.example.com" "*.example.com" = true.
Proof.
  apply (site_wildcard_one_label "shop.example.com" "example.com"); [vm_compute; reflexivity|vm_compute; reflexivity|].
  exists "shop". split; [reflexivity|]. split; [done|vm_compute; reflexivity].
Defined.

Lemma redirect_suffix_local_witness :
  ∃ u, redirectLocationForRequest (exampleRequest "h" "/api//evil.com") (exampleRoute 2 0 10 "/api")
         (Some (mkTargetURL "/" "" "" false)) = Some u ∧ isSafeLocalRedirectTarget u.(tPath) = true.
Proof.
  apply (redirect_suffix_local (exampleRequest "h" "/api//evil.com") (exampleRoute 2 0 10 "/api") (mkTargetURL "/" "" "" false)).
  - left. vm_compute. reflexivity.
  - reflexivity.
Defined.
End Routing.
