(* ===== verification/LoadBalancer.v ===== *)
(** The load balancer of agents and route targets
    (internal/server/load_balancer.go).

    The source has each selection routine twice, for agents and for route
    targets; here the two candidate types are instances of the class
    [Candidate] and each pair of routines is one generic function, named for
    both.  [s.roundRobin] is a uint64 and the smooth weights are int64: their
    wrap-around is written out.  An index outside the candidate slice, where
    Go panics, is [None].  The random generator is an argument: its state and
    the two methods used, with the documented range of their results as
    hypotheses of the theorems that need it. *)

From S2P Require Import Prelude.

Module LoadBalancer.

(** ** Candidates *)

(** An agent connection: its pointer, its agent and the value of its ActiveRequests
    counter. *)
Record AgentConn := mkConn { connPtr : positive; connAgentID : Z; ActiveRequests : Z }.

Record backendAgentCandidate := mkAgentCandidate {
  Conn : AgentConn;
  AgentID : Z;
  aPosition : Z;
  aWeight : Z;
}.

(** The parts of the configuration the balancer reads. *)
Record publicRouteTargetConfig := mkTarget { tgtID : Z; AgentLoadBalancing : string }.
Record publicRouteTargetHealthConfig := mkBackend { beID : Z; beLoadBalancing : string }.
Record publicRouteConfig := mkRoute { rtID : Z; TargetLoadBalancing : string }.

Record routeTargetCandidate := mkTargetCandidate {
  Target : publicRouteTargetConfig;
  TargetID : Z;
  tPosition : Z;
  tWeight : Z;
  tActiveRequests : Z;
}.

Record publicProxySnapshot := mkSnapshot {
  RouteTargets : gmap Z publicRouteTargetConfig;
  RoutesByListener : gmap Z (list publicRouteConfig);
  RoutesBySite : gmap Z (list publicRouteConfig);
}.

Class Candidate (C : Type) := {
  cid : C → Z;
  cpos : C → Z;
  cweight : C → Z;
  cactive : C → Z;
}.

#[export] Instance agent_candidate : Candidate backendAgentCandidate := {
  cid := AgentID; cpos := aPosition; cweight := aWeight;
  cactive := λ c, c.(Conn).(ActiveRequests);
}.

#[export] Instance target_candidate : Candidate routeTargetCandidate := {
  cid := TargetID; cpos := tPosition; cweight := tWeight; cactive := tActiveRequests;
}.

Definition normalizedWeight (weight : Z) : Z :=
  if weight <? 1 then 1 else if 1000 <? weight then 1000 else weight.

(** ** Selector state *)

Record backendSelectorState := mkState {
  roundRobin : Z;
  smooth : gmap Z Z;
}.

Definition newState : backendSelectorState := mkState 0 ∅.

(** [m[k]] of a Go map of integers: absent is zero. *)
Definition get (m : gmap Z Z) (k : Z) : Z := default 0 (m !! k).

(** ** The selection routines *)

Section routines.
Context {C : Type} `{!Candidate C}.

(** The order of [sort.SliceStable]/[slices.SortStableFunc]: by position,
    then by identifier. *)
Definition less (a b : C) : bool :=
  if cpos a =? cpos b then cid a <? cid b else cpos a <? cpos b.

Fixpoint insert_stable (x : C) (l : list C) : list C :=
  match l with
  | [] => [x]
  | y :: l' => if less y x then y :: insert_stable x l' else x :: l
  end.

Definition sort_stable (l : list C) : list C := foldr insert_stable [] l.

Definition rr_pick (s : backendSelectorState) (candidates : list C)
    : option C * backendSelectorState :=
  let n := Z.of_nat (length candidates) in
  let pick := if n =? 0 then None else candidates !! Z.to_nat (s.(roundRobin) mod n) in
  (pick, mkState (u64 (s.(roundRobin) + 1)) s.(smooth)).

(** One iteration of the loop of [weightedRoundRobin]: the smooth map, the
    running total and the best candidate so far. *)
Definition wrr_step (acc : gmap Z Z * Z * option C) (candidate : C) : gmap Z Z * Z * option C :=
  let '(sm, total, best) := acc in
  let weight := normalizedWeight (cweight candidate) in
  let total := i64 (total + weight) in
  let current := i64 (get sm (cid candidate) + weight) in
  let sm := <[cid candidate := current]> sm in
  let better :=
    match best with
    | None => true
    | Some b => (get sm (cid b) <? current)
                || ((current =? get sm (cid b)) && (cpos candidate <? cpos b))
    end in
  (sm, total, if better then Some candidate else best).

Definition wrr_pick (s : backendSelectorState) (candidates : list C)
    : option C * backendSelectorState :=
  let '(sm, total, best) := fold_left wrr_step candidates (s.(smooth), 0, None) in
  let sm := filter (λ kv, kv.1 ∈ cid <$> candidates) sm in
  (* the zero candidate, when there is none, has identifier 0 *)
  let key := default 0 (cid <$> best) in
  (best, mkState s.(roundRobin) (<[key := i64 (get sm key - total)]> sm)).

Definition compare_active (a b : C) (weighted : bool) : Z :=
  let activeA := cactive a in
  let activeB := cactive b in
  if weighted then
    let left := i64 (activeA * normalizedWeight (cweight b)) in
    let right := i64 (activeB * normalizedWeight (cweight a)) in
    if left <? right then -1 else if right <? left then 1 else 0
  else
    if activeA <? activeB then -1 else if activeB <? activeA then 1 else 0.

(** The loop of [leastActive]: the best candidate and the tied ones. *)
Definition la_step (weighted : bool) (acc : C * list C) (candidate : C) : C * list C :=
  let '(best, tied) := acc in
  let cmp := compare_active candidate best weighted in
  if cmp <? 0 then (candidate, [candidate])
  else if cmp =? 0 then (best, tied ++ [candidate])
  else (best, tied).

Definition la_pick (s : backendSelectorState) (candidates : list C) (weighted : bool)
    : option C * backendSelectorState :=
  match candidates with
  | [] => (None, s)
  | c0 :: _ =>
      let '(best, tied) := fold_left (la_step weighted) candidates (c0, []) in
      match tied with
      | [] => (Some best, s)
      | _ => if weighted then wrr_pick s tied else rr_pick s tied
      end
  end.

Definition total_weight (candidates : list C) : Z :=
  fold_left (λ total c, i64 (total + normalizedWeight (cweight c))) candidates 0.

(** The loop of [weightedRandom] on the drawn number. *)
Fixpoint random_walk (candidates : list C) (pick : Z) : option C :=
  match candidates with
  | [] => None
  | c :: rest =>
      let pick := i64 (pick - normalizedWeight (cweight c)) in
      if pick <? 0 then Some c else random_walk rest pick
  end.

Context {R : Type} (Intn : R → Z → Z * R) (Int63n : R → Z → Z * R).

Definition uniform_pick (candidates : list C) (rng : R) : option C * R :=
  let '(i, rng) := Intn rng (Z.of_nat (length candidates)) in
  (candidates !! Z.to_nat i, rng).

Definition random_pick (candidates : list C) (rng : R) : option C * R :=
  let total := total_weight candidates in
  if total <=? 0 then uniform_pick candidates rng
  else
    let '(pick, rng) := Int63n rng total in
    match random_walk candidates pick with
    | Some c => (Some c, rng)
    | None => (last candidates, rng)
    end.

(** The switch on the algorithm shared by the three select methods. *)
Definition select (algorithm : string) (state : backendSelectorState) (candidates : list C)
    (rng : R) : option C * backendSelectorState * R :=
  if String.eqb algorithm "random" then
    let '(c, rng) := uniform_pick candidates rng in (c, state, rng)
  else if String.eqb algorithm "weighted_random" then
    let '(c, rng) := random_pick candidates rng in (c, state, rng)
  else if String.eqb algorithm "least_active_requests" then
    (la_pick state candidates false, rng)
  else if String.eqb algorithm "weighted_least_active_requests" then
    (la_pick state candidates true, rng)
  else if String.eqb algorithm "weighted_round_robin" then
    (wrr_pick state candidates, rng)
  else (rr_pick state candidates, rng).
End routines.

(** The routines as the source names them. *)
Definition roundRobinPick := rr_pick (C := backendAgentCandidate).
Definition roundRobinTargetPick := rr_pick (C := routeTargetCandidate).
Definition weightedRoundRobin := wrr_pick (C := backendAgentCandidate).
Definition weightedTargetRoundRobin := wrr_pick (C := routeTargetCandidate).
Definition leastActive := la_pick (C := backendAgentCandidate).
Definition leastActiveTarget := la_pick (C := routeTargetCandidate).
Definition compareActive := compare_active (C := backendAgentCandidate).
Definition compareTargetActive := compare_active (C := routeTargetCandidate).
Definition weightedRandom {R} := random_pick (C := backendAgentCandidate) (R := R).
Definition weightedRandomTarget {R} := random_pick (C := routeTargetCandidate) (R := R).

(** ** The registry *)

Record loadBalancerRegistry (R : Type) := mkRegistry {
  states : gmap Z backendSelectorState;
  targetAgentStates : gmap Z backendSelectorState;
  routeStates : gmap Z backendSelectorState;
  rng : R;
}.
Arguments mkRegistry {R}.
Arguments states {R}.
Arguments targetAgentStates {R}.
Arguments routeStates {R}.
Arguments rng {R}.

Definition newLoadBalancerRegistryWithRand {R} (r : R) : loadBalancerRegistry R :=
  mkRegistry ∅ ∅ ∅ r.

Section registry.
Context {R : Type} (Intn : R → Z → Z * R) (Int63n : R → Z → Z * R).
Implicit Types r : loadBalancerRegistry R.

(** The identifiers of the routes of [snap.RoutesByListener]. *)
Definition activeRoutes (snap : publicProxySnapshot) : gset Z :=
  list_to_set (concat (map (λ kv, map rtID kv.2) (map_to_list snap.(RoutesByListener)))).

Definition reconcile r (snap : option publicProxySnapshot) : loadBalancerRegistry R :=
  match snap with
  | None => mkRegistry ∅ ∅ ∅ r.(rng)
  | Some snap =>
      mkRegistry
        (filter (λ kv, is_Some (snap.(RouteTargets) !! kv.1)) r.(states))
        (filter (λ kv, is_Some (snap.(RouteTargets) !! kv.1)) r.(targetAgentStates))
        (filter (λ kv, kv.1 ∈ activeRoutes snap) r.(routeStates))
        r.(rng)
  end.

Definition selectTargetAgent r (target : publicRouteTargetConfig)
    (candidates : list backendAgentCandidate)
    : option AgentConn * loadBalancerRegistry R :=
  match candidates with
  | [] => (None, r)
  | _ =>
      let candidates := sort_stable candidates in
      let state := default newState (r.(targetAgentStates) !! target.(tgtID)) in
      let '(c, state, g) :=
        select Intn Int63n target.(AgentLoadBalancing) state candidates r.(rng) in
      (Conn <$> c,
       mkRegistry r.(states) (<[target.(tgtID) := state]> r.(targetAgentStates))
         r.(routeStates) g)
  end.

Definition selectAgent r (backend : publicRouteTargetHealthConfig)
    (candidates : list backendAgentCandidate)
    : option AgentConn * loadBalancerRegistry R :=
  match candidates with
  | [] => (None, r)
  | _ =>
      let candidates := sort_stable candidates in
      let state := default newState (r.(states) !! backend.(beID)) in
      let '(c, state, g) :=
        select Intn Int63n backend.(beLoadBalancing) state candidates r.(rng) in
      (Conn <$> c,
       mkRegistry (<[backend.(beID) := state]> r.(states)) r.(targetAgentStates)
         r.(routeStates) g)
  end.

(** For every type of candidates: those of the source carry the whole target. *)
Definition selectRouteTarget {C} `{!Candidate C} r (route : publicRouteConfig)
    (candidates : list C) : option C * loadBalancerRegistry R :=
  match candidates with
  | [] => (None, r)
  | _ =>
      let candidates := sort_stable candidates in
      let state := default newState (r.(routeStates) !! route.(rtID)) in
      let '(c, state, g) :=
        select Intn Int63n route.(TargetLoadBalancing) state candidates r.(rng) in
      (c, mkRegistry r.(states) r.(targetAgentStates)
            (<[route.(rtID) := state]> r.(routeStates)) g)
  end.
End registry.


(** ** Lemmas: sorting *)

Section lemmas.
Context {C : Type} `{!Candidate C}.
Implicit Types (c : C) (cs l : list C) (sm : gmap Z Z).

Lemma insert_stable_perm x l : insert_stable x l ≡ₚ x :: l.
Proof.
  induction l as [|y l IH]; [done|]. simpl. case_match; [|done].
  rewrite IH. apply Permutation_swap.
Qed.

Lemma sort_stable_perm l : sort_stable l ≡ₚ l.
Proof. induction l as [|x l IH]; [done|]. simpl. by rewrite insert_stable_perm, IH. Qed.

Lemma sort_stable_nil l : sort_stable l = [] → l = [].
Proof. intros H. apply Permutation_nil_r. by rewrite <- (sort_stable_perm l), H. Qed.

(** ** Lemmas: weights *)

Definition wt c : Z := normalizedWeight (cweight c).
Fixpoint sum_wt l : Z := match l with [] => 0 | c :: l => wt c + sum_wt l end.

Lemma wt_range c : 1 ≤ wt c ≤ 1000.
Proof. unfold wt, normalizedWeight. repeat case_match; bprop; lia. Qed.

Lemma sum_wt_app l1 l2 : sum_wt (l1 ++ l2) = sum_wt l1 + sum_wt l2.
Proof. induction l1; simpl; lia. Qed.

Lemma sum_wt_range l : Z.of_nat (length l) ≤ sum_wt l ≤ 1000 * Z.of_nat (length l).
Proof. induction l as [|c l IH]; [done|]. simpl. pose proof (wt_range c). lia. Qed.

(** The candidate lists the arithmetic is exact for. *)
Definition few l : Prop := Z.of_nat (length l) ≤ 1000000.

(** ** Lemmas: one round of the smooth weighted round robin *)

(** What the loop has computed after the candidates [l], starting from [sm]. *)
Record wrr_done sm l (acc : gmap Z Z * Z * option C) : Prop := {
  wd_in : ∀ c, c ∈ l → get acc.1.1 (cid c) = get sm (cid c) + wt c;
  wd_out : ∀ k, k ∉ cid <$> l → acc.1.1 !! k = sm !! k;
  wd_total : acc.1.2 = sum_wt l;
  wd_best : match acc.2 with
            | None => l = []
            | Some b => b ∈ l ∧ ∀ c, c ∈ l → get acc.1.1 (cid c) ≤ get acc.1.1 (cid b)
            end;
}.

Definition bounded sm l : Prop := ∀ c, c ∈ l → -1000000000000000000 ≤ get sm (cid c) ≤ 1000000000000000000.

Lemma get_insert_eq sm k v : get (<[k := v]> sm) k = v.
Proof. unfold get. by rewrite lookup_insert_eq. Qed.

Lemma get_insert_ne sm k k' v : k ≠ k' → get (<[k := v]> sm) k' = get sm k'.
Proof. intros. unfold get. by rewrite lookup_insert_ne. Qed.

Lemma get_out sm sm' k : sm' !! k = sm !! k → get sm' k = get sm k.
Proof. unfold get. by intros ->. Qed.

Lemma wrr_fold sm l :
  NoDup (cid <$> l) → few l → bounded sm l →
  wrr_done sm l (fold_left wrr_step l (sm, 0, None)).
Proof.
  induction l as [|x l IH] using rev_ind; intros Hnd Hfew Hb.
  { split; simpl; auto. by intros c ?%not_elem_of_nil. }
  rewrite fold_left_app. rewrite fmap_app in Hnd. apply NoDup_app in Hnd as (Hnd & Hx & _).
  assert (cid x ∉ cid <$> l) as Hxl by (intros Hin; apply (Hx _ Hin); simpl; left).
  unfold few in Hfew. rewrite length_app in Hfew; simpl in Hfew.
  destruct IH as [Hin Hout Htot Hbest]; [done|unfold few; lia| |].
  { intros c Hc. apply Hb. apply elem_of_app. by left. }
  destruct (fold_left wrr_step l (sm, 0, None)) as [[sm' total] best]. simpl in *.
  rewrite (get_out sm sm') by auto. rewrite Htot.
  pose proof (wt_range x) as Hw. pose proof (sum_wt_range l) as Hsw.
  pose proof (Hb x ltac:(apply elem_of_app; right; left)) as Hbx.
  fold (wt x).
  rewrite !i64_id by (unfold in_i64, min_int64, max_int64; lia).
  assert (∀ c, c ∈ l → cid c ≠ cid x) as Hne.
  { intros c Hc Heq. apply Hxl. rewrite <- Heq. by apply list_elem_of_fmap_2. }
  split; simpl.
  - intros c [Hc| ->%list_elem_of_singleton]%elem_of_app; [|by rewrite get_insert_eq].
    rewrite get_insert_ne by (apply not_eq_sym; auto). auto.
  - intros k Hk. rewrite fmap_app in Hk. rewrite lookup_insert_ne by set_solver.
    apply Hout. set_solver.
  - rewrite sum_wt_app. simpl. lia.
  - destruct best as [b|].
    + destruct Hbest as [Hbl Hmax]. rewrite get_insert_ne by (apply not_eq_sym; auto).
      destruct (_ || _) eqn:Hbetter.
      * split; [set_solver|]. intros c [Hc| ->%list_elem_of_singleton]%elem_of_app; [|done].
        rewrite get_insert_eq, get_insert_ne by (apply not_eq_sym; auto).
        specialize (Hmax c Hc). bprop. destruct Hbetter; bprop; lia.
      * split; [set_solver|].
        rewrite get_insert_ne by (apply not_eq_sym; auto).
        intros c [Hc| ->%list_elem_of_singleton]%elem_of_app.
        -- rewrite get_insert_ne by (apply not_eq_sym; auto). auto.
        -- rewrite get_insert_eq. bprop. lia.
    + simpl. split; [set_solver|]. subst l. simpl. intros c ->%list_elem_of_singleton. done.
Qed.

Fixpoint sum_get sm l : Z := match l with [] => 0 | c :: l => get sm (cid c) + sum_get sm l end.

Lemma sum_get_ext sm sm' l :
  (∀ c, c ∈ l → get sm (cid c) = get sm' (cid c)) → sum_get sm l = sum_get sm' l.
Proof.
  induction l as [|c l IH]; intros H; [done|]. simpl. rewrite (H c) by left.
  rewrite IH; [done|]. intros c' ?. apply H. by right.
Qed.

Lemma sum_get_add sm sm' l :
  (∀ c, c ∈ l → get sm' (cid c) = get sm (cid c) + wt c) →
  sum_get sm' l = sum_get sm l + sum_wt l.
Proof.
  induction l as [|c l IH]; intros H; [done|]. simpl. rewrite (H c) by left.
  rewrite IH; [lia|]. intros c' ?. apply H. by right.
Qed.

Lemma sum_get_le_max sm l m :
  (∀ c, c ∈ l → get sm (cid c) ≤ m) → sum_get sm l ≤ Z.of_nat (length l) * m.
Proof.
  induction l as [|c l IH]; intros H; [done|]. simpl. pose proof (H c ltac:(left)).
  specialize (IH ltac:(intros; apply H; by right)). lia.
Qed.

(** Subtracting [d] at one identifier of a duplicate-free list. *)
Lemma sum_get_pick sm sm' l b d :
  NoDup (cid <$> l) → b ∈ l → get sm' (cid b) = get sm (cid b) - d →
  (∀ k, k ≠ cid b → get sm' k = get sm k) → sum_get sm' l = sum_get sm l - d.
Proof.
  induction l as [|c l IH]; intros Hnd Hb Hg Ho; [by apply not_elem_of_nil in Hb|].
  rewrite fmap_cons in Hnd. apply NoDup_cons in Hnd as [Hc Hnd]. simpl.
  apply elem_of_cons in Hb as [->|Hb].
  - rewrite Hg. rewrite (sum_get_ext sm' sm l); [lia|]. intros c' Hc'. apply Ho.
    intros Heq. apply Hc. rewrite <- Heq. by apply list_elem_of_fmap_2.
  - rewrite IH by auto. rewrite Ho; [lia|]. intros Heq. apply Hc. rewrite Heq.
    by apply list_elem_of_fmap_2.
Qed.

(** The invariant between rounds with the same candidates. *)
Record wrr_inv sm cs : Prop := {
  wi_low : ∀ c, c ∈ cs → - sum_wt cs < get sm (cid c);
  wi_sum : sum_get sm cs = 0;
}.

Lemma sum_get_lower sm l w :
  (∀ c, c ∈ l → - w < get sm (cid c)) → - w * Z.of_nat (length l) ≤ sum_get sm l.
Proof.
  induction l as [|c l IH]; intros H; [simpl; lia|]. simpl. pose proof (H c ltac:(left)).
  specialize (IH ltac:(intros; apply H; by right)). lia.
Qed.

Lemma sum_get_elem sm l b w :
  0 ≤ w → b ∈ l → (∀ c, c ∈ l → - w < get sm (cid c)) →
  get sm (cid b) - w * Z.of_nat (length l) ≤ sum_get sm l + w.
Proof.
  intros Hw. induction l as [|c l IH]; intros Hb H; [by apply not_elem_of_nil in Hb|]. simpl.
  assert (∀ c, c ∈ l → - w < get sm (cid c)) as H' by (intros; apply H; by right).
  pose proof (H c ltac:(left)). pose proof (sum_get_lower sm l w H').
  apply elem_of_cons in Hb as [->|Hb]; [lia|]. specialize (IH Hb H'). lia.
Qed.

Lemma wrr_inv_bounded sm cs : few cs → wrr_inv sm cs → bounded sm cs.
Proof.
  intros Hfew [Hlow Hsum] c Hc. pose proof (sum_wt_range cs).
  pose proof (sum_get_elem sm cs c (sum_wt cs) ltac:(lia) Hc Hlow).
  specialize (Hlow c Hc). unfold few in Hfew. nia.
Qed.

(** One round: the pick, and the smooth weights after it. *)
Lemma wrr_round s cs :
  cs ≠ [] → NoDup (cid <$> cs) → few cs → wrr_inv s.(smooth) cs →
  ∃ b s', wrr_pick s cs = (Some b, s') ∧ b ∈ cs ∧ wrr_inv s'.(smooth) cs ∧
    ∀ c, c ∈ cs → get s'.(smooth) (cid c)
      = get s.(smooth) (cid c) + wt c - (if cid c =? cid b then sum_wt cs else 0).
Proof.
  intros Hne Hnd Hfew Hinv. pose proof (wrr_inv_bounded _ _ Hfew Hinv) as Hbd.
  pose proof (wrr_fold s.(smooth) cs Hnd Hfew Hbd) as [Hin Hout Htot Hbest].
  unfold wrr_pick. destruct (fold_left wrr_step cs (s.(smooth), 0, None)) as [[sm total] best].
  simpl in *. destruct best as [b|]; [|done]. destruct Hbest as [Hb Hmax]. simpl.
  set (sm1 := filter _ sm).
  assert (∀ c, c ∈ cs → get sm1 (cid c) = get sm (cid c)) as Hf.
  { intros c Hc. unfold get, sm1. destruct (sm !! cid c) as [v|] eqn:E.
    - rewrite (proj2 (map_lookup_filter_Some _ _ _ v)); [done|]. split; [done|]. simpl.
      by apply list_elem_of_fmap_2.
    - rewrite (proj2 (map_lookup_filter_None _ _ _)); auto. }
  destruct Hinv as [Hlow Hsum]. pose proof (sum_wt_range cs) as Hsw.
  assert (0 < get sm (cid b)) as Hpos.
  { pose proof (sum_get_add _ _ _ Hin) as Hs. rewrite Hsum in Hs.
    pose proof (sum_get_le_max sm cs (get sm (cid b)) Hmax) as Hle. rewrite Hs in Hle.
    destruct cs; [done|]. simpl length in *. nia. }
  pose proof (Hbd b Hb) as Hbb. pose proof (Hin b Hb) as Hib. pose proof (wt_range b).
  unfold few in Hfew.
  assert (i64 (get sm1 (cid b) - total) = get sm (cid b) - sum_wt cs) as Hi.
  { rewrite Htot, Hf by done. apply i64_id. unfold in_i64, min_int64, max_int64. nia. }
  eexists b, _. split; [done|]. split; [done|]. simpl. rewrite Hi.
  assert (∀ c, c ∈ cs → get (<[cid b := get sm (cid b) - sum_wt cs]> sm1) (cid c)
    = get s.(smooth) (cid c) + wt c - (if cid c =? cid b then sum_wt cs else 0)) as Hg.
  { intros c Hc. destruct (Z.eqb_spec (cid c) (cid b)) as [E|E].
    - rewrite E, get_insert_eq. rewrite <- E. rewrite Hin by done. lia.
    - rewrite get_insert_ne, Hf, Hin by auto. lia. }
  split; [|done]. split.
  - intros c Hc. rewrite Hg by done. specialize (Hlow c Hc). pose proof (wt_range c).
    destruct (Z.eqb_spec (cid c) (cid b)) as [E|E]; [|lia].
    pose proof (Hin c Hc) as Hic. rewrite <- E in Hpos. lia.
  - rewrite (sum_get_pick sm1 _ cs b (sum_wt cs)); [|done|done| |].
    + rewrite (sum_get_ext sm1 sm) by done. rewrite (sum_get_add _ _ _ Hin). lia.
    + rewrite get_insert_eq, Hf by done. done.
    + intros k Hk. by rewrite get_insert_ne by auto.
Qed.
End lemmas.

(** ** Lemmas: several rounds *)

Section rounds.
Context {C : Type} `{!Candidate C}.
Implicit Types (c : C) (cs l : list C).

(** [n] successive calls of a picking routine with the same candidates. *)
Fixpoint rounds (pick : backendSelectorState → list C → option C * backendSelectorState)
    (n : nat) (s : backendSelectorState) (cs : list C) : list (option C) * backendSelectorState :=
  match n with
  | O => ([], s)
  | S n => let '(p, s) := pick s cs in
           let '(ps, s) := rounds pick n s cs in (p :: ps, s)
  end.

Definition is_pick c (p : option C) : bool :=
  match p with Some b => cid c =? cid b | None => false end.

(** How many of the picks are the candidate [c]. *)
Fixpoint times c (ps : list (option C)) : Z :=
  match ps with [] => 0 | p :: ps => (if is_pick c p then 1 else 0) + times c ps end.

Lemma wrr_rounds n s cs :
  cs ≠ [] → NoDup (cid <$> cs) → few cs → wrr_inv s.(smooth) cs →
  let '(ps, s') := rounds wrr_pick n s cs in
  wrr_inv s'.(smooth) cs ∧ length ps = n ∧
  (∀ p, p ∈ ps → ∃ b, p = Some b ∧ b ∈ cs) ∧
  ∀ c, c ∈ cs → get s'.(smooth) (cid c)
    = get s.(smooth) (cid c) + Z.of_nat n * wt c - sum_wt cs * times c ps.
Proof.
  intros Hne Hnd Hfew. revert s. induction n as [|n IH]; intros s Hinv.
  { simpl. split_and!; auto; [by intros p ?%not_elem_of_nil|]. intros. lia. }
  simpl. destruct (wrr_round s cs Hne Hnd Hfew Hinv) as (b & s1 & -> & Hb & Hinv1 & Hg1).
  specialize (IH s1 Hinv1). destruct (rounds wrr_pick n s1 cs) as [ps s'].
  destruct IH as (Hinv' & Hlen & Hps & Hg). split_and!; [done|simpl; lia| |].
  - intros p [->|?]%elem_of_cons; eauto.
  - intros c Hc. rewrite Hg, Hg1 by done. simpl times. unfold is_pick.
    destruct (cid c =? cid b); lia.
Qed.

Fixpoint sum_times cs (ps : list (option C)) : Z :=
  match cs with [] => 0 | c :: cs => times c ps + sum_times cs ps end.

Lemma sum_times_nil cs : sum_times cs [] = 0.
Proof. induction cs; simpl; lia. Qed.

Lemma sum_times_cons_out cs b ps :
  cid b ∉ cid <$> cs → sum_times cs (Some b :: ps) = sum_times cs ps.
Proof.
  induction cs as [|c cs IH]; intros H; [done|]. rewrite fmap_cons, not_elem_of_cons in H.
  destruct H as [Hc H]. simpl. rewrite IH by done.
  rewrite (proj2 (Z.eqb_neq _ _)) by auto. lia.
Qed.

(** Every pick of a candidate list without duplicates is counted once. *)
Lemma sum_times_length cs ps :
  NoDup (cid <$> cs) → (∀ p, p ∈ ps → ∃ b, p = Some b ∧ b ∈ cs) →
  sum_times cs ps = Z.of_nat (length ps).
Proof.
  intros Hnd. induction ps as [|p ps IH]; intros Hps; [apply sum_times_nil|].
  destruct (Hps p ltac:(left)) as (b & -> & Hb).
  simpl length. rewrite Nat2Z.inj_succ, <- IH by (intros; apply Hps; by right). clear IH Hps.
  revert Hnd Hb. induction cs as [|c cs IH]; intros Hnd Hb; [by apply not_elem_of_nil in Hb|].
  rewrite fmap_cons in Hnd. apply NoDup_cons in Hnd as [Hc Hnd]. cbn [sum_times].
  apply elem_of_cons in Hb as [->|Hb].
  - rewrite sum_times_cons_out by done. simpl. rewrite Z.eqb_refl. lia.
  - rewrite IH by done. simpl.
    rewrite (proj2 (Z.eqb_neq _ _)); [lia|]. intros E. apply Hc. rewrite E.
    by apply list_elem_of_fmap_2.
Qed.

(** If no candidate exceeds its weight and the counts add up, each count is
    the weight. *)
Lemma times_exact cs ps :
  sum_times cs ps = sum_wt cs → (∀ c, c ∈ cs → times c ps ≤ wt c) →
  ∀ c, c ∈ cs → times c ps = wt c.
Proof.
  induction cs as [|c0 cs IH]; intros Hs Hle c Hc; [by apply not_elem_of_nil in Hc|].
  simpl in Hs. assert (∀ c, c ∈ cs → times c ps ≤ wt c) as Hle' by (intros; apply Hle; by right).
  assert (∀ l, (∀ c, c ∈ l → times c ps ≤ wt c) → sum_times l ps ≤ sum_wt l) as Hall.
  { clear. induction l as [|x l IH]; intros H; [done|]. simpl.
    pose proof (H x ltac:(left)). specialize (IH ltac:(intros; apply H; by right)). lia. }
  pose proof (Hall cs Hle'). pose proof (Hle c0 ltac:(left)).
  apply elem_of_cons in Hc as [->|Hc]; [lia|]. apply IH; [lia|done|done].
Qed.

(** ** Lemmas: plain round robin *)

Lemma rr_rounds n s cs :
  cs ≠ [] → 0 ≤ s.(roundRobin) → s.(roundRobin) + Z.of_nat n ≤ two64 →
  (rounds rr_pick n s cs).1
  = (λ i, cs !! Z.to_nat ((s.(roundRobin) + Z.of_nat i) mod Z.of_nat (length cs))) <$> seq 0 n.
Proof.
  intros Hne. revert s. induction n as [|n IH]; intros s H0 Hb; [done|].
  assert (0 < Z.of_nat (length cs)) by (destruct cs; [done|simpl; lia]).
  cbn [rounds]. unfold rr_pick at 1. rewrite (proj2 (Z.eqb_neq _ _)) by lia.
  destruct n as [|n].
  { simpl. by rewrite Z.add_0_r. }
  assert (u64 (s.(roundRobin) + 1) = s.(roundRobin) + 1) as Hu by (apply u64_id; lia).
  specialize (IH (mkState (u64 (s.(roundRobin) + 1)) s.(smooth))). simpl roundRobin in IH.
  rewrite Hu in *. specialize (IH ltac:(lia) ltac:(lia)).
  destruct (rounds rr_pick (S n) _ cs) as [ps s']. simpl fst in *. rewrite IH.
  rewrite <- (cons_seq (S n) 0), fmap_cons, Z.add_0_r. f_equal.
  rewrite <- (fmap_S_seq 0 (S n)), <- list_fmap_compose.
  apply list_fmap_ext. intros i x _. unfold compose. do 3 f_equal. lia.
Qed.

(** A run of [length cs] consecutive counters visits every index once. *)
Lemma residues_cover (n : nat) (r j : Z) :
  (0 < n)%nat → 0 ≤ j < Z.of_nat n →
  ∃ i, (i < n)%nat ∧ (r + Z.of_nat i) mod Z.of_nat n = j.
Proof.
  intros Hn Hj. exists (Z.to_nat ((j - r) mod Z.of_nat n)).
  pose proof (Z.mod_pos_bound (j - r) (Z.of_nat n) ltac:(lia)).
  split; [lia|]. rewrite Z2Nat.id by lia. rewrite Zplus_mod_idemp_r.
  replace (r + (j - r)) with j by lia. by apply Z.mod_small.
Qed.

(** ** Lemmas: least active *)

Definition calm c : Prop := 0 ≤ cactive c ≤ 9000000000000000.

Lemma wt_cweight c : normalizedWeight (cweight c) = wt c.
Proof. done. Qed.

Lemma compare_active_spec a b weighted :
  calm a → calm b →
  compare_active a b weighted =
    if weighted then
      (if cactive a * wt b <? cactive b * wt a then -1
       else if cactive b * wt a <? cactive a * wt b then 1 else 0)
    else (if cactive a <? cactive b then -1 else if cactive b <? cactive a then 1 else 0).
Proof.
  intros Ha Hb. unfold compare_active. destruct weighted; [|done].
  rewrite !wt_cweight. pose proof (wt_range a). pose proof (wt_range b). unfold calm in *.
  rewrite !i64_id by (unfold in_i64, min_int64, max_int64; nia). done.
Qed.

(** [a] is not more loaded than [b]. *)
Definition not_more weighted a b : Prop :=
  if weighted : bool then cactive a * wt b ≤ cactive b * wt a else cactive a ≤ cactive b.

Lemma not_more_trans weighted a b c :
  calm a → calm b → calm c → not_more weighted a b → not_more weighted b c → not_more weighted a c.
Proof.
  unfold not_more, calm. pose proof (wt_range a). pose proof (wt_range b). pose proof (wt_range c).
  destruct weighted; [|lia]. intros Ha Hb Hc Hab Hbc.
  enough (cactive a * wt c * wt b ≤ cactive c * wt a * wt b) by nia. nia.
Qed.

Lemma not_more_refl weighted a : not_more weighted a a.
Proof. unfold not_more. destruct weighted; lia. Qed.

Lemma la_fold weighted c0 l :
  calm c0 → Forall calm l →
  let '(best, tied) := fold_left (la_step weighted) l (c0, []) in
  calm best ∧ (best = c0 ∨ best ∈ l) ∧ not_more weighted best c0 ∧
  (∀ c, c ∈ l → not_more weighted best c) ∧
  (∀ c, c ∈ tied → c ∈ l ∧ not_more weighted c best).
Proof.
  intros H0. induction l as [|x l IH] using rev_ind; intros Hl.
  { simpl. split_and!; auto using not_more_refl; by intros c ?%not_elem_of_nil. }
  apply Forall_app in Hl as [Hl Hx]. apply Forall_inv in Hx.
  rewrite fold_left_app. destruct (fold_left (la_step weighted) l (c0, [])) as [best tied].
  specialize (IH Hl) as (Hcb & Hbest & Hb0 & Hmin & Htied). rewrite Forall_forall in Hl. simpl.
  rewrite compare_active_spec by done.
  assert (∀ c, c ∈ l ++ [x] → not_more weighted best c ∨ c = x) as Hmin'.
  { intros c [Hc|Hc]%elem_of_app; [eauto|]. right. by apply list_elem_of_singleton in Hc. }
  assert (not_more weighted x best ∨ not_more weighted best x) as Htot.
  { unfold not_more. destruct weighted; lia. }
  match goal with |- context [if ?e <? 0 then _ else _] => set (cmp := e) end.
  assert (cmp = -1 ∧ not_more weighted x best ∨ cmp = 0 ∧ not_more weighted x best
          ∧ not_more weighted best x ∨ cmp = 1 ∧ not_more weighted best x) as Hcmp.
  { unfold cmp, not_more. destruct weighted;
      repeat match goal with |- context [?a <? ?b] => destruct (Z.ltb_spec a b) end; lia. }
  destruct Hcmp as [(-> & Hxb)|[(-> & Hxb & Hbx)|(-> & Hbx)]]; simpl.
  - split_and!; auto; [right; set_solver|by eapply not_more_trans| |].
    + intros c Hc. destruct (Hmin' c Hc) as [| ->]; [|apply not_more_refl].
      eapply not_more_trans; [| | |exact Hxb|done]; auto.
      apply elem_of_app in Hc as [?|?%list_elem_of_singleton]; [auto|by subst].
    + intros c ->%list_elem_of_singleton. split; [set_solver|apply not_more_refl].
  - split_and!; auto; [set_solver| |].
    + intros c Hc. by destruct (Hmin' c Hc) as [| ->].
    + intros c [Hc|Hc]%elem_of_app; [destruct (Htied c Hc); set_solver|].
      apply list_elem_of_singleton in Hc as ->. split; [set_solver|done].
  - split_and!; auto; [set_solver| |].
    + intros c Hc. by destruct (Hmin' c Hc) as [| ->].
    + intros c Hc. destruct (Htied c Hc). split; [set_solver|done].
Qed.

Lemma rr_pick_in s cs : cs ≠ [] → 0 ≤ s.(roundRobin) → ∃ c, (rr_pick s cs).1 = Some c ∧ c ∈ cs.
Proof.
  intros Hne H0. unfold rr_pick. assert (0 < Z.of_nat (length cs)) by (destruct cs; [done|simpl; lia]).
  rewrite (proj2 (Z.eqb_neq _ _)) by lia. simpl.
  pose proof (Z.mod_pos_bound s.(roundRobin) _ H).
  destruct (lookup_lt_is_Some_2 cs (Z.to_nat (s.(roundRobin) mod Z.of_nat (length cs)))) as [c Hc];
    [lia|]. exists c. split; [done|]. by eapply list_elem_of_lookup_2.
Qed.

(** Whatever the smooth weights, the loop keeps a candidate as best. *)
Lemma wrr_fold_in cs sm tot best l :
  (match best with None => l = [] | Some b => b ∈ l end) →
  match (fold_left wrr_step cs (sm, tot, best)).2 with
  | None => l ++ cs = []
  | Some b => b ∈ l ++ cs
  end.
Proof.
  revert sm tot best l. induction cs as [|c cs IH]; intros sm tot best l Hb; simpl.
  { rewrite app_nil_r. done. }
  replace (l ++ c :: cs) with ((l ++ [c]) ++ cs) by (by rewrite <- app_assoc).
  apply IH. destruct best as [b|]; [|set_solver]. destruct (_ || _); set_solver.
Qed.

Lemma wrr_pick_in s cs : cs ≠ [] → ∃ c, (wrr_pick s cs).1 = Some c ∧ c ∈ cs.
Proof.
  intros Hne. unfold wrr_pick. pose proof (wrr_fold_in cs s.(smooth) 0 None [] eq_refl) as H.
  destruct (fold_left wrr_step cs _) as [[sm tot] best]. simpl in *.
  destruct best as [b|]; [|done]. eauto.
Qed.

Lemma la_fold_nonempty weighted cs best tied :
  tied ≠ [] → (fold_left (la_step weighted) cs (best, tied)).2 ≠ [].
Proof.
  revert best tied. induction cs as [|c cs IH]; intros best tied Hne; [done|]. simpl.
  repeat case_match; apply IH; [done|by destruct tied|done].
Qed.

Lemma compare_active_self c weighted : calm c → compare_active c c weighted = 0.
Proof.
  intros Hc. rewrite compare_active_spec by done. destruct weighted; by rewrite !Z.ltb_irrefl.
Qed.

Lemma la_fold_tied weighted c0 cs :
  calm c0 → (fold_left (la_step weighted) (c0 :: cs) (c0, [])).2 ≠ [].
Proof.
  intros H0. simpl. rewrite compare_active_self by done. by apply la_fold_nonempty.
Qed.

(** ** Lemmas: weighted random *)

Lemma total_weight_sum cs : few cs → total_weight cs = sum_wt cs.
Proof.
  unfold total_weight, few. intros Hfew.
  enough (∀ z, 0 ≤ z → z + 1000 * Z.of_nat (length cs) ≤ 2000000000 →
    fold_left (λ total c, i64 (total + normalizedWeight (cweight c))) cs z = z + sum_wt cs) as H
    by (rewrite H; lia).
  clear Hfew. induction cs as [|c cs IH]; intros z Hz Hb; simpl; [lia|].
  pose proof (wt_range c). simpl in Hb. rewrite wt_cweight, i64_id
    by (unfold in_i64, min_int64, max_int64; lia). rewrite IH by lia. lia.
Qed.

Lemma random_walk_pick cs v :
  few cs → 0 ≤ v < sum_wt cs →
  ∃ pre c post, cs = pre ++ c :: post ∧ random_walk cs v = Some c ∧
    sum_wt pre ≤ v < sum_wt pre + wt c.
Proof.
  unfold few. revert v. induction cs as [|c cs IH]; intros v Hfew Hv; simpl in *; [lia|].
  pose proof (sum_wt_range cs). pose proof (wt_range c).
  rewrite wt_cweight, i64_id by (unfold in_i64, min_int64, max_int64; lia).
  destruct (Z.ltb_spec (v - wt c) 0).
  - exists [], c, cs. split_and!; simpl; auto; lia.
  - destruct (IH (v - wt c)) as (pre & c' & post & -> & -> & ?); [lia..|].
    exists (c :: pre), c', post. split_and!; simpl; auto; lia.
Qed.
End rounds.

(** ** Theorems *)

(** Smooth weighted round robin is exactly proportional: with the same
    candidates (distinct identifiers, at most a million of them), any run of
    as many consecutive rounds as the weights sum to, from a state whose
    smooth weights are zero (such as a new one), picks each candidate exactly
    its normalized weight times, always picks one, and ends with the smooth
    weights zero again, so the next run does the same.  No int64 operation
    overflows on the way. *)
Theorem weighted_round_robin_proportional {C} `{!Candidate C} (cs : list C) s :
  cs ≠ [] → NoDup (cid <$> cs) → few cs → (∀ c, c ∈ cs → get s.(smooth) (cid c) = 0) →
  let '(ps, s') := rounds wrr_pick (Z.to_nat (sum_wt cs)) s cs in
  (∀ p, p ∈ ps → ∃ b, p = Some b ∧ b ∈ cs) ∧
  ∀ c, c ∈ cs → times c ps = wt c ∧ get s'.(smooth) (cid c) = 0.
Proof.
  intros Hne Hnd Hfew Hz. pose proof (sum_wt_range cs) as Hr.
  assert (0 < sum_wt cs) by (destruct cs; [done|simpl length in Hr; lia]).
  assert (wrr_inv s.(smooth) cs) as Hinv.
  { split; [intros; rewrite Hz by done; lia|].
    clear - Hz. induction cs as [|c cs IH]; [done|]. simpl. rewrite (Hz c), IH; [done| |left].
    intros; apply Hz; by right. }
  pose proof (wrr_rounds (Z.to_nat (sum_wt cs)) s cs Hne Hnd Hfew Hinv) as HR.
  destruct (rounds _ _ _ _) as [ps s']. destruct HR as ([Hlow _] & Hlen & Hps & Hg).
  rewrite Z2Nat.id in Hg by lia. split; [done|].
  assert (∀ c, c ∈ cs → times c ps = wt c) as Hex.
  { apply times_exact.
    - rewrite sum_times_length by done. rewrite Hlen. lia.
    - intros c Hc. specialize (Hlow c Hc). rewrite Hg, Hz in Hlow by done. nia. }
  intros c Hc. split; [auto|]. rewrite Hg, Hz, Hex by done. lia.
Qed.

Definition wrr_example : list backendAgentCandidate :=
  [mkAgentCandidate (mkConn 1 11 0) 11 0 5; mkAgentCandidate (mkConn 2 12 0) 12 1 1;
   mkAgentCandidate (mkConn 3 13 0) 13 2 1].

Lemma weighted_round_robin_proportional_witness :
  let '(ps, s') := rounds weightedRoundRobin 7 newState wrr_example in
  (λ c, times c ps) <$> wrr_example = [5; 1; 1].
Proof.
  pose proof (weighted_round_robin_proportional wrr_example newState ltac:(done)
    ltac:(apply (bool_decide_unpack _); vm_compute; reflexivity) ltac:(vm_compute; congruence)
    ltac:(done)) as H.
  change (Z.to_nat (sum_wt wrr_example)) with 7%nat in H.
  change (wrr_pick (C := backendAgentCandidate)) with weightedRoundRobin in H.
  destruct (rounds _ _ _ _) as [ps s']. destruct H as [_ H]. simpl.
  repeat f_equal; [pose proof (H (mkAgentCandidate (mkConn 1 11 0) 11 0 5)) as H1
    |pose proof (H (mkAgentCandidate (mkConn 2 12 0) 12 1 1)) as H1
    |pose proof (H (mkAgentCandidate (mkConn 3 13 0) 13 2 1)) as H1];
    apply H1; unfold wrr_example; set_solver.
Defined.

(** Plain round robin visits every candidate: until the uint64 counter
    wraps, the picks of [n] consecutive rounds walk through the candidate
    list cyclically from the counter, and any [length cs] consecutive rounds
    pick every position of the list. *)
Theorem round_robin_cycles {C} `{!Candidate C} (cs : list C) s :
  cs ≠ [] → 0 ≤ s.(roundRobin) →
  s.(roundRobin) + Z.of_nat (length cs) ≤ two64 →
  let ps := (rounds rr_pick (length cs) s cs).1 in
  length ps = length cs ∧
  (∀ i, (i < length cs)%nat →
     ps !! i = Some (cs !! Z.to_nat ((s.(roundRobin) + Z.of_nat i) mod Z.of_nat (length cs)))) ∧
  ∀ j c, cs !! j = Some c → ∃ i : nat, ps !! i = Some (Some c).
Proof.
  intros Hne H0 Hb ps. unfold ps. rewrite rr_rounds by done.
  assert (∀ i, (i < length cs)%nat → ((λ i, cs !! Z.to_nat ((s.(roundRobin) + Z.of_nat i)
    mod Z.of_nat (length cs))) <$> seq 0 (length cs)) !! i
    = Some (cs !! Z.to_nat ((s.(roundRobin) + Z.of_nat i) mod Z.of_nat (length cs)))) as Hi.
  { intros i Hi. rewrite list_lookup_fmap, lookup_seq_lt by done. done. }
  split_and!; [by rewrite length_fmap, length_seq|done|].
  intros j c Hj. pose proof (lookup_lt_Some _ _ _ Hj) as Hlt.
  destruct (residues_cover (length cs) s.(roundRobin) (Z.of_nat j)) as (i & Hil & Hmod); [lia..|].
  exists i. rewrite Hi by done. by rewrite Hmod, Nat2Z.id, Hj.
Qed.

Lemma round_robin_cycles_witness :
  length (rounds rr_pick 3 (mkState 7 ∅) wrr_example).1 = 3%nat.
Proof.
  exact (proj1 (round_robin_cycles wrr_example (mkState 7 ∅) ltac:(done) ltac:(done)
    ltac:(vm_compute; congruence))).
Defined.

(** Least-active selection picks a candidate that no other candidate
    beats: minimal active requests, or for the weighted form a minimal ratio
    of active requests to normalized weight (cross-multiplied as in the code,
    without overflow for counters up to nine quadrillion). *)
Theorem least_active_is_minimal {C} `{!Candidate C} (cs : list C) s weighted :
  cs ≠ [] → Forall calm cs → 0 ≤ s.(roundRobin) →
  ∃ c, (la_pick s cs weighted).1 = Some c ∧ c ∈ cs ∧
    ∀ c', c' ∈ cs → if weighted then cactive c * wt c' ≤ cactive c' * wt c
                    else cactive c ≤ cactive c'.
Proof.
  intros Hne Hcalm H0. unfold la_pick. destruct cs as [|c0 cs]; [done|].
  pose proof (la_fold weighted c0 (c0 :: cs) (Forall_inv Hcalm) Hcalm) as HF.
  pose proof (la_fold_tied weighted c0 cs (Forall_inv Hcalm)) as HT.
  destruct (fold_left _ _ _) as [best tied]. destruct HF as (Hcb & Hbest & _ & Hmin & Htied).
  simpl in HT. destruct tied as [|t0 tied]; [done|].
  assert (∃ c, (if weighted then wrr_pick s (t0 :: tied) else rr_pick s (t0 :: tied)).1 = Some c
               ∧ c ∈ t0 :: tied) as (c & Hc & Hin).
  { destruct weighted; [by apply wrr_pick_in|by apply rr_pick_in]. }
  exists c. split; [done|]. destruct (Htied c Hin) as [Hcs Hle]. split; [done|].
  rewrite Forall_forall in Hcalm. intros c' Hc'. fold (not_more weighted c c').
  eapply (not_more_trans weighted c best c'); auto.
Qed.

Lemma least_active_is_minimal_witness :
  let cs := [mkTargetCandidate (mkTarget 1 "") 1 0 2 5; mkTargetCandidate (mkTarget 2 "") 2 0 10 6] in
  ∃ c, (leastActiveTarget newState cs true).1 = Some c ∧ c ∈ cs ∧
    ∀ c', c' ∈ cs → cactive c * wt c' ≤ cactive c' * wt c.
Proof.
  intros cs. refine (least_active_is_minimal cs newState true _ _ _); [done| |done].
  repeat constructor; vm_compute; congruence.
Defined.

(** Weighted random selection draws a number below the sum of the weights
    and picks the candidate whose share of that range the number falls in:
    each candidate is picked by exactly its normalized weight of the possible
    draws, and the final fallback is never reached. *)
Theorem weighted_random_share {C} `{!Candidate C} {R} (Intn Int63n : R → Z → Z * R) (g : R)
    (cs : list C) :
  cs ≠ [] → few cs → (∀ n, 0 < n → 0 ≤ (Int63n g n).1 < n) →
  let v := (Int63n g (sum_wt cs)).1 in
  ∃ pre c post, cs = pre ++ c :: post ∧
    random_pick Intn Int63n cs g = (Some c, (Int63n g (sum_wt cs)).2) ∧
    sum_wt pre ≤ v < sum_wt pre + wt c.
Proof.
  intros Hne Hfew Hrng v. pose proof (sum_wt_range cs) as Hr.
  assert (0 < sum_wt cs) by (destruct cs; [done|simpl length in Hr; lia]).
  destruct (random_walk_pick cs v Hfew) as (pre & c & post & Hcs & Hw & Hv); [by apply Hrng|].
  exists pre, c, post. split; [done|]. split; [|done].
  unfold random_pick. rewrite total_weight_sum by done.
  rewrite (proj2 (Z.leb_gt _ _)) by lia.
  unfold v in Hw. destruct (Int63n g (sum_wt cs)) as [w g']. simpl in *. by rewrite Hw.
Qed.

(** A generator that returns the state modulo the bound and counts up. *)
Definition counter_rng (g n : Z) : Z * Z := (g mod n, g + 1).

Lemma weighted_random_share_witness :
  ∃ pre c post, wrr_example = pre ++ c :: post ∧
    weightedRandom counter_rng counter_rng wrr_example 5 = (Some c, 6) ∧
    sum_wt pre ≤ 5 < sum_wt pre + wt c.
Proof.
  refine (weighted_random_share counter_rng counter_rng 5 wrr_example _ _ _);
    [done|vm_compute; congruence|].
  intros n Hn. simpl. by apply Z.mod_pos_bound.
Defined.

(** ** The registry *)

(** The counter of a selector stays a uint64. *)
Definition state_ok (s : backendSelectorState) : Prop := 0 ≤ s.(roundRobin) < two64.

Lemma default_state_ok (m : gmap Z backendSelectorState) k :
  map_Forall (λ _ s, state_ok s) m → state_ok (default newState (m !! k)).
Proof.
  intros H. destruct (m !! k) as [s|] eqn:E; simpl; [by eapply H|]. split; [done|]. by vm_compute.
Qed.

Lemma random_walk_in {C} `{!Candidate C} (cs : list C) v c : random_walk cs v = Some c → c ∈ cs.
Proof.
  revert v. induction cs as [|x cs IH]; intros v H; simpl in H; [done|].
  case_match; [simplify_eq; left|right; eauto].
Qed.

Lemma la_pick_in {C} `{!Candidate C} s (cs : list C) weighted :
  cs ≠ [] → state_ok s → ∃ c, (la_pick s cs weighted).1 = Some c ∧ c ∈ cs.
Proof.
  intros Hne [Hs _]. unfold la_pick. destruct cs as [|c0 cs]; [done|].
  assert (∀ l c1, c1 ∈ c0 :: cs → let '(best, tied) := fold_left (la_step weighted) l (c1, []) in
    (∀ x, x ∈ l → x ∈ c0 :: cs) → best ∈ c0 :: cs ∧ ∀ x, x ∈ tied → x ∈ c0 :: cs) as H.
  { intros l c1 Hc1. induction l as [|x l IH] using rev_ind; simpl; [set_solver|].
    rewrite fold_left_app. destruct (fold_left _ l _) as [best tied]. simpl.
    repeat case_match; intros Hl; destruct IH as [? ?]; set_solver. }
  specialize (H (c0 :: cs) c0 ltac:(left)). destruct (fold_left _ _ _) as [best tied].
  destruct (H ltac:(done)) as [Hb Ht]. destruct tied as [|t0 tied]; [simpl; eauto|].
  destruct weighted.
  - destruct (wrr_pick_in s (t0 :: tied)) as (c & ? & ?); [done|]. eauto.
  - destruct (rr_pick_in s (t0 :: tied)) as (c & ? & ?); [done|done|]. eauto.
Qed.

Lemma select_state_ok {C} `{!Candidate C} {R} (Intn Int63n : R → Z → Z * R) algorithm s (cs : list C) g :
  state_ok s → state_ok (select Intn Int63n algorithm s cs g).1.2.
Proof.
  intros Hs. assert (∀ l : list C, state_ok (wrr_pick s l).2) as Hw.
  { intros l. unfold wrr_pick. by destruct (fold_left _ _ _) as [[? ?] ?]. }
  assert (∀ l : list C, state_ok (rr_pick s l).2) as Hr by (intros; apply u64_range).
  assert (∀ w, state_ok (la_pick s cs w).2) as Hl.
  { intros w. unfold la_pick. destruct cs; [done|].
    destruct (fold_left _ _ _) as [? [|]]; [done|]. by destruct w. }
  unfold select. repeat case_match; simplify_eq/=; auto.
Qed.

Section select_lemmas.
Context {C : Type} `{!Candidate C} {R : Type} (Intn Int63n : R → Z → Z * R).
Context (Intn_range : ∀ g n, 0 < n → 0 ≤ (Intn g n).1 < n).
Implicit Types (cs : list C) (g : R).

Lemma uniform_pick_in cs g : cs ≠ [] → ∃ c, (uniform_pick Intn cs g).1 = Some c ∧ c ∈ cs.
Proof using Intn_range.
  intros Hne. unfold uniform_pick.
  assert (0 < Z.of_nat (length cs)) as Hn by (destruct cs; [done|simpl; lia]).
  pose proof (Intn_range g _ Hn) as Hr. destruct (Intn g (Z.of_nat (length cs))) as [i g']. simpl in *.
  destruct (lookup_lt_is_Some_2 cs (Z.to_nat i)) as [c Hc]; [lia|].
  exists c. split; [done|]. by eapply list_elem_of_lookup_2.
Qed.

Lemma random_pick_in cs g : cs ≠ [] → ∃ c, (random_pick Intn Int63n cs g).1 = Some c ∧ c ∈ cs.
Proof using Intn_range.
  intros Hne. unfold random_pick. case_match; [by apply uniform_pick_in|].
  destruct (Int63n g _) as [v g']. destruct (random_walk cs v) as [c|] eqn:E; simpl.
  - exists c. split; [done|]. by eapply random_walk_in.
  - destruct cs as [|x cs] using rev_ind; [done|]. rewrite last_snoc. exists x. set_solver.
Qed.

Lemma select_in algorithm s cs g :
  cs ≠ [] → state_ok s →
  ∃ c, (select Intn Int63n algorithm s cs g).1.1 = Some c ∧ c ∈ cs.
Proof using Intn_range.
  intros Hne Hs. unfold select. repeat case_match; simplify_eq/=.
  - pose proof (uniform_pick_in cs g Hne) as Hp. by destruct (uniform_pick _ _ _); simplify_eq.
  - pose proof (random_pick_in cs g Hne) as Hp. by destruct (random_pick _ _ _ _); simplify_eq.
  - by apply la_pick_in.
  - by apply la_pick_in.
  - by apply wrr_pick_in.
  - apply rr_pick_in; [done|apply Hs].
Qed.

End select_lemmas.

Definition registry_ok {R} (r : loadBalancerRegistry R) : Prop :=
  map_Forall (λ _ s, state_ok s) r.(states) ∧
  map_Forall (λ _ s, state_ok s) r.(targetAgentStates) ∧
  map_Forall (λ _ s, state_ok s) r.(routeStates).

(** An agent is chosen among the candidates; only the state of the target changes. *)
Lemma selectTargetAgent_in {R} (Intn Int63n : R → Z → Z * R) r target cs :
  (∀ g n, 0 < n → 0 ≤ (Intn g n).1 < n) → registry_ok r → cs ≠ [] →
  (∃ c, (selectTargetAgent Intn Int63n r target cs).1 = Some c.(Conn) ∧ c ∈ cs) ∧
  registry_ok (selectTargetAgent Intn Int63n r target cs).2.
Proof.
  intros HI (Hs1 & Hs2 & Hs3) Hcs. unfold selectTargetAgent. destruct cs as [|c0 cs]; [done|].
  pose proof (default_state_ok _ target.(tgtID) Hs2) as Hst.
  assert (sort_stable (c0 :: cs) ≠ []) as Hne by (intros E%sort_stable_nil; done).
  destruct (select_in Intn Int63n HI target.(AgentLoadBalancing) _ _ r.(rng) Hne Hst) as (c & Hc & Hin).
  rewrite (sort_stable_perm (c0 :: cs)) in Hin.
  pose proof (select_state_ok Intn Int63n target.(AgentLoadBalancing) _ (sort_stable (c0 :: cs)) r.(rng) Hst) as Hst'.
  destruct (select _ _ _ _ _ _) as [[oc s'] g']. simpl in *. subst oc. split; [by exists c|].
  split_and!; simpl; auto. by apply map_Forall_insert_2.
Qed.

(** Selecting a route target never panics and never invents one: for any
    algorithm name (unknown names mean round robin), a non-empty candidate
    list yields one of its candidates and an empty one yields none; only the
    selector state of that route changes, and the registry invariant is
    preserved. *)
Theorem select_route_target_total {R C} `{!Candidate C} (Intn Int63n : R → Z → Z * R) r route (cs : list C) :
  (∀ g n, 0 < n → 0 ≤ (Intn g n).1 < n) → registry_ok r →
  let '(c, r') := selectRouteTarget Intn Int63n r route cs in
  (if bool_decide (cs = []) then c = None ∧ r' = r else ∃ x, c = Some x ∧ x ∈ cs) ∧
  registry_ok r' ∧ r'.(states) = r.(states) ∧ r'.(targetAgentStates) = r.(targetAgentStates) ∧
  ∀ k, k ≠ route.(rtID) → r'.(routeStates) !! k = r.(routeStates) !! k.
Proof.
  intros HI (Hs1 & Hs2 & Hs3). unfold selectRouteTarget. destruct cs as [|c0 cs]; [done|].
  pose proof (default_state_ok _ route.(rtID) Hs3) as Hst.
  assert (sort_stable (c0 :: cs) ≠ []) as Hne by (intros E%sort_stable_nil; done).
  destruct (select_in Intn Int63n HI route.(TargetLoadBalancing) _ _ r.(rng) Hne Hst)
    as (c & Hc & Hin).
  rewrite (sort_stable_perm (c0 :: cs)) in Hin.
  pose proof (select_state_ok Intn Int63n route.(TargetLoadBalancing) _
    (sort_stable (c0 :: cs)) r.(rng) Hst) as Hst'.
  destruct (select _ _ _ _ _ _) as [[oc s'] g']. simpl in *. subst oc.
  split_and!; auto.
  - by exists c.
  - split_and!; simpl; auto. by apply map_Forall_insert_2.
  - intros k Hk. by rewrite lookup_insert_ne.
Qed.

Lemma select_route_target_total_witness :
  let cs := [mkTargetCandidate (mkTarget 1 "") 1 0 2 5; mkTargetCandidate (mkTarget 2 "") 2 0 10 6] in
  let '(c, r') := selectRouteTarget counter_rng counter_rng
    (newLoadBalancerRegistryWithRand 9) (mkRoute 4 "weighted_random") cs in
  (∃ x, c = Some x ∧ x ∈ cs) ∧ registry_ok r'.
Proof.
  intros cs.
  pose proof (select_route_target_total counter_rng counter_rng
    (newLoadBalancerRegistryWithRand 9) (mkRoute 4 "weighted_random") cs
    ltac:(intros g n Hn; by apply Z.mod_pos_bound)
    ltac:(split_and!; apply map_Forall_empty)) as H.
  destruct (selectRouteTarget _ _ _ _ _) as [c r']. destruct H as (H1 & H2 & _).
  rewrite bool_decide_eq_false_2 in H1 by done. split; [exact H1|exact H2].
Defined.

(** Reconciling with a snapshot forgets exactly the selector states whose
    target, or whose route, the snapshot no longer has, and keeps the others
    unchanged; without a snapshot it forgets all of them. *)
Theorem reconcile_keeps_live {R} (r : loadBalancerRegistry R) snap k s :
  ((reconcile r (Some snap)).(states) !! k = Some s ↔
     r.(states) !! k = Some s ∧ is_Some (snap.(RouteTargets) !! k)) ∧
  ((reconcile r (Some snap)).(targetAgentStates) !! k = Some s ↔
     r.(targetAgentStates) !! k = Some s ∧ is_Some (snap.(RouteTargets) !! k)) ∧
  ((reconcile r (Some snap)).(routeStates) !! k = Some s ↔
     r.(routeStates) !! k = Some s ∧
     ∃ l routes route, snap.(RoutesByListener) !! l = Some routes ∧ route ∈ routes ∧
       route.(rtID) = k) ∧
  reconcile r None = newLoadBalancerRegistryWithRand r.(rng).
Proof.
  simpl. rewrite !map_lookup_filter_Some. simpl. split_and!; try done.
  assert (k ∈ activeRoutes snap ↔ ∃ l routes route, snap.(RoutesByListener) !! l = Some routes
    ∧ route ∈ routes ∧ route.(rtID) = k) as ->; [|done].
  unfold activeRoutes. rewrite elem_of_list_to_set, list_elem_of_In, in_concat. split.
  - intros (ids & Hids & Hk). apply in_map_iff in Hids as ([l routes] & <- & Hl).
    apply in_map_iff in Hk as (route & Hid & Hin). rewrite <- list_elem_of_In, elem_of_map_to_list in Hl.
    exists l, routes, route. by rewrite list_elem_of_In.
  - intros (l & routes & route & Hl & Hin & Hid). exists (map rtID routes). split.
    + apply in_map_iff. exists (l, routes). split; [done|].
      by rewrite <- list_elem_of_In, elem_of_map_to_list.
    + apply in_map_iff. exists route. by rewrite <- list_elem_of_In.
Qed.

(** A route that belongs to a site is kept in RoutesBySite and not in
    RoutesByListener, so every reconciliation, for whatever configuration
    change, forgets its selector state although the route is still served:
    its round-robin position and smooth weights start over. *)
Theorem reconcile_forgets_site_routes {R} (r : loadBalancerRegistry R) snap site routes route :
  snap.(RoutesBySite) !! site = Some routes → route ∈ routes →
  (∀ l rs rt, snap.(RoutesByListener) !! l = Some rs → rt ∈ rs → rt.(rtID) ≠ route.(rtID)) →
  (reconcile r (Some snap)).(routeStates) !! route.(rtID) = None.
Proof.
  intros _ _ Hno. simpl. apply map_lookup_filter_None. right. intros s _. simpl.
  unfold activeRoutes. rewrite elem_of_list_to_set, list_elem_of_In, in_concat.
  intros (ids & Hids & Hk). apply in_map_iff in Hids as ([l rs] & <- & Hl).
  apply in_map_iff in Hk as (rt & Hid & Hin). rewrite <- list_elem_of_In, elem_of_map_to_list in Hl.
  eapply Hno; [exact Hl| |exact Hid]. by rewrite list_elem_of_In.
Qed.

Lemma reconcile_forgets_site_routes_witness :
  let route := mkRoute 7 "round_robin" in
  let snap := mkSnapshot ∅ ∅ {[ 3 := [route] ]} in
  let r := mkRegistry ∅ ∅ {[ 7 := mkState 5 ∅ ]} tt in
  r.(routeStates) !! 7 = Some (mkState 5 ∅) ∧
  (reconcile r (Some snap)).(routeStates) !! 7 = None.
Proof.
  intros route snap r. split; [reflexivity|].
  refine (reconcile_forgets_site_routes r snap 3 [route] route _ _ _); [reflexivity|left|].
  intros l rs rt H. simpl in H. rewrite lookup_empty in H. discriminate.
Defined.
End LoadBalancer.
