(* ===== verification/TargetSelection.v ===== *)
(** Which target and which agent serve a request (internal/server/public_routing.go): the
    targets of a route that can serve, the lowest priority group among them, the load
    balancer's choice, and for a target behind agents the agent that carries the request.
    This composes the agent hub, the target health, the load balancer and the routes.

    The iteration over the agents of a snapshot is an argument, in any order.  One instant
    [now] stands for the clock during a selection.  The hub and the health monitor exist
    from the start of the server; the load balancers may be absent. *)

From S2P Require Import Prelude.
From S2P Require Import GoStrings.
From S2P Require Import ClientIdentity.
From S2P Require Import WafCookies.
From S2P Require Import AgentHub.
From S2P Require Import TargetHealth.
From S2P Require Import Routing.
From S2P Require Import LoadBalancer.

Module TargetSelection.
Import Routing.

Definition agentResourcePressureRoutingCooldown : Z := second.
Definition freshStatsWindow : Z := 15 * second.

(** ** State *)

(** The latest statistics an agent reported. *)
Record agentStat := mkStat { MemoryPressure : string; Timestamp : Z }.

(** The parts of the server a selection reads; [connectedAt] and [connActive] are fields
    of the connections, by their identity. *)
Record App (R : Type) := mkApp {
  hub : AgentHub.agentHub;
  health : TargetHealth.publicRouteTargetHealthMonitor;
  LoadBalancers : option (LoadBalancer.loadBalancerRegistry R);
  agentResourcePressureUntil : gmap Z Z;
  agentUpdateCordoned : gset Z;
  latestAgentStats : gmap Z agentStat;
  connectedAt : Z → Z;
  connActive : Z → Z }.
Arguments mkApp {R}.
Arguments hub {R}.
Arguments health {R}.
Arguments LoadBalancers {R}.
Arguments agentResourcePressureUntil {R}.
Arguments agentUpdateCordoned {R}.
Arguments latestAgentStats {R}.
Arguments connectedAt {R}.
Arguments connActive {R}.

(** A target with its number of active requests, as the balancer compares them. *)
Record routeTargetCandidate := mkCandidate { Target : publicRouteTargetConfig; ActiveRequests : Z }.

#[export] Instance route_candidate : LoadBalancer.Candidate routeTargetCandidate := {
  LoadBalancer.cid := λ c, c.(Target).(TargetID);
  LoadBalancer.cpos := λ c, c.(Target).(Position);
  LoadBalancer.cweight := λ c, c.(Target).(Weight);
  LoadBalancer.cactive := ActiveRequests }.

Definition balancedTarget (t : publicRouteTargetConfig) : LoadBalancer.publicRouteTargetConfig :=
  LoadBalancer.mkTarget t.(TargetID) t.(AgentLoadBalancing).
Definition balancedRoute (r : publicRouteConfig) : LoadBalancer.publicRouteConfig :=
  LoadBalancer.mkRoute r.(RouteID) r.(TargetLoadBalancing).

(** ** Agents *)

Definition agentSelectorMatchesLabels (selector : publicAgentSelectorConfig) (labels : option (gmap string string)) : bool :=
  if bool_decide (selector.(MatchLabels) = ∅) then false
  else match labels with
       | None => false
       | Some labels => forallb (λ kv, bool_decide (labels !! kv.1 = Some kv.2)) (map_to_list selector.(MatchLabels))
       end.

Section selection.
Context {R : Type} (Intn Int63n : R → Z → Z * R).
Context (iterate : gmap Z publicAgentConfig → list (Z * publicAgentConfig)).
Implicit Types a : App R.

Definition setPressure a (p : gmap Z Z) : App R :=
  mkApp a.(hub) a.(health) a.(LoadBalancers) p a.(agentUpdateCordoned) a.(latestAgentStats) a.(connectedAt) a.(connActive).
Definition setBalancers a (lbs : option (LoadBalancer.loadBalancerRegistry R)) : App R :=
  mkApp a.(hub) a.(health) lbs a.(agentResourcePressureUntil) a.(agentUpdateCordoned) a.(latestAgentStats)
    a.(connectedAt) a.(connActive).
Definition setHealth a (m : TargetHealth.publicRouteTargetHealthMonitor) : App R :=
  mkApp a.(hub) m a.(LoadBalancers) a.(agentResourcePressureUntil) a.(agentUpdateCordoned) a.(latestAgentStats)
    a.(connectedAt) a.(connActive).

Definition isAgentUpdateCordoned a (agentID : Z) : bool :=
  if agentID <=? 0 then false else bool_decide (agentID ∈ a.(agentUpdateCordoned)).

Definition agentHasFreshCriticalMemoryPressure a (agentID now : Z) : bool :=
  match a.(latestAgentStats) !! agentID with
  | None => false
  | Some stat =>
      if negb (String.eqb stat.(MemoryPressure) "critical") || (stat.(Timestamp) =? 0) then false
      else
        let superseded := match AgentHub.connectedByID a.(hub) agentID with
          | Some conn => negb (a.(connectedAt) conn.(AgentHub.connID) =? 0)
                         && (stat.(Timestamp) <? a.(connectedAt) conn.(AgentHub.connID))
          | None => false end in
        if superseded then false
        else (0 <=? time_sub now stat.(Timestamp)) && (time_sub now stat.(Timestamp) <=? freshStatsWindow)
  end.

Definition markAgentRoutingResourcePressure a (agentID now : Z) : App R :=
  if agentID <=? 0 then a
  else setPressure a (<[agentID := now + agentResourcePressureRoutingCooldown]> a.(agentResourcePressureUntil)).

(** An expired entry is deleted on the way; nothing replaces it in between. *)
Definition routingResourcePressureActive (pressure : gmap Z Z) (agentID now : Z) : bool * gmap Z Z :=
  match pressure !! agentID with
  | None => (false, pressure)
  | Some until => if now <? until then (true, pressure) else (false, delete agentID pressure)
  end.

Definition agentHasRoutingResourcePressure a (pressure : gmap Z Z) (agentID now : Z) : bool * gmap Z Z :=
  if agentID <=? 0 then (false, pressure)
  else if agentHasFreshCriticalMemoryPressure a agentID now then (true, pressure)
  else routingResourcePressureActive pressure agentID now.

(** The connection of an agent that may carry requests of the target. *)
Definition usableAgent a (target : publicRouteTargetConfig) (now agentID : Z) (config : publicAgentConfig)
    : option AgentHub.AgentConn :=
  if negb config.(AgentConfigEnabled) || negb (agentSelectorMatchesLabels target.(AgentSelector) config.(Labels)) then None
  else if isAgentUpdateCordoned a agentID then None
  else match AgentHub.connectedByID a.(hub) agentID with
  | None => None
  | Some conn =>
      if negb (TargetHealth.agentAvailable (isAgentUpdateCordoned a) a.(health) target.(TargetID) agentID now) then None
      else Some conn
  end.

Definition balancedConn a (conn : AgentHub.AgentConn) : LoadBalancer.AgentConn :=
  LoadBalancer.mkConn (Z.to_pos conn.(AgentHub.connID)) conn.(AgentHub.AgentID) (a.(connActive) conn.(AgentHub.connID)).
Definition agentCandidate a (agentID : Z) (conn : AgentHub.AgentConn) : LoadBalancer.backendAgentCandidate :=
  LoadBalancer.mkAgentCandidate (balancedConn a conn) agentID agentID 100.

(** The loop over the agents: candidates without and with resource pressure. *)
Fixpoint scanAgents a (target : publicRouteTargetConfig) (now : Z) (agents : list (Z * publicAgentConfig))
    (pressure : gmap Z Z) : list LoadBalancer.backendAgentCandidate * list LoadBalancer.backendAgentCandidate * gmap Z Z :=
  match agents with
  | [] => ([], [], pressure)
  | (agentID, config) :: agents =>
      match usableAgent a target now agentID config with
      | None => scanAgents a target now agents pressure
      | Some conn =>
          let '(pressured, pressure) := agentHasRoutingResourcePressure a pressure agentID now in
          let '(cs, ps, pressure) := scanAgents a target now agents pressure in
          if pressured then (cs, agentCandidate a agentID conn :: ps, pressure)
          else (agentCandidate a agentID conn :: cs, ps, pressure)
      end
  end.

Definition eligibleTargetAgentCandidatesFromSnapshot a (snap : publicProxySnapshot) (target : publicRouteTargetConfig)
    (now : Z) : list LoadBalancer.backendAgentCandidate * App R :=
  let '(cs, ps, pressure) := scanAgents a target now (iterate snap.(Agents)) a.(agentResourcePressureUntil) in
  (match cs with [] => ps | _ => cs end, setPressure a pressure).

(** The balancer's choice, or the first candidate without one. *)
Definition balanceAgents a (target : publicRouteTargetConfig) (candidates : list LoadBalancer.backendAgentCandidate)
    : option LoadBalancer.AgentConn * App R :=
  match candidates with
  | [] => (None, a)
  | c :: _ =>
      match a.(LoadBalancers) with
      | None => (Some c.(LoadBalancer.Conn), a)
      | Some lbs =>
          let '(conn, lbs) := LoadBalancer.selectTargetAgent Intn Int63n lbs (balancedTarget target) candidates in
          (conn, setBalancers a (Some lbs))
      end
  end.

Definition selectTargetAgentExcludingFromSnapshot a (snap : publicProxySnapshot) (target : publicRouteTargetConfig)
    (excluded : gset Z) (now : Z) : option LoadBalancer.AgentConn * App R :=
  let '(candidates, a) := eligibleTargetAgentCandidatesFromSnapshot a snap target now in
  balanceAgents a target (List.filter (λ c, negb (bool_decide (c.(LoadBalancer.AgentID) ∈ excluded))) candidates).

Definition selectTargetAgentFromSnapshot a (snap : publicProxySnapshot) (target : publicRouteTargetConfig) (now : Z)
    : option LoadBalancer.AgentConn * App R :=
  selectTargetAgentExcludingFromSnapshot a snap target ∅ now.

(** [now'] is the second reading of the clock. *)
Fixpoint filterUnpressured a (excluded : gset Z) (now' : Z) (candidates : list LoadBalancer.backendAgentCandidate)
    (pressure : gmap Z Z) : list LoadBalancer.backendAgentCandidate * gmap Z Z :=
  match candidates with
  | [] => ([], pressure)
  | c :: cs =>
      if bool_decide (c.(LoadBalancer.AgentID) ∈ excluded) then filterUnpressured a excluded now' cs pressure
      else
        let '(pressured, pressure) := agentHasRoutingResourcePressure a pressure c.(LoadBalancer.AgentID) now' in
        let '(cs, pressure) := filterUnpressured a excluded now' cs pressure in
        (if pressured then cs else c :: cs, pressure)
  end.

Definition selectUnpressuredTargetAgentExcludingFromSnapshot a (snap : publicProxySnapshot)
    (target : publicRouteTargetConfig) (excluded : gset Z) (now now' : Z) : option LoadBalancer.AgentConn * App R :=
  let '(candidates, a) := eligibleTargetAgentCandidatesFromSnapshot a snap target now in
  let '(filtered, pressure) := filterUnpressured a excluded now' candidates a.(agentResourcePressureUntil) in
  balanceAgents (setPressure a pressure) target filtered.

(** ** Targets *)

Definition assignmentLe (x y : TargetHealth.publicRouteTargetAgentAssignment) : bool :=
  x.(TargetHealth.AssignedAgent) <=? y.(TargetHealth.AssignedAgent).

Definition publicRouteTargetHealthConfigFromRouteTarget (target : publicRouteTargetConfig)
    (agents : gmap Z publicAgentConfig) : TargetHealth.publicRouteTargetHealthConfig :=
  let viaAgent := String.eqb target.(Transport) TargetHealth.publicRouteTargetTransportAgent in
  let matching := List.filter (λ kv, kv.2.(AgentConfigEnabled) && agentSelectorMatchesLabels target.(AgentSelector) kv.2.(Labels))
                    (iterate agents) in
  let assignments := if viaAgent
    then ClientIdentity.sortBy assignmentLe (map (λ kv, TargetHealth.mkAssignment kv.1 true) matching) else [] in
  TargetHealth.mkHealthConfig target.(TargetID) TargetHealth.publicRouteTargetTypeProxy
    (if viaAgent then TargetHealth.publicRouteTargetTransportAgent else TargetHealth.publicRouteTargetTransportDirect)
    target.(TargetEnabled) target.(ParsedURL) assignments
    (TargetHealth.mkCheckConfig target.(CheckEnabled) target.(CheckPath) target.(CheckHealthyThreshold)
       target.(CheckUnhealthyThreshold))
    target.(CheckSettings).

Definition targetHasEligibleAgent a (snap : publicProxySnapshot) (target : publicRouteTargetConfig) (now : Z) : bool :=
  existsb (λ kv, bool_decide (is_Some (usableAgent a target now kv.1 kv.2))) (iterate snap.(Agents)).

Definition targetEligibleForRoute a (snap : publicProxySnapshot) (target : publicRouteTargetConfig) (now : Z) : bool :=
  if negb target.(TargetEnabled) then false
  else if String.eqb target.(TargetType) TargetHealth.publicRouteTargetTypeStatic then true
  else if negb (String.eqb target.(TargetType) TargetHealth.publicRouteTargetTypeProxy)
          || bool_decide (target.(ParsedURL) = None) then false
  else if negb (TargetHealth.available a.(hub) (isAgentUpdateCordoned a) a.(health)
                  (publicRouteTargetHealthConfigFromRouteTarget target snap.(Agents)) now) then false
  else if String.eqb target.(Transport) TargetHealth.publicRouteTargetTransportAgent
       then targetHasEligibleAgent a snap target now
  else true.

(** The lowest priority group among eligible targets. *)
Definition lowestPriorityGroup a (snap : publicProxySnapshot) (now : Z) (targets : list publicRouteTargetConfig) : option Z :=
  fold_left (λ acc t,
    if negb (targetEligibleForRoute a snap t now) then acc
    else match acc with
         | None => Some t.(PriorityGroup)
         | Some lowest => if t.(PriorityGroup) <? lowest then Some t.(PriorityGroup) else acc
         end) targets None.

Definition routeCandidates a (snap : publicProxySnapshot) (now lowest : Z) (targets : list publicRouteTargetConfig)
    : list routeTargetCandidate :=
  map (λ t, mkCandidate t (TargetHealth.activeRequests a.(health) t.(TargetID)))
    (List.filter (λ t, (t.(PriorityGroup) =? lowest) && targetEligibleForRoute a snap t now) targets).

(** The agent of the selected target, when it needs one. *)
Definition finishTarget a (snap : publicProxySnapshot) (t : publicRouteTargetConfig) (now : Z)
    : option (publicRouteTargetConfig * option LoadBalancer.AgentConn) * App R :=
  if negb (String.eqb t.(Transport) TargetHealth.publicRouteTargetTransportAgent) then (Some (t, None), a)
  else match selectTargetAgentFromSnapshot a snap t now with
       | (Some agent, a) => (Some (t, Some agent), a)
       | (None, a) => (None, a)
       end.

Definition selectRouteTarget a (snap : publicProxySnapshot) (route : publicRouteConfig) (now : Z)
    : option (publicRouteTargetConfig * option LoadBalancer.AgentConn) * App R :=
  match lowestPriorityGroup a snap now route.(Targets) with
  | None => (None, a)
  | Some lowest =>
      match routeCandidates a snap now lowest route.(Targets) with
      | [] => (None, a)
      | (c :: _) as candidates =>
          match a.(LoadBalancers) with
          | None => finishTarget a snap c.(Target) now
          | Some lbs =>
              match LoadBalancer.selectRouteTarget Intn Int63n lbs (balancedRoute route) candidates with
              | (Some selected, lbs) => finishTarget (setBalancers a (Some lbs)) snap selected.(Target) now
              | (None, lbs) => (None, setBalancers a (Some lbs))
              end
          end
      end
  end.

(** ** Resolution *)

(** What a resolved request carries of the route: the action, the target and the agent. *)
Record publicRouteResolution := mkResolution {
  ResolvedListener : WafCookies.publicListenerConfig;
  ResolvedRoute : publicRouteConfig;
  ResolvedAction : string;
  ResolvedDefault : bool;
  ResolvedTarget : option publicRouteTargetConfig;
  ResolvedAgent : option LoadBalancer.AgentConn;
  ResolvedRouteTargetID : option Z;
  ResolvedAgentID : option Z }.

Definition resolvePublicRouteFromMatch a (snap : publicProxySnapshot) (m : routeError + publicRouteMatch) (now : Z)
    : (routeError + publicRouteResolution) * App R :=
  match m with
  | inl e => (inl e, a)
  | inr m =>
      if String.eqb (normalizePublicRouteAction m.(MatchRoute).(Action)) publicRouteActionRedirect then
        (inr (mkResolution m.(MatchListener) m.(MatchRoute) publicRouteActionRedirect m.(DefaultRoute) None None None None), a)
      else match selectRouteTarget a snap m.(MatchRoute) now with
      | (None, a) => (inl NoRouteTargetAvailable, a)
      | (Some (t, agent), a) =>
          (inr (mkResolution m.(MatchListener) m.(MatchRoute) publicRouteActionForward m.(DefaultRoute) (Some t) agent
             (if t.(TargetID) =? 0 then None else Some t.(TargetID)) (LoadBalancer.connAgentID <$> agent)), a)
      end
  end.

Definition resolvePublicRoute (toASCII : string → option string) a (snap : option publicProxySnapshot) (listenerID : Z)
    (r : request) (now : Z) : (routeError + publicRouteResolution) * App R :=
  match snap with
  | None => (inl ConfigNotLoaded, a)
  | Some s => resolvePublicRouteFromMatch a s (matchPublicRouteInSnapshot toASCII snap listenerID r) now
  end.

(** ** Requests and failures *)

Definition beginPublicRouteTargetRequest a (targetID : Z) : App R * option Z :=
  let '(m, object) := TargetHealth.beginRequest a.(health) targetID in (setHealth a m, object).
Definition markPublicRouteTargetPassiveFailure a (targetID : Z) (err : option string) (now : Z) : App R :=
  setHealth a (TargetHealth.markPassiveFailure a.(health) targetID err now).
Definition markPublicRouteTargetAgentPassiveFailure a (targetID agentID : Z) (err : option string) (now : Z) : App R :=
  setHealth a (TargetHealth.markAgentPassiveFailure a.(health) targetID agentID err now).
End selection.

(** An error of a request to an agent: the kind of the dial error it wraps, and whether
    it is a cancellation. *)
Record agentError := mkAgentError { dialKind : option string; isCanceled : bool }.

(** [ctx]: is the context of the request cancelled; [None] without a context. *)
Definition requestContextCanceled (ctx : option bool) (err : agentError) : bool :=
  match ctx with
  | None => false
  | Some cancelled => cancelled || (err.(isCanceled) && cancelled)
  end.

Definition agentDialErrorIsLocalCapacity (kind : string) : bool :=
  String.eqb kind "server_capacity" || String.eqb kind "server_pooled_capacity" || String.eqb kind "server_health_capacity".
Definition agentDialErrorIsAdmissionPressure (kind : string) : bool :=
  String.eqb kind "agent_capacity" || String.eqb kind "agent_resource_pressure" || agentDialErrorIsLocalCapacity kind.

Definition shouldMarkAgentPassiveFailure (ctx : option bool) (err : option agentError) : bool :=
  match err with
  | None => false
  | Some e =>
      match e.(dialKind) with
      | Some k =>
          if String.eqb k "agent_capacity" || String.eqb k "agent_resource_pressure" || agentDialErrorIsLocalCapacity k
             || String.eqb k "dial_forbidden" then false
          else negb (requestContextCanceled ctx e)
      | None => negb (requestContextCanceled ctx e)
      end
  end.
(** ** Lemmas: pressure *)

Section lemmas.
Context {R : Type} (Intn Int63n : R → Z → Z * R).
Context (iterate : gmap Z publicAgentConfig → list (Z * publicAgentConfig)).
Implicit Types a : App R.

Definition pressuredAt a (pressure : gmap Z Z) (now agentID : Z) : bool :=
  (agentHasRoutingResourcePressure a pressure agentID now).1.

(** Deleting an expired entry changes no answer. *)
Lemma pressure_stable a pressure now id id' :
  pressuredAt a (agentHasRoutingResourcePressure a pressure id now).2 now id' = pressuredAt a pressure now id'.
Proof.
  unfold pressuredAt, agentHasRoutingResourcePressure. destruct (id <=? 0); [done|].
  destruct (agentHasFreshCriticalMemoryPressure a id now); [done|]. destruct (id' <=? 0); [done|].
  destruct (agentHasFreshCriticalMemoryPressure a id' now); [done|]. unfold routingResourcePressureActive.
  destruct (pressure !! id) as [u|] eqn:E; [|done]. destruct (now <? u) eqn:Eu; [done|]. simpl.
  destruct (decide (id = id')) as [<-|Hne].
  - by rewrite lookup_delete_eq, E, Eu.
  - rewrite lookup_delete_ne by done. destruct (pressure !! id') as [u'|]; [|done]. by destruct (now <? u').
Qed.

(** The candidate is of a usable agent of the list, of this kind. *)
Definition listed a target now (f : Z → bool) (kind : bool) (agents : list (Z * publicAgentConfig))
    (c : LoadBalancer.backendAgentCandidate) : Prop :=
  ∃ id config conn, (id, config) ∈ agents ∧ usableAgent a target now id config = Some conn ∧ f id = kind ∧
    c = agentCandidate a id conn.

Lemma listed_some a target now f kind id config agents conn c : usableAgent a target now id config = Some conn →
  listed a target now f kind ((id, config) :: agents) c ↔
  (f id = kind ∧ c = agentCandidate a id conn) ∨ listed a target now f kind agents c.
Proof.
  intros Hu. unfold listed. setoid_rewrite elem_of_cons. split.
  - intros (i & g & n & [[= -> ->]|H1] & H2 & H3 & H4); [left; split; congruence|right; by exists i, g, n].
  - intros [[H1 H2]|(i & g & n & H1 & H2 & H3 & H4)]; [exists id, config, conn; auto|exists i, g, n; auto].
Qed.

Lemma listed_none a target now f kind id config agents c : usableAgent a target now id config = None →
  listed a target now f kind ((id, config) :: agents) c ↔ listed a target now f kind agents c.
Proof.
  intros Hu. unfold listed. setoid_rewrite elem_of_cons. split.
  - intros (i & g & n & [[= -> ->]|H1] & H2 & H3 & H4); [congruence|by exists i, g, n].
  - intros (i & g & n & H1 & H2 & H3 & H4). exists i, g, n. auto.
Qed.

Lemma scanAgents_spec a target now f agents : ∀ pressure, (∀ id, pressuredAt a pressure now id = f id) →
  let '(cs, ps, _) := scanAgents a target now agents pressure in
  ∀ c, (c ∈ cs ↔ listed a target now f false agents c) ∧ (c ∈ ps ↔ listed a target now f true agents c).
Proof.
  induction agents as [|[id config] agents IH]; intros p Hp; simpl.
  { intros c. unfold listed. setoid_rewrite elem_of_nil. naive_solver. }
  destruct (usableAgent a target now id config) as [conn|] eqn:Eu.
  - assert (Hid : (agentHasRoutingResourcePressure a p id now).1 = f id) by apply Hp.
    assert (Hp' : ∀ x, pressuredAt a (agentHasRoutingResourcePressure a p id now).2 now x = f x)
      by (intros x; by rewrite pressure_stable).
    destruct (agentHasRoutingResourcePressure a p id now) as [pressured p']. simpl in Hid, Hp'.
    specialize (IH p' Hp'). destruct (scanAgents a target now agents p') as [[cs ps] p2].
    subst pressured. destruct (f id) eqn:Ef; intros c; destruct (IH c) as [IH1 IH2]; clear IH;
      rewrite !(listed_some _ _ _ _ _ _ _ _ _ _ Eu), ?elem_of_cons, IH1, IH2, Ef; intuition congruence.
  - specialize (IH p Hp). destruct (scanAgents a target now agents p) as [[cs ps] p2].
    intros c. destruct (IH c) as [-> ->]. by rewrite !(listed_none _ _ _ _ _ _ _ _ _ Eu).
Qed.

Lemma lowestPriorityGroup_spec a snap now targets :
  match lowestPriorityGroup iterate a snap now targets with
  | Some g => (∃ t, t ∈ targets ∧ targetEligibleForRoute iterate a snap t now = true ∧ t.(PriorityGroup) = g) ∧
      ∀ t, t ∈ targets → targetEligibleForRoute iterate a snap t now = true → g ≤ t.(PriorityGroup)
  | None => ∀ t, t ∈ targets → targetEligibleForRoute iterate a snap t now = false
  end.
Proof.
  unfold lowestPriorityGroup. induction targets as [|t targets IH] using rev_ind; [simpl; set_solver|].
  rewrite fold_left_app. simpl. destruct (targetEligibleForRoute iterate a snap t now) eqn:E; simpl.
  - destruct (fold_left _ targets None) as [g|].
    + destruct IH as [(x & Hx & Ex & Eg) Hmin]. case_if El.
      * split; [exists t; set_solver|]. intros y [Hy| ->%list_elem_of_singleton]%elem_of_app Ey; [|done].
        specialize (Hmin y Hy Ey). lia.
      * split; [exists x; set_solver|]. intros y [Hy| ->%list_elem_of_singleton]%elem_of_app Ey; [auto|lia].
    + split; [exists t; set_solver|]. intros y [Hy| ->%list_elem_of_singleton]%elem_of_app Ey; [|done].
      specialize (IH y Hy). congruence.
  - destruct (fold_left _ targets None) as [g|].
    + destruct IH as [(x & Hx & Ex & Eg) Hmin]. split; [exists x; set_solver|].
      intros y [Hy| ->%list_elem_of_singleton]%elem_of_app Ey; [auto|congruence].
    + intros y [Hy| ->%list_elem_of_singleton]%elem_of_app; auto.
Qed.

Lemma routeCandidates_elem a snap now lowest targets c : c ∈ routeCandidates iterate a snap now lowest targets →
  c.(Target) ∈ targets ∧ c.(Target).(PriorityGroup) = lowest ∧ targetEligibleForRoute iterate a snap c.(Target) now = true.
Proof.
  unfold routeCandidates. rewrite list_elem_of_In, in_map_iff. intros (t & <- & Ht). apply filter_In in Ht as [Ht Hf].
  simpl. rewrite list_elem_of_In. apply andb_true_iff in Hf as [Hg He]. split_and!; [done|lia|done].
Qed.

(** The labels of an agent satisfy the selector, which is not empty. *)
Definition selects (selector : publicAgentSelectorConfig) (labels : option (gmap string string)) : Prop :=
  selector.(MatchLabels) ≠ ∅ ∧ ∃ l, labels = Some l ∧ selector.(MatchLabels) ⊆ l.

(** The agents a request may use, and whether one of them is free of pressure. *)
Definition usable a (snap : publicProxySnapshot) (target : publicRouteTargetConfig) (now id : Z)
    (conn : AgentHub.AgentConn) : Prop :=
  ∃ config, snap.(Agents) !! id = Some config ∧ config.(AgentConfigEnabled) = true ∧
    selects target.(AgentSelector) config.(Labels) ∧ (0 < id → id ∉ a.(agentUpdateCordoned)) ∧
    AgentHub.connectedByID a.(hub) id = Some conn ∧
    TargetHealth.agentAvailable (isAgentUpdateCordoned a) a.(health) target.(TargetID) id now = true.

Lemma agentSelectorMatchesLabels_iff selector labels : agentSelectorMatchesLabels selector labels = true ↔ selects selector labels.
Proof.
  unfold agentSelectorMatchesLabels, selects. case_bool_decide as E; [naive_solver|]. destruct labels as [l|]; [|naive_solver].
  rewrite forallb_forall. setoid_rewrite <- list_elem_of_In. split.
  - intros H. split; [done|]. exists l. split; [done|]. apply map_subseteq_spec. intros k v Hk.
    apply elem_of_map_to_list, H, bool_decide_eq_true in Hk. done.
  - intros (_ & l' & [= <-] & H) [k v] Hk. apply elem_of_map_to_list in Hk. apply bool_decide_eq_true. simpl.
    by eapply lookup_weaken.
Qed.

Lemma usableAgent_iff a target now id config conn : usableAgent a target now id config = Some conn ↔
  config.(AgentConfigEnabled) = true ∧ selects target.(AgentSelector) config.(Labels) ∧
  (0 < id → id ∉ a.(agentUpdateCordoned)) ∧ AgentHub.connectedByID a.(hub) id = Some conn ∧
  TargetHealth.agentAvailable (isAgentUpdateCordoned a) a.(health) target.(TargetID) id now = true.
Proof.
  rewrite <- agentSelectorMatchesLabels_iff. unfold usableAgent.
  assert (Hc : isAgentUpdateCordoned a id = false ↔ (0 < id → id ∉ a.(agentUpdateCordoned))).
  { unfold isAgentUpdateCordoned. destruct (Z.leb_spec id 0); [split; [lia|done]|].
    rewrite bool_decide_eq_false. split; [auto|]. intros H'. by apply H'. }
  rewrite <- Hc. clear Hc. destruct config.(AgentConfigEnabled); simpl; [|naive_solver].
  destruct (agentSelectorMatchesLabels target.(AgentSelector) config.(Labels)); simpl; [|naive_solver].
  destruct (isAgentUpdateCordoned a id) eqn:Ec; [naive_solver|].
  destruct (AgentHub.connectedByID a.(hub) id) as [c|]; [|naive_solver].
  destruct (TargetHealth.agentAvailable _ _ _ _ _); simpl; naive_solver.
Qed.

Lemma usable_iff a snap target now id conn : usable a snap target now id conn ↔
  ∃ config, snap.(Agents) !! id = Some config ∧ usableAgent a target now id config = Some conn.
Proof. unfold usable. by setoid_rewrite usableAgent_iff. Qed.

(** [rand.Rand] stays in its documented range, and a map iterates over its entries. *)
Context (Intn_range : ∀ g n, 0 < n → 0 ≤ (Intn g n).1 < n).
Context (iterate_all : ∀ agents, iterate agents ≡ₚ map_to_list agents).

Definition preferred a (snap : publicProxySnapshot) (target : publicRouteTargetConfig) (now id : Z) : Prop :=
  pressuredAt a a.(agentResourcePressureUntil) now id = true →
  ∀ id' conn, usable a snap target now id' conn → pressuredAt a a.(agentResourcePressureUntil) now id' = true.

Lemma iterate_lookup (agents : gmap Z publicAgentConfig) id config : (id, config) ∈ iterate agents ↔ agents !! id = Some config.
Proof using iterate_all. by rewrite iterate_all, elem_of_map_to_list. Qed.

Lemma listed_usable a snap target now f kind c : listed a target now f kind (iterate snap.(Agents)) c ↔
  ∃ id conn, usable a snap target now id conn ∧ f id = kind ∧ c = agentCandidate a id conn.
Proof using iterate_all. 
  setoid_rewrite usable_iff. unfold listed. setoid_rewrite iterate_lookup. split.
  - intros (id & config & conn & H1 & H2 & H3 & H4). exists id, conn. eauto.
  - intros (id & conn & (config & H1 & H2) & H3 & H4). exists id, config, conn. auto.
Qed.

(** The candidates are usable agents, the ones without pressure if there are any; and
    there are candidates as soon as an agent is usable. *)
Lemma eligible_spec a snap target now :
  let cs := (eligibleTargetAgentCandidatesFromSnapshot iterate a snap target now).1 in
  (∀ c, c ∈ cs → ∃ id conn, c = agentCandidate a id conn ∧ usable a snap target now id conn ∧ preferred a snap target now id) ∧
  (cs = [] → ∀ id conn, ¬ usable a snap target now id conn).
Proof using iterate_all.
  unfold eligibleTargetAgentCandidatesFromSnapshot.
  pose proof (scanAgents_spec a target now (pressuredAt a a.(agentResourcePressureUntil) now) (iterate snap.(Agents))
    a.(agentResourcePressureUntil) (λ id, eq_refl)) as H.
  destruct (scanAgents a target now (iterate snap.(Agents)) a.(agentResourcePressureUntil)) as [[cs ps] p].
  setoid_rewrite listed_usable in H. cbn [fst]. cbv zeta.
  assert (Hps : ∀ id conn, cs = [] → usable a snap target now id conn → agentCandidate a id conn ∈ ps ∧
    pressuredAt a a.(agentResourcePressureUntil) now id = true).
  { intros id conn -> Hu. destruct (H (agentCandidate a id conn)) as [H1 H2]. rewrite elem_of_nil in H1.
    destruct (pressuredAt a a.(agentResourcePressureUntil) now id) eqn:E; [|exfalso; apply H1; by exists id, conn].
    split; [|done]. apply H2. eauto. }
  destruct cs as [|c0 cs].
  - split.
    + intros c Hc. apply H in Hc as (id & conn & Hu & Hf & ->). exists id, conn. split_and!; [done|done|].
      intros _ id' conn' Hu'. by apply (Hps id' conn').
    + intros -> id conn Hu. destruct (Hps id conn eq_refl Hu) as [Hin _]. by apply elem_of_nil in Hin.
  - split; [|done]. intros c Hc. apply H in Hc as (id & conn & Hu & Hf & ->). exists id, conn. split_and!; [done|done|].
    intros Hp. congruence.
Qed.

Definition balancers_ok a : Prop := match a.(LoadBalancers) with Some lbs => LoadBalancer.registry_ok lbs | None => True end.

Lemma balanceAgents_in a target cs : balancers_ok a → cs ≠ [] →
  ∃ c, (balanceAgents Intn Int63n a target cs).1 = Some c.(LoadBalancer.Conn) ∧ c ∈ cs.
Proof using Intn_range.
  intros Hok Hne. unfold balanceAgents, balancers_ok in *. destruct cs as [|c0 cs]; [done|].
  destruct a.(LoadBalancers) as [lbs|].
  - destruct (LoadBalancer.selectTargetAgent_in Intn Int63n lbs (balancedTarget target) (c0 :: cs) Intn_range Hok Hne) as [H _].
    by destruct (LoadBalancer.selectTargetAgent _ _ _ _ _).
  - exists c0. split; [done|by left].
Qed.

(** A target behind agents gets a usable agent if there is one, and none otherwise. *)
Lemma selectTargetAgent_spec a snap target now : balancers_ok a →
  match (selectTargetAgentFromSnapshot Intn Int63n iterate a snap target now).1 with
  | Some agent => ∃ id conn, agent = balancedConn a conn ∧ usable a snap target now id conn ∧ preferred a snap target now id
  | None => ∀ id conn, ¬ usable a snap target now id conn
  end.
Proof using Intn_range iterate_all.
  intros Hok. unfold selectTargetAgentFromSnapshot, selectTargetAgentExcludingFromSnapshot.
  destruct (eligible_spec a snap target now) as [Hin Hnone].
  destruct (eligibleTargetAgentCandidatesFromSnapshot iterate a snap target now) as [cs a'] eqn:E. simpl in Hin, Hnone.
  assert (Ha' : balancers_ok a').
  { unfold eligibleTargetAgentCandidatesFromSnapshot in E. destruct (scanAgents _ _ _ _ _) as [[x y] p]. by injection E as _ <-. }
  replace (List.filter _ cs) with cs.
  2:{ clear. induction cs as [|c cs IH]; simpl; [done|]. by rewrite <- IH. }
  destruct (decide (cs = [])) as [->|Hne]; [simpl; by apply Hnone|].
  destruct (balanceAgents_in a' target cs Ha' Hne) as (c & Hc & Hcs). rewrite Hc.
  destruct (Hin c Hcs) as (id & conn & -> & Hu & Hp). by exists id, conn.
Qed.

Lemma targetHasEligibleAgent_spec a snap target now : targetHasEligibleAgent iterate a snap target now = true ↔
  ∃ id conn, usable a snap target now id conn.
Proof using iterate_all.
  setoid_rewrite usable_iff. unfold targetHasEligibleAgent. rewrite existsb_exists. setoid_rewrite <- list_elem_of_In.
  split.
  - intros ([id config] & Hin & [conn H]%bool_decide_eq_true). apply iterate_lookup in Hin. eauto.
  - intros (id & conn & config & Hin & H). exists (id, config). rewrite iterate_lookup. split; [done|].
    apply bool_decide_eq_true. eauto.
Qed.

(** Some candidate is chosen, and its agent is looked for; the choice only changes the
    balancers. *)
Lemma selectRouteTarget_cases a snap route now : balancers_ok a →
  (selectRouteTarget Intn Int63n iterate a snap route now = (None, a) ∧
     ∀ t, t ∈ route.(Targets) → targetEligibleForRoute iterate a snap t now = false) ∨
  ∃ t lbs, selectRouteTarget Intn Int63n iterate a snap route now = finishTarget Intn Int63n iterate (setBalancers a lbs) snap t now ∧
    balancers_ok (setBalancers a lbs) ∧ t ∈ route.(Targets) ∧ targetEligibleForRoute iterate a snap t now = true ∧
    ∀ t', t' ∈ route.(Targets) → targetEligibleForRoute iterate a snap t' now = true → t.(PriorityGroup) ≤ t'.(PriorityGroup).
Proof using Intn_range.
  intros Hok. unfold selectRouteTarget. pose proof (lowestPriorityGroup_spec a snap now route.(Targets)) as Hg.
  destruct (lowestPriorityGroup iterate a snap now route.(Targets)) as [g|]; [|by left].
  destruct Hg as [(t & Ht & Et & Eg) Hmin].
  pose proof (routeCandidates_elem a snap now g route.(Targets)) as Hel.
  assert (Hne : routeCandidates iterate a snap now g route.(Targets) ≠ []).
  { intros E. unfold routeCandidates in E. apply map_eq_nil in E.
    assert (Hin : In t (List.filter (λ t, (PriorityGroup t =? g) && targetEligibleForRoute iterate a snap t now) route.(Targets))).
    { apply filter_In. split; [by apply list_elem_of_In|]. rewrite Et, Eg, Z.eqb_refl. done. }
    by rewrite E in Hin. }
  destruct (routeCandidates iterate a snap now g route.(Targets)) as [|c0 cs]; [done|]. right.
  unfold balancers_ok in Hok. destruct a.(LoadBalancers) as [lbs|] eqn:El.
  - pose proof (LoadBalancer.select_route_target_total Intn Int63n lbs (balancedRoute route) (c0 :: cs) Intn_range Hok) as H.
    destruct (LoadBalancer.selectRouteTarget _ _ _ _ _) as [c lbs']. rewrite bool_decide_eq_false_2 in H by done.
    destruct H as [(x & -> & Hx) [Hok' _]]. destruct (Hel x Hx) as (H1 & H2 & H3).
    exists x.(Target), (Some lbs'). split_and!; [done|done|done|done|]. intros t' Ht' Et'. rewrite H2. auto.
  - destruct (Hel c0) as (H1 & H2 & H3); [by left|]. exists c0.(Target), None.
    assert (Ea : setBalancers a None = a) by (unfold setBalancers; rewrite <- El; by destruct a).
    rewrite Ea. split_and!; [done|unfold balancers_ok; by rewrite El|done|done|]. intros t' Ht' Et'. rewrite H2. auto.
Qed.

Lemma finishTarget_cases a snap t now : balancers_ok a →
  match (finishTarget Intn Int63n iterate a snap t now).1 with
  | Some (t', agent) => t' = t ∧
      if String.eqb t.(Transport) TargetHealth.publicRouteTargetTransportAgent
      then ∃ id conn, agent = Some (balancedConn a conn) ∧ usable a snap t now id conn ∧ preferred a snap t now id
      else agent = None
  | None => t.(Transport) = TargetHealth.publicRouteTargetTransportAgent ∧ ∀ id conn, ¬ usable a snap t now id conn
  end.
Proof using Intn_range iterate_all.
  intros Hok. unfold finishTarget. destruct (String.eqb_spec t.(Transport) TargetHealth.publicRouteTargetTransportAgent) as [E|E];
    [|done]. cbn [negb]. cbv iota. pose proof (selectTargetAgent_spec a snap t now Hok) as H.
  destruct (selectTargetAgentFromSnapshot _ _ _ _ _ _ _) as [[agent|] a']; simpl in *; [|done].
  split; [done|]. destruct H as (id & conn & -> & H). by exists id, conn.
Qed.

(** An eligible target that is not a static one has an agent if it needs one. *)
Lemma eligible_agent a snap t now : targetEligibleForRoute iterate a snap t now = true →
  t.(TargetType) ≠ TargetHealth.publicRouteTargetTypeStatic → t.(Transport) = TargetHealth.publicRouteTargetTransportAgent →
  ∃ id conn, usable a snap t now id conn.
Proof using iterate_all.
  unfold targetEligibleForRoute. intros H Hs Ht. apply String.eqb_neq in Hs. rewrite Hs, Ht, String.eqb_refl in H.
  case_hyp H; [done|]. case_hyp H; [done|]. case_hyp H; [done|]. by apply targetHasEligibleAgent_spec.
Qed.
End lemmas.

(** ** The properties *)

(** C22: What a selection returns can serve the request: the target is one of the route,
    eligible, and in the lowest priority group with an eligible target; a target behind
    agents comes with the connection of an agent that is enabled, matches the selector, is
    connected, not cordoned for an update and not marked unhealthy for the target, and
    that is under resource pressure only when every such agent is. *)
Theorem select_target_sound {R} (Intn Int63n : R → Z → Z * R) iterate (a : App R) snap route now t agent a' :
  (∀ g n, 0 < n → 0 ≤ (Intn g n).1 < n) → (∀ agents, iterate agents ≡ₚ map_to_list agents) → balancers_ok a →
  selectRouteTarget Intn Int63n iterate a snap route now = (Some (t, agent), a') →
  t ∈ route.(Targets) ∧ targetEligibleForRoute iterate a snap t now = true ∧
  (∀ t', t' ∈ route.(Targets) → targetEligibleForRoute iterate a snap t' now = true → t.(PriorityGroup) ≤ t'.(PriorityGroup)) ∧
  if String.eqb t.(Transport) TargetHealth.publicRouteTargetTransportAgent
  then ∃ id conn, agent = Some (balancedConn a conn) ∧ usable a snap t now id conn ∧ preferred a snap t now id
  else agent = None.
Proof.
  intros HI Hit Hok H.
  destruct (selectRouteTarget_cases Intn Int63n iterate HI a snap route now Hok) as [[E _]|(x & lbs & E & Hok' & Hx & Ex & Hmin)];
    rewrite E in H; [done|].
  pose proof (finishTarget_cases Intn Int63n iterate HI Hit (setBalancers a lbs) snap x now Hok') as Hf. rewrite H in Hf. cbn [fst] in Hf.
  destruct Hf as [-> Hf]. split_and!; [done|done|done|exact Hf].
Qed.

(** A selection fails exactly when no target of the route is eligible: as long as one
    is, in whatever priority group, the request gets a target, with an agent if it needs
    one.  Static targets are assumed not to name the agent transport. *)
Theorem select_target_complete {R} (Intn Int63n : R → Z → Z * R) iterate (a : App R) snap route now :
  (∀ g n, 0 < n → 0 ≤ (Intn g n).1 < n) → (∀ agents, iterate agents ≡ₚ map_to_list agents) → balancers_ok a →
  (∀ t, t ∈ route.(Targets) → t.(TargetType) = TargetHealth.publicRouteTargetTypeStatic →
    t.(Transport) ≠ TargetHealth.publicRouteTargetTransportAgent) →
  (selectRouteTarget Intn Int63n iterate a snap route now).1 = None ↔
  ∀ t, t ∈ route.(Targets) → targetEligibleForRoute iterate a snap t now = false.
Proof.
  intros HI Hit Hok Hstatic.
  destruct (selectRouteTarget_cases Intn Int63n iterate HI a snap route now Hok) as [[E Hnone]|(x & lbs & E & Hok' & Hx & Ex & _)];
    rewrite E; [done|]. split; [|intros Hall; specialize (Hall x Hx); congruence].
  intros Hf. exfalso. pose proof (finishTarget_cases Intn Int63n iterate HI Hit (setBalancers a lbs) snap x now Hok') as H.
  rewrite Hf in H. destruct H as [Ht Hnone].
  destruct (eligible_agent iterate Hit a snap x now Ex) as (id & conn & Hu); [|done|by apply (Hnone id conn)].
  intros Es. by apply (Hstatic x Hx).
Qed.

(** ** Examples *)

Definition exampleTarget (id group : Z) (transport : string) : publicRouteTargetConfig :=
  mkTarget id 0 group 100 true "proxy" transport (mkSelector {["zone" := "eu"]}) "round_robin" (Some "http://origin")
    false "" 0 0 "".
Definition exampleTargets : list publicRouteTargetConfig :=
  [exampleTarget 1 0 "agent"; exampleTarget 2 5 "direct"].
Definition exampleRoute : publicRouteConfig :=
  mkRoute 9 1 0 0 "" "" "round_robin" false exampleTargets "forward" "" "" 0 false false "" 0 true.
Definition exampleSnapshot : publicProxySnapshot :=
  mkSnapshot {[4 := mkAgent true (Some {["zone" := "eu"]})]} ∅ ∅ ∅ ∅ ∅ ∅ ∅.
Definition exampleConn : AgentHub.AgentConn := AgentHub.mkConn 1 4 "agent-4".
Definition exampleApp : App Z :=
  mkApp (default AgentHub.newAgentHub (AgentHub.connect AgentHub.newAgentHub exampleConn))
    TargetHealth.newPublicRouteTargetHealthMonitor (Some (LoadBalancer.newLoadBalancerRegistryWithRand 9)) ∅ ∅ ∅
    (λ _, 0) (λ _, 0).

Definition exampleSelected : option (publicRouteTargetConfig * option LoadBalancer.AgentConn) * App Z :=
  selectRouteTarget LoadBalancer.counter_rng LoadBalancer.counter_rng map_to_list exampleApp exampleSnapshot exampleRoute 7.

Lemma select_target_sound_witness :
  ∃ id conn, usable exampleApp exampleSnapshot (exampleTarget 1 0 "agent") 7 id conn.
Proof.
  assert (H1 : ∀ g n, 0 < n → 0 ≤ (LoadBalancer.counter_rng g n).1 < n) by (intros g n Hn; by apply Z.mod_pos_bound).
  assert (H2 : ∀ agents : gmap Z publicAgentConfig, map_to_list agents ≡ₚ map_to_list agents) by done.
  assert (H3 : balancers_ok exampleApp) by (split_and!; apply map_Forall_empty).
  assert (H4 : selectRouteTarget LoadBalancer.counter_rng LoadBalancer.counter_rng map_to_list exampleApp exampleSnapshot
    exampleRoute 7 = (Some (exampleTarget 1 0 "agent", Some (LoadBalancer.mkConn 1 4 0)), exampleSelected.2))
    by (vm_compute; reflexivity).
  destruct (select_target_sound LoadBalancer.counter_rng LoadBalancer.counter_rng map_to_list exampleApp exampleSnapshot
    exampleRoute 7 _ _ _ H1 H2 H3 H4) as (_ & _ & _ & id & conn & _ & H & _).
  exists id, conn. exact H.
Defined.

Lemma select_target_complete_witness :
  (selectRouteTarget LoadBalancer.counter_rng LoadBalancer.counter_rng map_to_list
     (mkApp AgentHub.newAgentHub TargetHealth.newPublicRouteTargetHealthMonitor None ∅ ∅ ∅ (λ _, 0) (λ _, 0))
     exampleSnapshot (mkRoute 9 1 0 0 "" "" "" false [exampleTarget 1 0 "agent"] "" "" "" 0 false false "" 0 true) 7).1 = None.
Proof.
  apply select_target_complete.
  - intros g n Hn. by apply Z.mod_pos_bound.
  - done.
  - exact I.
  - intros t Ht Es. apply list_elem_of_singleton in Ht as ->. discriminate Es.
  - intros t Ht. apply list_elem_of_singleton in Ht as ->. vm_compute. reflexivity.
Defined.
End TargetSelection.
