(* ===== verification/Forwarding.v ===== *)
(** The headers that tell an upstream who the client is
    (internal/server/public_routing.go): what a client sent under those names is removed,
    and the server sets them from the identity it resolved itself. *)

From S2P Require Import Prelude.
From S2P Require Import GoStrings.
From S2P Require Import NetIP.
From S2P Require Import ClientIdentity.
From S2P Require Import WafCookies.

Module Forwarding.
Import ClientIdentity.
Import WafCookies(publicListenerConfig, Protocol, Port, mkListener, normalizeRequestHost).

Notation header := (gmap string (list string)).

(** Canonical, so that deleting them needs no canonicalisation. *)
Definition publicForwardedIdentityHeaderNames : list string :=
  ["Cf-Connecting-Ip"; "Cf-Connecting-Ipv6"; "Cloudfront-Viewer-Address"; "Fastly-Client-Ip"; "Fly-Client-Ip"; "Forwarded";
   "True-Client-Ip"; "X-Appengine-User-Ip"; "X-Azure-Clientip"; "X-Client-Ip"; "X-Cluster-Client-Ip";
   "X-Envoy-External-Address"; "X-Forwarded-Client-Ip"; "X-Forwarded-For"; "X-Forwarded-Host"; "X-Forwarded-Proto";
   "X-Forwarded-Port"; "X-Original-Forwarded-For"; "X-Real-Ip"].

Definition Del (h : header) (name : string) : header := delete (CanonicalMIMEHeaderKey name) h.

Definition remoteAddrIP (remoteAddr : string) : string :=
  match SplitHostPort remoteAddr with Some (host, _) => host | None => TrimSpace remoteAddr end.

Definition forwardedProtoForPublicListener (listener : publicListenerConfig) : string :=
  if String.eqb listener.(Protocol) "https" then "https" else "http".
Definition forwardedPortForProto (proto : string) : string := if String.eqb proto "https" then "443" else "80".
Definition forwardedPortForPublicListener (listener : publicListenerConfig) (proto : string) : string :=
  if 0 <? listener.(Port) then FormatInt listener.(Port) else forwardedPortForProto proto.

(** The address told to the upstream; empty when the identity is attached and unknown. *)
Definition forwardedClientIP (inReq : httpRequest) : string :=
  match ClientIdentityFromContext inReq with
  | Some _ => match ClientIdentityResolved inReq with Some addr => NetIP.addrString addr | None => "" end
  | None => remoteAddrIP inReq.(RemoteAddr)
  end.

Definition applyTrustedForwardedHeaders (outHeader : header) (inReq : option httpRequest) (listener : publicListenerConfig)
    : header :=
  let h := fold_left (λ h name, delete name h) publicForwardedIdentityHeaderNames outHeader in
  match inReq with
  | None => h
  | Some inReq =>
      let h := fold_left Del (ClientIdentityHeaderNames inReq) h in
      let clientIP := forwardedClientIP inReq in
      let h := if negb (String.eqb clientIP "")
               then Set_ (Set_ h "X-Forwarded-For" clientIP) "X-Real-IP" clientIP else h in
      let host := normalizeRequestHost inReq.(Host) in
      let h := if negb (String.eqb host "") then Set_ h "X-Forwarded-Host" host else h in
      let proto := forwardedProtoForPublicListener listener in
      let h := Set_ h "X-Forwarded-Proto" proto in
      Set_ h "X-Forwarded-Port" (forwardedPortForPublicListener listener proto)
  end.

(** ** What the upstream sees *)

(** What the server says under a name; it does not depend on what the client sent there. *)
Definition trustedValue (inReq : httpRequest) (listener : publicListenerConfig) (name : string) : option (list string) :=
  let proto := forwardedProtoForPublicListener listener in
  let nonempty (v : string) := if String.eqb v "" then None else Some [v] in
  if String.eqb name "X-Forwarded-For" || String.eqb name "X-Real-Ip" then nonempty (forwardedClientIP inReq)
  else if String.eqb name "X-Forwarded-Host" then nonempty (normalizeRequestHost inReq.(Host))
  else if String.eqb name "X-Forwarded-Proto" then Some [proto]
  else if String.eqb name "X-Forwarded-Port" then Some [forwardedPortForPublicListener listener proto]
  else None.

Definition isIdentityHeader (inReq : httpRequest) (name : string) : bool :=
  bool_decide (name ∈ publicForwardedIdentityHeaderNames)
  || bool_decide (name ∈ map CanonicalMIMEHeaderKey (ClientIdentityHeaderNames inReq)).

Lemma fold_delete_lookup (names : list string) (h : header) name :
  fold_left (λ h n, delete n h) names h !! name = if bool_decide (name ∈ names) then None else h !! name.
Proof.
  revert h. induction names as [|n names IH]; intros h; simpl; [done|]. rewrite IH.
  destruct (decide (name = n)) as [->|Hne].
  - rewrite lookup_delete_eq, (bool_decide_eq_true_2 (n ∈ n :: names)) by (by left). by destruct (bool_decide _).
  - rewrite lookup_delete_ne by done. case_bool_decide as H1; case_bool_decide as H2; try done; set_solver.
Qed.

Lemma fold_Del names (h : header) : fold_left Del names h = fold_left (λ h n, delete n h) (map CanonicalMIMEHeaderKey names) h.
Proof. revert h. induction names as [|n names IH]; intros h; simpl; [done|]. apply IH. Qed.

Lemma lookup_Set (h : header) n v name : Set_ h n v !! name =
  if String.eqb (CanonicalMIMEHeaderKey n) name then Some [v] else h !! name.
Proof.
  unfold Set_. destruct (String.eqb_spec (CanonicalMIMEHeaderKey n) name) as [->|Hne]; [apply lookup_insert_eq|by apply lookup_insert_ne].
Qed.

(** A conditional assignment, and the two under one condition. *)
Lemma lookup_when (b : bool) (h : header) n v key : (if b then Set_ h n v else h) !! key =
  if b && String.eqb (CanonicalMIMEHeaderKey n) key then Some [v] else h !! key.
Proof. destruct b; [apply lookup_Set|done]. Qed.
Lemma Set_when (b : bool) (h : header) n v n' v' : (if b then Set_ (Set_ h n v) n' v' else h) =
  if b then Set_ (if b then Set_ h n v else h) n' v' else if b then Set_ h n v else h.
Proof. by destruct b. Qed.

(** The names the server sets. *)
Definition serverNames : list string :=
  ["X-Forwarded-For"; "X-Real-Ip"; "X-Forwarded-Host"; "X-Forwarded-Proto"; "X-Forwarded-Port"].

Lemma serverNames_identity inReq n : n ∈ serverNames → isIdentityHeader inReq n = true.
Proof.
  intros Hn. unfold isIdentityHeader. rewrite bool_decide_eq_true_2; [done|].
  unfold serverNames in Hn. rewrite !elem_of_cons, elem_of_nil in Hn.
  destruct Hn as [->|[->|[->|[->|[->|[]]]]]]; apply (bool_decide_unpack _); vm_compute; done.
Qed.

Ltac canonical_names :=
  change (CanonicalMIMEHeaderKey "X-Forwarded-Port") with "X-Forwarded-Port";
  change (CanonicalMIMEHeaderKey "X-Forwarded-Proto") with "X-Forwarded-Proto";
  change (CanonicalMIMEHeaderKey "X-Forwarded-Host") with "X-Forwarded-Host";
  change (CanonicalMIMEHeaderKey "X-Forwarded-For") with "X-Forwarded-For";
  change (CanonicalMIMEHeaderKey "X-Real-IP") with "X-Real-Ip".

End Forwarding.
