(* ===== verification/LoginThrottle.v ===== *)
(** The login throttle of the management and public-access logins
    (internal/server/login_throttle.go).

    A [loginThrottle] is a bounded map from a key (username or client address)
    to an entry with the failures recorded in the current window, the attempts
    in flight, and the end of the current block.  The objects live in a heap
    indexed by pointer, because the code compares throttle pointers and a
    username throttle may be the same object as the client throttle.

    Every exported operation holds the object's mutex for its whole body, so
    it is one atomic function on the object; [attempt_step] interleaves the
    operations of concurrent login attempts, with the retry-after queries that
    the public-access logins make for refused attempts.  Go's map iteration order is
    unspecified: the loops that depend on it take the enumeration [iter] as an
    argument, constrained only to enumerate the map ([enumerates]).

    Map values are never nil in this program (both writers store a fresh
    entry), so the two defensive nil tests have no counterpart here. *)

From S2P Require Import Prelude.

Module LoginThrottle.

(** ** Constants and policies *)

Definition loginThrottleMaxFailures : Z := 5.
Definition loginThrottleClientMaxFailures : Z := 25.
Definition loginThrottleWindow : Z := 15 * minute.
Definition loginThrottleBlock : Z := 5 * minute.
Definition defaultLoginThrottleMaxKeys : Z := 50000.

Record loginThrottlePolicy := mkPolicy {
  UsernameMaxFailures : Z;
  ClientMaxFailures : Z;
  Window : Z;
  Block : Z;
}.

Definition defaultLoginThrottlePolicy : loginThrottlePolicy :=
  mkPolicy loginThrottleMaxFailures loginThrottleClientMaxFailures
    loginThrottleWindow loginThrottleBlock.

(** [if x <= 0 { x = d }] *)
Definition positive_or (x d : Z) : Z := if x <=? 0 then d else x.

Definition normalizedLoginThrottlePolicy (policy : loginThrottlePolicy) : loginThrottlePolicy :=
  mkPolicy (positive_or policy.(UsernameMaxFailures) loginThrottleMaxFailures)
    (positive_or policy.(ClientMaxFailures) loginThrottleClientMaxFailures)
    (positive_or policy.(Window) loginThrottleWindow)
    (positive_or policy.(Block) loginThrottleBlock).

(** ** State *)

Record loginThrottleEntry := mkEntry {
  failures : Z;
  inFlight : Z;
  windowStart : Z;
  window : Z;
  blockedUntil : Z;
}.

Record loginThrottle := mkThrottle {
  entries : gmap string loginThrottleEntry;
  maxEntries : Z;
}.

Definition set_entries (t : loginThrottle) (m : gmap string loginThrottleEntry) : loginThrottle :=
  mkThrottle m t.(maxEntries).

Definition newLoginThrottle (maxEntries : Z) : loginThrottle :=
  mkThrottle ∅ (positive_or maxEntries defaultLoginThrottleMaxKeys).

(** Two independent buckets, each with half of the key budget. *)
Definition newLoginThrottleBuckets (maxEntries : Z) : loginThrottle * loginThrottle :=
  let maxEntries := positive_or maxEntries defaultLoginThrottleMaxKeys in
  let perBucket := Z.max 1 (Z.quot maxEntries 2) in
  (newLoginThrottle perBucket, newLoginThrottle perBucket).

(** ** Entry predicates *)

Definition loginThrottleEntryBlocked (entry : option loginThrottleEntry) (now : Z) : bool :=
  match entry with
  | None => false
  | Some e => negb (is_zero_time e.(blockedUntil)) && before now e.(blockedUntil)
  end.

Definition loginThrottleEntryExpired (entry : option loginThrottleEntry) (now : Z) : bool :=
  match entry with
  | None => true
  | Some e =>
      let window := positive_or e.(window) loginThrottleWindow in
      window <? time_sub now e.(windowStart)
  end.

(** The condition under which [pruneLocked] drops an entry. *)
Definition prunable (now : Z) (e : loginThrottleEntry) : bool :=
  (e.(inFlight) =? 0) && negb (loginThrottleEntryBlocked (Some e) now)
  && loginThrottleEntryExpired (Some e) now.

Definition pruneLocked (t : loginThrottle) (now : Z) : loginThrottle :=
  set_entries t (filter (λ kv, prunable now kv.2 = false) t.(entries)).

(** ** Eviction *)

(** The loop of [evictOldestUnlockedEntryLocked] over an enumeration of the
    map; the result is the key to delete. *)
Fixpoint evictScan (now : Z) (l : list (string * loginThrottleEntry))
    (oldestKey : string) (oldestStart : Z) : option string :=
  match l with
  | [] => if String.eqb oldestKey "" then None else Some oldestKey
  | (key, entry) :: l =>
      if prunable now entry then Some key
      else if loginThrottleEntryBlocked (Some entry) now || (0 <? entry.(inFlight)) then
        evictScan now l oldestKey oldestStart
      else if String.eqb oldestKey "" || before entry.(windowStart) oldestStart then
        evictScan now l key entry.(windowStart)
      else evictScan now l oldestKey oldestStart
  end.

(** Go's enumeration of a map: any order. *)
Definition order := gmap string loginThrottleEntry → list (string * loginThrottleEntry).
Definition enumerates (iter : order) : Prop := ∀ m, iter m ≡ₚ map_to_list m.

Definition evictOldestUnlockedEntryLocked (iter : order) (t : loginThrottle) (now : Z)
    : loginThrottle * bool :=
  match evictScan now (iter t.(entries)) "" 0 with
  | Some key => (set_entries t (delete key t.(entries)), true)
  | None => (t, false)
  end.

(** [t.pruneLocked(now); if len(t.entries) >= t.maxEntries && !t.evict...]:
    the table after making room and whether there is room. *)
Definition makeRoom (iter : order) (t : loginThrottle) (now : Z) : loginThrottle * bool :=
  let t := pruneLocked t now in
  if t.(maxEntries) <=? Z.of_nat (size t.(entries)) then
    evictOldestUnlockedEntryLocked iter t now
  else (t, true).

(** ** Operations *)

Definition retryAfter (t : loginThrottle) (key : string) (now : Z) : loginThrottle * Z :=
  if String.eqb key "" then (t, 0) else
  match t.(entries) !! key with
  | None => (t, 0)
  | Some entry =>
      if negb (is_zero_time entry.(blockedUntil)) && before now entry.(blockedUntil) then
        (t, time_sub entry.(blockedUntil) now)
      else if loginThrottleEntryExpired (Some entry) now then
        (set_entries t (delete key t.(entries)), 0)
      else (t, 0)
  end.

(** The end of [tryReserveWithPolicy]: the entry is in the table. *)
Definition reserveIn (t : loginThrottle) (key : string) (entry : loginThrottleEntry)
    (maxFailures : Z) : loginThrottle * bool :=
  if maxFailures <=? entry.(failures) + entry.(inFlight) then (t, false)
  else
    (set_entries t (<[key := mkEntry entry.(failures) (entry.(inFlight) + 1)
       entry.(windowStart) entry.(window) entry.(blockedUntil)]> t.(entries)), true).

(** The mutations of a live entry by [tryReserveWithPolicy]: when the block is
    over a new window starts, and the entry takes the caller's window. *)
Definition refreshed (now window : Z) (e : loginThrottleEntry) : loginThrottleEntry :=
  let e := if is_zero_time e.(blockedUntil) then e
           else mkEntry 0 e.(inFlight) now e.(LoginThrottle.window) 0 in
  mkEntry e.(failures) e.(inFlight) e.(windowStart) window e.(blockedUntil).

Definition tryReserveWithPolicy (iter : order) (t : loginThrottle) (key : string)
    (now maxFailures window : Z) : loginThrottle * bool :=
  if String.eqb key "" then (t, true) else
  let maxFailures := positive_or maxFailures loginThrottleMaxFailures in
  let window := positive_or window loginThrottleWindow in
  let entry := t.(entries) !! key in
  if loginThrottleEntryBlocked entry now then (t, false) else
  let entry := refreshed now window <$> entry in
  let drop := match entry with
              | Some e => (e.(inFlight) =? 0) && loginThrottleEntryExpired (Some e) now
              | None => false
              end in
  match entry, drop with
  | Some e, false =>
      reserveIn (set_entries t (<[key := e]> t.(entries))) key e maxFailures
  | _, _ =>
      let t := set_entries t (delete key t.(entries)) in
      let '(t, room) := makeRoom iter t now in
      if room then
        let e := mkEntry 0 0 now window 0 in
        reserveIn (set_entries t (<[key := e]> t.(entries))) key e maxFailures
      else (t, false)
  end.

(** [if entry.inFlight > 0 { entry.inFlight-- }] *)
Definition dec_inFlight (n : Z) : Z := if 0 <? n then n - 1 else n.

Definition releaseReservation (t : loginThrottle) (key : string) : loginThrottle :=
  if String.eqb key "" then t else
  match t.(entries) !! key with
  | None => t
  | Some e =>
      let e := mkEntry e.(failures) (dec_inFlight e.(inFlight)) e.(windowStart)
                 e.(window) e.(blockedUntil) in
      if (e.(inFlight) =? 0) && (e.(failures) =? 0) && is_zero_time e.(blockedUntil) then
        set_entries t (delete key t.(entries))
      else set_entries t (<[key := e]> t.(entries))
  end.

Definition clearReservedFailures (t : loginThrottle) (key : string) : loginThrottle :=
  if String.eqb key "" then t else
  match t.(entries) !! key with
  | None => t
  | Some e =>
      let e := mkEntry 0 (dec_inFlight e.(inFlight)) e.(windowStart) e.(window) 0 in
      if e.(inFlight) =? 0 then set_entries t (delete key t.(entries))
      else set_entries t (<[key := e]> t.(entries))
  end.

(** The end of the recording operations: count the failure, block at the limit. *)
Definition recordIn (t : loginThrottle) (key : string) (e : loginThrottleEntry)
    (inFlight' now maxFailures window block : Z) : loginThrottle :=
  let failures := e.(failures) + 1 in
  let blockedUntil := if maxFailures <=? failures then now + block else e.(blockedUntil) in
  set_entries t (<[key := mkEntry failures inFlight' e.(windowStart) window blockedUntil]>
                   t.(entries)).

Definition recordReservedFailureWithPolicy (iter : order) (t : loginThrottle) (key : string)
    (now maxFailures window block : Z) : loginThrottle :=
  if String.eqb key "" then t else
  let maxFailures := positive_or maxFailures loginThrottleMaxFailures in
  let window := positive_or window loginThrottleWindow in
  let block := positive_or block loginThrottleBlock in
  match t.(entries) !! key with
  | Some e => recordIn t key e (dec_inFlight e.(inFlight)) now maxFailures window block
  | None =>
      let '(t, room) := makeRoom iter t now in
      if room then recordIn t key (mkEntry 0 0 now window 0) 0 now maxFailures window block
      else t
  end.

Definition recordFailureWithPolicy (iter : order) (t : loginThrottle) (key : string)
    (now maxFailures window block : Z) : loginThrottle :=
  if String.eqb key "" then t else
  let maxFailures := positive_or maxFailures loginThrottleMaxFailures in
  let window := positive_or window loginThrottleWindow in
  let block := positive_or block loginThrottleBlock in
  let entry := t.(entries) !! key in
  if match entry with
     | None => true
     | Some _ => negb (loginThrottleEntryBlocked entry now)
                 && loginThrottleEntryExpired entry now
     end
  then
    let '(t, room) := makeRoom iter t now in
    if room then recordIn t key (mkEntry 0 0 now window 0) 0 now maxFailures window block
    else t
  else
    match entry with
    | Some e => recordIn t key e e.(inFlight) now maxFailures window block
    | None => t
    end.

Definition recordSuccess (t : loginThrottle) (key : string) : loginThrottle :=
  if String.eqb key "" then t else set_entries t (delete key t.(entries)).

(** ** Reservations over the heap of throttle objects *)

Notation heap := (gmap positive loginThrottle) (only parsing).

Record loginThrottleReservation := mkReservation {
  usernameThrottle : option positive;
  clientThrottle : option positive;
  usernameKey : string;
  clientKey : string;
  policy : loginThrottlePolicy;
  settled : bool;
}.

(** A method call on a possibly nil throttle: [nilResult] is what the nil
    receiver returns. *)
Definition call {A} (h : heap) (p : option positive) (nilResult : A)
    (f : loginThrottle → loginThrottle * A) : heap * A :=
  match p with
  | None => (h, nilResult)
  | Some q =>
      match h !! q with
      | None => (h, nilResult)
      | Some t => let '(t', a) := f t in (<[q := t']> h, a)
      end
  end.

Definition call_ (h : heap) (p : option positive) (f : loginThrottle → loginThrottle) : heap :=
  (call h p tt (λ t, (f t, tt))).1.

Definition reserveLoginThrottleAttemptWithPolicy (iter : order) (h : heap)
    (usernameThrottle clientThrottle : option positive) (usernameKey clientKey : string)
    (now : Z) (policy : loginThrottlePolicy)
    : heap * option loginThrottleReservation :=
  let policy := normalizedLoginThrottlePolicy policy in
  let '(h, ok) := call h usernameThrottle true (λ t,
    tryReserveWithPolicy iter t usernameKey now policy.(UsernameMaxFailures) policy.(Window)) in
  if negb ok then (h, None)
  else if bool_decide (usernameThrottle ≠ None ∧ clientThrottle = usernameThrottle) then
    (h, Some (mkReservation usernameThrottle None usernameKey "" policy false))
  else
    let '(h, ok) := call h clientThrottle true (λ t,
      tryReserveWithPolicy iter t clientKey now policy.(ClientMaxFailures) policy.(Window)) in
    if negb ok then
      (call_ h usernameThrottle (λ t, releaseReservation t usernameKey), None)
    else
      (h, Some (mkReservation usernameThrottle clientThrottle usernameKey clientKey policy false)).

Definition settle (r : loginThrottleReservation) : loginThrottleReservation :=
  mkReservation r.(usernameThrottle) r.(clientThrottle) r.(usernameKey) r.(clientKey)
    r.(policy) true.

Definition release (h : heap) (r : loginThrottleReservation) : heap * loginThrottleReservation :=
  if r.(settled) then (h, r) else
  let h := call_ h r.(usernameThrottle) (λ t, releaseReservation t r.(usernameKey)) in
  let h := call_ h r.(clientThrottle) (λ t, releaseReservation t r.(clientKey)) in
  (h, settle r).

Definition recordFailure (iter : order) (h : heap) (r : loginThrottleReservation) (now : Z)
    : heap * loginThrottleReservation :=
  if r.(settled) then (h, r) else
  let policy := normalizedLoginThrottlePolicy r.(policy) in
  let h := call_ h r.(usernameThrottle) (λ t, recordReservedFailureWithPolicy iter t
    r.(usernameKey) now policy.(UsernameMaxFailures) policy.(Window) policy.(Block)) in
  let h := call_ h r.(clientThrottle) (λ t, recordReservedFailureWithPolicy iter t
    r.(clientKey) now policy.(ClientMaxFailures) policy.(Window) policy.(Block)) in
  (h, settle r).

Definition reservationRecordSuccess (h : heap) (r : loginThrottleReservation)
    : heap * loginThrottleReservation :=
  if r.(settled) then (h, r) else
  let h := call_ h r.(usernameThrottle) (λ t, clearReservedFailures t r.(usernameKey)) in
  let h := call_ h r.(clientThrottle) (λ t, releaseReservation t r.(clientKey)) in
  (h, settle r).

#[local] Arguments loginThrottleEntryBlocked : simpl never.
#[local] Arguments loginThrottleEntryExpired : simpl never.
#[local] Arguments prunable : simpl never.
#[local] Arguments refreshed : simpl never.

(** ** Lemmas on expiry, eviction and room *)

(** What an operation at time [now] may do to an entry it is not about: keep
    it, or drop it when it is neither in flight nor blocked. *)
Definition kept (now : Z) (o o' : option loginThrottleEntry) : Prop :=
  o' = o ∨ (o' = None ∧ ∃ e, o = Some e ∧ e.(inFlight) ≤ 0
            ∧ loginThrottleEntryBlocked (Some e) now = false).

Lemma kept_refl now o : kept now o o.
Proof. by left. Qed.

Lemma kept_trans now o1 o2 o3 : kept now o1 o2 → kept now o2 o3 → kept now o1 o3.
Proof.
  intros [->|(-> & e & -> & Hi & Hb)] [->|(-> & e' & He' & Hi' & Hb')].
  - by left.
  - right. eauto.
  - right. eauto 10.
  - discriminate.
Qed.
#[local] Hint Resolve kept_refl : core.

Lemma prunable_spec now e :
  prunable now e = true → e.(inFlight) = 0 ∧ loginThrottleEntryBlocked (Some e) now = false
    ∧ loginThrottleEntryExpired (Some e) now = true.
Proof. unfold prunable. intros. by bprop. Qed.

Lemma prune_lookup t now k :
  (pruneLocked t now).(entries) !! k =
    match t.(entries) !! k with
    | Some e => if prunable now e then None else Some e
    | None => None
    end.
Proof.
  unfold pruneLocked, set_entries; simpl. destruct (t.(entries) !! k) as [e|] eqn:E.
  - destruct (prunable now e) eqn:P.
    + apply map_lookup_filter_None. right. intros x ?; simplify_eq; simpl. congruence.
    + apply map_lookup_filter_Some. auto.
  - apply map_lookup_filter_None. auto.
Qed.

Lemma prune_kept t now k : kept now (t.(entries) !! k) ((pruneLocked t now).(entries) !! k).
Proof.
  rewrite prune_lookup. destruct (t.(entries) !! k) as [e|]; [|auto].
  destruct (prunable now e) eqn:P; [|auto].
  apply prunable_spec in P as (? & ? & ?). right. split; [done|]. exists e. repeat split; auto. lia.
Qed.

(** The scan picks an entry it may evict, or its starting candidate. *)
Lemma evictScan_Some now l ok os k :
  evictScan now l ok os = Some k →
  k = ok ∨ ∃ e, (k, e) ∈ l ∧ e.(inFlight) ≤ 0 ∧ loginThrottleEntryBlocked (Some e) now = false.
Proof.
  revert ok os. induction l as [|[key e] l IH]; intros ok os; simpl.
  { case_match; intros; simplify_eq; auto. }
  destruct (prunable now e) eqn:P.
  { intros [= ->]. right. exists e. apply prunable_spec in P as (? & ? & ?).
    split; [left|]. split; [lia|done]. }
  assert (∀ ok' os', evictScan now l ok' os' = Some k →
    k = ok' ∨ ∃ e0, (k, e0) ∈ (key, e) :: l ∧ e0.(inFlight) ≤ 0
              ∧ loginThrottleEntryBlocked (Some e0) now = false) as IH'.
  { intros ok' os' H. destruct (IH _ _ H) as [->|(e0 & ? & ?)]; [auto|].
    right. exists e0. split; [by right|done]. }
  destruct (loginThrottleEntryBlocked (Some e) now || (0 <? e.(inFlight))) eqn:B; [apply IH'|].
  apply orb_false_iff in B as [B1 B2]. apply Z.ltb_ge in B2.
  case_match; [|apply IH'].
  intros H1. destruct (IH' _ _ H1) as [->|]; [|auto].
  right. exists e. split; [left|auto].
Qed.

Lemma evict_Some iter t now k :
  enumerates iter → evictScan now (iter t.(entries)) "" 0 = Some k →
  k = "" ∨ ∃ e, t.(entries) !! k = Some e ∧ e.(inFlight) ≤ 0
            ∧ loginThrottleEntryBlocked (Some e) now = false.
Proof.
  intros Hit H. destruct (evictScan_Some _ _ _ _ _ H) as [->|(e & He & ?)]; [auto|].
  right. exists e. split; [|done]. by rewrite (Hit _), elem_of_map_to_list in He.
Qed.

Lemma evictScan_nonempty now l os k :
  evictScan now l "" os = Some k → (∀ e, ("", e) ∉ l) → k ≠ "".
Proof.
  enough (∀ ok os, evictScan now l ok os = Some k → (∀ e, ("", e) ∉ l) → k ≠ "") by eauto.
  induction l as [|[key e] l IH]; intros ok os'; simpl.
  { destruct (String.eqb_spec ok ""); intros; simplify_eq; auto. }
  intros H Hl. assert (key ≠ "") by (intros ->; by apply (Hl e); left).
  assert (∀ e0, ("", e0) ∉ l) by (intros e0 ?; apply (Hl e0); by right).
  destruct (prunable now e); [by simplify_eq|].
  repeat case_match; eauto.
Qed.

(** Keys are never empty: every operation refuses the empty key. *)
Definition no_empty_key (t : loginThrottle) : Prop := t.(entries) !! "" = None.

Lemma evict_kept iter t now t' ok k :
  enumerates iter → no_empty_key t → evictOldestUnlockedEntryLocked iter t now = (t', ok) →
  kept now (t.(entries) !! k) (t'.(entries) !! k).
Proof.
  unfold evictOldestUnlockedEntryLocked. intros Hit Hne H.
  destruct (evictScan _ _ _ _) as [key|] eqn:E; simplify_eq; [|auto].
  assert (key ≠ "") as Hk.
  { eapply evictScan_nonempty; [done|]. intros e. rewrite (Hit _), elem_of_map_to_list.
    unfold no_empty_key in Hne. congruence. }
  destruct (evict_Some _ _ _ _ Hit E) as [->|(e & He & ? & ?)]; [done|]. simpl.
  destruct (decide (key = k)) as [->|].
  - rewrite lookup_delete_eq. right. eauto.
  - rewrite lookup_delete_ne by done. auto.
Qed.

Lemma makeRoom_kept iter t now t' room k :
  enumerates iter → no_empty_key t → makeRoom iter t now = (t', room) →
  kept now (t.(entries) !! k) (t'.(entries) !! k).
Proof.
  unfold makeRoom. intros Hit Hne H.
  assert (no_empty_key (pruneLocked t now)).
  { unfold no_empty_key in *. rewrite prune_lookup. by rewrite Hne. }
  eapply kept_trans; [apply prune_kept|].
  case_hyp H; [by eapply evict_kept|]. simplify_eq. auto.
Qed.

Lemma makeRoom_maxEntries iter t now t' room :
  makeRoom iter t now = (t', room) → t'.(maxEntries) = t.(maxEntries).
Proof.
  unfold makeRoom, evictOldestUnlockedEntryLocked, pruneLocked, set_entries.
  intros H. repeat case_hyp H; by simplify_eq.
Qed.

Lemma kept_None now o : kept now None o → o = None.
Proof. intros [|(? & ? & ? & ?)]; congruence. Qed.

Lemma makeRoom_no_empty_key iter t now t' room :
  enumerates iter → no_empty_key t → makeRoom iter t now = (t', room) → no_empty_key t'.
Proof.
  intros ? Hne H. pose proof (makeRoom_kept _ _ _ _ _ "" ltac:(done) Hne H) as Hk.
  unfold no_empty_key in *. rewrite Hne in Hk. by eapply kept_None.
Qed.

(** After [makeRoom] reports room, one more entry fits. *)
Lemma makeRoom_size iter t now t' :
  enumerates iter → no_empty_key t → makeRoom iter t now = (t', true) →
  Z.of_nat (size t.(entries)) ≤ t.(maxEntries) →
  Z.of_nat (size t'.(entries)) < t.(maxEntries).
Proof.
  unfold makeRoom. intros Hit Hne H Hsz.
  assert (size (pruneLocked t now).(entries) ≤ size t.(entries))%nat by apply map_size_filter.
  case_hyp H; [|simplify_eq; bprop; simpl in *; lia]. bprop. simpl in *.
  unfold evictOldestUnlockedEntryLocked in H.
  destruct (evictScan _ _ _ _) as [key|] eqn:E; simplify_eq. simpl.
  destruct (evict_Some _ _ _ _ Hit E) as [->|(e & He & _)].
  - exfalso. eapply evictScan_nonempty in E; [done|]. intros e.
    rewrite (Hit _), elem_of_map_to_list, prune_lookup.
    unfold no_empty_key in Hne. by rewrite Hne.
  - rewrite map_size_delete_Some by eauto.
    destruct (size (filter _ _)) eqn:Ez; [|simpl in *; lia].
    apply map_size_empty_iff in Ez. unfold pruneLocked in He; simpl in He. rewrite Ez in He. done.
Qed.

Lemma makeRoom_size_le iter t now t' room :
  enumerates iter → no_empty_key t → makeRoom iter t now = (t', room) →
  (size t'.(entries) ≤ size t.(entries))%nat.
Proof.
  intros Hit Hne H. apply map_subseteq_size, map_subseteq_spec. intros k e Hk.
  destruct (makeRoom_kept _ _ _ _ _ k Hit Hne H) as [Heq|(Heq & _)]; congruence.
Qed.

(** ** The operations, key by key *)

Lemma positive_or_pos x d : 0 < d → 0 < positive_or x d.
Proof. unfold positive_or. case_match; bprop; lia. Qed.

Lemma positive_or_id x d : 0 < x → positive_or x d = x.
Proof. unfold positive_or. case_match; bprop; lia. Qed.

(** The number of attempts in flight for a key. *)
Definition tcount (t : loginThrottle) (key : string) : Z :=
  match t.(entries) !! key with Some e => e.(inFlight) | None => 0 end.

Definition entry_ok (e : loginThrottleEntry) : Prop := 0 ≤ e.(failures) ∧ 0 ≤ e.(inFlight).

Definition table_ok (t : loginThrottle) : Prop :=
  no_empty_key t ∧ Z.of_nat (size t.(entries)) ≤ t.(maxEntries) ∧
  map_Forall (λ _ e, entry_ok e) t.(entries).

Lemma kept_tcount now t t' k :
  map_Forall (λ _ e, entry_ok e) t.(entries) →
  kept now (t.(entries) !! k) (t'.(entries) !! k) → tcount t' k = tcount t k.
Proof.
  unfold tcount. intros Hok [->|(-> & e & E & ? & ?)]; [done|]. rewrite E.
  destruct (Hok _ _ E). lia.
Qed.

Lemma makeRoom_entry_ok iter t now t' room :
  enumerates iter → no_empty_key t → makeRoom iter t now = (t', room) →
  map_Forall (λ _ e, entry_ok e) t.(entries) → map_Forall (λ _ e, entry_ok e) t'.(entries).
Proof.
  intros Hit Hne H Hok k e Hk.
  destruct (makeRoom_kept _ _ _ _ _ k Hit Hne H) as [Heq|(Heq & _)]; [|congruence].
  eapply Hok. by rewrite <- Heq.
Qed.

Lemma refreshed_inFlight now w e : (refreshed now w e).(inFlight) = e.(inFlight).
Proof. unfold refreshed. by case_match. Qed.

Lemma refreshed_failures now w e :
  0 ≤ e.(failures) → 0 ≤ (refreshed now w e).(failures) ≤ e.(failures).
Proof. unfold refreshed. case_match; simpl; lia. Qed.
#[local] Opaque refreshed.

(** The table [reserveIn] works on when the key has no live entry. *)
Definition fresh_table (t : loginThrottle) (key : string) (now window : Z) : loginThrottle :=
  set_entries t (<[key := mkEntry 0 0 now window 0]> t.(entries)).

(** The five outcomes of an attempt to reserve. *)
Variant reserve_outcome (iter : order) (t : loginThrottle) (key : string) (now M W : Z)
    : loginThrottle → bool → Prop :=
| RO_blocked e : t.(entries) !! key = Some e → loginThrottleEntryBlocked (Some e) now = true →
    reserve_outcome iter t key now M W t false
| RO_live e ok t' : t.(entries) !! key = Some e →
    loginThrottleEntryBlocked (Some e) now = false →
    reserveIn (set_entries t (<[key := refreshed now W e]> t.(entries))) key
      (refreshed now W e) M = (t', ok) →
    reserve_outcome iter t key now M W t' ok
| RO_fresh t1 ok t' : tcount t key = 0 →
    loginThrottleEntryBlocked (t.(entries) !! key) now = false →
    makeRoom iter (set_entries t (delete key t.(entries))) now = (t1, true) →
    reserveIn (fresh_table t1 key now W) key (mkEntry 0 0 now W 0) M = (t', ok) →
    reserve_outcome iter t key now M W t' ok
| RO_full t1 : tcount t key = 0 →
    loginThrottleEntryBlocked (t.(entries) !! key) now = false →
    makeRoom iter (set_entries t (delete key t.(entries))) now = (t1, false) →
    reserve_outcome iter t key now M W t1 false.

Lemma tryReserve_outcome iter t key now M W t' ok :
  key ≠ "" → tryReserveWithPolicy iter t key now M W = (t', ok) →
  reserve_outcome iter t key now (positive_or M loginThrottleMaxFailures)
    (positive_or W loginThrottleWindow) t' ok.
Proof.
  intros Hkey. unfold tryReserveWithPolicy.
  rewrite (proj2 (String.eqb_neq key "")) by done.
  destruct (t.(entries) !! key) as [e|] eqn:E; simpl.
  - destruct (loginThrottleEntryBlocked (Some e) now) eqn:B.
    { intros [= <- <-]. by eapply RO_blocked. }
    destruct (_ && loginThrottleEntryExpired _ _) eqn:D.
    + apply andb_true_iff in D as [D _]. apply Z.eqb_eq in D. rewrite refreshed_inFlight in D.
      assert (tcount t key = 0) by (unfold tcount; by rewrite E).
      destruct (makeRoom _ _ _) as [t1 []] eqn:R.
      * intros H'. eapply RO_fresh; eauto. by rewrite E.
      * intros [= <- <-]. eapply RO_full; eauto. by rewrite E.
    + intros H. by eapply RO_live.
  - assert (tcount t key = 0) by (unfold tcount; by rewrite E).
    destruct (makeRoom _ _ _) as [t1 []] eqn:R.
    + intros H'. eapply RO_fresh; eauto. by rewrite E.
    + intros [= <- <-]. eapply RO_full; eauto. by rewrite E.
Qed.

Lemma reserveIn_spec t key e M t' ok :
  reserveIn t key e M = (t', ok) →
  (ok = false ∧ t' = t ∧ M ≤ e.(failures) + e.(inFlight)) ∨
  (ok = true ∧ e.(failures) + e.(inFlight) < M ∧
   t' = set_entries t (<[key := mkEntry e.(failures) (e.(inFlight) + 1)
          e.(windowStart) e.(window) e.(blockedUntil)]> t.(entries))).
Proof. unfold reserveIn. case_match; intros; simplify_eq; bprop; auto. Qed.

Lemma no_empty_delete t key :
  no_empty_key t → no_empty_key (set_entries t (delete key t.(entries))).
Proof. unfold no_empty_key; simpl. intros. by rewrite lookup_delete_None; right. Qed.

Lemma no_empty_insert t m key e :
  key ≠ "" → m !! "" = None → no_empty_key (set_entries t (<[key := e]> m)).
Proof. unfold no_empty_key; simpl. intros. by rewrite lookup_insert_ne. Qed.

(** Other keys are kept by a reservation attempt. *)
Lemma tryReserve_others iter t key now M W t' ok k :
  enumerates iter → no_empty_key t → key ≠ "" → k ≠ key →
  tryReserveWithPolicy iter t key now M W = (t', ok) →
  kept now (t.(entries) !! k) (t'.(entries) !! k).
Proof.
  intros Hit Hne Hkey Hk H. apply tryReserve_outcome in H; [|done].
  destruct H as [e ? ?|e ok t' ? ? HR|t1 ok t' ? ? HM HR|t1 ? ? HM]; [auto| | |].
  - apply reserveIn_spec in HR as [(_ & -> & _)|(_ & _ & ->)]; simpl;
      rewrite ?lookup_insert_ne by done; auto.
  - pose proof (makeRoom_kept _ _ _ _ _ k Hit (no_empty_delete t key Hne) HM) as Hkept.
    simpl in Hkept. rewrite lookup_delete_ne in Hkept by done.
    apply reserveIn_spec in HR as [(_ & -> & _)|(_ & _ & ->)]; simpl;
      rewrite ?lookup_insert_ne by done; auto.
  - pose proof (makeRoom_kept _ _ _ _ _ k Hit (no_empty_delete t key Hne) HM) as Hkept.
    simpl in Hkept. by rewrite lookup_delete_ne in Hkept.
Qed.

(** What a reservation attempt does to its own key: in-flight count and
    failures on success, on refusal. *)
Lemma tryReserve_own iter t key now M W t' ok :
  enumerates iter → table_ok t → key ≠ "" →
  tryReserveWithPolicy iter t key now M W = (t', ok) →
  tcount t' key = tcount t key + (if ok then 1 else 0) ∧
  (∀ e', t'.(entries) !! key = Some e' →
     0 ≤ e'.(failures) ∧ e'.(failures) ≤ default 0 (failures <$> t.(entries) !! key) ∧
     (ok = true → e'.(failures) + e'.(inFlight) ≤ positive_or M loginThrottleMaxFailures)) ∧
  (ok = true → is_Some (t'.(entries) !! key) ∧
     loginThrottleEntryBlocked (t.(entries) !! key) now = false).
Proof.
  intros Hit (Hne & _ & Hok) Hkey H. apply tryReserve_outcome in H; [|done].
  destruct H as [e E B|e ok t' E B HR|t1 ok t' Hc HB HM HR|t1 Hc HB HM].
  - split; [lia|]. split; [|done]. intros e' E'. rewrite E' in E. simplify_eq.
    rewrite E'; simpl. destruct (Hok _ _ E'). split; [lia|]. split; [lia|done].
  - destruct (Hok _ _ E) as [Hf Hi]. pose proof (refreshed_inFlight now (positive_or W loginThrottleWindow) e) as Hri.
    pose proof (refreshed_failures now (positive_or W loginThrottleWindow) e Hf) as Hrf.
    unfold tcount. rewrite E; simpl.
    apply reserveIn_spec in HR as [(-> & -> & _)|(-> & Hlt & ->)]; simpl;
      rewrite lookup_insert_eq; simpl.
    + split; [lia|]. split; [intros e' [= <-]; lia|done].
    + split; [lia|]. split; [intros e' [= <-]; simpl; lia|]. eauto.
  - rewrite Hc. unfold tcount.
    apply reserveIn_spec in HR as [(-> & -> & Hle)|(-> & Hlt & ->)]; simpl in *;
      rewrite lookup_insert_eq; simpl.
    + split; [lia|]. split; [|done]. intros e' [= <-]; simpl.
      destruct (t.(entries) !! key) as [e|] eqn:E; simpl; [destruct (Hok _ _ E)|]; lia.
    + split; [lia|]. split; [|eauto]. intros e' [= <-]; simpl.
      destruct (t.(entries) !! key) as [e|] eqn:E; simpl; [destruct (Hok _ _ E)|]; lia.
  - pose proof (makeRoom_kept _ _ _ _ _ key Hit (no_empty_delete t key Hne) HM) as Hkept.
    simpl in Hkept. rewrite lookup_delete_eq in Hkept. apply kept_None in Hkept.
    unfold tcount at 1. rewrite Hkept. split; [lia|]. split; [congruence|done].
Qed.

(** ** The operations preserve the table invariant *)

Lemma size_insert_le (m : gmap string loginThrottleEntry) k e n :
  Z.of_nat (size m) ≤ n → (is_Some (m !! k) ∨ Z.of_nat (size m) < n) →
  Z.of_nat (size (<[k := e]> m)) ≤ n.
Proof.
  intros Hle H. rewrite map_size_insert.
  destruct H as [[e' ->]|Hlt]; [done|]. case_match; unfold id; simpl; lia.
Qed.

Lemma table_ok_insert t m key e :
  key ≠ "" → m !! "" = None → map_Forall (λ _ e, entry_ok e) m → entry_ok e →
  Z.of_nat (size m) ≤ t.(maxEntries) →
  (is_Some (m !! key) ∨ Z.of_nat (size m) < t.(maxEntries)) →
  table_ok (set_entries t (<[key := e]> m)).
Proof.
  intros. split; [by apply no_empty_insert|]. split; simpl.
  - by apply size_insert_le.
  - by apply map_Forall_insert_2.
Qed.

Lemma table_ok_delete t key : table_ok t → table_ok (set_entries t (delete key t.(entries))).
Proof.
  intros (Hne & Hsz & Hok). split; [by apply no_empty_delete|]. split; simpl.
  - etrans; [|done]. apply inj_le, map_subseteq_size, delete_subseteq.
  - by apply map_Forall_delete.
Qed.

Lemma table_ok_update t key e e' :
  table_ok t → t.(entries) !! key = Some e → entry_ok e' →
  table_ok (set_entries t (<[key := e']> t.(entries))).
Proof.
  intros (Hne & Hsz & Hok) E ?. 
  assert (key ≠ "") by (intros ->; unfold no_empty_key in Hne; congruence).
  apply table_ok_insert; eauto.
Qed.

Lemma makeRoom_table_ok iter t now t' room :
  enumerates iter → table_ok t → makeRoom iter t now = (t', room) →
  table_ok t' ∧ (room = true → Z.of_nat (size t'.(entries)) < t'.(maxEntries)).
Proof.
  intros Hit (Hne & Hsz & Hok) H. pose proof (makeRoom_maxEntries _ _ _ _ _ H) as Hm.
  split.
  - split; [by eapply makeRoom_no_empty_key|]. split; [|by eapply makeRoom_entry_ok].
    rewrite Hm. etrans; [apply inj_le; by eapply makeRoom_size_le|done].
  - intros ->. rewrite Hm. by eapply makeRoom_size.
Qed.

Lemma reserveIn_table_ok t key e M t' ok :
  table_ok t → t.(entries) !! key = Some e → reserveIn t key e M = (t', ok) → table_ok t'.
Proof.
  intros Ht E H. apply reserveIn_spec in H as [(_ & -> & _)|(_ & _ & ->)]; [done|].
  destruct Ht as (? & ? & Hok). destruct (Hok _ _ E) as [? ?].
  eapply table_ok_update; [by split_and!|done|]. split; simpl; lia.
Qed.

Lemma tryReserve_table_ok iter t key now M W t' ok :
  enumerates iter → table_ok t → tryReserveWithPolicy iter t key now M W = (t', ok) →
  table_ok t'.
Proof.
  intros Hit Ht H. destruct (decide (key = "")) as [->|Hkey].
  { unfold tryReserveWithPolicy in H. simpl in H. by simplify_eq. }
  apply tryReserve_outcome in H; [|done].
  destruct H as [e E B|e ok t' E B HR|t1 ok t' Hc HB HM HR|t1 Hc HB HM]; [done| | |].
  - eapply reserveIn_table_ok; [..|exact HR]; [|by apply lookup_insert_eq].
    destruct Ht as (? & ? & Hok). destruct (Hok _ _ E) as [Hf Hi].
    eapply table_ok_update; [by split_and!|done|].
    pose proof (refreshed_failures now (positive_or W loginThrottleWindow) e Hf).
    split; [lia|]. by rewrite refreshed_inFlight.
  - apply makeRoom_table_ok in HM as [H1 H2]; [|done|by apply table_ok_delete].
    eapply reserveIn_table_ok; [..|exact HR]; [|by apply lookup_insert_eq].
    destruct H1 as (? & ? & ?). apply table_ok_insert; auto. by split.
  - by apply makeRoom_table_ok in HM as [H1 H2]; [|done|by apply table_ok_delete].
Qed.

Lemma recordIn_table_ok t key e i now M W B :
  key ≠ "" → table_ok t →
  (is_Some (t.(entries) !! key) ∨ Z.of_nat (size t.(entries)) < t.(maxEntries)) →
  0 ≤ e.(failures) → 0 ≤ i → table_ok (recordIn t key e i now M W B).
Proof.
  intros Hk (? & ? & ?) Hroom Hf Hi. apply table_ok_insert; auto. split; simpl; lia.
Qed.

Lemma dec_inFlight_nonneg n : 0 ≤ n → 0 ≤ dec_inFlight n.
Proof. unfold dec_inFlight. case_match; bprop; lia. Qed.

Lemma recordReserved_table_ok iter t key now M W B :
  enumerates iter → table_ok t →
  table_ok (recordReservedFailureWithPolicy iter t key now M W B).
Proof.
  intros Hit Ht. unfold recordReservedFailureWithPolicy.
  destruct (String.eqb_spec key ""); [done|].
  destruct (t.(entries) !! key) as [e|] eqn:E.
  - destruct (Ht) as (? & ? & Hok). destruct (Hok _ _ E) as [? ?].
    apply recordIn_table_ok; eauto using dec_inFlight_nonneg.
  - destruct (makeRoom iter t now) as [t1 []] eqn:R;
      apply makeRoom_table_ok in R as [? ?]; auto.
    apply recordIn_table_ok; simpl; auto; lia.
Qed.

Lemma recordFailure_table_ok iter t key now M W B :
  enumerates iter → table_ok t → table_ok (recordFailureWithPolicy iter t key now M W B).
Proof.
  intros Hit Ht. unfold recordFailureWithPolicy.
  destruct (String.eqb_spec key ""); [done|].
  destruct (match t.(entries) !! key with None => true | Some _ => _ end) eqn:C.
  - destruct (makeRoom iter t now) as [t1 []] eqn:R;
      apply makeRoom_table_ok in R as [? ?]; auto.
    apply recordIn_table_ok; simpl; auto; lia.
  - destruct (t.(entries) !! key) as [e|] eqn:E; [|done].
    destruct (Ht) as (? & ? & Hok). destruct (Hok _ _ E) as [? ?].
    apply recordIn_table_ok; eauto.
Qed.

Lemma release_table_ok t key : table_ok t → table_ok (releaseReservation t key).
Proof.
  intros Ht. unfold releaseReservation. case_match; [done|].
  destruct (t.(entries) !! key) as [e|] eqn:E; [|done]. simpl.
  case_match; [by apply table_ok_delete|]. eapply table_ok_update; eauto.
  destruct Ht as (? & ? & Hok). destruct (Hok _ _ E). split; simpl; auto using dec_inFlight_nonneg.
Qed.

Lemma clear_table_ok t key : table_ok t → table_ok (clearReservedFailures t key).
Proof.
  intros Ht. unfold clearReservedFailures. case_match; [done|].
  destruct (t.(entries) !! key) as [e|] eqn:E; [|done]. simpl.
  case_match; [by apply table_ok_delete|]. eapply table_ok_update; eauto.
  destruct Ht as (? & ? & Hok). destruct (Hok _ _ E).
  split; simpl; [lia|auto using dec_inFlight_nonneg].
Qed.

Lemma retryAfter_table_ok t key now : table_ok t → table_ok (retryAfter t key now).1.
Proof.
  intros Ht. unfold retryAfter. repeat case_match; simpl; auto using table_ok_delete.
Qed.

(** ** Sequences of operations on one throttle *)

Inductive throttle_op :=
| OpReserve (key : string) (now maxFailures window : Z)
| OpRelease (key : string)
| OpClear (key : string)
| OpReservedFailure (key : string) (now maxFailures window block : Z)
| OpFailure (key : string) (now maxFailures window block : Z)
| OpSuccess (key : string)
| OpRetryAfter (key : string) (now : Z).

Definition apply_op (iter : order) (t : loginThrottle) (op : throttle_op) : loginThrottle :=
  match op with
  | OpReserve k now M W => (tryReserveWithPolicy iter t k now M W).1
  | OpRelease k => releaseReservation t k
  | OpClear k => clearReservedFailures t k
  | OpReservedFailure k now M W B => recordReservedFailureWithPolicy iter t k now M W B
  | OpFailure k now M W B => recordFailureWithPolicy iter t k now M W B
  | OpSuccess k => recordSuccess t k
  | OpRetryAfter k now => (retryAfter t k now).1
  end.

(** Each operation meets its own enumeration of the map. *)
Definition run (t : loginThrottle) (ops : list (order * throttle_op)) : loginThrottle :=
  fold_left (λ t op, apply_op op.1 t op.2) ops t.

Lemma apply_op_table_ok iter t op :
  enumerates iter → table_ok t → table_ok (apply_op iter t op).
Proof.
  intros Hit Ht. destruct op; simpl;
    eauto using release_table_ok, clear_table_ok, recordReserved_table_ok,
      recordFailure_table_ok, retryAfter_table_ok.
  - destruct (tryReserveWithPolicy _ _ _ _ _ _) eqn:E. by eapply tryReserve_table_ok.
  - unfold recordSuccess. case_match; [done|by apply table_ok_delete].
Qed.

Lemma run_table_ok t ops :
  Forall (λ op, enumerates op.1) ops → table_ok t → table_ok (run t ops).
Proof.
  unfold run. intros H. revert t. induction H as [|op ops Hop _ IH]; intros t Ht; [done|].
  simpl. apply IH. by apply apply_op_table_ok.
Qed.

Lemma newLoginThrottle_table_ok n : table_ok (newLoginThrottle n).
Proof.
  split; [done|]. split; [|by apply map_Forall_empty]. simpl. rewrite map_size_empty.
  pose proof (positive_or_pos n defaultLoginThrottleMaxKeys ltac:(done)). simpl; lia.
Qed.

Lemma apply_op_maxEntries iter t op : (apply_op iter t op).(maxEntries) = t.(maxEntries).
Proof.
  destruct op; simpl; unfold tryReserveWithPolicy, releaseReservation, clearReservedFailures,
    recordReservedFailureWithPolicy, recordFailureWithPolicy, recordSuccess, retryAfter,
    reserveIn, recordIn;
    repeat first [ progress simpl
                 | match goal with |- context [makeRoom ?i ?t ?n] =>
                     let E := fresh in destruct (makeRoom i t n) eqn:E;
                     apply makeRoom_maxEntries in E; simpl in E end
                 | case_match ]; simplify_eq/=; auto.
Qed.

Lemma run_maxEntries t ops : (run t ops).(maxEntries) = t.(maxEntries).
Proof.
  unfold run. revert t. induction ops as [|op ops IH]; intros t; [done|].
  simpl. rewrite IH. apply apply_op_maxEntries.
Qed.

(** ** Releasing, clearing and failing a reservation, key by key *)

Definition failures_of (t : loginThrottle) (key : string) : Z :=
  match t.(entries) !! key with Some e => e.(failures) | None => 0 end.

Lemma failures_of_nonneg t key : table_ok t → 0 ≤ failures_of t key.
Proof.
  intros (_ & _ & Hok). unfold failures_of.
  destruct (t.(entries) !! key) as [e|] eqn:E; [by destruct (Hok _ _ E)|done].
Qed.

Lemma tcount_nonneg t key : table_ok t → 0 ≤ tcount t key.
Proof.
  intros (_ & _ & Hok). unfold tcount.
  destruct (t.(entries) !! key) as [e|] eqn:E; [by destruct (Hok _ _ E)|done].
Qed.

Lemma tcount_pos_entry t key :
  0 < tcount t key → ∃ e, t.(entries) !! key = Some e ∧ e.(inFlight) = tcount t key.
Proof. unfold tcount. destruct (t.(entries) !! key) as [e|]; [eauto|lia]. Qed.

Lemma dec_inFlight_pos n : 0 < n → dec_inFlight n = n - 1.
Proof. unfold dec_inFlight. case_match; bprop; lia. Qed.

(** The settlements of one held reservation of a throttle. *)
Definition settlement (t t' : loginThrottle) (key : string) : Prop :=
  (∃ iter now M W B, enumerates iter ∧ t' = recordReservedFailureWithPolicy iter t key now M W B)
  ∨ t' = releaseReservation t key ∨ t' = clearReservedFailures t key.

Lemma settlement_own t t' key :
  table_ok t → key ≠ "" → 0 < tcount t key → settlement t t' key →
  tcount t' key = tcount t key - 1 ∧
  failures_of t' key + tcount t' key ≤ failures_of t key + tcount t key.
Proof.
  intros Ht Hkey Hc HS. pose proof (failures_of_nonneg t key Ht) as Hf.
  destruct (tcount_pos_entry _ _ Hc) as (e & E & Hi).
  unfold tcount, failures_of in *. rewrite E in *. apply String.eqb_neq in Hkey.
  destruct HS as [(iter & now & M & W & B & _ & ->)|[->| ->]].
  - unfold recordReservedFailureWithPolicy, recordIn. rewrite Hkey, E; simpl.
    rewrite lookup_insert_eq; simpl. rewrite dec_inFlight_pos by lia. lia.
  - unfold releaseReservation. rewrite Hkey, E; simpl. rewrite dec_inFlight_pos by lia.
    destruct (_ && _) eqn:?; simpl; rewrite ?lookup_insert_eq, ?lookup_delete_eq; simpl; bprop; lia.
  - unfold clearReservedFailures. rewrite Hkey, E; simpl. rewrite dec_inFlight_pos by lia.
    destruct (_ =? 0) eqn:?; simpl; rewrite ?lookup_insert_eq, ?lookup_delete_eq; simpl; bprop; lia.
Qed.

Lemma settlement_others t t' key k :
  is_Some (t.(entries) !! key) → k ≠ key → settlement t t' key →
  t'.(entries) !! k = t.(entries) !! k.
Proof.
  intros [e E] Hk [(iter & now & M & W & B & _ & ->)|[->| ->]].
  - unfold recordReservedFailureWithPolicy, recordIn. rewrite E. case_match; [done|]. simpl.
    by rewrite lookup_insert_ne.
  - unfold releaseReservation. rewrite E. repeat case_match; simpl; [done|..];
      by rewrite ?lookup_insert_ne, ?lookup_delete_ne.
  - unfold clearReservedFailures. rewrite E. repeat case_match; simpl; [done|..];
      by rewrite ?lookup_insert_ne, ?lookup_delete_ne.
Qed.

(** When the entry of the key is gone, a settlement may make room for a new one. *)
Lemma settlement_kept t t' key k :
  no_empty_key t → k ≠ key → settlement t t' key → ∃ now, kept now (t.(entries) !! k) (t'.(entries) !! k).
Proof.
  intros Hne Hk HS. destruct (t.(entries) !! key) as [e|] eqn:E.
  { exists 0. left. by apply (settlement_others t t' key k); [rewrite E| |]. }
  destruct HS as [(iter & now & M & W & B & Hit & ->)|[->| ->]].
  - exists now. unfold recordReservedFailureWithPolicy, recordIn. rewrite E. case_goal; [auto|].
    destruct (makeRoom iter t now) as [t1 room] eqn:Hm. apply (makeRoom_kept _ _ _ _ _ k Hit Hne) in Hm.
    destruct room; [|done]. simpl. by rewrite lookup_insert_ne.
  - exists 0. left. unfold releaseReservation. rewrite E. by case_goal.
  - exists 0. left. unfold clearReservedFailures. rewrite E. by case_goal.
Qed.

Lemma settlement_table_ok t t' key : table_ok t → settlement t t' key → table_ok t'.
Proof.
  intros Ht [(iter & now & M & W & B & Hit & ->)|[->| ->]];
    auto using recordReserved_table_ok, release_table_ok, clear_table_ok.
Qed.

(** ** Interleaved login attempts on one throttle *)

(** [forgot] has the keys whose entry a retry-after query dropped with attempts in flight. *)
Record sys := mkSys { thr : loginThrottle; held : list string; forgot : gset string }.

(** The reservations held for a key. *)
Definition holding (s : sys) (k : string) : Z := Z.of_nat (count_occ String.string_dec s.(held) k).

(** The query of the key drops an entry that counts attempts in flight. *)
Definition forgets (t : loginThrottle) (k : string) (now : Z) : bool :=
  match t.(entries) !! k, (retryAfter t k now).1.(entries) !! k with
  | Some e, None => 0 <? e.(inFlight)
  | _, _ => false
  end.

Section attempts.
(** The policy that applies to a key. *)
Context (limit window : string → Z).

Inductive attempt_step : sys → sys → Prop :=
| AS_admitted iter t h f k now t' :
    enumerates iter → k ≠ "" →
    tryReserveWithPolicy iter t k now (limit k) (window k) = (t', true) →
    attempt_step (mkSys t h f) (mkSys t' (k :: h) f)
| AS_refused iter t h f k now t' :
    enumerates iter → k ≠ "" →
    tryReserveWithPolicy iter t k now (limit k) (window k) = (t', false) →
    attempt_step (mkSys t h f) (mkSys t' h f)
| AS_retryAfter t h f k now :
    attempt_step (mkSys t h f)
      (mkSys (retryAfter t k now).1 h (if forgets t k now then {[k]} ∪ f else f))
| AS_settled t h1 h2 f k t' :
    k ≠ "" → settlement t t' k →
    attempt_step (mkSys t (h1 ++ k :: h2) f) (mkSys t' (h1 ++ h2) f).

Definition key_ok (s : sys) (k : string) : Prop :=
  tcount s.(thr) k = holding s k ∧
  failures_of s.(thr) k + tcount s.(thr) k ≤ positive_or (limit k) loginThrottleMaxFailures.
Definition attempts_ok (s : sys) : Prop := table_ok s.(thr) ∧ ∀ k, k ∉ s.(forgot) → key_ok s k.

Lemma kept_failures_of now t t' k :
  table_ok t → kept now (t.(entries) !! k) (t'.(entries) !! k) →
  failures_of t' k ≤ failures_of t k.
Proof.
  intros Ht. pose proof (failures_of_nonneg t k Ht). unfold failures_of in *.
  intros [->|(-> & e & E & _)]; [done|]. by rewrite E in *.
Qed.

Lemma reserve_attempts_ok iter t h f k now t' ok :
  enumerates iter → k ≠ "" → attempts_ok (mkSys t h f) →
  tryReserveWithPolicy iter t k now (limit k) (window k) = (t', ok) →
  attempts_ok (mkSys t' (if ok then k :: h else h) f).
Proof.
  intros Hit Hk (Ht & Hs) H. split; [by eapply tryReserve_table_ok|]. simpl in *. intros k' Hf.
  specialize (Hs k' Hf). unfold key_ok, holding in *; simpl in *.
  destruct (decide (k' = k)) as [->|Hne].
  - destruct (tryReserve_own _ _ _ _ _ _ _ _ Hit Ht Hk H) as (Hc & He & Hs').
    rewrite Hc. split.
    { destruct ok; [|lia]. rewrite count_occ_cons_eq by done. lia. }
    unfold tcount, failures_of in *.
    destruct (t'.(entries) !! k) as [e'|] eqn:E'.
    + destruct (He _ eq_refl) as (? & ? & Hb).
      destruct ok; [specialize (Hb eq_refl); lia|].
      destruct (t.(entries) !! k); simpl in *; lia.
    + destruct ok; [destruct Hs' as [[? ?] _]; [done|congruence]|]. 
      pose proof (positive_or_pos (limit k) loginThrottleMaxFailures ltac:(done)). lia.
  - pose proof (tryReserve_others _ _ _ _ _ _ _ _ k' Hit (proj1 Ht) Hk Hne H) as Hkept.
    rewrite (kept_tcount _ _ _ _ (proj2 (proj2 Ht)) Hkept).
    pose proof (kept_failures_of _ _ _ _ Ht Hkept).
    split; [|lia]. destruct ok; [rewrite count_occ_cons_neq by done|]; lia.
Qed.

Lemma settled_attempts_ok t h1 h2 f k t' :
  k ≠ "" → attempts_ok (mkSys t (h1 ++ k :: h2) f) → settlement t t' k →
  attempts_ok (mkSys t' (h1 ++ h2) f).
Proof.
  intros Hk (Ht & Hs) H. split; [by eapply settlement_table_ok|]. simpl in *.
  intros k' Hf. specialize (Hs k' Hf). unfold key_ok, holding in *; simpl in *. rewrite count_occ_app in *.
  destruct (decide (k' = k)) as [->|Hne].
  - rewrite count_occ_cons_eq in Hs by done. assert (0 < tcount t k) as Hpos by lia.
    destruct (settlement_own _ _ _ Ht Hk Hpos H) as (Hc & Hf'). lia.
  - destruct (settlement_kept _ _ _ k' (proj1 Ht) Hne H) as (now & Hkept).
    rewrite (kept_tcount _ _ _ _ (proj2 (proj2 Ht)) Hkept).
    pose proof (kept_failures_of _ _ _ _ Ht Hkept). rewrite count_occ_cons_neq in Hs by done. lia.
Qed.

(** A query leaves the table, or drops its own entry once that is not blocked. *)
Lemma retryAfter_cases t k now : (retryAfter t k now).1 = t ∨ ∃ e, t.(entries) !! k = Some e ∧
  loginThrottleEntryBlocked (Some e) now = false ∧ (retryAfter t k now).1 = set_entries t (delete k t.(entries)).
Proof.
  unfold retryAfter. destruct (String.eqb k ""); [by left|]. destruct (t.(entries) !! k) as [e|]; [|by left].
  destruct (negb _ && _) eqn:Eb; [by left|]. destruct (loginThrottleEntryExpired (Some e) now); [|by left].
  right. by exists e.
Qed.

(** A query that forgets nothing keeps or drops its entry like a pruning does. *)
Lemma retryAfter_kept t k now k' :
  k' ≠ k ∨ forgets t k now = false → kept now (t.(entries) !! k') ((retryAfter t k now).1.(entries) !! k').
Proof.
  unfold forgets. destruct (retryAfter_cases t k now) as [->|(e & E & Hb & ->)]; [auto|]. simpl. rewrite lookup_delete_eq, E.
  intros Hcase. destruct (decide (k' = k)) as [->|Hne]; [|rewrite lookup_delete_ne by done; auto].
  rewrite lookup_delete_eq, E. right. split; [done|]. exists e. destruct Hcase as [|Hz]; [done|]. by apply Z.ltb_ge in Hz.
Qed.

Lemma retryAfter_attempts_ok t h f k now :
  attempts_ok (mkSys t h f) → attempts_ok (mkSys (retryAfter t k now).1 h (if forgets t k now then {[k]} ∪ f else f)).
Proof.
  intros (Ht & Hs). split; [by apply retryAfter_table_ok|]. simpl in *. intros k' Hf.
  assert (k' ∉ f ∧ (k' ≠ k ∨ forgets t k now = false)) as [Hf' Hcase].
  { destruct (forgets t k now); [|auto]. apply not_elem_of_union in Hf as [H1 H2]. rewrite not_elem_of_singleton in H1. auto. }
  destruct (Hs k' Hf') as [H1 H2]. unfold key_ok, holding in *; simpl in *. pose proof (retryAfter_kept t k now k' Hcase) as Hkept.
  rewrite (kept_tcount _ _ _ _ (proj2 (proj2 Ht)) Hkept). pose proof (kept_failures_of _ _ _ _ Ht Hkept). lia.
Qed.

Lemma attempt_step_ok s s' : attempt_step s s' → attempts_ok s → attempts_ok s'.
Proof.
  intros [iter t h f k now t' Hit Hk H|iter t h f k now t' Hit Hk H|t h f k now|t h1 h2 f k t' Hk H] Hs;
    eauto using settled_attempts_ok, retryAfter_attempts_ok.
  - by apply (reserve_attempts_ok iter t h f k now t' true).
  - by apply (reserve_attempts_ok iter t h f k now t' false).
Qed.

Lemma attempts_ok_init n : attempts_ok (mkSys (newLoginThrottle n) [] ∅).
Proof.
  split; [apply newLoginThrottle_table_ok|]. intros k _. unfold key_ok, tcount, failures_of, holding.
  simpl. rewrite lookup_empty.
  pose proof (positive_or_pos (limit k) loginThrottleMaxFailures ltac:(done)). lia.
Qed.
End attempts.

(** ** Blocks survive every operation but a success *)

Definition blocked_until (t : loginThrottle) (k : string) (T : Z) : Prop :=
  ∃ e, t.(entries) !! k = Some e ∧ T ≤ e.(blockedUntil) ∧ e.(blockedUntil) ≠ 0.

(** An operation that happens before [T], is not a success of [k], and whose
    own block of [k], if it sets one, reaches [T]. *)
Definition before_end (k : string) (T : Z) (op : throttle_op) : Prop :=
  match op with
  | OpReserve _ now _ _ | OpRetryAfter _ now => now < T
  | OpRelease _ => True
  | OpClear k' | OpSuccess k' => k' ≠ k
  | OpReservedFailure k' now _ _ B | OpFailure k' now _ _ B =>
      now < T ∧ (k' = k → T ≤ now + positive_or B loginThrottleBlock ∧ 0 < now)
  end.

Lemma blocked_until_blocked t k T now :
  blocked_until t k T → now < T → loginThrottleEntryBlocked (t.(entries) !! k) now = true.
Proof.
  intros (e & -> & ? & ?) ?. unfold loginThrottleEntryBlocked, is_zero_time, before.
  rewrite andb_true_iff, negb_true_iff, Z.eqb_neq, Z.ltb_lt. lia.
Qed.

Lemma kept_blocked t t' k T now :
  blocked_until t k T → now < T → kept now (t.(entries) !! k) (t'.(entries) !! k) →
  blocked_until t' k T.
Proof.
  intros Hb Hn [E|(_ & e & E & _ & B)].
  - destruct Hb as (e & He & ?). exists e. by rewrite E, He.
  - pose proof (blocked_until_blocked _ _ _ _ Hb Hn) as H. rewrite E in H. congruence.
Qed.

Lemma recordIn_blocked t k T e i now M W B :
  T ≤ now + B → 0 < now → 0 < B → T ≤ e.(blockedUntil) ∧ e.(blockedUntil) ≠ 0 →
  blocked_until (recordIn t k e i now M W B) k T.
Proof.
  intros. unfold recordIn. eexists. simpl. rewrite lookup_insert_eq. split; [done|]. simpl.
  case_match; lia.
Qed.

Lemma recordIn_others t k k' T e i now M W B :
  blocked_until t k T → k' ≠ k → blocked_until (recordIn t k' e i now M W B) k T.
Proof.
  intros (e' & E & ?) ?. exists e'. unfold recordIn; simpl. by rewrite lookup_insert_ne.
Qed.

Lemma blocked_until_key t k T : table_ok t → blocked_until t k T → k ≠ "".
Proof. intros (Hne & _) (e & E & _) ->. unfold no_empty_key in Hne. congruence. Qed.

Section keeps_block.
Context (iter : order) (t : loginThrottle) (k : string) (T : Z).
Context (Hit : enumerates iter) (Ht : table_ok t) (Hb : blocked_until t k T).

Lemma makeRoom_blocked now t1 room :
  now < T → makeRoom iter t now = (t1, room) → blocked_until t1 k T.
Proof using Hit Ht Hb.
  intros Hn R. eapply kept_blocked; [done..|]. eapply makeRoom_kept; [done|apply Ht|done].
Qed.

Lemma tryReserve_blocked k' now M W :
  now < T → blocked_until (tryReserveWithPolicy iter t k' now M W).1 k T.
Proof using Hit Ht Hb.
  intros Hn. destruct (tryReserveWithPolicy iter t k' now M W) as [t' ok] eqn:E. simpl.
  destruct (decide (k' = "")) as [->|?].
  { unfold tryReserveWithPolicy in E. simpl in E. by simplify_eq. }
  destruct (decide (k = k')) as [<-|?].
  - apply tryReserve_outcome in E; [|done].
    pose proof (blocked_until_blocked _ _ _ _ Hb Hn) as HB.
    destruct E as [|e ok t' E B _|t1 ok t' _ B _ _|t1 _ B _]; [done|..];
      rewrite ?E in HB; congruence.
  - eapply kept_blocked; [done..|]. eapply tryReserve_others; eauto. apply Ht.
Qed.

Lemma release_blocked k' : blocked_until (releaseReservation t k') k T.
Proof using Hb.
  destruct Hb as (e & E & ? & Hz). unfold releaseReservation. case_match; [by exists e|].
  destruct (decide (k = k')) as [<-|].
  - rewrite E. simpl. unfold is_zero_time. rewrite (proj2 (Z.eqb_neq _ _) Hz), andb_false_r.
    eexists. simpl. rewrite lookup_insert_eq. by split.
  - exists e. repeat case_match; simpl;
      rewrite ?lookup_insert_ne, ?lookup_delete_ne by done; auto.
Qed.

Lemma clear_blocked k' : k' ≠ k → blocked_until (clearReservedFailures t k') k T.
Proof using Hb.
  destruct Hb as (e & E & ?). intros. unfold clearReservedFailures. exists e.
  repeat case_match; simpl; rewrite ?lookup_insert_ne, ?lookup_delete_ne by done; auto.
Qed.

(** Recording a failure of another key after making room. *)
Lemma record_fresh_blocked k' now e i M W B :
  now < T → k' ≠ k →
  blocked_until (let '(t, room) := makeRoom iter t now in
                 if room then recordIn t k' e i now M W B else t) k T.
Proof using Hit Ht Hb.
  intros Hn Hk. destruct (makeRoom iter t now) as [t1 room] eqn:R.
  apply makeRoom_blocked in R; [|done]. destruct room; [by apply recordIn_others|done].
Qed.

Lemma recordReserved_blocked k' now M W B :
  now < T → (k' = k → T ≤ now + positive_or B loginThrottleBlock ∧ 0 < now) →
  blocked_until (recordReservedFailureWithPolicy iter t k' now M W B) k T.
Proof using Hit Ht Hb.
  intros Hn Hop. unfold recordReservedFailureWithPolicy. case_match; [done|].
  destruct (decide (k' = k)) as [->|].
  - destruct (Hb) as (e & E & ?). rewrite E. destruct Hop; [done|].
    apply recordIn_blocked; auto. by apply positive_or_pos.
  - destruct (t.(entries) !! k') eqn:E'; [by apply recordIn_others|].
    by apply record_fresh_blocked.
Qed.

Lemma recordFailure_blocked k' now M W B :
  now < T → (k' = k → T ≤ now + positive_or B loginThrottleBlock ∧ 0 < now) →
  blocked_until (recordFailureWithPolicy iter t k' now M W B) k T.
Proof using Hit Ht Hb.
  intros Hn Hop. unfold recordFailureWithPolicy. case_match; [done|].
  destruct (decide (k' = k)) as [->|].
  - destruct (Hb) as (e & E & ?). pose proof (blocked_until_blocked _ _ _ _ Hb Hn) as HB.
    rewrite E in *. rewrite HB; simpl. destruct Hop; [done|].
    apply recordIn_blocked; auto. by apply positive_or_pos.
  - destruct (match t.(entries) !! k' with None => true | Some _ => _ end);
      [by apply record_fresh_blocked|]. case_match; [by apply recordIn_others|done].
Qed.

Lemma retryAfter_blocked k' now : now < T → blocked_until (retryAfter t k' now).1 k T.
Proof using Hb.
  intros Hn. unfold retryAfter. case_match; [done|].
  destruct (t.(entries) !! k') as [e'|] eqn:E'; [|done].
  destruct (_ && _) eqn:C; [done|]. case_match; [|done]. simpl.
  destruct (decide (k = k')) as [<-|].
  - pose proof (blocked_until_blocked _ _ _ _ Hb Hn) as HB. rewrite E' in HB.
    unfold loginThrottleEntryBlocked in HB. congruence.
  - destruct Hb as (e & E & ?). exists e. simpl. by rewrite lookup_delete_ne.
Qed.

Lemma apply_op_blocked op : before_end k T op → blocked_until (apply_op iter t op) k T.
Proof using Hit Ht Hb.
  destruct op; simpl; intros Hop;
    try solve [eauto using tryReserve_blocked, release_blocked, clear_blocked, retryAfter_blocked
              |destruct Hop; eauto using recordReserved_blocked, recordFailure_blocked].
  destruct Hb as (e & E & ?). unfold recordSuccess. case_match; [by exists e|].
  exists e. simpl. by rewrite lookup_delete_ne.
Qed.
End keeps_block.

Lemma run_blocked t ops k T :
  Forall (λ op, enumerates op.1 ∧ before_end k T op.2) ops → table_ok t →
  blocked_until t k T → blocked_until (run t ops) k T.
Proof.
  unfold run. intros H. revert t. induction H as [|op ops [Hit Hop] _ IH]; intros t Ht Hb; [done|].
  simpl. apply IH; [by apply apply_op_table_ok|by apply apply_op_blocked].
Qed.

Lemma reserve_refused iter t k T now M W :
  k ≠ "" → blocked_until t k T → now < T → tryReserveWithPolicy iter t k now M W = (t, false).
Proof.
  intros Hk Hb Hn. unfold tryReserveWithPolicy.
  rewrite (proj2 (String.eqb_neq k "")) by done.
  by rewrite (blocked_until_blocked _ _ _ _ Hb Hn).
Qed.

(** ** Accounting over the heap of throttles *)

Definition in_flight (h : heap) (p : positive) (k : string) : Z :=
  match h !! p with Some t => tcount t k | None => 0 end.

Definition heap_ok (h : heap) : Prop := map_Forall (λ _ t, table_ok t) h.

Definition valid_ptr (h : heap) (p : option positive) : Prop :=
  match p with None => True | Some q => is_Some (h !! q) end.

(** The in-flight units a reservation accounts for at a pointer and key. *)
Definition unit_at (q : option positive) (key : string) (p : positive) (k : string) : Z :=
  if bool_decide (q = Some p ∧ key = k ∧ k ≠ "") then 1 else 0.

Definition holds (r : option loginThrottleReservation) (p : positive) (k : string) : Z :=
  match r with
  | None => 0
  | Some r => unit_at r.(usernameThrottle) r.(usernameKey) p k
              + unit_at r.(clientThrottle) r.(clientKey) p k
  end.

Lemma unit_at_nonneg q key p k : 0 ≤ unit_at q key p k.
Proof. unfold unit_at. case_match; lia. Qed.

Lemma tcount_empty t : table_ok t → tcount t "" = 0.
Proof. intros (Hne & _). unfold tcount. by rewrite Hne. Qed.

(** One reservation attempt through a pointer. *)
Lemma call_reserve h q key now M W iter h' ok :
  enumerates iter → heap_ok h → valid_ptr h q →
  call h q true (λ t, tryReserveWithPolicy iter t key now M W) = (h', ok) →
  heap_ok h' ∧ (∀ q', valid_ptr h q' → valid_ptr h' q') ∧
  ∀ p k, in_flight h' p k = in_flight h p k + (if ok then unit_at q key p k else 0).
Proof.
  intros Hit Hh Hq H. unfold call in H. destruct q as [q|]; simpl in *.
  2: { simplify_eq. unfold unit_at. split_and!; auto. intros. rewrite bool_decide_eq_false_2 by naive_solver. lia. }
  destruct Hq as [t Hqt]. rewrite Hqt in H.
  destruct (tryReserveWithPolicy iter t key now M W) as [t' ok'] eqn:E. simplify_eq.
  assert (table_ok t) as Ht by (by eapply Hh). split; [|split].
  - apply map_Forall_insert_2; [by eapply tryReserve_table_ok|done].
  - intros [q'|]; [|done]. simpl. intros [t0 ?].
    destruct (decide (q = q')) as [->|]; [rewrite lookup_insert_eq; eauto|].
    rewrite lookup_insert_ne by done. eauto.
  - intros p k. unfold in_flight, unit_at. destruct (decide (q = p)) as [->|].
    2: { rewrite lookup_insert_ne, bool_decide_eq_false_2 by naive_solver. by case_match; destruct ok; lia. }
    rewrite lookup_insert_eq, Hqt. destruct (decide (key = "")) as [->|Hkey].
    { unfold tryReserveWithPolicy in E. simpl in E. simplify_eq.
      rewrite bool_decide_eq_false_2 by naive_solver. lia. }
    destruct (decide (k = key)) as [->|].
    + destruct (tryReserve_own _ _ _ _ _ _ _ _ Hit Ht Hkey E) as [-> _].
      rewrite bool_decide_eq_true_2 by done. done.
    + rewrite bool_decide_eq_false_2 by naive_solver.
      rewrite (kept_tcount now t t' k); [by destruct ok; lia|apply Ht|].
      eapply tryReserve_others; eauto. apply Ht.
Qed.

(** One settlement through a pointer. *)
Lemma call_settle h q key f :
  (∀ t, table_ok t → settlement t (f t) key) →
  (∀ t, key = "" → f t = t) →
  heap_ok h → (∀ p k, unit_at q key p k ≤ in_flight h p k) →
  heap_ok (call_ h q f) ∧
  (∀ p k, in_flight (call_ h q f) p k = in_flight h p k - unit_at q key p k).
Proof.
  intros Hf Hempty Hh Hle. unfold call_, call. destruct q as [q|]; simpl in *.
  2: { unfold unit_at. split; [done|]. intros. rewrite bool_decide_eq_false_2 by naive_solver. lia. }
  destruct (h !! q) as [t|] eqn:Hqt; simpl.
  2: { split; [done|]. intros p k. specialize (Hle p k). pose proof (unit_at_nonneg (Some q) key p k).
       unfold in_flight, unit_at in *. case_bool_decide as Hb; [|lia].
       destruct Hb as ([= ->] & _). rewrite Hqt in *. lia. }
  assert (table_ok t) as Ht by (by eapply Hh). split.
  { apply map_Forall_insert_2; [by eapply settlement_table_ok; [|apply Hf]|done]. }
  intros p k. pose proof (Hle p key) as Hle'. specialize (Hle p k). unfold in_flight, unit_at in *.
  destruct (decide (q = p)) as [->|].
  2: { rewrite lookup_insert_ne, bool_decide_eq_false_2 by naive_solver. by case_match; lia. }
  rewrite Hqt in *. rewrite lookup_insert_eq. destruct (decide (key = "")) as [->|Hkey].
  { rewrite Hempty, bool_decide_eq_false_2 by naive_solver. lia. }
  destruct (decide (k = key)) as [->|Hne].
  - rewrite bool_decide_eq_true_2 in * by done.
    destruct (settlement_own t (f t) key Ht Hkey ltac:(lia) (Hf _ Ht)) as [-> _]. done.
  - rewrite bool_decide_eq_false_2 by naive_solver.
    rewrite bool_decide_eq_true_2 in Hle' by done.
    destruct (tcount_pos_entry t key ltac:(lia)) as (e & E & _). unfold tcount.
    rewrite (settlement_others t (f t) key k); [lia|eauto|done|auto].
Qed.

(** The settlement of a whole reservation: both buckets give their unit back. *)
Lemma settle_both h r fu fc :
  (∀ t, table_ok t → settlement t (fu t) r.(usernameKey)) →
  (∀ t, r.(usernameKey) = "" → fu t = t) →
  (∀ t, table_ok t → settlement t (fc t) r.(clientKey)) →
  (∀ t, r.(clientKey) = "" → fc t = t) →
  heap_ok h → (∀ p k, holds (Some r) p k ≤ in_flight h p k) →
  ∀ p k, in_flight (call_ (call_ h r.(usernameThrottle) fu) r.(clientThrottle) fc) p k
         = in_flight h p k - holds (Some r) p k.
Proof.
  intros Hu Hu0 Hc Hc0 Hh Hle p k. simpl in Hle.
  destruct (call_settle h r.(usernameThrottle) r.(usernameKey) fu Hu Hu0 Hh) as [Hh1 H1].
  { intros p' k'. specialize (Hle p' k').
    pose proof (unit_at_nonneg r.(clientThrottle) r.(clientKey) p' k'). lia. }
  destruct (call_settle _ r.(clientThrottle) r.(clientKey) fc Hc Hc0 Hh1) as [_ H2].
  { intros p' k'. rewrite H1. specialize (Hle p' k'). lia. }
  rewrite H2, H1. simpl. lia.
Qed.

Lemma release_settles t key : settlement t (releaseReservation t key) key.
Proof. right. by left. Qed.
Lemma clear_settles t key : settlement t (clearReservedFailures t key) key.
Proof. right. by right. Qed.
Lemma fail_settles iter t key now M W B :
  enumerates iter → settlement t (recordReservedFailureWithPolicy iter t key now M W B) key.
Proof. left. eauto 10. Qed.
Lemma release_empty t key : key = "" → releaseReservation t key = t.
Proof. by intros ->. Qed.
Lemma clear_empty t key : key = "" → clearReservedFailures t key = t.
Proof. by intros ->. Qed.
Lemma fail_empty iter t key now M W B :
  key = "" → recordReservedFailureWithPolicy iter t key now M W B = t.
Proof. by intros ->. Qed.
#[local] Hint Resolve release_settles clear_settles fail_settles release_empty clear_empty fail_empty : core.

Lemma reserve_in_flight iter h pu pc ku kc now pol h' r :
  enumerates iter → heap_ok h → valid_ptr h pu → valid_ptr h pc →
  reserveLoginThrottleAttemptWithPolicy iter h pu pc ku kc now pol = (h', r) →
  heap_ok h' ∧ ∀ p k, in_flight h' p k = in_flight h p k + holds r p k.
Proof.
  intros Hit Hh Hu Hc H. unfold reserveLoginThrottleAttemptWithPolicy in H. simpl in H.
  destruct (call h pu true _) as [h1 ok1] eqn:E1.
  apply call_reserve in E1 as (Hh1 & Hv1 & H1); [|done..].
  destruct ok1; simpl in H.
  2: { simplify_eq. split; [done|]. intros. rewrite H1. simpl. lia. }
  case_bool_decide as Hsame.
  { simplify_eq. split; [done|]. intros. rewrite H1. simpl. unfold unit_at at 3.
    rewrite bool_decide_eq_false_2 by naive_solver. lia. }
  destruct (call h1 pc true _) as [h2 ok2] eqn:E2.
  apply call_reserve in E2 as (Hh2 & Hv2 & H2); [|auto..].
  destruct ok2; simpl in H; simplify_eq.
  { split; [done|]. intros. rewrite H2, H1. simpl. lia. }
  destruct (call_settle h2 pu ku (λ t, releaseReservation t ku)) as [Hh3 H3]; auto.
  { intros p k. rewrite H2, H1. enough (0 ≤ in_flight h p k) by lia. unfold in_flight.
    destruct (h !! p) as [t|] eqn:E; [|done]. apply tcount_nonneg. by eapply Hh. }
  split; [done|]. intros. rewrite H3, H2, H1. simpl. lia.
Qed.

(** ** Which entry is evicted *)

Definition locked (now : Z) (e : loginThrottleEntry) : bool :=
  loginThrottleEntryBlocked (Some e) now || (0 <? e.(inFlight)).

(** A scan of [l] from the candidate [ok] (none when empty) of age [os] picks
    [k] of age [z]: an unlocked entry or the candidate, at least as old as both. *)
Record picks (now : Z) (l : list (string * loginThrottleEntry)) (ok : string) (os : Z)
    (k : string) (z : Z) : Prop := {
  picks_from : (k = ok ∧ z = os ∧ ok ≠ "") ∨
               (∃ e, (k, e) ∈ l ∧ locked now e = false ∧ z = e.(windowStart));
  picks_candidate : ok ≠ "" → z ≤ os;
  picks_oldest : ∀ k' e', (k', e') ∈ l → locked now e' = false → z ≤ e'.(windowStart);
}.

Lemma picks_skip now key e l ok os k z :
  picks now l ok os k z → (locked now e = true ∨ ok ≠ "" ∧ os ≤ e.(windowStart)) →
  picks now ((key, e) :: l) ok os k z.
Proof.
  intros [Hf Hc Ho] H. split; [|done|].
  - destruct Hf as [|(e0 & ? & ?)]; [auto|]. right. exists e0. split; [by right|done].
  - intros k' e' [[= -> ->]|]%elem_of_cons ?; [|eauto].
    destruct H as [|[? ?]]; [congruence|]. specialize (Hc ltac:(done)). lia.
Qed.

Lemma picks_take now key e l ok os k z :
  key ≠ "" → locked now e = false → (ok ≠ "" → e.(windowStart) ≤ os) →
  picks now l key e.(windowStart) k z → picks now ((key, e) :: l) ok os k z.
Proof.
  intros Hk Hl Hos [Hf Hc Ho]. specialize (Hc Hk). split.
  - right. destruct Hf as [(-> & -> & _)|(e0 & ? & ?)]; [exists e; split; [left|done]|].
    exists e0. split; [by right|done].
  - intros. specialize (Hos ltac:(done)). lia.
  - intros k' e' [[= -> ->]|]%elem_of_cons ?; [lia|eauto].
Qed.

Definition has_prunable (now : Z) (l : list (string * loginThrottleEntry)) (r : option string) : Prop :=
  ∃ k e, (k, e) ∈ l ∧ prunable now e = true ∧ r = Some k.

Lemma has_prunable_cons now x l r : has_prunable now l r → has_prunable now (x :: l) r.
Proof. intros (k & e & ? & ?). exists k, e. split; [by right|done]. Qed.

Lemma evictScan_sound now l ok os :
  (∀ e, ("", e) ∉ l) →
  has_prunable now l (evictScan now l ok os) ∨
  match evictScan now l ok os with
  | None => ok = "" ∧ ∀ k' e', (k', e') ∈ l → locked now e' = true
  | Some k => ∃ z, picks now l ok os k z
  end.
Proof.
  revert ok os. induction l as [|[key e] l IH]; intros ok os Hl; simpl.
  { right. destruct (String.eqb_spec ok ""); [split; [done|set_solver]|].
    exists os. split; [by left|done|set_solver]. }
  assert (key ≠ "") as Hkey by (intros ->; by apply (Hl e); left).
  assert (∀ e0, ("", e0) ∉ l) as Hl' by (intros e0 ?; apply (Hl e0); by right).
  destruct (prunable now e) eqn:P.
  { left. exists key, e. split; [left|done]. }
  fold (locked now e). destruct (locked now e) eqn:L.
  - destruct (IH ok os Hl') as [|HS]; [left; by apply has_prunable_cons|]. right. case_match.
    + destruct HS as [z ?]. exists z. apply picks_skip; auto.
    + destruct HS as [-> Hm]. split; [done|]. intros k' e' [[= -> ->]|]%elem_of_cons; eauto.
  - destruct (String.eqb ok "" || before e.(windowStart) os) eqn:C.
    + destruct (IH key e.(windowStart) Hl') as [|HS]; [left; by apply has_prunable_cons|].
      right. case_match; [|by destruct HS]. destruct HS as [z ?]. exists z.
      apply picks_take; auto. unfold before in C. intros. bprop. destruct C; bprop; [done|lia].
    + unfold before in C. bprop. destruct (IH ok os Hl') as [|HS]; [left; by apply has_prunable_cons|].
      right. case_match; [|by destruct HS]. destruct HS as [z ?]. exists z. apply picks_skip; auto.
Qed.

(** ** Theorems *)

Lemma enumerates_self : enumerates map_to_list.
Proof. by intros m. Qed.
#[local] Hint Resolve enumerates_self : core.

(** C37: Interleave any number of concurrent login attempts on a throttle that
    starts empty, each admitted attempt being settled once by a release, a
    success or a recorded failure, with retry-after queries of refused
    attempts at any time, whatever the clock readings and the map iteration
    orders.  For every key whose entry no query dropped with attempts in
    flight, the throttle counts exactly the attempts in flight, and recorded
    failures plus attempts in flight never exceed the limit of the policy, so
    concurrency cannot be used to guess more passwords than the limit before a
    block.  Management logins make no such queries, so that there it holds for
    every key; public-access logins do, and a query can forget attempts in
    flight (login_retry_after_forgets). *)
Theorem login_attempts_bounded limit window n s k :
  rtc (attempt_step limit window) (mkSys (newLoginThrottle n) [] ∅) s → k ∉ s.(forgot) →
  tcount s.(thr) k = holding s k ∧
  failures_of s.(thr) k + holding s k ≤ positive_or (limit k) loginThrottleMaxFailures.
Proof.
  intros H Hk. assert (attempts_ok limit s) as [_ Hs].
  { eapply (rtc_invariant (attempt_step limit window)); [|exact H|apply attempts_ok_init].
    intros. by eapply attempt_step_ok. }
  destruct (Hs k Hk) as [H1 H2]. lia.
Qed.

Lemma login_attempts_bounded_witness :
  let t := (tryReserveWithPolicy map_to_list (newLoginThrottle 2) "u" 7 5 0).1 in
  let s := mkSys (retryAfter t "u" 8).1 ["u"] ∅ in
  tcount s.(thr) "u" = holding s "u" ∧ failures_of s.(thr) "u" + holding s "u" ≤ 5.
Proof.
  set (t := (tryReserveWithPolicy map_to_list (newLoginThrottle 2) "u" 7 5 0).1).
  refine (login_attempts_bounded (λ _, 5) (λ _, 0) 2 (mkSys (retryAfter t "u" 8).1 ["u"] ∅) "u" _ _).
  - eapply rtc_l; [|apply rtc_once, (AS_retryAfter _ _ t ["u"] ∅ "u" 8)].
    apply (AS_admitted _ _ map_to_list _ _ _ _ 7); [auto|done|vm_compute; reflexivity].
  - apply not_elem_of_empty.
Defined.

(** Once a recorded failure reaches the limit, every later attempt on that
    key before the end of the block is refused, whatever operations, on this
    or other keys, happen in between (pruning, eviction, other failures,
    releases, retry-after queries), as long as they happen before the end of
    the block and none of them is a success of that key. *)
Theorem login_lockout iter t k e now M W B ops iter' now' M' W' :
  enumerates iter → table_ok t → k ≠ "" → 0 < now →
  t.(entries) !! k = Some e → positive_or M loginThrottleMaxFailures ≤ e.(failures) + 1 →
  let T := now + positive_or B loginThrottleBlock in
  Forall (λ op, enumerates op.1 ∧ before_end k T op.2) ops → now' < T →
  let t' := run (recordReservedFailureWithPolicy iter t k now M W B) ops in
  tryReserveWithPolicy iter' t' k now' M' W' = (t', false).
Proof.
  intros Hit Ht Hk Hn E HM T Hops Hn' t'.
  assert (blocked_until t' k T); [|by eapply reserve_refused].
  apply run_blocked; [done|by apply recordReserved_table_ok|].
  unfold recordReservedFailureWithPolicy. rewrite (proj2 (String.eqb_neq k "")), E by done.
  unfold recordIn. eexists; simpl. rewrite lookup_insert_eq. split; [done|]. simpl.
  rewrite (proj2 (Z.leb_le _ _) HM).
  pose proof (positive_or_pos B loginThrottleBlock ltac:(done)). lia.
Qed.

(** A throttle with one key one failure away from the block. *)
Definition login_example : loginThrottle :=
  mkThrottle {[ "u" := mkEntry 4 1 100 loginThrottleWindow 0 ]} 2.

Lemma login_example_ok : table_ok login_example.
Proof. split; [done|]. split; [vm_compute; congruence|]. by apply map_Forall_singleton. Qed.

Lemma login_lockout_witness :
  let t' := run (recordReservedFailureWithPolicy map_to_list login_example "u" 200 5 0 0)
              [(map_to_list, OpReserve "v" 300 5 0); (map_to_list, OpReserve "w" 400 5 0)] in
  tryReserveWithPolicy map_to_list t' "u" (loginThrottleBlock + 199) 5 0 = (t', false).
Proof.
  refine (login_lockout map_to_list login_example "u" (mkEntry 4 1 100 loginThrottleWindow 0)
    200 5 0 0 _ map_to_list (loginThrottleBlock + 199) 5 0 _ login_example_ok _ _ _ _ _ _);
    [auto|done|done|vm_compute; reflexivity|vm_compute; congruence| |vm_compute; reflexivity].
  repeat constructor; simpl; auto; vm_compute; reflexivity.
Defined.

(** The two-bucket reservation of an attempt is all or nothing and is
    undone by its settlement.  A refused attempt leaves the in-flight count of
    every key of every throttle as it was (the unit already taken from the
    username bucket is given back); an admitted attempt settled by a release,
    a recorded failure or a success also restores every in-flight count.  The
    throttles may be nil, distinct or the same object. *)
Theorem login_reservation_roundtrip iter h pu pc ku kc now pol h' r :
  enumerates iter → heap_ok h → valid_ptr h pu → valid_ptr h pc →
  reserveLoginThrottleAttemptWithPolicy iter h pu pc ku kc now pol = (h', r) →
  ∀ p k,
  match r with
  | None => in_flight h' p k = in_flight h p k
  | Some r =>
      in_flight (release h' r).1 p k = in_flight h p k ∧
      in_flight (reservationRecordSuccess h' r).1 p k = in_flight h p k ∧
      ∀ iter' now', enumerates iter' →
        in_flight (recordFailure iter' h' r now').1 p k = in_flight h p k
  end.
Proof.
  intros Hit Hh Hu Hc H p k. pose proof H as H'.
  apply reserve_in_flight in H as [Hh' Hacc]; [|done..].
  destruct r as [r|]; [|rewrite Hacc; simpl; lia].
  assert (r.(settled) = false) as Hs.
  { unfold reserveLoginThrottleAttemptWithPolicy in H'. simpl in H'.
    repeat case_hyp H'; by simplify_eq. }
  assert (∀ p k, holds (Some r) p k ≤ in_flight h' p k) as Hle.
  { intros p' k'. rewrite Hacc. enough (0 ≤ in_flight h p' k') by lia. unfold in_flight.
    destruct (h !! p') as [t|] eqn:E; [|done]. apply tcount_nonneg. by eapply Hh. }
  unfold release, reservationRecordSuccess, recordFailure. rewrite Hs. simpl.
  split_and!; [..|intros iter' now' Hit'];
    rewrite (settle_both h' r), Hacc by (auto using fail_settles, fail_empty); lia.
Qed.

Lemma login_reservation_roundtrip_witness :
  let h : gmap positive loginThrottle :=
    {[ 1%positive := newLoginThrottle 3; 2%positive := newLoginThrottle 3 ]} in
  let hr := reserveLoginThrottleAttemptWithPolicy map_to_list h (Some 1%positive)
              (Some 2%positive) "user" "client" 7 defaultLoginThrottlePolicy in
  match hr.2 with
  | Some r => in_flight (release hr.1 r).1 1%positive "user" = 0
  | None => False
  end.
Proof.
  intros h hr.
  assert (heap_ok h) as Hh.
  { apply map_Forall_insert_2; [apply newLoginThrottle_table_ok|].
    apply map_Forall_singleton, newLoginThrottle_table_ok. }
  pose proof (login_reservation_roundtrip map_to_list h (Some 1%positive) (Some 2%positive)
    "user" "client" 7 defaultLoginThrottlePolicy hr.1 hr.2
    enumerates_self Hh (mk_is_Some _ _ eq_refl) (mk_is_Some _ _ eq_refl)
    (surjective_pairing _) 1%positive "user") as H.
  vm_compute in H |- *. exact (proj1 H).
Defined.

(** The table never holds more keys than its bound, never the empty key
    and never a negative counter, after any sequence of operations (the
    reservation operations, the direct ones and the retry-after query), for
    any iteration orders. *)
Theorem login_table_bounded n ops :
  Forall (λ op, enumerates op.1) ops →
  let t := run (newLoginThrottle n) ops in
  Z.of_nat (size t.(entries)) ≤ positive_or n defaultLoginThrottleMaxKeys ∧
  t.(entries) !! "" = None ∧
  ∀ k e, t.(entries) !! k = Some e → 0 ≤ e.(failures) ∧ 0 ≤ e.(inFlight).
Proof.
  intros H t. destruct (run_table_ok (newLoginThrottle n) ops H) as (Hne & Hsz & Hok).
  { apply newLoginThrottle_table_ok. }
  rewrite run_maxEntries in Hsz. split_and!; auto.
Qed.

Lemma login_table_bounded_witness :
  let t := run (newLoginThrottle 1) [(map_to_list, OpReserve "u" 7 5 0);
    (map_to_list, OpFailure "v" 8 5 0 0); (map_to_list, OpReserve "w" 9 5 0)] in
  Z.of_nat (size t.(entries)) ≤ 1.
Proof.
  refine (proj1 (login_table_bounded 1 _ _)). repeat constructor; simpl; auto.
Defined.

(** Eviction makes room by dropping one entry that is neither blocked nor
    in flight: an expired one if the scan meets one, else one with the oldest
    window start.  It fails only when every entry is blocked or in flight, and
    then changes nothing. *)
Theorem login_evicts_oldest_unlocked iter t now t' ok :
  enumerates iter → no_empty_key t →
  evictOldestUnlockedEntryLocked iter t now = (t', ok) →
  if ok then
    ∃ k e, t.(entries) !! k = Some e ∧ t' = set_entries t (delete k t.(entries)) ∧
      (prunable now e = true ∨
       locked now e = false ∧ ∀ k' e', t.(entries) !! k' = Some e' → locked now e' = false →
         e.(windowStart) ≤ e'.(windowStart))
  else t' = t ∧ ∀ k e, t.(entries) !! k = Some e → locked now e = true.
Proof.
  intros Hit Hne H. unfold evictOldestUnlockedEntryLocked in H.
  assert (∀ k e, (k, e) ∈ iter t.(entries) ↔ t.(entries) !! k = Some e) as Hin.
  { intros. by rewrite (Hit _), elem_of_map_to_list. }
  destruct (evictScan_sound now (iter t.(entries)) "" 0) as [(k & e & He & HP & E)|HS].
  { intros e. rewrite Hin. unfold no_empty_key in Hne. congruence. }
  - rewrite E in H. simplify_eq. exists k, e. rewrite <- Hin. auto.
  - destruct (evictScan _ _ _ _) as [k|]; simplify_eq.
    + destruct HS as [z [[(_ & _ & ?)|(e & ? & ? & ->)] _ Ho]]; [done|].
      exists k, e. rewrite <- Hin. split_and!; auto. right. split; [done|].
      intros k' e'. rewrite <- Hin. eauto.
    + destruct HS as [_ HS]. split; [done|]. intros k e. rewrite <- Hin. eauto.
Qed.

Lemma login_evicts_oldest_unlocked_witness :
  let t := mkThrottle {[ "a" := mkEntry 1 0 50 100 0; "b" := mkEntry 1 0 40 100 0;
                         "c" := mkEntry 1 1 10 100 0 ]} 3 in
  evictOldestUnlockedEntryLocked map_to_list t 60
    = (set_entries t (delete "b" t.(entries)), true) ∧
  ∃ k e, t.(entries) !! k = Some e ∧
    (evictOldestUnlockedEntryLocked map_to_list t 60).1 = set_entries t (delete k t.(entries)).
Proof.
  intros t. assert (evictOldestUnlockedEntryLocked map_to_list t 60
    = (set_entries t (delete "b" t.(entries)), true)) as E by (vm_compute; reflexivity).
  split; [exact E|].
  destruct (login_evicts_oldest_unlocked map_to_list t 60 _ _ enumerates_self eq_refl E)
    as (k & e & H1 & H2 & _). rewrite E. eauto.
Defined.

(** The retry-after query of a refused attempt. *)
Definition forgetting_run : list (order * throttle_op) :=
  let it := map_to_list in
  (* four failures early in the window *)
  concat (replicate 4 [(it, OpReserve "u" second 5 0);
                       (it, OpReservedFailure "u" second 5 0 0)])
  (* a fifth attempt stays in flight across the end of the window *)
  ++ [(it, OpReserve "u" (15 * minute) 5 0)]
  (* a sixth is refused, and its caller asks for the retry delay *)
  ++ [(it, OpReserve "u" (16 * minute + second) 5 0); (it, OpRetryAfter "u" (16 * minute + second))].

(** The retry-after query, unlike pruning, eviction and reservation, drops
    an expired entry although an attempt is in flight for it: after four
    failures and one attempt still in flight, the refused sixth attempt's
    query forgets the entry, and five more attempts are then admitted while
    the first is still in flight, six in flight against a limit of five. *)
Theorem login_retry_after_forgets :
  let t := run (newLoginThrottle 10) forgetting_run in
  tcount (run (newLoginThrottle 10) (take 10 forgetting_run)) "u" = 1 ∧
  t.(entries) !! "u" = None ∧
  tcount (run t (replicate 5 (map_to_list, OpReserve "u" (17 * minute) 5 0))) "u" = 5.
Proof. vm_compute. auto. Qed.
End LoginThrottle.
