(* ===== verification/MemoryPressure.v ===== *)
(** The adaptive memory and file-descriptor controller
    (internal/sysmetrics/memory_pressure.go).

    A controller turns samples of memory and descriptor usage into a
    temporary admission limit.  The samples (procfs, cgroups) are arguments of
    [snapshotAt]: the result of the memory sampler and, when the sampler also
    counts descriptors, of the descriptor sampler.  Percentages are IEEE
    binary64 numbers, those of GoFloat.v.  An
    [int] has 64 bits. *)

From Stdlib Require Import SpecFloat.
From S2P Require Import Prelude.
From S2P Require Import GoFloat.

Module MemoryPressure.

(** ** Data *)

Inductive MemoryPressureLevel :=
  | MemoryPressureUnknown
  | MemoryPressureHealthy
  | MemoryPressureSoft
  | MemoryPressureCritical.

#[export] Instance level_eq_dec : EqDecision MemoryPressureLevel.
Proof. solve_decision. Defined.

Definition levelString (l : MemoryPressureLevel) : string :=
  match l with
  | MemoryPressureHealthy => "healthy"
  | MemoryPressureSoft => "soft"
  | MemoryPressureCritical => "critical"
  | MemoryPressureUnknown => "unknown"
  end.

Record MemoryUsage := mkUsage { UsedBytes : Z; LimitBytes : Z; Source : string }.

Definition usageValid (u : MemoryUsage) : bool := (0 <=? u.(UsedBytes)) && (0 <? u.(LimitBytes)).

Definition usagePercent (u : MemoryUsage) : float64 :=
  if usageValid u
  then fdiv (fmul (float_of_int u.(UsedBytes)) (float_of_int 100)) (float_of_int u.(LimitBytes))
  else float_of_int 0.

Record FileDescriptorUsage := mkFD { Used : Z; Limit : Z }.

Definition fdValid (u : FileDescriptorUsage) : bool := (0 <=? u.(Used)) && (0 <? u.(Limit)).

Definition fdPercent (u : FileDescriptorUsage) : float64 :=
  if fdValid u
  then fdiv (fmul (float_of_int u.(Used)) (float_of_int 100)) (float_of_int u.(Limit))
  else float_of_int 0.

Definition AdaptiveAdmissionRoleAgentStream : string := "agent_stream".
Definition AdaptiveAdmissionRoleServerStream : string := "server_stream".

Record AdaptiveMemoryConfig := mkConfig {
  SoftLimitPercent : Z;
  HardLimitPercent : Z;
  RecoveryPercent : Z;
  SampleInterval : Z;
  EstimatedBytesPerAdmission : Z;
  cfgAdmissionRole : string;
  FileDescriptorsPerAdmission : Z;
  MaxSampleStaleness : Z;
}.

Definition DefaultAdaptiveMemoryConfig : AdaptiveMemoryConfig := {|
  SoftLimitPercent := 80; HardLimitPercent := 90; RecoveryPercent := 75;
  SampleInterval := 100 * millisecond;
  (* tunnel.DefaultAdaptiveStreamChargeBytes *)
  EstimatedBytesPerAdmission := 512 * 1024 + 768 * 1024;
  cfgAdmissionRole := AdaptiveAdmissionRoleAgentStream;
  FileDescriptorsPerAdmission := 2;
  MaxSampleStaleness := second |}.

(** [tunnel.ServerStreamBaseResourceModel().MemoryBytes] *)
Definition minimumServerStreamAdmissionBytes : Z := 256 * 1024.

(** [tunnel.AgentStreamBaseResourceModel(16 * 1024)]: the smallest socket
    buffer is valid, and four times it is added to the base. *)
Definition minimumAgentStreamAdmissionBytes : Z :=
  minimumServerStreamAdmissionBytes + 4 * (16 * 1024).

Definition Validate (c : AdaptiveMemoryConfig) : option string :=
  let agent := String.eqb c.(cfgAdmissionRole) AdaptiveAdmissionRoleAgentStream in
  let server := String.eqb c.(cfgAdmissionRole) AdaptiveAdmissionRoleServerStream in
  if (c.(RecoveryPercent) <? 1) || (c.(SoftLimitPercent) <=? c.(RecoveryPercent)) then
    Some "memory recovery percentage must be positive and below the soft limit"
  else if (c.(SoftLimitPercent) <? 1) || (c.(HardLimitPercent) <=? c.(SoftLimitPercent)) then
    Some "memory soft-limit percentage must be positive and below the hard limit"
  else if 99 <? c.(HardLimitPercent) then
    Some "memory hard-limit percentage must be at most 99"
  else if c.(SampleInterval) <=? 0 then Some "memory sample interval must be positive"
  else if negb agent && negb server then Some "unknown adaptive admission role"
  else if c.(FileDescriptorsPerAdmission) <? 0 then
    Some "file descriptors per admission must not be negative"
  else if agent && (c.(FileDescriptorsPerAdmission) <? 2) then
    Some "agent stream admission must reserve both peak dial file descriptors"
  else if server && negb (c.(FileDescriptorsPerAdmission) =? 0) then
    Some "server logical stream admission must not reserve physical file descriptors"
  else if agent && (c.(EstimatedBytesPerAdmission) <? minimumAgentStreamAdmissionBytes) then
    Some "estimated bytes per agent admission"
  else if server && (c.(EstimatedBytesPerAdmission) <? minimumServerStreamAdmissionBytes) then
    Some "estimated bytes per server admission"
  else if c.(MaxSampleStaleness) <=? 0 then Some "maximum sample staleness must be positive"
  else None.

Record AdaptiveMemorySnapshot := mkSnapshot {
  Generation : Z;
  Usage : MemoryUsage;
  Level : MemoryPressureLevel;
  AdmissionLimit : Z;
  MemoryAdmissionLimit : Z;
  FDAdmissionLimit : Z;
  Maximum : Z;
  RejectNew : bool;
  SampledAt : Z;
  NextSampleAt : Z;
  SampleError : string;
  HeadroomToHardByte : Z;
  ReservedStreamByte : Z;
  StreamChargeByte : Z;
  StreamChargeFD : Z;
  AdmissionRole : string;
  FDUsed : Z;
  FDLimit : Z;
  FDHeadroomToHard : Z;
  ReservedStreamFD : Z;
  PressureReason : string;
  LastGoodSampleAt : Z;
}.

(** [AdaptiveMemorySnapshot{}] *)
Definition emptySnapshot : AdaptiveMemorySnapshot := {|
  Generation := 0; Usage := mkUsage 0 0 ""; Level := MemoryPressureUnknown;
  AdmissionLimit := 0; MemoryAdmissionLimit := 0; FDAdmissionLimit := 0; Maximum := 0;
  RejectNew := false; SampledAt := 0; NextSampleAt := 0; SampleError := "";
  HeadroomToHardByte := 0; ReservedStreamByte := 0; StreamChargeByte := 0; StreamChargeFD := 0;
  AdmissionRole := ""; FDUsed := 0; FDLimit := 0; FDHeadroomToHard := 0; ReservedStreamFD := 0;
  PressureReason := ""; LastGoodSampleAt := 0 |}.

(** The cost in whole admissions of [amount] at [charge] each. *)
Definition slotCost (amount charge : Z) : Z :=
  Z.quot amount charge + (if Z.rem amount charge =? 0 then 0 else 1).

Definition AdmissionLimitWithExternal (s : AdaptiveMemorySnapshot) (bytes fds : Z) : Z :=
  let joint := (s.(MemoryAdmissionLimit) =? 0) && (s.(FDAdmissionLimit) =? 0) in
  let memoryLimit := if joint then s.(AdmissionLimit) else s.(MemoryAdmissionLimit) in
  let fdLimit := if joint then s.(AdmissionLimit) else s.(FDAdmissionLimit) in
  let chargeBytes := (0 <? s.(StreamChargeByte)) && (0 <? bytes) in
  if chargeBytes && (memoryLimit <? slotCost bytes s.(StreamChargeByte)) then -1
  else
    let memoryLimit :=
      if chargeBytes then memoryLimit - slotCost bytes s.(StreamChargeByte) else memoryLimit in
    let fdCharge :=
      if String.eqb s.(AdmissionRole) "" && (s.(StreamChargeFD) =? 0) then 2
      else s.(StreamChargeFD) in
    let overdrawn :=
      if 0 <? fds then
        if fdCharge =? 0 then (0 <? s.(FDLimit)) && (s.(FDHeadroomToHard) <? fds)
        else fdLimit <? slotCost fds fdCharge
      else false in
    if overdrawn then -1
    else
      let fdLimit :=
        if (0 <? fds) && negb (fdCharge =? 0) then fdLimit - slotCost fds fdCharge else fdLimit in
      let limit := Z.min memoryLimit fdLimit in
      let limit := if 0 <? s.(Maximum) then Z.min limit s.(Maximum) else limit in
      Z.max 0 limit.

(** ** The controller *)

Record AdaptiveMemoryController := mkController {
  config : AdaptiveMemoryConfig;
  hasFdSampler : bool;
  level : MemoryPressureLevel;
  snapshot : AdaptiveMemorySnapshot;
  nextSampleAt : Z;
  generation : Z;
  lastGood : AdaptiveMemorySnapshot;
}.

(** [NewAdaptiveMemoryController]; [fd] tells whether the sampler also counts
    descriptors. *)
Definition NewAdaptiveMemoryController (c : AdaptiveMemoryConfig) (fd : bool)
    : AdaptiveMemoryController + string :=
  match Validate c with
  | Some err => inr err
  | None => inl (mkController c fd MemoryPressureUnknown emptySnapshot 0 0 emptySnapshot)
  end.

Definition percentageOf (value percent : Z) : Z :=
  i64 (i64 (Z.quot value 100 * percent) + Z.quot (i64 (Z.rem value 100 * percent)) 100).

Definition saturatingMultiply (left right : Z) : Z :=
  if (left <=? 0) || (right <=? 0) then 0
  else if Z.quot max_int64 right <? left then max_int64
  else left * right.

(** What one call of the samplers returns: an error message, or the memory
    constraints and the descriptor usage. *)
Definition sample : Type := string + (list MemoryUsage * FileDescriptorUsage).

(** The error handling of [snapshotAt] around the two samplers. *)
Definition takeSample (fd : bool) (mem : string + list MemoryUsage)
    (fds : string + FileDescriptorUsage) : sample :=
  match mem with
  | inl err => inl err
  | inr usages =>
      let checked :=
        if fd then
          match fds with
          | inl err => inl err
          | inr u => if fdValid u then inr u else inl "file descriptor usage is unavailable"
          end
        else inr (mkFD 0 0) in
      match checked with
      | inl err => inl err
      | inr u =>
          if forallb usageValid usages then
            match usages with
            | [] => inl "memory usage is unavailable"
            | _ => inr (usages, u)
            end
          else inl "memory usage constraint is invalid"
      end
  end.

(** The loop over the constraints: the one with the highest percentage, that
    percentage, and the smallest headroom to the hard limit. *)
Definition scanUsage (hard : Z) (acc : MemoryUsage * float64 * Z) (usage : MemoryUsage)
    : MemoryUsage * float64 * Z :=
  let '(selected, memoryPercent, memoryHeadroom) := acc in
  let '(selected, memoryPercent) :=
    if fgt (usagePercent usage) memoryPercent then (usage, usagePercent usage)
    else (selected, memoryPercent) in
  let hardBytes := percentageOf usage.(LimitBytes) hard in
  let headroom := Z.max 0 (hardBytes - usage.(UsedBytes)) in
  (selected, memoryPercent, Z.min memoryHeadroom headroom).

(** The switch that moves the pressure level. *)
Definition nextLevel (c : AdaptiveMemoryConfig) (l : MemoryPressureLevel) (pressure : float64)
    : MemoryPressureLevel :=
  if fge pressure (float_of_int c.(HardLimitPercent)) then MemoryPressureCritical
  else if fge pressure (float_of_int c.(SoftLimitPercent)) then MemoryPressureSoft
  else if negb (bool_decide (l = MemoryPressureUnknown)) &&
          negb (bool_decide (l = MemoryPressureHealthy)) &&
          fge pressure (float_of_int c.(RecoveryPercent)) then MemoryPressureSoft
  else MemoryPressureHealthy.

(** The clamped arguments of [snapshotAt]. *)
Definition clampMaximum (maximum : Z) : Z := if maximum <? 1 then 1 else maximum.
Definition clampInUse (maximum inUse : Z) : Z :=
  let inUse := if inUse <? 0 then 0 else inUse in
  if clampMaximum maximum <? inUse then clampMaximum maximum else inUse.

(** The failed sample: admit nothing new and keep what runs. *)
Definition failedSnapshot (c : AdaptiveMemoryController) (now maximum inUse : Z) (err : string)
    : AdaptiveMemorySnapshot :=
  let gen := u64 (c.(generation) + 1) in
  let next := now + c.(config).(SampleInterval) in
  let recent :=
    negb (is_zero_time c.(lastGood).(SampledAt)) && (c.(lastGood).(Maximum) =? maximum) &&
    (time_sub now c.(lastGood).(SampledAt) <=? c.(config).(MaxSampleStaleness)) in
  let base := if recent then c.(lastGood) else emptySnapshot in
  {| Generation := gen; Usage := base.(Usage); Level := MemoryPressureUnknown;
     AdmissionLimit := inUse; MemoryAdmissionLimit := inUse; FDAdmissionLimit := inUse;
     Maximum := maximum; RejectNew := true; SampledAt := now; NextSampleAt := next;
     SampleError := err; HeadroomToHardByte := base.(HeadroomToHardByte);
     ReservedStreamByte := base.(ReservedStreamByte);
     StreamChargeByte :=
       if recent then base.(StreamChargeByte) else c.(config).(EstimatedBytesPerAdmission);
     StreamChargeFD :=
       if recent then base.(StreamChargeFD) else c.(config).(FileDescriptorsPerAdmission);
     AdmissionRole := if recent then base.(AdmissionRole) else c.(config).(cfgAdmissionRole);
     FDUsed := base.(FDUsed); FDLimit := base.(FDLimit);
     FDHeadroomToHard := base.(FDHeadroomToHard); ReservedStreamFD := base.(ReservedStreamFD);
     PressureReason := "sensor"; LastGoodSampleAt := base.(LastGoodSampleAt) |}.

(** The complete sample. *)
Definition goodSnapshot (c : AdaptiveMemoryController) (now maximum inUse : Z)
    (usages : list MemoryUsage) (fdUsage : FileDescriptorUsage) : AdaptiveMemorySnapshot :=
  let cfg := c.(config) in
  let first := default (mkUsage 0 0 "") (head usages) in
  let '(selected, memoryPercent, memoryHeadroom) :=
    fold_left (scanUsage cfg.(HardLimitPercent)) usages (first, usagePercent first, max_int64) in
  let hardFDs := percentageOf fdUsage.(Limit) cfg.(HardLimitPercent) in
  let fdHeadroom := if fdValid fdUsage then Z.max 0 (hardFDs - fdUsage.(Used)) else 0 in
  let fdPressure := fdValid fdUsage && fgt (fdPercent fdUsage) memoryPercent in
  let pressurePercent := if fdPressure then fdPercent fdUsage else memoryPercent in
  let lvl := nextLevel cfg c.(level) pressurePercent in
  let charge := cfg.(EstimatedBytesPerAdmission) in
  let reservedByte := saturatingMultiply inUse charge in
  let additional := Z.quot (Z.max 0 (memoryHeadroom - reservedByte)) charge in
  let memoryLimit := inUse + Z.min additional (max_int64 - inUse) in
  let perFD := cfg.(FileDescriptorsPerAdmission) in
  let fdBound := fdValid fdUsage && (0 <? perFD) in
  let reservedFD := if fdBound then saturatingMultiply inUse perFD else 0 in
  let fdAdditional := Z.quot (Z.max 0 (fdHeadroom - reservedFD)) perFD in
  let fdLimit := if fdBound then inUse + Z.min fdAdditional (max_int64 - inUse) else max_int64 in
  let additional := if fdBound then Z.min additional fdAdditional else additional in
  let additional := Z.max 0 (Z.min additional (maximum - inUse)) in
  let memoryCritical := fge memoryPercent (float_of_int cfg.(HardLimitPercent)) in
  let fdCritical := fdValid fdUsage && fge (fdPercent fdUsage) (float_of_int cfg.(HardLimitPercent)) in
  let reject := memoryCritical || (fdCritical && (0 <? perFD)) in
  {| Generation := u64 (c.(generation) + 1); Usage := selected; Level := lvl;
     AdmissionLimit := if reject then inUse else inUse + additional;
     MemoryAdmissionLimit := if reject then inUse else memoryLimit;
     FDAdmissionLimit := if reject then inUse else fdLimit;
     Maximum := maximum; RejectNew := reject; SampledAt := now;
     NextSampleAt := now + cfg.(SampleInterval); SampleError := "";
     HeadroomToHardByte := memoryHeadroom; ReservedStreamByte := reservedByte;
     StreamChargeByte := charge; StreamChargeFD := perFD; AdmissionRole := cfg.(cfgAdmissionRole);
     FDUsed := fdUsage.(Used); FDLimit := fdUsage.(Limit); FDHeadroomToHard := fdHeadroom;
     ReservedStreamFD := reservedFD;
     PressureReason := if fdPressure then "file_descriptors" else "memory";
     LastGoodSampleAt := now |}.

Definition snapshotAt (c : AdaptiveMemoryController) (now maximum inUse : Z) (force : bool)
    (mem : string + list MemoryUsage) (fds : string + FileDescriptorUsage)
    : AdaptiveMemorySnapshot * AdaptiveMemoryController :=
  let inUse := clampInUse maximum inUse in
  let maximum := clampMaximum maximum in
  if negb force && negb (is_zero_time c.(snapshot).(SampledAt)) && before now c.(nextSampleAt) &&
     (c.(snapshot).(Maximum) =? maximum)
  then (c.(snapshot), c)
  else
    let gen := u64 (c.(generation) + 1) in
    match takeSample c.(hasFdSampler) mem fds with
    | inl err =>
        let s := failedSnapshot c now maximum inUse err in
        (s, mkController c.(config) c.(hasFdSampler) MemoryPressureUnknown s s.(NextSampleAt) gen
              c.(lastGood))
    | inr (usages, fdUsage) =>
        let s := goodSnapshot c now maximum inUse usages fdUsage in
        (s, mkController c.(config) c.(hasFdSampler) s.(Level) s s.(NextSampleAt) gen s)
    end.

(** ** Lemmas: integer arithmetic *)

Lemma percentageOf_exact v p :
  0 ≤ v ≤ max_int64 → 0 ≤ p ≤ 100 → percentageOf v p = v * p / 100.
Proof.
  unfold percentageOf, max_int64. intros Hv Hp.
  rewrite Z.quot_div_nonneg, Z.rem_mod_nonneg by lia.
  pose proof (Z.div_mod v 100 ltac:(lia)). pose proof (Z.mod_pos_bound v 100 ltac:(lia)).
  set (q := v / 100) in *. set (r := v mod 100) in *.
  assert (0 ≤ q ≤ max_int64 `div` 100) as Hq by (unfold max_int64; subst q; split;
    [apply Z.div_pos; lia|apply Z.div_le_mono; lia]).
  change (max_int64 `div` 100) with 92233720368547758 in Hq.
  assert (v * p / 100 = q * p + r * p / 100) as ->.
  { replace (v * p) with (r * p + q * p * 100) by nia. rewrite Z.div_add by lia. lia. }
  assert (0 ≤ r * p ≤ 9900) by nia. assert (0 ≤ r * p / 100 ≤ 99).
  { split; [apply Z.div_pos; lia|]. apply Z.div_le_upper_bound; lia. }
  assert (0 ≤ q * p ≤ q * 100) by nia.
  assert (r * p / 100 ≤ r) by (apply Z.div_le_upper_bound; nia).
  unfold in_i64, min_int64, max_int64 in *.
  rewrite (i64_id (r * p)), (i64_id (q * p)) by (unfold in_i64, min_int64, max_int64; lia).
  rewrite Z.quot_div_nonneg by lia.
  rewrite i64_id by (unfold in_i64, min_int64, max_int64 in *; lia). done.
Qed.

Lemma saturatingMultiply_spec a b :
  0 ≤ a → 0 < b → saturatingMultiply a b = Z.min (a * b) max_int64.
Proof.
  unfold saturatingMultiply, max_int64. intros Ha Hb.
  rewrite Z.quot_div_nonneg, (proj2 (Z.leb_gt b 0)), orb_false_r by lia.
  repeat case_goal; bprop; [nia| |].
  - assert (9223372036854775807 < a * b); [|lia].
    pose proof (Z.mul_succ_div_gt 9223372036854775807 b Hb). nia.
  - assert (a * b ≤ 9223372036854775807); [|lia].
    pose proof (Z.mul_div_le 9223372036854775807 b Hb). nia.
Qed.

(** What remains of a headroom after [n] charged admissions, in admissions:
    any credit beyond [n] is backed by headroom. *)
Lemma credit_backed headroom n charge :
  0 ≤ headroom ≤ max_int64 → 0 ≤ n → 0 < charge →
  let extra := Z.quot (Z.max 0 (headroom - saturatingMultiply n charge)) charge in
  0 ≤ extra ∧ (0 < extra → (n + extra) * charge ≤ headroom).
Proof.
  intros Hh Hn Hc. simpl. rewrite saturatingMultiply_spec by lia.
  rewrite Z.quot_div_nonneg by lia. set (d := Z.max 0 _).
  assert (0 ≤ d / charge) by (apply Z.div_pos; lia). split; [done|]. intros Hpos.
  pose proof (Z.mul_div_le d charge Hc). nia.
Qed.

Lemma slotCost_spec a c : 0 < a → 0 < c →
  a ≤ slotCost a c * c < a + c.
Proof.
  unfold slotCost. intros Ha Hc. rewrite Z.quot_div_nonneg, Z.rem_mod_nonneg by lia.
  pose proof (Z.div_mod a c ltac:(lia)). pose proof (Z.mod_pos_bound a c Hc).
  destruct (Z.eqb_spec (a mod c) 0); nia.
Qed.

Lemma slotCost_mono a b c : 0 < a ≤ b → 0 < c → slotCost a c ≤ slotCost b c.
Proof.
  intros Hab Hc. pose proof (slotCost_spec a c). pose proof (slotCost_spec b c). nia.
Qed.

(** Charging more leaves less: the test and the remaining limit of a charge. *)
Lemma charge_mono ml ch b b' :
  b ≤ b' → (0 <? ch) && (0 <? b') && (ml <? slotCost b' ch) = false →
  (0 <? ch) && (0 <? b) && (ml <? slotCost b ch) = false ∧
  (if (0 <? ch) && (0 <? b') then ml - slotCost b' ch else ml) ≤
  (if (0 <? ch) && (0 <? b) then ml - slotCost b ch else ml).
Proof.
  intros Hb H. destruct (Z.ltb_spec 0 ch) as [Hc|]; [|simpl; split; [done|lia]].
  destruct (Z.ltb_spec 0 b) as [Hp|]; simpl in *.
  - pose proof (slotCost_mono b b' ch ltac:(lia) Hc). rewrite (proj2 (Z.ltb_lt 0 b')) in * by lia.
    simpl in *. bprop. split; [apply Z.ltb_ge|]; lia.
  - split; [done|]. destruct (Z.ltb_spec 0 b') as [Hp|]; [|lia].
    pose proof (slotCost_spec b' ch Hp Hc). nia.
Qed.

Lemma Validate_None c : Validate c = None →
  1 ≤ c.(RecoveryPercent) < c.(SoftLimitPercent) ∧ c.(SoftLimitPercent) < c.(HardLimitPercent) ≤ 99 ∧
  0 < c.(EstimatedBytesPerAdmission) ∧ 0 ≤ c.(FileDescriptorsPerAdmission) ∧
  0 < c.(SampleInterval) ∧ 0 < c.(MaxSampleStaleness).
Proof.
  unfold Validate, minimumAgentStreamAdmissionBytes, minimumServerStreamAdmissionBytes. intros H.
  repeat (case_match; [discriminate|]). bprop.
  destruct (String.eqb (cfgAdmissionRole c) AdaptiveAdmissionRoleAgentStream),
    (String.eqb (cfgAdmissionRole c) AdaptiveAdmissionRoleServerStream); simpl in *; bprop;
    try discriminate; intuition (discriminate || lia).
Qed.

(** The limit never exceeds what memory alone allows. *)
Lemma external_le_memory s bytes fds :
  AdmissionLimitWithExternal s bytes fds ≤
  Z.max 0 (if (s.(MemoryAdmissionLimit) =? 0) && (s.(FDAdmissionLimit) =? 0)
           then s.(AdmissionLimit) else s.(MemoryAdmissionLimit)).
Proof.
  unfold AdmissionLimitWithExternal. set (ml := if (_ : bool) then AdmissionLimit s else MemoryAdmissionLimit s).
  set (fl := if (_ : bool) then AdmissionLimit s else FDAdmissionLimit s). clearbody ml fl.
  destruct ((0 <? StreamChargeByte s) && (0 <? bytes)) eqn:Hb; simpl.
  - bprop. pose proof (slotCost_spec bytes (StreamChargeByte s) ltac:(done) ltac:(done)).
    assert (0 < slotCost bytes (StreamChargeByte s)) by nia.
    repeat (case_goal; try lia).
  - repeat (case_goal; try lia).
Qed.

(** Holding more external resources can only lower the limit. *)
Lemma external_mono s bytes fds bytes' fds' :
  0 ≤ s.(StreamChargeFD) → bytes ≤ bytes' → fds ≤ fds' →
  AdmissionLimitWithExternal s bytes' fds' ≤ Z.max 0 (AdmissionLimitWithExternal s bytes fds).
Proof.
  intros Hfc Hb Hf. unfold AdmissionLimitWithExternal.
  set (ml := if (_ : bool) then AdmissionLimit s else MemoryAdmissionLimit s).
  set (fl := if (_ : bool) then AdmissionLimit s else FDAdmissionLimit s).
  set (fc := if (_ : bool) then 2 else StreamChargeFD s).
  assert (0 ≤ fc) as Hfc' by (unfold fc; case_match; lia).
  destruct ((0 <? StreamChargeByte s) && (0 <? bytes') &&
    (ml <? slotCost bytes' (StreamChargeByte s))) eqn:E1; [lia|].
  destruct (charge_mono ml (StreamChargeByte s) bytes bytes' Hb E1) as [-> HB].
  destruct (Z.eqb_spec fc 0) as [->|Hne].
  - assert (∀ x, (if 0 <? x then (0 <? FDLimit s) && (FDHeadroomToHard s <? x) else false) = true →
      0 < FDLimit s ∧ FDHeadroomToHard s < x ∧ 0 < x) as Hx.
    { intros x Hx. destruct (Z.ltb_spec 0 x); [|done]. bprop. lia. }
    destruct (if 0 <? fds' then _ else _) eqn:E2; [lia|].
    assert ((if 0 <? fds then (0 <? FDLimit s) && (FDHeadroomToHard s <? fds) else false) = false) as ->.
    { apply not_true_is_false. intros (? & ? & ?)%Hx. revert E2.
      rewrite !(proj2 (Z.ltb_lt _ _)) by lia. done. }
    simpl. rewrite !andb_false_r. destruct (0 <? Maximum s); lia.
  - rewrite !andb_true_r. pose proof (charge_mono fl fc fds fds' Hf) as HF.
    rewrite (proj2 (Z.ltb_lt 0 fc)) in HF by lia. rewrite !andb_true_l in HF.
    change (if 0 <? fds' then fl <? slotCost fds' fc else false)
      with ((0 <? fds') && (fl <? slotCost fds' fc)).
    change (if 0 <? fds then fl <? slotCost fds fc else false)
      with ((0 <? fds) && (fl <? slotCost fds fc)).
    destruct ((0 <? fds') && _) eqn:E2; [lia|]. destruct (HF eq_refl) as [-> HF'].
    destruct (0 <? Maximum s); lia.
Qed.

(** The stream slots left beside external bytes are backed by memory. *)
Lemma external_backed s bytes fds :
  let memoryLimit := if (s.(MemoryAdmissionLimit) =? 0) && (s.(FDAdmissionLimit) =? 0)
                     then s.(AdmissionLimit) else s.(MemoryAdmissionLimit) in
  let limit := AdmissionLimitWithExternal s bytes fds in
  0 ≤ limit → 0 < s.(StreamChargeByte) → 0 < bytes → 0 ≤ memoryLimit →
  limit * s.(StreamChargeByte) + bytes ≤ memoryLimit * s.(StreamChargeByte).
Proof.
  simpl. unfold AdmissionLimitWithExternal.
  set (ml := if (_ : bool) then AdmissionLimit s else MemoryAdmissionLimit s).
  set (fl := if (_ : bool) then AdmissionLimit s else FDAdmissionLimit s).
  set (fc := if (_ : bool) then 2 else StreamChargeFD s).
  intros H Hc Hb Hml. pose proof (slotCost_spec bytes _ Hb Hc).
  rewrite (proj2 (Z.ltb_lt 0 _) Hc), (proj2 (Z.ltb_lt 0 _) Hb) in *. simpl in *.
  destruct (Z.ltb_spec ml (slotCost bytes (StreamChargeByte s))); [lia|].
  destruct (if 0 <? fds then _ else _); [lia|]. destruct (0 <? Maximum s); nia.
Qed.

(** ** Lemmas: the scan of the constraints *)

Lemma scan_headroom hard us sel p h0 :
  0 ≤ h0 → 0 ≤ hard ≤ 100 → Forall (λ u, usageValid u = true ∧ u.(LimitBytes) ≤ max_int64) us →
  let h := (fold_left (scanUsage hard) us (sel, p, h0)).2 in
  0 ≤ h ≤ h0 ∧ ∀ u, u ∈ us → h ≤ Z.max 0 (u.(LimitBytes) * hard / 100 - u.(UsedBytes)).
Proof.
  intros Hh0 Hhard Hall. revert sel p h0 Hh0.
  induction Hall as [|u us [Hv Hl] _ IH]; intros sel p h0 Hh0; simpl; [split; [lia|set_solver]|].
  assert (∃ sel' p', (if fgt (usagePercent u) p then (u, usagePercent u) else (sel, p)) = (sel', p'))
    as (sel' & p' & ->) by (case_match; eauto).
  unfold usageValid in Hv. bprop. rewrite percentageOf_exact by lia.
  destruct (IH sel' p' (Z.min h0 (Z.max 0 (LimitBytes u * hard / 100 - UsedBytes u))))
    as [Hr Hb]; [lia|]. simpl in *. split; [lia|].
  intros x [->|Hx]%elem_of_cons; [lia|auto].
Qed.

Lemma takeSample_good fd mem fds usages u :
  takeSample fd mem fds = inr (usages, u) →
  mem = inr usages ∧ usages ≠ [] ∧ Forall (λ u, usageValid u = true) usages ∧
  (if fd then fds = inr u ∧ fdValid u = true else u = mkFD 0 0).
Proof.
  unfold takeSample. intros H. destruct mem as [|us]; [discriminate|].
  destruct fd; [destruct fds as [|f]; [discriminate|]; destruct (fdValid f) eqn:Hf; [|discriminate]|];
    (destruct (forallb usageValid us) eqn:Hv; [|discriminate]);
    (destruct us as [|x us]; [discriminate|]); simplify_eq;
    (split_and!; try done; apply Forall_forall; intros y Hy; rewrite forallb_forall in Hv;
     apply Hv; by rewrite <- list_elem_of_In).
Qed.

Lemma clamp_range maximum inUse :
  0 ≤ clampInUse maximum inUse ≤ clampMaximum maximum ∧ 1 ≤ clampMaximum maximum.
Proof. unfold clampInUse, clampMaximum. repeat case_goal; bprop; lia. Qed.

(** ** The limit of a complete sample *)

(** The limit of [goodSnapshot] and the headrooms it is computed from. *)
Lemma goodSnapshot_limit c now maximum n usages fd :
  Validate c.(config) = None → 0 ≤ n ≤ maximum →
  Forall (λ u, usageValid u = true ∧ u.(LimitBytes) ≤ max_int64) usages → fd.(Limit) ≤ max_int64 →
  let s := goodSnapshot c now maximum n usages fd in
  let charge := c.(config).(EstimatedBytesPerAdmission) in
  let perFD := c.(config).(FileDescriptorsPerAdmission) in
  n ≤ s.(AdmissionLimit) ≤ maximum ∧
  (n < s.(AdmissionLimit) →
   s.(AdmissionLimit) * charge ≤ s.(HeadroomToHardByte) ∧
   (fdValid fd = true → 0 < perFD →
    fd.(Used) + s.(AdmissionLimit) * perFD ≤ fd.(Limit) * c.(config).(HardLimitPercent) / 100)) ∧
  ∀ u, u ∈ usages → s.(HeadroomToHardByte) ≤
    Z.max 0 (u.(LimitBytes) * c.(config).(HardLimitPercent) / 100 - u.(UsedBytes)).
Proof.
  intros Hcfg Hn Hall Hfd. apply Validate_None in Hcfg as (? & ? & Hc & Hp & _).
  unfold goodSnapshot. set (first := default _ (head usages)).
  destruct (scan_headroom c.(config).(HardLimitPercent) usages first (usagePercent first) max_int64)
    as [Hh Hb]; [unfold max_int64; lia|lia|done|].
  destruct (fold_left _ _ _) as [[sel mp] h]. simpl in *.
  destruct (credit_backed h n _ Hh (proj1 Hn) Hc) as [He1 He2].
  set (extra := Z.quot _ _) in *. set (hardFDs := percentageOf _ _).
  split_and!; [case_goal; lia| case_goal; try case_goal; lia| |exact Hb].
  intros Hlt.
  destruct (_ || _); [lia|]. split; [case_hyp Hlt; nia|].
  intros Hv Hpos. rewrite Hv in *. rewrite (proj2 (Z.ltb_lt _ _) Hpos) in *. simpl in *.
  unfold fdValid in Hv. bprop. unfold hardFDs in *. rewrite percentageOf_exact in * by lia.
  set (hf := Z.max 0 (fd.(Limit) * _ / 100 - _)) in *.
  assert (0 ≤ hf ≤ max_int64) as Hhf.
  { split; [lia|]. assert (fd.(Limit) * c.(config).(HardLimitPercent) / 100 ≤ fd.(Limit));
      [apply Z.div_le_upper_bound; nia|]. unfold hf, max_int64 in *. lia. }
  destruct (credit_backed hf n _ Hhf ltac:(lia) Hpos) as [Hf1 Hf2].
  set (fextra := Z.quot _ c.(config).(FileDescriptorsPerAdmission)) in *. nia.
Qed.

(** The limit a complete sample gives never cuts running work and never
    promises memory or descriptors beyond a hard limit: it lies between the
    streams in use and the maximum, and as soon as it admits one more stream,
    the use of EVERY memory constraint plus the full charge of all admitted
    streams stays at or below that constraint's hard percentage, and the same
    for descriptors where streams own some. *)
Theorem memory_limit_backed c now maximum inUse mem fds usages fd :
  Validate c.(config) = None → takeSample c.(hasFdSampler) mem fds = inr (usages, fd) →
  Forall (λ u, u.(LimitBytes) ≤ max_int64) usages → fd.(Limit) ≤ max_int64 →
  let '(s, _) := snapshotAt c now maximum inUse true mem fds in
  let n := clampInUse maximum inUse in
  n ≤ s.(AdmissionLimit) ≤ clampMaximum maximum ∧
  (n < s.(AdmissionLimit) →
   (∀ u, u ∈ usages →
      u.(UsedBytes) + s.(AdmissionLimit) * c.(config).(EstimatedBytesPerAdmission)
      ≤ u.(LimitBytes) * c.(config).(HardLimitPercent) / 100) ∧
   (fdValid fd = true → 0 < c.(config).(FileDescriptorsPerAdmission) →
      fd.(Used) + s.(AdmissionLimit) * c.(config).(FileDescriptorsPerAdmission)
      ≤ fd.(Limit) * c.(config).(HardLimitPercent) / 100)).
Proof.
  intros Hcfg Htake Hlim Hfd. unfold snapshotAt. simpl. rewrite Htake.
  apply takeSample_good in Htake as (_ & _ & Hval & _).
  destruct (clamp_range maximum inUse) as [Hn _].
  destruct (goodSnapshot_limit c now (clampMaximum maximum) (clampInUse maximum inUse) usages fd Hcfg Hn)
    as (Hrange & Hbacked & Hhead); [|done|].
  { apply Forall_forall. rewrite Forall_forall in Hval, Hlim. auto. }
  split; [done|]. intros Hlt. destruct (Hbacked Hlt) as [Hm Hf]. split; [|done].
  intros u Hu. specialize (Hhead u Hu). apply Validate_None in Hcfg as (_ & _ & Hc & _). nia.
Qed.

(** A server controller with a 1 GiB cgroup half used. *)
Definition example_config : AdaptiveMemoryConfig :=
  mkConfig 80 90 75 (100 * millisecond) (512 * 1024) AdaptiveAdmissionRoleServerStream 0 second.
Definition example_controller : AdaptiveMemoryController :=
  mkController example_config true MemoryPressureUnknown emptySnapshot 0 0 emptySnapshot.
Definition example_usage : MemoryUsage := mkUsage 536870912 1073741824 "cgroup".

Lemma memory_limit_backed_witness :
  let '(s, _) := snapshotAt example_controller second 65536 3 true
                   (inr [example_usage]) (inr (mkFD 100 1024)) in
  s.(AdmissionLimit) = 819 ∧
  example_usage.(UsedBytes) + 819 * 524288 ≤ example_usage.(LimitBytes) * 90 / 100.
Proof.
  pose proof (memory_limit_backed example_controller second 65536 3
    (inr [example_usage]) (inr (mkFD 100 1024)) [example_usage] (mkFD 100 1024)
    eq_refl eq_refl ltac:(repeat constructor; vm_compute; congruence)
    ltac:(vm_compute; congruence)) as H.
  destruct (snapshotAt _ _ _ _ _ _ _) as [s c'] eqn:E.
  assert (s.(AdmissionLimit) = 819) as Hs by (vm_compute in E; by injection E as <- <-).
  split; [done|]. destruct H as [_ H]. rewrite Hs in H.
  apply (proj1 (H ltac:(vm_compute; congruence))). by apply list_elem_of_singleton.
Defined.

(** An incomplete sample fails closed: unless every memory constraint was
    read and is valid, at least one exists, and the descriptor count (where
    the sampler has one) is valid, the snapshot rejects new work, its limits
    are exactly the streams in use whatever external resources are held, and
    the level is unknown. Whatever the outcome, the generation advances. *)
Theorem memory_fails_closed c now maximum inUse mem fds :
  let '(s, c') := snapshotAt c now maximum inUse true mem fds in
  s.(Generation) = u64 (c.(generation) + 1) ∧ c'.(generation) = s.(Generation) ∧
  c'.(snapshot) = s ∧
  ((∃ usages, mem = inr usages ∧ usages ≠ [] ∧ Forall (λ u, usageValid u = true) usages ∧
     (c.(hasFdSampler) = true → ∃ u, fds = inr u ∧ fdValid u = true)) ∨
   (s.(RejectNew) = true ∧ s.(Level) = MemoryPressureUnknown ∧ c'.(level) = MemoryPressureUnknown ∧
    s.(AdmissionLimit) = clampInUse maximum inUse ∧ c'.(lastGood) = c.(lastGood) ∧
    ∀ bytes fd, AdmissionLimitWithExternal s bytes fd ≤ clampInUse maximum inUse)).
Proof.
  unfold snapshotAt. simpl. destruct (takeSample _ _ _) as [err|[usages u]] eqn:E.
  - do 3 (split; [reflexivity|]). right. do 5 (split; [reflexivity|]). intros bytes fd.
    pose proof (clamp_range maximum inUse). etrans; [apply external_le_memory|].
    simpl. case_match; lia.
  - apply takeSample_good in E as (-> & Hne & Hall & Hfd).
    assert (Generation (goodSnapshot c now (clampMaximum maximum) (clampInUse maximum inUse) usages u)
      = u64 (generation c + 1)) as Hg.
    { unfold goodSnapshot. by destruct (fold_left _ _ _) as [[? ?] ?]. }
    split_and!; try done. left. exists usages. split_and!; try done.
    intros Hs. rewrite Hs in Hfd. eauto.
Qed.

(** The pressure a complete sample is judged by: the highest percentage of
    the memory constraints, or of the descriptors if that is higher. *)
Definition pressureOf (c : AdaptiveMemoryConfig) (usages : list MemoryUsage)
    (fd : FileDescriptorUsage) : float64 :=
  let first := default (mkUsage 0 0 "") (head usages) in
  let mp := (fold_left (scanUsage c.(HardLimitPercent)) usages
               (first, usagePercent first, max_int64)).1.2 in
  if fdValid fd && fgt (fdPercent fd) mp then fdPercent fd else mp.

(** A run of complete samples: the time, the streams in use, the readings. *)
Definition runSamples (c : AdaptiveMemoryController) (maximum : Z)
    (l : list (Z * Z * list MemoryUsage * FileDescriptorUsage)) : AdaptiveMemoryController :=
  fold_left (λ c '(now, inUse, usages, fd),
    (snapshotAt c now maximum inUse true (inr usages) (inr fd)).2) l c.

Lemma snapshotAt_level c now maximum inUse mem fds usages fd :
  takeSample c.(hasFdSampler) mem fds = inr (usages, fd) →
  let c' := (snapshotAt c now maximum inUse true mem fds).2 in
  c'.(level) = nextLevel c.(config) c.(level) (pressureOf c.(config) usages fd) ∧
  c'.(config) = c.(config) ∧ c'.(hasFdSampler) = c.(hasFdSampler).
Proof.
  intros H. unfold snapshotAt. simpl. rewrite H. simpl. split_and!; [|done..].
  unfold goodSnapshot, pressureOf. by destruct (fold_left _ _ _) as [[? ?] ?].
Qed.

(** The pressure level has hysteresis: once a complete sample reached the
    soft limit, any run of complete samples that stay at or above the
    recovery percentage leaves the controller under pressure; only a sample
    below the recovery percentage makes it healthy again. *)
Theorem memory_hysteresis c now maximum inUse mem fds usages fd l :
  takeSample c.(hasFdSampler) mem fds = inr (usages, fd) →
  fge (pressureOf c.(config) usages fd) (float_of_int c.(config).(SoftLimitPercent)) = true →
  Forall (λ '(_, _, us, f), takeSample c.(hasFdSampler) (inr us) (inr f) = inr (us, f) ∧
    fge (pressureOf c.(config) us f) (float_of_int c.(config).(RecoveryPercent)) = true) l →
  let c' := runSamples (snapshotAt c now maximum inUse true mem fds).2 maximum l in
  c'.(level) = MemoryPressureSoft ∨ c'.(level) = MemoryPressureCritical.
Proof.
  intros Ht Hsoft Hl. destruct (snapshotAt_level c now maximum inUse _ _ _ _ Ht) as (Hlv & Hc & Hf).
  simpl. set (c0 := (snapshotAt _ _ _ _ _ _ _).2) in *. clearbody c0.
  assert (level c0 = MemoryPressureSoft ∨ level c0 = MemoryPressureCritical) as Hlv0.
  { rewrite Hlv. unfold nextLevel. rewrite Hsoft. case_match; auto. }
  rewrite <- Hc, <- Hf in Hl. clear - Hl Hlv0. revert c0 Hlv0 Hl.
  induction l as [|[[[now inUse] us] f] l IH]; intros c0 Hlv0 Hl; simpl; [done|].
  apply Forall_cons in Hl as [[Ht Hr] Hl].
  destruct (snapshotAt_level c0 now maximum inUse _ _ _ _ Ht) as (Hlv & Hc & Hf).
  apply IH; [|by rewrite Hc, Hf]. rewrite Hlv. unfold nextLevel. rewrite Hr.
  repeat case_match; auto; destruct Hlv0 as [E|E]; rewrite E in *; done.
Qed.

Lemma memory_hysteresis_witness :
  let c' := runSamples (snapshotAt example_controller second 65536 3 true
              (inr [mkUsage 820 1000 "cgroup"]) (inr (mkFD 10 1024))).2 65536
              [(2 * second, 3, [mkUsage 780 1000 "cgroup"], mkFD 10 1024)] in
  c'.(level) = MemoryPressureSoft ∨ c'.(level) = MemoryPressureCritical.
Proof.
  refine (memory_hysteresis example_controller second 65536 3 _ _ [mkUsage 820 1000 "cgroup"]
    (mkFD 10 1024) _ _ _ _); [reflexivity|vm_compute; reflexivity|].
  repeat constructor; vm_compute; reflexivity.
Defined.

(** External reservations and streams share one envelope: when the limit
    with [bytes] and [fds] held outside is not negative, the external bytes
    and that many stream charges together fit in what the memory limit
    alone would give to streams, and the descriptors fit likewise; holding
    more can only lower the limit. *)
Theorem external_credit s bytes fds bytes' fds' :
  let memoryLimit := if (s.(MemoryAdmissionLimit) =? 0) && (s.(FDAdmissionLimit) =? 0)
                     then s.(AdmissionLimit) else s.(MemoryAdmissionLimit) in
  let limit := AdmissionLimitWithExternal s bytes fds in
  0 ≤ s.(StreamChargeFD) →
  (0 ≤ limit → 0 < s.(StreamChargeByte) → 0 < bytes → 0 ≤ memoryLimit →
     limit * s.(StreamChargeByte) + bytes ≤ memoryLimit * s.(StreamChargeByte)) ∧
  (0 ≤ limit → 0 < fds → s.(StreamChargeFD) = 0 → s.(AdmissionRole) ≠ "" → 0 < s.(FDLimit) →
     fds ≤ s.(FDHeadroomToHard)) ∧
  (bytes ≤ bytes' → fds ≤ fds' → AdmissionLimitWithExternal s bytes' fds' ≤ Z.max 0 limit).
Proof.
  simpl. intros Hfc. split_and!; [apply external_backed| |by apply external_mono].
  unfold AdmissionLimitWithExternal. set (fc := if (_ : bool) then 2 else StreamChargeFD s).
  intros H Hf H0 Hrole HL. assert (fc = 0) as Hfc0.
  { unfold fc. apply String.eqb_neq in Hrole. by rewrite Hrole. }
  rewrite Hfc0, (proj2 (Z.ltb_lt 0 _) Hf), (proj2 (Z.ltb_lt 0 _) HL) in H. simpl in H.
  destruct (_ && _) in H; [lia|]. destruct (Z.ltb_spec (FDHeadroomToHard s) fds); lia.
Qed.

Lemma external_credit_witness :
  let s := (snapshotAt example_controller second 65536 3 true
             (inr [example_usage]) (inr (mkFD 100 1024))).1 in
  AdmissionLimitWithExternal s (10 * 524288 + 1) 50 = 808 ∧
  808 * 524288 + (10 * 524288 + 1) ≤ 819 * 524288.
Proof.
  intros s. assert (AdmissionLimitWithExternal s (10 * 524288 + 1) 50 = 808) as E
    by (vm_compute; reflexivity).
  split; [exact E|].
  destruct (external_credit s (10 * 524288 + 1) 50 0 0) as [H _]; [vm_compute; congruence|].
  rewrite E in H. apply H; vm_compute; congruence.
Defined.

End MemoryPressure.
