(* ===== verification/StreamCapacity.v ===== *)
(** The admission of agent streams
    (internal/server/agent_stream_capacity.go,
    internal/server/agent_stream_capacity_runtime.go): data and operations.

    The fields of [agentStreamCapacityManager] are grouped by what they
    account for: the leases ([leaseLedger]), the external resources
    ([resourceLedger]), the waiters ([waitQueue]), the adaptive controller
    ([adaptiveState]) and the sessions.  The manager's mutex makes each
    operation atomic; an operation that unlocks in between ([acquire], the
    refresh of the adaptive sample) is one definition per critical section.

    Objects shared by pointer are kept in stores: a waiter is named by its
    pointer and lives in [heap]; a lease is named by its identifier, under
    which it is held in [activeLeases] from its grant to its release (the
    uint64 identifiers and counters do not wrap); the release closure of an external reservation
    is named by a token, present in [outstanding] until it ran.  The state of
    the contexts of waiting requests is an argument [ctxErr] of the operations
    that look at them. *)

From S2P Require Import Prelude MemoryPressure.

Module StreamCapacity.

(** ** Data *)

Inductive agentStreamCapacityClass := PublicPooled | PublicOneShot | TrustedHealth.
Inductive agentStreamLeaseState := LeaseOpening | LeaseLive | LeaseClosing | LeaseReleased.
Inductive agentStreamCapacityWaiterStatus := WaiterQueued | WaiterGranted | WaiterCanceled.
Inductive adaptiveResourceOwner :=
  | OwnerOther | OwnerPublicConnection | OwnerPublicHandshake | OwnerPublicRequest
  | OwnerPublicResponse | OwnerDirectConnection | OwnerReplayBuffer | OwnerReceiveWindow.

#[export] Instance class_eq_dec : EqDecision agentStreamCapacityClass.
Proof. solve_decision. Defined.
#[export] Instance leaseState_eq_dec : EqDecision agentStreamLeaseState.
Proof. solve_decision. Defined.
#[export] Instance waiterStatus_eq_dec : EqDecision agentStreamCapacityWaiterStatus.
Proof. solve_decision. Defined.
#[export] Instance owner_eq_dec : EqDecision adaptiveResourceOwner.
Proof. solve_decision. Defined.

(** The uint8 codes of classes and owners; a larger code is no class. *)
Definition classOf (code : Z) : option agentStreamCapacityClass :=
  if code =? 0 then Some PublicPooled
  else if code =? 1 then Some PublicOneShot
  else if code =? 2 then Some TrustedHealth else None.

Definition owners : list adaptiveResourceOwner :=
  [OwnerOther; OwnerPublicConnection; OwnerPublicHandshake; OwnerPublicRequest;
   OwnerPublicResponse; OwnerDirectConnection; OwnerReplayBuffer; OwnerReceiveWindow].
Definition ownerOf (code : Z) : option adaptiveResourceOwner :=
  if code <? 0 then None else owners !! Z.to_nat code.

(** The error values; the message of an invalid request is its argument. *)
Inductive capacityError :=
  | ErrInvalidRequest (message : string)
  | ErrClassDisabled | ErrTotalBudget | ErrPublicBudget | ErrPooledBudget | ErrControlBudget
  | ErrSessionBudget | ErrSessionOpeningLimit | ErrWaitTurn | ErrQueueFull | ErrKeyQueueFull
  | ErrResourcePressure.

#[export] Instance capacityError_eq_dec : EqDecision capacityError.
Proof. solve_decision. Defined.

Definition agentStreamCapacityConstraintName (e : capacityError) : string :=
  match e with
  | ErrTotalBudget => "total_budget"
  | ErrPublicBudget => "public_budget"
  | ErrPooledBudget => "pooled_budget"
  | ErrControlBudget => "control_budget"
  | ErrSessionBudget => "session_budget"
  | ErrSessionOpeningLimit => "session_opening_limit"
  | ErrWaitTurn => "fair_turn"
  | ErrQueueFull => "queue_full"
  | ErrKeyQueueFull => "key_queue_full"
  | ErrClassDisabled => "class_disabled"
  | ErrResourcePressure => "resource_pressure"
  | ErrInvalidRequest _ => "unknown"
  end.

(** [ctx.Err()] of a context that is done. *)
Inductive ctxError := ContextCanceled | ContextDeadlineExceeded.

(** The errors [acquire] returns: the context's, a plain sentinel, or an
    [agentStreamCapacityAcquireError]. *)
Inductive acquireError :=
  | ErrContext (e : ctxError)
  | ErrPlain (e : capacityError)
  | ErrAcquire (Cause : option ctxError) (Constraint : capacityError)
      (QueueKey SessionKey : string).

Record agentStreamCapacityConfig := mkConfig {
  Total : Z;
  Public : Z;
  Pooled : Z;
  Control : Z;
  MaxWaiters : Z;
  MaxWaitersPerKey : Z;
  MaxOpeningPerSession : Z;
  ReservedPublicForOtherSessions : Z;
}.

Record agentStreamCapacityLease := mkLease {
  class : agentStreamCapacityClass;
  queueKey : string;
  sessionKey : string;
  state : agentStreamLeaseState;
  stateChangedAt : Z;
}.

Record agentStreamCapacityWaiter := mkWaiter {
  wClass : agentStreamCapacityClass;
  wQueueKey : string;
  wSessionKey : string;
  wCtx : Z;
  ready : bool;
  wLease : option Z;
  wErr : option acquireError;
  status : agentStreamCapacityWaiterStatus;
}.

Record leaseLedger := mkLeases {
  usedTotal : Z;
  usedPublic : Z;
  usedPooled : Z;
  usedControl : Z;
  stateByClass : agentStreamCapacityClass → agentStreamLeaseState → Z;
  openingBySession : gmap string Z;
  publicOpeningBySession : gmap string Z;
  publicBySession : gmap string Z;
  totalBySession : gmap string Z;
  activeLeases : gmap Z agentStreamCapacityLease;
  nextLeaseID : Z;
  granted : Z;
  released : Z;
}.

Record reservation := mkReservation {
  rOwner : adaptiveResourceOwner;
  rBytes : Z;
  rFDs : Z;
  rLegacy : bool;
}.

Record resourceLedger := mkResources {
  adaptiveExternalBytes : Z;
  adaptiveExternalFDs : Z;
  legacyStreamSupplementBytes : Z;
  adaptiveExternalBytesByOwner : adaptiveResourceOwner → Z;
  adaptiveExternalFDsByOwner : adaptiveResourceOwner → Z;
  adaptiveExternalReservationsByOwner : adaptiveResourceOwner → Z;
  outstanding : gmap Z reservation;
  nextReservation : Z;
}.

Record waitQueue := mkQueue {
  queues : gmap string (list Z);
  queueKeys : list string;
  nextQueueKey : nat;
  waiters : Z;
  heap : gmap Z agentStreamCapacityWaiter;
  nextWaiter : Z;
}.

Record adaptiveState := mkAdaptive {
  adaptiveMemory : option Z;
  resourceSnapshot : MemoryPressure.AdaptiveMemorySnapshot;
  adaptiveSampling : Z;
  samplingChannel : bool;
}.

Record agentStreamCapacityManager := mkManager {
  config : agentStreamCapacityConfig;
  adaptive : adaptiveState;
  leases : leaseLedger;
  resources : resourceLedger;
  registeredSessions : gset string;
  sessionLimits : gmap string Z;
  admissionMissesByConstraint : gmap string Z;
  queue : waitQueue;
}.

(** Assignment to one group of fields. *)
Definition setAdaptive m a := mkManager m.(config) a m.(leases) m.(resources)
  m.(registeredSessions) m.(sessionLimits) m.(admissionMissesByConstraint) m.(queue).
Definition setLeases m l := mkManager m.(config) m.(adaptive) l m.(resources)
  m.(registeredSessions) m.(sessionLimits) m.(admissionMissesByConstraint) m.(queue).
Definition setResources m r := mkManager m.(config) m.(adaptive) m.(leases) r
  m.(registeredSessions) m.(sessionLimits) m.(admissionMissesByConstraint) m.(queue).
Definition setSessions m reg lim := mkManager m.(config) m.(adaptive) m.(leases) m.(resources)
  reg lim m.(admissionMissesByConstraint) m.(queue).
Definition setMisses m x := mkManager m.(config) m.(adaptive) m.(leases) m.(resources)
  m.(registeredSessions) m.(sessionLimits) x m.(queue).
Definition setQueue m q := mkManager m.(config) m.(adaptive) m.(leases) m.(resources)
  m.(registeredSessions) m.(sessionLimits) m.(admissionMissesByConstraint) q.

(** [m[k]] of a Go map of integers. *)
Definition get (m : gmap string Z) (k : string) : Z := default 0 (m !! k).
Definition incr (m : gmap string Z) (k : string) : gmap string Z := <[k := get m k + 1]> m.

(** The shared body of the three [releaseSession...Locked] helpers. *)
Definition decr (m : gmap string Z) (k : string) : gmap string Z :=
  if get m k <=? 1 then delete k m else <[k := get m k - 1]> m.

(** [a[c][s] += d] and [a[o] = v] on the fixed arrays. *)
Definition addState (f : agentStreamCapacityClass → agentStreamLeaseState → Z)
    (c : agentStreamCapacityClass) (s : agentStreamLeaseState) (d : Z) :=
  λ c' s', if bool_decide (c' = c ∧ s' = s) then f c' s' + d else f c' s'.
Definition setOwner (f : adaptiveResourceOwner → Z) (o : adaptiveResourceOwner) (v : Z) :=
  λ o', if bool_decide (o' = o) then v else f o'.

(** ** Configuration and construction *)

Definition validateAgentStreamCapacityConfig (c : agentStreamCapacityConfig) : option string :=
  if c.(Total) <? 1 then Some "total must be at least 1"
  else if (c.(Public) <? 0) || (c.(Total) <? c.(Public)) then
    Some "public must be between 0 and total"
  else if (c.(Pooled) <? 0) || (c.(Public) <? c.(Pooled)) then
    Some "pooled must be between 0 and public"
  else if (c.(Control) <? 0) || (c.(Total) <? c.(Control)) then
    Some "control must be between 0 and total"
  else if c.(Total) <? c.(Public) + c.(Control) then
    Some "public plus control must not exceed total"
  else if c.(MaxWaiters) <? 0 then Some "max waiters must not be negative"
  else if (c.(MaxWaitersPerKey) <? 0) || (c.(MaxWaiters) <? c.(MaxWaitersPerKey)) then
    Some "max waiters per key must be between 0 and max waiters"
  else if (0 <? c.(MaxWaiters)) && (c.(MaxWaitersPerKey) =? 0) then
    Some "max waiters per key must be positive when waiting is enabled"
  else if c.(MaxOpeningPerSession) <? 1 then Some "max opening per session must be at least 1"
  else if (c.(ReservedPublicForOtherSessions) <? 0) ||
          ((0 <? c.(Public)) && (c.(Public) <=? c.(ReservedPublicForOtherSessions))) then
    Some "public reserve for other sessions must be between 0 and public-1"
  else None.

Definition emptyLeases : leaseLedger :=
  mkLeases 0 0 0 0 (λ _ _, 0) ∅ ∅ ∅ ∅ ∅ 0 0 0.
Definition emptyResources : resourceLedger :=
  mkResources 0 0 0 (λ _, 0) (λ _, 0) (λ _, 0) ∅ 0.
Definition emptyQueue : waitQueue := mkQueue ∅ [] 0 0 ∅ 0.

(** A snapshot with only the given joint limit. *)
Definition limitSnapshot (limit : Z) : MemoryPressure.AdaptiveMemorySnapshot := {|
  MemoryPressure.Generation := 0;
  MemoryPressure.Usage := MemoryPressure.mkUsage 0 0 "";
  MemoryPressure.Level := MemoryPressure.MemoryPressureUnknown;
  MemoryPressure.AdmissionLimit := limit; MemoryPressure.MemoryAdmissionLimit := 0;
  MemoryPressure.FDAdmissionLimit := 0; MemoryPressure.Maximum := limit;
  MemoryPressure.RejectNew := false; MemoryPressure.SampledAt := 0;
  MemoryPressure.NextSampleAt := 0; MemoryPressure.SampleError := "";
  MemoryPressure.HeadroomToHardByte := 0; MemoryPressure.ReservedStreamByte := 0;
  MemoryPressure.StreamChargeByte := 0; MemoryPressure.StreamChargeFD := 0;
  MemoryPressure.AdmissionRole := ""; MemoryPressure.FDUsed := 0; MemoryPressure.FDLimit := 0;
  MemoryPressure.FDHeadroomToHard := 0; MemoryPressure.ReservedStreamFD := 0;
  MemoryPressure.PressureReason := ""; MemoryPressure.LastGoodSampleAt := 0 |}.

Definition newAgentStreamCapacityManager (c : agentStreamCapacityConfig)
    : agentStreamCapacityManager + string :=
  match validateAgentStreamCapacityConfig c with
  | Some err => inr err
  | None => inl (mkManager c (mkAdaptive None (limitSnapshot c.(Total)) 0 false)
                   emptyLeases emptyResources ∅ ∅ ∅ emptyQueue)
  end.

Definition defaultAgentStreamCapacityControlStreams : Z := 4.
Definition minimumAgentStreamCapacityWaiters : Z := 64.
(** [tunnel.MaxServerConcurrentStreamsLimit], [DefaultServerMaxConcurrentStreams]
    and the AcceptBacklog of [tunnel.DefaultYamuxConfig]. *)
Definition MaxServerConcurrentStreamsLimit : Z := 65536.
Definition DefaultServerMaxConcurrentStreams : Z := 256.
Definition yamuxAcceptBacklog : Z := 256.

Definition defaultAgentStreamCapacityConfig (total : Z) : agentStreamCapacityConfig :=
  let total := if (total <? 1) || (MaxServerConcurrentStreamsLimit <? total)
               then DefaultServerMaxConcurrentStreams else total in
  let control :=
    if 1 <? total then
      let control := Z.max 1 (Z.quot total 16) in
      let maximum := Z.max (Z.quot total 64) defaultAgentStreamCapacityControlStreams in
      let maximum := Z.min maximum 64 in
      Z.min control maximum
    else 0 in
  let public := total - control in
  let reservedOneShot := Z.quot (public + 3) 4 in
  let maxWaiters := Z.min (Z.max total minimumAgentStreamCapacityWaiters)
                      MaxServerConcurrentStreamsLimit in
  {| Total := total; Public := public;
     Pooled := if 1 <? public then public - reservedOneShot else 0;
     Control := control; MaxWaiters := maxWaiters; MaxWaitersPerKey := maxWaiters;
     MaxOpeningPerSession := Z.min yamuxAcceptBacklog total;
     ReservedPublicForOtherSessions := if 1 <? public then reservedOneShot else 0 |}.

Definition mustNewDefaultAgentStreamCapacityManager (total : Z) : option agentStreamCapacityManager :=
  match newAgentStreamCapacityManager (defaultAgentStreamCapacityConfig total) with
  | inl m => Some m
  | inr _ =>
      match newAgentStreamCapacityManager
              (defaultAgentStreamCapacityConfig DefaultServerMaxConcurrentStreams) with
      | inl m => Some m
      | inr _ => None
      end
  end.

(** ** The queued waiters *)

(** The waiters of all queues, in some order. *)
Definition queuedWaiters (q : waitQueue) : list agentStreamCapacityWaiter :=
  concat (map (λ kv, omap (λ p, q.(heap) !! p) kv.2) (map_to_list q.(queues))).

Definition isHealth (c : agentStreamCapacityClass) : bool := bool_decide (c = TrustedHealth).

Definition waiterCountForClassLocked (m : agentStreamCapacityManager)
    (c : agentStreamCapacityClass) : Z :=
  Z.of_nat (length (filter (λ w, w.(wClass) = c) (queuedWaiters m.(queue)))).

Definition hasPublicWaiterForOtherSessionLocked (m : agentStreamCapacityManager) (key : string) : bool :=
  existsb (λ w, negb (String.eqb w.(wSessionKey) key) && negb (isHealth w.(wClass)))
    (queuedWaiters m.(queue)).

(** ** Limits *)

Definition adaptiveEffectiveAdmissionLimitLocked m : Z :=
  Z.max 0 (MemoryPressure.AdmissionLimitWithExternal m.(adaptive).(resourceSnapshot)
             m.(resources).(adaptiveExternalBytes) m.(resources).(adaptiveExternalFDs)).

Definition adaptiveProtectedControlLocked m : Z :=
  let protected := Z.min m.(config).(Control) defaultAgentStreamCapacityControlStreams in
  let effective := adaptiveEffectiveAdmissionLimitLocked m in
  if effective <=? protected then Z.max 0 (effective - 1) else protected.

Definition adaptivePublicLimitLocked m : Z :=
  let limit := adaptiveEffectiveAdmissionLimitLocked m - adaptiveProtectedControlLocked m in
  if limit <? 0 then 0
  else if m.(config).(Public) <? limit then m.(config).(Public) else limit.

Definition adaptiveStreamAdmissionLimitLocked m : Z :=
  Z.min (adaptiveEffectiveAdmissionLimitLocked m) m.(config).(Total).

Definition sessionLimitLocked m (key : string) : Z :=
  let limit := get m.(sessionLimits) key in
  if (0 <? limit) && (limit <? m.(config).(Total)) then limit else m.(config).(Total).

Definition publicSessionLimitLocked m (key : string) : Z :=
  let limit := m.(config).(Public) in
  if (m.(config).(ReservedPublicForOtherSessions) <=? 0) ||
     (Z.of_nat (size m.(registeredSessions)) <=? 1) ||
     negb (hasPublicWaiterForOtherSessionLocked m key) then limit
  else if bool_decide (key ∈ m.(registeredSessions))
  then limit - m.(config).(ReservedPublicForOtherSessions) else limit.

(** It only reads the configuration. *)
Definition publicOpeningLimitPerSessionLocked (c : agentStreamCapacityConfig) : Z :=
  let limit := c.(MaxOpeningPerSession) in
  if (c.(Total) <=? limit) || (c.(Control) <=? 0) || (limit <=? 1) then limit
  else
    let reserve := Z.min c.(Control) defaultAgentStreamCapacityControlStreams in
    let reserve := if limit <=? reserve then limit - 1 else reserve in
    limit - reserve.

Definition classEnabledLocked m (c : agentStreamCapacityClass) : bool :=
  match c with
  | PublicPooled => (0 <? m.(config).(Public)) && (0 <? m.(config).(Pooled))
  | PublicOneShot => 0 <? m.(config).(Public)
  | TrustedHealth => 0 <? m.(config).(Control)
  end.

Definition isAdaptive m : bool := bool_decide (is_Some m.(adaptive).(adaptiveMemory)).

Definition canGrantLocked m (c : agentStreamCapacityClass) (key : string) : bool :=
  let l := m.(leases) in
  if (isAdaptive m &&
        (m.(adaptive).(resourceSnapshot).(MemoryPressure.RejectNew)
         || (adaptiveEffectiveAdmissionLimitLocked m <=? l.(usedTotal))
         || (negb (isHealth c) && (adaptivePublicLimitLocked m <=? l.(usedPublic)))))
     || (m.(config).(Total) <=? l.(usedTotal))
     || (sessionLimitLocked m key <=? get l.(totalBySession) key)
     || (m.(config).(MaxOpeningPerSession) <=? get l.(openingBySession) key)
  then false
  else
    match c with
    | PublicPooled =>
        (l.(usedPublic) <? m.(config).(Public)) && (l.(usedPooled) <? m.(config).(Pooled)) &&
        (get l.(publicBySession) key <? publicSessionLimitLocked m key) &&
        (get l.(publicOpeningBySession) key <? publicOpeningLimitPerSessionLocked m.(config))
    | PublicOneShot =>
        (l.(usedPublic) <? m.(config).(Public)) &&
        (get l.(publicBySession) key <? publicSessionLimitLocked m key) &&
        (get l.(publicOpeningBySession) key <? publicOpeningLimitPerSessionLocked m.(config))
    | TrustedHealth => l.(usedControl) <? m.(config).(Control)
    end.

Definition blockingConstraintLocked m (c : agentStreamCapacityClass) (key : string) : capacityError :=
  let l := m.(leases) in
  let adaptiveTotal := adaptiveEffectiveAdmissionLimitLocked m in
  let adaptivePublic := adaptivePublicLimitLocked m in
  let openingFull :=
    (m.(config).(MaxOpeningPerSession) <=? get l.(openingBySession) key) ||
    (publicOpeningLimitPerSessionLocked m.(config) <=? get l.(publicOpeningBySession) key) in
  if isAdaptive m &&
     (m.(adaptive).(resourceSnapshot).(MemoryPressure.RejectNew)
      || ((adaptiveTotal <? m.(config).(Total)) && (adaptiveTotal <=? l.(usedTotal)))
      || (negb (isHealth c) && (adaptivePublic <? m.(config).(Public)) &&
          (adaptivePublic <=? l.(usedPublic))))
  then ErrResourcePressure
  else if m.(config).(Total) <=? l.(usedTotal) then ErrTotalBudget
  else if sessionLimitLocked m key <=? get l.(totalBySession) key then ErrSessionBudget
  else
    match c with
    | PublicPooled =>
        if m.(config).(Public) <=? l.(usedPublic) then ErrPublicBudget
        else if publicSessionLimitLocked m key <=? get l.(publicBySession) key then ErrSessionBudget
        else if openingFull then ErrSessionOpeningLimit
        else if m.(config).(Pooled) <=? l.(usedPooled) then ErrPooledBudget
        else ErrWaitTurn
    | PublicOneShot =>
        if m.(config).(Public) <=? l.(usedPublic) then ErrPublicBudget
        else if publicSessionLimitLocked m key <=? get l.(publicBySession) key then ErrSessionBudget
        else if openingFull then ErrSessionOpeningLimit
        else ErrWaitTurn
    | TrustedHealth =>
        if m.(config).(Control) <=? l.(usedControl) then ErrControlBudget
        else if m.(config).(MaxOpeningPerSession) <=? get l.(openingBySession) key
        then ErrSessionOpeningLimit
        else ErrWaitTurn
    end.

Definition hasCompetingWaiterLocked m (c : agentStreamCapacityClass) : bool :=
  existsb (λ w, Bool.eqb (isHealth c) (isHealth w.(wClass)) &&
                canGrantLocked m w.(wClass) w.(wSessionKey))
    (queuedWaiters m.(queue)).

Definition recordRejectionLocked m (e : capacityError) : agentStreamCapacityManager :=
  setMisses m (incr m.(admissionMissesByConstraint) (agentStreamCapacityConstraintName e)).

(** ** Granting and releasing *)

Definition isPublic (c : agentStreamCapacityClass) : bool := negb (isHealth c).
Definition isPooled (c : agentStreamCapacityClass) : bool := bool_decide (c = PublicPooled).
Definition b2z (b : bool) : Z := if b then 1 else 0.

(** [grantLocked]: the new identifier and the ledger. *)
Definition grantLocked (l : leaseLedger) (now : Z) (c : agentStreamCapacityClass)
    (qkey skey : string) : Z * leaseLedger :=
  let id := l.(nextLeaseID) + 1 in
  (id, {|
    usedTotal := l.(usedTotal) + 1;
    usedPublic := if isPublic c then l.(usedPublic) + 1 else l.(usedPublic);
    usedPooled := if isPooled c then l.(usedPooled) + 1 else l.(usedPooled);
    usedControl := if isHealth c then l.(usedControl) + 1 else l.(usedControl);
    stateByClass := addState l.(stateByClass) c LeaseOpening 1;
    openingBySession := incr l.(openingBySession) skey;
    publicOpeningBySession :=
      if isPublic c then incr l.(publicOpeningBySession) skey else l.(publicOpeningBySession);
    publicBySession := if isPublic c then incr l.(publicBySession) skey else l.(publicBySession);
    totalBySession := incr l.(totalBySession) skey;
    activeLeases := <[id := mkLease c qkey skey LeaseOpening now]> l.(activeLeases);
    nextLeaseID := id; granted := l.(granted) + 1; released := l.(released) |}).

(** [releaseSessionOpeningLocked] on the two maps it changes. *)
Definition releaseSessionOpeningLocked (l : leaseLedger) (c : agentStreamCapacityClass)
    (skey : string) : gmap string Z * gmap string Z :=
  (decr l.(openingBySession) skey,
   if isHealth c then l.(publicOpeningBySession) else decr l.(publicOpeningBySession) skey).

(** The lease [id] moves to [s]: the counters, its session's openings when it
    leaves the opening state, and the object itself. *)
Definition moveLease (l : leaseLedger) (now id : Z) (x : agentStreamCapacityLease)
    (s : agentStreamLeaseState) : leaseLedger :=
  let '(op, pop) :=
    if bool_decide (x.(state) = LeaseOpening) then releaseSessionOpeningLocked l x.(class) x.(sessionKey)
    else (l.(openingBySession), l.(publicOpeningBySession)) in
  {| usedTotal := l.(usedTotal); usedPublic := l.(usedPublic); usedPooled := l.(usedPooled);
     usedControl := l.(usedControl);
     stateByClass := addState (addState l.(stateByClass) x.(class) x.(state) (-1)) x.(class) s 1;
     openingBySession := op; publicOpeningBySession := pop;
     publicBySession := l.(publicBySession); totalBySession := l.(totalBySession);
     activeLeases := <[id := mkLease x.(class) x.(queueKey) x.(sessionKey) s now]> l.(activeLeases);
     nextLeaseID := l.(nextLeaseID); granted := l.(granted); released := l.(released) |}.

Definition releaseLease (l : leaseLedger) (id : Z) (x : agentStreamCapacityLease) : leaseLedger :=
  let '(op, pop) :=
    if bool_decide (x.(state) = LeaseOpening) then releaseSessionOpeningLocked l x.(class) x.(sessionKey)
    else (l.(openingBySession), l.(publicOpeningBySession)) in
  {| usedTotal := l.(usedTotal) - 1;
     usedPublic := if isPublic x.(class) then l.(usedPublic) - 1 else l.(usedPublic);
     usedPooled := if isPooled x.(class) then l.(usedPooled) - 1 else l.(usedPooled);
     usedControl := if isHealth x.(class) then l.(usedControl) - 1 else l.(usedControl);
     stateByClass := addState l.(stateByClass) x.(class) x.(state) (-1);
     openingBySession := op; publicOpeningBySession := pop;
     publicBySession := if isPublic x.(class) then decr l.(publicBySession) x.(sessionKey)
                        else l.(publicBySession);
     totalBySession := decr l.(totalBySession) x.(sessionKey);
     activeLeases := delete id l.(activeLeases);
     nextLeaseID := l.(nextLeaseID); granted := l.(granted); released := l.(released) + 1 |}.

(** ** The waiter queues *)

Definition enqueueLocked (q : waitQueue) (p : Z) (w : agentStreamCapacityWaiter) : waitQueue :=
  let old := default [] (q.(queues) !! w.(wQueueKey)) in
  mkQueue (<[w.(wQueueKey) := old ++ [p]]> q.(queues))
    (match old with [] => q.(queueKeys) ++ [w.(wQueueKey)] | _ => q.(queueKeys) end)
    q.(nextQueueKey) (q.(waiters) + 1) (<[p := w]> q.(heap)) q.(nextWaiter).

Definition removeQueueKeyAtLocked (q : waitQueue) (index : nat) : waitQueue :=
  let keys := delete index q.(queueKeys) in
  let next :=
    match keys with
    | [] => 0%nat
    | _ => let c := if (index <? q.(nextQueueKey))%nat then (q.(nextQueueKey) - 1)%nat
                    else q.(nextQueueKey) in
           if (length keys <=? c)%nat then 0%nat else c
    end in
  mkQueue q.(queues) keys next q.(waiters) q.(heap) q.(nextWaiter).

Definition popQueueEntryLocked (q : waitQueue) (index waiterIndex : nat) (advance : bool) : waitQueue :=
  match q.(queueKeys) !! index with
  | None => q
  | Some key =>
      let rest := delete waiterIndex (default [] (q.(queues) !! key)) in
      match rest with
      | [] => removeQueueKeyAtLocked
                (mkQueue (delete key q.(queues)) q.(queueKeys) q.(nextQueueKey) (q.(waiters) - 1)
                   q.(heap) q.(nextWaiter)) index
      | _ => mkQueue (<[key := rest]> q.(queues)) q.(queueKeys)
               (if advance then ((index + 1) mod length q.(queueKeys))%nat else index)
               (q.(waiters) - 1) q.(heap) q.(nextWaiter)
      end
  end.

(** The first position of an element; the length when there is none. *)
Fixpoint indexOf {A} `{EqDecision A} (x : A) (l : list A) : nat :=
  match l with
  | [] => 0
  | y :: l => if bool_decide (y = x) then 0 else S (indexOf x l)
  end.

Definition removeWaiterLocked (q : waitQueue) (p : Z) (key : string) : waitQueue :=
  let old := default [] (q.(queues) !! key) in
  if bool_decide (p ∈ old) then
    let rest := delete (indexOf p old) old in
    match rest with
    | [] =>
        let q' := mkQueue (delete key q.(queues)) q.(queueKeys) q.(nextQueueKey) (q.(waiters) - 1)
                    q.(heap) q.(nextWaiter) in
        if bool_decide (key ∈ q.(queueKeys)) then removeQueueKeyAtLocked q' (indexOf key q.(queueKeys))
        else q'
    | _ => mkQueue (<[key := rest]> q.(queues)) q.(queueKeys) q.(nextQueueKey) (q.(waiters) - 1)
             q.(heap) q.(nextWaiter)
    end
  else q.

Definition setWaiter (q : waitQueue) (p : Z) (w : agentStreamCapacityWaiter) : waitQueue :=
  mkQueue q.(queues) q.(queueKeys) q.(nextQueueKey) q.(waiters) (<[p := w]> q.(heap)) q.(nextWaiter).
Definition setCursor (q : waitQueue) (i : nat) : waitQueue :=
  mkQueue q.(queues) q.(queueKeys) i q.(waiters) q.(heap) q.(nextWaiter).

(** ** Dispatch *)

Section dispatch.
Context (now : Z) (ctxErr : Z → option ctxError).
Implicit Types m : agentStreamCapacityManager.

(** The loop over one queue: the first waiter whose context is done or that
    can be granted, with its position. *)
Fixpoint scanQueue m (i : nat) (l : list Z)
    : option (nat * Z * agentStreamCapacityWaiter * option ctxError) :=
  match l with
  | [] => None
  | p :: l =>
      match m.(queue).(heap) !! p with
      | None => scanQueue m (S i) l
      | Some w =>
          match ctxErr w.(wCtx) with
          | Some err => Some (i, p, w, Some err)
          | None => if canGrantLocked m w.(wClass) w.(wSessionKey) then Some (i, p, w, None)
                    else scanQueue m (S i) l
          end
      end
  end.

(** The body for the waiter found: it is canceled or granted. *)
Definition cancelQueued m (index i : nat) (p : Z) (w : agentStreamCapacityWaiter) (err : ctxError)
    : agentStreamCapacityManager :=
  let constraint := blockingConstraintLocked m w.(wClass) w.(wSessionKey) in
  let m := recordRejectionLocked m constraint in
  let q := popQueueEntryLocked m.(queue) index i false in
  setQueue m (setWaiter q p (mkWaiter w.(wClass) w.(wQueueKey) w.(wSessionKey) w.(wCtx) true
    w.(wLease) (Some (ErrAcquire (Some err) constraint w.(wQueueKey) w.(wSessionKey))) WaiterCanceled)).

Definition grantQueued m (index i : nat) (p : Z) (w : agentStreamCapacityWaiter)
    : agentStreamCapacityManager :=
  let q := popQueueEntryLocked m.(queue) index i true in
  let '(id, l) := grantLocked m.(leases) now w.(wClass) w.(wQueueKey) w.(wSessionKey) in
  setQueue (setLeases m l) (setWaiter q p (mkWaiter w.(wClass) w.(wQueueKey) w.(wSessionKey)
    w.(wCtx) true (Some id) w.(wErr) WaiterGranted)).

(** The scan over the queue keys with [n] keys left; the flag is [progress]. *)
Fixpoint dispatchPass (n : nat) m : agentStreamCapacityManager * bool :=
  match n with
  | 0%nat => (m, false)
  | S n =>
      let len := length m.(queue).(queueKeys) in
      let index := if (len <=? m.(queue).(nextQueueKey))%nat then 0%nat else m.(queue).(nextQueueKey) in
      let m := setQueue m (setCursor m.(queue) index) in
      match m.(queue).(queueKeys) !! index with
      | None => (m, false)
      | Some key =>
          match default [] (m.(queue).(queues) !! key) with
          | [] => (setQueue m (removeQueueKeyAtLocked m.(queue) index), true)
          | l =>
              match scanQueue m 0 l with
              | Some (i, p, w, Some err) => (cancelQueued m index i p w err, true)
              | Some (i, p, w, None) => (grantQueued m index i p w, true)
              | None => dispatchPass n (setQueue m (setCursor m.(queue) ((index + 1) mod len)%nat))
              end
          end
      end
  end.

Fixpoint dispatchLoop (fuel : nat) m : agentStreamCapacityManager :=
  match fuel with
  | 0%nat => m
  | S fuel =>
      if (0 <? m.(queue).(waiters)) && (0 <? length m.(queue).(queueKeys))%nat then
        let '(m, progress) := dispatchPass (length m.(queue).(queueKeys)) m in
        if progress then dispatchLoop fuel m else m
      else m
  end.

(** Every pass that makes progress removes a waiter or an empty queue. *)
Definition dispatchMeasure (q : waitQueue) : nat :=
  length q.(queueKeys) + length (concat (map (λ k, default [] (q.(queues) !! k)) q.(queueKeys))).

Definition dispatchLocked m : agentStreamCapacityManager :=
  if 0 <? m.(adaptive).(adaptiveSampling) then m
  else dispatchLoop (S (dispatchMeasure m.(queue))) m.

(** ** Leases *)

Definition markLive m (id : Z) : agentStreamCapacityManager * bool :=
  match m.(leases).(activeLeases) !! id with
  | Some x =>
      if bool_decide (x.(state) = LeaseOpening)
      then (dispatchLocked (setLeases m (moveLease m.(leases) now id x LeaseLive)), true)
      else (m, false)
  | None => (m, false)
  end.

Definition markClosing m (id : Z) : agentStreamCapacityManager * bool :=
  match m.(leases).(activeLeases) !! id with
  | Some x =>
      match x.(state) with
      | LeaseOpening | LeaseLive =>
          (dispatchLocked (setLeases m (moveLease m.(leases) now id x LeaseClosing)), true)
      | _ => (m, false)
      end
  | None => (m, false)
  end.

Definition release m (id : Z) : agentStreamCapacityManager * bool :=
  match m.(leases).(activeLeases) !! id with
  | Some x =>
      if bool_decide (x.(state) = LeaseReleased) then (m, false)
      else (dispatchLocked (setLeases m (releaseLease m.(leases) id x)), true)
  | None => (m, false)
  end.

Definition currentState m (id : Z) : agentStreamLeaseState :=
  match m.(leases).(activeLeases) !! id with Some x => x.(state) | None => LeaseReleased end.

(** ** Acquiring *)

(** The validation of a request before the manager is locked. *)
Definition checkRequest (code : Z) (qkey skey : string) : agentStreamCapacityClass + acquireError :=
  match classOf code with
  | None => inr (ErrPlain (ErrInvalidRequest "unknown class"))
  | Some c =>
      if String.eqb qkey "" then inr (ErrPlain (ErrInvalidRequest "queue key is empty"))
      else if String.eqb skey "" then inr (ErrPlain (ErrInvalidRequest "session key is empty"))
      else inl c
  end.

Inductive acquireOutcome :=
  | AcquireGranted (lease : Z)
  | AcquireFailed (err : acquireError)
  | AcquireWaiting (waiter : Z)
  | AcquireSampling
  | AcquireNothing. (* neither a lease nor an error *)

(** The first critical section of [acquire], after the validation and the
    refresh; while a sample is being taken the request waits for it. *)
Definition acquire m (ctx : Z) (code : Z) (qkey skey : string)
    : agentStreamCapacityManager * acquireOutcome :=
  match checkRequest code qkey skey with
  | inr err => (m, AcquireFailed err)
  | inl c =>
      match ctxErr ctx with
      | Some err => (m, AcquireFailed (ErrContext err))
      | None =>
          if 0 <? m.(adaptive).(adaptiveSampling) then (m, AcquireSampling)
          else if negb (classEnabledLocked m c) then
            (recordRejectionLocked m ErrClassDisabled, AcquireFailed (ErrPlain ErrClassDisabled))
          else if negb (hasCompetingWaiterLocked m c) && canGrantLocked m c skey then
            let '(id, l) := grantLocked m.(leases) now c qkey skey in
            (setLeases m l, AcquireGranted id)
          else
            let queueLimitReached :=
              if isHealth c
              then Z.max 1 m.(config).(Control) <=? waiterCountForClassLocked m c
              else m.(config).(MaxWaiters) <=?
                   m.(queue).(waiters) - waiterCountForClassLocked m TrustedHealth in
            if queueLimitReached then
              (recordRejectionLocked m ErrQueueFull,
               AcquireFailed (ErrAcquire None ErrQueueFull qkey skey))
            else if m.(config).(MaxWaitersPerKey) <=?
                    Z.of_nat (length (default [] (m.(queue).(queues) !! qkey))) then
              (recordRejectionLocked m ErrKeyQueueFull,
               AcquireFailed (ErrAcquire None ErrKeyQueueFull qkey skey))
            else
              let p := m.(queue).(nextWaiter) in
              let w := mkWaiter c qkey skey ctx false None None WaiterQueued in
              let q := mkQueue m.(queue).(queues) m.(queue).(queueKeys) m.(queue).(nextQueueKey)
                         m.(queue).(waiters) m.(queue).(heap) (p + 1) in
              (dispatchLocked (setQueue m (enqueueLocked q p w)), AcquireWaiting p)
      end
  end.

(** The case [<-waiter.ready] of the select. *)
Definition acquireReady m (p : Z) : agentStreamCapacityManager * acquireOutcome :=
  match m.(queue).(heap) !! p with
  | Some w =>
      match w.(wLease), ctxErr w.(wCtx) with
      | Some id, Some err =>
          let m := setQueue m (setWaiter m.(queue) p (mkWaiter w.(wClass) w.(wQueueKey)
                     w.(wSessionKey) w.(wCtx) w.(ready) None w.(wErr) w.(status))) in
          ((release m id).1, AcquireFailed (ErrContext err))
      | Some id, None => (m, AcquireGranted id)
      | None, _ => (m, match w.(wErr) with Some e => AcquireFailed e | None => AcquireNothing end)
      end
  | None => (m, AcquireNothing)
  end.

(** The case [<-ctx.Done()] of the select; [err] is [ctx.Err()]. *)
Definition acquireDone m (p : Z) (err : ctxError) : agentStreamCapacityManager * acquireOutcome :=
  match m.(queue).(heap) !! p with
  | Some w =>
      match w.(status) with
      | WaiterQueued =>
          let constraint := blockingConstraintLocked m w.(wClass) w.(wSessionKey) in
          let m := recordRejectionLocked m constraint in
          let e := ErrAcquire (Some err) constraint w.(wQueueKey) w.(wSessionKey) in
          let q := removeWaiterLocked m.(queue) p w.(wQueueKey) in
          let q := setWaiter q p (mkWaiter w.(wClass) w.(wQueueKey) w.(wSessionKey) w.(wCtx)
                     w.(ready) w.(wLease) (Some e) WaiterCanceled) in
          (dispatchLocked (setQueue m q), AcquireFailed e)
      | WaiterGranted =>
          let m' := setQueue m (setWaiter m.(queue) p (mkWaiter w.(wClass) w.(wQueueKey)
                      w.(wSessionKey) w.(wCtx) w.(ready) None w.(wErr) w.(status))) in
          (match w.(wLease) with Some id => (release m' id).1 | None => m' end,
           AcquireFailed (ErrContext err))
      | WaiterCanceled => (m, AcquireFailed (default (ErrContext err) w.(wErr)))
      end
  | None => (m, AcquireNothing)
  end.

Definition tryAcquire m (code : Z) (qkey skey : string) : agentStreamCapacityManager * acquireOutcome :=
  match checkRequest code qkey skey with
  | inr err => (m, AcquireFailed err)
  | inl c =>
      if 0 <? m.(adaptive).(adaptiveSampling) then (m, AcquireSampling)
      else if negb (classEnabledLocked m c) then
        (recordRejectionLocked m ErrClassDisabled, AcquireFailed (ErrPlain ErrClassDisabled))
      else if hasCompetingWaiterLocked m c then
        (recordRejectionLocked m ErrWaitTurn, AcquireFailed (ErrAcquire None ErrWaitTurn qkey skey))
      else
        let constraint := blockingConstraintLocked m c skey in
        if bool_decide (constraint = ErrWaitTurn) then
          let '(id, l) := grantLocked m.(leases) now c qkey skey in
          (setLeases m l, AcquireGranted id)
        else (recordRejectionLocked m constraint,
              AcquireFailed (ErrAcquire None constraint qkey skey))
  end.

(** ** Sessions *)

Definition registerSessionWithLimit m (key : string) (limit : Z) : agentStreamCapacityManager :=
  if String.eqb key "" then m
  else
    let limit := Z.min (Z.max limit 1) m.(config).(Total) in
    dispatchLocked (setSessions m ({[key]} ∪ m.(registeredSessions)) (<[key := limit]> m.(sessionLimits))).

Definition registerSession m (key : string) : agentStreamCapacityManager :=
  registerSessionWithLimit m key m.(config).(Total).

Definition unregisterSession m (key : string) : agentStreamCapacityManager :=
  if String.eqb key "" then m
  else dispatchLocked (setSessions m (m.(registeredSessions) ∖ {[key]}) (delete key m.(sessionLimits))).

(** ** External resources *)

Definition saturatingAddInt64 (left right : Z) : Z :=
  if right <=? 0 then left
  else if max_int64 - right <? left then max_int64 else left + right.

Inductive reserveOutcome :=
  | Unconstrained
  | Rejected
  | Reserved (token : Z)
  | ReserveSampling.

Definition tryReserveAdaptiveResourceMode m (code : Z) (memoryBytes fileDescriptors : Z)
    (legacy : bool) : agentStreamCapacityManager * reserveOutcome :=
  if 0 <? m.(adaptive).(adaptiveSampling) then (m, ReserveSampling)
  else if negb (isAdaptive m) then (m, Unconstrained)
  else
    let snap := m.(adaptive).(resourceSnapshot) in
    let r := m.(resources) in
    match ownerOf code with
    | None => (m, Rejected)
    | Some o =>
        if (memoryBytes <? 0) || (fileDescriptors <? 0) || snap.(MemoryPressure.RejectNew) ||
           negb (MemoryPressure.usageValid snap.(MemoryPressure.Usage)) ||
           (snap.(MemoryPressure.StreamChargeByte) <=? 0) then (m, Rejected)
        else
          let proposedBytes := saturatingAddInt64 r.(adaptiveExternalBytes) memoryBytes in
          let proposedFDs := saturatingAddInt64 r.(adaptiveExternalFDs) fileDescriptors in
          let limit := MemoryPressure.AdmissionLimitWithExternal snap proposedBytes proposedFDs in
          let protected := Z.max 0 (adaptiveProtectedControlLocked m - m.(leases).(usedControl)) in
          if limit <? m.(leases).(usedTotal) + protected then (m, Rejected)
          else
            let bytesBy := r.(adaptiveExternalBytesByOwner) in
            let fdsBy := r.(adaptiveExternalFDsByOwner) in
            let countBy := r.(adaptiveExternalReservationsByOwner) in
            let token := r.(nextReservation) in
            (setResources m {|
               adaptiveExternalBytes := proposedBytes;
               adaptiveExternalFDs := proposedFDs;
               legacyStreamSupplementBytes :=
                 if legacy then saturatingAddInt64 r.(legacyStreamSupplementBytes) memoryBytes
                 else r.(legacyStreamSupplementBytes);
               adaptiveExternalBytesByOwner :=
                 setOwner bytesBy o (saturatingAddInt64 (bytesBy o) memoryBytes);
               adaptiveExternalFDsByOwner :=
                 setOwner fdsBy o (saturatingAddInt64 (fdsBy o) fileDescriptors);
               adaptiveExternalReservationsByOwner :=
                 setOwner countBy o (saturatingAddInt64 (countBy o) 1);
               outstanding := <[token := mkReservation o memoryBytes fileDescriptors legacy]>
                                r.(outstanding);
               nextReservation := token + 1 |}, Reserved token)
    end.

Definition tryReserveAdaptiveExternal m (memoryBytes fileDescriptors : Z) :=
  tryReserveAdaptiveResourceMode m 0 memoryBytes fileDescriptors false.
Definition tryReserveLegacyStreamSupplement m (memoryBytes : Z) :=
  tryReserveAdaptiveResourceMode m 7 memoryBytes 0 true.
Definition tryReserveAdaptiveResource m (code memoryBytes fileDescriptors : Z) :=
  tryReserveAdaptiveResourceMode m code memoryBytes fileDescriptors false.

(** The release closure of a reservation: it runs once. *)
Definition releaseReservation m (token : Z) : agentStreamCapacityManager :=
  let r := m.(resources) in
  match r.(outstanding) !! token with
  | None => m
  | Some x =>
      let o := x.(rOwner) in
      let bytesBy := r.(adaptiveExternalBytesByOwner) in
      let fdsBy := r.(adaptiveExternalFDsByOwner) in
      let countBy := r.(adaptiveExternalReservationsByOwner) in
      let legacy := if x.(rLegacy) then r.(legacyStreamSupplementBytes) - x.(rBytes)
                    else r.(legacyStreamSupplementBytes) in
      dispatchLocked (setResources m {|
        adaptiveExternalBytes := Z.max 0 (r.(adaptiveExternalBytes) - x.(rBytes));
        adaptiveExternalFDs := Z.max 0 (r.(adaptiveExternalFDs) - x.(rFDs));
        legacyStreamSupplementBytes := Z.max 0 legacy;
        adaptiveExternalBytesByOwner := setOwner bytesBy o (Z.max 0 (bytesBy o - x.(rBytes)));
        adaptiveExternalFDsByOwner := setOwner fdsBy o (Z.max 0 (fdsBy o - x.(rFDs)));
        adaptiveExternalReservationsByOwner := setOwner countBy o (Z.max 0 (countBy o - 1));
        outstanding := delete token r.(outstanding);
        nextReservation := r.(nextReservation) |})
  end.

(** ** The adaptive sample *)

(** [enableAdaptiveMemory] up to its forced refresh: a snapshot that rejects
    new work until the controller published one. *)
Definition enableAdaptiveMemory m (controller : Z) : agentStreamCapacityManager :=
  let a := m.(adaptive) in
  setAdaptive m
    (if bool_decide (a.(adaptiveMemory) = Some controller) then a
     else mkAdaptive (Some controller)
            (MemoryPressure.mkSnapshot 0 (MemoryPressure.mkUsage 0 0 "")
               MemoryPressure.MemoryPressureUnknown 0 0 0 0 true 0 0 "" 0 0 0 0 "" 0 0 0 0 "" 0)
            0 false).

(** The first critical section of [refreshAdaptiveCapacity]. *)
Inductive refreshOutcome :=
  | RefreshCached
  | RefreshSample (controller : Z) (sampling : bool) (maximum inUse : Z).

Definition refreshBegin m (force : bool) : agentStreamCapacityManager * refreshOutcome :=
  let a := m.(adaptive) in
  let current := a.(resourceSnapshot) in
  let fresh := before now current.(MemoryPressure.NextSampleAt) in
  match a.(adaptiveMemory) with
  | None => (m, RefreshCached)
  | Some controller =>
      if negb force && negb (is_zero_time current.(MemoryPressure.SampledAt)) && fresh
      then (m, RefreshCached)
      else
        let sampling := force || is_zero_time current.(MemoryPressure.NextSampleAt) || negb fresh in
        (if sampling then
           setAdaptive m (mkAdaptive a.(adaptiveMemory) current (a.(adaptiveSampling) + 1)
             (if a.(adaptiveSampling) =? 0 then true else a.(samplingChannel)))
         else m,
         RefreshSample controller sampling MaxServerConcurrentStreamsLimit m.(leases).(usedTotal))
  end.

Definition saturatingMultiplyInt64 (left right : Z) : Z :=
  if (left <=? 0) || (right <=? 0) then 0
  else if Z.quot max_int64 right <? left then max_int64
  else left * right.

(** The published snapshot: credit bounded by the gross sampled headroom. *)
Definition publishedSnapshot (usedTotal : Z) (s : MemoryPressure.AdaptiveMemorySnapshot)
    : MemoryPressure.AdaptiveMemorySnapshot :=
  let bound := MemoryPressure.usageValid s.(MemoryPressure.Usage) &&
               (0 <? s.(MemoryPressure.StreamChargeByte)) && negb s.(MemoryPressure.RejectNew) in
  let mem := if bound then Z.min s.(MemoryPressure.MemoryAdmissionLimit)
               (Z.min (Z.quot s.(MemoryPressure.HeadroomToHardByte) s.(MemoryPressure.StreamChargeByte))
                  max_int64)
             else s.(MemoryPressure.MemoryAdmissionLimit) in
  let fd := if bound && (0 <? s.(MemoryPressure.FDLimit)) && (0 <? s.(MemoryPressure.StreamChargeFD))
            then Z.min s.(MemoryPressure.FDAdmissionLimit)
               (Z.min (Z.quot s.(MemoryPressure.FDHeadroomToHard) s.(MemoryPressure.StreamChargeFD))
                  max_int64)
            else s.(MemoryPressure.FDAdmissionLimit) in
  let limit := if bound then Z.min s.(MemoryPressure.AdmissionLimit) (Z.min mem fd)
               else s.(MemoryPressure.AdmissionLimit) in
  MemoryPressure.mkSnapshot s.(MemoryPressure.Generation) s.(MemoryPressure.Usage)
    s.(MemoryPressure.Level) limit mem fd s.(MemoryPressure.Maximum) s.(MemoryPressure.RejectNew)
    s.(MemoryPressure.SampledAt) s.(MemoryPressure.NextSampleAt) s.(MemoryPressure.SampleError)
    s.(MemoryPressure.HeadroomToHardByte)
    (saturatingMultiplyInt64 usedTotal s.(MemoryPressure.StreamChargeByte))
    s.(MemoryPressure.StreamChargeByte) s.(MemoryPressure.StreamChargeFD)
    s.(MemoryPressure.AdmissionRole) s.(MemoryPressure.FDUsed) s.(MemoryPressure.FDLimit)
    s.(MemoryPressure.FDHeadroomToHard)
    (saturatingMultiplyInt64 usedTotal s.(MemoryPressure.StreamChargeFD))
    s.(MemoryPressure.PressureReason) s.(MemoryPressure.LastGoodSampleAt).

(** The last critical section of [refreshAdaptiveCapacity], for a sample
    [next] that [controller] took. *)
Definition refreshPublish m (controller : Z) (sampling : bool)
    (next : MemoryPressure.AdaptiveMemorySnapshot) : agentStreamCapacityManager :=
  let a := m.(adaptive) in
  if negb (bool_decide (a.(adaptiveMemory) = Some controller)) then m
  else
    let count := if sampling then a.(adaptiveSampling) - 1 else a.(adaptiveSampling) in
    let chan := if sampling && (count =? 0) then false else a.(samplingChannel) in
    let snap :=
      if a.(resourceSnapshot).(MemoryPressure.Generation) <=? next.(MemoryPressure.Generation)
      then publishedSnapshot m.(leases).(usedTotal) next else a.(resourceSnapshot) in
    dispatchLocked (setAdaptive m (mkAdaptive a.(adaptiveMemory) snap count chan)).

Definition publishAdaptiveCapacity m (next : MemoryPressure.AdaptiveMemorySnapshot)
    : agentStreamCapacityManager :=
  let a := m.(adaptive) in
  if a.(resourceSnapshot).(MemoryPressure.Generation) <=? next.(MemoryPressure.Generation)
  then dispatchLocked (setAdaptive m (mkAdaptive a.(adaptiveMemory) next a.(adaptiveSampling)
                                        a.(samplingChannel)))
  else m.
End dispatch.

(** ** Shares of one peer and of one client *)

Definition adaptivePublicFairSharePercent : Z := 90.

Definition percentageInt64 (value percent : Z) : Z :=
  if (value <=? 0) || (percent <=? 0) then 0
  else i64 (i64 (Z.quot value 100 * percent) + Z.quot (i64 (Z.rem value 100 * percent)) 100).

Definition ceilPositiveInt64 (value divisor : Z) : Z :=
  if (value <=? 0) || (divisor <=? 0) then 0 else 1 + Z.quot (value - 1) divisor.

(** The slots one peer may hold of those available to public work. *)
Definition fairSlots (availableSlots : Z) : Z :=
  let fair := Z.max 1 (percentageInt64 availableSlots adaptivePublicFairSharePercent) in
  if (1 <? availableSlots) && (availableSlots <=? fair) then availableSlots - 1 else fair.

(** Bytes and descriptors; [None] when the manager is not adaptive. *)
Definition adaptiveExternalPeerLimits (m : agentStreamCapacityManager) : option (Z * Z) :=
  let snap := m.(adaptive).(resourceSnapshot) in
  if negb (isAdaptive m) || (snap.(MemoryPressure.StreamChargeByte) <=? 0) then None
  else
    let available := snap.(MemoryPressure.AdmissionLimit) - m.(leases).(usedTotal) in
    let protected := adaptiveProtectedControlLocked m - m.(leases).(usedControl) in
    let available := if 0 <? protected then available - protected else available in
    if available <=? 0 then Some (0, 0)
    else
      let fair := fairSlots available in
      let total := saturatingMultiplyInt64 fair snap.(MemoryPressure.StreamChargeByte) in
      let totalFDs :=
        if String.eqb snap.(MemoryPressure.AdmissionRole) "" then saturatingMultiplyInt64 fair 2
        else if 0 <? snap.(MemoryPressure.FDLimit) then
          let gross := snap.(MemoryPressure.FDHeadroomToHard) in
          let fds := percentageInt64 gross adaptivePublicFairSharePercent in
          let fds := if (0 <? gross) && (fds <? 1) then 1 else fds in
          if (1 <? gross) && (gross <=? fds) then gross - 1 else fds
        else max_int64 in
      Some (total, totalFDs).

Definition adaptivePublicClientRequestLimit (m : agentStreamCapacityManager) : option Z :=
  if negb (isAdaptive m) then None
  else
    let envelope := adaptiveEffectiveAdmissionLimitLocked m - adaptiveProtectedControlLocked m in
    if envelope <=? 0 then Some 0
    else Some (Z.max 1 (percentageInt64 envelope adaptivePublicFairSharePercent)).

(** ** The self check of the manager

    The checks of [validateInvariantsLocked], grouped by what they look at;
    the result is [None] exactly when the source returns nil. *)

Definition classes : list agentStreamCapacityClass := [PublicPooled; PublicOneShot; TrustedHealth].
Definition activeStates : list agentStreamLeaseState := [LeaseOpening; LeaseLive; LeaseClosing].

(** The first failing check of a list, by its message. *)
Fixpoint firstError (l : list (bool * string)) : option string :=
  match l with
  | [] => None
  | (ok, message) :: l => if ok then firstError l else Some message
  end.

Definition classStates (l : leaseLedger) (c : agentStreamCapacityClass) : Z :=
  zsum (map (l.(stateByClass) c) activeStates).

Definition forallMap {K A} `{Countable K} (f : K → A → bool) (m : gmap K A) : bool :=
  forallb (λ kv, f kv.1 kv.2) (map_to_list m).

Definition mapTotal (m : gmap string Z) : Z := zsum (map snd (map_to_list m)).

(** The number of active leases in a class and state. *)
Definition countLeases (l : leaseLedger) (c : agentStreamCapacityClass) (s : agentStreamLeaseState) : Z :=
  Z.of_nat (length (filter (λ kv : Z * agentStreamCapacityLease, kv.2.(class) = c ∧ kv.2.(state) = s)
    (map_to_list l.(activeLeases)))).

(** The checks on the budgets and the state counters. *)
Definition leaseChecks (c : agentStreamCapacityConfig) (l : leaseLedger) : list (bool * string) :=
  let total := zsum (map (classStates l) classes) in
  [((0 <=? l.(usedTotal)) && (l.(usedTotal) <=? c.(Total)), "total usage exceeds capacity");
   ((0 <=? l.(usedPublic)) && (l.(usedPublic) <=? c.(Public)), "public usage exceeds capacity");
   ((0 <=? l.(usedPooled)) && (l.(usedPooled) <=? c.(Pooled)), "pooled usage exceeds capacity");
   ((0 <=? l.(usedControl)) && (l.(usedControl) <=? c.(Control)), "control usage exceeds capacity");
   (l.(usedTotal) =? l.(usedPublic) + l.(usedControl), "total usage != public + control");
   (forallb (λ c, forallb (λ s, 0 <=? l.(stateByClass) c s) activeStates) classes,
    "negative state count");
   ((total =? l.(usedTotal)) && (total =? Z.of_nat (size l.(activeLeases))),
    "active state count, usage, leases differ");
   (classStates l PublicPooled =? l.(usedPooled), "pooled state count != usage");
   (classStates l PublicPooled + classStates l PublicOneShot =? l.(usedPublic),
    "public class state counts do not equal usage");
   (classStates l TrustedHealth =? l.(usedControl), "control class state count != usage")].

(** The checks on the counters of the sessions. *)
Definition sessionCountChecks (c : agentStreamCapacityConfig) (l : leaseLedger) : list (bool * string) :=
  let openings := zsum (map (λ c, l.(stateByClass) c LeaseOpening) classes) in
  let publicOpenings := l.(stateByClass) PublicPooled LeaseOpening
                        + l.(stateByClass) PublicOneShot LeaseOpening in
  [(forallMap (λ k n, negb (String.eqb k "") && (1 <=? n) && (n <=? c.(MaxOpeningPerSession)))
      l.(openingBySession), "invalid opening count for session");
   (mapTotal l.(openingBySession) =? openings, "session opening count != state count");
   (forallMap (λ k n, negb (String.eqb k "") && (1 <=? n) &&
      (n <=? publicOpeningLimitPerSessionLocked c) && (n <=? get l.(openingBySession) k))
      l.(publicOpeningBySession), "invalid public opening count for session");
   (mapTotal l.(publicOpeningBySession) =? publicOpenings,
    "session public opening count != state count");
   (forallMap (λ k n, negb (String.eqb k "") && (1 <=? n) && (n <=? c.(Public)))
      l.(publicBySession), "invalid public count for session");
   (mapTotal l.(publicBySession) =? l.(usedPublic), "session public count != public usage");
   (forallMap (λ k n, negb (String.eqb k "") && (1 <=? n) && (n <=? c.(Total)))
      l.(totalBySession), "invalid total count for session");
   (mapTotal l.(totalBySession) =? l.(usedTotal), "session total count != total usage")].

(** The checks on the session limits. *)
Definition sessionChecks (m : agentStreamCapacityManager) : list (bool * string) :=
  [(forallMap (λ k n, negb (bool_decide (k ∈ m.(registeredSessions))) || (n <=? sessionLimitLocked m k))
      m.(leases).(totalBySession), "session usage exceeds negotiated limit");
   (forallMap (λ k n, negb (String.eqb k "") && (1 <=? n) && (n <=? m.(config).(Total)))
      m.(sessionLimits), "invalid negotiated limit for session");
   (forallMap (λ k (_ : Z), bool_decide (k ∈ m.(registeredSessions))) m.(sessionLimits),
    "negotiated limit exists for unregistered session")].

(** The checks on the resource owners. *)
Definition ownerChecks (r : resourceLedger) : list (bool * string) :=
  [(forallb (λ o, (0 <=? r.(adaptiveExternalBytesByOwner) o) && (0 <=? r.(adaptiveExternalFDsByOwner) o)
      && (0 <=? r.(adaptiveExternalReservationsByOwner) o)) owners, "negative adaptive resource ledger");
   ((fold_left (λ t o, saturatingAddInt64 t (r.(adaptiveExternalBytesByOwner) o)) owners 0
       =? r.(adaptiveExternalBytes)) &&
    (fold_left (λ t o, saturatingAddInt64 t (r.(adaptiveExternalFDsByOwner) o)) owners 0
       =? r.(adaptiveExternalFDs)), "adaptive owner totals != ledger")].

(** The checks on the lease objects. *)
Definition objectChecks (l : leaseLedger) : list (bool * string) :=
  [(forallMap (λ _ x, negb (bool_decide (x.(state) = LeaseReleased))) l.(activeLeases),
    "invalid active lease class/state");
   (forallb (λ c, forallb (λ s, countLeases l c s =? l.(stateByClass) c s) activeStates) classes,
    "active lease states differ from state counters");
   (l.(granted) - l.(released) =? Z.of_nat (size l.(activeLeases)),
    "granted - released != active leases")].

(** The checks on the queues. *)
Definition queueChecks (c : agentStreamCapacityConfig) (q : waitQueue) : list (bool * string) :=
  let lengthOf k := Z.of_nat (length (default [] (q.(queues) !! k))) in
  let queued := zsum (map lengthOf q.(queueKeys)) in
  let waitersOf k := omap (λ p, q.(heap) !! p) (default [] (q.(queues) !! k)) in
  let queuedControl := Z.of_nat (length (filter (λ w, w.(wClass) = TrustedHealth)
                         (concat (map waitersOf q.(queueKeys))))) in
  [(forallb (λ k, negb (String.eqb k "")) q.(queueKeys), "empty queue key in round-robin order");
   (bool_decide (NoDup q.(queueKeys)), "duplicate queue key");
   (forallb (λ k, (0 <? lengthOf k) && (lengthOf k <=? c.(MaxWaitersPerKey))) q.(queueKeys),
    "invalid queue length");
   (forallb (λ k, forallb (λ p,
      match q.(heap) !! p with
      | Some w => String.eqb w.(wQueueKey) k && bool_decide (w.(status) = WaiterQueued)
      | None => false
      end) (default [] (q.(queues) !! k))) q.(queueKeys), "invalid waiter in queue");
   (bool_decide (length q.(queueKeys) = size q.(queues)), "queue map and round-robin keys differ");
   ((queued =? q.(waiters)) && (queued - queuedControl <=? c.(MaxWaiters)) &&
    (queuedControl <=? Z.max 1 c.(Control)), "queued waiter count != tracked or exceeds max");
   (match q.(queueKeys) with
    | [] => (q.(nextQueueKey) =? 0)%nat
    | _ => (q.(nextQueueKey) <? length q.(queueKeys))%nat
    end, "queue cursor outside the keys")].

Definition validateInvariantsLocked (m : agentStreamCapacityManager) : option string :=
  match validateAgentStreamCapacityConfig m.(config) with
  | Some err => Some err
  | None =>
      firstError (leaseChecks m.(config) m.(leases) ++ sessionCountChecks m.(config) m.(leases) ++
                  ownerChecks m.(resources) ++ sessionChecks m ++ objectChecks m.(leases) ++ queueChecks m.(config) m.(queue))
  end.

End StreamCapacity.
