(* ===== verification/StreamCapacityLeases.v ===== *)
(** The lease ledger of the stream admission manager: every counter is the
    number of active leases it stands for, the budgets, and their
    preservation by granting, moving and releasing a lease. *)

From S2P Require Import Prelude MemoryPressure StreamCapacity.

Module StreamCapacityLeases.
Import StreamCapacity.StreamCapacity.

(** ** Counting leases *)

Notation lease_map := (gmap Z agentStreamCapacityLease) (only parsing).

(** The number of leases that satisfy a test. *)
Definition cnt (P : agentStreamCapacityLease → bool) (am : gmap Z agentStreamCapacityLease) : Z :=
  msum ((λ x, b2z (P x)) <$> am).

Lemma b2z_range b : 0 ≤ b2z b ≤ 1.
Proof. destruct b; simpl; lia. Qed.

Lemma cnt_insert P am id x :
  cnt P (<[id := x]> am) = cnt P am - default 0 (b2z ∘ P <$> am !! id) + b2z (P x).
Proof.
  unfold cnt. rewrite fmap_insert, msum_insert, lookup_fmap. by destruct (am !! id).
Qed.

Lemma cnt_delete P am id :
  cnt P (delete id am) = cnt P am - default 0 (b2z ∘ P <$> am !! id).
Proof. unfold cnt. rewrite fmap_delete, msum_delete, lookup_fmap. by destruct (am !! id). Qed.

Lemma cnt_nonneg P am : 0 ≤ cnt P am.
Proof.
  apply msum_nonneg. intros k v Hv. rewrite lookup_fmap in Hv.
  apply fmap_Some in Hv as (x & _ & ->). apply b2z_range.
Qed.

Lemma cnt_lookup P am id x : am !! id = Some x → b2z (P x) ≤ cnt P am.
Proof.
  intros H. pose proof (cnt_delete P am id) as E. rewrite H in E. simpl in E.
  pose proof (cnt_nonneg P (delete id am)). lia.
Qed.

Lemma cnt_add P Q R am :
  (∀ x, b2z (P x) = b2z (Q x) + b2z (R x)) → cnt P am = cnt Q am + cnt R am.
Proof.
  intros H. induction am as [|id x am Hid IH] using map_ind; [done|].
  rewrite !cnt_insert, Hid, IH, H. simpl. lia.
Qed.

Lemma cnt_le P Q am : (∀ x, P x = true → Q x = true) → cnt P am ≤ cnt Q am.
Proof.
  intros H. induction am as [|id x am Hid IH] using map_ind; [done|].
  rewrite !cnt_insert, Hid. simpl. specialize (H x).
  destruct (P x); [rewrite H by done; simpl; lia|]. pose proof (b2z_range (Q x)). simpl. lia.
Qed.

Lemma cnt_false P am : (∀ id x, am !! id = Some x → P x = false) → cnt P am = 0.
Proof.
  induction am as [|id x am Hid IH] using map_ind; intros H; [done|].
  rewrite cnt_insert, Hid, IH; simpl.
  - rewrite (H id x) by apply lookup_insert_eq. done.
  - intros i y Hi. apply (H i y). rewrite lookup_insert_ne; [done|]. intros ->. congruence.
Qed.

Lemma cnt_size am : cnt (λ _, true) am = Z.of_nat (size am).
Proof.
  induction am as [|id x am Hid IH] using map_ind; [done|].
  rewrite cnt_insert, Hid, map_size_insert, Hid, IH. simpl. lia.
Qed.

(** The number of map entries that satisfy a test, counted as a list. *)
Lemma cnt_list (P : agentStreamCapacityLease → Prop) `{∀ x, Decision (P x)} am :
  Z.of_nat (length (filter (λ kv : Z * agentStreamCapacityLease, P kv.2) (map_to_list am)))
  = cnt (λ x, bool_decide (P x)) am.
Proof.
  induction am as [|id x am Hid IH] using map_ind; [done|].
  rewrite (map_to_list_insert am id x Hid), cnt_insert, Hid, filter_cons. simpl.
  case_decide as Hd; simpl in Hd.
  - rewrite bool_decide_eq_true_2 by done. simpl. lia.
  - rewrite bool_decide_eq_false_2 by done. simpl. lia.
Qed.

(** ** Session counters *)

(** The map holds exactly the positive values of the counter. *)
Definition tracks (mp : gmap string Z) (f : string → Z) : Prop :=
  ∀ k, 0 ≤ f k ∧ mp !! k = if f k <=? 0 then None else Some (f k).

Lemma tracks_get mp f k : tracks mp f → get mp k = f k.
Proof.
  intros H. destruct (H k) as [? E]. unfold get. rewrite E. case_match; bprop; simpl; lia.
Qed.

Lemma tracks_incr mp f g k :
  tracks mp f → (∀ k', g k' = f k' + b2z (bool_decide (k' = k))) → tracks (incr mp k) g.
Proof.
  intros H Hg k'. unfold incr. rewrite (tracks_get mp f k H), Hg.
  destruct (H k') as [? E]. destruct (decide (k' = k)) as [->|Hne].
  - rewrite lookup_insert_eq, bool_decide_eq_true_2 by done. simpl b2z. split; [lia|].
    destruct (Z.leb_spec (f k + 1) 0); [lia|done].
  - rewrite lookup_insert_ne, bool_decide_eq_false_2 by done. simpl. rewrite Z.add_0_r. auto.
Qed.

Lemma tracks_decr mp f g k :
  tracks mp f → 1 ≤ f k → (∀ k', g k' = f k' - b2z (bool_decide (k' = k))) → tracks (decr mp k) g.
Proof.
  intros H Hk Hg k'. unfold decr. rewrite (tracks_get mp f k H), Hg.
  destruct (H k') as [? E]. destruct (decide (k' = k)) as [->|Hne].
  - rewrite bool_decide_eq_true_2 by done. simpl b2z. split; [lia|]. destruct (Z.leb_spec (f k) 1).
    + rewrite lookup_delete_eq. destruct (Z.leb_spec (f k - 1) 0); [done|lia].
    + rewrite lookup_insert_eq. destruct (Z.leb_spec (f k - 1) 0); [lia|done].
  - rewrite bool_decide_eq_false_2 by done. simpl. rewrite Z.sub_0_r. split; [done|]. rewrite <- E.
    destruct (f k <=? 1); [by rewrite lookup_delete_ne|by rewrite lookup_insert_ne].
Qed.

Lemma tracks_ext mp f g : tracks mp f → (∀ k, g k = f k) → tracks mp g.
Proof. intros H E k. rewrite E. apply H. Qed.

(** ** The lease ledger *)

Definition inState (s : agentStreamLeaseState) (x : agentStreamCapacityLease) : bool :=
  bool_decide (x.(state) = s).
Definition ofSession (k : string) (x : agentStreamCapacityLease) : bool :=
  bool_decide (x.(sessionKey) = k).
Definition ofClass (c : agentStreamCapacityClass) (x : agentStreamCapacityLease) : bool :=
  bool_decide (x.(class) = c).
Definition publicLease (x : agentStreamCapacityLease) : bool := isPublic x.(class).

(** Every counter is the number of active leases it stands for. *)
Record leases_ok (l : leaseLedger) : Prop := {
  lo_total : l.(usedTotal) = cnt (λ _, true) l.(activeLeases);
  lo_public : l.(usedPublic) = cnt publicLease l.(activeLeases);
  lo_pooled : l.(usedPooled) = cnt (ofClass PublicPooled) l.(activeLeases);
  lo_control : l.(usedControl) = cnt (ofClass TrustedHealth) l.(activeLeases);
  lo_states : ∀ c s, l.(stateByClass) c s =
    cnt (λ x, bool_decide (x.(class) = c ∧ x.(state) = s)) l.(activeLeases);
  lo_openings : tracks l.(openingBySession)
    (λ k, cnt (λ x, inState LeaseOpening x && ofSession k x) l.(activeLeases));
  lo_public_openings : tracks l.(publicOpeningBySession)
    (λ k, cnt (λ x, inState LeaseOpening x && publicLease x && ofSession k x) l.(activeLeases));
  lo_public_sessions : tracks l.(publicBySession)
    (λ k, cnt (λ x, publicLease x && ofSession k x) l.(activeLeases));
  lo_total_sessions : tracks l.(totalBySession) (λ k, cnt (ofSession k) l.(activeLeases));
  lo_leases : map_Forall (λ id x, id ≤ l.(nextLeaseID) ∧ x.(state) ≠ LeaseReleased ∧
    x.(sessionKey) ≠ "") l.(activeLeases);
  lo_granted : l.(granted) - l.(released) = cnt (λ _, true) l.(activeLeases);
}.

Lemma emptyLeases_ok : leases_ok emptyLeases.
Proof. split; try done; intros k; by split. Qed.

Lemma bool_decide_sym {A} `{EqDecision A} (x y : A) : bool_decide (x = y) = bool_decide (y = x).
Proof. by apply bool_decide_ext. Qed.

Lemma granted_fresh l : leases_ok l → l.(activeLeases) !! (l.(nextLeaseID) + 1) = None.
Proof.
  intros H. destruct (_ !! _) as [x|] eqn:E; [|done].
  apply (lo_leases _ H) in E as [? _]. lia.
Qed.

(** How a session counter changes with one lease, given the lookup [Hf]. *)
Ltac lease_cnt Hf sk :=
  let k := fresh "k" in
  intros k; rewrite ?cnt_insert, ?cnt_delete, Hf; unfold inState, ofSession, publicLease; simpl;
  rewrite ?(bool_decide_sym sk k);
  repeat match goal with H : isPublic _ = _ |- _ => rewrite H in * end;
  repeat match goal with H : state _ = _ |- _ => rewrite H in * end;
  simpl; repeat case_bool_decide; simpl; try done; lia.

Lemma grant_ok l now c qk sk :
  leases_ok l → sk ≠ "" → leases_ok (grantLocked l now c qk sk).2.
Proof.
  intros H Hsk. pose proof (granted_fresh l H) as Hf. destruct H. simpl.
  split; simpl; try (rewrite cnt_insert, Hf; simpl; rewrite ?Z.sub_0_r).
  - by rewrite lo_total0.
  - rewrite lo_public0. unfold publicLease. simpl. by destruct (isPublic c); simpl; lia.
  - rewrite lo_pooled0. unfold isPooled, ofClass. simpl. case_bool_decide; simpl; lia.
  - rewrite lo_control0. unfold isHealth, ofClass. simpl. case_bool_decide; simpl; lia.
  - intros c' s'. rewrite cnt_insert, Hf. simpl. rewrite <- lo_states0. unfold addState.
    rewrite (bool_decide_ext (c = c' ∧ LeaseOpening = s') (c' = c ∧ s' = LeaseOpening)) by naive_solver.
    case_bool_decide; simpl; lia.
  - eapply tracks_incr; [exact lo_openings0|]. lease_cnt Hf sk.
  - destruct (isPublic c) eqn:Hc.
    + eapply tracks_incr; [exact lo_public_openings0|]. lease_cnt Hf sk.
    + eapply tracks_ext; [exact lo_public_openings0|]. lease_cnt Hf sk.
  - destruct (isPublic c) eqn:Hc.
    + eapply tracks_incr; [exact lo_public_sessions0|]. lease_cnt Hf sk.
    + eapply tracks_ext; [exact lo_public_sessions0|]. lease_cnt Hf sk.
  - eapply tracks_incr; [exact lo_total_sessions0|]. lease_cnt Hf sk.
  - apply map_Forall_insert_2; [simpl; split_and!; [lia|done|done]|].
    eapply map_Forall_impl; [exact lo_leases0|]. simpl. intros i x (? & ? & ?). split_and!; [lia|done..].
  - simpl. rewrite <- lo_granted0. lia.
Qed.

(** A lease that is opening is counted with its session. *)
Lemma opening_counted P l id x :
  l.(activeLeases) !! id = Some x → P x = true → 1 ≤ cnt P l.(activeLeases).
Proof. intros H HP. pose proof (cnt_lookup P _ _ _ H) as Hc. rewrite HP in Hc. done. Qed.

Ltac counted Hf := eapply opening_counted; [exact Hf|]; unfold inState, ofSession, publicLease;
  rewrite ?bool_decide_eq_true_2 by done; rewrite ?andb_true_r; simpl; auto.

(** The two opening counters after a lease left the opening state. *)
Lemma release_opening_ok l id x am' :
  leases_ok l → l.(activeLeases) !! id = Some x →
  (∀ P, (∀ y, P y = true → inState LeaseOpening y = true) →
     cnt P am' = cnt P l.(activeLeases) - b2z (P x)) →
  let '(op, pop) := if bool_decide (x.(state) = LeaseOpening)
    then releaseSessionOpeningLocked l x.(class) x.(sessionKey)
    else (l.(openingBySession), l.(publicOpeningBySession)) in
  tracks op (λ k, cnt (λ x, inState LeaseOpening x && ofSession k x) am') ∧
  tracks pop (λ k, cnt (λ x, inState LeaseOpening x && publicLease x && ofSession k x) am').
Proof.
  intros H Hf Ham.
  assert (∀ k, cnt (λ x, inState LeaseOpening x && ofSession k x) am' =
    cnt (λ x, inState LeaseOpening x && ofSession k x) l.(activeLeases)
    - b2z (inState LeaseOpening x && ofSession k x)) as H1.
  { intros k. apply Ham. intros y. by destruct (inState _ _). }
  assert (∀ k, cnt (λ x, inState LeaseOpening x && publicLease x && ofSession k x) am' =
    cnt (λ x, inState LeaseOpening x && publicLease x && ofSession k x) l.(activeLeases)
    - b2z (inState LeaseOpening x && publicLease x && ofSession k x)) as H2.
  { intros k. apply Ham. intros y. simpl. by destruct (inState LeaseOpening y). }
  case_bool_decide as Hs; simpl.
  - split.
    + eapply tracks_decr; [exact (lo_openings _ H)|counted Hf|].
      intros k. rewrite H1. unfold inState, ofSession. rewrite bool_decide_eq_true_2 by done.
      by rewrite (bool_decide_sym _ k).
    + destruct (isHealth (class x)) eqn:Hc.
      * eapply tracks_ext; [exact (lo_public_openings _ H)|]. intros k. rewrite H2.
        unfold publicLease, isPublic. rewrite Hc. rewrite andb_false_r. simpl. lia.
      * assert (publicLease x = true) as Hp by (unfold publicLease, isPublic; by rewrite Hc).
        eapply tracks_decr; [exact (lo_public_openings _ H)| |].
        -- eapply opening_counted; [exact Hf|]. rewrite Hp. unfold inState, ofSession.
           by rewrite !bool_decide_eq_true_2.
        -- intros k. rewrite H2, Hp. unfold inState, ofSession. rewrite bool_decide_eq_true_2 by done.
           by rewrite (bool_decide_sym _ k).
  - assert (inState LeaseOpening x = false) as Hn by by apply bool_decide_eq_false_2.
    split; [eapply tracks_ext; [exact (lo_openings _ H)|]|eapply tracks_ext; [exact (lo_public_openings _ H)|]];
      intros k; rewrite ?H1, ?H2, Hn; simpl; lia.
Qed.

Lemma move_ok l now id x s :
  leases_ok l → l.(activeLeases) !! id = Some x → s ≠ LeaseOpening → s ≠ LeaseReleased →
  leases_ok (moveLease l now id x s).
Proof.
  intros H Hf Hs1 Hs2. unfold moveLease.
  set (y := mkLease x.(class) x.(queueKey) x.(sessionKey) s now).
  pose proof (release_opening_ok l id x (<[id := y]> l.(activeLeases)) H Hf) as Hop.
  destruct (if bool_decide _ then _ else _) as [op pop]. destruct Hop as [Hop Hpop].
  { intros P HP. rewrite cnt_insert, Hf. simpl. destruct (P y) eqn:E; [|simpl; lia].
    apply HP in E. unfold inState in E. bprop. done. }
  pose proof (lo_leases _ H _ _ Hf) as (Hid & _ & Hsk). destruct H.
  assert (∀ P, P y = P x → cnt P (<[id := y]> l.(activeLeases)) = cnt P l.(activeLeases)) as Hsame.
  { intros P HP. rewrite cnt_insert, Hf, HP. simpl. lia. }
  split; simpl; try done; rewrite ?Hsame by done; try done.
  - intros c s'. rewrite cnt_insert, Hf. simpl. rewrite <- lo_states0. unfold addState.
    rewrite (bool_decide_ext (x.(class) = c ∧ x.(state) = s') (c = x.(class) ∧ s' = x.(state))) by naive_solver.
    rewrite (bool_decide_ext (x.(class) = c ∧ s = s') (c = x.(class) ∧ s' = s)) by naive_solver.
    repeat case_bool_decide; simpl; lia.
  - eapply tracks_ext; [exact lo_public_sessions0|]. intros k. by apply Hsame.
  - eapply tracks_ext; [exact lo_total_sessions0|]. intros k. by apply Hsame.
  - by apply map_Forall_insert_2.
Qed.

Lemma release_ok l id x :
  leases_ok l → l.(activeLeases) !! id = Some x → leases_ok (releaseLease l id x).
Proof.
  intros H Hf. unfold releaseLease.
  pose proof (release_opening_ok l id x (delete id l.(activeLeases)) H Hf) as Hop.
  destruct (if bool_decide _ then _ else _) as [op pop]. destruct Hop as [Hop Hpop].
  { intros P HP. by rewrite cnt_delete, Hf. }
  destruct H. split; simpl; try done; rewrite ?cnt_delete, ?Hf; simpl.
  - lia.
  - rewrite lo_public0. unfold publicLease. by destruct (isPublic _); simpl; lia.
  - rewrite lo_pooled0. unfold isPooled, ofClass. case_bool_decide; simpl; lia.
  - rewrite lo_control0. unfold isHealth, ofClass. case_bool_decide; simpl; lia.
  - intros c s'. rewrite cnt_delete, Hf. simpl. rewrite <- lo_states0. unfold addState.
    rewrite (bool_decide_ext (x.(class) = c ∧ x.(state) = s') (c = x.(class) ∧ s' = x.(state))) by naive_solver.
    case_bool_decide; simpl; lia.
  - destruct (isPublic (class x)) eqn:Hc.
    + eapply tracks_decr; [exact lo_public_sessions0|counted Hf|]. lease_cnt Hf (sessionKey x).
    + eapply tracks_ext; [exact lo_public_sessions0|]. lease_cnt Hf (sessionKey x).
  - eapply tracks_decr; [exact lo_total_sessions0|counted Hf|]. lease_cnt Hf (sessionKey x).
  - by apply map_Forall_delete.
  - lia.
Qed.

(** ** Budgets *)

Record within (c : agentStreamCapacityConfig) (l : leaseLedger) : Prop := {
  wi_total : l.(usedTotal) ≤ c.(Total);
  wi_public : l.(usedPublic) ≤ c.(Public);
  wi_pooled : l.(usedPooled) ≤ c.(Pooled);
  wi_control : l.(usedControl) ≤ c.(Control);
  wi_opening : ∀ k, get l.(openingBySession) k ≤ c.(MaxOpeningPerSession);
  wi_public_opening : ∀ k, get l.(publicOpeningBySession) k ≤ publicOpeningLimitPerSessionLocked c;
}.

Lemma get_incr m k k' : get (incr m k) k' = get m k' + b2z (bool_decide (k' = k)).
Proof.
  unfold get at 1, incr. destruct (decide (k' = k)) as [->|].
  - by rewrite lookup_insert_eq, bool_decide_eq_true_2.
  - rewrite lookup_insert_ne, bool_decide_eq_false_2 by done. fold (get m k'). simpl. lia.
Qed.

(** What a grant requires of the ledger. *)
Lemma canGrant_spec m c k : canGrantLocked m c k = true →
  let l := m.(leases) in
  l.(usedTotal) < m.(config).(Total) ∧ get l.(totalBySession) k < sessionLimitLocked m k ∧
  get l.(openingBySession) k < m.(config).(MaxOpeningPerSession) ∧
  (isPublic c = true → l.(usedPublic) < m.(config).(Public) ∧
     get l.(publicBySession) k < publicSessionLimitLocked m k ∧
     get l.(publicOpeningBySession) k < publicOpeningLimitPerSessionLocked m.(config)) ∧
  (isPooled c = true → l.(usedPooled) < m.(config).(Pooled)) ∧
  (isHealth c = true → l.(usedControl) < m.(config).(Control)) ∧
  (isAdaptive m = true →
     m.(adaptive).(resourceSnapshot).(MemoryPressure.RejectNew) = false ∧
     l.(usedTotal) < adaptiveEffectiveAdmissionLimitLocked m ∧
     (isPublic c = true → l.(usedPublic) < adaptivePublicLimitLocked m)).
Proof.
  unfold canGrantLocked. intros H. destruct (_ || _) eqn:E in H; [done|].
  apply orb_false_iff in E as [E E4]. apply orb_false_iff in E as [E E3].
  apply orb_false_iff in E as [E E2]. bprop. simpl.
  split_and!; try done.
  - intros Hp. destruct c; simpl in *; bprop; done.
  - intros Hp. destruct c; simpl in *; bprop; done.
  - intros Hp. destruct c; simpl in *; bprop; done.
  - intros Ha. rewrite Ha in E. destruct E as [|[[? ?] E]]; [done|]. bprop.
    split_and!; try done. intros Hp. unfold isPublic in Hp. apply negb_true_iff in Hp.
    destruct E; [congruence|]. by bprop.
Qed.

Lemma grant_within m now c qk sk :
  canGrantLocked m c sk = true → within m.(config) m.(leases) →
  within m.(config) (grantLocked m.(leases) now c qk sk).2.
Proof.
  intros (Ht & _ & Ho & Hp & Hpo & Hh & _)%canGrant_spec []. simpl in *.
  split; simpl; [lia| | | | |].
  - destruct (isPublic c); [destruct Hp; [done|]; lia|done].
  - destruct (isPooled c); [specialize (Hpo eq_refl); lia|done].
  - destruct (isHealth c); [specialize (Hh eq_refl); lia|done].
  - intros k. rewrite get_incr. specialize (wi_opening0 k). case_bool_decide; simpl; [subst|]; lia.
  - intros k. destruct (isPublic c); [|done]. destruct Hp as (_ & _ & Hp); [done|].
    rewrite get_incr. specialize (wi_public_opening0 k). case_bool_decide; simpl; [subst|]; lia.
Qed.

Lemma get_decr_le m k k' : 0 ≤ get m k' → get (decr m k) k' ≤ get m k'.
Proof.
  unfold decr. intros H. destruct (decide (k' = k)) as [->|Hne]; unfold get at 1.
  - destruct (Z.leb_spec (get m k) 1); [by rewrite lookup_delete_eq|].
    rewrite lookup_insert_eq. simpl. lia.
  - destruct (get m k <=? 1); [rewrite lookup_delete_ne by done|rewrite lookup_insert_ne by done];
      unfold get; lia.
Qed.

(** A ledger with no larger counters. *)
Record ledger_le (l' l : leaseLedger) : Prop := {
  ll_total : l'.(usedTotal) ≤ l.(usedTotal);
  ll_public : l'.(usedPublic) ≤ l.(usedPublic);
  ll_pooled : l'.(usedPooled) ≤ l.(usedPooled);
  ll_control : l'.(usedControl) ≤ l.(usedControl);
  ll_opening : ∀ k, get l'.(openingBySession) k ≤ get l.(openingBySession) k;
  ll_public_opening : ∀ k, get l'.(publicOpeningBySession) k ≤ get l.(publicOpeningBySession) k;
  ll_public_session : ∀ k, get l'.(publicBySession) k ≤ get l.(publicBySession) k;
  ll_total_session : ∀ k, get l'.(totalBySession) k ≤ get l.(totalBySession) k;
}.

Lemma within_mono c l l' : ledger_le l' l → within c l → within c l'.
Proof.
  intros [] []. split; try lia; intros k.
  - etrans; [apply ll_opening0|done].
  - etrans; [apply ll_public_opening0|done].
Qed.

Lemma move_ledger_le l now id x s : leases_ok l → ledger_le (moveLease l now id x s) l.
Proof.
  intros H. unfold moveLease, releaseSessionOpeningLocked.
  assert (∀ k, 0 ≤ get l.(openingBySession) k) as Ho.
  { intros k. rewrite (tracks_get _ _ _ (lo_openings _ H)). apply cnt_nonneg. }
  assert (∀ k, 0 ≤ get l.(publicOpeningBySession) k) as Hp.
  { intros k. rewrite (tracks_get _ _ _ (lo_public_openings _ H)). apply cnt_nonneg. }
  case_bool_decide; [destruct (isHealth _)|]; split; simpl; try done; intros k;
    by apply get_decr_le.
Qed.

Lemma release_ledger_le l id x : leases_ok l → ledger_le (releaseLease l id x) l.
Proof.
  intros H. unfold releaseLease, releaseSessionOpeningLocked.
  assert (∀ k, 0 ≤ get l.(openingBySession) k) as Ho.
  { intros k. rewrite (tracks_get _ _ _ (lo_openings _ H)). apply cnt_nonneg. }
  assert (∀ k, 0 ≤ get l.(publicOpeningBySession) k) as Hp.
  { intros k. rewrite (tracks_get _ _ _ (lo_public_openings _ H)). apply cnt_nonneg. }
  assert (∀ k, 0 ≤ get l.(publicBySession) k) as Hps.
  { intros k. rewrite (tracks_get _ _ _ (lo_public_sessions _ H)). apply cnt_nonneg. }
  assert (∀ k, 0 ≤ get l.(totalBySession) k) as Hts.
  { intros k. rewrite (tracks_get _ _ _ (lo_total_sessions _ H)). apply cnt_nonneg. }
  case_bool_decide; [destruct (isHealth (class x))|]; split; simpl;
    repeat (case_goal; try lia); try lia; intros k; try lia; by apply get_decr_le.
Qed.

Lemma grant_ledger_le l now c qk sk : ledger_le l (grantLocked l now c qk sk).2.
Proof.
  split; simpl; repeat (case_goal; try lia); try lia; intros k; rewrite ?get_incr;
    try (pose proof (b2z_range (bool_decide (k = sk)))); lia.
Qed.

End StreamCapacityLeases.
