(* ===== verification/StreamCapacityQueue.v ===== *)
(** The waiter queues of the stream admission manager: their invariant and
    its preservation by the queue operations. *)

From S2P Require Import Prelude.
From S2P Require Import MemoryPressure.
From S2P Require Import StreamCapacity.
From S2P Require Import StreamCapacityLeases.

Module StreamCapacityQueue.
Import StreamCapacity.StreamCapacity.

(** The waiters of one queue that wait for a trusted health stream. *)
Definition healthIn (h : gmap Z agentStreamCapacityWaiter) (l : list Z) : Z :=
  Z.of_nat (length (filter (λ w, w.(wClass) = TrustedHealth) (omap (λ p, h !! p) l))).
Definition lengthZ (l : list Z) : Z := Z.of_nat (length l).

Definition queued_in (q : waitQueue) (k : string) (p : Z) : Prop :=
  ∃ w, q.(heap) !! p = Some w ∧ w.(wQueueKey) = k ∧ w.(status) = WaiterQueued ∧
       w.(wSessionKey) ≠ "" ∧ w.(ready) = false.

Record queue_ok (c : agentStreamCapacityConfig) (q : waitQueue) : Prop := {
  qo_nodup : NoDup q.(queueKeys);
  qo_dom : ∀ k, k ∈ q.(queueKeys) ↔ is_Some (q.(queues) !! k);
  qo_queue : map_Forall (λ k l, k ≠ "" ∧ l ≠ [] ∧ lengthZ l ≤ c.(MaxWaitersPerKey) ∧ NoDup l ∧
    Forall (queued_in q k) l) q.(queues);
  qo_heap : map_Forall (λ p _, p < q.(nextWaiter)) q.(heap);
  qo_waiters : q.(waiters) = msum (lengthZ <$> q.(queues));
  qo_public : q.(waiters) - msum (healthIn q.(heap) <$> q.(queues)) ≤ c.(MaxWaiters);
  qo_health : msum (healthIn q.(heap) <$> q.(queues)) ≤ Z.max 1 c.(Control);
  qo_cursor : (q.(nextQueueKey) < Nat.max 1 (length q.(queueKeys)))%nat;
}.

Lemma emptyQueue_ok c : 0 ≤ c.(MaxWaiters) → queue_ok c emptyQueue.
Proof.
  intros H. split; simpl; try done.
  - constructor.
  - intros k. rewrite lookup_empty. split; [by intros ?%not_elem_of_nil|by intros [? ?]].
  - rewrite fmap_empty, msum_empty. lia.
  - unfold msum. simpl. lia.
Qed.

(** The waiters of all queues. *)
Lemma elem_of_queuedWaiters q w :
  w ∈ queuedWaiters q ↔
  ∃ k l p, q.(queues) !! k = Some l ∧ p ∈ l ∧ q.(heap) !! p = Some w.
Proof.
  unfold queuedWaiters. rewrite list_elem_of_In, in_concat. split.
  - intros (ws & Hws & Hw). apply in_map_iff in Hws as ([k l] & <- & Hkl).
    rewrite <- list_elem_of_In, elem_of_map_to_list in Hkl.
    rewrite <- list_elem_of_In in Hw. apply list_elem_of_omap in Hw as (p & ? & ?). eauto 10.
  - intros (k & l & p & Hk & Hp & Hw). exists (omap (λ p, q.(heap) !! p) l). split.
    + apply in_map_iff. exists (k, l). split; [done|]. by rewrite <- list_elem_of_In, elem_of_map_to_list.
    + rewrite <- list_elem_of_In. apply list_elem_of_omap. eauto.
Qed.

Lemma filter_concat {A B} (P : B → Prop) `{∀ x, Decision (P x)} (f : A → list B) (l : list A) :
  Z.of_nat (length (filter P (concat (map f l))))
  = zsum (map (λ x, Z.of_nat (length (filter P (f x)))) l).
Proof.
  induction l as [|x l IH]; simpl; [done|].
  rewrite filter_app, length_app, Nat2Z.inj_add, IH. done.
Qed.

Lemma health_count q :
  Z.of_nat (length (filter (λ w, w.(wClass) = TrustedHealth) (queuedWaiters q)))
  = msum (healthIn q.(heap) <$> q.(queues)).
Proof. unfold queuedWaiters. by rewrite filter_concat, msum_list. Qed.

Lemma healthIn_app h l1 l2 : healthIn h (l1 ++ l2) = healthIn h l1 + healthIn h l2.
Proof. unfold healthIn. rewrite omap_app, filter_app, length_app. lia. Qed.

Lemma healthIn_one h p w : h !! p = Some w → healthIn h [p] = b2z (isHealth w.(wClass)).
Proof.
  unfold healthIn, isHealth. intros H. simpl. rewrite H, filter_cons, filter_nil.
  case_decide; [by rewrite bool_decide_eq_true_2|by rewrite bool_decide_eq_false_2].
Qed.

Lemma healthIn_ext h h' l : (∀ p, p ∈ l → h !! p = h' !! p) → healthIn h l = healthIn h' l.
Proof.
  intros H. unfold healthIn.
  assert (omap (λ p, h !! p) l = omap (λ p, h' !! p) l) as ->; [|done].
  induction l as [|p l IH]; [done|]. change (p :: l) with ([p] ++ l).
  rewrite !omap_app, IH by (intros x Hx; apply H; by right). simpl. by rewrite (H p) by left.
Qed.

(** Only the waiter [p], which is in no queue, changes. *)
Lemma setWaiter_ok c q p w :
  queue_ok c q → p < q.(nextWaiter) → (∀ k l, q.(queues) !! k = Some l → p ∉ l) →
  queue_ok c (setWaiter q p w).
Proof.
  intros [] Hp Hno.
  assert ((healthIn (<[p:=w]> q.(heap)) <$> q.(queues)) = (healthIn q.(heap) <$> q.(queues))) as Hh.
  { apply map_eq. intros k. rewrite !lookup_fmap. destruct (_ !! k) as [l|] eqn:E; [|done]. simpl.
    f_equal. apply healthIn_ext. intros x Hx. rewrite lookup_insert_ne; [done|]. intros ->. by eapply Hno. }
  split; simpl; rewrite ?Hh; try done.
  - intros k l Hk. destruct (qo_queue0 k l Hk) as (? & ? & ? & ? & Hall). split_and!; try done.
    apply Forall_forall. rewrite Forall_forall in Hall. intros x Hx.
    destruct (Hall x Hx) as (w' & Hw' & ?). exists w'. split; [|done]. simpl.
    rewrite lookup_insert_ne; [done|]. intros ->. by eapply Hno.
  - by apply map_Forall_insert_2.
Qed.

Lemma setCursor_ok c q i :
  queue_ok c q → (i < Nat.max 1 (length q.(queueKeys)))%nat → queue_ok c (setCursor q i).
Proof. intros [] Hi. by split. Qed.

(** *** Removing a waiter *)

(** The queue without [p], the element [i] of the queue of [key]. *)
Definition dropped (q : waitQueue) (key : string) (rest : list Z) (index cur : nat) : waitQueue :=
  match rest with
  | [] => removeQueueKeyAtLocked
            (mkQueue (delete key q.(queues)) q.(queueKeys) q.(nextQueueKey) (q.(waiters) - 1)
               q.(heap) q.(nextWaiter)) index
  | _ => mkQueue (<[key := rest]> q.(queues)) q.(queueKeys) cur (q.(waiters) - 1)
           q.(heap) q.(nextWaiter)
  end.

Definition dropped_queues (q : waitQueue) (key : string) (rest : list Z) : gmap string (list Z) :=
  match rest with [] => delete key q.(queues) | _ => <[key := rest]> q.(queues) end.

Lemma dropped_queues_lookup q key rest index cur k l :
  (dropped q key rest index cur).(queues) !! k = Some l →
  (k = key ∧ l = rest ∧ rest ≠ []) ∨ (k ≠ key ∧ q.(queues) !! k = Some l).
Proof.
  unfold dropped, removeQueueKeyAtLocked. intros H. destruct rest; simpl in H.
  - apply lookup_delete_Some in H as [? ?]. auto.
  - apply lookup_insert_Some in H as [[<- <-]|[? ?]]; auto.
Qed.

Lemma dropped_sum q key rest index cur f :
  f [] = 0 →
  msum (f <$> (dropped q key rest index cur).(queues))
  = msum (f <$> q.(queues)) - f (default [] (q.(queues) !! key)) + f rest.
Proof.
  intros Hf. unfold dropped, removeQueueKeyAtLocked. destruct rest; simpl.
  - rewrite fmap_delete, msum_delete, lookup_fmap. destruct (_ !! key); simpl; lia.
  - rewrite fmap_insert, msum_insert, lookup_fmap. destruct (_ !! key); simpl; lia.
Qed.

Lemma delete_NoDup_elem {A} (l : list A) i x y :
  NoDup l → l !! i = Some x → y ∈ delete i l ↔ y ∈ l ∧ y ≠ x.
Proof.
  intros Hnd Hi. destruct (delete_split l i x Hi) as (l1 & l2 & -> & -> & ->).
  apply NoDup_app in Hnd as (_ & Hd & [Hx _]%NoDup_cons). set_solver.
Qed.

Lemma delete_NoDup {A} (l : list A) i : NoDup l → NoDup (delete i l).
Proof. intros H. eapply sublist_NoDup; [exact H|]. apply sublist_delete. Qed.

Lemma removeKey_cursor (keys : list string) index cur :
  (index < length keys)%nat → (cur < length keys)%nat →
  let next := match delete index keys with
    | [] => 0%nat
    | _ => let c := if (index <? cur)%nat then (cur - 1)%nat else cur in
           if (length (delete index keys) <=? c)%nat then 0%nat else c
    end in
  (next < Nat.max 1 (length (delete index keys)))%nat.
Proof.
  intros Hi Hc. simpl. destruct (delete index keys) eqn:E; [simpl; lia|].
  rewrite <- E. clear E. repeat case_match; try lia;
    repeat match goal with
    | H : (_ <? _)%nat = true |- _ => apply Nat.ltb_lt in H
    | H : (_ <=? _)%nat = true |- _ => apply Nat.leb_le in H
    | H : (_ <=? _)%nat = false |- _ => apply Nat.leb_gt in H
    end; lia.
Qed.

Lemma drop_ok c q key old i p index cur :
  queue_ok c q → q.(queueKeys) !! index = Some key → q.(queues) !! key = Some old →
  old !! i = Some p → (cur < length q.(queueKeys))%nat →
  let q' := dropped q key (delete i old) index cur in
  queue_ok c q' ∧ (∀ k l, q'.(queues) !! k = Some l → p ∉ l) ∧ q'.(waiters) = q.(waiters) - 1 ∧
  q'.(heap) = q.(heap) ∧ q'.(nextWaiter) = q.(nextWaiter) ∧
  (length q'.(queueKeys) ≤ length q.(queueKeys))%nat.
Proof.
  intros Hok Hidx Hold Hp Hcur q'. destruct Hok.
  destruct (qo_queue0 key old Hold) as (Hkey & Hne & Hlen & Hnd & Hall).
  destruct (delete_split old i p Hp) as (l1 & l2 & Hsplit & Hi & Hdel).
  rewrite Forall_forall in Hall. destruct (Hall p) as (w & Hw & Hwk & Hws & Hwse & _).
  { rewrite Hsplit. set_solver. }
  assert (lengthZ (delete i old) = lengthZ old - 1) as Hl1.
  { unfold lengthZ. rewrite Hdel, Hsplit, !length_app. simpl. lia. }
  assert (healthIn q.(heap) (delete i old) = healthIn q.(heap) old - b2z (isHealth w.(wClass))) as Hh1.
  { rewrite Hdel, Hsplit, !healthIn_app. change (p :: l2) with ([p] ++ l2).
    rewrite healthIn_app, (healthIn_one _ _ _ Hw). lia. }
  assert (q'.(heap) = q.(heap) ∧ q'.(nextWaiter) = q.(nextWaiter) ∧ q'.(waiters) = q.(waiters) - 1)
    as (Hheap & Hnext & Hwait) by (unfold q', dropped; by destruct (delete i old)).
  assert (∀ k l, q'.(queues) !! k = Some l → p ∉ l) as Hgone.
  { intros k l [(-> & -> & _)|[Hk Hl]]%dropped_queues_lookup.
    - intros Hin. apply (delete_NoDup_elem old i p p Hnd Hp) in Hin. naive_solver.
    - intros Hin. destruct (qo_queue0 k l Hl) as (_ & _ & _ & _ & Hall').
      rewrite Forall_forall in Hall'. destruct (Hall' p Hin) as (w' & Hw' & Hk' & _). congruence. }
  assert (∀ k, k ∈ q'.(queueKeys) ↔ is_Some (q'.(queues) !! k)) as Hdom.
  { intros k. unfold q', dropped. destruct (delete i old); simpl.
    - rewrite (delete_NoDup_elem _ _ _ k qo_nodup0 Hidx), qo_dom0.
      destruct (decide (k = key)) as [->|]; [rewrite lookup_delete_eq|rewrite lookup_delete_ne by done].
      + split; [naive_solver|intros [? ?]; done].
      + naive_solver.
    - rewrite qo_dom0. destruct (decide (k = key)) as [->|].
      + rewrite lookup_insert_eq, Hold. split; eauto.
      + by rewrite lookup_insert_ne. }
  assert (q'.(queueKeys) = (if bool_decide (delete i old = []) then delete index q.(queueKeys)
    else q.(queueKeys))) as Hkeys by (unfold q', dropped; by destruct (delete i old)).
  split_and!; try done.
  - split.
    + rewrite Hkeys. case_match; [by apply delete_NoDup|done].
    + done.
    + intros k l Hkl. unfold queued_in. rewrite Hheap.
      apply dropped_queues_lookup in Hkl as [(-> & -> & Hr)|[Hk Hl]]; [|by apply qo_queue0].
      split_and!; try done; [lia|by apply delete_NoDup|]. apply Forall_forall.
      intros x Hx. apply Hall. by apply (delete_NoDup_elem old i p x Hnd Hp) in Hx as [? _].
    + by rewrite Hheap, Hnext.
    + rewrite Hwait. unfold q'. rewrite dropped_sum, Hold by done. simpl. lia.
    + rewrite Hwait, Hheap. unfold q'. rewrite dropped_sum, Hold by done. simpl.
      pose proof (StreamCapacityLeases.StreamCapacityLeases.b2z_range (isHealth w.(wClass))). lia.
    + rewrite Hheap. unfold q'. rewrite dropped_sum, Hold by done. simpl.
      pose proof (StreamCapacityLeases.StreamCapacityLeases.b2z_range (isHealth w.(wClass))). lia.
    + assert (index < length q.(queueKeys))%nat as Hlt by (by eapply lookup_lt_Some).
      rewrite Hkeys. unfold q', dropped. destruct (delete i old) eqn:E; simpl; [|lia].
      apply removeKey_cursor; lia.
  - rewrite Hkeys. case_match; [|done]. rewrite length_delete; [lia|]. by eexists.
Qed.

Lemma pop_dropped q index i advance key old :
  q.(queueKeys) !! index = Some key → q.(queues) !! key = Some old →
  popQueueEntryLocked q index i advance =
  dropped q key (delete i old) index
    (if advance then ((index + 1) mod length q.(queueKeys))%nat else index).
Proof. intros Hi Ho. unfold popQueueEntryLocked, dropped. by rewrite Hi, Ho. Qed.

Lemma indexOf_lookup {A} `{EqDecision A} (x : A) l : x ∈ l → l !! indexOf x l = Some x.
Proof.
  induction l as [|y l IH]; intros H; [by apply not_elem_of_nil in H|]. simpl.
  case_bool_decide as E; [by subst|]. apply elem_of_cons in H as [->|H]; [done|]. simpl. auto.
Qed.

Lemma removeWaiter_dropped c q p key old :
  queue_ok c q → q.(queues) !! key = Some old → p ∈ old →
  removeWaiterLocked q p key =
  dropped q key (delete (indexOf p old) old) (indexOf key q.(queueKeys)) q.(nextQueueKey).
Proof.
  intros H Ho Hp. unfold removeWaiterLocked, dropped. rewrite Ho. simpl.
  rewrite bool_decide_eq_true_2 by done. destruct (delete _ old); [|done].
  rewrite bool_decide_eq_true_2; [done|]. apply (qo_dom _ _ H). by rewrite Ho.
Qed.

(** *** Adding a waiter *)

Lemma enqueue_ok c q p w :
  queue_ok c q → q.(heap) !! p = None → p < q.(nextWaiter) → w.(status) = WaiterQueued →
  w.(wQueueKey) ≠ "" → w.(wSessionKey) ≠ "" → w.(ready) = false →
  lengthZ (default [] (q.(queues) !! w.(wQueueKey))) < c.(MaxWaitersPerKey) →
  (if isHealth w.(wClass)
   then msum (healthIn q.(heap) <$> q.(queues)) < Z.max 1 c.(Control)
   else q.(waiters) - msum (healthIn q.(heap) <$> q.(queues)) < c.(MaxWaiters)) →
  queue_ok c (enqueueLocked q p w).
Proof.
  intros Hok Hp Hpn Hst Hk Hs Hr Hlen Hlim. destruct Hok.
  set (key := w.(wQueueKey)) in *. set (old := default [] (q.(queues) !! key)) in *.
  assert (∀ k l, q.(queues) !! k = Some l → p ∉ l) as Hno.
  { intros k l Hl Hin. destruct (qo_queue0 k l Hl) as (_ & _ & _ & _ & Hall).
    rewrite Forall_forall in Hall. destruct (Hall p Hin) as (? & ? & _). congruence. }
  assert (∀ k l, q.(queues) !! k = Some l → healthIn (<[p:=w]> q.(heap)) l = healthIn q.(heap) l) as Hh.
  { intros k l Hl. apply healthIn_ext. intros x Hx. rewrite lookup_insert_ne; [done|].
    intros ->. by eapply Hno. }
  assert ((healthIn (<[p:=w]> q.(heap)) <$> q.(queues)) = (healthIn q.(heap) <$> q.(queues))) as Hhm.
  { apply map_eq. intros k. rewrite !lookup_fmap. destruct (_ !! k) as [l|] eqn:E; [|done]. simpl.
    f_equal. by eapply Hh. }
  assert (healthIn (<[p:=w]> q.(heap)) (old ++ [p]) =
    healthIn q.(heap) old + b2z (isHealth w.(wClass))) as Hho.
  { rewrite healthIn_app, (healthIn_one _ p w) by apply lookup_insert_eq. f_equal.
    unfold old. destruct (q.(queues) !! key) as [l|] eqn:E; [|done]. by eapply Hh. }
  assert (∀ f, f [] = 0 → msum (f <$> <[key := old ++ [p]]> q.(queues)) =
    msum (f <$> q.(queues)) - f old + f (old ++ [p])) as Hsum.
  { intros f Hf. rewrite fmap_insert, msum_insert, lookup_fmap. unfold old.
    destruct (_ !! key); simpl; lia. }
  assert (q.(queues) !! key = None → old = []) as Hnone by (unfold old; by intros ->).
  assert (NoDup old ∧ Forall (queued_in q key) old) as [Hnd Hall].
  { unfold old. destruct (q.(queues) !! key) as [l|] eqn:E; simpl; [|split; constructor].
    destruct (qo_queue0 key l E) as (_ & _ & _ & ? & ?). done. }
  assert (old = [] ↔ key ∉ q.(queueKeys)) as Hold.
  { rewrite qo_dom0. unfold old. destruct (q.(queues) !! key) as [l|] eqn:E; simpl.
    - destruct (qo_queue0 key l E) as (_ & ? & _). split; [done|]. intros []. eauto.
    - split; [|done]. intros _ [? ?]. done. }
  unfold enqueueLocked. fold key. fold old. split; simpl.
  - destruct old; [|done]. apply NoDup_app. split_and!; [done| |apply NoDup_singleton].
    intros x Hx ->%list_elem_of_singleton. by apply Hold.
  - intros k. destruct (decide (k = key)) as [->|Hne].
    + rewrite lookup_insert_eq. split; [eauto|]. intros _. destruct old eqn:E; [set_solver|].
      destruct (decide (key ∈ q.(queueKeys))) as [|Hn]; [done|]. by apply Hold in Hn.
    + rewrite lookup_insert_ne, <- qo_dom0 by done. destruct old; set_solver.
  - apply map_Forall_insert_2.
    + split_and!; [done|by destruct old| | |].
      * unfold lengthZ in *. rewrite length_app. simpl. lia.
      * apply NoDup_app. split_and!; [done| |apply NoDup_singleton].
        intros x Hx ->%list_elem_of_singleton. unfold old in Hx.
        destruct (q.(queues) !! key) as [l|] eqn:E; [by eapply Hno|set_solver].
      * apply Forall_app. split.
        -- eapply Forall_impl; [exact Hall|]. intros x (wx & Hx & ?). exists wx. split; [|done]. simpl.
           rewrite lookup_insert_ne; [done|]. intros ->. congruence.
        -- apply Forall_singleton. exists w. simpl. by rewrite lookup_insert_eq.
    + intros k l Hl. destruct (qo_queue0 k l Hl) as (? & ? & ? & ? & Ha). split_and!; try done.
      eapply Forall_impl; [exact Ha|]. intros x (wx & Hx & ?). exists wx. split; [|done]. simpl.
      rewrite lookup_insert_ne; [done|]. intros ->. congruence.
  - by apply map_Forall_insert_2.
  - rewrite Hsum by done. unfold lengthZ. rewrite length_app. simpl. unfold lengthZ in *. lia.
  - rewrite Hsum, Hhm, Hho by done.
    assert (healthIn (<[p:=w]> q.(heap)) old = healthIn q.(heap) old) as ->.
    { unfold old. destruct (q.(queues) !! key) eqn:E; [by eapply Hh|done]. }
    destruct (isHealth _); simpl; lia.
  - rewrite Hsum, Hhm, Hho by done.
    assert (healthIn (<[p:=w]> q.(heap)) old = healthIn q.(heap) old) as ->.
    { unfold old. destruct (q.(queues) !! key) eqn:E; [by eapply Hh|done]. }
    destruct (isHealth _); simpl; lia.
  - destruct old; [rewrite length_app; simpl|]; lia.
Qed.

End StreamCapacityQueue.
