(* ===== verification/StreamCapacityInv.v ===== *)
(** The stream admission manager: the invariant of its state, the dispatch of
    waiters, the preservation of the invariant by every operation, and the
    settled states, in which no waiter that could be granted is waiting. *)

From S2P Require Import Prelude.
From S2P Require Import MemoryPressure.
From S2P Require Import StreamCapacity.
From S2P Require Import StreamCapacityLeases.
From S2P Require Import StreamCapacityQueue.

Module StreamCapacityInv.
Import StreamCapacity.StreamCapacity StreamCapacityLeases.StreamCapacityLeases
  StreamCapacityQueue.StreamCapacityQueue.

(** ** The invariant *)

Record sessions_ok (m : agentStreamCapacityManager) : Prop := {
  so_usage : ∀ k, k ∈ m.(registeredSessions) →
    get m.(leases).(totalBySession) k ≤ sessionLimitLocked m k;
  so_limits : map_Forall (λ k n, k ≠ "" ∧ 1 ≤ n ≤ m.(config).(Total) ∧ k ∈ m.(registeredSessions))
    m.(sessionLimits);
}.

(** A sum over the outstanding reservations. *)
Definition held (f : reservation → Z) (r : resourceLedger) : Z := msum (f <$> r.(outstanding)).
Definition ownedBy (o : adaptiveResourceOwner) (f : reservation → Z) (x : reservation) : Z :=
  if bool_decide (x.(rOwner) = o) then f x else 0.

Record resources_ok (r : resourceLedger) : Prop := {
  ro_bytes : r.(adaptiveExternalBytes) = held rBytes r;
  ro_fds : r.(adaptiveExternalFDs) = held rFDs r;
  ro_legacy : r.(legacyStreamSupplementBytes) = held (λ x, if x.(rLegacy) then x.(rBytes) else 0) r;
  ro_bytes_by : ∀ o, r.(adaptiveExternalBytesByOwner) o = held (ownedBy o rBytes) r;
  ro_fds_by : ∀ o, r.(adaptiveExternalFDsByOwner) o = held (ownedBy o rFDs) r;
  ro_count_by : ∀ o, r.(adaptiveExternalReservationsByOwner) o = held (ownedBy o (λ _, 1)) r;
  ro_tokens : map_Forall (λ t x, t < r.(nextReservation) ∧ 0 ≤ x.(rBytes) ∧ 0 ≤ x.(rFDs))
    r.(outstanding);
  ro_bounded : held rBytes r ≤ max_int64 ∧ held rFDs r ≤ max_int64;
}.

Record ok (m : agentStreamCapacityManager) : Prop := {
  ok_config : validateAgentStreamCapacityConfig m.(config) = None;
  ok_leases : leases_ok m.(leases);
  ok_within : within m.(config) m.(leases);
  ok_sessions : sessions_ok m;
  ok_resources : resources_ok m.(resources);
  ok_queue : queue_ok m.(config) m.(queue);
}.

(** Replacing one component of the state. *)
Lemma ok_setQueue m q : ok m → queue_ok m.(config) q → ok (setQueue m q).
Proof. intros [? ? ? [] ? ?] Hq. split; try done; by split. Qed.

Lemma ok_setMisses m x : ok m → ok (setMisses m x).
Proof. intros [? ? ? [] ? ?]. split; try done; by split. Qed.

Lemma ok_setLeases_le m l : ok m → leases_ok l → ledger_le l m.(leases) → ok (setLeases m l).
Proof.
  intros [? ? ? [Hu ?] ? ?] Hl Hle. split; try done.
  - by eapply within_mono.
  - split; [|done]. intros k Hk. simpl. etrans; [apply (ll_total_session _ _ Hle)|]. by apply Hu.
Qed.

Lemma ok_grant m now c qk sk :
  ok m → sk ≠ "" → canGrantLocked m c sk = true →
  ok (setLeases m (grantLocked m.(leases) now c qk sk).2).
Proof.
  intros [? Hl Hw [Hu ?] ? ?] Hsk Hg. split; try done.
  - by apply grant_ok.
  - exact (grant_within m now c qk sk Hg Hw).
  - split; [|done]. intros k Hk. simpl. rewrite get_incr. apply canGrant_spec in Hg as (_ & Hs & _).
    specialize (Hu k Hk). fold (sessionLimitLocked m k). change (sessionLimitLocked (setLeases m _) k)
      with (sessionLimitLocked m k). case_bool_decide; simpl; [subst|]; lia.
Qed.

(** ** Dispatch *)

Section dispatch.
Context (now : Z) (ctxErr : Z → option ctxError).
Implicit Types m : agentStreamCapacityManager.

(** A waiter that is served: it waits at position [i] of the queue [key]. *)
Definition at_queue m (index i : nat) (p : Z) (w : agentStreamCapacityWaiter) : Prop :=
  ∃ key old, m.(queue).(queueKeys) !! index = Some key ∧ m.(queue).(queues) !! key = Some old ∧
    old !! i = Some p ∧ m.(queue).(heap) !! p = Some w.

Lemma at_queue_waiter m index i p w :
  queue_ok m.(config) m.(queue) → at_queue m index i p w →
  w.(status) = WaiterQueued ∧ w.(wSessionKey) ≠ "" ∧ p < m.(queue).(nextWaiter).
Proof.
  intros Hq (key & old & _ & Ho & Hp & Hw). destruct (qo_queue _ _ Hq key old Ho) as (_ & _ & _ & _ & Ha).
  rewrite Forall_forall in Ha. destruct (Ha p) as (w' & Hw' & _ & ? & ? & _).
  { by eapply list_elem_of_lookup_2. }
  split_and!; [congruence|congruence|]. by apply (qo_heap _ _ Hq p w).
Qed.

(** The queue after the waiter at a position was popped and its object set. *)
Lemma pop_set_ok m index i p w w' advance :
  queue_ok m.(config) m.(queue) → at_queue m index i p w →
  let q := setWaiter (popQueueEntryLocked m.(queue) index i advance) p w' in
  queue_ok m.(config) q ∧ q.(waiters) = m.(queue).(waiters) - 1 ∧
  (length q.(queueKeys) ≤ length m.(queue).(queueKeys))%nat.
Proof.
  intros Hq Hat. pose proof (at_queue_waiter _ _ _ _ _ Hq Hat) as (_ & _ & Hp).
  destruct Hat as (key & old & Hi & Ho & Hpi & Hw). simpl.
  rewrite (pop_dropped _ _ _ _ _ _ Hi Ho).
  assert (index < length m.(queue).(queueKeys))%nat as Hlt by (by eapply lookup_lt_Some).
  destruct (drop_ok m.(config) m.(queue) key old i p index
    (if advance then ((index + 1) mod length m.(queue).(queueKeys))%nat else index))
    as (Hok & Hno & Hwt & Hh & Hn & Hlen); [done..| |].
  { destruct advance; [apply Nat.mod_upper_bound|]; lia. }
  split_and!; [|done..]. apply setWaiter_ok; [done|by rewrite Hn|done].
Qed.

Lemma cancelQueued_ok m index i p w err :
  ok m → at_queue m index i p w →
  let m' := cancelQueued m index i p w err in
  ok m' ∧ m'.(queue).(waiters) = m.(queue).(waiters) - 1 ∧
  (length m'.(queue).(queueKeys) ≤ length m.(queue).(queueKeys))%nat.
Proof.
  intros Hok Hat. unfold cancelQueued. simpl.
  destruct (pop_set_ok m index i p w (mkWaiter w.(wClass) w.(wQueueKey) w.(wSessionKey) w.(wCtx) true
    w.(wLease) (Some (ErrAcquire (Some err) (blockingConstraintLocked m w.(wClass) w.(wSessionKey))
      w.(wQueueKey) w.(wSessionKey))) WaiterCanceled) false (ok_queue _ Hok) Hat) as (? & ? & ?).
  split_and!; try done. apply ok_setQueue; [by apply ok_setMisses|done].
Qed.

Lemma grantQueued_ok m index i p w :
  ok m → at_queue m index i p w → canGrantLocked m w.(wClass) w.(wSessionKey) = true →
  let m' := grantQueued now m index i p w in
  ok m' ∧ m'.(queue).(waiters) = m.(queue).(waiters) - 1 ∧
  (length m'.(queue).(queueKeys) ≤ length m.(queue).(queueKeys))%nat.
Proof.
  intros Hok Hat Hg. unfold grantQueued.
  pose proof (at_queue_waiter _ _ _ _ _ (ok_queue _ Hok) Hat) as (_ & Hs & _).
  pose proof (ok_grant m now w.(wClass) w.(wQueueKey) w.(wSessionKey) Hok Hs Hg) as Hok'.
  destruct (grantLocked m.(leases) now w.(wClass) w.(wQueueKey) w.(wSessionKey)) as [id l]. simpl in *.
  destruct (pop_set_ok m index i p w (mkWaiter w.(wClass) w.(wQueueKey) w.(wSessionKey) w.(wCtx) true
    (Some id) w.(wErr) WaiterGranted) true (ok_queue _ Hok) Hat) as (? & ? & ?).
  split_and!; try done. by apply ok_setQueue.
Qed.

(** A waiter that dispatch leaves in its queue. *)
Definition idle m (p : Z) : Prop :=
  ∀ w, m.(queue).(heap) !! p = Some w →
  ctxErr w.(wCtx) = None ∧ canGrantLocked m w.(wClass) w.(wSessionKey) = false.

Lemma scanQueue_spec m i l :
  match scanQueue ctxErr m i l with
  | Some (j, p, w, o) => (i ≤ j)%nat ∧ l !! (j - i)%nat = Some p ∧ m.(queue).(heap) !! p = Some w ∧
      (o = None → canGrantLocked m w.(wClass) w.(wSessionKey) = true)
  | None => ∀ p, p ∈ l → idle m p
  end.
Proof.
  revert i. induction l as [|p l IH]; intros i; simpl; [by intros p ?%not_elem_of_nil|].
  assert (idle m p → match scanQueue ctxErr m (S i) l with
    | Some (j, p', w, o) => (i ≤ j)%nat ∧ (p :: l) !! (j - i)%nat = Some p' ∧
        m.(queue).(heap) !! p' = Some w ∧
        (o = None → canGrantLocked m w.(wClass) w.(wSessionKey) = true)
    | None => ∀ p', p' ∈ p :: l → idle m p'
    end) as Hrest.
  { intros Hp. specialize (IH (S i)). destruct (scanQueue _ _ _ _) as [[[[j p'] w] o]|].
    - destruct IH as (Hij & Hl & Hh). split; [lia|]. split; [|done].
      by replace (j - i)%nat with (S (j - S i)) by lia.
    - intros p' [->|Hp']%elem_of_cons; auto. }
  destruct (m.(queue).(heap) !! p) as [w|] eqn:Hw; [|apply Hrest; intros w Hw'; congruence].
  destruct (ctxErr w.(wCtx)) as [err|] eqn:He.
  { split; [lia|]. by rewrite Nat.sub_diag. }
  destruct (canGrantLocked m w.(wClass) w.(wSessionKey)) eqn:Hg.
  { split; [lia|]. by rewrite Nat.sub_diag. }
  apply Hrest. intros w' Hw'. by simplify_eq.
Qed.

#[local] Arguments scanQueue : simpl never.

(** The queue of the key at a position has only idle waiters. *)
Definition idle_at m (index : nat) : Prop :=
  ∀ key old p, m.(queue).(queueKeys) !! index = Some key → m.(queue).(queues) !! key = Some old →
    p ∈ old → idle m p.

Definition at_cursor m (i : nat) : agentStreamCapacityManager := setQueue m (setCursor m.(queue) i).

(** What a pass does: it serves one waiter, or it moves the cursor and
    every key it visited is idle. *)
Lemma dispatchPass_spec n m :
  ok m → (0 < length m.(queue).(queueKeys))%nat →
  let len := length m.(queue).(queueKeys) in
  let '(m', progress) := dispatchPass now ctxErr n m in
  if progress then
    ok m' ∧ m'.(queue).(waiters) = m.(queue).(waiters) - 1 ∧ (length m'.(queue).(queueKeys) ≤ len)%nat
  else
    (∃ i, m' = at_cursor m i ∧ (i < len)%nat) ∧
    ∀ j, (j < n)%nat → idle_at m ((m.(queue).(nextQueueKey) + j) mod len)%nat.
Proof.
  revert m. induction n as [|n IH]; intros m Hok Hlen; simpl.
  - split; [|lia]. exists m.(queue).(nextQueueKey). split; [by destruct m as [? ? ? ? ? ? ? []]|].
    pose proof (qo_cursor _ _ (ok_queue _ Hok)). lia.
  - set (len := length m.(queue).(queueKeys)) in *.
    pose proof (qo_cursor _ _ (ok_queue _ Hok)) as Hcur. fold len in Hcur.
    rewrite (proj2 (Nat.leb_gt len _)) by lia. set (index := m.(queue).(nextQueueKey)) in *.
    assert (setCursor m.(queue) index = m.(queue)) as -> by (unfold index; by destruct m.(queue)).
    assert (setQueue m m.(queue) = m) as -> by (by destruct m).
    destruct (lookup_lt_is_Some_2 m.(queue).(queueKeys) index) as [key Hkey]; [unfold len in *; lia|].
    rewrite Hkey.
    assert (key ∈ m.(queue).(queueKeys)) as Hin by (by eapply list_elem_of_lookup_2).
    apply (qo_dom _ _ (ok_queue _ Hok)) in Hin as [old Hold]. rewrite Hold. simpl default.
    destruct (qo_queue _ _ (ok_queue _ Hok) _ _ Hold) as (_ & Hne & _).
    destruct old as [|p0 old]; [done|].
    pose proof (scanQueue_spec m 0 (p0 :: old)) as Hscan.
    destruct (scanQueue _ _ _ _) as [[[[i p] w] [err|]]|].
    + destruct Hscan as (_ & Hi & Hw & _). rewrite Nat.sub_0_r in Hi.
      apply cancelQueued_ok; [done|]. by exists key, (p0 :: old).
    + destruct Hscan as (_ & Hi & Hw & Hg). rewrite Nat.sub_0_r in Hi.
      apply grantQueued_ok; [done| |auto]. by exists key, (p0 :: old).
    + set (m1 := setQueue m (setCursor m.(queue) ((index + 1) mod len)%nat)).
      assert (ok m1) as Hok1.
      { apply ok_setQueue; [done|]. apply setCursor_ok; [apply Hok|].
        pose proof (Nat.mod_upper_bound (index + 1) len). fold len. lia. }
      specialize (IH m1 Hok1 Hlen). destruct (dispatchPass now ctxErr n m1) as [m' progress].
      destruct progress; [done|]. destruct IH as [(i & -> & Hi) Hidle]. split; [by exists i|].
      intros [|j] Hj.
      * rewrite Nat.add_0_r, Nat.mod_small by lia. intros key' old' p Hk Ho Hp. simplify_eq.
        by apply Hscan.
      * specialize (Hidle j ltac:(lia)). simpl in Hidle. fold len in Hidle.
        rewrite Nat.Div0.add_mod_idemp_l in Hidle.
        by replace (index + S j)%nat with (index + 1 + j)%nat by lia.
Qed.

(** Nothing is left that dispatch could do. *)
Definition quiet m : Prop :=
  ∀ w, w ∈ queuedWaiters m.(queue) →
    ctxErr w.(wCtx) = None ∧ canGrantLocked m w.(wClass) w.(wSessionKey) = false.

Lemma idle_quiet m i :
  ok m → (∀ j, (j < length m.(queue).(queueKeys))%nat →
    idle_at m ((m.(queue).(nextQueueKey) + j) mod length m.(queue).(queueKeys))%nat) →
  quiet (at_cursor m i).
Proof.
  intros Hok Hidle w Hw. apply elem_of_queuedWaiters in Hw as (k & l & p & Hk & Hp & Hh). simpl in *.
  assert (k ∈ m.(queue).(queueKeys)) as [x Hx]%list_elem_of_lookup.
  { apply (qo_dom _ _ (ok_queue _ Hok)). eauto. }
  set (len := length m.(queue).(queueKeys)) in *. set (cur := m.(queue).(nextQueueKey)) in *.
  assert (x < len)%nat as Hlt by (by eapply lookup_lt_Some).
  pose proof (qo_cursor _ _ (ok_queue _ Hok)) as Hcur. fold len cur in Hcur.
  assert ((cur + (x + len - cur) mod len) mod len = x)%nat as Hmod.
  { rewrite Nat.Div0.add_mod_idemp_r. replace (cur + (x + len - cur))%nat with (x + 1 * len)%nat by lia.
    rewrite Nat.Div0.mod_add, Nat.mod_small; lia. }
  specialize (Hidle ((x + len - cur) mod len)%nat). rewrite Hmod in Hidle.
  eapply (Hidle ltac:(apply Nat.mod_upper_bound; lia) k l p); done.
Qed.

Lemma measure_waiters m :
  ok m → Z.of_nat (dispatchMeasure m.(queue)) =
    Z.of_nat (length m.(queue).(queueKeys)) + m.(queue).(waiters).
Proof.
  intros Hok. destruct (ok_queue _ Hok). unfold dispatchMeasure. rewrite Nat2Z.inj_add. f_equal.
  rewrite qo_waiters0, <- (msum_keys (λ o, lengthZ (default [] o)) _ m.(queue).(queueKeys)); [|done..].
  generalize m.(queue).(queueKeys). intros keys. induction keys as [|k keys IH]; simpl; [done|].
  rewrite length_app, Nat2Z.inj_add, IH. done.
Qed.

Lemma no_waiters m : ok m → m.(queue).(waiters) ≤ 0 ∨ m.(queue).(queueKeys) = [] → quiet m.
Proof.
  intros Hok Hz w Hw. exfalso. apply elem_of_queuedWaiters in Hw as (k & l & p & Hk & Hp & _).
  destruct (ok_queue _ Hok). destruct (qo_queue0 k l Hk) as (_ & Hne & _). destruct Hz as [Hz|Hz].
  - assert (lengthZ l ≤ m.(queue).(waiters)) as Hle.
    { rewrite qo_waiters0. apply (msum_lookup_le _ k).
      - intros k' v Hv. rewrite lookup_fmap in Hv. apply fmap_Some in Hv as (? & _ & ->). unfold lengthZ. lia.
      - by rewrite lookup_fmap, Hk. }
    destruct l; [done|]. unfold lengthZ in Hle. simpl in Hle. lia.
  - assert (k ∈ m.(queue).(queueKeys)) as Hin by (apply qo_dom0; eauto).
    rewrite Hz in Hin. by apply not_elem_of_nil in Hin.
Qed.

Lemma dispatchLoop_spec fuel m :
  ok m → (dispatchMeasure m.(queue) < fuel)%nat →
  let m' := dispatchLoop now ctxErr fuel m in ok m' ∧ quiet m'.
Proof.
  revert m. induction fuel as [|fuel IH]; intros m Hok Hfuel; [lia|]. simpl.
  destruct (_ && _) eqn:Hc.
  - apply andb_true_iff in Hc as [Hw Hk]. apply Z.ltb_lt in Hw. apply Nat.ltb_lt in Hk.
    pose proof (dispatchPass_spec (length m.(queue).(queueKeys)) m Hok Hk) as Hpass.
    destruct (dispatchPass _ _ _ _) as [m' progress]. simpl in Hpass. destruct progress.
    + destruct Hpass as (Hok' & Hw' & Hk'). apply IH; [done|].
      pose proof (measure_waiters m Hok). pose proof (measure_waiters m' Hok'). lia.
    + destruct Hpass as [(i & -> & Hi) Hidle]. split; [|by apply idle_quiet].
      apply ok_setQueue; [done|]. apply setCursor_ok; [apply Hok|]. lia.
  - split; [done|]. apply no_waiters; [done|]. apply andb_false_iff in Hc as [Hc|Hc].
    + left. by apply Z.ltb_ge in Hc.
    + right. apply Nat.ltb_ge in Hc. apply nil_length_inv. lia.
Qed.

(** Enough fuel is enough. *)
Lemma dispatchLoop_fuel f1 f2 m :
  ok m → (dispatchMeasure m.(queue) < f1)%nat → (dispatchMeasure m.(queue) < f2)%nat →
  dispatchLoop now ctxErr f1 m = dispatchLoop now ctxErr f2 m.
Proof.
  revert f2 m. induction f1 as [|f1 IH]; intros [|f2] m Hok H1 H2; try lia. simpl.
  destruct (_ && _) eqn:Hc; [|done].
  apply andb_true_iff in Hc as [Hw Hk]. apply Z.ltb_lt in Hw. apply Nat.ltb_lt in Hk.
  pose proof (dispatchPass_spec (length m.(queue).(queueKeys)) m Hok Hk) as Hpass.
  destruct (dispatchPass _ _ _ _) as [m' progress]. destruct progress; [|done].
  destruct Hpass as (Hok' & Hw' & Hk').
  pose proof (measure_waiters m Hok). pose proof (measure_waiters m' Hok'). apply IH; [done|lia..].
Qed.

(** Dispatch keeps the invariant, ends, and leaves no waiter it could serve. *)
Lemma dispatch_spec m :
  ok m → ok (dispatchLocked now ctxErr m) ∧
  (m.(adaptive).(adaptiveSampling) ≤ 0 → quiet (dispatchLocked now ctxErr m)).
Proof.
  intros Hok. unfold dispatchLocked. destruct (Z.ltb_spec 0 m.(adaptive).(adaptiveSampling)).
  - split; [done|lia].
  - destruct (dispatchLoop_spec (S (dispatchMeasure m.(queue))) m Hok) as [? ?]; [lia|]. done.
Qed.
End dispatch.

(** What dispatch does not touch. *)
Definition same_frame (m m' : agentStreamCapacityManager) : Prop :=
  m'.(config) = m.(config) ∧ m'.(adaptive) = m.(adaptive) ∧ m'.(resources) = m.(resources) ∧
  m'.(registeredSessions) = m.(registeredSessions) ∧ m'.(sessionLimits) = m.(sessionLimits).

Lemma dispatchPass_frame now ctxErr n m : same_frame m (dispatchPass now ctxErr n m).1.
Proof.
  revert m. induction n as [|n IH]; intros m; simpl; [done|].
  repeat (case_match; simplify_eq/=; try done); try exact (IH _).
Qed.

Lemma dispatchLoop_frame now ctxErr n m : same_frame m (dispatchLoop now ctxErr n m).
Proof.
  revert m. induction n as [|n IH]; intros m; simpl; [done|].
  destruct (_ && _); [|done].
  pose proof (dispatchPass_frame now ctxErr (length m.(queue).(queueKeys)) m) as Hf.
  destruct (dispatchPass _ _ _ _) as [m' progress]. simpl in Hf. destruct progress; [|done].
  destruct (IH m') as (? & ? & ? & ? & ?). destruct Hf as (? & ? & ? & ? & ?).
  split_and!; congruence.
Qed.

Lemma dispatch_frame now ctxErr m : same_frame m (dispatchLocked now ctxErr m).
Proof. unfold dispatchLocked. case_match; [done|]. apply dispatchLoop_frame. Qed.

(** Dispatch grants only new leases: the others stay as they are. *)
Definition keeps_leases (m m' : agentStreamCapacityManager) : Prop :=
  m.(leases).(nextLeaseID) ≤ m'.(leases).(nextLeaseID) ∧
  ∀ id, id ≤ m.(leases).(nextLeaseID) →
    m'.(leases).(activeLeases) !! id = m.(leases).(activeLeases) !! id.

Lemma keeps_leases_refl m : keeps_leases m m.
Proof. by split. Qed.

Lemma keeps_leases_trans m1 m2 m3 : keeps_leases m1 m2 → keeps_leases m2 m3 → keeps_leases m1 m3.
Proof.
  intros [H1 H2] [H3 H4]. split; [lia|]. intros id Hid. rewrite H4 by lia. by apply H2.
Qed.

Lemma dispatchPass_leases now ctxErr n m : keeps_leases m (dispatchPass now ctxErr n m).1.
Proof.
  revert m. induction n as [|n IH]; intros m; simpl; [apply keeps_leases_refl|].
  repeat (case_match; simplify_eq/=; try apply keeps_leases_refl);
    try match goal with |- keeps_leases _ (dispatchPass _ _ _ ?m').1 => exact (IH m') end;
    (split; simpl; [lia|]; intros id Hid; by rewrite ?lookup_insert_ne by lia).
Qed.

Lemma dispatch_leases now ctxErr m : keeps_leases m (dispatchLocked now ctxErr m).
Proof.
  unfold dispatchLocked. case_match; [apply keeps_leases_refl|].
  generalize (S (dispatchMeasure m.(queue))). intros n. clear H. revert m.
  induction n as [|n IH]; intros m; simpl; [apply keeps_leases_refl|].
  destruct (_ && _); [|apply keeps_leases_refl].
  pose proof (dispatchPass_leases now ctxErr (length m.(queue).(queueKeys)) m) as Hp.
  destruct (dispatchPass _ _ _ _) as [m' progress] eqn:E. simpl in Hp. destruct progress; [|done].
  eapply keeps_leases_trans; [exact Hp|]. apply IH.
Qed.

(** ** The resource ledger *)

Lemma held_insert f r t x :
  r.(outstanding) !! t = None →
  msum (f <$> <[t := x]> r.(outstanding)) = held f r + f x.
Proof.
  intros H. rewrite fmap_insert, msum_insert, lookup_fmap, H. unfold held. simpl. lia.
Qed.

Lemma held_delete f r t x :
  r.(outstanding) !! t = Some x →
  msum (f <$> delete t r.(outstanding)) = held f r - f x.
Proof. intros H. rewrite fmap_delete, msum_delete, lookup_fmap, H. done. Qed.

(** Sums of reservations that are non-negative. *)
Definition nonneg_res (r : resourceLedger) : Prop :=
  map_Forall (λ _ x, 0 ≤ x.(rBytes) ∧ 0 ≤ x.(rFDs)) r.(outstanding).

Lemma held_mono f g (o : gmap Z reservation) :
  map_Forall (λ _ x, f x ≤ g x) o → msum (f <$> o) ≤ msum (g <$> o).
Proof.
  induction o as [|t x o Ht IH] using map_ind; intros H; [done|].
  apply map_Forall_insert in H as [Hx H]; [|done]. specialize (IH H).
  rewrite !fmap_insert, !msum_insert_fresh by (by rewrite lookup_fmap, Ht). lia.
Qed.

Lemma held_nonneg f (o : gmap Z reservation) :
  map_Forall (λ _ x, 0 ≤ f x) o → 0 ≤ msum (f <$> o).
Proof.
  intros H. apply msum_nonneg. intros t v Hv. rewrite lookup_fmap in Hv.
  apply fmap_Some in Hv as (x & Hx & ->). by eapply H.
Qed.

Lemma held_owned_le f o (out : gmap Z reservation) :
  map_Forall (λ _ x, 0 ≤ f x) out → 0 ≤ msum (ownedBy o f <$> out) ≤ msum (f <$> out).
Proof.
  intros H. split; [apply held_nonneg|apply held_mono]; intros t x Hx; specialize (H t x Hx);
    unfold ownedBy; simpl in *; case_bool_decide; lia.
Qed.

Lemma saturatingAdd_exact a b : 0 ≤ b → a + b ≤ max_int64 → saturatingAddInt64 a b = a + b.
Proof. intros H1 H2. unfold saturatingAddInt64. repeat case_goal; bprop; lia. Qed.

(** The reservation fits in the 64-bit ledgers. *)
Definition no_saturation (r : resourceLedger) (bytes fds : Z) : Prop :=
  r.(adaptiveExternalBytes) + bytes ≤ max_int64 ∧ r.(adaptiveExternalFDs) + fds ≤ max_int64 ∧
  Z.of_nat (size r.(outstanding)) < max_int64.

Lemma resources_nonneg r : resources_ok r →
  map_Forall (λ _ x, 0 ≤ x.(rBytes)) r.(outstanding) ∧ map_Forall (λ _ x, 0 ≤ x.(rFDs)) r.(outstanding).
Proof.
  intros []. split; eapply map_Forall_impl; try exact ro_tokens0; simpl; intros; naive_solver.
Qed.

Lemma reserve_ok m code bytes fds legacy m' o :
  ok m → no_saturation m.(resources) bytes fds →
  tryReserveAdaptiveResourceMode m code bytes fds legacy = (m', o) → ok m'.
Proof.
  intros Hok (Hs1 & Hs2 & Hs3) E. unfold tryReserveAdaptiveResourceMode in E. cbv zeta in E.
  case_head E; try (by simplify_eq). injection E as <- <-. bprop.
  pose proof (ok_resources _ Hok) as Hr. destruct (resources_nonneg _ Hr) as [Hnb Hnf].
  destruct Hok as [? ? ? [] _ ?]. split; try done; try (by split). destruct Hr. simpl.
  set (r := m.(resources)) in *. set (out := r.(outstanding)) in *.
  assert (out !! r.(nextReservation) = None) as Hfresh.
  { destruct (out !! r.(nextReservation)) as [x|] eqn:Ex; [|done]. apply ro_tokens0 in Ex as [? _]. lia. }
  unfold held in ro_bytes0, ro_fds0, ro_legacy0, ro_bytes_by0, ro_fds_by0, ro_count_by0, ro_bounded0.
  fold out in ro_bytes0, ro_fds0, ro_legacy0, ro_bytes_by0, ro_fds_by0, ro_count_by0, ro_bounded0.
  assert (∀ o' f, map_Forall (λ _ x, 0 ≤ f x) out → 0 ≤ msum (ownedBy o' f <$> out) ≤ msum (f <$> out))
    as Hown by (intros; by apply held_owned_le).
  assert (msum ((λ x, if x.(rLegacy) then x.(rBytes) else 0) <$> out) ≤ msum (rBytes <$> out)) as Hleg.
  { apply held_mono. intros t x Hx. specialize (Hnb t x Hx). simpl in *. case_match; lia. }
  assert (msum ((λ _, 1) <$> out) = Z.of_nat (size out)) as Hsz by apply msum_ones.
  assert (∀ f, msum (f <$> <[r.(nextReservation) := mkReservation a bytes fds legacy]> out)
    = msum (f <$> out) + f (mkReservation a bytes fds legacy)) as Hins.
  { intros f. by apply (held_insert f r). }
  split; simpl; unfold held; simpl; rewrite ?Hins; simpl.
  - rewrite saturatingAdd_exact; lia.
  - rewrite saturatingAdd_exact; lia.
  - rewrite ro_legacy0. destruct legacy; [rewrite saturatingAdd_exact; lia|lia].
  - intros o'. unfold setOwner. rewrite Hins. unfold ownedBy at 2. simpl.
    rewrite !ro_bytes_by0. specialize (Hown o' rBytes Hnb).
    rewrite (bool_decide_sym a o'). case_bool_decide; [subst|lia].
    rewrite saturatingAdd_exact; lia.
  - intros o'. unfold setOwner. rewrite Hins. unfold ownedBy at 2. simpl.
    rewrite !ro_fds_by0. specialize (Hown o' rFDs Hnf).
    rewrite (bool_decide_sym a o'). case_bool_decide; [subst|lia].
    rewrite saturatingAdd_exact; lia.
  - intros o'. unfold setOwner. rewrite Hins. unfold ownedBy at 2. simpl.
    rewrite !ro_count_by0. specialize (Hown o' (λ _, 1) ltac:(intros ? ? _; lia)).
    rewrite (bool_decide_sym a o'). case_bool_decide; [subst|lia].
    rewrite saturatingAdd_exact; lia.
  - apply map_Forall_insert_2; [simpl; lia|]. eapply map_Forall_impl; [exact ro_tokens0|].
    simpl. intros; lia.
  - lia.
Qed.

(** The ledger after the release closure of [x] ran. *)
Definition settledLedger (r : resourceLedger) (t : Z) (x : reservation) : resourceLedger :=
  let o := x.(rOwner) in
  let bytesBy := r.(adaptiveExternalBytesByOwner) in
  let fdsBy := r.(adaptiveExternalFDsByOwner) in
  let countBy := r.(adaptiveExternalReservationsByOwner) in
  let legacy := if x.(rLegacy) then r.(legacyStreamSupplementBytes) - x.(rBytes)
                else r.(legacyStreamSupplementBytes) in
  mkResources (Z.max 0 (r.(adaptiveExternalBytes) - x.(rBytes)))
    (Z.max 0 (r.(adaptiveExternalFDs) - x.(rFDs))) (Z.max 0 legacy)
    (setOwner bytesBy o (Z.max 0 (bytesBy o - x.(rBytes))))
    (setOwner fdsBy o (Z.max 0 (fdsBy o - x.(rFDs))))
    (setOwner countBy o (Z.max 0 (countBy o - 1)))
    (delete t r.(outstanding)) r.(nextReservation).

Lemma releaseReservation_eq now ctxErr m t :
  releaseReservation now ctxErr m t =
  match m.(resources).(outstanding) !! t with
  | None => m
  | Some x => dispatchLocked now ctxErr (setResources m (settledLedger m.(resources) t x))
  end.
Proof. done. Qed.

Lemma settledLedger_ok r t x :
  resources_ok r → r.(outstanding) !! t = Some x → resources_ok (settledLedger r t x).
Proof.
  intros Hr Hx. destruct (resources_nonneg _ Hr) as [Hnb Hnf]. destruct Hr. unfold settledLedger. set (out := r.(outstanding)) in *.
  unfold held in ro_bytes0, ro_fds0, ro_legacy0, ro_bytes_by0, ro_fds_by0, ro_count_by0, ro_bounded0.
  fold out in ro_bytes0, ro_fds0, ro_legacy0, ro_bytes_by0, ro_fds_by0, ro_count_by0, ro_bounded0.
  assert (∀ f, map_Forall (λ _ x, 0 ≤ f x) out → f x ≤ msum (f <$> out)) as Hle.
  { intros f Hf. apply (msum_lookup_le _ t); [|by rewrite lookup_fmap, Hx].
    intros k v Hv. rewrite lookup_fmap in Hv. apply fmap_Some in Hv as (y & Hy & ->). by eapply Hf. }
  assert (∀ o f, map_Forall (λ _ x, 0 ≤ f x) out → map_Forall (λ _ x, 0 ≤ ownedBy o f x) out) as Ho.
  { intros o f Hf k y Hy. unfold ownedBy. specialize (Hf k y Hy). simpl in *. case_bool_decide; lia. }
  destruct (ro_tokens0 t x Hx) as (_ & Hb & Hf).
  pose proof (Hle _ Hnb). pose proof (Hle _ Hnf).
  assert (∀ f, msum (f <$> delete t out) = msum (f <$> out) - f x) as Hdel.
  { intros f. by apply (held_delete f r). }
  split; simpl; unfold held; simpl; rewrite ?Hdel; simpl.
  - lia.
  - lia.
  - rewrite ro_legacy0.
    pose proof (Hle (λ x, if x.(rLegacy) then x.(rBytes) else 0)) as Hl. simpl in Hl.
    assert (map_Forall (λ _ y, 0 ≤ (if y.(rLegacy) then y.(rBytes) else 0)) out) as Hln.
    { intros k y Hy. specialize (Hnb k y Hy). simpl in *. destruct (rLegacy y); lia. }
    specialize (Hl Hln). pose proof (held_nonneg _ _ Hln). destruct (rLegacy x); lia.
  - intros o. unfold setOwner. rewrite Hdel.
    rewrite !ro_bytes_by0. pose proof (Hle _ (Ho o _ Hnb)) as Hl. unfold ownedBy in *.
    rewrite (bool_decide_sym o). case_bool_decide; [subst; lia|lia].
  - intros o. unfold setOwner. rewrite Hdel.
    rewrite !ro_fds_by0. pose proof (Hle _ (Ho o _ Hnf)) as Hl. unfold ownedBy in *.
    rewrite (bool_decide_sym o). case_bool_decide; [subst; lia|lia].
  - intros o. unfold setOwner. rewrite Hdel.
    rewrite !ro_count_by0. pose proof (Hle _ (Ho o (λ _, 1) ltac:(intros ? ? _; lia))) as Hl.
    unfold ownedBy in *. rewrite (bool_decide_sym o). case_bool_decide; [subst; lia|lia].
  - by apply map_Forall_delete.
  - lia.
Qed.

(** ** Granting and the blocking constraint *)

Lemma adaptivePublic_le m :
  validateAgentStreamCapacityConfig m.(config) = None → adaptivePublicLimitLocked m ≤ m.(config).(Public).
Proof.
  intros H. assert (0 ≤ m.(config).(Public)).
  { unfold validateAgentStreamCapacityConfig in H. case_head H; try done. bprop. lia. }
  unfold adaptivePublicLimitLocked. repeat case_goal; bprop; lia.
Qed.

Lemma canGrant_intro m c k :
  let l := m.(leases) in
  l.(usedTotal) < m.(config).(Total) → get l.(totalBySession) k < sessionLimitLocked m k →
  get l.(openingBySession) k < m.(config).(MaxOpeningPerSession) →
  (isPublic c = true → l.(usedPublic) < m.(config).(Public) ∧
     get l.(publicBySession) k < publicSessionLimitLocked m k ∧
     get l.(publicOpeningBySession) k < publicOpeningLimitPerSessionLocked m.(config)) →
  (isPooled c = true → l.(usedPooled) < m.(config).(Pooled)) →
  (isHealth c = true → l.(usedControl) < m.(config).(Control)) →
  (isAdaptive m = true →
     m.(adaptive).(resourceSnapshot).(MemoryPressure.RejectNew) = false ∧
     l.(usedTotal) < adaptiveEffectiveAdmissionLimitLocked m ∧
     (isPublic c = true → l.(usedPublic) < adaptivePublicLimitLocked m)) →
  canGrantLocked m c k = true.
Proof.
  simpl. intros H1 H2 H3 H4 H5 H6 H7. unfold canGrantLocked.
  rewrite (proj2 (Z.leb_gt (Total _) _) H1), (proj2 (Z.leb_gt (sessionLimitLocked _ _) _) H2),
    (proj2 (Z.leb_gt (MaxOpeningPerSession _) _) H3), !orb_false_r.
  assert (isAdaptive m && (MemoryPressure.RejectNew (resourceSnapshot (adaptive m))
    || (adaptiveEffectiveAdmissionLimitLocked m <=? usedTotal (leases m))
    || (negb (isHealth c) && (adaptivePublicLimitLocked m <=? usedPublic (leases m)))) = false) as ->.
  { destruct (isAdaptive m); [|done]. destruct H7 as (-> & Ht & Hp); [done|].
    rewrite (proj2 (Z.leb_gt _ _)) by done. simpl. unfold isPublic in Hp.
    destruct (negb (isHealth c)); [|done]. by rewrite (proj2 (Z.leb_gt _ _)) by auto. }
  destruct c; simpl in *; repeat (rewrite (proj2 (Z.ltb_lt _ _)) by naive_solver); done.
Qed.

Lemma blocking_spec m c k : blockingConstraintLocked m c k = ErrWaitTurn →
  adaptivePublicLimitLocked m ≤ m.(config).(Public) → canGrantLocked m c k = true.
Proof.
  unfold blockingConstraintLocked. cbv zeta. intros H Hp. case_head H; try discriminate;
    apply canGrant_intro; bprop; try done; try lia; intros Hx; try discriminate; try (split_and!; lia);
    (split_and!;
      [intuition congruence
      |repeat match goal with H : _ ∨ _ |- _ => destruct H; bprop end; (congruence || lia)
      |intros Hy; repeat match goal with H : _ ∨ _ |- _ => destruct H; bprop end; (congruence || done || lia)]).
Qed.

Lemma grant_iff_blocking m c k :
  adaptivePublicLimitLocked m ≤ m.(config).(Public) →
  canGrantLocked m c k = bool_decide (blockingConstraintLocked m c k = ErrWaitTurn).
Proof.
  intros Hp. case_bool_decide as Hb; [by apply blocking_spec|]. apply not_true_is_false.
  intros (H1 & H2 & H3 & H4 & H5 & H6 & H7)%canGrant_spec. apply Hb.
  unfold blockingConstraintLocked. cbv zeta.
  rewrite (proj2 (Z.leb_gt (Total _) _) H1), (proj2 (Z.leb_gt (sessionLimitLocked _ _) _) H2),
    (proj2 (Z.leb_gt (MaxOpeningPerSession _) _) H3).
  destruct (_ && _) eqn:E.
  { exfalso. apply andb_true_iff in E as [Ea E]. destruct (H7 Ea) as (Hr & Ht & Hpub).
    rewrite Hr in E. simpl in E. unfold isPublic in Hpub.
    repeat match goal with H : _ || _ = true |- _ => apply orb_true_iff in H as [H|H] end; bprop; [lia|].
    match goal with H : isHealth c = false |- _ => rewrite H in Hpub end. specialize (Hpub eq_refl). lia. }
  destruct c; simpl in *.
  - destruct H4 as (? & ? & ?); [done|]. specialize (H5 eq_refl).
    by rewrite !(proj2 (Z.leb_gt _ _)) by lia.
  - destruct H4 as (? & ? & ?); [done|]. by rewrite !(proj2 (Z.leb_gt _ _)) by lia.
  - specialize (H6 eq_refl). by rewrite !(proj2 (Z.leb_gt _ _)) by lia.
Qed.

(** ** The operations keep the invariant *)

Section operations.
Context (now : Z) (ctxErr : Z → option ctxError).
Implicit Types m : agentStreamCapacityManager.

Lemma dispatch_ok m : ok m → ok (dispatchLocked now ctxErr m).
Proof. intros H. by apply dispatch_spec. Qed.

Lemma markLive_ok m id : ok m → ok (markLive now ctxErr m id).1.
Proof.
  intros H. unfold markLive. destruct (_ !! id) as [x|] eqn:Hx; [|done].
  case_bool_decide; [|done]. apply dispatch_ok, ok_setLeases_le; [done| |].
  - apply move_ok; [apply H|done..].
  - apply move_ledger_le, H.
Qed.

Lemma markClosing_ok m id : ok m → ok (markClosing now ctxErr m id).1.
Proof.
  intros H. unfold markClosing. destruct (_ !! id) as [x|] eqn:Hx; [|done].
  assert (ok (dispatchLocked now ctxErr (setLeases m (moveLease m.(leases) now id x LeaseClosing)))).
  { apply dispatch_ok, ok_setLeases_le; [done| |].
    - apply move_ok; [apply H|done..].
    - apply move_ledger_le, H. }
  by destruct (state x).
Qed.

Lemma release_lease_ok m id : ok m → ok (release now ctxErr m id).1.
Proof.
  intros H. unfold release. destruct (_ !! id) as [x|] eqn:Hx; [|done].
  case_bool_decide; [done|]. apply dispatch_ok, ok_setLeases_le; [done| |].
  - apply release_ok; [apply H|done].
  - apply release_ledger_le, H.
Qed.

Lemma reject_ok m e : ok m → ok (recordRejectionLocked m e).
Proof. apply ok_setMisses. Qed.

Lemma checkRequest_ok code qk sk c :
  checkRequest code qk sk = inl c → qk ≠ "" ∧ sk ≠ "".
Proof. unfold checkRequest. intros H. case_head H; try done. by bprop. Qed.

Lemma tryAcquire_ok m code qk sk : ok m → ok (tryAcquire now m code qk sk).1.
Proof.
  intros H. unfold tryAcquire. destruct (checkRequest _ _ _) as [c|] eqn:Hc; [|done].
  apply checkRequest_ok in Hc as [_ Hs].
  destruct (0 <? _); [done|]. destruct (negb _); [by apply reject_ok|].
  destruct (hasCompetingWaiterLocked _ _); [by apply reject_ok|].
  pose proof (grant_iff_blocking m c sk (adaptivePublic_le m (ok_config _ H))) as Hg.
  destruct (bool_decide _); [|by apply reject_ok]. by apply ok_grant.
Qed.

(** A waiter that was decided is in no queue. *)
Lemma decided_not_queued c q p w :
  queue_ok c q → q.(heap) !! p = Some w → w.(status) ≠ WaiterQueued ∨ w.(ready) = true →
  ∀ k l, q.(queues) !! k = Some l → p ∉ l.
Proof.
  intros Hq Hw Hd k l Hl Hp. destruct (qo_queue _ _ Hq k l Hl) as (_ & _ & _ & _ & Ha).
  rewrite Forall_forall in Ha. destruct (Ha p Hp) as (w' & Hw' & _ & ? & _ & ?).
  simplify_eq. destruct Hd; congruence.
Qed.

Lemma setDecided_ok m p w w' :
  ok m → m.(queue).(heap) !! p = Some w → w.(status) ≠ WaiterQueued ∨ w.(ready) = true →
  ok (setQueue m (setWaiter m.(queue) p w')).
Proof.
  intros H Hw Hd. apply ok_setQueue; [done|]. apply setWaiter_ok; [apply H| |].
  - by apply (qo_heap _ _ (ok_queue _ H) p w).
  - by eapply decided_not_queued; [apply H|..].
Qed.

Lemma acquireReady_ok m p w :
  ok m → m.(queue).(heap) !! p = Some w → w.(ready) = true →
  ok (acquireReady now ctxErr m p).1.
Proof.
  intros H Hw Hr. unfold acquireReady. rewrite Hw.
  destruct (wLease w) as [id|]; [|done]. destruct (ctxErr _) as [err|]; [|done].
  apply release_lease_ok. eapply setDecided_ok; eauto.
Qed.

Lemma removeWaiter_ok m p w :
  ok m → m.(queue).(heap) !! p = Some w →
  let q := removeWaiterLocked m.(queue) p w.(wQueueKey) in
  queue_ok m.(config) q ∧ (∀ k l, q.(queues) !! k = Some l → p ∉ l) ∧
  q.(nextWaiter) = m.(queue).(nextWaiter).
Proof.
  intros H Hw. pose proof (ok_queue _ H) as Hq. simpl.
  assert (∀ k l, m.(queue).(queues) !! k = Some l → p ∈ l → k = w.(wQueueKey)) as Hkey.
  { intros k l Hl Hp. destruct (qo_queue _ _ Hq k l Hl) as (_ & _ & _ & _ & Ha).
    rewrite Forall_forall in Ha. destruct (Ha p Hp) as (w' & Hw' & <- & _). congruence. }
  destruct (m.(queue).(queues) !! w.(wQueueKey)) as [old|] eqn:Ho.
  - destruct (decide (p ∈ old)) as [Hp|Hp].
    + rewrite (removeWaiter_dropped m.(config) _ _ _ _ Hq Ho Hp).
      assert (w.(wQueueKey) ∈ m.(queue).(queueKeys)) as Hin by (apply (qo_dom _ _ Hq); eauto).
      pose proof (indexOf_lookup _ _ Hin) as Hi. pose proof (indexOf_lookup _ _ Hp) as Hpi.
      assert (0 < length m.(queue).(queueKeys))%nat by (apply lookup_lt_Some in Hi; lia).
      pose proof (qo_cursor _ _ Hq).
      destruct (drop_ok m.(config) m.(queue) _ old _ p _ m.(queue).(nextQueueKey) Hq Hi Ho Hpi)
        as (? & ? & _ & _ & ? & _); [lia|done].
    + unfold removeWaiterLocked. rewrite Ho. simpl. rewrite bool_decide_eq_false_2 by done.
      split_and!; try done. intros k l Hl Hin. pose proof (Hkey k l Hl Hin) as ->. congruence.
  - unfold removeWaiterLocked. rewrite Ho. simpl.
    split_and!; try done. intros k l Hl Hin. pose proof (Hkey k l Hl Hin) as ->. congruence.
Qed.

Lemma acquireDone_ok m p err : ok m → ok (acquireDone now ctxErr m p err).1.
Proof.
  intros H. unfold acquireDone. destruct (_ !! p) as [w|] eqn:Hw; [|done].
  destruct (status w) eqn:Hs; [| |done].
  - simpl. apply dispatch_ok, ok_setQueue; [by apply reject_ok|].
    destruct (removeWaiter_ok m p w H Hw) as (Hq & Hno & Hn).
    apply setWaiter_ok; [done| |done]. rewrite Hn. by apply (qo_heap _ _ (ok_queue _ H) p w).
  - assert (ok (setQueue m (setWaiter m.(queue) p (mkWaiter w.(wClass) w.(wQueueKey) w.(wSessionKey)
      w.(wCtx) w.(ready) None w.(wErr) w.(status))))) as H'.
    { eapply setDecided_ok; [done..|]. left. congruence. }
    rewrite Hs in H'. simpl. destruct (wLease w); [by apply release_lease_ok|done].
Qed.

(** The tests that let a request join a queue. *)
Definition queueLimitReached m (c : agentStreamCapacityClass) : bool :=
  if isHealth c then Z.max 1 m.(config).(Control) <=? waiterCountForClassLocked m c
  else m.(config).(MaxWaiters) <=? m.(queue).(waiters) - waiterCountForClassLocked m TrustedHealth.

(** The state in which a new waiter joined its queue. *)
Definition joined m (c : agentStreamCapacityClass) (ctx : Z) (qk sk : string) : agentStreamCapacityManager :=
  setQueue m (enqueueLocked (mkQueue m.(queue).(queues) m.(queue).(queueKeys) m.(queue).(nextQueueKey)
      m.(queue).(waiters) m.(queue).(heap) (m.(queue).(nextWaiter) + 1)) m.(queue).(nextWaiter)
    (mkWaiter c qk sk ctx false None None WaiterQueued)).

Lemma joined_ok m c ctx qk sk :
  ok m → qk ≠ "" → sk ≠ "" → queueLimitReached m c = false →
  lengthZ (default [] (m.(queue).(queues) !! qk)) < m.(config).(MaxWaitersPerKey) →
  ok (joined m c ctx qk sk).
Proof.
  intros H Hqk Hs Hfull Hkey. apply ok_setQueue; [done|]. pose proof (ok_queue _ H) as Hq.
  set (q := mkQueue _ _ _ _ _ _). assert (queue_ok m.(config) q) as Hq'.
  { destruct Hq. split; simpl; try done. eapply map_Forall_impl; [exact qo_heap0|]. simpl. intros; lia. }
  apply enqueue_ok; simpl; try done.
  - destruct (m.(queue).(heap) !! m.(queue).(nextWaiter)) as [x|] eqn:E; [|done].
    apply (qo_heap _ _ Hq) in E. lia.
  - lia.
  - unfold queueLimitReached, waiterCountForClassLocked in Hfull.
    destruct c; simpl in Hfull |- *; bprop; rewrite health_count in Hfull; lia.
Qed.

(** The branches of [acquire] after its validation. *)
Lemma acquire_cases m ctx code qk sk (P : agentStreamCapacityManager → Prop) :
  P m → (∀ e, P (recordRejectionLocked m e)) →
  (∀ c, checkRequest code qk sk = inl c → m.(adaptive).(adaptiveSampling) ≤ 0 →
     canGrantLocked m c sk = true → P (setLeases m (grantLocked m.(leases) now c qk sk).2)) →
  (∀ c, checkRequest code qk sk = inl c → m.(adaptive).(adaptiveSampling) ≤ 0 →
     queueLimitReached m c = false →
     lengthZ (default [] (m.(queue).(queues) !! qk)) < m.(config).(MaxWaitersPerKey) →
     P (dispatchLocked now ctxErr (joined m c ctx qk sk))) →
  P (acquire now ctxErr m ctx code qk sk).1.
Proof.
  intros Hm Hrej Hgrant Hjoin. unfold acquire. destruct (checkRequest _ _ _) as [c|] eqn:Hc; [|done].
  destruct (ctxErr ctx); [done|]. destruct (0 <? _) eqn:Hsamp; [done|]. apply Z.ltb_ge in Hsamp.
  destruct (negb (classEnabledLocked _ _)); [apply Hrej|].
  destruct (_ && canGrantLocked m c sk) eqn:Hg; [bprop; by apply Hgrant|].
  fold (queueLimitReached m c). destruct (queueLimitReached m c) eqn:Hfull; [apply Hrej|].
  destruct (MaxWaitersPerKey _ <=? _) eqn:Hkey; [apply Hrej|]. apply Z.leb_gt in Hkey. by apply Hjoin.
Qed.

Lemma acquire_ok m ctx code qk sk : ok m → ok (acquire now ctxErr m ctx code qk sk).1.
Proof.
  intros H. apply acquire_cases; [done|intros; by apply reject_ok| |].
  - intros c [_ Hs]%checkRequest_ok _ Hg. by apply ok_grant.
  - intros c [Hqk Hs]%checkRequest_ok _ Hfull Hkey. by apply dispatch_ok, joined_ok.
Qed.
End operations.

Lemma registered_ok m key lim :
  ok m → key ≠ "" → get m.(leases).(totalBySession) key ≤ lim → 1 ≤ lim ≤ m.(config).(Total) →
  ok (setSessions m ({[key]} ∪ m.(registeredSessions)) (<[key := lim]> m.(sessionLimits))).
Proof.
  intros H Hk Hu Hl. destruct H as [Hc ? ? [Hus Hli] ? ?]. split; try done. split; simpl.
  - intros k Hin. unfold sessionLimitLocked. simpl. destruct (decide (k = key)) as [->|Hne].
    + unfold get at 2 3 4. rewrite lookup_insert_eq. simpl. repeat case_goal; bprop; lia.
    + unfold get at 2 3 4. rewrite lookup_insert_ne by done. apply Hus. set_solver.
  - apply map_Forall_insert_2; [split_and!; [done|lia|lia|set_solver]|].
    eapply map_Forall_impl; [exact Hli|]. simpl. intros k n (? & ? & ?). split_and!; [done|lia|lia|set_solver].
Qed.

Lemma unregistered_ok m key :
  ok m → ok (setSessions m (m.(registeredSessions) ∖ {[key]}) (delete key m.(sessionLimits))).
Proof.
  intros H. destruct H as [Hc ? ? [Hus Hli] ? ?]. split; try done. split; simpl.
  - intros k Hin. apply elem_of_difference in Hin as [Hin Hne]. rewrite elem_of_singleton in Hne.
    unfold sessionLimitLocked. simpl. unfold get at 2 3 4. rewrite lookup_delete_ne by done. by apply Hus.
  - intros k n Hn. apply lookup_delete_Some in Hn as [Hne Hn]. destruct (Hli k n Hn) as (? & ? & ?).
    split_and!; [done|lia|lia|set_solver].
Qed.

Lemma ok_setAdaptive m a : ok m → ok (setAdaptive m a).
Proof. intros [? ? ? [] ? ?]. split; try done; by split. Qed.

Lemma ok_setResources m r : ok m → resources_ok r → ok (setResources m r).
Proof. intros [? ? ? [] ? ?] Hr. split; try done; by split. Qed.

(** ** Less in use can only help *)

(** The share of public work grows with the effective limit. *)
Definition effectiveLimit (c : agentStreamCapacityConfig) (eff : Z) : Z :=
  let protected := Z.min c.(Control) defaultAgentStreamCapacityControlStreams in
  let protected := if eff <=? protected then Z.max 0 (eff - 1) else protected in
  let limit := eff - protected in
  if limit <? 0 then 0 else if c.(Public) <? limit then c.(Public) else limit.

Lemma adaptivePublic_effective m :
  adaptivePublicLimitLocked m = effectiveLimit m.(config) (adaptiveEffectiveAdmissionLimitLocked m).
Proof. done. Qed.

Lemma effectiveLimit_mono c e e' : 0 ≤ e ≤ e' → 0 ≤ c.(Public) → effectiveLimit c e ≤ effectiveLimit c e'.
Proof.
  unfold effectiveLimit. intros He Hc. set (p := Z.min _ _). clearbody p.
  destruct (Z.leb_spec e p), (Z.leb_spec e' p);
    repeat match goal with |- context [?a <? ?b] => destruct (Z.ltb_spec a b) end; lia.
Qed.

Lemma config_total m : ok m → 1 ≤ m.(config).(Total).
Proof.
  intros H. destruct H as [Hc _ _ _ _ _]. unfold validateAgentStreamCapacityConfig in Hc.
  case_head Hc; try done. by bprop.
Qed.

Lemma config_public m : ok m → 0 ≤ m.(config).(Public).
Proof.
  intros H. destruct H as [Hc _ _ _ _ _]. unfold validateAgentStreamCapacityConfig in Hc.
  case_head Hc; try done. bprop. lia.
Qed.

Lemma canGrant_anti m m' c k :
  ok m → m'.(config) = m.(config) → m'.(adaptive) = m.(adaptive) → m'.(queue) = m.(queue) →
  m'.(registeredSessions) = m.(registeredSessions) → m'.(sessionLimits) = m.(sessionLimits) →
  ledger_le m.(leases) m'.(leases) →
  adaptiveEffectiveAdmissionLimitLocked m' ≤ adaptiveEffectiveAdmissionLimitLocked m →
  canGrantLocked m' c k = true → canGrantLocked m c k = true.
Proof.
  intros Hok Hc Ha Hq Hr Hl Hle He (H1 & H2 & H3 & H4 & H5 & H6 & H7)%canGrant_spec.
  assert (sessionLimitLocked m' k = sessionLimitLocked m k) as Hs
    by (unfold sessionLimitLocked; by rewrite Hc, Hl).
  assert (publicSessionLimitLocked m' k = publicSessionLimitLocked m k) as Hp
    by (unfold publicSessionLimitLocked, hasPublicWaiterForOtherSessionLocked; by rewrite Hc, Hr, Hq).
  assert (adaptivePublicLimitLocked m' ≤ adaptivePublicLimitLocked m) as Hap.
  { rewrite !adaptivePublic_effective, Hc.
    apply effectiveLimit_mono; [split; [apply Z.le_max_l|done]|by apply config_public]. }
  assert (isAdaptive m' = isAdaptive m) as Hia by (unfold isAdaptive; by rewrite Ha).
  rewrite Hs, Hp, Hia, Hc, Ha in *. destruct Hle.
  specialize (ll_opening0 k). specialize (ll_public_opening0 k). specialize (ll_public_session0 k).
  specialize (ll_total_session0 k).
  apply canGrant_intro; try lia.
  - intros Hpub. destruct (H4 Hpub) as (? & ? & ?). lia.
  - intros Hx. specialize (H5 Hx). lia.
  - intros Hx. specialize (H6 Hx). lia.
  - intros Hx. destruct (H7 Hx) as (? & ? & Hpub). split_and!; [done|lia|].
    intros Hy. specialize (Hpub Hy). lia.
Qed.

(** No waiter that could be granted is left waiting, unless a sample is
    being taken. *)
Definition settled m : Prop :=
  0 < m.(adaptive).(adaptiveSampling) ∨
  ∀ w, w ∈ queuedWaiters m.(queue) → canGrantLocked m w.(wClass) w.(wSessionKey) = false.

Lemma dispatch_settled now ctxErr m : ok m → settled (dispatchLocked now ctxErr m).
Proof.
  intros H. destruct (dispatch_frame now ctxErr m) as (_ & Ha & _). unfold settled. rewrite Ha.
  destruct (Z.le_gt_cases m.(adaptive).(adaptiveSampling) 0); [right|by left].
  intros w Hw. by apply (proj2 (dispatch_spec now ctxErr m H)).
Qed.

Lemma settled_anti m m' :
  ok m → settled m → m'.(config) = m.(config) → m'.(adaptive) = m.(adaptive) → m'.(queue) = m.(queue) →
  m'.(registeredSessions) = m.(registeredSessions) → m'.(sessionLimits) = m.(sessionLimits) →
  ledger_le m.(leases) m'.(leases) →
  adaptiveEffectiveAdmissionLimitLocked m' ≤ adaptiveEffectiveAdmissionLimitLocked m →
  settled m'.
Proof.
  intros Hok Hs Hc Ha Hq Hr Hl Hle He. unfold settled. rewrite Ha, Hq.
  destruct Hs as [|Hs]; [by left|right]. intros w Hw. apply not_true_is_false. intros Hg.
  assert (canGrantLocked m w.(wClass) w.(wSessionKey) = true) by (by eapply canGrant_anti).
  by rewrite Hs in *.
Qed.

Lemma ledger_le_refl l : ledger_le l l.
Proof. by split. Qed.

Lemma settled_reject m e : ok m → settled m → settled (recordRejectionLocked m e).
Proof. intros Hok Hs. eapply settled_anti; try done; apply ledger_le_refl. Qed.

Lemma settled_grant m now c qk sk :
  ok m → settled m → settled (setLeases m (grantLocked m.(leases) now c qk sk).2).
Proof. intros Hok Hs. eapply settled_anti; try done. apply grant_ledger_le. Qed.

End StreamCapacityInv.
