(* ===== verification/StreamCapacityCheck.v ===== *)
(** The manager's own self check ([validateInvariantsLocked]) accepts every
    state that satisfies the invariant. *)

From S2P Require Import Prelude.
From S2P Require Import MemoryPressure.
From S2P Require Import StreamCapacity.
From S2P Require Import StreamCapacityLeases.
From S2P Require Import StreamCapacityQueue.
From S2P Require Import StreamCapacityInv.

Module StreamCapacityCheck.
Import StreamCapacity.StreamCapacity StreamCapacityLeases.StreamCapacityLeases
  StreamCapacityQueue.StreamCapacityQueue StreamCapacityInv.StreamCapacityInv.

Lemma firstError_app l1 l2 : firstError l1 = None → firstError l2 = None → firstError (l1 ++ l2) = None.
Proof.
  induction l1 as [|[b msg] l1 IH]; simpl; [done|]. destruct b; [auto|done].
Qed.

Lemma forallMap_true {K A} `{Countable K} (f : K → A → bool) (m : gmap K A) :
  (∀ k x, m !! k = Some x → f k x = true) → forallMap f m = true.
Proof.
  intros Hf. unfold forallMap. apply forallb_forall. intros [k x] Hin.
  rewrite <- list_elem_of_In, elem_of_map_to_list in Hin. by apply Hf.
Qed.

Lemma mapTotal_msum m : mapTotal m = msum m.
Proof.
  unfold mapTotal. rewrite <- (map_fmap_id m) at 2. by rewrite msum_list.
Qed.

Lemma msum_decr m k : 1 ≤ get m k → msum (decr m k) = msum m - 1.
Proof.
  unfold decr. intros Hk. destruct (Z.leb_spec (get m k) 1) as [H1|H1].
  - rewrite msum_delete. fold (get m k). lia.
  - rewrite msum_insert. fold (get m k). lia.
Qed.

(** The session counters of a test add up to the number of leases. *)
Lemma tracks_total P am mp :
  tracks mp (λ k, cnt (λ x, P x && ofSession k x) am) → msum mp = cnt P am.
Proof.
  revert mp. induction am as [|id x am Hid IH] using map_ind; intros mp Ht.
  - assert (mp = ∅) as ->; [|done]. apply map_eq. intros k. destruct (Ht k) as [_ ->]. by rewrite lookup_empty.
  - rewrite cnt_insert, Hid. simpl. destruct (P x) eqn:HP; simpl.
    + rewrite <- (IH (decr mp (sessionKey x))).
      * rewrite msum_decr; [lia|]. rewrite (tracks_get _ _ _ Ht), cnt_insert, Hid. simpl.
        rewrite HP. unfold ofSession at 2. rewrite bool_decide_eq_true_2 by done. simpl.
        pose proof (cnt_nonneg (λ y, P y && ofSession (sessionKey x) y) am). lia.
      * eapply tracks_decr; [exact Ht| |].
        -- cbv beta. rewrite cnt_insert, Hid. simpl. rewrite HP. unfold ofSession at 2.
           rewrite bool_decide_eq_true_2 by done. simpl.
           pose proof (cnt_nonneg (λ y, P y && ofSession (sessionKey x) y) am). lia.
        -- intros k. cbv beta. rewrite cnt_insert, Hid. simpl. rewrite HP. unfold ofSession at 3. simpl.
           rewrite (bool_decide_sym (sessionKey x) k). lia.
    + rewrite <- (IH mp); [lia|]. eapply tracks_ext; [exact Ht|]. intros k.
      cbv beta. rewrite cnt_insert, Hid. simpl. rewrite HP. simpl. lia.
Qed.

Lemma cnt_ext P Q am : (∀ x, P x = Q x) → cnt P am = cnt Q am.
Proof.
  intros H. unfold cnt. f_equal. apply map_eq. intros k. rewrite !lookup_fmap.
  destruct (am !! k); simpl; [by rewrite H|done].
Qed.

Lemma classStates_cnt l c : leases_ok l → classStates l c = cnt (ofClass c) l.(activeLeases).
Proof.
  intros H. unfold classStates. simpl. rewrite !(lo_states _ H).
  assert (∀ am, map_Forall (λ _ x, x.(state) ≠ LeaseReleased) am →
    cnt (ofClass c) am = cnt (λ x, bool_decide (x.(class) = c ∧ x.(state) = LeaseOpening)) am +
      cnt (λ x, bool_decide (x.(class) = c ∧ x.(state) = LeaseLive)) am +
      cnt (λ x, bool_decide (x.(class) = c ∧ x.(state) = LeaseClosing)) am) as Hsum.
  { intros am. induction am as [|id x am Hid IH] using map_ind; intros Hm; [done|].
    apply map_Forall_insert in Hm as [Hx Hm]; [|done]. rewrite !cnt_insert, Hid, IH by done. simpl.
    unfold ofClass. destruct x as [xc ? ? xs ?]; simpl in *.
    destruct (decide (xc = c)) as [->|Hne].
    - rewrite bool_decide_eq_true_2 by done. destruct xs; try done;
        repeat case_bool_decide; simpl; intuition (congruence || lia).
    - rewrite !bool_decide_eq_false_2 by tauto. simpl. lia. }
  rewrite Hsum; [unfold zsum; simpl; lia|]. eapply map_Forall_impl; [apply (lo_leases _ H)|].
  simpl. naive_solver.
Qed.

Lemma cnt_split_class am :
  cnt publicLease am = cnt (ofClass PublicPooled) am + cnt (ofClass PublicOneShot) am ∧
  cnt (λ _, true) am = cnt publicLease am + cnt (ofClass TrustedHealth) am.
Proof.
  split; apply cnt_add; intros [c ? ? ? ?]; by destruct c.
Qed.

(** The counters as counts of leases. *)
Lemma used_split l : leases_ok l →
  l.(usedPublic) = cnt (ofClass PublicPooled) l.(activeLeases) + cnt (ofClass PublicOneShot) l.(activeLeases) ∧
  l.(usedTotal) = l.(usedPublic) + l.(usedControl) ∧ 0 ≤ l.(usedPooled) ∧ 0 ≤ l.(usedControl) ∧
  0 ≤ cnt (ofClass PublicOneShot) l.(activeLeases).
Proof.
  intros []. destruct (cnt_split_class l.(activeLeases)) as [H1 H2].
  rewrite lo_total0, lo_public0, lo_pooled0, lo_control0. split_and!; try done; apply cnt_nonneg.
Qed.

Lemma leases_check m : ok m → firstError (leaseChecks m.(config) m.(leases)) = None.
Proof.
  intros [Hc Hl Hw _ _ _]. pose proof (used_split _ Hl) as (H1 & H2 & H3 & H4 & H5). destruct Hw.
  assert (∀ c s, 0 ≤ m.(leases).(stateByClass) c s) as Hst
    by (intros; rewrite (lo_states _ Hl); apply cnt_nonneg).
  unfold leaseChecks. rewrite !(classStates_cnt _ _ Hl).
  assert (zsum (map (classStates (leases m)) classes) = m.(leases).(usedTotal)) as ->.
  { unfold zsum, classes. simpl. rewrite !(classStates_cnt _ _ Hl), H2, H1, (lo_control _ Hl). lia. }
  rewrite <- cnt_size, <- (lo_total _ Hl), <- (lo_pooled _ Hl), <- (lo_control _ Hl).
  rewrite <- (lo_pooled _ Hl) in H1. simpl firstError.
  repeat match goal with |- context [?a =? ?b] => rewrite (proj2 (Z.eqb_eq a b)) by lia end.
  repeat match goal with |- context [(0 <=? ?a) && (?a <=? ?b)] =>
    rewrite (proj2 (Z.leb_le 0 a)), (proj2 (Z.leb_le a b)) by lia end.
  simpl andb. cbv iota. by rewrite !(proj2 (Z.leb_le 0 _)) by apply Hst.
Qed.

(** An entry of a session counter: a real session, and as many leases. *)
Lemma session_entry l mp P k n :
  leases_ok l → tracks mp (λ k, cnt (λ x, P x && ofSession k x) l.(activeLeases)) → mp !! k = Some n →
  negb (String.eqb k "") = true ∧ 1 ≤ n ∧ n = get mp k ∧
  n = cnt (λ x, P x && ofSession k x) l.(activeLeases) ∧ n ≤ cnt P l.(activeLeases).
Proof.
  intros Hl Ht Hn. pose proof (tracks_get mp _ k Ht) as Hg. unfold get in Hg. rewrite Hn in Hg.
  simpl in Hg. destruct (Ht k) as [_ E]. rewrite Hn in E. case_match; bprop; [done|].
  split_and!; [|lia|unfold get; by rewrite Hn|done|].
  - apply negb_true_iff, String.eqb_neq. intros ->.
    assert (cnt (λ x, P x && ofSession "" x) l.(activeLeases) = 0); [|lia].
    apply cnt_false. intros id x Hx. destruct (lo_leases _ Hl id x Hx) as (_ & _ & Hs).
    unfold ofSession. rewrite bool_decide_eq_false_2 by done. by rewrite andb_false_r.
  - rewrite Hg. apply cnt_le. intros x. by destruct (P x).
Qed.

(** The opening states as counts of leases. *)
Lemma opening_counts l : leases_ok l →
  zsum (map (λ c, l.(stateByClass) c LeaseOpening) classes) = cnt (inState LeaseOpening) l.(activeLeases) ∧
  l.(stateByClass) PublicPooled LeaseOpening + l.(stateByClass) PublicOneShot LeaseOpening
  = cnt (λ x, inState LeaseOpening x && publicLease x) l.(activeLeases).
Proof.
  intros Hl. unfold zsum, classes. simpl. rewrite !(lo_states _ Hl).
  set (f c := cnt (λ x, bool_decide (x.(class) = c ∧ x.(state) = LeaseOpening)) l.(activeLeases)).
  assert (f PublicPooled + f PublicOneShot =
    cnt (λ x, inState LeaseOpening x && publicLease x) l.(activeLeases)) as E1.
  { symmetry. apply cnt_add. intros [[] ? ? [] ?]; done. }
  split; [|exact E1]. rewrite (cnt_add (inState LeaseOpening)
    (λ x, inState LeaseOpening x && publicLease x)
    (λ x, bool_decide (x.(class) = TrustedHealth ∧ x.(state) = LeaseOpening))).
  - unfold f in E1. lia.
  - intros [[] ? ? [] ?]; done.
Qed.

Lemma session_counts_check m : ok m → firstError (sessionCountChecks m.(config) m.(leases)) = None.
Proof.
  intros [_ Hl Hw _ _ _]. destruct (opening_counts _ Hl) as [Hop Hpop]. destruct Hw.
  set (l := m.(leases)) in *.
  assert (tracks l.(totalBySession) (λ k, cnt (λ x, (λ _, true) x && ofSession k x) l.(activeLeases)))
    as Hts by exact (lo_total_sessions _ Hl).
  pose proof (lo_public_openings _ Hl : tracks _ (λ k, cnt (λ x,
    (λ x, inState LeaseOpening x && publicLease x) x && ofSession k x) _)) as Hpo.
  unfold sessionCountChecks. rewrite !mapTotal_msum, Hop, Hpop.
  rewrite (tracks_total _ _ _ (lo_openings _ Hl)), (tracks_total _ _ _ Hts), (tracks_total _ _ _ Hpo),
    (tracks_total _ _ _ (lo_public_sessions _ Hl)), <- (lo_total _ Hl), <- (lo_public _ Hl), !Z.eqb_refl.
  assert (∀ k n, l.(openingBySession) !! k = Some n → n ≤ m.(config).(MaxOpeningPerSession)) as B1.
  { intros k n Hn. specialize (wi_opening0 k). unfold get in wi_opening0. by rewrite Hn in wi_opening0. }
  simpl. rewrite !forallMap_true; [done|..]; intros k n Hn.
  - destruct (session_entry _ _ _ k n Hl Hts Hn) as (-> & ? & _ & _ & Hle).
    rewrite <- (lo_total _ Hl) in Hle. rewrite !(proj2 (Z.leb_le _ _)) by lia. done.
  - destruct (session_entry _ _ _ k n Hl (lo_public_sessions _ Hl) Hn) as (-> & ? & _ & _ & Hle).
    rewrite <- (lo_public _ Hl) in Hle. rewrite !(proj2 (Z.leb_le _ _)) by lia. done.
  - destruct (session_entry _ _ _ k n Hl Hpo Hn) as (-> & ? & Hg & Hc & _).
    specialize (wi_public_opening0 k). rewrite <- Hg in wi_public_opening0.
    assert (n ≤ get l.(openingBySession) k).
    { rewrite Hc, (tracks_get _ _ _ (lo_openings _ Hl)).
      apply cnt_le. intros x. by destruct (inState LeaseOpening x), (ofSession k x), (publicLease x). }
    rewrite !(proj2 (Z.leb_le _ _)) by lia. done.
  - destruct (session_entry _ _ _ k n Hl (lo_openings _ Hl) Hn) as (-> & ? & _).
    rewrite !(proj2 (Z.leb_le _ _)) by (done || by eapply B1). done.
Qed.

(** A saturating sum that does not saturate. *)
Lemma saturating_fold {A} (g : A → Z) l t :
  (∀ o, 0 ≤ g o) → t + zsum (map g l) ≤ max_int64 →
  fold_left (λ t o, saturatingAddInt64 t (g o)) l t = t + zsum (map g l).
Proof.
  intros Hg. revert t. induction l as [|o l IH]; intros t H; unfold zsum in *; simpl in *; [lia|].
  assert (0 ≤ foldr Z.add 0 (map g l)).
  { clear - Hg. induction l as [|o l IH]; simpl; [done|]. specialize (Hg o). lia. }
  specialize (Hg o) as Ho. rewrite saturatingAdd_exact, IH by lia. lia.
Qed.

(** The remaining checks. *)
Lemma owners_check m : ok m → firstError (ownerChecks m.(resources)) = None.
Proof.
  intros [_ _ _ _ Hr _]. destruct (resources_nonneg _ Hr) as [Hnb Hnf].
  pose proof Hr as Hr'. destruct Hr'. set (r := m.(resources)) in *.
  assert (∀ f, map_Forall (λ _ x, 0 ≤ f x) r.(outstanding) → ∀ o, 0 ≤ held (ownedBy o f) r) as Hn.
  { intros f Hf o. by apply held_owned_le. }
  assert (∀ f, map_Forall (λ _ x, 0 ≤ f x) r.(outstanding) → held f r ≤ max_int64 →
    fold_left (λ t o, saturatingAddInt64 t (held (ownedBy o f) r)) owners 0 = held f r) as Hsum.
  { intros f Hf Hmax. assert (held f r = zsum (map (λ o, held (ownedBy o f) r) owners)) as E.
    { unfold held. clear. induction r.(outstanding) as [|t x o Ht IH] using map_ind; [done|].
      unfold zsum in *. simpl in *.
      rewrite !fmap_insert, !msum_insert_fresh by (by rewrite lookup_fmap, Ht).
      assert (∀ o, ownedBy o f x = if bool_decide (x.(rOwner) = o) then f x else 0) as Hob by done.
      rewrite !Hob, IH. destruct (rOwner x); simpl; lia. }
    rewrite saturating_fold; [lia|by apply Hn|lia]. }
  unfold ownerChecks, firstError. rewrite (proj2 (forallb_forall _ _)).
  - assert (∀ g f, (∀ o, g o = held (ownedBy o f) r) →
      fold_left (λ t o, saturatingAddInt64 t (g o)) owners 0 =
      fold_left (λ t o, saturatingAddInt64 t (held (ownedBy o f) r)) owners 0) as Heq.
    { intros g f Hg. simpl. by rewrite !Hg. }
    rewrite (Heq _ _ ro_bytes_by0), (Heq _ _ ro_fds_by0), !Hsum by tauto.
    by rewrite ro_bytes0, ro_fds0, !Z.eqb_refl.
  - intros o _. rewrite ro_bytes_by0, ro_fds_by0, ro_count_by0.
    rewrite !(proj2 (Z.leb_le _ _)); [done|..]; apply Hn; try done.
Qed.

Lemma sessions_check m : ok m → firstError (sessionChecks m) = None.
Proof.
  intros [_ Hl _ [Hu Hli] _ _]. unfold sessionChecks. simpl. rewrite !forallMap_true; [done|..]; intros k n Hn.
  - destruct (Hli k n Hn) as (_ & _ & ?). by apply bool_decide_eq_true_2.
  - destruct (Hli k n Hn) as (? & ? & _).
    rewrite (proj2 (String.eqb_neq _ _)), !(proj2 (Z.leb_le _ _)) by (done || lia). done.
  - case_bool_decide as Hk; [|done]. simpl. apply Z.leb_le. specialize (Hu k Hk). unfold get in Hu.
    by rewrite Hn in Hu.
Qed.

Lemma countLeases_cnt l c s :
  countLeases l c s = cnt (λ x, bool_decide (x.(class) = c ∧ x.(state) = s)) l.(activeLeases).
Proof. unfold countLeases. exact (cnt_list (λ x, x.(class) = c ∧ x.(state) = s) l.(activeLeases)). Qed.

Lemma objects_check m : ok m → firstError (objectChecks m.(leases)) = None.
Proof.
  intros [_ Hl _ _ _ _]. unfold objectChecks, firstError. rewrite forallMap_true.
  - assert (∀ c s, (countLeases m.(leases) c s =? m.(leases).(stateByClass) c s) = true) as Heq.
    { intros c s. apply Z.eqb_eq. by rewrite countLeases_cnt, (lo_states _ Hl). }
    rewrite (lo_granted _ Hl), cnt_size, Z.eqb_refl.
    assert (forallb (λ c, forallb (λ s, countLeases m.(leases) c s =? m.(leases).(stateByClass) c s)
      activeStates) classes = true) as ->; [|done].
    apply forallb_forall. intros c _. apply forallb_forall. intros s _. apply Heq.
  - intros id x Hx. destruct (lo_leases _ Hl id x Hx) as (_ & Hs & _).
    by rewrite bool_decide_eq_false_2.
Qed.

Lemma omap_length_heap q k l :
  Forall (queued_in q k) l → length (omap (λ p, q.(heap) !! p) l) = length l.
Proof.
  induction 1 as [|p l (w & Hw & _) _ IH]; [done|]. change (p :: l) with ([p] ++ l).
  rewrite omap_app, !length_app, IH. simpl. by rewrite Hw.
Qed.

Lemma queues_check m : ok m → firstError (queueChecks m.(config) m.(queue)) = None.
Proof.
  intros [Hc _ _ _ _ Hq]. pose proof Hq as Hq'. destruct Hq'. set (q := m.(queue)) in *.
  assert (∀ k, k ∈ q.(queueKeys) → ∃ l, q.(queues) !! k = Some l ∧ k ≠ "" ∧ l ≠ [] ∧
    lengthZ l ≤ m.(config).(MaxWaitersPerKey) ∧ Forall (queued_in q k) l) as Hk.
  { intros k [l Hl]%qo_dom0. destruct (qo_queue0 k l Hl) as (? & ? & ? & _ & ?). eauto 10. }
  assert (∀ f, (∀ k, k ∈ q.(queueKeys) → f k = true) → forallb f q.(queueKeys) = true) as Hall.
  { intros f Hf. apply forallb_forall. intros k Hin. apply Hf. by rewrite list_elem_of_In. }
  assert (zsum (map (λ k, Z.of_nat (length (default [] (q.(queues) !! k)))) q.(queueKeys)) = q.(waiters))
    as Hqueued by (rewrite qo_waiters0; by apply (msum_keys (λ o, lengthZ (default [] o)))).
  assert (Z.of_nat (length (filter (λ w, w.(wClass) = TrustedHealth) (concat (map (λ k,
    omap (λ p, q.(heap) !! p) (default [] (q.(queues) !! k))) q.(queueKeys)))))
    = msum (healthIn q.(heap) <$> q.(queues))) as Hcontrol.
  { rewrite filter_concat. by apply (msum_keys (λ o, healthIn q.(heap) (default [] o))). }
  unfold queueChecks. cbv zeta. rewrite Hqueued, Hcontrol. unfold firstError.
  rewrite (Hall (λ k, negb (String.eqb k ""))).
  2: { intros k Hin. destruct (Hk k Hin) as (l & _ & Hne & _). by apply negb_true_iff, String.eqb_neq. }
  rewrite (Hall (λ k, (0 <? _) && _)).
  2: { intros k Hin. destruct (Hk k Hin) as (l & -> & _ & Hne & Hlen & _). simpl.
    rewrite (proj2 (Z.leb_le _ _)) by done. rewrite (proj2 (Z.ltb_lt _ _)); [done|].
    destruct l; [done|]. simpl. lia. }
  rewrite Hall.
  2: { intros k Hin. destruct (Hk k Hin) as (l & -> & _ & _ & _ & Hw). simpl.
    apply forallb_forall. intros p Hp. rewrite <- list_elem_of_In in Hp. rewrite Forall_forall in Hw.
    destruct (Hw p Hp) as (w & -> & -> & -> & _). by rewrite String.eqb_refl. }
  rewrite (bool_decide_eq_true_2 (NoDup _)), Z.eqb_refl, !(proj2 (Z.leb_le _ _)) by done.
  assert (length q.(queueKeys) = size q.(queues)) as Hsz.
  { apply Nat2Z.inj. rewrite <- (msum_ones q.(queues)).
    rewrite <- (msum_keys (λ o, match o with Some _ => 1 | None => 0 end) _ q.(queueKeys)); [|done..].
    assert (∀ keys, (∀ k, k ∈ keys → is_Some (q.(queues) !! k)) →
      Z.of_nat (length keys) = zsum (map (λ k, match q.(queues) !! k with Some _ => 1 | None => 0 end) keys))
      as H; [|apply H; intros k; apply qo_dom0].
    induction keys as [|k keys IH]; intros Hs; [done|]. unfold zsum in *. simpl.
    destruct (Hs k) as [l Hl]; [left|]. rewrite Hl, <- IH; [lia|]. intros; apply Hs; by right. }
  rewrite bool_decide_eq_true_2 by done. simpl. destruct q.(queueKeys); simpl in *.
  + by rewrite (proj2 (Nat.eqb_eq _ _)) by lia.
  + rewrite (proj2 (Nat.ltb_lt _ _)) by lia. done.
Qed.

(** The self check accepts every state of the invariant. *)
Lemma ok_validates m : ok m → validateInvariantsLocked m = None.
Proof.
  intros H. unfold validateInvariantsLocked. rewrite (ok_config _ H).
  repeat apply firstError_app.
  - by apply leases_check.
  - by apply session_counts_check.
  - by apply owners_check.
  - by apply sessions_check.
  - by apply objects_check.
  - by apply queues_check.
Qed.

End StreamCapacityCheck.
