(* ===== verification/StreamCapacityProps.v ===== *)
(** The stream admission manager as a step relation over all its operations,
    and the properties of its reachable states. *)

From S2P Require Import Prelude.
From S2P Require Import MemoryPressure.
From S2P Require Import StreamCapacity.
From S2P Require Import StreamCapacityLeases.
From S2P Require Import StreamCapacityQueue.
From S2P Require Import StreamCapacityInv.
From S2P Require Import StreamCapacityCheck.

Module StreamCapacityProps.
Import StreamCapacity.StreamCapacity StreamCapacityLeases.StreamCapacityLeases
  StreamCapacityQueue.StreamCapacityQueue StreamCapacityInv.StreamCapacityInv.

(** ** The system *)

(** The manager and the calls of [refreshAdaptiveCapacity] that are reading
    their sample, with the controller and whether they count as sampling. *)
Record system := mkSystem {
  mgr : agentStreamCapacityManager;
  inFlight : list (Z * bool);
}.

Definition with_mgr (s : system) (m : agentStreamCapacityManager) : system := mkSystem m s.(inFlight).

(** One critical section of one goroutine.  A session registers a limit that
    covers what it already uses (a session key is new when it registers), a
    reservation fits in the 64-bit ledgers, and a controller is not installed
    again while a reading of its earlier installation is in flight. *)
Inductive step : system → system → Prop :=
  | step_acquire s now ctxErr ctx code qk sk :
      step s (with_mgr s (acquire now ctxErr s.(mgr) ctx code qk sk).1)
  | step_acquire_ready s now ctxErr p w :
      s.(mgr).(queue).(heap) !! p = Some w → w.(ready) = true →
      step s (with_mgr s (acquireReady now ctxErr s.(mgr) p).1)
  | step_acquire_done s now ctxErr p err :
      step s (with_mgr s (acquireDone now ctxErr s.(mgr) p err).1)
  | step_try_acquire s now code qk sk :
      step s (with_mgr s (tryAcquire now s.(mgr) code qk sk).1)
  | step_mark_live s now ctxErr id : step s (with_mgr s (markLive now ctxErr s.(mgr) id).1)
  | step_mark_closing s now ctxErr id : step s (with_mgr s (markClosing now ctxErr s.(mgr) id).1)
  | step_release s now ctxErr id : step s (with_mgr s (release now ctxErr s.(mgr) id).1)
  | step_register s now ctxErr key limit :
      get s.(mgr).(leases).(totalBySession) key ≤ Z.min (Z.max limit 1) s.(mgr).(config).(Total) →
      step s (with_mgr s (registerSessionWithLimit now ctxErr s.(mgr) key limit))
  | step_unregister s now ctxErr key :
      step s (with_mgr s (unregisterSession now ctxErr s.(mgr) key))
  | step_reserve s code bytes fds legacy :
      no_saturation s.(mgr).(resources) bytes fds →
      step s (with_mgr s (tryReserveAdaptiveResourceMode s.(mgr) code bytes fds legacy).1)
  | step_release_reservation s now ctxErr token :
      step s (with_mgr s (releaseReservation now ctxErr s.(mgr) token))
  | step_enable s controller :
      s.(mgr).(adaptive).(adaptiveMemory) = Some controller ∨ (controller, true) ∉ s.(inFlight) →
      step s (with_mgr s (enableAdaptiveMemory s.(mgr) controller))
  | step_refresh_begin s now force :
      step s
        (match refreshBegin now s.(mgr) force with
         | (m, RefreshSample controller sampling _ _) =>
             mkSystem m ((controller, sampling) :: s.(inFlight))
         | (m, RefreshCached) => with_mgr s m
         end)
  | step_refresh_publish s now ctxErr controller sampling next rest :
      s.(inFlight) ≡ₚ (controller, sampling) :: rest →
      0 ≤ next.(MemoryPressure.StreamChargeFD) →
      step s (mkSystem (refreshPublish now ctxErr s.(mgr) controller sampling next) rest)
  | step_publish s now ctxErr next :
      0 ≤ next.(MemoryPressure.StreamChargeFD) →
      step s (with_mgr s (publishAdaptiveCapacity now ctxErr s.(mgr) next)).

Definition initial (s : system) : Prop :=
  ∃ c m, newAgentStreamCapacityManager c = inl m ∧ s = mkSystem m [].

(** ** The invariant of the system *)

Definition counts (o : option Z) (x : Z * bool) : Prop := o = Some x.1 ∧ x.2 = true.
#[export] Instance counts_dec o x : Decision (counts o x).
Proof. unfold counts. apply _. Defined.

(** [adaptiveSampling] counts the readings in flight for the installed
    controller, and the channel the waiters block on is open exactly when
    there are any. *)
Record system_ok (s : system) : Prop := {
  sys_ok : ok s.(mgr);
  sys_settled : settled s.(mgr);
  sys_sampling : s.(mgr).(adaptive).(adaptiveSampling) =
    Z.of_nat (length (filter (counts s.(mgr).(adaptive).(adaptiveMemory)) s.(inFlight)));
  sys_channel : s.(mgr).(adaptive).(samplingChannel) = (0 <? s.(mgr).(adaptive).(adaptiveSampling));
  sys_charge : 0 ≤ s.(mgr).(adaptive).(resourceSnapshot).(MemoryPressure.StreamChargeFD);
}.

Lemma initial_ok s : initial s → system_ok s.
Proof.
  intros (c & m & Hm & ->). unfold newAgentStreamCapacityManager in Hm.
  destruct (validateAgentStreamCapacityConfig c) eqn:Hc; [done|]. simplify_eq.
  assert (1 ≤ c.(Total) ∧ 0 ≤ c.(Public) ∧ 0 ≤ c.(Pooled) ∧ 0 ≤ c.(Control) ∧ 0 ≤ c.(MaxWaiters) ∧
    1 ≤ c.(MaxOpeningPerSession)) as (? & ? & ? & ? & ? & ?).
  { unfold validateAgentStreamCapacityConfig in Hc. case_head Hc; try done. bprop. lia. }
  split; simpl; try done.
  - split; simpl; try done.
    + split; simpl; try lia; intros k; unfold get; rewrite lookup_empty; simpl; [lia|].
      unfold publicOpeningLimitPerSessionLocked. repeat case_goal; bprop; lia.
    + by apply emptyQueue_ok.
  - right. intros w Hw. by apply elem_of_queuedWaiters in Hw as (? & ? & ? & ? & _).
Qed.

(** The adaptive part after an operation that leaves it alone. *)
Lemma system_frame s m' :
  system_ok s → ok m' → settled m' → m'.(adaptive) = s.(mgr).(adaptive) → system_ok (with_mgr s m').
Proof. intros [] Hok Hs Ha. split; simpl; rewrite ?Ha; done. Qed.

(** Changing the object of a waiter that is in no queue. *)
Lemma setDecided_settled m p w w' :
  ok m → settled m → m.(queue).(heap) !! p = Some w → w.(status) ≠ WaiterQueued ∨ w.(ready) = true →
  settled (setQueue m (setWaiter m.(queue) p w')).
Proof.
  intros H Hs Hw Hd. pose proof (decided_not_queued _ _ _ _ (ok_queue _ H) Hw Hd) as Hno.
  set (m' := setQueue m _). assert (queuedWaiters m'.(queue) = queuedWaiters m.(queue)) as Hqw.
  { unfold queuedWaiters. simpl. f_equal. apply map_ext_in. intros [k l] Hkl. simpl.
    rewrite <- list_elem_of_In, elem_of_map_to_list in Hkl. specialize (Hno k l Hkl).
    clear Hkl. induction l as [|y l IH]; [done|]. change (y :: l) with ([y] ++ l). rewrite !omap_app.
    rewrite IH by set_solver. simpl. rewrite lookup_insert_ne by set_solver. done. }
  assert (∀ c k, canGrantLocked m' c k = canGrantLocked m c k) as Hg.
  { intros c k. unfold canGrantLocked, publicSessionLimitLocked, hasPublicWaiterForOtherSessionLocked.
    by rewrite Hqw. }
  destruct Hs as [|Hs]; [by left|right]. rewrite Hqw. intros y Hy. rewrite Hg. by apply Hs.
Qed.

Section frame.
Context (now : Z) (ctxErr : Z → option ctxError).
Implicit Types m : agentStreamCapacityManager.

Lemma dispatch_adaptive m : (dispatchLocked now ctxErr m).(adaptive) = m.(adaptive).
Proof. apply dispatch_frame. Qed.

Lemma release_adaptive m id : (release now ctxErr m id).1.(adaptive) = m.(adaptive).
Proof.
  unfold release. destruct (_ !! id); [|done]. case_bool_decide; [done|]. simpl. by rewrite dispatch_adaptive.
Qed.

Lemma acquireReady_adaptive m p : (acquireReady now ctxErr m p).1.(adaptive) = m.(adaptive).
Proof.
  unfold acquireReady. repeat case_match; try done. cbv zeta. simpl fst. by rewrite release_adaptive.
Qed.

Lemma acquireDone_adaptive m p err : (acquireDone now ctxErr m p err).1.(adaptive) = m.(adaptive).
Proof.
  unfold acquireDone. repeat case_match; try done; cbv zeta; simpl fst;
    by rewrite ?release_adaptive, ?dispatch_adaptive.
Qed.

Lemma release_settled m id : ok m → settled m → settled (release now ctxErr m id).1.
Proof.
  intros H Hs. unfold release. destruct (_ !! id) as [x|] eqn:Hx; [|done].
  case_bool_decide; [done|]. apply dispatch_settled, ok_setLeases_le; [done| |].
  - apply release_ok; [apply H|done].
  - apply release_ledger_le, H.
Qed.

Lemma moved_ok m id x s :
  ok m → m.(leases).(activeLeases) !! id = Some x → s ≠ LeaseOpening → s ≠ LeaseReleased →
  ok (setLeases m (moveLease m.(leases) now id x s)).
Proof.
  intros H Hx H1 H2. apply ok_setLeases_le; [done| |].
  - apply move_ok; [apply H|done..].
  - apply move_ledger_le, H.
Qed.

Lemma acquireReady_settled m p w :
  ok m → settled m → m.(queue).(heap) !! p = Some w → w.(ready) = true →
  settled (acquireReady now ctxErr m p).1.
Proof.
  intros H Hs Hw Hr. unfold acquireReady. rewrite Hw. destruct (wLease w) as [id|]; [|done].
  destruct (ctxErr (wCtx w)); [|done]. apply release_settled.
  - eapply setDecided_ok; eauto.
  - eapply setDecided_settled; eauto.
Qed.

Lemma acquireDone_settled m p err :
  ok m → settled m → settled (acquireDone now ctxErr m p err).1.
Proof.
  intros H Hs. unfold acquireDone. destruct (_ !! p) as [w|] eqn:Hw; [|done].
  destruct (status w) eqn:Hst; [| |done]; simpl.
  - apply dispatch_settled, ok_setQueue; [by apply reject_ok|].
    destruct (removeWaiter_ok m p w H Hw) as (Hq & Hno & Hn).
    apply setWaiter_ok; [done| |done]. rewrite Hn. by apply (qo_heap _ _ (ok_queue _ H) p w).
  - set (w' := mkWaiter _ _ _ _ _ _ _ _).
    assert (ok (setQueue m (setWaiter m.(queue) p w'))) as H'
      by (eapply setDecided_ok; [done..|left; congruence]).
    assert (settled (setQueue m (setWaiter m.(queue) p w'))) as Hs'
      by (eapply setDecided_settled; [done..|left; congruence]).
    destruct (wLease w); [by apply release_settled|done].
Qed.

Lemma acquire_settled m ctx code qk sk :
  ok m → settled m → settled (acquire now ctxErr m ctx code qk sk).1.
Proof.
  intros H Hs. apply acquire_cases; [done|intros; by apply settled_reject| |].
  - intros c _ _ _. by apply settled_grant.
  - intros c [Hqk Hsk]%checkRequest_ok _ Hfull Hkey. by apply dispatch_settled, joined_ok.
Qed.

Lemma acquire_adaptive m ctx code qk sk :
  (acquire now ctxErr m ctx code qk sk).1.(adaptive) = m.(adaptive).
Proof. apply acquire_cases; try done. intros. by rewrite dispatch_adaptive. Qed.

Lemma tryAcquire_settled m code qk sk :
  ok m → settled m → settled (tryAcquire now m code qk sk).1.
Proof.
  intros H Hs. unfold tryAcquire. destruct (checkRequest _ _ _); [|done].
  destruct (0 <? _); [done|]. destruct (negb _); [by apply settled_reject|].
  destruct (hasCompetingWaiterLocked _ _); [by apply settled_reject|].
  destruct (bool_decide _); [by apply settled_grant|by apply settled_reject].
Qed.

Lemma tryAcquire_adaptive m code qk sk : (tryAcquire now m code qk sk).1.(adaptive) = m.(adaptive).
Proof. unfold tryAcquire. repeat case_match; done. Qed.

(** An operation that dispatches last. *)
Lemma system_dispatch s m :
  system_ok s → ok m → m.(adaptive) = s.(mgr).(adaptive) →
  system_ok (with_mgr s (dispatchLocked now ctxErr m)).
Proof.
  intros Hs Hok Ha. apply system_frame; [done|by apply dispatch_ok|by apply dispatch_settled|].
  by rewrite dispatch_adaptive.
Qed.
End frame.

Lemma reserve_settled m code bytes fds legacy :
  ok m → settled m → 0 ≤ m.(adaptive).(resourceSnapshot).(MemoryPressure.StreamChargeFD) →
  no_saturation m.(resources) bytes fds →
  settled (tryReserveAdaptiveResourceMode m code bytes fds legacy).1.
Proof.
  intros H Hs Hfd (Hsat1 & Hsat2 & _).
  destruct (tryReserveAdaptiveResourceMode m code bytes fds legacy) as [m' o] eqn:E.
  unfold tryReserveAdaptiveResourceMode in E. cbv zeta in E.
  case_head E; try (by simplify_eq). injection E as <- <-. bprop. simpl.
  eapply settled_anti; try done; try apply ledger_le_refl.
  unfold adaptiveEffectiveAdmissionLimitLocked. simpl.
  rewrite !saturatingAdd_exact by lia.
  pose proof (MemoryPressure.external_mono _ m.(resources).(adaptiveExternalBytes)
    m.(resources).(adaptiveExternalFDs) (m.(resources).(adaptiveExternalBytes) + bytes)
    (m.(resources).(adaptiveExternalFDs) + fds) Hfd ltac:(lia) ltac:(lia)). lia.
Qed.

(** ** The adaptive steps *)

Lemma count_perm o l l' : l ≡ₚ l' →
  length (filter (counts o) l) = length (filter (counts o) l').
Proof. intros H. by rewrite H. Qed.

Lemma enable_system_ok s controller :
  system_ok s →
  s.(mgr).(adaptive).(adaptiveMemory) = Some controller ∨ (controller, true) ∉ s.(inFlight) →
  system_ok (with_mgr s (enableAdaptiveMemory s.(mgr) controller)).
Proof.
  intros [] Hc. unfold enableAdaptiveMemory. case_bool_decide as He.
  - split; simpl; try done. by apply ok_setAdaptive.
  - destruct Hc as [|Hc]; [done|]. split; simpl; try done.
    + by apply ok_setAdaptive.
    + right. intros w _. by unfold canGrantLocked, isAdaptive.
    + destruct (filter (counts (Some controller)) s.(inFlight)) as [|[c b] l] eqn:E; [done|].
      assert ((c, b) ∈ filter (counts (Some controller)) s.(inFlight)) as Hin by (rewrite E; left).
      apply list_elem_of_filter in Hin as [[Hx Hy] Hin]. simpl in *. by simplify_eq.
Qed.

Lemma refreshBegin_system_ok s now force :
  system_ok s →
  system_ok (match refreshBegin now s.(mgr) force with
    | (m, RefreshSample controller sampling _ _) => mkSystem m ((controller, sampling) :: s.(inFlight))
    | (m, RefreshCached) => with_mgr s m
    end).
Proof.
  intros Hs. unfold refreshBegin. cbv zeta.
  destruct (adaptiveMemory (adaptive (mgr s))) as [controller|] eqn:Hc; [|by destruct s, Hs].
  destruct (_ && _) in |- *; [by destruct s, Hs|].
  set (sampling := force || _ || _). destruct Hs. rewrite Hc in *. destruct sampling.
  - split; simpl; try done.
    + by apply ok_setAdaptive.
    + left. simpl. lia.
    + rewrite ?Hc, filter_cons_True by done. simpl. lia.
    + rewrite (proj2 (Z.ltb_lt _ _)) by lia. destruct (Z.eqb_spec (adaptiveSampling (adaptive (mgr s))) 0); [done|].
      rewrite sys_channel0. apply Z.ltb_lt. lia.
  - split; simpl; try done. rewrite ?Hc, filter_cons_False; [done|]. by intros [_ ?].
Qed.

Lemma refreshPublish_system_ok s now ctxErr controller sampling next rest :
  system_ok s → s.(inFlight) ≡ₚ (controller, sampling) :: rest →
  0 ≤ next.(MemoryPressure.StreamChargeFD) →
  system_ok (mkSystem (refreshPublish now ctxErr s.(mgr) controller sampling next) rest).
Proof.
  intros [] Hp Hfd. unfold refreshPublish. cbv zeta.
  rewrite (count_perm _ _ _ Hp), filter_cons in sys_sampling0.
  case_bool_decide as He; simpl.
  - assert (adaptiveSampling (adaptive (mgr s)) = b2z sampling +
      Z.of_nat (length (filter (counts (Some controller)) rest))) as Hn.
    { rewrite sys_sampling0, He. destruct sampling; unfold b2z.
      - rewrite decide_True, length_cons by done. lia.
      - rewrite decide_False by (by intros [_ ?]). lia. }
    match goal with |- context [dispatchLocked _ _ (setAdaptive _ ?a)] => set (a' := a) end.
    assert (ok (setAdaptive (mgr s) a')) as Hok by (by apply ok_setAdaptive).
    split; simpl; rewrite ?dispatch_adaptive; simpl.
    + by apply dispatch_ok.
    + by apply dispatch_settled.
    + rewrite He. destruct sampling; simpl in *; lia.
    + rewrite sys_channel0. destruct sampling; simpl in *; [|done].
      destruct (Z.eqb_spec (adaptiveSampling (adaptive (mgr s)) - 1) 0) as [->|]; [done|].
      rewrite !(proj2 (Z.ltb_lt _ _)) by lia. done.
    + by destruct (_ <=? _).
  - split; simpl; try done. rewrite sys_sampling0. case_decide as Hd; [|done].
    destruct Hd as [Hd _]. by simpl in Hd.
Qed.

Lemma step_system_ok s s' : step s s' → system_ok s → system_ok s'.
Proof.
  intros Hstep Hs. pose proof (sys_ok _ Hs) as Hok. pose proof (sys_settled _ Hs) as Hset.
  destruct Hstep.
  - apply system_frame; [done|by apply acquire_ok|by apply acquire_settled|apply acquire_adaptive].
  - apply system_frame; [done|by eapply acquireReady_ok|by eapply acquireReady_settled|].
    apply acquireReady_adaptive.
  - apply system_frame; [done|by apply acquireDone_ok|by apply acquireDone_settled|].
    apply acquireDone_adaptive.
  - apply system_frame; [done|by apply tryAcquire_ok|by apply tryAcquire_settled|].
    apply tryAcquire_adaptive.
  - unfold markLive. destruct (_ !! id) as [x|] eqn:Hx; [|by destruct s]. case_bool_decide; [|by destruct s].
    apply system_dispatch; [done|by apply moved_ok|done].
  - unfold markClosing. destruct (_ !! id) as [x|] eqn:Hx; [|by destruct s].
    destruct (state x); try (by destruct s); (apply system_dispatch; [done|by apply moved_ok|done]).
  - apply system_frame; [done|by apply release_lease_ok|by apply release_settled|apply release_adaptive].
  - unfold registerSessionWithLimit. destruct (String.eqb key "") eqn:Hk; [by destruct s|]. bprop.
    pose proof (config_total _ Hok). apply system_dispatch; [done| |done]. apply registered_ok; [done..|lia].
  - unfold unregisterSession. destruct (String.eqb key "") eqn:Hk; [by destruct s|].
    apply system_dispatch; [done|by apply unregistered_ok|done].
  - apply system_frame; [done| | |].
    + destruct (tryReserveAdaptiveResourceMode _ _ _ _ _) eqn:E. by eapply reserve_ok.
    + apply reserve_settled; try done. apply Hs.
    + unfold tryReserveAdaptiveResourceMode. repeat case_match; done.
  - rewrite releaseReservation_eq. destruct (_ !! token) as [x|] eqn:Hx; [|by destruct s].
    apply system_dispatch; [done| |done]. apply ok_setResources; [done|].
    apply settledLedger_ok; [apply Hok|done].
  - by apply enable_system_ok.
  - by apply refreshBegin_system_ok.
  - by eapply refreshPublish_system_ok.
  - unfold publishAdaptiveCapacity. cbv zeta. case_match; [|by destruct s].
    destruct Hs. split; simpl; rewrite ?dispatch_adaptive; simpl; try done.
    + by apply dispatch_ok, ok_setAdaptive.
    + by apply dispatch_settled, ok_setAdaptive.
Qed.

Lemma reachable_ok s0 s : initial s0 → rtc step s0 s → system_ok s.
Proof.
  intros Hi Hr. eapply rtc_invariant; [|exact Hr|by apply initial_ok].
  intros x y Hxy Hx. by eapply step_system_ok.
Qed.


(** ** Properties *)

(** C7: In every state that any interleaving of requests, cancellations, lease
    transitions, session registrations, external reservations and resource
    samples can reach, the manager's own self check finds nothing wrong:
    every budget is respected, every counter is the number of leases it
    stands for, in total, per class, per state and per session, and the
    waiter queues and their round-robin cursor are well formed. *)
Theorem capacity_self_check s0 s :
  initial s0 → rtc step s0 s → validateInvariantsLocked s.(mgr) = None.
Proof. intros Hi Hr. apply StreamCapacityCheck.ok_validates. by eapply sys_ok, reachable_ok. Qed.

(** A manager with one public slot and a run in which a second request waits
    and is granted when the first lease is released. *)
Definition example_config : agentStreamCapacityConfig := mkConfig 2 1 1 1 4 2 2 0.
Definition example_manager : agentStreamCapacityManager :=
  mkManager example_config (mkAdaptive None (limitSnapshot 2) 0 false)
    emptyLeases emptyResources ∅ ∅ ∅ emptyQueue.
Definition no_ctx (ctx : Z) : option ctxError := None.
Definition example_s0 : system := mkSystem example_manager [].
Definition example_s1 : system := with_mgr example_s0 (acquire 10 no_ctx example_manager 0 1 "target" "a").1.
Definition example_s2 : system := with_mgr example_s1 (acquire 20 no_ctx example_s1.(mgr) 1 0 "target" "b").1.
Definition example_s3 : system := with_mgr example_s2 (release 30 no_ctx example_s2.(mgr) 1).1.

Lemma example_run : initial example_s0 ∧ rtc step example_s0 example_s2 ∧ rtc step example_s2 example_s3.
Proof.
  split_and!.
  - by exists example_config, example_manager.
  - eapply rtc_l; [apply step_acquire|]. eapply rtc_l; [apply step_acquire|]. apply rtc_refl.
  - eapply rtc_l; [apply step_release|]. apply rtc_refl.
Qed.

Lemma capacity_self_check_witness :
  validateInvariantsLocked example_s3.(mgr) = None ∧
  currentState example_s3.(mgr) 2 = LeaseOpening ∧ example_s2.(mgr).(queue).(waiters) = 1.
Proof.
  split; [|vm_compute; auto]. destruct example_run as (Hi & H1 & H2).
  apply (capacity_self_check example_s0 example_s3 Hi). by transitivity example_s2.
Defined.

(** C23: No wake-up is lost: in every reachable state, unless a resource sample
    is being taken (and its publication dispatches), no queued request could
    be admitted, so every waiter is really blocked by a constraint, which the
    manager names. *)
Theorem capacity_no_lost_wakeup s0 s w :
  initial s0 → rtc step s0 s → s.(mgr).(adaptive).(adaptiveSampling) ≤ 0 →
  w ∈ queuedWaiters s.(mgr).(queue) →
  canGrantLocked s.(mgr) w.(wClass) w.(wSessionKey) = false ∧
  blockingConstraintLocked s.(mgr) w.(wClass) w.(wSessionKey) ≠ ErrWaitTurn.
Proof.
  intros Hi Hr Hs Hw. pose proof (reachable_ok _ _ Hi Hr) as H. destruct (sys_settled _ H) as [|Hset]; [lia|].
  pose proof (Hset w Hw) as Hg. split; [done|].
  rewrite (grant_iff_blocking _ _ _ (adaptivePublic_le _ (ok_config _ (sys_ok _ H)))) in Hg.
  by apply bool_decide_eq_false in Hg.
Qed.

Lemma capacity_no_lost_wakeup_witness :
  let w := mkWaiter PublicPooled "target" "b" 1 false None None WaiterQueued in
  w ∈ queuedWaiters example_s2.(mgr).(queue) ∧
  blockingConstraintLocked example_s2.(mgr) PublicPooled "b" ≠ ErrWaitTurn.
Proof.
  intros w. assert (w ∈ queuedWaiters example_s2.(mgr).(queue)) as Hw by (vm_compute; left).
  split; [exact Hw|]. destruct example_run as (Hi & H1 & _).
  refine (proj2 (capacity_no_lost_wakeup example_s0 example_s2 w Hi H1 _ Hw)). vm_compute; congruence.
Defined.

(** C28: Dispatching always terminates: from any state of the invariant the
    loop ends within its measure (one pass per waiter or queue key), so more
    fuel changes nothing, and when it ends no context of a queued request is
    done and no queued request can be granted. *)
Theorem capacity_dispatch_terminates now ctxErr m fuel :
  ok m → m.(adaptive).(adaptiveSampling) ≤ 0 → (dispatchMeasure m.(queue) < fuel)%nat →
  dispatchLoop now ctxErr fuel m = dispatchLocked now ctxErr m ∧
  ok (dispatchLocked now ctxErr m) ∧ quiet ctxErr (dispatchLocked now ctxErr m).
Proof.
  intros Hok Hs Hf. destruct (dispatch_spec now ctxErr m Hok) as [Hok' Hq]. split_and!; [|done|auto].
  unfold dispatchLocked. rewrite (proj2 (Z.ltb_ge _ _)) by done. apply dispatchLoop_fuel; [done|lia..].
Qed.

Lemma capacity_dispatch_terminates_witness :
  dispatchLoop 5 no_ctx 7 example_manager = dispatchLocked 5 no_ctx example_manager.
Proof.
  refine (proj1 (capacity_dispatch_terminates 5 no_ctx example_manager 7 _ _ _)).
  - apply (sys_ok example_s0), initial_ok, example_run.
  - vm_compute; congruence.
  - vm_compute; lia.
Defined.

(** The fast path grants exactly what it should: in any state of the
    invariant a request is granted without waiting if and only if it is
    well formed, no sample is pending, its class is enabled, no queued
    request of its kind could go first, and every budget and limit has
    room. Otherwise the answer names the constraint. *)
Theorem capacity_try_acquire_iff now m code qk sk :
  ok m →
  (∃ id, (tryAcquire now m code qk sk).2 = AcquireGranted id) ↔
  ∃ c, checkRequest code qk sk = inl c ∧ m.(adaptive).(adaptiveSampling) ≤ 0 ∧
    classEnabledLocked m c = true ∧ hasCompetingWaiterLocked m c = false ∧ canGrantLocked m c sk = true.
Proof.
  intros Hok. unfold tryAcquire.
  assert (∀ c k, canGrantLocked m c k = bool_decide (blockingConstraintLocked m c k = ErrWaitTurn)) as Hg
    by (intros; apply grant_iff_blocking, adaptivePublic_le, Hok).
  split.
  - intros [id H]. repeat case_match; simplify_eq/=; try done. bprop.
    eexists. split_and!; try done. rewrite Hg. by apply bool_decide_eq_true_2.
  - intros (c & -> & Hs & -> & -> & Hc). rewrite Hg in Hc.
    rewrite (proj2 (Z.ltb_ge _ _)), Hc by done. simpl. eauto.
Qed.

Lemma capacity_try_acquire_iff_witness :
  ∃ id, (tryAcquire 5 example_manager 2 "target" "a").2 = AcquireGranted id.
Proof.
  apply (capacity_try_acquire_iff 5 example_manager 2 "target" "a").
  - apply (sys_ok example_s0), initial_ok, example_run.
  - exists TrustedHealth. vm_compute. split_and!; congruence.
Defined.

(** The guard of an ongoing sample is exact: in every reachable state the
    counter is the number of readings in flight for the installed controller,
    and the channel that requests block on exists exactly while there is one,
    so no request blocks on a missing channel and none is closed twice. *)
Theorem capacity_sampling_guard s0 s :
  initial s0 → rtc step s0 s →
  s.(mgr).(adaptive).(adaptiveSampling) =
    Z.of_nat (length (filter (counts s.(mgr).(adaptive).(adaptiveMemory)) s.(inFlight))) ∧
  s.(mgr).(adaptive).(samplingChannel) = (0 <? s.(mgr).(adaptive).(adaptiveSampling)).
Proof. intros Hi Hr. pose proof (reachable_ok _ _ Hi Hr) as []. done. Qed.

Lemma capacity_sampling_guard_witness :
  ∃ s, rtc step example_s0 s ∧ s.(mgr).(adaptive).(adaptiveSampling) = 1 ∧
    s.(mgr).(adaptive).(samplingChannel) = (0 <? s.(mgr).(adaptive).(adaptiveSampling)).
Proof.
  eexists. match goal with |- ?A ∧ _ => assert A as Hr end.
  { eapply rtc_l; [refine (step_enable _ 7 _); right; vm_compute; intros H; inversion H|].
    eapply rtc_l; [exact (step_refresh_begin _ 5 true)|]. apply rtc_refl. }
  split; [exact Hr|]. split; [vm_compute; reflexivity|].
  exact (proj2 (capacity_sampling_guard example_s0 _ (proj1 example_run) Hr)).
Defined.

(** A lease goes through its life once: it can be marked live only while
    opening, closing only while opening or live, and released only once; each
    accepted transition leaves it in exactly that state, a refused one
    changes nothing, and after the release every further call is refused. *)
Theorem capacity_lease_lifecycle now ctxErr m id :
  ok m →
  let '(live, b1) := markLive now ctxErr m id in
  let '(closing, b2) := markClosing now ctxErr m id in
  let '(gone, b3) := release now ctxErr m id in
  b1 = bool_decide (currentState m id = LeaseOpening) ∧
  b2 = bool_decide (currentState m id = LeaseOpening ∨ currentState m id = LeaseLive) ∧
  b3 = negb (bool_decide (currentState m id = LeaseReleased)) ∧
  (if b1 then currentState live id = LeaseLive else live = m) ∧
  (if b2 then currentState closing id = LeaseClosing else closing = m) ∧
  (if b3 then currentState gone id = LeaseReleased else gone = m) ∧
  ∀ now' ctxErr', release now' ctxErr' gone id = (gone, false) ∧
    markLive now' ctxErr' gone id = (gone, false) ∧ markClosing now' ctxErr' gone id = (gone, false).
Proof.
  intros Hok. unfold markLive, markClosing, release, currentState.
  destruct (m.(leases).(activeLeases) !! id) as [x|] eqn:Hx; [|by rewrite !Hx].
  destruct (lo_leases _ (ok_leases _ Hok) id x Hx) as (Hid & Hs & _).
  assert (∀ s, (dispatchLocked now ctxErr (setLeases m (moveLease m.(leases) now id x s)))
    .(leases).(activeLeases) !! id = Some (mkLease x.(class) x.(queueKey) x.(sessionKey) s now)) as Hmove.
  { intros s. rewrite (proj2 (dispatch_leases now ctxErr _) id); unfold moveLease; simpl;
      destruct (if bool_decide _ then _ else _); simpl; [apply lookup_insert_eq|done]. }
  assert ((dispatchLocked now ctxErr (setLeases m (releaseLease m.(leases) id x)))
    .(leases).(activeLeases) !! id = None) as Hrel.
  { rewrite (proj2 (dispatch_leases now ctxErr _) id); unfold releaseLease; simpl;
      destruct (if bool_decide _ then _ else _); simpl; [apply lookup_delete_eq|done]. }
  rewrite (bool_decide_eq_false_2 (state x = LeaseReleased)) by done.
  destruct (state x) eqn:Es; simpl; try done; rewrite ?Hmove, ?Hrel, ?Hx, ?Es; simpl; split_and!;
    (done || (intros; by rewrite Hrel)).
Qed.

Lemma capacity_lease_lifecycle_witness :
  (markLive 5 no_ctx example_s1.(mgr) 1).2 = true ∧
  release 7 no_ctx (release 6 no_ctx example_s1.(mgr) 1).1 1
  = ((release 6 no_ctx example_s1.(mgr) 1).1, false).
Proof.
  assert (ok example_s1.(mgr)) as Hok.
  { refine (sys_ok _ (reachable_ok example_s0 _ (proj1 example_run) _)).
    eapply rtc_l; [apply step_acquire|]. apply rtc_refl. }
  split; [vm_compute; reflexivity|].
  pose proof (capacity_lease_lifecycle 6 no_ctx example_s1.(mgr) 1 Hok) as H.
  destruct (markLive _ _ _ _), (markClosing _ _ _ _), (release 6 _ _ _).
  destruct H as (_ & _ & _ & _ & _ & _ & H). exact (proj1 (H 7 no_ctx)).
Defined.

(** A run that installs a controller and publishes its first sample. *)
Definition example_sample : MemoryPressure.AdaptiveMemorySnapshot :=
  (MemoryPressure.snapshotAt MemoryPressure.example_controller second 65536 0 true
     (inr [MemoryPressure.example_usage]) (inr (MemoryPressure.mkFD 100 1024))).1.
Definition example_a1 : system := with_mgr example_s0 (enableAdaptiveMemory example_manager 7).
Definition example_a2 : system :=
  mkSystem (refreshBegin second example_a1.(mgr) true).1 [(7, true)].
Definition example_a3 : system :=
  mkSystem (refreshPublish second no_ctx example_a2.(mgr) 7 true example_sample) [].

Lemma example_adaptive_run : rtc step example_s0 example_a3.
Proof.
  eapply rtc_l; [refine (step_enable _ 7 _); right; vm_compute; intros H; inversion H|].
  eapply rtc_l; [exact (step_refresh_begin example_a1 second true)|].
  eapply rtc_l; [|apply rtc_refl].
  refine (step_refresh_publish example_a2 second no_ctx 7 true example_sample [] _ _);
    [reflexivity|vm_compute; congruence].
Qed.

Lemma example_a3_ok : ok example_a3.(mgr).
Proof. exact (sys_ok _ (reachable_ok _ _ (proj1 example_run) example_adaptive_run)). Qed.

(** An external reservation is undone exactly: reserving and running the
    release closure leaves the bytes, descriptors, legacy supplement and the
    ledgers of every owner as before, and running the closure again changes
    nothing. *)
Theorem capacity_reservation_roundtrip now ctxErr m code bytes fds legacy m1 t :
  ok m → no_saturation m.(resources) bytes fds →
  tryReserveAdaptiveResourceMode m code bytes fds legacy = (m1, Reserved t) →
  let r := m.(resources) in
  let m2 := releaseReservation now ctxErr m1 t in
  let r2 := m2.(resources) in
  r2.(adaptiveExternalBytes) = r.(adaptiveExternalBytes) ∧
  r2.(adaptiveExternalFDs) = r.(adaptiveExternalFDs) ∧
  r2.(legacyStreamSupplementBytes) = r.(legacyStreamSupplementBytes) ∧
  (∀ o, r2.(adaptiveExternalBytesByOwner) o = r.(adaptiveExternalBytesByOwner) o ∧
        r2.(adaptiveExternalFDsByOwner) o = r.(adaptiveExternalFDsByOwner) o ∧
        r2.(adaptiveExternalReservationsByOwner) o = r.(adaptiveExternalReservationsByOwner) o) ∧
  r2.(outstanding) = r.(outstanding) ∧ releaseReservation now ctxErr m2 t = m2.
Proof.
  intros Hok Hsat E. pose proof (reserve_ok _ _ _ _ _ _ _ Hok Hsat E) as Hok1.
  assert (∃ x, m1.(resources).(outstanding) = <[t := x]> m.(resources).(outstanding) ∧
    t = m.(resources).(nextReservation)) as (x & Hx & Ht).
  { unfold tryReserveAdaptiveResourceMode in E. cbv zeta in E.
    case_head E; try (by simplify_eq). injection E as <- <-. simpl. eauto. }
  assert (m.(resources).(outstanding) !! t = None) as Hfresh.
  { destruct (_ !! t) as [y|] eqn:Ey; [|done]. apply (ro_tokens _ (ok_resources _ Hok)) in Ey as [? _]. lia. }
  assert (m1.(resources).(outstanding) !! t = Some x) as Hx1 by (by rewrite Hx, lookup_insert_eq).
  pose proof (settledLedger_ok _ t x (ok_resources _ Hok1) Hx1) as Hr2.
  assert ((settledLedger m1.(resources) t x).(outstanding) = m.(resources).(outstanding)) as Hout.
  { simpl. by rewrite Hx, delete_insert_id. }
  assert (releaseReservation now ctxErr m1 t = dispatchLocked now ctxErr
    (setResources m1 (settledLedger m1.(resources) t x))) as -> by (by rewrite releaseReservation_eq, Hx1).
  set (led := settledLedger m1.(resources) t x) in *. clearbody led.
  destruct (dispatch_frame now ctxErr (setResources m1 led)) as (_ & _ & Hres & _). simpl in Hres.
  cbv zeta. rewrite releaseReservation_eq, Hres, Hout, Hfresh.
  pose proof (ok_resources _ Hok) as Hr. destruct Hr, Hr2. unfold held in *. rewrite !Hout in *.
  split_and!; try congruence. intros o. split_and!; congruence.
Qed.

Lemma capacity_reservation_roundtrip_witness :
  let m1 := (tryReserveAdaptiveResourceMode example_a3.(mgr) 3 4096 2 true).1 in
  m1.(resources).(adaptiveExternalBytes) = 4096 ∧
  (releaseReservation 5 no_ctx m1 0).(resources).(adaptiveExternalBytes) = 0.
Proof.
  intros m1. split; [vm_compute; reflexivity|].
  refine (proj1 (capacity_reservation_roundtrip 5 no_ctx example_a3.(mgr) 3 4096 2 true m1 0
    example_a3_ok _ _)).
  - vm_compute. split_and!; congruence.
  - vm_compute. reflexivity.
Defined.

(** The default configuration partitions any requested total into valid
    budgets: it always passes validation, so the default manager is always
    built, public and control streams add up to the total, pooled
    connections leave room for one-shot streams, and trusted health keeps a
    reserve whenever there is more than one stream. *)
Theorem capacity_default_config_valid total :
  let c := defaultAgentStreamCapacityConfig total in
  validateAgentStreamCapacityConfig c = None ∧ is_Some (mustNewDefaultAgentStreamCapacityManager total) ∧
  c.(Public) + c.(Control) = c.(Total) ∧ 1 ≤ c.(Total) ≤ MaxServerConcurrentStreamsLimit ∧
  (1 < c.(Public) → c.(Pooled) < c.(Public)) ∧ (1 < c.(Total) → 1 ≤ c.(Control) ≤ 64).
Proof.
  set (c := defaultAgentStreamCapacityConfig total). cbv zeta.
  assert (1 ≤ c.(Total) ≤ 65536 ∧ c.(Public) + c.(Control) = c.(Total) ∧
    0 ≤ c.(Control) < c.(Total) ∧ c.(Control) ≤ 64 ∧ (1 < c.(Total) → 1 ≤ c.(Control)) ∧
    (1 < c.(Public) → 0 ≤ c.(Pooled) < c.(Public) ∧
       0 < c.(ReservedPublicForOtherSessions) < c.(Public)) ∧
    (c.(Public) ≤ 1 → c.(Pooled) = 0 ∧ c.(ReservedPublicForOtherSessions) = 0) ∧
    c.(MaxWaitersPerKey) = c.(MaxWaiters) ∧ 64 ≤ c.(MaxWaiters) ∧ 1 ≤ c.(MaxOpeningPerSession))
    as (H1 & H2 & H3 & H4 & H5 & H6 & H7 & H8 & H9 & H10).
  { unfold c, defaultAgentStreamCapacityConfig, MaxServerConcurrentStreamsLimit,
      DefaultServerMaxConcurrentStreams, minimumAgentStreamCapacityWaiters, yamuxAcceptBacklog,
      defaultAgentStreamCapacityControlStreams.
    set (t := if _ || _ then 256 else total).
    assert (1 ≤ t ≤ 65536) as Ht by (unfold t; destruct (_ || _) eqn:E; [lia|]; bprop; lia).
    clearbody t. cbn -[Z.quot Z.max Z.min Z.ltb].
    pose proof (Z.quot_div_nonneg t 16 ltac:(lia) ltac:(lia)). pose proof (Z.quot_div_nonneg t 64 ltac:(lia) ltac:(lia)).
    set (ctl := if 1 <? t then _ else 0). assert (0 ≤ ctl < t ∧ ctl ≤ 64 ∧ (1 < t → 1 ≤ ctl)) as Hctl.
    { unfold ctl. destruct (Z.ltb_spec 1 t); [|lia].
      assert (t / 16 < t ∧ t / 64 < t) by (split; apply Z.div_lt; lia).
      assert (0 ≤ t / 16 ∧ 0 ≤ t / 64) by (split; apply Z.div_pos; lia). lia. }
    clearbody ctl. set (p := t - ctl). assert (p = t - ctl) as Hp by done. clearbody p.
    assert (1 < p → 0 < Z.quot (p + 3) 4 < p ∧ Z.quot (p + 3) 4 ≤ p) as Hq.
    { intros H1p. rewrite Z.quot_div_nonneg by lia.
      pose proof (Z.div_mod (p + 3) 4 ltac:(lia)). pose proof (Z.mod_pos_bound (p + 3) 4 ltac:(lia)). lia. }
    destruct (Z.ltb_spec 1 p); split_and!; lia. }
  assert (validateAgentStreamCapacityConfig c = None) as Hv.
  { unfold validateAgentStreamCapacityConfig.
    assert (0 ≤ c.(Pooled) ≤ c.(Public) ∧ 0 ≤ c.(ReservedPublicForOtherSessions) ∧
      (0 < c.(Public) → c.(ReservedPublicForOtherSessions) < c.(Public))) as (? & ? & ?) by lia.
    clearbody c. repeat case_goal; bprop; try done; exfalso;
      repeat match goal with H : _ ∨ _ |- _ => destruct H; bprop end; lia. }
  unfold MaxServerConcurrentStreamsLimit. split_and!; try done; try lia.
  unfold mustNewDefaultAgentStreamCapacityManager, newAgentStreamCapacityManager. fold c. by rewrite Hv.
Qed.

(** One session cannot starve the others of public streams: while another
    session has a public request waiting, a registered session is granted a
    public stream only below the public budget less the reserve for other
    sessions. *)
Theorem capacity_session_reserve m c k w :
  canGrantLocked m c k = true → isPublic c = true → k ∈ m.(registeredSessions) →
  1 < Z.of_nat (size m.(registeredSessions)) → 0 < m.(config).(ReservedPublicForOtherSessions) →
  w ∈ queuedWaiters m.(queue) → w.(wSessionKey) ≠ k → isPublic w.(wClass) = true →
  get m.(leases).(publicBySession) k + 1 ≤
    m.(config).(Public) - m.(config).(ReservedPublicForOtherSessions).
Proof.
  intros (_ & _ & _ & Hp & _)%canGrant_spec Hc Hk Hn Hr Hw Hne Hwp.
  destruct (Hp Hc) as (_ & Hlt & _). unfold publicSessionLimitLocked in Hlt.
  assert (hasPublicWaiterForOtherSessionLocked m k = true) as Hh.
  { apply existsb_exists. exists w. split; [by rewrite <- list_elem_of_In|].
    rewrite (proj2 (String.eqb_neq _ _)) by done. done. }
  rewrite Hh, !(proj2 (Z.leb_gt _ _)), bool_decide_eq_true_2 in Hlt by done. simpl in Hlt. lia.
Qed.

(** Two registered sessions; [b] waits for a public stream. *)
Definition contended : agentStreamCapacityManager :=
  mkManager (mkConfig 4 3 1 1 4 4 4 1) (mkAdaptive None (limitSnapshot 4) 0 false)
    emptyLeases emptyResources {["a"; "b"]} ∅ ∅
    (mkQueue {["target" := [0]]} ["target"] 0 1
       {[0 := mkWaiter PublicPooled "target" "b" 1 false None None WaiterQueued]} 1).

Lemma capacity_session_reserve_witness :
  canGrantLocked contended PublicOneShot "a" = true ∧ get contended.(leases).(publicBySession) "a" + 1 ≤ 3 - 1.
Proof.
  split; [vm_compute; reflexivity|].
  refine (capacity_session_reserve contended PublicOneShot "a"
    (mkWaiter PublicPooled "target" "b" 1 false None None WaiterQueued) _ _ _ _ _ _ _ _).
  - vm_compute; reflexivity.
  - reflexivity.
  - simpl. set_solver.
  - vm_compute; reflexivity.
  - vm_compute; reflexivity.
  - vm_compute. left.
  - discriminate.
  - reflexivity.
Defined.

(** C27: Admission never promises memory twice: once a published sample with
    a valid reading is in force, a request is granted only if the full
    charges of all live streams, of the new one and all bytes reserved
    outside fit together in the headroom that sample measured below the
    hard limit. *)
Theorem capacity_grant_backed m c k u next :
  ok m → isAdaptive m = true → canGrantLocked m c k = true →
  m.(adaptive).(resourceSnapshot) = publishedSnapshot u next →
  MemoryPressure.usageValid next.(MemoryPressure.Usage) = true →
  0 < next.(MemoryPressure.StreamChargeByte) → 0 ≤ next.(MemoryPressure.HeadroomToHardByte) →
  (m.(leases).(usedTotal) + 1) * next.(MemoryPressure.StreamChargeByte)
    + m.(resources).(adaptiveExternalBytes) ≤ next.(MemoryPressure.HeadroomToHardByte).
Proof.
  intros Hok Ha (_ & _ & _ & _ & _ & _ & Hg)%canGrant_spec Hs Hv Hc Hh.
  destruct (Hg Ha) as (Hrej & Hlt & _).
  assert (0 ≤ m.(leases).(usedTotal)) as Hu by (rewrite (lo_total _ (ok_leases _ Hok)); apply cnt_nonneg).
  assert (0 ≤ m.(resources).(adaptiveExternalBytes)) as Hb.
  { rewrite (ro_bytes _ (ok_resources _ Hok)). apply held_nonneg, resources_nonneg, Hok. }
  unfold adaptiveEffectiveAdmissionLimitLocked in Hlt. rewrite Hs in *.
  assert (MemoryPressure.RejectNew next = false) as Hrej' by exact Hrej.
  set (bytes := adaptiveExternalBytes _) in *. set (fds := adaptiveExternalFDs _) in *.
  pose proof (MemoryPressure.external_le_memory (publishedSnapshot u next) bytes fds) as Hle.
  pose proof (MemoryPressure.external_backed (publishedSnapshot u next) bytes fds) as Hback.
  set (lim := MemoryPressure.AdmissionLimitWithExternal _ _ _) in *. clearbody lim.
  simpl in Hle, Hback. rewrite Hv, (proj2 (Z.ltb_lt _ _) Hc), Hrej' in Hle, Hback. simpl in Hle, Hback.
  set (q := Z.quot _ _) in *.
  assert (q * next.(MemoryPressure.StreamChargeByte) ≤ next.(MemoryPressure.HeadroomToHardByte)) as Hq.
  { unfold q. rewrite Z.quot_div_nonneg by lia.
    pose proof (Z.mul_div_le next.(MemoryPressure.HeadroomToHardByte) _ Hc). lia. }
  clearbody q. set (ml := if (_ : bool) then _ else Z.min _ (Z.min q max_int64)) in *.
  assert (ml ≤ q) as Hml by (unfold ml; case_match; lia).
  destruct (Z.eq_dec bytes 0) as [->|]; [nia|].
  specialize (Hback ltac:(lia) Hc ltac:(lia) ltac:(lia)). nia.
Qed.

Lemma capacity_grant_backed_witness :
  canGrantLocked example_a3.(mgr) TrustedHealth "a" = true ∧
  (0 + 1) * 524288 + 0 ≤ example_sample.(MemoryPressure.HeadroomToHardByte).
Proof.
  assert (canGrantLocked example_a3.(mgr) TrustedHealth "a" = true) as Hg by (vm_compute; reflexivity).
  split; [exact Hg|].
  refine (capacity_grant_backed example_a3.(mgr) TrustedHealth "a" 0 example_sample
    example_a3_ok _ Hg _ _ _ _); vm_compute; congruence.
Defined.

End StreamCapacityProps.
