(* ===== verification/TunnelProtocol.v ===== *)
(** The tunnel upgrade headers (internal/tunnel/protocol.go): the lane
    extension, the aggregate flow-control contract and the stream limit.

    The string and header functions the code calls are those of GoStrings.v.
    Error texts are constructors. *)

From S2P Require Import Prelude.
From S2P Require Import GoStrings.
From Stdlib Require Import Ascii.

Module TunnelProtocol.

(** ** Constants *)

Definition TunnelGroupHeader := "X-P2PStream-Tunnel-Group".
Definition TunnelLaneHeader := "X-P2PStream-Tunnel-Lane".
Definition TunnelFlowControlHeader := "X-P2PStream-Tunnel-Flow-Control".
Definition TunnelLaneRoleHeader := "X-P2PStream-Tunnel-Lane-Role".
Definition TunnelSessionWindowHeader := "X-P2PStream-Tunnel-Session-Window".
Definition TunnelSessionWindowMaxHeader := "X-P2PStream-Tunnel-Session-Window-Max".
Definition TunnelAllocationWindowHeader := "X-P2PStream-Tunnel-Allocation-Window".
Definition TunnelAllocationWindowMaxHeader := "X-P2PStream-Tunnel-Allocation-Window-Max".
Definition TunnelDataFrameMaxHeader := "X-P2PStream-Tunnel-Data-Frame-Max".
Definition MaxParallelTunnels : Z := 32.
Definition TunnelFlowControlAggregateV1 := "aggregate-v1".
Definition TunnelLaneRoleControl := "control".
Definition TunnelLaneRoleBulk := "bulk".
Definition max_uint32 : Z := 4294967295.

Inductive protocolError :=
  | ErrInvalidGroup | ErrInvalidLane | ErrDuplicateHeader (name : string)
  | ErrIncomplete (name : string) | ErrFlowControl (value : string) | ErrLaneRole (value : string)
  | ErrInvalidHeader (name : string) | ErrUnsupportedValues | ErrMaxConcurrentStreams (value : string).

(** ** Lanes *)

Definition groupChar (c : ascii) : bool :=
  let n := nat_of_ascii c in
  ((97 <=? n) && (n <=? 122) || (65 <=? n) && (n <=? 90) || (48 <=? n) && (n <=? 57) || (n =? 45))%nat.

(** Every byte of a multi-byte character is refused, as its rune is. *)
Fixpoint groupChars (s : string) : bool :=
  match s with EmptyString => true | String c s => groupChar c && groupChars s end.

Definition parseTunnelLane (group rawLane : string) (aggregate : bool) : protocolError + string * Z :=
  if String.eqb group "" && String.eqb rawLane "" then inr ("", 0) else
  if (String.length group <? 16)%nat || (64 <? String.length group)%nat then inl ErrInvalidGroup else
  if negb (groupChars group) then inl ErrInvalidGroup else
  let maximum := if aggregate then MaxParallelTunnels else MaxParallelTunnels - 1 in
  match Atoi rawLane with
  | None => inl ErrInvalidLane
  | Some lane => if (lane <? 0) || (maximum <? lane) then inl ErrInvalidLane else inr (group, lane)
  end.

Definition ParseTunnelLane (group rawLane : string) := parseTunnelLane group rawLane false.
Definition ParseAggregateTunnelLane (group rawLane : string) := parseTunnelLane group rawLane true.

(** ** Aggregate flow control *)

Record AggregateFlowControlConfig := mkFlow {
  InitialSessionWindow : Z;
  MaxSessionWindow : Z;
  InitialStreamWindow : Z;
  MaxStreamWindow : Z;
  MaxDataFrame : Z;
}.

#[export] Instance AggregateFlowControlConfig_eq_dec : EqDecision AggregateFlowControlConfig.
Proof. solve_decision. Defined.

Definition DefaultAggregateFlowControlConfig : AggregateFlowControlConfig :=
  mkFlow (2 * 1024 * 1024) (1024 * 1024 * 1024) (512 * 1024) (256 * 1024 * 1024) (32 * 1024).

Definition Equal (c other : AggregateFlowControlConfig) : bool := bool_decide (c = other).

Definition SetAggregateFlowControlHeaders (h : gmap string (list string)) (role : string)
    (config : AggregateFlowControlConfig) : gmap string (list string) :=
  let h := Set_ h TunnelFlowControlHeader TunnelFlowControlAggregateV1 in
  let h := Set_ h TunnelLaneRoleHeader role in
  let h := Set_ h TunnelSessionWindowHeader (FormatUint config.(InitialSessionWindow)) in
  let h := Set_ h TunnelSessionWindowMaxHeader (FormatUint config.(MaxSessionWindow)) in
  let h := Set_ h TunnelAllocationWindowHeader (FormatUint config.(InitialStreamWindow)) in
  let h := Set_ h TunnelAllocationWindowMaxHeader (FormatUint config.(MaxStreamWindow)) in
  Set_ h TunnelDataFrameMaxHeader (FormatUint config.(MaxDataFrame)).

Definition singleTunnelHeader (h : gmap string (list string)) (name : string) :
    protocolError + string * bool :=
  match Values h name with
  | [] => inr ("", false)
  | [v] => let value := TrimSpace v in
      if String.eqb value "" then inr ("", true) else inr (value, true)
  | _ => inl (ErrDuplicateHeader name)
  end.

Definition aggregateNames : list string :=
  [TunnelFlowControlHeader; TunnelLaneRoleHeader; TunnelSessionWindowHeader;
   TunnelSessionWindowMaxHeader; TunnelAllocationWindowHeader; TunnelAllocationWindowMaxHeader;
   TunnelDataFrameMaxHeader].

(** The first loop: the values and whether any header is present. *)
Fixpoint readHeaders (h : gmap string (list string)) (names : list string) :
    protocolError + list string * bool :=
  match names with
  | [] => inr ([], false)
  | name :: names =>
      match singleTunnelHeader h name with
      | inl e => inl e
      | inr (value, ok) =>
          match readHeaders h names with
          | inl e => inl e
          | inr (values, present) => inr (value :: values, ok || present)
          end
      end
  end.

(** The second loop: the first header without a value. *)
Fixpoint missingHeader (nvs : list (string * string)) : option string :=
  match nvs with
  | [] => None
  | (name, value) :: nvs => if String.eqb value "" then Some name else missingHeader nvs
  end.

(** One canonical positive uint32. *)
Definition parseWindow (raw : string) : option Z :=
  match ParseUint raw max_uint32 with
  | Some v => if (v =? 0) || negb (String.eqb (FormatUint v) raw) then None else Some v
  | None => None
  end.

(** The third loop. *)
Fixpoint parseWindows (nvs : list (string * string)) : protocolError + list Z :=
  match nvs with
  | [] => inr []
  | (name, raw) :: nvs =>
      match parseWindow raw with
      | None => inl (ErrInvalidHeader name)
      | Some v => match parseWindows nvs with inl e => inl e | inr vs => inr (v :: vs) end
      end
  end.

(** A success is the configuration, the role and [enabled]; the zero
    configuration stands where the code returns one with [enabled] false. *)
Definition zeroFlow : AggregateFlowControlConfig := mkFlow 0 0 0 0 0.

Definition ParseAggregateFlowControlHeaders (h : gmap string (list string)) :
    protocolError + AggregateFlowControlConfig * string * bool :=
  match readHeaders h aggregateNames with
  | inl e => inl e
  | inr (values, present) =>
      if negb present then inr (zeroFlow, "", false) else
      match missingHeader (combine aggregateNames values) with
      | Some name => inl (ErrIncomplete name)
      | None =>
          match values with
          | flow :: role :: raws =>
              if negb (String.eqb flow TunnelFlowControlAggregateV1) then inl (ErrFlowControl flow) else
              if negb (String.eqb role TunnelLaneRoleControl) && negb (String.eqb role TunnelLaneRoleBulk)
              then inl (ErrLaneRole role) else
              match parseWindows (combine (drop 2 aggregateNames) raws) with
              | inl e => inl e
              | inr [a; b; c; d; e] =>
                  let config := mkFlow a b c d e in
                  if negb (Equal config DefaultAggregateFlowControlConfig) then inl ErrUnsupportedValues
                  else inr (config, role, true)
              | inr _ => inl ErrUnsupportedValues
              end
          | _ => inl ErrUnsupportedValues
          end
      end
  end.

Definition ParseTunnelLaneHeaders (h : gmap string (list string)) (aggregate : bool) :
    protocolError + string * Z :=
  match singleTunnelHeader h TunnelGroupHeader with
  | inl e => inl e
  | inr (group, _) =>
      match singleTunnelHeader h TunnelLaneHeader with
      | inl e => inl e
      | inr (lane, _) => parseTunnelLane group lane aggregate
      end
  end.

Definition ParseMaxConcurrentStreams (value : string) (maximum : Z) : protocolError + Z :=
  let value := TrimSpace value in
  match ParseInt value with
  | Some streams => if (streams <? 1) || (maximum <? streams) then inl (ErrMaxConcurrentStreams value)
                    else inr streams
  | None => inl (ErrMaxConcurrentStreams value)
  end.

Example format_0 : FormatUint 0 = "0".
Proof. reflexivity. Qed.
Example format_n : FormatUint 1073741824 = "1073741824".
Proof. reflexivity. Qed.
Example trim_1 : TrimSpace (bytes [32; 226; 128; 137; 97; 32; 98; 194; 160; 9]%nat) = "a b".
Proof. reflexivity. Qed.
Example canon_1 : CanonicalMIMEHeaderKey TunnelDataFrameMaxHeader = "X-P2pstream-Tunnel-Data-Frame-Max".
Proof. reflexivity. Qed.
Example lane_1 : parseTunnelLane "0123456789abcdef" "+07" false = inr ("0123456789abcdef", 7).
Proof. reflexivity. Qed.

(** ** Window headers *)

(** [parseWindow] accepts the canonical decimal of a positive uint32 and nothing else. *)
Lemma parseWindow_canonical raw v :
  parseWindow raw = Some v ↔ raw = FormatUint v ∧ 0 < v ≤ max_uint32.
Proof.
  unfold parseWindow. split.
  - destruct (ParseUint raw max_uint32) as [x|] eqn:E; [|done]. case_goal; [done|]. bprop.
    intros [= ->]. split; [done|].
    unfold ParseUint in E. destruct raw as [|c raw]; [done|].
    destruct (digits 0 (String c raw)) as [y|] eqn:Ed; [|done].
    destruct (y <=? max_uint32) eqn:Hy; [|done]. injection E as ->. bprop.
    split; [|done]. pose proof (digits_nonneg _ _ _ Ed ltac:(lia)). lia.
  - intros [-> Hv]. rewrite ParseUint_FormatUint by (unfold max_uint32, two64 in *; lia).
    rewrite String.eqb_refl. destruct (Z.eqb_spec v 0); [lia|done].
Qed.

(** ** Reading headers *)

(** The single value of a header, without the surrounding white space. *)
Definition carries (h : gmap string (list string)) (name value : string) : Prop :=
  ∃ w, Values h name = [w] ∧ TrimSpace w = value.

Lemma single_carries h name v ok :
  singleTunnelHeader h name = inr (v, ok) → v ≠ "" → carries h name v.
Proof.
  unfold singleTunnelHeader, carries. destruct (Values h name) as [|w [|]] eqn:E; intros H Hv; [|
    |done].
  - by injection H as <- <-.
  - cbv zeta in H. case_hyp H; injection H as <- <-; [done|]. eauto.
Qed.

Lemma carries_single h name v :
  carries h name v → v ≠ "" → singleTunnelHeader h name = inr (v, true).
Proof.
  intros (w & E & <-) Hv. unfold singleTunnelHeader. rewrite E. cbv zeta.
  by destruct (String.eqb_spec (TrimSpace w) "").
Qed.

Lemma single_absent h name v :
  singleTunnelHeader h name = inr (v, false) ↔ v = "" ∧ Values h name = [].
Proof.
  unfold singleTunnelHeader. destruct (Values h name) as [|w [|]]; [naive_solver| |naive_solver].
  cbv zeta. case_goal; naive_solver.
Qed.

Lemma readHeaders_values h names : ∀ values present,
  readHeaders h names = inr (values, present) →
  Forall2 (λ name v, v ≠ "" → carries h name v) names values ∧
  (present = false → ∀ name, name ∈ names → Values h name = []).
Proof.
  induction names as [|name names IH]; intros values present H; simpl in H.
  - injection H as <- <-. split; [constructor|set_solver].
  - destruct (singleTunnelHeader h name) as [|[v ok]] eqn:Es; [done|].
    destruct (readHeaders h names) as [|[vs pr]]; [done|]. injection H as <- <-.
    destruct (IH vs pr eq_refl) as [IH1 IH2]. split.
    + constructor; [|done]. by apply (single_carries _ _ _ ok).
    + intros Hp. bprop. subst ok. apply single_absent in Es as [_ Es].
      intros n [->|Hn]%elem_of_cons; auto.
Qed.

Lemma readHeaders_absent h names :
  (∀ name, name ∈ names → Values h name = []) →
  readHeaders h names = inr (map (λ _, "") names, false).
Proof.
  induction names as [|name names IH]; intros H; [done|]. simpl.
  rewrite (proj2 (single_absent h name "")) by (split; [done|apply H; set_solver]).
  rewrite IH by (intros; apply H; set_solver). done.
Qed.

Lemma readHeaders_present h names values :
  Forall2 (carries h) names values → Forall (λ v, v ≠ "") values →
  readHeaders h names = inr (values, negb (bool_decide (names = []))).
Proof.
  induction 1 as [|name v names values Hc _ IH]; intros Hv; [done|]. simpl.
  apply Forall_cons in Hv as [Hv Hvs]. rewrite (carries_single _ _ _ Hc Hv), (IH Hvs). done.
Qed.

Lemma missingHeader_None names : ∀ values,
  length names = length values →
  missingHeader (combine names values) = None ↔ Forall (λ v, v ≠ "") values.
Proof.
  induction names as [|n names IH]; intros [|v values] Hl; simpl in *; try done.
  rewrite Forall_cons. destruct (String.eqb_spec v ""); [naive_solver|]. rewrite IH by lia. tauto.
Qed.

Lemma parseWindows_values names : ∀ raws vs,
  length names = length raws → parseWindows (combine names raws) = inr vs →
  raws = map FormatUint vs.
Proof.
  induction names as [|n names IH]; intros [|r raws] vs Hl H; simpl in *; try done.
  - by injection H as <-.
  - destruct (parseWindow r) as [v|] eqn:E; [|done].
    destruct (parseWindows (combine names raws)) as [|us] eqn:Eu; [done|]. injection H as <-.
    apply parseWindow_canonical in E as [-> _]. simpl. f_equal. apply (IH raws us); [lia|done].
Qed.

(** What [SetAggregateFlowControlHeaders] writes, in the order of the names. *)
Definition written (role : string) (c : AggregateFlowControlConfig) : list string :=
  [TunnelFlowControlAggregateV1; role; FormatUint c.(InitialSessionWindow); FormatUint c.(MaxSessionWindow);
   FormatUint c.(InitialStreamWindow); FormatUint c.(MaxStreamWindow); FormatUint c.(MaxDataFrame)].

Definition laneRole (role : string) : Prop := role = TunnelLaneRoleControl ∨ role = TunnelLaneRoleBulk.

Lemma FormatUint_nonempty n : FormatUint n ≠ "".
Proof. apply format_nonempty. lia. Qed.

Lemma written_nonempty role c : laneRole role → Forall (λ v, v ≠ "") (written role c).
Proof.
  intros Hr. repeat constructor; try apply FormatUint_nonempty; [done|]. by destruct Hr as [->| ->].
Qed.

(** The parse of a complete offer. *)
Lemma parse_complete h role c :
  laneRole role → Forall2 (carries h) aggregateNames (written role c) →
  ParseAggregateFlowControlHeaders h =
    match parseWindows (combine (drop 2 aggregateNames) (drop 2 (written role c))) with
    | inl e => inl e
    | inr [a; b; x; d; e] =>
        if negb (Equal (mkFlow a b x d e) DefaultAggregateFlowControlConfig) then inl ErrUnsupportedValues
        else inr (mkFlow a b x d e, role, true)
    | inr _ => inl ErrUnsupportedValues
    end.
Proof.
  intros Hr Hc. unfold ParseAggregateFlowControlHeaders.
  rewrite (readHeaders_present _ _ _ Hc (written_nonempty _ c Hr)). rewrite bool_decide_false by done.
  cbv beta iota. simpl negb. cbv iota.
  rewrite (proj2 (missingHeader_None aggregateNames (written role c) eq_refl)) by (by apply written_nonempty).
  unfold written at 1. rewrite String.eqb_refl. simpl negb. cbv iota.
  assert ((negb (String.eqb role TunnelLaneRoleControl) && negb (String.eqb role TunnelLaneRoleBulk)) = false)
    as -> by (by destruct Hr as [->| ->]). done.
Qed.

Lemma Set_Values h name name' v :
  Values (Set_ h name v) name' =
  if decide (CanonicalMIMEHeaderKey name = CanonicalMIMEHeaderKey name') then [v] else Values h name'.
Proof.
  unfold Values, Set_. destruct (decide _) as [E|E]; [by rewrite E, lookup_insert_eq|].
  by rewrite lookup_insert_ne.
Qed.

Lemma set_carries h role c :
  laneRole role → Forall (λ v, 0 ≤ v) [c.(InitialSessionWindow); c.(MaxSessionWindow);
    c.(InitialStreamWindow); c.(MaxStreamWindow); c.(MaxDataFrame)] →
  Forall2 (carries (SetAggregateFlowControlHeaders h role c)) aggregateNames (written role c).
Proof.
  intros Hr Hn. rewrite !Forall_cons in Hn. destruct Hn as (H1 & H2 & H3 & H4 & H5 & _).
  repeat constructor; eexists; (split;
    [unfold SetAggregateFlowControlHeaders; rewrite !Set_Values; repeat
       (rewrite decide_True by (vm_compute; reflexivity) || rewrite decide_False by (vm_compute; discriminate));
     reflexivity|]); try (by apply TrimSpace_FormatUint).
  - reflexivity.
  - by destruct Hr as [->| ->].
Qed.

(** A header carries one value, and decimals determine their numbers. *)
Lemma carries_functional h names vs ws :
  Forall2 (carries h) names vs → Forall2 (carries h) names ws → vs = ws.
Proof.
  intros H. revert ws. induction H as [|n v names vs (w & E & Hv) _ IH]; intros ws Hw; inversion Hw; subst;
    [done|]. f_equal; [|auto].
  match goal with Hc : carries h n _ |- _ => destruct Hc as (w' & E' & <-) end. congruence.
Qed.

Lemma FormatUint_inj a b : 0 ≤ a ≤ max_uint32 → 0 ≤ b ≤ max_uint32 → FormatUint a = FormatUint b → a = b.
Proof.
  intros Ha Hb E. pose proof (ParseUint_FormatUint a max_uint32 Ha ltac:(done)) as E1.
  rewrite E, (ParseUint_FormatUint b max_uint32 Hb ltac:(done)) in E1. by injection E1.
Qed.

Lemma written_injective role c role' :
  Forall (λ v, 0 ≤ v ≤ max_uint32) [c.(InitialSessionWindow); c.(MaxSessionWindow);
    c.(InitialStreamWindow); c.(MaxStreamWindow); c.(MaxDataFrame)] →
  written role c = written role' DefaultAggregateFlowControlConfig → c = DefaultAggregateFlowControlConfig.
Proof.
  rewrite !Forall_cons. intros (H1 & H2 & H3 & H4 & H5 & _) E. destruct c as [v1 v2 v3 v4 v5].
  unfold written in E. injection E as _ E1 E2 E3 E4 E5. simpl in *.
  unfold DefaultAggregateFlowControlConfig. f_equal; (apply FormatUint_inj; [done|done|]; assumption).
Qed.

(** A successful parse, taken apart. *)
Lemma parse_success h c role enabled :
  ParseAggregateFlowControlHeaders h = inr (c, role, enabled) →
  (enabled = false ∧ c = zeroFlow ∧ role = "" ∧ ∀ name, name ∈ aggregateNames → Values h name = []) ∨
  (enabled = true ∧ c = DefaultAggregateFlowControlConfig ∧ laneRole role ∧
   Forall2 (carries h) aggregateNames (written role c)).
Proof.
  unfold ParseAggregateFlowControlHeaders. intros H.
  destruct (readHeaders h aggregateNames) as [|[values present]] eqn:Er; [done|].
  destruct (readHeaders_values _ _ _ _ Er) as [Hc Hp].
  destruct present; simpl negb in H; cbv iota in H; [|by injection H as <- <- <-; left; auto].
  right. destruct (missingHeader _) as [|] eqn:Em; [done|].
  pose proof (Forall2_length _ _ _ Hc) as Hl. apply (missingHeader_None _ _ Hl) in Em.
  assert (Hc' : Forall2 (carries h) aggregateNames values).
  { revert Hc Em. clear. generalize aggregateNames. induction values as [|v vs IH]; intros names Hc Em.
    - inversion Hc. constructor.
    - inversion Hc; subst. apply Forall_cons in Em as [? ?]. constructor; auto. }
  destruct values as [|flow [|rl raws]]; try done.
  case_hyp H; [done|]. case_hyp H; [done|].
  destruct (parseWindows _) as [|vs] eqn:Ew; [done|].
  apply parseWindows_values in Ew; [|simpl in Hl |- *; lia].
  destruct vs as [|v1 [|v2 [|v3 [|v4 [|v5 [|]]]]]]; try done.
  cbv zeta in H. case_hyp H; [done|]. injection H as <- <- <-. bprop. unfold Equal in *. bprop.
  subst flow raws. split; [done|]. split; [done|]. split; [|exact Hc'].
  unfold laneRole. destruct (String.eqb_spec rl TunnelLaneRoleControl), (String.eqb_spec rl TunnelLaneRoleBulk);
    auto. exfalso. naive_solver.
Qed.

(** ** Properties *)

(** The contract round-trips.  Parsing the headers that
    [SetAggregateFlowControlHeaders] wrote (over any earlier headers) yields the
    configuration and the role that were set when the configuration is this version's
    contract, and an error when it is any other configuration. *)
Theorem aggregate_headers_roundtrip (h : gmap string (list string)) (role : string)
    (c : AggregateFlowControlConfig) :
  laneRole role → Forall (λ v, 0 ≤ v ≤ max_uint32) [c.(InitialSessionWindow); c.(MaxSessionWindow);
    c.(InitialStreamWindow); c.(MaxStreamWindow); c.(MaxDataFrame)] →
  let parsed := ParseAggregateFlowControlHeaders (SetAggregateFlowControlHeaders h role c) in
  (c = DefaultAggregateFlowControlConfig → parsed = inr (c, role, true)) ∧
  (c ≠ DefaultAggregateFlowControlConfig → ∃ e, parsed = inl e).
Proof.
  intros Hr Hv parsed.
  assert (Hn : Forall (λ v, 0 ≤ v) [c.(InitialSessionWindow); c.(MaxSessionWindow);
    c.(InitialStreamWindow); c.(MaxStreamWindow); c.(MaxDataFrame)]).
  { eapply Forall_impl; [exact Hv|]. simpl. lia. }
  pose proof (set_carries h role c Hr Hn) as Hc. split.
  - intros ->. unfold parsed. rewrite (parse_complete _ _ _ Hr Hc). vm_compute. reflexivity.
  - intros Hne. unfold parsed. destruct (ParseAggregateFlowControlHeaders _) as [e|[[c' role'] en]] eqn:E;
      [eauto|]. exfalso. apply parse_success in E as [(_ & _ & _ & Habs)|(_ & -> & _ & Hc')].
    + inversion Hc as [|n v ns vs (w & Hw & _) _ E1 E2]; subst.
      rewrite (Habs TunnelFlowControlHeader) in Hw; [done|]. left.
    + apply Hne. apply (written_injective role c role'); [exact Hv|].
      by eapply carries_functional.
Qed.

(** Which offers are accepted.  The parser reports "no extension" exactly
    when all seven headers are absent; it accepts exactly the offers in which every
    header occurs once and carries, up to surrounding white space, the text that
    [SetAggregateFlowControlHeaders] writes for this version's contract; and it
    returns nothing else, so a partial, duplicated or non-canonical offer is an
    error and never a downgrade. *)
Theorem aggregate_offer_exact (h : gmap string (list string)) :
  (ParseAggregateFlowControlHeaders h = inr (zeroFlow, "", false) ↔
     ∀ name, name ∈ aggregateNames → Values h name = []) ∧
  (∀ role, ParseAggregateFlowControlHeaders h = inr (DefaultAggregateFlowControlConfig, role, true) ↔
     laneRole role ∧ Forall2 (carries h) aggregateNames (written role DefaultAggregateFlowControlConfig)) ∧
  (∀ r, ParseAggregateFlowControlHeaders h = inr r → r = (zeroFlow, "", false) ∨
     ∃ role, laneRole role ∧ r = (DefaultAggregateFlowControlConfig, role, true)).
Proof.
  split_and!.
  - split; [intros E; by apply parse_success in E as [(_ & _ & _ & ?)|[? _]]|]. intros Habs.
    unfold ParseAggregateFlowControlHeaders. by rewrite (readHeaders_absent _ _ Habs).
  - intros role. split; [intros E; apply parse_success in E as [[? _]|(_ & _ & ? & ?)]; [done|by split]|].
    intros [Hr Hc]. rewrite (parse_complete _ _ _ Hr Hc). vm_compute. reflexivity.
  - intros [[c role] en] E. apply parse_success in E as [(-> & -> & -> & _)|(-> & -> & Hr & _)]; [by left|].
    right. eauto.
Qed.

(** The lanes a peer can name.  A parsed lane is the untouched single tunnel
    (both headers empty) or a group of 16 to 64 letters, digits and hyphens with a
    lane of the negotiated range, and every such pair printed in decimal parses back
    to itself; what the legacy parser accepts, the aggregate parser accepts with the
    same result. *)
Theorem tunnel_lane_exact (group raw : string) (aggregate : bool) (g : string) (lane : Z) :
  let maximum := if aggregate then MaxParallelTunnels else MaxParallelTunnels - 1 in
  (parseTunnelLane group raw aggregate = inr (g, lane) →
     group = "" ∧ raw = "" ∧ g = "" ∧ lane = 0 ∨
     g = group ∧ (16 ≤ String.length g ≤ 64)%nat ∧ groupChars g = true ∧ 0 ≤ lane ≤ maximum) ∧
  ((16 ≤ String.length group ≤ 64)%nat → groupChars group = true → 0 ≤ lane ≤ maximum →
     parseTunnelLane group (FormatUint lane) aggregate = inr (group, lane)) ∧
  (ParseTunnelLane group raw = inr (g, lane) → ParseAggregateTunnelLane group raw = inr (g, lane)).
Proof.
  intros maximum. split_and!.
  - unfold parseTunnelLane. case_goal; bprop; [intros [= <- <-]; auto|].
    case_goal; [done|]. case_goal; [done|]. destruct (Atoi raw) as [l|]; [|done].
    case_goal; [done|]. intros [= <- <-]. right. bprop.
    match goal with H1 : (_ <? 16)%nat = false, H2 : (64 <? _)%nat = false |- _ =>
      apply Nat.ltb_ge in H1, H2 end. done.
  - intros Hl Hc Hr. unfold parseTunnelLane.
    assert (String.eqb group "" = false) as -> by (apply String.eqb_neq; intros ->; simpl in Hl; lia).
    assert ((String.length group <? 16)%nat || (64 <? String.length group)%nat = false) as ->
      by (apply orb_false_iff; rewrite !Nat.ltb_ge; lia).
    rewrite Hc. simpl. rewrite Atoi_FormatUint by (unfold maximum, MaxParallelTunnels, max_int64 in *;
      destruct aggregate; lia).
    assert ((lane <? 0) || (maximum <? lane) = false) as E by (apply orb_false_iff; rewrite !Z.ltb_ge; lia).
    unfold maximum in E. by rewrite E.
  - unfold ParseTunnelLane, ParseAggregateTunnelLane, parseTunnelLane. case_goal; [done|].
    case_goal; [done|]. case_goal; [done|]. destruct (Atoi raw) as [l|]; [|done].
    case_goal; [done|]. intros [= <- <-]. bprop.
    assert ((l <? 0) || (MaxParallelTunnels <? l) = false) as -> by (apply orb_false_iff;
      rewrite !Z.ltb_ge; unfold MaxParallelTunnels in *; lia). done.
Qed.

(** ** Witnesses *)

Lemma aggregate_headers_roundtrip_witness :
  ParseAggregateFlowControlHeaders (SetAggregateFlowControlHeaders
    {["X-P2pstream-Tunnel-Lane-Role" := ["bulk"; "control"]]} "bulk" DefaultAggregateFlowControlConfig)
  = inr (DefaultAggregateFlowControlConfig, "bulk", true).
Proof.
  apply (aggregate_headers_roundtrip {["X-P2pstream-Tunnel-Lane-Role" := ["bulk"; "control"]]} "bulk"
    DefaultAggregateFlowControlConfig); [by right| |reflexivity].
  apply (bool_decide_unpack _). vm_compute. exact I.
Defined.

Lemma tunnel_lane_exact_witness :
  parseTunnelLane "0123456789-abcdef" "32" true = inr ("0123456789-abcdef", 32).
Proof.
  apply (proj1 (proj2 (tunnel_lane_exact "0123456789-abcdef" "" true "" 32)));
    [vm_compute; lia|reflexivity|vm_compute; split; discriminate].
Defined.

(** A duplicated header is an error, not a downgrade. *)
Lemma aggregate_offer_exact_witness :
  ParseAggregateFlowControlHeaders {["X-P2pstream-Tunnel-Lane-Role" := ["bulk"; "bulk"]]}
    ≠ inr (zeroFlow, "", false).
Proof.
  intros E. pose proof (proj1 (proj1 (aggregate_offer_exact
    {["X-P2pstream-Tunnel-Lane-Role" := ["bulk"; "bulk"]]})) E TunnelLaneRoleHeader) as H.
  assert (Hin : TunnelLaneRoleHeader ∈ aggregateNames) by (right; left).
  specialize (H Hin). vm_compute in H. discriminate H.
Defined.
End TunnelProtocol.
