(* ===== verification/LaneOwners.v ===== *)
(** Lane ownership of one authenticated tunnel generation
    (internal/tunnel/lane_owners.go and the growth leases of
    internal/tunnel/growing_conn.go).

    Every [LaneOwner] is a physical session on a lane.  A lane prepays two
    baseline slots with the endpoint's admission ledger when its first owner
    arrives and returns them when its last owner is gone; an attached session
    may grow its receive window against further leases.

    The pointers of the source are indices of heaps in the state: owners,
    slots (a lane that empties and comes back gets a new slot object, and a
    growth lease captures the slot pointer), the [openingsDone] channels, the
    pending [FinishOpen] calls and the growth leases.  Owners, slots, channels
    and openings are never removed from their heaps, so an index is used once;
    a step that allocates takes the index as an argument and blocks unless it
    is unused.

    One definition per critical section of [LaneOwners.mu].  [LaneOwner.Close]
    and [FinishOpen] release the mutex, so each is a sequence of definitions
    and the step relation interleaves them.  The two admission callbacks and the
    Yamux calls are not part of these files: their results are arguments. *)

From S2P Require Import Prelude.

Module LaneOwners.

(** ** Constants *)

Definition MaxParallelTunnels : Z := 32.
Definition AggregateLanePoolLimit : Z := Z.shiftl 16 20.
Definition AggregateGenerationGrowthBytes : Z := Z.shiftl 64 20.
Definition AggregateInitialSessionWindowBytes : Z := 2 * 1024 * 1024.
Definition AggregateMaxSessionWindowBytes : Z := 1024 * 1024 * 1024.
Definition AggregateWindowUnitSize : Z := 4 * 1024.
Definition aggregateChunkAccounting : Z := 1024.
Definition max_uint32 : Z := 4294967295.

(** A uint32 window: neither the rounding nor the product leaves uint64. *)
Definition AggregateReceiveWindowMemory (window : Z) : Z :=
  let units := (window + AggregateWindowUnitSize - 1) / AggregateWindowUnitSize in
  units * (AggregateWindowUnitSize + aggregateChunkAccounting).

(** The ceiling of one lane's growth, computed in the [reserve] closure. *)
Definition laneLimit : Z :=
  AggregateReceiveWindowMemory AggregateLanePoolLimit
  - AggregateReceiveWindowMemory AggregateInitialSessionWindowBytes.

(** ** Data *)

Inductive LaneOwnerState := LaneReplacement | LaneServing | LaneDraining.

#[export] Instance LaneOwnerState_eq_dec : EqDecision LaneOwnerState.
Proof. solve_decision. Defined.

Record laneOwnerSlot := mkSlot {
  slot_owners : gset nat;
  slot_serving : option nat;
  slot_growth : Z;
  slot_reserved : Z;
}.

(** [gr_releases] are the leases retained by [Grow], oldest first. *)
Record AggregateReceiveWindowGrowth := mkGrowth {
  gr_session : nat;
  gr_closing : bool;
  gr_poolLimit : Z;
  gr_releases : list nat;
}.

(** Where the body of [o.once] stands. *)
Inductive closePhase :=
  | NotClosed
  | Joining                       (* closed, session closed, in [openings.Wait] *)
  | Resetting                     (* application taken and reset *)
  | Refunding (rest : list nat)   (* [growth.Release] has these callbacks left *)
  | Gone.

Record LaneOwner := mkOwner {
  lane : Z;
  ID : string;
  state : LaneOwnerState;
  session : option nat;
  growth : option AggregateReceiveWindowGrowth;
  closed : bool;
  once : closePhase;
  openings : Z;                   (* the WaitGroup's counter *)
  openingCount : Z;
  openingsDone : option nat;
  activity : Z;
  idleSince : Z;
  application : gset nat;
}.

(** A [BeginOpen] whose [FinishOpen] runs: before the registration, after it,
    after the deferred critical section, after [openings.Done]. *)
Inductive openPhase := Opened | Registered | Counted | Finished.

#[export] Instance openPhase_eq_dec : EqDecision openPhase.
Proof. solve_decision. Defined.

Record opening := mkOpening { op_owner : nat; op_phase : openPhase }.

(** A growth lease: the closure of the [reserve] callback with the slot it
    captured; [ls_returned] once the endpoint's own release has run. *)
Record lease := mkLease {
  ls_slot : nat;
  ls_owner : nat;
  ls_bytes : Z;
  ls_returned : bool;
}.

Record LaneOwners := mkGroup {
  g_closed : bool;
  g_lanes : gmap Z nat;
  g_growth : Z;
  slots : gmap nat laneOwnerSlot;
  owners : gmap nat LaneOwner;
  channels : gmap nat bool;       (* true: closed *)
  opens : gmap nat opening;
  leases : gmap nat lease;
  base : gset nat;                (* slots whose baseline the endpoint holds *)
  refunds : gset nat;             (* slots whose baseline release is due *)
  resets : gset nat;              (* streams reset by the ownership code *)
}.

Definition emptyGroup : LaneOwners := mkGroup false ∅ 0 ∅ ∅ ∅ ∅ ∅ ∅ ∅ ∅.

Inductive outcome (A : Type) :=
  | Blocked                       (* the caller waits, or the call does not apply *)
  | Panic                         (* nil dereference, bad close, negative counter *)
  | Ret (g : LaneOwners) (a : A).
Arguments Blocked {A}.
Arguments Panic {A}.
Arguments Ret {A} g a.

(** ** Record updates *)

Definition set_owners g m := mkGroup g.(g_closed) g.(g_lanes) g.(g_growth) g.(slots) m
  g.(channels) g.(opens) g.(leases) g.(base) g.(refunds) g.(resets).
Definition set_slots g m := mkGroup g.(g_closed) g.(g_lanes) g.(g_growth) m g.(owners)
  g.(channels) g.(opens) g.(leases) g.(base) g.(refunds) g.(resets).
Definition set_channels g m := mkGroup g.(g_closed) g.(g_lanes) g.(g_growth) g.(slots) g.(owners)
  m g.(opens) g.(leases) g.(base) g.(refunds) g.(resets).
Definition set_opens g m := mkGroup g.(g_closed) g.(g_lanes) g.(g_growth) g.(slots) g.(owners)
  g.(channels) m g.(leases) g.(base) g.(refunds) g.(resets).
Definition set_resets g m := mkGroup g.(g_closed) g.(g_lanes) g.(g_growth) g.(slots) g.(owners)
  g.(channels) g.(opens) g.(leases) g.(base) g.(refunds) m.
Definition set_ledger g total m := mkGroup g.(g_closed) g.(g_lanes) total g.(slots) g.(owners)
  g.(channels) g.(opens) m g.(base) g.(refunds) g.(resets).
Definition set_lanes g m b r := mkGroup g.(g_closed) m g.(g_growth) g.(slots) g.(owners)
  g.(channels) g.(opens) g.(leases) b r g.(resets).

Definition put_owner g o ow := set_owners g (<[o := ow]> g.(owners)).
Definition put_slot g sid sl := set_slots g (<[sid := sl]> g.(slots)).

Definition set_state ow x := mkOwner ow.(lane) ow.(ID) x ow.(session) ow.(growth) ow.(closed)
  ow.(once) ow.(openings) ow.(openingCount) ow.(openingsDone) ow.(activity) ow.(idleSince)
  ow.(application).
Definition set_session ow s gr := mkOwner ow.(lane) ow.(ID) ow.(state) s gr ow.(closed)
  ow.(once) ow.(openings) ow.(openingCount) ow.(openingsDone) ow.(activity) ow.(idleSince)
  ow.(application).
Definition set_closing ow c p := mkOwner ow.(lane) ow.(ID) ow.(state) ow.(session) ow.(growth) c
  p ow.(openings) ow.(openingCount) ow.(openingsDone) ow.(activity) ow.(idleSince)
  ow.(application).
Definition set_counts ow wg n ch := mkOwner ow.(lane) ow.(ID) ow.(state) ow.(session) ow.(growth)
  ow.(closed) ow.(once) wg n ch ow.(activity) ow.(idleSince) ow.(application).
Definition set_idle ow a t := mkOwner ow.(lane) ow.(ID) ow.(state) ow.(session) ow.(growth)
  ow.(closed) ow.(once) ow.(openings) ow.(openingCount) ow.(openingsDone) a t ow.(application).
Definition set_application ow app := mkOwner ow.(lane) ow.(ID) ow.(state) ow.(session) ow.(growth)
  ow.(closed) ow.(once) ow.(openings) ow.(openingCount) ow.(openingsDone) ow.(activity)
  ow.(idleSince) app.

(** [o.activity++; o.idleSince = time.Time{}] *)
Definition touch ow := set_idle ow (u64 (ow.(activity) + 1)) 0.

Definition newOwner (l : Z) (id : string) : LaneOwner :=
  mkOwner l id LaneReplacement None None false NotClosed 0 0 None 0 0 ∅.

(** [slot := g.lanes[o.lane]] *)
Definition lane_slot g (l : Z) : option (nat * laneOwnerSlot) :=
  match g.(g_lanes) !! l with
  | Some sid => match g.(slots) !! sid with Some sl => Some (sid, sl) | None => None end
  | None => None
  end.

(** ** Acquire *)

(** Whether some owner of the slot is a draining predecessor named [replaces]. *)
Definition drainingMatches g (sl : laneOwnerSlot) (replaces : string) : bool :=
  existsb (λ o, match g.(owners) !! o with
    | Some ow => bool_decide (ow.(state) = LaneDraining) && String.eqb ow.(ID) replaces
    | None => false end) (elements sl.(slot_owners)).

Definition slotAdmits g (sl : laneOwnerSlot) (replaces : string) : bool :=
  match sl.(slot_serving) with
  | Some so => match g.(owners) !! so with
      | Some ow => negb (String.eqb replaces "") && String.eqb ow.(ID) replaces
      | None => false end
  | None =>
      if bool_decide (sl.(slot_owners) = ∅) then String.eqb replaces ""
      else drainingMatches g sl replaces
  end.

(** The lane's slot, prepaying its baseline when the lane is new. *)
Definition acquireSlot g (l : Z) (replaces : string) (reserved : Z) (reserveOk : bool) (sid : nat) :
    option (LaneOwners * nat) :=
  match g.(g_lanes) !! l with
  | Some sid' => Some (g, sid')
  | None =>
      if negb (String.eqb replaces "") then None else
      if negb reserveOk then None else
      Some (put_slot (set_lanes g (<[l := sid]> g.(g_lanes)) ({[sid]} ∪ g.(base)) g.(refunds))
              sid (mkSlot ∅ None 0 reserved), sid)
  end.

(** [None] is [ErrLaneOwnerUnavailable]. *)
Definition Acquire g (l : Z) (id replaces : string) (reserved : Z) (reserveOk : bool)
    (sid o : nat) : outcome (option nat) :=
  if bool_decide (is_Some (g.(slots) !! sid)) || bool_decide (is_Some (g.(owners) !! o)) then Blocked else
  if (l <? 0) || (MaxParallelTunnels <? l) || String.eqb id "" || (reserved <? 0) then Ret g None else
  if g.(g_closed) then Ret g None else
  match acquireSlot g l replaces reserved reserveOk sid with
  | None => Ret g None
  | Some (g, sid) =>
      match g.(slots) !! sid with
      | None => Panic
      | Some sl =>
          if negb (sl.(slot_reserved) =? reserved) || (2 <=? Z.of_nat (size sl.(slot_owners)))
          then Ret g None else
          if slotAdmits g sl replaces then
            Ret (put_owner (put_slot g sid (mkSlot ({[o]} ∪ sl.(slot_owners)) sl.(slot_serving)
                   sl.(slot_growth) sl.(slot_reserved))) o (newOwner l id)) (Some o)
          else Ret g None
      end
  end.

(** ** Attach and growth *)

(** [aggregate] is [s.AggregateFlowControlEnabled()]. *)
Definition Attach g (o s : nat) (aggregate : bool) : outcome bool :=
  match g.(owners) !! o with
  | None => Blocked
  | Some ow =>
      if g.(g_closed) || ow.(closed) || bool_decide (is_Some ow.(session)) then Ret g false else
      if negb aggregate then Ret (put_owner g o (set_session ow (Some s) ow.(growth))) true else
      Ret (put_owner g o (set_session ow (Some s)
             (Some (mkGrowth s false AggregateLanePoolLimit [])))) true
  end.

(** The [reserve] closure of [Attach]: the lease is allocated at [t]. *)
Definition growthReserve g (o : nat) (ow : LaneOwner) (bytes : Z) (reserveOk : bool) (t : nat) :
    LaneOwners * bool :=
  match lane_slot g ow.(lane) with
  | None => (g, false)
  | Some (sid, sl) =>
      if g.(g_closed) || ow.(closed) || bool_decide (ow.(state) = LaneDraining) || (bytes <? 0)
         || (laneLimit - sl.(slot_growth) <? bytes)
         || (AggregateGenerationGrowthBytes - g.(g_growth) <? bytes)
      then (g, false) else
      if negb reserveOk then (g, false) else
      (set_ledger (put_slot g sid (mkSlot sl.(slot_owners) sl.(slot_serving)
         (sl.(slot_growth) + bytes) sl.(slot_reserved)))
         (g.(g_growth) + bytes) (<[t := mkLease sid o bytes false]> g.(leases)), true)
  end.

(** The [allow] hook of [Attach]. *)
Definition growthAllow g (o : nat) : bool :=
  match g.(owners) !! o with
  | Some ow => negb g.(g_closed) && negb ow.(closed) && negb (bool_decide (ow.(state) = LaneDraining))
  | None => false
  end.

Inductive growError := ErrOtherSession | ErrAllocationRange | ErrSessionMaximum
  | ErrSessionShutdown | ErrYamux.
Inductive allocationResult := AllocationOk | AllocationStreamClosed | AllocationFailed.

(** What [Grow] asks Yamux about the session and the stream, and what the
    three publications answer. *)
Record yamuxCalls := mkYamux {
  ym_sameSession : bool;
  ym_enabled : bool;
  ym_closed : bool;
  ym_receiveLimit : Z;
  ym_receiveClosed : bool;
  ym_growSession : bool;
  ym_growAllocation : allocationResult;
  ym_growWindow : bool;
}.

Definition growAllocation (target : Z) : Z :=
  (target + AggregateWindowUnitSize - 1) / AggregateWindowUnitSize * AggregateWindowUnitSize.

(** The publications on the stream, after the session's own growth. *)
Definition publishStream (y : yamuxCalls) : bool * option growError :=
  match y.(ym_growAllocation) with
  | AllocationStreamClosed => (false, None)
  | AllocationFailed => (true, Some ErrYamux)
  | AllocationOk => if y.(ym_growWindow) then (true, None) else (true, Some ErrYamux)
  end.

(** [growth.mu] is held from the closing test to the end, but [LaneOwners.mu]
    only inside [allow] (here in the earlier state [g0]) and inside [reserve]. *)
Definition Grow g0 g (o : nat) (target : Z) (y : yamuxCalls) (reserveOk : bool) (t : nat) :
    outcome (bool * option growError) :=
  if bool_decide (is_Some (g.(leases) !! t)) then Blocked else
  match g.(owners) !! o with
  | None => Blocked
  | Some ow =>
      match ow.(growth) with
      | None => Ret g (false, None)
      | Some gr =>
          if negb y.(ym_sameSession) then Ret g (false, Some ErrOtherSession) else
          let allocation := growAllocation target in
          if max_uint32 <? allocation then Ret g (false, Some ErrAllocationRange) else
          let session64 := allocation * 4 in
          if AggregateMaxSessionWindowBytes <? session64 then Ret g (false, Some ErrSessionMaximum) else
          if gr.(gr_closing) then Ret g (false, Some ErrSessionShutdown) else
          if negb (growthAllow g0 o) then Ret g (false, None) else
          if negb (gr.(gr_poolLimit) =? 0) && (gr.(gr_poolLimit) <? session64) then Ret g (false, None) else
          if negb y.(ym_enabled) || y.(ym_closed) then Ret g (false, Some ErrSessionShutdown) else
          if y.(ym_receiveClosed) then Ret g (false, None) else
          if y.(ym_receiveLimit) <? session64 then
            let extra := AggregateReceiveWindowMemory session64
                         - AggregateReceiveWindowMemory y.(ym_receiveLimit) in
            let '(g, ok) := growthReserve g o ow extra reserveOk t in
            if negb ok then Ret g (false, None) else
            let g := put_owner g o (set_session ow ow.(session) (Some (mkGrowth gr.(gr_session)
                       gr.(gr_closing) gr.(gr_poolLimit) (gr.(gr_releases) ++ [t])))) in
            if negb y.(ym_growSession) then Ret g (true, Some ErrYamux) else Ret g (publishStream y)
          else Ret g (publishStream y)
      end
  end.

(** ** Publication *)

Definition publish g (o : nat) (expected : option nat) (epoch : Z) (idleOnly : bool) :
    outcome (option nat * bool) :=
  match g.(owners) !! o with
  | None => Blocked
  | Some ow =>
      if g.(g_closed) || ow.(closed) || bool_decide (ow.(session) = None) then Ret g (None, false) else
      match lane_slot g ow.(lane) with
      | None => Panic
      | Some (sid, sl) =>
          let old := sl.(slot_serving) in
          let oldOwner := match old with Some x => g.(owners) !! x | None => None end in
          let stale := match oldOwner with
            | Some old => negb (old.(activity) =? epoch) || negb (old.(openingCount) =? 0)
                          || negb (bool_decide (old.(application) = ∅))
            | None => false end in
          if idleOnly && (negb (bool_decide (old = expected)) || stale) then Ret g (None, false) else
          if bool_decide (old = Some o) then Ret g (None, true) else
          let g1 := match old, oldOwner with
            | Some x, Some oldo => put_owner g x (set_state oldo LaneDraining)
            | _, _ => g end in
          Ret (put_owner (put_slot g1 sid (mkSlot sl.(slot_owners) (Some o) sl.(slot_growth)
                 sl.(slot_reserved))) o (set_state ow LaneServing)) (old, true)
      end
  end.

Definition Publish g (o : nat) : outcome (option nat * bool) := publish g o None 0 false.

(** The two critical sections of [idleObservation]; [drained] is
    [session.ReceiveOwnersDrained()], read between them. *)
Definition idleObserve g (o : nat) : outcome (Z * option nat * bool) :=
  match g.(owners) !! o with
  | None => Blocked
  | Some ow => Ret g (ow.(activity), ow.(session),
      negb g.(g_closed) && negb ow.(closed) && (ow.(openingCount) =? 0)
      && bool_decide (ow.(application) = ∅))
  end.

(** [now] and [since] are the two readings of the clock, in that order. *)
Definition idleRecord g (o : nat) (epoch : Z) (drained : bool) (now since quiet : Z) :
    outcome (Z * bool) :=
  match g.(owners) !! o with
  | None => Blocked
  | Some ow =>
      if negb drained || negb (ow.(activity) =? epoch) || g.(g_closed) || ow.(closed) then
        let a := if is_zero_time ow.(idleSince) then ow.(activity) else u64 (ow.(activity) + 1) in
        Ret (put_owner g o (set_idle ow a 0)) (0, false)
      else
        let t := if is_zero_time ow.(idleSince) then now else ow.(idleSince) in
        Ret (put_owner g o (set_idle ow ow.(activity) t)) (epoch, quiet <=? time_sub since t)
  end.

(** The first critical section of [PublishWhenIdle]: [None] is its early
    return, [Some old] the serving owner it goes on with. *)
Definition idleTarget g (o : nat) : option (option nat) :=
  match g.(owners) !! o with
  | None => None
  | Some ow =>
      match lane_slot g ow.(lane) with
      | None => None
      | Some (_, sl) => if g.(g_closed) || ow.(closed) then None else Some sl.(slot_serving)
      end
  end.

(** ** Opening streams *)

Definition BeginOpen g (o t c : nat) : outcome bool :=
  if bool_decide (is_Some (g.(opens) !! t)) || bool_decide (is_Some (g.(channels) !! c)) then Blocked else
  match g.(owners) !! o with
  | None => Blocked
  | Some ow =>
      if ow.(closed) || g.(g_closed) || negb (bool_decide (ow.(state) = LaneServing)) then Ret g false else
      let ow := touch ow in
      let '(g, ch) := if ow.(openingCount) =? 0 then (set_channels g (<[c := false]> g.(channels)), Some c)
                      else (g, ow.(openingsDone)) in
      Ret (put_owner (set_opens g (<[t := mkOpening o Opened]> g.(opens))) o
             (set_counts ow (ow.(openings) + 1) (ow.(openingCount) + 1) ch)) true
  end.

(** The body of [FinishOpen]: registration, or the reset of a stream that
    arrives after the close.  [stream] is [None] for nil. *)
Definition finishRegister g (t : nat) (stream : option nat) : outcome bool :=
  match g.(opens) !! t with
  | Some (mkOpening o Opened) =>
      match g.(owners) !! o with
      | None => Blocked
      | Some ow =>
          let g := set_opens g (<[t := mkOpening o Registered]> g.(opens)) in
          match stream with
          | None => Ret g false
          | Some st =>
              if ow.(closed) || g.(g_closed) then Ret (set_resets g ({[st]} ∪ g.(resets))) false else
              Ret (put_owner g o (set_application ow ({[st]} ∪ ow.(application)))) true
          end
      end
  | _ => Blocked
  end.

(** [close(o.openingsDone)] *)
Definition closeChannel g (ch : option nat) : option LaneOwners :=
  match ch with
  | Some c => match g.(channels) !! c with
      | Some false => Some (set_channels g (<[c := true]> g.(channels)))
      | _ => None end
  | None => None
  end.

(** The deferred critical section of [FinishOpen]. *)
Definition finishCount g (t : nat) : outcome unit :=
  match g.(opens) !! t with
  | Some (mkOpening o Registered) =>
      match g.(owners) !! o with
      | None => Blocked
      | Some ow =>
          let n := ow.(openingCount) - 1 in
          let g := put_owner (set_opens g (<[t := mkOpening o Counted]> g.(opens))) o
                     (touch (set_counts ow ow.(openings) n ow.(openingsDone))) in
          if n =? 0 then match closeChannel g ow.(openingsDone) with
            | Some g => Ret g tt | None => Panic end
          else Ret g tt
      end
  | _ => Blocked
  end.

(** [o.openings.Done()], after the mutex is released. *)
Definition finishDone g (t : nat) : outcome unit :=
  match g.(opens) !! t with
  | Some (mkOpening o Counted) =>
      match g.(owners) !! o with
      | None => Blocked
      | Some ow =>
          if ow.(openings) <=? 0 then Panic else
          Ret (put_owner (set_opens g (<[t := mkOpening o Finished]> g.(opens))) o
                 (set_counts ow (ow.(openings) - 1) ow.(openingCount) ow.(openingsDone))) tt
      end
  | _ => Blocked
  end.

(** The application's disposal callback returned by [FinishOpen]. *)
Definition dispose g (o st : nat) : outcome unit :=
  match g.(owners) !! o with
  | None => Blocked
  | Some ow => Ret (put_owner g o (touch (set_application ow (ow.(application) ∖ {[st]})))) tt
  end.

(** ** Close *)

(** First critical section of [LaneOwner.Close] and the close of the session. *)
Definition closeBegin g (o : nat) : outcome unit :=
  match g.(owners) !! o with
  | Some ow => match ow.(once) with
      | NotClosed => Ret (put_owner g o (set_closing ow true Joining)) tt
      | _ => Blocked end
  | None => Blocked
  end.

(** [openings.Wait()], then the application is taken and every stream reset. *)
Definition closeJoin g (o : nat) : outcome unit :=
  match g.(owners) !! o with
  | Some ow => match ow.(once) with
      | Joining =>
          if negb (ow.(openings) =? 0) then Blocked else
          Ret (set_resets (put_owner g o (set_closing (set_application ow ∅) ow.(closed) Resetting))
                 (ow.(application) ∪ g.(resets))) tt
      | _ => Blocked end
  | None => Blocked
  end.

(** The critical section of [growth.Release]; a nil growth returns at once. *)
Definition releaseGrowth g (o : nat) : outcome unit :=
  match g.(owners) !! o with
  | Some ow => match ow.(once) with
      | Resetting => match ow.(growth) with
          | None => Ret (put_owner g o (set_closing ow ow.(closed) (Refunding []))) tt
          | Some gr => Ret (put_owner g o (set_closing (set_session ow ow.(session)
              (Some (mkGrowth gr.(gr_session) true gr.(gr_poolLimit) [])))
              ow.(closed) (Refunding gr.(gr_releases)))) tt
          end
      | _ => Blocked end
  | None => Blocked
  end.

(** A release callback: the endpoint's release... *)
Definition leaseReturn g (o : nat) : outcome unit :=
  match g.(owners) !! o with
  | Some ow => match ow.(once) with
      | Refunding (t :: _) => match g.(leases) !! t with
          | Some (mkLease sid o' b false) =>
              Ret (set_ledger g g.(g_growth) (<[t := mkLease sid o' b true]> g.(leases))) tt
          | _ => Blocked end
      | _ => Blocked end
  | None => Blocked
  end.

(** ... then the subtraction from the captured slot and from the group. *)
Definition leaseSettle g (o : nat) : outcome unit :=
  match g.(owners) !! o with
  | Some ow => match ow.(once) with
      | Refunding (t :: rest) => match g.(leases) !! t with
          | Some (mkLease sid _ b true) => match g.(slots) !! sid with
              | None => Panic
              | Some sl =>
                  Ret (put_owner (set_ledger (put_slot g sid (mkSlot sl.(slot_owners) sl.(slot_serving)
                    (sl.(slot_growth) - b) sl.(slot_reserved))) (g.(g_growth) - b)
                    (delete t g.(leases))) o (set_closing ow ow.(closed) (Refunding rest))) tt
              end
          | _ => Blocked end
      | _ => Blocked end
  | None => Blocked
  end.

(** The last critical section: the owner leaves its slot; the last one takes
    the lane with it and leaves with the slot's baseline release. *)
Definition closeRemove g (o : nat) : outcome unit :=
  match g.(owners) !! o with
  | Some ow => match ow.(once) with
      | Refunding [] => match lane_slot g ow.(lane) with
          | None => Panic
          | Some (sid, sl) =>
              let rest := sl.(slot_owners) ∖ {[o]} in
              let sl' := mkSlot rest
                (if bool_decide (sl.(slot_serving) = Some o) then None else sl.(slot_serving))
                sl.(slot_growth) sl.(slot_reserved) in
              let g1 := put_owner (put_slot g sid sl') o (set_closing ow ow.(closed) Gone) in
              Ret (if bool_decide (rest = ∅)
                   then set_lanes g1 (delete ow.(lane) g1.(g_lanes)) g1.(base) ({[sid]} ∪ g1.(refunds))
                   else g1) tt
          end
      | _ => Blocked end
  | None => Blocked
  end.

(** [release()], after the mutex is released. *)
Definition baseRelease g (sid : nat) : outcome unit :=
  if bool_decide (sid ∈ g.(refunds))
  then Ret (set_lanes g g.(g_lanes) (g.(base) ∖ {[sid]}) (g.(refunds) ∖ {[sid]})) tt
  else Blocked.

Definition ownerOn g (o : nat) : bool :=
  match g.(owners) !! o with
  | Some ow => match lane_slot g ow.(lane) with
      | Some (_, sl) => bool_decide (o ∈ sl.(slot_owners)) | None => false end
  | None => false
  end.

(** [iter] is the order of the two nested ranges. *)
Definition Snapshot g (iter : list nat) : list nat := filter (λ o, ownerOn g o = true) iter.

(** [LaneOwners.Close] fences the group and takes the owners it will close. *)
Definition CloseFence g (iter : list nat) : outcome (list nat) :=
  Ret (mkGroup true g.(g_lanes) g.(g_growth) g.(slots) g.(owners) g.(channels) g.(opens)
         g.(leases) g.(base) g.(refunds) g.(resets)) (Snapshot g iter).

(** ** Queries *)

Definition Find g (s : option nat) (iter : list nat) : option nat :=
  match s with
  | None => None
  | Some _ => head (filter (λ o, match g.(owners) !! o with
      | Some ow => bool_decide (ow.(session) = s) | None => false end = true) (Snapshot g iter))
  end.

Definition State g (o : nat) : option LaneOwnerState := state <$> g.(owners) !! o.
Definition Session g (o : nat) : option nat := g.(owners) !! o ≫= session.
Definition GrowthOf g (o : nat) : option AggregateReceiveWindowGrowth := g.(owners) !! o ≫= growth.

Definition ReservedBytes g : Z :=
  i64 (g.(g_growth) + msum ((λ sid, default 0 (slot_reserved <$> g.(slots) !! sid)) <$> g.(g_lanes))).

Definition ReservedBaselineBytes g (o : nat) : Z :=
  match g.(owners) !! o with
  | Some ow => match lane_slot g ow.(lane) with Some (_, sl) => sl.(slot_reserved) | None => 0 end
  | None => 0
  end.

(** [drained] is [session.ReceiveOwnersDrained()]. *)
Definition Quiescent g (o : nat) (drained : bool) : bool :=
  match g.(owners) !! o with
  | Some ow => (ow.(openingCount) =? 0) && bool_decide (ow.(application) = ∅)
      && bool_decide (is_Some ow.(session)) && drained
  | None => false
  end.

Definition Predecessor g (l : Z) (id : string) (iter : list nat) : option nat :=
  match lane_slot g l with
  | None => None
  | Some (_, sl) => match sl.(slot_serving) with
      | Some so => match g.(owners) !! so with
          | Some ow => if String.eqb ow.(ID) id then Some so else None
          | None => None end
      | None => head (filter (λ o, match g.(owners) !! o with
          | Some ow => String.eqb ow.(ID) id && bool_decide (ow.(state) = LaneDraining)
                       && negb ow.(closed)
          | None => false end = true) (filter (λ o, o ∈ sl.(slot_owners)) iter))
      end
  end.

(** The critical section of [AcknowledgeOpeningFence]: [None] is
    [ErrLaneOwnerUnavailable], otherwise [pending] and the channel. *)
Definition fenceCapture g (o : nat) : option (bool * option nat) :=
  match g.(owners) !! o with
  | None => None
  | Some ow =>
      if negb (bool_decide (ow.(state) = LaneDraining)) then None else
      if bool_decide (ow.(session) = None) then None else
      Some (negb (ow.(openingCount) =? 0), ow.(openingsDone))
  end.

(** [<-done] can be received; a nil channel never can. *)
Definition doneReady g (done : option nat) : bool :=
  match done with
  | None => false
  | Some c => bool_decide (g.(channels) !! c = Some true)
  end.

(** The case of the select that fires. *)
Inductive fenceEvent := FenceDone | FenceContextDone | FenceSessionClosed.
Inductive fenceError := FenceUnavailable | FenceContext | FenceShutdown | FencePing.

(** The call captures in [g0] and leaves its wait in [g1]; [ctxErr] is
    [ctx.Err() != nil] after the wait and [pingOk] the answer of the Ping.  The
    outer [None]: the select has no such case ready. *)
Definition AcknowledgeOpeningFence g0 g1 (o : nat) (event : fenceEvent) (ctxErr pingOk : bool) :
    option (option fenceError) :=
  match fenceCapture g0 o with
  | None => Some (Some FenceUnavailable)
  | Some (pending, done) =>
      let after := if ctxErr then Some (Some FenceContext)
                   else if pingOk then Some None else Some (Some FencePing) in
      if negb pending then after else
      match event with
      | FenceDone => if doneReady g1 done then after else None
      | FenceContextDone => Some (Some FenceContext)
      | FenceSessionClosed => Some (Some FenceShutdown)
      end
  end.

(** ** Interleavings *)

Inductive lstep : LaneOwners → LaneOwners → Prop :=
  | step_acquire g l id repl res ok sid o g' r :
      Acquire g l id repl res ok sid o = Ret g' r → lstep g g'
  | step_attach g o s aggr g' r : Attach g o s aggr = Ret g' r → lstep g g'
  | step_grow g0 g o target y ok t g' r : Grow g0 g o target y ok t = Ret g' r → lstep g g'
  | step_publish g o expected epoch idle g' r :
      publish g o expected epoch idle = Ret g' r → lstep g g'
  | step_idle g o epoch drained now since quiet g' r :
      idleRecord g o epoch drained now since quiet = Ret g' r → lstep g g'
  | step_begin_open g o t c g' r : BeginOpen g o t c = Ret g' r → lstep g g'
  | step_register g t st g' r : finishRegister g t st = Ret g' r → lstep g g'
  | step_count g t g' r : finishCount g t = Ret g' r → lstep g g'
  | step_done g t g' r : finishDone g t = Ret g' r → lstep g g'
  | step_dispose g o st g' r : dispose g o st = Ret g' r → lstep g g'
  | step_close_begin g o g' r : closeBegin g o = Ret g' r → lstep g g'
  | step_close_join g o g' r : closeJoin g o = Ret g' r → lstep g g'
  | step_release_growth g o g' r : releaseGrowth g o = Ret g' r → lstep g g'
  | step_lease_return g o g' r : leaseReturn g o = Ret g' r → lstep g g'
  | step_lease_settle g o g' r : leaseSettle g o = Ret g' r → lstep g g'
  | step_close_remove g o g' r : closeRemove g o = Ret g' r → lstep g g'
  | step_base_release g sid g' r : baseRelease g sid = Ret g' r → lstep g g'
  | step_close_fence g iter g' r : CloseFence g iter = Ret g' r → lstep g g'.

Definition reachable (g : LaneOwners) : Prop := rtc lstep emptyGroup g.

(** [PublishWhenIdle] with whatever runs between its critical sections; the
    index counts the steps from the observation of the serving owner to the
    publication ([idleRecord] included). [drained] answers
    [session.ReceiveOwnersDrained()]. *)
Inductive PublishWhenIdle (o : nat) (quiet : Z) : nat → LaneOwners → LaneOwners → option nat * bool → Prop :=
  | idle_unavailable g : idleTarget g o = None → PublishWhenIdle o quiet 0 g g (None, false)
  | idle_unserved g g1 g2 r : idleTarget g o = Some None → rtc lstep g g1 →
      publish g1 o None 0 true = Ret g2 r → PublishWhenIdle o quiet 0 g g2 r
  | idle_busy g old ga gb gc n epoch s empty drained now since e :
      idleTarget g o = Some (Some old) → rtc lstep g ga →
      idleObserve ga old = Ret ga (epoch, s, empty) → nsteps lstep n ga gb →
      idleRecord gb old epoch (empty && bool_decide (is_Some s) && drained) now since quiet
        = Ret gc (e, false) →
      PublishWhenIdle o quiet (S n) g gc (None, false)
  | idle_publish g old ga gb gc gd g' n1 n2 epoch s empty drained now since e r :
      idleTarget g o = Some (Some old) → rtc lstep g ga →
      idleObserve ga old = Ret ga (epoch, s, empty) → nsteps lstep n1 ga gb →
      idleRecord gb old epoch (empty && bool_decide (is_Some s) && drained) now since quiet
        = Ret gc (e, true) →
      nsteps lstep n2 gc gd → publish gd o (Some old) e true = Ret g' r →
      PublishWhenIdle o quiet (n1 + S n2) g g' r.

(** ** LaneOwner.Close as one call *)

Definition obind {A B} (x : outcome A) (f : LaneOwners → outcome B) : outcome B :=
  match x with Ret g _ => f g | Blocked => Blocked | Panic => Panic end.

(** [for _, release := range releases { release() }]; structural in the number
    of callbacks left. *)
Fixpoint runReleases (n : nat) g (o : nat) : outcome unit :=
  match n with
  | O => Ret g tt
  | S n => obind (leaseReturn g o) (λ g, obind (leaseSettle g o) (λ g, runReleases n g o))
  end.

Definition releasesLeft g (o : nat) : nat :=
  match g.(owners) !! o with
  | Some ow => match ow.(once) with Refunding rest => length rest | _ => O end
  | None => O
  end.

(** The slot whose baseline release [closeRemove] left to its caller. *)
Definition baseDue g g' (o : nat) : option nat :=
  match g.(owners) !! o with
  | Some ow => match g.(g_lanes) !! ow.(lane) with
      | Some sid => if bool_decide (sid ∈ g'.(refunds)) then Some sid else None
      | None => None end
  | None => None
  end.

(** [LaneOwner.Close] with nothing interleaved, from the first call on. *)
Definition Close g (o : nat) : outcome unit :=
  obind (closeBegin g o) (λ g,
  obind (closeJoin g o) (λ g,
  obind (releaseGrowth g o) (λ g,
  obind (runReleases (releasesLeft g o) g o) (λ g,
  obind (closeRemove g o) (λ g',
  match baseDue g g' o with
  | Some sid => baseRelease g' sid
  | None => Ret g' tt
  end))))).

(** [LaneOwners.Close] with nothing interleaved: the fence, then every owner. *)
Fixpoint closeEach g (os : list nat) : outcome unit :=
  match os with
  | [] => Ret g tt
  | o :: os => obind (Close g o) (λ g, closeEach g os)
  end.

Definition CloseGroup g (iter : list nat) : outcome unit :=
  match CloseFence g iter with
  | Ret g os => closeEach g os
  | Blocked => Blocked
  | Panic => Panic
  end.

End LaneOwners.
