(* ===== verification/LaneOwnersInv.v ===== *)
(** Invariants of lane ownership: the registry of lanes, slots and owners, the
    accounting of pending opens, and the ledger of growth leases.  Each is
    stated on the part of the state it depends on (the views below), so that a
    step that leaves its view alone preserves it by rewriting. *)

From S2P Require Import Prelude.
From S2P Require Import LaneOwners.

Module LaneOwnersInv.
Import LaneOwners.

(** ** Registry *)

Definition isGone (p : closePhase) : bool := match p with Gone => true | _ => false end.

Definition slotView (sl : laneOwnerSlot) : gset nat * option nat * Z :=
  (sl.(slot_owners), sl.(slot_serving), sl.(slot_reserved)).
Definition ownerView (ow : LaneOwner) : Z * LaneOwnerState * bool :=
  (ow.(lane), ow.(state), isGone ow.(once)).

Record registry (L : gmap Z nat) (S : gmap nat (gset nat * option nat * Z))
    (O : gmap nat (Z * LaneOwnerState * bool)) (B R : gset nat) : Prop := {
  reg_lane : ∀ l sid, L !! l = Some sid → ∃ os sv r, S !! sid = Some (os, sv, r) ∧
    os ≠ ∅ ∧ (size os ≤ 2)%nat ∧ 0 ≤ r ∧ 0 ≤ l ≤ MaxParallelTunnels;
  reg_in : ∀ l sid os sv r o, L !! l = Some sid → S !! sid = Some (os, sv, r) → o ∈ os →
    ∃ st, O !! o = Some (l, st, false);
  reg_out : ∀ o l st, O !! o = Some (l, st, false) → ∃ sid os sv r,
    L !! l = Some sid ∧ S !! sid = Some (os, sv, r) ∧ o ∈ os;
  reg_serving : ∀ l sid os sv r o, L !! l = Some sid → S !! sid = Some (os, sv, r) →
    sv = Some o ↔ O !! o = Some (l, LaneServing, false);
  reg_base : ∀ sid, sid ∈ B ↔ (∃ l, L !! l = Some sid) ∨ sid ∈ R;
  reg_due : ∀ l sid, L !! l = Some sid → sid ∉ R;
  reg_dom : ∀ sid, sid ∈ B → is_Some (S !! sid);
}.

Lemma registry_injective L S O B R l1 l2 sid :
  registry L S O B R → L !! l1 = Some sid → L !! l2 = Some sid → l1 = l2.
Proof.
  intros HI H1 H2. destruct (reg_lane _ _ _ _ _ HI _ _ H1) as (os & sv & r & HS & Hne & _).
  apply set_choose_L in Hne as [o Ho].
  destruct (reg_in _ _ _ _ _ HI _ _ _ _ _ _ H1 HS Ho) as [st1 E1].
  destruct (reg_in _ _ _ _ _ HI _ _ _ _ _ _ H2 HS Ho) as [st2 E2]. congruence.
Qed.

(** Case analysis on the lookups in updated maps. *)
Ltac lk H := first
  [ apply lookup_insert_Some in H as [[? ?]|[? H]]
  | apply lookup_delete_Some in H as [? H] ]; simplify_eq.

Lemma registry_empty : registry ∅ ∅ ∅ ∅ ∅.
Proof. split; intros *; rewrite ?lookup_empty; try done; set_solver. Qed.

Lemma registry_new L S O B R l sid o r :
  L !! l = None → S !! sid = None → O !! o = None → 0 ≤ r → 0 ≤ l ≤ MaxParallelTunnels →
  registry L S O B R →
  registry (<[l := sid]> L) (<[sid := ({[o]}, None, r)]> S)
    (<[o := (l, LaneReplacement, false)]> O) ({[sid]} ∪ B) R.
Proof.
  intros HL HS HO Hr Hl HI.
  assert (Hfresh : ∀ l', L !! l' ≠ Some sid).
  { intros l' E. destruct (reg_lane _ _ _ _ _ HI _ _ E) as (? & ? & ? & ? & _). congruence. }
  assert (HfR : sid ∉ R).
  { intros E. destruct (reg_dom _ _ _ _ _ HI sid) as [? ?]; [|congruence].
    apply (reg_base _ _ _ _ _ HI). auto. }
  split.
  - intros l' sid' E. lk E.
    + exists {[o]}, None, r. rewrite lookup_insert_eq, size_singleton. set_solver by lia.
    + rewrite lookup_insert_ne by (intros ->; eapply Hfresh; eauto). eapply reg_lane; eauto.
  - intros l' sid' os sv r' o' E1 E2 Ho. lk E1; lk E2.
    + apply elem_of_singleton in Ho as ->. rewrite lookup_insert_eq. eauto.
    + exfalso; eapply Hfresh; eauto.
    + destruct (reg_in _ _ _ _ _ HI _ _ _ _ _ _ E1 E2 Ho) as [st Est].
      exists st. rewrite lookup_insert_ne; [done|congruence].
  - intros o' l' st E. lk E.
    + exists sid, {[o']}, None, r. rewrite !lookup_insert_eq. set_solver.
    + destruct (reg_out _ _ _ _ _ HI _ _ _ E) as (sid' & os & sv & r' & E1 & E2 & E3).
      exists sid', os, sv, r'. rewrite !lookup_insert_ne; [done| |]; congruence.
  - intros l' sid' os sv r' o' E1 E2. lk E1; lk E2.
    + split; [done|]. intros E. lk E. destruct (reg_out _ _ _ _ _ HI _ _ _ E) as
        (? & ? & ? & ? & ? & _). congruence.
    + exfalso; eapply Hfresh; eauto.
    + rewrite (reg_serving _ _ _ _ _ HI _ _ _ _ _ o' E1 E2). split; intros E.
      * rewrite lookup_insert_ne; [done|congruence].
      * lk E; done.
  - intros sid'. rewrite elem_of_union, elem_of_singleton, (reg_base _ _ _ _ _ HI). split.
    + intros [->|[[l' E]|?]]; [left; exists l; by rewrite lookup_insert_eq| |by right].
      left. exists l'. rewrite lookup_insert_ne; [done|congruence].
    + intros [[l' E]|?]; [lk E; eauto|auto].
  - intros l' sid' E. lk E; [done|]. eapply reg_due; eauto.
  - intros sid' E. destruct (decide (sid' = sid)) as [->|Hne]; [rewrite lookup_insert_eq; eauto|].
    rewrite lookup_insert_ne by done. apply (reg_dom _ _ _ _ _ HI). set_solver.
Qed.

Lemma registry_join L S O B R l sid os sv r o :
  L !! l = Some sid → S !! sid = Some (os, sv, r) → O !! o = None → (size os < 2)%nat →
  registry L S O B R →
  registry L (<[sid := ({[o]} ∪ os, sv, r)]> S) (<[o := (l, LaneReplacement, false)]> O) B R.
Proof.
  intros HL HS HO Hsz HI.
  assert (Ho : o ∉ os).
  { intros Ho. destruct (reg_in _ _ _ _ _ HI _ _ _ _ _ _ HL HS Ho). congruence. }
  split.
  - intros l' sid' E. destruct (reg_lane _ _ _ _ _ HI _ _ E) as (os' & sv' & r' & E' & ? & ? & ? & ?).
    destruct (decide (sid' = sid)) as [->|Hne].
    + simplify_eq. exists ({[o]} ∪ os), sv, r. rewrite lookup_insert_eq.
      rewrite size_union, size_singleton by set_solver. set_solver by lia.
    + rewrite lookup_insert_ne by done. eauto 10.
  - intros l' sid' os' sv' r' o' E1 E2 Ho'. lk E2.
    + rewrite <- (registry_injective _ _ _ _ _ l l' _ HI HL E1).
      apply elem_of_union in Ho' as [->%elem_of_singleton|Ho']; [rewrite lookup_insert_eq; eauto|].
      rewrite lookup_insert_ne by set_solver. eapply reg_in; eauto.
    + destruct (reg_in _ _ _ _ _ HI _ _ _ _ _ _ E1 E2 Ho') as [st Est].
      exists st. rewrite lookup_insert_ne; [done|congruence].
  - intros o' l' st E. lk E.
    + exists sid, ({[o']} ∪ os), sv, r. rewrite lookup_insert_eq. set_solver.
    + destruct (reg_out _ _ _ _ _ HI _ _ _ E) as (sid' & os' & sv' & r' & E1 & E2 & E3).
      destruct (decide (sid' = sid)) as [->|Hne].
      * simplify_eq. exists sid, ({[o]} ∪ os), sv, r. rewrite lookup_insert_eq. set_solver.
      * exists sid', os', sv', r'. rewrite lookup_insert_ne by done. done.
  - intros l' sid' os' sv' r' o' E1 E2.
    assert (HO' : O !! o' = Some (l', LaneServing, false) ↔
      <[o:=(l, LaneReplacement, false)]> O !! o' = Some (l', LaneServing, false)).
    { destruct (decide (o' = o)) as [->|]; [rewrite lookup_insert_eq, HO; naive_solver|].
      by rewrite lookup_insert_ne. }
    rewrite <- HO'. lk E2; eapply reg_serving; eauto.
  - apply (reg_base _ _ _ _ _ HI).
  - apply (reg_due _ _ _ _ _ HI).
  - intros sid' E. destruct (decide (sid' = sid)) as [->|Hne]; [rewrite lookup_insert_eq; eauto|].
    rewrite lookup_insert_ne by done. by apply (reg_dom _ _ _ _ _ HI).
Qed.

(** Only the states of two owners of one slot change. *)
Definition demote (O : gmap nat (Z * LaneOwnerState * bool)) (l : Z) (sv : option nat) :=
  match sv with Some x => <[x := (l, LaneDraining, false)]> O | None => O end.

Lemma registry_publish L S O B R l sid os sv r o st :
  L !! l = Some sid → S !! sid = Some (os, sv, r) → O !! o = Some (l, st, false) →
  sv ≠ Some o → registry L S O B R →
  registry L (<[sid := (os, Some o, r)]> S) (<[o := (l, LaneServing, false)]> (demote O l sv)) B R.
Proof.
  intros HL HS HO Hsv HI.
  assert (Hx : ∀ x, sv = Some x → O !! x = Some (l, LaneServing, false)).
  { intros x E. by apply (reg_serving _ _ _ _ _ HI _ _ _ _ _ x HL HS). }
  set (O' := <[o := (l, LaneServing, false)]> (demote O l sv)).
  assert (Hdom : ∀ o' l', (∃ st', O' !! o' = Some (l', st', false)) ↔ ∃ st', O !! o' = Some (l', st', false)).
  { intros o' l'. unfold O', demote. destruct (decide (o' = o)) as [->|].
    - rewrite lookup_insert_eq, HO. naive_solver.
    - rewrite lookup_insert_ne by done. destruct sv as [x|]; [|done].
      destruct (decide (o' = x)) as [->|]; [|by rewrite lookup_insert_ne].
      rewrite lookup_insert_eq, (Hx x) by done. naive_solver. }
  assert (Hserv : ∀ o' l', O' !! o' = Some (l', LaneServing, false) ↔
      (o' = o ∧ l' = l) ∨ (o' ≠ o ∧ sv ≠ Some o' ∧ O !! o' = Some (l', LaneServing, false))).
  { intros o' l'. unfold O', demote. destruct (decide (o' = o)) as [->|].
    - rewrite lookup_insert_eq. naive_solver.
    - rewrite lookup_insert_ne by done. destruct sv as [x|]; [|naive_solver].
      destruct (decide (o' = x)) as [->|]; [rewrite lookup_insert_eq|rewrite lookup_insert_ne by done];
        naive_solver. }
  split; [| | | |apply (reg_base _ _ _ _ _ HI)|apply (reg_due _ _ _ _ _ HI)|].
  - intros l' sid' E. destruct (reg_lane _ _ _ _ _ HI _ _ E) as (os' & sv' & r' & E' & ? & ? & ? & ?).
    destruct (decide (sid' = sid)) as [->|Hne].
    + simplify_eq. exists os, (Some o), r. by rewrite lookup_insert_eq.
    + rewrite lookup_insert_ne by done. eauto 10.
  - intros l' sid' os' sv' r' o' E1 E2 Ho'. apply Hdom. lk E2; eapply reg_in; eauto.
  - intros o' l' st' E. destruct (proj1 (Hdom o' l')) as [st'' E'']; [eauto|].
    destruct (reg_out _ _ _ _ _ HI _ _ _ E'') as (sid' & os' & sv' & r' & E1 & E2 & E3).
    destruct (decide (sid' = sid)) as [->|Hne].
    + simplify_eq. exists sid, os, (Some o), r. by rewrite lookup_insert_eq.
    + exists sid', os', sv', r'. by rewrite lookup_insert_ne.
  - intros l' sid' os' sv' r' o' E1 E2. rewrite Hserv. lk E2.
    + rewrite <- (registry_injective _ _ _ _ _ l l' _ HI HL E1). split; [naive_solver|].
      intros [[-> _]|(? & Hn & E)]; [done|]. exfalso. apply Hn.
      by apply (reg_serving _ _ _ _ _ HI _ _ _ _ _ o' HL HS).
    + rewrite (reg_serving _ _ _ _ _ HI _ _ _ _ _ o' E1 E2). split.
      * intros E. right. split; [|split; [|done]].
        -- intros ->. assert (l = l') as <- by congruence. congruence.
        -- intros ->. specialize (Hx o' eq_refl). assert (l = l') as <- by congruence. congruence.
      * intros [[-> ->]|(_ & _ & ?)]; [congruence|done].
  - intros sid' E. destruct (decide (sid' = sid)) as [->|Hne]; [rewrite lookup_insert_eq; eauto|].
    rewrite lookup_insert_ne by done. by apply (reg_dom _ _ _ _ _ HI).
Qed.

(** The owners left after one of them is gone. *)
Lemma gone_lookup (O : gmap nat (Z * LaneOwnerState * bool)) o l st o' v :
  <[o := (l, st, true)]> O !! o' = Some (v, false) ↔ o' ≠ o ∧ O !! o' = Some (v, false).
Proof.
  destruct (decide (o' = o)) as [->|]; [rewrite lookup_insert_eq|rewrite lookup_insert_ne by done];
    naive_solver.
Qed.

Lemma registry_remove L S O B R l sid os sv r o st :
  L !! l = Some sid → S !! sid = Some (os, sv, r) → O !! o = Some (l, st, false) →
  os ∖ {[o]} ≠ ∅ → registry L S O B R →
  registry L (<[sid := (os ∖ {[o]}, if bool_decide (sv = Some o) then None else sv, r)]> S)
    (<[o := (l, st, true)]> O) B R.
Proof.
  intros HL HS HO Hne HI.
  split; [| | | |apply (reg_base _ _ _ _ _ HI)|apply (reg_due _ _ _ _ _ HI)|].
  - intros l' sid' E. destruct (reg_lane _ _ _ _ _ HI _ _ E) as (os' & sv' & r' & E' & ? & ? & ? & ?).
    destruct (decide (sid' = sid)) as [->|].
    + simplify_eq. eexists _, _, r. rewrite lookup_insert_eq. split; [done|]. split; [done|].
      split; [|done]. trans (size os); [|done]. apply subseteq_size. set_solver.
    + rewrite lookup_insert_ne by done. eauto 10.
  - intros l' sid' os' sv' r' o' E1 E2 Ho'. lk E2.
    + destruct (reg_in _ _ _ _ _ HI _ _ _ _ _ o' E1 HS) as [st' E]; [set_solver|].
      exists st'. apply gone_lookup. set_solver.
    + destruct (reg_in _ _ _ _ _ HI _ _ _ _ _ o' E1 E2) as [st' E]; [done|].
      exists st'. apply gone_lookup. split; [|done]. intros ->.
      assert (l = l') as <- by congruence. congruence.
  - intros o' l' st' [Hn E]%gone_lookup.
    destruct (reg_out _ _ _ _ _ HI _ _ _ E) as (sid' & os' & sv' & r' & E1 & E2 & E3).
    destruct (decide (sid' = sid)) as [->|].
    + simplify_eq. eexists sid, _, _, r. rewrite lookup_insert_eq. split_and!; [done|done|set_solver].
    + exists sid', os', sv', r'. by rewrite lookup_insert_ne.
  - intros l' sid' os' sv' r' o' E1 E2. rewrite gone_lookup. lk E2.
    + rewrite <- (reg_serving _ _ _ _ _ HI _ _ _ _ _ o' E1 HS). case_bool_decide; naive_solver.
    + rewrite (reg_serving _ _ _ _ _ HI _ _ _ _ _ o' E1 E2). split; [|naive_solver]. intros E.
      split; [|done]. intros ->. assert (l = l') as <- by congruence. congruence.
  - intros sid' E. destruct (decide (sid' = sid)) as [->|]; [rewrite lookup_insert_eq; eauto|].
    rewrite lookup_insert_ne by done. by apply (reg_dom _ _ _ _ _ HI).
Qed.

Lemma registry_remove_last L S O B R l sid os sv r o st v :
  L !! l = Some sid → S !! sid = Some (os, sv, r) → O !! o = Some (l, st, false) →
  os ∖ {[o]} = ∅ → registry L S O B R →
  registry (delete l L) (<[sid := v]> S) (<[o := (l, st, true)]> O) B ({[sid]} ∪ R).
Proof.
  intros HL HS HO Hempty HI.
  assert (Hother : ∀ l' sid', L !! l' = Some sid' → l ≠ l' → sid' ≠ sid).
  { intros l' sid' E Hn ->. by apply Hn, (registry_injective _ _ _ _ _ l l' sid HI). }
  assert (Hone : ∀ o' st', O !! o' = Some (l, st', false) → o' = o).
  { intros o' st' E. destruct (reg_out _ _ _ _ _ HI _ _ _ E) as (sid' & os' & sv' & r' & E1 & E2 & Ho).
    rewrite HL in E1. injection E1 as <-. rewrite HS in E2. injection E2 as <- <- <-.
    clear - Hempty Ho. destruct (decide (o' = o)); [done|].
    assert (o' ∈ os ∖ {[o]}) as Hx by set_solver. rewrite Hempty in Hx. set_solver. }
  split.
  - intros l' sid' E. lk E. rewrite lookup_insert_ne by (by apply not_eq_sym; eauto).
    by apply (reg_lane _ _ _ _ _ HI).
  - intros l' sid' os' sv' r' o' E1 E2 Ho'. lk E1. pose proof (Hother _ _ E1 ltac:(done)).
    rewrite lookup_insert_ne in E2 by done.
    destruct (reg_in _ _ _ _ _ HI _ _ _ _ _ o' E1 E2 Ho') as [st' E].
    exists st'. apply gone_lookup. split; [congruence|done].
  - intros o' l' st' [Hn E]%gone_lookup.
    destruct (reg_out _ _ _ _ _ HI _ _ _ E) as (sid' & os' & sv' & r' & E1 & E2 & E3).
    assert (l ≠ l') by (intros ->; eauto).
    exists sid', os', sv', r'. rewrite lookup_delete_ne, lookup_insert_ne; [done| |done].
    by apply not_eq_sym; eauto.
  - intros l' sid' os' sv' r' o' E1 E2. lk E1. pose proof (Hother _ _ E1 ltac:(done)).
    rewrite lookup_insert_ne in E2 by done.
    rewrite gone_lookup, (reg_serving _ _ _ _ _ HI _ _ _ _ _ o' E1 E2). split; [|naive_solver].
    intros E. split; [congruence|done].
  - intros sid'. rewrite (reg_base _ _ _ _ _ HI), elem_of_union, elem_of_singleton. split.
    + intros [[l' E]|?]; [|auto]. destruct (decide (l = l')) as [<-|];
        [right; left; congruence|]. left. exists l'. by rewrite lookup_delete_ne.
    + intros [[l' E]|[->|?]]; [lk E; eauto|eauto|auto].
  - intros l' sid' E. lk E. pose proof (Hother _ _ E ltac:(done)).
    pose proof (reg_due _ _ _ _ _ HI _ _ E). set_solver.
  - intros sid' E. destruct (decide (sid' = sid)) as [->|]; [rewrite lookup_insert_eq; eauto|].
    rewrite lookup_insert_ne by done. by apply (reg_dom _ _ _ _ _ HI).
Qed.

Lemma registry_refund L S O B R sid :
  sid ∈ R → registry L S O B R → registry L S O (B ∖ {[sid]}) (R ∖ {[sid]}).
Proof.
  intros Hin HI. split; try apply HI.
  - intros sid'. rewrite !elem_of_difference, (reg_base _ _ _ _ _ HI), elem_of_singleton.
    split; [naive_solver|]. intros [[l E]|[]]; [|naive_solver]. split; [eauto|]. intros ->.
    by apply (reg_due _ _ _ _ _ HI _ _ E).
  - intros l sid' E. pose proof (reg_due _ _ _ _ _ HI _ _ E). set_solver.
  - intros sid' E. apply (reg_dom _ _ _ _ _ HI). set_solver.
Qed.

(** ** Pending opens *)

(** Past the join: the opens are finished and the application is taken. *)
Definition isLate (p : closePhase) : bool := match p with NotClosed | Joining => false | _ => true end.

Definition countView (ow : LaneOwner) : Z * Z * option nat * bool * gset nat :=
  (ow.(openings), ow.(openingCount), ow.(openingsDone), isLate ow.(once), ow.(application)).

(** What an opening weighs in the WaitGroup and in [openingCount]. *)
Definition waits (p : openPhase) : Z := match p with Finished => 0 | _ => 1 end.
Definition counts (p : openPhase) : Z := match p with Opened | Registered => 1 | _ => 0 end.

Definition total (w : openPhase → Z) (T : gmap nat opening) (o : nat) : Z :=
  msum ((λ op, if decide (op.(op_owner) = o) then w op.(op_phase) else 0) <$> T).

Lemma total_update w T t o p o' :
  (∀ op, T !! t = Some op → op_owner op = o) →
  total w (<[t := mkOpening o p]> T) o' =
  total w T o' + (if decide (o = o') then w p - default 0 (w ∘ op_phase <$> T !! t) else 0).
Proof.
  intros Ho. unfold total. rewrite fmap_insert, msum_insert, lookup_fmap.
  destruct (T !! t) as [op|] eqn:E; simpl.
  - rewrite (Ho op eq_refl). destruct (decide (o = o')); lia.
  - destruct (decide (o = o')); lia.
Qed.

Lemma total_nonneg w T o : (∀ q, 0 ≤ w q) → 0 ≤ total w T o.
Proof.
  intros Hw. apply msum_nonneg. intros i z E. apply lookup_fmap_Some in E as (op & <- & _).
  case_decide; [apply Hw|lia].
Qed.

Lemma total_pos w T t o p :
  (∀ q, 0 ≤ w q) → T !! t = Some (mkOpening o p) → w p ≤ total w T o.
Proof.
  intros Hw E. unfold total. apply (msum_lookup_le _ t).
  - intros i x. rewrite lookup_fmap. destruct (T !! i) as [op|]; simpl; [|done].
    intros [= <-]. destruct (decide _); [auto|lia].
  - rewrite lookup_fmap, E. simpl. by rewrite decide_True.
Qed.

Lemma total_two w T t1 t2 o p1 p2 :
  (∀ q, 0 ≤ w q) → T !! t1 = Some (mkOpening o p1) → T !! t2 = Some (mkOpening o p2) → t2 ≠ t1 →
  w p1 + w p2 ≤ total w T o.
Proof.
  intros Hw E1 E2 Hne. rewrite <- (insert_delete_id T t1 _ E1).
  rewrite total_update by (rewrite lookup_delete_eq; naive_solver).
  rewrite lookup_delete_eq, decide_True by done. simpl.
  pose proof (total_pos w (delete t1 T) t2 o p2 Hw). rewrite lookup_delete_ne in H by done.
  specialize (H E2). lia.
Qed.

Lemma total_none w T o : (∀ t op, T !! t = Some op → op_owner op ≠ o) → total w T o = 0.
Proof.
  unfold total. induction T as [|t op T Ht IH] using map_ind; intros H; [done|].
  rewrite fmap_insert, msum_insert_fresh by (by rewrite lookup_fmap, Ht).
  rewrite decide_False by (eapply (H t), lookup_insert_eq). rewrite IH; [done|].
  intros t' op' E. apply (H t'). rewrite lookup_insert_ne; [done|congruence].
Qed.

Lemma waits_nonneg p : 0 ≤ waits p.
Proof. destruct p; simpl; lia. Qed.
Lemma counts_nonneg p : 0 ≤ counts p.
Proof. destruct p; simpl; lia. Qed.
#[local] Hint Resolve waits_nonneg counts_nonneg : core.

Record accounting (T : gmap nat opening) (C : gmap nat bool)
    (O : gmap nat (Z * Z * option nat * bool * gset nat)) : Prop := {
  acc_total : ∀ o w n ch late app, O !! o = Some (w, n, ch, late, app) →
    w = total waits T o ∧ n = total counts T o;
  acc_dom : ∀ t op, T !! t = Some op → is_Some (O !! op.(op_owner));
  acc_open : ∀ o w n ch late app, O !! o = Some (w, n, ch, late, app) → 0 < n →
    ∃ c, ch = Some c ∧ C !! c = Some false;
  acc_alloc : ∀ o w n c late app, O !! o = Some (w, n, Some c, late, app) → is_Some (C !! c);
  acc_sep : ∀ o1 o2 w1 w2 n1 n2 c late1 late2 app1 app2,
    O !! o1 = Some (w1, n1, Some c, late1, app1) → O !! o2 = Some (w2, n2, Some c, late2, app2) → o1 = o2;
  acc_late : ∀ o w n ch app, O !! o = Some (w, n, ch, true, app) → w = 0 ∧ app = ∅;
}.

Lemma accounting_empty : accounting ∅ ∅ ∅.
Proof. split; intros *; rewrite ?lookup_empty; done. Qed.

Lemma accounting_new T C O o :
  O !! o = None → accounting T C O → accounting T C (<[o := (0, 0, None, false, ∅)]> O).
Proof.
  intros HO HI.
  assert (Hz : ∀ w, total w T o = 0).
  { intros w. apply total_none. intros t op E <-. destruct (acc_dom _ _ _ HI _ _ E). congruence. }
  split.
  - intros o' w n ch late app E. lk E; [by rewrite !Hz|]. by eapply acc_total.
  - intros t op E. destruct (decide (op_owner op = o)) as [->|]; [rewrite lookup_insert_eq; eauto|].
    rewrite lookup_insert_ne by done. by eapply acc_dom.
  - intros o' w n ch late app E Hn. lk E; [lia|]. by eapply acc_open.
  - intros o' w n c late app E. lk E. by eapply acc_alloc.
  - intros * E1 E2. lk E1; lk E2. by eapply acc_sep.
  - intros * E. lk E. by eapply acc_late.
Qed.

(** An owner's update when one of its openings takes the phase [p]. *)
Lemma accounting_move T C O t o p w n ch late app w' n' app' :
  O !! o = Some (w, n, ch, late, app) → (∀ op, T !! t = Some op → op_owner op = o) →
  w' = w + waits p - default 0 (waits ∘ op_phase <$> T !! t) →
  n' = n + counts p - default 0 (counts ∘ op_phase <$> T !! t) →
  (0 < n' → ∃ c, ch = Some c ∧ C !! c = Some false) →
  (late = true → w' = 0 ∧ app' = ∅) →
  accounting T C O →
  accounting (<[t := mkOpening o p]> T) C (<[o := (w', n', ch, late, app')]> O).
Proof.
  intros HO Ht Hw Hn Hch Hlate HI. split.
  - intros o' w1 n1 ch1 late1 app1 E. rewrite !total_update by done. lk E.
    + rewrite !decide_True by done. destruct (acc_total _ _ _ HI _ _ _ _ _ _ HO). lia.
    + rewrite !decide_False by done. rewrite !Z.add_0_r. by eapply acc_total.
  - intros t' op E. assert (is_Some (O !! op_owner op)) as Hs.
    { lk E; [simpl; rewrite HO; eauto|]. by eapply acc_dom. }
    destruct (decide (op_owner op = o)) as [->|]; [rewrite lookup_insert_eq; eauto|].
    by rewrite lookup_insert_ne.
  - intros * E Hpos. lk E; [auto|]. by eapply acc_open.
  - intros * E. lk E; by eapply acc_alloc.
  - intros * E1 E2. lk E1; lk E2; by eapply acc_sep.
  - intros * E. lk E; [auto|]. by eapply acc_late.
Qed.

(** A channel that changes belongs to no other owner. *)
Lemma accounting_channel T C O o w n ch late app c b :
  O !! o = Some (w, n, ch, late, app) → n ≤ 0 →
  (∀ o' w' n' late' app', O !! o' = Some (w', n', Some c, late', app') → o' = o) →
  accounting T C O → accounting T (<[c := b]> C) (<[o := (w, n, Some c, late, app)]> O).
Proof.
  intros HO Hn Hc HI. split.
  - intros * E. lk E; by eapply acc_total.
  - intros t op E. pose proof (acc_dom _ _ _ HI _ _ E).
    destruct (decide (op_owner op = o)) as [->|]; [rewrite lookup_insert_eq; eauto|].
    by rewrite lookup_insert_ne.
  - intros o' w' n' ch' late' app' E Hpos. lk E; [lia|].
    destruct (acc_open _ _ _ HI _ _ _ _ _ _ E Hpos) as (c' & -> & Ec).
    exists c'. split; [done|]. rewrite lookup_insert_ne; [done|]. intros ->.
    by apply H, eq_sym, (Hc _ _ _ _ _ E).
  - intros * E. destruct (decide (c = c0)) as [->|]; [rewrite lookup_insert_eq; eauto|].
    rewrite lookup_insert_ne by done. lk E. by eapply acc_alloc.
  - intros * E1 E2. lk E1; lk E2; try done.
    + symmetry. by eapply Hc.
    + by eapply Hc.
    + by eapply acc_sep.
  - intros * E. lk E; by eapply acc_late.
Qed.

(** Only the application set and the phase of the close change. *)
Lemma accounting_app T C O o w n ch late app late' app' :
  O !! o = Some (w, n, ch, late, app) → (late' = true → w = 0 ∧ app' = ∅) →
  accounting T C O → accounting T C (<[o := (w, n, ch, late', app')]> O).
Proof.
  intros HO Hl HI. split.
  - intros * E. lk E; by eapply acc_total.
  - intros t op E. pose proof (acc_dom _ _ _ HI _ _ E).
    destruct (decide (op_owner op = o)) as [->|]; [rewrite lookup_insert_eq; eauto|].
    by rewrite lookup_insert_ne.
  - intros * E Hpos. lk E; by eapply acc_open.
  - intros * E. lk E; by eapply acc_alloc.
  - intros * E1 E2. lk E1; lk E2; by eapply acc_sep.
  - intros * E. lk E; [auto|]. by eapply acc_late.
Qed.

(** ** Growth leases *)

Definition kept (ow : LaneOwner) : list nat :=
  match ow.(growth) with Some gr => gr.(gr_releases) | None => [] end.
Definition rest (p : closePhase) : list nat := match p with Refunding r => r | _ => [] end.
Definition leaseView (ow : LaneOwner) : Z * list nat * list nat := (ow.(lane), kept ow, rest ow.(once)).

(** The bytes leased on one slot object. *)
Definition onSlot (D : gmap nat lease) (sid : nat) : Z :=
  msum ((λ ls, if decide (ls.(ls_slot) = sid) then ls.(ls_bytes) else 0) <$> D).

Lemma onSlot_insert D t ls sid :
  D !! t = None →
  onSlot (<[t := ls]> D) sid = (if decide (ls_slot ls = sid) then ls_bytes ls else 0) + onSlot D sid.
Proof.
  intros Ht. unfold onSlot. rewrite fmap_insert, msum_insert_fresh; [done|]. by rewrite lookup_fmap, Ht.
Qed.

Lemma onSlot_delete D t ls sid :
  D !! t = Some ls →
  onSlot (delete t D) sid = onSlot D sid - (if decide (ls_slot ls = sid) then ls_bytes ls else 0).
Proof. intros Ht. unfold onSlot. by rewrite fmap_delete, msum_delete, lookup_fmap, Ht. Qed.

Lemma onSlot_none D sid : (∀ t ls, D !! t = Some ls → ls_slot ls ≠ sid) → onSlot D sid = 0.
Proof.
  induction D as [|t ls D Ht IH] using map_ind; intros H; [done|].
  rewrite onSlot_insert, decide_False, IH; [done| |eapply (H t), lookup_insert_eq|done].
  intros t' ls' E. apply (H t'). rewrite lookup_insert_ne; [done|congruence].
Qed.

Record ledger (L : gmap Z nat) (S : gmap nat Z) (sum : Z) (D : gmap nat lease)
    (O : gmap nat (Z * list nat * list nat)) : Prop := {
  led_total : sum = msum (ls_bytes <$> D);
  led_slot : ∀ sid gr, S !! sid = Some gr → gr = onSlot D sid;
  led_lease : ∀ t ls, D !! t = Some ls → 0 ≤ ls.(ls_bytes) ∧ ∃ l k r,
    O !! ls.(ls_owner) = Some (l, k, r) ∧ t ∈ k ++ r ∧ L !! l = Some ls.(ls_slot) ∧
    is_Some (S !! ls.(ls_slot));
  led_held : ∀ o l k r, O !! o = Some (l, k, r) → NoDup (k ++ r) ∧
    ∀ t, t ∈ k ++ r → ∃ ls, D !! t = Some ls ∧ ls.(ls_owner) = o;
  led_returned : ∀ t ls, D !! t = Some ls → ls.(ls_returned) = true → ∃ l k r,
    O !! ls.(ls_owner) = Some (l, k, t :: r);
  led_generation : sum ≤ AggregateGenerationGrowthBytes;
  led_bound : ∀ sid gr, S !! sid = Some gr → gr ≤ laneLimit;
}.

Lemma ledger_empty : ledger ∅ ∅ 0 ∅ ∅.
Proof. split; intros *; rewrite ?lookup_empty; done. Qed.

Lemma ledger_owner L S sum D O o l :
  O !! o = None → ledger L S sum D O → ledger L S sum D (<[o := (l, [], [])]> O).
Proof.
  intros HO HI.
  assert (Hne : ∀ t ls, D !! t = Some ls → ls_owner ls ≠ o).
  { intros t ls E <-. destruct (led_lease _ _ _ _ _ HI _ _ E) as (_ & ? & ? & ? & ? & _). congruence. }
  split; try apply HI.
  - intros t ls E. rewrite lookup_insert_ne by (apply not_eq_sym; eauto). by eapply led_lease.
  - intros o' l' k r E. lk E; [|by eapply led_held]. simpl. split; [constructor|set_solver].
  - intros t ls E Hr. rewrite lookup_insert_ne by (apply not_eq_sym; eauto). by eapply led_returned.
Qed.

Lemma ledger_new_slot L S sum D O l sid :
  L !! l = None → S !! sid = None → ledger L S sum D O →
  ledger (<[l := sid]> L) (<[sid := 0]> S) sum D O.
Proof.
  intros HL HS HI. split; try apply HI.
  - intros sid' gr E. lk E; [|by eapply led_slot]. rewrite onSlot_none; [done|].
    intros t ls E <-. destruct (led_lease _ _ _ _ _ HI _ _ E) as (_ & ? & ? & ? & _ & _ & _ & [? ?]).
    congruence.
  - intros t ls E. destruct (led_lease _ _ _ _ _ HI _ _ E) as (? & l' & k & r & ? & ? & ? & ?).
    split; [done|]. exists l', k, r. rewrite lookup_insert_ne by congruence.
    split_and!; [done..|]. destruct (decide (sid = ls_slot ls)) as [->|].
    + rewrite lookup_insert_eq. eauto.
    + by rewrite lookup_insert_ne.
  - intros sid' gr E. lk E; [vm_compute; done|]. by eapply led_bound.
Qed.

Lemma ledger_drop_lane L S sum D O l :
  (∀ o k r, O !! o = Some (l, k, r) → k ++ r = []) → ledger L S sum D O →
  ledger (delete l L) S sum D O.
Proof.
  intros Hl HI. split; try apply HI. intros t ls E.
  destruct (led_lease _ _ _ _ _ HI _ _ E) as (? & l' & k & r & E1 & E2 & ? & ?).
  split; [done|]. exists l', k, r. rewrite lookup_delete_ne; [done|]. intros ->.
  rewrite (Hl _ _ _ E1) in E2. set_solver.
Qed.

(** Growing one slot by a fresh lease. *)
Lemma ledger_reserve L S sum D O o l k sid gr b t :
  O !! o = Some (l, k, []) → L !! l = Some sid → S !! sid = Some gr → D !! t = None →
  0 ≤ b → gr + b ≤ laneLimit → sum + b ≤ AggregateGenerationGrowthBytes → ledger L S sum D O →
  ledger L (<[sid := gr + b]> S) (sum + b) (<[t := mkLease sid o b false]> D)
    (<[o := (l, k ++ [t], [])]> O).
Proof.
  intros HO HL HS HD Hb Hg Hs HI. split; [| | | | |done|].
  - rewrite fmap_insert, msum_insert_fresh by (by rewrite lookup_fmap, HD).
    rewrite (led_total _ _ _ _ _ HI). simpl. lia.
  - intros sid' gr' E. rewrite onSlot_insert by done. simpl. lk E.
    + rewrite decide_True by done. rewrite <- (led_slot _ _ _ _ _ HI _ _ HS). lia.
    + rewrite decide_False by done. rewrite <- (led_slot _ _ _ _ _ HI _ _ E). lia.
  - assert (HS' : ∀ x, is_Some (S !! x) → is_Some (<[sid := gr + b]> S !! x)).
    { intros x ?. destruct (decide (x = sid)) as [->|]; [rewrite lookup_insert_eq; eauto|].
      by rewrite lookup_insert_ne. }
    intros t' ls E. lk E; simpl.
    + split; [done|]. exists l, (k ++ [t']), []. rewrite lookup_insert_eq.
      split_and!; [done|set_solver|done|apply HS'; rewrite HS; eauto].
    + destruct (led_lease _ _ _ _ _ HI _ _ E) as (? & l' & k' & r & E1 & E2 & ? & ?).
      split; [done|]. destruct (decide (ls_owner ls = o)) as [Eo|].
      * rewrite Eo in *. simplify_eq. exists l, (k ++ [t]), []. rewrite lookup_insert_eq.
        split_and!; [done|set_solver|done|auto].
      * exists l', k', r. rewrite lookup_insert_ne by done. auto.
  - intros o' l' k' r E. lk E.
    + destruct (led_held _ _ _ _ _ HI _ _ _ _ HO) as [Hnd Hh]. rewrite !app_nil_r in *. split.
      * apply NoDup_app. split_and!; [done| |apply NoDup_singleton].
        intros x Hx ->%list_elem_of_singleton. destruct (Hh _ Hx) as (? & ? & _). congruence.
      * intros x [Hx| ->%list_elem_of_singleton]%elem_of_app; [|rewrite lookup_insert_eq; eauto].
        destruct (Hh _ Hx) as (ls & E1 & E2). exists ls. rewrite lookup_insert_ne; [done|congruence].
    + destruct (led_held _ _ _ _ _ HI _ _ _ _ E) as [Hnd Hh]. split; [done|].
      intros x Hx. destruct (Hh _ Hx) as (ls & E1 & E2). exists ls.
      rewrite lookup_insert_ne; [done|congruence].
  - intros t' ls E Hr. lk E.
    destruct (led_returned _ _ _ _ _ HI _ _ E Hr) as (l' & k' & r & E').
    exists l', k', r. rewrite lookup_insert_ne; [done|congruence].
  - intros sid' gr' E. lk E; [done|]. by eapply led_bound.
Qed.

(** [Release] moves the kept leases to the loop of the callbacks. *)
Lemma ledger_release L S sum D O o l k :
  O !! o = Some (l, k, []) → ledger L S sum D O → ledger L S sum D (<[o := (l, [], k)]> O).
Proof.
  intros HO HI. split; try apply HI.
  - intros t ls E. destruct (led_lease _ _ _ _ _ HI _ _ E) as (? & l' & k' & r & E1 & E2 & ? & ?).
    split; [done|]. destruct (decide (ls_owner ls = o)) as [Eo|].
    + rewrite Eo in *. simplify_eq. exists l, [], k. rewrite lookup_insert_eq.
      rewrite app_nil_r in E2. done.
    + exists l', k', r. by rewrite lookup_insert_ne.
  - intros o' l' k' r E. lk E; [|by eapply led_held].
    destruct (led_held _ _ _ _ _ HI _ _ _ _ HO) as [Hnd Hh]. rewrite app_nil_r in *. done.
  - intros t ls E Hr. destruct (led_returned _ _ _ _ _ HI _ _ E Hr) as (l' & k' & r & E').
    exists l', k', r. rewrite lookup_insert_ne; [done|congruence].
Qed.

Lemma ledger_return L S sum D O o l k t r sid o' b :
  O !! o = Some (l, k, t :: r) → D !! t = Some (mkLease sid o' b false) → ledger L S sum D O →
  ledger L S sum (<[t := mkLease sid o' b true]> D) O.
Proof.
  intros HO HD HI.
  assert (o' = o) as ->.
  { destruct (led_held _ _ _ _ _ HI _ _ _ _ HO) as [_ Hh].
    destruct (Hh t) as (ls & E1 & E2); [set_solver|]. by simplify_eq. }
  assert (Hin : ∀ t' ls', <[t := mkLease sid o b true]> D !! t' = Some ls' → ∃ ls, D !! t' = Some ls ∧
     ls_slot ls = ls_slot ls' ∧ ls_owner ls = ls_owner ls' ∧ ls_bytes ls = ls_bytes ls').
  { intros t' ls' E. lk E; eauto 10. }
  assert (Hfm : ∀ f : lease → Z, f (mkLease sid o b true) = f (mkLease sid o b false) →
     f <$> <[t := mkLease sid o b true]> D = f <$> D).
  { intros f Hf. rewrite fmap_insert, insert_id; [done|]. by rewrite lookup_fmap, HD, Hf. }
  split; try apply HI.
  - by rewrite Hfm by done; apply (led_total _ _ _ _ _ HI).
  - intros sid' gr E. unfold onSlot. by rewrite Hfm by done; apply (led_slot _ _ _ _ _ HI).
  - intros t' ls' E. destruct (Hin _ _ E) as (ls & E0 & <- & <- & <-). by eapply led_lease.
  - intros o' l' k' r' E. destruct (led_held _ _ _ _ _ HI _ _ _ _ E) as [Hnd Hh]. split; [done|].
    intros x Hx. destruct (Hh _ Hx) as (ls & E1 & E2). destruct (decide (x = t)) as [->|].
    + simplify_eq. rewrite lookup_insert_eq. eauto.
    + rewrite lookup_insert_ne by done. eauto.
  - intros t' ls' E Hr. lk E; [eauto|]. by eapply led_returned.
Qed.

Lemma ledger_settle L S sum D O o l k t r sid o' b gr :
  O !! o = Some (l, k, t :: r) → D !! t = Some (mkLease sid o' b true) → S !! sid = Some gr →
  ledger L S sum D O →
  ledger L (<[sid := gr - b]> S) (sum - b) (delete t D) (<[o := (l, k, r)]> O).
Proof.
  intros HO HD HS HI.
  destruct (led_held _ _ _ _ _ HI _ _ _ _ HO) as [Hnd Hh].
  destruct (Hh t) as (ls0 & E0 & Eo); [set_solver|].
  rewrite HD in E0. injection E0 as <-. simpl in Eo. subst o'.
  destruct (led_lease _ _ _ _ _ HI _ _ HD) as (Hb & _). simpl in Hb.
  assert (Hnd' : NoDup (k ++ r) ∧ t ∉ k ++ r).
  { rewrite <- (Permutation_middle k r t) in Hnd. by apply NoDup_cons in Hnd as [? ?]. }
  split.
  - rewrite fmap_delete, msum_delete, lookup_fmap, HD, (led_total _ _ _ _ _ HI). done.
  - intros sid' gr' E. rewrite (onSlot_delete _ _ _ _ HD). simpl. lk E.
    + rewrite decide_True by done. by rewrite <- (led_slot _ _ _ _ _ HI _ _ HS).
    + rewrite decide_False by done. rewrite <- (led_slot _ _ _ _ _ HI _ _ E). lia.
  - intros t' ls E. lk E. destruct (led_lease _ _ _ _ _ HI _ _ E) as (? & l' & k' & r' & E1 & E2 & ? & ?).
    assert (is_Some (<[sid := gr - b]> S !! ls_slot ls)).
    { destruct (decide (ls_slot ls = sid)) as [->|]; [rewrite lookup_insert_eq; eauto|].
      by rewrite lookup_insert_ne. }
    split; [done|]. destruct (decide (ls_owner ls = o)) as [Eo|].
    + rewrite Eo in E1. rewrite HO in E1. injection E1 as <- <- <-. exists l, k, r. rewrite Eo, lookup_insert_eq.
      split_and!; [done| |done|done]. clear -E2 H. set_solver.
    + exists l', k', r'. by rewrite lookup_insert_ne.
  - intros o' l' k' r' E. lk E.
    + split; [apply Hnd'|]. intros x Hx. destruct (Hh x) as (ls & E1 & E2); [set_solver|].
      exists ls. rewrite lookup_delete_ne; [done|]. intros ->. by apply Hnd'.
    + destruct (led_held _ _ _ _ _ HI _ _ _ _ E) as [Hnd2 Hh2]. split; [done|]. intros x Hx.
      destruct (Hh2 x Hx) as (ls & E1 & E2). exists ls. rewrite lookup_delete_ne; [done|].
      intros ->. by simplify_eq.
  - intros t' ls E Hr. lk E. destruct (led_returned _ _ _ _ _ HI _ _ E Hr) as (l' & k' & r' & E').
    exists l', k', r'. rewrite lookup_insert_ne; [done|]. intros ->. congruence.
  - pose proof (led_generation _ _ _ _ _ HI). lia.
  - intros sid' gr' E. pose proof (led_bound _ _ _ _ _ HI _ _ HS). lk E; [lia|].
    by eapply led_bound.
Qed.
End LaneOwnersInv.
