(* ===== verification/LaneOwnersProps.v ===== *)
(** Every critical section of lane ownership preserves the invariants of
    LaneOwnersInv, and the properties that follow for every interleaving. *)

From S2P Require Import Prelude.
From S2P Require Import LaneOwners.
From S2P Require Import LaneOwnersInv.

Module LaneOwnersProps.
Import LaneOwners LaneOwnersInv.

(** ** The invariant of the group *)

Definition isOpen (p : closePhase) : bool := match p with NotClosed => true | _ => false end.
Definition isRefunding (p : closePhase) : bool :=
  match p with Refunding _ | Gone => true | _ => false end.

Record wfOwner (ow : LaneOwner) : Prop := {
  wf_closed : ow.(closed) = negb (isOpen ow.(once));
  wf_growth : ow.(session) = None → ow.(growth) = None;
  wf_kept : isRefunding ow.(once) = true → kept ow = [];
}.

Record Inv (g : LaneOwners) : Prop := {
  inv_registry : registry g.(g_lanes) (slotView <$> g.(slots)) (ownerView <$> g.(owners))
    g.(base) g.(refunds);
  inv_accounting : accounting g.(opens) g.(channels) (countView <$> g.(owners));
  inv_ledger : ledger g.(g_lanes) (slot_growth <$> g.(slots)) g.(g_growth) g.(leases)
    (leaseView <$> g.(owners));
  inv_owners : map_Forall (λ _, wfOwner) g.(owners);
}.

Lemma Inv_empty : Inv emptyGroup.
Proof.
  split; simpl; rewrite ?fmap_empty.
  - apply registry_empty.
  - apply accounting_empty.
  - apply ledger_empty.
  - apply map_Forall_empty.
Qed.

(** An update that a view does not see. *)
Lemma fmap_insert_same {A B} (f : A → B) (m : gmap nat A) k x y :
  m !! k = Some x → f y = f x → f <$> <[k := y]> m = f <$> m.
Proof. intros Hk Hf. rewrite fmap_insert, insert_id; [done|]. by rewrite lookup_fmap, Hk, Hf. Qed.

Lemma lookup_fmap_Some_2 {A B} (f : A → B) (m : gmap nat A) k x :
  m !! k = Some x → (f <$> m) !! k = Some (f x).
Proof. intros E. by rewrite lookup_fmap, E. Qed.

Lemma lookup_fmap_None_2 {A B} (f : A → B) (m : gmap nat A) k :
  m !! k = None → (f <$> m) !! k = None.
Proof. intros E. by rewrite lookup_fmap, E. Qed.
#[local] Hint Resolve lookup_fmap_Some_2 lookup_fmap_None_2 : core.

Lemma lane_slot_Some g l sid sl :
  lane_slot g l = Some (sid, sl) ↔ g.(g_lanes) !! l = Some sid ∧ g.(slots) !! sid = Some sl.
Proof.
  unfold lane_slot. destruct (g_lanes g !! l) as [s|]; [|naive_solver].
  destruct (slots g !! s) as [x|] eqn:E; naive_solver.
Qed.

(** An owner that has not gone is registered in its lane's slot. *)
Lemma owner_slot g o ow :
  Inv g → g.(owners) !! o = Some ow → isGone ow.(once) = false →
  ∃ sid sl, lane_slot g ow.(lane) = Some (sid, sl) ∧ o ∈ sl.(slot_owners).
Proof.
  intros HI Ho Hg. destruct (reg_out _ _ _ _ _ (inv_registry _ HI) o (lane ow) (state ow))
    as (sid & os & sv & r & E1 & E2 & E3).
  { rewrite lookup_fmap, Ho. simpl. unfold ownerView. by rewrite Hg. }
  apply lookup_fmap_Some in E2 as (sl & [= <- <- <-] & E2).
  exists sid, sl. by rewrite lane_slot_Some.
Qed.

(** A single owner changes, in nothing the registry or the ledger sees. *)
Lemma Inv_count g o ow ow' T C :
  g.(owners) !! o = Some ow → ownerView ow' = ownerView ow → leaseView ow' = leaseView ow →
  (wfOwner ow → wfOwner ow') →
  accounting T C (<[o := countView ow']> (countView <$> g.(owners))) →
  Inv g → Inv (put_owner (set_channels (set_opens g T) C) o ow').
Proof.
  intros Ho H1 H2 Hwf Hacc HI. split; simpl.
  - rewrite (fmap_insert_same _ _ _ ow) by done. apply HI.
  - by rewrite fmap_insert.
  - rewrite (fmap_insert_same _ _ _ ow) by done. apply HI.
  - apply map_Forall_insert_2; [|apply HI]. apply Hwf. by eapply (inv_owners _ HI).
Qed.

(** A single owner changes, in nothing the three views see. *)
Lemma Inv_owner g o ow ow' :
  g.(owners) !! o = Some ow → ownerView ow' = ownerView ow → leaseView ow' = leaseView ow →
  countView ow' = countView ow → (wfOwner ow → wfOwner ow') → Inv g → Inv (put_owner g o ow').
Proof.
  intros Ho H1 H2 H3 Hwf HI. split; simpl.
  - rewrite (fmap_insert_same _ _ _ ow) by done. apply HI.
  - rewrite (fmap_insert_same _ _ _ ow) by done. apply HI.
  - rewrite (fmap_insert_same _ _ _ ow) by done. apply HI.
  - apply map_Forall_insert_2; [|apply HI]. apply Hwf. by eapply (inv_owners _ HI).
Qed.

Lemma set_channels_put_owner g o ow C :
  set_channels (put_owner g o ow) C = put_owner (set_channels g C) o ow.
Proof. done. Qed.

Lemma Inv_resets g r : Inv g → Inv (set_resets g r).
Proof. intros HI. split; apply HI. Qed.

(** Forget the branches of an equation [op = Ret g' r] that do not return. *)
Ltac ret H := first [discriminate H | injection H as <- <-]; try done.

(** ** Preservation, one critical section at a time *)

Lemma Inv_new_owner g l id sid o r :
  g.(slots) !! sid = None → g.(owners) !! o = None → 0 ≤ r → 0 ≤ l ≤ MaxParallelTunnels →
  g.(g_lanes) !! l = None → Inv g →
  Inv (put_owner (put_slot (put_slot (set_lanes g (<[l := sid]> g.(g_lanes)) ({[sid]} ∪ g.(base))
    g.(refunds)) sid (mkSlot ∅ None 0 r)) sid (mkSlot ({[o]} ∪ ∅) None 0 r)) o (newOwner l id)).
Proof.
  intros Hs Ho Hr Hl HL HI. rewrite union_empty_r_L.
  split; simpl; rewrite ?insert_insert_eq, ?fmap_insert.
  - apply registry_new; auto. apply HI.
  - apply accounting_new; auto. apply HI.
  - apply ledger_owner; auto. apply ledger_new_slot; auto. apply HI.
  - apply map_Forall_insert_2; [by split|apply HI].
Qed.

Lemma Inv_join_owner g l id sid sl o :
  g.(g_lanes) !! l = Some sid → g.(slots) !! sid = Some sl → g.(owners) !! o = None →
  (size sl.(slot_owners) < 2)%nat → Inv g →
  Inv (put_owner (put_slot g sid (mkSlot ({[o]} ∪ sl.(slot_owners)) sl.(slot_serving)
    sl.(slot_growth) sl.(slot_reserved))) o (newOwner l id)).
Proof.
  intros HL Hs Ho Hsz HI. split; simpl.
  - rewrite !fmap_insert. apply registry_join; auto; [by erewrite lookup_fmap_Some_2 by done|apply HI].
  - rewrite fmap_insert. apply accounting_new; auto. apply HI.
  - rewrite (fmap_insert_same _ (slots g) _ sl), fmap_insert by done.
    apply ledger_owner; auto. apply HI.
  - apply map_Forall_insert_2; [by split|apply HI].
Qed.

Lemma Acquire_Inv g l id repl res ok sid o g' r :
  Acquire g l id repl res ok sid o = Ret g' r → Inv g → Inv g'.
Proof.
  unfold Acquire. intros H HI. case_hyp H; [done|]. case_hyp H; [by ret H|]. case_hyp H; [by ret H|].
  bprop. rewrite <- eq_None_not_Some in *. unfold acquireSlot in H.
  destruct (g_lanes g !! l) as [sid'|] eqn:EL.
  - destruct (slots g !! sid') as [sl|] eqn:ES; [|done].
    case_hyp H; [by ret H|]. case_hyp H; [|by ret H]. ret H. bprop.
    apply Inv_join_owner; auto. lia.
  - case_hyp H; [by ret H|]. case_hyp H; [by ret H|]. simpl in H. rewrite lookup_insert_eq in H.
    simpl in H. rewrite Z.eqb_refl in H. simpl in H. bprop.
    unfold slotAdmits in H. simpl in H. rewrite bool_decide_true in H by done.
    match goal with E : repl = _ |- _ => rewrite E in * end. simpl in H. ret H.
    apply Inv_new_owner; auto. by apply eq_None_not_Some.
Qed.

Lemma open_phase g o ow :
  Inv g → g.(owners) !! o = Some ow → ow.(closed) = false → ow.(once) = NotClosed.
Proof.
  intros HI Ho Hc. pose proof (wf_closed _ (inv_owners _ HI _ _ Ho)) as W.
  destruct (once ow); simpl in W; congruence.
Qed.

Lemma Attach_Inv g o s aggr g' r : Attach g o s aggr = Ret g' r → Inv g → Inv g'.
Proof.
  unfold Attach. intros H HI. destruct (owners g !! o) as [ow|] eqn:Ho; [|done].
  case_hyp H; [by ret H|]. bprop.
  assert (Hs : session ow = None) by (by apply eq_None_not_Some).
  pose proof (wf_growth _ (inv_owners _ HI _ _ Ho) Hs) as Hg.
  case_hyp H; ret H; apply (Inv_owner _ _ ow); try done;
    try (by unfold leaseView, kept; simpl; rewrite Hg); intros [W1 W2 W3]; split; simpl; try done.
Qed.

(** A reservation and its retention by the session's growth record. *)
Lemma Inv_reserve g o ow gr sid sl b t cl :
  g.(owners) !! o = Some ow → ow.(growth) = Some gr → ow.(once) = NotClosed →
  g.(g_lanes) !! ow.(lane) = Some sid → g.(slots) !! sid = Some sl → g.(leases) !! t = None →
  0 ≤ b → sl.(slot_growth) + b ≤ laneLimit → g.(g_growth) + b ≤ AggregateGenerationGrowthBytes →
  Inv g →
  Inv (put_owner (set_ledger (put_slot g sid (mkSlot sl.(slot_owners) sl.(slot_serving)
         (sl.(slot_growth) + b) sl.(slot_reserved))) (g.(g_growth) + b)
         (<[t := mkLease sid o b false]> g.(leases))) o
      (set_session ow ow.(session) (Some (mkGrowth gr.(gr_session) cl
         gr.(gr_poolLimit) (gr.(gr_releases) ++ [t]))))).
Proof.
  intros Ho Hgr Hp HL HS Ht Hb Hlane Hgen HI. split; simpl.
  - rewrite (fmap_insert_same _ (slots g) _ sl), (fmap_insert_same _ (owners g) _ ow) by done. apply HI.
  - rewrite (fmap_insert_same _ (owners g) _ ow) by done. apply HI.
  - rewrite !fmap_insert. unfold leaseView at 1, kept. simpl. rewrite Hp. simpl.
    apply ledger_reserve; auto; [|apply HI].
    erewrite lookup_fmap_Some_2 by done. unfold leaseView, kept. by rewrite Hgr, Hp.
  - apply map_Forall_insert_2; [|apply HI]. destruct (inv_owners _ HI _ _ Ho) as [W1 W2 W3].
    split; simpl; [done| |]; [intros E; rewrite (W2 E) in Hgr; done|by rewrite Hp].
Qed.

Lemma Grow_Inv g0 g o target y ok t g' r : Grow g0 g o target y ok t = Ret g' r → Inv g → Inv g'.
Proof.
  unfold Grow. intros H HI. case_hyp H; [done|]. bprop. rename Heqb into Ht.
  apply eq_None_not_Some in Ht.
  destruct (owners g !! o) as [ow|] eqn:Ho; [|done].
  destruct (growth ow) as [gr|] eqn:Hgr; [|by ret H].
  repeat (case_hyp H; [by ret H|]). case_hyp H; [|by ret H].
  unfold growthReserve in H. destruct (lane_slot g (lane ow)) as [[sid sl]|] eqn:Hls; [|by ret H].
  case_hyp H; [by ret H|]. destruct ok; [|by ret H]. simpl in H.
  apply lane_slot_Some in Hls as [HL HS]. bprop.
  assert (once ow = NotClosed) by (eapply open_phase; eauto).
  case_hyp H; ret H; eapply Inv_reserve; eauto; lia.
Qed.

(** The serving owner is in the heap, on the same lane. *)
Lemma serving_owner g l sid sl x :
  Inv g → g.(g_lanes) !! l = Some sid → g.(slots) !! sid = Some sl → sl.(slot_serving) = Some x →
  ∃ old, g.(owners) !! x = Some old ∧ ownerView old = (l, LaneServing, false).
Proof.
  intros HI HL HS E. pose proof (inv_registry _ HI) as HR.
  apply (reg_serving _ _ _ _ _ HR _ _ _ _ _ x HL (lookup_fmap_Some_2 slotView _ _ _ HS)) in E.
  apply lookup_fmap_Some in E as (old & E1 & E2). eauto.
Qed.

(** Replacing the state field of an owner is invisible to opens and leases. *)
Lemma Inv_states g sid sl sl' (m : gmap nat LaneOwner) :
  g.(slots) !! sid = Some sl → sl'.(slot_growth) = sl.(slot_growth) →
  countView <$> m = countView <$> g.(owners) → leaseView <$> m = leaseView <$> g.(owners) →
  map_Forall (λ _, wfOwner) m →
  registry g.(g_lanes) (<[sid := slotView sl']> (slotView <$> g.(slots))) (ownerView <$> m)
    g.(base) g.(refunds) →
  Inv g → Inv (set_owners (put_slot g sid sl') m).
Proof.
  intros HS Hg H1 H2 Hwf HR HI. split; simpl; [by rewrite fmap_insert| | |done].
  - rewrite H1. apply HI.
  - rewrite H2, (fmap_insert_same _ (slots g) _ sl) by done. apply HI.
Qed.

Lemma wf_set_state ow st : wfOwner ow → wfOwner (set_state ow st).
Proof. intros [W1 W2 W3]. by split. Qed.

Lemma publish_Inv g o expected epoch idle g' r :
  publish g o expected epoch idle = Ret g' r → Inv g → Inv g'.
Proof.
  unfold publish. intros H HI. destruct (owners g !! o) as [ow|] eqn:Ho; [|done].
  case_hyp H; [by ret H|]. destruct (lane_slot g (lane ow)) as [[sid sl]|] eqn:Hls; [|done].
  case_hyp H; [by ret H|]. case_hyp H; [by ret H|]. ret H.
  apply lane_slot_Some in Hls as [HL HS]. bprop.
  assert (Hp : once ow = NotClosed) by (eapply open_phase; eauto).
  pose proof (λ B R, registry_publish _ _ (ownerView <$> owners g) B R _ _ _ _ _ o (state ow) HL
    (lookup_fmap_Some_2 slotView _ _ _ HS)) as HR.
  destruct (slot_serving sl) as [x|] eqn:Hx.
  - destruct (serving_owner g (lane ow) sid sl x HI HL HS Hx) as (old & Eo & Ev). rewrite Eo.
    assert (Hox : owners g !! o = <[x := set_state old LaneDraining]> (owners g) !! o)
      by (rewrite lookup_insert_ne; congruence).
    apply (Inv_states g sid sl _ (<[o := _]> (<[x := _]> (owners g)))); auto.
    + rewrite (fmap_insert_same _ _ o ow); [|by rewrite <- Hox|done]. by apply (fmap_insert_same _ _ x old).
    + rewrite (fmap_insert_same _ _ o ow); [|by rewrite <- Hox|done]. by apply (fmap_insert_same _ _ x old).
    + apply map_Forall_insert_2; [|apply map_Forall_insert_2; [|apply HI]];
        apply wf_set_state; by eapply (inv_owners _ HI).
    + rewrite !fmap_insert. unfold ownerView at 1 2, slotView at 1; simpl.
      rewrite Hp; simpl. injection Ev as -> _ ->.
      apply HR; [|congruence|apply HI]. erewrite lookup_fmap_Some_2 by done.
      unfold ownerView. by rewrite Hp.
  - apply (Inv_states g sid sl _ (<[o := _]> (owners g))); auto.
    + by rewrite (fmap_insert_same _ _ o ow).
    + by rewrite (fmap_insert_same _ _ o ow).
    + apply map_Forall_insert_2; [|apply HI]. apply wf_set_state. by eapply (inv_owners _ HI).
    + rewrite fmap_insert. unfold ownerView at 1, slotView at 1; simpl. rewrite Hp; simpl.
      apply HR; [|congruence|apply HI]. erewrite lookup_fmap_Some_2 by done.
      unfold ownerView. by rewrite Hp.
Qed.

Lemma idleRecord_Inv g o epoch drained now since quiet g' r :
  idleRecord g o epoch drained now since quiet = Ret g' r → Inv g → Inv g'.
Proof.
  unfold idleRecord. intros H HI. destruct (owners g !! o) as [ow|] eqn:Ho; [|done].
  case_hyp H; ret H; apply (Inv_owner _ _ ow); try done; intros [W1 W2 W3]; by split.
Qed.

Lemma countView_lookup g o ow :
  g.(owners) !! o = Some ow → (countView <$> g.(owners)) !! o =
    Some (ow.(openings), ow.(openingCount), ow.(openingsDone), isLate ow.(once), ow.(application)).
Proof. intros Ho. by rewrite lookup_fmap, Ho. Qed.

Lemma BeginOpen_Inv g o t c g' r : BeginOpen g o t c = Ret g' r → Inv g → Inv g'.
Proof.
  unfold BeginOpen. intros H HI. case_hyp H; [done|]. bprop.
  rename H0 into Ht, H1 into Hc. apply eq_None_not_Some in Ht, Hc.
  destruct (owners g !! o) as [ow|] eqn:Ho; [|done]. case_hyp H; [by ret H|]. bprop.
  assert (Hp : once ow = NotClosed) by (eapply open_phase; eauto).
  pose proof (inv_accounting _ HI) as HA. pose proof (countView_lookup _ _ _ Ho) as Hv.
  assert (Htot := acc_total _ _ _ HA _ _ _ _ _ _ Hv). rewrite Hp in Hv. simpl in Hv.
  assert (Hn : 0 ≤ openingCount ow) by (destruct Htot as [_ ->]; by apply total_nonneg, counts_nonneg).
  case_hyp H; [rename Heqb into Hz|rename Heqb into Hz]; ret H; simpl in Hz; bprop.
  - apply (Inv_count g o ow _ (<[t := mkOpening o Opened]> (opens g)) (<[c := false]> (channels g)));
      try done; [intros [W1 W2 W3]; by split|].
    unfold countView at 1; simpl. rewrite Hp; simpl. rewrite <- (insert_insert_eq _ o _ (openings ow,
      openingCount ow, Some c, false, application ow)).
    eapply accounting_move; [by rewrite lookup_insert_eq| | | | |done|]; rewrite ?Ht; simpl; try done.
    + lia.
    + lia.
    + intros _. exists c. by rewrite lookup_insert_eq.
    + eapply accounting_channel; [done|lia| |done]. intros o' w' n' late' app' E.
      destruct (acc_alloc _ _ _ HA _ _ _ _ _ _ E). congruence.
  - apply (Inv_count g o ow _ (<[t := mkOpening o Opened]> (opens g)) (channels g));
      try done; [intros [W1 W2 W3]; by split|].
    unfold countView at 1; simpl. rewrite Hp; simpl.
    eapply accounting_move; [done| | | | |done|done]; rewrite ?Ht; simpl; try done; [lia..|].
    intros _. eapply (acc_open _ _ _ HA); [done|lia].
Qed.

(** [closed] and past the join agree. *)
Lemma late_closed g o ow :
  Inv g → g.(owners) !! o = Some ow → isLate ow.(once) = true → ow.(closed) = true.
Proof.
  intros HI Ho Hl. rewrite (wf_closed _ (inv_owners _ HI _ _ Ho)). by destruct (once ow).
Qed.

Lemma finishRegister_Inv g t st g' r : finishRegister g t st = Ret g' r → Inv g → Inv g'.
Proof.
  unfold finishRegister. intros H HI. destruct (opens g !! t) as [[o []]|] eqn:Ht; try done.
  destruct (owners g !! o) as [ow|] eqn:Ho; [|done].
  assert (Hmove : ∀ app', (closed ow = true → app' = application ow) →
    Inv (put_owner (set_channels (set_opens g (<[t := mkOpening o Registered]> (opens g))) (channels g)) o
      (set_application ow app'))).
  { intros app' Happ. apply (Inv_count g o ow); try done; [intros [W1 W2 W3]; by split|].
    pose proof (countView_lookup _ _ _ Ho) as Hv. pose proof (inv_accounting _ HI) as HA.
    eapply accounting_move; [done|rewrite Ht; naive_solver| | | | |done];
      rewrite ?Ht; simpl; try lia.
    - intros Hn. by eapply acc_open.
    - intros Hl. rewrite (Happ (late_closed _ _ _ HI Ho Hl)). rewrite Hl in Hv.
      by eapply acc_late. }
  assert (Hsame : Inv (set_opens g (<[t := mkOpening o Registered]> (opens g)))).
  { specialize (Hmove (application ow) (λ _, eq_refl)). destruct Hmove as [M1 M2 M3 M4]. simpl in *.
    assert (Hid : <[o := set_application ow (application ow)]> (owners g) = owners g).
    { apply insert_id. rewrite Ho. by destruct ow. }
    rewrite Hid in *. by split. }
  destruct st as [st|]; [|by ret H]. case_hyp H; ret H; [by apply Inv_resets|].
  bprop. apply Hmove. congruence.
Qed.

Lemma finishCount_Inv g t g' r : finishCount g t = Ret g' r → Inv g → Inv g'.
Proof.
  unfold finishCount. intros H HI. destruct (opens g !! t) as [[o []]|] eqn:Ht; try done.
  destruct (owners g !! o) as [ow|] eqn:Ho; [|done].
  pose proof (inv_accounting _ HI) as HA. pose proof (countView_lookup _ _ _ Ho) as Hv.
  assert (Hmove : ∀ n, n = openingCount ow - 1 → accounting (<[t := mkOpening o Counted]> (opens g)) (channels g)
    (<[o := (openings ow, n, openingsDone ow, isLate (once ow), application ow)]>
       (countView <$> owners g))).
  { intros n ->. eapply accounting_move; [done|rewrite Ht; naive_solver| | | | |done];
      rewrite ?Ht; simpl; try lia.
    - intros Hn. eapply acc_open; [done|done|lia].
    - intros Hl. rewrite Hl in Hv. by eapply acc_late. }
  case_hyp H; bprop.
  - unfold closeChannel in H. simpl in H. destruct (openingsDone ow) as [c|] eqn:Hc; [|done].
    destruct (channels g !! c) as [[]|] eqn:Ec; try done. ret H.
    rewrite set_channels_put_owner.
    apply (Inv_count g o ow _ (<[t := mkOpening o Counted]> (opens g)) (<[c := true]> (channels g)));
      try done; [intros [W1 W2 W3]; by split|].
    unfold countView at 1; simpl. rewrite <- (insert_insert_eq _ o _ (openings ow,
      openingCount ow - 1, Some c, isLate (once ow), application ow)).
    specialize (Hmove _ eq_refl). eapply accounting_channel; [by rewrite lookup_insert_eq|lia| |done].
    intros o' w' n' late' app' E.
    eapply (acc_sep _ _ _ Hmove); [exact E|]. by rewrite lookup_insert_eq.
  - ret H. apply (Inv_count g o ow _ (<[t := mkOpening o Counted]> (opens g)) (channels g));
      try done; [intros [W1 W2 W3]; by split|]. by apply Hmove.
Qed.

Lemma finishDone_Inv g t g' r : finishDone g t = Ret g' r → Inv g → Inv g'.
Proof.
  unfold finishDone. intros H HI. destruct (opens g !! t) as [[o []]|] eqn:Ht; try done.
  destruct (owners g !! o) as [ow|] eqn:Ho; [|done]. case_hyp H; [done|]. ret H. bprop.
  pose proof (inv_accounting _ HI) as HA. pose proof (countView_lookup _ _ _ Ho) as Hv.
  apply (Inv_count g o ow _ (<[t := mkOpening o Finished]> (opens g)) (channels g));
      try done; [intros [W1 W2 W3]; by split|].
  eapply accounting_move; [done|rewrite Ht; naive_solver| | | | |done]; rewrite ?Ht; simpl; try lia.
  - intros Hn. by eapply acc_open.
  - intros Hl. rewrite Hl in Hv. destruct (acc_late _ _ _ HA _ _ _ _ _ Hv). lia.
Qed.

(** Only the application set and the phase of an owner change. *)
Lemma Inv_app g o ow ow' :
  g.(owners) !! o = Some ow → ownerView ow' = ownerView ow → leaseView ow' = leaseView ow →
  (wfOwner ow → wfOwner ow') → ow'.(openings) = ow.(openings) →
  ow'.(openingCount) = ow.(openingCount) → ow'.(openingsDone) = ow.(openingsDone) →
  (isLate ow'.(once) = true → ow.(openings) = 0 ∧ ow'.(application) = ∅) →
  Inv g → Inv (put_owner g o ow').
Proof.
  intros Ho H1 H2 Hwf E1 E2 E3 Hl HI. pose proof (countView_lookup _ _ _ Ho) as Hv.
  apply (Inv_count g o ow ow' (opens g) (channels g)); try done. unfold countView at 1. rewrite E1, E2, E3.
  eapply accounting_app; [done|done|apply HI].
Qed.

Lemma dispose_Inv g o st g' r : dispose g o st = Ret g' r → Inv g → Inv g'.
Proof.
  unfold dispose. intros H HI. destruct (owners g !! o) as [ow|] eqn:Ho; [|done]. ret H.
  apply (Inv_app _ _ ow); try done; [intros [W1 W2 W3]; by split|]. simpl. intros Hl.
  pose proof (countView_lookup _ _ _ Ho) as Hv. rewrite Hl in Hv.
  destruct (acc_late _ _ _ (inv_accounting _ HI) _ _ _ _ _ Hv) as [? ->]. set_solver.
Qed.

Lemma closeBegin_Inv g o g' r : closeBegin g o = Ret g' r → Inv g → Inv g'.
Proof.
  unfold closeBegin. intros H HI. destruct (owners g !! o) as [ow|] eqn:Ho; [|done].
  destruct (once ow) eqn:Hp; try done. ret H.
  apply (Inv_owner _ _ ow); try done; unfold ownerView, leaseView, countView; simpl; rewrite ?Hp; try done.
  intros [W1 W2 W3]; by split.
Qed.

Lemma closeJoin_Inv g o g' r : closeJoin g o = Ret g' r → Inv g → Inv g'.
Proof.
  unfold closeJoin. intros H HI. destruct (owners g !! o) as [ow|] eqn:Ho; [|done].
  destruct (once ow) eqn:Hp; try done. case_hyp H; [done|]. ret H. bprop. apply Inv_resets.
  apply (Inv_app _ _ ow); try done; unfold ownerView, leaseView; simpl; rewrite ?Hp; try done.
  intros [W1 W2 W3]; split; simpl; [by rewrite W1, Hp|done|done].
Qed.

(** The lease list moves; everything else of the owner stays. *)
Lemma releaseGrowth_Inv g o g' r : releaseGrowth g o = Ret g' r → Inv g → Inv g'.
Proof.
  unfold releaseGrowth. intros H HI. destruct (owners g !! o) as [ow|] eqn:Ho; [|done].
  destruct (once ow) eqn:Hp; try done. destruct (growth ow) as [gr|] eqn:Hg; ret H.
  - split; simpl.
    + rewrite (fmap_insert_same _ _ _ ow); [apply HI|done|]. unfold ownerView. simpl. by rewrite Hp.
    + rewrite (fmap_insert_same _ _ _ ow); [apply HI|done|]. unfold countView. simpl. by rewrite Hp.
    + rewrite fmap_insert. apply ledger_release; [|apply HI]. erewrite lookup_fmap_Some_2 by done.
      unfold leaseView, kept. by rewrite Hg, Hp.
    + apply map_Forall_insert_2; [|apply HI]. destruct (inv_owners _ HI _ _ Ho) as [W1 W2 W3].
      split; simpl; [by rewrite W1, Hp|intros E; rewrite (W2 E) in Hg; done|done].
  - apply (Inv_owner _ _ ow); try done; unfold ownerView, leaseView, countView; simpl; rewrite ?Hp; try done.
    intros [W1 W2 W3]; split; simpl; [by rewrite W1, Hp|done|]. unfold kept. simpl. by rewrite Hg.
Qed.

Lemma leaseView_lookup g o ow :
  g.(owners) !! o = Some ow → (leaseView <$> g.(owners)) !! o = Some (ow.(lane), kept ow, rest ow.(once)).
Proof. intros Ho. by rewrite lookup_fmap, Ho. Qed.

Lemma leaseReturn_Inv g o g' r : leaseReturn g o = Ret g' r → Inv g → Inv g'.
Proof.
  unfold leaseReturn. intros H HI. destruct (owners g !! o) as [ow|] eqn:Ho; [|done].
  destruct (once ow) as [| | |[|t rs]|] eqn:Hp; try done.
  destruct (leases g !! t) as [[sid o' b []]|] eqn:Ht; try done. ret H.
  split; try apply HI. pose proof (leaseView_lookup _ _ _ Ho) as Hv. rewrite Hp in Hv.
  eapply ledger_return; [exact Hv|done|apply HI].
Qed.

Lemma leaseSettle_Inv g o g' r : leaseSettle g o = Ret g' r → Inv g → Inv g'.
Proof.
  unfold leaseSettle. intros H HI. destruct (owners g !! o) as [ow|] eqn:Ho; [|done].
  destruct (once ow) as [| | |[|t rs]|] eqn:Hp; try done.
  destruct (leases g !! t) as [[sid o' b []]|] eqn:Ht; try done.
  destruct (slots g !! sid) as [sl|] eqn:Hs; [|done]. ret H.
  pose proof (leaseView_lookup _ _ _ Ho) as Hv. rewrite Hp in Hv.
  split; simpl.
  - rewrite (fmap_insert_same _ (slots g) _ sl), (fmap_insert_same _ (owners g) _ ow); try done; [apply HI|].
    unfold ownerView. simpl. by rewrite Hp.
  - rewrite (fmap_insert_same _ _ _ ow); [apply HI|done|]. unfold countView. simpl. by rewrite Hp.
  - rewrite !fmap_insert. eapply ledger_settle; [exact Hv|done|by apply lookup_fmap_Some_2|apply HI].
  - apply map_Forall_insert_2; [|apply HI]. destruct (inv_owners _ HI _ _ Ho) as [W1 W2 W3].
    split; simpl; [by rewrite W1, Hp|done|]. intros _. apply W3. by rewrite Hp.
Qed.

Lemma closeRemove_Inv g o g' r : closeRemove g o = Ret g' r → Inv g → Inv g'.
Proof.
  unfold closeRemove. intros H HI. destruct (owners g !! o) as [ow|] eqn:Ho; [|done].
  destruct (once ow) as [| | |[|t rs]|] eqn:Hp; try done.
  destruct (lane_slot g (lane ow)) as [[sid sl]|] eqn:Hls; [|done].
  apply lane_slot_Some in Hls as [HL HS]. ret H.
  destruct (inv_owners _ HI _ _ Ho) as [W1 W2 W3]. rewrite Hp in W1, W3. simpl in W1.
  pose proof (lookup_fmap_Some_2 slotView _ _ _ HS) as HS'.
  assert (HO : (ownerView <$> owners g) !! o = Some (lane ow, state ow, false)).
  { erewrite lookup_fmap_Some_2 by done. unfold ownerView. by rewrite Hp. }
  set (ow' := set_closing ow (closed ow) Gone).
  assert (Hwf : map_Forall (λ _, wfOwner) (<[o := ow']> (owners g))).
  { apply map_Forall_insert_2; [|apply HI]. split; simpl; [by rewrite W1|done|by intros _; apply W3]. }
  assert (Hcount : countView <$> <[o := ow']> (owners g) = countView <$> owners g).
  { apply (fmap_insert_same _ _ _ ow); [done|]. unfold countView. simpl. by rewrite Hp. }
  assert (Hlease : leaseView <$> <[o := ow']> (owners g) = leaseView <$> owners g).
  { apply (fmap_insert_same _ _ _ ow); [done|]. unfold leaseView. simpl. by rewrite Hp. }
  case_bool_decide as Hrest; split; simpl; rewrite ?Hcount, ?Hlease, ?fmap_insert; try done; try apply HI.
  - eapply registry_remove_last; [exact HL|exact HS'|exact HO|done|apply HI].
  - rewrite (insert_id (slot_growth <$> slots g)) by (by rewrite lookup_fmap, HS).
    apply ledger_drop_lane; [|apply HI].
    intros o2 k r2 E. apply lookup_fmap_Some in E as (ow2 & [= E1 <- <-] & E2).
    destruct (decide (o2 = o)) as [->|].
    + rewrite Ho in E2. injection E2 as <-. rewrite Hp, W3 by done. done.
    + destruct (isGone (once ow2)) eqn:Hg.
      * destruct (inv_owners _ HI _ _ E2) as [_ _ V3]. destruct (once ow2); try done.
        by rewrite V3.
      * exfalso. destruct (owner_slot g o2 ow2 HI E2 Hg) as (sid2 & sl2 & E3 & E4).
        apply lane_slot_Some in E3 as [E3 E5]. rewrite E1, HL in E3. injection E3 as <-.
        rewrite HS in E5. injection E5 as <-.
        assert (o2 ∈ slot_owners sl ∖ {[o]}) as Hx by set_solver. rewrite Hrest in Hx. set_solver.
  - eapply registry_remove; [exact HL|exact HS'|exact HO|done|apply HI].
  - rewrite (insert_id (slot_growth <$> slots g)) by (by rewrite lookup_fmap, HS). apply HI.
Qed.

Lemma baseRelease_Inv g sid g' r : baseRelease g sid = Ret g' r → Inv g → Inv g'.
Proof.
  unfold baseRelease. intros H HI. case_bool_decide; [|done]. ret H.
  split; simpl; try apply HI. apply registry_refund; [done|apply HI].
Qed.

Lemma CloseFence_Inv g iter g' r : CloseFence g iter = Ret g' r → Inv g → Inv g'.
Proof. unfold CloseFence. intros H HI. ret H. split; apply HI. Qed.

#[local] Hint Resolve Acquire_Inv Attach_Inv Grow_Inv publish_Inv idleRecord_Inv BeginOpen_Inv
  finishRegister_Inv finishCount_Inv finishDone_Inv dispose_Inv closeBegin_Inv closeJoin_Inv
  releaseGrowth_Inv leaseReturn_Inv leaseSettle_Inv closeRemove_Inv baseRelease_Inv CloseFence_Inv : core.

Lemma lstep_Inv g g' : lstep g g' → Inv g → Inv g'.
Proof. destruct 1; eauto 2. Qed.

Lemma reachable_Inv g : reachable g → Inv g.
Proof. intros H. exact (rtc_invariant lstep Inv lstep_Inv _ _ H Inv_empty). Qed.
End LaneOwnersProps.
