(* ===== verification/LaneOwnersTheorems.v ===== *)
(** What every interleaving of the critical sections of lane ownership
    guarantees: the registry and its two ledgers, the join before a refund, the
    absence of panics, the opening fence, replacement on idle lanes, and the
    termination of [LaneOwner.Close]. *)

From S2P Require Import Prelude.
From S2P Require Import LaneOwners.
From S2P Require Import LaneOwnersInv.
From S2P Require Import LaneOwnersProps.

Module LaneOwnersTheorems.
Import LaneOwners LaneOwnersInv LaneOwnersProps.

(** ** What a step does to the opens and the activity of an owner *)

Definition idle (ow : LaneOwner) : Prop := ow.(openingCount) = 0 ∧ ow.(application) = ∅.

Definition calm (ow ow' : LaneOwner) : Prop :=
  ow'.(openingsDone) = ow.(openingsDone) ∧ ow'.(activity) = ow.(activity) ∧
  ow'.(openingCount) = ow.(openingCount) ∧ ow'.(application) ⊆ ow.(application).

Definition frame (g g' : LaneOwners) : Prop :=
  g'.(opens) = g.(opens) ∧ g'.(channels) = g.(channels) ∧
  ∀ o ow, g.(owners) !! o = Some ow → ∃ ow', g'.(owners) !! o = Some ow' ∧ calm ow ow'.

Record progress (g g' : LaneOwners) : Prop := {
  pr_open : ∀ t o ph, g.(opens) !! t = Some (mkOpening o ph) → ∃ ph',
    g'.(opens) !! t = Some (mkOpening o ph') ∧ counts ph' ≤ counts ph ∧
    (counts ph' = 1 → ∀ ow c, g.(owners) !! o = Some ow → ow.(openingsDone) = Some c →
      g.(channels) !! c = Some false → ∃ ow', g'.(owners) !! o = Some ow' ∧
      ow'.(openingsDone) = Some c ∧ g'.(channels) !! c = Some false);
  pr_owner : ∀ o ow, g.(owners) !! o = Some ow → ∃ ow', g'.(owners) !! o = Some ow' ∧
    (ow'.(activity) = ow.(activity) ∧ (idle ow → idle ow') ∨
     ow'.(activity) = u64 (ow.(activity) + 1));
}.

Lemma frame_progress g g' : frame g g' → progress g g'.
Proof.
  intros (E1 & E2 & E3). split.
  - intros t o ph Ht. exists ph. rewrite E1, E2. split_and!; [done|lia|].
    intros _ ow c Ho Hc Hch. destruct (E3 _ _ Ho) as (ow' & ? & Hd & _). exists ow'. by rewrite Hd.
  - intros o ow Ho. destruct (E3 _ _ Ho) as (ow' & ? & _ & Ha & Hn & Happ). exists ow'.
    split; [done|]. left. split; [done|]. unfold idle. rewrite Hn. intros [? E]. rewrite E in Happ.
    set_solver.
Qed.

Lemma calm_refl ow : calm ow ow.
Proof. by repeat split. Qed.
#[local] Hint Resolve calm_refl : core.

#[local] Hint Extern 1 (calm _ _) => (repeat split; done) : core.

Lemma frame_same g g' :
  g'.(opens) = g.(opens) → g'.(channels) = g.(channels) → g'.(owners) = g.(owners) → frame g g'.
Proof. intros E1 E2 E3. split_and!; [done..|]. rewrite E3. eauto. Qed.

Lemma frame_put g g' o ow ow' :
  g'.(opens) = g.(opens) → g'.(channels) = g.(channels) → g'.(owners) = <[o := ow']> g.(owners) →
  g.(owners) !! o = Some ow → calm ow ow' → frame g g'.
Proof.
  intros E1 E2 E3 Ho Hc. split_and!; [done..|]. intros o' ow0 Ho'. rewrite E3.
  destruct (decide (o' = o)) as [->|]; [rewrite lookup_insert_eq|rewrite lookup_insert_ne by done].
  - rewrite Ho in Ho'. injection Ho' as <-. eauto.
  - eauto.
Qed.

Lemma frame_trans g1 g2 g3 : frame g1 g2 → frame g2 g3 → frame g1 g3.
Proof.
  intros (A1 & A2 & A3) (B1 & B2 & B3). split_and!; [congruence..|]. intros o ow Ho.
  destruct (A3 _ _ Ho) as (x & Hx & C1 & C2 & C3 & C4).
  destruct (B3 _ _ Hx) as (z & Hz & D1 & D2 & D3 & D4). exists z. split; [done|].
  repeat split; try congruence. set_solver.
Qed.

(** Split an equation [op = Ret g' r] into its returning branches. *)
Ltac branches H := repeat (case_hyp H; try discriminate H); try (injection H as <- <-).

Lemma Acquire_frame g l id repl res ok sid o g' r :
  Acquire g l id repl res ok sid o = Ret g' r → frame g g'.
Proof.
  unfold Acquire. intros H. case_hyp H; [done|]. bprop. rename H1 into Hfr.
  apply eq_None_not_Some in Hfr. 
  assert (Hs : ∀ g1, g1.(opens) = g.(opens) → g1.(channels) = g.(channels) →
    g1.(owners) = <[o := newOwner l id]> g.(owners) → frame g g1).
  { intros g1 E1 E2 E3. split_and!; [done..|]. intros o' ow Ho. rewrite E3.
    rewrite lookup_insert_ne by congruence. eauto. }
  case_hyp H; [injection H as <- <-; by apply frame_same|].
  case_hyp H; [injection H as <- <-; by apply frame_same|].
  unfold acquireSlot in H. destruct (g_lanes g !! l) as [sid'|].
  - branches H; try (by apply frame_same). by apply Hs.
  - destruct (negb (String.eqb repl "")); [injection H as <- <-; by apply frame_same|].
    destruct (negb ok); [injection H as <- <-; by apply frame_same|].
    branches H; try (by apply frame_same). by apply Hs.
Qed.

Lemma Attach_frame g o s aggr g' r : Attach g o s aggr = Ret g' r → frame g g'.
Proof.
  unfold Attach. intros H. branches H; try (by apply frame_same); by eapply frame_put.
Qed.

Lemma growthReserve_frame g o ow b ok t : frame g (growthReserve g o ow b ok t).1.
Proof.
  unfold growthReserve. destruct (lane_slot _ _) as [[sid sl]|]; [|by apply frame_same].
  destruct (_ || _); [by apply frame_same|]. by destruct ok; apply frame_same.
Qed.

Lemma growthReserve_owners g o ow b ok t : owners (growthReserve g o ow b ok t).1 = owners g.
Proof.
  unfold growthReserve. destruct (lane_slot _ _) as [[sid sl]|]; [|done].
  destruct (_ || _); [done|]. by destruct ok.
Qed.

Lemma Grow_frame g0 g o target y ok t g' r : Grow g0 g o target y ok t = Ret g' r → frame g g'.
Proof.
  unfold Grow. intros H. case_hyp H; [done|].
  destruct (owners g !! o) as [ow|] eqn:Ho; [|done].
  destruct (growth ow) as [gr|] eqn:Hgr; [|injection H as <- <-; by apply frame_same].
  repeat (case_hyp H; [injection H as <- <-; by apply frame_same|]).
  case_hyp H; [|injection H as <- <-; by apply frame_same].
  match type of H with context [growthReserve ?a ?b ?c ?d ?e ?f] =>
    pose proof (growthReserve_frame a b c d e f) as Hf;
    pose proof (growthReserve_owners a b c d e f) as Ho';
    destruct (growthReserve a b c d e f) as [g1 okr] end.
  simpl in Hf, Ho'. case_hyp H; [by injection H as <- <-|].
  apply (frame_trans _ g1); [done|].
  case_hyp H; injection H as <- <-; (eapply frame_put; [done|done|done|by rewrite Ho'|by repeat split]).
Qed.

Lemma publish_frame g o expected epoch idle g' r :
  publish g o expected epoch idle = Ret g' r → frame g g'.
Proof.
  unfold publish. intros H. destruct (owners g !! o) as [ow|] eqn:Ho; [|done].
  case_hyp H; [injection H as <- <-; by apply frame_same|].
  destruct (lane_slot g (lane ow)) as [[sid sl]|]; [|done].
  case_hyp H; [injection H as <- <-; by apply frame_same|].
  case_hyp H; [injection H as <- <-; by apply frame_same|]. injection H as <- <-. bprop.
  destruct (slot_serving sl) as [x|] eqn:Hx; [|by eapply frame_put].
  destruct (owners g !! x) as [old|] eqn:Hox; [|by eapply frame_put].
  apply (frame_trans _ (put_owner g x (set_state old LaneDraining))); [by eapply frame_put|].
  eapply (frame_put _ _ o ow); [done|done|done| |by repeat split].
  simpl. rewrite lookup_insert_ne; [done|congruence].
Qed.

Lemma closeBegin_frame g o g' r : closeBegin g o = Ret g' r → frame g g'.
Proof. unfold closeBegin. intros H. branches H. by eapply frame_put. Qed.

Lemma closeJoin_frame g o g' r : closeJoin g o = Ret g' r → frame g g'.
Proof.
  unfold closeJoin. intros H. branches H. eapply frame_put; [done|done|done|done|].
  repeat split; simpl. set_solver.
Qed.

Lemma releaseGrowth_frame g o g' r : releaseGrowth g o = Ret g' r → frame g g'.
Proof. unfold releaseGrowth. intros H. branches H; by eapply frame_put. Qed.

Lemma leaseReturn_frame g o g' r : leaseReturn g o = Ret g' r → frame g g'.
Proof. unfold leaseReturn. intros H. branches H; by apply frame_same. Qed.

Lemma leaseSettle_frame g o g' r : leaseSettle g o = Ret g' r → frame g g'.
Proof. unfold leaseSettle. intros H. branches H; by eapply frame_put. Qed.

Lemma closeRemove_frame g o g' r : closeRemove g o = Ret g' r → frame g g'.
Proof.
  unfold closeRemove. intros H. destruct (owners g !! o) as [ow|] eqn:Ho; [|done].
  destruct (once ow) as [| | |[]|]; try done. destruct (lane_slot _ _) as [[sid sl]|]; [|done].
  injection H as <- <-. case_bool_decide; by eapply frame_put.
Qed.

Lemma baseRelease_frame g sid g' r : baseRelease g sid = Ret g' r → frame g g'.
Proof. unfold baseRelease. intros H. branches H. by apply frame_same. Qed.

Lemma CloseFence_frame g iter g' r : CloseFence g iter = Ret g' r → frame g g'.
Proof. unfold CloseFence. intros H. injection H as <- <-. by apply frame_same. Qed.

(** An update of one owner that touches its activity, with the openings moved
    by [T] and the channels by [C]. *)
Lemma progress_touch g g' o ow ow' :
  g.(owners) !! o = Some ow → g'.(owners) = <[o := ow']> g.(owners) →
  (activity ow' = activity ow ∧ (idle ow → idle ow') ∨ activity ow' = u64 (activity ow + 1)) →
  (∀ t o' ph, g.(opens) !! t = Some (mkOpening o' ph) → ∃ ph',
     g'.(opens) !! t = Some (mkOpening o' ph') ∧ counts ph' ≤ counts ph ∧
     (counts ph' = 1 → ∀ ow0 c, g.(owners) !! o' = Some ow0 → ow0.(openingsDone) = Some c →
       g.(channels) !! c = Some false → g'.(channels) !! c = Some false ∧
       (o' = o → ow'.(openingsDone) = Some c))) →
  progress g g'.
Proof.
  intros Ho E Ha Ht. split.
  - intros t o' ph Ht0. destruct (Ht _ _ _ Ht0) as (ph' & ? & ? & Hc). exists ph'. split_and!; [done..|].
    intros H1 ow0 c Ho0 Hd Hch. destruct (Hc H1 _ _ Ho0 Hd Hch) as [? Hd'].
    rewrite E. destruct (decide (o' = o)) as [->|].
    + exists ow'. rewrite lookup_insert_eq. auto.
    + exists ow0. rewrite lookup_insert_ne by done. auto.
  - intros o' ow0 Ho0. rewrite E. destruct (decide (o' = o)) as [->|].
    + rewrite Ho in Ho0. injection Ho0 as <-. exists ow'. by rewrite lookup_insert_eq.
    + exists ow0. rewrite lookup_insert_ne by done. auto.
Qed.

Lemma idleRecord_progress g o epoch drained now since quiet g' r :
  idleRecord g o epoch drained now since quiet = Ret g' r → progress g g'.
Proof.
  unfold idleRecord. intros H. destruct (owners g !! o) as [ow|] eqn:Ho; [|done].
  case_hyp H; injection H as <- <-; (eapply (progress_touch _ _ o ow); [done|done| |]).
  2, 4: simpl; intros t o' ph Ht; exists ph; split_and!; [done|lia|];
    intros _ ow0 c Ho0 Hd Hch; split; [done|]; intros ->; simpl; congruence.
  - simpl. case_goal; [left|right]; done.
  - simpl. by left.
Qed.

(** Openings untouched but for [t], which takes a phase that weighs no more. *)
Lemma moved_opening (T : gmap nat opening) t o p ph' :
  T !! t = Some (mkOpening o p) → counts ph' ≤ counts p →
  ∀ t0 o0 ph, T !! t0 = Some (mkOpening o0 ph) → ∃ ph0,
    <[t := mkOpening o ph']> T !! t0 = Some (mkOpening o0 ph0) ∧ counts ph0 ≤ counts ph ∧
    (t0 = t ∧ ph0 = ph' ∨ t0 ≠ t ∧ ph0 = ph).
Proof.
  intros Ht Hp t0 o0 ph Ht0. destruct (decide (t0 = t)) as [->|].
  - rewrite Ht in Ht0. injection Ht0 as <- <-. exists ph'. rewrite lookup_insert_eq. auto.
  - exists ph. rewrite lookup_insert_ne by done. split_and!; [done|lia|auto].
Qed.

Lemma finishRegister_progress g t st g' r :
  finishRegister g t st = Ret g' r → Inv g → progress g g'.
Proof.
  unfold finishRegister. intros H HI. destruct (opens g !! t) as [[o []]|] eqn:Ht; try done.
  destruct (owners g !! o) as [ow|] eqn:Ho; [|done].
  assert (Hn : 1 ≤ openingCount ow).
  { destruct (acc_total _ _ _ (inv_accounting _ HI) _ _ _ _ _ _ (countView_lookup _ _ _ Ho)) as [_ ->].
    by apply (total_pos counts _ t _ Opened counts_nonneg). }
  assert (Hgen : ∀ g1 app, g1.(opens) = <[t := mkOpening o Registered]> g.(opens) →
    g1.(channels) = g.(channels) → g1.(owners) = <[o := set_application ow app]> g.(owners) → progress g g1).
  { intros g1 app E1 E2 E3. eapply (progress_touch _ _ o ow); [done|done| |].
    - left. split; [done|]. intros [? _]. lia.
    - intros t0 o0 ph Ht0. destruct (moved_opening _ t o Opened Registered Ht ltac:(done) _ _ _ Ht0)
        as (ph0 & ? & ? & _). exists ph0. rewrite E1, E2. split_and!; [done..|].
      intros _ ow0 c Ho0 Hd Hch. split; [done|]. intros ->. simpl. congruence. }
  assert (Hid : owners g = <[o := set_application ow (application ow)]> (owners g)).
  { rewrite insert_id; [done|]. rewrite Ho. by destruct ow. }
  destruct st as [st|]; [|by injection H as <- <-; eapply Hgen].
  case_hyp H; injection H as <- <-; by eapply Hgen.
Qed.

Lemma finishCount_progress g t g' r : finishCount g t = Ret g' r → Inv g → progress g g'.
Proof.
  unfold finishCount. intros H HI. destruct (opens g !! t) as [[o []]|] eqn:Ht; try done.
  destruct (owners g !! o) as [ow|] eqn:Ho; [|done].
  pose proof (inv_accounting _ HI) as HA. pose proof (countView_lookup _ _ _ Ho) as Hv.
  assert (Hmove := moved_opening _ t o Registered Counted Ht ltac:(done)).
  case_hyp H; bprop.
  - unfold closeChannel in H. simpl in H. destruct (openingsDone ow) as [c0|] eqn:Hc0; [|done].
    destruct (channels g !! c0) as [[]|] eqn:Ec; try done. injection H as <- <-.
    eapply (progress_touch _ _ o ow); [done|done|by right|]. simpl.
    intros t0 o0 ph Ht0. destruct (Hmove _ _ _ Ht0) as (ph0 & ? & ? & Hcase).
    exists ph0. split_and!; [done..|]. intros H1 ow0 c Ho0 Hd Hch.
    destruct Hcase as [[-> ->]|[Hne ->]]; [done|].
    assert (o0 ≠ o) as Hoo.
    { intros ->. destruct (acc_total _ _ _ HA _ _ _ _ _ _ Hv) as [_ Htot].
      pose proof (total_two counts (opens g) t t0 o Registered ph counts_nonneg Ht Ht0 ltac:(done)).
      simpl in *. lia. }
    split; [|by intros ->]. rewrite lookup_insert_ne; [done|]. intros <-.
    apply Hoo. pose proof (countView_lookup _ _ _ Ho0) as Hv0. rewrite Hd in Hv0.
    by eapply (acc_sep _ _ _ HA).
  - injection H as <- <-. eapply (progress_touch _ _ o ow); [done|done|by right|]. simpl.
    intros t0 o0 ph Ht0. destruct (Hmove _ _ _ Ht0) as (ph0 & ? & ? & _).
    exists ph0. split_and!; [done..|]. intros H1 ow0 c Ho0 Hd Hch. split; [done|].
    intros ->. congruence.
Qed.

Lemma finishDone_progress g t g' r : finishDone g t = Ret g' r → progress g g'.
Proof.
  unfold finishDone. intros H. destruct (opens g !! t) as [[o []]|] eqn:Ht; try done.
  destruct (owners g !! o) as [ow|] eqn:Ho; [|done]. case_hyp H; [done|]. injection H as <- <-.
  eapply (progress_touch _ _ o ow); [done|done|by left|]. simpl. intros t0 o0 ph Ht0.
  destruct (moved_opening _ t o Counted Finished Ht ltac:(done) _ _ _ Ht0) as (ph0 & ? & ? & _).
  exists ph0. split_and!; [done..|]. intros _ ow0 c Ho0 Hd Hch. split; [done|]. intros ->. congruence.
Qed.

Lemma dispose_progress g o st g' r : dispose g o st = Ret g' r → progress g g'.
Proof.
  unfold dispose. intros H. destruct (owners g !! o) as [ow|] eqn:Ho; [|done]. injection H as <- <-.
  eapply (progress_touch _ _ o ow); [done|done|by right|]. simpl. intros t0 o0 ph Ht0.
  exists ph. split_and!; [done|lia|]. intros _ ow0 c Ho0 Hd Hch. split; [done|]. intros ->. congruence.
Qed.

Lemma BeginOpen_progress g o t c g' r : BeginOpen g o t c = Ret g' r → Inv g → progress g g'.
Proof.
  unfold BeginOpen. intros H HI. case_hyp H; [done|]. bprop.
  rename H0 into Ht, H1 into Hc. apply eq_None_not_Some in Ht, Hc.
  destruct (owners g !! o) as [ow|] eqn:Ho; [|done].
  case_hyp H; [injection H as <- <-; by apply frame_progress, frame_same|].
  pose proof (inv_accounting _ HI) as HA. pose proof (countView_lookup _ _ _ Ho) as Hv.
  assert (Hfresh : ∀ t0 o0 ph, opens g !! t0 = Some (mkOpening o0 ph) →
    <[t := mkOpening o Opened]> (opens g) !! t0 = Some (mkOpening o0 ph)).
  { intros t0 o0 ph Ht0. rewrite lookup_insert_ne; [done|congruence]. }
  case_hyp H; injection H as <- <-; eapply (progress_touch _ _ o ow); try done; try (by right);
    simpl; intros t0 o0 ph Ht0; exists ph; (split_and!; [by apply Hfresh|lia|]);
    intros H1 ow0 c0 Ho0 Hd Hch.
  - split; [rewrite lookup_insert_ne; [done|congruence]|]. intros ->. exfalso.
    destruct (acc_total _ _ _ HA _ _ _ _ _ _ Hv) as [_ Htot].
    pose proof (total_pos counts _ _ _ _ counts_nonneg Ht0). simpl in *. bprop. lia.
  - split; [done|]. intros ->. congruence.
Qed.

#[local] Hint Resolve Acquire_frame Attach_frame Grow_frame publish_frame closeBegin_frame
  closeJoin_frame releaseGrowth_frame leaseReturn_frame leaseSettle_frame closeRemove_frame
  baseRelease_frame CloseFence_frame : core.
#[local] Hint Resolve idleRecord_progress finishRegister_progress finishCount_progress
  finishDone_progress dispose_progress BeginOpen_progress frame_progress : core.

Lemma lstep_progress g g' : lstep g g' → Inv g → progress g g'.
Proof. destruct 1; eauto 3. Qed.

(** A trace of [n] steps touches an owner [k ≤ n] times. *)
Lemma trace_activity n g g' o ow :
  nsteps lstep n g g' → Inv g → g.(owners) !! o = Some ow → ∃ ow' k,
    g'.(owners) !! o = Some ow' ∧ 0 ≤ k ≤ Z.of_nat n ∧
    (k = 0 ∧ ow'.(activity) = ow.(activity) ∧ (idle ow → idle ow') ∨
     0 < k ∧ ow'.(activity) = u64 (ow.(activity) + k)).
Proof.
  intros Hs. revert ow. induction Hs as [g|n g g1 g' Hstep Hs IH]; intros ow HI Ho.
  - exists ow, 0. split_and!; [done|lia|lia|]. by left.
  - destruct (pr_owner _ _ (lstep_progress _ _ Hstep HI) _ _ Ho) as (ow1 & Ho1 & Hc1).
    destruct (IH ow1 (lstep_Inv _ _ Hstep HI) Ho1) as (ow' & k & Ho' & Hk & Hc).
    destruct Hc1 as [[Ea Hi]|Ea], Hc as [(-> & Ea' & Hi')|(Hp & Ea')].
    + exists ow', 0. split_and!; [done|lia|lia|]. left. split_and!; [done|congruence|auto].
    + exists ow', k. split_and!; [done|lia|lia|]. right. split; [done|]. by rewrite Ea', Ea.
    + exists ow', 1. split_and!; [done|lia|lia|]. right. split; [lia|]. by rewrite Ea', Ea.
    + exists ow', (k + 1). split_and!; [done|lia|lia|]. right. split; [lia|].
      rewrite Ea', Ea. unfold u64. rewrite Zplus_mod_idemp_l. f_equal. lia.
Qed.

Lemma u64_moves a k : 0 < k < two64 → u64 (a + k) ≠ a.
Proof.
  intros Hk E. pose proof (u64_range (a + k)) as R. unfold u64 in *. rewrite E in R.
  assert (a + k < 2 * two64) by lia. unfold two64 in *.
  destruct (Z_lt_ge_dec (a + k) 18446744073709551616).
  - rewrite Z.mod_small in E; lia.
  - rewrite <- (Z.mod_add _ (-1)) in E by lia. rewrite Z.mod_small in E; lia.
Qed.

(** Between two states with the same activity, fewer than 2^64 steps apart, an
    idle owner stays idle. *)
Lemma same_activity_idle n1 n2 g0 mid g1 o ow0 ow1 :
  nsteps lstep n1 g0 mid → nsteps lstep n2 mid g1 → Z.of_nat n1 + Z.of_nat n2 < two64 → Inv g0 →
  g0.(owners) !! o = Some ow0 → g1.(owners) !! o = Some ow1 →
  ow1.(activity) = ow0.(activity) → idle ow0 →
  ∃ ow, mid.(owners) !! o = Some ow ∧ ow.(activity) = ow0.(activity) ∧ idle ow.
Proof.
  intros H1 H2 Hn HI Ho0 Ho1 Ea Hi.
  destruct (trace_activity _ _ _ _ _ H1 HI Ho0) as (ow & k1 & Ho & Hk1 & C1).
  assert (HI' : Inv mid).
  { eapply (rtc_invariant lstep Inv lstep_Inv); [|exact HI]. by eapply rtc_nsteps_2. }
  destruct (trace_activity _ _ _ _ _ H2 HI' Ho) as (ow1' & k2 & Ho1' & Hk2 & C2).
  rewrite Ho1 in Ho1'. injection Ho1' as <-. exists ow. split; [done|].
  destruct C1 as [(-> & E1 & Hi1)|(P1 & E1)]; [auto|]. exfalso.
  destruct C2 as [(-> & E2 & _)|(P2 & E2)].
  - apply (u64_moves (activity ow0) k1); [lia|]. congruence.
  - apply (u64_moves (activity ow0) (k1 + k2)); [lia|].
    rewrite <- Ea at 2. rewrite E2, E1. unfold u64. rewrite Zplus_mod_idemp_l. f_equal. lia.
Qed.

(** An opening counted, or whose channel is still the owner's and still open. *)
Definition fenced (o t c : nat) (g : LaneOwners) : Prop :=
  ∃ ph, g.(opens) !! t = Some (mkOpening o ph) ∧
    (counts ph = 0 ∨ ∃ ow, g.(owners) !! o = Some ow ∧ ow.(openingsDone) = Some c ∧
       g.(channels) !! c = Some false).

Lemma fenced_trace o t c g g' : rtc lstep g g' → Inv g → fenced o t c g → fenced o t c g'.
Proof.
  induction 1 as [|g g1 g' Hstep _ IH]; [done|]. intros HI (ph & Ht & Hc).
  apply IH; [by eapply lstep_Inv|].
  destruct (pr_open _ _ (lstep_progress _ _ Hstep HI) _ _ _ Ht) as (ph' & Ht' & Hle & Hk).
  exists ph'. split; [done|]. pose proof (counts_nonneg ph').
  destruct (decide (counts ph' = 0)); [by left|]. right.
  assert (counts ph' = 1) as E1 by (by destruct ph').
  destruct Hc as [Hc|(ow & Ho & Hd & Hch)]; [lia|]. by eapply Hk.
Qed.

(** ** The loop of the release callbacks *)

Definition unreturned (g : LaneOwners) (ts : list nat) : Prop :=
  ∀ t ls, t ∈ ts → g.(leases) !! t = Some ls → ls.(ls_returned) = false.

(** The parts of the state that the release callbacks leave alone. *)
Definition sameRegistry (g g' : LaneOwners) : Prop :=
  g'.(g_lanes) = g.(g_lanes) ∧ slotView <$> g'.(slots) = slotView <$> g.(slots) ∧
  g'.(base) = g.(base) ∧ g'.(refunds) = g.(refunds).

(** No owner but [o] changes. *)
Definition onlyOwner (o : nat) (g g' : LaneOwners) : Prop :=
  ∀ o', o' ≠ o → g'.(owners) !! o' = g.(owners) !! o'.

(** One callback: both of its steps run. *)
Lemma release_one g o ow t ts :
  Inv g → g.(owners) !! o = Some ow → ow.(once) = Refunding (t :: ts) → unreturned g (t :: ts) →
  ∃ g1 g2, leaseReturn g o = Ret g1 tt ∧ leaseSettle g1 o = Ret g2 tt ∧ sameRegistry g g2 ∧
    onlyOwner o g g2 ∧ unreturned g2 ts ∧ ∃ ow', g2.(owners) !! o = Some ow' ∧ ow'.(once) = Refunding ts ∧ ow'.(lane) = ow.(lane).
Proof.
  intros HI Ho Hp Hu. pose proof (inv_ledger _ HI) as HL.
  pose proof (leaseView_lookup _ _ _ Ho) as Hv. rewrite Hp in Hv. simpl in Hv.
  destruct (led_held _ _ _ _ _ HL _ _ _ _ Hv) as [Hnd Hh].
  destruct (Hh t) as (ls & Ht & Hown); [set_solver|].
  destruct (led_lease _ _ _ _ _ HL _ _ Ht) as (_ & _ & _ & _ & _ & _ & _ & [gr Hs]).
  apply lookup_fmap_Some in Hs as (sl & <- & Hs).
  pose proof (Hu t ls ltac:(set_solver) Ht) as Hr.
  destruct ls as [sid o' b ret]. simpl in *. subst ret o'.
  eexists _, _. unfold leaseReturn, leaseSettle. rewrite Ho, Hp, Ht. simpl.
  split; [done|]. simpl. rewrite Ho, Hp, lookup_insert_eq, Hs. split; [done|]. split; [|split; [|split]].
  - repeat split. simpl. by rewrite (fmap_insert_same _ _ _ sl).
  - intros o' Hne. simpl. by rewrite lookup_insert_ne.
  - intros t' ls' Hin E. simpl in E. rewrite delete_insert_eq in E. lk E.
    apply (Hu t' ls'); [set_solver|done].
  - eexists. simpl. rewrite lookup_insert_eq. split_and!; [done|done|done].
Qed.

Lemma runReleases_returns ts : ∀ g o ow,
  Inv g → g.(owners) !! o = Some ow → ow.(once) = Refunding ts → unreturned g ts →
  ∃ g', runReleases (length ts) g o = Ret g' tt ∧ rtc lstep g g' ∧ sameRegistry g g' ∧
    onlyOwner o g g' ∧ ∃ ow', g'.(owners) !! o = Some ow' ∧ ow'.(once) = Refunding [] ∧ ow'.(lane) = ow.(lane).
Proof.
  induction ts as [|t ts IH]; intros g o ow HI Ho Hp Hu.
  - exists g. simpl. split_and!; [done|apply rtc_refl|by repeat split|by intros ? ?|]. eauto.
  - destruct (release_one g o ow t ts HI Ho Hp Hu) as (g1 & g2 & E1 & E2 & (S1 & S2 & S3 & S4) & HO2 & Hu2 &
      ow2 & Ho2 & Hp2 & Hl2).
    assert (R1 : lstep g g1) by (by eapply step_lease_return).
    assert (R2 : lstep g1 g2) by (by eapply step_lease_settle).
    destruct (IH g2 o ow2) as (g' & E & R & (T1 & T2 & T3 & T4) & HO' & ow' & Ho' & Hp' & Hl'); [|done..|].
    { eapply lstep_Inv; [done|]. by eapply lstep_Inv. }
    exists g'. simpl. rewrite E1. simpl. rewrite E2. simpl. split; [done|]. split; [|split; [|split]].
    + eapply rtc_l; [done|]. by eapply rtc_l.
    + split_and!; congruence.
    + intros x Hx. by rewrite HO', HO2.
    + exists ow'. split_and!; [done|done|congruence].
Qed.

Lemma releaseGrowth_returns g o ow :
  g.(owners) !! o = Some ow → ow.(once) = Resetting →
  ∃ g' ow', releaseGrowth g o = Ret g' tt ∧ g'.(owners) !! o = Some ow' ∧
    ow'.(once) = Refunding (kept ow) ∧ ow'.(lane) = ow.(lane) ∧ sameRegistry g g' ∧
    g'.(leases) = g.(leases) ∧ onlyOwner o g g'.
Proof.
  intros Ho Hp. unfold releaseGrowth, kept. rewrite Ho, Hp.
  destruct (growth ow) as [gr|] eqn:Hg; eexists _, _; (split; [done|]);
    (split; [apply lookup_insert_eq|]); repeat split;
    intros o' Hne; simpl; by rewrite lookup_insert_ne.
Qed.

Lemma singleton_rest (X : gset nat) o : o ∈ X → X ∖ {[o]} = ∅ → X = {[o]}.
Proof.
  intros Hin He. apply set_eq. intros x. split; [|set_solver]. intros Hx.
  destruct (decide (x = o)) as [->|]; [set_solver|].
  assert (x ∈ X ∖ {[o]}) as Hc by set_solver. rewrite He in Hc. set_solver.
Qed.

Lemma gone_no_lease g o ow :
  Inv g → g.(owners) !! o = Some ow → ow.(once) = Gone →
  ∀ t ls, g.(leases) !! t = Some ls → ls.(ls_owner) ≠ o.
Proof.
  intros HI Ho Hg t ls Ht <-. destruct (led_lease _ _ _ _ _ (inv_ledger _ HI) _ _ Ht)
    as (_ & l & k & r & E & Hin & _). rewrite (leaseView_lookup _ _ _ Ho), Hg in E.
  injection E as <- <- <-. rewrite (wf_kept _ (inv_owners _ HI _ _ Ho)) in Hin by (by rewrite Hg).
  simpl in Hin. set_solver.
Qed.

(** Nothing is returned before the loop starts. *)
Lemma kept_unreturned g o ow :
  Inv g → g.(owners) !! o = Some ow → rest ow.(once) = [] → unreturned g (kept ow).
Proof.
  intros HI Ho Hr t ls Hin Ht. pose proof (inv_ledger _ HI) as HL.
  pose proof (leaseView_lookup _ _ _ Ho) as Hv. rewrite Hr in Hv.
  destruct (ls_returned ls) eqn:E; [|done]. exfalso.
  destruct (led_held _ _ _ _ _ HL _ _ _ _ Hv) as [_ Hh].
  destruct (Hh t) as (ls' & Ht' & Hown); [set_solver|]. rewrite Ht in Ht'. injection Ht' as <-.
  destruct (led_returned _ _ _ _ _ HL _ _ Ht E) as (? & ? & ? & E'). rewrite Hown, Hv in E'. done.
Qed.

(** The end of the close, from the point where every lease is settled. *)
Lemma closeRemove_returns g o ow :
  Inv g → g.(owners) !! o = Some ow → ow.(once) = Refunding [] →
  ∃ sid sl g1, lane_slot g ow.(lane) = Some (sid, sl) ∧ o ∈ sl.(slot_owners) ∧
    closeRemove g o = Ret g1 tt ∧ g1.(base) = g.(base) ∧ onlyOwner o g g1 ∧
    (∃ ow', g1.(owners) !! o = Some ow' ∧ ow'.(once) = Gone) ∧
    (if bool_decide (sl.(slot_owners) ∖ {[o]} = ∅)
     then g1.(g_lanes) = delete ow.(lane) g.(g_lanes) ∧ g1.(refunds) = {[sid]} ∪ g.(refunds)
     else g1.(g_lanes) = g.(g_lanes) ∧ g1.(refunds) = g.(refunds)).
Proof.
  intros HI Ho Hp. destruct (owner_slot g o ow HI Ho) as (sid & sl & E & Hin); [by rewrite Hp|].
  exists sid, sl. eexists. split; [done|]. split; [done|]. unfold closeRemove. rewrite Ho, Hp, E.
  split; [done|]. case_bool_decide; (split; [done|]);
    (split; [intros o' Hne; simpl; by rewrite lookup_insert_ne|]); (split; [|done]);
    eexists; (split; [apply lookup_insert_eq|done]).
Qed.

(** The close up to its last critical section. *)
Lemma close_settles g o ow :
  Inv g → g.(owners) !! o = Some ow → ow.(closed) = false → ow.(openings) = 0 →
  ∃ g4 ow4, rtc lstep g g4 ∧ sameRegistry g g4 ∧ onlyOwner o g g4 ∧ g4.(owners) !! o = Some ow4 ∧
    ow4.(once) = Refunding [] ∧ ow4.(lane) = ow.(lane) ∧
    Close g o = obind (closeRemove g4 o) (λ g', match baseDue g4 g' o with
      | Some sid => baseRelease g' sid | None => Ret g' tt end).
Proof.
  intros HI Ho Hc Hw. assert (Hp : once ow = NotClosed) by (eapply open_phase; eauto).
  set (ow1 := set_closing ow true Joining). set (g1 := put_owner g o ow1).
  assert (E1 : closeBegin g o = Ret g1 tt) by (unfold closeBegin; by rewrite Ho, Hp).
  assert (Ho1 : owners g1 !! o = Some ow1) by apply lookup_insert_eq.
  set (ow2 := set_closing (set_application ow1 ∅) true Resetting).
  set (g2 := set_resets (put_owner g1 o ow2) (application ow1 ∪ resets g1)).
  assert (E2 : closeJoin g1 o = Ret g2 tt) by (unfold closeJoin; rewrite Ho1; simpl; by rewrite Hw).
  assert (Ho2 : owners g2 !! o = Some ow2) by apply lookup_insert_eq.
  destruct (releaseGrowth_returns g2 o ow2 Ho2 eq_refl) as (g3 & ow3 & E3 & Ho3 & Hp3 & Hl3 & HS3 & HLe3 & HO3).
  assert (R3 : rtc lstep g g3).
  { eapply rtc_l; [by eapply step_close_begin|]. eapply rtc_l; [by eapply step_close_join|].
    apply rtc_once. by eapply step_release_growth. }
  assert (HI3 : Inv g3) by (eapply (rtc_invariant lstep Inv lstep_Inv); eauto).
  destruct (runReleases_returns (kept ow2) g3 o ow3 HI3 Ho3 Hp3) as
    (g4 & E4 & R4 & HS4 & HO4 & ow4 & Ho4 & Hp4 & Hl4).
  { intros t ls Hin. rewrite HLe3. apply (kept_unreturned g o ow HI Ho); [by rewrite Hp|done]. }
  destruct HS3 as (S31 & S32 & S33 & S34), HS4 as (S41 & S42 & S43 & S44).
  exists g4, ow4. split; [by etrans|]. split; [split_and!; etrans; eauto|].
  split.
  { intros x Hx. rewrite HO4, HO3 by done. simpl. by rewrite !lookup_insert_ne. }
  split_and!; [done|done|by rewrite Hl4, Hl3|].
  unfold Close. rewrite E1. simpl. rewrite E2. simpl. rewrite E3. simpl.
  unfold releasesLeft. rewrite Ho3, Hp3, E4. done.
Qed.

(** [LaneOwner.Close] as a whole, with what it leaves alone. *)
Lemma close_effect g o ow sid sl :
  reachable g → g.(owners) !! o = Some ow → ow.(closed) = false → ow.(openings) = 0 →
  lane_slot g ow.(lane) = Some (sid, sl) →
  ∃ g', Close g o = Ret g' tt ∧ reachable g' ∧
    (∃ ow', g'.(owners) !! o = Some ow' ∧ ow'.(once) = Gone) ∧ onlyOwner o g g' ∧
    g'.(refunds) = g.(refunds) ∧
    (sl.(slot_owners) = {[o]} → g'.(g_lanes) !! ow.(lane) = None ∧ sid ∉ g'.(base)) ∧
    (sl.(slot_owners) ≠ {[o]} → g'.(g_lanes) = g.(g_lanes) ∧ g'.(base) = g.(base)).
Proof.
  intros HR Ho Hc Hw Hls. pose proof (reachable_Inv _ HR) as HI.
  destruct (close_settles g o ow HI Ho Hc Hw) as
    (g4 & ow4 & R4 & (S1 & S2 & S3 & S4) & HO4 & Ho4 & Hp4 & Hl4 & Hclose).
  apply lane_slot_Some in Hls as [HL HS].
  assert (HI4 : Inv g4) by (eapply (rtc_invariant lstep Inv lstep_Inv); eauto).
  destruct (closeRemove_returns g4 o ow4 HI4 Ho4 Hp4) as
    (sid' & sl' & g5 & Hls' & Hin & E5 & Hb & HO5 & Hgone & Hcase).
  rewrite E5 in Hclose. simpl in Hclose. rewrite Hl4 in *.
  apply lane_slot_Some in Hls' as [HL' HS']. rewrite S1, HL in HL'. injection HL' as <-.
  assert (Hsl : slot_owners sl' = slot_owners sl).
  { apply (lookup_fmap_Some_2 slotView) in HS'. rewrite S2 in HS'.
    rewrite lookup_fmap, HS in HS'. by injection HS' as -> _ _. }
  rewrite Hsl in Hin, Hcase. clear HS'.
  assert (Hdue : baseDue g4 g5 o = if bool_decide (sid ∈ refunds g5) then Some sid else None).
  { unfold baseDue. by rewrite Ho4, Hl4, S1, HL. }
  assert (Hnr : sid ∉ refunds g) by (by eapply (reg_due _ _ _ _ _ (inv_registry _ HI))).
  assert (R5 : reachable g5).
  { unfold reachable. etrans; [exact HR|]. eapply rtc_r; [exact R4|]. by eapply step_close_remove. }
  assert (HO : onlyOwner o g g5) by (intros x Hx; by rewrite HO5, HO4).
  destruct (bool_decide (slot_owners sl ∖ {[o]} = ∅)) eqn:Hrest; destruct Hcase as [HLf HRf]; bprop.
  - assert (Hin5 : sid ∈ refunds g5) by (rewrite HRf; set_solver).
    rewrite (bool_decide_true _ Hin5) in Hdue. rewrite Hdue in Hclose.
    assert (R6 : ∀ g6, baseRelease g5 sid = Ret g6 tt → reachable g6).
    { intros g6 E. eapply rtc_r; [exact R5|]. by eapply step_base_release. }
    unfold baseRelease in *. rewrite (bool_decide_true _ Hin5) in *. specialize (R6 _ eq_refl).
    eexists. split; [exact Hclose|]. split_and!; [done|done|done| | |].
    + simpl. rewrite HRf, S4. clear - Hnr. set_solver.
    + intros _. simpl. rewrite HLf, lookup_delete_eq. set_solver.
    + intros Hn. exfalso. apply Hn. by apply singleton_rest.
  - assert (Hnin : sid ∉ refunds g5) by (rewrite HRf, S4; done).
    rewrite (bool_decide_false _ Hnin) in Hdue. rewrite Hdue in Hclose.
    exists g5. split_and!; [done|done|done|done|by rewrite HRf| |].
    + intros E. exfalso. apply Hrest. rewrite E. set_solver.
    + intros _. by rewrite HLf, Hb, S1, S3.
Qed.

(** Closing a list of owners one after the other. *)
Lemma closeEach_returns os : ∀ g,
  reachable g → NoDup os →
  (∀ o, o ∈ os → ∃ ow, g.(owners) !! o = Some ow ∧ ow.(closed) = false ∧ ow.(openings) = 0) →
  ∃ g', closeEach g os = Ret g' tt ∧ reachable g' ∧ g'.(refunds) = g.(refunds) ∧
    (∀ o, o ∉ os → g'.(owners) !! o = g.(owners) !! o) ∧
    (∀ o, o ∈ os → ∃ ow, g'.(owners) !! o = Some ow ∧ ow.(once) = Gone).
Proof.
  induction os as [|o os IH]; intros g HR Hnd Hos.
  - exists g. split_and!; try done. set_solver.
  - apply NoDup_cons in Hnd as [Hno Hnd]. pose proof (reachable_Inv _ HR) as HI.
    destruct (Hos o) as (ow & Ho & Hc & Hw); [set_solver|].
    destruct (owner_slot g o ow HI Ho) as (sid & sl & Hls & _).
    { by rewrite (open_phase g o ow HI Ho Hc). }
    destruct (close_effect g o ow sid sl HR Ho Hc Hw Hls) as (g1 & E1 & HR1 & Hg1 & HO1 & Hr1 & _).
    destruct (IH g1 HR1 Hnd) as (g' & E & HR' & Hr' & Hout & Hin).
    { intros x Hx. rewrite HO1 by set_solver. apply Hos. set_solver. }
    exists g'. simpl. rewrite E1. simpl. split_and!; [done|done|congruence| |].
    + intros x Hx. rewrite Hout, HO1 by set_solver. done.
    + intros x [->|Hx]%elem_of_cons; [|auto]. destruct Hg1 as (ow1 & ? & ?). exists ow1.
      by rewrite Hout.
Qed.

(** When every owner has gone there is no lane and no lease left. *)
Lemma all_gone g :
  Inv g → (∀ o ow, g.(owners) !! o = Some ow → ow.(once) = Gone) →
  g.(g_lanes) = ∅ ∧ g.(leases) = ∅ ∧ g.(g_growth) = 0.
Proof.
  intros HI Hg.
  assert (HL : g_lanes g = ∅).
  { apply map_empty. intros l. destruct (g_lanes g !! l) as [sid|] eqn:E; [|done]. exfalso.
    destruct (reg_lane _ _ _ _ _ (inv_registry _ HI) _ _ E) as (os & sv & r & HS & Hne & _).
    apply set_choose_L in Hne as [o Ho].
    destruct (reg_in _ _ _ _ _ (inv_registry _ HI) _ _ _ _ _ _ E HS Ho) as [st Eo].
    apply lookup_fmap_Some in Eo as (ow & [= _ _ Eg] & Eo). by rewrite (Hg _ _ Eo) in Eg. }
  assert (HD : leases g = ∅).
  { apply map_empty. intros t. destruct (leases g !! t) as [ls|] eqn:E; [|done]. exfalso.
    destruct (led_lease _ _ _ _ _ (inv_ledger _ HI) _ _ E) as (_ & l & k & r & _ & _ & E' & _).
    by rewrite HL, lookup_empty in E'. }
  split_and!; [done|done|]. rewrite (led_total _ _ _ _ _ (inv_ledger _ HI)), HD. by rewrite fmap_empty.
Qed.

(** ** Properties *)

(** In every interleaving a live lane has one or two owners, its baseline
    is held by the endpoint, its slot lists exactly the owners of the lane that
    have not gone, and the owner in the serving state is the one the slot
    routes to (so there is at most one); the endpoint holds the baselines of the
    live lanes and of those whose release is due, and no other. *)
Theorem lane_registry_exact (g : LaneOwners) :
  reachable g →
  (∀ l sid, g.(g_lanes) !! l = Some sid → ∃ sl, g.(slots) !! sid = Some sl ∧
     (1 ≤ size sl.(slot_owners) ≤ 2)%nat ∧ sid ∈ g.(base) ∧ sid ∉ g.(refunds) ∧
     0 ≤ l ≤ MaxParallelTunnels ∧
     (∀ o, o ∈ sl.(slot_owners) ↔ ∃ ow, g.(owners) !! o = Some ow ∧ ow.(lane) = l ∧ ow.(once) ≠ Gone) ∧
     (∀ o ow, g.(owners) !! o = Some ow → ow.(lane) = l → ow.(once) ≠ Gone →
        ow.(state) = LaneServing ↔ sl.(slot_serving) = Some o)) ∧
  (∀ sid, sid ∈ g.(base) ↔ (∃ l, g.(g_lanes) !! l = Some sid) ∨ sid ∈ g.(refunds)).
Proof.
  intros HI%reachable_Inv. pose proof (inv_registry _ HI) as HR.
  split; [|apply (reg_base _ _ _ _ _ HR)]. intros l sid HL.
  destruct (reg_lane _ _ _ _ _ HR _ _ HL) as (os & sv & r & HS & Hne & Hsz & _ & Hl).
  pose proof (λ o, reg_serving _ _ _ _ _ HR _ _ _ _ _ o HL HS) as Hserv.
  apply lookup_fmap_Some in HS as (sl & [= <- <- <-] & HS). exists sl.
  assert (Hin : ∀ o, o ∈ slot_owners sl ↔
    ∃ ow, owners g !! o = Some ow ∧ lane ow = l ∧ once ow ≠ Gone).
  { intros o. split.
    - intros Ho. destruct (reg_in _ _ _ _ _ HR _ _ _ _ _ _ HL (lookup_fmap_Some_2 slotView _ _ _ HS) Ho)
        as [st E]. apply lookup_fmap_Some in E as (ow & [= E1 E2 E3] & E). exists ow.
      split_and!; [done|done|]. intros Hg. by rewrite Hg in E3.
    - intros (ow & E & <- & Hg). destruct (owner_slot g o ow HI E) as (sid' & sl' & E1 & E2);
        [by destruct (once ow)|]. apply lane_slot_Some in E1 as [E1 E3]. congruence. }
  split_and!; try done.
  - destruct (size (slot_owners sl)) eqn:E; [|lia]. by apply size_empty_iff in E; apply leibniz_equiv in E.
  - apply (reg_base _ _ _ _ _ HR). eauto.
  - by eapply (reg_due _ _ _ _ _ HR).
  - apply Hl.
  - apply Hl.
  - intros o ow Ho <- Hg. rewrite (Hserv o), lookup_fmap, Ho. simpl. unfold ownerView.
    assert (isGone (once ow) = false) as -> by (by destruct (once ow)). split; [by intros ->|].
    by intros [= ->].
Qed.

(** The group's growth is exactly the bytes of its outstanding leases and
    each live lane's growth the bytes of the leases that captured its slot; both
    stay within the generation's and the lane's ceilings (so the int64 sums do
    not wrap), and what the endpoint still accounts is never more than what the
    group does. *)
Theorem lane_growth_exact (g : LaneOwners) :
  reachable g →
  g.(g_growth) = msum (ls_bytes <$> g.(leases)) ∧ 0 ≤ g.(g_growth) ≤ AggregateGenerationGrowthBytes ∧
  msum ((λ ls, if ls.(ls_returned) then 0 else ls.(ls_bytes)) <$> g.(leases)) ≤ g.(g_growth) ∧
  (∀ sid sl, g.(slots) !! sid = Some sl →
     sl.(slot_growth) = onSlot g.(leases) sid ∧ 0 ≤ sl.(slot_growth) ≤ laneLimit).
Proof.
  intros HI%reachable_Inv. pose proof (inv_ledger _ HI) as HL.
  assert (Hb : ∀ t ls, leases g !! t = Some ls → 0 ≤ ls_bytes ls) by (intros; by eapply led_lease).
  pose proof (led_total _ _ _ _ _ HL) as Ht. split_and!; [done| | | |].
  - rewrite Ht. apply msum_nonneg. intros i x E. apply lookup_fmap_Some in E as (ls & <- & E). eauto.
  - apply (led_generation _ _ _ _ _ HL).
  - rewrite Ht. by apply msum_fmap_le; intros t ls E; specialize (Hb t ls E); destruct (ls_returned ls); lia.
  - intros sid sl E. pose proof (lookup_fmap_Some_2 slot_growth _ _ _ E) as E'.
    pose proof (led_slot _ _ _ _ _ HL _ _ E') as Es. split_and!; [done| |by eapply led_bound].
    rewrite Es. apply msum_nonneg. intros i x Ex. apply lookup_fmap_Some in Ex as (ls & <- & Ex).
    case_decide; [eauto|lia].
Qed.

(** C29: nothing is refunded before it is joined.  Once an owner has left its
    lane none of its opens is unfinished, no stream of its is still owned by an
    application and none of its growth leases is outstanding; and a slot whose
    baseline is due (or returned) has no lease on it, because a lease's slot is
    always the current slot of its owner's lane. *)
Theorem lane_refund_after_join (g : LaneOwners) :
  reachable g →
  (∀ o ow, g.(owners) !! o = Some ow → ow.(once) = Gone →
     (∀ t ph, g.(opens) !! t = Some (mkOpening o ph) → ph = Finished) ∧ ow.(application) = ∅ ∧
     (∀ t ls, g.(leases) !! t = Some ls → ls.(ls_owner) ≠ o)) ∧
  (∀ t ls, g.(leases) !! t = Some ls → ∃ ow, g.(owners) !! ls.(ls_owner) = Some ow ∧
     g.(g_lanes) !! ow.(lane) = Some ls.(ls_slot) ∧ ls.(ls_slot) ∉ g.(refunds)).
Proof.
  intros HI%reachable_Inv. split.
  - intros o ow Ho Hg. pose proof (countView_lookup _ _ _ Ho) as Hv. rewrite Hg in Hv. simpl in Hv.
    pose proof (inv_accounting _ HI) as HA.
    destruct (acc_late _ _ _ HA _ _ _ _ _ Hv) as [Hw Happ].
    destruct (acc_total _ _ _ HA _ _ _ _ _ _ Hv) as [Htot _]. split_and!; [|done|].
    + intros t ph Ht. pose proof (total_pos waits _ _ _ _ waits_nonneg Ht). destruct ph; simpl in *; try done; lia.
    + by eapply gone_no_lease.
  - intros t ls Ht. destruct (led_lease _ _ _ _ _ (inv_ledger _ HI) _ _ Ht)
      as (_ & l & k & r & E & _ & HL & _). apply lookup_fmap_Some in E as (ow & [= <- _ _] & E).
    exists ow. split_and!; [done|done|]. by eapply (reg_due _ _ _ _ _ (inv_registry _ HI)).
Qed.

(** No operation panics in any reachable state: a lane owner that is not
    closed always finds its slot ([Publish], the end of [Close]), the channel
    closed by the last [FinishOpen] exists and is open, the WaitGroup never
    goes negative, and a settled lease finds its slot. *)
Theorem lane_owners_no_panic (g : LaneOwners) :
  reachable g →
  (∀ l id repl res ok sid o, Acquire g l id repl res ok sid o ≠ Panic) ∧
  (∀ o expected epoch idleOnly, publish g o expected epoch idleOnly ≠ Panic) ∧
  (∀ t, finishCount g t ≠ Panic) ∧ (∀ t, finishDone g t ≠ Panic) ∧
  (∀ o, leaseSettle g o ≠ Panic) ∧ (∀ o, closeRemove g o ≠ Panic).
Proof.
  intros HI%reachable_Inv. pose proof (inv_accounting _ HI) as HA. split_and!.
  - intros l id repl res ok sid o H. unfold Acquire in H. repeat (case_hyp H; [done|]).
    unfold acquireSlot in H. destruct (g_lanes g !! l) as [sid'|] eqn:EL.
    + destruct (reg_lane _ _ _ _ _ (inv_registry _ HI) _ _ EL) as (os & sv & r & E & _).
      apply lookup_fmap_Some in E as (sl & _ & E). rewrite E in H. by repeat case_hyp H.
    + repeat (case_hyp H; [done|]). simpl in H. rewrite lookup_insert_eq in H. by repeat case_hyp H.
  - intros o expected epoch idleOnly H. unfold publish in H.
    destruct (owners g !! o) as [ow|] eqn:Ho; [|done]. case_hyp H; [done|]. bprop.
    assert (Hp : once ow = NotClosed) by (eapply open_phase; eauto).
    destruct (owner_slot g o ow HI Ho) as (sid & sl & E & _); [by rewrite Hp|].
    rewrite E in H. by repeat (case_hyp H; try done).
  - intros t H. unfold finishCount in H. destruct (opens g !! t) as [[o []]|] eqn:Ht; try done.
    destruct (owners g !! o) as [ow|] eqn:Ho; [|done]. case_hyp H; [|done].
    pose proof (countView_lookup _ _ _ Ho) as Hv.
    destruct (acc_total _ _ _ HA _ _ _ _ _ _ Hv) as [_ Htot].
    pose proof (total_pos counts _ _ _ _ counts_nonneg Ht) as Hpos. simpl in Hpos.
    destruct (acc_open _ _ _ HA _ _ _ _ _ _ Hv) as (c & Ec & Hc); [lia|].
    rewrite Ec in H. simpl in H. by rewrite Hc in H.
  - intros t H. unfold finishDone in H. destruct (opens g !! t) as [[o []]|] eqn:Ht; try done.
    destruct (owners g !! o) as [ow|] eqn:Ho; [|done]. case_hyp H; [|done]. bprop.
    pose proof (countView_lookup _ _ _ Ho) as Hv.
    destruct (acc_total _ _ _ HA _ _ _ _ _ _ Hv) as [Htot _].
    pose proof (total_pos waits _ _ _ _ waits_nonneg Ht) as Hpos. simpl in Hpos. lia.
  - intros o H. unfold leaseSettle in H. destruct (owners g !! o) as [ow|] eqn:Ho; [|done].
    destruct (once ow) as [| | |[|t rs]|] eqn:Hp; try done.
    destruct (leases g !! t) as [[sid o' b []]|] eqn:Ht; try done.
    destruct (led_lease _ _ _ _ _ (inv_ledger _ HI) _ _ Ht) as (_ & ? & ? & ? & _ & _ & _ & [gr Hs]).
    apply lookup_fmap_Some in Hs as (sl & _ & Hs). simpl in Hs. by rewrite Hs in H.
  - intros o H. unfold closeRemove in H. destruct (owners g !! o) as [ow|] eqn:Ho; [|done].
    destruct (once ow) as [| | |[|t rs]|] eqn:Hp; try done.
    destruct (owner_slot g o ow HI Ho) as (sid & sl & E & _); [by rewrite Hp|]. by rewrite E in H.
Qed.

(** The opening fence joins.  When [AcknowledgeOpeningFence], having
    captured a draining owner in [g0], returns nil in a later state [g1], every open
    that [BeginOpen] had admitted on that owner in [g0] has passed the critical
    section of its [FinishOpen], whatever ran in between; so its Ping cannot
    have overtaken one of them. *)
Theorem opening_fence_joins (g0 g1 : LaneOwners) (o : nat) event ctxErr pingOk (t : nat) (ph : openPhase) :
  reachable g0 → rtc lstep g0 g1 →
  AcknowledgeOpeningFence g0 g1 o event ctxErr pingOk = Some None →
  g0.(opens) !! t = Some (mkOpening o ph) →
  ∃ ph', g1.(opens) !! t = Some (mkOpening o ph') ∧ (ph' = Counted ∨ ph' = Finished).
Proof.
  intros HI%reachable_Inv Hs Hp Ht. pose proof (inv_accounting _ HI) as HA.
  assert (Hend : ∀ c, fenced o t c g1 → channels g1 !! c ≠ Some false → ∃ ph',
    opens g1 !! t = Some (mkOpening o ph') ∧ (ph' = Counted ∨ ph' = Finished)).
  { intros c (ph' & E & [Hz|(_ & _ & _ & ?)]) Hn; [|done]. exists ph'. split; [done|].
    destruct ph'; simpl in Hz; auto; lia. }
  unfold AcknowledgeOpeningFence, fenceCapture in Hp.
  destruct (owners g0 !! o) as [ow|] eqn:Ho; [|done].
  pose proof (countView_lookup _ _ _ Ho) as Hv.
  destruct (acc_total _ _ _ HA _ _ _ _ _ _ Hv) as [_ Htot].
  pose proof (total_pos counts _ _ _ _ counts_nonneg Ht) as Hpos.
  destruct (negb (bool_decide (state ow = LaneDraining))); [done|].
  destruct (bool_decide (session ow = None)); [done|].
  destruct (openingCount ow =? 0) eqn:Hz; simpl in Hp; bprop.
  - set (c := fresh (dom (channels g1))).
    assert (Hcn : channels g1 !! c = None) by (apply not_elem_of_dom, is_fresh).
    apply (Hend c); [|by rewrite Hcn]. apply (fenced_trace _ _ _ _ _ Hs HI). exists ph.
    split; [done|]. left. pose proof (counts_nonneg ph). lia.
  - destruct event; try done. destruct (acc_open _ _ _ HA _ _ _ _ _ _ Hv) as (c & Ec & Hch).
    { pose proof (total_nonneg counts (opens g0) o counts_nonneg). lia. }
    destruct (doneReady g1 (openingsDone ow)) eqn:Hr; [|done].
    rewrite Ec in Hr. simpl in Hr. bprop. apply (Hend c); [|by rewrite Hr].
    apply (fenced_trace _ _ _ _ _ Hs HI). exists ph. split; [done|]. right. eauto.
Qed.

(** The owner a successful idle publication replaces. *)
Lemma publish_replaces g o expected epoch g' old :
  publish g o expected epoch true = Ret g' (Some old, true) →
  expected = Some old ∧ old ≠ o ∧ State g' o = Some LaneServing ∧
  (∀ ow, g.(owners) !! old = Some ow → ow.(activity) = epoch ∧ idle ow ∧ State g' old = Some LaneDraining).
Proof.
  unfold publish. intros H. destruct (owners g !! o) as [ow|] eqn:Ho; [|done].
  case_hyp H; [done|]. destruct (lane_slot g (lane ow)) as [[sid sl]|]; [|done].
  case_hyp H; [done|]. case_hyp H; [done|]. injection H as <- Hs. simpl in Heqb0. bprop.
  rewrite Hs in *. split; [done|]. split; [congruence|]. unfold State. split.
  - simpl. destruct (owners g !! old); simpl; by rewrite lookup_insert_eq.
  - intros oo Hoo. rewrite Hoo in *. simpl. bprop. split; [done|]. split; [done|].
    rewrite lookup_insert_ne, lookup_insert_eq by congruence. done.
Qed.

(** C36: [PublishWhenIdle] replaces only an owner that was idle all along.  When
    it returns a predecessor, the predecessor is drained and the new owner
    serves, and in every state between the idle observation and the publication
    (fewer than 2^64 steps apart) the predecessor had no open in progress and no
    stream owned by an application. *)
Theorem publish_when_idle_safe (o : nat) (quiet : Z) (n : nat) (g g' : LaneOwners) (old : nat) :
  reachable g → PublishWhenIdle o quiet n g g' (Some old, true) → Z.of_nat n < two64 →
  State g' o = Some LaneServing ∧
  ∃ ga gd, rtc lstep g ga ∧ nsteps lstep n ga gd ∧
    State g' old = Some LaneDraining ∧
    ∀ k1 k2 mid, nsteps lstep k1 ga mid → nsteps lstep k2 mid gd → (k1 + k2 = n)%nat →
    ∃ ow, mid.(owners) !! old = Some ow ∧ idle ow.
Proof.
  intros HI%reachable_Inv Hrun Hn.
  remember (Some old, true) as res eqn:Er. destruct Hrun as [| |?|]; try done; subst.
  - pose proof (publish_replaces _ _ _ _ _ _ H1) as (? & _). done.
  - apply publish_replaces in H5 as (Hold & Hne & Hserv & Hrep). injection Hold as ->.
    split; [done|]. exists ga, gd. split; [done|].
    assert (HIa : Inv ga) by (eapply (rtc_invariant lstep Inv lstep_Inv); eauto).
    assert (Hstep : nsteps lstep (n1 + S n2) ga gd).
    { eapply nsteps_trans; [done|]. eapply nsteps_l; [|done]. by eapply step_idle. }
    split; [done|].
    unfold idleObserve in H1. destruct (owners ga !! old) as [owa|] eqn:Hoa; [|done].
    injection H1 as <- <- Hempty.
    assert (Hrec : e = activity owa ∧ empty = true).
    { unfold idleRecord in H3. destruct (owners gb !! old); [|done]. case_hyp H3; [done|].
      injection H3 as _ <- _. bprop. done. }
    destruct Hrec as [-> ->]. bprop.
    destruct (trace_activity _ _ _ _ _ Hstep HIa Hoa) as (owd & k & Hod & Hk & _).
    destruct (Hrep _ Hod) as (Ha & Hi & Hd). split; [done|].
    intros k1 k2 mid Hm1 Hm2 Hsum.
    destruct (same_activity_idle k1 k2 ga mid gd old owa owd Hm1 Hm2) as (ow & ? & _ & ?);
      [lia|done|done|done|done|by split|]. eauto.
Qed.

(** What [Acquire] costs.  A refusal changes nothing (in particular it never
    keeps a reservation it made).  A grant on a new lane asked the endpoint for the
    lane's baseline and holds it; a grant on a lane with owners takes the prepaid
    second slot and asks for nothing. *)
Theorem lane_acquire_budget (g : LaneOwners) l id repl res ok sid o g' r :
  Acquire g l id repl res ok sid o = Ret g' r →
  (r = None → g' = g) ∧
  (∀ o', r = Some o' → o' = o ∧ g'.(owners) !! o = Some (newOwner l id) ∧
     match g.(g_lanes) !! l with
     | None => ok = true ∧ g'.(g_lanes) = <[l := sid]> g.(g_lanes) ∧ g'.(base) = {[sid]} ∪ g.(base)
     | Some _ => g'.(g_lanes) = g.(g_lanes) ∧ g'.(base) = g.(base)
     end).
Proof.
  unfold Acquire. intros H. case_hyp H; [done|].
  assert (Hno : Ret g None = Ret g' r → (r = None → g' = g) ∧ (∀ o', r = Some o' → o' = o ∧
     g'.(owners) !! o = Some (newOwner l id) ∧ match g_lanes g !! l with
     | None => ok = true ∧ g_lanes g' = <[l := sid]> (g_lanes g) ∧ base g' = {[sid]} ∪ base g
     | Some _ => g_lanes g' = g_lanes g ∧ base g' = base g end)).
  { intros E. injection E as <- <-. by split. }
  case_hyp H; [auto|]. case_hyp H; [auto|].
  unfold acquireSlot in H. destruct (g_lanes g !! l) as [sid'|] eqn:EL.
  - destruct (slots g !! sid') as [sl|]; [|done]. case_hyp H; [auto|].
    case_hyp H; [|auto]. injection H as <- <-. split; [done|]. intros o' [= <-]. simpl.
    by rewrite lookup_insert_eq.
  - destruct (String.eqb repl "") eqn:Er; [|auto]. destruct ok; [|auto]. simpl in H.
    rewrite lookup_insert_eq in H. simpl in H. rewrite Z.eqb_refl in H. simpl in H.
    unfold slotAdmits in H. simpl in H. rewrite bool_decide_true, Er in H by done.
    injection H as <- <-. split; [done|]. intros o' [= <-]. split_and!; try done. simpl. apply lookup_insert_eq.
Qed.

(** C45: [LaneOwner.Close] terminates and refunds everything.  From any
    reachable state, closing an owner that has no open in flight runs through (it
    neither blocks nor panics), leaves the owner gone with none of its growth
    leases outstanding, and when it was the lane's last owner the lane is free
    again and the endpoint has its baseline back. *)
Theorem lane_close_terminates (g : LaneOwners) (o : nat) (ow : LaneOwner) (sid : nat) (sl : laneOwnerSlot) :
  reachable g → g.(owners) !! o = Some ow → ow.(closed) = false → ow.(openings) = 0 →
  lane_slot g ow.(lane) = Some (sid, sl) →
  ∃ g', Close g o = Ret g' tt ∧ reachable g' ∧
    (∃ ow', g'.(owners) !! o = Some ow' ∧ ow'.(once) = Gone) ∧
    (∀ t ls, g'.(leases) !! t = Some ls → ls.(ls_owner) ≠ o) ∧
    (sl.(slot_owners) = {[o]} → g'.(g_lanes) !! ow.(lane) = None ∧ sid ∉ g'.(base)) ∧
    (sl.(slot_owners) ≠ {[o]} → g'.(g_lanes) = g.(g_lanes) ∧ g'.(base) = g.(base)).
Proof.
  intros HR Ho Hc Hw Hls.
  destruct (close_effect g o ow sid sl HR Ho Hc Hw Hls) as (g' & E & HR' & Hg & _ & _ & H1 & H2).
  exists g'. split_and!; [done|done|done| |done|done]. destruct Hg as (ow' & Ho' & Hg').
  by eapply gone_no_lease; [apply reachable_Inv| |].
Qed.

(** Closing the whole generation.  From any reachable state in which no
    owner is already being closed and no open is in flight, [LaneOwners.Close] runs
    through and leaves no lane, no growth lease, no growth, and no baseline held by
    the endpoint but those that were already due to another caller. *)
Theorem lane_generation_close (g : LaneOwners) (iter : list nat) :
  reachable g → NoDup iter → (∀ o, is_Some (g.(owners) !! o) → o ∈ iter) →
  (∀ o ow, g.(owners) !! o = Some ow → ow.(once) = Gone ∨ ow.(once) = NotClosed ∧ ow.(openings) = 0) →
  ∃ g', CloseGroup g iter = Ret g' tt ∧ reachable g' ∧ g'.(g_lanes) = ∅ ∧ g'.(leases) = ∅ ∧
    g'.(g_growth) = 0 ∧ g'.(base) = g.(refunds).
Proof.
  intros HR Hnd Hiter Hq. pose proof (reachable_Inv _ HR) as HI.
  destruct (CloseFence g iter) as [| |g1 os] eqn:Ef; [done|done|].
  assert (HR1 : reachable g1) by (eapply rtc_r; [exact HR|]; by eapply step_close_fence).
  assert (Ef' := Ef). unfold CloseFence in Ef'. injection Ef' as E1 Eos.
  assert (Ho1 : owners g1 = owners g) by (by rewrite <- E1).
  assert (Hr1 : refunds g1 = refunds g) by (by rewrite <- E1).
  assert (Hos : ∀ o, o ∈ os ↔ o ∈ iter ∧ ownerOn g o = true).
  { intros o. rewrite <- Eos. unfold Snapshot. rewrite list_elem_of_filter. tauto. }
  destruct (closeEach_returns os g1 HR1) as (g' & E & HR' & Hr & Hout & Hin).
  { rewrite <- Eos. by apply NoDup_filter. }
  { intros o [_ Hon]%Hos. rewrite Ho1. unfold ownerOn in Hon.
    destruct (owners g !! o) as [ow|] eqn:Ho; [|done]. exists ow.
    destruct (Hq _ _ Ho) as [Hgone|[Hp Hw]].
    - exfalso. destruct (lane_slot g (lane ow)) as [[sid sl]|] eqn:Hls; [|done].
      apply lane_slot_Some in Hls as [HL HS]. bprop.
      destruct (reg_in _ _ _ _ _ (inv_registry _ HI) _ _ _ _ _ _ HL
        (lookup_fmap_Some_2 slotView _ _ _ HS) Hon) as [st Eo].
      rewrite lookup_fmap, Ho in Eo. simpl in Eo. injection Eo as _ Eg. by rewrite Hgone in Eg.
    - split_and!; [done| |done]. by rewrite (wf_closed _ (inv_owners _ HI _ _ Ho)), Hp. }
  pose proof (reachable_Inv _ HR') as HI'.
  destruct (all_gone g' HI') as (HL & HD & HG).
  { intros o ow Ho'. destruct (decide (o ∈ os)) as [Hin'|Hn].
    - destruct (Hin _ Hin') as (ow' & ? & ?). congruence.
    - rewrite Hout, Ho1 in Ho' by done. destruct (Hq _ _ Ho') as [?|[Hp _]]; [done|]. exfalso.
      apply Hn, Hos. split; [apply Hiter; eauto|]. unfold ownerOn. rewrite Ho'.
      destruct (owner_slot g o ow HI Ho') as (sid & sl & Hls & Hi); [by rewrite Hp|].
      rewrite Hls. by apply bool_decide_true. }
  exists g'. unfold CloseGroup. rewrite Ef. split_and!; [done..|].
  apply set_eq. intros sid. rewrite (reg_base _ _ _ _ _ (inv_registry _ HI')), HL, Hr, Hr1.
  split; [|by right]. intros [[l Hl]|?]; [by rewrite lookup_empty in Hl|done].
Qed.

(** ** A concrete generation *)

Definition next {A} (x : outcome A) (g : LaneOwners) : LaneOwners :=
  match x with Ret g' _ => g' | _ => g end.

Definition demoYamux : yamuxCalls := mkYamux true true false (2 * 1024 * 1024) false true AllocationOk true.

(** Lane 1: owner 0 acquired, attached and published, grown by one lease, with
    open 0 admitted. *)
Definition demoServing : LaneOwners :=
  let g := next (Acquire emptyGroup 1 "a" "" 100 true 0 0) emptyGroup in
  let g := next (Attach g 0 7 true) g in
  let g := next (Publish g 0) g in
  next (Grow g g 0 (1024 * 1024) demoYamux true 0) g.
Definition demoOpening : LaneOwners := next (BeginOpen demoServing 0 0 0) demoServing.
Definition demoRegistered : LaneOwners := next (finishRegister demoOpening 0 (Some 42%nat)) demoOpening.

(** Owner 1 replaces owner 0, whose open is still pending. *)
Definition demoReplaced : LaneOwners :=
  let g := demoRegistered in
  let g := next (Acquire g 1 "b" "a" 100 true 1 1) g in
  let g := next (Attach g 1 8 false) g in
  next (Publish g 1) g.
Definition demoCounted : LaneOwners := next (finishCount demoReplaced 0) demoReplaced.

(** Owner 1 waits to replace the idle owner 0. *)
Definition demoWaiting : LaneOwners :=
  let g := demoServing in
  let g := next (Acquire g 1 "b" "a" 100 true 1 1) g in
  next (Attach g 1 8 false) g.

Definition returns {A} (x : outcome A) : bool := match x with Ret _ _ => true | _ => false end.

Lemma reach_next {A} (x : outcome A) g :
  reachable g → (∀ g' r, x = Ret g' r → lstep g g') → returns x = true → reachable (next x g).
Proof. intros HR Hs Hx. destruct x as [| |g' a]; try done. eapply rtc_r; [exact HR|]. by eapply Hs. Qed.

Ltac reach c := apply reach_next; [|intros ? ?; apply c|vm_compute; reflexivity].

Lemma demoServing_reachable : reachable demoServing.
Proof.
  unfold demoServing. cbv zeta.
  reach step_grow. reach step_publish. reach step_attach. reach step_acquire. apply rtc_refl.
Qed.

Lemma demoRegistered_reachable : reachable demoRegistered.
Proof.
  unfold demoRegistered, demoOpening. reach step_register. reach step_begin_open.
  apply demoServing_reachable.
Qed.

Lemma demoReplaced_reachable : reachable demoReplaced.
Proof.
  unfold demoReplaced. cbv zeta. reach step_publish. reach step_attach. reach step_acquire.
  apply demoRegistered_reachable.
Qed.

Lemma demoCounted_reachable : reachable demoCounted.
Proof. unfold demoCounted. reach step_count. apply demoReplaced_reachable. Qed.

Lemma demoWaiting_reachable : reachable demoWaiting.
Proof.
  unfold demoWaiting. cbv zeta. reach step_attach. reach step_acquire. apply demoServing_reachable.
Qed.

(** The lane holds two owners after the replacement. *)
Lemma lane_registry_exact_witness :
  demoReplaced.(g_lanes) !! 1 = Some 0%nat ∧ ∃ sl, demoReplaced.(slots) !! 0%nat = Some sl ∧
  (1 ≤ size sl.(slot_owners) ≤ 2)%nat.
Proof.
  split; [reflexivity|].
  destruct (proj1 (lane_registry_exact demoReplaced demoReplaced_reachable) 1 0%nat)
    as (sl & ? & ? & _); [reflexivity|]. eauto.
Defined.

Lemma lane_growth_exact_witness :
  demoServing.(g_growth) = 2621440 ∧ demoServing.(g_growth) ≤ AggregateGenerationGrowthBytes.
Proof.
  split; [vm_compute; reflexivity|].
  apply (proj2 (proj1 (proj2 (lane_growth_exact demoServing demoServing_reachable)))).
Defined.

Lemma lane_refund_after_join_witness :
  ∃ ls, demoServing.(leases) !! 0%nat = Some ls ∧ ls.(ls_slot) ∉ demoServing.(refunds).
Proof.
  eexists. split; [vm_compute; reflexivity|].
  destruct (proj2 (lane_refund_after_join demoServing demoServing_reachable) 0%nat
    (mkLease 0 0 2621440 false)) as (ow & _ & _ & H); [vm_compute; reflexivity|exact H].
Defined.

Lemma lane_owners_no_panic_witness : finishCount demoRegistered 0 ≠ Panic.
Proof.
  exact (proj1 (proj2 (proj2 (lane_owners_no_panic demoRegistered demoRegistered_reachable))) 0%nat).
Defined.

(** The fence captured on the replaced owner waits for its open. *)
Lemma opening_fence_joins_witness :
  AcknowledgeOpeningFence demoReplaced demoReplaced 0 FenceDone false true = None ∧
  ∃ ph, demoCounted.(opens) !! 0%nat = Some (mkOpening 0 ph) ∧ (ph = Counted ∨ ph = Finished).
Proof.
  split; [vm_compute; reflexivity|].
  apply (opening_fence_joins demoReplaced demoCounted 0 FenceDone false true 0 Registered).
  - apply demoReplaced_reachable.
  - apply rtc_once. eapply (step_count demoReplaced 0 demoCounted tt). vm_compute. reflexivity.
  - vm_compute. reflexivity.
  - vm_compute. reflexivity.
Defined.

Definition demoObserved : LaneOwners :=
  next (idleRecord demoWaiting 0 0 true 1000 1000 0) demoWaiting.
Definition demoIdlePublished : LaneOwners :=
  next (publish demoObserved 1 (Some 0%nat) 0 true) demoObserved.

Lemma publish_when_idle_safe_witness :
  PublishWhenIdle 1 0 1 demoWaiting demoIdlePublished (Some 0%nat, true) ∧
  State demoIdlePublished 1 = Some LaneServing.
Proof.
  assert (H : PublishWhenIdle 1 0 (0 + 1) demoWaiting demoIdlePublished (Some 0%nat, true)).
  { eapply (idle_publish 1 0 demoWaiting 0 demoWaiting demoWaiting demoObserved demoObserved
      demoIdlePublished 0 0 0 (Some 7%nat) true true 1000 1000 0).
    - vm_compute. reflexivity.
    - apply rtc_refl.
    - vm_compute. reflexivity.
    - apply nsteps_O.
    - vm_compute. reflexivity.
    - apply nsteps_O.
    - vm_compute. reflexivity. }
  split; [exact H|].
  apply (publish_when_idle_safe 1 0 1 demoWaiting demoIdlePublished 0 demoWaiting_reachable H).
  vm_compute. reflexivity.
Defined.

Lemma lane_acquire_budget_witness :
  (next (Acquire demoServing 2 "c" "" 100 true 5 5) demoServing).(base) = {[5%nat]} ∪ demoServing.(base).
Proof.
  destruct (lane_acquire_budget demoServing 2 "c" "" 100 true 5 5
    (next (Acquire demoServing 2 "c" "" 100 true 5 5) demoServing) (Some 5%nat)) as [_ H];
    [vm_compute; reflexivity|].
  specialize (H 5%nat eq_refl). assert (E : demoServing.(g_lanes) !! 2 = None) by (vm_compute; reflexivity).
  rewrite E in H. exact (proj2 (proj2 (proj2 (proj2 H)))).
Defined.

Lemma lane_close_terminates_witness :
  ∃ g', Close demoServing 0 = Ret g' tt ∧ g'.(g_lanes) !! 1 = None ∧ 0%nat ∉ g'.(base).
Proof.
  pose (ow := default (newOwner 0 "") (demoServing.(owners) !! 0%nat)).
  pose (sl := default (mkSlot ∅ None 0 0) (demoServing.(slots) !! 0%nat)).
  destruct (lane_close_terminates demoServing 0 ow 0 sl) as (g' & H & _ & _ & _ & Hlast & _).
  - apply demoServing_reachable.
  - vm_compute. reflexivity.
  - vm_compute. reflexivity.
  - vm_compute. reflexivity.
  - vm_compute. reflexivity.
  - exists g'. split; [exact H|]. apply Hlast. vm_compute. reflexivity.
Defined.

Lemma lane_generation_close_witness :
  ∃ g', CloseGroup demoWaiting [0; 1]%nat = Ret g' tt ∧ g'.(g_lanes) = ∅ ∧ g'.(base) = ∅.
Proof.
  destruct (lane_generation_close demoWaiting [0; 1]%nat) as (g' & H & _ & HL & _ & _ & Hb).
  - apply demoWaiting_reachable.
  - apply (bool_decide_unpack _). vm_compute. exact I.
  - intros o [ow Ho]. assert (Hd : o ∈ dom demoWaiting.(owners)) by (apply elem_of_dom; eauto).
    assert (E : dom demoWaiting.(owners) = {[0; 1]}%nat) by (vm_compute; reflexivity).
    rewrite E in Hd. clear -Hd. set_solver.
  - intros o ow Ho. assert (Hq : map_Forall (λ _ ow, bool_decide (ow.(openings) = 0) &&
      match ow.(once) with NotClosed => true | _ => false end = true) demoWaiting.(owners)).
    { apply (bool_decide_unpack _). vm_compute. exact I. }
    specialize (Hq _ _ Ho). clear -Hq. cbv beta in Hq. bprop. right. by destruct (once ow).
  - exists g'. split; [exact H|]. split; [exact HL|]. rewrite Hb. vm_compute. reflexivity.
Defined.
End LaneOwnersTheorems.
