(* ===== verification/TunnelResources.v ===== *)
(** The resource model of tunnel streams and sessions (internal/tunnel/yamux.go):
    what a process reserves for a logical stream, for a session and for the peer's
    unadmitted streams, and the receive windows it may advertise against that.

    Everything is int64 or uint64 arithmetic and is written at its width
    ([i64], [u64], [Z.quot] for the signed division).  The two vendored functions
    it calls, [yamux.ReceiveWindowMemory] and
    [yamux.AggregateReceiveWindowMemory], are in third_party/yamux. *)

From S2P Require Import Prelude.
From S2P Require Import LaneOwners.

Module TunnelResources.

(** ** Constants *)

Definition InitialStreamWindowSizeBytes : Z := 256 * 1024.
Definition AdaptivePerStreamOverheadBytes : Z := 768 * 1024.
Definition AdaptiveServerStreamOverheadBytes : Z := 256 * 1024.
Definition DefaultAdaptiveReceiveWindowBytes : Z := 512 * 1024.
Definition DefaultAdaptiveStreamChargeBytes : Z :=
  DefaultAdaptiveReceiveWindowBytes + AdaptivePerStreamOverheadBytes.
Definition MinimumAdaptiveStreamChargeBytes : Z :=
  InitialStreamWindowSizeBytes + AdaptivePerStreamOverheadBytes.
Definition MaxStreamWindowSizeBytesLimit : Z := 1024 * 1024 * 1024.
Definition DefaultMaxStreamWindowSizeBytes : Z := MaxStreamWindowSizeBytesLimit.
Definition DefaultMaxConcurrentAgentRequests : Z := 64.
Definition MaxConcurrentAgentRequestsLimit : Z := 2048.
Definition MaxUpstreamSocketBufferBytes : Z := 16 * 1024 * 1024.
Definition AggregateSessionMetadataBytes : Z := 256 * 1024.
Definition AggregatePendingStreamMetadataBytes : Z := 8 * 1024.
Definition NegotiatedControlStreamLimit : Z := 4.
Definition AgentLegacyAcceptBacklogStreams : Z := 64.
Definition AgentLegacyRejectedStreamLimit : Z := 16.
Definition max_uint64 : Z := 18446744073709551615.

(** ** Vendored Yamux *)

Definition recvChunkSize : Z := 64 * 1024.
Definition recvChunkAccounting : Z := 64.
Definition initialStreamWindow : Z := 256 * 1024.
Definition AggregateSendMemory : Z := 8 * (40 * 1024 + 1024).

(** [window] is a uint32, so uint64 arithmetic does not wrap. *)
Definition ReceiveWindowMemory (window : Z) : Z :=
  if window =? 0 then 0 else
  ((window + recvChunkSize - 1) / recvChunkSize + 2) * (recvChunkSize + recvChunkAccounting).

(** ** Validation *)

Inductive resourceError :=
  | ErrWindowTooSmall | ErrWindowTooLarge | ErrSocketBuffer | ErrAccountingRange
  | ErrChargeTooSmall | ErrChargeTooLarge | ErrRequestsTooFew | ErrRequestsTooMany
  | ErrPendingNegative | ErrControlStreams.

Definition NormalizeMaxStreamWindowSizeBytes (sizeBytes : Z) : resourceError + Z :=
  let sizeBytes := if sizeBytes =? 0 then DefaultMaxStreamWindowSizeBytes else sizeBytes in
  if sizeBytes <? initialStreamWindow then inl ErrWindowTooSmall else
  if MaxStreamWindowSizeBytesLimit <? sizeBytes then inl ErrWindowTooLarge else inr sizeBytes.

Definition NormalizeUpstreamSocketBufferBytes (size : Z) : resourceError + Z :=
  if size =? 0 then inr 0 else
  if (size <? 16 * 1024) || (MaxUpstreamSocketBufferBytes <? size) then inl ErrSocketBuffer else inr size.

Definition NormalizeMaxConcurrentAgentRequests (requests : Z) : resourceError + Z :=
  let requests := if requests =? 0 then DefaultMaxConcurrentAgentRequests else requests in
  if requests <? 1 then inl ErrRequestsTooFew else
  if MaxConcurrentAgentRequestsLimit <? requests then inl ErrRequestsTooMany else inr requests.

Definition ebind {A B} (x : resourceError + A) (f : A → resourceError + B) : resourceError + B :=
  match x with inl e => inl e | inr a => f a end.

(** On an error the code's other result is 0; no caller reads it. *)
Definition InitialReceiveWindow (configured : Z) : resourceError + Z :=
  ebind (NormalizeMaxStreamWindowSizeBytes configured) (λ window,
    inr (Z.min window DefaultAdaptiveReceiveWindowBytes)).

(** ** Streams *)

Record StreamResourceModel := mkModel { MemoryBytes : Z; FileDescriptors : Z }.

Definition ServerStreamBaseResourceModel : StreamResourceModel :=
  mkModel AdaptiveServerStreamOverheadBytes 0.

Definition AgentStreamBaseResourceModel (socketBufferBytes : Z) : resourceError + StreamResourceModel :=
  let model := ServerStreamBaseResourceModel in
  ebind (NormalizeUpstreamSocketBufferBytes socketBufferBytes) (λ buffer,
  let buffer := if buffer =? 0 then 128 * 1024 else buffer in
  if Z.quot (max_int64 - model.(MemoryBytes)) 4 <? buffer then inl ErrAccountingRange else
  inr (mkModel (i64 (model.(MemoryBytes) + i64 (4 * buffer))) 2)).

Definition LegacyReceiveWindowSupplementBytes (windowBytes : Z) : resourceError + Z :=
  ebind (InitialReceiveWindow windowBytes) (λ window,
  let receive := ReceiveWindowMemory window in
  if max_int64 <? receive then inl ErrAccountingRange else inr (i64 receive)).

Definition ServerStreamResourceModel (windowBytes : Z) : resourceError + StreamResourceModel :=
  ebind (InitialReceiveWindow windowBytes) (λ window,
  let receiveBytes := ReceiveWindowMemory window in
  if max_int64 - AdaptiveServerStreamOverheadBytes <? receiveBytes then inl ErrAccountingRange else
  inr (mkModel (i64 (i64 receiveBytes + AdaptiveServerStreamOverheadBytes)) 0)).

Definition AgentStreamResourceModel (windowBytes socketBufferBytes : Z) : resourceError + StreamResourceModel :=
  ebind (AgentStreamBaseResourceModel socketBufferBytes) (λ model,
  ebind (LegacyReceiveWindowSupplementBytes windowBytes) (λ receive,
  if max_int64 - model.(MemoryBytes) <? receive then inl ErrAccountingRange else
  inr (mkModel (i64 (model.(MemoryBytes) + receive)) model.(FileDescriptors)))).

Definition StreamMemoryCharge (windowBytes socketBufferBytes : Z) : resourceError + Z :=
  ebind (NormalizeMaxStreamWindowSizeBytes windowBytes) (λ window,
  ebind (NormalizeUpstreamSocketBufferBytes socketBufferBytes) (λ buffer,
  let buffer := if buffer =? 0 then 128 * 1024 else buffer in
  let charge := i64 (i64 (Z.min window DefaultAdaptiveReceiveWindowBytes + i64 (4 * buffer)) + 256 * 1024) in
  inr (Z.max charge MinimumAdaptiveStreamChargeBytes))).

(** The charge in force: zero selects the default. *)
Definition effectiveCharge (chargedBytes : Z) : Z :=
  if chargedBytes =? 0 then DefaultAdaptiveStreamChargeBytes else chargedBytes.

Definition AdaptiveMaxStreamWindowSizeBytes (configuredBytes chargedBytes : Z) : resourceError + Z :=
  ebind (NormalizeMaxStreamWindowSizeBytes configuredBytes) (λ configured,
  let chargedBytes := effectiveCharge chargedBytes in
  if chargedBytes <? MinimumAdaptiveStreamChargeBytes then inl ErrChargeTooSmall else
  if MaxStreamWindowSizeBytesLimit + 4 * MaxUpstreamSocketBufferBytes + AdaptivePerStreamOverheadBytes
     <? chargedBytes then inl ErrChargeTooLarge else
  let coveredWindow := i64 (chargedBytes - AdaptivePerStreamOverheadBytes) in
  if coveredWindow <? configured then inr coveredWindow else inr configured).

(** ** Sessions *)

Definition AggregateSessionResourceBytes (window pendingStreams : Z) : resourceError + Z :=
  if pendingStreams <? 0 then inl ErrPendingNegative else
  let pool := LaneOwners.AggregateReceiveWindowMemory window in
  let base := u64 (AggregateSessionMetadataBytes + AggregateSendMemory) in
  let perStream := AggregatePendingStreamMetadataBytes in
  if (max_uint64 - base) / perStream <? pendingStreams then inl ErrAccountingRange else
  let metadata := u64 (base + u64 (pendingStreams * perStream)) in
  if (max_int64 <? metadata) || (u64 (max_int64 - metadata) <? pool) then inl ErrAccountingRange else
  inr (i64 (u64 (pool + metadata))).

Definition NegotiatedControlSessionResourceBytesForStreams (windowBytes streams : Z) : resourceError + Z :=
  if (streams <? 1) || (NegotiatedControlStreamLimit <? streams) then inl ErrControlStreams else
  ebind (InitialReceiveWindow windowBytes) (λ window,
  let receive := ReceiveWindowMemory window in
  let perStream := u64 (receive + AggregatePendingStreamMetadataBytes) in
  let total := u64 (AggregateSessionMetadataBytes + u64 (streams * perStream)) in
  if max_int64 <? total then inl ErrAccountingRange else inr (i64 total)).

Definition NegotiatedControlSessionResourceBytes (windowBytes : Z) : resourceError + Z :=
  NegotiatedControlSessionResourceBytesForStreams windowBytes NegotiatedControlStreamLimit.

Definition AgentLegacySessionResourceBytes (windowBytes : Z) : resourceError + Z :=
  ebind (LegacyReceiveWindowSupplementBytes windowBytes) (λ receive,
  let perPending := i64 (i64 (ReceiveWindowMemory InitialStreamWindowSizeBytes)
                         + AggregatePendingStreamMetadataBytes) in
  let pending := AgentLegacyAcceptBacklogStreams in
  let perAccepted := i64 (receive + AggregatePendingStreamMetadataBytes) in
  let accepted := 1 + AgentLegacyRejectedStreamLimit in
  if Z.quot (max_int64 - AggregateSessionMetadataBytes) pending <? perPending
  then inl ErrAccountingRange else
  let total := i64 (AggregateSessionMetadataBytes + i64 (pending * perPending)) in
  if Z.quot (max_int64 - total) accepted <? perAccepted then inl ErrAccountingRange else
  inr (i64 (total + i64 (accepted * perAccepted)))).

(** ** Bounds *)

Lemma window_range w v : NormalizeMaxStreamWindowSizeBytes w = inr v →
  initialStreamWindow ≤ v ≤ MaxStreamWindowSizeBytesLimit.
Proof.
  unfold NormalizeMaxStreamWindowSizeBytes. cbv zeta. set (x := if (_ : bool) then _ else w).
  destruct (Z.ltb_spec x initialStreamWindow); [done|].
  destruct (Z.ltb_spec MaxStreamWindowSizeBytesLimit x); [done|]. intros [= <-]. lia.
Qed.

Lemma initial_range w v : InitialReceiveWindow w = inr v →
  initialStreamWindow ≤ v ≤ DefaultAdaptiveReceiveWindowBytes.
Proof.
  unfold InitialReceiveWindow, ebind. destruct (NormalizeMaxStreamWindowSizeBytes w) eqn:E; [done|].
  apply window_range in E. intros [= <-].
  unfold initialStreamWindow, DefaultAdaptiveReceiveWindowBytes in *. lia.
Qed.

(** At most eight chunks and two partial ones for an initial window. *)
Lemma initial_memory v : initialStreamWindow ≤ v ≤ DefaultAdaptiveReceiveWindowBytes →
  v ≤ ReceiveWindowMemory v ≤ 656000.
Proof.
  unfold initialStreamWindow, DefaultAdaptiveReceiveWindowBytes, ReceiveWindowMemory, recvChunkSize,
    recvChunkAccounting. intros H. destruct (Z.eqb_spec v 0); [lia|].
  pose proof (Z.div_mod (v + 64 * 1024 - 1) (64 * 1024) ltac:(lia)).
  pose proof (Z.mod_pos_bound (v + 64 * 1024 - 1) (64 * 1024) ltac:(lia)). lia.
Qed.

Lemma i64_small z : 0 ≤ z < 1000000000000000 → i64 z = z.
Proof. intros H. apply i64_id. unfold in_i64, min_int64, max_int64. lia. Qed.

Lemma supplement_value w v : InitialReceiveWindow w = inr v →
  LegacyReceiveWindowSupplementBytes w = inr (ReceiveWindowMemory v).
Proof.
  intros E. unfold LegacyReceiveWindowSupplementBytes, ebind. rewrite E.
  pose proof (initial_memory _ (initial_range _ _ E)). pose proof (initial_range _ _ E).
  unfold initialStreamWindow in *.
  destruct (Z.ltb_spec max_int64 (ReceiveWindowMemory v)); [unfold max_int64 in *; lia|].
  by rewrite i64_small by lia.
Qed.

Lemma buffer_range b v : NormalizeUpstreamSocketBufferBytes b = inr v →
  0 ≤ v ≤ MaxUpstreamSocketBufferBytes.
Proof.
  unfold NormalizeUpstreamSocketBufferBytes. case_goal; [intros [= <-]; by vm_compute|].
  case_goal; [done|]. intros [= <-]. bprop. lia.
Qed.

(** The agent's base never leaves the accounting range. *)
Lemma agent_base b :
  match NormalizeUpstreamSocketBufferBytes b with
  | inl e => AgentStreamBaseResourceModel b = inl e
  | inr v => AgentStreamBaseResourceModel b =
      inr (mkModel (AdaptiveServerStreamOverheadBytes + 4 * (if v =? 0 then 128 * 1024 else v)) 2)
  end.
Proof.
  unfold AgentStreamBaseResourceModel, ebind.
  destruct (NormalizeUpstreamSocketBufferBytes b) as [|v] eqn:E; [done|]. apply buffer_range in E.
  cbv zeta. set (x := if (_ : bool) then 128 * 1024 else v).
  assert (Hx : 0 ≤ x ≤ MaxUpstreamSocketBufferBytes).
  { unfold x. case_goal; [by vm_compute|done]. }
  unfold MaxUpstreamSocketBufferBytes in Hx. simpl MemoryBytes.
  assert (EQ : Z.quot (max_int64 - AdaptiveServerStreamOverheadBytes) 4 = 2305843009213628415) by (vm_compute; reflexivity).
  rewrite EQ. clear EQ. destruct (Z.ltb_spec 2305843009213628415 x) as [Hlt|_].
  - lia.
  - rewrite (i64_small (4 * x)) by lia. rewrite i64_small; [done|].
    unfold AdaptiveServerStreamOverheadBytes. lia.
Qed.

Lemma server_model w v : InitialReceiveWindow w = inr v →
  ServerStreamResourceModel w = inr (mkModel (AdaptiveServerStreamOverheadBytes + ReceiveWindowMemory v) 0).
Proof.
  intros E. unfold ServerStreamResourceModel, ebind. rewrite E. cbv zeta.
  pose proof (initial_memory _ (initial_range _ _ E)). pose proof (initial_range _ _ E).
  unfold initialStreamWindow, AdaptiveServerStreamOverheadBytes in *.
  destruct (Z.ltb_spec (max_int64 - 256 * 1024) (ReceiveWindowMemory v)); [unfold max_int64 in *; lia|].
  rewrite (i64_small (ReceiveWindowMemory v)), i64_small by lia. do 2 f_equal. lia.
Qed.

Lemma agent_model w v b m : InitialReceiveWindow w = inr v → AgentStreamBaseResourceModel b = inr m →
  AgentStreamResourceModel w b = inr (mkModel (m.(MemoryBytes) + ReceiveWindowMemory v) 2).
Proof.
  intros E Hm. unfold AgentStreamResourceModel. rewrite Hm. simpl ebind.
  rewrite (supplement_value _ _ E). simpl ebind.
  pose proof (initial_memory _ (initial_range _ _ E)). pose proof (initial_range _ _ E).
  pose proof (agent_base b) as Hb. destruct (NormalizeUpstreamSocketBufferBytes b) as [|x] eqn:Eb; [congruence|].
  apply buffer_range in Eb. rewrite Hm in Hb. injection Hb as ->. simpl MemoryBytes.
  set (y := if (_ : bool) then 128 * 1024 else x).
  assert (Hy : 0 ≤ y ≤ MaxUpstreamSocketBufferBytes) by (unfold y; case_goal; [by vm_compute|done]).
  unfold MaxUpstreamSocketBufferBytes, AdaptiveServerStreamOverheadBytes, initialStreamWindow in *.
  destruct (Z.ltb_spec (max_int64 - (256 * 1024 + 4 * y)) (ReceiveWindowMemory v));
    [unfold max_int64 in *; lia|]. by rewrite i64_small by lia.
Qed.

Lemma legacy_session w v : InitialReceiveWindow w = inr v →
  AgentLegacySessionResourceBytes w = inr (AggregateSessionMetadataBytes
    + AgentLegacyAcceptBacklogStreams * (ReceiveWindowMemory InitialStreamWindowSizeBytes
        + AggregatePendingStreamMetadataBytes)
    + (1 + AgentLegacyRejectedStreamLimit) * (ReceiveWindowMemory v + AggregatePendingStreamMetadataBytes)).
Proof.
  intros E. unfold AgentLegacySessionResourceBytes. rewrite (supplement_value _ _ E). unfold ebind. cbv zeta.
  pose proof (initial_memory _ (initial_range _ _ E)). pose proof (initial_range _ _ E).
  unfold initialStreamWindow, AggregatePendingStreamMetadataBytes in *.
  rewrite (i64_small (ReceiveWindowMemory v + 8 * 1024)) by lia.
  assert (E1 : i64 (i64 (ReceiveWindowMemory InitialStreamWindowSizeBytes) + 8 * 1024) =
    ReceiveWindowMemory InitialStreamWindowSizeBytes + 8 * 1024) by (vm_compute; reflexivity).
  rewrite E1. clear E1. set (P := ReceiveWindowMemory InitialStreamWindowSizeBytes + 8 * 1024).
  assert (EP : P = 401792) by (vm_compute; reflexivity). rewrite EP.
  unfold AggregateSessionMetadataBytes, AgentLegacyAcceptBacklogStreams, AgentLegacyRejectedStreamLimit.
  assert (EQ : (Z.quot (max_int64 - 256 * 1024) 64 <? 401792) = false) by (vm_compute; reflexivity).
  rewrite EQ. clear EQ. cbv iota.
  assert (ET : i64 (256 * 1024 + i64 (64 * 401792)) = 256 * 1024 + 64 * 401792) by (vm_compute; reflexivity).
  rewrite ET. clear ET.
  assert (EQ : Z.quot (max_int64 - (256 * 1024 + 64 * 401792)) (1 + 16) = 542551296284046998) by (vm_compute; reflexivity).
  rewrite EQ. clear EQ. destruct (Z.ltb_spec 542551296284046998 (ReceiveWindowMemory v + 8 * 1024)) as [Hlt|_].
  - lia.
  - rewrite (i64_small ((1 + 16) * (ReceiveWindowMemory v + 8 * 1024))), i64_small by lia. done.
Qed.

(** ** Property *)

(** Reservations cover what is advertised, without overflow.  For every
    int64 configuration either the window is refused by every model with the same error,
    or all models agree on the storage of the initial window: the supplement is that
    storage (at least the window), the server's and the agent's stream charges are their
    bases plus it, and the agent's session envelope is the exact sum over its pending and
    accepted streams; the overflow branches are never taken.  And a window granted under an
    adaptive charge, together with the per-stream overhead, never exceeds that charge. *)
Theorem stream_charges_cover (windowBytes bufferBytes chargedBytes : Z) :
  match InitialReceiveWindow windowBytes with
  | inl e => LegacyReceiveWindowSupplementBytes windowBytes = inl e ∧
      ServerStreamResourceModel windowBytes = inl e ∧ AgentLegacySessionResourceBytes windowBytes = inl e
  | inr v =>
      let storage := ReceiveWindowMemory v in
      v ≤ storage ∧ LegacyReceiveWindowSupplementBytes windowBytes = inr storage ∧
      ServerStreamResourceModel windowBytes
        = inr (mkModel (ServerStreamBaseResourceModel.(MemoryBytes) + storage) 0) ∧
      (∀ m, AgentStreamBaseResourceModel bufferBytes = inr m →
         AgentStreamResourceModel windowBytes bufferBytes = inr (mkModel (m.(MemoryBytes) + storage) 2)) ∧
      AgentLegacySessionResourceBytes windowBytes = inr (AggregateSessionMetadataBytes
        + AgentLegacyAcceptBacklogStreams * (ReceiveWindowMemory InitialStreamWindowSizeBytes
            + AggregatePendingStreamMetadataBytes)
        + (1 + AgentLegacyRejectedStreamLimit) * (storage + AggregatePendingStreamMetadataBytes))
  end ∧
  (∀ x, AdaptiveMaxStreamWindowSizeBytes windowBytes chargedBytes = inr x →
     InitialStreamWindowSizeBytes ≤ x ∧ x + AdaptivePerStreamOverheadBytes ≤ effectiveCharge chargedBytes ∧
     ∃ c, NormalizeMaxStreamWindowSizeBytes windowBytes = inr c ∧ x ≤ c).
Proof.
  split.
  - destruct (InitialReceiveWindow windowBytes) as [e|v] eqn:E.
    + unfold AgentLegacySessionResourceBytes, LegacyReceiveWindowSupplementBytes, ServerStreamResourceModel.
      by rewrite E.
    + cbv zeta. split_and!; [by apply initial_memory, (initial_range windowBytes)|by apply supplement_value|
        by apply server_model|intros m; by apply agent_model|by apply legacy_session].
  - intros x. unfold AdaptiveMaxStreamWindowSizeBytes, ebind.
    destruct (NormalizeMaxStreamWindowSizeBytes windowBytes) as [|c] eqn:E; [done|].
    apply window_range in E. cbv zeta. set (ch := effectiveCharge chargedBytes).
    unfold MinimumAdaptiveStreamChargeBytes, InitialStreamWindowSizeBytes, AdaptivePerStreamOverheadBytes,
      MaxStreamWindowSizeBytesLimit, MaxUpstreamSocketBufferBytes, initialStreamWindow in *.
    destruct (Z.ltb_spec ch (256 * 1024 + 768 * 1024)); [done|].
    destruct (Z.ltb_spec (1024 * 1024 * 1024 + 4 * (16 * 1024 * 1024) + 768 * 1024) ch); [done|].
    rewrite i64_small by lia. destruct (Z.ltb_spec (ch - 768 * 1024) c); intros [= <-];
      (split_and!; [lia|lia|exists c; split; [done|lia]]).
Qed.
End TunnelResources.
