(* ===== verification/AgentCapacity.v ===== *)
(** The agent's admission runtime (internal/agent/adaptive_capacity.go): how many streams
    an agent serves at once, the bytes it promised as receive windows and sessions, the
    prepaid control sessions, and the limits it takes from the memory controller.

    Each operation holds one mutex and is one function on the runtime.  A control session
    is an object in [sessions].  A release function that an operation returns is an entry
    of [closures] under an identity of its own; calling it removes the entry, which is its
    [sync.Once].  The samples of the operating system are arguments ([env]), read through
    the memory controller.  The scavenging worker is in AgentScavenge.v. *)

From S2P Require Import Prelude.
From S2P Require Import MemoryPressure.
From S2P Require Import LaneOwners.
From S2P Require Import TunnelResources.

Module AgentCapacity.
Import MemoryPressure(AdaptiveMemorySnapshot, AdaptiveMemoryController, AdmissionLimitWithExternal, snapshotAt).
Import TunnelResources(NegotiatedControlStreamLimit).

Definition MaxAdaptiveConcurrentStreamsLimit : Z := 65536.

(** ** Data *)

Inductive agentReceiveResourceOwner :=
  | StreamGrowth | AggregateInitialPool | AggregateGrowthPool | AggregateSessionMetadata
  | LegacyControlSupplement | LegacySessionEnvelope | LegacyStreamSupplement.

#[export] Instance owner_eq_dec : EqDecision agentReceiveResourceOwner.
Proof. solve_decision. Defined.

(** The byte counters of the runtime. *)
Record ledger := mkLedger {
  windowBytes : Z;
  sessionBytes : Z;
  aggregateInitialPoolBytes : Z;
  aggregateGrowthPoolBytes : Z;
  aggregateSessionMetadataBytes : Z;
  legacyControlSupplementBytes : Z;
  legacySessionEnvelopeBytes : Z;
  legacyStreamSupplementBytes : Z }.

Record agentControlSessionReservation := mkSession {
  bytes : Z;
  slots : Z;
  active : Z;
  released : bool }.

(** What a release function gives back. *)
Inductive closure :=
  | ReleaseReceive (owner : agentReceiveResourceOwner) (n : Z)
  | ReleaseOrdinary
  | ReleaseControl (session : Z)
  | ReleaseNothing.

Record agentTunnelCapacityRuntime := mkRuntime {
  adaptive : bool;
  maximum : Z;
  inUse : Z;
  controlInUse : Z;
  controlReservedSlots : Z;
  counters : ledger;
  controller : option AdaptiveMemoryController;
  rejectedPressure : Z;
  rejectedFixed : Z;
  scavengeRunning : bool;
  scavengeNeeded : bool;
  sessions : gmap Z agentControlSessionReservation;
  closures : gmap Z closure;
  nextID : Z }.

(** The clock and the samples the controller may take. *)
Record env := mkEnv {
  now : Z;
  memorySample : string + list MemoryPressure.MemoryUsage;
  fdSample : string + MemoryPressure.FileDescriptorUsage }.

(** The snapshot's own figures, and the controller's snapshot the others are copied from. *)
Record agentTunnelCapacitySnapshot := mkSnapshot {
  Adaptive : bool;
  ResourceLimited : bool;
  Maximum : Z;
  AdmissionLimit : Z;
  OrdinaryAdmissionLimit : Z;
  InUse : Z;
  ControlInUse : Z;
  ControlReservedSlots : Z;
  ControlReservedBaseBytes : Z;
  ControlReservedBaseFDs : Z;
  Resource : option AdaptiveMemorySnapshot;
  Counters : ledger;
  RejectedPressure : Z;
  RejectedFixedLimit : Z }.

(** ** Updates *)

Definition setCounters (r : agentTunnelCapacityRuntime) (l : ledger) : agentTunnelCapacityRuntime :=
  mkRuntime r.(adaptive) r.(maximum) r.(inUse) r.(controlInUse) r.(controlReservedSlots) l r.(controller)
    r.(rejectedPressure) r.(rejectedFixed) r.(scavengeRunning) r.(scavengeNeeded) r.(sessions) r.(closures) r.(nextID).
Definition setMaximumField (r : agentTunnelCapacityRuntime) (m : Z) : agentTunnelCapacityRuntime :=
  mkRuntime r.(adaptive) m r.(inUse) r.(controlInUse) r.(controlReservedSlots) r.(counters) r.(controller)
    r.(rejectedPressure) r.(rejectedFixed) r.(scavengeRunning) r.(scavengeNeeded) r.(sessions) r.(closures) r.(nextID).
Definition setUse (r : agentTunnelCapacityRuntime) (ordinary control : Z) : agentTunnelCapacityRuntime :=
  mkRuntime r.(adaptive) r.(maximum) ordinary control r.(controlReservedSlots) r.(counters) r.(controller)
    r.(rejectedPressure) r.(rejectedFixed) r.(scavengeRunning) r.(scavengeNeeded) r.(sessions) r.(closures) r.(nextID).
Definition setSlots (r : agentTunnelCapacityRuntime) (n : Z) : agentTunnelCapacityRuntime :=
  mkRuntime r.(adaptive) r.(maximum) r.(inUse) r.(controlInUse) n r.(counters) r.(controller)
    r.(rejectedPressure) r.(rejectedFixed) r.(scavengeRunning) r.(scavengeNeeded) r.(sessions) r.(closures) r.(nextID).
Definition setController (r : agentTunnelCapacityRuntime) (c : option AdaptiveMemoryController) : agentTunnelCapacityRuntime :=
  mkRuntime r.(adaptive) r.(maximum) r.(inUse) r.(controlInUse) r.(controlReservedSlots) r.(counters) c
    r.(rejectedPressure) r.(rejectedFixed) r.(scavengeRunning) r.(scavengeNeeded) r.(sessions) r.(closures) r.(nextID).
Definition setRejected (r : agentTunnelCapacityRuntime) (pressure fixed : Z) : agentTunnelCapacityRuntime :=
  mkRuntime r.(adaptive) r.(maximum) r.(inUse) r.(controlInUse) r.(controlReservedSlots) r.(counters) r.(controller)
    (u64 pressure) (u64 fixed) r.(scavengeRunning) r.(scavengeNeeded) r.(sessions) r.(closures) r.(nextID).
Definition setScavenge (r : agentTunnelCapacityRuntime) (running needed : bool) : agentTunnelCapacityRuntime :=
  mkRuntime r.(adaptive) r.(maximum) r.(inUse) r.(controlInUse) r.(controlReservedSlots) r.(counters) r.(controller)
    r.(rejectedPressure) r.(rejectedFixed) running needed r.(sessions) r.(closures) r.(nextID).
Definition setSessions (r : agentTunnelCapacityRuntime) (m : gmap Z agentControlSessionReservation) : agentTunnelCapacityRuntime :=
  mkRuntime r.(adaptive) r.(maximum) r.(inUse) r.(controlInUse) r.(controlReservedSlots) r.(counters) r.(controller)
    r.(rejectedPressure) r.(rejectedFixed) r.(scavengeRunning) r.(scavengeNeeded) m r.(closures) r.(nextID).
Definition setClosures (r : agentTunnelCapacityRuntime) (m : gmap Z closure) : agentTunnelCapacityRuntime :=
  mkRuntime r.(adaptive) r.(maximum) r.(inUse) r.(controlInUse) r.(controlReservedSlots) r.(counters) r.(controller)
    r.(rejectedPressure) r.(rejectedFixed) r.(scavengeRunning) r.(scavengeNeeded) r.(sessions) m r.(nextID).
Definition freshID (r : agentTunnelCapacityRuntime) : agentTunnelCapacityRuntime :=
  mkRuntime r.(adaptive) r.(maximum) r.(inUse) r.(controlInUse) r.(controlReservedSlots) r.(counters) r.(controller)
    r.(rejectedPressure) r.(rejectedFixed) r.(scavengeRunning) r.(scavengeNeeded) r.(sessions) r.(closures) (r.(nextID) + 1).

(** A release function with a fresh identity. *)
Definition newClosure (r : agentTunnelCapacityRuntime) (c : closure) : agentTunnelCapacityRuntime * Z :=
  (freshID (setClosures r (<[r.(nextID) := c]> r.(closures))), r.(nextID)).

(** ** Construction and figures *)

Definition agentTunnelCapacityMaximumInt (m : Z) : Z :=
  if m <? 1 then 1 else Z.min m MaxAdaptiveConcurrentStreamsLimit.

(** [defaultController] is what the constructor makes when adaptive and given none. *)
Definition newAgentTunnelCapacityRuntime (m : Z) (isAdaptive : bool) (c : option AdaptiveMemoryController)
    (defaultController : AdaptiveMemoryController) : agentTunnelCapacityRuntime :=
  mkRuntime isAdaptive (agentTunnelCapacityMaximumInt m) 0 0 0 (mkLedger 0 0 0 0 0 0 0 0)
    (match c with Some c => Some c | None => if isAdaptive then Some defaultController else None end)
    0 0 false false ∅ ∅ 0.

Definition setMaximum (r : agentTunnelCapacityRuntime) (m : Z) : agentTunnelCapacityRuntime :=
  if m <? 1 then r else setMaximumField r (agentTunnelCapacityMaximumInt m).

Definition actualInUseLocked (r : agentTunnelCapacityRuntime) : Z := r.(inUse) + r.(controlInUse).
Definition chargedAdmissionsLocked (r : agentTunnelCapacityRuntime) : Z := r.(inUse) + r.(controlReservedSlots).

(** A reading of the controller; [None] without one. *)
Definition readController (r : agentTunnelCapacityRuntime) (e : env) (force : bool)
    : option AdaptiveMemorySnapshot * agentTunnelCapacityRuntime :=
  match r.(controller) with
  | None => (None, r)
  | Some c =>
      let '(s, c) := snapshotAt c e.(now) MaxAdaptiveConcurrentStreamsLimit (chargedAdmissionsLocked r) force
                       e.(memorySample) e.(fdSample) in
      (Some s, setController r (Some c))
  end.

(** What the control slots cost at a charge, when the product fits. *)
Definition slotCharge (n charge : Z) : Z :=
  if (0 <? charge) && (n <=? Z.quot max_int64 charge) then n * charge else 0.

Definition snapshotLockedWithForce (r : agentTunnelCapacityRuntime) (e : env) (force : bool)
    : agentTunnelCapacitySnapshot * agentTunnelCapacityRuntime :=
  let max := if r.(maximum) <? 1 then 1 else r.(maximum) in
  match readController r e force with
  | (None, r) =>
      (mkSnapshot r.(adaptive) false max max (Z.max 0 (max - r.(controlInUse))) (actualInUseLocked r) r.(controlInUse)
         r.(controlReservedSlots) 0 0 None r.(counters) r.(rejectedPressure) r.(rejectedFixed), r)
  | (Some s, r) =>
      let chargedLimit := AdmissionLimitWithExternal s (i64 (r.(counters).(windowBytes) + r.(counters).(sessionBytes))) 0 in
      let ordinaryResourceLimit :=
        if s.(MemoryPressure.RejectNew) then r.(inUse) else Z.max 0 (chargedLimit - r.(controlReservedSlots)) in
      let controlCapacity := Z.min r.(controlReservedSlots) (Z.min NegotiatedControlStreamLimit max) in
      let admissionLimit := if max_int64 - controlCapacity <? ordinaryResourceLimit then max
                            else Z.min max (ordinaryResourceLimit + controlCapacity) in
      (mkSnapshot r.(adaptive) (s.(MemoryPressure.RejectNew) || (admissionLimit <? max)) max admissionLimit
         (Z.min ordinaryResourceLimit (Z.max 0 (max - r.(controlInUse)))) (actualInUseLocked r) r.(controlInUse)
         r.(controlReservedSlots)
         (slotCharge r.(controlReservedSlots) s.(MemoryPressure.StreamChargeByte))
         (slotCharge r.(controlReservedSlots) s.(MemoryPressure.StreamChargeFD))
         (Some s) r.(counters) r.(rejectedPressure) r.(rejectedFixed), r)
  end.

Definition snapshotLocked (r : agentTunnelCapacityRuntime) (e : env) := snapshotLockedWithForce r e false.
Definition forceRefresh (r : agentTunnelCapacityRuntime) (e : env) := snapshotLockedWithForce r e true.

(** ** Scavenging after a release *)

(** Starts the worker unless it runs; it needs a controller. *)
Definition requestMemoryScavenge (r : agentTunnelCapacityRuntime) : bool * agentTunnelCapacityRuntime :=
  match r.(controller) with
  | None => (false, r)
  | Some _ => if r.(scavengeRunning) then (false, r) else (true, setScavenge r true r.(scavengeNeeded))
  end.

Definition pressured (s : agentTunnelCapacitySnapshot) : bool :=
  match s.(Resource) with
  | Some s => match s.(MemoryPressure.Level) with
      | MemoryPressure.MemoryPressureSoft | MemoryPressure.MemoryPressureCritical => true
      | _ => false end
  | None => false
  end.

Definition finishActiveReleaseLocked (r : agentTunnelCapacityRuntime) (e : env) : bool * agentTunnelCapacityRuntime :=
  let shouldScavenge := r.(scavengeNeeded) in
  let r := setScavenge r r.(scavengeRunning) false in
  if bool_decide (is_Some r.(controller)) && (actualInUseLocked r =? 0) then
    let '(s, r) := snapshotLocked r e in (shouldScavenge || pressured s, r)
  else (false, if shouldScavenge then setScavenge r r.(scavengeRunning) true else r).

Definition runScavengeAfterRelease (r : agentTunnelCapacityRuntime) (shouldScavenge : bool) : agentTunnelCapacityRuntime :=
  if shouldScavenge then
    let '(started, r) := requestMemoryScavenge r in
    if started then r else setScavenge r r.(scavengeRunning) true
  else r.

Definition finishRelease (r : agentTunnelCapacityRuntime) (e : env) : agentTunnelCapacityRuntime :=
  let '(should, r) := finishActiveReleaseLocked r e in runScavengeAfterRelease r should.

(** ** Receive resources *)

Definition charge (owner : agentReceiveResourceOwner) (n : Z) (l : ledger) : ledger :=
  let '(mkLedger w s ai ag am lc le ls) := l in
  match owner with
  | StreamGrowth => mkLedger (i64 (w + n)) s ai ag am lc le ls
  | AggregateInitialPool => mkLedger w (i64 (s + n)) (i64 (ai + n)) ag am lc le ls
  | AggregateGrowthPool => mkLedger w (i64 (s + n)) ai (i64 (ag + n)) am lc le ls
  | AggregateSessionMetadata => mkLedger w (i64 (s + n)) ai ag (i64 (am + n)) lc le ls
  | LegacyControlSupplement => mkLedger w (i64 (s + n)) ai ag am (i64 (lc + n)) le ls
  | LegacySessionEnvelope => mkLedger w (i64 (s + n)) ai ag am lc (i64 (le + n)) ls
  | LegacyStreamSupplement => mkLedger (i64 (w + n)) s ai ag am lc le (i64 (ls + n))
  end.

(** The guards both kinds of reservation share: the bytes promised so far, or [None]. *)
Definition externalWith (l : ledger) (n : Z) : option Z :=
  if (n <? 0) || (l.(windowBytes) <? 0) || (l.(sessionBytes) <? 0) || (max_int64 - l.(sessionBytes) <? l.(windowBytes)) then None
  else
    let external := l.(windowBytes) + l.(sessionBytes) in
    if max_int64 - external <? n then None else Some (external + n).

(** The identity of the release function, or [None]. *)
Definition tryReserveOwnedReceiveResource (r : agentTunnelCapacityRuntime) (n : Z) (owner : agentReceiveResourceOwner)
    (e : env) : option Z * agentTunnelCapacityRuntime :=
  match readController r e false with
  | (None, r) => let '(r, id) := newClosure r ReleaseNothing in (Some id, r)
  | (Some s, r) =>
      match externalWith r.(counters) n with
      | None => (None, r)
      | Some proposed =>
          if s.(MemoryPressure.RejectNew) || (AdmissionLimitWithExternal s proposed 0 <? chargedAdmissionsLocked r) then (None, r)
          else let '(r, id) := newClosure (setCounters r (charge owner n r.(counters))) (ReleaseReceive owner n) in (Some id, r)
      end
  end.

Definition tryReserveWindowGrowth r n e := tryReserveOwnedReceiveResource r n StreamGrowth e.
Definition tryReserveSessionResource r n e := tryReserveOwnedReceiveResource r n AggregateInitialPool e.
Definition tryReserveLegacyControlResource r n e := tryReserveOwnedReceiveResource r n LegacyControlSupplement e.
Definition tryReserveLegacySessionEnvelope r n e := tryReserveOwnedReceiveResource r n LegacySessionEnvelope e.
Definition tryReserveLegacyStreamSupplement r n e := tryReserveOwnedReceiveResource r n LegacyStreamSupplement e.
Definition tryReserveAggregateSessionGrowth r n e := tryReserveOwnedReceiveResource r n AggregateGrowthPool e.

(** ** Release functions *)

(** The body under the [sync.Once]. *)
Definition runClosure (r : agentTunnelCapacityRuntime) (c : closure) (e : env) : agentTunnelCapacityRuntime :=
  match c with
  | ReleaseReceive owner n => setCounters r (charge owner (- n) r.(counters))
  | ReleaseOrdinary => finishRelease (setUse r (if 0 <? r.(inUse) then r.(inUse) - 1 else r.(inUse)) r.(controlInUse)) e
  | ReleaseControl id =>
      let r := match r.(sessions) !! id with
        | Some s => setSessions r (<[id := mkSession s.(bytes) s.(slots)
            (if 0 <? s.(active) then s.(active) - 1 else s.(active)) s.(released)]> r.(sessions))
        | None => r end in
      finishRelease (setUse r r.(inUse) (if 0 <? r.(controlInUse) then r.(controlInUse) - 1 else r.(controlInUse))) e
  | ReleaseNothing => r
  end.

Definition callRelease (r : agentTunnelCapacityRuntime) (id : Z) (e : env) : agentTunnelCapacityRuntime :=
  match r.(closures) !! id with
  | None => r
  | Some c => runClosure (setClosures r (delete id r.(closures))) c e
  end.

(** Both parts or none; the release functions in the order the caller runs them. *)
Definition tryReserveAggregateSessionResource (r : agentTunnelCapacityRuntime) (poolBytes metadataBytes : Z) (e e' : env)
    : option (list Z) * agentTunnelCapacityRuntime :=
  match tryReserveOwnedReceiveResource r poolBytes AggregateInitialPool e with
  | (None, r) => (None, r)
  | (Some pool, r) =>
      match tryReserveOwnedReceiveResource r metadataBytes AggregateSessionMetadata e' with
      | (None, r) => (None, callRelease r pool e')
      | (Some metadata, r) => (Some [metadata; pool], r)
      end
  end.

(** ** Streams *)

Definition tryAcquire (r : agentTunnelCapacityRuntime) (e : env)
    : option Z * agentTunnelCapacitySnapshot * agentTunnelCapacityRuntime :=
  let '(s, r) := snapshotLocked r e in
  if (r.(maximum) <=? actualInUseLocked r) || (s.(OrdinaryAdmissionLimit) <=? r.(inUse)) then
    let r := if s.(Adaptive) || s.(ResourceLimited)
             then setScavenge (setRejected r (r.(rejectedPressure) + 1) r.(rejectedFixed)) r.(scavengeRunning) true
             else setRejected r r.(rejectedPressure) (r.(rejectedFixed) + 1) in
    (None, mkSnapshot s.(Adaptive) s.(ResourceLimited) s.(Maximum) s.(AdmissionLimit) s.(OrdinaryAdmissionLimit) s.(InUse)
       s.(ControlInUse) s.(ControlReservedSlots) s.(ControlReservedBaseBytes) s.(ControlReservedBaseFDs) s.(Resource)
       s.(Counters) r.(rejectedPressure) r.(rejectedFixed), r)
  else
    let r := setUse r (r.(inUse) + 1) r.(controlInUse) in
    let '(r, id) := newClosure r ReleaseOrdinary in
    (Some id, mkSnapshot s.(Adaptive) s.(ResourceLimited) s.(Maximum) s.(AdmissionLimit) s.(OrdinaryAdmissionLimit)
       (actualInUseLocked r) s.(ControlInUse) s.(ControlReservedSlots) s.(ControlReservedBaseBytes) s.(ControlReservedBaseFDs)
       s.(Resource) s.(Counters) s.(RejectedPressure) s.(RejectedFixedLimit), r).

Definition recordPressureRejection (r : agentTunnelCapacityRuntime) : agentTunnelCapacityRuntime :=
  setScavenge (setRejected r (r.(rejectedPressure) + 1) r.(rejectedFixed)) r.(scavengeRunning) true.

(** ** Control sessions *)

Definition tryReserveControlSession (r : agentTunnelCapacityRuntime) (n k : Z) (e : env)
    : option Z * agentTunnelCapacityRuntime :=
  if (n <? 0) || (k <? 1) || (NegotiatedControlStreamLimit <? k) then (None, r)
  else match externalWith r.(counters) n with
  | None => (None, r)
  | Some proposedExternal =>
      if max_int64 - k <? r.(controlReservedSlots) then (None, r)
      else
        let proposedCharged := chargedAdmissionsLocked r + k in
        if MaxAdaptiveConcurrentStreamsLimit <? proposedCharged then (None, r)
        else
          let '(s, r) := readController r e false in
          let refused := match s with
            | Some s => s.(MemoryPressure.RejectNew) || (AdmissionLimitWithExternal s proposedExternal 0 <? proposedCharged)
            | None => false end in
          if refused then (None, r)
          else
            let r := setSlots (setCounters r (charge LegacyControlSupplement n r.(counters))) (r.(controlReservedSlots) + k) in
            (Some r.(nextID), freshID (setSessions r (<[r.(nextID) := mkSession n k 0 false]> r.(sessions))))
  end.

Definition activate (r : agentTunnelCapacityRuntime) (id m n k : Z) : bool * agentTunnelCapacityRuntime :=
  if (m <? 1) || (n <? 0) || (k <? 1) || (NegotiatedControlStreamLimit <? k) then (false, r)
  else match r.(sessions) !! id with
  | None => (false, r)
  | Some s =>
      if s.(released) || negb (s.(active) =? 0) || (s.(slots) <? k) || (s.(bytes) <? n) then (false, r)
      else
        let converted := agentTunnelCapacityMaximumInt m in
        if converted <? k then (false, r)
        else
          let r := setCounters r (charge LegacyControlSupplement (- (s.(bytes) - n)) r.(counters)) in
          let r := setSlots r (r.(controlReservedSlots) - (s.(slots) - k)) in
          (true, setMaximumField (setSessions r (<[id := mkSession n k s.(active) s.(released)]> r.(sessions))) converted)
  end.

Definition tryAcquireControl (r : agentTunnelCapacityRuntime) (id : Z) : option Z * agentTunnelCapacityRuntime :=
  match r.(sessions) !! id with
  | None => (None, r)
  | Some s =>
      let controlLimit := Z.min NegotiatedControlStreamLimit r.(maximum) in
      if s.(released) || (s.(slots) <=? s.(active)) || (controlLimit <=? r.(controlInUse)) || (r.(maximum) <=? actualInUseLocked r)
      then (None, setRejected r r.(rejectedPressure) (r.(rejectedFixed) + 1))
      else
        let r := setSessions r (<[id := mkSession s.(bytes) s.(slots) (s.(active) + 1) s.(released)]> r.(sessions)) in
        let '(r, c) := newClosure (setUse r r.(inUse) (r.(controlInUse) + 1)) (ReleaseControl id) in
        (Some c, r)
  end.

Definition releaseSession (r : agentTunnelCapacityRuntime) (id : Z) : agentTunnelCapacityRuntime :=
  match r.(sessions) !! id with
  | None => r
  | Some s =>
      if s.(released) || negb (s.(active) =? 0) then r
      else
        let r := setCounters r (charge LegacyControlSupplement (- s.(bytes)) r.(counters)) in
        let r := setSlots r (r.(controlReservedSlots) - s.(slots)) in
        setSessions r (<[id := mkSession s.(bytes) s.(slots) s.(active) true]> r.(sessions))
  end.

(** ** The books *)

(** What one entry adds to each counter, exactly. *)
Definition noBytes : ledger := mkLedger 0 0 0 0 0 0 0 0.
Definition chargeExact (owner : agentReceiveResourceOwner) (n : Z) (l : ledger) : ledger :=
  let '(mkLedger w s ai ag am lc le ls) := l in
  match owner with
  | StreamGrowth => mkLedger (w + n) s ai ag am lc le ls
  | AggregateInitialPool => mkLedger w (s + n) (ai + n) ag am lc le ls
  | AggregateGrowthPool => mkLedger w (s + n) ai (ag + n) am lc le ls
  | AggregateSessionMetadata => mkLedger w (s + n) ai ag (am + n) lc le ls
  | LegacyControlSupplement => mkLedger w (s + n) ai ag am (lc + n) le ls
  | LegacySessionEnvelope => mkLedger w (s + n) ai ag am lc (le + n) ls
  | LegacyStreamSupplement => mkLedger (w + n) s ai ag am lc le (ls + n)
  end.
Definition owedBy (c : closure) : ledger :=
  match c with ReleaseReceive owner n => chargeExact owner n noBytes | _ => noBytes end.
Definition prepaidBy (s : agentControlSessionReservation) : ledger :=
  if s.(released) then noBytes else chargeExact LegacyControlSupplement s.(bytes) noBytes.

Definition fields : list (ledger → Z) :=
  [windowBytes; sessionBytes; aggregateInitialPoolBytes; aggregateGrowthPoolBytes; aggregateSessionMetadataBytes;
   legacyControlSupplementBytes; legacySessionEnvelopeBytes; legacyStreamSupplementBytes].

(** A counter as the books have it: all live reservations and all live control sessions. *)
Definition book (p : ledger → Z) (cl : gmap Z closure) (se : gmap Z agentControlSessionReservation) : Z :=
  msum ((λ c, p (owedBy c)) <$> cl) + msum ((λ s, p (prepaidBy s)) <$> se).

Definition count (P : closure → bool) (cl : gmap Z closure) : Z := msum ((λ c, if P c then 1 else 0) <$> cl).
Definition isOrdinary (c : closure) : bool := match c with ReleaseOrdinary => true | _ => false end.
Definition isControl (c : closure) : bool := match c with ReleaseControl _ => true | _ => false end.
Definition isControlOf (id : Z) (c : closure) : bool := match c with ReleaseControl id' => id' =? id | _ => false end.
Definition liveSlots (s : agentControlSessionReservation) : Z := if s.(released) then 0 else s.(slots).

Definition closureOk (se : gmap Z agentControlSessionReservation) (c : closure) : Prop :=
  match c with
  | ReleaseReceive _ n => 0 ≤ n
  | ReleaseControl id => is_Some (se !! id)
  | _ => True
  end.
Record sessionOk (cl : gmap Z closure) (id : Z) (s : agentControlSessionReservation) : Prop := {
  so_bytes : 0 ≤ s.(bytes);
  so_slots : 1 ≤ s.(slots);
  so_active : s.(active) = count (isControlOf id) cl;
  so_limit : s.(active) ≤ s.(slots);
  so_released : s.(released) = true → s.(active) = 0 }.

Record Inv (r : agentTunnelCapacityRuntime) : Prop := {
  iv_book : ∀ p, p ∈ fields → p r.(counters) = book p r.(closures) r.(sessions);
  iv_total : r.(counters).(windowBytes) + r.(counters).(sessionBytes) ≤ max_int64;
  iv_closures : map_Forall (λ _ c, closureOk r.(sessions) c) r.(closures);
  iv_sessions : map_Forall (sessionOk r.(closures)) r.(sessions);
  iv_inUse : r.(inUse) = count isOrdinary r.(closures);
  iv_control : r.(controlInUse) = count isControl r.(closures);
  iv_slots : r.(controlReservedSlots) = msum (liveSlots <$> r.(sessions));
  iv_fresh : ∀ id, r.(nextID) ≤ id → r.(closures) !! id = None ∧ r.(sessions) !! id = None }.

(** ** Lemmas: sums *)

Section sums.
Context {A : Type}.
Implicit Types (f : A → Z) (m : gmap Z A).

Lemma sum_new f m id x : m !! id = None → msum (f <$> <[id := x]> m) = f x + msum (f <$> m).
Proof. intros E. rewrite fmap_insert, msum_insert_fresh; [done|]. by rewrite lookup_fmap, E. Qed.
Lemma sum_put f m id x y : m !! id = Some x → msum (f <$> <[id := y]> m) = msum (f <$> m) - f x + f y.
Proof. intros E. rewrite fmap_insert, msum_insert, lookup_fmap, E. done. Qed.
Lemma sum_drop f m id x : m !! id = Some x → msum (f <$> delete id m) = msum (f <$> m) - f x.
Proof. intros E. rewrite fmap_delete, msum_delete, lookup_fmap, E. done. Qed.
Lemma sum_nonneg f m : map_Forall (λ _ x, 0 ≤ f x) m → 0 ≤ msum (f <$> m).
Proof. intros H. apply msum_nonneg, map_Forall_fmap. exact H. Qed.
End sums.

Lemma count_nonneg P cl : 0 ≤ count P cl.
Proof. apply sum_nonneg. intros id c _. by destruct (P c). Qed.

Lemma count_le (P Q : closure → bool) cl : (∀ c, P c = true → Q c = true) → count P cl ≤ count Q cl.
Proof.
  intros H. apply msum_fmap_le. intros id c _. specialize (H c). destruct (P c), (Q c); lia || (by specialize (H eq_refl)).
Qed.

Lemma count_pos P cl id c : cl !! id = Some c → P c = true → 1 ≤ count P cl.
Proof.
  intros E HP. unfold count. pose proof (sum_drop (λ c, if P c then 1 else 0) cl id c E) as H. simpl in H. rewrite HP in H.
  pose proof (count_nonneg P (delete id cl)) as Hn. unfold count in Hn. lia.
Qed.

(** The counters are linear. *)
Lemma charge_linear p owner n l : p ∈ fields → p (chargeExact owner n l) = p l + p (chargeExact owner n noBytes).
Proof.
  unfold fields. rewrite !elem_of_cons, elem_of_nil. destruct l.
  intros [->|[->|[->|[->|[->|[->|[->|[->|[]]]]]]]]]; destruct owner; simpl; lia.
Qed.
Lemma charge_neg p owner n : p ∈ fields → p (chargeExact owner (- n) noBytes) = - p (chargeExact owner n noBytes).
Proof.
  unfold fields. rewrite !elem_of_cons, elem_of_nil.
  intros [->|[->|[->|[->|[->|[->|[->|[->|[]]]]]]]]]; destruct owner; simpl; lia.
Qed.
Lemma charge_range p owner n : p ∈ fields → 0 ≤ n → 0 ≤ p (chargeExact owner n noBytes) ≤
  windowBytes (chargeExact owner n noBytes) + sessionBytes (chargeExact owner n noBytes).
Proof.
  unfold fields. rewrite !elem_of_cons, elem_of_nil.
  intros [->|[->|[->|[->|[->|[->|[->|[->|[]]]]]]]]] Hn; destruct owner; simpl; lia.
Qed.
Lemma none_range p : p ∈ fields → p noBytes = 0.
Proof. unfold fields. rewrite !elem_of_cons, elem_of_nil. by intros [->|[->|[->|[->|[->|[->|[->|[->|[]]]]]]]]]. Qed.

(** At the width of the counters nothing wraps while every field stays in range. *)
Lemma charge_fits owner n l : (∀ p, p ∈ fields → in_i64 (p (chargeExact owner n l))) → charge owner n l = chargeExact owner n l.
Proof.
  intros H. unfold fields in H. destruct l.
  pose proof (H windowBytes ltac:(set_solver)) as H1. pose proof (H sessionBytes ltac:(set_solver)) as H2.
  pose proof (H aggregateInitialPoolBytes ltac:(set_solver)) as H3. pose proof (H aggregateGrowthPoolBytes ltac:(set_solver)) as H4.
  pose proof (H aggregateSessionMetadataBytes ltac:(set_solver)) as H5.
  pose proof (H legacyControlSupplementBytes ltac:(set_solver)) as H6.
  pose proof (H legacySessionEnvelopeBytes ltac:(set_solver)) as H7.
  pose proof (H legacyStreamSupplementBytes ltac:(set_solver)) as H8. clear H.
  destruct owner; simpl in *; f_equal; by apply i64_id.
Qed.

(** Every counter of sound books is between nothing and all that is promised. *)
Lemma book_range p cl se : p ∈ fields → map_Forall (λ _ c, closureOk se c) cl →
  map_Forall (λ _ s, 0 ≤ s.(bytes)) se →
  0 ≤ book p cl se ≤ book windowBytes cl se + book sessionBytes cl se.
Proof.
  intros Hp Hcl Hse. unfold book.
  assert (Hc : ∀ id c, cl !! id = Some c → 0 ≤ p (owedBy c) ≤ windowBytes (owedBy c) + sessionBytes (owedBy c)).
  { intros id c E. specialize (Hcl id c E). destruct c as [owner n| | |]; simpl in *; rewrite ?(none_range p Hp); try lia.
    by apply charge_range. }
  assert (Hs : ∀ id s, se !! id = Some s → 0 ≤ p (prepaidBy s) ≤ windowBytes (prepaidBy s) + sessionBytes (prepaidBy s)).
  { intros id s E. specialize (Hse id s E). unfold prepaidBy. destruct (released s); [rewrite (none_range p Hp); simpl; lia|].
    by apply charge_range. }
  assert (S : ∀ {A} (f g h : A → Z) (m : gmap Z A), (∀ id x, m !! id = Some x → 0 ≤ f x ≤ g x + h x) →
    0 ≤ msum (f <$> m) ≤ msum (g <$> m) + msum (h <$> m)).
  { clear. intros A f g h m H. induction m as [|k x m Hk IH] using map_ind; [by rewrite !fmap_empty|].
    rewrite !sum_new by done. pose proof (H k x (lookup_insert_eq _ _ _)).
    enough (0 ≤ msum (f <$> m) ≤ msum (g <$> m) + msum (h <$> m)) by lia.
    apply IH. intros id y E. apply (H id). rewrite lookup_insert_ne; [done|congruence]. }
  pose proof (S _ (λ c, p (owedBy c)) (λ c, windowBytes (owedBy c)) (λ c, sessionBytes (owedBy c)) cl Hc).
  pose proof (S _ (λ s, p (prepaidBy s)) (λ s, windowBytes (prepaidBy s)) (λ s, sessionBytes (prepaidBy s)) se Hs). lia.
Qed.

Lemma field_window : windowBytes ∈ fields.
Proof. unfold fields. set_solver. Qed.
Lemma field_session : sessionBytes ∈ fields.
Proof. unfold fields. set_solver. Qed.
(** ** Lemmas: what the controller and the scavenger leave alone *)

Definition core (r : agentTunnelCapacityRuntime) :=
  (r.(inUse), r.(controlInUse), r.(controlReservedSlots), r.(counters), r.(sessions), r.(closures), r.(nextID)).

Lemma Inv_core r r' : core r' = core r → Inv r → Inv r'.
Proof.
  unfold core. intros [= E1 E2 E3 E4 E5 E6 E7] [H1 H2 H3 H4 H5 H6 H7 H8].
  split; rewrite ?E1, ?E2, ?E3, ?E4, ?E5, ?E6, ?E7; done.
Qed.

Lemma readController_core r e force : core (readController r e force).2 = core r ∧
  (readController r e force).2.(maximum) = r.(maximum).
Proof. unfold readController. destruct r.(controller); [|done]. by destruct (snapshotAt _ _ _ _ _ _ _). Qed.

Lemma snapshot_core r e force : core (snapshotLockedWithForce r e force).2 = core r ∧
  (snapshotLockedWithForce r e force).2.(maximum) = r.(maximum).
Proof.
  unfold snapshotLockedWithForce. pose proof (readController_core r e force) as H.
  by destruct (readController r e force) as [[s|] r'].
Qed.

Lemma finishRelease_core r e : core (finishRelease r e) = core r ∧ (finishRelease r e).(maximum) = r.(maximum).
Proof.
  unfold finishRelease.
  assert (Hf : core (finishActiveReleaseLocked r e).2 = core r ∧ (finishActiveReleaseLocked r e).2.(maximum) = r.(maximum)).
  { unfold finishActiveReleaseLocked. cbv zeta. case_if E; [|by destruct r.(scavengeNeeded)].
    pose proof (snapshot_core (setScavenge r r.(scavengeRunning) false) e false) as H. unfold snapshotLocked.
    by destruct (snapshotLockedWithForce _ _ _). }
  destruct (finishActiveReleaseLocked r e) as [should r']. simpl in Hf. destruct Hf as [<- <-].
  unfold runScavengeAfterRelease, requestMemoryScavenge. destruct should; [|done].
  destruct r'.(controller); [by destruct r'.(scavengeRunning)|done].
Qed.

(** ** Lemmas: the books under each operation *)

Lemma charge_book r owner n cl se : Inv r →
  (∀ p, p ∈ fields → book p cl se = p r.(counters) + p (chargeExact owner n noBytes)) →
  map_Forall (λ _ c, closureOk se c) cl → map_Forall (λ _ s, 0 ≤ s.(bytes)) se →
  book windowBytes cl se + book sessionBytes cl se ≤ max_int64 →
  ∀ p, p ∈ fields → p (charge owner n r.(counters)) = book p cl se.
Proof.
  intros HI Hb Hcl Hse Hmax.
  assert (E : charge owner n r.(counters) = chargeExact owner n r.(counters)).
  { apply charge_fits. intros p Hp. rewrite charge_linear, <- Hb by done.
    pose proof (book_range p cl se Hp Hcl Hse). unfold in_i64, min_int64. lia. }
  intros p Hp. rewrite E, charge_linear, Hb by done. done.
Qed.

Lemma sessions_bytes cl (se : gmap Z agentControlSessionReservation) : map_Forall (sessionOk cl) se → map_Forall (λ _ s, 0 ≤ s.(bytes)) se.
Proof. intros H id s E. apply (so_bytes _ _ _ (H id s E)). Qed.

(** The total that a guard on the counters admits is the total of the books. *)
Lemma total_book r : Inv r → book windowBytes r.(closures) r.(sessions) + book sessionBytes r.(closures) r.(sessions) ≤ max_int64.
Proof.
  intros HI. rewrite <- (iv_book _ HI windowBytes field_window), <- (iv_book _ HI sessionBytes field_session). apply (iv_total _ HI).
Qed.

Lemma receive_total owner n : windowBytes (chargeExact owner n noBytes) + sessionBytes (chargeExact owner n noBytes) = n.
Proof. destruct owner; simpl; lia. Qed.

(** A session is unaffected by closures of other kinds. *)
Lemma sessionOk_count cl cl' id s : count (isControlOf id) cl' = count (isControlOf id) cl → sessionOk cl id s → sessionOk cl' id s.
Proof. intros E [H1 H2 H3 H4 H5]. split; try done. by rewrite E. Qed.

Lemma Inv_add_receive r owner n : Inv r → 0 ≤ n → r.(counters).(windowBytes) + r.(counters).(sessionBytes) + n ≤ max_int64 →
  Inv (newClosure (setCounters r (charge owner n r.(counters))) (ReleaseReceive owner n)).1.
Proof.
  intros HI Hn Hmax. destruct (iv_fresh _ HI r.(nextID) ltac:(lia)) as [Hc Hs].
  set (cl := <[r.(nextID) := ReleaseReceive owner n]> r.(closures)).
  assert (Hb : ∀ p, p ∈ fields → book p cl r.(sessions) = p r.(counters) + p (chargeExact owner n noBytes)).
  { intros p Hp. unfold book, cl. rewrite sum_new by done. rewrite (iv_book _ HI p Hp). unfold book. simpl. lia. }
  assert (Hcl : map_Forall (λ _ c, closureOk r.(sessions) c) cl)
    by (apply map_Forall_insert_2; [done|apply (iv_closures _ HI)]).
  assert (Hcount : ∀ P, P (ReleaseReceive owner n) = false → count P cl = count P r.(closures))
    by (intros P HP; unfold count, cl; rewrite sum_new by done; by rewrite HP).
  assert (Htot : book windowBytes cl r.(sessions) + book sessionBytes cl r.(sessions) ≤ max_int64).
  { rewrite !Hb by (apply field_window || apply field_session). pose proof (receive_total owner n). lia. }
  pose proof (charge_book r owner n cl r.(sessions) HI Hb Hcl (sessions_bytes _ _ (iv_sessions _ HI)) Htot) as Hch.
  split; cbn.
  - exact Hch.
  - rewrite !Hch by (apply field_window || apply field_session). exact Htot.
  - exact Hcl.
  - intros id s E. apply (sessionOk_count r.(closures)); [by apply Hcount|]. by apply (iv_sessions _ HI).
  - fold cl. rewrite Hcount by done. apply (iv_inUse _ HI).
  - fold cl. rewrite Hcount by done. apply (iv_control _ HI).
  - apply (iv_slots _ HI).
  - intros id Hid. destruct (iv_fresh _ HI id ltac:(lia)). rewrite lookup_insert_ne by lia. done.
Qed.
Definition one (b : bool) : Z := if b then 1 else 0.

(** A release function that owes no bytes and belongs to no session. *)
Definition plain (c : closure) : Prop := c = ReleaseOrdinary ∨ c = ReleaseNothing.

Lemma plain_book c p : plain c → p ∈ fields → p (owedBy c) = 0.
Proof. intros [-> | ->] Hp; by apply none_range. Qed.

Lemma Inv_add_plain r c : Inv r → plain c →
  Inv (newClosure (setUse r (r.(inUse) + one (isOrdinary c)) r.(controlInUse)) c).1.
Proof.
  intros HI Hpl. destruct (iv_fresh _ HI r.(nextID) ltac:(lia)) as [Hc Hs].
  assert (Hcount : ∀ P, count P (<[r.(nextID) := c]> r.(closures)) = one (P c) + count P r.(closures))
    by (intros P; unfold count; by rewrite sum_new).
  assert (Hctl : isControl c = false ∧ ∀ id, isControlOf id c = false) by (by destruct Hpl as [-> | ->]).
  destruct Hctl as [Hctl Hof]. split; cbn.
  - intros p Hp. rewrite (iv_book _ HI p Hp). unfold book. rewrite sum_new, plain_book by done. lia.
  - apply (iv_total _ HI).
  - apply map_Forall_insert_2; [by destruct Hpl as [-> | ->]|apply (iv_closures _ HI)].
  - intros id s E. apply (sessionOk_count r.(closures)); [by rewrite Hcount, Hof|]. by apply (iv_sessions _ HI).
  - rewrite Hcount, (iv_inUse _ HI). lia.
  - rewrite Hcount, Hctl, (iv_control _ HI). done.
  - apply (iv_slots _ HI).
  - intros id Hid. destruct (iv_fresh _ HI id ltac:(lia)). rewrite lookup_insert_ne by lia. done.
Qed.

Lemma Inv_drop_plain r id c : Inv r → r.(closures) !! id = Some c → plain c →
  Inv (setUse (setClosures r (delete id r.(closures))) (r.(inUse) - one (isOrdinary c)) r.(controlInUse)).
Proof.
  intros HI E Hpl.
  assert (Hcount : ∀ P, count P (delete id r.(closures)) = count P r.(closures) - one (P c))
    by (intros P; unfold count; by rewrite (sum_drop _ _ _ c)).
  assert (Hctl : isControl c = false ∧ ∀ id, isControlOf id c = false) by (by destruct Hpl as [-> | ->]).
  destruct Hctl as [Hctl Hof]. split; cbn.
  - intros p Hp. rewrite (iv_book _ HI p Hp). unfold book. rewrite (sum_drop _ _ _ c), plain_book by done. lia.
  - apply (iv_total _ HI).
  - apply map_Forall_delete, (iv_closures _ HI).
  - intros i s Es. apply (sessionOk_count r.(closures)); [rewrite Hcount, Hof; simpl; lia|]. by apply (iv_sessions _ HI).
  - rewrite Hcount, (iv_inUse _ HI). done.
  - rewrite Hcount, Hctl, (iv_control _ HI). simpl. lia.
  - apply (iv_slots _ HI).
  - intros i Hi. destruct (iv_fresh _ HI i Hi) as [H1 H2]. split; [|done]. rewrite lookup_delete_None. auto.
Qed.

Lemma Inv_drop_receive r id owner n : Inv r → r.(closures) !! id = Some (ReleaseReceive owner n) →
  Inv (setCounters (setClosures r (delete id r.(closures))) (charge owner (- n) r.(counters))).
Proof.
  intros HI E. set (cl := delete id r.(closures)). pose proof (iv_closures _ HI id _ E) as Hn. simpl in Hn.
  assert (Hcount : ∀ P, P (ReleaseReceive owner n) = false → count P cl = count P r.(closures)).
  { intros P HP. unfold count, cl. rewrite (sum_drop _ _ _ _ E), HP. lia. }
  assert (Hb : ∀ p, p ∈ fields → book p cl r.(sessions) = p r.(counters) + p (chargeExact owner (- n) noBytes)).
  { intros p Hp. unfold book, cl. rewrite (sum_drop _ _ _ _ E), (iv_book _ HI p Hp), charge_neg by done. unfold book. simpl. lia. }
  assert (Hcl : map_Forall (λ _ c, closureOk r.(sessions) c) cl) by apply map_Forall_delete, (iv_closures _ HI).
  assert (Htot : book windowBytes cl r.(sessions) + book sessionBytes cl r.(sessions) ≤ max_int64).
  { rewrite !Hb by (apply field_window || apply field_session). pose proof (receive_total owner (- n)).
    pose proof (iv_total _ HI). lia. }
  pose proof (charge_book r owner (- n) cl r.(sessions) HI Hb Hcl (sessions_bytes _ _ (iv_sessions _ HI)) Htot) as Hch.
  split; cbn.
  - exact Hch.
  - rewrite !Hch by (apply field_window || apply field_session). exact Htot.
  - exact Hcl.
  - intros i s Es. apply (sessionOk_count r.(closures)); [by apply Hcount|]. by apply (iv_sessions _ HI).
  - fold cl. rewrite Hcount by done. apply (iv_inUse _ HI).
  - fold cl. rewrite Hcount by done. apply (iv_control _ HI).
  - apply (iv_slots _ HI).
  - intros i Hi. destruct (iv_fresh _ HI i Hi) as [H1 H2]. split; [|done]. unfold cl. rewrite lookup_delete_None. auto.
Qed.

(** A session whose promise and state stay, but for the number of active streams. *)
Definition withActive (s : agentControlSessionReservation) (k : Z) : agentControlSessionReservation :=
  mkSession s.(bytes) s.(slots) k s.(released).

(** Replacing a session by one that is in order too. *)
Lemma sessions_put cl cl' (se : gmap Z agentControlSessionReservation) id s s' : map_Forall (sessionOk cl) se → se !! id = Some s →
  sessionOk cl' id s' → (∀ i, i ≠ id → count (isControlOf i) cl' = count (isControlOf i) cl) →
  map_Forall (sessionOk cl') (<[id := s']> se).
Proof.
  intros Hse Es Hs' Hc i x Ex. apply lookup_insert_Some in Ex as [[<- <-]|[Hne Ex]]; [done|].
  apply (sessionOk_count cl); [by apply Hc|by apply Hse].
Qed.

Lemma closures_put (se : gmap Z agentControlSessionReservation) (cl : gmap Z closure) id s' : map_Forall (λ _ c, closureOk se c) cl →
  map_Forall (λ _ c, closureOk (<[id := s']> se) c) cl.
Proof.
  intros H i c Ec. specialize (H i c Ec). destruct c; try done. simpl in *. apply lookup_insert_is_Some'. by right.
Qed.

Lemma control_other i id : i ≠ id → isControlOf i (ReleaseControl id) = false.
Proof. intros H. simpl. apply Z.eqb_neq. congruence. Qed.

Lemma Inv_add_control r id s : Inv r → r.(sessions) !! id = Some s → s.(released) = false → s.(active) < s.(slots) →
  Inv (newClosure (setUse (setSessions r (<[id := withActive s (s.(active) + 1)]> r.(sessions))) r.(inUse) (r.(controlInUse) + 1))
         (ReleaseControl id)).1.
Proof.
  intros HI Es Hrel Hlt. destruct (iv_fresh _ HI r.(nextID) ltac:(lia)) as [Hc Hs].
  assert (Hcount : ∀ P, count P (<[r.(nextID) := ReleaseControl id]> r.(closures)) = one (P (ReleaseControl id)) + count P r.(closures))
    by (intros P; unfold count; by rewrite sum_new).
  destruct (iv_sessions _ HI id s Es) as [S1 S2 S3 S4 S5]. split; cbn.
  - intros p Hp. rewrite (iv_book _ HI p Hp). unfold book. rewrite sum_new, (sum_put _ _ _ s) by done. simpl.
    rewrite (none_range p Hp). unfold prepaidBy. simpl. lia.
  - apply (iv_total _ HI).
  - apply map_Forall_insert_2; [simpl; rewrite lookup_insert_eq; eauto|]. apply closures_put, (iv_closures _ HI).
  - apply (sessions_put r.(closures) _ _ _ s); [apply (iv_sessions _ HI)|done| |].
    + split; simpl; [done|done| |lia|congruence]. rewrite Hcount. simpl. rewrite Z.eqb_refl. simpl. lia.
    + intros i Hi. by rewrite Hcount, control_other.
  - rewrite Hcount, (iv_inUse _ HI). done.
  - rewrite Hcount, (iv_control _ HI). simpl. lia.
  - rewrite (sum_put _ _ _ s), (iv_slots _ HI) by done. unfold liveSlots. simpl. lia.
  - intros i Hi. destruct (iv_fresh _ HI i ltac:(lia)) as [H1 H2].
    rewrite !lookup_insert_ne by (lia || intros <-; congruence). done.
Qed.

Lemma Inv_drop_control r c id s : Inv r → r.(closures) !! c = Some (ReleaseControl id) → r.(sessions) !! id = Some s →
  0 < s.(active) ∧ 0 < r.(controlInUse) ∧
  Inv (setUse (setSessions (setClosures r (delete c r.(closures))) (<[id := withActive s (s.(active) - 1)]> r.(sessions)))
         r.(inUse) (r.(controlInUse) - 1)).
Proof.
  intros HI Ec Es.
  assert (Hcount : ∀ P, count P (delete c r.(closures)) = count P r.(closures) - one (P (ReleaseControl id)))
    by (intros P; unfold count; by rewrite (sum_drop _ _ _ _ Ec)).
  destruct (iv_sessions _ HI id s Es) as [S1 S2 S3 S4 S5].
  assert (H1 : 1 ≤ s.(active)) by (rewrite S3; apply (count_pos _ _ c _ Ec); simpl; apply Z.eqb_refl).
  assert (H2 : 1 ≤ r.(controlInUse)) by (rewrite (iv_control _ HI); by apply (count_pos _ _ c _ Ec)).
  split_and!; [lia|lia|]. split; cbn.
  - intros p Hp. rewrite (iv_book _ HI p Hp). unfold book. rewrite (sum_drop _ _ _ _ Ec), (sum_put _ _ _ s) by done. simpl.
    rewrite (none_range p Hp). unfold prepaidBy. simpl. lia.
  - apply (iv_total _ HI).
  - apply map_Forall_delete, closures_put, (iv_closures _ HI).
  - apply (sessions_put r.(closures) _ _ _ s); [apply (iv_sessions _ HI)|done| |].
    + split; simpl; [done|done| |lia|intros Hr; specialize (S5 Hr); lia].
      rewrite Hcount. simpl. rewrite Z.eqb_refl. simpl. lia.
    + intros i Hi. rewrite Hcount, control_other by done. simpl. lia.
  - rewrite Hcount, (iv_inUse _ HI). simpl. lia.
  - rewrite Hcount, (iv_control _ HI). simpl. lia.
  - rewrite (sum_put _ _ _ s), (iv_slots _ HI) by done. unfold liveSlots. simpl. lia.
  - intros i Hi. destruct (iv_fresh _ HI i Hi) as [F1 F2]. rewrite lookup_delete_None, lookup_insert_ne by (intros <-; congruence).
    auto.
Qed.
Lemma count_none P cl : (∀ id c, cl !! id = Some c → P c = false) → count P cl = 0.
Proof.
  intros H. unfold count. induction cl as [|k c cl Hk IH] using map_ind; [done|]. rewrite sum_new by done.
  rewrite (H k c) by apply lookup_insert_eq. rewrite IH; [done|]. intros id x E. apply (H id). rewrite lookup_insert_ne; [done|congruence].
Qed.

Lemma Inv_new_session r n k : Inv r → 0 ≤ n → 1 ≤ k → r.(counters).(windowBytes) + r.(counters).(sessionBytes) + n ≤ max_int64 →
  Inv (freshID (setSessions (setSlots (setCounters r (charge LegacyControlSupplement n r.(counters))) (r.(controlReservedSlots) + k))
         (<[r.(nextID) := mkSession n k 0 false]> r.(sessions)))).
Proof.
  intros HI Hn Hk Hmax. destruct (iv_fresh _ HI r.(nextID) ltac:(lia)) as [Hc Hs].
  set (se := <[r.(nextID) := mkSession n k 0 false]> r.(sessions)).
  assert (Hb : ∀ p, p ∈ fields → book p r.(closures) se = p r.(counters) + p (chargeExact LegacyControlSupplement n noBytes)).
  { intros p Hp. unfold book, se. rewrite (sum_new (λ s, p (prepaidBy s))) by done. rewrite (iv_book _ HI p Hp). unfold book.
    change (prepaidBy (mkSession n k 0 false)) with (chargeExact LegacyControlSupplement n noBytes). lia. }
  assert (Hcl : map_Forall (λ _ c, closureOk se c) r.(closures)) by apply closures_put, (iv_closures _ HI).
  assert (Hse : map_Forall (sessionOk r.(closures)) se).
  { apply map_Forall_insert_2; [|apply (iv_sessions _ HI)]. split; simpl; [lia|lia| |lia|done]. symmetry. apply count_none.
    intros id c Ec. destruct c as [| |i|]; try done. simpl. destruct (Z.eqb_spec i r.(nextID)) as [->|]; [|done].
    destruct (iv_closures _ HI id _ Ec) as [x Hx]. congruence. }
  assert (Htot : book windowBytes r.(closures) se + book sessionBytes r.(closures) se ≤ max_int64).
  { rewrite !Hb by (apply field_window || apply field_session). simpl. lia. }
  pose proof (charge_book r _ _ _ _ HI Hb Hcl (sessions_bytes _ _ Hse) Htot) as Hch. split; cbn.
  - exact Hch.
  - rewrite !Hch by (apply field_window || apply field_session). exact Htot.
  - exact Hcl.
  - exact Hse.
  - apply (iv_inUse _ HI).
  - apply (iv_control _ HI).
  - unfold se. rewrite sum_new, (iv_slots _ HI) by done. unfold liveSlots at 2. simpl. lia.
  - intros id Hid. destruct (iv_fresh _ HI id ltac:(lia)). unfold se. rewrite lookup_insert_ne by lia. done.
Qed.

Definition liveBytes (s : agentControlSessionReservation) : Z := if s.(released) then 0 else s.(bytes).

(** A session without active streams gives back part of its promise, or all of it. *)
Lemma Inv_shrink_session r id s s' : Inv r → r.(sessions) !! id = Some s → s.(active) = 0 → s'.(active) = 0 →
  0 ≤ s'.(bytes) → 1 ≤ s'.(slots) → liveBytes s' ≤ liveBytes s →
  Inv (setSessions (setSlots (setCounters r (charge LegacyControlSupplement (- (liveBytes s - liveBytes s')) r.(counters)))
         (r.(controlReservedSlots) - (liveSlots s - liveSlots s'))) (<[id := s']> r.(sessions))).
Proof.
  intros HI Es Ha Ha' Hb' Hk' Hle. set (d := liveBytes s - liveBytes s').
  destruct (iv_sessions _ HI id s Es) as [S1 S2 S3 S4 S5].
  set (se := <[id := s']> r.(sessions)).
  assert (Hpre : ∀ p x, p ∈ fields → p (prepaidBy x) = p (chargeExact LegacyControlSupplement (liveBytes x) noBytes)).
  { intros p x Hp. unfold prepaidBy, liveBytes. destruct (released x); [|done].
    change (chargeExact LegacyControlSupplement 0 noBytes) with noBytes. done. }
  assert (Hb : ∀ p, p ∈ fields → book p r.(closures) se = p r.(counters) + p (chargeExact LegacyControlSupplement (- d) noBytes)).
  { intros p Hp. unfold book, se. rewrite (sum_put (λ s, p (prepaidBy s)) _ _ s) by done. rewrite (iv_book _ HI p Hp), !(Hpre p) by done.
    unfold book. unfold fields in Hp. rewrite !elem_of_cons, elem_of_nil in Hp. unfold d.
    destruct Hp as [->|[->|[->|[->|[->|[->|[->|[->|[]]]]]]]]]; simpl; lia. }
  assert (Hcl : map_Forall (λ _ c, closureOk se c) r.(closures)) by apply closures_put, (iv_closures _ HI).
  assert (Hse : map_Forall (sessionOk r.(closures)) se).
  { apply (sessions_put r.(closures) _ _ _ s); [apply (iv_sessions _ HI)|done| |done]. split; [done|done|congruence|lia|done]. }
  assert (Htot : book windowBytes r.(closures) se + book sessionBytes r.(closures) se ≤ max_int64).
  { rewrite !Hb by (apply field_window || apply field_session). pose proof (iv_total _ HI). unfold d. simpl. lia. }
  pose proof (charge_book r _ _ _ _ HI Hb Hcl (sessions_bytes _ _ Hse) Htot) as Hch. split; cbn.
  - exact Hch.
  - rewrite !Hch by (apply field_window || apply field_session). exact Htot.
  - exact Hcl.
  - exact Hse.
  - apply (iv_inUse _ HI).
  - apply (iv_control _ HI).
  - unfold se. rewrite (sum_put _ _ _ s), (iv_slots _ HI) by done. lia.
  - intros i Hi. destruct (iv_fresh _ HI i Hi) as [F1 F2]. unfold se. rewrite lookup_insert_ne by (intros <-; congruence). done.
Qed.

(** ** Every operation keeps the books *)

Lemma Inv_new m isAdaptive c d : Inv (newAgentTunnelCapacityRuntime m isAdaptive c d).
Proof.
  split; cbn; try done. unfold fields. intros p. rewrite !elem_of_cons, elem_of_nil.
  by intros [->|[->|[->|[->|[->|[->|[->|[->|[]]]]]]]]].
Qed.

Lemma externalWith_Some l n total : externalWith l n = Some total →
  0 ≤ n ∧ total = l.(windowBytes) + l.(sessionBytes) + n ∧ total ≤ max_int64.
Proof. unfold externalWith. intros H. case_hyp H; [done|]. case_hyp H; [done|]. injection H as <-. bprop. lia. Qed.

Lemma tryReserve_Inv r n owner e : Inv r → Inv (tryReserveOwnedReceiveResource r n owner e).2.
Proof.
  intros HI. unfold tryReserveOwnedReceiveResource. destruct (readController_core r e false) as [Hc _].
  destruct (readController r e false) as [[s|] r']; simpl in Hc; pose proof (Inv_core _ _ Hc HI) as HI'.
  - destruct (externalWith r'.(counters) n) as [total|] eqn:Ex; [|done]. apply externalWith_Some in Ex as (Hn & -> & Ht).
    case_if E; [done|]. pose proof (Inv_add_receive r' owner n HI' Hn Ht) as H. by destruct (newClosure _ _).
  - pose proof (Inv_add_plain r' ReleaseNothing HI' ltac:(by right)) as H. destruct (newClosure r' ReleaseNothing) eqn:E.
    eapply Inv_core; [|exact H]. unfold newClosure in *. injection E as <- _. unfold core. simpl. by rewrite Z.add_0_r.
Qed.

Lemma callRelease_Inv r id e : Inv r → Inv (callRelease r id e).
Proof.
  intros HI. unfold callRelease. destruct (r.(closures) !! id) as [c|] eqn:Ec; [|done]. destruct c as [owner n| |i|]; simpl.
  - by apply Inv_drop_receive.
  - apply (Inv_core _ _ (proj1 (finishRelease_core _ e))). eapply Inv_core; [|apply (Inv_drop_plain r id _ HI Ec); by left].
    assert (Hp : 1 ≤ r.(inUse)) by (rewrite (iv_inUse _ HI); by apply (count_pos _ _ id _ Ec)).
    unfold core. simpl. by rewrite (proj2 (Z.ltb_lt 0 _)) by lia.
  - destruct (iv_closures _ HI id _ Ec) as [s Es]. rewrite Es. apply (Inv_core _ _ (proj1 (finishRelease_core _ e))).
    destruct (Inv_drop_control r id i s HI Ec Es) as (H1 & H2 & H3). eapply Inv_core; [|exact H3]. unfold core. simpl.
    by rewrite !(proj2 (Z.ltb_lt 0 _)) by lia.
  - eapply Inv_core; [|apply (Inv_drop_plain r id _ HI Ec); by right]. unfold core. simpl. by rewrite Z.sub_0_r.
Qed.

Lemma tryAcquire_Inv r e : Inv r → Inv (tryAcquire r e).2.
Proof.
  intros HI. unfold tryAcquire, snapshotLocked. destruct (snapshot_core r e false) as [Hc _].
  destruct (snapshotLockedWithForce r e false) as [s r']. simpl in Hc. pose proof (Inv_core _ _ Hc HI) as HI'.
  case_if E; [case_if E2; by apply (Inv_core r')|].
  pose proof (Inv_add_plain r' ReleaseOrdinary HI' ltac:(by left)) as H. by destruct (newClosure _ _).
Qed.

Lemma tryReserveControlSession_Inv r n k e : Inv r → Inv (tryReserveControlSession r n k e).2.
Proof.
  intros HI. unfold tryReserveControlSession. case_if E1; [done|].
  destruct (externalWith r.(counters) n) as [total|] eqn:Ex; [|done]. apply externalWith_Some in Ex as (Hn & -> & Ht).
  case_if E2; [done|]. case_if E3; [done|]. destruct (readController_core r e false) as [Hc _].
  destruct (readController r e false) as [s r']. simpl in Hc. pose proof (Inv_core _ _ Hc HI) as HI'. case_if E4; [done|]. simpl.
  unfold core in Hc. injection Hc as H1 H2 H3 H4 H5 H6 H7.
  apply (Inv_new_session r' n k HI'); [done|bprop; lia|by rewrite H4].
Qed.

Lemma activate_Inv r id m n k : Inv r → Inv (activate r id m n k).2.
Proof.
  intros HI. unfold activate. case_if E1; [done|]. destruct (r.(sessions) !! id) as [s|] eqn:Es; [|done].
  case_if E2; [done|]. case_if E3; [done|]. simpl. bprop.
  pose proof (Inv_shrink_session r id s (mkSession n k s.(active) s.(released)) HI Es) as HS.
  unfold liveBytes, liveSlots in HS. simpl in HS. destruct (released s); [done|].
  eapply Inv_core; [|apply HS; done || lia]. done.
Qed.

Lemma tryAcquireControl_Inv r id : Inv r → Inv (tryAcquireControl r id).2.
Proof.
  intros HI. unfold tryAcquireControl. destruct (r.(sessions) !! id) as [s|] eqn:Es; [|done]. case_if E; [by eapply Inv_core; [|exact HI]|].
  bprop. pose proof (Inv_add_control r id s HI Es ltac:(done) ltac:(lia)) as HS. by destruct (newClosure _ _).
Qed.

Lemma releaseSession_Inv r id : Inv r → Inv (releaseSession r id).
Proof.
  intros HI. unfold releaseSession. destruct (r.(sessions) !! id) as [s|] eqn:Es; [|done]. case_if E; [done|]. bprop.
  pose proof (Inv_shrink_session r id s (mkSession s.(bytes) s.(slots) s.(active) true) HI Es) as HS.
  destruct (iv_sessions _ HI id s Es) as [S1 S2 S3 S4 S5]. unfold liveBytes, liveSlots in HS. simpl in HS.
  destruct (released s); [done|]. rewrite !Z.sub_0_r in HS. eapply Inv_core; [|apply HS; done || lia]. done.
Qed.
Lemma tryReserveAggregate_Inv r n m e e' : Inv r → Inv (tryReserveAggregateSessionResource r n m e e').2.
Proof.
  intros HI. unfold tryReserveAggregateSessionResource.
  pose proof (tryReserve_Inv r n AggregateInitialPool e HI) as H1.
  destruct (tryReserveOwnedReceiveResource r n AggregateInitialPool e) as [[pool|] r1]; [|done]. simpl in H1.
  pose proof (tryReserve_Inv r1 m AggregateSessionMetadata e' H1) as H2.
  destruct (tryReserveOwnedReceiveResource r1 m AggregateSessionMetadata e') as [[meta|] r2]; [done|]. by apply callRelease_Inv.
Qed.

(** ** Sequences of operations *)

(** [OpScavenger] is the worker changing its flags. *)
Inductive op :=
  | OpSetMaximum (m : Z)
  | OpReserve (n : Z) (owner : agentReceiveResourceOwner) (e : env)
  | OpReserveAggregate (n m : Z) (e e' : env)
  | OpRelease (id : Z) (e : env)
  | OpAcquire (e : env)
  | OpReject
  | OpReserveControl (n k : Z) (e : env)
  | OpActivate (id m n k : Z)
  | OpAcquireControl (id : Z)
  | OpReleaseSession (id : Z)
  | OpSnapshot (e : env) (force : bool)
  | OpScavenger (running needed : bool).

Definition apply (r : agentTunnelCapacityRuntime) (o : op) : agentTunnelCapacityRuntime :=
  match o with
  | OpSetMaximum m => setMaximum r m
  | OpReserve n owner e => (tryReserveOwnedReceiveResource r n owner e).2
  | OpReserveAggregate n m e e' => (tryReserveAggregateSessionResource r n m e e').2
  | OpRelease id e => callRelease r id e
  | OpAcquire e => (tryAcquire r e).2
  | OpReject => recordPressureRejection r
  | OpReserveControl n k e => (tryReserveControlSession r n k e).2
  | OpActivate id m n k => (activate r id m n k).2
  | OpAcquireControl id => (tryAcquireControl r id).2
  | OpReleaseSession id => releaseSession r id
  | OpSnapshot e force => (snapshotLockedWithForce r e force).2
  | OpScavenger running needed => setScavenge r running needed
  end.

Definition run (r : agentTunnelCapacityRuntime) (ops : list op) : agentTunnelCapacityRuntime := fold_left apply ops r.

Lemma apply_Inv r o : Inv r → Inv (apply r o).
Proof.
  intros HI. destruct o; simpl; auto using tryReserve_Inv, tryReserveAggregate_Inv, callRelease_Inv, tryAcquire_Inv,
    tryReserveControlSession_Inv, activate_Inv, tryAcquireControl_Inv, releaseSession_Inv.
  - unfold setMaximum. destruct (m <? 1); [done|]. by apply (Inv_core r).
  - by apply (Inv_core r).
  - apply (Inv_core r); [apply snapshot_core|done].
  - by apply (Inv_core r).
Qed.

Lemma run_Inv r ops : Inv r → Inv (run r ops).
Proof. revert r. induction ops as [|o ops IH]; intros r HI; simpl; [done|]. by apply IH, apply_Inv. Qed.

(** ** What backs an admission *)

Definition external (r : agentTunnelCapacityRuntime) : Z := r.(counters).(windowBytes) + r.(counters).(sessionBytes).
Definition memoryLimit (s : AdaptiveMemorySnapshot) : Z :=
  if (s.(MemoryPressure.MemoryAdmissionLimit) =? 0) && (s.(MemoryPressure.FDAdmissionLimit) =? 0)
  then s.(MemoryPressure.AdmissionLimit) else s.(MemoryPressure.MemoryAdmissionLimit).

(** The controller admits new work, every admission it is charged for is within its
    limit, and in bytes the streams and all promises fit into its memory limit. *)
Definition backed (s : AdaptiveMemorySnapshot) (r : agentTunnelCapacityRuntime) : Prop :=
  s.(MemoryPressure.RejectNew) = false ∧
  chargedAdmissionsLocked r ≤ AdmissionLimitWithExternal s (external r) 0 ∧
  (0 < s.(MemoryPressure.StreamChargeByte) → 0 ≤ memoryLimit s →
   chargedAdmissionsLocked r * s.(MemoryPressure.StreamChargeByte) + external r
   ≤ memoryLimit s * s.(MemoryPressure.StreamChargeByte)).

Lemma limit_backed s n : 0 ≤ n → 0 ≤ AdmissionLimitWithExternal s n 0 → 0 < s.(MemoryPressure.StreamChargeByte) → 0 ≤ memoryLimit s →
  AdmissionLimitWithExternal s n 0 * s.(MemoryPressure.StreamChargeByte) + n ≤ memoryLimit s * s.(MemoryPressure.StreamChargeByte).
Proof.
  intros Hn Hl Hc Hm. destruct (decide (n = 0)) as [->|Hne].
  - enough (AdmissionLimitWithExternal s 0 0 ≤ memoryLimit s) by nia.
    unfold AdmissionLimitWithExternal, memoryLimit in *. rewrite andb_false_r. simpl.
    destruct (0 <? MemoryPressure.Maximum s); lia.
  - by apply MemoryPressure.external_backed; try lia.
Qed.

Lemma backed_intro s r : Inv r → s.(MemoryPressure.RejectNew) = false →
  chargedAdmissionsLocked r ≤ AdmissionLimitWithExternal s (external r) 0 → backed s r.
Proof.
  intros HI Hr Hle. split_and!; [done|done|]. intros Hc Hm.
  assert (Hn : 0 ≤ external r).
  { unfold external. rewrite (iv_book _ HI windowBytes field_window), (iv_book _ HI sessionBytes field_session).
    pose proof (book_range windowBytes r.(closures) r.(sessions) field_window (iv_closures _ HI) (sessions_bytes _ _ (iv_sessions _ HI))).
    lia. }
  assert (Hq : 0 ≤ chargedAdmissionsLocked r).
  { unfold chargedAdmissionsLocked. rewrite (iv_inUse _ HI), (iv_slots _ HI). pose proof (count_nonneg isOrdinary r.(closures)).
    assert (0 ≤ msum (liveSlots <$> r.(sessions))); [|lia]. apply sum_nonneg. intros id x E.
    destruct (iv_sessions _ HI id x E). unfold liveSlots. destruct (released x); lia. }
  pose proof (limit_backed s (external r) Hn ltac:(lia) Hc Hm). nia.
Qed.

Lemma tryReserve_backed r n owner e id r' c : Inv r → r.(controller) = Some c →
  tryReserveOwnedReceiveResource r n owner e = (Some id, r') →
  ∃ s, (readController r e false).1 = Some s ∧ backed s r'.
Proof.
  intros HI Hc H. pose proof (tryReserve_Inv r n owner e HI) as HI'. rewrite H in HI'. simpl in HI'.
  unfold tryReserveOwnedReceiveResource in H. destruct (readController_core r e false) as [Hcore _].
  assert (Hs : is_Some (readController r e false).1).
  { unfold readController. rewrite Hc. destruct (snapshotAt _ _ _ _ _ _ _). simpl. eauto. }
  destruct (readController r e false) as [[s|] r1]; [|by destruct Hs]. exists s. split; [done|].
  destruct (externalWith r1.(counters) n) as [total|] eqn:Ex; [|done]. apply externalWith_Some in Ex as (Hn & -> & Ht).
  case_hyp H; [done|]. bprop. simpl in Hcore. pose proof (Inv_core _ _ Hcore HI) as HI1.
  injection H as _ <-. apply backed_intro; [done|done|].
  replace (external _) with (r1.(counters).(windowBytes) + r1.(counters).(sessionBytes) + n); [done|].
  unfold external. rewrite (iv_book _ HI' windowBytes field_window), (iv_book _ HI' sessionBytes field_session). simpl.
  rewrite (iv_book _ HI1 windowBytes field_window), (iv_book _ HI1 sessionBytes field_session). unfold book.
  destruct (iv_fresh _ HI1 r1.(nextID) ltac:(lia)) as [F _]. rewrite !sum_new by done. pose proof (receive_total owner n). simpl in *. lia.
Qed.
Lemma tryReserveControl_backed r n k e id r' c : Inv r → r.(controller) = Some c →
  tryReserveControlSession r n k e = (Some id, r') →
  ∃ s, (readController r e false).1 = Some s ∧ backed s r'.
Proof.
  intros HI Hc H. pose proof (tryReserveControlSession_Inv r n k e HI) as HI'. rewrite H in HI'. simpl in HI'.
  unfold tryReserveControlSession in H. case_hyp H; [done|].
  destruct (externalWith r.(counters) n) as [total|] eqn:Ex; [|done]. apply externalWith_Some in Ex as (Hn & -> & Ht).
  case_hyp H; [done|]. case_hyp H; [done|]. destruct (readController_core r e false) as [Hcore _].
  assert (Hs : is_Some (readController r e false).1).
  { unfold readController. rewrite Hc. destruct (snapshotAt _ _ _ _ _ _ _). simpl. eauto. }
  destruct (readController r e false) as [[s|] r1]; [|by destruct Hs]. exists s. split; [done|]. simpl in Hcore.
  pose proof (Inv_core _ _ Hcore HI) as HI1. unfold core in Hcore. injection Hcore as C1 C2 C3 C4 C5 C6 C7.
  case_hyp H; [done|]. injection H as _ <-. bprop. apply backed_intro; [done|done|].
  replace (external _) with (r.(counters).(windowBytes) + r.(counters).(sessionBytes) + n).
  - unfold chargedAdmissionsLocked in *. simpl. lia.
  - unfold external. rewrite (iv_book _ HI' windowBytes field_window), (iv_book _ HI' sessionBytes field_session). simpl.
    rewrite (iv_book _ HI windowBytes field_window), (iv_book _ HI sessionBytes field_session). unfold book.
    destruct (iv_fresh _ HI1 r1.(nextID) ltac:(lia)) as [_ F]. rewrite C6, !sum_new by done. rewrite C5. simpl. lia.
Qed.

Lemma tryAcquire_backed r e id s r' c : Inv r → r.(controller) = Some c → tryAcquire r e = (Some id, s, r') →
  (∃ res, s.(Resource) = Some res ∧ backed res r') ∧ actualInUseLocked r' ≤ r'.(maximum).
Proof.
  intros HI Hc H. pose proof (tryAcquire_Inv r e HI) as HI'. rewrite H in HI'. simpl in HI'.
  unfold tryAcquire, snapshotLocked in H. destruct (snapshot_core r e false) as [Hcore _].
  destruct (snapshotLockedWithForce r e false) as [s1 r1] eqn:E1. simpl in Hcore. pose proof (Inv_core _ _ Hcore HI) as HI1.
  case_hyp H; [done|]. injection H as _ <- <-. bprop. split; [|unfold actualInUseLocked in *; simpl; lia].
  unfold snapshotLockedWithForce in E1. cbv zeta in E1.
  assert (Hs : is_Some (readController r e false).1).
  { unfold readController. rewrite Hc. destruct (snapshotAt _ _ _ _ _ _ _). simpl. eauto. }
  destruct (readController r e false) as [[res|] r2]; [|by destruct Hs]. injection E1 as <- <-. exists res. split; [done|]. cbn in H0.
  assert (Hfit : i64 (r2.(counters).(windowBytes) + r2.(counters).(sessionBytes)) = external r2).
  { apply i64_id. pose proof (iv_total _ HI1).
    assert (0 ≤ r2.(counters).(windowBytes) + r2.(counters).(sessionBytes)).
    { rewrite (iv_book _ HI1 windowBytes field_window), (iv_book _ HI1 sessionBytes field_session).
      pose proof (book_range windowBytes r2.(closures) r2.(sessions) field_window (iv_closures _ HI1) (sessions_bytes _ _ (iv_sessions _ HI1))).
      lia. }
    unfold in_i64, external, min_int64. lia. }
  rewrite Hfit in H0. assert (Hnn : 0 ≤ r2.(inUse)) by (rewrite (iv_inUse _ HI1); apply count_nonneg).
  assert (Hex : external (setUse r2 (r2.(inUse) + 1) r2.(controlInUse)) = external r2) by done.
  apply backed_intro; [done|destruct (MemoryPressure.RejectNew res); [lia|done]|].
  change (chargedAdmissionsLocked _) with (r2.(inUse) + 1 + r2.(controlReservedSlots)).
  change (external _) with (external r2). destruct (MemoryPressure.RejectNew res); lia.
Qed.

Lemma ledger_ext (l l' : ledger) : (∀ p, p ∈ fields → p l = p l') → l = l'.
Proof.
  intros H. unfold fields in H. destruct l, l'. pose proof (H windowBytes ltac:(set_solver)). pose proof (H sessionBytes ltac:(set_solver)).
  pose proof (H aggregateInitialPoolBytes ltac:(set_solver)). pose proof (H aggregateGrowthPoolBytes ltac:(set_solver)).
  pose proof (H aggregateSessionMetadataBytes ltac:(set_solver)). pose proof (H legacyControlSupplementBytes ltac:(set_solver)).
  pose proof (H legacySessionEnvelopeBytes ltac:(set_solver)). pose proof (H legacyStreamSupplementBytes ltac:(set_solver)).
  simpl in *. congruence.
Qed.

(** ** The properties *)

(** C25: The books are exact after any sequence of operations, in any order and with any
    samples: every byte counter is the sum of the reservations whose release function has
    not run and of the live control sessions, and never wraps; ordinary and control
    streams are counted once each; the reserved slots are those of the live sessions; and
    a session never has more active streams than slots.  So when everything has been
    released, every counter is back at zero. *)
Theorem agent_ledger_exact m isAdaptive c d ops :
  let r := run (newAgentTunnelCapacityRuntime m isAdaptive c d) ops in
  (∀ p, p ∈ fields → p r.(counters) = book p r.(closures) r.(sessions)) ∧
  0 ≤ external r ≤ max_int64 ∧
  r.(inUse) = count isOrdinary r.(closures) ∧ r.(controlInUse) = count isControl r.(closures) ∧
  r.(controlReservedSlots) = msum (liveSlots <$> r.(sessions)) ∧
  (∀ id s, r.(sessions) !! id = Some s → s.(active) = count (isControlOf id) r.(closures) ∧ 0 ≤ s.(active) ≤ s.(slots)) ∧
  (r.(closures) = ∅ → (∀ id s, r.(sessions) !! id = Some s → s.(released) = true) →
    r.(counters) = noBytes ∧ r.(inUse) = 0 ∧ r.(controlInUse) = 0 ∧ r.(controlReservedSlots) = 0).
Proof.
  intros r. assert (HI : Inv r) by apply run_Inv, Inv_new. clearbody r.
  split_and!.
  - apply (iv_book _ HI).
  - unfold external. rewrite (iv_book _ HI windowBytes field_window), (iv_book _ HI sessionBytes field_session).
    pose proof (book_range windowBytes r.(closures) r.(sessions) field_window (iv_closures _ HI) (sessions_bytes _ _ (iv_sessions _ HI))). lia.
  - apply (iv_total _ HI).
  - apply (iv_inUse _ HI).
  - apply (iv_control _ HI).
  - apply (iv_slots _ HI).
  - intros id s Es. destruct (iv_sessions _ HI id s Es) as [S1 S2 S3 S4 S5]. pose proof (count_nonneg (isControlOf id) r.(closures)). lia.
  - intros Ec Hrel. pose proof (iv_inUse _ HI) as H1. pose proof (iv_control _ HI) as H2. pose proof (iv_slots _ HI) as H3.
    assert (Z0 : ∀ f : agentControlSessionReservation → Z, (∀ id s, r.(sessions) !! id = Some s → f s = 0) → msum (f <$> r.(sessions)) = 0).
    { intros f Hf. apply Z.le_antisymm; [|apply sum_nonneg; intros id s E; rewrite (Hf id s E); lia].
      pose proof (sum_nonneg (λ s, - f s) r.(sessions) ltac:(intros id s E; rewrite (Hf id s E); lia)) as Hneg.
      assert (Es : ∀ mm : gmap Z agentControlSessionReservation, msum ((λ s, - f s) <$> mm) = - msum (f <$> mm)).
      { intros mm. induction mm as [|k x mm Hk IH] using map_ind; [done|]. rewrite !sum_new by done. lia. }
      rewrite Es in Hneg. lia. }
    rewrite Ec in H1, H2. change (count isOrdinary ∅) with 0 in H1. change (count isControl ∅) with 0 in H2. split_and!; [|lia|lia|].
    + apply ledger_ext. intros p Hp. rewrite (iv_book _ HI p Hp), (none_range p Hp). unfold book. rewrite Ec, Z0; [done|].
      intros id s E. unfold prepaidBy. rewrite (Hrel id s E). by apply none_range.
    + rewrite H3. apply Z0. intros id s E. unfold liveSlots. by rewrite (Hrel id s E).
Qed.

(** C26: Under a controller nothing is promised that the latest sample does not back: when
    a stream, a receive resource or a control session is granted, the controller does not
    reject new work, the charged admissions, the new ones included, are within its limit
    beside all promised bytes, and in bytes they fit into its memory limit together; and a
    granted stream keeps the streams in use within the configured maximum. *)
Theorem agent_admission_backed m isAdaptive c0 d ops e c :
  let r := run (newAgentTunnelCapacityRuntime m isAdaptive c0 d) ops in
  r.(controller) = Some c →
  (∀ id s r', tryAcquire r e = (Some id, s, r') →
    (∃ res, s.(Resource) = Some res ∧ backed res r') ∧ actualInUseLocked r' ≤ r'.(maximum)) ∧
  (∀ n owner id r', tryReserveOwnedReceiveResource r n owner e = (Some id, r') →
    ∃ res, (readController r e false).1 = Some res ∧ backed res r') ∧
  (∀ n k id r', tryReserveControlSession r n k e = (Some id, r') →
    ∃ res, (readController r e false).1 = Some res ∧ backed res r').
Proof.
  intros r Hc. assert (HI : Inv r) by apply run_Inv, Inv_new. split_and!; intros.
  - by apply (tryAcquire_backed r e id s r' c).
  - by apply (tryReserve_backed r n owner e id r' c).
  - by apply (tryReserveControl_backed r n k e id r' c).
Qed.

(** A receive reservation is undone exactly by its release function: the counters are
    what they were, and running the function again changes nothing. *)
Theorem agent_reservation_roundtrip m isAdaptive c d ops n owner e e1 e2 id r' :
  let r := run (newAgentTunnelCapacityRuntime m isAdaptive c d) ops in
  tryReserveOwnedReceiveResource r n owner e = (Some id, r') →
  let r1 := callRelease r' id e1 in
  r1.(counters) = r.(counters) ∧ r1.(closures) = r.(closures) ∧ callRelease r1 id e2 = r1.
Proof.
  intros r H r1. assert (HI : Inv r) by apply run_Inv, Inv_new. clearbody r.
  pose proof (tryReserve_Inv r n owner e HI) as HI'. rewrite H in HI'. simpl in HI'.
  assert (Hcl : r1.(closures) = r.(closures) ∧ r1.(sessions) = r.(sessions)).
  { unfold tryReserveOwnedReceiveResource in H. destruct (readController_core r e false) as [Hcore _].
    destruct (readController r e false) as [s r2]. simpl in Hcore. unfold core in Hcore. injection Hcore as C1 C2 C3 C4 C5 C6 C7.
    destruct (iv_fresh _ HI r.(nextID) ltac:(lia)) as [F _]. unfold r1, callRelease.
    destruct s as [s|].
    - destruct (externalWith r2.(counters) n); [|done]. case_hyp H; [done|]. injection H as <- <-. simpl.
      rewrite lookup_insert_eq. simpl. rewrite delete_insert_id by (by rewrite C6, C7). done.
    - injection H as <- <-. simpl. rewrite lookup_insert_eq. simpl. rewrite delete_insert_id by (by rewrite C6, C7). done. }
  destruct Hcl as [Hcl Hse]. pose proof (callRelease_Inv r' id e1 HI') as HI1. fold r1 in HI1. split_and!; [|done|].
  - apply ledger_ext. intros p Hp. rewrite (iv_book _ HI1 p Hp), (iv_book _ HI p Hp). by rewrite Hcl, Hse.
  - unfold callRelease. rewrite Hcl.
    assert (E : r.(closures) !! id = None).
    { unfold tryReserveOwnedReceiveResource in H. destruct (readController_core r e false) as [Hcore _].
      destruct (readController r e false) as [s r2]. simpl in Hcore. unfold core in Hcore. injection Hcore as C1 C2 C3 C4 C5 C6 C7.
      destruct (iv_fresh _ HI r.(nextID) ltac:(lia)) as [F _].
      destruct s as [s|]; [destruct (externalWith r2.(counters) n); [|done]; case_hyp H; [done|]|]; injection H as <- _; by rewrite C7. }
    by rewrite E.
Qed.

(** ** Examples *)

Definition exampleController : AdaptiveMemoryController := MemoryPressure.example_controller.
Definition exampleEnv : env := mkEnv second (inr [MemoryPressure.example_usage]) (inr (MemoryPressure.mkFD 100 1024)).
Definition exampleRuntime : agentTunnelCapacityRuntime := newAgentTunnelCapacityRuntime 64 true (Some exampleController) exampleController.
Definition exampleOps : list op := [OpReserveControl 1048576 4 exampleEnv; OpAcquire exampleEnv; OpReserve 65536 StreamGrowth exampleEnv].

Lemma agent_admission_backed_witness :
  ∃ id s r', tryAcquire (run exampleRuntime exampleOps) exampleEnv = (Some id, s, r') ∧
    actualInUseLocked r' = 2 ∧ ∃ res, s.(Resource) = Some res ∧ backed res r'.
Proof.
  destruct (tryAcquire (run exampleRuntime exampleOps) exampleEnv) as [[o s] r'] eqn:E.
  assert (Ho : o = Some 3) by (change o with ((o, s, r').1.1); rewrite <- E; vm_compute; reflexivity).
  assert (Hu : actualInUseLocked r' = 2) by (change r' with ((o, s, r').2); rewrite <- E; vm_compute; reflexivity).
  destruct (run exampleRuntime exampleOps).(controller) as [c|] eqn:Ec.
  - subst o. exists 3, s, r'. split; [done|]. split; [exact Hu|].
    exact (proj1 (proj1 (agent_admission_backed 64 true (Some exampleController) exampleController exampleOps exampleEnv c Ec) 3 s r' E)).
  - exfalso. vm_compute in Ec. discriminate Ec.
Defined.

Lemma agent_reservation_roundtrip_witness :
  (callRelease (tryReserveOwnedReceiveResource (run exampleRuntime exampleOps) 4096 LegacyStreamSupplement exampleEnv).2 3 exampleEnv).(counters) =
  (run exampleRuntime exampleOps).(counters).
Proof.
  assert (H : tryReserveOwnedReceiveResource (run exampleRuntime exampleOps) 4096 LegacyStreamSupplement exampleEnv =
    (Some 3, (tryReserveOwnedReceiveResource (run exampleRuntime exampleOps) 4096 LegacyStreamSupplement exampleEnv).2))
    by (vm_compute; reflexivity).
  exact (proj1 (agent_reservation_roundtrip 64 true (Some exampleController) exampleController exampleOps 4096 LegacyStreamSupplement
    exampleEnv exampleEnv exampleEnv 3 _ H)).
Defined.
End AgentCapacity.
