(* ===== verification/AgentScavenge.v ===== *)
(** The memory scavenger of the agent (internal/agent/adaptive_capacity.go): the worker
    [requestMemoryScavenge] starts, the two atomic flags it shares with the releases, and
    the releases that ask for a pass.

    Every access to a flag is one step; the steps of all goroutines interleave freely.
    What a release decides (whether work has drained, whether there is pressure) is left
    open, so the steps cover every case. *)

From S2P Require Import Prelude.

Module AgentScavenge.

(** Where a worker is: in [freeOSMemory], before the swap that ends a pass, before
    [Store(false)], before the swap after it, before the compare-and-swap. *)
Inductive workerPC := WFree | WSwap | WStore | WCheck | WCas.

(** Where a release is: it has swapped the flag and holds the old value, it is about to
    request a pass, or it is about to store the flag. *)
Inductive releasePC := RDecide (took : bool) | RRequest | RStore.

Record state := mkState {
  scavengeRunning : bool;
  scavengeNeeded : bool;
  workers : list workerPC;
  releases : list releasePC }.

Definition start : state := mkState false false [] [].

(** Requests and workers. *)
Inductive passStep : state → state → Prop :=
  | Request running needed ws rs : passStep (mkState running needed ws rs) (mkState running needed ws (RRequest :: rs))
  | RequestStarts needed ws l k :
      passStep (mkState false needed ws (l ++ RRequest :: k)) (mkState true needed (WFree :: ws) (l ++ k))
  | RequestRefused needed ws l k :
      passStep (mkState true needed ws (l ++ RRequest :: k)) (mkState true needed ws (l ++ RStore :: k))
  | StoreNeeded running needed ws l k :
      passStep (mkState running needed ws (l ++ RStore :: k)) (mkState running true ws (l ++ k))
  | Freed running needed l k rs : passStep (mkState running needed (l ++ WFree :: k) rs) (mkState running needed (l ++ WSwap :: k) rs)
  | SwapAgain running l k rs : passStep (mkState running true (l ++ WSwap :: k) rs) (mkState running false (l ++ WFree :: k) rs)
  | SwapDone running l k rs : passStep (mkState running false (l ++ WSwap :: k) rs) (mkState running false (l ++ WStore :: k) rs)
  | StoreIdle running needed l k rs : passStep (mkState running needed (l ++ WStore :: k) rs) (mkState false needed (l ++ WCheck :: k) rs)
  | CheckAgain running l k rs : passStep (mkState running true (l ++ WCheck :: k) rs) (mkState running false (l ++ WCas :: k) rs)
  | CheckDone running l k rs : passStep (mkState running false (l ++ WCheck :: k) rs) (mkState running false (l ++ k) rs)
  | CasWins needed l k rs : passStep (mkState false needed (l ++ WCas :: k) rs) (mkState true needed (l ++ WFree :: k) rs)
  | CasLoses needed l k rs : passStep (mkState true needed (l ++ WCas :: k) rs) (mkState true needed (l ++ k) rs).

(** All steps: a rejection sets the flag; a release swaps it and then requests a pass,
    puts it back, or is done. *)
Inductive step : state → state → Prop :=
  | Pass s s' : passStep s s' → step s s'
  | Rejected running needed ws rs : step (mkState running needed ws rs) (mkState running true ws rs)
  | ReleaseSwap running needed ws rs : step (mkState running needed ws rs) (mkState running false ws (RDecide needed :: rs))
  | ReleaseRequests running needed ws l k took :
      step (mkState running needed ws (l ++ RDecide took :: k)) (mkState running needed ws (l ++ RRequest :: k))
  | ReleaseKeeps running needed ws l k :
      step (mkState running needed ws (l ++ RDecide true :: k)) (mkState running needed ws (l ++ RStore :: k))
  | ReleaseDone running needed ws l k :
      step (mkState running needed ws (l ++ RDecide false :: k)) (mkState running needed ws (l ++ k)).

(** ** One worker at a time *)

Definition owns (w : workerPC) : bool := match w with WFree | WSwap | WStore => true | _ => false end.
Definition owners (s : state) : nat := length (List.filter owns s.(workers)).
Definition exclusive (s : state) : Prop := owners s = if s.(scavengeRunning) then 1%nat else 0%nat.

Lemma filter_at w l k : List.filter owns (l ++ w :: k) =
  List.filter owns l ++ (if owns w then [w] else []) ++ List.filter owns k.
Proof. rewrite List.filter_app. simpl. by destruct (owns w). Qed.

(** The number of owners around one worker. *)
Lemma owners_at running needed w l k rs : owners (mkState running needed (l ++ w :: k) rs) =
  ((if owns w then 1 else 0) + owners (mkState running needed (l ++ k) rs))%nat.
Proof. unfold owners. simpl. rewrite filter_at, List.filter_app, !length_app. destruct (owns w); simpl; lia. Qed.

Lemma passStep_exclusive s s' : passStep s s' → exclusive s → exclusive s'.
Proof.
  unfold exclusive. destruct 1; rewrite ?owners_at; unfold owners; simpl; try destruct running; lia.
Qed.

Lemma step_exclusive s s' : step s s' → exclusive s → exclusive s'.
Proof. destruct 1 as [s s' Hp| | | | |]; [by apply passStep_exclusive| | | | |]; intros H; exact H. Qed.

(** ** The properties *)

(** In every interleaving at most one worker is inside a pass, and the running flag
    says exactly whether one is: freeing memory never runs twice at the same time, and a
    request is refused only while a worker holds the flag. *)
Theorem scavenge_single_worker s : rtc step start s →
  (owners s ≤ 1)%nat ∧ (s.(scavengeRunning) = true ↔ owners s = 1%nat).
Proof.
  intros Hr. assert (H : exclusive s) by (by apply (rtc_invariant step exclusive step_exclusive _ _ Hr)).
  unfold exclusive in H. destruct (scavengeRunning s); rewrite H; split; try lia; done.
Qed.

Lemma scavenge_single_worker_witness : (owners (mkState true false [WFree] []) ≤ 1)%nat.
Proof.
  assert (H : rtc step start (mkState true false [WFree] [])).
  { apply (rtc_l _ _ (mkState false false [] [RRequest])); [apply Pass, Request|].
    apply rtc_once. apply Pass. apply (RequestStarts false [] [] []). }
  exact (proj1 (scavenge_single_worker _ H)).
Defined.

(** A request can be left without a pass: it finds the flag held, the worker stores
    false and finds nothing needed, and only then the request stores its signal.  The flag
    then stays set with no worker and no release left to act on it. *)
Theorem scavenge_signal_race : rtc passStep start (mkState false true [] []).
Proof.
  apply (rtc_l _ _ (mkState false false [] [RRequest])); [apply Request|].
  apply (rtc_l _ _ (mkState true false [WFree] [])); [apply (RequestStarts false [] [] [])|].
  apply (rtc_l _ _ (mkState true false [WFree] [RRequest])); [apply Request|].
  apply (rtc_l _ _ (mkState true false [WSwap] [RRequest])); [apply (Freed true false [] [])|].
  apply (rtc_l _ _ (mkState true false [WStore] [RRequest])); [apply (SwapDone true [] [])|].
  apply (rtc_l _ _ (mkState true false [WStore] [RStore])); [apply (RequestRefused false [WStore] [] [])|].
  apply (rtc_l _ _ (mkState false false [WCheck] [RStore])); [apply (StoreIdle true false [] [])|].
  apply (rtc_l _ _ (mkState false false [] [RStore])); [apply (CheckDone false [] [])|].
  apply rtc_once. apply (StoreNeeded false false [] [] []).
Qed.
End AgentScavenge.
