(* ===== verification/RetryPolicy.v ===== *)
(** The retry policy of public requests (internal/server/public_retry.go and the
    classification of failures in public_retry_transport.go): which rule applies to a
    request, which failures and statuses it retries, and how a rule is validated, stored
    and loaded.

    The JSON columns of a stored rule appear as the values they decode to, [None] where
    json.Unmarshal fails.  The evaluated policy expression is a function, as in
    WafCookies.v; the lookups of routes and targets in the database are arguments. *)

From S2P Require Import Prelude.
From S2P Require Import GoStrings.
From S2P Require Import NetIP.
From S2P Require Import ClientIdentity.
From S2P Require Import WafCookies.
From S2P Require Import RateLimiter.
From S2P Require Import TargetHealth.
From S2P Require Import Routing.
From S2P Require Import LoadBalancer.
From S2P Require Import TargetSelection.
From Stdlib Require Import Ascii.

Module RetryPolicy.
Import TargetSelection.

(** ** Data *)

Definition publicRetryFailureModeConnectionFailures := "connection_failures".
Definition publicRetryFailureModePreResponseFailures := "pre_response_failures".
Definition publicRetryBodyModeNever := "never".
Definition publicRetryBodyModeBuffered := "buffered".
Definition publicRetryResponseBodyModeStream := "stream".
Definition publicRetryResponseBodyModeBuffered := "buffered".
Definition publicRetryOutcomeRecovered := "recovered".
Definition publicRetryOutcomeExhausted := "exhausted".
Definition publicRetryOutcomeSkipped := "skipped".
Definition defaultPublicRetryMaxRetries : Z := 1.
Definition maxPublicRetryMaxRetries : Z := 3.
Definition maxPublicRetryMethods : nat := 32.
Definition maxPublicRetryFilters : nat := 64.
Definition maxPublicRetryStatusCodes : nat := 64.
Definition maxPublicRetryReplayBodyBytes : Z := 4194304.
Definition maxPublicRetryBufferedResponseBodyBytes : Z := 67108864.
Definition defaultPublicRetryResponseWaitMillis : Z := 30000.
Definition minPublicRetryResponseWaitMillis : Z := 1000.
Definition maxPublicRetryResponseWaitMillis : Z := 300000.
Definition defaultPublicRetryReplayBudgetBytes : Z := 67108864.
Definition MethodConnect := "CONNECT".
Definition MethodTrace := "TRACE".
Definition MethodHead := "HEAD".
Definition defaultPublicRetryMethods : list string := ["GET"; "HEAD"].

Record publicRetryRuleConfig := mkRetryRule {
  ID : Z;
  Name : string;
  RetryPriority : Z;
  Enabled : bool;
  Methods : list string;
  methodSet : gset string;
  AllMethods : bool;
  MaxRetries : Z;
  FailureMode : string;
  BodyMode : string;
  MaxReplayBodyBytes : Z;
  ResponseBodyMode : string;
  MaxBufferedResponseBodyBytes : Z;
  MaxBufferedResponseWait : Z;
  RetryStatusCodes : list Z;
  retryStatusCodeSet : gset Z;
  RouteIDs : list Z;
  routeIDSet : gset Z;
  TargetIDs : list Z;
  targetIDSet : gset Z;
  Match : WafCookies.policyMatch;
  CreatedAt : Z;
  UpdatedAt : Z }.

(** What validation hands to the database. *)
Record publicRetryRuleMutationInput := mkInput {
  InputName : string;
  InputPriority : Z;
  InputEnabled : Z;
  MethodsJSON : list string;
  InputMaxRetries : Z;
  InputFailureMode : string;
  InputBodyMode : string;
  InputMaxReplayBodyBytes : Z;
  InputResponseBodyMode : string;
  InputMaxBufferedResponseBodyBytes : Z;
  InputMaxBufferedResponseWaitMillis : Z;
  RetryStatusJSON : list Z;
  RouteIDsJSON : list Z;
  TargetIDsJSON : list Z;
  MatchJSON : WafCookies.policyMatch }.

(** A row of the table, its JSON columns decoded. *)
Record retryRuleRow := mkRow {
  RowID : Z;
  RowName : string;
  RowPriority : Z;
  RowEnabled : Z;
  MethodsJson : option (list string);
  RowMaxRetries : Z;
  RowFailureMode : string;
  RowBodyMode : string;
  RowMaxReplayBodyBytes : Z;
  RowResponseBodyMode : string;
  RowMaxBufferedResponseBodyBytes : Z;
  RowMaxBufferedResponseWaitMillis : Z;
  RetryStatusCodesJson : option (list Z);
  RouteIdsJson : option (list Z);
  TargetIdsJson : option (list Z);
  MatchJson : option WafCookies.policyMatch;
  RowCreatedAt : Z;
  RowUpdatedAt : Z }.

(** ** Which rule applies *)

(** [None] is an error of the expression. *)
Definition evaluateMatch (rule : publicRetryRuleConfig) (listener : WafCookies.publicListenerConfig)
    (r : ClientIdentity.httpRequest) (resolution : publicRouteResolution) : option bool :=
  match resolution.(ResolvedTarget) with
  | None => Some false
  | Some target =>
      if negb rule.(Enabled)
         || negb (String.eqb target.(Routing.Transport) TargetHealth.publicRouteTargetTransportAgent) then Some false
      else if negb rule.(AllMethods)
              && negb (bool_decide (ToUpper r.(ClientIdentity.Method) ∈ rule.(methodSet))) then Some false
      else if bool_decide (rule.(routeIDSet) ≠ ∅)
              && negb (bool_decide (resolution.(ResolvedRoute).(Routing.RouteID) ∈ rule.(routeIDSet))) then Some false
      else if bool_decide (rule.(targetIDSet) ≠ ∅)
              && negb (bool_decide (target.(Routing.TargetID) ∈ rule.(targetIDSet))) then Some false
      else rule.(Match) listener r
  end.

Definition requestWantsProtocolUpgrade (r : ClientIdentity.httpRequest) : bool :=
  negb (String.eqb (TrimSpace (RateLimiter.headerGet r.(ClientIdentity.Header) "Upgrade")) "")
  || existsb (λ token, EqualFold (TrimSpace token) "upgrade")
       (Split "," (RateLimiter.headerGet r.(ClientIdentity.Header) "Connection")).

Definition publicRetryRequestAlwaysExcluded (r : ClientIdentity.httpRequest) : bool :=
  EqualFold r.(ClientIdentity.Method) MethodConnect || EqualFold r.(ClientIdentity.Method) MethodTrace
  || requestWantsProtocolUpgrade r.

(** The first rule that matches; an error ends the search without a rule. *)
Fixpoint scanRetryRules (rules : list publicRetryRuleConfig) (r : ClientIdentity.httpRequest)
    (resolution : publicRouteResolution) : option publicRetryRuleConfig :=
  match rules with
  | [] => None
  | rule :: rules =>
      match evaluateMatch rule resolution.(ResolvedListener) r resolution with
      | None => None
      | Some true => Some rule
      | Some false => scanRetryRules rules r resolution
      end
  end.

Definition selectPublicRetryRule (retryRules : option (list publicRetryRuleConfig)) (r : ClientIdentity.httpRequest)
    (resolution : publicRouteResolution) : option publicRetryRuleConfig :=
  match retryRules with
  | None => None
  | Some rules => if publicRetryRequestAlwaysExcluded r then None else scanRetryRules rules r resolution
  end.

Definition retryRuleLe (x y : publicRetryRuleConfig) : bool :=
  if x.(RetryPriority) =? y.(RetryPriority) then x.(ID) <=? y.(ID) else x.(RetryPriority) <=? y.(RetryPriority).
Definition sortPublicRetryRules : list publicRetryRuleConfig → list publicRetryRuleConfig :=
  ClientIdentity.sortBy retryRuleLe.

Definition retriesStatus (rule : publicRetryRuleConfig) (status : Z) : bool :=
  if (status <? 400) || bool_decide (rule.(retryStatusCodeSet) = ∅) then false
  else bool_decide (status ∈ rule.(retryStatusCodeSet)).

(** ** Validation *)

Inductive retryValidationError :=
  | ErrTooManyMethods
  | ErrMethodInvalid (raw : string)
  | ErrMethodUnsupported (method : string)
  | ErrMethodStar
  | ErrTooManyStatusCodes
  | ErrStatusCode (status : Z)
  | ErrName
  | ErrMaxRetries
  | ErrDuplicateRisk
  | ErrReplayBody
  | ErrBufferedResponse
  | ErrResponseWait
  | ErrTooManyFilters
  | ErrRouteGone (id : Z)
  | ErrTargetGone (id : Z)
  | ErrTargetKind (id : Z)
  | ErrDatabase
  | ErrMatch.

(** [strings.ToUpper] as far as the result can be a token: the two characters outside
    ASCII with an ASCII upper case are U+0131 and U+017F. *)
Fixpoint upperMethod (s : string) : string :=
  match s with
  | EmptyString => EmptyString
  | String c s' =>
      match s' with
      | String d s'' =>
          if (Ascii.eqb c (ascii_of_nat 196) && Ascii.eqb d (ascii_of_nat 177))%bool then String "I" (upperMethod s'')
          else if (Ascii.eqb c (ascii_of_nat 197) && Ascii.eqb d (ascii_of_nat 191))%bool then String "S" (upperMethod s'')
          else String (toUpper c) (upperMethod s')
      | EmptyString => String (toUpper c) (upperMethod s')
      end
  end.

Definition normalizeMethod (raw : string) : string := upperMethod (TrimSpace raw).

(** The loop of the normalisation: the methods not seen before, in order. *)
Fixpoint methodsLoop (seen : gset string) (values : list string) : retryValidationError + list string :=
  match values with
  | [] => inr []
  | raw :: values =>
      let method := normalizeMethod raw in
      if String.eqb method "" || negb (RateLimiter.validHTTPToken method) then inl (ErrMethodInvalid raw)
      else if String.eqb method MethodConnect || String.eqb method MethodTrace then inl (ErrMethodUnsupported method)
      else if bool_decide (method ∈ seen) then methodsLoop seen values
      else match methodsLoop ({[method]} ∪ seen) values with
           | inl e => inl e
           | inr methods => inr (method :: methods)
           end
  end.

Definition normalizePublicRetryMethods (values : list string) : retryValidationError + list string :=
  if (length values =? 0)%nat then inr defaultPublicRetryMethods
  else if (maxPublicRetryMethods <? length values)%nat then inl ErrTooManyMethods
  else match methodsLoop ∅ values with
       | inl e => inl e
       | inr methods =>
           if bool_decide ("*" ∈ methods) && negb (length methods =? 1)%nat then inl ErrMethodStar
           else inr (ClientIdentity.sortStrings methods)
       end.

Fixpoint statusLoop (seen : gset Z) (values : list Z) : retryValidationError + list Z :=
  match values with
  | [] => inr []
  | status :: values =>
      if (status <? 400) || (599 <? status) then inl (ErrStatusCode status)
      else if bool_decide (status ∈ seen) then statusLoop seen values
      else match statusLoop ({[status]} ∪ seen) values with
           | inl e => inl e
           | inr statuses => inr (status :: statuses)
           end
  end.

Definition normalizePublicRetryStatusCodes (values : list Z) : retryValidationError + list Z :=
  if (maxPublicRetryStatusCodes <? length values)%nat then inl ErrTooManyStatusCodes
  else match statusLoop ∅ values with
       | inl e => inl e
       | inr statuses => inr (ClientIdentity.sortBy Z.leb statuses)
       end.

(** The positive values, each once, sorted (public_cache.go). *)
Definition normalizePublicCacheInt64List (values : list Z) : list Z :=
  ClientIdentity.sortBy Z.leb (ClientIdentity.dedupSeen [] (List.filter (λ v, negb (v <=? 0)) values)).

Definition normalizePublicRetryFailureMode (value : string) : string :=
  if String.eqb value publicRetryFailureModePreResponseFailures then publicRetryFailureModePreResponseFailures
  else publicRetryFailureModeConnectionFailures.
Definition normalizePublicRetryBodyMode (value : string) : string :=
  if String.eqb value publicRetryBodyModeBuffered then publicRetryBodyModeBuffered else publicRetryBodyModeNever.
Definition normalizePublicRetryResponseBodyMode (value : string) : string :=
  if String.eqb value publicRetryResponseBodyModeBuffered then publicRetryResponseBodyModeBuffered
  else publicRetryResponseBodyModeStream.

Definition isBuffered (responseBodyMode : string) : bool :=
  String.eqb (normalizePublicRetryResponseBodyMode responseBodyMode) publicRetryResponseBodyModeBuffered.

(** A method other than GET, HEAD and OPTIONS. *)
Definition riskyMethod (method : string) : bool :=
  negb (String.eqb method "GET" || String.eqb method "HEAD" || String.eqb method "OPTIONS").

Definition publicRetryRequiresDuplicateRiskAcknowledgement (methods : list string) (failureMode : string)
    (retryStatusCodes : list Z) (responseBodyMode : string) : bool :=
  if String.eqb failureMode publicRetryFailureModePreResponseFailures || (0 <? length retryStatusCodes)%nat
     || isBuffered responseBodyMode then true
  else existsb riskyMethod methods.

(** The modes of the API; a number without a name is [Unspecified] to the code. *)
Inductive protoFailureMode := FailureUnspecified | ConnectionFailures | PreResponseFailures.
Inductive protoBodyMode := BodyUnspecified | BodyNever | BodyBuffered.
Inductive protoResponseBodyMode := ResponseUnspecified | ResponseStream | ResponseBuffered.

Definition publicRetryFailureModeFromProto (m : protoFailureMode) : string :=
  match m with PreResponseFailures => publicRetryFailureModePreResponseFailures
  | _ => publicRetryFailureModeConnectionFailures end.
Definition protoPublicRetryFailureMode (value : string) : protoFailureMode :=
  if String.eqb (normalizePublicRetryFailureMode value) publicRetryFailureModePreResponseFailures
  then PreResponseFailures else ConnectionFailures.
Definition publicRetryBodyModeFromProto (m : protoBodyMode) : string :=
  match m with BodyBuffered => publicRetryBodyModeBuffered | _ => publicRetryBodyModeNever end.
Definition protoPublicRetryBodyMode (value : string) : protoBodyMode :=
  if String.eqb (normalizePublicRetryBodyMode value) publicRetryBodyModeBuffered then BodyBuffered else BodyNever.
Definition publicRetryResponseBodyModeFromProto (m : protoResponseBodyMode) : string :=
  match m with ResponseBuffered => publicRetryResponseBodyModeBuffered | _ => publicRetryResponseBodyModeStream end.
Definition protoPublicRetryResponseBodyMode (value : string) : protoResponseBodyMode :=
  if String.eqb (normalizePublicRetryResponseBodyMode value) publicRetryResponseBodyModeBuffered
  then ResponseBuffered else ResponseStream.

(** [^[a-zA-Z0-9][a-zA-Z0-9_.-]{0,63}$] *)
Definition alnumChar (c : ascii) : bool :=
  let n := nat_of_ascii c in
  ((48 <=? n)%nat && (n <=? 57)%nat) || ((65 <=? n)%nat && (n <=? 90)%nat) || ((97 <=? n)%nat && (n <=? 122)%nat).
Definition nameChar (c : ascii) : bool :=
  alnumChar c || Ascii.eqb c "_" || Ascii.eqb c "." || Ascii.eqb c "-".
Definition publicNamePattern (name : string) : bool :=
  match name with
  | EmptyString => false
  | String c rest => alnumChar c && ClientIdentity.allBytes nameChar rest && (String.length rest <=? 63)%nat
  end.

Definition boolInt (b : bool) : Z := if b then 1 else 0.

Definition normalizePublicRouteTargetType (targetType : string) : string :=
  if String.eqb (TrimSpace (ToLower targetType)) TargetHealth.publicRouteTargetTypeStatic
  then TargetHealth.publicRouteTargetTypeStatic else TargetHealth.publicRouteTargetTypeProxy.
Definition normalizePublicRouteTargetTransport (transport : string) : string :=
  if String.eqb (TrimSpace (ToLower transport)) TargetHealth.publicRouteTargetTransportAgent
  then TargetHealth.publicRouteTargetTransportAgent else TargetHealth.publicRouteTargetTransportDirect.

(** The answer of the database to a lookup by identifier. *)
Inductive dbResult (A : Type) := Found (row : A) | NoRows | DBError.
Arguments Found {A}.
Arguments NoRows {A}.
Arguments DBError {A}.

Fixpoint checkRoutes (GetPublicRoute : Z → dbResult unit) (ids : list Z) : option retryValidationError :=
  match ids with
  | [] => None
  | id :: ids =>
      match GetPublicRoute id with
      | Found _ => checkRoutes GetPublicRoute ids
      | NoRows => Some (ErrRouteGone id)
      | DBError => Some ErrDatabase
      end
  end.

(** A target row: its type and its transport. *)
Fixpoint checkTargets (GetPublicRouteTarget : Z → dbResult (string * string)) (ids : list Z)
    : option retryValidationError :=
  match ids with
  | [] => None
  | id :: ids =>
      match GetPublicRouteTarget id with
      | Found (targetType, transport) =>
          if negb (String.eqb (normalizePublicRouteTargetType targetType) TargetHealth.publicRouteTargetTypeProxy)
             || negb (String.eqb (normalizePublicRouteTargetTransport transport)
                        TargetHealth.publicRouteTargetTransportAgent) then Some (ErrTargetKind id)
          else checkTargets GetPublicRouteTarget ids
      | NoRows => Some (ErrTargetGone id)
      | DBError => Some ErrDatabase
      end
  end.

(** A request to create or update a rule. *)
Record retryRuleRequest := mkRuleRequest {
  ReqName : string;
  ReqPriority : Z;
  ReqEnabled : bool;
  ReqMethods : list string;
  ReqMaxRetries : Z;
  ReqFailureMode : protoFailureMode;
  ReqBodyMode : protoBodyMode;
  ReqMaxReplayBodyBytes : Z;
  ReqResponseBodyMode : protoResponseBodyMode;
  ReqMaxBufferedResponseBodyBytes : Z;
  ReqMaxBufferedResponseWaitMillis : Z;
  ReqRetryStatusCodes : list Z;
  ReqRouteIDs : list Z;
  ReqTargetIDs : list Z;
  ReqDuplicateRiskAcknowledged : bool }.

(** The replay size of a body mode. *)
Definition validateReplayBytes (bodyMode : string) (bytes : Z) : retryValidationError + Z :=
  if String.eqb bodyMode publicRetryBodyModeNever then inr 0
  else if (bytes <? 1) || (maxPublicRetryReplayBodyBytes <? bytes) then inl ErrReplayBody
  else inr bytes.

(** The buffer size and the wait of a response body mode. *)
Definition validateResponseBuffer (responseBodyMode : string) (bytes waitMillis : Z) : retryValidationError + Z * Z :=
  if String.eqb responseBodyMode publicRetryResponseBodyModeStream then inr (0, 0)
  else if (bytes <? 1) || (maxPublicRetryBufferedResponseBodyBytes <? bytes) then inl ErrBufferedResponse
  else
    let waitMillis := if waitMillis =? 0 then defaultPublicRetryResponseWaitMillis else waitMillis in
    if (waitMillis <? minPublicRetryResponseWaitMillis) || (maxPublicRetryResponseWaitMillis <? waitMillis)
    then inl ErrResponseWait else inr (bytes, waitMillis).

Definition validatePublicRetryRuleInput (GetPublicRoute : Z → dbResult unit)
    (GetPublicRouteTarget : Z → dbResult (string * string)) (req : retryRuleRequest)
    (validatePublicPolicyMatch : option WafCookies.policyMatch)
    : retryValidationError + publicRetryRuleMutationInput :=
  let name := TrimSpace req.(ReqName) in
  if negb (publicNamePattern name) then inl ErrName
  else match normalizePublicRetryMethods req.(ReqMethods) with
  | inl e => inl e
  | inr methods =>
  if (req.(ReqMaxRetries) <? 1) || (maxPublicRetryMaxRetries <? req.(ReqMaxRetries)) then inl ErrMaxRetries
  else
  let failureMode := publicRetryFailureModeFromProto req.(ReqFailureMode) in
  match normalizePublicRetryStatusCodes req.(ReqRetryStatusCodes) with
  | inl e => inl e
  | inr statuses =>
  let responseBodyMode := publicRetryResponseBodyModeFromProto req.(ReqResponseBodyMode) in
  if publicRetryRequiresDuplicateRiskAcknowledgement methods failureMode statuses responseBodyMode
     && negb req.(ReqDuplicateRiskAcknowledged) then inl ErrDuplicateRisk
  else
  let bodyMode := publicRetryBodyModeFromProto req.(ReqBodyMode) in
  match validateReplayBytes bodyMode req.(ReqMaxReplayBodyBytes) with
  | inl e => inl e
  | inr replayBytes =>
  match validateResponseBuffer responseBodyMode req.(ReqMaxBufferedResponseBodyBytes)
          req.(ReqMaxBufferedResponseWaitMillis) with
  | inl e => inl e
  | inr (responseBytes, waitMillis) =>
  let routeIDs := normalizePublicCacheInt64List req.(ReqRouteIDs) in
  let targetIDs := normalizePublicCacheInt64List req.(ReqTargetIDs) in
  if (maxPublicRetryFilters <? length routeIDs)%nat || (maxPublicRetryFilters <? length targetIDs)%nat
  then inl ErrTooManyFilters
  else match checkRoutes GetPublicRoute routeIDs with
  | Some e => inl e
  | None =>
  match checkTargets GetPublicRouteTarget targetIDs with
  | Some e => inl e
  | None =>
  match validatePublicPolicyMatch with
  | None => inl ErrMatch
  | Some m =>
      inr (mkInput name req.(ReqPriority) (boolInt req.(ReqEnabled)) methods req.(ReqMaxRetries) failureMode bodyMode
             replayBytes responseBodyMode responseBytes waitMillis statuses routeIDs targetIDs m)
  end end end end end end end.

(** ** Loading a stored rule *)

Definition clampRetries (maxRetries : Z) : Z :=
  let maxRetries := if maxRetries <? 1 then defaultPublicRetryMaxRetries else maxRetries in
  if maxPublicRetryMaxRetries <? maxRetries then maxPublicRetryMaxRetries else maxRetries.

Definition clampWait (waitMillis : Z) : Z :=
  let waitMillis := if waitMillis <? minPublicRetryResponseWaitMillis then defaultPublicRetryResponseWaitMillis
                    else waitMillis in
  if maxPublicRetryResponseWaitMillis <? waitMillis then maxPublicRetryResponseWaitMillis else waitMillis.

(** [None] is an error: the rule is left out of the configuration. *)
Definition publicRetryRuleRowToConfig (row : retryRuleRow) : option publicRetryRuleConfig :=
  match row.(MethodsJson) with
  | None => None
  | Some methods =>
  match normalizePublicRetryMethods methods with
  | inl _ => None
  | inr methods =>
  match row.(RetryStatusCodesJson) with
  | None => None
  | Some statuses =>
  match normalizePublicRetryStatusCodes statuses with
  | inl _ => None
  | inr statuses =>
  match row.(RouteIdsJson), row.(TargetIdsJson), row.(MatchJson) with
  | Some routeIDs, Some targetIDs, Some m =>
      let routeIDs := normalizePublicCacheInt64List routeIDs in
      let targetIDs := normalizePublicCacheInt64List targetIDs in
      let bodyMode := normalizePublicRetryBodyMode row.(RowBodyMode) in
      let replayBytes := if String.eqb bodyMode publicRetryBodyModeNever then 0 else row.(RowMaxReplayBodyBytes) in
      let responseBodyMode := normalizePublicRetryResponseBodyMode row.(RowResponseBodyMode) in
      let stream := String.eqb responseBodyMode publicRetryResponseBodyModeStream in
      let responseBytes := if stream then 0 else row.(RowMaxBufferedResponseBodyBytes) in
      let waitMillis := if stream then 0 else clampWait row.(RowMaxBufferedResponseWaitMillis) in
      Some (mkRetryRule row.(RowID) row.(RowName) row.(RowPriority) (negb (row.(RowEnabled) =? 0))
              methods (list_to_set methods) (bool_decide (methods = ["*"]))
              (clampRetries row.(RowMaxRetries)) (normalizePublicRetryFailureMode row.(RowFailureMode))
              bodyMode replayBytes responseBodyMode responseBytes (i64 (waitMillis * millisecond))
              statuses (list_to_set statuses) routeIDs (list_to_set routeIDs) targetIDs (list_to_set targetIDs)
              m row.(RowCreatedAt) row.(RowUpdatedAt))
  | _, _, _ => None
  end end end end end.

(** The row the database keeps for a validated rule. *)
Definition storedRow (id : Z) (input : publicRetryRuleMutationInput) (created updated : Z) : retryRuleRow :=
  mkRow id input.(InputName) input.(InputPriority) input.(InputEnabled) (Some input.(MethodsJSON))
    input.(InputMaxRetries) input.(InputFailureMode) input.(InputBodyMode) input.(InputMaxReplayBodyBytes)
    input.(InputResponseBodyMode) input.(InputMaxBufferedResponseBodyBytes)
    input.(InputMaxBufferedResponseWaitMillis) (Some input.(RetryStatusJSON)) (Some input.(RouteIDsJSON))
    (Some input.(TargetIDsJSON)) (Some input.(MatchJSON)) created updated.

(** ** Failures *)

(** Why the capacity manager refused a stream (the sentinel the error wraps). *)
Inductive capacityReason :=
  | ClassDisabled
  | TotalBudget
  | PublicBudget
  | PooledBudget
  | SessionBudget
  | ResourcePressure
  | OtherReason.

#[export] Instance capacityReason_eq_dec : EqDecision capacityReason.
Proof. solve_decision. Defined.

(** An error as the code inspects it: what errors.Is and errors.As find in its chain.
    [sameEOF] is identity with io.EOF, [isEOF] a chain that holds it. *)
Record retryError := mkRetryError {
  errText : string;
  agentErr : agentError;
  isDisconnected : bool;
  isUpdateCordoned : bool;
  isTimeoutError : bool;
  isUnexpectedEOF : bool;
  isEOF : bool;
  sameEOF : bool;
  isTLSFailure : bool;
  isMaxBytes : bool;
  isBodyIdleTimeout : bool;
  capacity : option capacityReason }.

(** An error that none of the inspections recognises, and the sentinels. *)
Definition plainError : retryError :=
  mkRetryError "error" (mkAgentError None false) false false false false false false false false false None.
Definition EOF : retryError :=
  mkRetryError "EOF" (mkAgentError None false) false false false false true true false false false None.
Definition ErrUnexpectedEOF : retryError :=
  mkRetryError "unexpected EOF" (mkAgentError None false) false false false true false false false false false None.
Definition errAgentDisconnected : retryError :=
  mkRetryError "agent disconnected" (mkAgentError None false) true false false false false false false false false None.
Definition errAgentUpdateCordoned : retryError :=
  mkRetryError "agent is cordoned for managed update" (mkAgentError None false) false true false false false false false false false None.
Definition contextCanceled : retryError :=
  mkRetryError "context canceled" (mkAgentError None true) false false false false false false false false false None.

(** The state of the context of a request. *)
Inductive ctxState := CtxLive | CtxCanceled | CtxDeadline.
Definition ctxCanceled (c : ctxState) : bool := match c with CtxCanceled => true | _ => false end.
Definition ctxLive (c : ctxState) : bool := match c with CtxLive => true | _ => false end.

(** [requestContextCanceled] of a request with this context. *)
Definition canceledRequest (c : ctxState) (err : retryError) : bool :=
  requestContextCanceled (Some (ctxCanceled c)) err.(agentErr).

Inductive bodyFailure := FailureNone | FailureTooLarge | FailureIdleTimeout.

Definition publicRequestBodyError (err : retryError) : option (Z * string) :=
  if err.(isMaxBytes) then Some (413, "request_body_too_large")
  else if err.(isBodyIdleTimeout) then Some (408, "request_body_idle_timeout")
  else None.

(** [failure] is the failure recorded while the body of the request was read. *)
Definition publicRequestBodyErrorForRequest (failure : bodyFailure) (err : retryError) : option (Z * string) :=
  match publicRequestBodyError err with
  | Some x => Some x
  | None => match failure with
            | FailureTooLarge => Some (413, "request_body_too_large")
            | FailureIdleTimeout => Some (408, "request_body_idle_timeout")
            | FailureNone => None
            end
  end.

Definition agentDialErrorHasKind (err : option retryError) (kind : string) : bool :=
  match err with
  | None => false
  | Some e => bool_decide (e.(agentErr).(dialKind) = Some kind)
  end.

Definition agentProxyFailureAttributedToAgent (err : retryError) : bool :=
  match err.(agentErr).(dialKind) with
  | None => true
  | Some kind => negb (agentDialErrorIsLocalCapacity kind)
  end.

Definition retryableAgentTransportError (err : retryError) : bool :=
  match err.(agentErr).(dialKind) with
  | Some kind =>
      String.eqb kind "dial_failed" || String.eqb kind "dial_timeout" || String.eqb kind "agent_capacity"
      || String.eqb kind "agent_resource_pressure"
  | None => negb err.(isTLSFailure)
  end.

Definition publicRetryAttemptErrorAllowed (ctx : ctxState) (failure : bodyFailure) (err : retryError)
    (rule : option publicRetryRuleConfig) (wroteRequest : bool) (bodyBytesRead : Z) (replayable : bool) : bool :=
  match rule with
  | None => false
  | Some rule =>
      if canceledRequest ctx err then false
      else if bool_decide (is_Some (publicRequestBodyErrorForRequest failure err)) then false
      else if negb (retryableAgentTransportError err) then false
      else if String.eqb rule.(FailureMode) publicRetryFailureModeConnectionFailures
           then negb wroteRequest && (bodyBytesRead =? 0)
      else replayable || (bodyBytesRead =? 0)
  end.

Definition publicRetrySkipReason (ctx : ctxState) (failure : bodyFailure) (err : retryError) (wroteRequest : bool)
    (bodyBytesRead : Z) (replayable : bool) : string :=
  if canceledRequest ctx err then "client_cancelled"
  else if bool_decide (is_Some (publicRequestBodyErrorForRequest failure err)) then "request_body_failed"
  else if negb (retryableAgentTransportError err) then "failure_not_retryable"
  else if wroteRequest then "request_already_written"
  else if (0 <? bodyBytesRead) && negb replayable then "request_body_not_replayable"
  else "policy_not_satisfied".

Definition agentProxyErrorKind (err : option retryError) : string :=
  match err with
  | None => ""
  | Some e =>
      if e.(isDisconnected) then "agent_disconnected"
      else if e.(isUpdateCordoned) then "agent_update_cordoned"
      else match e.(agentErr).(dialKind) with
      | Some kind =>
          if String.eqb kind "" then "agent_dial_failed"
          else if String.eqb kind "dial_timeout" then "agent_dial_timeout"
          else if String.eqb kind "agent_capacity" then "agent_capacity"
          else if String.eqb kind "agent_resource_pressure" then "agent_resource_pressure"
          else if String.eqb kind "server_capacity" then "agent_server_capacity"
          else if String.eqb kind "server_health_capacity" then "agent_server_health_capacity"
          else if String.eqb kind "server_pooled_capacity" then "agent_server_pooled_capacity"
          else "agent_" ++ kind
      | None => if e.(isTimeoutError) then "upstream_response_header_timeout" else "agent_proxy_failed"
      end
  end%string.

Definition agentProxyHTTPFailure (err : option retryError) : Z * string * string :=
  let kind := agentProxyErrorKind err in
  if String.eqb kind "agent_dial_timeout" || String.eqb kind "upstream_response_header_timeout"
  then (504, kind, "Gateway Timeout")
  else if String.eqb kind "agent_capacity" || String.eqb kind "agent_resource_pressure"
          || String.eqb kind "agent_server_capacity" || String.eqb kind "agent_server_health_capacity"
          || String.eqb kind "agent_server_pooled_capacity" || String.eqb kind "agent_update_cordoned"
  then (503, kind, "Service Unavailable")
  else (502, kind, "Bad Gateway").

Definition publicRetryResponseBodyErrorKind (err : option retryError) : string :=
  match err with
  | None => ""
  | Some e =>
      if e.(isDisconnected) then "agent_disconnected_during_response"
      else if e.(isUnexpectedEOF) then "upstream_response_body_truncated"
      else if e.(isTimeoutError) then "upstream_response_body_timeout"
      else "upstream_response_body_failed"
  end.

Definition agentStreamCapacityAllowsPooledHandoff (err : retryError) : bool :=
  match err.(capacity) with
  | Some (ClassDisabled | TotalBudget | PublicBudget | PooledBudget | SessionBudget | ResourcePressure) => true
  | _ => false
  end.
Definition agentStreamCapacityRequiresIdleReclaim (err : retryError) : bool :=
  match err.(capacity) with
  | Some (TotalBudget | PublicBudget | SessionBudget | ResourcePressure) => true
  | _ => false
  end.
Definition agentStreamCapacityAllowsCrossSessionReclaim (err : retryError) : bool :=
  negb (bool_decide (err.(capacity) = Some SessionBudget)).

(** ** Lemmas: normalisation *)

Definition upperFixed (s : string) : bool := ClientIdentity.allBytes (λ c, Ascii.eqb (toUpper c) c) s.

Lemma toUpper_idem c : toUpper (toUpper c) = toUpper c.
Proof. destruct c as [[] [] [] [] [] [] [] []]; reflexivity. Qed.

Lemma upperMethod_fixed s : upperFixed (upperMethod s) = true.
Proof.
  unfold upperFixed.
  enough (H : ∀ n s, (String.length s ≤ n)%nat → ClientIdentity.allBytes (λ c, Ascii.eqb (toUpper c) c) (upperMethod s) = true)
    by by apply (H (String.length s)).
  clear s. induction n as [|n IH]; intros [|c [|d s]] Hl; simpl in Hl |- *; try done; try lia.
  - by rewrite toUpper_idem, Ascii.eqb_refl.
  - case_if E1; [simpl; apply IH; lia|]. case_if E2; [simpl; apply IH; lia|].
    cbn [ClientIdentity.allBytes]. rewrite toUpper_idem, Ascii.eqb_refl. cbn [andb].
    apply (IH (String d s)). simpl. lia.
Qed.

Lemma tokenChar_ascii c : ClientIdentity.tokenChar c = true →
  Ascii.eqb c (ascii_of_nat 196) = false ∧ Ascii.eqb c (ascii_of_nat 197) = false ∧ printableChar c = true.
Proof. destruct c as [[] [] [] [] [] [] [] []]; by vm_compute. Qed.

(** A token in upper case is its own normal form. *)
Lemma normalizeMethod_id s : RateLimiter.validHTTPToken s = true → upperFixed s = true → normalizeMethod s = s.
Proof.
  unfold RateLimiter.validHTTPToken, upperFixed, normalizeMethod. intros [_ Ht]%andb_true_iff Hu.
  rewrite TrimSpace_printable.
  - induction s as [|c s IH]; [done|]. cbn [ClientIdentity.allBytes] in Ht, Hu.
    apply andb_true_iff in Ht as [Hc Ht]. apply andb_true_iff in Hu as [Hc' Hu]. apply Ascii.eqb_eq in Hc'.
    destruct (tokenChar_ascii c Hc) as (E1 & E2 & _). cbn [upperMethod].
    destruct s as [|d s]; [by rewrite Hc'|]. rewrite E1, E2. cbn [andb]. by rewrite Hc', IH.
  - clear Hu. induction s as [|c s IH]; [done|]. cbn [ClientIdentity.allBytes printable] in Ht |- *.
    apply andb_true_iff in Ht as [Hc Ht]. apply andb_true_iff. split; [by apply tokenChar_ascii|by apply IH].
Qed.

Lemma sortBy_id {A} (le : A → A → bool) l : Sorted.StronglySorted (λ x y, le x y = true) l → ClientIdentity.sortBy le l = l.
Proof.
  induction 1 as [|x l Hs IH Hall]; [done|]. simpl. rewrite IH. destruct l as [|y l]; [done|]. simpl.
  apply Forall_cons in Hall as [-> _]. done.
Qed.

Lemma sortBy_idem {A} (le : A → A → bool) l : (∀ x y, le x y = true ∨ le y x = true) →
  (∀ x y z, le x y = true → le y z = true → le x z = true) →
  ClientIdentity.sortBy le (ClientIdentity.sortBy le l) = ClientIdentity.sortBy le l.
Proof. intros H1 H2. by apply sortBy_id, ClientIdentity.sortBy_sorted. Qed.

(** A method the normalisation returns. *)
Definition goodMethod (m : string) : Prop :=
  normalizeMethod m = m ∧ RateLimiter.validHTTPToken m = true ∧ m ≠ MethodConnect ∧ m ≠ MethodTrace.

Lemma methodsLoop_spec values : ∀ seen methods, methodsLoop seen values = inr methods →
  Forall goodMethod methods ∧ NoDup methods ∧ (∀ m, m ∈ methods → m ∉ seen) ∧ (length methods ≤ length values)%nat ∧
  (∀ raw, raw ∈ values → normalizeMethod raw ∈ methods ∨ normalizeMethod raw ∈ seen).
Proof.
  induction values as [|raw values IH]; intros seen methods H; cbn [methodsLoop] in H.
  { injection H as <-. split_and!; [constructor|constructor|set_solver|done|set_solver]. }
  cbv zeta in H. destruct (String.eqb (normalizeMethod raw) "" || negb (RateLimiter.validHTTPToken (normalizeMethod raw))) eqn:E1; [done|].
  destruct (String.eqb (normalizeMethod raw) MethodConnect || String.eqb (normalizeMethod raw) MethodTrace) eqn:E2; [done|].
  apply orb_false_iff in E1 as [_ E1]. apply negb_false_iff in E1.
  apply orb_false_iff in E2 as [E2 E3]. apply String.eqb_neq in E2, E3.
  case_bool_decide as Hin.
  - destruct (IH _ _ H) as (H1 & H2 & H3 & H4 & H5). split_and!; [done|done|done|simpl; lia|].
    intros r [->|Hr]%elem_of_cons; [by right|by apply H5].
  - destruct (methodsLoop ({[normalizeMethod raw]} ∪ seen) values) as [e|ms] eqn:El; [done|]. injection H as <-.
    destruct (IH _ _ El) as (H1 & H2 & H3 & H4 & H5). split_and!.
    + constructor; [|done]. split_and!; [|done|done|done]. apply normalizeMethod_id; [done|].
      unfold normalizeMethod. apply upperMethod_fixed.
    + constructor; [|done]. intros Hm. specialize (H3 _ Hm). set_solver.
    + intros m [->|Hm]%elem_of_cons; [done|]. specialize (H3 _ Hm). set_solver.
    + simpl. lia.
    + intros r [->|Hr]%elem_of_cons; [left; by left|]. destruct (H5 r Hr) as [H6|H6]; [left; by right|].
      apply elem_of_union in H6 as [->%elem_of_singleton|H6]; [left; by left|by right].
Qed.

Lemma methodsLoop_good methods : ∀ seen, Forall goodMethod methods → NoDup methods → (∀ m, m ∈ methods → m ∉ seen) →
  methodsLoop seen methods = inr methods.
Proof.
  induction methods as [|m ms IH]; intros seen Hg Hnd Hs; [done|]. apply Forall_cons in Hg as [(H1 & H2 & H3 & H4) Hg].
  apply NoDup_cons in Hnd as [Hm Hnd]. cbn [methodsLoop]. rewrite H1, H2. cbv zeta.
  assert (Hne : String.eqb m "" = false).
  { unfold RateLimiter.validHTTPToken in H2. apply andb_true_iff in H2 as [H2 _]. by apply negb_true_iff in H2. }
  rewrite Hne. apply String.eqb_neq in H3, H4. rewrite H3, H4. cbn [negb orb].
  rewrite bool_decide_eq_false_2 by (apply Hs; by left). rewrite IH; [done|done|done|].
  intros x Hx. pose proof (Hs x ltac:(by right)). set_solver.
Qed.

Lemma methodsLoop_nonempty values : ∀ seen, values ≠ [] → (∀ raw, raw ∈ values → normalizeMethod raw ∉ seen) →
  methodsLoop seen values ≠ inr [].
Proof.
  intros seen Hne Hs E. destruct values as [|raw values]; [done|]. destruct (methodsLoop_spec _ _ _ E) as (_ & _ & _ & _ & H).
  destruct (H raw ltac:(by left)) as [H1|H1]; [by apply elem_of_nil in H1|]. by apply (Hs raw ltac:(by left)).
Qed.

Lemma stringLe_total x : ∀ y, NetIP.stringLe x y = true ∨ NetIP.stringLe y x = true.
Proof.
  induction x as [|c x IH]; intros [|d y]; cbn [NetIP.stringLe]; auto. rewrite (Nat.eqb_sym (nat_of_ascii d)).
  destruct (Nat.eqb_spec (nat_of_ascii c) (nat_of_ascii d)) as [E|E]; [apply IH|]. rewrite !Nat.ltb_lt. lia.
Qed.

Lemma stringLe_trans x : ∀ y z, NetIP.stringLe x y = true → NetIP.stringLe y z = true → NetIP.stringLe x z = true.
Proof.
  induction x as [|c x IH]; intros [|d y] [|e z]; cbn [NetIP.stringLe]; try done.
  destruct (Nat.eqb_spec (nat_of_ascii c) (nat_of_ascii d)) as [E1|E1],
    (Nat.eqb_spec (nat_of_ascii d) (nat_of_ascii e)) as [E2|E2],
    (Nat.eqb_spec (nat_of_ascii c) (nat_of_ascii e)) as [E3|E3]; rewrite ?Nat.ltb_lt; try lia; intros H1 H2.
  by apply (IH y z).
Qed.

Lemma Zleb_total x y : (x <=? y) = true ∨ (y <=? x) = true.
Proof. lia. Qed.
Lemma Zleb_trans x y z : (x <=? y) = true → (y <=? z) = true → (x <=? z) = true.
Proof. lia. Qed.

(** Normal forms are their own normal form. *)
Lemma normalize_methods_idem values methods : normalizePublicRetryMethods values = inr methods →
  normalizePublicRetryMethods methods = inr methods ∧ Forall goodMethod methods.
Proof.
  unfold normalizePublicRetryMethods at 1. case_if E0.
  { intros [= <-]. split; [done|]. repeat constructor; (vm_compute; reflexivity) || (intros; discriminate). }
  case_if E1; [done|]. destruct (methodsLoop ∅ values) as [e|ms] eqn:El; [done|]. case_if E2; [done|]. intros [= <-].
  destruct (methodsLoop_spec _ _ _ El) as (Hg & Hnd & _ & Hlen & _).
  pose proof (ClientIdentity.sortBy_perm NetIP.stringLe ms) as Hp.
  assert (Hne : ms ≠ []).
  { intros ->. apply (methodsLoop_nonempty values ∅); [by intros ->|set_solver|done]. }
  assert (Hg' : Forall goodMethod (ClientIdentity.sortStrings ms)) by (unfold ClientIdentity.sortStrings; by rewrite Hp).
  split; [|done]. unfold normalizePublicRetryMethods, ClientIdentity.sortStrings. rewrite methodsLoop_good.
  - rewrite sortBy_idem by (apply stringLe_total || apply stringLe_trans).
    rewrite (Permutation_length Hp).
    replace (length ms =? 0)%nat with false by (symmetry; apply Nat.eqb_neq; by destruct ms).
    replace (maxPublicRetryMethods <? length ms)%nat with false.
    + replace (bool_decide ("*" ∈ ClientIdentity.sortBy NetIP.stringLe ms)) with (bool_decide ("*" ∈ ms)); [by rewrite E2|].
      apply bool_decide_ext. by rewrite Hp.
    + symmetry. apply Nat.ltb_ge. apply Nat.ltb_ge in E1. lia.
  - by rewrite Hp.
  - by rewrite Hp.
  - set_solver.
Qed.

Lemma statusLoop_spec values : ∀ seen statuses, statusLoop seen values = inr statuses →
  Forall (λ s, 400 ≤ s ≤ 599) statuses ∧ NoDup statuses ∧ (∀ s, s ∈ statuses → s ∉ seen) ∧
  (length statuses ≤ length values)%nat.
Proof.
  induction values as [|x values IH]; intros seen statuses H; cbn [statusLoop] in H.
  { injection H as <-. split_and!; [constructor|constructor|set_solver|done]. }
  destruct ((x <? 400) || (599 <? x)) eqn:E1; [done|]. case_bool_decide as Hin.
  - destruct (IH _ _ H) as (H1 & H2 & H3 & H4). split_and!; [done|done|done|simpl; lia].
  - destruct (statusLoop ({[x]} ∪ seen) values) as [e|ss] eqn:El; [done|]. injection H as <-.
    destruct (IH _ _ El) as (H1 & H2 & H3 & H4). split_and!.
    + constructor; [lia|done].
    + constructor; [|done]. intros Hx. specialize (H3 _ Hx). set_solver.
    + intros y [->|Hy]%elem_of_cons; [done|]. specialize (H3 _ Hy). set_solver.
    + simpl. lia.
Qed.

Lemma statusLoop_good statuses : ∀ seen, Forall (λ s, 400 ≤ s ≤ 599) statuses → NoDup statuses →
  (∀ s, s ∈ statuses → s ∉ seen) → statusLoop seen statuses = inr statuses.
Proof.
  induction statuses as [|x ss IH]; intros seen Hg Hnd Hs; [done|]. apply Forall_cons in Hg as [Hx Hg].
  apply NoDup_cons in Hnd as [Hm Hnd]. cbn [statusLoop].
  replace ((x <? 400) || (599 <? x)) with false by lia.
  rewrite bool_decide_eq_false_2 by (apply Hs; by left). rewrite IH; [done|done|done|].
  intros y Hy. pose proof (Hs y ltac:(by right)). set_solver.
Qed.

Lemma normalize_statuses_idem values statuses : normalizePublicRetryStatusCodes values = inr statuses →
  normalizePublicRetryStatusCodes statuses = inr statuses ∧ Forall (λ s, 400 ≤ s ≤ 599) statuses.
Proof.
  unfold normalizePublicRetryStatusCodes at 1. case_if E1; [done|].
  destruct (statusLoop ∅ values) as [e|ss] eqn:El; [done|]. intros [= <-].
  destruct (statusLoop_spec _ _ _ El) as (Hg & Hnd & _ & Hlen).
  pose proof (ClientIdentity.sortBy_perm Z.leb ss) as Hp. split; [|by rewrite Hp].
  unfold normalizePublicRetryStatusCodes. rewrite statusLoop_good; [|by rewrite Hp|by rewrite Hp|set_solver].
  rewrite sortBy_idem by (apply Zleb_total || apply Zleb_trans). rewrite (Permutation_length Hp).
  replace (maxPublicRetryStatusCodes <? length ss)%nat with false; [done|].
  symmetry. apply Nat.ltb_ge. apply Nat.ltb_ge in E1. lia.
Qed.

Lemma dedupSeen_id (l : list Z) : ∀ seen, NoDup l → (∀ x, x ∈ l → x ∉ seen) → ClientIdentity.dedupSeen seen l = l.
Proof.
  induction l as [|x l IH]; intros seen Hnd Hs; [done|]. apply NoDup_cons in Hnd as [Hx Hnd]. simpl.
  rewrite bool_decide_eq_false_2 by (apply Hs; by left). rewrite IH; [done|done|].
  intros y Hy [->|Hy']%elem_of_cons; [done|]. by apply (Hs y); [right|].
Qed.

Lemma normalize_list_idem values :
  normalizePublicCacheInt64List (normalizePublicCacheInt64List values) = normalizePublicCacheInt64List values.
Proof.
  unfold normalizePublicCacheInt64List. set (l := List.filter _ values). set (d := ClientIdentity.dedupSeen [] l).
  pose proof (ClientIdentity.sortBy_perm Z.leb d) as Hp.
  assert (Hpos : ∀ x, x ∈ ClientIdentity.sortBy Z.leb d → negb (x <=? 0) = true).
  { intros x Hx. rewrite Hp in Hx. apply ClientIdentity.dedupSeen_elem in Hx as [Hx _].
    apply list_elem_of_In, filter_In in Hx. tauto. }
  replace (List.filter (λ v, negb (v <=? 0)) (ClientIdentity.sortBy Z.leb d)) with (ClientIdentity.sortBy Z.leb d).
  - rewrite dedupSeen_id; [|rewrite Hp; apply ClientIdentity.dedupSeen_nodup|set_solver].
    by apply sortBy_idem; [apply Zleb_total|apply Zleb_trans].
  - revert Hpos. generalize (ClientIdentity.sortBy Z.leb d). intros s Hpos. symmetry. induction s as [|x s IH]; [done|].
    simpl. rewrite Hpos by (by left). f_equal. apply IH. intros y Hy. apply Hpos. by right.
Qed.

Lemma TrimSpace_name name : publicNamePattern name = true → TrimSpace name = name.
Proof.
  intros H. apply TrimSpace_printable. destruct name as [|c s]; [done|]. cbn [publicNamePattern] in H.
  apply andb_true_iff in H as [[Hc Hs]%andb_true_iff _].
  assert (Hn : ∀ c, nameChar c = true → printableChar c = true).
  { clear. intros c. destruct c as [[] [] [] [] [] [] [] []]; by vm_compute. }
  cbn [printable]. rewrite (Hn c) by (unfold nameChar; by rewrite Hc). cbn [andb]. clear Hc. induction s as [|d s IH]; [done|].
  cbn [ClientIdentity.allBytes printable] in Hs |- *. apply andb_true_iff in Hs as [Hd Hs]. by rewrite (Hn d Hd), IH.
Qed.

Lemma modes_from_proto f b p :
  normalizePublicRetryFailureMode (publicRetryFailureModeFromProto f) = publicRetryFailureModeFromProto f ∧
  normalizePublicRetryBodyMode (publicRetryBodyModeFromProto b) = publicRetryBodyModeFromProto b ∧
  normalizePublicRetryResponseBodyMode (publicRetryResponseBodyModeFromProto p) = publicRetryResponseBodyModeFromProto p.
Proof. by destruct f, b, p. Qed.

(** What an accepted request stores. *)
Definition acceptedRule (req : retryRuleRequest) (m : option WafCookies.policyMatch) (input : publicRetryRuleMutationInput)
    : Prop :=
  ∃ f b p, input.(InputFailureMode) = publicRetryFailureModeFromProto f ∧
  input.(InputBodyMode) = publicRetryBodyModeFromProto b ∧
  input.(InputResponseBodyMode) = publicRetryResponseBodyModeFromProto p ∧
  normalizePublicRetryMethods input.(MethodsJSON) = inr input.(MethodsJSON) ∧
  normalizePublicRetryStatusCodes input.(RetryStatusJSON) = inr input.(RetryStatusJSON) ∧
  1 ≤ input.(InputMaxRetries) ≤ maxPublicRetryMaxRetries ∧
  validateReplayBytes input.(InputBodyMode) req.(ReqMaxReplayBodyBytes) = inr input.(InputMaxReplayBodyBytes) ∧
  validateResponseBuffer input.(InputResponseBodyMode) req.(ReqMaxBufferedResponseBodyBytes)
    req.(ReqMaxBufferedResponseWaitMillis)
  = inr (input.(InputMaxBufferedResponseBodyBytes), input.(InputMaxBufferedResponseWaitMillis)) ∧
  input.(RouteIDsJSON) = normalizePublicCacheInt64List req.(ReqRouteIDs) ∧
  input.(TargetIDsJSON) = normalizePublicCacheInt64List req.(ReqTargetIDs) ∧
  input.(InputEnabled) = boolInt req.(ReqEnabled) ∧
  (publicRetryRequiresDuplicateRiskAcknowledgement input.(MethodsJSON) input.(InputFailureMode)
     input.(RetryStatusJSON) input.(InputResponseBodyMode) = true → req.(ReqDuplicateRiskAcknowledged) = true).

Lemma validate_accepted getRoute getTarget req m input :
  validatePublicRetryRuleInput getRoute getTarget req m = inr input → acceptedRule req m input.
Proof.
  unfold validatePublicRetryRuleInput. cbv zeta. intros H. case_hyp H; [done|].
  destruct (normalizePublicRetryMethods req.(ReqMethods)) as [|ms] eqn:Em; [done|].
  case_if_hyp H Er. destruct (normalizePublicRetryStatusCodes req.(ReqRetryStatusCodes)) as [|ss] eqn:Es; [done|].
  case_if_hyp H Ea. destruct (validateReplayBytes _ _) as [|rb] eqn:Eb; [done|].
  destruct (validateResponseBuffer _ _ _) as [|[pb w]] eqn:Ep; [done|]. case_if_hyp H Ef.
  destruct (checkRoutes _ _); [done|]. destruct (checkTargets _ _); [done|]. destruct m as [m|]; [|done].
  injection H as <-. exists req.(ReqFailureMode), req.(ReqBodyMode), req.(ReqResponseBodyMode). cbn.
  apply normalize_methods_idem in Em as [Em _]. apply normalize_statuses_idem in Es as [Es _].
  split_and!; try done; [lia|lia|].
  intros Hr. rewrite Hr in Ea. cbn [andb] in Ea. by apply negb_false_iff in Ea.
Qed.

(** A rule as loading it from what validation stored must yield. *)
Definition loadedRule (id : Z) (input : publicRetryRuleMutationInput) (created updated : Z) : publicRetryRuleConfig :=
  mkRetryRule id input.(InputName) input.(InputPriority) (negb (input.(InputEnabled) =? 0)) input.(MethodsJSON)
    (list_to_set input.(MethodsJSON)) (bool_decide (input.(MethodsJSON) = ["*"])) input.(InputMaxRetries)
    input.(InputFailureMode) input.(InputBodyMode) input.(InputMaxReplayBodyBytes) input.(InputResponseBodyMode)
    input.(InputMaxBufferedResponseBodyBytes) (input.(InputMaxBufferedResponseWaitMillis) * millisecond)
    input.(RetryStatusJSON) (list_to_set input.(RetryStatusJSON)) input.(RouteIDsJSON)
    (list_to_set input.(RouteIDsJSON)) input.(TargetIDsJSON) (list_to_set input.(TargetIDsJSON)) input.(MatchJSON)
    created updated.

Lemma replayBytes_stored b bytes v : validateReplayBytes (publicRetryBodyModeFromProto b) bytes = inr v →
  (if String.eqb (publicRetryBodyModeFromProto b) publicRetryBodyModeNever then 0 else v) = v.
Proof. unfold validateReplayBytes. destruct (String.eqb _ _); [by intros [= <-]|done]. Qed.

Lemma responseBuffer_stored p bytes wait v w :
  validateResponseBuffer (publicRetryResponseBodyModeFromProto p) bytes wait = inr (v, w) →
  let stream := String.eqb (publicRetryResponseBodyModeFromProto p) publicRetryResponseBodyModeStream in
  (if stream then 0 else v) = v ∧ (if stream then 0 else clampWait w) = w ∧ 0 ≤ w ≤ maxPublicRetryResponseWaitMillis.
Proof.
  unfold validateResponseBuffer. destruct (String.eqb _ _); [by intros [= <- <-]|]. case_if E1; [done|].
  cbv zeta. set (w' := if wait =? 0 then _ else wait). case_if E2; [done|]. intros [= <- <-]. unfold clampWait, maxPublicRetryResponseWaitMillis,
    minPublicRetryResponseWaitMillis in *. split_and!; [done| |lia|lia].
  destruct (w' <? 1000) eqn:E3; [lia|]. destruct (300000 <? w') eqn:E4; [lia|done].
Qed.

Lemma rule_loaded getRoute getTarget req m input id created updated :
  validatePublicRetryRuleInput getRoute getTarget req m = inr input →
  publicRetryRuleRowToConfig (storedRow id input created updated) = Some (loadedRule id input created updated).
Proof.
  intros H. apply validate_accepted in H as (f & b & p & Hf & Hb & Hp & Hm & Hs & Hr & Hrb & Hpb & Hro & Hta & _).
  rewrite Hb in Hrb. rewrite Hp in Hpb. apply replayBytes_stored in Hrb. apply responseBuffer_stored in Hpb as (E1 & E2 & Hw).
  destruct (modes_from_proto f b p) as (Nf & Nb & Np).
  unfold publicRetryRuleRowToConfig, storedRow, loadedRule. cbn. rewrite Hm, Hs, Hro, Hta, !normalize_list_idem, Hf, Hb, Hp, Nf, Nb, Np.
  rewrite Hrb, E1, E2. f_equal. f_equal.
  - unfold clampRetries, maxPublicRetryMaxRetries in *. destruct (input.(InputMaxRetries) <? 1) eqn:E3; [lia|].
    destruct (3 <? input.(InputMaxRetries)) eqn:E4; [lia|done].
  - rewrite i64_id; [done|]. unfold in_i64, min_int64, max_int64, millisecond, maxPublicRetryResponseWaitMillis in *. lia.
Qed.

(** ** The properties *)

(** A rule that validation accepts is loaded back exactly as it was stored: no field is
    clamped, normalised again or dropped, and loading never fails. *)
Theorem retry_rule_roundtrip getRoute getTarget req m input id created updated :
  validatePublicRetryRuleInput getRoute getTarget req m = inr input →
  publicRetryRuleRowToConfig (storedRow id input created updated) = Some (loadedRule id input created updated).
Proof. apply rule_loaded. Qed.

Lemma retryRuleLe_total x y : retryRuleLe x y = true ∨ retryRuleLe y x = true.
Proof. unfold retryRuleLe. rewrite (Z.eqb_sym y.(RetryPriority)). destruct (x.(RetryPriority) =? y.(RetryPriority)) eqn:E; lia. Qed.
Lemma retryRuleLe_trans x y z : retryRuleLe x y = true → retryRuleLe y z = true → retryRuleLe x z = true.
Proof.
  unfold retryRuleLe. destruct (x.(RetryPriority) =? y.(RetryPriority)) eqn:E1, (y.(RetryPriority) =? z.(RetryPriority)) eqn:E2,
    (x.(RetryPriority) =? z.(RetryPriority)) eqn:E3; lia.
Qed.

Lemma scanRetryRules_first rules r resolution rule : scanRetryRules rules r resolution = Some rule →
  ∃ before after, rules = before ++ rule :: after ∧
    evaluateMatch rule resolution.(ResolvedListener) r resolution = Some true ∧
    Forall (λ o, evaluateMatch o resolution.(ResolvedListener) r resolution = Some false) before.
Proof.
  induction rules as [|x rules IH]; [done|]. simpl.
  destruct (evaluateMatch x resolution.(ResolvedListener) r resolution) as [[]|] eqn:E; [|intros H|done].
  - intros [= <-]. exists [], rules. split_and!; [done|done|constructor].
  - destruct (IH H) as (before & after & -> & Hm & Hb). exists (x :: before), after. split_and!; [done|done|by constructor].
Qed.

(** The rule that governs a request is, by priority and then identifier, the first of
    the configured rules that match it: it is enabled, allows the method, names the route
    and the target or none, its target is behind agents, and no matching rule comes
    before it.  CONNECT, TRACE and upgrade requests have no rule. *)
Theorem retry_rule_first rules r resolution rule :
  selectPublicRetryRule (Some (sortPublicRetryRules rules)) r resolution = Some rule →
  rule ∈ rules ∧ rule.(Enabled) = true ∧ publicRetryRequestAlwaysExcluded r = false ∧
  (rule.(AllMethods) = true ∨ ToUpper r.(ClientIdentity.Method) ∈ rule.(methodSet)) ∧
  (rule.(routeIDSet) = ∅ ∨ resolution.(ResolvedRoute).(Routing.RouteID) ∈ rule.(routeIDSet)) ∧
  (∃ target, resolution.(ResolvedTarget) = Some target ∧
    target.(Routing.Transport) = TargetHealth.publicRouteTargetTransportAgent ∧
    (rule.(targetIDSet) = ∅ ∨ target.(Routing.TargetID) ∈ rule.(targetIDSet))) ∧
  rule.(Match) resolution.(ResolvedListener) r = Some true ∧
  ∀ other, other ∈ rules → evaluateMatch other resolution.(ResolvedListener) r resolution = Some true →
    retryRuleLe rule other = true.
Proof.
  unfold selectPublicRetryRule. case_if Ex; [done|]. intros H.
  destruct (scanRetryRules_first _ _ _ _ H) as (before & after & Hs & Hm & Hb).
  pose proof (ClientIdentity.sortBy_perm retryRuleLe rules) as Hp.
  pose proof (ClientIdentity.sortBy_sorted retryRuleLe rules retryRuleLe_total retryRuleLe_trans) as Hsort.
  fold (sortPublicRetryRules rules) in Hp, Hsort. rewrite Hs in Hp, Hsort.
  assert (Hin : rule ∈ rules) by (rewrite <- Hp; set_solver).
  assert (Hfirst : ∀ other, other ∈ rules → evaluateMatch other resolution.(ResolvedListener) r resolution = Some true →
    retryRuleLe rule other = true).
  { intros other Ho Eo. rewrite <- Hp in Ho. apply elem_of_app in Ho as [Ho|[->|Ho]%elem_of_cons].
    - rewrite Forall_forall in Hb. apply Hb in Ho. congruence.
    - by destruct (retryRuleLe_total rule rule).
    - clear Hs Hb Hp. induction before as [|x before IH]; simpl in Hsort; inversion Hsort as [|? ? Hs' Hall]; subst; [|by apply IH].
      rewrite Forall_forall in Hall. by apply Hall. }
  unfold evaluateMatch in Hm. destruct resolution.(ResolvedTarget) as [target|]; [|done].
  case_if_hyp Hm E1. case_if_hyp Hm E2. case_if_hyp Hm E3. case_if_hyp Hm E4. bprop.
  split_and!; [done|done|done| |  |exists target; split_and!; [done|done|]|done|done].
  - rewrite ?negb_false_iff, bool_decide_eq_true in E2. tauto.
  - rewrite ?negb_false_iff, bool_decide_eq_false, bool_decide_eq_true in E3. destruct E3 as [E3|E3]; [left|by right].
    by destruct (decide (rule.(routeIDSet) = ∅)).
  - rewrite ?negb_false_iff, bool_decide_eq_false, bool_decide_eq_true in E4. destruct E4 as [E4|E4]; [left|by right].
    by destruct (decide (rule.(targetIDSet) = ∅)).
Qed.

(** ** Examples *)

Definition exampleRuleRequest (acknowledged : bool) : retryRuleRequest :=
  mkRuleRequest " reads " 10 true ["get"; "HEAD"; "GET"] 2 ConnectionFailures BodyNever 0 ResponseStream 0 0 [] [3; 3; 1] []
    acknowledged.
Definition exampleMatch : WafCookies.policyMatch := λ _ _, Some true.
Definition exampleInput : publicRetryRuleMutationInput :=
  mkInput "reads" 10 1 ["GET"; "HEAD"] 2 "connection_failures" "never" 0 "stream" 0 0 [] [1; 3] [] exampleMatch.
Definition exampleGetRoute (id : Z) : dbResult unit := Found tt.
Definition exampleGetTarget (id : Z) : dbResult (string * string) := Found ("proxy", "agent").

Lemma exampleRule_valid : validatePublicRetryRuleInput exampleGetRoute exampleGetTarget (exampleRuleRequest false)
  (Some exampleMatch) = inr exampleInput.
Proof. vm_compute. reflexivity. Qed.

(** A status rule needs the acknowledgement. *)
Example status_needs_acknowledgement :
  validatePublicRetryRuleInput exampleGetRoute exampleGetTarget
    (mkRuleRequest "r" 0 true [] 1 ConnectionFailures BodyNever 0 ResponseStream 0 0 [503] [] [] false) (Some exampleMatch)
  = inl ErrDuplicateRisk.
Proof. vm_compute. reflexivity. Qed.

Lemma retry_rule_roundtrip_witness :
  publicRetryRuleRowToConfig (storedRow 7 exampleInput 1 2) = Some (loadedRule 7 exampleInput 1 2).
Proof.
  assert (H1 : validatePublicRetryRuleInput exampleGetRoute exampleGetTarget (exampleRuleRequest false) (Some exampleMatch)
    = inr exampleInput) by (vm_compute; reflexivity).
  exact (retry_rule_roundtrip exampleGetRoute exampleGetTarget (exampleRuleRequest false) (Some exampleMatch) exampleInput 7 1 2 H1).
Defined.

Definition exampleHTTP (method : string) : ClientIdentity.httpRequest :=
  ClientIdentity.mkRequest method "a.example" "" "/" "/" true "192.0.2.1:1" ∅ [] ∅ None [].
Definition exampleResolution : publicRouteResolution :=
  mkResolution (WafCookies.mkListener 1 "main" "" 443 "https" true) exampleRoute "forward" false
    (Some (exampleTarget 1 0 "agent")) None (Some 1) None.
Definition exampleRuleWith (id priority : Z) (methods : list string) : publicRetryRuleConfig :=
  mkRetryRule id "reads" priority true methods (list_to_set methods) false 2 "connection_failures" "never" 0 "stream" 0 0
    [] ∅ [] ∅ [] ∅ exampleMatch 0 0.

Lemma retry_rule_first_witness :
  retryRuleLe (exampleRuleWith 2 5 ["GET"]) (exampleRuleWith 1 9 ["GET"]) = true.
Proof.
  set (rules := [exampleRuleWith 1 9 ["GET"]; exampleRuleWith 2 5 ["GET"]; exampleRuleWith 3 1 ["PUT"]]).
  assert (H1 : selectPublicRetryRule (Some (sortPublicRetryRules rules)) (exampleHTTP "get") exampleResolution
    = Some (exampleRuleWith 2 5 ["GET"])) by (vm_compute; reflexivity).
  destruct (retry_rule_first rules (exampleHTTP "get") exampleResolution _ H1) as (_ & _ & _ & _ & _ & _ & _ & H).
  apply H; [by left|vm_compute; reflexivity].
Defined.
End RetryPolicy.
