(* ===== verification/RetryBuffers.v ===== *)
(** The bodies of retried requests (internal/server/public_retry_transport.go): the budget
    of replay bytes, the request body that is kept for a replay, and the response body that
    is read ahead of the commit to an attempt.

    The budget is a loop around a compare-and-swap, modelled with every interleaving of its
    atomic operations.  A body to read is the list of its bytes and the error that follows
    them; the reads of an upstream body are a list of results.  The choices of a select
    statement are a list of events, so the theorems cover every schedule. *)

From S2P Require Import Prelude.
From S2P Require Import GoStrings.
From S2P Require Import ClientIdentity.
From S2P Require Import RateLimiter.
From S2P Require Import StreamCapacity.
From S2P Require Import TargetSelection.
From S2P Require Import RetryPolicy.
From Stdlib Require Import Ascii.

Module RetryBuffers.
Import RetryPolicy.

Abbreviation byte := Byte.byte.

(** ** The replay budget *)

Record retryReplayBudget := mkBudget { limit : Z; used : Z }.

Definition newRetryReplayBudget (limit : Z) : retryReplayBudget :=
  mkBudget (if limit <=? 0 then defaultPublicRetryReplayBudgetBytes else limit) 0.

(** [tryAcquire] run without interruption; the result is the amount its release gives
    back, [None] a refusal. *)
Definition tryAcquire (b : retryReplayBudget) (size : Z) : option (retryReplayBudget * Z) :=
  if size <=? 0 then Some (b, 0)
  else if i64 (b.(limit) - b.(used)) <? size then None
  else Some (mkBudget b.(limit) (i64 (b.(used) + size)), size).
Definition releaseBudget (b : retryReplayBudget) (size : Z) : retryReplayBudget :=
  mkBudget b.(limit) (i64 (b.(used) - size)).

(** The same loop in its atomic steps, with the calls and the reservations of all
    goroutines: a call is about to load the counter or holds the value it loaded; a
    reservation is live, or its release has won the flag and not yet subtracted. *)
Inductive call := Loading (size : Z) | Loaded (size seen : Z).
Inductive reservation := Live (size : Z) | Releasing (size : Z).

Definition reservedBytes (r : reservation) : Z := match r with Live n | Releasing n => n end.

Record budgetState := mkBudgetState {
  budget : retryReplayBudget;
  calls : gmap Z call;
  reservations : gmap Z reservation }.

Definition newBudgetState (limit : Z) : budgetState := mkBudgetState (newRetryReplayBudget limit) ∅ ∅.

(** A call of size at most zero returns at once. *)
Definition stepCall (s : budgetState) (id size : Z) : budgetState :=
  if size <=? 0 then s else mkBudgetState s.(budget) (<[id := Loading size]> s.(calls)) s.(reservations).

(** [b.used.Load()] and the test: the call returns, or goes on to the swap. *)
Definition stepLoad (s : budgetState) (id : Z) : budgetState :=
  match s.(calls) !! id with
  | Some (Loading size) =>
      if i64 (s.(budget).(limit) - s.(budget).(used)) <? size
      then mkBudgetState s.(budget) (delete id s.(calls)) s.(reservations)
      else mkBudgetState s.(budget) (<[id := Loaded size s.(budget).(used)]> s.(calls)) s.(reservations)
  | _ => s
  end.

(** [CompareAndSwap]: a reservation, or the next turn of the loop. *)
Definition stepSwap (s : budgetState) (id : Z) : budgetState :=
  match s.(calls) !! id with
  | Some (Loaded size seen) =>
      if s.(budget).(used) =? seen
      then mkBudgetState (mkBudget s.(budget).(limit) (i64 (seen + size))) (delete id s.(calls))
             (<[id := Live size]> s.(reservations))
      else mkBudgetState s.(budget) (<[id := Loading size]> s.(calls)) s.(reservations)
  | _ => s
  end.

(** The release function: the flag, then the subtraction. *)
Definition stepRelease (s : budgetState) (id : Z) : budgetState :=
  match s.(reservations) !! id with
  | Some (Live size) => mkBudgetState s.(budget) s.(calls) (<[id := Releasing size]> s.(reservations))
  | _ => s
  end.
Definition stepSubtract (s : budgetState) (id : Z) : budgetState :=
  match s.(reservations) !! id with
  | Some (Releasing size) => mkBudgetState (releaseBudget s.(budget) size) s.(calls) (delete id s.(reservations))
  | _ => s
  end.

(** A call uses a name no call or reservation has; any step of any goroutine may follow. *)
Inductive budgetStep : budgetState → budgetState → Prop :=
  | BudgetCall s id size : s.(calls) !! id = None → s.(reservations) !! id = None → in_i64 size →
      budgetStep s (stepCall s id size)
  | BudgetLoad s id : budgetStep s (stepLoad s id)
  | BudgetSwap s id : budgetStep s (stepSwap s id)
  | BudgetRelease s id : budgetStep s (stepRelease s id)
  | BudgetSubtract s id : budgetStep s (stepSubtract s id).

(** ** Reservations of a body *)

(** What the server promises about its adaptive memory: a reservation of so many bytes is
    refused, granted under a token, or not accounted at all. *)
Inductive resourceGrant := ResourceRefused | ResourceFree | ResourceToken (token : Z).

Class ReplayResources (M : Type) := {
  reserveResource : M → Z → M * resourceGrant;
  releaseResource : M → Z → M }.

(** The stream capacity manager, as it is when the wait for a running sample is over; a
    release dispatches the waiters of the manager at [now], with the state of their
    contexts. *)
Definition capacityResources (now : Z) (ctxErr : Z → option StreamCapacity.ctxError)
    : ReplayResources StreamCapacity.agentStreamCapacityManager := {|
  reserveResource m bytes :=
    match StreamCapacity.tryReserveAdaptiveResource m 6 bytes 0 with
    | (m, StreamCapacity.Unconstrained) => (m, ResourceFree)
    | (m, StreamCapacity.Reserved token) => (m, ResourceToken token)
    | (m, StreamCapacity.Rejected) | (m, StreamCapacity.ReserveSampling) => (m, ResourceRefused)
    end;
  releaseResource := StreamCapacity.releaseReservation now ctxErr |}.

(** The budget and the memory of the server, and what one reservation took of them. *)
Record replayMemory (M : Type) := mkMemory { replayBudget : option retryReplayBudget; resources : M }.
Arguments mkMemory {M}.
Arguments replayBudget {M}.
Arguments resources {M}.

Record replayHandle := mkHandle { handleBytes : Z; handleToken : option Z }.

Section reservation.
Context {M : Type} `{ReplayResources M}.
Implicit Types mem : replayMemory M.

Definition tryAcquireRetryReplayReservation mem (payloadBytes workingBytes : Z) : replayMemory M * option replayHandle :=
  match mem.(replayBudget) with
  | None => (mem, None)
  | Some b =>
      if (payloadBytes <? 0) || (workingBytes <=? 0) then (mem, None)
      else match tryAcquire b payloadBytes with
      | None => (mem, None)
      | Some (b', bytes) =>
          match reserveResource mem.(resources) workingBytes with
          | (m, ResourceRefused) => (mkMemory (Some (releaseBudget b' bytes)) m, None)
          | (m, ResourceFree) => (mkMemory (Some b') m, Some (mkHandle bytes None))
          | (m, ResourceToken token) => (mkMemory (Some b') m, Some (mkHandle bytes (Some token)))
          end
      end
  end.

Definition releaseHandleBudget mem (h : replayHandle) : replayMemory M :=
  mkMemory ((λ b, releaseBudget b h.(handleBytes)) <$> mem.(replayBudget)) mem.(resources).
Definition releaseHandleResource mem (h : replayHandle) : replayMemory M :=
  mkMemory mem.(replayBudget)
    (match h.(handleToken) with None => mem.(resources) | Some t => releaseResource mem.(resources) t end).
(** Both, in the order of the request's release function. *)
Definition releaseHandle mem (h : replayHandle) : replayMemory M := releaseHandleBudget (releaseHandleResource mem h) h.
End reservation.

Definition publicRetryRequestWorkingBytes (readLimit : Z) : option Z :=
  if readLimit <? 0 then None
  else let workingBytes := Z.max 512 readLimit in
       if Z.quot max_int64 3 <? workingBytes then None else Some (workingBytes * 3).

Definition publicRetryResponsePumpChunkBytes : Z := 32768.

(** [int] is 64 bits wide: no prefix size is too large for it. *)
Definition publicRetryResponseWorkingBytes (prefixBytes : Z) : option Z :=
  let pumpWorkingBytes := 5 * publicRetryResponsePumpChunkBytes in
  if (prefixBytes <? 0) || (max_int64 - pumpWorkingBytes <? prefixBytes) then None
  else Some (prefixBytes + pumpWorkingBytes).

(** The two callbacks of a response: the consumer's gives the payload budget back, the
    working memory goes back when both ran.  Each acts once. *)
Record callbacks := mkCallbacks {
  remaining : Z;
  consumerRan : bool;
  pumpRan : bool;
  budgetReleases : nat;
  resourceReleases : nat }.
Inductive callback := ConsumerDone | PumpDone.

Definition publicRetryResponseReservationCallbacks : callbacks := mkCallbacks 2 false false 0 0.

Definition finish (c : callbacks) : callbacks :=
  let remaining := c.(remaining) - 1 in
  mkCallbacks remaining c.(consumerRan) c.(pumpRan) c.(budgetReleases)
    (if remaining =? 0 then S c.(resourceReleases) else c.(resourceReleases)).

Definition runCallback (c : callbacks) (k : callback) : callbacks :=
  match k with
  | ConsumerDone =>
      if c.(consumerRan) then c
      else finish (mkCallbacks c.(remaining) true c.(pumpRan) (S c.(budgetReleases)) c.(resourceReleases))
  | PumpDone =>
      if c.(pumpRan) then c
      else finish (mkCallbacks c.(remaining) c.(consumerRan) true c.(budgetReleases) c.(resourceReleases))
  end.

(** ** The request body *)

(** The bytes still to read, the error after them ([None]: end of file), and the error of
    its Close. *)
Record bodyStream := mkStream {
  streamBytes : list byte;
  streamErr : option retryError;
  streamCloseErr : option retryError }.

(** [Body] is [None] for nil and http.NoBody. *)
Record retryRequest := mkRetryRequest {
  reqHTTP : ClientIdentity.httpRequest;
  ContentLength : Z;
  Body : option bodyStream }.

Record publicRetryRequestBody := mkRequestBody {
  original : option bodyStream;
  buffered : list byte;
  replayable : bool;
  bodyless : bool;
  release : option replayHandle }.

(** [io.ReadAll(io.LimitReader(s, n))]; an error comes after the bytes. *)
Definition readAllLimited (n : Z) (s : bodyStream) : list byte * option retryError :=
  if n <=? Z.of_nat (length s.(streamBytes)) then (take (Z.to_nat n) s.(streamBytes), None)
  else (s.(streamBytes), s.(streamErr)).

(** How much to reserve and how much to read; [None] when the body is not buffered. *)
Definition replaySizes (req : retryRequest) (rule : option publicRetryRuleConfig) : option (Z * Z) :=
  match rule with
  | None => None
  | Some rule =>
      if negb (String.eqb rule.(BodyMode) publicRetryBodyModeBuffered) || (rule.(MaxReplayBodyBytes) <=? 0) then None
      else if rule.(MaxReplayBodyBytes) <? req.(ContentLength) then None
      else if 0 <? req.(ContentLength) then Some (req.(ContentLength), req.(ContentLength))
      else if rule.(MaxReplayBodyBytes) =? max_int64 then None
      else Some (rule.(MaxReplayBodyBytes), rule.(MaxReplayBodyBytes) + 1)
  end.

Section request.
Context {M : Type} `{ReplayResources M}.
Implicit Types mem : replayMemory M.

Definition preparePublicRetryRequestBody mem (req : retryRequest) (rule : option publicRetryRuleConfig)
    : replayMemory M * (retryError + publicRetryRequestBody) :=
  match req.(Body) with
  | None => (mem, inr (mkRequestBody None [] true true None))
  | Some s =>
      let source := mkRequestBody (Some s) [] false false None in
      match replaySizes req rule, rule with
      | Some (reservationBytes, readLimit), Some rule =>
          match publicRetryRequestWorkingBytes readLimit with
          | None => (mem, inr source)
          | Some workingBytes =>
              match tryAcquireRetryReplayReservation mem reservationBytes workingBytes with
              | (mem, None) => (mem, inr source)
              | (mem, Some h) =>
                  let '(prefix, err) := readAllLimited readLimit s in
                  let err := match err with
                    | Some e => Some e
                    | None => if (0 <? req.(ContentLength)) && negb (Z.of_nat (length prefix) =? req.(ContentLength))
                              then Some ErrUnexpectedEOF else None
                    end in
                  match err with
                  | Some e => (releaseHandle mem h, inl e)
                  | None =>
                      if rule.(MaxReplayBodyBytes) <? Z.of_nat (length prefix) then
                        let rest := drop (length prefix) s.(streamBytes) in
                        (mem, inr (mkRequestBody (Some (mkStream (prefix ++ rest) s.(streamErr) s.(streamCloseErr)))
                                     [] false false (Some h)))
                      else match s.(streamCloseErr) with
                      | Some e => (releaseHandle mem h, inl e)
                      | None => (mem, inr (mkRequestBody None prefix true false (Some h)))
                      end
                  end
              end
          end
      | _, _ => (mem, inr source)
      end
  end.

(** [close]: the original is closed and the reservation given back, once. *)
Definition closeBody mem (b : publicRetryRequestBody) : replayMemory M * publicRetryRequestBody :=
  (match b.(release) with None => mem | Some h => releaseHandle mem h end,
   mkRequestBody None b.(buffered) b.(replayable) b.(bodyless) None).
End request.

(** The bytes the next attempt can read; [None]: there is no body to give. *)
Definition next (b : publicRetryRequestBody) : option (list byte) :=
  if b.(bodyless) then Some []
  else if b.(replayable) then Some b.(buffered)
  else streamBytes <$> b.(original).

(** An attempt read [n] bytes of the body it was given. *)
Definition consume (n : nat) (b : publicRetryRequestBody) : publicRetryRequestBody :=
  if b.(bodyless) || b.(replayable) then b
  else mkRequestBody ((λ s, mkStream (drop n s.(streamBytes)) s.(streamErr) s.(streamCloseErr)) <$> b.(original))
         b.(buffered) b.(replayable) b.(bodyless) b.(release).

(** ** The response body *)

(** One Read of the upstream body: bytes and an error, or a count out of range. *)
Inductive sourceRead := SourceRead (data : list byte) (err : option retryError) | SourceBadCount.

Record publicRetryResponseChunk := mkChunk { data : list byte; chunkErr : option retryError }.

Definition errNoProgress : retryError := plainError.

(** The chunks the pump sends for these reads, until an error ends it. *)
Fixpoint pumpRun (emptyReads : nat) (reads : list sourceRead) : list publicRetryResponseChunk :=
  match reads with
  | [] => []
  | r :: reads =>
      let '(bytes, err) := match r with SourceRead d e => (d, e) | SourceBadCount => ([], Some plainError) end in
      let idle := match bytes, err with [], None => true | _, _ => false end in
      let emptyReads := if idle then S emptyReads else O in
      let err := if idle && (100 <=? emptyReads)%nat then Some errNoProgress else err in
      let sent := match bytes, err with [], None => [] | _, _ => [mkChunk bytes err] end in
      match err with
      | Some _ => sent
      | None => sent ++ pumpRun emptyReads reads
      end
  end.

(** The pump as the reader of the response: what is left of the current chunk, and the
    chunks to come. *)
Record publicRetryResponsePump := mkPump {
  current : list byte;
  currentErr : option retryError;
  finished : bool;
  closed : bool;
  chunks : list publicRetryResponseChunk }.

Definition newPublicRetryResponsePump (chunks : list publicRetryResponseChunk) : publicRetryResponsePump :=
  mkPump [] None false false chunks.

Definition errClosedPipe : retryError := plainError.

(** One Read into [n] bytes: [None] waits for a chunk.  [preferDone] is the choice between
    a chunk and a Close when both are there. *)
Fixpoint pumpReadFrom (preferDone isClosed : bool) (n : nat) (cur : list byte) (curErr : option retryError) (fin : bool)
    (rest : list publicRetryResponseChunk) : option (list byte * option retryError * publicRetryResponsePump) :=
  match cur, curErr with
  | _ :: _, _ =>
      let out := take n cur in
      let cur' := drop n cur in
      match cur', curErr with
      | [], Some e => Some (out, Some e, mkPump [] None true isClosed rest)
      | _, _ => Some (out, None, mkPump cur' curErr fin isClosed rest)
      end
  | [], Some e => Some ([], Some e, mkPump [] None true isClosed rest)
  | [], None =>
      if fin then Some ([], Some EOF, mkPump [] None true isClosed rest)
      else match rest with
      | c :: rest' =>
          if isClosed && preferDone then Some ([], Some errClosedPipe, mkPump [] None true isClosed rest)
          else pumpReadFrom preferDone isClosed n c.(data) c.(chunkErr) fin rest'
      | [] => if isClosed then Some ([], Some errClosedPipe, mkPump [] None true isClosed rest) else None
      end
  end.
Definition pumpRead (preferDone : bool) (n : nat) (p : publicRetryResponsePump)
    : option (list byte * option retryError * publicRetryResponsePump) :=
  if (n =? 0)%nat then Some ([], None, p)
  else pumpReadFrom preferDone p.(closed) n p.(current) p.(currentErr) p.(finished) p.(chunks).

(** The source is told to stop; its reads end. *)
Definition pumpClose (p : publicRetryResponsePump) : publicRetryResponsePump :=
  mkPump p.(current) p.(currentErr) p.(finished) true p.(chunks).

(** A reader of an [io.MultiReader]. *)
Inductive reader := BytesReader (l : list byte) | PumpReader | ErrorReader (e : retryError).

Definition readerRead (preferDone : bool) (n : nat) (r : reader) (p : publicRetryResponsePump)
    : option (list byte * option retryError * reader * publicRetryResponsePump) :=
  match r with
  | BytesReader [] => Some ([], Some EOF, r, p)
  | BytesReader l => Some (take n l, None, BytesReader (drop n l), p)
  | PumpReader =>
      match pumpRead preferDone n p with
      | None => None
      | Some (out, err, p) => Some (out, err, PumpReader, p)
      end
  | ErrorReader e => Some ([], Some e, r, p)
  end.

Definition isSameEOF (err : option retryError) : bool := match err with Some e => e.(sameEOF) | None => false end.

(** [io.MultiReader]: a reader at its end is dropped and the next one read; nested
    multi-readers are flattened, as the library does. *)
Fixpoint multiRead (preferDone : bool) (n : nat) (rs : list reader) (p : publicRetryResponsePump)
    : option (list byte * option retryError * list reader * publicRetryResponsePump) :=
  match rs with
  | [] => Some ([], Some EOF, [], p)
  | r :: rest =>
      match readerRead preferDone n r p with
      | None => None
      | Some (out, err, r', p') =>
          if isSameEOF err then
            match out with
            | [] => multiRead preferDone n rest p'
            | _ => Some (out, match rest with [] => err | _ => None end, rest, p')
            end
          else Some (out, err, r' :: rest, p')
      end
  end.

(** *** Reading ahead *)

(** What a turn of the loop selects: the context is done, the timer fired (and a chunk was
    ready or not), or a chunk arrived. *)
Inductive selection := SelectCtx (err : retryError) | SelectTimer (chunkReady : bool) | SelectChunk.

Inductive readAhead :=
  | ReadFailed (err : retryError)
  | ReadComplete (prefix : list byte)
  | ReadPartial (prefix : list byte) (tail : list reader) (chunks : list publicRetryResponseChunk) (skipReason : string).

(** The end of a body: an end of file that is not the loss of the agent. *)
Definition cleanEnd (e : retryError) : bool := e.(isEOF) && negb e.(isDisconnected).

(** What the loop does with a chunk: return, or go on with a longer prefix. *)
Definition takeChunk (contentLength lim : Z) (prefix : list byte) (chunk : publicRetryResponseChunk)
    (rest : list publicRetryResponseChunk) : readAhead + list byte :=
  let size := Z.of_nat (length chunk.(data)) in
  if (0 <? size) && (0 <=? contentLength) && (contentLength <? Z.of_nat (length prefix) + size)
  then inl (ReadFailed plainError)
  else
    let room := lim - Z.of_nat (length prefix) in
    if room <? size then
      let overflow := drop (Z.to_nat room) chunk.(data) in
      let readers := match chunk.(chunkErr) with
        | None => [BytesReader overflow; PumpReader]
        | Some e => if cleanEnd e then [BytesReader overflow] else [BytesReader overflow; ErrorReader e]
        end in
      inl (ReadPartial (prefix ++ take (Z.to_nat room) chunk.(data)) readers rest "response_body_too_large")
    else
      let prefix := prefix ++ chunk.(data) in
      match chunk.(chunkErr) with
      | None => inr prefix
      | Some e =>
          if cleanEnd e then
            if (0 <=? contentLength) && negb (Z.of_nat (length prefix) =? contentLength)
            then inl (ReadFailed ErrUnexpectedEOF) else inl (ReadComplete prefix)
          else inl (ReadFailed e)
      end.

(** The loop; [None] while no event ended it.  The timer fires at most once. *)
Fixpoint readLoop (armed : bool) (contentLength lim : Z) (prefix : list byte) (events : list selection)
    (chunks : list publicRetryResponseChunk) : option readAhead :=
  match events with
  | [] => None
  | SelectCtx err :: _ => Some (ReadFailed err)
  | SelectTimer false :: _ =>
      if armed then Some (ReadPartial prefix [PumpReader] chunks "response_buffer_wait_exceeded") else None
  | SelectTimer true :: events =>
      match armed, chunks with
      | true, chunk :: rest =>
          match takeChunk contentLength lim prefix chunk rest with
          | inl out => Some out
          | inr prefix => readLoop false contentLength lim prefix events rest
          end
      | _, _ => None
      end
  | SelectChunk :: events =>
      match chunks with
      | chunk :: rest =>
          match takeChunk contentLength lim prefix chunk rest with
          | inl out => Some out
          | inr prefix => readLoop armed contentLength lim prefix events rest
          end
      | [] => None
      end
  end.

Definition readPublicRetryResponseBodyBeforeDeadline (reads : list sourceRead) (contentLength lim : Z)
    (events : list selection) : option readAhead :=
  if lim <=? 0 then Some (ReadComplete [])
  else readLoop true contentLength lim [] events (pumpRun 0 reads).

(** *** The response *)

(** [mediaType] is what mime.ParseMediaType yields, [None] its error; [RespBody] is [None]
    for nil and http.NoBody. *)
Record response := mkResponse {
  StatusCode : Z;
  RespContentLength : Z;
  RespHeader : gmap string (list string);
  mediaType : option string;
  RespBody : option (list sourceRead);
  respEvents : list selection }.

Definition responseStatusAllowsBody (status : Z) : bool :=
  (200 <=? status) && negb (status =? 204) && negb (status =? 205) && negb (status =? 304).

Definition publicRetryResponseBufferExclusion (req : retryRequest) (resp : response)
    (rule : option publicRetryRuleConfig) : string :=
  match rule with
  | None => "response_body_streamed"
  | Some rule =>
      if negb (isBuffered rule.(ResponseBodyMode)) || (rule.(MaxBufferedResponseBodyBytes) <=? 0)
      then "response_body_streamed"
      else if String.eqb req.(reqHTTP).(ClientIdentity.Method) MethodHead
              || negb (responseStatusAllowsBody resp.(StatusCode)) || (resp.(RespContentLength) =? 0)
      then "response_body_absent"
      else if negb (String.eqb (RateLimiter.headerGet req.(reqHTTP).(ClientIdentity.Header) "Range") "")
              || (resp.(StatusCode) =? 206)
              || negb (String.eqb (RateLimiter.headerGet resp.(RespHeader) "Content-Range") "")
      then "response_range_streamed"
      else if EqualFold (TrimSpace (RateLimiter.headerGet resp.(RespHeader) "X-Accel-Buffering")) "no"
      then "response_buffering_disabled_by_upstream"
      else
        let media := ToLower (match resp.(mediaType) with
          | Some m => m
          | None => TrimSpace (hd "" (Split ";" (RateLimiter.headerGet resp.(RespHeader) "Content-Type")))
          end) in
        if String.eqb media "text/event-stream" || String.eqb media "multipart/x-mixed-replace"
           || HasPrefix media "application/grpc"
        then "streaming_response_type" else ""
  end.

(** The body handed on: nothing, the upstream body itself, the buffered bytes, or the
    prefix followed by the rest. *)
Inductive preparedBody :=
  | BodyNone
  | BodyUpstream (reads : list sourceRead)
  | BodyWhole (prefix : list byte) (h : replayHandle)
  | BodyPrefixed (readers : list reader) (chunks : list publicRetryResponseChunk) (h : replayHandle).

Record publicRetryPreparedResponseBody := mkPrepared { body : preparedBody; complete : bool; skipReason : string }.

Section response.
Context {M : Type} `{ReplayResources M}.
Implicit Types mem : replayMemory M.

(** [None]: the reading ahead has not ended.  On an error the consumer's half of the
    reservation is given back; the pump's half follows when it stops. *)
Definition preparePublicRetryResponseBody mem (req : retryRequest) (resp : response) (rule : option publicRetryRuleConfig)
    : option (replayMemory M * (retryError + publicRetryPreparedResponseBody)) :=
  match resp.(RespBody) with
  | None => Some (mem, inr (mkPrepared BodyNone false "response_body_absent"))
  | Some reads =>
      let reason := publicRetryResponseBufferExclusion req resp rule in
      match rule with
      | Some rule =>
      if negb (String.eqb reason "") then Some (mem, inr (mkPrepared (BodyUpstream reads) false reason))
      else
        let lim := rule.(MaxBufferedResponseBodyBytes) in
        if lim <? resp.(RespContentLength)
        then Some (mem, inr (mkPrepared (BodyUpstream reads) false "response_body_too_large"))
        else match mem.(replayBudget) with
        | None => Some (mem, inr (mkPrepared (BodyUpstream reads) false "response_buffer_unavailable"))
        | Some _ =>
            let reservationBytes := if 0 <=? resp.(RespContentLength) then resp.(RespContentLength) else lim in
            match publicRetryResponseWorkingBytes reservationBytes with
            | None => Some (mem, inr (mkPrepared (BodyUpstream reads) false "response_buffer_budget_exhausted"))
            | Some workingBytes =>
                match tryAcquireRetryReplayReservation mem reservationBytes workingBytes with
                | (mem, None) =>
                    Some (mem, inr (mkPrepared (BodyUpstream reads) false "response_buffer_budget_exhausted"))
                | (mem, Some h) =>
                    match readPublicRetryResponseBodyBeforeDeadline reads resp.(RespContentLength) lim resp.(respEvents) with
                    | None => None
                    | Some (ReadFailed e) => Some (releaseHandleBudget mem h, inl e)
                    | Some (ReadPartial prefix tail chunks skip) =>
                        Some (mem, inr (mkPrepared (BodyPrefixed (BytesReader prefix :: tail) chunks h) false skip))
                    | Some (ReadComplete prefix) => Some (mem, inr (mkPrepared (BodyWhole prefix h) true ""))
                    end
                end
            end
        end
      | None => Some (mem, inr (mkPrepared (BodyUpstream reads) false reason))
      end
  end.
End response.

(** ** Lemmas: the budget *)

Definition isCallOk (c : call) : Prop := match c with Loading n | Loaded n _ => 0 < n ∧ in_i64 n end.

Definition budgetInv (lim : Z) (s : budgetState) : Prop :=
  s.(budget).(limit) = lim ∧ s.(budget).(used) = msum (reservedBytes <$> s.(reservations)) ∧
  0 ≤ s.(budget).(used) ≤ lim ∧ map_Forall (λ _ r, 0 < reservedBytes r) s.(reservations) ∧
  map_Forall (λ _ c, isCallOk c ∧ match c with Loaded n seen => n ≤ lim - seen | _ => True end) s.(calls) ∧
  (∀ id, is_Some (s.(calls) !! id) → s.(reservations) !! id = None).

Lemma reserved_nonneg (m : gmap Z reservation) : map_Forall (λ _ r, 0 < reservedBytes r) m →
  0 ≤ msum (reservedBytes <$> m).
Proof. intros H. apply msum_nonneg, map_Forall_fmap. eapply map_Forall_impl; [exact H|]. simpl. lia. Qed.

Lemma calls_insert_ok lim (cs : gmap Z call) id c :
  map_Forall (λ _ c, isCallOk c ∧ match c with Loaded n seen => n ≤ lim - seen | _ => True end) cs →
  isCallOk c → match c with Loaded n seen => n ≤ lim - seen | _ => True end →
  map_Forall (λ _ c, isCallOk c ∧ match c with Loaded n seen => n ≤ lim - seen | _ => True end) (<[id := c]> cs).
Proof. intros H1 H2 H3. apply map_Forall_insert_2; [done|done]. Qed.

Lemma budgetInv_call lim s id size : budgetInv lim s → s.(calls) !! id = None → s.(reservations) !! id = None →
  in_i64 size → budgetInv lim (stepCall s id size).
Proof.
  intros (H1 & H2 & H3 & H4 & H5 & H6) Hc Hr Hs. unfold stepCall. destruct (Z.leb_spec size 0); [done|].
  split_and!; cbn; try done; try lia.
  - apply calls_insert_ok; [done|done|done].
  - intros id' Hid. destruct (decide (id' = id)) as [->|Hne]; [done|]. rewrite lookup_insert_ne in Hid by done. auto.
Qed.

Lemma budgetInv_load lim s id : in_i64 lim → budgetInv lim s → budgetInv lim (stepLoad s id).
Proof.
  intros Hl (H1 & H2 & H3 & H4 & H5 & H6). unfold stepLoad. destruct (s.(calls) !! id) as [[size|size seen]|] eqn:Ec; try done.
  pose proof (H5 _ _ Ec) as [Hok _]. simpl in Hok. rewrite H1, i64_id by (unfold in_i64, min_int64, max_int64 in *; lia).
  destruct (Z.ltb_spec (lim - s.(budget).(used)) size) as [Hlt|Hge]; split_and!; cbn; try done; try lia.
  - by apply map_Forall_delete.
  - intros id' Hid. apply H6. rewrite lookup_delete_is_Some in Hid. tauto.
  - apply calls_insert_ok; [done|done|]. lia.
  - intros id' Hid. apply H6. destruct (decide (id' = id)) as [->|Hne]; [by rewrite Ec|]. by rewrite lookup_insert_ne in Hid.
Qed.

Lemma budgetInv_swap lim s id : in_i64 lim → budgetInv lim s → budgetInv lim (stepSwap s id).
Proof.
  intros Hl (H1 & H2 & H3 & H4 & H5 & H6). unfold stepSwap. destruct (s.(calls) !! id) as [[size|size seen]|] eqn:Ec; try done.
  pose proof (H5 _ _ Ec) as [Hok Hroom]. simpl in Hok. pose proof (H6 id ltac:(by rewrite Ec)) as Hr.
  destruct (Z.eqb_spec s.(budget).(used) seen) as [<-|Hne].
  - rewrite i64_id by (unfold in_i64, min_int64, max_int64 in *; lia). split_and!; cbn; try done; try lia.
    + rewrite fmap_insert, msum_insert_fresh by (by rewrite lookup_fmap, Hr). simpl. lia.
    + apply map_Forall_insert_2; [simpl; lia|done].
    + by apply map_Forall_delete.
    + intros id' Hid. rewrite lookup_delete_is_Some in Hid. destruct Hid as [Hne Hid]. rewrite lookup_insert_ne by done. auto.
  - split_and!; cbn; try done; try lia.
    + apply calls_insert_ok; [done|done|done].
    + intros id' Hid. apply H6. destruct (decide (id' = id)) as [->|Hne']; [by rewrite Ec|]. by rewrite lookup_insert_ne in Hid.
Qed.

Lemma budgetInv_release lim s id : budgetInv lim s → budgetInv lim (stepRelease s id).
Proof.
  intros (H1 & H2 & H3 & H4 & H5 & H6). unfold stepRelease. destruct (s.(reservations) !! id) as [[size|size]|] eqn:Er; try done.
  split_and!; cbn; try done; try lia.
  - rewrite fmap_insert, msum_insert, lookup_fmap, Er. simpl. lia.
  - apply map_Forall_insert_2; [|done]. pose proof (H4 _ _ Er) as H. exact H.
  - intros id' Hid. specialize (H6 id' Hid). rewrite lookup_insert_ne; [done|]. intros ->. congruence.
Qed.

Lemma budgetInv_subtract lim s id : in_i64 lim → budgetInv lim s → budgetInv lim (stepSubtract s id).
Proof.
  intros Hl (H1 & H2 & H3 & H4 & H5 & H6). unfold stepSubtract. destruct (s.(reservations) !! id) as [[size|size]|] eqn:Er; try done.
  pose proof (H4 _ _ Er) as Hpos. simpl in Hpos.
  assert (Hsub : msum (reservedBytes <$> delete id s.(reservations)) = s.(budget).(used) - size).
  { rewrite fmap_delete, msum_delete, lookup_fmap, Er. simpl. lia. }
  pose proof (reserved_nonneg (delete id s.(reservations)) ltac:(by apply map_Forall_delete)) as Hge.
  split_and!; cbn; try done.
  - rewrite i64_id by (unfold in_i64, min_int64, max_int64 in *; lia). lia.
  - rewrite i64_id by (unfold in_i64, min_int64, max_int64 in *; lia). lia.
  - rewrite i64_id by (unfold in_i64, min_int64, max_int64 in *; lia). lia.
  - by apply map_Forall_delete.
  - intros id' Hid. specialize (H6 id' Hid). rewrite lookup_delete_ne; [done|]. intros ->. congruence.
Qed.

Lemma budgetInv_step lim s s' : in_i64 lim → budgetStep s s' → budgetInv lim s → budgetInv lim s'.
Proof.
  intros Hl [] Hs; [by apply budgetInv_call|by apply budgetInv_load|by apply budgetInv_swap|by apply budgetInv_release|
    by apply budgetInv_subtract].
Qed.

Lemma newBudget_limit l : in_i64 l → 0 < (newRetryReplayBudget l).(limit) ∧ in_i64 (newRetryReplayBudget l).(limit).
Proof.
  intros H. unfold newRetryReplayBudget. cbn. destruct (Z.leb_spec l 0); [|done].
  unfold defaultPublicRetryReplayBudgetBytes, in_i64, min_int64, max_int64. lia.
Qed.

(** Taking and giving back. *)
Lemma release_acquire b size b' bytes : in_i64 b.(used) → tryAcquire b size = Some (b', bytes) → releaseBudget b' bytes = b.
Proof.
  intros Hu. unfold tryAcquire, releaseBudget. case_if E1.
  { intros [= <- <-]. destruct b. cbn in *. by rewrite Z.sub_0_r, i64_id. }
  case_if E2; [done|]. intros [= <- <-]. cbn. destruct b as [l u]. cbn in *. f_equal.
  unfold i64, in_i64, two63, two64, min_int64, max_int64 in *.
  replace ((u + size + 9223372036854775808) mod 18446744073709551616 - 9223372036854775808 - size + 9223372036854775808)
    with ((u + size + 9223372036854775808) mod 18446744073709551616 - size) by lia.
  rewrite Zminus_mod_idemp_l. replace (u + size + 9223372036854775808 - size) with (u + 9223372036854775808) by lia.
  rewrite Z.mod_small; lia.
Qed.

(** ** Lemmas: the request body *)

(** net/http delivers no more of a body than its declared length. *)
Definition framed (req : retryRequest) : Prop :=
  ∀ s, req.(Body) = Some s → 0 < req.(ContentLength) → Z.of_nat (length s.(streamBytes)) ≤ req.(ContentLength).

Section prepare.
Context {M : Type} `{ReplayResources M}.
Implicit Types mem : replayMemory M.

(** The ways preparation ends: without a reservation the body is passed on as it is. *)
Lemma prepare_cases mem req rule s : req.(Body) = Some s →
  (∃ mem', preparePublicRetryRequestBody mem req rule = (mem', inr (mkRequestBody (Some s) [] false false None))) ∨
  ∃ r n k mem' h, rule = Some r ∧ replaySizes req rule = Some (n, k) ∧
    (∃ w, tryAcquireRetryReplayReservation mem n w = (mem', Some h)) ∧
    let err := match (readAllLimited k s).2 with
      | Some e => Some e
      | None => if (0 <? req.(ContentLength)) && negb (Z.of_nat (length (readAllLimited k s).1) =? req.(ContentLength))
                then Some ErrUnexpectedEOF else None
      end in
    preparePublicRetryRequestBody mem req rule =
      match err with
      | Some e => (releaseHandle mem' h, inl e)
      | None =>
          let prefix := (readAllLimited k s).1 in
          if r.(MaxReplayBodyBytes) <? Z.of_nat (length prefix)
          then (mem', inr (mkRequestBody (Some (mkStream (prefix ++ drop (length prefix) s.(streamBytes)) s.(streamErr)
                  s.(streamCloseErr))) [] false false (Some h)))
          else match s.(streamCloseErr) with
               | Some e => (releaseHandle mem' h, inl e)
               | None => (mem', inr (mkRequestBody None prefix true false (Some h)))
               end
      end.
Proof.
  intros Hb. unfold preparePublicRetryRequestBody. rewrite Hb.
  destruct (replaySizes req rule) as [[n k]|] eqn:Es; [|by left; exists mem].
  destruct rule as [r|]; [|done]. destruct (publicRetryRequestWorkingBytes k) as [w|]; [|by left; exists mem].
  destruct (tryAcquireRetryReplayReservation mem n w) as [mem' [h|]] eqn:Ea; [|left; by exists mem'].
  right. exists r, n, k, mem', h. split_and!; [done|done|by exists w|]. cbv zeta.
  by destruct (readAllLimited k s) as [prefix err].
Qed.

Lemma readAllLimited_prefix k s : ∃ rest, s.(streamBytes) = (readAllLimited k s).1 ++ rest ∧
  drop (length (readAllLimited k s).1) s.(streamBytes) = rest.
Proof.
  unfold readAllLimited. destruct (Z.leb_spec k (Z.of_nat (length s.(streamBytes)))); cbn [fst].
  - exists (drop (Z.to_nat k) s.(streamBytes)). rewrite take_drop. split; [done|]. rewrite length_take. f_equal. lia.
  - exists []. rewrite app_nil_r, drop_all. done.
Qed.

(** Whatever preparation does, the first attempt is offered the whole body; a body that
    can be replayed was read to its end. *)
Lemma prepare_whole mem req rule mem' b : framed req → preparePublicRetryRequestBody mem req rule = (mem', inr b) →
  next b = Some (match req.(Body) with None => [] | Some s => s.(streamBytes) end) ∧
  b.(bodyless) = match req.(Body) with None => true | Some _ => false end ∧
  (b.(replayable) = true → b.(bodyless) = false → ∃ s, req.(Body) = Some s ∧ b.(buffered) = s.(streamBytes) ∧ b.(original) = None).
Proof.
  unfold framed. intros Hfr. destruct req.(Body) as [s|] eqn:Eb.
  2:{ unfold preparePublicRetryRequestBody. rewrite Eb. intros [= <- <-]. cbn. done. }
  destruct (prepare_cases mem req rule s Eb) as [[m1 ->]|(r & n & k & m1 & h & -> & Es & _ & ->)].
  { intros [= <- <-]. done. }
  cbv zeta. destruct (readAllLimited_prefix k s) as (rest & E1 & E2). intros Hp.
  set (err := match (readAllLimited k s).2 with Some e => Some e | None => _ end) in Hp.
  destruct err as [e|] eqn:Ee; [discriminate Hp|]. subst err. destruct (Z.ltb_spec r.(MaxReplayBodyBytes) (Z.of_nat (length (readAllLimited k s).1))) as [Hlt|Hge].
  - injection Hp as <- <-. cbn. split_and!; [by rewrite E2, <- E1|done|done].
  - destruct s.(streamCloseErr); [done|]. injection Hp as <- <-. cbn.
    assert (Hwhole : (readAllLimited k s).1 = s.(streamBytes)).
    { unfold replaySizes in Es. destruct (negb _ || _); [done|]. destruct (Z.ltb_spec r.(MaxReplayBodyBytes) req.(ContentLength)); [done|].
      unfold readAllLimited in *. destruct (Z.leb_spec k (Z.of_nat (length s.(streamBytes)))) as [Hk|Hk]; [|done]. cbn [fst snd] in *.
      rewrite length_take in Hge, Ee. destruct (Z.ltb_spec 0 req.(ContentLength)).
      - injection Es as <- <-. apply take_ge. specialize (Hfr s eq_refl). lia.
      - destruct (Z.eqb_spec r.(MaxReplayBodyBytes) max_int64); [done|]. injection Es as <- <-. lia. }
    rewrite Hwhole. split_and!; [done|done|]. intros _ _. by exists s.
Qed.
End prepare.

(** ** Lemmas: the response body *)

(** The bytes and the error that a list of chunks, or of reads, delivers. *)
Fixpoint chunkBytes (cs : list publicRetryResponseChunk) : list byte :=
  match cs with
  | [] => []
  | c :: cs => c.(data) ++ match c.(chunkErr) with Some _ => [] | None => chunkBytes cs end
  end.
Fixpoint chunkEnd (cs : list publicRetryResponseChunk) : option retryError :=
  match cs with
  | [] => None
  | c :: cs => match c.(chunkErr) with Some e => Some e | None => chunkEnd cs end
  end.
Fixpoint sourceBytes (reads : list sourceRead) : list byte :=
  match reads with
  | SourceRead d None :: reads => d ++ sourceBytes reads
  | SourceRead d (Some _) :: _ => d
  | _ => []
  end.
Fixpoint sourceEnd (reads : list sourceRead) : option retryError :=
  match reads with
  | SourceRead _ None :: reads => sourceEnd reads
  | SourceRead _ (Some e) :: _ => Some e
  | SourceBadCount :: _ => Some plainError
  | [] => None
  end.

(** The pump passes the bytes of the source on, and a clean end only with all of them. *)
Lemma pumpRun_bytes reads : ∀ k, chunkBytes (pumpRun k reads) `prefix_of` sourceBytes reads ∧
  ∀ e, chunkEnd (pumpRun k reads) = Some e → cleanEnd e = true →
    chunkBytes (pumpRun k reads) = sourceBytes reads ∧ sourceEnd reads = Some e.
Proof.
  induction reads as [|[d err|] reads IH]; intros k; cbn [pumpRun sourceBytes sourceEnd].
  - split; [done|]. done.
  - destruct d as [|b d], err as [e|]; cbn [andb].
    + cbn. split; [done|]. intros e' [= <-] _. done.
    + destruct (100 <=? S k)%nat; cbn -[pumpRun].
      * split; [apply prefix_nil|]. intros e' [= <-]. done.
      * apply IH.
    + cbn. rewrite app_nil_r. split; [done|]. intros e' [= <-] _. done.
    + cbn -[pumpRun]. destruct (IH 0%nat) as [IH1 IH2]. split; [by apply prefix_cons, prefix_app|].
      intros e' He Hc. destruct (IH2 e' He Hc) as [-> ->]. done.
  - cbn. split; [done|]. intros e' [= <-]. done.
Qed.

(** An error that is identical to io.EOF is io.EOF. *)
Definition eofErrors (reads : list sourceRead) : Prop :=
  ∀ d e, SourceRead d (Some e) ∈ reads → e.(sameEOF) = true → e = EOF.

Lemma pumpRun_end reads : ∀ k e, chunkEnd (pumpRun k reads) = Some e → e = plainError ∨ ∃ d, SourceRead d (Some e) ∈ reads.
Proof.
  induction reads as [|[d err|] reads IH]; intros k e; cbn [pumpRun]; [done| |].
  - assert (Hstep : ∀ k', chunkEnd (pumpRun k' reads) = Some e → e = plainError ∨ ∃ d', SourceRead d' (Some e) ∈ SourceRead d err :: reads).
    { intros k' H. destruct (IH _ _ H) as [->|[d' Hd]]; [by left|]. right. exists d'. by right. }
    destruct d as [|b d], err as [e'|]; cbn [andb].
    + cbn. intros [= ->]. right. eexists. by left.
    + destruct (100 <=? S k)%nat; cbn -[pumpRun]; [intros [= <-]; by left|apply Hstep].
    + cbn. intros [= ->]. right. eexists. by left.
    + cbn -[pumpRun]. apply Hstep.
  - cbn. intros [= <-]. by left.
Qed.

Definition pumpPending (p : publicRetryResponsePump) : list byte :=
  p.(current) ++ match p.(currentErr) with Some _ => [] | None => if p.(finished) then [] else chunkBytes p.(chunks) end.
Definition pumpEnd (p : publicRetryResponsePump) : option retryError :=
  match p.(currentErr) with Some e => Some e | None => if p.(finished) then Some EOF else chunkEnd p.(chunks) end.

(** A Read of an open pump: no byte is lost, and an error comes after the last one. *)
Definition readsFrom (p : publicRetryResponsePump) (out : list byte) (err : option retryError) (p' : publicRetryResponsePump)
    : Prop :=
  out ++ pumpPending p' = pumpPending p ∧ p'.(closed) = false ∧
  match err with Some e => pumpPending p' = [] ∧ pumpEnd p = Some e | None => pumpEnd p' = pumpEnd p end.

Lemma pumpReadFrom_current pd n b cur curErr fin rest out err p' :
  pumpReadFrom pd false n (b :: cur) curErr fin rest = Some (out, err, p') →
  readsFrom (mkPump (b :: cur) curErr fin false rest) out err p'.
Proof.
  intros E. assert (E' : match drop n (b :: cur), curErr with
    | [], Some e => Some (take n (b :: cur), Some e, mkPump [] None true false rest)
    | _, _ => Some (take n (b :: cur), None, mkPump (drop n (b :: cur)) curErr fin false rest) end = Some (out, err, p'))
    by by destruct rest. clear E.
  pose proof (take_drop n (b :: cur)) as Htd. revert Htd E'. generalize (take n (b :: cur)) as t. intros t Htd E'.
  unfold readsFrom, pumpPending, pumpEnd. cbn [current currentErr finished chunks closed].
  destruct (drop n (b :: cur)) as [|b' cur'], curErr as [e|]; injection E' as <- <- <-; cbn [current currentErr finished chunks closed];
    (split; [|done]); rewrite <- Htd; rewrite ?app_nil_r, <- ?app_assoc; done.
Qed.

Lemma pumpReadFrom_spec pd n rest : ∀ cur curErr fin out err p',
  pumpReadFrom pd false n cur curErr fin rest = Some (out, err, p') →
  readsFrom (mkPump cur curErr fin false rest) out err p'.
Proof.
  induction rest as [|c rest IH]; intros [|b cur] curErr fin out err p'; try apply pumpReadFrom_current; cbn [pumpReadFrom andb].
  - destruct curErr as [e|]; [by intros [= <- <- <-]|]. destruct fin; [by intros [= <- <- <-]|done].
  - destruct curErr as [e|]; [by intros [= <- <- <-]|]. destruct fin; [by intros [= <- <- <-]|].
    intros E. apply IH in E. unfold readsFrom, pumpPending, pumpEnd in *. cbn [current currentErr finished chunks closed] in *.
    cbn [chunkBytes chunkEnd app]. destruct c.(chunkErr); done.
Qed.

(** The readers of a response: any number of byte readers, then the pump or an error. *)
Fixpoint okReaders (rs : list reader) : bool :=
  match rs with
  | [] => true
  | BytesReader _ :: rs => okReaders rs
  | (PumpReader | ErrorReader _) :: rs => match rs with [] => true | _ => false end
  end.
Fixpoint pending (rs : list reader) (p : publicRetryResponsePump) : list byte :=
  match rs with
  | [] => []
  | BytesReader l :: rs => l ++ pending rs p
  | PumpReader :: _ => pumpPending p
  | ErrorReader _ :: _ => []
  end.
Fixpoint readersEnd (rs : list reader) (p : publicRetryResponsePump) : option retryError :=
  match rs with
  | [] => Some EOF
  | BytesReader _ :: rs => readersEnd rs p
  | PumpReader :: _ => pumpEnd p
  | ErrorReader e :: _ => Some e
  end.

(** The error a reader sees stands for the error at the end. *)
Definition endsAs (e : retryError) (last : option retryError) : Prop :=
  ∃ e', last = Some e' ∧ (e = e' ∨ e'.(sameEOF) = true ∧ e = EOF).

Lemma multiRead_spec pd n rs : (0 < n)%nat → ∀ p out err rs' p', okReaders rs = true → p.(closed) = false →
  multiRead pd n rs p = Some (out, err, rs', p') →
  out ++ pending rs' p' = pending rs p ∧ okReaders rs' = true ∧ p'.(closed) = false ∧
  match err with
  | Some e => pending rs' p' = [] ∧ endsAs e (readersEnd rs p)
  | None => readersEnd rs' p' = readersEnd rs p
  end.
Proof.
  intros Hn. induction rs as [|r rs IH]; intros p out err rs' p' Hok Hc; cbn [multiRead].
  { intros [= <- <- <- <-]. split_and!; [done|done|done|done|]. exists EOF. auto. }
  destruct r as [[|b l]| |e]; cbn [readerRead].
  - cbn [isSameEOF EOF sameEOF]. apply IH; done.
  - cbn [isSameEOF]. intros [= <- <- <- <-]. cbn [pending okReaders readersEnd]. rewrite app_assoc, take_drop. done.
  - cbn [okReaders] in Hok. destruct rs; [|done]. unfold pumpRead. replace (n =? 0)%nat with false by (symmetry; by apply Nat.eqb_neq; lia).
    rewrite Hc. destruct (pumpReadFrom pd false n _ _ _ _) as [[[o er] q]|] eqn:E; [|done].
    apply pumpReadFrom_spec in E. assert (Hp : mkPump p.(current) p.(currentErr) p.(finished) false p.(chunks) = p)
      by (destruct p; cbn in *; by rewrite Hc). rewrite Hp in E. destruct E as (E1 & E2 & E3).
    destruct er as [er|]; cbn [isSameEOF].
    + destruct E3 as [E3 E4]. rewrite E3, app_nil_r in E1. destruct er.(sameEOF) eqn:Es.
      * destruct o; cbn [multiRead]; intros [= <- <- <- <-]; cbn [pending okReaders readersEnd]; rewrite ?app_nil_r;
          (split_and!; [done|done|done|done|]); exists er; auto.
      * intros [= <- <- <- <-]. cbn [pending okReaders readersEnd]. rewrite E3, app_nil_r. split_and!; [done|done|done|done|].
        exists er. auto.
    + intros [= <- <- <- <-]. cbn [pending okReaders readersEnd]. done.
  - cbn [okReaders] in Hok. destruct rs; [|done]. cbn [isSameEOF]. destruct e.(sameEOF) eqn:Es; cbn [multiRead];
      intros [= <- <- <- <-]; cbn [pending okReaders readersEnd]; (split_and!; [done|done|done|done|]); exists e; auto.
Qed.

(** The consumer of a response: Reads of these sizes until an error. *)
Fixpoint drain (sizes : list nat) (rs : list reader) (p : publicRetryResponsePump) : list byte * option retryError :=
  match sizes with
  | [] => ([], None)
  | n :: sizes =>
      match multiRead false n rs p with
      | None => ([], None)
      | Some (out, Some e, _, _) => (out, Some e)
      | Some (out, None, rs, p) => let '(more, err) := drain sizes rs p in (out ++ more, err)
      end
  end.

Lemma drain_spec sizes : Forall (λ n, 0 < n)%nat sizes → ∀ rs p out err, okReaders rs = true → p.(closed) = false →
  drain sizes rs p = (out, err) →
  out `prefix_of` pending rs p ∧ ∀ e, err = Some e → out = pending rs p ∧ endsAs e (readersEnd rs p).
Proof.
  induction 1 as [|n sizes Hn Hs IH]; intros rs p out err Hok Hc; cbn [drain].
  { intros [= <- <-]. split; [apply prefix_nil|done]. }
  destruct (multiRead false n rs p) as [[[[o er] rs'] p']|] eqn:E; [|intros [= <- <-]; split; [apply prefix_nil|done]].
  apply multiRead_spec in E as (E1 & E2 & E3 & E4); [|done|done|done]. rewrite <- E1. destruct er as [e|].
  - intros [= <- <-]. destruct E4 as [-> E4]. rewrite app_nil_r. split; [done|]. by intros e' [= <-].
  - destruct (drain sizes rs' p') as [more err'] eqn:Ed. intros [= <- <-].
    destruct (IH rs' p' more err' E2 E3 Ed) as [IH1 IH2]. split; [by apply prefix_app|].
    intros e He. destruct (IH2 e He) as [-> Hend]. by rewrite <- E4.
Qed.

(** What the loop owes: the bytes read ahead and the readers left hold all bytes and end as
    the chunks end; what is kept stays within the limit. *)
Definition aheadOk (contentLength lim : Z) (before : list byte) (cs : list publicRetryResponseChunk) (out : readAhead) : Prop :=
  match out with
  | ReadFailed _ => True
  | ReadComplete prefix =>
      prefix = before ++ chunkBytes cs ∧ Z.of_nat (length prefix) ≤ lim ∧
      (0 ≤ contentLength → Z.of_nat (length prefix) = contentLength) ∧
      ∃ e, chunkEnd cs = Some e ∧ cleanEnd e = true
  | ReadPartial prefix tail rest _ =>
      prefix ++ pending tail (newPublicRetryResponsePump rest) = before ++ chunkBytes cs ∧
      Z.of_nat (length prefix) ≤ lim ∧
      (0 ≤ contentLength → Z.of_nat (length prefix) ≤ Z.max contentLength (Z.of_nat (length before))) ∧ okReaders tail = true ∧
      (readersEnd tail (newPublicRetryResponsePump rest) = chunkEnd cs ∨
       readersEnd tail (newPublicRetryResponsePump rest) = Some EOF ∧ ∃ e, chunkEnd cs = Some e ∧ cleanEnd e = true)
  end.

Lemma takeChunk_ok contentLength lim before c cs : Z.of_nat (length before) ≤ lim →
  match takeChunk contentLength lim before c cs with
  | inl out => aheadOk contentLength lim before (c :: cs) out
  | inr prefix => prefix = before ++ c.(data) ∧ c.(chunkErr) = None ∧ Z.of_nat (length prefix) ≤ lim ∧
      (0 ≤ contentLength → Z.of_nat (length prefix) ≤ Z.max contentLength (Z.of_nat (length before)))
  end.
Proof.
  intros Hl. unfold takeChunk. cbv zeta. case_if E1; [done|]. apply andb_false_iff in E1. rewrite andb_false_iff in E1.
  case_if E2.
  - apply Z.ltb_lt in E2. set (room := lim - Z.of_nat (length before)) in *. set (k := Z.to_nat room).
    assert (Hk : (k ≤ length c.(data))%nat) by lia.
    assert (Hlen : Z.of_nat (length (before ++ take k c.(data))) = lim) by (rewrite length_app, length_take; lia).
    cbn [aheadOk chunkBytes chunkEnd]. rewrite Hlen.
    destruct c.(chunkErr) as [e|] eqn:Ee; [destruct (cleanEnd e) eqn:Ec|]; cbn [pending okReaders readersEnd];
      rewrite <- ?app_assoc, ?app_nil_r, ?(app_assoc (take k _)), ?take_drop, ?app_nil_r;
      split_and!; try done; try lia; eauto 6.
  - apply Z.ltb_ge in E2.
    assert (Hlen : Z.of_nat (length (before ++ c.(data))) = Z.of_nat (length before) + Z.of_nat (length c.(data)))
      by (rewrite length_app; lia).
    destruct c.(chunkErr) as [e|] eqn:Ee; [|split_and!; [done|done|lia|lia]].
    destruct (cleanEnd e) eqn:Ec; [|done]. case_if E3; [done|]. cbn [aheadOk chunkBytes chunkEnd]. rewrite Ee, app_nil_r.
    split_and!; [done|lia| |by exists e]. lia.
Qed.

Lemma readLoop_ok events : ∀ armed contentLength lim before cs out, Z.of_nat (length before) ≤ lim →
  readLoop armed contentLength lim before events cs = Some out → aheadOk contentLength lim before cs out.
Proof.
  induction events as [|ev events IH]; intros armed cl lim before cs out Hl; [done|].
  assert (Hchunk : ∀ c rest armed', match takeChunk cl lim before c rest with
      | inl out => Some out | inr prefix => readLoop armed' cl lim prefix events rest end = Some out →
      aheadOk cl lim before (c :: rest) out).
  { intros c rest armed' H. pose proof (takeChunk_ok cl lim before c rest Hl) as Ht.
    destruct (takeChunk cl lim before c rest) as [o|prefix]; [by injection H as <-|].
    destruct Ht as (-> & Ee & Hlen & Hmax). apply IH in H; [|done]. unfold aheadOk in *. destruct out as [e|pre|pre tail rs sk]; [done| |].
    - cbn [chunkBytes chunkEnd]. rewrite Ee. by rewrite <- app_assoc in H.
    - cbn [chunkBytes chunkEnd]. rewrite Ee. rewrite <- app_assoc in H. destruct H as (H1 & H2 & H3 & H4 & H5).
      split_and!; [done|done| |done|done]. intros Hc. specialize (H3 Hc). specialize (Hmax Hc). lia. }
  destruct ev as [err|[]|]; cbn [readLoop].
  - by intros [= <-].
  - destruct armed; [|done]. destruct cs as [|c rest]; [done|]. apply Hchunk.
  - destruct armed; [|done]. intros [= <-]. cbn [aheadOk pending okReaders readersEnd]. split_and!; [done|done|lia|done|by left].
  - destruct cs as [|c rest]; [done|]. apply Hchunk.
Qed.

(** The buffered prefix is never longer than what was reserved for it. *)
Lemma readAhead_within reads contentLength lim events prefix tail rest skip : 0 < lim → contentLength ≤ lim →
  readPublicRetryResponseBodyBeforeDeadline reads contentLength lim events = Some (ReadPartial prefix tail rest skip) →
  Z.of_nat (length prefix) ≤ (if 0 <=? contentLength then contentLength else lim).
Proof.
  intros Hl Hc. unfold readPublicRetryResponseBodyBeforeDeadline. destruct (Z.leb_spec lim 0) as [Hle|_]; [lia|]. intros H.
  apply readLoop_ok in H; [|simpl; lia]. destruct H as (_ & H1 & H2 & _). simpl in H2. destruct (Z.leb_spec 0 contentLength); lia.
Qed.

(** ** The properties *)

(** Whatever the interleaving of the loads, swaps and releases of all goroutines, the
    counter of the replay budget is the sum of the reservations not yet given back, and it
    stays between zero and the limit. *)
Theorem retry_budget_exact (configured : Z) (s : budgetState) :
  in_i64 configured → rtc budgetStep (newBudgetState configured) s →
  s.(budget).(used) = msum (reservedBytes <$> s.(reservations)) ∧
  0 ≤ s.(budget).(used) ≤ (newRetryReplayBudget configured).(limit) ∧
  s.(budget).(limit) = (newRetryReplayBudget configured).(limit).
Proof.
  intros Hc Hr. pose proof (newBudget_limit configured Hc) as [Hpos Hin].
  assert (Hinv : budgetInv (newRetryReplayBudget configured).(limit) s).
  { eapply (rtc_invariant budgetStep); [|exact Hr|].
    - intros x y Hxy. by apply budgetInv_step.
    - unfold newBudgetState, budgetInv. cbn [budget calls reservations].
      split_and!; [done|by rewrite fmap_empty|done|cbn in *; lia|apply map_Forall_empty|apply map_Forall_empty|].
      intros id [? Hid]. by rewrite lookup_empty in Hid. }
  destruct Hinv as (H1 & H2 & H3 & _). done.
Qed.

(** However often and in whatever order the consumer and the pump of a response report
    that they are done, the payload budget is given back exactly once, by the consumer,
    and the working memory exactly once, when both have reported. *)
Theorem retry_reservation_once (calls : list callback) :
  let c := fold_left runCallback calls publicRetryResponseReservationCallbacks in
  c.(budgetReleases) = (if existsb (λ k, match k with ConsumerDone => true | _ => false end) calls then 1 else 0)%nat ∧
  c.(resourceReleases) = (if existsb (λ k, match k with ConsumerDone => true | _ => false end) calls
    && existsb (λ k, match k with PumpDone => true | _ => false end) calls then 1 else 0)%nat.
Proof.
  assert (Hinv : ∀ calls : list callback, let c := fold_left runCallback calls publicRetryResponseReservationCallbacks in
    let cons := existsb (λ k, match k with ConsumerDone => true | _ => false end) calls in
    let pump := existsb (λ k, match k with PumpDone => true | _ => false end) calls in
    c = mkCallbacks (2 - (if cons then 1 else 0) - (if pump then 1 else 0)) cons pump (if cons then 1 else 0)%nat
          (if cons && pump then 1 else 0)%nat).
  { clear calls. intros calls. induction calls as [|k calls IH] using rev_ind; [done|].
    cbv zeta in *. rewrite fold_left_app, !existsb_app, IH. cbn [fold_left existsb].
    by destruct k, (existsb (λ k, match k with ConsumerDone => true | _ => false end) calls),
      (existsb (λ k, match k with PumpDone => true | _ => false end) calls). }
  specialize (Hinv calls). cbv zeta in *. by rewrite Hinv.
Qed.

(** C19: Reading a response ahead loses, repeats and reorders nothing, for every schedule of
    the timer and the chunks: a buffered response is everything the upstream sent, ended
    cleanly and is as long as announced; otherwise what the client reads, in Reads of any
    sizes, is always a prefix of what the upstream sent, and it sees a clean end only if
    that is everything and the upstream ended cleanly.  At most [lim] bytes are kept. *)
Theorem retry_response_faithful reads contentLength lim events out :
  0 < lim → eofErrors reads → readPublicRetryResponseBodyBeforeDeadline reads contentLength lim events = Some out →
  match out with
  | ReadFailed _ => True
  | ReadComplete prefix =>
      prefix = sourceBytes reads ∧ Z.of_nat (length prefix) ≤ lim ∧
      (0 ≤ contentLength → Z.of_nat (length prefix) = contentLength) ∧ ∃ e, sourceEnd reads = Some e ∧ cleanEnd e = true
  | ReadPartial prefix tail rest _ =>
      Z.of_nat (length prefix) ≤ lim ∧
      ∀ sizes, Forall (λ n, 0 < n)%nat sizes →
        let '(bytes, err) := drain sizes (BytesReader prefix :: tail) (newPublicRetryResponsePump rest) in
        bytes `prefix_of` sourceBytes reads ∧
        ∀ e, err = Some e → cleanEnd e = true →
          bytes = sourceBytes reads ∧ ∃ e', sourceEnd reads = Some e' ∧ cleanEnd e' = true
  end.
Proof.
  intros Hl Heof. unfold readPublicRetryResponseBodyBeforeDeadline. destruct (Z.leb_spec lim 0) as [Hle|_]; [lia|]. intros H.
  apply readLoop_ok in H; [|simpl; lia]. destruct (pumpRun_bytes reads 0) as [Hpre Hend].
  set (cs := pumpRun 0 reads) in *. unfold aheadOk in H. destruct out as [e|prefix|prefix tail rest skip]; [done| |].
  - destruct H as (Hp & H1 & H2 & e & H3 & H4). destruct (Hend e H3 H4) as [E1 E2]. cbn [app] in Hp. rewrite E1 in Hp.
    split_and!; [done|done|done|by exists e].
  - destruct H as (H1 & H2 & H3 & H4 & H5). split; [done|]. intros sizes Hs.
    destruct (drain sizes _ _) as [bytes err] eqn:Ed. apply drain_spec in Ed as [E1 E2]; [|done|done|done].
    cbn [pending readersEnd app] in *. rewrite H1 in E1, E2. split; [by etrans|]. intros e He Hc.
    destruct (E2 e He) as [-> (e' & Ee' & Ha)].
    assert (Hcs : ∃ x, chunkEnd cs = Some x ∧ cleanEnd x = true).
    { destruct H5 as [H5|[_ H5]]; [|done]. rewrite H5 in Ee'. destruct Ha as [<-|[Ha ->]]; [by exists e|].
      exists e'. split; [done|]. destruct (pumpRun_end _ _ _ Ee') as [->|[d Hd]]; [done|]. by rewrite (Heof d e' Hd Ha). }
    destruct Hcs as (x & Hx & Hcx). destruct (Hend x Hx Hcx) as [Eb Es]. rewrite Eb. eauto.
Qed.

(** ** Examples *)

#[export] Instance freeResources : ReplayResources unit := {
  reserveResource m _ := (m, ResourceFree);
  releaseResource m _ := m }.

(** Two goroutines load the same counter; the swap of one fails and it takes another turn. *)
Definition exampleBudgetRun : budgetState :=
  stepSwap (stepSwap (stepLoad (stepLoad (stepCall (stepCall (newBudgetState 100) 1 30) 2 40) 1) 2) 1) 2.

Lemma retry_budget_exact_witness : exampleBudgetRun.(budget).(used) = 30 ∧
  exampleBudgetRun.(calls) = {[2 := Loading 40]}.
Proof.
  split; [|vm_compute; reflexivity].
  assert (H1 : in_i64 100) by (unfold in_i64, min_int64, max_int64; lia).
  assert (H30 : in_i64 30) by (unfold in_i64, min_int64, max_int64; lia).
  assert (H40 : in_i64 40) by (unfold in_i64, min_int64, max_int64; lia).
  assert (H2 : rtc budgetStep (newBudgetState 100) exampleBudgetRun).
  { eapply rtc_l; [apply (BudgetCall _ 1 30); [reflexivity|reflexivity|exact H30]|].
    eapply rtc_l; [apply (BudgetCall _ 2 40); [reflexivity|reflexivity|exact H40]|].
    eapply rtc_l; [apply (BudgetLoad _ 1)|]. eapply rtc_l; [apply (BudgetLoad _ 2)|].
    eapply rtc_l; [apply (BudgetSwap _ 1)|]. eapply rtc_l; [apply (BudgetSwap _ 2)|]. apply rtc_refl. }
  rewrite (proj1 (retry_budget_exact 100 exampleBudgetRun H1 H2)). vm_compute. reflexivity.
Defined.

Definition exampleReads : list sourceRead :=
  [SourceRead [Byte.x61; Byte.x62] None; SourceRead [] None; SourceRead [Byte.x63] (Some EOF)].

(** The limit cuts the second chunk; the client still reads all three bytes. *)
Lemma retry_response_faithful_witness :
  (drain [1; 5; 5; 5]%nat [BytesReader [Byte.x61; Byte.x62]; BytesReader [Byte.x63]] (newPublicRetryResponsePump [])).1
    `prefix_of` sourceBytes exampleReads.
Proof.
  assert (H1 : 0 < 2) by lia.
  assert (H2 : eofErrors exampleReads).
  { intros d e Hin Hs. unfold exampleReads in Hin. rewrite !elem_of_cons, elem_of_nil in Hin. by destruct Hin as [[=]|[[=]|[[=]|[]]]]. }
  assert (H3 : readPublicRetryResponseBodyBeforeDeadline exampleReads (-1) 2 [SelectChunk; SelectChunk]
    = Some (ReadPartial [Byte.x61; Byte.x62] [BytesReader [Byte.x63]] [] "response_body_too_large")) by (vm_compute; reflexivity).
  destruct (retry_response_faithful exampleReads (-1) 2 [SelectChunk; SelectChunk] _ H1 H2 H3) as [_ H].
  assert (H4 : Forall (λ n, 0 < n)%nat [1; 5; 5; 5]%nat) by (repeat constructor; lia).
  specialize (H [1; 5; 5; 5]%nat H4). destruct (drain _ _ _) as [bytes err]. exact (proj1 H).
Defined.

(** The one-shot timer: once it fired on a chunk that is not the last, the wait for the
    rest has no bound but the context. *)
Lemma wait_fires_once events : ∀ contentLength lim prefix cs pre tail rest,
  readLoop false contentLength lim prefix events cs ≠ Some (ReadPartial pre tail rest "response_buffer_wait_exceeded").
Proof.
  induction events as [|ev events IH]; intros cl lim prefix cs pre tail rest; [done|].
  destruct ev as [err|[]|]; cbn [readLoop]; try done. destruct cs as [|c cs]; [done|].
  destruct (takeChunk cl lim prefix c cs) as [out|prefix'] eqn:E; [|apply IH]. intros [= ->].
  unfold takeChunk in E. cbv zeta in E. case_hyp E; [done|]. case_hyp E; [done|]. destruct c.(chunkErr) as [e|]; [|done].
  destruct (cleanEnd e); [|done]. by case_hyp E.
Qed.
End RetryBuffers.
