(* ===== verification/RetryTransport.v ===== *)
(** The attempts of one public request (internal/server/public_retry_transport.go,
    publicAgentAttemptRoundTripper): the agents that are tried in turn, when a failure or a
    status leads to another attempt, and what becomes of the request body, of the active
    request of an agent and of the recorded result.

    What an attempt meets is the argument [world]: what the rest of the server did before
    it, the clock, the context, and the answer of the transports to the agent and the bytes
    offered.  A transport call is one event; its flags are those at its return, and it may
    take more bytes of the body it was given after that, as the contract of a RoundTripper
    allows ([oLate]): they are lost to the next call when both share the original body.  The
    wrappers around an attempt's body (counting, shaping) pass every byte on
    and are left out; so are tracing and logging.  [log] records what reached the outside. *)

From S2P Require Import Prelude.
From S2P Require Import GoStrings.
From S2P Require Import ClientIdentity.
From S2P Require Import WafCookies.
From S2P Require Import AgentHub.
From S2P Require Import TargetHealth.
From S2P Require Import Routing.
From S2P Require Import LoadBalancer.
From S2P Require Import TargetSelection.
From S2P Require Import RetryPolicy.
From S2P Require Import RetryBuffers.

Module RetryTransport.
Import TargetSelection.
Import RetryPolicy.
Import RetryBuffers.

(** ** Data *)

Record publicRetryAttemptResult := mkResult {
  Rule : option publicRetryRuleConfig;
  FinalAgent : option LoadBalancer.AgentConn;
  FirstFailedAgent : option LoadBalancer.AgentConn;
  RetryCount : Z;
  Outcome : string;
  FirstErrorKind : string;
  LastErrorKind : string;
  TerminalErrorKind : string;
  ReplaySkippedReason : string }.

Definition newResult (rule : option publicRetryRuleConfig) : publicRetryAttemptResult :=
  mkResult rule None None 0 "" "" "" "" "".

Definition setFinal (r : publicRetryAttemptResult) (agent : LoadBalancer.AgentConn) : publicRetryAttemptResult :=
  mkResult r.(Rule) (Some agent) r.(FirstFailedAgent) r.(RetryCount) r.(Outcome) r.(FirstErrorKind) r.(LastErrorKind)
    r.(TerminalErrorKind) r.(ReplaySkippedReason).
Definition setCount (r : publicRetryAttemptResult) (n : Z) : publicRetryAttemptResult :=
  mkResult r.(Rule) r.(FinalAgent) r.(FirstFailedAgent) n r.(Outcome) r.(FirstErrorKind) r.(LastErrorKind)
    r.(TerminalErrorKind) r.(ReplaySkippedReason).
Definition setOutcome (r : publicRetryAttemptResult) (outcome : string) : publicRetryAttemptResult :=
  mkResult r.(Rule) r.(FinalAgent) r.(FirstFailedAgent) r.(RetryCount) outcome r.(FirstErrorKind) r.(LastErrorKind)
    r.(TerminalErrorKind) r.(ReplaySkippedReason).
Definition setSkip (r : publicRetryAttemptResult) (reason : string) : publicRetryAttemptResult :=
  mkResult r.(Rule) r.(FinalAgent) r.(FirstFailedAgent) r.(RetryCount) r.(Outcome) r.(FirstErrorKind) r.(LastErrorKind)
    r.(TerminalErrorKind) reason.
Definition setTerminal (r : publicRetryAttemptResult) (kind : string) : publicRetryAttemptResult :=
  mkResult r.(Rule) r.(FinalAgent) r.(FirstFailedAgent) r.(RetryCount) r.(Outcome) r.(FirstErrorKind) r.(LastErrorKind)
    kind r.(ReplaySkippedReason).
(** The kind of a failure; the first one is kept, with its agent if it is to blame. *)
Definition setKind (r : publicRetryAttemptResult) (kind : string) (failed : option LoadBalancer.AgentConn)
    : publicRetryAttemptResult :=
  let first := String.eqb r.(FirstErrorKind) "" in
  mkResult r.(Rule) r.(FinalAgent)
    (if first then match failed with Some _ => failed | None => r.(FirstFailedAgent) end else r.(FirstFailedAgent))
    r.(RetryCount) r.(Outcome) (if first then kind else r.(FirstErrorKind)) kind r.(TerminalErrorKind)
    r.(ReplaySkippedReason).

(** What the request reports about its retries. *)
Record retryReport := mkReport {
  ReportResolution : publicRouteResolution;
  RetryRuleID : Z;
  RetryRuleName : string;
  ReportRetryCount : Z;
  RetryOutcome : string }.

Definition applyToResolution (r : publicRetryAttemptResult) (p : retryReport) : retryReport :=
  let res := p.(ReportResolution) in
  let res := match r.(FinalAgent) with
    | None => res
    | Some agent =>
        mkResolution res.(ResolvedListener) res.(ResolvedRoute) res.(ResolvedAction) res.(ResolvedDefault)
          res.(ResolvedTarget) (Some agent) res.(ResolvedRouteTargetID) (Some agent.(LoadBalancer.connAgentID))
    end in
  mkReport res
    (match r.(Rule) with Some rule => rule.(ID) | None => p.(RetryRuleID) end)
    (match r.(Rule) with Some rule => rule.(Name) | None => p.(RetryRuleName) end)
    r.(RetryCount) r.(Outcome).

Definition publicRetryRuleID (r : publicRetryAttemptResult) : option Z := ID <$> r.(Rule).

(** What a transport call returned, whether the request was written, how many bytes of the
    body were read, and how many it reads on after its return, before the next call. *)
Record attemptOutcome := mkOutcome {
  oResp : option response;
  oErr : option retryError;
  oWrote : bool;
  oRead : nat;
  oLate : nat }.

Inductive event :=
  | EvAttempt (agent : LoadBalancer.AgentConn) (attempt : Z)
  | EvSent (agent : LoadBalancer.AgentConn) (offered : list Byte.byte) (wrote : bool) (read : nat)
  | EvReclaim (crossSession : bool)
  | EvFallback (ok : bool)
  | EvTerminalCapacity
  | EvRetry (failed next : LoadBalancer.AgentConn) (attempt : Z) (errorKind : string).

(** How a request ends: an error, a response that streams (its body owns the request body
    and the active request), or a response that was read completely. *)
Inductive tripResult :=
  | TripError (err : retryError)
  | TripStream (resp : response) (body : preparedBody)
  | TripBuffered (resp : response) (body : preparedBody).

Definition errNoUntriedAgent : retryError :=
  mkRetryError "no untried agent is available" (mkAgentError None false) false false false false false false false false
    false None.
Definition errNoResponse : retryError :=
  mkRetryError "agent transport returned no response" (mkAgentError None false) false false false false false false false
    false false None.

Section roundtrip.
Context {R M : Type} `{ReplayResources M} (Intn Int63n : R → Z → Z * R).
Context (iterate : gmap Z Routing.publicAgentConfig → list (Z * Routing.publicAgentConfig)).

(** What one attempt meets. *)
Record attemptWorld := mkWorld {
  wServer : App R → App R;
  wMemory : replayMemory M → replayMemory M;
  wNow : Z;
  wNow' : Z;
  wCtx : ctxState;
  wBodyFailure : bodyFailure;
  wTransport : LoadBalancer.AgentConn → list Byte.byte → attemptOutcome;
  wOneShot : LoadBalancer.AgentConn → list Byte.byte → attemptOutcome }.

(** [customTransport]: a transport was injected, which has no fallback. *)
Record publicAgentAttemptRoundTripper := mkRoundTripper {
  rtSnapshot : Routing.publicProxySnapshot;
  rtTarget : Routing.publicRouteTargetConfig;
  rtInitial : option LoadBalancer.AgentConn;
  rtRule : option publicRetryRuleConfig;
  customTransport : bool }.

(** [held] is the connection whose active request is not released yet. *)
Record tripState := mkState {
  app : App R;
  mem : replayMemory M;
  reqBody : publicRetryRequestBody;
  result : publicRetryAttemptResult;
  attempted : gset Z;
  held : option LoadBalancer.AgentConn;
  log : list event }.

Implicit Types st : tripState.

Definition withApp st (a : App R) : tripState :=
  mkState a st.(mem) st.(reqBody) st.(result) st.(attempted) st.(held) st.(log).
Definition withMem st (m : replayMemory M) : tripState :=
  mkState st.(app) m st.(reqBody) st.(result) st.(attempted) st.(held) st.(log).
Definition withBody st (b : publicRetryRequestBody) : tripState :=
  mkState st.(app) st.(mem) b st.(result) st.(attempted) st.(held) st.(log).
Definition withResult st (r : publicRetryAttemptResult) : tripState :=
  mkState st.(app) st.(mem) st.(reqBody) r st.(attempted) st.(held) st.(log).
Definition withAttempted st (s : gset Z) : tripState :=
  mkState st.(app) st.(mem) st.(reqBody) st.(result) s st.(held) st.(log).
Definition withHeld st (h : option LoadBalancer.AgentConn) : tripState :=
  mkState st.(app) st.(mem) st.(reqBody) st.(result) st.(attempted) h st.(log).
Definition emit st (e : event) : tripState :=
  mkState st.(app) st.(mem) st.(reqBody) st.(result) st.(attempted) st.(held) (st.(log) ++ [e]).

(** ** Active requests *)

Definition addActive (a : App R) (conn : LoadBalancer.AgentConn) (d : Z) : App R :=
  let id := Z.pos conn.(LoadBalancer.connPtr) in
  mkApp a.(hub) a.(health) a.(LoadBalancers) a.(agentResourcePressureUntil) a.(agentUpdateCordoned) a.(latestAgentStats)
    a.(connectedAt) (λ c, if c =? id then a.(connActive) c + d else a.(connActive) c).

(** [None]: the agent is cordoned for an update. *)
Definition beginAgentUpdateProtectedRequest st (agent : LoadBalancer.AgentConn) : option tripState :=
  if isAgentUpdateCordoned st.(app) agent.(LoadBalancer.connAgentID) then None
  else Some (withHeld (withApp st (addActive st.(app) agent 1)) (Some agent)).

(** The release function acts once. *)
Definition releaseActiveRequest st : tripState :=
  match st.(held) with
  | None => st
  | Some agent => withHeld (withApp st (addActive st.(app) agent (-1))) None
  end.

Definition closeRequestBody st : tripState :=
  let '(m, b) := closeBody st.(mem) st.(reqBody) in withBody (withMem st m) b.

(** ** One attempt *)

Inductive verdict := Return (r : tripResult) | Continue (agent : LoadBalancer.AgentConn) | Break.

Definition canReplay (b : publicRetryRequestBody) : bool := b.(replayable) || b.(bodyless).

Section attempt.
Context (rt : publicAgentAttemptRoundTripper) (req : retryRequest) (w : attemptWorld) (attempt maxAttempts : Z).

Definition selectNext st : option LoadBalancer.AgentConn * tripState :=
  let '(next, a) := selectTargetAgentExcludingFromSnapshot Intn Int63n iterate st.(app) rt.(rtSnapshot) rt.(rtTarget)
                      st.(attempted) w.(wNow) in
  (next, withApp st a).
Definition selectNextUnpressured st : option LoadBalancer.AgentConn * tripState :=
  let '(next, a) := selectUnpressuredTargetAgentExcludingFromSnapshot Intn Int63n iterate st.(app) rt.(rtSnapshot)
                      rt.(rtTarget) st.(attempted) w.(wNow) w.(wNow') in
  (next, withApp st a).

(** The transport is given the bytes; the body of the request loses what was read, in time
    or late. *)
Definition send (transport : LoadBalancer.AgentConn → list Byte.byte → attemptOutcome) st (agent : LoadBalancer.AgentConn)
    (offered : list Byte.byte) : attemptOutcome * tripState :=
  let o := transport agent offered in
  let read := Nat.min o.(oRead) (length offered) in
  (mkOutcome o.(oResp) o.(oErr) o.(oWrote) read o.(oLate),
   emit (withBody st (consume (read + o.(oLate)) st.(reqBody))) (EvSent agent offered o.(oWrote) read)).

(** A refused pooled stream before anything was sent. *)
Definition fallbackApplies (o : attemptOutcome) : bool :=
  negb rt.(customTransport)
  && agentDialErrorHasKind o.(oErr) "server_pooled_capacity"
  && match o.(oErr) with Some e => agentStreamCapacityAllowsPooledHandoff e | None => false end
  && ctxLive w.(wCtx) && negb o.(oWrote) && (o.(oRead) =? 0)%nat.

(** The call on the pooled transport and, for a refused stream, the one-shot transport of
    the same agent; the flags of both add up. *)
Definition sendWithFallback st (agent : LoadBalancer.AgentConn) (offered : list Byte.byte)
    : attemptOutcome * bool * tripState :=
  let '(o, st) := send w.(wTransport) st agent offered in
  if fallbackApplies o then
    let st := match o.(oErr) with
      | Some e => if agentStreamCapacityRequiresIdleReclaim e
                  then emit st (EvReclaim (agentStreamCapacityAllowsCrossSessionReclaim e)) else st
      | None => st
      end in
    match next st.(reqBody) with
    | None => (o, true, st)
    | Some again =>
        let '(o2, st) := send w.(wOneShot) st agent again in
        (mkOutcome o2.(oResp) o2.(oErr) (o.(oWrote) || o2.(oWrote)) (o.(oRead) + o2.(oRead)) (o.(oLate) + o2.(oLate)),
         true, st)
    end
  else (o, false, st).

(** The result of the calls: an error, or a response. *)
Definition settle (o : attemptOutcome) (fallback : bool) st : (retryError + response) * tripState :=
  let '(r, st) := match o.(oErr), o.(oResp) with
    | Some e, _ => (inl e, releaseActiveRequest st)
    | None, None => (inl errNoResponse, releaseActiveRequest st)
    | None, Some resp => (inr resp, st)
    end in
  (r, if fallback then emit st (EvFallback (match r with inr _ => true | inl _ => false end)) else st).

Definition passiveFailure st (agent : LoadBalancer.AgentConn) (err : retryError) : tripState :=
  if shouldMarkAgentPassiveFailure (Some (ctxCanceled w.(wCtx))) (Some err.(agentErr))
  then withApp st (markPublicRouteTargetAgentPassiveFailure st.(app) rt.(rtTarget).(Routing.TargetID)
                     agent.(LoadBalancer.connAgentID) (Some err.(errText)) w.(wNow))
  else st.

Definition recordResponseBodyFailure st (agent : LoadBalancer.AgentConn) (err : retryError) (outcome skip : string)
    : string * tripState :=
  let errorKind := publicRetryResponseBodyErrorKind (Some err) in
  let r := setTerminal (setKind st.(result) errorKind (Some agent)) errorKind in
  let r := setCount (setOutcome r outcome) (attempt - 1) in
  let r := if String.eqb skip "" then r else setSkip r skip in
  (errorKind, passiveFailure (withResult st r) agent err).

(** The error of a streamed body that the consumer meets; the first one counts. *)
Definition observeBodyError st (agent : LoadBalancer.AgentConn) (skip : string) (err : retryError) : tripState :=
  if err.(sameEOF) || err.(agentErr).(isCanceled) then st
  else if canceledRequest w.(wCtx) err then st
  else match rt.(rtRule) with
  | None => withResult st (setTerminal st.(result) (publicRetryResponseBodyErrorKind (Some err)))
  | Some _ => (recordResponseBodyFailure st agent err publicRetryOutcomeSkipped skip).2
  end.

Definition retryWith st (agent next : LoadBalancer.AgentConn) (errorKind : string) : tripState :=
  emit (withResult st (setCount st.(result) attempt)) (EvRetry agent next attempt errorKind).

Definition notReplayable st (read : nat) : bool := negb (canReplay st.(reqBody)) && (0 <? read)%nat.

(** A response whose status the rule retries: the outcome to report, or another attempt. *)
Definition retryStatus st (agent : LoadBalancer.AgentConn) (resp : response) (read : nat)
    : (string + LoadBalancer.AgentConn) * tripState :=
  let errorKind := ("upstream_status_" ++ FormatInt resp.(StatusCode))%string in
  let st := withResult st (setKind st.(result) errorKind (Some agent)) in
  if maxAttempts <=? attempt then (inl publicRetryOutcomeExhausted, st)
  else if notReplayable st read
  then (inl publicRetryOutcomeSkipped, withResult st (setSkip st.(result) "request_body_not_replayable"))
  else match selectNext st with
       | (None, st) => (inl publicRetryOutcomeExhausted, st)
       | (Some agent', st) => (inr agent', retryWith (releaseActiveRequest st) agent agent' errorKind)
       end.

(** The body of the response could not be read ahead. *)
Definition responseBodyFailed st (agent : LoadBalancer.AgentConn) (err : retryError) (read : nat) : tripState * verdict :=
  let st := releaseActiveRequest st in
  if canceledRequest w.(wCtx) err then
    (withResult st (setCount (setSkip (setOutcome st.(result) publicRetryOutcomeSkipped) "client_cancelled") (attempt - 1)),
     Return (TripError err))
  else
    let '(errorKind, st) := recordResponseBodyFailure st agent err publicRetryOutcomeExhausted "" in
    if (maxAttempts <=? attempt) || bool_decide (rt.(rtRule) = None) then (st, Return (TripError err))
    else if notReplayable st read then
      (withResult st (setSkip (setOutcome st.(result) publicRetryOutcomeSkipped) "request_body_not_replayable"),
       Return (TripError err))
    else match selectNext st with
         | (None, st) => (st, Return (TripError err))
         | (Some agent', st) =>
             (retryWith (withResult st (setTerminal st.(result) "")) agent agent' errorKind, Continue agent')
         end.

(** The response is handed on. *)
Definition deliver st (resp : response) (prepared : publicRetryPreparedResponseBody) (outcome : string)
    : tripState * verdict :=
  if prepared.(complete) then
    let st := closeRequestBody (releaseActiveRequest st) in
    (withResult st (setCount (setOutcome st.(result) outcome) (attempt - 1)), Return (TripBuffered resp prepared.(body)))
  else
    let report := String.eqb st.(result).(ReplaySkippedReason) ""
      && match rt.(rtRule) with Some rule => isBuffered rule.(ResponseBodyMode) | None => false end
      && negb (String.eqb prepared.(skipReason) "") && negb (String.eqb prepared.(skipReason) "response_body_absent") in
    let st := if report then withResult st (setSkip st.(result) prepared.(skipReason)) else st in
    let outcome := if report && String.eqb outcome "" then publicRetryOutcomeSkipped else outcome in
    (withResult st (setCount (setOutcome st.(result) outcome) (attempt - 1)), Return (TripStream resp prepared.(body))).

Definition handleResponse st (agent : LoadBalancer.AgentConn) (resp : response) (read : nat)
    : option (tripState * verdict) :=
  let outcome := if 1 <? attempt then publicRetryOutcomeRecovered else "" in
  let '(next, st) := match rt.(rtRule) with
    | Some rule => if retriesStatus rule resp.(StatusCode) then retryStatus st agent resp read else (inl outcome, st)
    | None => (inl outcome, st)
    end in
  match next with
  | inr agent' => Some (st, Continue agent')
  | inl outcome =>
      match preparePublicRetryResponseBody st.(mem) req resp rt.(rtRule) with
      | None => None
      | Some (m, inl err) => Some (responseBodyFailed (withMem st m) agent err read)
      | Some (m, inr prepared) => Some (deliver (withMem st m) resp prepared outcome)
      end
  end.

(** A rule-less request may move on from an agent that is short of resources. *)
Definition pressureFailover (err : retryError) (wrote : bool) (read : nat) : bool :=
  bool_decide (rt.(rtRule) = None) && agentDialErrorHasKind (Some err) "agent_resource_pressure"
  && ctxLive w.(wCtx) && negb wrote && (read =? 0)%nat.

Definition handleError st (agent : LoadBalancer.AgentConn) (err : retryError) (wrote : bool) (read : nat)
    : tripState * verdict :=
  let errorKind := agentProxyErrorKind (Some err) in
  let st := match err.(agentErr).(dialKind) with
    | Some k => if agentDialErrorIsLocalCapacity k then emit st EvTerminalCapacity else st
    | None => st
    end in
  let st := withResult st (setKind st.(result) errorKind
              (if agentProxyFailureAttributedToAgent err then Some agent else None)) in
  let st := passiveFailure st agent err in
  let automatic := pressureFailover err wrote read in
  let st := if automatic
    then withApp st (markAgentRoutingResourcePressure st.(app) agent.(LoadBalancer.connAgentID) w.(wNow)) else st in
  let replay := canReplay st.(reqBody) in
  if (maxAttempts <=? attempt) || (bool_decide (rt.(rtRule) = None) && negb automatic) then
    let r := if 1 <? attempt then setOutcome st.(result) publicRetryOutcomeExhausted else st.(result) in
    (withResult st (setCount r (attempt - 1)), Return (TripError err))
  else if negb automatic
          && negb (publicRetryAttemptErrorAllowed w.(wCtx) w.(wBodyFailure) err rt.(rtRule) wrote (Z.of_nat read) replay) then
    let r := setSkip (setOutcome st.(result) publicRetryOutcomeSkipped)
               (publicRetrySkipReason w.(wCtx) w.(wBodyFailure) err wrote (Z.of_nat read) replay) in
    (withResult st (setCount r (attempt - 1)), Return (TripError err))
  else match (if automatic then selectNextUnpressured st else selectNext st) with
       | (None, st) =>
           (withResult st (setCount (setOutcome st.(result) publicRetryOutcomeExhausted) (attempt - 1)),
            Return (TripError err))
       | (Some agent', st) => (retryWith st agent agent' errorKind, Continue agent')
       end.

(** One turn of the loop. *)
Definition attemptOnce st (agent : LoadBalancer.AgentConn) : option (tripState * verdict) :=
  let st := withMem (withApp st (w.(wServer) st.(app))) (w.(wMemory) st.(mem)) in
  let st := withAttempted st ({[agent.(LoadBalancer.connAgentID)]} ∪ st.(attempted)) in
  let st := withResult st (setFinal st.(result) agent) in
  match beginAgentUpdateProtectedRequest st agent with
  | None =>
      Some (match selectNext st with
            | (None, st) => (st, Return (TripError errAgentUpdateCordoned))
            | (Some agent', st) => (st, Continue agent')
            end)
  | Some st =>
      match next st.(reqBody) with
      | None =>
          let st := releaseActiveRequest st in
          Some (withResult st (setSkip (setOutcome st.(result) publicRetryOutcomeSkipped) "request_body_not_replayable"), Break)
      | Some offered =>
          let '(o, fallback, st) := sendWithFallback (emit st (EvAttempt agent attempt)) agent offered in
          match settle o fallback st with
          | (inr resp, st) => handleResponse st agent resp o.(oRead)
          | (inl err, st) => Some (handleError st agent err o.(oWrote) o.(oRead))
          end
      end
  end.
End attempt.

(** ** The loop *)

(** [n] turns are left; [world] says what each attempt meets. *)
Fixpoint attempts (rt : publicAgentAttemptRoundTripper) (req : retryRequest) (world : Z → attemptWorld) (maxAttempts : Z)
    (n : nat) (attempt : Z) st (agent : LoadBalancer.AgentConn) : option (tripState * tripResult) :=
  match n with
  | O => Some (st, TripError errNoUntriedAgent)
  | S n =>
      match attemptOnce rt req (world attempt) attempt maxAttempts st agent with
      | None => None
      | Some (st, Return r) => Some (st, r)
      | Some (st, Break) => Some (st, TripError errNoUntriedAgent)
      | Some (st, Continue agent) => attempts rt req world maxAttempts n (attempt + 1) st agent
      end
  end.

Definition maxAttemptsOf (rule : option publicRetryRuleConfig) : Z :=
  match rule with Some rule => i64 (1 + rule.(MaxRetries)) | None => 4 end.

(** [None]: a response body is still being read ahead.  The request body is closed unless
    the response owns it. *)
Definition RoundTrip (rt : publicAgentAttemptRoundTripper) (req : retryRequest) (world : Z → attemptWorld) (a : App R)
    (m : replayMemory M) : option (tripState * tripResult) :=
  match rt.(rtInitial) with
  | None => Some (mkState a m (mkRequestBody None [] true true None) (newResult None) ∅ None [], TripError errAgentDisconnected)
  | Some initial =>
      match preparePublicRetryRequestBody m req rt.(rtRule) with
      | (m, inl err) => Some (mkState a m (mkRequestBody None [] true true None) (newResult rt.(rtRule)) ∅ None [], TripError err)
      | (m, inr b) =>
          let maxAttempts := maxAttemptsOf rt.(rtRule) in
          let st := mkState a m b (newResult rt.(rtRule)) ∅ None [] in
          match attempts rt req world maxAttempts (Z.to_nat maxAttempts) 1 st initial with
          | None => None
          | Some (st, TripError e) => Some (closeRequestBody st, TripError e)
          | Some (st, r) => Some (st, r)
          end
      end
  end.

(** The consumer of a streamed response closes it or reads an error: the active request and
    the request body are released. *)
Definition finishStream st : tripState := closeRequestBody (releaseActiveRequest st).

(** The body of a response is closed: a buffered prefix gives its bytes back (the working
    memory follows when the pump has stopped as well). *)
Definition closePrepared (m : replayMemory M) (b : preparedBody) : replayMemory M :=
  match b with
  | BodyNone | BodyUpstream _ => m
  | BodyWhole _ h | BodyPrefixed _ _ h => releaseHandleBudget m h
  end.

(** The consumer closes the response it was given. *)
Definition closeResponse st (r : tripResult) : tripState :=
  match r with
  | TripError _ => st
  | TripBuffered _ b => withMem st (closePrepared st.(mem) b)
  | TripStream _ b => finishStream (withMem st (closePrepared st.(mem) b))
  end.
End roundtrip.

(** ** Lemmas: the choice of the next agent *)

Definition serverOk {R} (a : App R) : Prop := balancers_ok a ∧ AgentHub.wf a.(hub).

Section selection.
Context {R : Type} (Intn Int63n : R → Z → Z * R).
Context (iterate : gmap Z Routing.publicAgentConfig → list (Z * Routing.publicAgentConfig)).
Context (Intn_range : ∀ g n, 0 < n → 0 ≤ (Intn g n).1 < n).
Context (iterate_all : ∀ agents, iterate agents ≡ₚ map_to_list agents).
Implicit Types a : App R.

Lemma balanceAgents_sound a target cs conn a' : serverOk a → balanceAgents Intn Int63n a target cs = (conn, a') →
  serverOk a' ∧ match conn with Some n => ∃ c, c ∈ cs ∧ n = c.(LoadBalancer.Conn) | None => True end.
Proof using Intn_range.
  intros [Hb Hw] E. destruct (decide (cs = [])) as [->|Hne]; [by injection E as <- <-|].
  destruct (balanceAgents_in Intn Int63n Intn_range a target cs Hb Hne) as (c & Hc & Hin). rewrite E in Hc. cbn [fst] in Hc.
  subst conn. split; [|by exists c]. unfold balanceAgents in E. destruct cs as [|c0 cs]; [done|].
  destruct a.(LoadBalancers) as [lbs|] eqn:El; [|by injection E as _ <-].
  unfold balancers_ok in Hb. rewrite El in Hb.
  pose proof (LoadBalancer.selectTargetAgent_in Intn Int63n lbs (balancedTarget target) (c0 :: cs) Intn_range Hb Hne) as [_ Hok].
  destruct (LoadBalancer.selectTargetAgent _ _ _ _ _) as [x lbs']. by injection E as _ <-.
Qed.

Lemma eligible_server a snap target now : serverOk a →
  serverOk (eligibleTargetAgentCandidatesFromSnapshot iterate a snap target now).2 ∧
  ∀ c, c ∈ (eligibleTargetAgentCandidatesFromSnapshot iterate a snap target now).1 →
    c.(LoadBalancer.Conn).(LoadBalancer.connAgentID) = c.(LoadBalancer.AgentID).
Proof using iterate_all.
  intros [Hb Hw]. split.
  - unfold eligibleTargetAgentCandidatesFromSnapshot. by destruct (scanAgents _ _ _ _ _) as [[? ?] ?].
  - intros c Hc. destruct (eligible_spec iterate iterate_all a snap target now) as [H _].
    destruct (H c Hc) as (id & conn & -> & (config & _ & _ & _ & _ & Hconn & _) & _). cbn.
    by apply (AgentHub.wf_id _ Hw).
Qed.

Lemma filterUnpressured_elem a excluded now' cs : ∀ pressure c,
  c ∈ (filterUnpressured a excluded now' cs pressure).1 → c ∈ cs ∧ c.(LoadBalancer.AgentID) ∉ excluded.
Proof.
  induction cs as [|x cs IH]; intros pressure c; simpl; [by intros ?%elem_of_nil|]. case_bool_decide as Hx.
  - intros Hc. destruct (IH _ _ Hc) as [H1 H2]. split; [by right|done].
  - destruct (agentHasRoutingResourcePressure a pressure x.(LoadBalancer.AgentID) now') as [pr p1].
    specialize (IH p1 c). destruct (filterUnpressured a excluded now' cs p1) as [fs p2]. cbn [fst] in *.
    destruct pr; [intros Hc; destruct (IH Hc); split; [by right|done]|].
    intros [->|Hc]%elem_of_cons; [split; [by left|done]|]. destruct (IH Hc). split; [by right|done].
Qed.

(** An agent that was not tried yet. *)
Lemma select_fresh a snap target excluded now next a' : serverOk a →
  selectTargetAgentExcludingFromSnapshot Intn Int63n iterate a snap target excluded now = (next, a') →
  serverOk a' ∧ ∀ n, next = Some n → n.(LoadBalancer.connAgentID) ∉ excluded.
Proof using Intn_range iterate_all.
  intros Ha. unfold selectTargetAgentExcludingFromSnapshot. destruct (eligible_server a snap target now Ha) as [Ha1 Hid].
  destruct (eligibleTargetAgentCandidatesFromSnapshot iterate a snap target now) as [cs a1]. intros E.
  apply balanceAgents_sound in E as [Ha' Hn]; [|done]. split; [done|]. intros n ->. destruct Hn as (c & Hc & ->).
  apply list_elem_of_In, filter_In in Hc as [Hc Hx]. apply list_elem_of_In in Hc. rewrite (Hid c Hc).
  apply negb_true_iff, bool_decide_eq_false in Hx. done.
Qed.

Lemma selectUnpressured_fresh a snap target excluded now now' next a' : serverOk a →
  selectUnpressuredTargetAgentExcludingFromSnapshot Intn Int63n iterate a snap target excluded now now' = (next, a') →
  serverOk a' ∧ ∀ n, next = Some n → n.(LoadBalancer.connAgentID) ∉ excluded.
Proof using Intn_range iterate_all.
  intros Ha. unfold selectUnpressuredTargetAgentExcludingFromSnapshot. destruct (eligible_server a snap target now Ha) as [Ha1 Hid].
  destruct (eligibleTargetAgentCandidatesFromSnapshot iterate a snap target now) as [cs a1]. cbn [fst snd] in *.
  pose proof (filterUnpressured_elem a1 excluded now' cs a1.(agentResourcePressureUntil)) as Hf.
  destruct (filterUnpressured a1 excluded now' cs a1.(agentResourcePressureUntil)) as [fs p]. intros E.
  apply balanceAgents_sound in E as [Ha' Hn]; [|by destruct Ha1]. split; [done|]. intros n ->. destruct Hn as (c & Hc & ->).
  destruct (Hf c Hc) as [Hin Hx]. by rewrite (Hid c Hin).
Qed.
End selection.

(** ** Lemmas: one attempt *)

Definition isSent (e : event) : bool := match e with EvSent _ _ _ _ => true | _ => false end.
(** The agents of the attempts, and how many transport calls wrote or read anything. *)
Fixpoint attemptIDs (l : list event) : list Z :=
  match l with
  | [] => []
  | EvAttempt agent _ :: l => agent.(LoadBalancer.connAgentID) :: attemptIDs l
  | _ :: l => attemptIDs l
  end.
Definition touches (e : event) : bool :=
  match e with EvSent _ _ wrote read => wrote || negb (read =? 0)%nat | _ => false end.
Definition touched (l : list event) : nat := length (List.filter touches l).
Definition offers (whole : list Byte.byte) (e : event) : Prop :=
  match e with EvSent _ offered _ _ => offered = whole | _ => True end.

Lemma attemptIDs_app l1 l2 : attemptIDs (l1 ++ l2) = attemptIDs l1 ++ attemptIDs l2.
Proof. induction l1 as [|[] l1 IH]; simpl; by rewrite ?IH. Qed.
Lemma touched_app l1 l2 : touched (l1 ++ l2) = (touched l1 + touched l2)%nat.
Proof. unfold touched. by rewrite List.filter_app, length_app. Qed.

(** A rule whose retries cannot repeat an effect: connection failures only. *)
Definition safeRule (rule : option publicRetryRuleConfig) : Prop :=
  match rule with
  | None => True
  | Some r => r.(FailureMode) = publicRetryFailureModeConnectionFailures ∧ r.(retryStatusCodeSet) = ∅ ∧
      isBuffered r.(ResponseBodyMode) = false
  end.

(** Reading none of a body, or any of a body that is kept, leaves it whole. *)
Lemma consume_next b n : canReplay b = true ∨ n = O → next (consume n b) = next b.
Proof.
  unfold canReplay, consume, next. destruct b as [o bs [] [] h]; cbn; try done.
  intros [H| ->]; [done|]. by destruct o as [[]|].
Qed.
Lemma consume_replay n b : canReplay (consume n b) = canReplay b.
Proof. unfold canReplay, consume. by destruct b as [o bs [] [] h]. Qed.
Lemma consume_consume n k b : consume k (consume n b) = consume (n + k) b.
Proof.
  unfold consume. destruct b as [o bs [] [] h]; cbn; try done. f_equal. destruct o as [[l e c]|]; [|done]. cbn.
  by rewrite drop_drop.
Qed.

Lemma consume_some n b offered : next b = Some offered → ∃ again, next (consume n b) = Some again.
Proof.
  unfold consume, next. destruct b as [o bs [] [] h]; cbn; try by eexists. destruct o; cbn; [by eexists|done].
Qed.

Section steps.
Context {R M : Type} `{ReplayResources M} (Intn Int63n : R → Z → Z * R).
Context (iterate : gmap Z Routing.publicAgentConfig → list (Z * Routing.publicAgentConfig)).
Implicit Types st : tripState (R := R) (M := M).

(** Steps that send nothing, keep the tried agents and the server consistent. *)
Definition quiet st st' : Prop :=
  st'.(attempted) = st.(attempted) ∧ (serverOk st.(app) → serverOk st'.(app)) ∧
  ∃ evs, st'.(log) = st.(log) ++ evs ∧ Forall (λ e, isSent e = false ∧ attemptIDs [e] = []) evs.

Lemma quiet_refl st : quiet st st.
Proof. split_and!; [done|done|]. exists []. by rewrite app_nil_r. Qed.
Lemma quiet_trans st1 st2 st3 : quiet st1 st2 → quiet st2 st3 → quiet st1 st3.
Proof.
  intros (A1 & A2 & e1 & A3 & A4) (B1 & B2 & e2 & B3 & B4). split_and!; [congruence|auto|].
  exists (e1 ++ e2). rewrite B3, A3, app_assoc. split; [done|]. by apply Forall_app.
Qed.
#[local] Instance quiet_preorder : PreOrder quiet.
Proof. split; [exact quiet_refl|exact quiet_trans]. Qed.

Lemma quiet_result st r : quiet st (withResult st r).
Proof. apply (quiet_refl st). Qed.
Lemma quiet_mem st m : quiet st (withMem st m).
Proof. apply (quiet_refl st). Qed.
Lemma quiet_body st b : quiet st (withBody st b).
Proof. apply (quiet_refl st). Qed.
Lemma quiet_app st a : (serverOk st.(app) → serverOk a) → quiet st (withApp st a).
Proof. intros Ha. split_and!; [done|done|]. exists []. by rewrite app_nil_r. Qed.
Lemma quiet_emit st e : isSent e = false → attemptIDs [e] = [] → quiet st (emit st e).
Proof. intros He Ha. split_and!; [done|done|]. exists [e]. split; [done|]. by constructor. Qed.

Lemma serverOk_active (a : App R) conn d : serverOk a → serverOk (addActive a conn d).
Proof. done. Qed.

Lemma quiet_release st : quiet st (releaseActiveRequest st).
Proof. unfold releaseActiveRequest. destruct st.(held); [|reflexivity]. split_and!; [done|done|]. exists []. by rewrite app_nil_r. Qed.
Lemma release_held st : (releaseActiveRequest st).(held) = None.
Proof. unfold releaseActiveRequest. by destruct st.(held) eqn:E. Qed.
Lemma release_body st : (releaseActiveRequest st).(reqBody) = st.(reqBody).
Proof. unfold releaseActiveRequest. by destruct st.(held). Qed.

Lemma quiet_closeBody st : quiet st (closeRequestBody st).
Proof. apply (quiet_refl st). Qed.

Section one.
Context (rt : publicAgentAttemptRoundTripper) (req : retryRequest) (w : attemptWorld (R := R) (M := M)).
Context (attempt maxAttempts : Z).

Lemma quiet_passive st agent err : quiet st (passiveFailure rt w st agent err).
Proof. unfold passiveFailure. case_goal; [|reflexivity]. by apply quiet_app. Qed.
Lemma passive_same st agent err :
  (passiveFailure rt w st agent err).(held) = st.(held) ∧ (passiveFailure rt w st agent err).(reqBody) = st.(reqBody).
Proof. unfold passiveFailure. by case_goal. Qed.

Lemma quiet_retry st agent next kind : quiet st (retryWith attempt st agent next kind).
Proof. unfold retryWith. etrans; [apply (quiet_result st)|]. by apply quiet_emit. Qed.

Lemma quiet_recordFailure st agent err outcome skip :
  let st' := (recordResponseBodyFailure rt w attempt st agent err outcome skip).2 in
  quiet st st' ∧ st'.(held) = st.(held) ∧ st'.(reqBody) = st.(reqBody).
Proof.
  unfold recordResponseBodyFailure. cbv zeta. cbn [snd]. split; [|refine (passive_same (withResult st _) agent err)]. etrans; [|apply quiet_passive].
  apply quiet_result.
Qed.

Context (Intn_range : ∀ g n, 0 < n → 0 ≤ (Intn g n).1 < n).
Context (iterate_all : ∀ agents, iterate agents ≡ₚ map_to_list agents).

Lemma selectNext_spec st next st' : serverOk st.(app) → selectNext Intn Int63n iterate rt w st = (next, st') →
  quiet st st' ∧ st'.(held) = st.(held) ∧ st'.(reqBody) = st.(reqBody) ∧ st'.(result) = st.(result) ∧
  ∀ n, next = Some n → n.(LoadBalancer.connAgentID) ∉ st.(attempted).
Proof using Intn_range iterate_all.
  intros Ha. unfold selectNext. destruct (selectTargetAgentExcludingFromSnapshot _ _ _ _ _ _ _ _) as [n a] eqn:E.
  apply (select_fresh Intn Int63n iterate Intn_range iterate_all) in E as [Ha' Hn]; [|done]. intros [= <- <-].
  split_and!; [by apply quiet_app|done|done|done|done].
Qed.

Lemma selectNextUnpressured_spec st next st' : serverOk st.(app) →
  selectNextUnpressured Intn Int63n iterate rt w st = (next, st') →
  quiet st st' ∧ st'.(held) = st.(held) ∧ st'.(reqBody) = st.(reqBody) ∧ st'.(result) = st.(result) ∧
  ∀ n, next = Some n → n.(LoadBalancer.connAgentID) ∉ st.(attempted).
Proof using Intn_range iterate_all.
  intros Ha. unfold selectNextUnpressured. destruct (selectUnpressuredTargetAgentExcludingFromSnapshot _ _ _ _ _ _ _ _ _) as [n a] eqn:E.
  apply (selectUnpressured_fresh Intn Int63n iterate Intn_range iterate_all) in E as [Ha' Hn]; [|done]. intros [= <- <-].
  split_and!; [by apply quiet_app|done|done|done|done].
Qed.

(** What the handling of an attempt's result owes: another agent only if the body is still
    whole, and, for a rule that may not repeat an effect, only if nothing was sent. *)
Definition handled st (agent : LoadBalancer.AgentConn) (wrote : bool) (read : nat) st' (v : verdict) : Prop :=
  quiet st st' ∧
  match v with
  | Continue agent' =>
      st'.(held) = None ∧ st'.(reqBody) = st.(reqBody) ∧ agent'.(LoadBalancer.connAgentID) ∉ st.(attempted) ∧
      (canReplay st.(reqBody) = true ∨ read = O) ∧ (safeRule rt.(rtRule) → wrote = false ∧ read = O)
  | Return (TripStream _ _) => st'.(held) = st.(held)
  | Return (TripBuffered _ _) => st'.(held) = None ∧ st'.(reqBody).(release) = None ∧ st'.(reqBody).(original) = None
  | Return (TripError _) | Break => st'.(held) = None
  end.

Lemma allowed_sound ctx failure err rule wrote read replay :
  publicRetryAttemptErrorAllowed ctx failure err rule wrote (Z.of_nat read) replay = true →
  (replay = true ∨ read = O) ∧ (safeRule rule → wrote = false ∧ read = O).
Proof.
  unfold publicRetryAttemptErrorAllowed. destruct rule as [rule|]; [|done]. intros E.
  case_if_hyp E E1. case_if_hyp E E2. case_if_hyp E E3. unfold safeRule.
  destruct (String.eqb_spec rule.(FailureMode) publicRetryFailureModeConnectionFailures) as [Em|Em].
  - apply andb_true_iff in E as [Ew Er]. apply negb_true_iff in Ew. split; [right; lia|]. intros _. split; [done|lia].
  - apply orb_true_iff in E as [->|Er]; (split; [|by intros [? _]]); [by left|right; lia].
Qed.

Lemma handleError_spec st agent err wrote read st' v : serverOk st.(app) → st.(held) = None →
  handleError Intn Int63n iterate rt w attempt maxAttempts st agent err wrote read = (st', v) →
  handled st agent wrote read st' v.
Proof using Intn_range iterate_all.
  intros Ha Hh. unfold handleError. cbv zeta.
  set (st1 := match err.(agentErr).(dialKind) with Some k => _ | None => st end).
  set (st2 := passiveFailure rt w (withResult st1 _) agent err).
  set (auto := pressureFailover rt w err wrote read).
  set (st3 := if auto then _ else st2).
  assert (H1 : quiet st st1 ∧ st1.(held) = st.(held) ∧ st1.(reqBody) = st.(reqBody)).
  { subst st1. destruct err.(agentErr).(dialKind) as [k|]; [|split; [reflexivity|done]].
    destruct (agentDialErrorIsLocalCapacity k); [|split; [reflexivity|done]]. split; [by apply quiet_emit|done]. }
  assert (H2 : quiet st st2 ∧ st2.(held) = st.(held) ∧ st2.(reqBody) = st.(reqBody)).
  { destruct H1 as (Q & E1 & E2). subst st2. destruct (passive_same (withResult st1 (setKind (result st1) (agentProxyErrorKind (Some err))
      (if agentProxyFailureAttributedToAgent err then Some agent else None))) agent err) as [P1 P2]. split_and!; [|by rewrite P1|by rewrite P2].
    etrans; [exact Q|]. etrans; [apply quiet_result|]. apply quiet_passive. }
  assert (H3 : quiet st st3 ∧ st3.(held) = st.(held) ∧ st3.(reqBody) = st.(reqBody)).
  { destruct H2 as (Q & E1 & E2). subst st3. destruct auto; [|done]. split_and!; [|done|done]. etrans; [exact Q|].
    apply quiet_app. unfold markAgentRoutingResourcePressure. by case_goal. }
  destruct H3 as (Q & E1 & E2). clearbody st3. clear st1 st2 H1 H2. assert (Ha3 : serverOk st3.(app)) by by apply Q.
  assert (Hret : ∀ r, handled st agent wrote read (withResult st3 r) (Return (TripError err))).
  { intros r. split; [etrans; [exact Q|apply quiet_result]|]. cbn. by rewrite E1. }
  case_if Ex; [intros [= <- <-]; apply Hret|]. case_if En; [intros [= <- <-]; apply Hret|].
  assert (Hgo : (canReplay st.(reqBody) = true ∨ read = O) ∧ (safeRule rt.(rtRule) → wrote = false ∧ read = O)).
  { destruct auto eqn:Eauto.
    - unfold auto, pressureFailover in Eauto. rewrite !andb_true_iff, negb_true_iff, Nat.eqb_eq in Eauto. destruct Eauto as [[_ ->] ->]. auto.
    - cbn [negb andb] in En. apply negb_false_iff, allowed_sound in En. by rewrite E2 in En. }
  assert (Hnext : ∀ next st4, (if auto then selectNextUnpressured Intn Int63n iterate rt w st3 else selectNext Intn Int63n iterate rt w st3) = (next, st4) →
    quiet st3 st4 ∧ st4.(held) = st3.(held) ∧ st4.(reqBody) = st3.(reqBody) ∧ st4.(result) = st3.(result) ∧
    ∀ n, next = Some n → n.(LoadBalancer.connAgentID) ∉ st3.(attempted)).
  { intros nx st4. destruct auto; [by apply selectNextUnpressured_spec|by apply selectNext_spec]. }
  destruct (if auto then _ else _) as [next st4]. destruct (Hnext next st4 eq_refl) as (Q4 & F1 & F2 & _ & F3).
  destruct next as [agent'|]; intros [= <- <-].
  - split; [etrans; [exact Q|]; etrans; [exact Q4|]; apply quiet_retry|]. cbn. rewrite F1, E1, F2, E2. destruct Q as (Qa & _).
    rewrite <- Qa. split_and!; [done|done|by apply F3|apply Hgo|apply Hgo].
  - split; [etrans; [exact Q|]; etrans; [exact Q4|]; apply quiet_result|]. cbn. by rewrite F1, E1.
Qed.

(** A failed attempt ends in its error or in another attempt. *)
Lemma handleError_verdict st agent err wrote read :
  match (handleError Intn Int63n iterate rt w attempt maxAttempts st agent err wrote read).2 with
  | Return (TripError e) => e = err | Continue _ => True | _ => False end.
Proof.
  unfold handleError. cbv zeta. case_if Ex; [done|]. case_if En; [done|].
  destruct (pressureFailover rt w err wrote read).
  - by destruct (selectNextUnpressured Intn Int63n iterate rt w _) as [[agent'|] st2].
  - by destruct (selectNext Intn Int63n iterate rt w _) as [[agent'|] st2].
Qed.

Lemma notReplayable_false st read : notReplayable st read = false → canReplay st.(reqBody) = true ∨ read = O.
Proof.
  unfold notReplayable. destruct (canReplay st.(reqBody)); [by left|]. intros E. right. by destruct read.
Qed.

(** Without buffered responses the body is passed on, never an error. *)
Lemma prepare_response_safe m resp : match rt.(rtRule) with Some r => isBuffered r.(ResponseBodyMode) = false | None => True end →
  ∃ p, preparePublicRetryResponseBody m req resp rt.(rtRule) = Some (m, inr p).
Proof.
  intros Hs. unfold preparePublicRetryResponseBody. destruct resp.(RespBody) as [reads|]; [|by eexists].
  destruct rt.(rtRule) as [r|]; [|by eexists]. unfold publicRetryResponseBufferExclusion. rewrite Hs. cbn. by eexists.
Qed.

Lemma safe_unbuffered : safeRule rt.(rtRule) →
  match rt.(rtRule) with Some r => isBuffered r.(ResponseBodyMode) = false | None => True end.
Proof. unfold safeRule. destruct rt.(rtRule); tauto. Qed.

Lemma retryStatus_spec st agent resp wrote read out st' : serverOk st.(app) →
  match rt.(rtRule) with Some r => retriesStatus r resp.(StatusCode) = true | None => False end →
  retryStatus Intn Int63n iterate rt w attempt maxAttempts st agent resp read = (out, st') →
  match out with
  | inl _ => quiet st st' ∧ st'.(held) = st.(held) ∧ st'.(reqBody) = st.(reqBody)
  | inr agent' => handled st agent wrote read st' (Continue agent')
  end.
Proof using Intn_range iterate_all.
  intros Ha Hs. unfold retryStatus. cbv zeta. set (st1 := withResult st _).
  assert (Q1 : quiet st st1) by apply quiet_result.
  case_if E1; [by intros [= <- <-]|]. case_if E2.
  { intros [= <- <-]. split_and!; [|done|done]. etrans; [exact Q1|apply quiet_result]. }
  apply notReplayable_false in E2. cbn [reqBody st1 withResult] in E2.
  destruct (selectNext Intn Int63n iterate rt w st1) as [next st2] eqn:E. apply selectNext_spec in E as (Q2 & F1 & F2 & _ & F3); [|done].
  destruct next as [agent'|]; intros [= <- <-].
  - split; [etrans; [exact Q1|]; etrans; [exact Q2|]; etrans; [apply quiet_release|apply quiet_retry]|].
    cbn. rewrite release_held, release_body, F2. split_and!; [done|done|by apply (F3 agent')|exact E2|].
    intros Hsafe. unfold safeRule in Hsafe. destruct rt.(rtRule) as [r|]; [|done]. destruct Hsafe as (_ & He & _).
    unfold retriesStatus in Hs. rewrite He, bool_decide_eq_true_2, orb_true_r in Hs by done. done.
  - split_and!; [etrans; [exact Q1|exact Q2]|done|done].
Qed.

Lemma responseBodyFailed_spec st agent err wrote read st' v : serverOk st.(app) → ¬ safeRule rt.(rtRule) →
  responseBodyFailed Intn Int63n iterate rt w attempt maxAttempts st agent err read = (st', v) →
  handled st agent wrote read st' v.
Proof using Intn_range iterate_all.
  intros Ha Hs. unfold responseBodyFailed. cbv zeta. set (st1 := releaseActiveRequest st).
  assert (Q1 : quiet st st1) by apply quiet_release. assert (B1 : st1.(reqBody) = st.(reqBody)) by apply release_body.
  assert (N1 : st1.(held) = None) by apply release_held. case_if E1.
  { intros [= <- <-]. split; [etrans; [exact Q1|apply quiet_result]|done]. }
  pose proof (quiet_recordFailure st1 agent err publicRetryOutcomeExhausted "") as H2. cbv zeta in H2.
  destruct (recordResponseBodyFailure rt w attempt st1 agent err publicRetryOutcomeExhausted "") as [kind st2]. cbn [snd] in H2.
  destruct H2 as (Q2 & N2 & B2). assert (Q12 : quiet st st2) by (by etrans). rewrite N1 in N2. rewrite B1 in B2.
  assert (Ha2 : serverOk st2.(app)) by by apply Q12.
  case_if E2; [intros [= <- <-]; by split|]. case_if E3.
  { intros [= <- <-]. split; [etrans; [exact Q12|apply quiet_result]|done]. }
  apply notReplayable_false in E3. rewrite B2 in E3.
  destruct (selectNext Intn Int63n iterate rt w st2) as [next st3] eqn:E. apply selectNext_spec in E as (Q3 & F1 & F2 & _ & F3); [|done].
  destruct Q12 as (A2 & Q12). destruct next as [agent'|]; intros [= <- <-].
  - split; [by etrans; [split; [exact A2|exact Q12]|]; etrans; [exact Q3|]; etrans; [apply quiet_result|apply quiet_retry]|].
    cbn. rewrite F1, N2, F2, B2, <- A2. split_and!; [done|done|by apply (F3 agent')|done|done].
  - split; [by etrans; [split; [exact A2|exact Q12]|]|]. cbn. by rewrite F1.
Qed.

Lemma deliver_spec st agent resp prepared outcome wrote read st' v : deliver rt attempt st resp prepared outcome = (st', v) →
  handled st agent wrote read st' v.
Proof.
  unfold deliver. case_if E.
  - intros [= <- <-]. split; [|by rewrite <- (release_held st)].
    etrans; [apply quiet_release|]. etrans; [apply quiet_closeBody|apply quiet_result].
  - set (b := (_ && _)%bool) at 1. intros [= <- <-]. split; [|by destruct b]. destruct b; [etrans; [apply quiet_result|]|]; apply quiet_result.
Qed.

Lemma handleResponse_spec st agent resp wrote read st' v : serverOk st.(app) →
  handleResponse Intn Int63n iterate rt req w attempt maxAttempts st agent resp read = Some (st', v) →
  handled st agent wrote read st' v.
Proof using Intn_range iterate_all.
  intros Ha. unfold handleResponse. cbv zeta.
  set (choice := match rt.(rtRule) with Some r => _ | None => _ end).
  assert (Hc : ∀ out st1, choice = (out, st1) → match out with
    | inl _ => quiet st st1 ∧ st1.(held) = st.(held) ∧ st1.(reqBody) = st.(reqBody)
    | inr agent' => handled st agent wrote read st1 (Continue agent') end).
  { intros out st1. unfold choice. destruct rt.(rtRule) as [r|] eqn:Er; [|intros [= <- <-]; split; [reflexivity|done]].
    destruct (retriesStatus r resp.(StatusCode)) eqn:Es; [|intros [= <- <-]; split; [reflexivity|done]].
    apply retryStatus_spec; [done|by rewrite Er]. }
  destruct choice as [out st1]. specialize (Hc out st1 eq_refl). destruct out as [outcome|agent']; [|by intros [= <- <-]].
  destruct Hc as (Q1 & N1 & B1). assert (Ha1 : serverOk st1.(app)) by by apply Q1.
  assert (Hback : ∀ m, handled (withMem st1 m) agent wrote read st' v → handled st agent wrote read st' v).
  { intros m (Q2 & Hv). destruct Q1 as (A1 & Q1). split; [etrans; [split; [exact A1|exact Q1]|exact Q2]|].
    cbn in Hv. rewrite N1, B1, A1 in Hv. exact Hv. }
  destruct (preparePublicRetryResponseBody st1.(mem) req resp rt.(rtRule)) as [[m [err|prepared]]|] eqn:Ep; [| |done].
  - intros E. apply (Hback m). destruct (responseBodyFailed _ _ _ _ _ _ _ _ _ _) as [st2 v2] eqn:Ef. injection E as <- <-.
    eapply responseBodyFailed_spec; [|intros Hs|exact Ef]; [done|].
    destruct (prepare_response_safe st1.(mem) resp (safe_unbuffered Hs)) as [p Hp]. congruence.
  - intros [= E]. apply (Hback m). by eapply deliver_spec.
Qed.

(** A transport that stops reading when it returns. *)
Definition lateFree : Prop := ∀ agent offered, (w.(wTransport) agent offered).(oLate) = O ∧ (w.(wOneShot) agent offered).(oLate) = O.

(** At most one transport call of an attempt writes or reads anything; when the body is kept
    or nothing is read late, all are offered what the first one is. *)
Lemma sendWithFallback_spec st agent offered o fb st' : next st.(reqBody) = Some offered →
  sendWithFallback rt w st agent offered = (o, fb, st') →
  st'.(attempted) = st.(attempted) ∧ st'.(app) = st.(app) ∧ st'.(held) = st.(held) ∧
  (∃ n, st'.(reqBody) = consume n st.(reqBody) ∧ (lateFree → n = o.(oRead))) ∧
  ∃ evs, st'.(log) = st.(log) ++ evs ∧ (canReplay st.(reqBody) = true ∨ lateFree → Forall (offers offered) evs) ∧
    attemptIDs evs = [] ∧ (touched evs ≤ 1)%nat ∧ (o.(oWrote) = false → o.(oRead) = O → touched evs = O).
Proof.
  intros Hw. unfold sendWithFallback, send. cbv zeta.
  set (o1 := w.(wTransport) agent offered). set (n1 := Nat.min o1.(oRead) (length offered)).
  assert (Hlate : lateFree → o1.(oLate) = O) by (intros Hl; apply (Hl agent offered)). case_if Ef.
  - unfold fallbackApplies in Ef. rewrite !andb_true_iff, !negb_true_iff in Ef. cbn [oErr oWrote oRead] in Ef.
    destruct Ef as [[[[_ Ee] _] Ewr] Erd]. apply Nat.eqb_eq in Erd. rewrite Erd. cbn [oErr plus].
    set (st1 := emit _ _). set (st2 := match o1.(oErr) with Some e => _ | None => st1 end).
    assert (H2 : st2.(attempted) = st.(attempted) ∧ st2.(app) = st.(app) ∧ st2.(held) = st.(held) ∧ st2.(reqBody) = consume o1.(oLate) st.(reqBody) ∧
      ∃ evs, st2.(log) = st.(log) ++ EvSent agent offered o1.(oWrote) O :: evs ∧ (∀ whole, Forall (offers whole) evs) ∧ attemptIDs evs = [] ∧ touched evs = O).
    { subst st2. destruct o1.(oErr) as [e|]; [destruct (agentStreamCapacityRequiresIdleReclaim e)|]; split_and!; try done.
      - exists [EvReclaim (agentStreamCapacityAllowsCrossSessionReclaim e)]. unfold st1. cbn [emit log withBody]. rewrite <- app_assoc. by repeat constructor.
      - exists []. by repeat constructor. }
    clearbody st2. destruct H2 as (A2 & P2 & N2 & B2 & evs & L2 & O2 & I2 & T2).
    destruct (consume_some o1.(oLate) _ _ Hw) as [again Hn]. rewrite <- B2 in Hn. rewrite Hn.
    assert (Hsame : canReplay st.(reqBody) = true ∨ lateFree → again = offered).
    { intros Hk. rewrite B2, consume_next in Hn; [congruence|]. destruct Hk; auto. }
    set (o2 := w.(wOneShot) agent again). set (n2 := Nat.min o2.(oRead) (length again)). intros [= <- <- <-]. cbn [oRead oWrote].
    split_and!; [done|done|done| |].
    { exists (o1.(oLate) + (n2 + o2.(oLate)))%nat. split; [cbn; by rewrite B2, consume_consume|]. intros Hl. rewrite (Hlate Hl).
      destruct (Hl agent again) as [_ El]. unfold o2. rewrite El. lia. }
    exists (EvSent agent offered o1.(oWrote) O :: evs ++ [EvSent agent again o2.(oWrote) n2]).
    cbn [emit log withBody]. rewrite L2, <- app_assoc. split_and!; [done| | | |].
    + intros Hk. constructor; [done|]. apply Forall_app. split; [apply O2|repeat constructor; by apply Hsame].
    + cbn. by rewrite attemptIDs_app, I2.
    + change (touched ([EvSent agent offered (oWrote o1) 0] ++ evs ++ [EvSent agent again (oWrote o2) n2]) ≤ 1)%nat.
      rewrite !touched_app, T2. unfold touched. cbn. rewrite Ewr. cbn. by destruct (oWrote o2 || negb (n2 =? 0)%nat)%bool; cbn; lia.
    + intros Hw2 Hr2. change (touched ([EvSent agent offered (oWrote o1) 0] ++ evs ++ [EvSent agent again (oWrote o2) n2]) = 0)%nat.
      rewrite !touched_app, T2. unfold touched. cbn. rewrite Ewr in *. cbn in *. rewrite Hw2, Hr2. done.
  - intros [= <- <- <-]. cbn [oRead oWrote]. split_and!; [done|done|done| |].
    { eexists. split; [done|]. intros Hl. rewrite (Hlate Hl). lia. }
    exists [EvSent agent offered o1.(oWrote) n1]. split_and!; [done|by repeat constructor|done| |].
    + unfold touched. cbn. by destruct (oWrote o1 || negb (n1 =? 0)%nat)%bool; cbn; lia.
    + intros Hw1 Hr1. unfold touched. cbn. by rewrite Hw1, Hr1.
Qed.

Lemma settle_spec st o fb r st' : settle o fb st = (r, st') → quiet st st' ∧ st'.(reqBody) = st.(reqBody) ∧
  match r with inl _ => st'.(held) = None | inr _ => st'.(held) = st.(held) end.
Proof.
  unfold settle. set (x := match o.(oErr) with Some e => _ | None => _ end).
  assert (Hx : ∀ r1 st1, x = (r1, st1) → quiet st st1 ∧ st1.(reqBody) = st.(reqBody) ∧
    match r1 with inl _ => st1.(held) = None | inr _ => st1.(held) = st.(held) end).
  { intros r1 st1. unfold x. destruct o.(oErr) as [e|]; [|destruct o.(oResp) as [resp|]]; intros [= <- <-];
      rewrite ?release_held, ?release_body; (split; [apply quiet_release || reflexivity|done]). }
  destruct x as [r1 st1]. destruct (Hx r1 st1 eq_refl) as (Q & B & N). destruct fb; intros [= <- <-]; [|done].
  split; [etrans; [exact Q|by apply quiet_emit]|done].
Qed.

(** One turn of the loop, when the body it starts with is [whole] at least if [K] holds. *)
Definition turn (K : Prop) st (agent : LoadBalancer.AgentConn) (whole : list Byte.byte) st' (v : verdict) : Prop :=
  serverOk st'.(app) ∧ st'.(attempted) = {[agent.(LoadBalancer.connAgentID)]} ∪ st.(attempted) ∧
  (∃ evs, st'.(log) = st.(log) ++ evs ∧ (K → Forall (offers whole) evs) ∧
    (attemptIDs evs = [] ∨ attemptIDs evs = [agent.(LoadBalancer.connAgentID)]) ∧ (touched evs ≤ 1)%nat ∧
    match v with Continue _ => safeRule rt.(rtRule) → touched evs = O | _ => True end) ∧
  match v with
  | Continue agent' => st'.(held) = None ∧ is_Some (next st'.(reqBody)) ∧ canReplay st'.(reqBody) = canReplay st.(reqBody)
      ∧ (K → next st'.(reqBody) = Some whole) ∧ agent'.(LoadBalancer.connAgentID) ∉ st'.(attempted)
  | Return (TripStream _ _) => st'.(held) = Some agent
  | Return (TripBuffered _ _) => st'.(held) = None ∧ st'.(reqBody).(release) = None ∧ st'.(reqBody).(original) = None
  | Return (TripError _) | Break => st'.(held) = None
  end.

Lemma quiet_events evs whole : Forall (λ e, isSent e = false ∧ attemptIDs [e] = []) evs →
  Forall (offers whole) evs ∧ attemptIDs evs = [] ∧ touched evs = O.
Proof.
  induction 1 as [|e evs [He Ha] _ (H1 & H2 & H3)]; [done|]. unfold touched in *. destruct e; cbn in *; try done; split_and!; try done; by constructor.
Qed.

Lemma attemptOnce_spec (K : Prop) st agent whole st' v : serverOk (w.(wServer) st.(app)) → st.(held) = None → is_Some (next st.(reqBody)) →
  (K → canReplay st.(reqBody) = true ∨ lateFree) → (K → next st.(reqBody) = Some whole) →
  attemptOnce Intn Int63n iterate rt req w attempt maxAttempts st agent = Some (st', v) → turn K st agent whole st' v.
Proof using Intn_range iterate_all.
  intros Ha Hh [offered Hsome] HK Hw. unfold attemptOnce. cbv zeta. set (st1 := withResult _ _).
  assert (A1 : st1.(attempted) = {[agent.(LoadBalancer.connAgentID)]} ∪ st.(attempted)) by done.
  unfold beginAgentUpdateProtectedRequest. case_if Ec.
  - intros E. assert (Ha1 : serverOk st1.(app)) by exact Ha.
    destruct (selectNext Intn Int63n iterate rt w st1) as [nx st2] eqn:Es.
    apply selectNext_spec in Es as (Q & N & B & _ & F); [|done]. destruct Q as (A2 & S2 & evs & L2 & Hevs).
    destruct (quiet_events evs whole Hevs) as (O2 & I2 & T2).
    destruct nx as [agent'|]; injection E as <- <-; (split; [by apply S2|]); (split; [by rewrite A2|]);
      (split; [exists evs; split_and!; [exact L2|done|by left|lia|done]|]); cbn; rewrite N; [|done].
    rewrite B, A2. split_and!; [done|by exists offered|done|done|by apply F].
  - set (st2 := withHeld _ _). change (next st2.(reqBody)) with (next st.(reqBody)). rewrite Hsome.
    destruct (sendWithFallback rt w (emit st2 (EvAttempt agent attempt)) agent offered) as [[o fb] st3] eqn:Es.
    apply sendWithFallback_spec in Es as (A3 & P3 & N3 & (n & B3 & Hn) & evs & L3 & O3 & I3 & T3 & T3'); [|done].
    change (reqBody (emit st2 (EvAttempt agent attempt))) with st.(reqBody) in B3, O3.
    assert (Hoff : K → offered = whole) by (intros k; specialize (Hw k); congruence).
    assert (Ha3 : serverOk st3.(app)) by (rewrite P3; by apply serverOk_active).
    destruct (settle o fb st3) as [r st4] eqn:Et. apply settle_spec in Et as (Q4 & B4 & N4).
    assert (Ha4 : serverOk st4.(app)) by by apply Q4.
    assert (Hv : handled st4 agent o.(oWrote) o.(oRead) st' v →
      (match v with Return (TripStream _ _) => st4.(held) = Some agent | _ => True end) → turn K st agent whole st' v).
    { intros [Q5 Hv] Hheld. assert (Q35 : quiet st3 st') by (by etrans). destruct Q35 as (A5 & S5 & evs' & L5 & Hevs).
      destruct (quiet_events evs' whole Hevs) as (O5 & I5 & T5). assert (A4 : st4.(attempted) = st3.(attempted)) by apply Q4.
      split; [by apply S5|]. split; [by rewrite A5, A3|]. split.
      - exists (EvAttempt agent attempt :: evs ++ evs'). rewrite L5, L3. split_and!.
        + cbn. by rewrite <- !app_assoc.
        + intros k. constructor; [done|]. apply Forall_app. split; [|done]. rewrite <- (Hoff k). by apply O3, HK.
        + right. cbn. by rewrite attemptIDs_app, I3, I5.
        + change (touched (evs ++ evs') ≤ 1)%nat. rewrite touched_app, T5. lia.
        + destruct v; try done. intros Hsafe. destruct Hv as (_ & _ & _ & _ & Hs). destruct (Hs Hsafe) as [W0 R0].
          change (touched (evs ++ evs') = O). rewrite touched_app, T5, T3' by done. done.
      - destruct v as [[e|resp b|resp b]|agent'|]; [done|by rewrite Hv|done| |done].
        destruct Hv as (V1 & V2 & V3 & V4 & _). rewrite V2, B4, B3. rewrite B4, B3, consume_replay in V4. split_and!; [done| | | |].
        + destruct (consume_some n _ _ Hsome) as [again ->]. by eexists.
        + by rewrite consume_replay.
        + intros k. rewrite consume_next; [by apply Hw|]. destruct V4 as [V4|V4]; [by left|]. destruct (HK k) as [Hr|Hl]; [by left|].
          right. by rewrite (Hn Hl).
        + rewrite A5, <- A4. exact V3. }
    destruct r as [err|resp].
    + destruct (handleError _ _ _ _ _ _ _ _ _ _ _ _) as [st5 v5] eqn:Eh. intros [= <- <-].
      pose proof (handleError_verdict st4 agent err o.(oWrote) o.(oRead)) as Hvd. rewrite Eh in Hvd.
      apply handleError_spec in Eh; [|done|done]. apply Hv; [exact Eh|]. by destruct v5 as [[]| |].
    + intros E. apply (handleResponse_spec st4 agent resp o.(oWrote) o.(oRead)) in E; [|done]. apply Hv; [exact E|].
      destruct v as [[]| |]; try done. by rewrite N4, N3.
Qed.
End one.

Context (rt : publicAgentAttemptRoundTripper) (req : retryRequest).

(** What is still owed when the loop ends. *)
Definition released st (r : tripResult) : Prop :=
  match r with
  | TripStream _ _ => ∃ agent, st.(held) = Some agent
  | TripBuffered _ _ => st.(held) = None ∧ st.(reqBody).(release) = None ∧ st.(reqBody).(original) = None
  | TripError _ => st.(held) = None
  end.

Record loopInv (K : Prop) (whole : list Byte.byte) st : Prop := {
  inv_server : serverOk st.(app);
  inv_tried : ∀ id, id ∈ attemptIDs st.(log) → id ∈ st.(attempted);
  inv_nodup : NoDup (attemptIDs st.(log));
  inv_whole : K → Forall (offers whole) st.(log) }.

Lemma turn_inv K whole st agent st' v : loopInv K whole st → agent.(LoadBalancer.connAgentID) ∉ st.(attempted) →
  turn rt K st agent whole st' v → loopInv K whole st' ∧ (length (attemptIDs st'.(log)) ≤ S (length (attemptIDs st.(log))))%nat.
Proof.
  intros [H1 H2 H3 H4] Hf (T1 & T2 & (evs & L & O & I & _) & _).
  assert (Hid : attemptIDs st'.(log) = attemptIDs st.(log) ++ attemptIDs evs) by by rewrite L, attemptIDs_app.
  split; [split|].
  - done.
  - intros id. rewrite Hid, T2. intros [Hid'|Hid']%elem_of_app; [apply H2 in Hid'; set_solver|]. destruct I as [I|I]; rewrite I in Hid'; set_solver.
  - rewrite Hid. destruct I as [->| ->]; [by rewrite app_nil_r|]. apply NoDup_app. split_and!; [done| |by apply NoDup_singleton].
    intros x Hx ->%list_elem_of_singleton. by apply Hf, H2.
  - intros k. rewrite L. apply Forall_app. auto.
  - rewrite Hid, length_app. destruct I as [->| ->]; simpl; lia.
Qed.

Context (Intn_range : ∀ g n, 0 < n → 0 ≤ (Intn g n).1 < n).
Context (iterate_all : ∀ agents, iterate agents ≡ₚ map_to_list agents).
Context (world : Z → attemptWorld (R := R) (M := M)).
Context (world_ok : ∀ k a, serverOk a → serverOk ((world k).(wServer) a)).

Lemma attempts_spec (K : Prop) maxAttempts whole n : ∀ attempt st agent st' r, loopInv K whole st → st.(held) = None →
  is_Some (next st.(reqBody)) → (K → canReplay st.(reqBody) = true ∨ ∀ k, lateFree (world k)) → (K → next st.(reqBody) = Some whole) → agent.(LoadBalancer.connAgentID) ∉ st.(attempted) →
  attempts Intn Int63n iterate rt req world maxAttempts n attempt st agent = Some (st', r) →
  loopInv K whole st' ∧ released st' r ∧ (length (attemptIDs st'.(log)) ≤ length (attemptIDs st.(log)) + n)%nat ∧
  (safeRule rt.(rtRule) → touched st.(log) = O → (touched st'.(log) ≤ 1)%nat).
Proof using Intn_range iterate_all world_ok.
  induction n as [|n IH]; intros attempt st agent st' r Hinv Hh Hs HK Hw Hf; cbn [attempts].
  { intros [= <- <-]. split_and!; [done|done|lia|lia]. }
  destruct (attemptOnce _ _ _ _ _ _ _ _ _ _) as [[st1 v]|] eqn:E; [|done].
  apply (attemptOnce_spec rt req (world attempt) attempt maxAttempts Intn_range iterate_all K st agent whole) in E;
    [|apply world_ok, Hinv|done|done|intros k; destruct (HK k); auto|done].
  destruct (turn_inv K whole st agent st1 v Hinv Hf E) as [Hinv1 Hlen].
  destruct E as (T1 & T2 & (evs & L & Ho & I & T & Tc) & Hv).
  assert (Htouch : touched st.(log) = O → (touched st1.(log) ≤ 1)%nat) by (intros Ht; rewrite L, touched_app, Ht; lia).
  destruct v as [r1|agent'|].
  - intros [= <- <-]. split_and!; [done| |lia|auto]. destruct r1 as [e|resp b|resp b]; [done|by exists agent|done].
  - intros E. destruct Hv as (V1 & V2 & Vr & V3 & V4). apply IH in E as (E1 & E2 & E3 & E4); [|done|done|done|by rewrite Vr|done|done].
    split_and!; [done|done|lia|]. intros Hsafe Ht. apply E4; [done|]. by rewrite L, touched_app, Ht, Tc.
  - intros [= <- <-]. split_and!; [done|done|lia|auto].
Qed.

(** A request up to the loop. *)
Lemma roundTrip_cases (K : Prop) a m st r :
  (K → (∀ m' b, preparePublicRetryRequestBody m req rt.(rtRule) = (m', inr b) → canReplay b = true) ∨ ∀ k, lateFree (world k)) → serverOk a → framed req → RoundTrip Intn Int63n iterate rt req world a m = Some (st, r) →
  let whole := match req.(Body) with None => [] | Some s => s.(streamBytes) end in
  (st.(log) = [] ∧ st.(held) = None ∧ st.(reqBody).(release) = None ∧ st.(reqBody).(original) = None ∧ ∃ e, r = TripError e) ∨
  ∃ st1, loopInv K whole st1 ∧ released st1 r ∧ (length (attemptIDs st1.(log)) ≤ Z.to_nat (maxAttemptsOf rt.(rtRule)))%nat ∧
    (safeRule rt.(rtRule) → (touched st1.(log) ≤ 1)%nat) ∧
    st = match r with TripError _ => closeRequestBody st1 | _ => st1 end.
Proof using Intn_range iterate_all world_ok.
  intros HK Ha Hfr. unfold RoundTrip. destruct rt.(rtInitial) as [initial|]; [|intros [= <- <-]; left; split_and!; eauto].
  destruct (preparePublicRetryRequestBody m req rt.(rtRule)) as [m' [e|b]] eqn:Ep; [intros [= <- <-]; left; split_and!; eauto|].
  destruct (prepare_whole m req rt.(rtRule) m' b Hfr Ep) as [Hw _]. cbv zeta. set (st0 := mkState a m' b _ ∅ None []).
  destruct (attempts _ _ _ _ _ _ _ _ _ _ _) as [[st1 r1]|] eqn:E; [|done].
  apply (attempts_spec K _ (match req.(Body) with None => [] | Some s => s.(streamBytes) end)) in E as (E1 & E2 & E3 & E4); [|by split; [|set_solver|constructor|constructor]|done|by eexists| |done|set_solver].
  2: { intros k. destruct (HK k) as [Hk|Hk]; [left; by eapply Hk|by right]. }
  intros Hr. right. exists st1. destruct r1; injection Hr as <- <-; (split_and!; [done|done|exact E3|intros Hs; by apply E4|done]).
Qed.
End steps.

(** ** The properties *)

Section theorems.
Context {R M : Type} `{ReplayResources M} (Intn Int63n : R → Z → Z * R).
Context (iterate : gmap Z Routing.publicAgentConfig → list (Z * Routing.publicAgentConfig)).

(** A rule that validation accepted without the acknowledgement of duplicates. *)
Lemma unacknowledged_safe getRoute getTarget request m input id created updated :
  validatePublicRetryRuleInput getRoute getTarget request m = inr input → request.(ReqDuplicateRiskAcknowledged) = false →
  safeRule (Some (loadedRule id input created updated)).
Proof.
  intros Hv Hack. apply validate_accepted in Hv as (f & b & p & Hf & _ & _ & _ & _ & _ & _ & _ & _ & _ & _ & Hrisk).
  unfold publicRetryRequiresDuplicateRiskAcknowledgement in Hrisk. cbn [safeRule loadedRule FailureMode retryStatusCodeSet ResponseBodyMode].
  destruct (String.eqb_spec input.(InputFailureMode) publicRetryFailureModePreResponseFailures) as [E1|E1];
    [by rewrite Hrisk in Hack|]. cbn [orb] in Hrisk.
  destruct input.(RetryStatusJSON) as [|x l] eqn:E2; [|by rewrite Hrisk in Hack]. cbn [length] in Hrisk.
  destruct (isBuffered input.(InputResponseBodyMode)) eqn:E3; [by rewrite Hrisk in Hack|].
  split_and!; [|done|done]. rewrite Hf in *. by destruct f.
Qed.

(** A request is tried on at most one agent, or one plus the retries of its rule (four
    without a rule), and never twice on the same agent, whatever the other requests,
    reconnections, cordons and clocks do in between. *)
Theorem retry_attempts_distinct rt req world (a : App R) (m : replayMemory M) st r :
  (∀ g n, 0 < n → 0 ≤ (Intn g n).1 < n) → (∀ agents, iterate agents ≡ₚ map_to_list agents) →
  (∀ k a, serverOk a → serverOk ((world k).(wServer) a)) → serverOk a → framed req →
  RoundTrip Intn Int63n iterate rt req world a m = Some (st, r) →
  NoDup (attemptIDs st.(log)) ∧ Z.of_nat (length (attemptIDs st.(log))) ≤ Z.max 0 (maxAttemptsOf rt.(rtRule)).
Proof.
  intros HI Hit Hw Ha Hfr E.
  destruct (roundTrip_cases Intn Int63n iterate rt req HI Hit world Hw False a m st r (False_ind _) Ha Hfr E) as [(-> & _)|(st1 & Hinv & _ & Hlen & _ & ->)].
  - split; [constructor|simpl; lia].
  - assert (El : (match r with TripError _ => closeRequestBody st1 | _ => st1 end).(log) = st1.(log)) by by destruct r.
    rewrite El. split; [apply Hinv|]. lia.
Qed.

(** C17: Every transport call of a request is offered its whole body, from the first byte,
    when the body was buffered for a replay (or there is none), whatever earlier calls go on
    reading after their return; and for a body that was not buffered, when the calls stop
    reading as they return: then an attempt that follows another never sends a body that was
    partly consumed.  A call that reads on after its return takes the bytes of an unbuffered
    body from the next attempt (late_read_loses). *)
Theorem retry_body_whole rt req world (a : App R) (m : replayMemory M) st r :
  (∀ g n, 0 < n → 0 ≤ (Intn g n).1 < n) → (∀ agents, iterate agents ≡ₚ map_to_list agents) →
  (∀ k a, serverOk a → serverOk ((world k).(wServer) a)) → serverOk a → framed req →
  (∀ m' b, preparePublicRetryRequestBody m req rt.(rtRule) = (m', inr b) → canReplay b = true) ∨ (∀ k, lateFree (world k)) →
  RoundTrip Intn Int63n iterate rt req world a m = Some (st, r) →
  ∀ agent offered wrote read, EvSent agent offered wrote read ∈ st.(log) →
    offered = match req.(Body) with None => [] | Some s => s.(streamBytes) end.
Proof.
  intros HI Hit Hw Ha Hfr Hkeep E agent offered wrote read Hin.
  destruct (roundTrip_cases Intn Int63n iterate rt req HI Hit world Hw True a m st r (λ _, Hkeep) Ha Hfr E) as [(El & _)|(st1 & Hinv & _ & _ & _ & ->)].
  - rewrite El in Hin. by apply elem_of_nil in Hin.
  - assert (El : (match r with TripError _ => closeRequestBody st1 | _ => st1 end).(log) = st1.(log)) by by destruct r.
    rewrite El in Hin. pose proof (inv_whole _ _ _ Hinv I) as Hall. rewrite Forall_forall in Hall. exact (Hall _ Hin).
Qed.

(** C16: Without a rule, and with a rule whose duplicate risk nobody acknowledged, at most
    one transport call of a request has written the request or read any of its body when it
    returned: retries cannot make an upstream see it twice. *)
Theorem retry_at_most_once getRoute getTarget request policy input id created updated rt req world (a : App R)
    (m : replayMemory M) st r :
  (∀ g n, 0 < n → 0 ≤ (Intn g n).1 < n) → (∀ agents, iterate agents ≡ₚ map_to_list agents) →
  (∀ k a, serverOk a → serverOk ((world k).(wServer) a)) → serverOk a → framed req →
  validatePublicRetryRuleInput getRoute getTarget request policy = inr input →
  request.(ReqDuplicateRiskAcknowledged) = false →
  rt.(rtRule) = None ∨ rt.(rtRule) = publicRetryRuleRowToConfig (storedRow id input created updated) →
  RoundTrip Intn Int63n iterate rt req world a m = Some (st, r) →
  (touched st.(log) ≤ 1)%nat.
Proof.
  intros HI Hit Hw Ha Hfr Hv Hack Hrule E.
  assert (Hsafe : safeRule rt.(rtRule)).
  { destruct Hrule as [->| ->]; [done|]. rewrite (rule_loaded getRoute getTarget request policy input id created updated Hv).
    by eapply unacknowledged_safe. }
  destruct (roundTrip_cases Intn Int63n iterate rt req HI Hit world Hw False a m st r (False_ind _) Ha Hfr E) as [(-> & _)|(st1 & _ & _ & _ & Ht & ->)].
  - unfold touched. simpl. lia.
  - assert (El : (match r with TripError _ => closeRequestBody st1 | _ => st1 end).(log) = st1.(log)) by by destruct r.
    rewrite El. by apply Ht.
Qed.

(** A request always ends when its rule does not buffer responses: some attempt
    returns a response or the attempts run out. *)
Theorem retry_returns rt req world (a : App R) (m : replayMemory M) :
  match rt.(rtRule) with Some rule => isBuffered rule.(ResponseBodyMode) = false | None => True end →
  ∃ st r, RoundTrip Intn Int63n iterate rt req world a m = Some (st, r).
Proof.
  intros Hs. unfold RoundTrip. destruct rt.(rtInitial) as [initial|]; [|by do 2 eexists].
  destruct (preparePublicRetryRequestBody m req rt.(rtRule)) as [m' [e|b]]; [by do 2 eexists|].
  assert (Honce : ∀ k attempt st agent, attemptOnce Intn Int63n iterate rt req (world k) attempt (maxAttemptsOf rt.(rtRule)) st agent ≠ None).
  { intros k attempt st agent. unfold attemptOnce. cbv zeta. case_goal; [|done].
    case_goal; [|done]. destruct (sendWithFallback _ _ _ _ _) as [[o fb] st3]. destruct (settle o fb st3) as [[err|resp] st4]; [done|].
    unfold handleResponse. cbv zeta. destruct (match rt.(rtRule) with Some r => _ | None => _ end) as [[outcome|agent'] st5]; [|done].
    destruct (prepare_response_safe rt req st5.(mem) resp Hs) as [p ->]. done. }
  assert (Hloop : ∀ n attempt st agent, ∃ st' r, attempts Intn Int63n iterate rt req world (maxAttemptsOf rt.(rtRule)) n attempt st agent = Some (st', r)).
  { induction n as [|n IH]; intros attempt st agent; cbn [attempts]; [by do 2 eexists|].
    specialize (Honce attempt attempt st agent). destruct (attemptOnce _ _ _ _ _ _ _ _ _ _) as [[st1 []]|]; [by do 2 eexists|apply IH|by do 2 eexists|done]. }
  destruct (Hloop (Z.to_nat (maxAttemptsOf rt.(rtRule))) 1 (mkState a m' b (newResult rt.(rtRule)) ∅ None []) initial) as (st & r & Hr).
  cbv zeta. rewrite Hr. destruct r; by do 2 eexists.
Qed.
End theorems.

(** ** Examples *)

(** Agents 4, 5 and 6 serve the target; a request is sent to 4 first. *)
Definition exampleAgents : App Z :=
  let connect h c := default h (AgentHub.connect h c) in
  mkApp (connect (connect (connect AgentHub.newAgentHub (AgentHub.mkConn 1 4 "agent-4")) (AgentHub.mkConn 2 5 "agent-5"))
           (AgentHub.mkConn 3 6 "agent-6"))
    TargetHealth.newPublicRouteTargetHealthMonitor None ∅ ∅ ∅ (λ _, 0) (λ _, 0).
Definition exampleSnap : Routing.publicProxySnapshot :=
  let agent := Routing.mkAgent true (Some {["zone" := "eu"]}) in
  Routing.mkSnapshot {[4 := agent; 5 := agent; 6 := agent]} ∅ ∅ ∅ ∅ ∅ ∅ ∅.
Definition exampleTripper (rule : option publicRetryRuleConfig) : publicAgentAttemptRoundTripper :=
  mkRoundTripper exampleSnap (exampleTarget 1 0 "agent") (Some (LoadBalancer.mkConn 1 4 0)) rule false.
Definition examplePost : retryRequest :=
  mkRetryRequest (exampleHTTP "POST") 2 (Some (mkStream [Byte.x61; Byte.x62] None None)).
Definition dialFailed : retryError :=
  mkRetryError "dial_failed" (mkAgentError (Some "dial_failed") false) false false false false false false false false false None.
Definition ok200 : response := mkResponse 200 (-1) ∅ (Some "text/plain") (Some [SourceRead [Byte.x6f] (Some EOF)]) [].

(** Agent 4 cannot be dialled, every other agent answers; [server] is what the rest of the
    server does before an attempt. *)
Definition exampleWorld (server : Z → App Z → App Z) (k : Z) : attemptWorld (R := Z) (M := unit) :=
  let answer (agent : LoadBalancer.AgentConn) (offered : list Byte.byte) :=
    if agent.(LoadBalancer.connAgentID) =? 4 then mkOutcome None (Some dialFailed) false 0 0
    else mkOutcome (Some ok200) None true (length offered) 0 in
  mkWorld (server k) id 7 7 CtxLive FailureNone answer answer.
Definition calm (k : Z) (a : App Z) : App Z := a.

Definition exampleTrip (rule : option publicRetryRuleConfig) (server : Z → App Z → App Z) : option (tripState * tripResult) :=
  RoundTrip LoadBalancer.counter_rng LoadBalancer.counter_rng map_to_list (exampleTripper rule) examplePost
    (exampleWorld server) exampleAgents (mkMemory (Some (newRetryReplayBudget 0)) tt).
Definition exampleLoaded : publicRetryRuleConfig := loadedRule 7 exampleInput 1 2.

(** The retry goes to agent 5 with the same two bytes. *)
Definition exampleEnd : tripState (R := Z) (M := unit) :=
  match exampleTrip (Some exampleLoaded) calm with
  | Some (st, _) => st
  | None => mkState exampleAgents (mkMemory None tt) (mkRequestBody None [] true true None) (newResult None) ∅ None []
  end.
Lemma exampleTrip_log : attemptIDs exampleEnd.(log) = [4; 5] ∧ exampleEnd.(result).(Outcome) = "recovered" ∧
  exampleEnd.(result).(RetryCount) = 1.
Proof. vm_compute. done. Qed.

Lemma exampleTrip_runs : exampleTrip (Some exampleLoaded) calm = Some (exampleEnd, TripStream ok200
  (BodyUpstream [SourceRead [Byte.x6f] (Some EOF)])).
Proof. vm_compute. reflexivity. Qed.

Lemma exampleAgents_ok : serverOk exampleAgents.
Proof.
  split; [exact I|]. unfold exampleAgents. cbn [hub].
  pose proof (AgentHub.run_wf [AgentHub.OpConnect (AgentHub.mkConn 1 4 "agent-4"); AgentHub.OpConnect (AgentHub.mkConn 2 5 "agent-5");
    AgentHub.OpConnect (AgentHub.mkConn 3 6 "agent-6")] AgentHub.newAgentHub AgentHub.hub_wf_new) as H. exact H.
Qed.
Lemma examplePost_framed : framed examplePost.
Proof. intros s [= <-] _. vm_compute. discriminate. Qed.
Lemma counter_range (g n : Z) : 0 < n → 0 ≤ (LoadBalancer.counter_rng g n).1 < n.
Proof. intros Hn. by apply Z.mod_pos_bound. Qed.

Lemma retry_attempts_distinct_witness : NoDup (attemptIDs exampleEnd.(log)).
Proof.
  assert (H : ∀ k a, serverOk a → serverOk ((exampleWorld calm k).(wServer) a)) by done.
  exact (proj1 (retry_attempts_distinct LoadBalancer.counter_rng LoadBalancer.counter_rng map_to_list
    (exampleTripper (Some exampleLoaded)) examplePost (exampleWorld calm) exampleAgents (mkMemory (Some (newRetryReplayBudget 0)) tt)
    _ _ counter_range (λ _, reflexivity _) H exampleAgents_ok examplePost_framed exampleTrip_runs)).
Defined.

Lemma example_prompt k : lateFree (exampleWorld calm k).
Proof. intros agent offered. unfold exampleWorld. cbn. by destruct (_ =? 4). Qed.

Lemma retry_body_whole_witness : ([Byte.x61; Byte.x62] : list byte) = match examplePost.(Body) with None => [] | Some s => s.(streamBytes) end.
Proof.
  assert (H : ∀ k a, serverOk a → serverOk ((exampleWorld calm k).(wServer) a)) by done.
  assert (Hin : EvSent (LoadBalancer.mkConn 2 5 0) [Byte.x61; Byte.x62] true 2 ∈ exampleEnd.(log)).
  { apply (list_elem_of_lookup_2 _ 4). by vm_compute. }
  exact (retry_body_whole LoadBalancer.counter_rng LoadBalancer.counter_rng map_to_list
    (exampleTripper (Some exampleLoaded)) examplePost (exampleWorld calm) exampleAgents (mkMemory (Some (newRetryReplayBudget 0)) tt)
    _ _ counter_range (λ _, reflexivity _) H exampleAgents_ok examplePost_framed (or_intror example_prompt) exampleTrip_runs _ _ _ _ Hin).
Defined.

Lemma retry_at_most_once_witness : (touched exampleEnd.(log) ≤ 1)%nat.
Proof.
  assert (H : ∀ k a, serverOk a → serverOk ((exampleWorld calm k).(wServer) a)) by done.
  exact (retry_at_most_once LoadBalancer.counter_rng LoadBalancer.counter_rng map_to_list exampleGetRoute exampleGetTarget
    (exampleRuleRequest false) (Some exampleMatch) exampleInput 7 1 2 (exampleTripper (Some exampleLoaded)) examplePost
    (exampleWorld calm) exampleAgents (mkMemory (Some (newRetryReplayBudget 0)) tt) _ _ counter_range (λ _, reflexivity _) H
    exampleAgents_ok examplePost_framed exampleRule_valid eq_refl
    (or_intror (eq_sym (rule_loaded _ _ _ _ _ 7 1 2 exampleRule_valid))) exampleTrip_runs).
Defined.

Lemma retry_returns_witness : ∃ st r, exampleTrip None calm = Some (st, r).
Proof.
  exact (retry_returns LoadBalancer.counter_rng LoadBalancer.counter_rng map_to_list (exampleTripper None) examplePost
    (exampleWorld calm) exampleAgents (mkMemory (Some (newRetryReplayBudget 0)) tt) I).
Defined.

(** Agent 4 answers 503 before it has read any of the body, which is not buffered, and reads a
    byte of it after that: the retry on agent 5 is offered the second byte only. *)
Definition lateWorld (k : Z) : attemptWorld (R := Z) (M := unit) :=
  let answer (agent : LoadBalancer.AgentConn) (offered : list Byte.byte) :=
    if agent.(LoadBalancer.connAgentID) =? 4 then mkOutcome (Some (mkResponse 503 0 ∅ None None [])) None false 0 1
    else mkOutcome (Some ok200) None true (length offered) 0 in
  mkWorld id id 7 7 CtxLive FailureNone answer answer.
Definition statusRetry : publicRetryRuleConfig :=
  loadedRule 7 (mkInput "status" 10 1 ["POST"] 1 "connection_failures" "never" 0 "stream" 0 0 [503] [] [] exampleMatch) 1 2.
Example late_read_loses :
  match RoundTrip LoadBalancer.counter_rng LoadBalancer.counter_rng map_to_list (exampleTripper (Some statusRetry)) examplePost
    lateWorld exampleAgents (mkMemory (Some (newRetryReplayBudget 0)) tt) with
  | Some (st, TripStream _ _) => List.filter isSent st.(log) =
      [EvSent (LoadBalancer.mkConn 1 4 0) [Byte.x61; Byte.x62] false 0; EvSent (LoadBalancer.mkConn 2 5 0) [Byte.x62] true 1]
  | _ => False
  end.
Proof. vm_compute. reflexivity. Qed.

(** A cordoned agent uses up an attempt: with one retry left and agent 5 cordoned just
    before it, the request fails although agent 6 was never tried. *)
Definition cordonFive (k : Z) (a : App Z) : App Z :=
  if k =? 2 then mkApp a.(hub) a.(health) a.(LoadBalancers) a.(agentResourcePressureUntil) {[5]} a.(latestAgentStats)
                   a.(connectedAt) a.(connActive) else a.
Definition oneRetry : publicRetryRuleConfig :=
  loadedRule 7 (mkInput "reads" 10 1 ["GET"] 1 "connection_failures" "never" 0 "stream" 0 0 [] [] [] exampleMatch) 1 2.
Example cordon_uses_attempt :
  match exampleTrip (Some oneRetry) cordonFive with
  | Some (st, TripError e) => e = errNoUntriedAgent ∧ attemptIDs st.(log) = [4] ∧ 6 ∉ st.(attempted)
  | _ => False
  end.
Proof. vm_compute. split_and!; [done|done|]. intros H. set_solver. Qed.
End RetryTransport.
