(* ===== verification/RetryLedger.v ===== *)
(** What a retried request takes and gives back (internal/server/public_retry_transport.go):
    the counters of active requests of the agents' connections and the bytes of the replay
    budget.  The books of a state are the counters less what the request holds of them; every
    operation of RetryTransport.v keeps the books, so that a request which ended, its response
    closed, has changed no counter. *)

From S2P Require Import Prelude.
From S2P Require Import LoadBalancer.
From S2P Require Import Routing.
From S2P Require Import TargetSelection.
From S2P Require Import RetryPolicy.
From S2P Require Import RetryBuffers.
From S2P Require Import RetryTransport.

Module RetryLedger.
Import TargetSelection.
Import RetryPolicy.
Import RetryBuffers.
Import RetryTransport.

(** ** Wrap-around *)

Lemma i64_add_l x y : i64 (i64 x + y) = i64 (x + y).
Proof.
  unfold i64, two63, two64. replace ((x + 9223372036854775808) mod 18446744073709551616 - 9223372036854775808 + y + 9223372036854775808)
    with ((x + 9223372036854775808) mod 18446744073709551616 + y) by lia.
  rewrite Zplus_mod_idemp_l. f_equal. f_equal. lia.
Qed.
Lemma i64_sub_l x y : i64 (i64 x - y) = i64 (x - y).
Proof. unfold Z.sub. apply i64_add_l. Qed.

(** ** The bytes of the budget *)

Section bytes.
Context {M : Type} `{ReplayResources M}.
Implicit Types m : replayMemory M.

(** The bytes in use besides [d], an int64. *)
Definition bytes m (d : Z) : option Z := (λ b, i64 (b.(used) - d)) <$> m.(replayBudget).

Definition handled (h : option replayHandle) : Z := match h with Some h => h.(handleBytes) | None => 0 end.
Definition due (b : publicRetryRequestBody) : Z := handled b.(release).
Definition kept (b : preparedBody) : Z :=
  match b with BodyNone | BodyUpstream _ => 0 | BodyWhole _ h | BodyPrefixed _ _ h => h.(handleBytes) end.

Lemma bytes_plus_0 m d : (λ u, i64 (u + 0)) <$> bytes m d = bytes m d.
Proof. unfold bytes. destruct m.(replayBudget) as [b|]; [|done]. cbn. by rewrite i64_add_l, Z.add_0_r. Qed.

Lemma tryAcquire_used b size b' n : tryAcquire b size = Some (b', n) → ∀ d, i64 (b'.(used) - (d + n)) = i64 (b.(used) - d).
Proof.
  unfold tryAcquire. case_if E1; [intros [= <- <-] d; f_equal; lia|]. case_if E2; [done|]. intros [= <- <-] d. cbn.
  rewrite i64_sub_l. f_equal. lia.
Qed.

Lemma acquire_bytes m p w m' h d : tryAcquireRetryReplayReservation m p w = (m', h) → bytes m' (d + handled h) = bytes m d.
Proof.
  unfold tryAcquireRetryReplayReservation, bytes. destruct m.(replayBudget) as [b|] eqn:Eb; [|intros [= <- <-]; by rewrite Eb].
  assert (Hnone : (λ b, i64 (b.(used) - (d + 0))) <$> m.(replayBudget) = Some (i64 (b.(used) - d))) by (rewrite Eb; cbn; do 2 f_equal; lia).
  case_if E1; [intros [= <- <-]; exact Hnone|]. destruct (tryAcquire b p) as [[b' n]|] eqn:Ea; [|intros [= <- <-]; exact Hnone].
  pose proof (tryAcquire_used _ _ _ _ Ea) as Hu. destruct (reserveResource _ _) as [m2 []]; intros [= <- <-]; cbn; f_equal; [|apply Hu..].
  rewrite i64_sub_l, <-(Hu d). f_equal. lia.
Qed.

Lemma releaseBudget_bytes m h d : bytes (releaseHandleBudget m h) d = bytes m (d + h.(handleBytes)).
Proof. unfold bytes, releaseHandleBudget. cbn. destruct m.(replayBudget) as [b|]; [|done]. cbn. rewrite i64_sub_l. do 2 f_equal. lia. Qed.
Lemma release_bytes m h d : bytes (releaseHandle m h) d = bytes m (d + h.(handleBytes)).
Proof. unfold releaseHandle. rewrite releaseBudget_bytes. done. Qed.

Lemma prepareRequest_bytes m req rule m' res : preparePublicRetryRequestBody m req rule = (m', res) →
  bytes m' (match res with inl _ => 0 | inr b => due b end) = bytes m 0.
Proof.
  unfold preparePublicRetryRequestBody. destruct req.(Body) as [s|]; [|by intros [= <- <-]].
  destruct (replaySizes req rule) as [[n k]|]; [|by intros [= <- <-]]. destruct rule as [rule|]; [|by intros [= <- <-]].
  destruct (publicRetryRequestWorkingBytes k) as [w|]; [|by intros [= <- <-]].
  destruct (tryAcquireRetryReplayReservation m n w) as [m1 h] eqn:Ea. pose proof (acquire_bytes _ _ _ _ _ 0 Ea) as Hb.
  destruct h as [h|]; [|intros [= <- <-]; exact Hb]. destruct (readAllLimited k s) as [prefix err]. cbv zeta.
  destruct (match err with Some e => Some e | None => _ end) as [e|]; [intros [= <- <-]; rewrite release_bytes; exact Hb|].
  case_if E; [intros [= <- <-]; exact Hb|]. destruct s.(streamCloseErr); intros [= <- <-]; [rewrite release_bytes|]; exact Hb.
Qed.

Lemma prepareResponse_bytes m req resp rule m' res d : preparePublicRetryResponseBody m req resp rule = Some (m', res) →
  bytes m' (d + match res with inl _ => 0 | inr p => kept p.(body) end) = bytes m d.
Proof.
  unfold preparePublicRetryResponseBody. assert (H0 : bytes m (d + 0) = bytes m d) by by rewrite Z.add_0_r.
  destruct resp.(RespBody) as [reads|]; [|by intros [= <- <-]]. destruct rule as [rule|]; [|by intros [= <- <-]]. cbv zeta.
  case_if E1; [by intros [= <- <-]|]. case_if E2; [by intros [= <- <-]|]. destruct m.(replayBudget); [|by intros [= <- <-]].
  destruct (publicRetryResponseWorkingBytes _) as [w|]; [|by intros [= <- <-]].
  destruct (tryAcquireRetryReplayReservation m _ w) as [m1 h] eqn:Ea. pose proof (acquire_bytes _ _ _ _ _ d Ea) as Hb.
  destruct h as [h|]; [|intros [= <- <-]; exact Hb].
  destruct (readPublicRetryResponseBodyBeforeDeadline _ _ _ _) as [[e|prefix|prefix tail chunks skip]|]; [..|done]; intros [= <- <-]; [|exact Hb..].
  rewrite releaseBudget_bytes. by rewrite Z.add_0_r.
Qed.

Lemma closePrepared_bytes m b d : bytes (closePrepared m b) d = bytes m (d + kept b).
Proof. destruct b; cbn; rewrite ?Z.add_0_r; [done|done|apply releaseBudget_bytes..]. Qed.
End bytes.

(** ** The books of a request *)

Section books.
Context {R M : Type} `{ReplayResources M} (Intn Int63n : R → Z → Z * R).
Context (iterate : gmap Z Routing.publicAgentConfig → list (Z * Routing.publicAgentConfig)).
Implicit Types st : tripState (R := R) (M := M).

Definition heldAt (h : option LoadBalancer.AgentConn) (c : Z) : Z :=
  match h with Some agent => if c =? Z.pos agent.(LoadBalancer.connPtr) then 1 else 0 | None => 0 end.
Definition active st (c : Z) : Z := st.(app).(connActive) c - heldAt st.(held) c.

(** From one state to another the books stay; [k] bytes are with the response. *)
Definition balanced st st' (k : Z) : Prop :=
  (∀ c, active st' c = active st c) ∧ bytes st'.(mem) (due st'.(reqBody) + k) = bytes st.(mem) (due st.(reqBody)).

Lemma balanced_refl st : balanced st st 0.
Proof. split; [done|]. by rewrite Z.add_0_r. Qed.
Lemma balanced_trans st1 st2 st3 k : balanced st1 st2 0 → balanced st2 st3 k → balanced st1 st3 k.
Proof. intros [A1 B1] [A2 B2]. split; [intros c; by rewrite A2|]. by rewrite B2, <-B1, Z.add_0_r. Qed.
(** A step that leaves counters, memory and body alone. *)
Lemma balanced_frame st st' : st'.(app).(connActive) = st.(app).(connActive) → st'.(held) = st.(held) → st'.(mem) = st.(mem) →
  due st'.(reqBody) = due st.(reqBody) → balanced st st' 0.
Proof. intros Ha Hh Hm Hb. split; [intros c; unfold active; by rewrite Ha, Hh|]. by rewrite Hm, Hb, Z.add_0_r. Qed.

Lemma balanced_release st : balanced st (releaseActiveRequest st) 0.
Proof.
  unfold releaseActiveRequest. destruct st.(held) as [agent|] eqn:Eh; [|apply balanced_refl]. split; [|cbn; by rewrite Z.add_0_r].
  intros c. unfold active. rewrite Eh. cbn. destruct (c =? _); lia.
Qed.
Lemma release_mem st : (releaseActiveRequest st).(mem) = st.(mem).
Proof. unfold releaseActiveRequest. by destruct st.(held). Qed.
Lemma balanced_begin st agent st' : st.(held) = None → beginAgentUpdateProtectedRequest st agent = Some st' → balanced st st' 0.
Proof.
  intros Hh. unfold beginAgentUpdateProtectedRequest. case_if E; [done|]. intros [= <-]. split; [|cbn; by rewrite Z.add_0_r].
  intros c. unfold active. rewrite Hh. cbn. destruct (c =? _); lia.
Qed.
Lemma balanced_close st k : bytes (closeRequestBody st).(mem) (due (closeRequestBody st).(reqBody) + k) = bytes st.(mem) (due st.(reqBody) + k)
  ∧ ∀ c, active (closeRequestBody st) c = active st c.
Proof.
  split; [|done]. unfold closeRequestBody, closeBody, due. cbn [mem reqBody withBody withMem release handled].
  destruct st.(reqBody).(release) as [h|]; cbn [handled]; [|done].
  rewrite release_bytes. f_equal. lia.
Qed.
Lemma balanced_closed st : balanced st (closeRequestBody st) 0.
Proof. destruct (balanced_close st 0) as [Hb Ha]. split; [done|]. by rewrite Hb, Z.add_0_r. Qed.
Lemma due_consume n b : due (consume n b) = due b.
Proof. unfold consume. by case_goal. Qed.

(** The choice of an agent changes no counter. *)
Lemma balance_active (a : App R) target cs : (balanceAgents Intn Int63n a target cs).2.(connActive) = a.(connActive).
Proof.
  unfold balanceAgents. destruct cs; [done|]. destruct a.(LoadBalancers); [|done]. by destruct (LoadBalancer.selectTargetAgent _ _ _ _ _).
Qed.
Lemma eligible_active (a : App R) snap target now :
  (eligibleTargetAgentCandidatesFromSnapshot iterate a snap target now).2.(connActive) = a.(connActive).
Proof. unfold eligibleTargetAgentCandidatesFromSnapshot. by destruct (scanAgents _ _ _ _ _) as [[? ?] ?]. Qed.
Lemma balanced_select rt w st : balanced st (selectNext Intn Int63n iterate rt w st).2 0.
Proof.
  unfold selectNext, selectTargetAgentExcludingFromSnapshot. pose proof (eligible_active st.(app) rt.(rtSnapshot) rt.(rtTarget) w.(wNow)) as He.
  destruct (eligibleTargetAgentCandidatesFromSnapshot _ _ _ _ _) as [cs a]. cbn in He.
  match goal with |- context [balanceAgents Intn Int63n a ?t ?l] => pose proof (balance_active a t l) as Hb; destruct (balanceAgents Intn Int63n a t l) as [n a'] end.
  cbn in Hb. apply balanced_frame; cbn; [congruence|done..].
Qed.
Lemma balanced_selectUnpressured rt w st : balanced st (selectNextUnpressured Intn Int63n iterate rt w st).2 0.
Proof.
  unfold selectNextUnpressured, selectUnpressuredTargetAgentExcludingFromSnapshot.
  pose proof (eligible_active st.(app) rt.(rtSnapshot) rt.(rtTarget) w.(wNow)) as He.
  destruct (eligibleTargetAgentCandidatesFromSnapshot _ _ _ _ _) as [cs a]. cbn in He. destruct (filterUnpressured _ _ _ _ _) as [fs p].
  match goal with |- context [balanceAgents Intn Int63n ?b ?t ?l] => pose proof (balance_active b t l) as Hb; destruct (balanceAgents Intn Int63n b t l) as [n a'] end.
  cbn in Hb. apply balanced_frame; cbn; [congruence|done..].
Qed.

(** *** One attempt *)

Section attempt.
Context (rt : publicAgentAttemptRoundTripper) (req : retryRequest) (w : attemptWorld (R := R) (M := M)) (attempt maxAttempts : Z).

Lemma balanced_result st r : balanced st (withResult st r) 0.
Proof. by apply balanced_frame. Qed.
Lemma balanced_emit st e : balanced st (emit st e) 0.
Proof. by apply balanced_frame. Qed.
Lemma balanced_passive st agent err : balanced st (passiveFailure rt w st agent err) 0.
Proof. unfold passiveFailure. case_goal; [by apply balanced_frame|apply balanced_refl]. Qed.
Lemma balanced_retry st agent agent' kind : balanced st (retryWith attempt st agent agent' kind) 0.
Proof. by apply balanced_frame. Qed.
Lemma balanced_record st agent err outcome skip : balanced st (recordResponseBodyFailure rt w attempt st agent err outcome skip).2 0.
Proof. unfold recordResponseBodyFailure. cbv zeta. cbn [snd]. eapply balanced_trans; [apply balanced_result|apply balanced_passive]. Qed.
Lemma balanced_pressure st id now : balanced st (withApp st (markAgentRoutingResourcePressure st.(app) id now)) 0.
Proof. apply balanced_frame; [|done..]. unfold markAgentRoutingResourcePressure. by case_goal. Qed.

Lemma balanced_send transport st agent offered : balanced st (send transport st agent offered).2 0.
Proof. apply balanced_frame; [done..|]. cbn. apply due_consume. Qed.

Lemma balanced_sendWithFallback st agent offered : balanced st (sendWithFallback rt w st agent offered).2 0.
Proof.
  unfold sendWithFallback. pose proof (balanced_send w.(wTransport) st agent offered) as H1.
  destruct (send _ _ _ _) as [o st1]. cbn in H1. case_goal; [|done]. set (st2 := match o.(oErr) with Some e => _ | None => _ end).
  assert (H2 : balanced st st2 0).
  { unfold st2. destruct o.(oErr); [case_goal|]; [|done..]. eapply balanced_trans; [exact H1|apply balanced_emit]. }
  destruct (next st2.(reqBody)) as [again|]; [|done]. pose proof (balanced_send w.(wOneShot) st2 agent again) as H3.
  destruct (send _ _ _ _) as [o2 st3]. cbn in H3 |- *. by eapply balanced_trans.
Qed.

Lemma balanced_settle o fb st : balanced st (settle o fb st).2 0.
Proof.
  unfold settle. set (x := match o.(oErr) with Some e => _ | None => _ end).
  assert (Hx : balanced st x.2 0) by (unfold x; destruct o.(oErr); [|destruct o.(oResp)]; cbn; apply balanced_release || apply balanced_refl).
  destruct x as [r st1]. cbn in Hx |- *. destruct fb; [|done]. eapply balanced_trans; [exact Hx|apply balanced_emit].
Qed.

Lemma balanced_handleError st agent err wrote read :
  balanced st (handleError Intn Int63n iterate rt w attempt maxAttempts st agent err wrote read).1 0.
Proof.
  unfold handleError. cbv zeta. set (st1 := match err.(agentErr).(dialKind) with Some k => _ | None => st end).
  assert (H1 : balanced st st1 0) by (unfold st1; destruct err.(agentErr).(dialKind) as [k|];
    [destruct (agentDialErrorIsLocalCapacity k); [apply balanced_emit|apply balanced_refl]|apply balanced_refl]).
  set (st2 := passiveFailure _ _ _ _ _). assert (H2 : balanced st st2 0).
  { eapply balanced_trans; [exact H1|]. eapply balanced_trans; [apply balanced_result|apply balanced_passive]. }
  set (st3 := if pressureFailover rt w err wrote read then _ else st2).
  assert (H3 : balanced st st3 0) by (unfold st3; case_goal; [eapply balanced_trans; [exact H2|apply balanced_pressure]|exact H2]).
  clearbody st3. case_goal; [eapply balanced_trans; [exact H3|apply balanced_result]|].
  case_goal; [eapply balanced_trans; [exact H3|apply balanced_result]|].
  set (sel := if pressureFailover rt w err wrote read then _ else _).
  assert (H4 : balanced st sel.2 0).
  { eapply balanced_trans; [exact H3|]. unfold sel. case_goal; [apply balanced_selectUnpressured|apply balanced_select]. }
  destruct sel as [[agent'|] st4]; cbn in H4 |- *; (eapply balanced_trans; [exact H4|]); [apply balanced_retry|apply balanced_result].
Qed.

Lemma balanced_retryStatus st agent resp read :
  balanced st (retryStatus Intn Int63n iterate rt w attempt maxAttempts st agent resp read).2 0.
Proof.
  unfold retryStatus. cbv zeta. set (st1 := withResult st _). assert (H1 : balanced st st1 0) by apply balanced_result.
  case_goal; [done|]. case_goal; [eapply balanced_trans; [exact H1|apply balanced_result]|].
  pose proof (balanced_select rt w st1) as H2. destruct (selectNext _ _ _ _ _ _) as [[agent'|] st2]; cbn in H2 |- *;
    apply (balanced_trans _ _ _ _ H1) in H2; [|exact H2]. eapply balanced_trans; [exact H2|]. eapply balanced_trans; [apply balanced_release|apply balanced_retry].
Qed.

Lemma balanced_bodyFailed st agent err read :
  balanced st (responseBodyFailed Intn Int63n iterate rt w attempt maxAttempts st agent err read).1 0.
Proof.
  unfold responseBodyFailed. cbv zeta. set (st1 := releaseActiveRequest st). assert (H1 : balanced st st1 0) by apply balanced_release.
  case_goal; [eapply balanced_trans; [exact H1|apply balanced_result]|].
  pose proof (balanced_record st1 agent err publicRetryOutcomeExhausted "") as H2.
  destruct (recordResponseBodyFailure _ _ _ _ _ _ _ _) as [kind st2]. cbn in H2. apply (balanced_trans _ _ _ _ H1) in H2.
  case_goal; [done|]. case_goal; [eapply balanced_trans; [exact H2|apply balanced_result]|].
  pose proof (balanced_select rt w st2) as H3. destruct (selectNext _ _ _ _ _ _) as [[agent'|] st3]; cbn in H3 |- *;
    apply (balanced_trans _ _ _ _ H2) in H3; [|done].
  eapply balanced_trans; [exact H3|]. eapply balanced_trans; [apply balanced_result|apply balanced_retry].
Qed.

(** The bytes that a result leaves with the response. *)
Definition resultBytes (r : tripResult) : Z := match r with TripError _ => 0 | TripStream _ b | TripBuffered _ b => kept b end.
Definition verdictBytes (v : verdict) : Z := match v with Return r => resultBytes r | _ => 0 end.

Lemma balanced_deliver st st0 resp prepared outcome : balanced st0 st (kept prepared.(body)) →
  let res := deliver rt attempt st resp prepared outcome in balanced st0 res.1 (verdictBytes res.2).
Proof.
  intros [Ha Hb]. unfold deliver. case_goal; cbn.
  - destruct (balanced_close (releaseActiveRequest st) (kept prepared.(body))) as [Hb1 Ha1]. destruct (balanced_release st) as [Ha2 Hb2].
    split; [intros c; etrans; [exact (Ha1 c)|by rewrite Ha2]|]. rewrite <-Hb. etrans; [exact Hb1|].
    by rewrite release_body, (release_mem st).
  - by destruct (_ && _)%bool; split.
Qed.

Lemma balanced_handleResponse st agent resp read st' v :
  handleResponse Intn Int63n iterate rt req w attempt maxAttempts st agent resp read = Some (st', v) → balanced st st' (verdictBytes v).
Proof.
  unfold handleResponse. cbv zeta. set (choice := match rt.(rtRule) with Some r => _ | None => _ end).
  assert (Hc : balanced st choice.2 0).
  { unfold choice. destruct rt.(rtRule); [case_goal; [apply balanced_retryStatus|]|]; apply balanced_refl. }
  destruct choice as [[outcome|agent'] st1]; cbn in Hc; [|by intros [= <- <-]].
  destruct (preparePublicRetryResponseBody st1.(mem) req resp rt.(rtRule)) as [[m [err|prepared]]|] eqn:Ep; [| |done].
  - pose proof (prepareResponse_bytes _ _ _ _ _ _ (due st1.(reqBody)) Ep) as Hb. intros [= E].
    pose proof (balanced_bodyFailed (withMem st1 m) agent err read) as Hf. rewrite E in Hf. cbn in Hf.
    replace (verdictBytes v) with 0; [eapply balanced_trans; [|exact Hf]; eapply balanced_trans; [exact Hc|by split]|].
    revert E. unfold responseBodyFailed. repeat case_goal; by intros [= <- <-].
  - pose proof (prepareResponse_bytes _ _ _ _ _ _ (due st1.(reqBody)) Ep) as Hb. intros [= E].
    pose proof (balanced_deliver (withMem st1 m) st resp prepared outcome) as Hd. rewrite E in Hd. apply Hd.
    eapply balanced_trans; [exact Hc|by split].
Qed.

(** A turn of the loop, from the state the rest of the server left. *)
Lemma balanced_attempt st agent st' v : st.(held) = None →
  attemptOnce Intn Int63n iterate rt req w attempt maxAttempts st agent = Some (st', v) →
  balanced (withMem (withApp st (w.(wServer) st.(app))) (w.(wMemory) st.(mem))) st' (verdictBytes v).
Proof.
  intros Hh. unfold attemptOnce. cbv zeta. set (st0 := withMem _ _). set (st1 := withResult _ _).
  assert (H1 : balanced st0 st1 0) by by apply balanced_frame.
  destruct (beginAgentUpdateProtectedRequest st1 agent) as [st2|] eqn:Eb.
  2: { pose proof (balanced_select rt w st1) as H2. destruct (selectNext _ _ _ _ _ _) as [[agent'|] st2]; cbn in H2;
         intros [= <- <-]; (eapply balanced_trans; [exact H1|exact H2]). }
  apply balanced_begin in Eb as H2; [|done]. apply (balanced_trans _ _ _ _ H1) in H2. destruct (next st2.(reqBody)) as [offered|].
  2: { intros [= <- <-]. eapply balanced_trans; [exact H2|]. eapply balanced_trans; [apply balanced_release|apply balanced_result]. }
  pose proof (balanced_sendWithFallback (emit st2 (EvAttempt agent attempt)) agent offered) as H3.
  destruct (sendWithFallback _ _ _ _ _) as [[o fb] st3]. cbn [snd] in H3. apply (balanced_trans _ _ _ _ (balanced_emit st2 (EvAttempt agent attempt))) in H3.
  apply (balanced_trans _ _ _ _ H2) in H3. pose proof (balanced_settle o fb st3) as H4.
  destruct (settle o fb st3) as [[err|resp] st4]; cbn [snd] in H4; apply (balanced_trans _ _ _ _ H3) in H4.
  - intros [= E]. pose proof (balanced_handleError st4 agent err o.(oWrote) o.(oRead)) as H5.
    pose proof (handleError_verdict Intn Int63n iterate rt w attempt maxAttempts st4 agent err o.(oWrote) o.(oRead)) as Hv. rewrite E in H5, Hv. cbn in H5, Hv.
    replace (verdictBytes v) with 0 by by destruct v as [[]| |]. eapply balanced_trans; [exact H4|exact H5].
  - intros E. apply balanced_handleResponse in E. eapply balanced_trans; [exact H4|exact E].
Qed.
End attempt.

(** *** The end of a request *)

(** When the loop has ended, the response is closed and with it what the request held. *)
Lemma closed_books st r : released st r → let final := closeResponse (match r with TripError _ => closeRequestBody st | _ => st end) r in
  (∀ c, final.(app).(connActive) c = active st c) ∧ bytes final.(mem) 0 = bytes st.(mem) (due st.(reqBody) + resultBytes r).
Proof.
  assert (Hnone : ∀ s : tripState (R := R) (M := M), s.(held) = None → ∀ c, s.(app).(connActive) c = active s c).
  { intros s Hs c. unfold active. rewrite Hs. cbn. lia. }
  destruct r as [e|resp b|resp b]; cbn [released resultBytes closeResponse].
  - intros Hh. split; [by apply (Hnone st)|]. apply (balanced_close st 0).
  - intros _. set (st1 := withMem st (closePrepared st.(mem) b)). unfold finishStream. destruct (balanced_close (releaseActiveRequest st1) 0) as [Hb Ha].
    split.
    + intros c. destruct (balanced_release st1) as [Hr _]. transitivity (active (releaseActiveRequest st1) c); [|exact (Hr c)].
      apply (Hnone (releaseActiveRequest st1)), release_held.
    + etrans; [exact Hb|]. rewrite release_body, release_mem. cbn. rewrite closePrepared_bytes. f_equal. lia.
  - intros (Hh & Hrel & _). split; [by apply (Hnone st)|]. cbn. rewrite closePrepared_bytes. unfold due. by rewrite Hrel.
Qed.

(** ** A whole request *)

(** What the rest of the server adds up to over [n] turns. *)
Fixpoint total (f : Z → Z) (from : Z) (n : nat) : Z :=
  match n with O => 0 | S n => f from + total f (from + 1) n end.

Section request.
Context (rt : publicAgentAttemptRoundTripper) (req : retryRequest) (world : Z → attemptWorld (R := R) (M := M)).
Context (others : Z → Z → Z) (grants : Z → Z).
Hypothesis Intn_range : ∀ g n, 0 < n → 0 ≤ (Intn g n).1 < n.
Hypothesis iterate_all : ∀ agents, iterate agents ≡ₚ map_to_list agents.
Hypothesis world_ok : ∀ k a, serverOk a → serverOk ((world k).(wServer) a).
Hypothesis world_active : ∀ k a c, ((world k).(wServer) a).(connActive) c = a.(connActive) c + others k c.
Hypothesis world_budget : ∀ k m, ((world k).(wMemory) m).(replayBudget)
  = (λ b, mkBudget b.(limit) (i64 (b.(used) + grants k))) <$> m.(replayBudget).

Lemma bytes_others k m d : bytes ((world k).(wMemory) m) d = (λ u, i64 (u + grants k)) <$> bytes m d.
Proof using world_budget.
  unfold bytes. rewrite world_budget. destruct m.(replayBudget) as [b|]; [|done]. cbn. rewrite i64_sub_l, i64_add_l. do 2 f_equal. lia.
Qed.

Lemma attempts_books maxAttempts n : ∀ attempt st agent st' r, serverOk st.(app) → st.(held) = None → is_Some (next st.(reqBody)) →
  attempts Intn Int63n iterate rt req world maxAttempts n attempt st agent = Some (st', r) →
  ∃ k, (k ≤ n)%nat ∧ (∀ c, active st' c = active st c + total (λ i, others i c) attempt k)
    ∧ bytes st'.(mem) (due st'.(reqBody) + resultBytes r) = (λ u, i64 (u + total grants attempt k)) <$> bytes st.(mem) (due st.(reqBody)).
Proof using All.
  induction n as [|n IH]; intros attempt st agent st' r Ha Hh Hn; cbn [attempts].
  { intros [= <- <-]. exists O. cbn. rewrite Z.add_0_r, bytes_plus_0. split_and!; [lia|intros; lia|done]. }
  destruct (attemptOnce _ _ _ _ _ _ _ _ _ _) as [[st1 v]|] eqn:E; [|done].
  pose proof (balanced_attempt rt req (world attempt) attempt maxAttempts st agent st1 v Hh E) as [Hact Hbyt].
  apply (attemptOnce_spec Intn Int63n iterate rt req (world attempt) attempt maxAttempts Intn_range iterate_all False st agent []) in E
    as (T1 & _ & _ & Hv); [|by apply world_ok|done|done|done|done].
  assert (Hact' : ∀ c, active st1 c = active st c + others attempt c).
  { intros c. rewrite Hact. unfold active. cbn. rewrite world_active. lia. }
  cbn in Hbyt. rewrite bytes_others in Hbyt.
  assert (Hend : ∀ r', v = Return r' ∨ (v = Break ∧ r' = TripError errNoUntriedAgent) → ∃ k, (k ≤ S n)%nat ∧
    (∀ c, active st1 c = active st c + total (λ i, others i c) attempt k)
    ∧ bytes st1.(mem) (due st1.(reqBody) + resultBytes r') = (λ u, i64 (u + total grants attempt k)) <$> bytes st.(mem) (due st.(reqBody))).
  { intros r' Hr. exists 1%nat. cbn. rewrite Z.add_0_r. split_and!; [lia|intros c; rewrite Hact'; lia|].
    rewrite <-Hbyt. by destruct Hr as [->|[-> ->]]. }
  destruct v as [r1|agent'|]; [intros [= <- <-]; apply Hend; by left| |intros [= <- <-]; apply Hend; by right].
  intros E. destruct Hv as (V1 & V2 & _). apply IH in E as (k & Hk & Hc & Hb); [|done..]. exists (S k). split_and!; [lia| |].
  - intros c. rewrite Hc, Hact'. cbn. lia.
  - rewrite Hb. cbn in Hbyt. rewrite Z.add_0_r in Hbyt. rewrite Hbyt. destruct (bytes st.(mem) _) as [u|]; [|done]. cbn.
    rewrite i64_add_l. do 2 f_equal. lia.
Qed.

(** C18: A request leaves nothing behind.  Whatever the transports, the client and the rest of
    the server do, when a request ended and its response, if there is one, was closed, the
    counter of active requests of every connection and the bytes in use of the replay budget
    are what they were at its start plus what the rest of the server added in between: every
    active request the attempts counted, and every byte reserved for the request body or for
    a response that was read ahead, was given back exactly once. *)
Theorem retry_no_leak (a : App R) (m : replayMemory M) st r : serverOk a → framed req →
  RoundTrip Intn Int63n iterate rt req world a m = Some (st, r) →
  ∃ k, Z.of_nat k ≤ Z.max 0 (maxAttemptsOf rt.(rtRule))
    ∧ (∀ c, (closeResponse st r).(app).(connActive) c = a.(connActive) c + total (λ i, others i c) 1 k)
    ∧ bytes (closeResponse st r).(mem) 0 = (λ u, i64 (u + total grants 1 k)) <$> bytes m 0.
Proof using All.
  intros Ha Hfr. unfold RoundTrip. destruct rt.(rtInitial) as [initial|] eqn:Ei.
  2: { intros [= <- <-]. exists O. cbn. rewrite bytes_plus_0. split_and!; [lia|intros; lia|done]. }
  destruct (preparePublicRetryRequestBody m req rt.(rtRule)) as [m' [e|b]] eqn:Ep; apply prepareRequest_bytes in Ep as Hp.
  { intros [= <- <-]. exists O. cbn. rewrite bytes_plus_0. split_and!; [lia|intros; lia|done]. }
  destruct (prepare_whole m req rt.(rtRule) m' b Hfr Ep) as [Hw _]. cbv zeta. set (st0 := mkState a m' b _ ∅ None []).
  destruct (attempts _ _ _ _ _ _ _ _ _ _ _) as [[st1 r1]|] eqn:E; [|done].
  apply attempts_books in E as Hk; [|done|done|by eexists]. destruct Hk as (k & Hk & Hc & Hb). cbn in Hc, Hb. rewrite Hp in Hb.
  apply (attempts_spec Intn Int63n iterate rt req Intn_range iterate_all world world_ok False _ []) in E as (_ & Hrel & _);
    [|by split; [|set_solver|constructor|]|done|by eexists|done|done|set_solver].
  destruct (closed_books st1 r1 Hrel) as [Hact Hbyt]. cbv zeta in Hact, Hbyt. intros Hr. exists k.
  assert (Est : st = (match r1 with TripError _ => closeRequestBody st1 | _ => st1 end) ∧ r = r1).
  { by destruct r1; injection Hr as <- <-. }
  destruct Est as [-> ->].
  split_and!; [lia|intros c; rewrite Hact, Hc; unfold active; cbn; lia|by rewrite Hbyt].
Qed.
End request.
End books.

(** ** An example *)

(** The body of the request is kept for a replay, and a response that reads ahead is kept. *)
Definition keepRule : publicRetryRuleConfig :=
  loadedRule 7 (mkInput "keep" 10 1 ["POST"] 1 "connection_failures" "buffered" 10 "buffered" 10 1000 [] [] [] exampleMatch) 1 2.
Definition keepAnswer : response := mkResponse 200 1 ∅ (Some "text/plain") (Some [SourceRead [Byte.x6f] (Some EOF)]) [SelectChunk].
(** Two requests of others start on connection 2 before every attempt, and reserve 30 bytes. *)
Definition keepWorld (k : Z) : attemptWorld (R := Z) (M := unit) :=
  mkWorld (λ a, addActive a (LoadBalancer.mkConn 2 5 0) 2)
    (λ m, mkMemory ((λ b, mkBudget b.(limit) (i64 (b.(used) + 30))) <$> m.(replayBudget)) m.(resources)) 7 7 CtxLive FailureNone
    (λ agent offered, if agent.(LoadBalancer.connAgentID) =? 4 then mkOutcome None (Some dialFailed) false 0 0
                      else mkOutcome (Some keepAnswer) None true (length offered) 0)
    (λ _ _, mkOutcome None (Some dialFailed) false 0 0).
Definition freeResources : ReplayResources unit := {| reserveResource m _ := (m, ResourceFree); releaseResource m _ := m |}.
Definition keepMemory : replayMemory unit := mkMemory (Some (newRetryReplayBudget 0)) tt.
Definition keepTrip : option (tripState * tripResult) :=
  RoundTrip (H := freeResources) LoadBalancer.counter_rng LoadBalancer.counter_rng map_to_list (exampleTripper (Some keepRule)) examplePost keepWorld
    exampleAgents keepMemory.

(** After two attempts the request was answered from agent 5; while the response is open its
    byte is reserved besides those of the others. *)
Example keepTrip_open : match keepTrip with
  | Some (st, TripBuffered _ _) => (st.(app).(connActive) 1, st.(app).(connActive) 2, bytes st.(mem) 0) = (0, 4, Some 61)
  | _ => False
  end.
Proof. vm_compute. reflexivity. Qed.

Lemma retry_no_leak_witness : match keepTrip with
  | Some (st, r) => ∃ k, Z.of_nat k ≤ 2
      ∧ (closeResponse (H := freeResources) st r).(app).(connActive) 2 = 0 + total (λ _, 2) 1 k
      ∧ bytes (closeResponse (H := freeResources) st r).(mem) 0 = Some (i64 (0 + total (λ _, 30) 1 k))
  | None => False
  end.
Proof.
  assert (Hs : is_Some keepTrip) by (vm_compute; eexists; reflexivity). destruct keepTrip as [[st r]|] eqn:E; [|destruct Hs as [x Hx]; discriminate Hx].
  assert (Hw : ∀ k a, serverOk a → serverOk ((keepWorld k).(wServer) a)) by (intros k a Ha; exact Ha).
  assert (Ha : ∀ k a c, ((keepWorld k).(wServer) a).(connActive) c = a.(connActive) c + (λ _ c, if c =? 2 then 2 else 0) k c)
    by (intros k a c; cbn; destruct (c =? 2); lia).
  destruct (retry_no_leak (H := freeResources) LoadBalancer.counter_rng LoadBalancer.counter_rng map_to_list (exampleTripper (Some keepRule)) examplePost keepWorld
    (λ _ c, if c =? 2 then 2 else 0) (λ _, 30) counter_range (λ _, reflexivity _) Hw Ha (λ _ _, eq_refl) exampleAgents keepMemory st r exampleAgents_ok
    examplePost_framed E) as (k & Hk & Hc & Hb).
  exists k. exact (conj Hk (conj (Hc 2) Hb)).
Defined.
End RetryLedger.
