(* ===== verification/PathSecurity.v ===== *)
(** Path inspection of public requests (internal/server/public_proxy_pipeline.go): the
    classification of a request path before it is routed, the stage that refuses paths no
    route may serve, and the stage that asks the matched route whether it accepts encoded
    separators.

    An origin may decode a path more often than the proxy does.  The code inspects up to
    eight decodings; the theorem covers any number of them.  [strings.ToLower] is the one of
    GoStrings.v: outside ASCII it neither makes nor breaks an occurrence of "%2f" or "%5c".
    The four spellings of the path that net/http offers are fields of the request. *)

From S2P Require Import Prelude.
From S2P Require Import GoStrings.
From S2P Require Import NetIP.
From S2P Require Import Routing.
From Stdlib Require Import Ascii.

Module PathSecurity.

(** ** Data *)

Record publicPathIssueSet := mkIssues {
  DecodedDotSegment : bool;
  RawBackslash : bool;
  NUL : bool;
  EncodedSlash : bool;
  EncodedBackslash : bool;
  DuplicateSlash : bool;
  PathParameter : bool;
  DecodeLimit : bool;
  NestedEncoding : bool }.

Definition noIssues : publicPathIssueSet := mkIssues false false false false false false false false false.

Definition hasEncodedSeparator (s : publicPathIssueSet) : bool := s.(EncodedSlash) || s.(EncodedBackslash).

(** [URLRequestURI] is [r.URL.RequestURI()], [URLEscapedPath] is [r.URL.EscapedPath()]. *)
Record pathRequest := mkPathRequest {
  ReqURI : string;
  URLRequestURI : string;
  URLEscapedPath : string;
  URLRawPath : string;
  URLPath : string }.

(** ** Strings *)

(** [strings.Contains] *)
Fixpoint contains (p s : string) : bool :=
  String.prefix p s || match s with EmptyString => false | String _ s => contains p s end.

(** [strings.Index] and the text behind the occurrence. *)
Fixpoint afterFirst (p s : string) : option string :=
  match stripPrefix p s with
  | Some rest => Some rest
  | None => match s with EmptyString => None | String _ s => afterFirst p s end
  end.

(** [strings.ReplaceAll] of backslashes by slashes. *)
Definition toSlash (c : ascii) : ascii := if Ascii.eqb c "\" then "/"%char else c.
Definition slashed (path : string) : string := mapString toSlash path.

Definition publicPathHexDigit (c : ascii) : option Z :=
  let n := Z.of_nat (nat_of_ascii c) in
  if (48 <=? n) && (n <=? 57) then Some (n - 48)
  else if (97 <=? n) && (n <=? 102) then Some (n - 97 + 10)
  else if (65 <=? n) && (n <=? 70) then Some (n - 65 + 10)
  else None.

(** The byte a valid escape at the start of the text stands for, and the text behind it. *)
Definition headEscape (s : string) : option (ascii * string) :=
  match s with
  | String c (String h (String l rest)) =>
      if Ascii.eqb c "%" then
        match publicPathHexDigit h, publicPathHexDigit l with
        | Some hi, Some lo => Some (ascii_of_nat (Z.to_nat (Z.lor (Z.shiftl hi 4) lo)), rest)
        | _, _ => None
        end
      else None
  | _ => None
  end.

Fixpoint hasPublicPathEscape (path : string) : bool :=
  bool_decide (is_Some (headEscape path))
  || match path with EmptyString => false | String _ path => hasPublicPathEscape path end.

(** Decoding of the valid escapes, and whether there was one. *)
Fixpoint decodePublicPathLayer (path : string) : string * bool :=
  match path with
  | EmptyString => (EmptyString, false)
  | String c rest1 =>
      let plain := let '(decoded, changed) := decodePublicPathLayer rest1 in (String c decoded, changed) in
      match rest1 with
      | String h (String l rest) =>
          if Ascii.eqb c "%" then
            match publicPathHexDigit h, publicPathHexDigit l with
            | Some hi, Some lo =>
                (String (ascii_of_nat (Z.to_nat (Z.lor (Z.shiftl hi 4) lo))) (decodePublicPathLayer rest).1, true)
            | _, _ => plain
            end
          else plain
      | _ => plain
      end
  end.

Definition containsPublicPathDotSegment (path : string) : bool :=
  existsb (λ segment, String.eqb segment "." || String.eqb segment "..") (Split "/" path).

Definition containsRawPublicPathBackslash (path : string) : bool := contains "\" path.
Definition containsEncodedPublicPathSlash (path : string) : bool := contains "%2f" (ToLower path).
Definition containsEncodedPublicPathBackslash (path : string) : bool := contains "%5c" (ToLower path).

(** ** Classification *)

Definition maxPublicPathDecodeLayers : nat := 8.

(** Traversal hidden behind a path parameter. *)
Definition parameterDotSegment (separated : string) : bool :=
  existsb (λ segment, HasPrefix segment ".;" || HasPrefix segment "..;") (Split "/" separated).

(** One turn of the loop, before the decoding. *)
Definition inspectLayer (path : string) (issues : publicPathIssueSet) : publicPathIssueSet :=
  let separated := slashed path in
  let dot := issues.(DecodedDotSegment) || containsPublicPathDotSegment separated in
  let dot := if negb dot && contains ";" separated then parameterDotSegment separated else dot in
  mkIssues dot issues.(RawBackslash)
    (issues.(NUL) || containsByte (ascii_of_nat 0) path)
    (issues.(EncodedSlash) || containsEncodedPublicPathSlash path)
    (issues.(EncodedBackslash) || containsEncodedPublicPathBackslash path)
    (issues.(DuplicateSlash) || contains "//" separated)
    (issues.(PathParameter) || contains ";" path)
    issues.(DecodeLimit) issues.(NestedEncoding).

Definition limitReached (path : string) (issues : publicPathIssueSet) : publicPathIssueSet :=
  mkIssues issues.(DecodedDotSegment) issues.(RawBackslash) issues.(NUL) issues.(EncodedSlash) issues.(EncodedBackslash)
    issues.(DuplicateSlash) issues.(PathParameter) (issues.(DecodeLimit) || hasPublicPathEscape path) issues.(NestedEncoding).

(** [n] decodings are left. *)
Fixpoint inspectLayers (n : nat) (path : string) (issues : publicPathIssueSet) : publicPathIssueSet :=
  let issues := inspectLayer path issues in
  match n with
  | O => limitReached path issues
  | S n =>
      let '(next, changed) := decodePublicPathLayer path in
      if changed then inspectLayers n next issues else issues
  end.

Definition inspectPublicPathLayers : string → publicPathIssueSet → publicPathIssueSet :=
  inspectLayers maxPublicPathDecodeLayers.

Definition requestTargetPathForPublicValidation (r : pathRequest) : string :=
  let target := if String.eqb r.(ReqURI) "" then r.(URLRequestURI) else r.(ReqURI) in
  let target := match Cut "?" target with Some (path, _) => path | None => target end in
  if HasPrefix target "/" || String.eqb target "" then target
  else match afterFirst "://" target with
       | Some rest => match Cut "/" rest with Some (_, path) => String "/" path | None => "/" end
       | None => target
       end.

(** The spellings in order; one that repeats an earlier one is skipped. *)
Definition spellings (r : pathRequest) : list string :=
  [requestTargetPathForPublicValidation r; r.(URLEscapedPath); r.(URLRawPath); r.(URLPath)].

Fixpoint inspectSpellings (seen paths : list string) (issues : publicPathIssueSet) : publicPathIssueSet :=
  match paths with
  | [] => issues
  | path :: paths =>
      let issues := if String.eqb path "" || bool_decide (path ∈ seen) then issues
                    else inspectPublicPathLayers path issues in
      inspectSpellings (path :: seen) paths issues
  end.

Definition classifyPublicRequestPath (r : pathRequest) : publicPathIssueSet :=
  let rawTargetPath := requestTargetPathForPublicValidation r in
  inspectSpellings [] (spellings r)
    (mkIssues false (containsRawPublicPathBackslash rawTargetPath || containsRawPublicPathBackslash r.(URLRawPath))
       false false false false false false (hasPublicPathEscape r.(URLPath))).

Definition publicRequestHasEncodedPathSeparator (r : pathRequest) : bool :=
  hasEncodedSeparator (classifyPublicRequestPath r).

(** ** Stages *)

Definition publicRoutePathSecurityModeStrict := "strict".

Definition normalizePublicRoutePathSecurityMode (mode : string) : string :=
  let mode := TrimSpace (ToLower mode) in
  if String.eqb mode "" || String.eqb mode publicRoutePathSecurityModeStrict then publicRoutePathSecurityModeStrict
  else mode.

Definition publicRouteAllowsEncodedPathSeparators (route : Routing.publicRouteConfig) : bool :=
  String.eqb (normalizePublicRoutePathSecurityMode route.(Routing.PathSecurityMode))
    Routing.publicRoutePathSecurityModeAllowEncodedSeparators.

Inductive stageResult := StageContinue | StageRejected.

Definition rejectGloballyInvalidPublicPathStage (issues : publicPathIssueSet) : stageResult :=
  if negb issues.(DecodedDotSegment) && negb issues.(RawBackslash) && negb issues.(NUL) && negb issues.(DecodeLimit)
     && negb issues.(NestedEncoding)
  then StageContinue else StageRejected.

(** [m] is the answer of matchPublicRouteInSnapshot.  The second component is
    EncodedPathSeparatorsAllowed. *)
Definition routePathSecurityStage (issues : publicPathIssueSet) (m : Routing.routeError + Routing.publicRouteMatch)
    : stageResult * bool :=
  if negb (hasEncodedSeparator issues) && negb issues.(DuplicateSlash) && negb issues.(PathParameter)
  then (StageContinue, false)
  else match m with
       | inl Routing.NoPublicRouteAvailable => (StageRejected, false)
       | inl _ => (StageContinue, false)
       | inr m =>
           if publicRouteAllowsEncodedPathSeparators m.(Routing.MatchRoute)
           then (StageContinue, hasEncodedSeparator issues) else (StageRejected, false)
       end.

Example classify_nested : (classifyPublicRequestPath (mkPathRequest "/a/%25252e%25252e/b" "" "" "" "/a/%252e%252e/b")).(DecodedDotSegment) = true.
Proof. vm_compute. reflexivity. Qed.
Example classify_slash : hasEncodedSeparator (classifyPublicRequestPath (mkPathRequest "/a%2Fb?q=1" "" "/a%2Fb" "/a%2Fb" "/a/b")) = true.
Proof. vm_compute. reflexivity. Qed.
Example target_absolute : requestTargetPathForPublicValidation (mkPathRequest "http://h/x?y" "" "" "" "") = "/x".
Proof. vm_compute. reflexivity. Qed.
Example decode_plain_percent : decodePublicPathLayer "/100%/%41" = ("/100%/A", true).
Proof. vm_compute. reflexivity. Qed.

(** ** Segments *)

(** The first segment begins the text. *)
Lemma Split_head c s w ws : Split c s = w :: ws → ∃ b, s = (w ++ b)%string.
Proof.
  revert w ws. induction s as [|d s IH]; intros w ws H; simpl in H.
  - injection H as <- <-. by exists "".
  - pose proof (Split_nonempty c s) as Hne. destruct (Ascii.eqb d c); [injection H as <- <-; by exists (String d s)|].
    destruct (Split c s) as [|v vs] eqn:E; [done|]. injection H as <- <-. destruct (IH v vs eq_refl) as [b ->].
    by exists b.
Qed.

(** ** Decoding *)

Definition decode (path : string) : string := (decodePublicPathLayer path).1.

(** The text after [k] decodings. *)
Definition decoded (k : nat) (path : string) : string := Nat.iter k decode path.

Lemma decode_plain c s : headEscape (String c s) = None → decode (String c s) = String c (decode s).
Proof.
  intros H. unfold decode. cbn [decodePublicPathLayer]. unfold headEscape in H.
  destruct s as [|h [|l rest]]; [by destruct (decodePublicPathLayer _)..|].
  destruct (Ascii.eqb c "%"); [|by destruct (decodePublicPathLayer _)].
  destruct (publicPathHexDigit h), (publicPathHexDigit l); try done; by destruct (decodePublicPathLayer _).
Qed.

Lemma decode_escape c h l rest b : headEscape (String c (String h (String l rest))) = Some (b, rest) →
  decode (String c (String h (String l rest))) = String b (decode rest).
Proof.
  intros H. unfold decode. cbn [decodePublicPathLayer]. unfold headEscape in H. destruct (Ascii.eqb c "%"); [|done].
  destruct (publicPathHexDigit h), (publicPathHexDigit l); try done. by injection H as <-.
Qed.

Lemma headEscape_inv s b rest : headEscape s = Some (b, rest) →
  ∃ h l hi lo, s = String "%" (String h (String l rest)) ∧ publicPathHexDigit h = Some hi ∧ publicPathHexDigit l = Some lo
    ∧ b = ascii_of_nat (Z.to_nat (Z.lor (Z.shiftl hi 4) lo)).
Proof.
  unfold headEscape. destruct s as [|c [|h [|l r]]]; try done. destruct (Ascii.eqb_spec c "%") as [->|]; [|done].
  destruct (publicPathHexDigit h) as [hi|] eqn:Eh, (publicPathHexDigit l) as [lo|] eqn:El; try done.
  intros [= <- <-]. by exists h, l, hi, lo.
Qed.

(** Induction along the decoding. *)
Lemma decode_ind (P : string → Prop) :
  P "" → (∀ c s, headEscape (String c s) = None → P s → P (String c s)) →
  (∀ h l rest b, headEscape (String "%" (String h (String l rest))) = Some (b, rest) → P rest →
    P (String "%" (String h (String l rest)))) → ∀ s, P s.
Proof.
  intros H0 Hplain Hesc s. assert (Hn : ∀ n s, (String.length s ≤ n)%nat → P s); [|by apply (Hn (String.length s))].
  clear s. induction n as [|n IH]; intros [|c s] Hs; simpl in Hs; try done; try lia.
  destruct (headEscape (String c s)) as [[b rest]|] eqn:E; [|apply Hplain; [done|apply IH; lia]].
  destruct (headEscape_inv _ _ _ E) as (h & l & hi & lo & Es & _). injection Es as -> ->. simpl in Hs.
  apply (Hesc h l rest b); [done|]. apply IH. lia.
Qed.

Lemma changed_escape path : (decodePublicPathLayer path).2 = hasPublicPathEscape path.
Proof.
  induction path as [|c s H IH|h l rest b H IH] using decode_ind; [done| |].
  - cbn [decodePublicPathLayer hasPublicPathEscape]. rewrite H. rewrite bool_decide_eq_false_2 by (by intros []).
    simpl. rewrite <-IH. unfold headEscape in H.
    destruct s as [|h [|l rest]]; [by destruct (decodePublicPathLayer _)..|].
    destruct (Ascii.eqb c "%"); [|by destruct (decodePublicPathLayer _)].
    destruct (publicPathHexDigit h), (publicPathHexDigit l); try done; by destruct (decodePublicPathLayer _).
  - cbn [hasPublicPathEscape]. rewrite H. rewrite bool_decide_eq_true_2 by done. cbn [decodePublicPathLayer].
    apply headEscape_inv in H as (h' & l' & hi & lo & [= <- <-] & Eh & El & _). by rewrite Eh, El.
Qed.

Lemma decode_stable path : hasPublicPathEscape path = false → decode path = path.
Proof.
  induction path as [|c s H IH|h l rest b H IH] using decode_ind; [done| |].
  - cbn [hasPublicPathEscape]. rewrite orb_false_iff. intros [_ Hs]. by rewrite decode_plain, IH.
  - cbn [hasPublicPathEscape]. rewrite H. by rewrite bool_decide_eq_true_2.
Qed.

Lemma decoded_stable k path : hasPublicPathEscape path = false → decoded k path = path.
Proof. intros H. induction k as [|k IH]; [done|]. unfold decoded in *. simpl. rewrite IH. by apply decode_stable. Qed.

Lemma decoded_S k path : decoded (S k) path = decoded k (decode path).
Proof. unfold decoded. by rewrite Nat.iter_succ_r. Qed.

(** ** What the classification covers *)

(** [issues] reports what one decoding contains. *)
Definition covers (issues : publicPathIssueSet) (path : string) : Prop :=
  (containsPublicPathDotSegment (slashed path) || parameterDotSegment (slashed path) = true → issues.(DecodedDotSegment) = true) ∧
  (containsByte (ascii_of_nat 0) path = true → issues.(NUL) = true) ∧
  (containsEncodedPublicPathSlash path = true → issues.(EncodedSlash) = true) ∧
  (containsEncodedPublicPathBackslash path = true → issues.(EncodedBackslash) = true) ∧
  (contains "//" (slashed path) = true → issues.(DuplicateSlash) = true) ∧
  (contains ";" path = true → issues.(PathParameter) = true).

(** [y] reports at least what [x] does. *)
Definition extends (x y : publicPathIssueSet) : Prop :=
  (x.(DecodedDotSegment) = true → y.(DecodedDotSegment) = true) ∧ (x.(NUL) = true → y.(NUL) = true) ∧
  (x.(EncodedSlash) = true → y.(EncodedSlash) = true) ∧ (x.(EncodedBackslash) = true → y.(EncodedBackslash) = true) ∧
  (x.(DuplicateSlash) = true → y.(DuplicateSlash) = true) ∧ (x.(PathParameter) = true → y.(PathParameter) = true) ∧
  (x.(DecodeLimit) = true → y.(DecodeLimit) = true) ∧
  x.(RawBackslash) = y.(RawBackslash) ∧ x.(NestedEncoding) = y.(NestedEncoding).

Lemma extends_refl x : extends x x.
Proof. by unfold extends. Qed.
Lemma extends_trans x y z : extends x y → extends y z → extends x z.
Proof. unfold extends. intros H1 H2. destruct_and! H1. destruct_and! H2. split_and!; eauto; congruence. Qed.
Lemma covers_extends x y path : extends x y → covers x path → covers y path.
Proof. unfold extends, covers. intros H1 H2. destruct_and! H1. destruct_and! H2. split_and!; eauto. Qed.

(** Traversal behind a parameter needs a parameter. *)
Lemma contains_prefix p s : String.prefix p s = true → contains p s = true.
Proof. intros H. destruct s; cbn [contains]; by rewrite H. Qed.

Lemma contains_app p a b : contains p b = true → contains p (a ++ b) = true.
Proof.
  intros H. induction a as [|c a IH]; autorewrite with gostring; [done|]. cbn [contains]. by rewrite IH, orb_true_r.
Qed.

Lemma contains_app_l p a b : contains p a = true → contains p (a ++ b) = true.
Proof.
  induction a as [|c a IH]; intros H; cbn [contains] in H; apply orb_true_iff in H as [H|H]; try done.
  - destruct p; [|done]. autorewrite with gostring. by apply contains_prefix; destruct b.
  - apply contains_prefix. apply HasPrefix_spec in H as [r Hr]. apply HasPrefix_spec. exists (r ++ b)%string.
    by rewrite <-string_app_assoc, <-Hr.
  - autorewrite with gostring. cbn [contains]. by rewrite IH, orb_true_r.
Qed.

(** A segment is a part of the text. *)
Lemma Split_segment c s w : w ∈ Split c s → ∃ a b, s = (a ++ w ++ b)%string.
Proof.
  revert w. induction s as [|d s IH]; intros w H; simpl in H.
  - apply list_elem_of_singleton in H as ->. by exists "", "".
  - pose proof (Split_nonempty c s) as Hne. destruct (Ascii.eqb d c).
    + apply elem_of_cons in H as [->|H]; [by exists "", (String d s)|].
      destruct (IH _ H) as (a & b & ->). by exists (String d a), b.
    + destruct (Split c s) as [|v vs] eqn:E; [done|]. apply elem_of_cons in H as [->|H].
      * destruct (Split_head c s v vs E) as [b ->]. by exists "", b.
      * destruct (IH w) as (a & b & ->); [by right|]. by exists (String d a), b.
Qed.

Lemma parameterDot_semicolon s : parameterDotSegment s = true → contains ";" s = true.
Proof.
  unfold parameterDotSegment. intros H. apply existsb_exists in H as (w & Hw & H). apply list_elem_of_In in Hw.
  destruct (Split_segment _ _ _ Hw) as (a & b & ->). apply contains_app, contains_app_l.
  apply orb_true_iff in H as [H|H]; apply HasPrefix_spec in H as [r ->]; apply contains_app_l; done.
Qed.

(** ** The loops *)

Lemma inspectLayer_extends path x : extends x (inspectLayer path x).
Proof.
  unfold extends, inspectLayer; simpl. split_and!; try done; intros ->; done.
Qed.

Lemma inspectLayer_covers path x : covers (inspectLayer path x) path.
Proof.
  unfold covers, inspectLayer; simpl. split_and!; try (intros ->; by rewrite orb_true_r).
  intros H. destruct (containsPublicPathDotSegment (slashed path)); [by rewrite orb_true_r|]. simpl in H.
  rewrite H, (parameterDot_semicolon _ H). by destruct (_ || _).
Qed.

Lemma limitReached_extends path x : extends x (limitReached path x).
Proof. unfold extends, limitReached; simpl. split_and!; try done. by intros ->. Qed.

Lemma inspectLayers_extends n : ∀ path x, extends x (inspectLayers n path x).
Proof.
  induction n as [|n IH]; intros path x; cbn [inspectLayers].
  - eapply extends_trans; [apply inspectLayer_extends|apply limitReached_extends].
  - destruct (decodePublicPathLayer path) as [next []]; [|apply inspectLayer_extends].
    eapply extends_trans; [apply inspectLayer_extends|apply IH].
Qed.

(** Unless the limit was reached, every decoding is covered. *)
Lemma inspectLayers_covers n : ∀ path x k, (inspectLayers n path x).(DecodeLimit) = false →
  covers (inspectLayers n path x) (decoded k path).
Proof.
  induction n as [|n IH]; intros path x k H; cbn [inspectLayers] in *.
  - simpl in H. apply orb_false_iff in H as [_ H]. rewrite decoded_stable by done.
    eapply covers_extends; [apply limitReached_extends|apply inspectLayer_covers].
  - pose proof (changed_escape path) as Hc. destruct (decodePublicPathLayer path) as [next changed] eqn:E. simpl in Hc.
    destruct changed.
    + destruct k as [|k]; [eapply covers_extends; [apply inspectLayers_extends|apply inspectLayer_covers]|].
      rewrite decoded_S. assert (decode path = next) as -> by (unfold decode; by rewrite E). by apply IH.
    + rewrite decoded_stable by done. apply inspectLayer_covers.
Qed.

Lemma inspectSpellings_extends paths : ∀ seen x, extends x (inspectSpellings seen paths x).
Proof.
  induction paths as [|p paths IH]; intros seen x; simpl; [apply extends_refl|].
  eapply extends_trans; [|apply IH]. case_goal; [apply extends_refl|apply inspectLayers_extends].
Qed.

Lemma inspectSpellings_covers paths : ∀ seen x,
  (inspectSpellings seen paths x).(DecodeLimit) = false →
  (∀ p k, p ∈ seen → p ≠ "" → covers x (decoded k p)) →
  ∀ p k, p ∈ seen ∨ p ∈ paths → p ≠ "" → covers (inspectSpellings seen paths x) (decoded k p).
Proof.
  induction paths as [|q paths IH]; intros seen x Hl Hseen p k Hp Hne; cbn [inspectSpellings] in *.
  - apply Hseen; [|done]. destruct Hp as [|Hp]; [done|]. by apply elem_of_nil in Hp.
  - apply IH; [done| |set_solver|done]. clear Hp Hne. intros p' k' Hp' Hne.
    destruct (String.eqb_spec q "") as [->|Hq]; simpl; [apply Hseen; set_solver|].
    destruct (bool_decide_reflect (q ∈ seen)); [apply Hseen; set_solver|].
    assert (Hlim : (inspectPublicPathLayers q x).(DecodeLimit) = false).
    { destruct (inspectPublicPathLayers q x).(DecodeLimit) eqn:E; [|done].
      pose proof (inspectSpellings_extends paths (q :: seen) (inspectPublicPathLayers q x)) as Hx.
      unfold extends in Hx. destruct_and! Hx. cbn [orb] in Hl.
      destruct (inspectSpellings _ _ _).(DecodeLimit); [done|]. intuition done. }
    apply elem_of_cons in Hp' as [->|Hp']; [by apply inspectLayers_covers|].
    eapply covers_extends; [apply inspectLayers_extends|]. by apply Hseen.
Qed.

(** ** Separators *)

Lemma hexDigit_value c v : publicPathHexDigit c = Some v →
  0 ≤ v < 16 ∧ (v = 2 → toLower c = "2"%char) ∧ (v = 5 → toLower c = "5"%char) ∧
  (v = 15 → toLower c = "f"%char) ∧ (v = 12 → toLower c = "c"%char).
Proof.
  intros H. destruct c as [[] [] [] [] [] [] [] []]; vm_compute in H; try discriminate H; injection H as <-;
    split_and!; try lia; intros; try lia; reflexivity.
Qed.

Lemma escape_value n m : (n < 16)%nat → (m < 16)%nat →
  let b := ascii_of_nat (Z.to_nat (Z.lor (Z.shiftl (Z.of_nat n) 4) (Z.of_nat m))) in
  (b = "/"%char → n = 2%nat ∧ m = 15%nat) ∧ (b = "\"%char → n = 5%nat ∧ m = 12%nat).
Proof.
  intros Hn Hm. do 16 (destruct n as [|n]; [do 16 (destruct m as [|m]; [vm_compute; split; intros [=]; done|]); lia|]). lia.
Qed.

(** The bytes of the two separators come from their escapes only. *)
Lemma escape_byte h l rest b : headEscape (String "%" (String h (String l rest))) = Some (b, rest) →
  (containsEncodedPublicPathSlash (String "%" (String h (String l rest))) = false → b ≠ "/"%char) ∧
  (containsEncodedPublicPathBackslash (String "%" (String h (String l rest))) = false → b ≠ "\"%char).
Proof.
  intros H. apply headEscape_inv in H as (h' & l' & hi & lo & [= <- <-] & Hh & Hl & ->).
  destruct (hexDigit_value _ _ Hh) as (Rh & H2 & H5 & _), (hexDigit_value _ _ Hl) as (Rl & _ & _ & Hf & Hc).
  destruct (escape_value (Z.to_nat hi) (Z.to_nat lo)) as [Es Eb]; [lia..|].
  rewrite !Z2Nat.id in Es, Eb by lia. unfold containsEncodedPublicPathSlash, containsEncodedPublicPathBackslash.
  split; intros Hn Hb; [apply Es in Hb|apply Eb in Hb]; apply not_true_iff_false in Hn; apply Hn, contains_prefix;
    apply HasPrefix_spec; exists (ToLower rest); unfold ToLower; cbn [mapString].
  - by rewrite H2, Hf by lia.
  - by rewrite H5, Hc by lia.
Qed.

Lemma slash_tail c s : containsEncodedPublicPathSlash (String c s) = false → containsEncodedPublicPathSlash s = false.
Proof. unfold containsEncodedPublicPathSlash. simpl. intros H. by apply orb_false_iff in H as [_ H]. Qed.
Lemma backslash_tail c s : containsEncodedPublicPathBackslash (String c s) = false → containsEncodedPublicPathBackslash s = false.
Proof. unfold containsEncodedPublicPathBackslash. simpl. intros H. by apply orb_false_iff in H as [_ H]. Qed.

Lemma Split_cons c d s w ws : d ≠ c → Split c s = w :: ws → Split c (String d s) = String d w :: ws.
Proof. intros Hd E. simpl. destruct (Ascii.eqb_spec d c); [done|]. by rewrite E. Qed.

Lemma headEscape_app s r : is_Some (headEscape s) → is_Some (headEscape (s ++ r)).
Proof.
  destruct s as [|c [|h [|l t]]]; autorewrite with gostring; simpl; try by intros [? [=]].
  destruct (Ascii.eqb c "%"); [|by intros [? [=]]]. by destruct (publicPathHexDigit h), (publicPathHexDigit l).
Qed.

(** Decoding acts on the segments one by one. *)
Lemma decode_segments path : containsEncodedPublicPathSlash path = false →
  Split "/" (decode path) = map decode (Split "/" path).
Proof.
  induction path as [|c s H IH|h l rest b H IH] using decode_ind; intros Hn; [done| |].
  - rewrite decode_plain by done. specialize (IH (slash_tail _ _ Hn)). pose proof (Split_nonempty "/" s) as Hne.
    destruct (Split "/" s) as [|w ws] eqn:E; [done|]. simpl in IH. simpl. destruct (Ascii.eqb c "/"); [simpl; by rewrite IH, E|].
    rewrite IH, E. simpl. f_equal. symmetry. apply decode_plain. destruct (Split_head _ _ _ _ E) as [r ->].
    destruct (headEscape (String c w)) eqn:Ew; [|done].
    pose proof (headEscape_app (String c w) r (mk_is_Some _ _ Ew)) as Hx. autorewrite with gostring in Hx.
    rewrite H in Hx. by apply is_Some_None in Hx.
  - rewrite (decode_escape _ _ _ _ _ H). pose proof (proj1 (escape_byte _ _ _ _ H) Hn) as Hb.
    specialize (IH (slash_tail _ _ (slash_tail _ _ (slash_tail _ _ Hn)))). pose proof (Split_nonempty "/" rest) as Hne.
    destruct (Split "/" rest) as [|w ws] eqn:E; [done|]. simpl in IH. rewrite (Split_cons _ _ _ _ _ Hb IH).
    pose proof H as Hi. apply headEscape_inv in Hi as (h' & l' & hi & lo & [= <- <-] & Hh & Hl & Eb).
    assert (h ≠ "/"%char ∧ l ≠ "/"%char) as [Nh Nl] by (split; intros ->; done).
    rewrite (Split_cons "/" "%" _ (String h (String l w)) ws); [|done|by repeat apply Split_cons]. cbn [map]. f_equal.
    symmetry. apply decode_escape. unfold headEscape. by rewrite Hh, Hl, Eb.
Qed.

Lemma contains_byte c s : contains (String c "") s = containsByte c s.
Proof.
  induction s as [|d s IH]; [done|]. cbn [contains containsByte]. rewrite IH. f_equal.
  destruct (Ascii.eqb_spec d c) as [->|Hne]; [change (HasPrefix (String c s) (String c "") = true); apply HasPrefix_spec; by exists s|].
  apply not_true_iff_false. intros H. apply HasPrefix_spec in H as [r H]. autorewrite with gostring in H. congruence.
Qed.

Lemma decode_backslash path : containsEncodedPublicPathBackslash path = false → containsByte "\" path = false →
  containsByte "\" (decode path) = false.
Proof.
  induction path as [|c s H IH|h l rest b H IH] using decode_ind; intros Hn Hb; [done| |].
  - rewrite decode_plain by done. cbn [containsByte] in *. apply orb_false_iff in Hb as [-> Hb].
    by rewrite IH by (done || by apply (backslash_tail c)).
  - rewrite (decode_escape _ _ _ _ _ H). cbn [containsByte] in *. rewrite !orb_false_iff in Hb.
    destruct Hb as (_ & _ & _ & Hb). 
    rewrite IH by (exact (backslash_tail _ _ (backslash_tail _ _ (backslash_tail _ _ Hn))) || done).
    pose proof (proj2 (escape_byte _ _ _ _ H) Hn). by destruct (Ascii.eqb_spec b "\").
Qed.

(** ** The theorem *)

Lemma decoded_segments k path : (∀ j, containsEncodedPublicPathSlash (decoded j path) = false) →
  Split "/" (decoded k path) = map (decoded k) (Split "/" path).
Proof.
  intros H. induction k as [|k IH]; [by rewrite map_id|].
  change (Split "/" (decode (decoded k path)) = map (λ w, decode (decoded k w)) (Split "/" path)).
  by rewrite decode_segments, IH, map_map by done.
Qed.

Lemma decoded_backslash k path : (∀ j, containsEncodedPublicPathBackslash (decoded j path) = false) →
  containsByte "\" path = false → containsByte "\" (decoded k path) = false.
Proof. intros H Hb. induction k as [|k IH]; [done|]. by apply (decode_backslash (decoded k path)). Qed.

(** What the issues of a request that was not refused say about every decoding. *)
Lemma classify_covers r p k : rejectGloballyInvalidPublicPathStage (classifyPublicRequestPath r) = StageContinue →
  p ∈ spellings r → covers (classifyPublicRequestPath r) (decoded k p).
Proof.
  unfold rejectGloballyInvalidPublicPathStage. intros H Hp. case_head H; [|done].
  destruct (String.eqb_spec p "") as [->|Hne]; [by rewrite decoded_stable|].
  apply inspectSpellings_covers; [|by intros ? ? ?%elem_of_nil|by right|done].
  rewrite !andb_true_iff, !negb_true_iff in *. tauto.
Qed.

Lemma classify_raw r : (classifyPublicRequestPath r).(RawBackslash)
    = contains "\" (requestTargetPathForPublicValidation r) || contains "\" r.(URLRawPath)
  ∧ (classifyPublicRequestPath r).(NestedEncoding) = hasPublicPathEscape r.(URLPath).
Proof.
  pose proof (inspectSpellings_extends (spellings r) [] (mkIssues false (contains "\" (requestTargetPathForPublicValidation r)
    || contains "\" r.(URLRawPath)) false false false false false false (hasPublicPathEscape r.(URLPath)))) as H.
  unfold extends in H. destruct_and! H. done.
Qed.

(** A segment that climbs, plainly or behind a path parameter. *)
Definition traversal (segment : string) : bool :=
  String.eqb segment "." || String.eqb segment ".." || HasPrefix segment ".;" || HasPrefix segment "..;".

Lemma no_traversal s : containsPublicPathDotSegment s || parameterDotSegment s = false →
  ∀ segment, segment ∈ Split "/" s → traversal segment = false.
Proof.
  intros H segment Hs. apply orb_false_iff in H as [H1 H2]. apply not_true_iff_false. intros Ht.
  unfold traversal in Ht. rewrite !orb_true_iff in Ht. unfold containsPublicPathDotSegment, parameterDotSegment in *.
  rewrite <-not_true_iff_false, existsb_exists in H1, H2. apply list_elem_of_In in Hs.
  destruct Ht as [[[Ht|Ht]|Ht]|Ht]; [apply H1|apply H1|apply H2|apply H2]; exists segment; by rewrite Ht, ?orb_true_r.
Qed.

(** C31: A request that passes both path stages is safe however often its origin decodes the
    path: no spelling of the path, after any number of decodings and with backslashes read
    as slashes, has a segment "." or ".." (a path parameter behind it included) or a NUL
    byte, and the path used for routing does not change under decoding.  If the matched
    route does not accept encoded separators, decoding acts on the segments of the path one
    by one (it adds no separator), and no decoding shows an empty inner segment, a path
    parameter, or, in the request target, a backslash. *)
Theorem path_security_sound r m p k :
  rejectGloballyInvalidPublicPathStage (classifyPublicRequestPath r) = StageContinue →
  (routePathSecurityStage (classifyPublicRequestPath r) m).1 = StageContinue →
  p ∈ spellings r →
  (∀ segment, segment ∈ Split "/" (slashed (decoded k p)) → traversal segment = false) ∧
  containsByte (ascii_of_nat 0) (decoded k p) = false ∧
  decoded k r.(URLPath) = r.(URLPath) ∧
  (∀ matched, m = inr matched → publicRouteAllowsEncodedPathSeparators matched.(Routing.MatchRoute) = false →
    Split "/" (decoded k p) = map (decoded k) (Split "/" p) ∧
    contains "//" (slashed (decoded k p)) = false ∧ contains ";" (decoded k p) = false ∧
    (p = requestTargetPathForPublicValidation r → containsByte "\" (decoded k p) = false)).
Proof.
  intros Hg Hs Hp. pose proof (λ j, classify_covers r p j Hg Hp) as Hc. destruct (classify_raw r) as [Hraw Hnest].
  unfold rejectGloballyInvalidPublicPathStage in Hg. case_head Hg; [|done]. rewrite !andb_true_iff, !negb_true_iff in *.
  destruct_and!. unfold covers in Hc. rewrite <-!not_true_iff_false in *. split_and!.
  - apply no_traversal. apply not_true_iff_false. intros Hd. by apply Hc in Hd.
  - intros Hd. by apply Hc in Hd.
  - apply decoded_stable, not_true_iff_false. congruence.
  - intros matched -> Hno. unfold routePathSecurityStage in Hs. rewrite Hno in Hs.
    destruct (negb (hasEncodedSeparator _) && _ && _) eqn:E; [|done]. unfold hasEncodedSeparator in E.
    rewrite !andb_true_iff, !negb_true_iff, orb_false_iff in E. destruct_and!. split_and!.
    + apply decoded_segments. intros j. apply not_true_iff_false. intros Hd. apply Hc in Hd. congruence.
    + apply not_true_iff_false. intros Hd. apply Hc in Hd. congruence.
    + apply not_true_iff_false. intros Hd. apply Hc in Hd. congruence.
    + intros ->. apply decoded_backslash.
      * intros j. apply not_true_iff_false. intros Hd. apply Hc in Hd. congruence.
      * rewrite <-contains_byte. apply not_true_iff_false. intros Hd. rewrite Hd in Hraw. simpl in Hraw. congruence.
Qed.

Definition exampleRequest : pathRequest := mkPathRequest "/files/a%20b%2525?x=1" "" "/files/a%20b%2525" "" "/files/a b%25".
Definition exampleMatch : Routing.publicRouteMatch :=
  Routing.mkMatch Routing.exampleListener Routing.noRoute false.
Definition plainRequest : pathRequest := mkPathRequest "/files/a%20b?x=1" "" "/files/a%20b" "" "/files/a b".

(** A nested escape is refused, a single one is not. *)
Example nested_refused : rejectGloballyInvalidPublicPathStage (classifyPublicRequestPath exampleRequest) = StageRejected.
Proof. vm_compute. reflexivity. Qed.

Lemma path_security_sound_witness : Split "/" (decoded 3 "/files/a%20b") = map (decoded 3) (Split "/" "/files/a%20b").
Proof.
  assert (Hg : rejectGloballyInvalidPublicPathStage (classifyPublicRequestPath plainRequest) = StageContinue) by (vm_compute; reflexivity).
  assert (Hs : (routePathSecurityStage (classifyPublicRequestPath plainRequest) (inr exampleMatch)).1 = StageContinue) by (vm_compute; reflexivity).
  assert (Hp : "/files/a%20b" ∈ spellings plainRequest) by (apply (list_elem_of_lookup_2 _ 0); vm_compute; reflexivity).
  assert (Hno : publicRouteAllowsEncodedPathSeparators exampleMatch.(Routing.MatchRoute) = false) by (vm_compute; reflexivity).
  exact (proj1 (proj2 (proj2 (proj2 (path_security_sound plainRequest (inr exampleMatch) "/files/a%20b" 3 Hg Hs Hp))) exampleMatch eq_refl Hno)).
Defined.
End PathSecurity.
