(* ===== verification/CacheRules.v ===== *)
(** The rules of the response cache (internal/server/public_cache.go): which requests may
    use the cache, which rule applies, what the key of a request is, which responses may be
    stored and for how long, and how settings and rules are validated and loaded.

    The digest of a key is a parameter ([CacheCodec]): SHA-256 over the JSON of the parts.
    What is relied on is that it tells ASCII parts and header values apart ([CacheCodecLaws]).
    JSON columns of stored rules appear as the values they decode to, as in RetryPolicy.v.
    [http.ParseTime] and the clock are arguments. *)

From S2P Require Import Prelude.
From S2P Require Import GoStrings.
From S2P Require Import NetIP.
From S2P Require Import ClientIdentity.
From S2P Require Import WafCookies.
From S2P Require Import RateLimiter.
From S2P Require Import TargetHealth.
From S2P Require Import Routing.
From S2P Require Import RetryPolicy.
From S2P Require Import PathSecurity.
From stdpp Require sorting.
From Stdlib Require Import Ascii.

Module CacheRules.
Import ClientIdentity(tokenChar).
Import RateLimiter(headerGet, validHTTPToken, canonicalHeaderKey).

(** ** Constants and data *)

Definition publicCacheTTLModeFixed := "fixed".
Definition publicCacheTTLModeOrigin := "origin".
Definition publicCacheQueryModeFull := "full".
Definition publicCacheQueryModeIgnore := "ignore".
Definition publicCacheQueryModeAllowlist := "allowlist".
Definition publicCacheQueryModeDenylist := "denylist".
Definition publicCacheScopeSelectedBackend := "selected_backend".
Definition publicCacheScopeRoute := "route".
Definition defaultPublicCacheTTLMillis : Z := 3600000.
Definition defaultPublicCacheMaxObjectBytes : Z := 104857600.
Definition defaultPublicCacheMaxDiskBytes : Z := 1073741824.
Definition defaultPublicCacheMaxMemoryBytes : Z := 134217728.
Definition defaultPublicCacheMemoryHotObjectBytes : Z := 262144.
Definition defaultPublicCacheMaxEntries : Z := 100000.
Definition defaultPublicCacheCleanupIntervalMillis : Z := 60000.
Definition minPublicCacheTTLMillis : Z := 1000.
Definition maxPublicCacheTTLMillis : Z := 31536000000.
Definition minPublicCacheCleanupIntervalMillis : Z := 1000.
Definition maxPublicCacheCleanupIntervalMillis : Z := 3600000.
Definition maxPublicCacheHeaderBytes : Z := 256 * 1024.
Definition maxPublicCacheListItems : nat := 64.
Definition publicCacheKeyDigestVersion := "v6".
Definition defaultPublicCacheStatusCodes : list Z := [200; 203; 204; 301; 308].
Definition defaultPublicCacheVaryHeaders : list string := ["Accept-Encoding"].

Record publicCacheSettingsConfig := mkSettings {
  SettingsEnabled : bool;
  MaxDiskBytes : Z;
  MaxMemoryBytes : Z;
  MemoryHotObjectMaxBytes : Z;
  MaxEntries : Z;
  CleanupInterval : Z;
  SettingsCreatedAt : Z;
  SettingsUpdatedAt : Z }.

Record publicCacheRuleConfig := mkCacheRule {
  ID : Z;
  Name : string;
  CachePriority : Z;
  Enabled : bool;
  Match : WafCookies.policyMatch;
  RouteIDs : list Z;
  TargetIDs : list Z;
  Scope : string;
  TTLMode : string;
  TTL : Z;
  QueryMode : string;
  QueryParams : list string;
  VaryHeaders : list string;
  CacheStatusCodes : list Z;
  MaxObjectBytes : Z;
  AddCacheStatusHeader : bool;
  CreatedAt : Z;
  UpdatedAt : Z;
  Fingerprint : string }.

(** A request as the cache sees it.  [base] has the method, the host, the headers and the
    parsed query; [queryError] says that url.ParseQuery reported an error. *)
Record cacheRequest := mkCacheRequest {
  base : ClientIdentity.httpRequest;
  paths : PathSecurity.pathRequest;
  queryError : bool;
  TransferEncoding : list string;
  HasBody : bool;
  ContentLength : Z }.

(** The fields of publicRouteResolution the cache reads; an invalid NullInt64 is [None]. *)
Record cacheResolution := mkCacheResolution {
  Listener : WafCookies.publicListenerConfig;
  Route : Routing.publicRouteConfig;
  ResTargetID : Z;
  ResTargetType : string;
  ResRouteID : option Z;
  ResRouteTargetID : option Z }.

Record cacheResponse := mkCacheResponse {
  StatusCode : Z;
  RespHeader : gmap string (list string);
  Trailer : gmap string (list string) }.

Class CacheCodec := {
  (** SHA-256 of the JSON of the version, the parts and the values that vary. *)
  keyHash : string → list string → list (string * list string) → string;
  (** The same of a rule, and of the settings with the rules' identifiers, hashes and states. *)
  ruleHash : publicCacheRuleConfig → string;
  runtimeHash : bool * Z * Z * Z * Z * Z → list (Z * string * bool) → string }.

Definition asciiChar (c : ascii) : bool := (nat_of_ascii c <? 128)%nat.
Definition asciiString (s : string) : bool := ClientIdentity.allBytes asciiChar s.

(** Values that vary are encoded as bytes and may be arbitrary; their names are tokens. *)
Class CacheCodecLaws `{CacheCodec} := {
  keyHash_inj : ∀ v parts1 vary1 parts2 vary2,
    Forall (λ s, asciiString s = true) parts1 → Forall (λ s, asciiString s = true) parts2 →
    Forall (λ x, asciiString x.1 = true) vary1 → Forall (λ x, asciiString x.1 = true) vary2 →
    keyHash v parts1 vary1 = keyHash v parts2 vary2 → parts1 = parts2 ∧ vary1 = vary2;
  runtimeHash_inj : ∀ s1 rules1 s2 rules2, runtimeHash s1 rules1 = runtimeHash s2 rules2 → s1 = s2 ∧ rules1 = rules2;
  runtimeHash_nonempty : ∀ s rules, runtimeHash s rules ≠ "" }.

(** ** Which requests, which rule *)

Definition publicRequestHasHeaderField (r : ClientIdentity.httpRequest) (name : string) : bool :=
  existsb (λ field, EqualFold field.1 name) (map_to_list r.(ClientIdentity.Header)).

(** The empty string: the request may use the cache. *)
Definition publicCacheRequestBypassReason (r : cacheRequest) : string :=
  let q := r.(base) in
  if negb (String.eqb q.(ClientIdentity.Method) "GET") && negb (String.eqb q.(ClientIdentity.Method) "HEAD") then "method"
  else if publicRequestHasHeaderField q "Authorization" then "authorization"
  else if publicRequestHasHeaderField q "Cookie" then "cookie"
  else if negb (String.eqb (headerGet q.(ClientIdentity.Header) "Range") "") then "range"
  else if EqualFold (headerGet q.(ClientIdentity.Header) "Connection") "upgrade"
          || negb (String.eqb (headerGet q.(ClientIdentity.Header) "Upgrade") "") then "upgrade"
  else if (0 <? length r.(TransferEncoding))%nat || (r.(HasBody) && negb (r.(ContentLength) =? 0)) then "request_body"
  else "".

Definition int64InSlice (value : Z) (values : list Z) : bool := existsb (Z.eqb value) values.

(** [None] is an error of the expression. *)
Definition evaluate (rule : publicCacheRuleConfig) (listener : WafCookies.publicListenerConfig) (r : cacheRequest)
    (resolution : cacheResolution) : option bool :=
  match rule.(Match) listener r.(base) with
  | None => None
  | Some false => Some false
  | Some true =>
      let routeID := if resolution.(Route).(Routing.RouteID) =? 0 then default 0 resolution.(ResRouteID)
                     else resolution.(Route).(Routing.RouteID) in
      let targetID := if resolution.(ResTargetID) =? 0 then default 0 resolution.(ResRouteTargetID)
                      else resolution.(ResTargetID) in
      if (0 <? length rule.(RouteIDs))%nat && negb (int64InSlice routeID rule.(RouteIDs)) then Some false
      else if (0 <? length rule.(TargetIDs))%nat && negb (int64InSlice targetID rule.(TargetIDs)) then Some false
      else Some true
  end.

Inductive ruleSelection := RuleSelected (rule : publicCacheRuleConfig) | NoRule | RuleError.

Fixpoint selectPublicCacheRule (rules : list publicCacheRuleConfig) (listener : WafCookies.publicListenerConfig)
    (r : cacheRequest) (resolution : cacheResolution) : ruleSelection :=
  match rules with
  | [] => NoRule
  | rule :: rules =>
      if negb rule.(Enabled) then selectPublicCacheRule rules listener r resolution
      else match evaluate rule listener r resolution with
           | None => RuleError
           | Some false => selectPublicCacheRule rules listener r resolution
           | Some true => RuleSelected rule
           end
  end.

Definition cacheRuleLe (x y : publicCacheRuleConfig) : bool :=
  if x.(CachePriority) =? y.(CachePriority) then x.(ID) <=? y.(ID) else x.(CachePriority) <=? y.(CachePriority).
Definition sortPublicCacheRules : list publicCacheRuleConfig → list publicCacheRuleConfig := ClientIdentity.sortBy cacheRuleLe.

(** ** The query *)

(** [url.QueryEscape] *)
Definition unreserved (c : ascii) : bool :=
  let n := nat_of_ascii c in
  ((97 <=? n)%nat && (n <=? 122)%nat) || ((65 <=? n)%nat && (n <=? 90)%nat) || ((48 <=? n)%nat && (n <=? 57)%nat)
  || Ascii.eqb c "-" || Ascii.eqb c "_" || Ascii.eqb c "." || Ascii.eqb c "~".
Definition upperHex (n : nat) : ascii := if (n <? 10)%nat then ascii_of_nat (48 + n) else ascii_of_nat (55 + n).
Definition escapeByte (c : ascii) (rest : string) : string :=
  if Ascii.eqb c " " then String "+" rest
  else if unreserved c then String c rest
  else String "%" (String (upperHex (nat_of_ascii c / 16)) (String (upperHex (nat_of_ascii c mod 16)) rest)).
Fixpoint QueryEscape (s : string) : string :=
  match s with EmptyString => EmptyString | String c s => escapeByte c (QueryEscape s) end.

(** [strings.Join] *)
Fixpoint joinWith (sep : ascii) (l : list string) : string :=
  match l with
  | [] => ""
  | [x] => x
  | x :: l => (x ++ String sep (joinWith sep l))%string
  end.

(** [url.Values.Encode]: the pairs by key, escaped. *)
Definition queryPairs (values : gmap string (list string)) : list (string * string) :=
  concat (map (λ key, map (pair key) (default [] (values !! key)))
            (ClientIdentity.sortStrings (map fst (map_to_list values)))).
Definition encodePair (p : string * string) : string := (QueryEscape p.1 ++ String "=" (QueryEscape p.2))%string.
Definition Encode (values : gmap string (list string)) : string := joinWith "&" (map encodePair (queryPairs values)).

Definition filterValues (values : gmap string (list string)) (params : list string) (allow : bool) : gmap string (list string) :=
  filter (λ kv, bool_decide (kv.1 ∈ params) = allow) values.
Definition filteredQuery (values : gmap string (list string)) (params : list string) (allow : bool) : string :=
  Encode (filterValues values params allow).

(** [None]: the query does not parse. *)
Definition publicCacheQueryKey (r : cacheRequest) (rule : publicCacheRuleConfig) : option string :=
  let values := r.(base).(ClientIdentity.Query) in
  if String.eqb rule.(QueryMode) publicCacheQueryModeIgnore then Some ""
  else if String.eqb rule.(QueryMode) publicCacheQueryModeAllowlist then Some (filteredQuery values rule.(QueryParams) true)
  else if String.eqb rule.(QueryMode) publicCacheQueryModeDenylist then Some (filteredQuery values rule.(QueryParams) false)
  else if r.(queryError) then None else Some (Encode values).

(** ** Vary *)

(** The header names of the list, canonical, each once, sorted. *)
Fixpoint headerListLoop (seen : list string) (values : list string) : list string :=
  match values with
  | [] => []
  | value :: values =>
      let value := canonicalHeaderKey (TrimSpace value) in
      if String.eqb value "" || negb (validHTTPToken value) then headerListLoop seen values
      else if bool_decide (ToLower value ∈ seen) then headerListLoop seen values
      else value :: headerListLoop (ToLower value :: seen) values
  end.
Definition normalizePublicCacheHeaderList (values : list string) : list string :=
  ClientIdentity.sortStrings (headerListLoop [] values).

Definition publicCacheRequiredVaryHeaders (headers : list string) : list string :=
  normalizePublicCacheHeaderList (headers ++ defaultPublicCacheVaryHeaders).

Definition sensitiveVaryNames : list string :=
  ["cookie"; "authorization"; "set-cookie"; "forwarded"; "x-forwarded-for"; "x-forwarded-host"; "x-forwarded-proto";
   "x-forwarded-port"; "x-real-ip"].
Definition publicCacheSensitiveVaryHeader (header : string) : bool :=
  existsb (String.eqb (ToLower (canonicalHeaderKey (TrimSpace header)))) sensitiveVaryNames.

Definition blankChar (c : ascii) : bool := Ascii.eqb c " " || Ascii.eqb c (ascii_of_nat 9).

(** The names of the Vary fields; [None]: the response must not be stored. *)
Fixpoint varyParts (parts : list string) : option (list string) :=
  match parts with
  | [] => Some []
  | part :: parts =>
      let part := TrimBy blankChar part in
      if String.eqb part "" then varyParts parts
      else if String.eqb part "*" || negb (validHTTPToken part) then None
      else
        let canonical := canonicalHeaderKey part in
        if publicCacheSensitiveVaryHeader canonical then None
        else match varyParts parts with Some names => Some (canonical :: names) | None => None end
  end.

Definition publicCacheResponseVaryHeaders (ruleHeaders varyValues : list string) : option (list string) :=
  let headers := publicCacheRequiredVaryHeaders ruleHeaders in
  if existsb publicCacheSensitiveVaryHeader headers then None
  else match varyParts (concat (map (Split ",") varyValues)) with
       | None => None
       | Some names => Some (normalizePublicCacheHeaderList (headers ++ names))
       end.

(** ** The key *)

Definition keyRouteID (resolution : cacheResolution) : Z :=
  if resolution.(Route).(Routing.RouteID) =? 0 then default 0 resolution.(ResRouteID)
  else resolution.(Route).(Routing.RouteID).
Definition keyTargetID (resolution : cacheResolution) (rule : publicCacheRuleConfig) : Z :=
  if String.eqb rule.(Scope) publicCacheScopeSelectedBackend then
    (if resolution.(ResTargetID) =? 0 then default 0 resolution.(ResRouteTargetID) else resolution.(ResTargetID))
  else 0.

Definition keyParts (r : cacheRequest) (resolution : cacheResolution) (rule : publicCacheRuleConfig) (queryKey : string)
    : list string :=
  [resolution.(Listener).(WafCookies.Protocol); WafCookies.normalizeRequestHost r.(base).(ClientIdentity.Host);
   r.(paths).(PathSecurity.URLEscapedPath); queryKey; rule.(Scope); FormatInt (keyRouteID resolution);
   FormatInt (keyTargetID resolution rule)].

Definition keyVary (r : cacheRequest) (varyHeaders : list string) : list (string * list string) :=
  map (λ header, let canonical := canonicalHeaderKey header in (canonical, Values r.(base).(ClientIdentity.Header) canonical))
    (publicCacheRequiredVaryHeaders varyHeaders).

Definition publicCacheKeyDigest `{CacheCodec} (r : cacheRequest) (resolution : cacheResolution) (rule : publicCacheRuleConfig)
    (queryKey : string) (varyHeaders : list string) : string :=
  keyHash publicCacheKeyDigestVersion (keyParts r resolution rule queryKey) (keyVary r varyHeaders).

(** ** Which responses, and for how long *)

Record publicCacheControlDirective := mkDirective { DirectiveName : string; DirectiveValue : string }.

Definition parseDirective (part : string) : option publicCacheControlDirective :=
  let part := TrimSpace part in
  if String.eqb part "" then None
  else
    let '(name, value) := match Cut "=" part with Some nv => nv | None => (part, "") end in
    let name := ToLower (TrimSpace name) in
    if String.eqb name "" then None else Some (mkDirective name (TrimSpace value)).

Definition publicCacheControlDirectives (header : gmap string (list string)) : list publicCacheControlDirective :=
  omap parseDirective (concat (map (Split ",") (Values header "Cache-Control"))).

Definition quoteChar (c : ascii) : bool := Ascii.eqb c (ascii_of_nat 34).

(** The loop over the directives: s-maxage, or else the first max-age. *)
Fixpoint ageLoop (directives : list publicCacheControlDirective) (maxAge : option Z) : option Z :=
  match directives with
  | [] => maxAge
  | d :: directives =>
      match ParseInt (TrimBy quoteChar (TrimSpace d.(DirectiveValue))) with
      | None => ageLoop directives maxAge
      | Some seconds =>
          let ttl := i64 (seconds * second) in
          if String.eqb d.(DirectiveName) "s-maxage" then Some ttl
          else if String.eqb d.(DirectiveName) "max-age"
          then ageLoop directives (match maxAge with None => Some ttl | _ => maxAge end)
          else ageLoop directives maxAge
      end
  end.

Definition publicCacheOriginTTL (ParseTime : string → option Z) (now : Z) (header : gmap string (list string)) : option Z :=
  match ageLoop (publicCacheControlDirectives header) None with
  | Some ttl => Some ttl
  | None =>
      let expires := headerGet header "Expires" in
      if String.eqb expires "" then None
      else match ParseTime expires with
           | None => None
           | Some t => let ttl := time_sub t now in if 0 <? ttl then Some ttl else None
           end
  end.

Definition forbidsStoring (d : publicCacheControlDirective) : bool :=
  String.eqb d.(DirectiveName) "no-store" || String.eqb d.(DirectiveName) "private" || String.eqb d.(DirectiveName) "no-cache".

(** The time to live and the headers the key depends on; [None]: not stored. *)
Definition publicCacheResponseEligibility (ParseTime : string → option Z) (now : Z) (rule : publicCacheRuleConfig)
    (resp : cacheResponse) : option (Z * list string) :=
  if negb (int64InSlice resp.(StatusCode) rule.(CacheStatusCodes)) then None
  else if (0 <? length (Values resp.(RespHeader) "Set-Cookie"))%nat then None
  else if bool_decide (resp.(Trailer) ≠ ∅) || (0 <? length (Values resp.(RespHeader) "Trailer"))%nat then None
  else if existsb forbidsStoring (publicCacheControlDirectives resp.(RespHeader)) then None
  else if PathSecurity.contains "text/event-stream" (ToLower (headerGet resp.(RespHeader) "Content-Type")) then None
  else match publicCacheResponseVaryHeaders rule.(VaryHeaders) (Values resp.(RespHeader) "Vary") with
  | None => None
  | Some varyHeaders =>
      let ttl := if rule.(TTL) <=? 0 then defaultPublicCacheTTLMillis * millisecond else rule.(TTL) in
      let ttl := if String.eqb rule.(TTLMode) publicCacheTTLModeOrigin
                 then default ttl (publicCacheOriginTTL ParseTime now resp.(RespHeader)) else ttl in
      if ttl <=? 0 then None else Some (ttl, varyHeaders)
  end.

(** ** Stored headers *)

Definition hopByHopNames : list string :=
  ["connection"; "keep-alive"; "proxy-authenticate"; "proxy-authorization"; "te"; "trailer"; "transfer-encoding"; "upgrade"].
Definition publicCacheHopByHopHeader (name : string) : bool := existsb (String.eqb (ToLower name)) hopByHopNames.

Definition droppedHeader (canonical : string) : bool :=
  publicCacheHopByHopHeader canonical || EqualFold canonical "Set-Cookie" || EqualFold canonical "Age"
  || EqualFold canonical "X-p2pstream-Cache".

Definition addHeader (h : gmap string (list string)) (canonical value : string) : gmap string (list string) :=
  <[canonicalHeaderKey canonical := default [] (h !! canonicalHeaderKey canonical) ++ [value]]> h.

Fixpoint headerValuesLoop (canonical : string) (values : list string) (size : Z) (resp : gmap string (list string))
    : option (Z * gmap string (list string)) :=
  match values with
  | [] => Some (size, resp)
  | value :: values =>
      let size := size + Z.of_nat (String.length canonical) + Z.of_nat (String.length value) in
      if maxPublicCacheHeaderBytes <? size then None
      else headerValuesLoop canonical values size (addHeader resp canonical value)
  end.

(** The headers in the order the map is iterated; [None]: they are too large. *)
Fixpoint cachedHeaders (fields : list (string * list string)) (size : Z) (resp : gmap string (list string))
    : option (gmap string (list string)) :=
  match fields with
  | [] => Some resp
  | (key, values) :: fields =>
      let canonical := canonicalHeaderKey key in
      if droppedHeader canonical then cachedHeaders fields size resp
      else match headerValuesLoop canonical values size resp with
           | None => None
           | Some (size, resp) => cachedHeaders fields size resp
           end
  end.
Definition publicCacheHeadersJSON (fields : list (string * list string)) : option (gmap string (list string)) :=
  cachedHeaders fields 0 ∅.

(** What a text is after encoding/json wrote and read it: a byte that is not part of a valid
    UTF-8 sequence becomes U+FFFD.  [runeSize]: the size of the sequence at the head, 0 if
    it is not valid. *)
Definition inRange (lo hi : nat) (c : ascii) : bool := (lo <=? nat_of_ascii c)%nat && (nat_of_ascii c <=? hi)%nat.
Definition tails (n : nat) (s : string) : bool :=
  (n <=? String.length s)%nat && ClientIdentity.allBytes (inRange 128 191) (String.substring 0 n s).
Definition runeSize (s : string) : nat :=
  match s with
  | EmptyString => 0
  | String c rest =>
      let second lo hi := match rest with String d _ => inRange lo hi d | EmptyString => false end in
      if asciiChar c then 1
      else if inRange 194 223 c && tails 1 rest then 2
      else if ((inRange 224 224 c && second 160 191) || (inRange 225 236 c && second 128 191) || (inRange 237 237 c && second 128 159)
               || (inRange 238 239 c && second 128 191))%nat && tails 2 rest then 3
      else if ((inRange 240 240 c && second 144 191) || (inRange 241 243 c && second 128 191) || (inRange 244 244 c && second 128 143))%nat
              && tails 3 rest then 4
      else 0
  end.
Definition replacementRune : string :=
  String (ascii_of_nat 239) (String (ascii_of_nat 191) (String (ascii_of_nat 189) EmptyString)).
(** [keep]: how many bytes of the current sequence are left. *)
Fixpoint jsonLoop (keep : nat) (s : string) : string :=
  match s with
  | EmptyString => ""
  | String c rest =>
      match keep with
      | S keep => String c (jsonLoop keep rest)
      | O => match runeSize s with
             | O => (replacementRune ++ jsonLoop 0 rest)%string
             | S n => String c (jsonLoop n rest)
             end
      end
  end.
Definition jsonText (s : string) : string := jsonLoop 0 s.
Definition publicCacheHeadersFromJSON (stored : gmap string (list string)) : gmap string (list string) := map jsonText <$> stored.

(** ** Settings *)

Definition defaultPublicCacheSettings (now : Z) : publicCacheSettingsConfig :=
  mkSettings true defaultPublicCacheMaxDiskBytes defaultPublicCacheMaxMemoryBytes defaultPublicCacheMemoryHotObjectBytes
    defaultPublicCacheMaxEntries (defaultPublicCacheCleanupIntervalMillis * millisecond) now now.

Record settingsRow := mkSettingsRow {
  RowSettingsEnabled : Z;
  RowMaxDiskBytes : Z;
  RowMaxMemoryBytes : Z;
  RowMemoryHotObjectMaxBytes : Z;
  RowMaxEntries : Z;
  RowCleanupIntervalMillis : Z;
  RowSettingsCreatedAt : Z;
  RowSettingsUpdatedAt : Z }.

Definition publicCacheSettingsRowToConfig (row : settingsRow) : publicCacheSettingsConfig :=
  let interval := i64 (row.(RowCleanupIntervalMillis) * millisecond) in
  mkSettings (negb (row.(RowSettingsEnabled) =? 0))
    (if row.(RowMaxDiskBytes) <? 0 then defaultPublicCacheMaxDiskBytes else row.(RowMaxDiskBytes))
    (if row.(RowMaxMemoryBytes) <? 0 then defaultPublicCacheMaxMemoryBytes else row.(RowMaxMemoryBytes))
    (if row.(RowMemoryHotObjectMaxBytes) <? 0 then defaultPublicCacheMemoryHotObjectBytes else row.(RowMemoryHotObjectMaxBytes))
    (if row.(RowMaxEntries) <=? 0 then defaultPublicCacheMaxEntries else row.(RowMaxEntries))
    (if interval <=? 0 then defaultPublicCacheCleanupIntervalMillis * millisecond else interval)
    row.(RowSettingsCreatedAt) row.(RowSettingsUpdatedAt).

(** [0] asks for the default. *)
Definition orDefault (d v : Z) : Z := if v =? 0 then d else v.

(** The parameters of the update; [None] is a refusal. *)
Definition validatePublicCacheSettingsInput (enabled : bool) (maxDiskBytes maxMemoryBytes hotObjectBytes maxEntries cleanupMillis : Z)
    : option (Z * Z * Z * Z * Z * Z) :=
  let maxDiskBytes := orDefault defaultPublicCacheMaxDiskBytes maxDiskBytes in
  let maxMemoryBytes := orDefault defaultPublicCacheMaxMemoryBytes maxMemoryBytes in
  let hotObjectBytes := orDefault defaultPublicCacheMemoryHotObjectBytes hotObjectBytes in
  let maxEntries := orDefault defaultPublicCacheMaxEntries maxEntries in
  let cleanupMillis := orDefault defaultPublicCacheCleanupIntervalMillis cleanupMillis in
  if (maxDiskBytes <? 0) || (maxMemoryBytes <? 0) || (hotObjectBytes <? 0) then None
  else if (maxMemoryBytes <? hotObjectBytes) && (0 <? maxMemoryBytes) then None
  else if (maxEntries <? 1) || (10000000 <? maxEntries) then None
  else if (cleanupMillis <? minPublicCacheCleanupIntervalMillis) || (maxPublicCacheCleanupIntervalMillis <? cleanupMillis) then None
  else Some (RetryPolicy.boolInt enabled, maxDiskBytes, maxMemoryBytes, hotObjectBytes, maxEntries, cleanupMillis).

Definition publicCacheRuntimeFingerprint `{CacheCodec} (settings : publicCacheSettingsConfig) (rules : list publicCacheRuleConfig)
    : string :=
  runtimeHash (settings.(SettingsEnabled), settings.(MaxDiskBytes), settings.(MaxMemoryBytes), settings.(MemoryHotObjectMaxBytes),
               settings.(MaxEntries), settings.(CleanupInterval))
    (map (λ rule, (rule.(ID), rule.(Fingerprint), rule.(Enabled))) rules).

(** ** Rules *)

Definition normalizePublicCacheScope (value : string) : string :=
  if String.eqb value publicCacheScopeRoute then publicCacheScopeRoute else publicCacheScopeSelectedBackend.
Definition normalizePublicCacheTTLMode (value : string) : string :=
  if String.eqb value publicCacheTTLModeOrigin then publicCacheTTLModeOrigin else publicCacheTTLModeFixed.
Definition normalizePublicCacheQueryMode (value : string) : string :=
  if String.eqb value publicCacheQueryModeIgnore || String.eqb value publicCacheQueryModeAllowlist
     || String.eqb value publicCacheQueryModeDenylist then value else publicCacheQueryModeFull.
Definition normalizePublicCacheTTLMillis (value : Z) : Z := if value =? 0 then defaultPublicCacheTTLMillis else value.
Definition normalizePublicCacheMaxObjectBytes (value : Z) : Z :=
  if value <=? 0 then defaultPublicCacheMaxObjectBytes else value.

Definition statusCode (value : Z) : bool := negb ((value <? 100) || (599 <? value)).
Definition normalizePublicCacheStatusCodes (values : list Z) : list Z :=
  let values := if (length values =? 0)%nat then defaultPublicCacheStatusCodes else values in
  let resp := ClientIdentity.dedupSeen [] (List.filter statusCode values) in
  let resp := if (length resp =? 0)%nat then defaultPublicCacheStatusCodes else resp in
  ClientIdentity.sortBy Z.leb resp.

Definition nonBlank (value : string) : bool := negb (String.eqb value "").
Definition normalizePublicCacheQueryParams (values : list string) : list string :=
  ClientIdentity.sortStrings (ClientIdentity.dedupSeen [] (List.filter nonBlank (map TrimSpace values))).

(** The enumerations of the API; [Invalid] stands for the numbers without a name. *)
Inductive protoScope := ScopeUnspecified | ScopeSelectedBackend | ScopeRoute | ScopeInvalid.
Inductive protoTTLMode := TTLUnspecified | TTLFixed | TTLOrigin | TTLInvalid.
Inductive protoQueryMode := QueryUnspecified | QueryFull | QueryIgnore | QueryAllowlist | QueryDenylist | QueryInvalid.

Definition publicCacheScopeStringFromProto (value : protoScope) : option string :=
  match value with
  | ScopeUnspecified | ScopeSelectedBackend => Some publicCacheScopeSelectedBackend
  | ScopeRoute => Some publicCacheScopeRoute
  | ScopeInvalid => None
  end.
Definition publicCacheTTLModeStringFromProto (value : protoTTLMode) : option string :=
  match value with
  | TTLUnspecified | TTLFixed => Some publicCacheTTLModeFixed
  | TTLOrigin => Some publicCacheTTLModeOrigin
  | TTLInvalid => None
  end.
Definition publicCacheQueryModeStringFromProto (value : protoQueryMode) : option string :=
  match value with
  | QueryUnspecified | QueryFull => Some publicCacheQueryModeFull
  | QueryIgnore => Some publicCacheQueryModeIgnore
  | QueryAllowlist => Some publicCacheQueryModeAllowlist
  | QueryDenylist => Some publicCacheQueryModeDenylist
  | QueryInvalid => None
  end.
Definition protoPublicCacheScope (value : string) : protoScope :=
  if String.eqb value publicCacheScopeRoute then ScopeRoute else ScopeSelectedBackend.
Definition protoPublicCacheTTLMode (value : string) : protoTTLMode :=
  if String.eqb value publicCacheTTLModeOrigin then TTLOrigin else TTLFixed.
Definition protoPublicCacheQueryMode (value : string) : protoQueryMode :=
  if String.eqb value publicCacheQueryModeIgnore then QueryIgnore
  else if String.eqb value publicCacheQueryModeAllowlist then QueryAllowlist
  else if String.eqb value publicCacheQueryModeDenylist then QueryDenylist
  else QueryFull.

(** What validation hands to the database, JSON columns as values. *)
Record publicCacheRuleMutationInput := mkCacheInput {
  InputName : string;
  InputPriority : Z;
  InputEnabled : Z;
  MatchJSON : WafCookies.policyMatch;
  RouteIDsJSON : list Z;
  TargetIDsJSON : list Z;
  InputScope : string;
  InputTTLMode : string;
  TTLMillis : Z;
  InputQueryMode : string;
  QueryParamsJSON : list string;
  VaryHeadersJSON : list string;
  CacheStatusCodesJSON : list Z;
  InputMaxObjectBytes : Z;
  InputAddCacheStatusHeader : Z }.

Record cacheRuleRequest := mkRuleRequest {
  ReqName : string;
  ReqPriority : Z;
  ReqEnabled : bool;
  ReqRouteIDs : list Z;
  ReqTargetIDs : list Z;
  ReqScope : protoScope;
  ReqTTLMode : protoTTLMode;
  ReqTTLMillis : Z;
  ReqQueryMode : protoQueryMode;
  ReqQueryParams : list string;
  ReqVaryHeaders : list string;
  ReqStatusCodes : list Z;
  ReqMaxObjectBytes : Z;
  ReqAddCacheStatusHeader : bool }.

Inductive cacheRuleError :=
  | ErrName | ErrMatch | ErrTooManyRoutes | ErrRouteMissing (id : Z) | ErrTooManyTargets | ErrTargetMissing (id : Z) | ErrDatabase
  | ErrScope | ErrTTLMode | ErrTTL | ErrQueryMode | ErrQueryParamsRequired | ErrTooManyQueryParams | ErrTooManyVaryHeaders
  | ErrSensitiveVary | ErrTooManyStatusCodes.

(** The answer of the database for each identifier in turn. *)
Fixpoint checkIDs (get : Z → RetryPolicy.dbResult unit) (missing : Z → cacheRuleError) (ids : list Z) : option cacheRuleError :=
  match ids with
  | [] => None
  | id :: ids =>
      match get id with
      | RetryPolicy.Found _ => checkIDs get missing ids
      | RetryPolicy.NoRows => Some (missing id)
      | RetryPolicy.DBError => Some ErrDatabase
      end
  end.

Definition validatePublicCacheRouteIDs (GetPublicRoute : Z → RetryPolicy.dbResult unit) (ids : list Z) : cacheRuleError + list Z :=
  let ids := RetryPolicy.normalizePublicCacheInt64List ids in
  if (maxPublicCacheListItems <? length ids)%nat then inl ErrTooManyRoutes
  else match checkIDs GetPublicRoute ErrRouteMissing ids with Some e => inl e | None => inr ids end.

Definition validatePublicCacheTargetIDs (GetPublicRouteTarget : Z → RetryPolicy.dbResult unit) (ids : list Z)
    : cacheRuleError + list Z :=
  let ids := RetryPolicy.normalizePublicCacheInt64List ids in
  if (maxPublicCacheListItems <? length ids)%nat then inl ErrTooManyTargets
  else match checkIDs GetPublicRouteTarget ErrTargetMissing ids with Some e => inl e | None => inr ids end.

Definition validatePublicCacheRuleInput (GetPublicRoute GetPublicRouteTarget : Z → RetryPolicy.dbResult unit)
    (validatePublicPolicyMatch : option WafCookies.policyMatch) (req : cacheRuleRequest)
    : cacheRuleError + publicCacheRuleMutationInput :=
  let name := TrimSpace req.(ReqName) in
  if negb (RetryPolicy.publicNamePattern name) then inl ErrName
  else match validatePublicPolicyMatch with
  | None => inl ErrMatch
  | Some matchConfig =>
  match validatePublicCacheRouteIDs GetPublicRoute req.(ReqRouteIDs) with
  | inl e => inl e
  | inr routeIDs =>
  match validatePublicCacheTargetIDs GetPublicRouteTarget req.(ReqTargetIDs) with
  | inl e => inl e
  | inr targetIDs =>
  match publicCacheScopeStringFromProto req.(ReqScope) with
  | None => inl ErrScope
  | Some scope =>
  match publicCacheTTLModeStringFromProto req.(ReqTTLMode) with
  | None => inl ErrTTLMode
  | Some ttlMode =>
  let ttlMillis := normalizePublicCacheTTLMillis req.(ReqTTLMillis) in
  if (ttlMillis <? minPublicCacheTTLMillis) || (maxPublicCacheTTLMillis <? ttlMillis) then inl ErrTTL
  else match publicCacheQueryModeStringFromProto req.(ReqQueryMode) with
  | None => inl ErrQueryMode
  | Some queryMode =>
  let queryParams := normalizePublicCacheQueryParams req.(ReqQueryParams) in
  if (String.eqb queryMode publicCacheQueryModeAllowlist || String.eqb queryMode publicCacheQueryModeDenylist)
     && (length queryParams =? 0)%nat then inl ErrQueryParamsRequired
  else if (maxPublicCacheListItems <? length queryParams)%nat then inl ErrTooManyQueryParams
  else
  let varyHeaders := publicCacheRequiredVaryHeaders req.(ReqVaryHeaders) in
  if (maxPublicCacheListItems <? length varyHeaders)%nat then inl ErrTooManyVaryHeaders
  else if existsb publicCacheSensitiveVaryHeader varyHeaders then inl ErrSensitiveVary
  else
  let statusCodes := normalizePublicCacheStatusCodes req.(ReqStatusCodes) in
  if (maxPublicCacheListItems <? length statusCodes)%nat then inl ErrTooManyStatusCodes
  else
    inr (mkCacheInput name req.(ReqPriority) (RetryPolicy.boolInt req.(ReqEnabled)) matchConfig routeIDs targetIDs scope ttlMode
           ttlMillis queryMode queryParams varyHeaders statusCodes (normalizePublicCacheMaxObjectBytes req.(ReqMaxObjectBytes))
           (RetryPolicy.boolInt req.(ReqAddCacheStatusHeader)))
  end end end end end end.

(** A row of the table; [None] where json.Unmarshal fails.  A list column that fails to
    decode is an error, a text list column reads as empty. *)
Record cacheRuleRow := mkCacheRow {
  RowID : Z;
  RowName : string;
  RowPriority : Z;
  RowEnabled : Z;
  RowMatch : option WafCookies.policyMatch;
  RowRouteIDs : option (list Z);
  RowTargetIDs : option (list Z);
  RowScope : string;
  RowTTLMode : string;
  RowTTLMillis : Z;
  RowQueryMode : string;
  RowQueryParams : option (list string);
  RowVaryHeaders : option (list string);
  RowStatusCodes : option (list Z);
  RowMaxObjectBytes : Z;
  RowAddCacheStatusHeader : Z;
  RowCreatedAt : Z;
  RowUpdatedAt : Z }.

(** [None]: the rule is left out. *)
Definition publicCacheRuleRowToConfig `{CacheCodec} (row : cacheRuleRow) : option publicCacheRuleConfig :=
  match row.(RowMatch), row.(RowRouteIDs), row.(RowTargetIDs), row.(RowStatusCodes) with
  | Some m, Some routeIDs, Some targetIDs, Some statusCodes =>
      let rule := mkCacheRule row.(RowID) row.(RowName) row.(RowPriority) (negb (row.(RowEnabled) =? 0)) m
        (RetryPolicy.normalizePublicCacheInt64List routeIDs) (RetryPolicy.normalizePublicCacheInt64List targetIDs)
        (normalizePublicCacheScope row.(RowScope)) (normalizePublicCacheTTLMode row.(RowTTLMode))
        (i64 (normalizePublicCacheTTLMillis row.(RowTTLMillis) * millisecond))
        (normalizePublicCacheQueryMode row.(RowQueryMode))
        (normalizePublicCacheQueryParams (default [] row.(RowQueryParams)))
        (publicCacheRequiredVaryHeaders (default [] row.(RowVaryHeaders)))
        (normalizePublicCacheStatusCodes (RetryPolicy.normalizePublicCacheInt64List statusCodes))
        (normalizePublicCacheMaxObjectBytes row.(RowMaxObjectBytes)) (negb (row.(RowAddCacheStatusHeader) =? 0))
        row.(RowCreatedAt) row.(RowUpdatedAt) "" in
      Some (mkCacheRule rule.(ID) rule.(Name) rule.(CachePriority) rule.(Enabled) rule.(Match) rule.(RouteIDs) rule.(TargetIDs)
              rule.(Scope) rule.(TTLMode) rule.(TTL) rule.(QueryMode) rule.(QueryParams) rule.(VaryHeaders)
              rule.(CacheStatusCodes) rule.(MaxObjectBytes) rule.(AddCacheStatusHeader) rule.(CreatedAt) rule.(UpdatedAt)
              (ruleHash rule))
  | _, _, _, _ => None
  end.

(** The row of a validated rule (cacheCreateParams). *)
Definition cacheCreateParams (id : Z) (input : publicCacheRuleMutationInput) (created updated : Z) : cacheRuleRow :=
  mkCacheRow id input.(InputName) input.(InputPriority) input.(InputEnabled) (Some input.(MatchJSON))
    (Some input.(RouteIDsJSON)) (Some input.(TargetIDsJSON)) input.(InputScope) input.(InputTTLMode) input.(TTLMillis)
    input.(InputQueryMode) (Some input.(QueryParamsJSON)) (Some input.(VaryHeadersJSON)) (Some input.(CacheStatusCodesJSON))
    input.(InputMaxObjectBytes) input.(InputAddCacheStatusHeader) created updated.

(** ** The query key is exact *)

(** The inverse of the escaping. *)
Fixpoint queryUnescape (s : string) : string :=
  match s with
  | EmptyString => EmptyString
  | String c rest1 =>
      if Ascii.eqb c "+" then String " " (queryUnescape rest1)
      else if Ascii.eqb c "%" then
        match rest1 with
        | String h (String l rest) =>
            match PathSecurity.publicPathHexDigit h, PathSecurity.publicPathHexDigit l with
            | Some hi, Some lo => String (ascii_of_nat (Z.to_nat (hi * 16 + lo))) (queryUnescape rest)
            | _, _ => EmptyString
            end
        | _ => EmptyString
        end
      else String c (queryUnescape rest1)
  end.

Lemma queryUnescape_byte c rest : queryUnescape (escapeByte c rest) = String c (queryUnescape rest).
Proof. destruct c as [[] [] [] [] [] [] [] []]; reflexivity. Qed.

Lemma queryUnescape_escape s : queryUnescape (QueryEscape s) = s.
Proof. induction s as [|c s IH]; [done|]. cbn [QueryEscape]. by rewrite queryUnescape_byte, IH. Qed.

#[export] Instance QueryEscape_inj : Inj (=) (=) QueryEscape.
Proof. intros a b H. by rewrite <-(queryUnescape_escape a), H, queryUnescape_escape. Qed.

(** The bytes of an escaped text. *)
Definition escapedChar (c : ascii) : bool := unreserved c || Ascii.eqb c "%" || Ascii.eqb c "+".

Lemma QueryEscape_chars s : ClientIdentity.allBytes escapedChar (QueryEscape s) = true.
Proof.
  induction s as [|c s IH]; [done|]. cbn [QueryEscape].
  assert (H : ∀ rest, ClientIdentity.allBytes escapedChar (escapeByte c rest) = ClientIdentity.allBytes escapedChar rest);
    [|by rewrite H].
  intros rest. destruct c as [[] [] [] [] [] [] [] []]; reflexivity.
Qed.

Lemma allBytes_contains f c s : ClientIdentity.allBytes f s = true → f c = false → containsByte c s = false.
Proof.
  intros H Hc. induction s as [|d s IH]; [done|]. cbn in *. apply andb_true_iff in H as [Hd H]. rewrite IH by done.
  destruct (Ascii.eqb_spec d c) as [->|]; [congruence|done].
Qed.

Lemma encodePair_plain p : containsByte "&" (encodePair p) = false ∧ encodePair p ≠ "".
Proof.
  unfold encodePair. split.
  - rewrite containsByte_app. cbn [containsByte]. rewrite !(allBytes_contains escapedChar) by (apply QueryEscape_chars || done). done.
  - destruct (QueryEscape p.1); done.
Qed.

#[export] Instance encodePair_inj : Inj (=) (=) encodePair.
Proof.
  intros [k1 v1] [k2 v2] H. unfold encodePair in H. simpl in H.
  assert (E : ∀ k v, Cut "=" (QueryEscape k ++ String "=" (QueryEscape v)) = Some (QueryEscape k, QueryEscape v)).
  { intros k v. apply Cut_app. apply (allBytes_contains escapedChar); [apply QueryEscape_chars|done]. }
  pose proof (E k1 v1) as E1. rewrite H, E in E1. injection E1 as Hk Hv. by apply QueryEscape_inj in Hk, Hv; subst.
Qed.

Lemma Split_none c s : containsByte c s = false → Split c s = [s].
Proof.
  induction s as [|d s IH]; [done|]. cbn [containsByte Split]. intros H. apply orb_false_iff in H as [-> H]. by rewrite IH.
Qed.

Lemma Split_joinWith sep l : Forall (λ x, containsByte sep x = false) l → l ≠ [] → Split sep (joinWith sep l) = l.
Proof.
  induction l as [|x [|y l] IH]; intros Hl Hne; [done| |]; apply Forall_cons in Hl as [Hx Hl].
  - by apply Split_none.
  - change (Split sep (x ++ String sep (joinWith sep (y :: l))) = x :: y :: l).
    by rewrite Split_app, Split_none, IH.
Qed.

Lemma joinWith_inj sep l1 l2 : Forall (λ x, containsByte sep x = false ∧ x ≠ "") l1 →
  Forall (λ x, containsByte sep x = false ∧ x ≠ "") l2 → joinWith sep l1 = joinWith sep l2 → l1 = l2.
Proof.
  assert (Hempty : ∀ l, Forall (λ x, containsByte sep x = false ∧ x ≠ "") l → joinWith sep l = "" → l = []).
  { intros [|x [|y l]] Hl H; [done| |]; apply Forall_cons in Hl as [[_ Hx] _]; [done|].
    change ((x ++ String sep (joinWith sep (y :: l)))%string = "") in H. by destruct x. }
  intros H1 H2 H. destruct l1 as [|x l1]; [symmetry; by apply Hempty|].
  destruct l2 as [|y l2]; [by apply Hempty|].
  rewrite <-(Split_joinWith sep (x :: l1)), H, Split_joinWith; try done; eapply Forall_impl; try done; naive_solver.
Qed.

(** A parsed query has no name without a value. *)
Definition parsedQuery (values : gmap string (list string)) : Prop := map_Forall (λ _ vs, vs ≠ []) values.

(** The values of a name can be read off the pairs. *)
Lemma queryPairs_values values k :
  map snd (filter (λ p, p.1 = k) (queryPairs values)) = default [] (values !! k).
Proof.
  unfold queryPairs. set (keys := ClientIdentity.sortStrings (map fst (map_to_list values))).
  assert (Hnd : NoDup keys).
  { unfold keys, ClientIdentity.sortStrings. rewrite (ClientIdentity.sortBy_perm NetIP.stringLe). apply NoDup_fst_map_to_list. }
  assert (Hin : k ∈ keys ∨ default [] (values !! k) = []).
  { destruct (values !! k) as [vs|] eqn:E; [left|by right]. unfold keys, ClientIdentity.sortStrings.
    rewrite (ClientIdentity.sortBy_perm NetIP.stringLe). apply list_elem_of_fmap. exists (k, vs). split; [done|].
    by apply elem_of_map_to_list. }
  clearbody keys. induction keys as [|key keys IH]; simpl.
  - destruct Hin as [H| ->]; [by apply elem_of_nil in H|done].
  - apply NoDup_cons in Hnd as [Hk Hnd]. rewrite filter_app, map_app.
    assert (Hsame : ∀ l, map snd (filter (λ p : string * string, p.1 = k) (map (pair key) l)) = if decide (key = k) then l else []).
    { induction l as [|v l IHl]; [by case_decide|]. simpl. rewrite filter_cons. simpl. case_decide; simpl; [by rewrite IHl|done]. }
    rewrite Hsame. case_decide as Heq.
    + subst key. assert (Hrest : map snd (filter (λ p, p.1 = k) (concat (map (λ key, map (pair key) (default [] (values !! key))) keys))) = []).
      { clear -Hk Hsame. induction keys as [|y keys IH]; [done|]. simpl. rewrite filter_app, map_app, IH by set_solver.
        rewrite app_nil_r. assert (y ≠ k) by set_solver.
        generalize (default [] (values !! y)). intros l. induction l as [|v l IHl]; [done|]. simpl. rewrite filter_cons. by case_decide. }
      by rewrite Hrest, app_nil_r.
    + simpl. apply IH; [done|]. destruct Hin as [Hin|Hin]; [left; set_solver|by right].
Qed.

Lemma Encode_inj v1 v2 : parsedQuery v1 → parsedQuery v2 → Encode v1 = Encode v2 → v1 = v2.
Proof.
  intros H1 H2 H. unfold Encode in H. apply joinWith_inj in H; [|by apply Forall_map, Forall_true; intros; apply encodePair_plain..].
  apply (inj (map encodePair)) in H. apply map_eq. intros k.
  pose proof (queryPairs_values v1 k) as E1. rewrite H, queryPairs_values in E1.
  destruct (v1 !! k) as [l1|] eqn:L1, (v2 !! k) as [l2|] eqn:L2; simpl in E1; subst; try done.
  - by destruct (H1 _ _ L1).
  - by destruct (H2 _ _ L2).
Qed.

(** The parameters a rule puts into the key. *)
Definition keyValues (r : cacheRequest) (rule : publicCacheRuleConfig) : gmap string (list string) :=
  let values := r.(base).(ClientIdentity.Query) in
  if String.eqb rule.(QueryMode) publicCacheQueryModeIgnore then ∅
  else if String.eqb rule.(QueryMode) publicCacheQueryModeAllowlist then filterValues values rule.(QueryParams) true
  else if String.eqb rule.(QueryMode) publicCacheQueryModeDenylist then filterValues values rule.(QueryParams) false
  else values.

Lemma publicCacheQueryKey_Encode r rule key : publicCacheQueryKey r rule = Some key → key = Encode (keyValues r rule).
Proof.
  unfold publicCacheQueryKey, keyValues, filteredQuery. intros H.
  repeat (case_hyp H; [by injection H as <-|]). case_hyp H; [done|]. by injection H as <-.
Qed.

Lemma keyValues_parsed r rule : parsedQuery r.(base).(ClientIdentity.Query) → parsedQuery (keyValues r rule).
Proof.
  assert (Hf : ∀ values params allow, parsedQuery values → parsedQuery (filterValues values params allow)).
  { intros values params allow Hv k vs Hk. apply map_lookup_filter_Some in Hk as [Hk _]. by apply (Hv k). }
  intros H. unfold keyValues. case_goal; [done|]. do 2 (case_goal; [by apply Hf|]). done.
Qed.

(** Two requests have the same query key under a rule exactly when they agree on the
    parameters the rule puts into the key: names, values and the order of the values of a
    name, however the queries were spelled. *)
Theorem cache_query_exact r1 r2 rule key1 key2 :
  publicCacheQueryKey r1 rule = Some key1 → publicCacheQueryKey r2 rule = Some key2 →
  parsedQuery r1.(base).(ClientIdentity.Query) → parsedQuery r2.(base).(ClientIdentity.Query) →
  key1 = key2 ↔ keyValues r1 rule = keyValues r2 rule.
Proof.
  intros E1 E2 H1 H2. apply publicCacheQueryKey_Encode in E1 as ->. apply publicCacheQueryKey_Encode in E2 as ->.
  split; [|by intros ->]. by apply Encode_inj; apply keyValues_parsed.
Qed.

(** ** Header names *)

Lemma canonical_char c : tokenChar (toUpper c) = tokenChar c ∧ tokenChar (toLower c) = tokenChar c
  ∧ Ascii.eqb (toUpper c) "-" = Ascii.eqb c "-" ∧ Ascii.eqb (toLower c) "-" = Ascii.eqb c "-"
  ∧ toUpper (toUpper c) = toUpper c ∧ toLower (toLower c) = toLower c ∧ toLower (toUpper c) = toLower c
  ∧ toUpper (toLower c) = toUpper c.
Proof. destruct c as [[] [] [] [] [] [] [] []]; vm_compute; repeat split. Qed.

Lemma canonical_token b s : ClientIdentity.allBytes tokenChar (canonical b s) = ClientIdentity.allBytes tokenChar s.
Proof.
  revert b. induction s as [|c s IH]; intros b; [done|]. cbn. rewrite IH. f_equal.
  destruct (canonical_char c) as (H1 & H2 & _). by destruct b.
Qed.

Lemma canonical_idem b s : canonical b (canonical b s) = canonical b s.
Proof.
  revert b. induction s as [|c s IH]; intros b; [done|]. cbn [canonical].
  destruct (canonical_char c) as (_ & _ & H3 & H4 & H5 & H6 & _). destruct b; by rewrite ?H3, ?H4, ?H5, ?H6, IH.
Qed.

Lemma canonical_lower b s : canonical b (ToLower s) = canonical b s.
Proof.
  unfold ToLower. revert b. induction s as [|c s IH]; intros b; [done|]. cbn [canonical mapString].
  destruct (canonical_char c) as (_ & _ & _ & H4 & _ & H6 & _ & H8). destruct b; by rewrite H4, ?H6, ?H8, IH.
Qed.

Lemma ToLower_canonical b s : ToLower (canonical b s) = ToLower s.
Proof.
  unfold ToLower. revert b. induction s as [|c s IH]; intros b; [done|]. cbn [canonical mapString]. rewrite IH.
  destruct (canonical_char c) as (_ & _ & _ & _ & _ & H6 & H7 & _). destruct b; by rewrite ?H6, ?H7.
Qed.

(** A name the code keeps: a token in canonical form. *)
Definition headerName (h : string) : Prop := validHTTPToken h = true ∧ canonicalHeaderKey h = h.

Lemma canonicalHeaderKey_name h : validHTTPToken (canonicalHeaderKey h) = true → headerName (canonicalHeaderKey h).
Proof.
  unfold headerName, canonicalHeaderKey, validHTTPToken. intros H. split; [done|].
  destruct (ClientIdentity.allBytes tokenChar h) eqn:E; [|by rewrite E].
  unfold CanonicalMIMEHeaderKey. by rewrite canonical_token, E, canonical_idem.
Qed.

(** Names that differ only in case are one name. *)
Lemma headerName_lower a b : headerName a → headerName b → ToLower a = ToLower b → a = b.
Proof.
  unfold headerName, validHTTPToken, canonicalHeaderKey, CanonicalMIMEHeaderKey. intros [Ha Ea] [Hb Eb] H.
  apply andb_true_iff in Ha as [_ Ha]. apply andb_true_iff in Hb as [_ Hb]. rewrite Ha in Ea. rewrite Hb in Eb.
  by rewrite <-Ea, <-Eb, <-(canonical_lower true a), <-(canonical_lower true b), H.
Qed.

Lemma headerListLoop_names values : ∀ seen, Forall headerName (headerListLoop seen values).
Proof.
  induction values as [|v values IH]; intros seen; cbn [headerListLoop]; [constructor|].
  case_if E; [done|]. case_goal; [done|]. apply Forall_cons. split; [|apply IH].
  apply orb_false_iff in E as [_ E]. apply negb_false_iff in E. by apply canonicalHeaderKey_name.
Qed.

Lemma headerListLoop_elem values : ∀ seen h, h ∈ headerListLoop seen values ↔
  headerName h ∧ ToLower h ∉ seen ∧ ∃ v, v ∈ values ∧ h = canonicalHeaderKey (TrimSpace v).
Proof.
  induction values as [|v values IH]; intros seen h; cbn [headerListLoop].
  - split; [by intros ?%elem_of_nil|]. intros (_ & _ & v & Hv & _). by apply elem_of_nil in Hv.
  - set (c := canonicalHeaderKey (TrimSpace v)). case_if E.
    + rewrite IH. split; [naive_solver set_solver|]. intros (Hn & Hs & w & Hw & ->). split_and!; [done..|].
      apply elem_of_cons in Hw as [->|Hw]; [|by exists w]. destruct Hn as [Hn _]. fold c in Hn. rewrite Hn in E.
      rewrite orb_false_r in E. unfold validHTTPToken in Hn. by rewrite E in Hn.
    + assert (Hc : headerName c).
      { apply orb_false_iff in E as [_ E]. apply negb_false_iff in E. by apply canonicalHeaderKey_name. }
      destruct (bool_decide_reflect (ToLower c ∈ seen)) as [Hin|Hin].
      * rewrite IH. split; [naive_solver set_solver|]. intros (Hn & Hs & w & Hw & ->). split_and!; [done..|].
        apply elem_of_cons in Hw as [->|Hw]; [done|by exists w].
      * rewrite elem_of_cons, IH. split.
        -- intros [->|(Hn & Hs & w & Hw & ->)]; [|set_solver]. split_and!; [done..|]. exists v. set_solver.
        -- intros (Hn & Hs & w & Hw & Hh). destruct (decide (h = c)) as [|Hne]; [by left|right].
           split_and!; [done| |].
           ++ apply not_elem_of_cons. split; [|done]. intros Hl. by apply Hne, headerName_lower.
           ++ exists w. apply elem_of_cons in Hw as [->|Hw]; [done|by split].
Qed.

Lemma headerListLoop_nodup values : ∀ seen, NoDup (headerListLoop seen values).
Proof.
  induction values as [|v values IH]; intros seen; cbn [headerListLoop]; [constructor|].
  case_goal; [done|]. case_goal; [done|]. constructor; [|done]. rewrite headerListLoop_elem. set_solver.
Qed.

Lemma headerList_elem values h : h ∈ normalizePublicCacheHeaderList values ↔
  headerName h ∧ ∃ v, v ∈ values ∧ h = canonicalHeaderKey (TrimSpace v).
Proof.
  unfold normalizePublicCacheHeaderList, ClientIdentity.sortStrings. rewrite (ClientIdentity.sortBy_perm NetIP.stringLe).
  rewrite headerListLoop_elem. set_solver.
Qed.

Lemma tokenChar_printable c : tokenChar c = true → printableChar c = true ∧ asciiChar c = true.
Proof. destruct c as [[] [] [] [] [] [] [] []]; vm_compute; by intros. Qed.

Lemma allBytes_impl f g s : (∀ c, f c = true → g c = true) → ClientIdentity.allBytes f s = true → ClientIdentity.allBytes g s = true.
Proof. intros H. induction s as [|c s IH]; [done|]. cbn. rewrite !andb_true_iff. naive_solver. Qed.

Lemma allBytes_printable s : ClientIdentity.allBytes printableChar s = printable s.
Proof. induction s as [|c s IH]; [done|]. cbn. by rewrite IH. Qed.

Lemma headerName_printable h : headerName h → printable h = true ∧ asciiString h = true.
Proof.
  intros [H _]. apply andb_true_iff in H as [_ H]. rewrite <-allBytes_printable.
  split; apply (allBytes_impl tokenChar); try done; intros c Hc; by apply tokenChar_printable.
Qed.

(** Normalising a list of names that is a permutation of kept names changes nothing. *)
Lemma headerName_trim h : headerName h → canonicalHeaderKey (TrimSpace h) = h.
Proof. intros H. rewrite TrimSpace_printable by by apply headerName_printable. by destruct H. Qed.

(** ** Numbers *)

Lemma FormatInt_ascii n : asciiString (FormatInt n) = true.
Proof.
  assert (H : ∀ n, 0 ≤ n → asciiString (FormatUint n) = true).
  { intros m Hm. unfold asciiString. eapply (allBytes_impl printableChar).
    - intros c Hc. destruct c as [[] [] [] [] [] [] [] []]; vm_compute in Hc |- *; done.
    - rewrite allBytes_printable. by apply format_printable. }
  unfold FormatInt. destruct (Z.ltb_spec n 0); [|by apply H].
  change (asciiString (FormatUint (- n)) = true). apply H. lia.
Qed.

(** ASCII text is stored as it is. *)
Lemma jsonText_ascii s : asciiString s = true → jsonText s = s.
Proof.
  unfold jsonText, asciiString. induction s as [|c s IH]; intros H; [done|]. cbn -[asciiChar] in H. apply andb_true_iff in H as [Hc H].
  cbn [jsonLoop]. unfold runeSize. rewrite Hc. by rewrite IH.
Qed.
Lemma headersFromJSON_ascii h : map_Forall (λ _ vs, Forall (λ v, asciiString v = true) vs) h → publicCacheHeadersFromJSON h = h.
Proof.
  intros H. unfold publicCacheHeadersFromJSON. apply map_eq. intros k. rewrite lookup_fmap. destruct (h !! k) as [vs|] eqn:E; [|done]. cbn. f_equal.
  specialize (H k vs E). clear E. induction H as [|v vs Hv _ IH]; [done|]. cbn. by rewrite jsonText_ascii, IH.
Qed.

(** ** Keys separate requests *)

(** What net/http and the configuration guarantee of the parts of a key. *)
Record keyable (r : cacheRequest) (resolution : cacheResolution) (rule : publicCacheRuleConfig) : Prop := {
  keyable_protocol : asciiString resolution.(Listener).(WafCookies.Protocol) = true;
  keyable_host : asciiString (WafCookies.normalizeRequestHost r.(base).(ClientIdentity.Host)) = true;
  keyable_path : asciiString r.(paths).(PathSecurity.URLEscapedPath) = true;
  keyable_scope : asciiString rule.(Scope) = true;
  keyable_route : in_i64 (keyRouteID resolution);
  keyable_target : in_i64 (keyTargetID resolution rule);
  keyable_query : parsedQuery r.(base).(ClientIdentity.Query) }.

Lemma joinWith_ascii l : Forall (λ s, asciiString s = true) l → asciiString (joinWith "&" l) = true.
Proof.
  assert (Happ : ∀ a b, asciiString (a ++ b) = asciiString a && asciiString b).
  { intros a b. unfold asciiString. induction a as [|c a IH]; autorewrite with gostring; cbn; [done|]. by rewrite IH, andb_assoc. }
  induction l as [|x [|y l] IH]; intros H; [done| |]; apply Forall_cons in H as [Hx H]; [done|].
  change (asciiString (x ++ String "&" (joinWith "&" (y :: l))) = true). rewrite Happ, Hx. by apply IH.
Qed.

Lemma Encode_ascii values : asciiString (Encode values) = true.
Proof.
  unfold Encode. apply joinWith_ascii, Forall_map, Forall_true. intros p. unfold encodePair.
  assert (H : ∀ s, asciiString (QueryEscape s) = true).
  { intros s. apply (allBytes_impl escapedChar); [|apply QueryEscape_chars].
    intros c Hc. destruct c as [[] [] [] [] [] [] [] []]; vm_compute in Hc |- *; done. }
  pose proof (H p.1) as H1. pose proof (H p.2) as H2. revert H1. generalize (QueryEscape p.1). intros a Ha.
  unfold asciiString in *. induction a as [|c a IH]; autorewrite with gostring; cbn in *; [done|].
  apply andb_true_iff in Ha as [-> Ha]. by apply IH.
Qed.

Lemma keyParts_ascii r resolution rule q : keyable r resolution rule → publicCacheQueryKey r rule = Some q →
  Forall (λ s, asciiString s = true) (keyParts r resolution rule q).
Proof.
  intros [] Hq. apply publicCacheQueryKey_Encode in Hq as ->. unfold keyParts. rewrite !Forall_cons.
  split_and!; try done; apply Encode_ascii || apply FormatInt_ascii.
Qed.

Lemma requiredVary_names headers : Forall headerName (publicCacheRequiredVaryHeaders headers).
Proof. apply Forall_forall. intros h Hh. by apply headerList_elem in Hh as [Hh _]. Qed.

(** The values that enter the key, without the second normalisation of the names. *)
Lemma keyVary_names r vary : keyVary r vary
  = map (λ h, (h, Values r.(base).(ClientIdentity.Header) h)) (publicCacheRequiredVaryHeaders vary).
Proof.
  unfold keyVary. pose proof (requiredVary_names vary) as H. induction H as [|h l [_ Hh] _ IH]; [done|]. simpl. by rewrite Hh, IH.
Qed.

Lemma keyVary_ascii r vary : Forall (λ x, asciiString x.1 = true) (keyVary r vary).
Proof.
  rewrite keyVary_names. apply Forall_map. eapply Forall_impl; [apply requiredVary_names|]. intros h Hh. by apply headerName_printable.
Qed.

(** The identity of a request that a cache entry is bound to. *)
Record sameKey (r1 : cacheRequest) (resolution1 : cacheResolution) (rule1 : publicCacheRuleConfig)
    (r2 : cacheRequest) (resolution2 : cacheResolution) (rule2 : publicCacheRuleConfig) (vary : list string) : Prop := {
  same_protocol : resolution1.(Listener).(WafCookies.Protocol) = resolution2.(Listener).(WafCookies.Protocol);
  same_host : WafCookies.normalizeRequestHost r1.(base).(ClientIdentity.Host)
    = WafCookies.normalizeRequestHost r2.(base).(ClientIdentity.Host);
  same_path : r1.(paths).(PathSecurity.URLEscapedPath) = r2.(paths).(PathSecurity.URLEscapedPath);
  same_query : keyValues r1 rule1 = keyValues r2 rule2;
  same_scope : rule1.(Scope) = rule2.(Scope);
  same_route : keyRouteID resolution1 = keyRouteID resolution2;
  same_target : keyTargetID resolution1 rule1 = keyTargetID resolution2 rule2;
  same_vary : ∀ h, h ∈ publicCacheRequiredVaryHeaders vary →
    Values r1.(base).(ClientIdentity.Header) h = Values r2.(base).(ClientIdentity.Header) h }.

Lemma keyDigest_same `{CacheCodecLaws} r1 resolution1 rule1 q1 vary1 r2 resolution2 rule2 q2 vary2 :
  keyable r1 resolution1 rule1 → keyable r2 resolution2 rule2 →
  publicCacheQueryKey r1 rule1 = Some q1 → publicCacheQueryKey r2 rule2 = Some q2 →
  publicCacheKeyDigest r1 resolution1 rule1 q1 vary1 = publicCacheKeyDigest r2 resolution2 rule2 q2 vary2 →
  sameKey r1 resolution1 rule1 r2 resolution2 rule2 vary1
  ∧ publicCacheRequiredVaryHeaders vary1 = publicCacheRequiredVaryHeaders vary2.
Proof.
  intros K1 K2 Q1 Q2 E. unfold publicCacheKeyDigest in E.
  apply keyHash_inj in E as [Ep Ev]; [|by apply keyParts_ascii|by apply keyParts_ascii|apply keyVary_ascii..].
  unfold keyParts in Ep. injection Ep as Eproto Ehost Epath Equery Escope Eroute Etarget.
  rewrite !keyVary_names in Ev.
  assert (En : publicCacheRequiredVaryHeaders vary1 = publicCacheRequiredVaryHeaders vary2).
  { apply (f_equal (map fst)) in Ev. rewrite !map_map in Ev. simpl in Ev. by rewrite !map_id in Ev. }
  split; [|done]. apply publicCacheQueryKey_Encode in Q1 as ->. apply publicCacheQueryKey_Encode in Q2 as ->.
  destruct K1, K2. split; try done.
  - by apply Encode_inj; [apply keyValues_parsed..|].
  - by apply FormatInt_inj.
  - by apply FormatInt_inj.
  - rewrite <-En in Ev. clear -Ev. intros h Hh. induction Hh as [h l|h y l Hh IH]; simpl in Ev; [congruence|].
    apply IH. by injection Ev.
Qed.

(** C11: Two requests whose keys have the same digest agree on protocol, host, path, on the
    query parameters their rules put into the key, on scope, route and (in the scope of the
    selected backend) on the target, on the names the key varies on, and on every value of
    those headers. *)
Theorem cache_key_isolation `{CacheCodecLaws} r1 resolution1 rule1 q1 vary1 r2 resolution2 rule2 q2 vary2 :
  keyable r1 resolution1 rule1 → keyable r2 resolution2 rule2 →
  publicCacheQueryKey r1 rule1 = Some q1 → publicCacheQueryKey r2 rule2 = Some q2 →
  publicCacheKeyDigest r1 resolution1 rule1 q1 vary1 = publicCacheKeyDigest r2 resolution2 rule2 q2 vary2 →
  sameKey r1 resolution1 rule1 r2 resolution2 rule2 vary1
  ∧ publicCacheRequiredVaryHeaders vary1 = publicCacheRequiredVaryHeaders vary2.
Proof. apply keyDigest_same. Qed.

(** ** What may be stored *)

(** The name of a directive as it stands in a field. *)
Definition directiveName (part : string) : string :=
  ToLower (TrimSpace (match Cut "=" (TrimSpace part) with Some (name, _) => name | None => TrimSpace part end)).

Lemma parseDirective_name part : directiveName part ≠ "" → TrimSpace part ≠ "" →
  ∃ value, parseDirective part = Some (mkDirective (directiveName part) value).
Proof.
  unfold directiveName, parseDirective. intros Hn Hp.
  destruct (String.eqb_spec (TrimSpace part) ""); [done|].
  destruct (Cut "=" (TrimSpace part)) as [[name value]|]; simpl in *;
    match goal with |- context [String.eqb ?x ""] => destruct (String.eqb_spec x ""); [done|by eexists] end.
Qed.

Lemma canonicalHeaderKey_trim part : validHTTPToken part = true →
  headerName (canonicalHeaderKey part) ∧ canonicalHeaderKey (TrimSpace (canonicalHeaderKey part)) = canonicalHeaderKey part.
Proof.
  intros H. assert (Hn : headerName (canonicalHeaderKey part)); [|split; [done|by apply headerName_trim]].
  apply canonicalHeaderKey_name. unfold validHTTPToken, canonicalHeaderKey in *. apply andb_true_iff in H as [Hne H]. rewrite H.
  unfold CanonicalMIMEHeaderKey. rewrite canonical_token, H, andb_true_r. apply negb_true_iff in Hne. apply negb_true_iff.
  by destruct part.
Qed.

Lemma varyParts_names parts : ∀ names, varyParts parts = Some names →
  Forall (λ h, headerName h ∧ publicCacheSensitiveVaryHeader h = false) names.
Proof.
  induction parts as [|x parts IH]; intros names H; cbn [varyParts] in H; [by injection H as <-|].
  case_hyp H; [by apply IH|]. case_if_hyp H Et. apply orb_false_iff in Et as [_ Et]. apply negb_false_iff in Et.
  case_if_hyp H Es. destruct (varyParts parts) as [l|] eqn:E; [|done]. injection H as <-.
  constructor; [|by apply IH]. split; [|done]. by apply canonicalHeaderKey_trim.
Qed.

Lemma varyParts_elem parts names : varyParts parts = Some names → ∀ part, part ∈ parts → TrimBy blankChar part ≠ "" →
  TrimBy blankChar part ≠ "*" ∧ validHTTPToken (TrimBy blankChar part) = true ∧
  publicCacheSensitiveVaryHeader (canonicalHeaderKey (TrimBy blankChar part)) = false ∧
  canonicalHeaderKey (TrimBy blankChar part) ∈ names.
Proof.
  revert names. induction parts as [|x parts IH]; intros names H part Hin Hne; [by apply elem_of_nil in Hin|].
  cbn [varyParts] in H. apply elem_of_cons in Hin as [->|Hin].
  - destruct (String.eqb_spec (TrimBy blankChar x) ""); [done|].
    destruct (String.eqb_spec (TrimBy blankChar x) "*"); [done|]. simpl in H. case_if_hyp H Et.
    apply negb_false_iff in Et. case_if_hyp H Es. destruct (varyParts parts) as [l|]; [|done]. injection H as <-.
    split_and!; [done..|left].
  - case_hyp H; [by eapply IH|]. case_hyp H; [done|]. case_hyp H; [done|].
    destruct (varyParts parts) as [l|] eqn:E; [|done]. injection H as <-.
    destruct (IH _ eq_refl _ Hin Hne) as (? & ? & ? & ?). split_and!; [done..|by right].
Qed.

(** [contains] finds every occurrence. *)
Lemma prefix_append p s : String.prefix p (p ++ s)%string = true.
Proof. induction p as [|a p IH]; [by destruct s|]. simpl. by destruct (Ascii.ascii_dec a a). Qed.
Lemma contains_append p a b : PathSecurity.contains p (a ++ p ++ b)%string = true.
Proof. apply PathSecurity.contains_app, PathSecurity.contains_prefix, prefix_append. Qed.

(** C13: A response is stored only when its status is listed, it sets no cookie and has and
    announces no trailers, its content type has text/event-stream nowhere in it, in any case,
    no Cache-Control field forbids it (no-store, private or no-cache, in any case
    and with or without a value), and none of its Vary fields names everything, something
    that is no field name, or a header that identifies the client; the time to live is
    positive, and every name in a Vary field is one the key varies on. *)
Theorem cache_store_eligible ParseTime now rule resp ttl vary :
  publicCacheResponseEligibility ParseTime now rule resp = Some (ttl, vary) →
  resp.(StatusCode) ∈ rule.(CacheStatusCodes) ∧ Values resp.(RespHeader) "Set-Cookie" = [] ∧
  (resp.(Trailer) = ∅ ∧ Values resp.(RespHeader) "Trailer" = []) ∧
  (∀ a b, ToLower (headerGet resp.(RespHeader) "Content-Type") ≠ (a ++ "text/event-stream" ++ b)%string) ∧
  (∀ value part, value ∈ Values resp.(RespHeader) "Cache-Control" → part ∈ Split "," value →
    directiveName part ∉ ["no-store"; "private"; "no-cache"]) ∧
  (∀ value part, value ∈ Values resp.(RespHeader) "Vary" → part ∈ Split "," value → TrimBy blankChar part ≠ "" →
    TrimBy blankChar part ≠ "*" ∧ canonicalHeaderKey (TrimBy blankChar part) ∈ vary) ∧
  (∀ h, h ∈ vary → publicCacheSensitiveVaryHeader h = false) ∧ "Accept-Encoding" ∈ vary ∧ 0 < ttl.
Proof.
  unfold publicCacheResponseEligibility. intros H. case_if_hyp H Es. case_if_hyp H Ec. case_if_hyp H Et. case_if_hyp H Ed.
  case_if_hyp H Ev. destruct (publicCacheResponseVaryHeaders _ _) as [names|] eqn:En; [|done]. case_if_hyp H Ettl. injection H as <- <-.
  apply negb_false_iff in Es. apply existsb_exists in Es as (code & Hcode & Ecode). apply Z.eqb_eq in Ecode.
  apply orb_false_iff in Et as [Et Etr]. apply bool_decide_eq_false in Et. apply Nat.ltb_ge in Etr. apply Z.leb_gt in Ettl.
  unfold publicCacheResponseVaryHeaders in En. case_if_hyp En Esens. destruct (varyParts _) as [parts|] eqn:Ep; [|done]. injection En as <-.
  assert (Hsens : ∀ h, h ∈ publicCacheRequiredVaryHeaders rule.(VaryHeaders) → publicCacheSensitiveVaryHeader h = false).
  { intros h Hh. apply not_true_iff_false. intros Hs. apply not_true_iff_false in Esens. apply Esens, existsb_exists.
    exists h. split; [by apply list_elem_of_In|done]. }
  split_and!; [rewrite Ecode; by apply list_elem_of_In| | | | | | | | |done].
  - apply Nat.ltb_ge in Ec. by destruct (Values resp.(RespHeader) "Set-Cookie"); [|simpl in Ec; lia].
  - by apply dec_stable.
  - by destruct (Values resp.(RespHeader) "Trailer"); [|simpl in Etr; lia].
  - intros a b E. by rewrite E, contains_append in Ev.
  - intros value part Hv Hp Hd. apply not_true_iff_false in Ed. apply Ed, existsb_exists.
    destruct (parseDirective_name part) as [v Hparse]; [intros E; rewrite E in Hd; set_solver| |].
    { intros E. unfold directiveName in Hd. rewrite E in Hd. vm_compute in Hd. set_solver. }
    exists (mkDirective (directiveName part) v). split.
    + apply list_elem_of_In. unfold publicCacheControlDirectives. apply list_elem_of_omap. exists part. split; [|done].
      apply list_elem_of_In, in_concat. exists (Split "," value). split; [by apply in_map, list_elem_of_In|by apply list_elem_of_In].
    + unfold forbidsStoring. simpl. rewrite !elem_of_cons, elem_of_nil in Hd.
      destruct Hd as [->|[->|[->|[]]]]; done.
  - intros value part Hv Hp Hne. assert (Hin : part ∈ concat (map (Split ",") (Values resp.(RespHeader) "Vary"))).
    { apply list_elem_of_In, in_concat. exists (Split "," value). split; [by apply in_map, list_elem_of_In|by apply list_elem_of_In]. }
    destruct (varyParts_elem _ _ Ep _ Hin Hne) as (Hstar & Htok & _ & Hel). split; [done|].
    destruct (canonicalHeaderKey_trim _ Htok) as [Hname Htrim]. apply headerList_elem. split; [done|].
    exists (canonicalHeaderKey (TrimBy blankChar part)). split; [apply elem_of_app; by right|done].
  - intros h Hh. apply headerList_elem in Hh as (_ & v & Hv & ->). apply elem_of_app in Hv as [Hv|Hv].
    + rewrite headerName_trim; [by apply Hsens|]. eapply Forall_forall; [apply requiredVary_names|done].
    + pose proof (varyParts_names _ _ Ep) as Hall. rewrite Forall_forall in Hall. destruct (Hall _ Hv) as [Hn Hs].
      by rewrite headerName_trim.
  - assert (Hn : headerName "Accept-Encoding") by (by split; vm_compute).
    apply headerList_elem. split; [done|]. exists "Accept-Encoding". split; [|by rewrite headerName_trim].
    apply elem_of_app. left. apply headerList_elem. split; [done|]. exists "Accept-Encoding". split; [set_solver|by rewrite headerName_trim].
Qed.

(** ** A validated rule is loaded as it was stored *)

Lemma trimWith_done strip : (∀ s s', strip s = Some s' → (String.length s' < String.length s)%nat) →
  ∀ fuel s, (String.length s ≤ fuel)%nat → strip "" = None → strip (trimWith strip fuel s) = None.
Proof.
  intros Hs fuel. induction fuel as [|fuel IH]; intros s Hl H0; simpl; [by destruct s; [|simpl in Hl; lia]|].
  destruct (strip s) as [s'|] eqn:E; [|done]. apply IH; [apply Hs in E; lia|done].
Qed.

Lemma firstSome_inv {A B} (f : A → option B) l y : firstSome f l = Some y → ∃ x, x ∈ l ∧ f x = Some y.
Proof.
  induction l as [|x l IH]; simpl; [done|]. destruct (f x) eqn:E; [intros [= <-]; exists x; set_solver|].
  intros H. destruct (IH H) as (z & ? & ?). exists z. set_solver.
Qed.

Lemma spaces_nonempty p : p ∈ spaces → (0 < String.length p)%nat.
Proof. intros H. apply spaces_unprintable in H. destruct p; [done|simpl; lia]. Qed.

Lemma stripLeft_shorter s s' : firstSome (λ p, stripPrefix p s) spaces = Some s' → (String.length s' < String.length s)%nat.
Proof.
  intros H. apply firstSome_inv in H as (p & Hp & H). apply stripPrefix_spec in H as ->. rewrite length_string_app.
  apply spaces_nonempty in Hp. lia.
Qed.
Lemma stripRight_shorter s s' : firstSome (λ p, stripSuffix p s) spaces = Some s' → (String.length s' < String.length s)%nat.
Proof.
  intros H. apply firstSome_inv in H as (p & Hp & H). apply stripSuffix_spec in H as ->. rewrite length_string_app.
  apply spaces_nonempty in Hp. lia.
Qed.

(** Trimming on the right leaves a beginning of the text. *)
Lemma trimRight_prefix fuel : ∀ s, ∃ r, s = (trimWith (λ s, firstSome (λ p, stripSuffix p s) spaces) fuel s ++ r)%string.
Proof.
  induction fuel as [|fuel IH]; intros s; cbn [trimWith]; [exists ""; by rewrite string_app_empty|].
  destruct (firstSome (λ p, stripSuffix p s) spaces) as [s'|] eqn:E; [|exists ""; by rewrite string_app_empty].
  apply firstSome_inv in E as (p & Hp & E). apply stripSuffix_spec in E as ->. destruct (IH s') as [r Hr].
  exists (r ++ p)%string. by rewrite <-string_app_assoc, <-Hr.
Qed.

Lemma TrimSpace_idem s : TrimSpace (TrimSpace s) = TrimSpace s.
Proof.
  unfold TrimSpace at 2 3. set (l := trimWith _ _ s). set (t := trimWith (λ s, firstSome (λ p, stripSuffix p s) spaces) _ l).
  assert (Hl : firstSome (λ p, stripPrefix p l) spaces = None).
  { apply (trimWith_done (λ s, firstSome (λ p, stripPrefix p s) spaces)); [apply stripLeft_shorter|lia|by vm_compute]. }
  assert (Hr : firstSome (λ p, stripSuffix p t) spaces = None).
  { apply (trimWith_done (λ s, firstSome (λ p, stripSuffix p s) spaces)); [apply stripRight_shorter|lia|by vm_compute]. }
  assert (Ht : firstSome (λ p, stripPrefix p t) spaces = None).
  { destruct (trimRight_prefix (String.length l) l) as [r Hlr]. fold t in Hlr.
    destruct (firstSome (λ p, stripPrefix p t) spaces) as [t'|] eqn:E; [|done]. exfalso.
    apply firstSome_inv in E as (p & Hp & E). apply stripPrefix_spec in E. rewrite E in Hlr. rewrite string_app_assoc in Hlr.
    assert (Hp' : stripPrefix p l = Some (t' ++ r)%string) by by apply stripPrefix_spec.
    clear -Hl Hp Hp'. revert Hl Hp. generalize spaces. intros ls Hl Hp.
    induction Hp as [p l'|p q l' Hp IH]; simpl in Hl; [by rewrite Hp' in Hl|]. destruct (stripPrefix q l); [done|by apply IH]. }
  unfold TrimSpace. rewrite (trimWith_stop (λ s, firstSome (λ p, stripPrefix p s) spaces) _ t Ht).
  by rewrite (trimWith_stop (λ s, firstSome (λ p, stripSuffix p s) spaces) _ t Hr).
Qed.

Lemma stringLe_antisym x : ∀ y, NetIP.stringLe x y = true → NetIP.stringLe y x = true → x = y.
Proof.
  induction x as [|c x IH]; intros [|d y]; cbn [NetIP.stringLe]; try done. rewrite (Nat.eqb_sym (nat_of_ascii d)).
  destruct (Nat.eqb_spec (nat_of_ascii c) (nat_of_ascii d)) as [E|E]; [|rewrite !Nat.ltb_lt; lia].
  intros H1 H2. rewrite (IH y H1 H2). f_equal. by rewrite <-(ascii_nat_embedding c), E, ascii_nat_embedding.
Qed.

(** A sort depends on the elements only. *)
Lemma sortBy_ext {A} (le : A → A → bool) (l1 l2 : list A) :
  (∀ x y, le x y = true ∨ le y x = true) → (∀ x y z, le x y = true → le y z = true → le x z = true) →
  (∀ x y, le x y = true → le y x = true → x = y) → NoDup l1 → NoDup l2 → (∀ x, x ∈ l1 ↔ x ∈ l2) →
  ClientIdentity.sortBy le l1 = ClientIdentity.sortBy le l2.
Proof.
  intros Ht Htr Ha H1 H2 H. assert (AntiSymm (=) (λ x y, le x y = true)) by (intros x y; apply Ha). apply (sorting.StronglySorted_unique (λ x y, le x y = true)).
  - by apply ClientIdentity.sortBy_sorted.
  - by apply ClientIdentity.sortBy_sorted.
  - rewrite !ClientIdentity.sortBy_perm. by apply NoDup_Permutation.
Qed.

Lemma sortStrings_ext l1 l2 : NoDup l1 → NoDup l2 → (∀ x, x ∈ l1 ↔ x ∈ l2) →
  ClientIdentity.sortStrings l1 = ClientIdentity.sortStrings l2.
Proof.
  apply sortBy_ext; [apply RetryPolicy.stringLe_total|apply RetryPolicy.stringLe_trans|apply stringLe_antisym].
Qed.

Lemma requiredVary_idem headers :
  publicCacheRequiredVaryHeaders (publicCacheRequiredVaryHeaders headers) = publicCacheRequiredVaryHeaders headers.
Proof.
  unfold publicCacheRequiredVaryHeaders at 1 3. unfold normalizePublicCacheHeaderList.
  apply sortStrings_ext; [apply headerListLoop_nodup..|]. intros h. rewrite !headerListLoop_elem. split.
  - intros (Hn & _ & v & Hv & ->). split_and!; [done|apply not_elem_of_nil|]. apply elem_of_app in Hv as [Hv|Hv].
    + pose proof (requiredVary_names headers) as Hall. rewrite Forall_forall in Hall.
      rewrite headerName_trim by by apply Hall. by apply headerList_elem in Hv as (_ & Hv).
    + exists v. split; [apply elem_of_app; by right|done].
  - intros (Hn & _ & v & Hv & ->). split_and!; [done|apply not_elem_of_nil|].
    exists (canonicalHeaderKey (TrimSpace v)). split; [|symmetry; by apply headerName_trim]. apply elem_of_app. left.
    apply headerList_elem. split; [done|by exists v].
Qed.

Lemma queryParams_elem values x : x ∈ normalizePublicCacheQueryParams values ↔ x ≠ "" ∧ ∃ v, v ∈ values ∧ x = TrimSpace v.
Proof.
  unfold normalizePublicCacheQueryParams, ClientIdentity.sortStrings. rewrite (ClientIdentity.sortBy_perm NetIP.stringLe).
  rewrite ClientIdentity.dedupSeen_elem, list_elem_of_In, filter_In, <-list_elem_of_In.
  unfold nonBlank. rewrite negb_true_iff, String.eqb_neq. rewrite (list_elem_of_fmap TrimSpace). set_solver.
Qed.

Lemma queryParams_idem values :
  normalizePublicCacheQueryParams (normalizePublicCacheQueryParams values) = normalizePublicCacheQueryParams values.
Proof.
  unfold normalizePublicCacheQueryParams at 1 3. apply sortStrings_ext; [apply ClientIdentity.dedupSeen_nodup..|].
  assert (H : ∀ l x, x ∈ ClientIdentity.dedupSeen [] (List.filter nonBlank (map TrimSpace l)) ↔ x ∈ normalizePublicCacheQueryParams l).
  { intros l x. unfold normalizePublicCacheQueryParams, ClientIdentity.sortStrings. by rewrite (ClientIdentity.sortBy_perm NetIP.stringLe). }
  intros x. rewrite !H, !queryParams_elem. split.
  - intros (Hx & v & Hv & ->). split; [done|]. apply queryParams_elem in Hv as (_ & w & Hw & ->). exists w. by rewrite TrimSpace_idem.
  - intros (Hx & v & Hv & ->). split; [done|]. exists (TrimSpace v). rewrite TrimSpace_idem. split; [|done].
    apply queryParams_elem. split; [done|by exists v].
Qed.

Lemma statusCodes_elem values x : x ∈ normalizePublicCacheStatusCodes values → statusCode x = true.
Proof.
  unfold normalizePublicCacheStatusCodes. rewrite ClientIdentity.sortBy_perm. set (vs := if (length values =? 0)%nat then _ else _).
  case_goal; [|rewrite ClientIdentity.dedupSeen_elem, list_elem_of_In, filter_In; tauto].
  unfold defaultPublicCacheStatusCodes. rewrite !elem_of_cons, elem_of_nil. by intros [->|[->|[->|[->|[->|[]]]]]].
Qed.

Lemma statusCodes_nodup values : NoDup (normalizePublicCacheStatusCodes values) ∧ normalizePublicCacheStatusCodes values ≠ [].
Proof.
  unfold normalizePublicCacheStatusCodes. set (vs := if (length values =? 0)%nat then _ else _). set (d := if (_ =? 0)%nat then _ else _).
  assert (Hd : NoDup d ∧ d ≠ []).
  { unfold d. case_if E; [split; [by apply (bool_decide_unpack _); vm_compute|done]|].
    split; [apply ClientIdentity.dedupSeen_nodup|]. intros E'. by rewrite E' in E. }
  pose proof (ClientIdentity.sortBy_perm Z.leb d) as Hp. split; [rewrite Hp; apply Hd|].
  intros E. rewrite E in Hp. by apply (proj2 Hd), Permutation_nil.
Qed.

(** Loading filters the positive numbers first, which keeps every status. *)
Lemma statusCodes_idem values : normalizePublicCacheStatusCodes
    (RetryPolicy.normalizePublicCacheInt64List (normalizePublicCacheStatusCodes values))
  = normalizePublicCacheStatusCodes values.
Proof.
  set (l := normalizePublicCacheStatusCodes values). destruct (statusCodes_nodup values) as [Hnd Hne]. fold l in Hnd, Hne.
  assert (Hst : ∀ x, x ∈ l → statusCode x = true) by (intros x; apply statusCodes_elem).
  assert (Hsort : ClientIdentity.sortBy Z.leb l = l).
  { unfold l, normalizePublicCacheStatusCodes. apply RetryPolicy.sortBy_idem; [apply RetryPolicy.Zleb_total|apply RetryPolicy.Zleb_trans]. }
  assert (Hfilter : ∀ f : Z → bool, (∀ x, statusCode x = true → f x = true) → List.filter f l = l).
  { intros f Hf. clear -Hf Hst. induction l as [|x l IH]; [done|]. simpl. rewrite Hf by (apply Hst; by left).
    f_equal. apply IH. intros y Hy. apply Hst. by right. }
  assert (E : RetryPolicy.normalizePublicCacheInt64List l = l).
  { unfold RetryPolicy.normalizePublicCacheInt64List. rewrite Hfilter, RetryPolicy.dedupSeen_id; [done|done|set_solver|].
    intros x Hx. unfold statusCode in Hx. lia. }
  rewrite E. unfold normalizePublicCacheStatusCodes. destruct (Nat.eqb_spec (length l) 0) as [E0|_]; [by apply nil_length_inv in E0|].
  rewrite Hfilter, RetryPolicy.dedupSeen_id by (done || set_solver).
  by destruct (Nat.eqb_spec (length l) 0) as [E0|_]; [apply nil_length_inv in E0|].
Qed.

(** The rule as it was accepted, its fingerprint still to be computed. *)
Definition acceptedRule (id : Z) (input : publicCacheRuleMutationInput) (created updated : Z) (fingerprint : string)
    : publicCacheRuleConfig :=
  mkCacheRule id input.(InputName) input.(InputPriority) (negb (input.(InputEnabled) =? 0)) input.(MatchJSON)
    input.(RouteIDsJSON) input.(TargetIDsJSON) input.(InputScope) input.(InputTTLMode) (input.(TTLMillis) * millisecond)
    input.(InputQueryMode) input.(QueryParamsJSON) input.(VaryHeadersJSON) input.(CacheStatusCodesJSON)
    input.(InputMaxObjectBytes) (negb (input.(InputAddCacheStatusHeader) =? 0)) created updated fingerprint.

(** What validation promises of the fields it normalises. *)
Record acceptedInput (input : publicCacheRuleMutationInput) : Prop := {
  accepted_routes : RetryPolicy.normalizePublicCacheInt64List input.(RouteIDsJSON) = input.(RouteIDsJSON);
  accepted_targets : RetryPolicy.normalizePublicCacheInt64List input.(TargetIDsJSON) = input.(TargetIDsJSON);
  accepted_scope : normalizePublicCacheScope input.(InputScope) = input.(InputScope);
  accepted_mode : normalizePublicCacheTTLMode input.(InputTTLMode) = input.(InputTTLMode);
  accepted_query : normalizePublicCacheQueryMode input.(InputQueryMode) = input.(InputQueryMode);
  accepted_params : normalizePublicCacheQueryParams input.(QueryParamsJSON) = input.(QueryParamsJSON);
  accepted_vary : publicCacheRequiredVaryHeaders input.(VaryHeadersJSON) = input.(VaryHeadersJSON);
  accepted_statuses : normalizePublicCacheStatusCodes (RetryPolicy.normalizePublicCacheInt64List input.(CacheStatusCodesJSON))
    = input.(CacheStatusCodesJSON);
  accepted_size : 0 < input.(InputMaxObjectBytes);
  accepted_ttl : minPublicCacheTTLMillis ≤ input.(TTLMillis) ≤ maxPublicCacheTTLMillis;
  accepted_sensitive : ∀ h, h ∈ input.(VaryHeadersJSON) → publicCacheSensitiveVaryHeader h = false }.

Lemma validateRoutes_idem get ids l : validatePublicCacheRouteIDs get ids = inr l → RetryPolicy.normalizePublicCacheInt64List l = l.
Proof.
  unfold validatePublicCacheRouteIDs. intros H. case_if_hyp H E. destruct (checkIDs _ _ _); [done|]. injection H as <-.
  apply RetryPolicy.normalize_list_idem.
Qed.
Lemma validateTargets_idem get ids l : validatePublicCacheTargetIDs get ids = inr l → RetryPolicy.normalizePublicCacheInt64List l = l.
Proof.
  unfold validatePublicCacheTargetIDs. intros H. case_if_hyp H E. destruct (checkIDs _ _ _); [done|]. injection H as <-.
  apply RetryPolicy.normalize_list_idem.
Qed.

Lemma cache_validate_accepted GetPublicRoute GetPublicRouteTarget m req input :
  validatePublicCacheRuleInput GetPublicRoute GetPublicRouteTarget m req = inr input → acceptedInput input.
Proof.
  unfold validatePublicCacheRuleInput. intros H. case_if_hyp H E0. destruct m as [m|]; [|done].
  destruct (validatePublicCacheRouteIDs _ _) as [|routes] eqn:Er; [done|].
  destruct (validatePublicCacheTargetIDs _ _) as [|targets] eqn:Et; [done|].
  destruct (publicCacheScopeStringFromProto _) as [scope|] eqn:Es; [|done].
  destruct (publicCacheTTLModeStringFromProto _) as [mode|] eqn:Em; [|done]. case_if_hyp H Ettl.
  destruct (publicCacheQueryModeStringFromProto _) as [query|] eqn:Eq; [|done].
  case_if_hyp H E1. case_if_hyp H E2. case_if_hyp H E3. case_if_hyp H E4. case_if_hyp H E5. injection H as <-.
  split; cbn.
  - by eapply validateRoutes_idem.
  - by eapply validateTargets_idem.
  - by destruct (ReqScope req); simplify_eq/=.
  - by destruct (ReqTTLMode req); simplify_eq/=.
  - by destruct (ReqQueryMode req); simplify_eq/=.
  - apply queryParams_idem.
  - apply requiredVary_idem.
  - apply statusCodes_idem.
  - unfold normalizePublicCacheMaxObjectBytes, defaultPublicCacheMaxObjectBytes. case_goal; lia.
  - apply orb_false_iff in Ettl. lia.
  - intros h Hh. apply not_true_iff_false. intros Hs. apply not_true_iff_false in E4. apply E4, existsb_exists.
    exists h. split; [by apply list_elem_of_In|done].
Qed.

(** A cache rule that validation accepts is loaded back exactly as it was accepted:
    loading neither fails nor replaces a field by a default, its time to live lies between a
    second and 365 days, and it varies on no header that identifies the client. *)
Theorem cache_rule_roundtrip `{CacheCodec} GetPublicRoute GetPublicRouteTarget m req input id created updated :
  validatePublicCacheRuleInput GetPublicRoute GetPublicRouteTarget m req = inr input →
  publicCacheRuleRowToConfig (cacheCreateParams id input created updated)
    = Some (acceptedRule id input created updated (ruleHash (acceptedRule id input created updated "")))
  ∧ second ≤ input.(TTLMillis) * millisecond ≤ 365 * 24 * 60 * minute
  ∧ ∀ h, h ∈ input.(VaryHeadersJSON) → publicCacheSensitiveVaryHeader h = false.
Proof.
  intros E. destruct (cache_validate_accepted _ _ _ _ _ E) as [Hr Ht Hs Hm Hq Hp Hv Hc Hsize Httl Hsens].
  unfold minPublicCacheTTLMillis, maxPublicCacheTTLMillis in Httl. split; [|split; [|done]].
  - assert (Ettl : i64 (normalizePublicCacheTTLMillis input.(TTLMillis) * millisecond) = input.(TTLMillis) * millisecond).
    { unfold normalizePublicCacheTTLMillis. destruct (Z.eqb_spec input.(TTLMillis) 0); [lia|].
      apply i64_id. unfold in_i64, min_int64, max_int64, millisecond. lia. }
    assert (Esize : normalizePublicCacheMaxObjectBytes input.(InputMaxObjectBytes) = input.(InputMaxObjectBytes)).
    { unfold normalizePublicCacheMaxObjectBytes. by destruct (Z.leb_spec input.(InputMaxObjectBytes) 0); [lia|]. }
    unfold publicCacheRuleRowToConfig, cacheCreateParams, acceptedRule.
    cbn -[normalizePublicCacheQueryParams publicCacheRequiredVaryHeaders normalizePublicCacheStatusCodes
      RetryPolicy.normalizePublicCacheInt64List normalizePublicCacheScope normalizePublicCacheTTLMode
      normalizePublicCacheQueryMode normalizePublicCacheTTLMillis normalizePublicCacheMaxObjectBytes i64 Z.mul].
    by rewrite Hr, Ht, Hs, Hm, Hq, Hp, Hv, Hc, Ettl, Esize.
  - unfold second, minute, millisecond, second. lia.
Qed.

(** ** Examples and witnesses *)

(** A codec that satisfies the laws: the digest spells its argument. *)
Fixpoint spell (p : positive) : string :=
  match p with xH => "1" | xO p => String "0" (spell p) | xI p => String "1" (String "1" (spell p)) end.

Lemma spell_inj p : ∀ q, spell p = spell q → p = q.
Proof.
  induction p as [p IH|p IH|]; intros [q|q|] H; cbn [spell] in H; try discriminate H; try done;
    injection H as H; try (by rewrite (IH _ H)); by destruct p || by destruct q.
Qed.

(** A string after its length in unary, and lists of such strings. *)
Fixpoint withLength (s : string) (rest : string) : string :=
  match s with EmptyString => String ":" rest | String _ s => String "x" (withLength s rest) end.
Definition sized (s : string) : string := withLength s s.
Fixpoint spellAll (l : list string) : string :=
  match l with [] => "." | s :: l => String "+" (sized s ++ spellAll l)%string end.
Fixpoint spellVary (l : list (string * list string)) : string :=
  match l with [] => "." | (name, values) :: l => String "+" (sized name ++ spellAll values ++ spellVary l)%string end.

Lemma withLength_inj a b : ∀ r1 r2, withLength a r1 = withLength b r2 → String.length a = String.length b ∧ r1 = r2.
Proof.
  revert b. induction a as [|x a IH]; intros [|y b] r1 r2 E; cbn in E; try discriminate E; injection E as E; [done|].
  destruct (IH _ _ _ E) as [Hl ->]. cbn. by rewrite Hl.
Qed.
Lemma withLength_app a r t : (withLength a r ++ t = withLength a (r ++ t))%string.
Proof. induction a as [|x a IH]; cbn [withLength]; autorewrite with gostring; [done|]. by rewrite IH. Qed.
Lemma sized_inj a b r1 r2 : (sized a ++ r1 = sized b ++ r2)%string → a = b ∧ r1 = r2.
Proof.
  unfold sized. rewrite !withLength_app. intros E. apply withLength_inj in E as [Hl E]. revert b Hl E.
  induction a as [|x a IH]; intros [|y b] Hl E; cbn in Hl; try discriminate Hl; autorewrite with gostring in E; [done|].
  injection E as -> E. injection Hl as Hl. by destruct (IH _ Hl E) as [-> ->].
Qed.
Lemma spellAll_inj l1 : ∀ l2 r1 r2, (spellAll l1 ++ r1 = spellAll l2 ++ r2)%string → l1 = l2 ∧ r1 = r2.
Proof.
  induction l1 as [|a l1 IH]; intros [|b l2] r1 r2 E; cbn [spellAll] in E; autorewrite with gostring in E; try discriminate E.
  - by injection E.
  - injection E as E. rewrite !string_app_assoc in E. apply sized_inj in E as [-> E]. by destruct (IH _ _ _ E) as [-> ->].
Qed.
Lemma spellVary_inj l1 : ∀ l2, spellVary l1 = spellVary l2 → l1 = l2.
Proof.
  induction l1 as [|[a u] l1 IH]; intros [|[b v] l2] E; cbn [spellVary] in E; try discriminate E; [done|].
  injection E as E. apply sized_inj in E as [-> E]. apply spellAll_inj in E as [-> E]. by rewrite (IH _ E).
Qed.

#[export] Instance exampleCodec : CacheCodec := {
  keyHash v parts vary := (v ++ spellAll parts ++ spellVary vary)%string;
  ruleHash rule := FormatInt rule.(ID);
  runtimeHash s rules := spell (encode (s, rules)) }.

#[export] Instance exampleCodecLaws : CacheCodecLaws.
Proof.
  split.
  - intros v parts1 vary1 parts2 vary2 _ _ _ _ E. apply string_app_inj in E. apply spellAll_inj in E as [-> E].
    by apply spellVary_inj in E as ->.
  - intros s1 rules1 s2 rules2 H. apply spell_inj, (inj encode) in H. by injection H as -> ->.
  - intros s rules. unfold runtimeHash, exampleCodec. generalize (encode (s, rules)). by intros [].
Qed.

Definition exampleGet (query : gmap string (list string)) : cacheRequest :=
  mkCacheRequest (ClientIdentity.mkRequest "GET" "Example.com:443" "" "/a" "/a" true "192.0.2.1:1" {["Accept-Encoding" := ["gzip"]]} [] query None [])
    (PathSecurity.mkPathRequest "/a" "" "/a" "" "/a") false [] false 0.
Definition exampleResolution : cacheResolution :=
  mkCacheResolution Routing.exampleListener Routing.noRoute 3 TargetHealth.publicRouteTargetTypeProxy (Some 7) None.
Definition exampleRuleRequest : cacheRuleRequest :=
  mkRuleRequest "assets" 10 true [] [] ScopeUnspecified TTLOrigin 0 QueryAllowlist [" v"; "v"; "w"] ["accept-language"] [] 0 true.
Definition exampleInput : publicCacheRuleMutationInput :=
  mkCacheInput "assets" 10 1 (λ _ _, Some true) [] [] publicCacheScopeSelectedBackend publicCacheTTLModeOrigin 3600000
    publicCacheQueryModeAllowlist ["v"; "w"] ["Accept-Encoding"; "Accept-Language"] defaultPublicCacheStatusCodes
    defaultPublicCacheMaxObjectBytes 1.
Definition exampleRule : publicCacheRuleConfig := acceptedRule 4 exampleInput 1 2 "4".
Definition exampleResponse (fields : gmap string (list string)) : cacheResponse := mkCacheResponse 200 fields ∅.

Example exampleInput_valid : validatePublicCacheRuleInput (λ _, RetryPolicy.NoRows) (λ _, RetryPolicy.NoRows) (Some (λ _ _, Some true))
  exampleRuleRequest = inr exampleInput.
Proof. vm_compute. reflexivity. Qed.
Example query_order : publicCacheQueryKey (exampleGet {["w" := ["1"; "a b&c"]; "v" := ["0"]; "x" := ["y"]]}) exampleRule
  = Some "v=0&w=1&w=a+b%26c".
Proof. vm_compute. reflexivity. Qed.
Example eligible : publicCacheResponseEligibility (λ _, None) 0 exampleRule
    (exampleResponse {["Cache-Control" := ["public, max-age=60"]; "Vary" := ["accept-encoding, Origin"]]})
  = Some (60 * second, ["Accept-Encoding"; "Accept-Language"; "Origin"]).
Proof. vm_compute. reflexivity. Qed.
Example private_refused : publicCacheResponseEligibility (λ _, None) 0 exampleRule
    (exampleResponse {["Cache-Control" := ["max-age=60"; "PRIVATE=x"]]}) = None.
Proof. vm_compute. reflexivity. Qed.

(** A response that says it has expired already is stored for the time to live of the rule. *)
Example expired_origin_stored : publicCacheResponseEligibility (λ _, Some 5) 10 exampleRule
    (exampleResponse {["Expires" := ["Thu, 01 Jan 1970 00:00:00 GMT"]]})
  = Some (3600 * second, ["Accept-Encoding"; "Accept-Language"]).
Proof. vm_compute. reflexivity. Qed.

(** The seconds of a max-age are multiplied in 64 bits: 2^64 nanoseconds and a bit is no time at all. *)
Example max_age_wraps : publicCacheOriginTTL (λ _, None) 0 {["Cache-Control" := ["max-age=18446744074"]]} = Some 290448384.
Proof. vm_compute. reflexivity. Qed.

(** Text survives, a header value in Latin-1 does not. *)
Example json_text : jsonText (String "a" (String (ascii_of_nat 195) (String (ascii_of_nat 169) "b")))
  = String "a" (String (ascii_of_nat 195) (String (ascii_of_nat 169) "b")).
Proof. vm_compute. reflexivity. Qed.
Example json_latin1 : publicCacheHeadersFromJSON {["X-Name" := [String (ascii_of_nat 233) "b"]]} = {["X-Name" := [(replacementRune ++ "b")%string]]}.
Proof. vm_compute. reflexivity. Qed.

Lemma cache_query_exact_witness : "v=0" = "v=0" ↔
  keyValues (exampleGet {["v" := ["0"]]}) exampleRule = keyValues (exampleGet {["v" := ["0"]; "x" := ["y"]]}) exampleRule.
Proof.
  assert (E1 : publicCacheQueryKey (exampleGet {["v" := ["0"]]}) exampleRule = Some "v=0") by (vm_compute; reflexivity).
  assert (E2 : publicCacheQueryKey (exampleGet {["v" := ["0"]; "x" := ["y"]]}) exampleRule = Some "v=0") by (vm_compute; reflexivity).
  assert (H1 : parsedQuery {["v" := ["0"]]}) by (apply map_Forall_singleton; done).
  assert (H2 : parsedQuery {["v" := ["0"]; "x" := ["y"]]}).
  { apply map_Forall_insert; [done|]. split; [done|apply map_Forall_singleton; done]. }
  exact (cache_query_exact (exampleGet {["v" := ["0"]]}) (exampleGet {["v" := ["0"]; "x" := ["y"]]}) exampleRule _ _ E1 E2 H1 H2).
Defined.

Lemma example_keyable query : parsedQuery query → keyable (exampleGet query) exampleResolution exampleRule.
Proof. intros H. split; (vm_compute; done) || done. Qed.

Lemma cache_key_isolation_witness : keyValues (exampleGet {["v" := ["0"]]}) exampleRule
  = keyValues (exampleGet {["v" := ["0"]; "x" := ["y"]]}) exampleRule.
Proof.
  assert (H1 : parsedQuery {["v" := ["0"]]}) by (apply map_Forall_singleton; done).
  assert (H2 : parsedQuery {["v" := ["0"]; "x" := ["y"]]}).
  { apply map_Forall_insert; [done|]. split; [done|apply map_Forall_singleton; done]. }
  assert (E : publicCacheKeyDigest (exampleGet {["v" := ["0"]]}) exampleResolution exampleRule "v=0" ["Origin"]
    = publicCacheKeyDigest (exampleGet {["v" := ["0"]; "x" := ["y"]]}) exampleResolution exampleRule "v=0" ["Origin"]) by (vm_compute; reflexivity).
  exact (same_query _ _ _ _ _ _ _ (proj1 (cache_key_isolation _ _ _ "v=0" _ _ _ _ "v=0" _
    (example_keyable _ H1) (example_keyable _ H2) eq_refl eq_refl E))).
Defined.

Lemma cache_store_eligible_witness : "Origin" ∈ ["Accept-Encoding"; "Accept-Language"; "Origin"].
Proof.
  pose (resp := exampleResponse {["Cache-Control" := ["public, max-age=60"]; "Vary" := ["accept-encoding, Origin"]]}).
  assert (Hv : "accept-encoding, Origin" ∈ Values resp.(RespHeader) "Vary") by (apply (list_elem_of_lookup_2 _ 0); reflexivity).
  assert (Hp : " Origin" ∈ Split "," "accept-encoding, Origin") by (apply (list_elem_of_lookup_2 _ 1); reflexivity).
  assert (Hne : TrimBy blankChar " Origin" ≠ "") by (vm_compute; discriminate).
  exact (proj2 (proj1 (proj2 (proj2 (proj2 (proj2 (proj2 (cache_store_eligible (λ _, None) 0 exampleRule resp _ _ eligible)))))) _ _ Hv Hp Hne)).
Defined.

Lemma cache_rule_roundtrip_witness : publicCacheRuleRowToConfig (cacheCreateParams 4 exampleInput 1 2) = Some exampleRule.
Proof. exact (proj1 (cache_rule_roundtrip _ _ _ _ _ 4 1 2 exampleInput_valid)). Defined.
End CacheRules.
