(* ===== verification/CacheIndex.v ===== *)
(** The in-memory part of the response cache (internal/server/public_cache.go, type
    publicProxyCache): settings and generation, the index of stored entries with its lookup
    sets, the bounded list of known misses, the copies of small bodies and the usage
    counters.  Every operation holds the mutex throughout, so each is one function.

    The clock readings are arguments, and so is the iteration order of a map where it can be
    observed.  The hash of a lookup key ([LookupCodec]) is a parameter.  An element of the
    Go list of misses is a value with an identity; the map to elements holds the values. *)

From S2P Require Import Prelude.
From S2P Require Import GoStrings.
From S2P Require Import ClientIdentity.
From S2P Require Import CacheRules.

Module CacheIndex.
Import CacheRules.

Definition maxPublicCacheNegativeLookups : Z := 4096.
Definition publicCacheNegativeLookupTTL : Z := 30 * second.

(** ** Data *)

(** A row of the table of entries; the JSON columns as the values they encode. *)
Record PublicCacheEntry := mkEntry {
  KeyDigest : string;
  RuleID : Z;
  EntryScope : string;
  ListenerProtocol : string;
  EntryHost : string;
  EntryPath : string;
  QueryKey : string;
  EntryRouteID : option Z;
  EntryRouteTargetID : option Z;
  EntryMethod : string;
  VaryHeadersJson : list string;
  ResponseHeadersJson : gmap string (list string);
  EntryStatusCode : Z;
  BodyPath : string;
  SizeBytes : Z;
  StoredAt : Z;
  ExpiresAt : Z;
  LastAccessedAt : Z;
  HitCount : Z }.

Record publicCacheLookupKey := mkLookupKey {
  LookupRuleID : Z;
  LookupProtocol : string;
  LookupHost : string;
  LookupPath : string;
  LookupQueryKey : string;
  LookupRouteID : Z;
  LookupRouteTargetID : Z }.

#[export] Instance lookupKey_eq_dec : EqDecision publicCacheLookupKey.
Proof. solve_decision. Defined.
#[export] Instance lookupKey_countable : Countable publicCacheLookupKey.
Proof.
  refine (inj_countable' (λ k, (k.(LookupRuleID), k.(LookupProtocol), k.(LookupHost), k.(LookupPath), k.(LookupQueryKey),
    k.(LookupRouteID), k.(LookupRouteTargetID))) (λ '(a, b, c, d, e, f, g), mkLookupKey a b c d e f g) _); by intros [].
Defined.

Record publicCacheMemoryEntry := mkMemoryEntry {
  memBody : list Byte.byte;
  memStoredAt : Z;
  lastAccessed : Z }.

Record publicCacheIndexEntry := mkIndexEntry {
  entry : PublicCacheEntry;
  lookupKey : publicCacheLookupKey }.

Record publicCacheNegativeLookup := mkNegative {
  element : Z;
  digest : string;
  expiresAt : Z }.

#[export] Instance negative_eq_dec : EqDecision publicCacheNegativeLookup.
Proof. solve_decision. Defined.

Record publicProxyCache := mkCache {
  settings : publicCacheSettingsConfig;
  lastCleanup : Z;
  memoryEntries : gmap string publicCacheMemoryEntry;
  indexEntries : gmap string publicCacheIndexEntry;
  indexLookups : gmap publicCacheLookupKey (gset string);
  negativeLookups : gmap string publicCacheNegativeLookup;
  negativeOrder : list publicCacheNegativeLookup;
  nextElement : Z;
  memoryBytes : Z;
  storedBodyBytes : Z;
  storedEntryCount : Z;
  storageUsageInitialized : bool;
  lastFingerprint : string;
  lastStoredAt : Z;
  generation : Z }.

Class LookupCodec := { lookupHash : publicCacheLookupKey → string }.

Definition newPublicProxyCache (now : Z) : publicProxyCache :=
  mkCache (defaultPublicCacheSettings now) 0 ∅ ∅ ∅ ∅ [] 0 0 0 0 false "" 0 0.

(** ** Updates of one part *)

Definition withSettings (c : publicProxyCache) (s : publicCacheSettingsConfig) (fingerprint : string) : publicProxyCache :=
  mkCache s c.(lastCleanup) c.(memoryEntries) c.(indexEntries) c.(indexLookups) c.(negativeLookups) c.(negativeOrder)
    c.(nextElement) c.(memoryBytes) c.(storedBodyBytes) c.(storedEntryCount) c.(storageUsageInitialized) fingerprint
    c.(lastStoredAt) c.(generation).
Definition withCleanup (c : publicProxyCache) (t : Z) : publicProxyCache :=
  mkCache c.(settings) t c.(memoryEntries) c.(indexEntries) c.(indexLookups) c.(negativeLookups) c.(negativeOrder)
    c.(nextElement) c.(memoryBytes) c.(storedBodyBytes) c.(storedEntryCount) c.(storageUsageInitialized) c.(lastFingerprint)
    c.(lastStoredAt) c.(generation).
Definition withMemory (c : publicProxyCache) (m : gmap string publicCacheMemoryEntry) (bytes : Z) : publicProxyCache :=
  mkCache c.(settings) c.(lastCleanup) m c.(indexEntries) c.(indexLookups) c.(negativeLookups) c.(negativeOrder)
    c.(nextElement) bytes c.(storedBodyBytes) c.(storedEntryCount) c.(storageUsageInitialized) c.(lastFingerprint)
    c.(lastStoredAt) c.(generation).
Definition withIndex (c : publicProxyCache) (entries : gmap string publicCacheIndexEntry)
    (lookups : gmap publicCacheLookupKey (gset string)) : publicProxyCache :=
  mkCache c.(settings) c.(lastCleanup) c.(memoryEntries) entries lookups c.(negativeLookups) c.(negativeOrder)
    c.(nextElement) c.(memoryBytes) c.(storedBodyBytes) c.(storedEntryCount) c.(storageUsageInitialized) c.(lastFingerprint)
    c.(lastStoredAt) c.(generation).
Definition withNegatives (c : publicProxyCache) (m : gmap string publicCacheNegativeLookup)
    (order : list publicCacheNegativeLookup) (next : Z) : publicProxyCache :=
  mkCache c.(settings) c.(lastCleanup) c.(memoryEntries) c.(indexEntries) c.(indexLookups) m order
    next c.(memoryBytes) c.(storedBodyBytes) c.(storedEntryCount) c.(storageUsageInitialized) c.(lastFingerprint)
    c.(lastStoredAt) c.(generation).
Definition withUsage (c : publicProxyCache) (bytes entries : Z) : publicProxyCache :=
  mkCache c.(settings) c.(lastCleanup) c.(memoryEntries) c.(indexEntries) c.(indexLookups) c.(negativeLookups) c.(negativeOrder)
    c.(nextElement) c.(memoryBytes) bytes entries true c.(lastFingerprint) c.(lastStoredAt) c.(generation).
Definition withStoredAt (c : publicProxyCache) (t : Z) : publicProxyCache :=
  mkCache c.(settings) c.(lastCleanup) c.(memoryEntries) c.(indexEntries) c.(indexLookups) c.(negativeLookups) c.(negativeOrder)
    c.(nextElement) c.(memoryBytes) c.(storedBodyBytes) c.(storedEntryCount) c.(storageUsageInitialized) c.(lastFingerprint)
    t c.(generation).
Definition withGeneration (c : publicProxyCache) (g : Z) : publicProxyCache :=
  mkCache c.(settings) c.(lastCleanup) c.(memoryEntries) c.(indexEntries) c.(indexLookups) c.(negativeLookups) c.(negativeOrder)
    c.(nextElement) c.(memoryBytes) c.(storedBodyBytes) c.(storedEntryCount) c.(storageUsageInitialized) c.(lastFingerprint)
    c.(lastStoredAt) g.

(** ** Memory *)

(** The eviction loop over the keys by last access. *)
Fixpoint evictLoop (c : publicProxyCache) (keys : list string) : publicProxyCache :=
  match keys with
  | [] => c
  | key :: keys =>
      if c.(memoryBytes) <=? c.(settings).(MaxMemoryBytes) then c
      else match c.(memoryEntries) !! key with
           | None => evictLoop c keys
           | Some e => evictLoop (withMemory c (delete key c.(memoryEntries)) (c.(memoryBytes) - Z.of_nat (length e.(memBody)))) keys
           end
  end.

Definition accessLe (x y : string * publicCacheMemoryEntry) : bool := x.2.(lastAccessed) <=? y.2.(lastAccessed).

(** [iterate]: the order in which the map is walked before the sort. *)
Definition pruneMemoryLocked (iterate : gmap string publicCacheMemoryEntry → list (string * publicCacheMemoryEntry))
    (c : publicProxyCache) : publicProxyCache :=
  if c.(settings).(MaxMemoryBytes) <=? 0 then withMemory c ∅ 0
  else if c.(memoryBytes) <=? c.(settings).(MaxMemoryBytes) then c
  else evictLoop c (map fst (ClientIdentity.sortBy accessLe (iterate c.(memoryEntries)))).

Definition getMemory (c : publicProxyCache) (key : string) (storedAt now : Z) : publicProxyCache * list Byte.byte :=
  if is_zero_time storedAt then (c, [])
  else match c.(memoryEntries) !! key with
       | None => (c, [])
       | Some e =>
           if negb (e.(memStoredAt) =? storedAt) then (c, [])
           else (withMemory c (<[key := mkMemoryEntry e.(memBody) e.(memStoredAt) now]> c.(memoryEntries)) c.(memoryBytes), e.(memBody))
       end.

Definition putMemory iterate (c : publicProxyCache) (key : string) (storedAt now : Z) (body : list Byte.byte) : publicProxyCache :=
  if String.eqb key "" || is_zero_time storedAt || (length body =? 0)%nat then c
  else if negb c.(settings).(SettingsEnabled) || (c.(settings).(MaxMemoryBytes) <=? 0)
          || (c.(settings).(MemoryHotObjectMaxBytes) <? Z.of_nat (length body)) then c
  else
    let bytes := match c.(memoryEntries) !! key with
                 | Some e => c.(memoryBytes) - Z.of_nat (length e.(memBody))
                 | None => c.(memoryBytes) end in
    pruneMemoryLocked iterate
      (withMemory c (<[key := mkMemoryEntry body storedAt now]> c.(memoryEntries)) (bytes + Z.of_nat (length body))).

Definition deleteMemoryLocked (c : publicProxyCache) (key : string) : publicProxyCache :=
  match c.(memoryEntries) !! key with
  | Some e => withMemory c (delete key c.(memoryEntries)) (c.(memoryBytes) - Z.of_nat (length e.(memBody)))
  | None => c
  end.
Definition deleteMemory (c : publicProxyCache) (key : string) : publicProxyCache :=
  if String.eqb key "" then c else deleteMemoryLocked c key.

Definition memoryHotObjectMaxBytesSnapshot (c : publicProxyCache) : Z :=
  if negb c.(settings).(SettingsEnabled) || (c.(settings).(MaxMemoryBytes) <=? 0)
     || (c.(settings).(MemoryHotObjectMaxBytes) <=? 0) then 0
  else c.(settings).(MemoryHotObjectMaxBytes).

(** ** The index *)

Definition clearIndexLocked (c : publicProxyCache) : publicProxyCache :=
  withNegatives (withIndex c ∅ ∅) ∅ [] c.(nextElement).

(** Take a digest out of the set of a key; an empty set is dropped. *)
Definition dropLookup (lookups : gmap publicCacheLookupKey (gset string)) (lk : publicCacheLookupKey) (key : string)
    : gmap publicCacheLookupKey (gset string) :=
  match lookups !! lk with
  | None => lookups
  | Some digests =>
      let digests := digests ∖ {[key]} in
      if bool_decide (digests = ∅) then delete lk lookups else <[lk := digests]> lookups
  end.

Definition forgetIndex (c : publicProxyCache) (key : string) (ie : publicCacheIndexEntry) : publicProxyCache :=
  withIndex c (delete key c.(indexEntries)) (dropLookup c.(indexLookups) ie.(lookupKey) key).

Definition deleteEntryLocked (c : publicProxyCache) (key : string) : publicProxyCache :=
  let c := deleteMemoryLocked c key in
  match c.(indexEntries) !! key with
  | None => c
  | Some ie => forgetIndex c key ie
  end.
Definition deleteEntry (c : publicProxyCache) (key : string) : publicProxyCache :=
  if String.eqb key "" then c else deleteEntryLocked c key.

Definition deleteEntryGeneration (c : publicProxyCache) (key : string) (storedAt : Z) : publicProxyCache :=
  if String.eqb key "" || is_zero_time storedAt then c
  else
    let c := match c.(memoryEntries) !! key with
             | Some e => if e.(memStoredAt) =? storedAt then deleteMemoryLocked c key else c
             | None => c end in
    match c.(indexEntries) !! key with
    | None => c
    | Some ie => if negb (ie.(entry).(StoredAt) =? storedAt) then c else forgetIndex c key ie
    end.

Definition maxIndexEntriesLocked (c : publicProxyCache) : Z :=
  if c.(settings).(MaxEntries) <=? 0 then defaultPublicCacheMaxEntries else c.(settings).(MaxEntries).

Definition negativeLookupLimitLocked (c : publicProxyCache) : Z :=
  let remaining := maxIndexEntriesLocked c - Z.of_nat (size c.(indexEntries)) in
  if remaining <=? 0 then 0
  else if maxPublicCacheNegativeLookups <? remaining then maxPublicCacheNegativeLookups
  else remaining.

Definition removeNegativeLookupDigestLocked (c : publicProxyCache) (d : string) : publicProxyCache :=
  match c.(negativeLookups) !! d with
  | None => c
  | Some e =>
      withNegatives c (delete d c.(negativeLookups))
        (List.filter (λ x, negb (x.(element) =? e.(element))) c.(negativeOrder)) c.(nextElement)
  end.

(** The two loops of the pruning: from the front while expired, then while too many.  The
    list they walk is the order at the start of the loop; a removal takes out its element. *)
Fixpoint pruneExpired (c : publicProxyCache) (order : list publicCacheNegativeLookup) (now : Z) : publicProxyCache :=
  match order with
  | [] => c
  | e :: order =>
      if now <? e.(expiresAt) then c
      else pruneExpired (removeNegativeLookupDigestLocked c e.(digest)) order now
  end.
Fixpoint pruneExcess (c : publicProxyCache) (order : list publicCacheNegativeLookup) (limit : Z) : publicProxyCache :=
  match order with
  | [] => c
  | e :: order =>
      if Z.of_nat (size c.(negativeLookups)) <=? limit then c
      else pruneExcess (removeNegativeLookupDigestLocked c e.(digest)) order limit
  end.
Definition pruneNegativeLookupsLocked (c : publicProxyCache) (now : Z) : publicProxyCache :=
  let c := pruneExpired c c.(negativeOrder) now in
  pruneExcess c c.(negativeOrder) (negativeLookupLimitLocked c).

Section index.
Context `{LookupCodec}.

Definition removeNegativeLookupLocked (c : publicProxyCache) (lk : publicCacheLookupKey) : publicProxyCache :=
  removeNegativeLookupDigestLocked c (lookupHash lk).

Definition rememberNegativeLookupLocked (c : publicProxyCache) (lk : publicCacheLookupKey) (now : Z) : publicProxyCache :=
  let c := pruneNegativeLookupsLocked c now in
  if negativeLookupLimitLocked c =? 0 then c
  else
    let d := lookupHash lk in
    let c := removeNegativeLookupDigestLocked c d in
    let e := mkNegative c.(nextElement) d (now + publicCacheNegativeLookupTTL) in
    let c := withNegatives c (<[d := e]> c.(negativeLookups)) (c.(negativeOrder) ++ [e]) (c.(nextElement) + 1) in
    pruneNegativeLookupsLocked c now.

Definition negativeLookupLoadedLocked (c : publicProxyCache) (lk : publicCacheLookupKey) (now : Z) : publicProxyCache * bool :=
  match c.(negativeLookups) !! lookupHash lk with
  | None => (c, false)
  | Some e =>
      if negb (now <? e.(expiresAt)) then (removeNegativeLookupDigestLocked c (lookupHash lk), false) else (c, true)
  end.

Definition publicCacheLookupKeyFromEntry (e : PublicCacheEntry) : publicCacheLookupKey :=
  mkLookupKey e.(RuleID) e.(ListenerProtocol) e.(EntryHost) e.(EntryPath) e.(QueryKey)
    (default 0 e.(EntryRouteID)) (default 0 e.(EntryRouteTargetID)).

(** The lookup and its answer: the candidates, and whether the index could tell.  [order]
    is the order in which the set of digests is walked. *)
Definition lookupIndexedCandidates (order : gset string → list string) (c : publicProxyCache) (lk : publicCacheLookupKey) (now g : Z)
    (fingerprint : string) : publicProxyCache * (list PublicCacheEntry * bool) :=
  if negb c.(settings).(SettingsEnabled) || negb (c.(generation) =? g) || negb (String.eqb c.(lastFingerprint) fingerprint)
  then (c, ([], false))
  else
    let digests := default ∅ (c.(indexLookups) !! lk) in
    if bool_decide (digests = ∅) then
      let c := withIndex c c.(indexEntries) (delete lk c.(indexLookups)) in
      let '(c, loaded) := negativeLookupLoadedLocked c lk now in (c, ([], loaded))
    else
      let candidates := omap (λ key, entry <$> c.(indexEntries) !! key) (order digests) in
      let kept := filter (λ key, is_Some (c.(indexEntries) !! key)) digests in
      if bool_decide (kept = ∅) then (withIndex c c.(indexEntries) (delete lk c.(indexLookups)), ([], false))
      else (withIndex c c.(indexEntries) (<[lk := kept]> c.(indexLookups)), (candidates, true)).

Definition addLookup (lookups : gmap publicCacheLookupKey (gset string)) (lk : publicCacheLookupKey) (key : string)
    : gmap publicCacheLookupKey (gset string) :=
  <[lk := {[key]} ∪ default ∅ (lookups !! lk)]> lookups.

Definition putIndexEntryLocked (c : publicProxyCache) (e : PublicCacheEntry) (now : Z) : publicProxyCache :=
  if String.eqb e.(KeyDigest) "" then c
  else
    let lk := publicCacheLookupKeyFromEntry e in
    let existing := c.(indexEntries) !! e.(KeyDigest) in
    if bool_decide (existing = None) && (maxIndexEntriesLocked c <=? Z.of_nat (size c.(indexEntries))) then
      pruneNegativeLookupsLocked (removeNegativeLookupLocked c lk) now
    else
      let lookups := match existing with
        | Some old => if bool_decide (old.(lookupKey) = lk) then c.(indexLookups)
                      else dropLookup c.(indexLookups) old.(lookupKey) e.(KeyDigest)
        | None => c.(indexLookups) end in
      let c := withIndex c (<[e.(KeyDigest) := mkIndexEntry e lk]> c.(indexEntries)) (addLookup lookups lk e.(KeyDigest)) in
      pruneNegativeLookupsLocked (removeNegativeLookupLocked c lk) now.
Definition putIndexEntry := putIndexEntryLocked.

(** The loop over the rows a lookup read, and whether one of them answers it; [clock] is
    read once per row. *)
Fixpoint storeLoop (clock : nat → Z) (c : publicProxyCache) (lk : publicCacheLookupKey) (candidates : list PublicCacheEntry)
    (now : Z) (stored : bool) : publicProxyCache * bool :=
  match candidates with
  | [] => (c, stored)
  | e :: candidates =>
      match c.(indexEntries) !! e.(KeyDigest) with
      | Some existing =>
          storeLoop clock c lk candidates now
            (stored || (bool_decide (existing.(lookupKey) = lk) && (now <? existing.(entry).(ExpiresAt))))
      | None =>
          if negb (now <? e.(ExpiresAt)) then storeLoop clock c lk candidates now stored
          else if negb (bool_decide (publicCacheLookupKeyFromEntry e = lk)) then storeLoop clock c lk candidates now stored
          else storeLoop clock (putIndexEntryLocked c e (clock (length candidates))) lk candidates now true
      end
  end.

Definition storeIndexedCandidates (clock : nat → Z) (c : publicProxyCache) (lk : publicCacheLookupKey) (candidates : list PublicCacheEntry)
    (now g : Z) (fingerprint : string) : publicProxyCache :=
  if negb c.(settings).(SettingsEnabled) || negb (c.(generation) =? g) || negb (String.eqb c.(lastFingerprint) fingerprint) then c
  else let '(c, stored) := storeLoop clock c lk candidates now false in
       if stored then c else rememberNegativeLookupLocked c lk now.
End index.

Definition touched (e : PublicCacheEntry) (now : Z) (hits : Z) : PublicCacheEntry :=
  mkEntry e.(KeyDigest) e.(RuleID) e.(EntryScope) e.(ListenerProtocol) e.(EntryHost) e.(EntryPath) e.(QueryKey)
    e.(EntryRouteID) e.(EntryRouteTargetID) e.(EntryMethod) e.(VaryHeadersJson) e.(ResponseHeadersJson) e.(EntryStatusCode)
    e.(BodyPath) e.(SizeBytes) e.(StoredAt) e.(ExpiresAt) (Z.max e.(LastAccessedAt) now) (i64 (e.(HitCount) + hits)).

Definition touchIndexedEntry (c : publicProxyCache) (key : string) (storedAt now : Z) : publicProxyCache :=
  if String.eqb key "" || is_zero_time storedAt then c
  else
    let now := if now <? storedAt then storedAt else now in
    match c.(indexEntries) !! key with
    | None => c
    | Some ie =>
        if negb (ie.(entry).(StoredAt) =? storedAt) then c
        else withIndex c (<[key := mkIndexEntry (touched ie.(entry) now 1) ie.(lookupKey)]> c.(indexEntries)) c.(indexLookups)
    end.

(** ** Configuration *)

Definition reconcile `{CacheCodec} iterate (c : publicProxyCache) (s : publicCacheSettingsConfig) (rules : list publicCacheRuleConfig)
    : publicProxyCache :=
  let fingerprint := publicCacheRuntimeFingerprint s rules in
  let configChanged := negb (String.eqb c.(lastFingerprint) fingerprint) in
  let c := withSettings c s fingerprint in
  let c := if configChanged then withGeneration c (u64 (c.(generation) + 1)) else c in
  let c := if configChanged || negb s.(SettingsEnabled) then clearIndexLocked c else c in
  if negb s.(SettingsEnabled) || (s.(MaxMemoryBytes) <=? 0) then withMemory c ∅ 0 else pruneMemoryLocked iterate c.

Definition invalidateEntriesLocked (c : publicProxyCache) : publicProxyCache :=
  clearIndexLocked (withGeneration c (u64 (c.(generation) + 1))).
Definition invalidateConfiguration (c : publicProxyCache) : publicProxyCache :=
  clearIndexLocked (withSettings (withGeneration c (u64 (c.(generation) + 1))) c.(settings) "").

Definition captureGeneration (c : publicProxyCache) (fingerprint : string) : Z * bool :=
  if String.eqb fingerprint "" then (0, false)
  else (c.(generation), c.(settings).(SettingsEnabled) && String.eqb c.(lastFingerprint) fingerprint).
Definition generationMatches (c : publicProxyCache) (g : Z) (fingerprint : string) : bool :=
  if String.eqb fingerprint "" then false
  else c.(settings).(SettingsEnabled) && (c.(generation) =? g) && String.eqb c.(lastFingerprint) fingerprint.

(** ** Usage counters *)

(** [usage]: the sum and the count of the table, [None] if the query failed. *)
Definition ensureStorageUsageLocked (c : publicProxyCache) (usage : option (Z * Z)) : publicProxyCache * bool :=
  if c.(storageUsageInitialized) then (c, true)
  else match usage with
       | None => (c, false)
       | Some (bytes, entries) => (withUsage c (Z.max 0 bytes) (Z.max 0 entries), true)
       end.

Definition storageUsageLocked (c : publicProxyCache) : Z * Z * Z := (c.(storedBodyBytes), c.(memoryBytes), c.(storedEntryCount)).

Definition storageUsageSnapshot (c : publicProxyCache) (usage : option (Z * Z)) : publicProxyCache * option (Z * Z * Z) :=
  let '(c, ok) := ensureStorageUsageLocked c usage in (c, if ok then Some (storageUsageLocked c) else None).

Definition adjustStorageUsage (c : publicProxyCache) (bodyBytesDelta entryCountDelta : Z) : publicProxyCache :=
  if (bodyBytesDelta =? 0) && (entryCountDelta =? 0) then c
  else if negb c.(storageUsageInitialized) then c
  else withUsage c (Z.max 0 (c.(storedBodyBytes) + bodyBytesDelta)) (Z.max 0 (c.(storedEntryCount) + entryCountDelta)).

Definition nextStoredAt (c : publicProxyCache) (now : Z) : publicProxyCache * Z :=
  let now := if negb (c.(lastStoredAt) <? now) then c.(lastStoredAt) + nanosecond else now in
  (withStoredAt c now, now).

(** ** Invariants *)

(** The index: every set of a key is inhabited by indexed entries of that key, every entry
    is in the set of its key. *)
Record indexWf (entries : gmap string publicCacheIndexEntry) (lookups : gmap publicCacheLookupKey (gset string)) : Prop := {
  ix_lookup : ∀ lk ds, lookups !! lk = Some ds →
    ds ≠ ∅ ∧ ∀ d, d ∈ ds → ∃ ie, entries !! d = Some ie ∧ ie.(lookupKey) = lk;
  ix_entry : ∀ d ie, entries !! d = Some ie →
    d ≠ "" ∧ ie.(entry).(KeyDigest) = d ∧ ie.(lookupKey) = publicCacheLookupKeyFromEntry ie.(entry)
    ∧ ∃ ds, lookups !! ie.(lookupKey) = Some ds ∧ d ∈ ds }.

(** The misses: the map indexes the list. *)
Record negativesWf (c : publicProxyCache) : Prop := {
  ng_map : ∀ d e, c.(negativeLookups) !! d = Some e ↔ e ∈ c.(negativeOrder) ∧ e.(digest) = d;
  ng_ids : NoDup (map element c.(negativeOrder));
  ng_next : ∀ e, e ∈ c.(negativeOrder) → e.(element) < c.(nextElement) }.

Definition bodyBytes (m : gmap string publicCacheMemoryEntry) : Z := msum ((λ e, Z.of_nat (length e.(memBody))) <$> m).

(** The copies: the counter is their sum, and none is empty. *)
Record memoryWf (c : publicProxyCache) : Prop := {
  mem_bytes : c.(memoryBytes) = bodyBytes c.(memoryEntries);
  mem_some : map_Forall (λ _ e, e.(memBody) ≠ [] ∧ e.(memStoredAt) ≠ 0) c.(memoryEntries) }.

(** ** Memory *)

Lemma bodyBytes_delete m key e : m !! key = Some e → bodyBytes (delete key m) = bodyBytes m - Z.of_nat (length e.(memBody)).
Proof. intros E. unfold bodyBytes. by rewrite fmap_delete, msum_delete, lookup_fmap, E. Qed.

Lemma bodyBytes_insert m key e :
  bodyBytes (<[key := e]> m) = bodyBytes m - match m !! key with Some old => Z.of_nat (length old.(memBody)) | None => 0 end
    + Z.of_nat (length e.(memBody)).
Proof. unfold bodyBytes. rewrite fmap_insert, msum_insert, lookup_fmap. by destruct (m !! key). Qed.

Lemma evictLoop_wf keys : ∀ c, memoryWf c → memoryWf (evictLoop c keys).
Proof.
  induction keys as [|key keys IH]; intros c Hc; simpl; [done|]. case_goal; [done|].
  destruct (c.(memoryEntries) !! key) as [e|] eqn:E; [|by apply IH]. apply IH. destruct Hc as [Hb Hs].
  split; cbn; [by rewrite Hb, (bodyBytes_delete _ _ _ E)|by apply map_Forall_delete].
Qed.

(** When every key is offered, the loop ends within the budget. *)
Lemma evictLoop_bound keys : ∀ c, memoryWf c → 0 ≤ c.(settings).(MaxMemoryBytes) →
  (∀ key, is_Some (c.(memoryEntries) !! key) → key ∈ keys) →
  (evictLoop c keys).(memoryBytes) ≤ c.(settings).(MaxMemoryBytes).
Proof.
  induction keys as [|key keys IH]; intros c Hc Hmax Hk; simpl.
  - assert (c.(memoryEntries) = ∅) as E.
    { apply map_empty. intros key. destruct (c.(memoryEntries) !! key) eqn:E; [|done]. exfalso.
      by eapply not_elem_of_nil, Hk, mk_is_Some. }
    destruct Hc as [Hb _]. rewrite Hb, E. unfold bodyBytes. rewrite fmap_empty, msum_empty. done.
  - destruct (Z.leb_spec c.(memoryBytes) c.(settings).(MaxMemoryBytes)); [done|].
    destruct (c.(memoryEntries) !! key) as [e|] eqn:E.
    + apply (IH (withMemory c _ _)); [|done|].
      * destruct Hc as [Hb Hs]. split; cbn; [by rewrite Hb, (bodyBytes_delete _ _ _ E)|by apply map_Forall_delete].
      * cbn. intros k Hk'. destruct (decide (k = key)) as [->|Hne]; [by rewrite lookup_delete_eq in Hk'; destruct Hk'|].
        rewrite lookup_delete_ne in Hk' by done. apply Hk in Hk'. set_solver.
    + apply IH; [done..|]. intros k Hk'. destruct (decide (k = key)) as [->|Hne]; [rewrite E in Hk'; by destruct Hk'|].
      apply Hk in Hk'. set_solver.
Qed.

(** The loops leave everything but the copies alone. *)
Lemma evictLoop_frame keys : ∀ c, ∃ m b, evictLoop c keys = withMemory c m b.
Proof.
  induction keys as [|key keys IH]; intros c; simpl; [by exists c.(memoryEntries), c.(memoryBytes); destruct c|].
  case_goal; [by exists c.(memoryEntries), c.(memoryBytes); destruct c|].
  destruct (c.(memoryEntries) !! key) as [e|]; [|apply IH]. destruct (IH (withMemory c (delete key c.(memoryEntries))
    (c.(memoryBytes) - Z.of_nat (length e.(memBody))))) as (m & b & ->). by exists m, b.
Qed.

Lemma pruneMemory_frame iterate c : ∃ m b, pruneMemoryLocked iterate c = withMemory c m b.
Proof.
  unfold pruneMemoryLocked. case_goal; [by eexists _, _|]. case_goal; [|apply evictLoop_frame].
  exists c.(memoryEntries), c.(memoryBytes). by destruct c.
Qed.

Lemma memoryWf_empty c : memoryWf (withMemory c ∅ 0).
Proof. split; cbn; [reflexivity|apply map_Forall_empty]. Qed.

Lemma pruneMemory_wf iterate c : memoryWf c → memoryWf (pruneMemoryLocked iterate c).
Proof.
  intros Hc. unfold pruneMemoryLocked. case_goal; [apply memoryWf_empty|]. case_goal; [done|by apply evictLoop_wf].
Qed.

Lemma pruneMemory_bound iterate c : (∀ m, iterate m ≡ₚ map_to_list m) → memoryWf c →
  (pruneMemoryLocked iterate c).(memoryBytes) ≤ Z.max 0 c.(settings).(MaxMemoryBytes).
Proof.
  intros Hit Hc. unfold pruneMemoryLocked. destruct (Z.leb_spec c.(settings).(MaxMemoryBytes) 0); [cbn; lia|].
  destruct (Z.leb_spec c.(memoryBytes) c.(settings).(MaxMemoryBytes)); [lia|].
  etrans; [apply evictLoop_bound|lia]; [done|lia|]. intros key [e E]. apply list_elem_of_fmap. exists (key, e). split; [done|].
  rewrite ClientIdentity.sortBy_perm, Hit. by apply elem_of_map_to_list.
Qed.

(** ** Misses *)

Lemma negatives_unique c e1 e2 : negativesWf c → e1 ∈ c.(negativeOrder) → e2 ∈ c.(negativeOrder) →
  e1.(element) = e2.(element) → e1 = e2.
Proof.
  intros Hc H1 H2 E. pose proof (ng_ids _ Hc) as Hnd.
  apply list_elem_of_lookup in H1 as [i Hi]. apply list_elem_of_lookup in H2 as [j Hj].
  assert (i = j) as ->; [|congruence].
  apply (NoDup_lookup _ _ _ e1.(element) Hnd); rewrite list_lookup_fmap; [by rewrite Hi|by rewrite Hj, E].
Qed.

Lemma removeNegative_wf c d : negativesWf c → negativesWf (removeNegativeLookupDigestLocked c d).
Proof.
  intros Hc. unfold removeNegativeLookupDigestLocked. destruct (c.(negativeLookups) !! d) as [e|] eqn:E; [|done].
  pose proof Hc as [Hm Hn Hx]. apply Hm in E as [He Hd].
  assert (Hf : ∀ x, x ∈ List.filter (λ x, negb (x.(element) =? e.(element))) c.(negativeOrder) ↔ x ∈ c.(negativeOrder) ∧ x ≠ e).
  { intros x. rewrite list_elem_of_In, filter_In, <-list_elem_of_In, negb_true_iff, Z.eqb_neq. split; [naive_solver|].
    intros [Hi Hne]. split; [done|]. intros Hel. by apply Hne, (negatives_unique c). }
  split; cbn.
  - intros d' x. rewrite lookup_delete_Some, Hm, Hf. split.
    + intros (Hne & Hi & <-). split_and!; [done| |done]. intros ->. done.
    + intros ((Hi & Hne) & <-). split_and!; [|done|done]. intros Heq. apply Hne.
      assert (c.(negativeLookups) !! d = Some x) as E1 by (apply Hm; by split).
      assert (c.(negativeLookups) !! d = Some e) as E2 by (apply Hm; by split). congruence.
  - clear -Hn. induction c.(negativeOrder) as [|x l IH]; [done|]. simpl in *. apply NoDup_cons in Hn as [Hx Hn].
    case_goal; [|by apply IH]. simpl. constructor; [|by apply IH]. intros Hin. apply Hx.
    apply list_elem_of_In, in_map_iff in Hin as (y & Ey & Hy). apply filter_In in Hy as [Hy _].
    apply list_elem_of_In, in_map_iff. by exists y.
  - intros x Hf'. apply Hf in Hf' as [Hi _]. by apply Hx.
Qed.

Lemma removeNegative_head c e rest : negativesWf c → c.(negativeOrder) = e :: rest →
  (removeNegativeLookupDigestLocked c e.(digest)).(negativeOrder) = rest
  ∧ S (size (removeNegativeLookupDigestLocked c e.(digest)).(negativeLookups)) = size c.(negativeLookups).
Proof.
  intros Hc Eo. pose proof Hc as [Hm Hn _]. assert (E : c.(negativeLookups) !! e.(digest) = Some e).
  { apply Hm. rewrite Eo. split; [by left|done]. }
  unfold removeNegativeLookupDigestLocked. rewrite E. cbn. split.
  - rewrite Eo in *. simpl in *. rewrite Z.eqb_refl. simpl. apply NoDup_cons in Hn as [Hx Hn]. clear -Hx.
    induction rest as [|y rest IH]; [done|]. simpl in *. apply not_elem_of_cons in Hx as [Hy Hx].
    destruct (Z.eqb_spec y.(element) e.(element)); [congruence|]. simpl. f_equal. by apply IH.
  - rewrite map_size_delete, E. simpl. pose proof (map_size_non_empty_iff c.(negativeLookups)) as Hs.
    assert (size c.(negativeLookups) ≠ 0%nat); [|lia]. apply Hs. intros E0. by rewrite E0, lookup_empty in E.
Qed.

Lemma removeNegative_frame c d : ∃ m o, removeNegativeLookupDigestLocked c d = withNegatives c m o c.(nextElement)
  ∧ (size m ≤ size c.(negativeLookups))%nat.
Proof.
  unfold removeNegativeLookupDigestLocked. destruct (c.(negativeLookups) !! d) as [e|] eqn:E.
  - eexists _, _. split; [done|]. rewrite map_size_delete, E. lia.
  - exists c.(negativeLookups), c.(negativeOrder). split; [by destruct c|done].
Qed.

Lemma pruneExpired_wf order now : ∀ c, negativesWf c → negativesWf (pruneExpired c order now).
Proof.
  induction order as [|e order IH]; intros c Hc; simpl; [done|]. case_goal; [done|]. by apply IH, removeNegative_wf.
Qed.
Lemma pruneExcess_wf order limit : ∀ c, negativesWf c → negativesWf (pruneExcess c order limit).
Proof.
  induction order as [|e order IH]; intros c Hc; simpl; [done|]. case_goal; [done|]. by apply IH, removeNegative_wf.
Qed.

Lemma pruneExcess_bound order limit : ∀ c, negativesWf c → c.(negativeOrder) = order → 0 ≤ limit →
  Z.of_nat (size (pruneExcess c order limit).(negativeLookups)) ≤ limit.
Proof.
  induction order as [|e order IH]; intros c Hc Eo Hl; simpl.
  - assert (c.(negativeLookups) = ∅) as ->; [|rewrite map_size_empty; lia].
    apply map_empty. intros d. destruct (c.(negativeLookups) !! d) as [x|] eqn:E; [|done].
    apply (ng_map _ Hc) in E as [E _]. rewrite Eo in E. by apply elem_of_nil in E.
  - destruct (Z.leb_spec (Z.of_nat (size c.(negativeLookups))) limit); [done|].
    apply IH; [by apply removeNegative_wf| |done]. by apply (removeNegative_head c).
Qed.

Lemma pruneExpired_frame order now : ∀ c, ∃ m o, pruneExpired c order now = withNegatives c m o c.(nextElement).
Proof.
  induction order as [|e order IH]; intros c; simpl; [by exists c.(negativeLookups), c.(negativeOrder); destruct c|].
  case_goal; [by exists c.(negativeLookups), c.(negativeOrder); destruct c|].
  destruct (removeNegative_frame c e.(digest)) as (m & o & -> & _). destruct (IH (withNegatives c m o c.(nextElement))) as (m' & o' & ->).
  by exists m', o'.
Qed.
Lemma pruneExcess_frame order limit : ∀ c, ∃ m o, pruneExcess c order limit = withNegatives c m o c.(nextElement).
Proof.
  induction order as [|e order IH]; intros c; simpl; [by exists c.(negativeLookups), c.(negativeOrder); destruct c|].
  case_goal; [by exists c.(negativeLookups), c.(negativeOrder); destruct c|].
  destruct (removeNegative_frame c e.(digest)) as (m & o & -> & _). destruct (IH (withNegatives c m o c.(nextElement))) as (m' & o' & ->).
  by exists m', o'.
Qed.

Lemma limit_nonneg c : 0 ≤ negativeLookupLimitLocked c ≤ maxPublicCacheNegativeLookups.
Proof. unfold negativeLookupLimitLocked, maxPublicCacheNegativeLookups. repeat case_goal; bprop; lia. Qed.

(** Pruning keeps the list well formed and within its limit, and touches nothing else. *)
Definition negativesOk (c : publicProxyCache) : Prop :=
  negativesWf c ∧ Z.of_nat (size c.(negativeLookups)) ≤ negativeLookupLimitLocked c.

Lemma pruneNegatives_frame c now : ∃ m o, pruneNegativeLookupsLocked c now = withNegatives c m o c.(nextElement).
Proof.
  unfold pruneNegativeLookupsLocked. destruct (pruneExpired_frame c.(negativeOrder) now c) as (m & o & ->).
  destruct (pruneExcess_frame (withNegatives c m o c.(nextElement)).(negativeOrder)
    (negativeLookupLimitLocked (withNegatives c m o c.(nextElement))) (withNegatives c m o c.(nextElement))) as (m' & o' & ->).
  by exists m', o'.
Qed.

Lemma pruneNegatives_ok c now : negativesWf c → negativesOk (pruneNegativeLookupsLocked c now).
Proof.
  intros Hc. unfold pruneNegativeLookupsLocked. set (c1 := pruneExpired _ _ _).
  assert (H1 : negativesWf c1) by by apply pruneExpired_wf. split; [by apply pruneExcess_wf|].
  etrans; [apply pruneExcess_bound; [done|done|apply limit_nonneg]|].
  destruct (pruneExcess_frame c1.(negativeOrder) (negativeLookupLimitLocked c1) c1) as (m & o & ->). done.
Qed.

Lemma removeNegative_ok c d : negativesOk c → negativesOk (removeNegativeLookupDigestLocked c d).
Proof.
  intros [Hw Hb]. split; [by apply removeNegative_wf|]. destruct (removeNegative_frame c d) as (m & o & -> & Hs). cbn.
  change (Z.of_nat (size m) ≤ negativeLookupLimitLocked c). lia.
Qed.

Lemma rememberNegative_ok `{LookupCodec} c lk now : negativesWf c → negativesOk (rememberNegativeLookupLocked c lk now).
Proof.
  intros Hc. unfold rememberNegativeLookupLocked. pose proof (pruneNegatives_ok c now Hc) as H1.
  case_goal; [done|]. apply pruneNegatives_ok. set (c1 := pruneNegativeLookupsLocked c now) in *.
  pose proof (removeNegative_wf c1 (lookupHash lk) (proj1 H1)) as H2. set (c2 := removeNegativeLookupDigestLocked c1 (lookupHash lk)) in *.
  assert (Hnone : c2.(negativeLookups) !! lookupHash lk = None).
  { unfold c2, removeNegativeLookupDigestLocked. destruct (c1.(negativeLookups) !! lookupHash lk) eqn:E; [|done].
    cbn. apply lookup_delete_eq. }
  clearbody c2. clear -H2 Hnone. pose proof H2 as [Hm Hn Hx]. split; cbn.
  - intros d e. rewrite elem_of_app, list_elem_of_singleton. destruct (decide (d = lookupHash lk)) as [->|Hne].
    + rewrite lookup_insert_eq. split; [intros [= <-]; naive_solver|]. intros [[He| ->] Hd]; [|done]. exfalso.
      assert (c2.(negativeLookups) !! lookupHash lk = Some e) by (by apply Hm). congruence.
    + rewrite lookup_insert_ne by done. rewrite Hm. split; [naive_solver|]. intros [[He| ->] Hd]; [done|]. by simpl in Hd.
  - rewrite map_app. apply NoDup_app. split_and!; [done| |apply NoDup_singleton]. simpl. intros i Hi ->%list_elem_of_singleton.
    apply list_elem_of_fmap in Hi as (e & Ee & He). apply Hx in He. lia.
  - intros e. rewrite elem_of_app, list_elem_of_singleton. intros [He| ->]; [apply Hx in He|cbn]; lia.
Qed.

(** ** The index *)

Lemma indexWf_empty : indexWf ∅ ∅.
Proof. split; [intros lk ds|intros d ie]; by rewrite lookup_empty. Qed.

Lemma dropLookup_eq lookups lk key : dropLookup lookups lk key !! lk =
  ds ← lookups !! lk; if bool_decide (ds ∖ {[key]} = ∅) then None else Some (ds ∖ {[key]}).
Proof.
  unfold dropLookup. destruct (lookups !! lk) as [ds|] eqn:E; [|done]. simpl. case_goal; [apply lookup_delete_eq|apply lookup_insert_eq].
Qed.
Lemma dropLookup_ne lookups lk key lk' : lk ≠ lk' → dropLookup lookups lk key !! lk' = lookups !! lk'.
Proof.
  intros Hne. unfold dropLookup. destruct (lookups !! lk) as [ds|] eqn:E; [|done].
  case_goal; [by apply lookup_delete_ne|by apply lookup_insert_ne].
Qed.

(** An entry taken out of the index and out of the set of its key. *)
Lemma indexWf_delete entries lookups key ie : indexWf entries lookups → entries !! key = Some ie →
  indexWf (delete key entries) (dropLookup lookups ie.(lookupKey) key).
Proof.
  intros [Hl He] E. split.
  - intros lk ds Hds. destruct (decide (ie.(lookupKey) = lk)) as [<-|Hne].
    + rewrite dropLookup_eq in Hds. destruct (lookups !! ie.(lookupKey)) as [ds0|] eqn:E0; [|done]. simpl in Hds.
      case_if_hyp Hds Eb. injection Hds as <-. apply bool_decide_eq_false in Eb. split; [done|]. intros d Hd.
      destruct (proj2 (Hl _ _ E0) d) as (ie' & H1 & H2); [set_solver|]. exists ie'. split; [|done].
      rewrite lookup_delete_ne; [done|set_solver].
    + rewrite dropLookup_ne in Hds by done. destruct (Hl _ _ Hds) as [Hne' Hall]. split; [done|]. intros d Hd.
      destruct (Hall _ Hd) as (ie' & H1 & H2). exists ie'. split; [|done]. rewrite lookup_delete_ne; [done|]. intros ->. congruence.
  - intros d ie' Hd. apply lookup_delete_Some in Hd as [Hne Hd]. destruct (He _ _ Hd) as (H1 & H2 & H3 & ds & H4 & H5).
    split_and!; [done..|]. destruct (decide (ie.(lookupKey) = ie'.(lookupKey))) as [Eq|Neq].
    + rewrite <-Eq, dropLookup_eq, Eq, H4. simpl. rewrite bool_decide_eq_false_2 by set_solver. eexists. split; [done|set_solver].
    + rewrite dropLookup_ne by done. by exists ds.
Qed.

(** A fresh entry put into both. *)
Lemma indexWf_insert entries lookups e : indexWf entries lookups → entries !! e.(KeyDigest) = None → e.(KeyDigest) ≠ "" →
  indexWf (<[e.(KeyDigest) := mkIndexEntry e (publicCacheLookupKeyFromEntry e)]> entries)
    (addLookup lookups (publicCacheLookupKeyFromEntry e) e.(KeyDigest)).
Proof.
  intros [Hl He] E Hk. set (lk := publicCacheLookupKeyFromEntry e). unfold addLookup. split.
  - intros lk' ds Hds. destruct (decide (lk = lk')) as [<-|Hne].
    + rewrite lookup_insert_eq in Hds. injection Hds as <-. split; [set_solver|]. intros d Hd.
      destruct (decide (d = e.(KeyDigest))) as [->|Hd']; [rewrite lookup_insert_eq; by eexists|].
      rewrite lookup_insert_ne by done. destruct (lookups !! lk) as [ds|] eqn:E0; [|set_solver].
      apply (Hl _ _ E0). set_solver.
    + rewrite lookup_insert_ne in Hds by done. destruct (Hl _ _ Hds) as [Hne' Hall]. split; [done|]. intros d Hd.
      destruct (Hall _ Hd) as (ie' & H1 & H2). exists ie'. rewrite lookup_insert_ne; [done|]. intros <-. congruence.
  - intros d ie Hd. apply lookup_insert_Some in Hd as [[<- <-]|[Hne Hd]]; cbn.
    + split_and!; [done..|]. exists ({[e.(KeyDigest)]} ∪ default ∅ (lookups !! lk)). rewrite lookup_insert_eq. split; [done|set_solver].
    + destruct (He _ _ Hd) as (H1 & H2 & H3 & ds & H4 & H5). split_and!; [done..|].
      destruct (decide (lk = ie.(lookupKey))) as [Eq|Neq]; [|rewrite lookup_insert_ne by done; by exists ds].
      rewrite <-Eq in *. exists ({[e.(KeyDigest)]} ∪ default ∅ (lookups !! lk)). rewrite lookup_insert_eq, H4. split; [done|set_solver].
Qed.

(** The lookup sets after an entry replaced another one of the same digest. *)
Lemma addLookup_drop lookups lk key ds : lookups !! lk = Some ds → key ∈ ds →
  addLookup (dropLookup lookups lk key) lk key = lookups ∧ addLookup lookups lk key = lookups.
Proof.
  intros E Hk. unfold addLookup. rewrite dropLookup_eq, E. simpl. split.
  - apply map_eq. intros lk'. destruct (decide (lk = lk')) as [<-|Hne]; [|by rewrite lookup_insert_ne, dropLookup_ne].
    rewrite lookup_insert_eq, E. f_equal. case_if Eb; simpl.
    + apply bool_decide_eq_true in Eb. apply set_eq. intros x. rewrite elem_of_union, elem_of_singleton.
      split; [intros [->|Hx]; [done|by apply elem_of_empty in Hx]|]. intros Hx. destruct (decide (x = key)); [by left|].
      exfalso. assert (Hd : x ∈ ds ∖ {[key]}) by set_solver. rewrite Eb in Hd. by apply elem_of_empty in Hd.
    + apply set_eq. intros x. destruct (decide (x = key)); set_solver.
  - apply insert_id. rewrite E. f_equal. set_solver.
Qed.

Lemma indexWf_put entries lookups e : indexWf entries lookups → e.(KeyDigest) ≠ "" →
  indexWf (<[e.(KeyDigest) := mkIndexEntry e (publicCacheLookupKeyFromEntry e)]> entries)
    (addLookup match entries !! e.(KeyDigest) with
       | Some old => if bool_decide (old.(lookupKey) = publicCacheLookupKeyFromEntry e) then lookups
                     else dropLookup lookups old.(lookupKey) e.(KeyDigest)
       | None => lookups end (publicCacheLookupKeyFromEntry e) e.(KeyDigest)).
Proof.
  intros Hw Hk. destruct (entries !! e.(KeyDigest)) as [old|] eqn:E; [|by apply indexWf_insert].
  pose proof (indexWf_insert _ _ e (indexWf_delete _ _ _ _ Hw E)) as H. rewrite insert_delete_eq in H.
  specialize (H (lookup_delete_eq _ _) Hk). destruct (ix_entry _ _ Hw _ _ E) as (_ & _ & _ & ds & Hds & Hin).
  case_if Eb; [|done]. apply bool_decide_eq_true in Eb. rewrite Eb in *.
  destruct (addLookup_drop _ _ _ _ Hds Hin) as [H1 H2]. by rewrite H2, <-H1.
Qed.

(** Counting a hit changes nothing the index is about. *)
Lemma indexWf_touch entries lookups key ie now hits : indexWf entries lookups → entries !! key = Some ie →
  indexWf (<[key := mkIndexEntry (touched ie.(entry) now hits) ie.(lookupKey)]> entries) lookups.
Proof.
  intros [Hl He] E. split.
  - intros lk ds Hds. destruct (Hl _ _ Hds) as [Hne Hall]. split; [done|]. intros d Hd. destruct (Hall _ Hd) as (ie' & H1 & H2).
    destruct (decide (key = d)) as [<-|]; [|rewrite lookup_insert_ne by done; by exists ie'].
    rewrite lookup_insert_eq. eexists. split; [done|]. simpl. congruence.
  - intros d ie' Hd. apply lookup_insert_Some in Hd as [[<- <-]|[Hne Hd]]; [apply (He _ _ E)|by apply He].
Qed.

(** ** Every operation keeps the invariants *)

(** A part of the state that an update left alone. *)
Ltac frame :=
  first [ done
        | match goal with H : memoryWf _ |- memoryWf _ => destruct H; by split end
        | match goal with H : negativesOk _ |- negativesOk _ => destruct H as [[] ?]; split; [by split|done] end ].

Section invariant.
Context {CC : CacheCodec} {CL : CacheCodecLaws} {LC : LookupCodec}.

Record cacheOk (c : publicProxyCache) : Prop := {
  ok_index : indexWf c.(indexEntries) c.(indexLookups);
  ok_size : Z.of_nat (size c.(indexEntries)) ≤ maxIndexEntriesLocked c;
  ok_negatives : negativesOk c;
  ok_memory : memoryWf c;
  ok_budget : c.(memoryBytes) ≤ Z.max 0 c.(settings).(MaxMemoryBytes);
  ok_fingerprint : c.(lastFingerprint) = "" ∨ ∃ rules, c.(lastFingerprint) = publicCacheRuntimeFingerprint c.(settings) rules }.

Lemma maxIndex_pos c : 0 < maxIndexEntriesLocked c.
Proof. unfold maxIndexEntriesLocked, defaultPublicCacheMaxEntries. case_goal; bprop; lia. Qed.

Lemma negativesOk_empty c n : negativesOk (withNegatives c ∅ [] n).
Proof.
  split; [split; cbn|cbn].
  - intros d e. rewrite lookup_empty. split; [done|]. intros [He _]. by apply elem_of_nil in He.
  - constructor.
  - by intros e He%elem_of_nil.
  - rewrite map_size_empty. apply limit_nonneg.
Qed.

Lemma new_ok now : cacheOk (newPublicProxyCache now).
Proof.
  split; cbn.
  - apply indexWf_empty.
  - done.
  - apply (negativesOk_empty (newPublicProxyCache now) 0).
  - split; cbn; [reflexivity|apply map_Forall_empty].
  - done.
  - by left.
Qed.

(** The other parts are untouched by a change of one of them. *)
Lemma ok_withNegatives c m o n : cacheOk c → negativesOk (withNegatives c m o n) → cacheOk (withNegatives c m o n).
Proof. intros [] Hn. split; frame. Qed.
Lemma ok_withMemory c m b : cacheOk c → memoryWf (withMemory c m b) → b ≤ Z.max 0 c.(settings).(MaxMemoryBytes) →
  cacheOk (withMemory c m b).
Proof. intros [] Hm Hb. split; frame. Qed.

Lemma limit_mono c c' : c.(settings) = c'.(settings) → (size c'.(indexEntries) ≤ size c.(indexEntries))%nat →
  negativeLookupLimitLocked c ≤ negativeLookupLimitLocked c'.
Proof.
  intros Hs Hn. unfold negativeLookupLimitLocked, maxIndexEntriesLocked, maxPublicCacheNegativeLookups. rewrite Hs.
  repeat case_goal; bprop; lia.
Qed.

(** Fewer entries leave more room for misses. *)
Lemma ok_withIndex c entries lookups : cacheOk c → indexWf entries lookups → (size entries ≤ size c.(indexEntries))%nat →
  cacheOk (withIndex c entries lookups).
Proof.
  intros [] Hw Hs. split; try frame.
  - change (Z.of_nat (size entries) ≤ maxIndexEntriesLocked c). lia.
  - destruct ok_negatives0 as [Hn Hb]. split; [by destruct Hn; split|]. cbn. etrans; [exact Hb|].
    by apply limit_mono.
Qed.

Lemma clearIndex_ok c : indexWf c.(indexEntries) c.(indexLookups) → memoryWf c →
  c.(memoryBytes) ≤ Z.max 0 c.(settings).(MaxMemoryBytes) →
  (c.(lastFingerprint) = "" ∨ ∃ rules, c.(lastFingerprint) = publicCacheRuntimeFingerprint c.(settings) rules) →
  cacheOk (clearIndexLocked c).
Proof.
  intros _ Hm Hb Hf. unfold clearIndexLocked. split; cbn; [apply indexWf_empty|..]; try frame.
  - rewrite map_size_empty. pose proof (maxIndex_pos c). unfold maxIndexEntriesLocked in *. cbn. lia.
  - apply (negativesOk_empty (withIndex c ∅ ∅) c.(nextElement)).
Qed.

Lemma evict_ok iterate c : (∀ m, iterate m ≡ₚ map_to_list m) → memoryWf c →
  memoryWf (pruneMemoryLocked iterate c) ∧ (pruneMemoryLocked iterate c).(memoryBytes) ≤ Z.max 0 c.(settings).(MaxMemoryBytes).
Proof. intros Hit Hm. split; [by apply pruneMemory_wf|by apply pruneMemory_bound]. Qed.

Lemma reconcile_ok iterate c s rules : (∀ m, iterate m ≡ₚ map_to_list m) → cacheOk c → cacheOk (reconcile iterate c s rules).
Proof using CL.
  intros Hit Hc. pose proof Hc as [Hi Hs Hn Hm Hb Hf]. unfold reconcile.
  assert (Hmem : ∀ c', memoryWf c' → c'.(settings) = s →
    indexWf c'.(indexEntries) c'.(indexLookups) → Z.of_nat (size c'.(indexEntries)) ≤ maxIndexEntriesLocked c' →
    negativesOk c' → (c'.(lastFingerprint) = "" ∨ ∃ rules, c'.(lastFingerprint) = publicCacheRuntimeFingerprint c'.(settings) rules) →
    cacheOk (if negb s.(SettingsEnabled) || (s.(MaxMemoryBytes) <=? 0) then withMemory c' ∅ 0 else pruneMemoryLocked iterate c')).
  { intros c' Hm' Es Hi' Hs' Hn' Hf'. case_goal.
    - split; cbn; first [frame | apply memoryWf_empty | lia].
    - destruct (evict_ok iterate c' Hit Hm') as [Hm1 Hm2]. destruct (pruneMemory_frame iterate c') as (m & b & Eq). rewrite Eq in *.
      split; frame. }
  assert (Hclear : ∀ c', c'.(settings) = s → c'.(memoryEntries) = c.(memoryEntries) → c'.(memoryBytes) = c.(memoryBytes) →
    c'.(lastFingerprint) = publicCacheRuntimeFingerprint s rules →
    cacheOk (if negb s.(SettingsEnabled) || (s.(MaxMemoryBytes) <=? 0) then withMemory (clearIndexLocked c') ∅ 0
             else pruneMemoryLocked iterate (clearIndexLocked c'))).
  { intros c' Es Em Eb Ef. apply Hmem; cbn; [|done|apply indexWf_empty|..].
    - destruct Hm as [Hm1 Hm2]. by split; cbn; rewrite ?Em, ?Eb.
    - rewrite map_size_empty. pose proof (maxIndex_pos c'). unfold maxIndexEntriesLocked in *. cbn. lia.
    - apply (negativesOk_empty (withIndex c' ∅ ∅) c'.(nextElement)).
    - right. exists rules. by rewrite Es. }
  destruct (String.eqb_spec c.(lastFingerprint) (publicCacheRuntimeFingerprint s rules)) as [Ef|Ef]; cbn [negb orb].
  - destruct s.(SettingsEnabled) eqn:En; cbn [negb orb] in *; [|by apply (Hclear (withSettings c s (publicCacheRuntimeFingerprint s rules)))].
    apply (Hmem (withSettings c s (publicCacheRuntimeFingerprint s rules))); try done.
    + frame.
    + assert (Emax : s.(MaxEntries) = c.(settings).(MaxEntries)).
      { destruct Hf as [Hf|[rules' Hf]]; [rewrite Hf in Ef; symmetry in Ef; by apply runtimeHash_nonempty in Ef|].
        rewrite Hf in Ef. apply runtimeHash_inj in Ef as [Ef _]. congruence. }
      unfold maxIndexEntriesLocked in *. cbn. by rewrite Emax.
    + assert (Emax : s.(MaxEntries) = c.(settings).(MaxEntries)).
      { destruct Hf as [Hf|[rules' Hf]]; [rewrite Hf in Ef; symmetry in Ef; by apply runtimeHash_nonempty in Ef|].
        rewrite Hf in Ef. apply runtimeHash_inj in Ef as [Ef _]. congruence. }
      destruct Hn as [Hn Hbn]. split; [by destruct Hn; split|]. revert Hbn. unfold negativeLookupLimitLocked, maxIndexEntriesLocked. cbn.
      by rewrite Emax.
    + right. by exists rules.
  - by apply (Hclear (withGeneration (withSettings c s (publicCacheRuntimeFingerprint s rules)) (u64 (c.(generation) + 1)))).
Qed.

Lemma invalidateEntries_ok c : cacheOk c → cacheOk (invalidateEntriesLocked c).
Proof. intros []. apply clearIndex_ok; frame. Qed.
Lemma invalidateConfiguration_ok c : cacheOk c → cacheOk (invalidateConfiguration c).
Proof. intros []. apply clearIndex_ok; try frame. by left. Qed.

Lemma getMemory_ok c key storedAt now : cacheOk c → cacheOk (getMemory c key storedAt now).1.
Proof.
  intros Hc. unfold getMemory. case_goal; [done|]. destruct (c.(memoryEntries) !! key) as [e|] eqn:E; [|done].
  case_goal; [done|]. pose proof (ok_memory _ Hc) as [Hb Hs]. apply ok_withMemory; [done|split; cbn|apply (ok_budget _ Hc)].
  - rewrite bodyBytes_insert, E, Hb. cbn. lia.
  - apply map_Forall_insert_2; [|done]. cbn. by apply (Hs key).
Qed.

Lemma putMemory_ok iterate c key storedAt now body : (∀ m, iterate m ≡ₚ map_to_list m) → cacheOk c →
  cacheOk (putMemory iterate c key storedAt now body).
Proof.
  intros Hit Hc. unfold putMemory. case_if Ek; [done|]. case_goal; [done|].
  apply orb_false_iff in Ek as [[_ Ht]%orb_false_iff Hl]. unfold is_zero_time in Ht.
  pose proof (ok_memory _ Hc) as [Hb Hs]. set (b := match c.(memoryEntries) !! key with Some _ => _ | None => _ end).
  set (c1 := withMemory _ _ _). assert (Hm1 : memoryWf c1).
  { split; cbn.
    - rewrite bodyBytes_insert. cbn. unfold b. rewrite Hb. destruct (c.(memoryEntries) !! key); lia.
    - apply map_Forall_insert_2; [|done]. cbn. split; [by destruct body|]. bprop. done. }
  destruct (evict_ok iterate c1 Hit Hm1) as [Hm2 Hm3]. destruct (pruneMemory_frame iterate c1) as (m & b' & Eq). rewrite Eq in *.
  apply (ok_withMemory c m b' Hc); [by destruct Hm2; split|done].
Qed.

Lemma deleteMemory_locked_ok c key : cacheOk c → cacheOk (deleteMemoryLocked c key).
Proof.
  intros Hc. unfold deleteMemoryLocked. destruct (c.(memoryEntries) !! key) as [e|] eqn:E; [|done].
  pose proof (ok_memory _ Hc) as [Hb Hs]. apply ok_withMemory; [done|split; cbn|].
  - by rewrite Hb, (bodyBytes_delete _ _ _ E).
  - by apply map_Forall_delete.
  - pose proof (ok_budget _ Hc). lia.
Qed.
Lemma deleteMemory_ok c key : cacheOk c → cacheOk (deleteMemory c key).
Proof. intros Hc. unfold deleteMemory. case_goal; [done|by apply deleteMemory_locked_ok]. Qed.

Lemma forgetIndex_ok c key ie : cacheOk c → c.(indexEntries) !! key = Some ie → cacheOk (forgetIndex c key ie).
Proof.
  intros Hc E. unfold forgetIndex. apply ok_withIndex; [done|by apply indexWf_delete, E; apply (ok_index _ Hc)|].
  rewrite map_size_delete, E. lia.
Qed.

Lemma deleteEntry_ok c key : cacheOk c → cacheOk (deleteEntry c key).
Proof.
  intros Hc. unfold deleteEntry, deleteEntryLocked. case_goal; [done|].
  pose proof (deleteMemory_locked_ok c key Hc) as Hc1. destruct ((deleteMemoryLocked c key).(indexEntries) !! key) eqn:E; [|done].
  by apply forgetIndex_ok.
Qed.

Lemma deleteEntryGeneration_ok c key storedAt : cacheOk c → cacheOk (deleteEntryGeneration c key storedAt).
Proof.
  intros Hc. unfold deleteEntryGeneration. case_goal; [done|]. set (c1 := match c.(memoryEntries) !! key with Some _ => _ | None => _ end).
  assert (Hc1 : cacheOk c1).
  { unfold c1. destruct (c.(memoryEntries) !! key); [|done]. case_goal; [by apply deleteMemory_locked_ok|done]. }
  destruct (c1.(indexEntries) !! key) eqn:E; [|done]. case_goal; [done|by apply forgetIndex_ok].
Qed.

Lemma removeNegative_cache_ok c d : cacheOk c → cacheOk (removeNegativeLookupDigestLocked c d).
Proof.
  intros Hc. pose proof (removeNegative_ok c d (ok_negatives _ Hc)) as Hn.
  destruct (removeNegative_frame c d) as (m & o & Eq & _). rewrite Eq in *. by apply ok_withNegatives.
Qed.

Lemma rememberNegative_cache_ok c lk now : cacheOk c → cacheOk (rememberNegativeLookupLocked c lk now).
Proof.
  intros Hc. pose proof (rememberNegative_ok c lk now (proj1 (ok_negatives _ Hc))) as Hn.
  assert (Hf : ∃ m o n, rememberNegativeLookupLocked c lk now = withNegatives c m o n).
  { unfold rememberNegativeLookupLocked. destruct (pruneNegatives_frame c now) as (m & o & ->). case_goal; [by eexists _, _, _|].
    destruct (removeNegative_frame (withNegatives c m o c.(nextElement)) (lookupHash lk)) as (m' & o' & -> & _).
    match goal with |- context [pruneNegativeLookupsLocked ?x now] => destruct (pruneNegatives_frame x now) as (m2 & o2 & ->) end.
    by eexists _, _, _. }
  destruct Hf as (m & o & n & Eq). rewrite Eq in *. by apply ok_withNegatives.
Qed.

(** The tail of a change of the index: the miss of its key is forgotten, the rest pruned. *)
Lemma settle_ok c lk now : indexWf c.(indexEntries) c.(indexLookups) → Z.of_nat (size c.(indexEntries)) ≤ maxIndexEntriesLocked c →
  negativesWf c → memoryWf c → c.(memoryBytes) ≤ Z.max 0 c.(settings).(MaxMemoryBytes) →
  (c.(lastFingerprint) = "" ∨ ∃ rules, c.(lastFingerprint) = publicCacheRuntimeFingerprint c.(settings) rules) →
  cacheOk (pruneNegativeLookupsLocked (removeNegativeLookupLocked c lk) now).
Proof.
  intros Hi Hs Hn Hm Hb Hf. unfold removeNegativeLookupLocked.
  pose proof (pruneNegatives_ok _ now (removeNegative_wf c (lookupHash lk) Hn)) as Hok.
  destruct (removeNegative_frame c (lookupHash lk)) as (m & o & Eq & _). rewrite Eq in *.
  destruct (pruneNegatives_frame (withNegatives c m o c.(nextElement)) now) as (m' & o' & Eq'). rewrite Eq' in *.
  split; frame.
Qed.

Lemma putIndexEntry_ok c e now : cacheOk c → cacheOk (putIndexEntryLocked c e now).
Proof.
  intros Hc. pose proof Hc as [Hi Hs [Hn _] Hm Hb Hf]. unfold putIndexEntryLocked.
  destruct (String.eqb_spec e.(KeyDigest) ""); [done|]. case_if Efull; [by apply settle_ok|].
  apply settle_ok; cbn; try frame.
  - by apply indexWf_put.
  - change (Z.of_nat (size (<[e.(KeyDigest) := mkIndexEntry e (publicCacheLookupKeyFromEntry e)]> c.(indexEntries))) ≤ maxIndexEntriesLocked c).
    destruct (c.(indexEntries) !! e.(KeyDigest)) as [old|] eqn:E.
    + rewrite map_size_insert, E. simpl. lia.
    + rewrite map_size_insert, E. rewrite bool_decide_eq_true_2 in Efull by done. simpl in *. bprop. lia.
  - destruct Hn. by split.
Qed.

Lemma storeLoop_ok clock lk now candidates : ∀ c stored, cacheOk c → cacheOk (storeLoop clock c lk candidates now stored).1.
Proof.
  induction candidates as [|e candidates IH]; intros c stored Hc; simpl; [done|].
  destruct (c.(indexEntries) !! e.(KeyDigest)); [by apply IH|]. case_goal; [by apply IH|]. case_goal; [by apply IH|].
  by apply IH, putIndexEntry_ok.
Qed.

Lemma storeIndexed_ok clock c lk candidates now g fingerprint : cacheOk c →
  cacheOk (storeIndexedCandidates clock c lk candidates now g fingerprint).
Proof.
  intros Hc. unfold storeIndexedCandidates. case_goal; [done|].
  pose proof (storeLoop_ok clock lk now candidates c false Hc) as Hs. destruct (storeLoop _ _ _ _ _ _) as [c' stored].
  simpl in Hs. destruct stored; [done|by apply rememberNegative_cache_ok].
Qed.

Lemma touch_ok c key storedAt now : cacheOk c → cacheOk (touchIndexedEntry c key storedAt now).
Proof.
  intros Hc. unfold touchIndexedEntry. case_goal; [done|]. destruct (c.(indexEntries) !! key) as [ie|] eqn:E; [|done].
  case_goal; [done|]. apply ok_withIndex; [done|by apply indexWf_touch; [apply (ok_index _ Hc)|]|]. rewrite map_size_insert, E. done.
Qed.

(** Under the invariant a lookup changes nothing but an expired miss. *)
Lemma lookup_cases order c lk now g fingerprint : cacheOk c → (∀ ds, order ds ≡ₚ elements ds) →
  c.(settings).(SettingsEnabled) = true → c.(generation) = g → c.(lastFingerprint) = fingerprint →
  lookupIndexedCandidates order c lk now g fingerprint =
    match c.(indexLookups) !! lk with
    | Some ds => (c, (omap (λ key, entry <$> c.(indexEntries) !! key) (order ds), true))
    | None => let '(c, loaded) := negativeLookupLoadedLocked c lk now in (c, ([], loaded))
    end.
Proof.
  intros Hc Ho He Hg Hf. unfold lookupIndexedCandidates. rewrite He, Hg, Hf, Z.eqb_refl, String.eqb_refl. cbn [negb orb].
  destruct (c.(indexLookups) !! lk) as [ds|] eqn:E; cbn [default].
  - destruct (ix_lookup _ _ (ok_index _ Hc) _ _ E) as [Hne Hall]. rewrite bool_decide_eq_false_2 by done.
    assert (Hk : filter (λ key, is_Some (c.(indexEntries) !! key)) ds = ds).
    { apply set_eq. intros d. rewrite elem_of_filter. split; [by intros [_ ?]|]. intros Hd. split; [|done].
      destruct (Hall _ Hd) as (ie & Hie & _). by exists ie. }
    unfold id. rewrite Hk, bool_decide_eq_false_2 by done. f_equal. rewrite insert_id by done. by destruct c.
  - rewrite bool_decide_eq_true_2 by done. rewrite delete_id by done. by destruct c.
Qed.

Lemma lookup_ok order c lk now g fingerprint : (∀ ds, order ds ≡ₚ elements ds) → cacheOk c →
  cacheOk (lookupIndexedCandidates order c lk now g fingerprint).1.
Proof.
  intros Ho Hc. destruct (negb c.(settings).(SettingsEnabled) || negb (c.(generation) =? g) || negb (String.eqb c.(lastFingerprint) fingerprint)) eqn:E.
  - unfold lookupIndexedCandidates. by rewrite E.
  - rewrite !orb_false_iff, !negb_false_iff in E. destruct E as [[He Hg] Hf]. rewrite lookup_cases by (bprop; done).
    destruct (c.(indexLookups) !! lk); [done|]. unfold negativeLookupLoadedLocked.
    destruct (c.(negativeLookups) !! lookupHash lk); [|done]. case_goal; [by apply removeNegative_cache_ok|done].
Qed.

(** ** Sequences of operations *)

Inductive cacheOp :=
  | OpReconcile (s : publicCacheSettingsConfig) (rules : list publicCacheRuleConfig)
  | OpInvalidateConfiguration
  | OpInvalidateEntries
  | OpGetMemory (key : string) (storedAt now : Z)
  | OpPutMemory (key : string) (storedAt now : Z) (body : list Byte.byte)
  | OpDeleteMemory (key : string)
  | OpDeleteEntry (key : string)
  | OpDeleteEntryGeneration (key : string) (storedAt : Z)
  | OpLookup (lk : publicCacheLookupKey) (now g : Z) (fingerprint : string)
  | OpStore (clock : nat → Z) (lk : publicCacheLookupKey) (candidates : list PublicCacheEntry) (now g : Z) (fingerprint : string)
  | OpPutIndex (e : PublicCacheEntry) (now : Z)
  | OpTouch (key : string) (storedAt now : Z)
  | OpUsage (usage : option (Z * Z))
  | OpAdjust (bodyBytes entries : Z)
  | OpNextStoredAt (now : Z)
  | OpCleanupAt (now : Z).

Definition runOp iterate order (c : publicProxyCache) (op : cacheOp) : publicProxyCache :=
  match op with
  | OpReconcile s rules => reconcile iterate c s rules
  | OpInvalidateConfiguration => invalidateConfiguration c
  | OpInvalidateEntries => invalidateEntriesLocked c
  | OpGetMemory key storedAt now => (getMemory c key storedAt now).1
  | OpPutMemory key storedAt now body => putMemory iterate c key storedAt now body
  | OpDeleteMemory key => deleteMemory c key
  | OpDeleteEntry key => deleteEntry c key
  | OpDeleteEntryGeneration key storedAt => deleteEntryGeneration c key storedAt
  | OpLookup lk now g fingerprint => (lookupIndexedCandidates order c lk now g fingerprint).1
  | OpStore clock lk candidates now g fingerprint => storeIndexedCandidates clock c lk candidates now g fingerprint
  | OpPutIndex e now => putIndexEntry c e now
  | OpTouch key storedAt now => touchIndexedEntry c key storedAt now
  | OpUsage usage => (ensureStorageUsageLocked c usage).1
  | OpAdjust bodyBytes entries => adjustStorageUsage c bodyBytes entries
  | OpNextStoredAt now => (nextStoredAt c now).1
  | OpCleanupAt now => withCleanup c now
  end.

Lemma runOp_ok iterate order c op : (∀ m, iterate m ≡ₚ map_to_list m) → (∀ ds, order ds ≡ₚ elements ds) →
  cacheOk c → cacheOk (runOp iterate order c op).
Proof using CL.
  intros Hit Ho Hc. destruct op; cbn [runOp].
  - by apply reconcile_ok.
  - by apply invalidateConfiguration_ok.
  - by apply invalidateEntries_ok.
  - by apply getMemory_ok.
  - by apply putMemory_ok.
  - by apply deleteMemory_ok.
  - by apply deleteEntry_ok.
  - by apply deleteEntryGeneration_ok.
  - by apply lookup_ok.
  - by apply storeIndexed_ok.
  - by apply putIndexEntry_ok.
  - by apply touch_ok.
  - unfold ensureStorageUsageLocked. case_goal; [done|]. destruct usage as [[b n]|]; [|done]. destruct Hc. split; frame.
  - unfold adjustStorageUsage. case_goal; [done|]. case_goal; [done|]. destruct Hc. split; frame.
  - destruct Hc. split; frame.
  - destruct Hc. split; frame.
Qed.

Lemma run_ok iterate order now ops : (∀ m, iterate m ≡ₚ map_to_list m) → (∀ ds, order ds ≡ₚ elements ds) →
  cacheOk (fold_left (runOp iterate order) ops (newPublicProxyCache now)).
Proof using CL.
  intros Hit Ho. assert (H : ∀ c, cacheOk c → cacheOk (fold_left (runOp iterate order) ops c)); [|apply H, new_ok].
  induction ops as [|op ops IH]; intros c Hc; simpl; [done|]. by apply IH, runOp_ok.
Qed.

(** After every sequence of operations, with any settings: the bytes counted for the
    copies in memory are the sum of their lengths and within the budget, the index holds at
    most the configured number of entries, and the known misses, of which there are at most
    4096, and no more than the index has room for, are exactly those in the list that orders
    them. *)
Theorem cache_memory_bounded iterate order now ops :
  (∀ m, iterate m ≡ₚ map_to_list m) → (∀ ds, order ds ≡ₚ elements ds) →
  let c := fold_left (runOp iterate order) ops (newPublicProxyCache now) in
  c.(memoryBytes) = bodyBytes c.(memoryEntries) ∧ c.(memoryBytes) ≤ Z.max 0 c.(settings).(MaxMemoryBytes) ∧
  Z.of_nat (size c.(indexEntries)) ≤ maxIndexEntriesLocked c ∧
  Z.of_nat (size c.(negativeLookups)) ≤ maxPublicCacheNegativeLookups ∧
  Z.of_nat (size c.(indexEntries)) + Z.of_nat (size c.(negativeLookups)) ≤ maxIndexEntriesLocked c ∧
  (∀ d e, c.(negativeLookups) !! d = Some e ↔ e ∈ c.(negativeOrder) ∧ e.(digest) = d).
Proof using CL.
  intros Hit Ho c. destruct (run_ok iterate order now ops Hit Ho) as [Hi Hs [Hn Hb] Hm Hbud _]. fold c in Hi, Hs, Hn, Hb, Hm, Hbud.
  split_and!; [apply Hm|done|done| | |apply (ng_map _ Hn)].
  - pose proof (limit_nonneg c). lia.
  - unfold negativeLookupLimitLocked in Hb. repeat case_hyp Hb; bprop; lia.
Qed.

(** The digests of the entries a set of digests stands for. *)
Lemma omap_digests (entries : gmap string publicCacheIndexEntry) keys :
  (∀ d, d ∈ keys → ∃ ie, entries !! d = Some ie ∧ ie.(entry).(KeyDigest) = d) →
  map KeyDigest (omap (λ key, entry <$> entries !! key) keys) = keys.
Proof.
  induction keys as [|d keys IH]; intros Hk; [done|]. destruct (Hk d) as (ie & Hie & Hd); [by left|].
  assert (E : omap (λ key, entry <$> entries !! key) (d :: keys) = ie.(entry) :: omap (λ key, entry <$> entries !! key) keys)
    by (cbn; by rewrite Hie).
  rewrite E. cbn [map]. rewrite Hd. f_equal. apply IH. intros d' Hd'. apply Hk. by right.
Qed.

Lemma digests_nodup (P : publicCacheIndexEntry → Prop) `{∀ x, Decision (P x)} (l : list (string * publicCacheIndexEntry)) :
  NoDup l.*1 → (∀ d ie, (d, ie) ∈ l → ie.(entry).(KeyDigest) = d) → NoDup (KeyDigest <$> map entry (filter P (map snd l))).
Proof.
  induction l as [|[d ie] l IH]; intros Hnd Hk; simpl in *; [constructor|]. apply NoDup_cons in Hnd as [Hd Hnd]. rewrite filter_cons.
  assert (Hrest : NoDup (KeyDigest <$> map entry (filter P (map snd l)))) by (apply IH; [done|]; intros d' ie' Hin; apply Hk; by right).
  case_decide; [|done]. simpl. constructor; [|done]. intros Hin. apply Hd.
  apply list_elem_of_fmap in Hin as (x & Ex & Hx). apply list_elem_of_fmap in Hx as (ie' & -> & Hie').
  apply list_elem_of_filter in Hie' as [_ Hie']. apply list_elem_of_fmap in Hie' as ([d' ie''] & -> & Hp).
  apply list_elem_of_fmap. exists (d', ie''). split; [|done]. simpl in *.
  rewrite <-(Hk d' ie'') by (by right). rewrite <-Ex. symmetry. apply Hk. by left.
Qed.

(** After every sequence of operations a lookup under the current configuration returns
    exactly the indexed entries of its key, each once; with none indexed, it says so exactly
    when a miss of the key is on record and has not expired.  Under another generation or
    another configuration it tells nothing. *)
Theorem cache_lookup_exact iterate order now ops lk t g fingerprint :
  (∀ m, iterate m ≡ₚ map_to_list m) → (∀ ds, order ds ≡ₚ elements ds) →
  let c := fold_left (runOp iterate order) ops (newPublicProxyCache now) in
  let '(candidates, loaded) := (lookupIndexedCandidates order c lk t g fingerprint).2 in
  let indexed := filter (λ ie, publicCacheLookupKeyFromEntry ie.(entry) = lk) (map snd (map_to_list c.(indexEntries))) in
  if c.(settings).(SettingsEnabled) && (c.(generation) =? g) && String.eqb c.(lastFingerprint) fingerprint then
    candidates ≡ₚ map entry indexed ∧
    (loaded = true ↔ candidates ≠ [] ∨ ∃ e, e ∈ c.(negativeOrder) ∧ e.(digest) = lookupHash lk ∧ t < e.(expiresAt))
  else candidates = [] ∧ loaded = false.
Proof using CL.
  intros Hit Ho c. pose proof (run_ok iterate order now ops Hit Ho) as Hc. fold c in Hc. clearbody c.
  destruct (c.(settings).(SettingsEnabled) && (c.(generation) =? g) && String.eqb c.(lastFingerprint) fingerprint) eqn:E.
  2: { unfold lookupIndexedCandidates. destruct (c.(settings).(SettingsEnabled)), (c.(generation) =? g), (String.eqb c.(lastFingerprint) fingerprint); done. }
  rewrite !andb_true_iff in E. destruct E as [[He Hg%Z.eqb_eq] Hf%String.eqb_eq]. rewrite lookup_cases by done.
  pose proof (ok_index _ Hc) as [Hl Hen].
  assert (Hin : ∀ ie, ie ∈ filter (λ ie, publicCacheLookupKeyFromEntry ie.(entry) = lk) (map snd (map_to_list c.(indexEntries)))
    ↔ ∃ d, c.(indexEntries) !! d = Some ie ∧ ie.(lookupKey) = lk).
  { intros ie. rewrite list_elem_of_filter, list_elem_of_fmap. split.
    - intros (Hlk & [d x] & -> & Hd). apply elem_of_map_to_list in Hd. exists d. split; [done|]. simpl in *.
      destruct (Hen _ _ Hd) as (_ & _ & -> & _). done.
    - intros (d & Hd & Hlk). destruct (Hen _ _ Hd) as (_ & _ & Eq & _). split; [congruence|]. exists (d, ie).
      split; [done|by apply elem_of_map_to_list]. }
  destruct (c.(indexLookups) !! lk) as [ds|] eqn:Elk.
  - cbn [snd]. destruct (Hl _ _ Elk) as [Hne Hall].
    assert (Hcand : ∀ x, x ∈ omap (λ key, entry <$> c.(indexEntries) !! key) (order ds) ↔
      x ∈ map entry (filter (λ ie, publicCacheLookupKeyFromEntry ie.(entry) = lk) (map snd (map_to_list c.(indexEntries))))).
    { intros x. rewrite list_elem_of_omap, list_elem_of_fmap. setoid_rewrite Hin. setoid_rewrite Ho. setoid_rewrite elem_of_elements.
      split.
      - intros (d & Hd & Hx). destruct (Hall _ Hd) as (ie & Hie & Hlk). rewrite Hie in Hx. injection Hx as <-. exists ie. naive_solver.
      - intros (ie & -> & d & Hd & Hlk). exists d. rewrite Hd. split; [|done].
        destruct (Hen _ _ Hd) as (_ & _ & _ & ds' & Hds & Hd'). rewrite Hlk, Elk in Hds. by injection Hds as ->. }
    split; [|split; [intros _; left|done]].
    + apply NoDup_Permutation; [| |done].
      * apply (NoDup_fmap_1 KeyDigest). rewrite omap_digests by (intros d Hd; rewrite Ho, elem_of_elements in Hd;
          destruct (Hall _ Hd) as (ie & Hie & _); exists ie; split; [done|by destruct (Hen _ _ Hie) as (_ & -> & _)]).
        rewrite Ho. apply NoDup_elements.
      * apply (NoDup_fmap_1 KeyDigest). apply digests_nodup; [apply NoDup_fst_map_to_list|].
        intros d ie Hd. apply elem_of_map_to_list in Hd. by destruct (Hen _ _ Hd) as (_ & -> & _).
    + intros E0. apply Hne, set_eq. intros d. split; [|set_solver]. intros Hd. destruct (Hall _ Hd) as (ie & Hie & _).
      assert (Hx : ie.(entry) ∈ omap (λ key, entry <$> c.(indexEntries) !! key) (order ds)).
      { apply list_elem_of_omap. exists d. rewrite Ho, elem_of_elements, Hie. done. }
      rewrite E0 in Hx. by apply elem_of_nil in Hx.
  - unfold negativeLookupLoadedLocked. assert (Hnone : filter (λ ie, publicCacheLookupKeyFromEntry ie.(entry) = lk)
      (map snd (map_to_list c.(indexEntries))) = []).
    { apply elem_of_nil_inv. intros ie Hie. apply Hin in Hie as (d & Hd & Hlk). destruct (Hen _ _ Hd) as (_ & _ & _ & ds & Hds & _).
      congruence. }
    pose proof (ng_map _ (proj1 (ok_negatives _ Hc))) as Hng. rewrite Hnone.
    destruct (c.(negativeLookups) !! lookupHash lk) as [e|] eqn:En.
    + apply Hng in En as [Hi Hd]. destruct (Z.ltb_spec t e.(expiresAt)) as [Ht|Ht]; cbn; (split; [done|]).
      * split; [intros _; right; by exists e|done].
      * split; [done|]. intros [?|(e' & Hi' & Hd' & Ht')]; [done|]. exfalso.
        assert (c.(negativeLookups) !! lookupHash lk = Some e') as E1 by (by apply Hng).
        assert (c.(negativeLookups) !! lookupHash lk = Some e) as E2 by (by apply Hng). simplify_eq. lia.
    + cbn. split; [done|]. split; [done|]. intros [?|(e & Hi & Hd & Ht)]; [done|]. exfalso.
      assert (c.(negativeLookups) !! lookupHash lk = Some e) as E1 by (by apply Hng). congruence.
Qed.
End invariant.

(** ** Examples and witnesses *)

#[export] Instance exampleLookup : LookupCodec := {| lookupHash lk := (lk.(LookupHost) ++ lk.(LookupPath) ++ "?" ++ lk.(LookupQueryKey))%string |}.

Definition exampleSettings : publicCacheSettingsConfig := mkSettings true 1000 4 3 2 minute 0 0.
Definition exampleFingerprint : string := publicCacheRuntimeFingerprint exampleSettings [].
Definition exampleEntry (d path : string) (storedAt : Z) : PublicCacheEntry :=
  mkEntry d 4 publicCacheScopeRoute "https" "example.com" path "" (Some 7) None "GET" ["Accept-Encoding"] ∅ 200
    d 3 storedAt (storedAt + minute) storedAt 0.
Definition exampleKey (path : string) : publicCacheLookupKey := publicCacheLookupKeyFromEntry (exampleEntry "" path 0).
Definition exampleOps : list cacheOp :=
  [OpReconcile exampleSettings []; OpPutIndex (exampleEntry "d1" "/a" 10) 10; OpPutMemory "d1" 10 11 [Byte.x61; Byte.x62; Byte.x63];
   OpPutIndex (exampleEntry "d2" "/a" 12) 12; OpPutMemory "d2" 12 13 [Byte.x64; Byte.x65];
   OpStore (λ _, 14) (exampleKey "/b") [] 14 1 exampleFingerprint; OpTouch "d1" 10 20; OpDeleteEntry "d2";
   OpStore (λ _, 30) (exampleKey "/b") [] 30 1 exampleFingerprint].
Definition exampleCache : publicProxyCache := fold_left (runOp map_to_list elements) exampleOps (newPublicProxyCache 0).

(** The full index leaves no room for a miss; the second copy evicted the first. *)
Example exampleCache_end : (size exampleCache.(indexEntries), size exampleCache.(negativeLookups), exampleCache.(memoryBytes),
    (lookupIndexedCandidates elements exampleCache (exampleKey "/b") 40 1 exampleFingerprint).2) = (1%nat, 1%nat, 0, ([], true)).
Proof. vm_compute. reflexivity. Qed.

Lemma cache_memory_bounded_witness : Z.of_nat (size exampleCache.(indexEntries)) + Z.of_nat (size exampleCache.(negativeLookups))
  ≤ maxIndexEntriesLocked exampleCache.
Proof.
  exact (proj1 (proj2 (proj2 (proj2 (proj2 (cache_memory_bounded map_to_list elements 0 exampleOps (λ _, reflexivity _) (λ _, reflexivity _))))))).
Defined.

Lemma cache_lookup_exact_witness : [touched (exampleEntry "d1" "/a" 10) 20 1] ≡ₚ
  map entry (filter (λ ie, publicCacheLookupKeyFromEntry ie.(entry) = exampleKey "/a") (map snd (map_to_list exampleCache.(indexEntries)))).
Proof.
  pose proof (cache_lookup_exact map_to_list elements 0 exampleOps (exampleKey "/a") 40 1 exampleFingerprint (λ _, reflexivity _) (λ _, reflexivity _)) as T.
  cbv zeta in T. unfold exampleCache. set (c := fold_left _ _ _) in *.
  assert (E : (lookupIndexedCandidates elements c (exampleKey "/a") 40 1 exampleFingerprint).2
    = ([touched (exampleEntry "d1" "/a" 10) 20 1], true)) by (vm_compute; reflexivity).
  assert (C : c.(settings).(SettingsEnabled) && (c.(generation) =? 1) && String.eqb c.(lastFingerprint) exampleFingerprint = true)
    by (vm_compute; reflexivity).
  rewrite E in T. rewrite C in T. exact (proj1 T).
Defined.
End CacheIndex.
