(* ===== verification/CacheStore.v ===== *)
(** The stored part of the response cache (internal/server/public_cache.go and the queries
    of internal/db/query.sql.go it uses): the table of entries, the body files, the lookup
    of a request, the capture of a response while it is relayed, its commit, hits,
    invalidation, cleanup and purges (their interleaving is in CacheWorld.v).

    The table is a map by digest, the file system a map from paths to contents.  A temporary
    file is the content its reader holds.  Errors of the database and of the file system are
    arguments.  A commit, a hit and the operations that take the store gate exclusively are
    atomic with respect to each other: a commit and a hit hold the fence of their digest, the
    others exclude both.  Lookups take no fence, so their reads of the index, their reads of
    the table and their writes to the index are separate steps. *)

From S2P Require Import Prelude.
From S2P Require Import GoStrings.
From S2P Require Import ClientIdentity.
From S2P Require Import WafCookies.
From S2P Require Import RateLimiter.
From S2P Require Import TargetHealth.
From S2P Require Import Routing.
From S2P Require Import PathSecurity.
From S2P Require Import CacheRules.
From S2P Require Import CacheIndex.
From Stdlib Require Import Ascii.

Module CacheStore.
Import CacheRules.
Import CacheIndex.

(** ** Constants and data *)

Definition publicCacheStatusHit := "hit".
Definition publicCacheStatusMiss := "miss".
Definition publicCacheStatusBypass := "bypass".
Definition publicCacheStatusStored := "stored".
Definition publicCacheStatusStoreFailed := "store_failed".
Definition publicPolicyMatchFailureErrorKind := "policy_match_failed".

Record publicCacheDecision := mkDecision {
  DecisionRule : option publicCacheRuleConfig;
  Status : string;
  DecisionKeyDigest : string;
  DecisionQueryKey : string;
  DecisionHost : string;
  DecisionPath : string;
  DecisionRouteID : option Z;
  DecisionRouteTargetID : option Z;
  Entry : option PublicCacheEntry;
  BypassReason : string;
  CookieRequest : bool;
  Cacheable : bool;
  cacheGeneration : Z;
  cacheFingerprint : string;
  cacheCurrent : bool }.

(** The table and the files. *)
Record store := mkStore {
  cache : publicProxyCache;
  rows : gmap string PublicCacheEntry;
  files : gmap string (list Byte.byte) }.

(** ** The queries

    Times are compared as instants.  The table holds them as text, written by the driver in
    the zone of the server with a fraction of any length before the offset; the order of
    these texts is that of the instants as long as the offset of the zone does not change. *)

Definition DeleteExpiredPublicCacheEntries (rows : gmap string PublicCacheEntry) (now : Z)
    : gmap string PublicCacheEntry * gmap string PublicCacheEntry :=
  (filter (λ kv, ¬ kv.2.(ExpiresAt) ≤ now) rows, filter (λ kv, kv.2.(ExpiresAt) ≤ now) rows).
Definition DeletePublicCacheEntry (rows : gmap string PublicCacheEntry) (d : string) : gmap string PublicCacheEntry := delete d rows.
Definition DeletePublicCacheEntryGeneration (rows : gmap string PublicCacheEntry) (d : string) (storedAt : Z)
    : gmap string PublicCacheEntry * Z :=
  match rows !! d with
  | Some e => if e.(StoredAt) =? storedAt then (delete d rows, 1) else (rows, 0)
  | None => (rows, 0)
  end.

Definition storedDesc (x y : PublicCacheEntry) : bool := y.(StoredAt) <=? x.(StoredAt).
Definition accessAsc (x y : PublicCacheEntry) : bool := x.(LastAccessedAt) <=? y.(LastAccessedAt).

(** [scan] is the order in which the table is read. *)
Definition ListPublicCacheEntryCandidates (scan : gmap string PublicCacheEntry → list PublicCacheEntry)
    (rows : gmap string PublicCacheEntry) (lk : publicCacheLookupKey) (now : Z) : list PublicCacheEntry :=
  take 20 (ClientIdentity.sortBy storedDesc
             (filter (λ e, publicCacheLookupKeyFromEntry e = lk ∧ now < e.(ExpiresAt)) (scan rows))).
Definition ListPublicCacheEntriesForCleanup (scan : gmap string PublicCacheEntry → list PublicCacheEntry)
    (rows : gmap string PublicCacheEntry) (limit : nat) : list PublicCacheEntry :=
  take limit (ClientIdentity.sortBy accessAsc (scan rows)).

Definition PurgePublicCacheEntriesByRule (rows : gmap string PublicCacheEntry) (ruleID : Z)
    : gmap string PublicCacheEntry * gmap string PublicCacheEntry :=
  (filter (λ kv, kv.2.(RuleID) ≠ ruleID) rows, filter (λ kv, kv.2.(RuleID) = ruleID) rows).

(** The statement that deletes a rule.  The foreign key of the entries cascades (ON DELETE
    CASCADE, with foreign keys on), so the rows of the rule go with it; the statement does not
    report them, so neither the index, the copies and files nor the counters follow. *)
Definition DeletePublicCacheRule (rows : gmap string PublicCacheEntry) (ruleID : Z) : gmap string PublicCacheEntry :=
  filter (λ kv, kv.2.(RuleID) ≠ ruleID) rows.

(** LIKE of SQLite on ASCII text: the percent sign stands for any text, the underscore for
    a character, and letters match in either case. *)
Fixpoint sqlLike (pattern s : string) : bool :=
  match pattern with
  | EmptyString => String.eqb s ""
  | String p pattern =>
      if Ascii.eqb p "%" then
        (fix anywhere (s : string) : bool :=
           sqlLike pattern s || match s with EmptyString => false | String _ s => anywhere s end) s
      else match s with
           | EmptyString => false
           | String c s => (Ascii.eqb p "_" || Ascii.eqb (toLower p) (toLower c)) && sqlLike pattern s
           end
  end.
Definition purgedByHostPath (host pathPrefix : string) (e : PublicCacheEntry) : bool :=
  (String.eqb host "" || String.eqb e.(EntryHost) host)
  && (String.eqb pathPrefix "" || sqlLike (pathPrefix ++ "%") e.(EntryPath)).
Definition PurgePublicCacheEntriesByHostPath (rows : gmap string PublicCacheEntry) (host pathPrefix : string)
    : gmap string PublicCacheEntry * gmap string PublicCacheEntry :=
  (filter (λ kv, purgedByHostPath host pathPrefix kv.2 = false) rows, filter (λ kv, purgedByHostPath host pathPrefix kv.2 = true) rows).

Definition rowBytes (rows : gmap string PublicCacheEntry) : Z := msum (SizeBytes <$> rows).
Definition SumPublicCacheBytes (rows : gmap string PublicCacheEntry) : Z * Z := (rowBytes rows, Z.of_nat (size rows)).

Definition TouchPublicCacheEntry (rows : gmap string PublicCacheEntry) (d : string) (storedAt lastAccessedAt hitCount : Z)
    : gmap string PublicCacheEntry :=
  match rows !! d with
  | Some e => if e.(StoredAt) =? storedAt then <[d := touched e lastAccessedAt hitCount]> rows else rows
  | None => rows
  end.

(** ** Removal *)

Definition totalSize (removed : gmap string PublicCacheEntry) : Z := rowBytes removed.

(** The loops over removed rows: each forgotten and its file removed where the file system
    lets it ([removable]); the usage is adjusted once. *)
Definition removeBodies (removable : string → bool) (c : publicProxyCache) (files : gmap string (list Byte.byte))
    (removed : list PublicCacheEntry) : publicProxyCache * gmap string (list Byte.byte) :=
  fold_left (λ cf e, (deleteEntry cf.1 e.(KeyDigest), if removable e.(BodyPath) then delete e.(BodyPath) cf.2 else cf.2))
    removed (c, files).
Definition removeCacheBodies (scan : gmap string PublicCacheEntry → list PublicCacheEntry) (removable : string → bool) (st : store)
    (kept removed : gmap string PublicCacheEntry) : store :=
  let '(c, files) := removeBodies removable st.(cache) st.(files) (scan removed) in
  mkStore (adjustStorageUsage c (- totalSize removed) (- Z.of_nat (size removed))) kept files.

Definition invalidatePublicCacheEntry (removable : string → bool) (dbOK : bool) (st : store) (e : PublicCacheEntry) : store :=
  if String.eqb e.(KeyDigest) "" || is_zero_time e.(StoredAt) || negb dbOK then st
  else
    let '(rows, deleted) := DeletePublicCacheEntryGeneration st.(rows) e.(KeyDigest) e.(StoredAt) in
    let c := deleteEntryGeneration st.(cache) e.(KeyDigest) e.(StoredAt) in
    if deleted =? 0 then mkStore c rows st.(files)
    else
      let c := adjustStorageUsage c (- e.(SizeBytes)) (-1) in
      mkStore c rows (if negb (String.eqb e.(BodyPath) "") && removable e.(BodyPath) then delete e.(BodyPath) st.(files) else st.(files)).

(** ** Cleanup *)

Definition overLimits (s : publicCacheSettingsConfig) (totalBytes entryCount : Z) : bool :=
  ((0 <? s.(MaxDiskBytes)) && (s.(MaxDiskBytes) <? totalBytes)) || ((0 <? s.(MaxEntries)) && (s.(MaxEntries) <? entryCount)).

(** One round over the least recently used rows; [deleteOK] says whether the statement of a
    row succeeds. *)
Fixpoint evictRound (removable deleteOK : string → bool) (s : publicCacheSettingsConfig) (st : store) (totalBytes entryCount : Z)
    (victims : list PublicCacheEntry) : store * (Z * Z) :=
  match victims with
  | [] => (st, (totalBytes, entryCount))
  | e :: victims =>
      if negb (deleteOK e.(KeyDigest)) then evictRound removable deleteOK s st totalBytes entryCount victims
      else
        let c := adjustStorageUsage (deleteEntry st.(cache) e.(KeyDigest)) (- e.(SizeBytes)) (-1) in
        let st := mkStore c (DeletePublicCacheEntry st.(rows) e.(KeyDigest))
                    (if removable e.(BodyPath) then delete e.(BodyPath) st.(files) else st.(files)) in
        let totalBytes := totalBytes - e.(SizeBytes) in
        let entryCount := entryCount - 1 in
        if negb (overLimits s totalBytes entryCount) then (st, (totalBytes, entryCount))
        else evictRound removable deleteOK s st totalBytes entryCount victims
  end.

(** The loop; [None] when the fuel ran out. *)
Fixpoint evictLoop (scan : gmap string PublicCacheEntry → list PublicCacheEntry) (removable deleteOK : string → bool)
    (listOK : bool) (s : publicCacheSettingsConfig) (fuel : nat) (st : store) (totalBytes entryCount : Z) : option store :=
  match fuel with
  | O => None
  | S fuel =>
      if negb (overLimits s totalBytes entryCount) then Some st
      else match (if listOK then ListPublicCacheEntriesForCleanup scan st.(rows) 100 else []) with
           | [] => Some st
           | victims =>
               let '(st, (totalBytes, entryCount)) := evictRound removable deleteOK s st totalBytes entryCount victims in
               evictLoop scan removable deleteOK listOK s fuel st totalBytes entryCount
           end
  end.

Definition cleanupInterval (s : publicCacheSettingsConfig) : Z :=
  if s.(CleanupInterval) <=? 0 then defaultPublicCacheCleanupIntervalMillis * millisecond else s.(CleanupInterval).

Definition maybeCleanup (scan : gmap string PublicCacheEntry → list PublicCacheEntry) (removable deleteOK : string → bool)
    (sumOK expireOK listOK : bool) (fuel : nat) (st : store) (now : Z) : option store :=
  let c := st.(cache) in
  if negb (is_zero_time c.(lastCleanup)) && (time_sub now c.(lastCleanup) <? cleanupInterval c.(settings)) then Some st
  else
    let s := c.(settings) in
    let '(c, ok) := ensureStorageUsageLocked (withCleanup c now) (if sumOK then Some (SumPublicCacheBytes st.(rows)) else None) in
    let st := mkStore c st.(rows) st.(files) in
    if negb ok then Some st
    else
      let st := if expireOK then let '(kept, removed) := DeleteExpiredPublicCacheEntries st.(rows) now in
                                 removeCacheBodies scan removable st kept removed else st in
      evictLoop scan removable deleteOK listOK s fuel st st.(cache).(storedBodyBytes) st.(cache).(storedEntryCount).

(** ** Purges *)

Definition purgePublicCacheEntriesByRuleID scan removable (dbOK : bool) (st : store) (ruleID : Z) : store :=
  if (ruleID <=? 0) || negb dbOK then st
  else let '(kept, removed) := PurgePublicCacheEntriesByRule st.(rows) ruleID in removeCacheBodies scan removable st kept removed.

(** The handler that deletes a rule, past the check of the role and up to the refresh of the
    snapshot: nothing holds the gate between its purge and its statement. *)
Definition deletePublicCacheRule scan removable (purgeOK deleteOK : bool) (st : store) (ruleID : Z) : store :=
  let st := mkStore (invalidateConfiguration st.(cache)) st.(rows) st.(files) in
  let purged := purgePublicCacheEntriesByRuleID scan removable purgeOK st ruleID in
  if negb purgeOK || negb deleteOK then purged
  else mkStore purged.(cache) (DeletePublicCacheRule purged.(rows) ruleID) purged.(files).

Inductive purgeRequest := PurgeAll | PurgeRule (ruleID : Z) | PurgeHostPath (host pathPrefix : string).
Inductive purgeResult := Purged (entries bytes : Z) | PurgeInvalid | PurgeDBError.

(** The request has [All], else a positive rule, else a host and a path prefix. *)
Definition PurgePublicCache scan removable (dbOK : bool) (st : store) (req : purgeRequest) : store * purgeResult :=
  let purge (kept removed : gmap string PublicCacheEntry) :=
    let st := mkStore (invalidateEntriesLocked st.(cache)) st.(rows) st.(files) in
    if negb dbOK then (st, PurgeDBError)
    else (removeCacheBodies scan removable st kept removed, Purged (Z.of_nat (size removed)) (totalSize removed)) in
  match req with
  | PurgeAll => purge ∅ st.(rows)
  | PurgeRule ruleID => let '(kept, removed) := PurgePublicCacheEntriesByRule st.(rows) ruleID in purge kept removed
  | PurgeHostPath host pathPrefix =>
      let host := WafCookies.normalizeRequestHost host in
      let pathPrefix := TrimSpace pathPrefix in
      if String.eqb host "" && String.eqb pathPrefix "" then (st, PurgeInvalid)
      else if negb (String.eqb pathPrefix "") && negb (HasPrefix pathPrefix "/") then (st, PurgeInvalid)
      else let '(kept, removed) := PurgePublicCacheEntriesByHostPath st.(rows) host pathPrefix in purge kept removed
  end.
(** ** Decisions *)

Record cacheSnapshot := mkCacheSnapshot {
  SnapSettings : publicCacheSettingsConfig;
  SnapRules : list publicCacheRuleConfig;
  SnapFingerprint : string }.

Definition noDecision : publicCacheDecision := mkDecision None "" "" "" "" "" None None None "" false false 0 "" false.
Definition withDecisionStatus (d : publicCacheDecision) (status reason : string) : publicCacheDecision :=
  mkDecision d.(DecisionRule) status d.(DecisionKeyDigest) d.(DecisionQueryKey) d.(DecisionHost) d.(DecisionPath) d.(DecisionRouteID)
    d.(DecisionRouteTargetID) d.(Entry) reason d.(CookieRequest) d.(Cacheable) d.(cacheGeneration) d.(cacheFingerprint) d.(cacheCurrent).
Definition withDecisionEntry (d : publicCacheDecision) (status digest : string) (e : option PublicCacheEntry) : publicCacheDecision :=
  mkDecision d.(DecisionRule) status digest d.(DecisionQueryKey) d.(DecisionHost) d.(DecisionPath) d.(DecisionRouteID)
    d.(DecisionRouteTargetID) e d.(BypassReason) d.(CookieRequest) d.(Cacheable) d.(cacheGeneration) d.(cacheFingerprint) d.(cacheCurrent).

(** The column of the route, and of the target. *)
Definition resolvedRouteID (resolution : cacheResolution) : option Z :=
  match resolution.(ResRouteID) with
  | Some id => Some id
  | None => if resolution.(Route).(Routing.RouteID) =? 0 then None else Some resolution.(Route).(Routing.RouteID)
  end.
Definition resolvedTargetID (resolution : cacheResolution) : option Z :=
  match resolution.(ResRouteTargetID) with
  | Some id => Some id
  | None => if resolution.(ResTargetID) =? 0 then None else Some resolution.(ResTargetID)
  end.

Definition publicCacheBaseDecision (r : cacheRequest) (resolution : cacheResolution) : publicCacheDecision :=
  let path := r.(paths).(PathSecurity.URLEscapedPath) in
  mkDecision None "" "" "" (WafCookies.normalizeRequestHost r.(base).(ClientIdentity.Host)) (if String.eqb path "" then "/" else path)
    (resolvedRouteID resolution) (resolvedTargetID resolution) None "" (publicRequestHasHeaderField r.(base) "Cookie") false 0 "" false.

Definition publicCacheLookupKeyFromDecision (rule : publicCacheRuleConfig) (resolution : cacheResolution) (d : publicCacheDecision)
    (queryKey : string) : publicCacheLookupKey :=
  mkLookupKey rule.(ID) resolution.(Listener).(WafCookies.Protocol) d.(DecisionHost) d.(DecisionPath) queryKey
    (default 0 d.(DecisionRouteID)) (default 0 d.(DecisionRouteTargetID)).

Section cached.
Context {CC : CacheCodec} {LC : LookupCodec}.

Definition publicCacheSnapshotFingerprint (snap : cacheSnapshot) : string :=
  if negb (String.eqb snap.(SnapFingerprint) "") then snap.(SnapFingerprint)
  else publicCacheRuntimeFingerprint snap.(SnapSettings) snap.(SnapRules).

(** The part of the check before the lookup: a bypass, or the rule and the query key to look
    up with. *)
Inductive gateResult := Bypassed (d : publicCacheDecision) | Proceed (rule : publicCacheRuleConfig) (queryKey : string) (d : publicCacheDecision).

Definition cacheGate (snap : cacheSnapshot) (c : publicProxyCache) (r : cacheRequest) (resolution : cacheResolution) : gateResult :=
  if negb (String.eqb resolution.(ResTargetType) TargetHealth.publicRouteTargetTypeProxy) then
    Bypassed (withDecisionStatus noDecision publicCacheStatusBypass "target_not_proxy")
  else if negb snap.(SnapSettings).(SettingsEnabled) || (length snap.(SnapRules) =? 0)%nat then
    Bypassed (withDecisionStatus noDecision publicCacheStatusBypass "cache_disabled")
  else
    let d := publicCacheBaseDecision r resolution in
    let reason := publicCacheRequestBypassReason r in
    if 0 <? resolution.(Route).(Routing.AccessPolicyID) then Bypassed (withDecisionStatus d publicCacheStatusBypass "access_control")
    else if negb (String.eqb reason "") then Bypassed (withDecisionStatus d publicCacheStatusBypass reason)
    else if PathSecurity.publicRouteAllowsEncodedPathSeparators resolution.(Route)
            && PathSecurity.publicRequestHasEncodedPathSeparator r.(paths) then
      Bypassed (withDecisionStatus d publicCacheStatusBypass "encoded_path")
    else match selectPublicCacheRule snap.(SnapRules) resolution.(Listener) r resolution with
         | RuleError => Bypassed (withDecisionStatus d publicCacheStatusBypass publicPolicyMatchFailureErrorKind)
         | NoRule => Bypassed (withDecisionStatus d publicCacheStatusBypass "no_rule")
         | RuleSelected rule =>
             let fingerprint := publicCacheSnapshotFingerprint snap in
             let '(g, current) := captureGeneration c fingerprint in
             let target := if String.eqb rule.(Scope) publicCacheScopeRoute then None else d.(DecisionRouteTargetID) in
             let queryKey := publicCacheQueryKey r rule in
             let d := mkDecision (Some rule) "" "" (default "" queryKey) d.(DecisionHost) d.(DecisionPath) d.(DecisionRouteID) target
                        None "" d.(CookieRequest) true g fingerprint current in
             match queryKey with
             | None => Bypassed (withDecisionStatus d publicCacheStatusBypass "invalid_query")
             | Some queryKey => Proceed rule queryKey d
             end
         end.

(** The walk over the candidates: those that turn out expired, and the first that answers. *)
Fixpoint scanCandidates (r : cacheRequest) (resolution : cacheResolution) (rule : publicCacheRuleConfig) (queryKey : string)
    (now : Z) (candidates : list PublicCacheEntry) : list PublicCacheEntry * option PublicCacheEntry :=
  match candidates with
  | [] => ([], None)
  | e :: candidates =>
      if negb (String.eqb (publicCacheKeyDigest r resolution rule queryKey e.(VaryHeadersJson)) e.(KeyDigest)) then
        scanCandidates r resolution rule queryKey now candidates
      else if negb (now <? e.(ExpiresAt)) then
        let '(expired, hit) := scanCandidates r resolution rule queryKey now candidates in (e :: expired, hit)
      else ([], Some e)
  end.

(** What the runtime and the environment do during a check. *)
Record lookupEnv := mkLookupEnv {
  envOrder : gset string → list string;
  envScan : gmap string PublicCacheEntry → list PublicCacheEntry;
  envRemovable : string → bool;
  envDeleteOK : string → bool;
  envSumOK : bool;
  envExpireOK : bool;
  envListOK : bool;
  envCandidatesOK : bool;
  envInvalidateOK : bool;
  envClock : nat → Z;
  envCleanupAt : Z;
  envNow : Z }.

Definition withCache (st : store) (c : publicProxyCache) : store := mkStore c st.(rows) st.(files).

(** [None]: the cleanup ran out of fuel. *)
Definition checkPublicCacheWithSnapshot (env : lookupEnv) (fuel : nat) (snap : cacheSnapshot) (st : store) (r : cacheRequest)
    (resolution : cacheResolution) : option (store * publicCacheDecision) :=
  match cacheGate snap st.(cache) r resolution with
  | Bypassed d => Some (st, d)
  | Proceed rule queryKey d =>
      match maybeCleanup env.(envScan) env.(envRemovable) env.(envDeleteOK) env.(envSumOK) env.(envExpireOK) env.(envListOK) fuel st
              env.(envCleanupAt) with
      | None => None
      | Some st =>
          let now := env.(envNow) in
          let lk := publicCacheLookupKeyFromDecision rule resolution d queryKey in
          let '(c, (candidates, loaded)) :=
            lookupIndexedCandidates env.(envOrder) st.(cache) lk now d.(cacheGeneration) d.(cacheFingerprint) in
          let st := withCache st c in
          if negb loaded && negb env.(envCandidatesOK) then Some (st, withDecisionEntry d publicCacheStatusMiss "" None)
          else
            let '(st, candidates) :=
              if loaded then (st, candidates)
              else let candidates := ListPublicCacheEntryCandidates env.(envScan) st.(rows) lk now in
                   (withCache st (storeIndexedCandidates env.(envClock) st.(cache) lk candidates now d.(cacheGeneration)
                      d.(cacheFingerprint)), candidates) in
            let '(expired, hit) := scanCandidates r resolution rule queryKey now candidates in
            let st := fold_left (invalidatePublicCacheEntry env.(envRemovable) env.(envInvalidateOK)) expired st in
            match hit with
            | Some e =>
                Some (withCache st (touchIndexedEntry st.(cache) e.(KeyDigest) e.(StoredAt) now),
                      withDecisionEntry d publicCacheStatusHit e.(KeyDigest) (Some e))
            | None =>
                Some (st, withDecisionEntry d publicCacheStatusMiss (publicCacheKeyDigest r resolution rule queryKey rule.(VaryHeaders)) None)
            end
      end
  end.
(** ** Hits *)

(** The answer of the fenced part: an error, after which the entry may have to be
    invalidated; nothing to open; or the body. *)
Inductive openResult := OpenFailed (invalidate : bool) | OpenedNoBody | OpenedBody (body : list Byte.byte).

Definition openFenced (dbOK fileOK : bool) (now : Z) (st : store) (e : PublicCacheEntry) (openBody : bool) : store * openResult :=
  if String.eqb e.(KeyDigest) "" || negb dbOK then (st, OpenFailed false)
  else match st.(rows) !! e.(KeyDigest) with
       | None => (st, OpenFailed true)
       | Some current =>
           if negb (current.(StoredAt) =? e.(StoredAt)) then (st, OpenFailed true)
           else if negb openBody then (st, OpenedNoBody)
           else
             let '(c, body) := getMemory st.(cache) e.(KeyDigest) e.(StoredAt) now in
             let st := withCache st c in
             if (0 <? length body)%nat then (st, OpenedBody body)
             else match (if fileOK then st.(files) !! e.(BodyPath) else None) with
                  | Some body => (st, OpenedBody body)
                  | None => (st, OpenFailed true)
                  end
       end.

Definition openCurrentPublicCacheHit (removable : string → bool) (dbOK fileOK invalidateOK : bool) (now : Z) (st : store)
    (e : PublicCacheEntry) (openBody : bool) : store * openResult :=
  match openFenced dbOK fileOK now st e openBody with
  | (st, OpenFailed true) => (invalidatePublicCacheEntry removable invalidateOK st e, OpenFailed true)
  | res => res
  end.

(** Whether the body of an answer to the request is needed. *)
Definition needsBody (r : cacheRequest) (e : PublicCacheEntry) : bool :=
  negb (String.eqb r.(base).(ClientIdentity.Method) "HEAD" || (e.(SizeBytes) =? 0)).

(** [None]: the hit cannot be served. *)
Definition preparePublicCacheHitBody (removable : string → bool) (dbOK fileOK invalidateOK : bool) (now : Z) (st : store)
    (r : cacheRequest) (d : publicCacheDecision) : store * option (option (list Byte.byte)) :=
  match d.(Entry) with
  | None => (st, None)
  | Some e =>
      let '(st, res) := openCurrentPublicCacheHit removable dbOK fileOK invalidateOK now st e (needsBody r e) in
      (st, match res with OpenFailed _ => None | OpenedNoBody => Some None | OpenedBody body => Some (Some body) end)
  end.

(** The answer of a hit: status, headers and body. *)
Record servedHit := mkServed {
  servedStatus : Z;
  servedHeaders : gmap string (list string);
  servedBody : list Byte.byte }.

(** [fields]: the stored headers in the order they are walked; [age]: the whole seconds since
    the entry was stored.  The body is the one that [preparePublicCacheHitBody] opened. *)
Definition servePublicCacheHit (fields : gmap string (list string) → list (string * list string)) (age : Z) (d : publicCacheDecision)
    (hitBody : option (list Byte.byte)) : option servedHit :=
  match d.(Entry) with
  | None => None
  | Some e =>
      let h := fold_left (λ h kv, fold_left (λ h v, addHeader h kv.1 v) kv.2 h) (fields (publicCacheHeadersFromJSON e.(ResponseHeadersJson))) ∅ in
      let h := <["Age" := [FormatInt (Z.max 0 age)]]> h in
      let h := match d.(DecisionRule) with
               | Some rule => if rule.(AddCacheStatusHeader) then <[RateLimiter.canonicalHeaderKey "X-p2pstream-Cache" := ["HIT"]]> h else h
               | None => h end in
      Some (mkServed e.(EntryStatusCode) h (default [] hitBody))
  end.

(** The lookup stage: the check, and a hit that cannot be opened is a miss. *)
Definition cacheLookupStage (env : lookupEnv) (fuel : nat) (dbOK fileOK : bool) (openAt : Z) (snap : cacheSnapshot) (st : store)
    (r : cacheRequest) (resolution : cacheResolution) : option (store * publicCacheDecision * option (list Byte.byte)) :=
  match checkPublicCacheWithSnapshot env fuel snap st r resolution with
  | None => None
  | Some (st, d) =>
      if String.eqb d.(Status) publicCacheStatusHit then
        match preparePublicCacheHitBody env.(envRemovable) dbOK fileOK env.(envInvalidateOK) openAt st r d with
        | (st, None) => Some (st, withDecisionEntry d publicCacheStatusMiss d.(DecisionKeyDigest) None, None)
        | (st, Some body) => Some (st, d, body)
        end
      else Some (st, d, None)
  end.

(** ** Capture *)

Record publicCacheStoreReadCloser := mkReader {
  tmp : list Byte.byte;
  finalPath : string;
  decision : publicCacheDecision;
  rule : publicCacheRuleConfig;
  keyDigest : string;
  resolution : cacheResolution;
  requestHost : string;
  requestPath : string;
  readerQueryKey : string;
  readerStatusCode : Z;
  headersJSON : gmap string (list string);
  varyJSON : list string;
  maxBytes : Z;
  readerExpiresAt : Z;
  memoryBuffer : option (list Byte.byte);
  memoryHotObjectMaxBytes : Z;
  readerGeneration : Z;
  readerFingerprint : string;
  bytesWritten : Z;
  tooLarge : bool;
  committed : bool;
  closed : bool }.

Definition shard (d : string) (from : nat) : string := if (4 <=? String.length d)%nat then String.substring from 2 d else "00".
Definition bodyPath (dir d : string) : string := dir ++ "/" ++ shard d 0 ++ "/" ++ shard d 2 ++ "/" ++ d ++ ".body".

(** [None]: the body is relayed without a copy.  [fields] are the headers in the order they
    are walked; [fsOK]: the directories and the temporary file were created. *)
Definition capturePublicCacheResponseBody (ParseTime : string → option Z) (dir : string) (fsOK : bool) (now expiresFrom : Z)
    (c : publicProxyCache) (r : cacheRequest) (resolution : cacheResolution) (d : publicCacheDecision) (resp : cacheResponse)
    (fields : list (string * list string)) : option publicCacheStoreReadCloser :=
  match d.(DecisionRule) with
  | None => None
  | Some rule =>
      if negb d.(Cacheable) || negb (String.eqb r.(base).(ClientIdentity.Method) "GET") then None
      else if negb d.(cacheCurrent) || negb (generationMatches c d.(cacheGeneration) d.(cacheFingerprint)) then None
      else match publicCacheResponseEligibility ParseTime now rule resp with
           | None => None
           | Some (ttl, varyHeaders) =>
               let digest := publicCacheKeyDigest r resolution rule d.(DecisionQueryKey) varyHeaders in
               if negb fsOK then None
               else match publicCacheHeadersJSON fields with
                    | None => None
                    | Some headers =>
                        let hot := memoryHotObjectMaxBytesSnapshot c in
                        Some (mkReader [] (bodyPath dir digest) d rule digest resolution d.(DecisionHost) d.(DecisionPath)
                          d.(DecisionQueryKey) resp.(StatusCode) headers varyHeaders rule.(MaxObjectBytes) (expiresFrom + ttl)
                          (if 0 <? hot then Some [] else None) hot d.(cacheGeneration) d.(cacheFingerprint) 0 false false false)
                    end
           end
  end.

Definition withProgress (rd : publicCacheStoreReadCloser) (content : list Byte.byte) (buffer : option (list Byte.byte)) (n : Z)
    (large : bool) : publicCacheStoreReadCloser :=
  mkReader content rd.(finalPath) rd.(decision) rd.(rule) rd.(keyDigest) rd.(resolution) rd.(requestHost) rd.(requestPath)
    rd.(readerQueryKey) rd.(readerStatusCode) rd.(headersJSON) rd.(varyJSON) rd.(maxBytes) rd.(readerExpiresAt) buffer
    rd.(memoryHotObjectMaxBytes) rd.(readerGeneration) rd.(readerFingerprint) n large rd.(committed) rd.(closed).
Definition withEnd (rd : publicCacheStoreReadCloser) (d : publicCacheDecision) (isCommitted isClosed : bool) : publicCacheStoreReadCloser :=
  mkReader rd.(tmp) rd.(finalPath) d rd.(rule) rd.(keyDigest) rd.(resolution) rd.(requestHost) rd.(requestPath)
    rd.(readerQueryKey) rd.(readerStatusCode) rd.(headersJSON) rd.(varyJSON) rd.(maxBytes) rd.(readerExpiresAt) rd.(memoryBuffer)
    rd.(memoryHotObjectMaxBytes) rd.(readerGeneration) rd.(readerFingerprint) rd.(bytesWritten) rd.(tooLarge) isCommitted isClosed.

(** A chunk that passes through; [writeOK]: the temporary file took it. *)
Definition absorb (writeOK : bool) (rd : publicCacheStoreReadCloser) (chunk : list Byte.byte) : publicCacheStoreReadCloser :=
  if (length chunk =? 0)%nat || rd.(tooLarge) then rd
  else
    let n := Z.of_nat (length chunk) in
    let written := rd.(bytesWritten) + n in
    if (0 <? rd.(maxBytes)) && (rd.(maxBytes) <? written) then withProgress rd rd.(tmp) rd.(memoryBuffer) written true
    else
      withProgress rd (if writeOK then rd.(tmp) ++ chunk else rd.(tmp))
        match rd.(memoryBuffer) with
        | Some buffer => if Z.of_nat (length buffer) + n <=? rd.(memoryHotObjectMaxBytes) then Some (buffer ++ chunk)%list else None
        | None => None
        end written (negb writeOK).

Record commitEnv := mkCommitEnv {
  getOK : bool;
  closeOK : bool;
  statOK : bool;
  linkOK : bool;
  renameOK : bool;
  upsertOK : bool;
  restoreOK : bool;
  removeOK : bool;
  retryOK : bool;
  commitNow : Z;
  commitStoredAt : Z;
  commitIndexAt : Z;
  commitMemoryAt : Z;
  commitIterate : gmap string publicCacheMemoryEntry → list (string * publicCacheMemoryEntry) }.

Definition markStoreFailed (rd : publicCacheStoreReadCloser) : publicCacheStoreReadCloser :=
  if String.eqb rd.(decision).(Status) publicCacheStatusMiss
  then withEnd rd (withDecisionStatus rd.(decision) publicCacheStatusStoreFailed rd.(decision).(BypassReason)) rd.(committed) rd.(closed)
  else rd.

Definition UpsertPublicCacheEntry (rows : gmap string PublicCacheEntry) (e : PublicCacheEntry) : gmap string PublicCacheEntry :=
  <[e.(KeyDigest) := e]> rows.

Definition storedRow (rd : publicCacheStoreReadCloser) (storedAt : Z) : PublicCacheEntry :=
  mkEntry rd.(keyDigest) rd.(rule).(ID) rd.(rule).(Scope) rd.(resolution).(Listener).(WafCookies.Protocol) rd.(requestHost)
    rd.(requestPath) rd.(readerQueryKey) (resolvedRouteID rd.(resolution))
    (if String.eqb rd.(rule).(Scope) publicCacheScopeSelectedBackend then resolvedTargetID rd.(resolution) else None)
    "GET" rd.(varyJSON) rd.(headersJSON) rd.(readerStatusCode) rd.(finalPath) rd.(bytesWritten) storedAt rd.(readerExpiresAt) storedAt 0.

(** What is left of the files when the row could not be written: the previous body moved
    back, or removed and moved back, or nothing. *)
Definition restoreBody (env : commitEnv) (before renamed : gmap string (list Byte.byte)) (path : string) : gmap string (list Byte.byte) :=
  match before !! path with
  | None => if env.(removeOK) then delete path renamed else renamed
  | Some previous =>
      if env.(restoreOK) then <[path := previous]> renamed
      else let left := if env.(removeOK) then delete path renamed else renamed in
           if env.(retryOK) then <[path := previous]> left else left
  end.

(** The fenced part of the commit: the decision it leaves says how it went. *)
Definition commitFenced (env : commitEnv) (st : store) (rd : publicCacheStoreReadCloser) : store * publicCacheStoreReadCloser :=
  let existing := st.(rows) !! rd.(keyDigest) in
  let fail := (st, markStoreFailed rd) in
  if negb env.(getOK) then fail
  else if match existing with Some e => env.(commitNow) <? e.(ExpiresAt) | None => false end then (st, rd)
  else if negb env.(closeOK) || negb env.(statOK) then fail
  else if bool_decide (is_Some (st.(files) !! rd.(finalPath))) && negb env.(linkOK) then fail
  else if negb env.(renameOK) then fail
  else
    let renamed := <[rd.(finalPath) := rd.(tmp)]> st.(files) in
    let '(c, storedAt) := nextStoredAt st.(cache) env.(commitStoredAt) in
    let e := storedRow rd storedAt in
    if negb env.(upsertOK) then (mkStore c st.(rows) (restoreBody env st.(files) renamed rd.(finalPath)), markStoreFailed rd)
    else
      let c := adjustStorageUsage c (e.(SizeBytes) - match existing with Some old => old.(SizeBytes) | None => 0 end)
                 (match existing with Some _ => 0 | None => 1 end) in
      let c := putIndexEntry c e env.(commitIndexAt) in
      let c := match rd.(memoryBuffer) with
               | Some body => putMemory env.(commitIterate) c rd.(keyDigest) storedAt env.(commitMemoryAt) body
               | None => c end in
      (mkStore c (UpsertPublicCacheEntry st.(rows) e) renamed,
       withEnd rd (withDecisionEntry rd.(decision) publicCacheStatusStored rd.(keyDigest) rd.(decision).(Entry)) rd.(committed) rd.(closed)).

Definition commit (env : commitEnv) (st : store) (rd : publicCacheStoreReadCloser) : store * publicCacheStoreReadCloser :=
  if rd.(committed) then (st, rd)
  else
    let rd := withEnd rd rd.(decision) true rd.(closed) in
    if rd.(tooLarge) then (st, markStoreFailed rd)
    else if String.eqb rd.(keyDigest) "" || negb (generationMatches st.(cache) rd.(readerGeneration) rd.(readerFingerprint)) then (st, rd)
    else commitFenced env st rd.

(** A read of the response: the bytes the source delivered, and whether it ended. *)
Inductive readEnd := ReadMore | ReadEOF | ReadFailed.
Definition Read (writeOK : bool) (env : commitEnv) (st : store) (rd : publicCacheStoreReadCloser) (chunk : list Byte.byte) (res : readEnd)
    : store * publicCacheStoreReadCloser :=
  let rd := absorb writeOK rd chunk in
  match res with ReadEOF => commit env st rd | _ => (st, rd) end.

Definition Close (rd : publicCacheStoreReadCloser) : publicCacheStoreReadCloser :=
  if rd.(closed) then rd else withEnd rd rd.(decision) rd.(committed) true.
End cached.

(** ** Usage counters *)

Definition control (c : publicProxyCache) := (c.(settings), c.(lastFingerprint), c.(lastStoredAt), c.(generation), c.(storageUsageInitialized)).
Definition usage (c : publicProxyCache) := (c.(storageUsageInitialized), c.(storedBodyBytes), c.(storedEntryCount)).

(** Rows sit under their digest, and no size is negative. *)
Definition rowsWf (rows : gmap string PublicCacheEntry) : Prop := map_Forall (λ d e, e.(KeyDigest) = d ∧ 0 ≤ e.(SizeBytes)) rows.

(** Once they are initialised, the counters are the sums over the table. *)
Definition usageExact (c : publicProxyCache) (rows : gmap string PublicCacheEntry) : Prop :=
  c.(storageUsageInitialized) = true → c.(storedBodyBytes) = rowBytes rows ∧ c.(storedEntryCount) = Z.of_nat (size rows).

Lemma deleteMemoryLocked_frame c d : ∃ m b, deleteMemoryLocked c d = withMemory c m b.
Proof.
  unfold deleteMemoryLocked. destruct (c.(memoryEntries) !! d); [by eexists _, _|].
  exists c.(memoryEntries), c.(memoryBytes). by destruct c.
Qed.

Lemma deleteEntry_control c d : control (deleteEntry c d) = control c ∧ usage (deleteEntry c d) = usage c.
Proof.
  unfold deleteEntry, deleteEntryLocked. case_goal; [done|]. destruct (deleteMemoryLocked_frame c d) as (m & b & ->).
  by destruct (_ !! d).
Qed.

Lemma deleteEntryGeneration_control c d t :
  control (deleteEntryGeneration c d t) = control c ∧ usage (deleteEntryGeneration c d t) = usage c.
Proof.
  unfold deleteEntryGeneration. case_goal; [done|].
  assert (∃ m b, match c.(memoryEntries) !! d with
    | Some e => if e.(memStoredAt) =? t then deleteMemoryLocked c d else c | None => c end = withMemory c m b) as (m & b & ->).
  { destruct (_ !! d); [case_goal; [apply deleteMemoryLocked_frame|]|]; exists c.(memoryEntries), c.(memoryBytes); by destruct c. }
  destruct (_ !! d); [by case_goal|done].
Qed.

Lemma rowBytes_delete rows d e : rows !! d = Some e → rowBytes (delete d rows) = rowBytes rows - e.(SizeBytes).
Proof. intros E. unfold rowBytes. by rewrite fmap_delete, msum_delete, lookup_fmap, E. Qed.
Lemma rowBytes_insert rows d e : rowBytes (<[d := e]> rows)
  = rowBytes rows - match rows !! d with Some old => old.(SizeBytes) | None => 0 end + e.(SizeBytes).
Proof. unfold rowBytes. rewrite fmap_insert, msum_insert, lookup_fmap. by destruct (rows !! d). Qed.
Lemma rowBytes_nonneg rows : rowsWf rows → 0 ≤ rowBytes rows.
Proof. intros H. apply msum_nonneg, map_Forall_fmap. eapply map_Forall_impl; [apply H|]. by intros d e []. Qed.

Lemma size_delete_Z {A} (rows : gmap string A) d e : rows !! d = Some e →
  Z.of_nat (size (delete d rows)) = Z.of_nat (size rows) - 1.
Proof.
  intros E. rewrite map_size_delete, E. simpl. assert (size rows ≠ 0%nat); [|lia]. apply map_size_non_empty_iff.
  intros ->. by rewrite lookup_empty in E.
Qed.

(** An adjustment that follows a change of the table. *)
Lemma adjust_exact c rows rows' : usageExact c rows → rowsWf rows' →
  usageExact (adjustStorageUsage c (rowBytes rows' - rowBytes rows) (Z.of_nat (size rows') - Z.of_nat (size rows))) rows'.
Proof.
  intros Hu Hw Hi. pose proof (rowBytes_nonneg rows' Hw). unfold adjustStorageUsage in *.
  destruct ((_ =? 0) && (_ =? 0)) eqn:E0; bprop.
  - destruct (Hu Hi) as [-> ->]. lia.
  - destruct c.(storageUsageInitialized) eqn:Ei; cbn in *; [|congruence]. destruct (Hu Ei) as [-> ->]. lia.
Qed.

Lemma usageExact_ext c c' rows : usage c = usage c' → usageExact c rows → usageExact c' rows.
Proof. unfold usage, usageExact. intros H. injection H as -> -> ->. done. Qed.

Lemma adjust_control c b n : control (adjustStorageUsage c b n) = control c.
Proof.
  unfold adjustStorageUsage. case_goal; [done|]. destruct c.(storageUsageInitialized) eqn:E; [|done]. unfold control. by rewrite E.
Qed.

(** *** Rows that are taken out *)

Lemma rowsWf_sub rows rows' : rows' ⊆ rows → rowsWf rows → rowsWf rows'.
Proof. intros Hs Hw d e E. apply Hw. by eapply lookup_weaken. Qed.

Lemma removeBodies_control removable es : ∀ c fs, control (removeBodies removable c fs es).1 = control c
  ∧ usage (removeBodies removable c fs es).1 = usage c.
Proof.
  unfold removeBodies. induction es as [|e es IH]; intros c fs; [done|]. simpl. destruct (IH (deleteEntry c e.(KeyDigest))
    (if removable e.(BodyPath) then delete e.(BodyPath) fs else fs)) as [-> ->]. apply deleteEntry_control.
Qed.

(** A table split in two by a condition. *)
Lemma rowBytes_split (P : string * PublicCacheEntry → Prop) `{∀ x, Decision (P x)} rows :
  rowBytes (filter P rows) + rowBytes (filter (λ x, ¬ P x) rows) = rowBytes rows
  ∧ (size (filter P rows) + size (filter (λ x, ¬ P x) rows) = size rows)%nat.
Proof.
  induction rows as [|d e rows Hd IH] using map_ind; [by rewrite !map_filter_empty|].
  assert (Hf : ∀ (Q : string * PublicCacheEntry → Prop) `{∀ x, Decision (Q x)}, filter Q rows !! d = None).
  { intros Q ?. apply map_lookup_filter_None. by left. }
  rewrite !map_filter_insert. destruct (decide (P (d, e))) as [Hp|Hp].
  - rewrite decide_False by tauto. rewrite (delete_id rows) by done. rewrite !rowBytes_insert, !map_size_insert, Hd, !Hf. simpl. lia.
  - rewrite decide_True by done. rewrite (delete_id rows) by done. rewrite !rowBytes_insert, !map_size_insert, Hd, !Hf. simpl. lia.
Qed.

Lemma removeCacheBodies_spec scan removable st kept removed :
  rowBytes kept + rowBytes removed = rowBytes st.(rows) → (size kept + size removed = size st.(rows))%nat →
  usageExact st.(cache) st.(rows) → rowsWf kept →
  let st' := removeCacheBodies scan removable st kept removed in
  st'.(rows) = kept ∧ usageExact st'.(cache) kept ∧ control st'.(cache) = control st.(cache).
Proof.
  intros Hb Hs Hu Hw. unfold removeCacheBodies. pose proof (removeBodies_control removable (scan removed) st.(cache) st.(files)) as [Hc Hus].
  destruct (removeBodies removable st.(cache) st.(files) (scan removed)) as [c fs] eqn:E. cbn in *. split_and!; [done| |].
  - assert (Hu' : usageExact c st.(rows)) by by eapply usageExact_ext. pose proof (adjust_exact c st.(rows) kept Hu' Hw) as H.
    unfold totalSize. replace (- rowBytes removed) with (rowBytes kept - rowBytes st.(rows)) by lia.
    by replace (- Z.of_nat (size removed)) with (Z.of_nat (size kept) - Z.of_nat (size st.(rows))) by lia.
  - by rewrite adjust_control.
Qed.

(** *** The cleanup *)

(** The rows left are those accessed last. *)
Definition lru (rows rows' : gmap string PublicCacheEntry) : Prop :=
  rows' ⊆ rows ∧ ∀ d e d' e', rows !! d = Some e → rows' !! d = None → rows' !! d' = Some e' → e.(LastAccessedAt) ≤ e'.(LastAccessedAt).

Lemma lru_refl rows : lru rows rows.
Proof. split; [done|]. intros d e d' e' E E'. congruence. Qed.
Lemma lru_trans rows1 rows2 rows3 : lru rows1 rows2 → lru rows2 rows3 → lru rows1 rows3.
Proof.
  intros [S1 L1] [S2 L2]. split; [by etrans|]. intros d e d' e' E En E'. destruct (rows2 !! d) as [x|] eqn:Ex.
  - assert (x = e) as -> by (eapply lookup_weaken in Ex; [|apply S1]; congruence). by eapply L2.
  - eapply L1; [done..|]. by eapply lookup_weaken.
Qed.

Definition values (rows : gmap string PublicCacheEntry) : list PublicCacheEntry := (map_to_list rows).*2.

Lemma values_elem rows e : rowsWf rows → e ∈ values rows → rows !! e.(KeyDigest) = Some e.
Proof.
  intros Hw He. apply list_elem_of_fmap in He as ([d x] & -> & Hx). apply elem_of_map_to_list in Hx.
  destruct (Hw _ _ Hx) as [Hd _]. cbn in *. by rewrite Hd.
Qed.

Lemma values_delete rows e l : rowsWf rows → e :: l ≡ₚ values rows → rows !! e.(KeyDigest) = Some e ∧ l ≡ₚ values (delete e.(KeyDigest) rows).
Proof.
  intros Hw Hp. assert (E : rows !! e.(KeyDigest) = Some e) by (apply values_elem; [done|]; rewrite <-Hp; by left).
  split; [done|]. apply (Permutation_cons_inv (a := e)). rewrite Hp. unfold values.
  by rewrite <-(map_to_list_delete rows _ _ E).
Qed.

(** The first of the rows by access is the one to drop. *)
Lemma lru_delete rows e l : rowsWf rows → e :: l ≡ₚ values rows → Sorted.StronglySorted (λ x y, accessAsc x y = true) (e :: l) →
  lru rows (delete e.(KeyDigest) rows).
Proof.
  intros Hw Hp Hs. apply values_delete in Hp as [E Hp]; [|done]. split; [apply delete_subseteq|].
  intros d x d' x' Ex En Ex'. assert (d = e.(KeyDigest)) as ->.
  { destruct (decide (d = e.(KeyDigest))) as [->|Hne]; [done|]. rewrite lookup_delete_ne in En by done. congruence. }
  assert (x = e) as -> by congruence. apply Sorted.StronglySorted_inv in Hs as [_ Hs]. rewrite Forall_forall in Hs.
  apply Z.leb_le, Hs. rewrite Hp. apply list_elem_of_fmap. exists (d', x'). split; [done|]. by apply elem_of_map_to_list.
Qed.

Record evicted (st : store) (totalBytes entryCount : Z) (st' : store) (totalBytes' entryCount' : Z) : Prop := {
  ev_bytes : totalBytes' = rowBytes (rows st');
  ev_count : entryCount' = Z.of_nat (size (rows st'));
  ev_exact : usageExact (cache st') (rows st');
  ev_control : control st'.(cache) = control st.(cache);
  ev_lru : lru st.(rows) st'.(rows) }.

Lemma evict_step (removable : string → bool) st e l : rowsWf st.(rows) → usageExact st.(cache) st.(rows) → e :: l ≡ₚ values st.(rows) →
  Sorted.StronglySorted (λ x y, accessAsc x y = true) (e :: l) →
  evicted st (rowBytes st.(rows)) (Z.of_nat (size st.(rows)))
    (mkStore (adjustStorageUsage (deleteEntry st.(cache) e.(KeyDigest)) (- e.(SizeBytes)) (-1))
       (DeletePublicCacheEntry st.(rows) e.(KeyDigest))
       (if removable e.(BodyPath) then delete e.(BodyPath) st.(files) else st.(files)))
    (rowBytes st.(rows) - e.(SizeBytes)) (Z.of_nat (size st.(rows)) - 1).
Proof.
  intros Hw Hu Hp Hs. pose proof (lru_delete _ _ _ Hw Hp Hs) as Hl. apply values_delete in Hp as [E Hp]; [|done].
  pose proof (rowBytes_delete _ _ _ E) as Eb. pose proof (size_delete_Z _ _ _ E) as Es.
  pose proof (deleteEntry_control st.(cache) e.(KeyDigest)) as [Ec Eu].
  split; cbn; unfold DeletePublicCacheEntry; [lia|lia| |by rewrite adjust_control|done].
  replace (- e.(SizeBytes)) with (rowBytes (delete e.(KeyDigest) st.(rows)) - rowBytes st.(rows)) by lia.
  replace (-1) with (Z.of_nat (size (delete e.(KeyDigest) st.(rows))) - Z.of_nat (size st.(rows))) by lia.
  apply adjust_exact; [by eapply usageExact_ext|]. apply (rowsWf_sub st.(rows)); [apply delete_subseteq|done].
Qed.

Lemma evicted_trans st1 tb1 ec1 st2 tb2 ec2 st3 tb3 ec3 :
  evicted st1 tb1 ec1 st2 tb2 ec2 → evicted st2 tb2 ec2 st3 tb3 ec3 → evicted st1 tb1 ec1 st3 tb3 ec3.
Proof. intros [] []. split; [done..|congruence|by eapply lru_trans]. Qed.

Lemma evictRound_spec removable deleteOK s victims : (∀ d, deleteOK d = true) → ∀ st rest,
  rowsWf st.(rows) → usageExact st.(cache) st.(rows) → victims ++ rest ≡ₚ values st.(rows) →
  Sorted.StronglySorted (λ x y, accessAsc x y = true) (victims ++ rest) →
  let res := evictRound removable deleteOK s st (rowBytes st.(rows)) (Z.of_nat (size st.(rows))) victims in
  evicted st (rowBytes st.(rows)) (Z.of_nat (size st.(rows))) res.1 res.2.1 res.2.2
  ∧ (size res.1.(rows) ≤ size st.(rows) - length (take 1 victims))%nat.
Proof.
  intros Hd. induction victims as [|e victims IH]; intros st rest Hw Hu Hp Hs; simpl.
  { split; [by split; [..|apply lru_refl]|lia]. }
  rewrite Hd. simpl. pose proof (evict_step removable st e (victims ++ rest) Hw Hu Hp Hs) as Hstep.
  apply values_delete in Hp as [E Hp]; [|done]. pose proof (size_delete_Z _ _ _ E) as Es.
  set (st' := mkStore _ _ _) in *. assert (Hw' : rowsWf st'.(rows)) by (apply (rowsWf_sub st.(rows)); [apply delete_subseteq|done]).
  destruct (negb _); [cbn; split; [done|]; unfold DeletePublicCacheEntry; lia|].
  apply Sorted.StronglySorted_inv in Hs as [Hs _].
  pose proof (IH st' rest Hw' (ev_exact _ _ _ _ _ _ Hstep) Hp Hs) as [Hr Hsz].
  rewrite <-(ev_bytes _ _ _ _ _ _ Hstep), <-(ev_count _ _ _ _ _ _ Hstep) in Hr, Hsz. split; [by eapply evicted_trans|].
  replace (size st'.(rows)) with (size (delete e.(KeyDigest) st.(rows))) in Hsz by done. lia.
Qed.

Lemma accessAsc_total x y : accessAsc x y = true ∨ accessAsc y x = true.
Proof. unfold accessAsc. rewrite !Z.leb_le. lia. Qed.
Lemma accessAsc_trans x y z : accessAsc x y = true → accessAsc y z = true → accessAsc x z = true.
Proof. unfold accessAsc. rewrite !Z.leb_le. lia. Qed.

(** With statements that succeed, the loop ends, and within the limits. *)
Lemma evictLoop_spec scan removable deleteOK s : (∀ d, deleteOK d = true) → (∀ rows, scan rows ≡ₚ values rows) → ∀ fuel st,
  rowsWf st.(rows) → usageExact st.(cache) st.(rows) → (size st.(rows) < fuel)%nat →
  ∃ st', evictLoop scan removable deleteOK true s fuel st (rowBytes st.(rows)) (Z.of_nat (size st.(rows))) = Some st'
    ∧ overLimits s (rowBytes st'.(rows)) (Z.of_nat (size st'.(rows))) = false
    ∧ usageExact st'.(cache) st'.(rows) ∧ control st'.(cache) = control st.(cache) ∧ lru st.(rows) st'.(rows).
Proof.
  intros Hd Hscan. induction fuel as [|fuel IH]; intros st Hw Hu Hf; [lia|]. cbn [evictLoop].
  destruct (overLimits _ _ _) eqn:El; cbn [negb]; [|exists st; split_and!; try done; apply lru_refl].
  set (l := ClientIdentity.sortBy accessAsc (scan st.(rows))).
  assert (Hp : l ≡ₚ values st.(rows)) by (unfold l; by rewrite ClientIdentity.sortBy_perm).
  assert (Hs : Sorted.StronglySorted (λ x y, accessAsc x y = true) l)
    by (apply ClientIdentity.sortBy_sorted; [apply accessAsc_total|apply accessAsc_trans]).
  unfold ListPublicCacheEntriesForCleanup. fold l. destruct (take 100 l) as [|v victims] eqn:Ev.
  - assert (l = []) as El0 by (destruct l; done). rewrite El0 in Hp. apply Permutation_nil, fmap_nil_inv, map_to_list_empty_iff in Hp.
    exfalso. rewrite Hp in El. change (overLimits s 0 0 = true) in El. unfold overLimits in El. bprop. lia.
  - rewrite <-(take_drop 100 l), Ev in Hp, Hs. pose proof (evictRound_spec removable deleteOK s _ Hd st _ Hw Hu Hp Hs) as [He Hsz].
    destruct (evictRound _ _ _ _ _ _ _) as [st1 [tb ec]]. cbn in He, Hsz. destruct He as [-> -> Hu1 Hc1 Hl1].
    destruct (IH st1) as (st' & E & Hlim & Hu' & Hc' & Hl'); [eapply rowsWf_sub, Hw; apply Hl1|done| |].
    + assert (0 < size st.(rows))%nat; [|lia]. destruct (decide (size st.(rows) = 0%nat)) as [E0|]; [|lia]. exfalso.
      apply map_size_empty_iff in E0. rewrite E0 in Hp. symmetry in Hp. by apply Permutation_nil in Hp.
    + exists st'. split_and!; [done..|congruence|by eapply lru_trans].
Qed.

(** A listing that fails ends the loop. *)
Lemma evictLoop_unlisted scan removable deleteOK s fuel st tb ec : (0 < fuel)%nat →
  ∃ st', evictLoop scan removable deleteOK false s fuel st tb ec = Some st'.
Proof. intros Hf. destruct fuel as [|fuel]; [lia|]. cbn [evictLoop]. case_goal; by eexists. Qed.

Definition cleanupDue (c : publicProxyCache) (now : Z) : Prop :=
  c.(lastCleanup) = 0 ∨ cleanupInterval c.(settings) ≤ time_sub now c.(lastCleanup).

(** What a cleanup achieves when its three queries succeed. *)
Record cleaned (st : store) (now : Z) (st' : store) : Prop := {
  cl_fresh : st'.(rows) ⊆ filter (λ kv, now < kv.2.(ExpiresAt)) st.(rows);
  cl_bytes : 0 < st.(cache).(settings).(MaxDiskBytes) → rowBytes st'.(rows) ≤ st.(cache).(settings).(MaxDiskBytes);
  cl_entries : 0 < st.(cache).(settings).(MaxEntries) → Z.of_nat (size st'.(rows)) ≤ st.(cache).(settings).(MaxEntries);
  cl_counters : st'.(cache).(storedBodyBytes) = rowBytes st'.(rows) ∧ st'.(cache).(storedEntryCount) = Z.of_nat (size st'.(rows));
  cl_lru : ∀ d e d' e', st.(rows) !! d = Some e → now < e.(ExpiresAt) → st'.(rows) !! d = None → st'.(rows) !! d' = Some e' →
    e.(LastAccessedAt) ≤ e'.(LastAccessedAt) }.

(** The first of its steps: the counters are read, unless they were before. *)
Lemma ensure_read st now (sumOK : bool) : rowsWf st.(rows) → usageExact st.(cache) st.(rows) →
  ∃ c ok, ensureStorageUsageLocked (withCleanup st.(cache) now) (if sumOK then Some (SumPublicCacheBytes st.(rows)) else None) = (c, ok)
    ∧ usageExact c st.(rows) ∧ c.(settings) = st.(cache).(settings) ∧ (ok = true → c.(storageUsageInitialized) = true)
    ∧ (sumOK = true → ok = true).
Proof.
  intros Hw Hu. unfold ensureStorageUsageLocked. cbn. pose proof (rowBytes_nonneg _ Hw).
  destruct st.(cache).(storageUsageInitialized) eqn:Ei; [|destruct sumOK]; eexists _, _; split_and!; try done.
  intros _. cbn. lia.
Qed.

(** The second: the rows that expired go, when their deletion succeeds. *)
Lemma expire_spec scan removable (expireOK : bool) st now : rowsWf st.(rows) → usageExact st.(cache) st.(rows) →
  let kept := filter (λ kv : string * PublicCacheEntry, ¬ kv.2.(ExpiresAt) ≤ now) st.(rows) in
  let st' := if expireOK then removeCacheBodies scan removable st kept (filter (λ kv, kv.2.(ExpiresAt) ≤ now) st.(rows)) else st in
  rowsWf st'.(rows) ∧ (size st'.(rows) ≤ size st.(rows))%nat ∧ usageExact st'.(cache) st'.(rows) ∧ control st'.(cache) = control st.(cache)
  ∧ (expireOK = true → st'.(rows) = kept).
Proof.
  intros Hw Hu kept. destruct expireOK; cbn; [|done].
  assert (Hwk : rowsWf kept) by (eapply rowsWf_sub; [apply map_filter_subseteq|done]).
  pose proof (rowBytes_split (λ kv, kv.2.(ExpiresAt) ≤ now) st.(rows)) as [Hb Hs]. fold kept in Hb, Hs.
  destruct (removeCacheBodies_spec scan removable st kept (filter (λ kv, kv.2.(ExpiresAt) ≤ now) st.(rows))) as (Er & Hu2 & Hc2);
    [lia|lia|done|done|]. rewrite Er. split_and!; [done|lia|done|done|done].
Qed.


(** ** Examples *)

Definition exampleRows : gmap string PublicCacheEntry :=
  {["d1" := exampleEntry "d1" "/a" 10; "d2" := exampleEntry "d2" "/b" 11; "d3" := exampleEntry "d3" "/c" 12]}.
Definition exampleStore : store := mkStore (withSettings (newPublicProxyCache 0) exampleSettings "x") exampleRows ∅.

Lemma exampleRows_wf : rowsWf exampleRows.
Proof. unfold exampleRows. repeat (apply map_Forall_insert_2; [by split|]). apply map_Forall_empty. Qed.

(** Three rows where two are allowed: the one accessed first goes. *)
Example cleanup_example : (rows <$> maybeCleanup values (λ _, true) (λ _, true) true true true 4 exampleStore 20)
  = Some (delete "d1" exampleRows).
Proof. vm_compute. reflexivity. Qed.

(** While every deletion fails, the loop goes on: here after a thousand rounds. *)
Example cleanup_stuck : maybeCleanup values (λ _, true) (λ _, false) true true true 1000 exampleStore 20 = None.
Proof. vm_compute. reflexivity. Qed.

(** A prefix that contains an underscore purges other paths too, and so does one in capitals. *)
Example like_underscore : purgedByHostPath "" "/a_b" (exampleEntry "d" "/axb/1" 10) = true.
Proof. vm_compute. reflexivity. Qed.
Example like_case : purgedByHostPath "" "/A" (exampleEntry "d" "/a/1" 10) = true.
Proof. vm_compute. reflexivity. Qed.

(** A cold lookup installs the twenty newest variants of a key.  From then on the index
    answers for the key, so an older variant is not found although its row is valid, and a
    new response for it is dropped at the commit because of that row. *)
Definition variants : gmap string PublicCacheEntry :=
  list_to_map (map (λ n, let d := FormatInt (Z.of_nat n) in (d, exampleEntry d "/a" (10 + Z.of_nat n))) (seq 1 21)).
Definition variantsCache : publicProxyCache :=
  withSettings (newPublicProxyCache 0) (mkSettings true 0 0 0 1000 minute 0 0) "x".
Example variants_beyond_twenty :
  let lk := exampleKey "/a" in
  let listed := ListPublicCacheEntryCandidates values variants lk 50 in
  let c := storeIndexedCandidates (λ _, 50) variantsCache lk listed 50 0 "x" in
  let '(candidates, loaded) := (lookupIndexedCandidates elements c lk 51 0 "x").2 in
  (loaded, length candidates, bool_decide ("1" ∈ map KeyDigest candidates), bool_decide (variants !! "1" = None))
  = (true, 20%nat, false, false).
Proof. vm_compute. reflexivity. Qed.

End CacheStore.
