(* ===== verification/CacheWorld.v ===== *)
(** The response cache under interleaving: requests that look entries up, open hits and
    capture responses, with invalidations, cleanups, purges, deletions of rules, changes of the configuration and
    the asynchronous updates of the access counters between their steps.

    The state is the store of CacheStore.v with what the requests in flight hold: decisions,
    entries they read, and readers of responses.  Ghost state records where a row came from:
    every row that was ever written with the response it was captured from, the number of
    times the generation was raised when a request was decided, and whether the deletion of a
    rule ever took rows along. *)

From S2P Require Import Prelude.
From S2P Require Import GoStrings.
From S2P Require Import ClientIdentity.
From S2P Require Import WafCookies.
From S2P Require Import RateLimiter.
From S2P Require Import TargetHealth.
From S2P Require Import Routing.
From S2P Require Import PathSecurity.
From S2P Require Import CacheRules.
From S2P Require Import CacheIndex.
From S2P Require Import CacheStore.

Module CacheWorld.
Import CacheRules.
Import CacheIndex.
Import CacheStore.

(** ** Where the parts in memory come from *)

Definition core (c : publicProxyCache) := (c.(lastStoredAt), c.(generation), usage c).

Section from.
Context {LC : LookupCodec}.
Variable P : PublicCacheEntry → Prop.
Variable Q : string → Z → list Byte.byte → Prop.
Hypothesis P_touched : ∀ e now hits, P e → P (touched e now hits).

(** Every indexed entry and every copy of a body is one of the given ones. *)
Record cacheFrom (c : publicProxyCache) : Prop := {
  cf_index : map_Forall (λ _ ie, P ie.(entry)) c.(indexEntries);
  cf_memory : map_Forall (λ d m, Q d m.(memStoredAt) m.(memBody)) c.(memoryEntries) }.

(** An operation that adds nothing else and leaves the counters alone. *)
Definition sound (c c' : publicProxyCache) : Prop := (cacheFrom c → cacheFrom c') ∧ core c' = core c.

Lemma sound_refl c : sound c c.
Proof. by split. Qed.
Lemma sound_trans c1 c2 c3 : sound c1 c2 → sound c2 c3 → sound c1 c3.
Proof. intros [H1 E1] [H2 E2]. split; [auto|congruence]. Qed.

Lemma sound_memory c m b : m ⊆ c.(memoryEntries) → sound c (withMemory c m b).
Proof. intros Hm. split; [|done]. intros [Hi Hq]. split; [done|]. cbn. intros d x E. apply (Hq d). by eapply lookup_weaken. Qed.
Lemma sound_negatives c m o n : sound c (withNegatives c m o n).
Proof. split; [|done]. by intros []. Qed.
Lemma sound_index c entries lookups : entries ⊆ c.(indexEntries) → sound c (withIndex c entries lookups).
Proof. intros Hm. split; [|done]. intros [Hi Hq]. split; [|done]. cbn. intros d x E. apply (Hi d). by eapply lookup_weaken. Qed.

Lemma evictLoop_sound keys : ∀ c, sound c (CacheIndex.evictLoop c keys).
Proof.
  induction keys as [|key keys IH]; intros c; simpl; [apply sound_refl|]. case_goal; [apply sound_refl|].
  destruct (c.(memoryEntries) !! key); [|apply IH]. eapply sound_trans; [|apply IH]. apply sound_memory, delete_subseteq.
Qed.
Lemma prune_sound iterate c : sound c (pruneMemoryLocked iterate c).
Proof.
  unfold pruneMemoryLocked. case_goal; [apply sound_memory, map_empty_subseteq|]. case_goal; [apply sound_refl|apply evictLoop_sound].
Qed.
Lemma getMemory_sound c d t now : sound c (getMemory c d t now).1.
Proof.
  unfold getMemory. case_goal; [apply sound_refl|]. destruct (c.(memoryEntries) !! d) as [e|] eqn:E; [|apply sound_refl].
  case_goal; [apply sound_refl|]. split; [|done]. intros [Hi Hq]. split; [done|]. cbn. apply map_Forall_insert_2; [|done]. cbn. by apply (Hq d).
Qed.
Lemma putMemory_sound iterate c d t now body : Q d t body → sound c (putMemory iterate c d t now body).
Proof.
  intros HQ. unfold putMemory. case_goal; [apply sound_refl|]. case_goal; [apply sound_refl|]. eapply sound_trans; [|apply prune_sound].
  split; [|done]. intros [Hi Hq]. split; [done|]. cbn. by apply map_Forall_insert_2.
Qed.
Lemma deleteMemoryLocked_sound c d : sound c (deleteMemoryLocked c d).
Proof. unfold deleteMemoryLocked. destruct (_ !! d); [apply sound_memory, delete_subseteq|apply sound_refl]. Qed.
Lemma forgetIndex_sound c d ie : sound c (forgetIndex c d ie).
Proof. apply sound_index, delete_subseteq. Qed.
Lemma deleteEntry_sound c d : sound c (deleteEntry c d).
Proof.
  unfold deleteEntry, deleteEntryLocked. case_goal; [apply sound_refl|]. eapply sound_trans; [apply (deleteMemoryLocked_sound _ d)|].
  destruct (_ !! d); [apply forgetIndex_sound|apply sound_refl].
Qed.
Lemma deleteEntryGeneration_sound c d t : sound c (deleteEntryGeneration c d t).
Proof.
  unfold deleteEntryGeneration. case_goal; [apply sound_refl|].
  match goal with |- sound _ (match indexEntries ?x !! _ with _ => _ end) => set (c1 := x); apply (sound_trans _ c1) end.
  - unfold c1. destruct (_ !! d); [case_goal; [apply deleteMemoryLocked_sound|]|]; apply sound_refl.
  - clearbody c1. destruct (_ !! d); [|apply sound_refl]. case_goal; [apply sound_refl|apply forgetIndex_sound].
Qed.
Lemma clearIndex_sound c : sound c (clearIndexLocked c).
Proof. eapply sound_trans; [|apply sound_negatives]. apply sound_index, map_empty_subseteq. Qed.

Lemma removeNegative_sound c d : sound c (removeNegativeLookupDigestLocked c d).
Proof. destruct (removeNegative_frame c d) as (m & o & -> & _). apply sound_negatives. Qed.
Lemma pruneNegatives_sound c now : sound c (pruneNegativeLookupsLocked c now).
Proof. destruct (pruneNegatives_frame c now) as (m & o & ->). apply sound_negatives. Qed.
Lemma rememberNegative_sound c lk now : sound c (rememberNegativeLookupLocked c lk now).
Proof.
  unfold rememberNegativeLookupLocked. eapply sound_trans; [apply pruneNegatives_sound|]. case_goal; [apply sound_refl|].
  eapply sound_trans; [apply (removeNegative_sound _ (lookupHash lk))|]. eapply sound_trans; [|apply pruneNegatives_sound]. apply sound_negatives.
Qed.

Lemma lookup_sound order c lk now g fp : sound c (lookupIndexedCandidates order c lk now g fp).1.
Proof.
  unfold lookupIndexedCandidates. case_goal; [apply sound_refl|]. case_goal.
  - unfold negativeLookupLoadedLocked. cbn. destruct (_ !! lookupHash lk); [|by apply sound_index].
    case_goal; [|by apply sound_index]. cbn. eapply sound_trans; [|apply removeNegative_sound]. by apply sound_index.
  - case_goal; by apply sound_index.
Qed.
Lemma lookup_candidates order c lk now g fp e : cacheFrom c →
  e ∈ (lookupIndexedCandidates order c lk now g fp).2.1 → P e.
Proof.
  intros [Hi _]. unfold lookupIndexedCandidates. case_goal; [by intros ?%elem_of_nil|]. case_goal.
  - destruct (negativeLookupLoadedLocked _ _ _). by intros ?%elem_of_nil.
  - case_goal; cbn; [by intros ?%elem_of_nil|]. intros (d & _ & Hd)%list_elem_of_omap.
    destruct (c.(indexEntries) !! d) as [ie|] eqn:E; [|done]. injection Hd as <-. by apply (Hi d).
Qed.

Lemma putIndexEntry_sound c e now : P e → sound c (putIndexEntryLocked c e now).
Proof.
  intros HP. unfold putIndexEntryLocked. case_goal; [apply sound_refl|].
  case_goal; (eapply sound_trans; [|apply pruneNegatives_sound]; eapply sound_trans; [|apply removeNegative_sound]); [apply sound_refl|].
  split; [|done]. intros [Hi Hq]. split; [|done]. cbn. by apply map_Forall_insert_2.
Qed.
Lemma storeLoop_sound clock lk now candidates : (∀ e, e ∈ candidates → P e) → ∀ c stored,
  sound c (storeLoop clock c lk candidates now stored).1.
Proof.
  induction candidates as [|e candidates IH]; intros Hc c stored; cbn [storeLoop]; [apply sound_refl|].
  assert (IH' := IH (λ e He, Hc e (list_elem_of_further _ _ _ He))). destruct (_ !! _); [apply IH'|].
  case_goal; [apply IH'|]. case_goal; [apply IH'|]. eapply sound_trans; [|apply IH']. apply putIndexEntry_sound, Hc. by left.
Qed.
Lemma storeIndexed_sound clock c lk candidates now g fp : (∀ e, e ∈ candidates → P e) →
  sound c (storeIndexedCandidates clock c lk candidates now g fp).
Proof.
  intros Hc. unfold storeIndexedCandidates. case_goal; [apply sound_refl|].
  pose proof (storeLoop_sound clock lk now candidates Hc c false) as Hs. destruct (storeLoop _ _ _ _ _ _) as [c' stored]. cbn in Hs.
  destruct stored; [done|]. eapply sound_trans; [done|apply rememberNegative_sound].
Qed.
Lemma touchIndexed_sound c d t now : sound c (touchIndexedEntry c d t now).
Proof using P_touched.
  unfold touchIndexedEntry. case_goal; [apply sound_refl|]. destruct (c.(indexEntries) !! d) as [ie|] eqn:E; [|apply sound_refl].
  destruct (negb _); [apply sound_refl|]. split; [|done]. intros [Hi Hq]. split; [|done]. cbn. apply map_Forall_insert_2; [|done].
  apply P_touched. by apply (Hi d).
Qed.
End from.

(** ** The machine *)

Section machine.
Context {CC : CacheCodec} {LC : LookupCodec}.
(** The directory of the bodies. *)
Variable dir : string.

(** A response that is being read, with the request it answers and what was received. *)
Record reading := mkReading {
  reader : publicCacheStoreReadCloser;
  request : cacheRequest;
  response : cacheResponse;
  respFields : list (string * list string);
  received : list Byte.byte;
  epoch : Z }.

(** A row that was written, and the reading it came from. *)
Record stored := mkStored { row : PublicCacheEntry; origin : reading }.

(** A request that missed and is being forwarded. *)
Record decided := mkDecided {
  decRequest : cacheRequest;
  decResolution : cacheResolution;
  decDecision : publicCacheDecision;
  decEpoch : Z }.

Record world := mkWorld {
  st : store;
  known : list PublicCacheEntry;
  decisions : list decided;
  readers : gmap Z reading;
  history : list stored;
  epochs : Z;
  cascaded : bool }.

Definition withStore (w : world) (s : store) : world := mkWorld s w.(known) w.(decisions) w.(readers) w.(history) w.(epochs) w.(cascaded).
Definition learn (w : world) (s : store) (es : list PublicCacheEntry) : world :=
  mkWorld s (es ++ w.(known)) w.(decisions) w.(readers) w.(history) w.(epochs) w.(cascaded).
Definition raise (w : world) (s : store) (n : Z) : world :=
  mkWorld s w.(known) w.(decisions) w.(readers) w.(history) (w.(epochs) + n) w.(cascaded).
(** A rule is deleted, and its rows with it. *)
Definition cascade (w : world) (ruleID : Z) : world :=
  let rows' := DeletePublicCacheRule w.(st).(rows) ruleID in
  mkWorld (mkStore w.(st).(cache) rows' w.(st).(files)) w.(known) w.(decisions) w.(readers) w.(history) w.(epochs)
    (w.(cascaded) || (size rows' <? size w.(st).(rows))%nat).

Definition init (now : Z) : world := mkWorld (mkStore (newPublicProxyCache now) ∅ ∅) [] [] ∅ [] 0 false.

Definition withReader (rg : reading) (rd : publicCacheStoreReadCloser) (chunk : list Byte.byte) : reading :=
  mkReading rd rg.(request) rg.(response) rg.(respFields) (rg.(received) ++ chunk) rg.(epoch).

(** How often an operation raises the generation. *)
Definition reconcileRaises (c : publicProxyCache) (s : publicCacheSettingsConfig) (rules : list publicCacheRuleConfig) : Z :=
  if String.eqb c.(lastFingerprint) (publicCacheRuntimeFingerprint s rules) then 0 else 1.
Definition purgeRaises (res : purgeResult) : Z := match res with PurgeInvalid => 0 | _ => 1 end.

Inductive step : world → world → Prop :=
  | StepDecide w snap r resolution rule queryKey d :
      cacheGate snap w.(st).(cache) r resolution = Proceed rule queryKey d → keyable r resolution rule →
      step w (mkWorld w.(st) w.(known)
        (mkDecided r resolution (withDecisionEntry d publicCacheStatusMiss "" None) w.(epochs) :: w.(decisions))
        w.(readers) w.(history) w.(epochs) w.(cascaded))
  | StepLookup w order lk now g fp :
      step w (let res := lookupIndexedCandidates order w.(st).(cache) lk now g fp in learn w (withCache w.(st) res.1) res.2.1)
  | StepRows w scan lk now :
      (∀ rows, scan rows ≡ₚ values rows) →
      step w (learn w w.(st) (ListPublicCacheEntryCandidates scan w.(st).(rows) lk now))
  | StepIndex w clock lk candidates now g fp :
      (∀ e, e ∈ candidates → e ∈ w.(known)) →
      step w (withStore w (withCache w.(st) (storeIndexedCandidates clock w.(st).(cache) lk candidates now g fp)))
  | StepTouchIndex w d t now :
      step w (withStore w (withCache w.(st) (touchIndexedEntry w.(st).(cache) d t now)))
  | StepTouchRow w d t now hits :
      step w (withStore w (mkStore w.(st).(cache) (TouchPublicCacheEntry w.(st).(rows) d t now hits) w.(st).(files)))
  | StepInvalidate w removable dbOK e :
      e ∈ w.(known) → step w (withStore w (invalidatePublicCacheEntry removable dbOK w.(st) e))
  | StepOpen w dbOK fileOK now e openBody :
      e ∈ w.(known) → step w (withStore w (openFenced dbOK fileOK now w.(st) e openBody).1)
  | StepCapture w id ParseTime fsOK now expiresFrom dd resp fields rd :
      dd ∈ w.(decisions) → w.(readers) !! id = None → fields ≡ₚ map_to_list resp.(RespHeader) →
      capturePublicCacheResponseBody ParseTime dir fsOK now expiresFrom w.(st).(cache) dd.(decRequest) dd.(decResolution)
        dd.(decDecision) resp fields = Some rd →
      step w (mkWorld w.(st) w.(known) w.(decisions) (<[id := mkReading rd dd.(decRequest) resp fields [] dd.(decEpoch)]> w.(readers))
        w.(history) w.(epochs) w.(cascaded))
  | StepRead w id rg writeOK env chunk res s rd :
      w.(readers) !! id = Some rg → rg.(reader).(closed) = false → env.(removeOK) = true →
      Read writeOK env w.(st) rg.(reader) chunk res = (s, rd) → s.(rows) = w.(st).(rows) →
      step w (mkWorld s w.(known) w.(decisions) (<[id := withReader rg rd chunk]> w.(readers)) w.(history) w.(epochs) w.(cascaded))
  | StepStore w id rg writeOK env chunk res s rd e :
      w.(readers) !! id = Some rg → rg.(reader).(closed) = false → env.(removeOK) = true →
      Read writeOK env w.(st) rg.(reader) chunk res = (s, rd) → s.(rows) ≠ w.(st).(rows) → s.(rows) !! rd.(keyDigest) = Some e →
      step w (mkWorld s w.(known) w.(decisions) (<[id := withReader rg rd chunk]> w.(readers))
        (mkStored e (withReader rg rd chunk) :: w.(history)) w.(epochs) w.(cascaded))
  | StepClose w id rg :
      w.(readers) !! id = Some rg →
      step w (mkWorld w.(st) w.(known) w.(decisions) (<[id := withReader rg (Close rg.(reader)) []]> w.(readers)) w.(history) w.(epochs) w.(cascaded))
  | StepCleanup w scan removable deleteOK sumOK expireOK listOK fuel now s :
      (∀ rows, scan rows ≡ₚ values rows) →
      maybeCleanup scan removable deleteOK sumOK expireOK listOK fuel w.(st) now = Some s → step w (withStore w s)
  | StepPurge w scan removable dbOK req :
      step w (let res := PurgePublicCache scan removable dbOK w.(st) req in raise w res.1 (purgeRaises res.2))
  | StepPurgeRule w scan removable dbOK ruleID :
      step w (withStore w (purgePublicCacheEntriesByRuleID scan removable dbOK w.(st) ruleID))
  | StepDeleteRule w ruleID : step w (cascade w ruleID)
  | StepReconcile w iterate s rules :
      step w (raise w (withCache w.(st) (reconcile iterate w.(st).(cache) s rules)) (reconcileRaises w.(st).(cache) s rules))
  | StepInvalidateConfiguration w :
      step w (raise w (withCache w.(st) (invalidateConfiguration w.(st).(cache))) 1)
  | StepUsage w sumOK :
      step w (withStore w (withCache w.(st)
        (storageUsageSnapshot w.(st).(cache) (if sumOK : bool then Some (SumPublicCacheBytes w.(st).(rows)) else None)).1)).

(** ** The invariant *)

(** What a touch leaves alone. *)
Definition frozen (e : PublicCacheEntry) : PublicCacheEntry :=
  mkEntry e.(KeyDigest) e.(RuleID) e.(EntryScope) e.(ListenerProtocol) e.(EntryHost) e.(EntryPath) e.(QueryKey)
    e.(EntryRouteID) e.(EntryRouteTargetID) e.(EntryMethod) e.(VaryHeadersJson) e.(ResponseHeadersJson) e.(EntryStatusCode)
    e.(BodyPath) e.(SizeBytes) e.(StoredAt) e.(ExpiresAt) 0 0.

(** A decision that a response may be captured for. *)
Record decidedOk (epochs : Z) (dd : decided) : Prop := {
  dd_epoch : 0 ≤ dd.(decEpoch) ≤ epochs;
  dd_generation : dd.(decDecision).(cacheCurrent) = true → dd.(decDecision).(cacheGeneration) = u64 dd.(decEpoch);
  dd_rule : ∀ rule, dd.(decDecision).(DecisionRule) = Some rule →
    keyable dd.(decRequest) dd.(decResolution) rule
    ∧ publicCacheQueryKey dd.(decRequest) rule = Some dd.(decDecision).(DecisionQueryKey) }.

(** A reader and what it read. *)
Record readingOk (epochs : Z) (rg : reading) : Prop := {
  rg_epoch : 0 ≤ rg.(epoch) ≤ epochs;
  rg_generation : rg.(reader).(readerGeneration) = u64 rg.(epoch);
  rg_keyable : keyable rg.(request) rg.(reader).(resolution) rg.(reader).(rule);
  rg_query : publicCacheQueryKey rg.(request) rg.(reader).(rule) = Some rg.(reader).(readerQueryKey);
  rg_digest : rg.(reader).(keyDigest) = publicCacheKeyDigest rg.(request) rg.(reader).(resolution) rg.(reader).(rule)
    rg.(reader).(readerQueryKey) rg.(reader).(varyJSON);
  rg_path : rg.(reader).(finalPath) = bodyPath dir rg.(reader).(keyDigest);
  rg_status : rg.(reader).(readerStatusCode) = rg.(response).(StatusCode);
  rg_fields : rg.(respFields) ≡ₚ map_to_list rg.(response).(RespHeader);
  rg_headers : publicCacheHeadersJSON rg.(respFields) = Some rg.(reader).(headersJSON);
  rg_eligible : ∃ ParseTime now ttl,
    publicCacheResponseEligibility ParseTime now rg.(reader).(rule) rg.(response) = Some (ttl, rg.(reader).(varyJSON));
  rg_limit : rg.(reader).(maxBytes) = rg.(reader).(rule).(MaxObjectBytes);
  rg_content : rg.(reader).(committed) = false → rg.(reader).(tooLarge) = false →
    rg.(reader).(tmp) = rg.(received) ∧ rg.(reader).(bytesWritten) = Z.of_nat (length rg.(received))
    ∧ (∀ body, rg.(reader).(memoryBuffer) = Some body → body = rg.(received))
    ∧ (0 < rg.(reader).(maxBytes) → rg.(reader).(bytesWritten) ≤ rg.(reader).(maxBytes)) }.

(** A row that was written holds what its reading received. *)
Record storedOk (epochs : Z) (s : stored) : Prop := {
  so_reading : readingOk epochs s.(origin);
  so_row : s.(row) = storedRow s.(origin).(reader) s.(row).(StoredAt);
  so_size : s.(origin).(reader).(bytesWritten) = Z.of_nat (length s.(origin).(received));
  so_limit : 0 < s.(origin).(reader).(rule).(MaxObjectBytes) →
    Z.of_nat (length s.(origin).(received)) ≤ s.(origin).(reader).(rule).(MaxObjectBytes) }.

Definition fromHistory (h : list stored) (e : PublicCacheEntry) : Prop := ∃ s, s ∈ h ∧ frozen s.(row) = frozen e.
Definition copyFrom (h : list stored) (d : string) (t : Z) (body : list Byte.byte) : Prop :=
  ∃ s, s ∈ h ∧ s.(row).(KeyDigest) = d ∧ s.(row).(StoredAt) = t ∧ s.(origin).(received) = body.

Record worldOk (w : world) : Prop := {
  ok_history : ∀ s, s ∈ w.(history) → storedOk w.(epochs) s ∧ s.(row).(StoredAt) ≤ w.(st).(cache).(lastStoredAt);
  ok_unique : ∀ s1 s2, s1 ∈ w.(history) → s2 ∈ w.(history) → s1.(row).(StoredAt) = s2.(row).(StoredAt) → s1 = s2;
  ok_cache : cacheFrom (fromHistory w.(history)) (copyFrom w.(history)) w.(st).(cache);
  ok_rows : map_Forall (λ d e, e.(KeyDigest) = d ∧ fromHistory w.(history) e) w.(st).(rows);
  ok_files : ∀ d e body, w.(st).(rows) !! d = Some e → w.(st).(files) !! e.(BodyPath) = Some body →
    copyFrom w.(history) d e.(StoredAt) body;
  ok_known : ∀ e, e ∈ w.(known) → fromHistory w.(history) e;
  ok_decisions : ∀ dd, dd ∈ w.(decisions) → decidedOk w.(epochs) dd;
  ok_readers : map_Forall (λ _ rg, readingOk w.(epochs) rg) w.(readers);
  ok_epochs : 0 ≤ w.(epochs);
  ok_generation : w.(st).(cache).(generation) = u64 w.(epochs);
  ok_usage : w.(cascaded) = false → usageExact w.(st).(cache) w.(st).(rows) }.
End machine.

(** ** Operations that only take rows out *)

Lemma frozen_fields e e' : frozen e = frozen e' → e.(KeyDigest) = e'.(KeyDigest) ∧ e.(BodyPath) = e'.(BodyPath)
  ∧ e.(SizeBytes) = e'.(SizeBytes) ∧ e.(StoredAt) = e'.(StoredAt) ∧ e.(VaryHeadersJson) = e'.(VaryHeadersJson)
  ∧ e.(ResponseHeadersJson) = e'.(ResponseHeadersJson) ∧ e.(EntryStatusCode) = e'.(EntryStatusCode) ∧ e.(ExpiresAt) = e'.(ExpiresAt).
Proof. intros H. unfold frozen in H. by injection H. Qed.

Lemma frozen_touched e now hits : frozen (touched e now hits) = frozen e.
Proof. done. Qed.

Section shrink.
Context {LC : LookupCodec}.
Variable P : PublicCacheEntry → Prop.
Variable Q : string → Z → list Byte.byte → Prop.

(** Rows keep their identity, files their content; the clock of the rows and the generation
    stand still, and the counters follow. *)
Record shrink (s s' : store) : Prop := {
  sh_cache : cacheFrom P Q s.(cache) → cacheFrom P Q s'.(cache);
  sh_clock : s'.(cache).(lastStoredAt) = s.(cache).(lastStoredAt) ∧ s'.(cache).(generation) = s.(cache).(generation);
  sh_rows : ∀ d e', s'.(rows) !! d = Some e' → ∃ e, s.(rows) !! d = Some e ∧ frozen e = frozen e';
  sh_files : s'.(files) ⊆ s.(files);
  sh_usage : usageExact s.(cache) s.(rows) → usageExact s'.(cache) s'.(rows) }.

Lemma shrink_wf s s' : shrink s s' → rowsWf s.(rows) → rowsWf s'.(rows).
Proof.
  intros Hs Hw d e' E. destruct (sh_rows _ _ Hs _ _ E) as (e & E0 & Hf). apply frozen_fields in Hf as (<- & _ & <- & _). by apply (Hw d).
Qed.

Lemma shrink_trans s1 s2 s3 : shrink s1 s2 → shrink s2 s3 → shrink s1 s3.
Proof.
  intros [C1 [L1 G1] R1 F1 U1] [C2 [L2 G2] R2 F2 U2]. split; [auto|split; congruence| |by etrans|auto].
  intros d e3 E3. apply R2 in E3 as (e2 & E2 & Hf2). apply R1 in E2 as (e1 & E1 & Hf1). exists e1. split; [done|congruence].
Qed.

(** A change in memory only. *)
Lemma shrink_sound s c : sound P Q s.(cache) c → shrink s (withCache s c).
Proof.
  intros [Hc Hk]. unfold core in Hk. injection Hk as Hl Hg Hi Hb Hn.
  split; cbn; [done|done|by eauto|done|]. apply usageExact_ext. unfold usage. congruence.
Qed.

Lemma shrink_refl s : shrink s s.
Proof. destruct s. apply (shrink_sound (mkStore _ _ _)), sound_refl. Qed.

Lemma adjust_from c b n : cacheFrom P Q c → cacheFrom P Q (adjustStorageUsage c b n).
Proof. intros [Hi Hq]. unfold adjustStorageUsage. repeat case_goal; by split. Qed.

(** Rows are dropped with their files and forgotten, and the counters adjusted. *)
Lemma shrink_drop s c rows' files' : sound P Q s.(cache) c → rowsWf s.(rows) →
  rows' ⊆ s.(rows) → files' ⊆ s.(files) →
  shrink s (mkStore (adjustStorageUsage c (rowBytes rows' - rowBytes s.(rows)) (Z.of_nat (size rows') - Z.of_nat (size s.(rows)))) rows' files').
Proof.
  intros [Hc Hk] Hw Hr Hf. unfold core in Hk. injection Hk as Hl Hg Hi Hb Hn. pose proof (adjust_control c
    (rowBytes rows' - rowBytes s.(rows)) (Z.of_nat (size rows') - Z.of_nat (size s.(rows)))) as Hctl. unfold control in Hctl.
  injection Hctl as _ _ Hl' Hg' _. split; cbn; [|split; congruence| |done|].
  - intros H. by apply adjust_from, Hc.
  - intros d e E. exists e. split; [by eapply lookup_weaken|done].
  - intros Hu. apply adjust_exact; [|by eapply rowsWf_sub]. eapply usageExact_ext; [|done]. unfold usage. congruence.
Qed.

Lemma removeBodies_sound removable es : ∀ c fs, sound P Q c (removeBodies removable c fs es).1 ∧ (removeBodies removable c fs es).2 ⊆ fs.
Proof.
  unfold removeBodies. induction es as [|e es IH]; intros c fs; simpl; [split; [apply sound_refl|done]|].
  destruct (IH (deleteEntry c e.(KeyDigest)) (if removable e.(BodyPath) then delete e.(BodyPath) fs else fs)) as [Hs Hf].
  split; [eapply sound_trans; [apply deleteEntry_sound|done]|]. etrans; [done|]. case_goal; [apply delete_subseteq|done].
Qed.

Lemma removeCacheBodies_shrink scan removable s kept removed : rowsWf s.(rows) → kept ⊆ s.(rows) →
  rowBytes kept + rowBytes removed = rowBytes s.(rows) → (size kept + size removed = size s.(rows))%nat →
  shrink s (removeCacheBodies scan removable s kept removed).
Proof.
  intros Hw Hk Hb Hn. unfold removeCacheBodies, totalSize. pose proof (removeBodies_sound removable (scan removed) s.(cache) s.(files)) as [Hs Hf].
  destruct (removeBodies _ _ _ _) as [c fs]. cbn in Hs, Hf.
  replace (- rowBytes removed) with (rowBytes kept - rowBytes s.(rows)) by lia.
  replace (- Z.of_nat (size removed)) with (Z.of_nat (size kept) - Z.of_nat (size s.(rows))) by lia. by apply shrink_drop.
Qed.

(** A table split by a condition, the rows that meet it taken out. *)
Lemma split_shrink (F : string * PublicCacheEntry → Prop) `{∀ x, Decision (F x)} scan removable s :
  rowsWf s.(rows) →
  shrink s (removeCacheBodies scan removable s (filter (λ kv, ¬ F kv) s.(rows)) (filter F s.(rows))).
Proof.
  intros Hw. pose proof (rowBytes_split F s.(rows)) as [Hb Hn].
  apply removeCacheBodies_shrink; [done|apply map_filter_subseteq|lia|lia].
Qed.

Lemma delete_shrink s c d e (fs : gmap string (list Byte.byte)) : sound P Q s.(cache) c → rowsWf s.(rows) →
  s.(rows) !! d = Some e → fs ⊆ s.(files) →
  shrink s (mkStore (adjustStorageUsage c (- e.(SizeBytes)) (-1)) (delete d s.(rows)) fs).
Proof.
  intros Hs Hw E Hf. pose proof (rowBytes_delete _ _ _ E) as Hb. pose proof (size_delete_Z _ _ _ E) as Hn.
  replace (- e.(SizeBytes)) with (rowBytes (delete d s.(rows)) - rowBytes s.(rows)) by lia.
  replace (-1) with (Z.of_nat (size (delete d s.(rows))) - Z.of_nat (size s.(rows))) by lia.
  apply shrink_drop; [done..|apply delete_subseteq|done].
Qed.

(** The entry that is invalidated may be an old copy, but of the same row. *)
Lemma invalidate_shrink removable dbOK s e : rowsWf s.(rows) →
  (∀ x, s.(rows) !! e.(KeyDigest) = Some x → x.(StoredAt) = e.(StoredAt) → x.(SizeBytes) = e.(SizeBytes)) →
  shrink s (invalidatePublicCacheEntry removable dbOK s e).
Proof.
  intros Hw He. pose proof (shrink_refl s) as Hrefl.
  unfold invalidatePublicCacheEntry. case_goal; [done|]. unfold DeletePublicCacheEntryGeneration.
  assert (Hg := deleteEntryGeneration_sound P Q s.(cache) e.(KeyDigest) e.(StoredAt)).
  destruct (s.(rows) !! e.(KeyDigest)) as [x|] eqn:E; [|by apply (shrink_sound s)].
  destruct (Z.eqb_spec x.(StoredAt) e.(StoredAt)) as [Et|]; cbn; [|by apply (shrink_sound s)].
  rewrite <-(He x eq_refl Et). apply delete_shrink; [done..|]. case_goal; [apply delete_subseteq|done].
Qed.

Lemma evictRound_shrink removable deleteOK cfg victims : ∀ s tb ec, rowsWf s.(rows) →
  NoDup (KeyDigest <$> victims) → (∀ e, e ∈ victims → s.(rows) !! e.(KeyDigest) = Some e) →
  shrink s (evictRound removable deleteOK cfg s tb ec victims).1.
Proof.
  induction victims as [|e victims IH]; intros s tb ec Hw Hnd Hv; cbn [evictRound]; [apply shrink_refl|].
  apply NoDup_cons in Hnd as [Hn Hnd]. case_goal; [apply IH; [done..|]; intros x Hx; apply Hv; by right|].
  set (s' := mkStore _ _ _). assert (Hs : shrink s s').
  { apply delete_shrink; [apply deleteEntry_sound|done|apply Hv; by left|]. case_goal; [apply delete_subseteq|done]. }
  case_goal; [done|]. eapply shrink_trans; [done|]. apply IH; [by eapply shrink_wf|done|].
  intros x Hx. cbn. unfold DeletePublicCacheEntry. rewrite lookup_delete_ne; [apply Hv; by right|].
  intros Ed. apply Hn. rewrite Ed. by apply list_elem_of_fmap_2.
Qed.

Lemma values_digests rows : rowsWf rows → KeyDigest <$> values rows = (map_to_list rows).*1.
Proof.
  intros Hw. unfold values. rewrite <-list_fmap_compose. apply list_fmap_ext. intros i [d e] E. cbn.
  apply list_elem_of_lookup_2, elem_of_map_to_list in E. by apply (Hw d).
Qed.

Lemma evictLoop_shrink scan removable deleteOK listOK cfg fuel : (∀ rows, scan rows ≡ₚ values rows) → ∀ s tb ec s',
  rowsWf s.(rows) →
  CacheStore.evictLoop scan removable deleteOK listOK cfg fuel s tb ec = Some s' → shrink s s'.
Proof.
  intros Hscan. induction fuel as [|fuel IH]; intros s tb ec s' Hw E; cbn [CacheStore.evictLoop] in E; [done|].
  pose proof (shrink_refl s) as Hrefl.
  case_hyp E; [by injection E as <-|]. destruct listOK; [|by injection E as <-].
  destruct (ListPublicCacheEntriesForCleanup scan s.(rows) 100) as [|v victims] eqn:Ev; [by injection E as <-|].
  assert (Hs : shrink s (evictRound removable deleteOK cfg s tb ec (v :: victims)).1).
  { unfold ListPublicCacheEntriesForCleanup in Ev. rewrite <-Ev. apply evictRound_shrink; [done..| |].
    - rewrite fmap_take. eapply sublist_NoDup; [|apply sublist_take]. rewrite ClientIdentity.sortBy_perm, Hscan, values_digests by done.
      apply NoDup_fst_map_to_list.
    - intros e He. apply values_elem; [done|]. rewrite <-Hscan, <-(ClientIdentity.sortBy_perm accessAsc).
      eapply sublist_subseteq; [apply sublist_take|done]. }
  destruct (evictRound _ _ _ _ _ _ _) as [s1 [tb1 ec1]]. cbn in Hs. eapply shrink_trans; [done|].
  eapply IH; [by eapply shrink_wf|done].
Qed.

Lemma ensure_shrink s (sumOK : bool) : rowsWf s.(rows) →
  shrink s (withCache s (ensureStorageUsageLocked s.(cache) (if sumOK then Some (SumPublicCacheBytes s.(rows)) else None)).1).
Proof.
  intros Hw. unfold ensureStorageUsageLocked. case_goal; [by destruct s; apply shrink_refl|].
  destruct sumOK; cbn; [|by destruct s; apply shrink_refl]. pose proof (rowBytes_nonneg _ Hw).
  split; cbn; [by intros []|done|by eauto|done|]. intros _ _. cbn. lia.
Qed.

Lemma cleanup_shrink scan removable deleteOK sumOK expireOK listOK fuel s now s' : (∀ rows, scan rows ≡ₚ values rows) →
  rowsWf s.(rows) →
  maybeCleanup scan removable deleteOK sumOK expireOK listOK fuel s now = Some s' → shrink s s'.
Proof.
  intros Hscan Hw E. unfold maybeCleanup in E. case_hyp E; [injection E as <-; apply shrink_refl|].
  set (s1 := withCache s (withCleanup s.(cache) now)).
  assert (H1 : shrink s s1) by (apply shrink_sound; split; [by intros []|done]).
  pose proof (ensure_shrink s1 sumOK Hw) as H2. cbn in H2. apply (shrink_trans _ _ _ H1) in H2.
  destruct (ensureStorageUsageLocked _ _) as [c ok]. cbn in E, H2. set (s2 := withCache s1 c) in *.
  change (mkStore c s.(rows) s.(files)) with s2 in E. case_hyp E; [by injection E as <-|].
  assert (H3 : shrink s (if expireOK : bool then removeCacheBodies scan removable s2
    (filter (λ kv, ¬ kv.2.(ExpiresAt) ≤ now) s2.(rows)) (filter (λ kv, kv.2.(ExpiresAt) ≤ now) s2.(rows)) else s2)).
  { destruct expireOK; [|done]. eapply shrink_trans; [done|]. apply (split_shrink (λ kv, kv.2.(ExpiresAt) ≤ now)). by eapply shrink_wf. }
  eapply shrink_trans; [done|]. eapply evictLoop_shrink; [done|by eapply shrink_wf|]. exact E.
Qed.

Lemma purgeRule_shrink scan removable dbOK s id : rowsWf s.(rows) →
  shrink s (purgePublicCacheEntriesByRuleID scan removable dbOK s id).
Proof.
  intros Hw. unfold purgePublicCacheEntriesByRuleID. case_goal; [apply shrink_refl|].
  apply (split_shrink (λ kv, kv.2.(RuleID) = id)); done.
Qed.

Definition purgedStore (s : store) : store := withCache s (invalidateEntriesLocked s.(cache)).

(** A purge that is accepted raises the generation first. *)
Lemma purge_shrink scan removable dbOK s req : rowsWf s.(rows) →
  let res := PurgePublicCache scan removable dbOK s req in
  (res = (s, PurgeInvalid)) ∨ (res.2 ≠ PurgeInvalid ∧ shrink (purgedStore s) res.1).
Proof.
  intros Hw. assert (Hcase : ∀ (F : string * PublicCacheEntry → Prop) `{∀ x, Decision (F x)} n b,
    let res := if negb dbOK then (purgedStore s, PurgeDBError) else (removeCacheBodies scan removable (purgedStore s)
      (filter (λ kv, ¬ F kv) s.(rows)) (filter F s.(rows)), Purged n b) in res.2 ≠ PurgeInvalid ∧ shrink (purgedStore s) res.1).
  { intros F ? n b. destruct dbOK; cbn; (split; [done|]); [by apply (split_shrink F scan removable (purgedStore s))|by apply shrink_refl]. }
  destruct req as [|id|host prefix]; unfold PurgePublicCache; cbn zeta.
  - right. destruct dbOK; cbn; (split; [done|]); [|by apply shrink_refl]. apply (removeCacheBodies_shrink scan removable (purgedStore s)); try done.
    apply map_empty_subseteq.
  - right. by apply (Hcase (λ kv, kv.2.(RuleID) = id)).
  - case_goal; [by left|]. case_goal; [by left|]. right. set (h := WafCookies.normalizeRequestHost host). set (q := TrimSpace prefix).
    assert (Ef : filter (λ kv : string * PublicCacheEntry, purgedByHostPath h q kv.2 = false) s.(rows)
      = filter (λ kv, ¬ purgedByHostPath h q kv.2 = true) s.(rows)).
    { apply map_filter_ext. intros d e _. by rewrite not_true_iff_false. }
    unfold PurgePublicCacheEntriesByHostPath. rewrite Ef. by apply (Hcase (λ kv, purgedByHostPath h q kv.2 = true)).
Qed.
End shrink.

(** ** Readers *)

Section readers.
Context {CC : CacheCodec} {LC : LookupCodec}.
Variable dir : string.

Lemma readingOk_epochs n m rg : n ≤ m → readingOk dir n rg → readingOk dir m rg.
Proof. intros Hle []. split; [lia|done..]. Qed.
Lemma decidedOk_epochs n m dd : n ≤ m → decidedOk n dd → decidedOk m dd.
Proof. intros Hle []. split; [lia|done..]. Qed.
Lemma storedOk_epochs n m s : n ≤ m → storedOk dir n s → storedOk dir m s.
Proof. intros Hle []. split; [by eapply readingOk_epochs|done..]. Qed.

(** A chunk leaves everything but the content alone. *)
Lemma absorb_frame writeOK rd chunk : ∃ content buffer n large, absorb writeOK rd chunk = withProgress rd content buffer n large.
Proof.
  unfold absorb. case_goal; [|case_goal; by eexists _, _, _, _].
  exists rd.(tmp), rd.(memoryBuffer), rd.(bytesWritten), rd.(tooLarge). by destruct rd.
Qed.

Lemma absorb_ok epochs writeOK rg chunk : readingOk dir epochs rg →
  readingOk dir epochs (withReader rg (absorb writeOK rg.(reader) chunk) chunk).
Proof.
  intros Hok. assert (Hc : (absorb writeOK rg.(reader) chunk).(committed) = rg.(reader).(committed)).
  { by destruct (absorb_frame writeOK rg.(reader) chunk) as (? & ? & ? & ? & ->). }
  assert (Hcontent : (absorb writeOK rg.(reader) chunk).(committed) = false → (absorb writeOK rg.(reader) chunk).(tooLarge) = false →
    (absorb writeOK rg.(reader) chunk).(tmp) = (rg.(received) ++ chunk)%list
    ∧ (absorb writeOK rg.(reader) chunk).(bytesWritten) = Z.of_nat (length (rg.(received) ++ chunk)%list)
    ∧ (∀ body, (absorb writeOK rg.(reader) chunk).(memoryBuffer) = Some body → body = (rg.(received) ++ chunk)%list)
    ∧ (0 < (absorb writeOK rg.(reader) chunk).(maxBytes) →
       (absorb writeOK rg.(reader) chunk).(bytesWritten) ≤ (absorb writeOK rg.(reader) chunk).(maxBytes))).
  { rewrite Hc. intros H1 H2. pose proof (rg_content _ _ _ Hok H1) as Hold. unfold absorb in *.
    destruct (length chunk =? 0)%nat eqn:En; cbn [orb] in *.
    - apply Nat.eqb_eq, nil_length_inv in En as ->. rewrite app_nil_r. by apply Hold.
    - destruct rg.(reader).(tooLarge) eqn:Et; cbn [orb] in *; [congruence|]. destruct (Hold eq_refl) as (Ht & Hb & Hm & Hl).
      destruct ((0 <? _) && _) eqn:El; [done|]. cbn in *. destruct writeOK; [|done]. rewrite length_app. bprop.
      split_and!; [by rewrite Ht|lia| |lia]. intros body. destruct rg.(reader).(memoryBuffer) as [buffer|] eqn:Eb; [|done].
      case_goal; [|done]. intros [= <-]. by rewrite (Hm buffer). }
  destruct (absorb_frame writeOK rg.(reader) chunk) as (content & buffer & n & large & E). rewrite E in *.
  destruct Hok. by split.
Qed.

Lemma Close_ok epochs rg : readingOk dir epochs rg → readingOk dir epochs (withReader rg (Close rg.(reader)) []).
Proof.
  intros []. unfold Close. case_goal; split; try done; cbn; rewrite app_nil_r; done.
Qed.

Lemma markStoreFailed_end rd d : ∃ d', markStoreFailed (withEnd rd d true rd.(closed)) = withEnd rd d' true rd.(closed).
Proof. unfold markStoreFailed. case_goal; by eexists. Qed.

(** When the row cannot be written, a file is what it was, or gone. *)
Lemma restore_sub env fs path content : env.(removeOK) = true → restoreBody env fs (<[path := content]> fs) path ⊆ fs.
Proof.
  intros Hr. unfold restoreBody. rewrite Hr. destruct (fs !! path) as [previous|] eqn:E.
  - assert (Hi : <[path := previous]> fs = fs) by by apply insert_id. assert (Hd : delete path fs ⊆ fs) by apply delete_subseteq.
    destruct env.(restoreOK); [by rewrite insert_insert_eq, Hi|]. rewrite delete_insert_eq.
    destruct env.(retryOK); [|done]. by rewrite insert_delete_eq, Hi.
  - by rewrite delete_insert_id.
Qed.

(** The two outcomes of a commit. *)
Record notStored (s s' : store) : Prop := {
  ns_rows : s'.(rows) = s.(rows);
  ns_files : s'.(files) ⊆ s.(files);
  ns_cache : s'.(cache) = s.(cache) ∨ ∃ t, s.(cache).(lastStoredAt) < t ∧ s'.(cache) = withStoredAt s.(cache) t }.

Definition countedRow (c : publicProxyCache) (rows : gmap string PublicCacheEntry) (e : PublicCacheEntry) : publicProxyCache :=
  adjustStorageUsage c (e.(SizeBytes) - match rows !! e.(KeyDigest) with Some old => old.(SizeBytes) | None => 0 end)
    (match rows !! e.(KeyDigest) with Some _ => 0 | None => 1 end).
Definition rememberBody (env : commitEnv) (c : publicProxyCache) (rd : publicCacheStoreReadCloser) (t : Z) : publicProxyCache :=
  match rd.(memoryBuffer) with
  | Some body => putMemory env.(commitIterate) c rd.(keyDigest) t env.(commitMemoryAt) body
  | None => c
  end.

Record nowStored (env : commitEnv) (s : store) (rd : publicCacheStoreReadCloser) (s' : store) (t : Z) : Prop := {
  st_open : rd.(committed) = false ∧ rd.(tooLarge) = false;
  st_current : generationMatches s.(cache) rd.(readerGeneration) rd.(readerFingerprint) = true;
  st_time : s.(cache).(lastStoredAt) < t;
  st_rows : s'.(rows) = <[rd.(keyDigest) := storedRow rd t]> s.(rows);
  st_files : s'.(files) = <[rd.(finalPath) := rd.(tmp)]> s.(files);
  st_cache : s'.(cache) = rememberBody env (putIndexEntry (countedRow (withStoredAt s.(cache) t) s.(rows) (storedRow rd t))
    (storedRow rd t) env.(commitIndexAt)) rd t }.

Lemma nextStoredAt_later c now : ∃ t, nextStoredAt c now = (withStoredAt c t, t) ∧ c.(lastStoredAt) < t.
Proof.
  unfold nextStoredAt. destruct (Z.ltb_spec c.(lastStoredAt) now); cbn; [by exists now|]. eexists. split; [done|]. unfold nanosecond. lia.
Qed.

Lemma commitFenced_cases env s rd d s' rd' : env.(removeOK) = true → rd.(committed) = false → rd.(tooLarge) = false →
  generationMatches s.(cache) rd.(readerGeneration) rd.(readerFingerprint) = true →
  commitFenced env s (withEnd rd d true rd.(closed)) = (s', rd') →
  (∃ d, rd' = withEnd rd d true rd.(closed)) ∧ (notStored s s' ∨ ∃ t, nowStored env s rd s' t).
Proof.
  intros Hr Ho Ht Hg E. destruct (markStoreFailed_end rd d) as [d' Hm]. unfold commitFenced in E. rewrite Hm in E.
  assert (Hns : notStored s s) by (split; [done|done|by left]).
  do 5 (case_hyp E; [injection E as <- <-; split; [by eexists|by left]|]).
  destruct (nextStoredAt_later s.(cache) env.(commitStoredAt)) as (t & En & Hlt). rewrite En in E.
  case_hyp E; injection E as <- <-; (split; [by eexists|]).
  - left. split; cbn; [done|by apply restore_sub|]. right. by exists t.
  - right. exists t. by split.
Qed.

Lemma commit_cases env s rd s' rd' : env.(removeOK) = true → commit env s rd = (s', rd') →
  (∃ d, rd' = withEnd rd d true rd.(closed)) ∧ (notStored s s' ∨ ∃ t, nowStored env s rd s' t).
Proof.
  intros Hr E. assert (Hns : notStored s s) by (split; [done|done|by left]). unfold commit in E.
  destruct rd.(committed) eqn:Ec.
  { injection E as <- <-. split; [|by left]. exists rd.(decision). destruct rd. cbn in *. by subst. }
  cbn in E. destruct rd.(tooLarge) eqn:Et.
  { injection E as <- <-. split; [apply markStoreFailed_end|by left]. }
  case_hyp E; [injection E as <- <-; split; [by eexists|by left]|]. bprop. by eapply commitFenced_cases.
Qed.

(** A read: the content grows, and at the end of the response it may be stored. *)
Lemma Read_cases env writeOK s rg chunk res s' rd' epochs : env.(removeOK) = true → readingOk dir epochs rg →
  Read writeOK env s rg.(reader) chunk res = (s', rd') →
  readingOk dir epochs (withReader rg rd' chunk)
  ∧ (notStored s s' ∨ ∃ d t, let rd := absorb writeOK rg.(reader) chunk in
       rd' = withEnd rd d true rd.(closed) ∧ nowStored env s rd s' t).
Proof.
  intros Hr Hok E. pose proof (absorb_ok epochs writeOK rg chunk Hok) as Ha. unfold Read in E.
  assert (Hns : notStored s s) by (split; [done|done|by left]).
  destruct res; [injection E as <- <-; split; [done|by left]| |injection E as <- <-; split; [done|by left]].
  apply commit_cases in E as [[d ->] Hcase]; [|done]. split.
  - destruct Ha. split; done.
  - destruct Hcase as [|[t Hst]]; [by left|right]. by exists d, t.
Qed.
End readers.

(** ** The invariant holds *)

Lemma cacheFrom_mono (P P' : PublicCacheEntry → Prop) (Q Q' : string → Z → list Byte.byte → Prop) c :
  (∀ e, P e → P' e) → (∀ d t b, Q d t b → Q' d t b) → cacheFrom P Q c → cacheFrom P' Q' c.
Proof. intros HP HQ [Hi Hq]. split; [intros d ie E; apply HP, (Hi d ie E)|intros d m E; apply HQ, (Hq d m E)]. Qed.

Lemma substring_length n m s : (n + m <= String.length s)%nat → String.length (String.substring n m s) = m.
Proof.
  revert n m. induction s as [|c s IH]; intros [|n] [|m] H; simpl in *; try lia; try done; try (apply IH; lia); f_equal; apply IH; lia.
Qed.

Lemma shard_length d from : (from <= 2)%nat → String.length (shard d from) = 2%nat.
Proof. intros H. unfold shard. destruct (Nat.leb_spec 4 (String.length d)); [|done]. apply substring_length. lia. Qed.

Lemma append_cancel a b c d : String.length a = String.length c → (a ++ b = c ++ d)%string → a = c ∧ b = d.
Proof.
  revert c. induction a as [|x a IH]; intros [|y c] Hl E; autorewrite with gostring in E; simpl in *; try discriminate; [done|].
  injection E as -> E. injection Hl as Hl. destruct (IH _ Hl E) as [-> ->]. done.
Qed.
(** Digests do not share files. *)
Lemma bodyPath_inj dir d1 d2 : bodyPath dir d1 = bodyPath dir d2 → d1 = d2.
Proof.
  unfold bodyPath. intros E. do 2 apply append_cancel in E as [_ E]; [|done..].
  apply append_cancel in E as [_ E]; [|by rewrite !shard_length by lia]. apply append_cancel in E as [_ E]; [|done].
  apply append_cancel in E as [_ E]; [|by rewrite !shard_length by lia]. apply append_cancel in E as [_ E]; [|done].
  by eapply string_app_inj_r.
Qed.

Section invariant.
Context {CC : CacheCodec} {LC : LookupCodec}.
Variable dir : string.
Notation worldOk := (worldOk dir).
Notation step := (step dir).

Lemma fromHistory_touched h e now hits : fromHistory h e → fromHistory h (touched e now hits).
Proof. intros (x & Hx & Hf). by exists x. Qed.
Lemma fromHistory_frozen h e e' : frozen e = frozen e' → fromHistory h e → fromHistory h e'.
Proof. intros Hf (x & Hx & Hx'). exists x. split; [done|congruence]. Qed.

Lemma worldOk_wf w : worldOk w → rowsWf w.(st).(rows).
Proof.
  intros Hw d e E. destruct (ok_rows _ _ Hw _ _ E) as [Hd (x & Hx & Hf)]. split; [done|].
  destruct (ok_history _ _ Hw _ Hx) as [Ho _]. apply frozen_fields in Hf as (_ & _ & <- & _).
  rewrite (so_row _ _ _ Ho). cbn. rewrite (so_size _ _ _ Ho). lia.
Qed.

(** Two entries of the history written at the same time are the same. *)
Lemma fromHistory_unique w e e' : worldOk w → fromHistory w.(history) e → fromHistory w.(history) e' →
  e.(StoredAt) = e'.(StoredAt) → frozen e = frozen e'.
Proof.
  intros Hw (x & Hx & Hf) (x' & Hx' & Hf') Ht. pose proof (frozen_fields _ _ Hf) as (_ & _ & _ & E & _).
  pose proof (frozen_fields _ _ Hf') as (_ & _ & _ & E' & _). rewrite <-Hf, <-Hf'. f_equal. f_equal.
  apply (ok_unique _ _ Hw); [done..|congruence].
Qed.

(** A world with fewer rows and files, and other parts that are as they should be. *)
Lemma ok_next w s known' decisions' readers' epochs' : worldOk w → w.(epochs) ≤ epochs' →
  cacheFrom (fromHistory w.(history)) (copyFrom w.(history)) s.(cache) →
  w.(st).(cache).(lastStoredAt) ≤ s.(cache).(lastStoredAt) → s.(cache).(generation) = u64 epochs' →
  (∀ d e', s.(rows) !! d = Some e' → ∃ e, w.(st).(rows) !! d = Some e ∧ frozen e = frozen e') →
  s.(files) ⊆ w.(st).(files) → (usageExact w.(st).(cache) w.(st).(rows) → usageExact s.(cache) s.(rows)) →
  (∀ e, e ∈ known' → fromHistory w.(history) e) → (∀ dd, dd ∈ decisions' → decidedOk epochs' dd) →
  map_Forall (λ _ rg, readingOk dir epochs' rg) readers' →
  worldOk (mkWorld s known' decisions' readers' w.(history) epochs' w.(cascaded)).
Proof.
  intros Hw He Hc Hl Hg Hr Hf Hu Hk Hd Hrd. split; cbn; try done.
  - intros x Hx. destruct (ok_history _ _ Hw _ Hx) as [Ho Ht]. split; [by eapply storedOk_epochs|lia].
  - apply (ok_unique _ _ Hw).
  - intros d e' E. destruct (Hr _ _ E) as (e & E0 & Hfr). destruct (ok_rows _ _ Hw _ _ E0) as [Hd' Hh].
    split; [|by eapply fromHistory_frozen]. apply frozen_fields in Hfr as (<- & _). done.
  - intros d e' body E Eb. destruct (Hr _ _ E) as (e & E0 & Hfr). apply frozen_fields in Hfr as (_ & Ep & _ & Et & _).
    rewrite <-Et. rewrite <-Ep in Eb. eapply (ok_files _ _ Hw); [done|]. by eapply lookup_weaken.
  - pose proof (ok_epochs _ _ Hw). lia.
  - intros Hn. by apply Hu, (ok_usage _ _ Hw).
Qed.

Lemma ok_shrink w s es : worldOk w → shrink (fromHistory w.(history)) (copyFrom w.(history)) w.(st) s →
  (∀ e, e ∈ es → fromHistory w.(history) e) → worldOk (learn w s es).
Proof.
  intros Hw [Hc [Hl Hg] Hr Hf Hu] Hes. apply ok_next; try done.
  - apply Hc, (ok_cache _ _ Hw).
  - lia.
  - rewrite Hg. apply (ok_generation _ _ Hw).
  - intros e [He|He]%elem_of_app; [by apply Hes|by apply (ok_known _ _ Hw)].
  - apply (ok_decisions _ _ Hw).
  - apply (ok_readers _ _ Hw).
Qed.
Lemma ok_withStore w s : worldOk w → shrink (fromHistory w.(history)) (copyFrom w.(history)) w.(st) s → worldOk (withStore w s).
Proof. intros Hw Hs. apply (ok_shrink w s []); [done..|]. by intros e ?%elem_of_nil. Qed.

(** A step that raises the generation. *)
Lemma ok_raise w s n : worldOk w → 0 ≤ n →
  cacheFrom (fromHistory w.(history)) (copyFrom w.(history)) s.(cache) →
  w.(st).(cache).(lastStoredAt) = s.(cache).(lastStoredAt) → s.(cache).(generation) = u64 (w.(epochs) + n) →
  (∀ d e', s.(rows) !! d = Some e' → ∃ e, w.(st).(rows) !! d = Some e ∧ frozen e = frozen e') →
  s.(files) ⊆ w.(st).(files) → (usageExact w.(st).(cache) w.(st).(rows) → usageExact s.(cache) s.(rows)) → worldOk (raise w s n).
Proof.
  intros Hw Hn Hc Hl Hg Hr Hf Hu. apply ok_next; try done; [lia|lia|apply (ok_known _ _ Hw)|..].
  - intros dd Hdd. eapply decidedOk_epochs; [|by apply (ok_decisions _ _ Hw)]. lia.
  - eapply map_Forall_impl; [apply (ok_readers _ _ Hw)|]. intros id rg. apply readingOk_epochs. lia.
Qed.

(** Only the requests in flight change. *)
Lemma ok_local w decisions' readers' : worldOk w → (∀ dd, dd ∈ decisions' → decidedOk w.(epochs) dd) →
  map_Forall (λ _ rg, readingOk dir w.(epochs) rg) readers' →
  worldOk (mkWorld w.(st) w.(known) decisions' readers' w.(history) w.(epochs) w.(cascaded)).
Proof. intros Hw Hd Hr. destruct Hw. by split. Qed.

(** *** Decisions and captures *)

Lemma gate_decided snap c r resolution rule queryKey d n digest : 0 ≤ n → c.(generation) = u64 n → keyable r resolution rule →
  cacheGate snap c r resolution = Proceed rule queryKey d →
  decidedOk n (mkDecided r resolution (withDecisionEntry d publicCacheStatusMiss digest None) n).
Proof.
  intros Hn Hg Hk E. unfold cacheGate in E. do 5 (case_hyp E; [done|]). destruct (selectPublicCacheRule _ _ _ _) as [rule'| |]; [|done..].
  destruct (captureGeneration c (publicCacheSnapshotFingerprint snap)) as [g current] eqn:Ec.
  destruct (publicCacheQueryKey r rule') as [q|] eqn:Eq; [|done]. injection E as <- <- <-. split; cbn; [done| |].
  - intros ->. unfold captureGeneration in Ec. case_hyp Ec; injection Ec as <-; [done|]. done.
  - intros x [= <-]. by rewrite Eq.
Qed.

Lemma capture_ok ParseTime fsOK now expiresFrom c dd resp fields rd n : decidedOk n dd → fields ≡ₚ map_to_list resp.(RespHeader) →
  capturePublicCacheResponseBody ParseTime dir fsOK now expiresFrom c dd.(decRequest) dd.(decResolution) dd.(decDecision) resp fields
    = Some rd → readingOk dir n (mkReading rd dd.(decRequest) resp fields [] dd.(decEpoch)).
Proof.
  intros [He Hg Hr] Hf E. unfold capturePublicCacheResponseBody in E. destruct dd.(decDecision).(DecisionRule) as [rule|] eqn:Erule; [|done].
  destruct (Hr _ eq_refl) as [Hk Hq]. case_hyp E; [done|]. case_hyp E; [done|].
  destruct (publicCacheResponseEligibility _ _ _ _) as [[ttl vary]|] eqn:Ee; [|done]. case_hyp E; [done|].
  destruct (publicCacheHeadersJSON fields) as [headers|] eqn:Eh; [|done]. injection E as <-. bprop.
  split; cbn; try done; [by apply Hg|by eexists _, _, _|].
  intros _ _. split_and!; [done|done| |lia]. intros body. case_goal; [by intros [= <-]|done].
Qed.

(** *** Reads *)

Lemma ok_notStored w id rg rd chunk s : worldOk w → readingOk dir w.(epochs) (withReader rg rd chunk) → notStored w.(st) s →
  worldOk (mkWorld s w.(known) w.(decisions) (<[id := withReader rg rd chunk]> w.(readers)) w.(history) w.(epochs) w.(cascaded)).
Proof.
  intros Hw Hrg [Hr Hf Hc]. assert (Hfr : ∀ (t : Z), cacheFrom (fromHistory w.(history)) (copyFrom w.(history)) (withStoredAt w.(st).(cache) t)).
  { intros t. by destruct (ok_cache _ _ Hw). }
  apply ok_next; try done.
  - destruct Hc as [-> |(t & _ & ->)]; [apply (ok_cache _ _ Hw)|done].
  - destruct Hc as [-> |(t & Ht & ->)]; cbn; lia.
  - destruct Hc as [-> |(t & _ & ->)]; apply (ok_generation _ _ Hw).
  - rewrite Hr. by eauto.
  - rewrite Hr. by destruct Hc as [-> |(t & _ & ->)].
  - apply (ok_known _ _ Hw).
  - apply (ok_decisions _ _ Hw).
  - apply map_Forall_insert_2; [done|apply (ok_readers _ _ Hw)].
Qed.

Lemma stored_item n env s0 rg rd d c s t : readingOk dir n (withReader rg rd c) → nowStored env s0 rd s t →
  storedOk dir n (mkStored (storedRow rd t) (withReader rg (withEnd rd d true rd.(closed)) c)).
Proof.
  intros Hok Hst. destruct (st_open _ _ _ _ _ Hst) as [H1 H2]. destruct (rg_content _ _ _ Hok H1 H2) as (_ & Hb & _ & Hl). cbn in Hb, Hl.
  pose proof (rg_limit _ _ _ Hok) as Hm. cbn in Hm. split; cbn; [destruct Hok; by split|done|done|]. rewrite <-Hb, <-Hm. done.
Qed.

Lemma counted_clock c rows e : (countedRow c rows e).(lastStoredAt) = c.(lastStoredAt) ∧ (countedRow c rows e).(generation) = c.(generation).
Proof.
  pose proof (adjust_control c (e.(SizeBytes) - match rows !! e.(KeyDigest) with Some old => old.(SizeBytes) | None => 0 end)
    (match rows !! e.(KeyDigest) with Some _ => 0 | None => 1 end)) as H. unfold control in H. by injection H.
Qed.

Lemma counted_exact c rows e : usageExact c rows → rowsWf (<[e.(KeyDigest) := e]> rows) →
  usageExact (countedRow c rows e) (<[e.(KeyDigest) := e]> rows).
Proof.
  intros Hu Hw. pose proof (adjust_exact c rows _ Hu Hw) as H. revert H. unfold countedRow. rewrite rowBytes_insert, map_size_insert.
  destruct (rows !! e.(KeyDigest)) as [old|].
  - by replace (rowBytes rows - old.(SizeBytes) + e.(SizeBytes) - rowBytes rows) with (e.(SizeBytes) - old.(SizeBytes)) by lia;
      rewrite Z.sub_diag.
  - replace (rowBytes rows - 0 + e.(SizeBytes) - rowBytes rows) with (e.(SizeBytes) - 0) by lia.
    by replace (Z.of_nat (S (size rows)) - Z.of_nat (size rows)) with 1 by lia.
Qed.

Lemma history_path w x : worldOk w → x ∈ w.(history) → x.(row).(BodyPath) = bodyPath dir x.(row).(KeyDigest).
Proof.
  intros Hw Hx. destruct (ok_history _ _ Hw _ Hx) as [[Hr Hrow _ _] _]. rewrite Hrow. cbn. apply (rg_path _ _ _ Hr).
Qed.

Lemma ok_nowStored w id rg rd d c env s t : worldOk w → readingOk dir w.(epochs) (withReader rg rd c) → nowStored env w.(st) rd s t →
  worldOk (mkWorld s w.(known) w.(decisions) (<[id := withReader rg (withEnd rd d true rd.(closed)) c]> w.(readers))
    (mkStored (storedRow rd t) (withReader rg (withEnd rd d true rd.(closed)) c) :: w.(history)) w.(epochs) w.(cascaded)).
Proof.
  intros Hw Hok Hst. pose proof (stored_item _ _ _ rg rd d c s t Hok Hst) as Hitem. set (x := mkStored _ _) in *.
  destruct (st_open _ _ _ _ _ Hst) as [H1 H2]. destruct (rg_content _ _ _ Hok H1 H2) as (Htmp & Hb & Hm & _). cbn in Htmp, Hb, Hm.
  assert (Hmono : ∀ e, fromHistory w.(history) e → fromHistory (x :: w.(history)) e) by (intros e (y & Hy & Hf); exists y; split; [by right|done]).
  assert (Hmono' : ∀ k u b, copyFrom w.(history) k u b → copyFrom (x :: w.(history)) k u b).
  { intros k u b (y & Hy & Hf). exists y. split; [by right|done]. }
  assert (Hx : fromHistory (x :: w.(history)) (storedRow rd t)) by (exists x; split; [by left|done]).
  assert (Hq : ∀ k b, k = rd.(keyDigest) → b = rg.(received) ++ c → copyFrom (x :: w.(history)) k t b).
  { intros k b -> ->. exists x. by split; [left|]. }
  set (c0 := countedRow (withStoredAt w.(st).(cache) t) w.(st).(rows) (storedRow rd t)).
  assert (Hc0 : cacheFrom (fromHistory (x :: w.(history))) (copyFrom (x :: w.(history))) c0).
  { apply adjust_from. destruct (cacheFrom_mono _ _ _ _ _ Hmono Hmono' (ok_cache _ _ Hw)). by split. }
  assert (Hs : sound (fromHistory (x :: w.(history))) (copyFrom (x :: w.(history))) c0 s.(cache)).
  { rewrite (st_cache _ _ _ _ _ Hst). fold c0. unfold rememberBody.
    destruct rd.(memoryBuffer) as [body|] eqn:Ebuf; [|by apply putIndexEntry_sound]. eapply sound_trans; [by apply putIndexEntry_sound|].
    apply putMemory_sound, Hq; [done|by apply Hm]. }
  destruct Hs as [Hcf Hcore]. unfold core in Hcore. injection Hcore as Hl Hg Hi Hbb Hn.
  destruct (counted_clock (withStoredAt w.(st).(cache) t) w.(st).(rows) (storedRow rd t)) as [Hl0 Hg0]. cbn in Hl0, Hg0. fold c0 in Hl0, Hg0.
  pose proof (st_rows _ _ _ _ _ Hst) as Er. pose proof (st_files _ _ _ _ _ Hst) as Ef. pose proof (st_time _ _ _ _ _ Hst) as Htime.
  split; cbn.
  - intros y [-> |Hy]%elem_of_cons; [split; [done|]; cbn; lia|]. destruct (ok_history _ _ Hw _ Hy). split; [done|lia].
  - intros y1 y2 [-> |Hy1]%elem_of_cons [-> |Hy2]%elem_of_cons Ht; [done|..|by apply (ok_unique _ _ Hw)].
    + destruct (ok_history _ _ Hw _ Hy2) as [_ Hle]. cbn in Ht. lia.
    + destruct (ok_history _ _ Hw _ Hy1) as [_ Hle]. cbn in Ht. lia.
  - by apply Hcf.
  - rewrite Er. apply map_Forall_insert_2; [done|]. eapply map_Forall_impl; [apply (ok_rows _ _ Hw)|]. intros k e [Hk He]. split; [done|by apply Hmono].
  - rewrite Er, Ef. intros k e body E Eb. destruct (decide (k = rd.(keyDigest))) as [->|Hne].
    + rewrite lookup_insert_eq in E. injection E as <-. cbn in *. rewrite lookup_insert_eq in Eb. injection Eb as <-. by apply Hq.
    + rewrite lookup_insert_ne in E by done. destruct (ok_rows _ _ Hw _ _ E) as [Hk (y & Hy & Hf)].
      apply Hmono'. eapply (ok_files _ _ Hw); [done|]. rewrite lookup_insert_ne in Eb; [done|]. pose proof (rg_path _ _ _ Hok) as Hpath. cbn in Hpath. rewrite Hpath.
      apply frozen_fields in Hf as (Ed & <- & _). rewrite (history_path _ _ Hw Hy), Ed, Hk. intros Hp. by apply Hne, symmetry, (bodyPath_inj dir).
  - intros e He. by apply Hmono, (ok_known _ _ Hw).
  - apply (ok_decisions _ _ Hw).
  - apply map_Forall_insert_2; [apply Hitem|apply (ok_readers _ _ Hw)].
  - apply (ok_epochs _ _ Hw).
  - rewrite Hg, Hg0. apply (ok_generation _ _ Hw).
  - intros Hlost. assert (Hwf : rowsWf s.(rows)).
    { rewrite Er. apply map_Forall_insert_2; [|by apply worldOk_wf]. cbn. split; [done|lia]. }
    apply (usageExact_ext c0); [unfold usage; congruence|]. rewrite Er in *. apply counted_exact; [by apply (ok_usage _ _ Hw)|done].
Qed.

Lemma candidates_rows scan (rows : gmap string PublicCacheEntry) lk now e : (∀ rows, scan rows ≡ₚ values rows) → rowsWf rows →
  e ∈ ListPublicCacheEntryCandidates scan rows lk now → rows !! e.(KeyDigest) = Some e.
Proof.
  intros Hscan Hw He. unfold ListPublicCacheEntryCandidates in He.
  apply (sublist_subseteq _ _ (sublist_take _ _)) in He. rewrite ClientIdentity.sortBy_perm in He.
  apply list_elem_of_filter in He as [_ He]. rewrite Hscan in He. by apply values_elem.
Qed.

Lemma generation_raise w : worldOk w → u64 (w.(st).(cache).(generation) + 1) = u64 (w.(epochs) + 1).
Proof. intros Hw. rewrite (ok_generation _ _ Hw). unfold u64, two64. by rewrite Zplus_mod_idemp_l. Qed.

Lemma cleared_from P Q c g : cacheFrom P Q c → cacheFrom P Q (clearIndexLocked (withGeneration c g)).
Proof. intros [Hi Hq]. split; [apply map_Forall_empty|done]. Qed.

Lemma ok_purge w scan removable dbOK req : worldOk w →
  worldOk (raise w (PurgePublicCache scan removable dbOK w.(st) req).1 (purgeRaises (PurgePublicCache scan removable dbOK w.(st) req).2)).
Proof.
  intros Hw. destruct (purge_shrink (fromHistory w.(history)) (copyFrom w.(history)) scan removable dbOK w.(st) req (worldOk_wf _ Hw))
    as [-> |[Hne [Hc [Hl Hg] Hr Hf Hu]]].
  - apply ok_raise; try done; [apply (ok_cache _ _ Hw)|cbn; rewrite Z.add_0_r; apply (ok_generation _ _ Hw)|by eauto].
  - assert (purgeRaises (PurgePublicCache scan removable dbOK w.(st) req).2 = 1) as -> by by destruct (_.2).
    apply ok_raise; try done; [|rewrite Hg; by apply generation_raise]. apply Hc, cleared_from, (ok_cache _ _ Hw).
Qed.

Lemma reconcile_from iterate c cfg rules P Q : cacheFrom P Q c → cacheFrom P Q (reconcile iterate c cfg rules)
  ∧ (reconcile iterate c cfg rules).(lastStoredAt) = c.(lastStoredAt)
  ∧ (reconcile iterate c cfg rules).(generation) = (if String.eqb c.(lastFingerprint) (publicCacheRuntimeFingerprint cfg rules)
      then c.(generation) else u64 (c.(generation) + 1))
  ∧ usage (reconcile iterate c cfg rules) = usage c.
Proof.
  intros Hc. unfold reconcile. cbn zeta. set (c1 := if _ || negb _ then clearIndexLocked _ else _).
  assert (H1 : cacheFrom P Q c1 ∧ c1.(lastStoredAt) = c.(lastStoredAt) ∧ c1.(generation) = (if String.eqb c.(lastFingerprint)
    (publicCacheRuntimeFingerprint cfg rules) then c.(generation) else u64 (c.(generation) + 1)) ∧ usage c1 = usage c).
  { destruct Hc as [Hi Hq]. unfold c1. destruct (String.eqb _ _), cfg.(SettingsEnabled); cbn; split_and!; try done; split; try done;
      apply map_Forall_empty. }
  destruct H1 as (F1 & L1 & G1 & U1). destruct (negb cfg.(SettingsEnabled) || _).
  - split_and!; try done. destruct F1. split; [done|apply map_Forall_empty].
  - destruct (prune_sound P Q iterate c1) as [Hs Hk]. unfold core in Hk. injection Hk as Hl Hg Hi Hb Hn. unfold usage in *.
    split_and!; [auto|congruence..].
Qed.

Lemma ok_reconcile w iterate cfg rules : worldOk w →
  worldOk (raise w (withCache w.(st) (reconcile iterate w.(st).(cache) cfg rules)) (reconcileRaises w.(st).(cache) cfg rules)).
Proof.
  intros Hw. destruct (reconcile_from iterate w.(st).(cache) cfg rules _ _ (ok_cache _ _ Hw)) as (F & L & G & U).
  apply ok_raise; try done; unfold reconcileRaises; [by case_goal| |by eauto|apply usageExact_ext; by symmetry].
  cbn. rewrite G. case_goal; [rewrite Z.add_0_r; apply (ok_generation _ _ Hw)|by apply generation_raise].
Qed.

Lemma touchRow_shrink P Q s d t now hits : rowsWf s.(rows) →
  shrink P Q s (mkStore s.(cache) (TouchPublicCacheEntry s.(rows) d t now hits) s.(files)).
Proof.
  intros Hw. unfold TouchPublicCacheEntry. destruct (s.(rows) !! d) as [e|] eqn:E; [|destruct s; by apply shrink_refl].
  case_goal; [|destruct s; by apply shrink_refl]. split; cbn; try done.
  - intros k e' E'. destruct (decide (k = d)) as [->|Hne].
    + rewrite lookup_insert_eq in E'. injection E' as <-. by exists e.
    + rewrite lookup_insert_ne in E' by done. by exists e'.
  - intros Hu Hi. destruct (Hu Hi) as [-> ->]. rewrite rowBytes_insert, map_size_insert, E. cbn. split; [lia|done].
Qed.

Lemma openFenced_sound P Q dbOK fileOK now s e ob : shrink P Q s (openFenced dbOK fileOK now s e ob).1.
Proof.
  pose proof (shrink_refl P Q s) as Hrefl. unfold openFenced. case_goal; [done|].
  destruct (s.(rows) !! e.(KeyDigest)); [|done]. case_goal; [done|]. case_goal; [done|].
  pose proof (getMemory_sound P Q s.(cache) e.(KeyDigest) e.(StoredAt) now) as Hs. destruct (getMemory _ _ _ _) as [c body]. cbn in Hs.
  assert (shrink P Q s (withCache s c)) by by apply shrink_sound. case_goal; [done|]. destruct fileOK; [|done]. by destruct (_ !! _).
Qed.

(** The rows of a deleted rule go; when there were none, nothing changes. *)
Lemma ok_cascade w ruleID : worldOk w → worldOk (cascade w ruleID).
Proof.
  intros Hw. pose proof (map_filter_subseteq (λ kv, kv.2.(RuleID) ≠ ruleID) w.(st).(rows)) as Hsub.
  fold (DeletePublicCacheRule w.(st).(rows) ruleID) in Hsub. destruct Hw. split; cbn; try done.
  - intros d e E. apply (ok_rows0 d). by eapply lookup_weaken.
  - intros d e body E. apply (ok_files0 d). by eapply lookup_weaken.
  - intros Hn. apply orb_false_iff in Hn as [Hn Hsize]. apply Nat.ltb_ge in Hsize.
    rewrite (map_subseteq_size_eq _ _ Hsub Hsize). by apply ok_usage0.
Qed.

Lemma step_ok w w' : worldOk w → step w w' → worldOk w'.
Proof.
  intros Hw Hstep. pose proof (worldOk_wf _ Hw) as Hwf. pose proof (ok_cache _ _ Hw) as Hc.
  destruct Hstep.
  - apply ok_local; [done| |apply (ok_readers _ _ Hw)]. intros dd [-> |Hdd]%elem_of_cons; [|by apply (ok_decisions _ _ Hw)].
    eapply gate_decided; [apply (ok_epochs _ _ Hw)|apply (ok_generation _ _ Hw)|done|done].
  - apply ok_shrink; [done|by apply shrink_sound, lookup_sound|]. intros e He. by eapply lookup_candidates.
  - apply ok_shrink; [done|by apply shrink_refl|]. intros e He. by eapply (ok_rows _ _ Hw), candidates_rows.
  - apply ok_withStore; [done|]. apply shrink_sound, storeIndexed_sound. intros e He. by apply (ok_known _ _ Hw), H.
  - apply ok_withStore; [done|]. apply shrink_sound, touchIndexed_sound. intros. by apply fromHistory_touched.
  - by apply ok_withStore, touchRow_shrink.
  - apply ok_withStore, invalidate_shrink; [done..|]. intros x E Et. apply (ok_known _ _ Hw) in H. destruct (ok_rows _ _ Hw _ _ E) as [_ Hx].
    by apply (frozen_fields _ _ (fromHistory_unique _ _ _ Hw Hx H Et)).
  - by apply ok_withStore, openFenced_sound.
  - apply ok_local; [done|apply (ok_decisions _ _ Hw)|]. apply map_Forall_insert_2; [|apply (ok_readers _ _ Hw)].
    eapply capture_ok; [by apply (ok_decisions _ _ Hw)|done|done].
  - pose proof (ok_readers _ _ Hw _ _ H) as Hrg. destruct (Read_cases dir _ _ _ _ _ _ _ _ _ H1 Hrg H2) as [Hrg' [Hns|(d & t & -> & Hst)]].
    + by apply ok_notStored.
    + exfalso. rewrite (st_rows _ _ _ _ _ Hst) in H3. pose proof (st_time _ _ _ _ _ Hst) as Hlt.
      assert (w.(st).(rows) !! (absorb writeOK rg.(reader) chunk).(keyDigest) = Some (storedRow (absorb writeOK rg.(reader) chunk) t)) as E
        by (rewrite <-H3; apply lookup_insert_eq).
      destruct (ok_rows _ _ Hw _ _ E) as [_ (x & Hx & Hf)]. apply frozen_fields in Hf as (_ & _ & _ & Et & _).
      destruct (ok_history _ _ Hw _ Hx) as [_ Hle]. rewrite Et in Hle. cbn in Hle. lia.
  - pose proof (ok_readers _ _ Hw _ _ H) as Hrg. pose proof (absorb_ok _ _ writeOK _ chunk Hrg) as Hab.
    destruct (Read_cases dir _ _ _ _ _ _ _ _ _ H1 Hrg H2) as [Hrg' [[Hns _ _]|(d & t & -> & Hst)]]; [congruence|].
    rewrite (st_rows _ _ _ _ _ Hst) in H4. cbn [withEnd keyDigest] in H4. rewrite lookup_insert_eq in H4. injection H4 as <-.
    by eapply ok_nowStored.
  - apply ok_local; [done|apply (ok_decisions _ _ Hw)|]. apply map_Forall_insert_2; [|apply (ok_readers _ _ Hw)].
    apply Close_ok. by apply (ok_readers _ _ Hw id).
  - apply ok_withStore; [done|]. by eapply cleanup_shrink.
  - by apply ok_purge.
  - by apply ok_withStore, purgeRule_shrink.
  - by apply ok_cascade.
  - by apply ok_reconcile.
  - apply ok_raise; try done; [destruct Hc; split; [apply map_Forall_empty|done]|by apply generation_raise|by eauto].
  - apply ok_withStore; [done|]. unfold storageUsageSnapshot. pose proof (ensure_shrink (fromHistory w.(history)) (copyFrom w.(history)) w.(st) sumOK Hwf) as Hs.
    by destruct (ensureStorageUsageLocked _ _).
Qed.

Lemma init_ok now : worldOk (init now).
Proof.
  split; cbn; try done; try by intros ? ?%elem_of_nil.
  by intros ? ? ?%elem_of_nil.
Qed.

Lemma reach_ok now w : rtc step (init now) w → worldOk w.
Proof. intros H. pose proof (init_ok now) as Hi. induction H; [done|]. apply IHrtc. by eapply step_ok. Qed.

(** ** Hits *)

Lemma scan_hit r resolution rule q now candidates : ∀ expired e, scanCandidates r resolution rule q now candidates = (expired, Some e) →
  e ∈ candidates ∧ publicCacheKeyDigest r resolution rule q e.(VaryHeadersJson) = e.(KeyDigest) ∧ now < e.(ExpiresAt).
Proof.
  induction candidates as [|x candidates IH]; intros expired e E; cbn [scanCandidates] in E; [done|].
  destruct (String.eqb_spec (publicCacheKeyDigest r resolution rule q x.(VaryHeadersJson)) x.(KeyDigest)) as [Ed|]; cbn [negb] in E.
  - destruct (Z.ltb_spec now x.(ExpiresAt)); cbn [negb] in E.
    + injection E as <- <-. split; [by left|done].
    + destruct (scanCandidates _ _ _ _ _ _) as [expired' hit]. injection E as _ ->.
      destruct (IH _ _ eq_refl) as (He & Hrest). split; [by right|done].
  - destruct (IH _ _ E) as (He & Hrest). split; [by right|done].
Qed.

(** A hit that is opened is of the current row, and its body the copy of that row. *)
Lemma openFenced_row dbOK fileOK now s e ob s' res : openFenced dbOK fileOK now s e ob = (s', res) → (∀ b, res ≠ OpenFailed b) →
  ∃ current, s.(rows) !! e.(KeyDigest) = Some current ∧ current.(StoredAt) = e.(StoredAt)
    ∧ ∀ body, res = OpenedBody body →
      (∃ m, s.(cache).(memoryEntries) !! e.(KeyDigest) = Some m ∧ m.(memStoredAt) = e.(StoredAt) ∧ m.(memBody) = body)
      ∨ s.(files) !! e.(BodyPath) = Some body.
Proof.
  intros E Hres. unfold openFenced in E. case_hyp E; [by injection E as <- <-; destruct (Hres false)|].
  destruct (s.(rows) !! e.(KeyDigest)) as [current|]; [|by injection E as <- <-; destruct (Hres true)].
  destruct (Z.eqb_spec current.(StoredAt) e.(StoredAt)) as [Et|]; cbn [negb] in E; [|by injection E as <- <-; destruct (Hres true)].
  exists current. split_and!; [done..|]. destruct ob; cbn [negb] in E; [|injection E as <- <-; done].
  unfold getMemory in E. destruct (is_zero_time e.(StoredAt)); [|destruct (s.(cache).(memoryEntries) !! e.(KeyDigest)) as [m|] eqn:Em].
  2: destruct (Z.eqb_spec m.(memStoredAt) e.(StoredAt)); cbn [negb] in E.
  all: cbn in E; try (case_hyp E; [injection E as <- <-; intros body [= <-]; left; by exists m|]).
  all: destruct fileOK; [|by injection E as <- <-; destruct (Hres true)].
  all: destruct (s.(files) !! e.(BodyPath)) eqn:Ef; injection E as <- <-; [intros body [= <-]; by right|by destruct (Hres true)].
Qed.

Lemma open_item w dbOK fileOK now e ob s' res : worldOk w → e ∈ w.(known) →
  openFenced dbOK fileOK now w.(st) e ob = (s', res) → (∀ b, res ≠ OpenFailed b) →
  ∃ x, x ∈ w.(history) ∧ frozen x.(row) = frozen e ∧ (∃ cur, w.(st).(rows) !! e.(KeyDigest) = Some cur ∧ frozen cur = frozen e)
    ∧ ∀ body, res = OpenedBody body → body = x.(origin).(received).
Proof.
  intros Hw He E Hres. destruct (openFenced_row _ _ _ _ _ _ _ _ E Hres) as (cur & Ec & Et & Hbody).
  apply (ok_known _ _ Hw) in He as Hfrom. destruct (ok_rows _ _ Hw _ _ Ec) as [_ Hcur].
  pose proof (fromHistory_unique _ _ _ Hw Hcur Hfrom Et) as Hf. destruct Hfrom as (x & Hx & Hfx).
  exists x. split_and!; [done|done|by exists cur|]. pose proof (frozen_fields _ _ Hfx) as (_ & _ & _ & Etx & _).
  assert (Hcopy : ∀ k body, copyFrom w.(history) k e.(StoredAt) body → body = x.(origin).(received)).
  { intros k body (y & Hy & _ & Ety & <-). f_equal. f_equal. apply (ok_unique _ _ Hw); [done..|congruence]. }
  intros body ->. destruct (Hbody _ eq_refl) as [(m & Em & Etm & <-)|Ef].
  - apply (Hcopy e.(KeyDigest)). rewrite <-Etm. by apply (cf_memory _ _ _ (ok_cache _ _ Hw)).
  - apply (Hcopy e.(KeyDigest)). rewrite <-Et. eapply (ok_files _ _ Hw); [done|].
    apply frozen_fields in Hf as (_ & -> & _). done.
Qed.

(** The identity of what is served. *)
Record answers (x : stored) (r : cacheRequest) (resolution : cacheResolution) (rule : publicCacheRuleConfig) (e : PublicCacheEntry) : Prop := {
  an_same : sameKey x.(origin).(request) x.(origin).(reader).(CacheStore.resolution) x.(origin).(reader).(CacheStore.rule)
    r resolution rule e.(VaryHeadersJson);
  an_status : e.(EntryStatusCode) = x.(origin).(response).(StatusCode);
  an_fields : x.(origin).(respFields) ≡ₚ map_to_list x.(origin).(response).(RespHeader);
  an_headers : publicCacheHeadersJSON x.(origin).(respFields) = Some e.(ResponseHeadersJson);
  an_text : map_Forall (λ _ vs, Forall (λ v, asciiString v = true) vs) e.(ResponseHeadersJson) →
    publicCacheHeadersFromJSON e.(ResponseHeadersJson) = e.(ResponseHeadersJson);
  an_eligible : ∃ ParseTime now ttl, publicCacheResponseEligibility ParseTime now x.(origin).(reader).(CacheStore.rule)
    x.(origin).(response) = Some (ttl, e.(VaryHeadersJson));
  an_size : e.(SizeBytes) = Z.of_nat (length x.(origin).(received)) }.

Lemma item_answers {CL : CacheCodecLaws} w x r resolution rule q e : worldOk w → x ∈ w.(history) → frozen x.(row) = frozen e →
  keyable r resolution rule → publicCacheQueryKey r rule = Some q →
  publicCacheKeyDigest r resolution rule q e.(VaryHeadersJson) = e.(KeyDigest) → answers x r resolution rule e.
Proof.
  intros Hw Hx Hf Hk Hq Hd. destruct (ok_history _ _ Hw _ Hx) as [[Hrg Hrow Hsize _] _].
  apply frozen_fields in Hf as (Ed & _ & Es & _ & Ev & Eh & Ec & _). rewrite Hrow in Ed, Es, Ev, Eh, Ec. cbn in Ed, Es, Ev, Eh, Ec. destruct Hrg.
  split; [|congruence|done|congruence|apply headersFromJSON_ascii| |congruence].
  - destruct (keyDigest_same x.(origin).(request) x.(origin).(reader).(CacheStore.resolution) x.(origin).(reader).(CacheStore.rule)
      x.(origin).(reader).(readerQueryKey) x.(origin).(reader).(varyJSON) r resolution rule q e.(VaryHeadersJson)) as [Hs _]; try done; congruence.
  - destruct rg_eligible0 as (P & n & ttl & H). exists P, n, ttl. by rewrite <-Ev.
Qed.


(** ** Usage *)

(** C14: In every interleaving, deletions of rules included, the usage counters, once they
    are read, are the exact bytes and the exact number of the rows, as long as no deletion of
    a rule took rows along: such rows go by the foreign key of the table and are not
    subtracted (usage_drift).  In every interleaving, the size of a row is the number of bytes
    the reader received, within the limit of its rule. *)
Theorem cache_usage_exact now w : rtc step (init now) w →
  (w.(cascaded) = false → w.(st).(cache).(storageUsageInitialized) = true →
     w.(st).(cache).(storedBodyBytes) = rowBytes w.(st).(rows) ∧ w.(st).(cache).(storedEntryCount) = Z.of_nat (size w.(st).(rows)))
  ∧ ∀ d e, w.(st).(rows) !! d = Some e → ∃ x, x ∈ w.(history) ∧ frozen x.(row) = frozen e
      ∧ e.(SizeBytes) = Z.of_nat (length x.(origin).(received))
      ∧ (0 < x.(origin).(reader).(rule).(MaxObjectBytes) → e.(SizeBytes) ≤ x.(origin).(reader).(rule).(MaxObjectBytes)).
Proof.
  intros Hreach. pose proof (reach_ok _ _ Hreach) as Hw. split; [apply (ok_usage _ _ Hw)|].
  intros d e E. destruct (ok_rows _ _ Hw _ _ E) as [_ (x & Hx & Hf)]. exists x. split_and!; [done|done|..];
    destruct (ok_history _ _ Hw _ Hx) as [[_ Hrow Hsize Hlim] _]; apply frozen_fields in Hf as (_ & _ & <- & _); rewrite Hrow; cbn; rewrite Hsize; done.
Qed.

(** The handler that deletes a rule, when nothing comes between its parts: it is a sequence
    of the steps above, and the purge leaves nothing for the foreign key to take along. *)
Lemma delete_rule_alone scan removable w ruleID : 0 < ruleID →
  ∃ w', rtc step w w' ∧ w'.(st) = deletePublicCacheRule scan removable true true w.(st) ruleID ∧ w'.(cascaded) = w.(cascaded).
Proof.
  intros Hid. set (w1 := raise w (withCache w.(st) (invalidateConfiguration w.(st).(cache))) 1).
  set (w2 := withStore w1 (purgePublicCacheEntriesByRuleID scan removable true w1.(st) ruleID)).
  assert (Hrows : DeletePublicCacheRule w2.(st).(rows) ruleID = w2.(st).(rows)).
  { cbn [w2 withStore st]. unfold purgePublicCacheEntriesByRuleID. case_goal; [bprop; lia|]. unfold PurgePublicCacheEntriesByRule, removeCacheBodies.
    destruct (removeBodies _ _ _ _). cbn. unfold DeletePublicCacheRule. rewrite map_filter_filter. apply map_filter_ext. tauto. }
  exists (cascade w2 ruleID). split_and!.
  - eapply rtc_l; [apply StepInvalidateConfiguration|]. eapply rtc_l; [apply (StepPurgeRule dir w1 scan removable true ruleID)|].
    apply rtc_once, StepDeleteRule.
  - done.
  - unfold cascade. cbn [cascaded]. rewrite Hrows, Nat.ltb_irrefl. apply orb_false_r.
Qed.

(** ** Purges *)

(** What a step does to the table: rows stay themselves or go, or one row is written by a
    reader whose generation is the current one. *)
Definition rowsKept (w w' : world) : Prop :=
  w'.(history) = w.(history)
  ∧ ∀ d e', w'.(st).(rows) !! d = Some e' → ∃ e, w.(st).(rows) !! d = Some e ∧ frozen e = frozen e'.
Definition rowWritten (w w' : world) : Prop :=
  ∃ x, w'.(history) = x :: w.(history) ∧ w'.(st).(rows) = <[x.(row).(KeyDigest) := x.(row)]> w.(st).(rows)
    ∧ 0 ≤ x.(origin).(epoch) ≤ w.(epochs) ∧ u64 x.(origin).(epoch) = u64 w.(epochs).

Lemma shrink_kept P Q w s : shrink P Q w.(st) s → rowsKept w (withStore w s).
Proof. intros Hs. split; [done|]. apply (sh_rows _ _ _ _ Hs). Qed.

Lemma written_current w rg rd d c env s t : worldOk w → readingOk dir w.(epochs) (withReader rg rd c) → nowStored env w.(st) rd s t →
  0 ≤ rg.(epoch) ≤ w.(epochs) ∧ u64 (withReader rg (withEnd rd d true rd.(closed)) c).(epoch) = u64 w.(epochs).
Proof.
  intros Hw Hok Hst. split; [apply (rg_epoch _ _ _ Hok)|]. pose proof (rg_generation _ _ _ Hok) as Hg. cbn in Hg |- *. rewrite <-Hg.
  pose proof (st_current _ _ _ _ _ Hst) as Hm. unfold generationMatches in Hm. case_hyp Hm; [done|].
  rewrite <-(ok_generation _ _ Hw). bprop. lia.
Qed.

Lemma step_rows w w' : worldOk w → step w w' → w.(epochs) ≤ w'.(epochs) ∧ (rowsKept w w' ∨ rowWritten w w').
Proof.
  intros Hw Hstep. pose proof (worldOk_wf _ Hw) as Hwf.
  assert (Hsame : ∀ k ds rds n c fs, rowsKept w (mkWorld (mkStore c w.(st).(rows) fs) k ds rds w.(history) n w.(cascaded))) by (intros; split; [done|]; by eauto).
  assert (Hsame' : ∀ k ds rds n, rowsKept w (mkWorld w.(st) k ds rds w.(history) n w.(cascaded))) by (intros; split; [done|]; by eauto).
  destruct Hstep; cbn; (split; [first [lia | (destruct (PurgePublicCache _ _ _ _ _) as [? []]; cbn; lia)
    | (unfold reconcileRaises; destruct (String.eqb _ _); lia)]|]); try (left; first [apply Hsame | apply Hsame']).
  - left. apply (shrink_kept (λ _, True) (λ _ _ _, True)). by apply touchRow_shrink.
  - left. apply (shrink_kept (fromHistory w.(history)) (copyFrom w.(history))). apply invalidate_shrink; [done..|].
    intros x E Et. apply (ok_known _ _ Hw) in H. destruct (ok_rows _ _ Hw _ _ E) as [_ Hx].
    by apply (frozen_fields _ _ (fromHistory_unique _ _ _ Hw Hx H Et)).
  - left. apply (shrink_kept (λ _, True) (λ _ _ _, True)). by apply openFenced_sound.
  - left. split; [done|]. cbn. rewrite H3. by eauto.
  - right. pose proof (ok_readers _ _ Hw _ _ H) as Hrg. pose proof (absorb_ok _ _ writeOK _ chunk Hrg) as Hab.
    destruct (Read_cases dir _ _ _ _ _ _ _ _ _ H1 Hrg H2) as [_ [[Hns _ _]|(d & t & -> & Hst)]]; [congruence|].
    rewrite (st_rows _ _ _ _ _ Hst) in H4. cbn [withEnd keyDigest] in H4. rewrite lookup_insert_eq in H4. injection H4 as <-.
    eexists. split_and!; [done|apply (st_rows _ _ _ _ _ Hst)|..]; apply (written_current _ _ _ d _ _ _ _ Hw Hab Hst).
  - left. apply (shrink_kept (λ _, True) (λ _ _ _, True)). by eapply cleanup_shrink.
  - left. split; [done|]. cbn. destruct (purge_shrink (λ _, True) (λ _ _ _, True) scan removable dbOK w.(st) req Hwf) as [-> |[_ Hs]];
      [by eauto|]. apply (sh_rows _ _ _ _ Hs).
  - left. apply (shrink_kept (λ _, True) (λ _ _ _, True)). by apply purgeRule_shrink.
  - left. split; [done|]. cbn. intros d e [E _]%map_lookup_filter_Some. by exists e.
Qed.

(** Every row was decided after the given number of raises. *)
Definition freshRows (base : Z) (w : world) : Prop :=
  ∀ d e, w.(st).(rows) !! d = Some e → ∃ x, x ∈ w.(history) ∧ frozen x.(row) = frozen e ∧ base < x.(origin).(epoch).

Lemma freshRows_step base w w' : worldOk w → step w w' → base < w.(epochs) < two64 → freshRows base w → freshRows base w'.
Proof.
  intros Hw Hstep Hb Hf d e' E'. destruct (step_rows _ _ Hw Hstep) as [_ [[Hh Hr]|(x & Hh & Hr & He & Hg)]].
  - destruct (Hr _ _ E') as (e & E & Hfr). destruct (Hf _ _ E) as (x & Hx & Hfx & Hep). exists x. rewrite Hh. split_and!; [done|congruence|done].
  - rewrite Hr in E'. rewrite Hh. destruct (decide (d = x.(row).(KeyDigest))) as [->|Hne].
    + rewrite lookup_insert_eq in E'. injection E' as <-. exists x. split_and!; [by left|done|]. rewrite !u64_id in Hg by lia. lia.
    + rewrite lookup_insert_ne in E' by done. destruct (Hf _ _ E') as (y & Hy & Hrest). exists y. split; [by right|done].
Qed.

Lemma freshRows_steps base w w' : worldOk w → rtc step w w' → base < w.(epochs) → w'.(epochs) < two64 → freshRows base w →
  worldOk w' ∧ freshRows base w'.
Proof.
  intros Hw Hsteps. assert (Hmono : ∀ u u', worldOk u → rtc step u u' → u.(epochs) ≤ u'.(epochs)).
  { intros u u' Hu H. induction H as [|u v u' Huv Hvu IH]; [lia|]. destruct (step_rows _ _ Hu Huv) as [Hle _].
    specialize (IH (step_ok _ _ Hu Huv)). lia. }
  induction Hsteps as [|u v u' Huv Hvu IH]; intros Hb Hmax Hf; [by split|]. pose proof (step_ok _ _ Hw Huv) as Hv.
  pose proof (Hmono _ _ Hv Hvu). destruct (step_rows _ _ Hw Huv) as [Hle _].
  apply IH; [done|lia|done|]. apply (freshRows_step base u v); [done|done|lia|done].
Qed.

(** C9: A purge of everything is final.  It leaves no row, and whatever happens afterwards
    (within 2^64 changes of the generation), every row that appears, and every hit that can
    be opened, comes from a response to a request that was decided after the purge: responses
    that were in flight at the purge are never stored. *)
Theorem cache_purge_final now w scan removable w' :
  rtc step (init now) w → rtc step (raise w (PurgePublicCache scan removable true w.(st) PurgeAll).1 1) w' → w'.(epochs) < two64 →
  (PurgePublicCache scan removable true w.(st) PurgeAll).1.(rows) = ∅ ∧ freshRows w.(epochs) w'
  ∧ ∀ e dbOK fileOK t openBody s res, e ∈ w'.(known) → openFenced dbOK fileOK t w'.(st) e openBody = (s, res) →
    (∀ b, res ≠ OpenFailed b) → ∃ x, x ∈ w'.(history) ∧ frozen x.(row) = frozen e ∧ w.(epochs) < x.(origin).(epoch).
Proof.
  intros Hreach Hsteps Hmax. pose proof (reach_ok _ _ Hreach) as Hw.
  assert (Hempty : (PurgePublicCache scan removable true w.(st) PurgeAll).1.(rows) = ∅).
  { cbn. unfold removeCacheBodies. by destruct (removeBodies _ _ _ _). }
  destruct (freshRows_steps w.(epochs) _ _ (ok_purge w scan removable true PurgeAll Hw) Hsteps) as [Hw' Hf]; [cbn; lia|done| |].
  { intros d e E. cbn [raise st] in E. rewrite Hempty, lookup_empty in E. done. }
  split_and!; [done|done|]. intros e dbOK fileOK t ob s res He Hopen Hres.
  destruct (open_item _ _ _ _ _ _ _ _ Hw' He Hopen Hres) as (_ & _ & _ & (cur & Ec & Hfc) & _).
  destruct (Hf _ _ Ec) as (x & Hx & Hfx & Hep). exists x. split_and!; [done|congruence|done].
Qed.

(** ** The lookup stage, run alone *)

(** The steps a request makes by itself, which write no row. *)
Definition quiet (w w' : world) : Prop := rtc step w w' ∧ w'.(history) = w.(history).

Lemma stage_quiet_trans w1 w2 w3 : quiet w1 w2 → quiet w2 w3 → quiet w1 w3.
Proof. intros [H1 E1] [H2 E2]. split; [by etrans|congruence]. Qed.

Lemma invalidate_steps removable dbOK es : ∀ w, (∀ e, e ∈ es → e ∈ w.(known)) →
  ∃ w', quiet w w' ∧ w'.(st) = fold_left (invalidatePublicCacheEntry removable dbOK) es w.(st) ∧ w'.(known) = w.(known).
Proof.
  induction es as [|e es IH]; intros w Hk; [by exists w|]. cbn [fold_left].
  destruct (IH (withStore w (invalidatePublicCacheEntry removable dbOK w.(st) e))) as (w' & Hq & Hst & Hkn).
  { intros x Hx. apply Hk. by right. }
  exists w'. split_and!; [|done|done]. eapply stage_quiet_trans; [|done]. split; [|done]. apply rtc_once. constructor. apply Hk. by left.
Qed.

Lemma gate_rule snap c r resolution rule q d : cacheGate snap c r resolution = Proceed rule q d →
  d.(DecisionRule) = Some rule ∧ rule ∈ snap.(SnapRules) ∧ publicCacheQueryKey r rule = Some q ∧ d.(Status) = "".
Proof.
  intros E. unfold cacheGate in E. do 5 (case_hyp E; [done|]).
  destruct (selectPublicCacheRule _ _ _ _) as [rule'| |] eqn:Es; [|done..].
  destruct (captureGeneration _ _) as [g current]. destruct (publicCacheQueryKey r rule') as [q'|] eqn:Eq; [|done].
  injection E as <- <- <-. split_and!; try done. clear -Es. induction snap.(SnapRules) as [|x rules IH]; cbn in Es; [done|].
  case_hyp Es; [right; by apply IH|]. destruct (evaluate _ _ _ _) as [[]|]; [injection Es as <-; by left|right; by apply IH|done].
Qed.

Lemma gate_bypass snap c r resolution d : cacheGate snap c r resolution = Bypassed d → d.(Status) = publicCacheStatusBypass.
Proof.
  intros E. unfold cacheGate in E. do 5 (case_hyp E; [by injection E as <-|]).
  destruct (selectPublicCacheRule _ _ _ _) as [rule'| |]; [|by injection E as <-..].
  destruct (captureGeneration _ _) as [g current]. destruct (publicCacheQueryKey r rule'); [done|by injection E as <-].
Qed.

(** The lookup: the candidates become known. *)
Lemma lookup_steps env lk now g fp w : (∀ rows, env.(envScan) rows ≡ₚ values rows) →
  let '(c, (candidates, loaded)) := lookupIndexedCandidates env.(envOrder) w.(st).(cache) lk now g fp in
  ∃ w' listed, quiet w w'
    ∧ listed = (if loaded then candidates else ListPublicCacheEntryCandidates env.(envScan) w.(st).(rows) lk now)
    ∧ w'.(st) = (if loaded then withCache w.(st) c else withCache w.(st) (storeIndexedCandidates env.(envClock) c lk listed now g fp))
    ∧ ∀ e, e ∈ listed → e ∈ w'.(known).
Proof.
  intros Hscan. pose proof (StepLookup dir w env.(envOrder) lk now g fp) as H1.
  destruct (lookupIndexedCandidates _ _ _ _ _ _) as [c [candidates loaded]]. cbn in H1. destruct loaded.
  - exists (learn w (withCache w.(st) c) candidates), candidates. split_and!; [split; [by apply rtc_once|done]|done|done|].
    intros e He. cbn. set_solver.
  - set (w1 := learn w (withCache w.(st) c) candidates) in *. set (listed := ListPublicCacheEntryCandidates env.(envScan) w1.(st).(rows) lk now).
    set (w2 := learn w1 w1.(st) listed). assert (H2 : step w1 w2) by by constructor.
    set (w3 := withStore w2 (withCache w2.(st) (storeIndexedCandidates env.(envClock) w2.(st).(cache) lk listed now g fp))).
    assert (H3 : step w2 w3) by (constructor; intros e He; cbn; set_solver).
    exists w3, listed. split_and!; [split; [|done]|done|done|intros e He; cbn; set_solver].
    eapply rtc_l; [exact H1|]. eapply rtc_l; [exact H2|]. by apply rtc_once.
Qed.

Record hitFound (w : world) (snap : cacheSnapshot) (r : cacheRequest) (resolution : cacheResolution) (looked : Z) (d : publicCacheDecision) : Prop := {
  hf_found : ∃ rule q e expired candidates, d.(DecisionRule) = Some rule ∧ rule ∈ snap.(SnapRules) ∧ publicCacheQueryKey r rule = Some q
    ∧ d.(Entry) = Some e ∧ (∀ c, c ∈ candidates → c ∈ w.(known)) ∧ scanCandidates r resolution rule q looked candidates = (expired, Some e) }.

Lemma scan_expired r resolution rule q now candidates : ∀ expired hit, scanCandidates r resolution rule q now candidates = (expired, hit) →
  ∀ e, e ∈ expired → e ∈ candidates.
Proof.
  induction candidates as [|x candidates IH]; intros expired hit E e He; cbn [scanCandidates] in E.
  - injection E as <- <-. by apply elem_of_nil in He.
  - case_hyp E; [right; by eapply IH|]. case_hyp E; [|injection E as <- <-; by apply elem_of_nil in He].
    destruct (scanCandidates _ _ _ _ _ _) as [expired' hit'] eqn:Es. injection E as <- <-.
    apply elem_of_cons in He as [-> |He]; [by left|]. right. by eapply IH.
Qed.

Lemma check_steps env fuel snap w r resolution s d : (∀ rows, env.(envScan) rows ≡ₚ values rows) →
  checkPublicCacheWithSnapshot env fuel snap w.(st) r resolution = Some (s, d) →
  ∃ w', quiet w w' ∧ w'.(st) = s ∧ (d.(Status) = publicCacheStatusHit → hitFound w' snap r resolution env.(envNow) d).
Proof.
  intros Hscan E. unfold checkPublicCacheWithSnapshot in E. destruct (cacheGate _ _ _ _) as [d0|rule q d0] eqn:Eg.
  { injection E as <- <-. exists w. split_and!; [done|done|]. rewrite (gate_bypass _ _ _ _ _ Eg). done. }
  destruct (gate_rule _ _ _ _ _ _ _ Eg) as (Er & Hr & Hq & _). destruct (maybeCleanup _ _ _ _ _ _ _ _ _) as [s1|] eqn:Ec; [|done].
  set (w1 := withStore w s1). assert (H1 : quiet w w1) by (split; [apply rtc_once; by eapply StepCleanup|done]).
  pose proof (lookup_steps env (publicCacheLookupKeyFromDecision rule resolution d0 q) env.(envNow) d0.(cacheGeneration) d0.(cacheFingerprint)
    w1 Hscan) as Hl. pose proof (StepLookup dir w1 env.(envOrder) (publicCacheLookupKeyFromDecision rule resolution d0 q) env.(envNow)
    d0.(cacheGeneration) d0.(cacheFingerprint)) as Hlook. cbn [w1 withStore st] in Hl, Hlook.
  destruct (lookupIndexedCandidates _ _ _ _ _ _) as [c [candidates loaded]]. cbn zeta in E, Hlook. case_hyp E.
  { injection E as <- <-. eexists. split_and!; [eapply stage_quiet_trans; [exact H1|]; split; [by apply rtc_once|done]|done|done]. }
  destruct Hl as (w2 & listed & H2 & El & Est & Hk). apply (stage_quiet_trans _ _ _ H1) in H2.
  replace (if loaded then (withCache s1 c, candidates) else _) with (w2.(st), listed) in E by (rewrite Est, El; by destruct loaded).
  destruct (scanCandidates _ _ _ _ _ _) as [expired hit] eqn:Es.
  destruct (invalidate_steps env.(envRemovable) env.(envInvalidateOK) expired w2) as (w3 & H3 & Est3 & Ek3).
  { intros e He. by eapply Hk, scan_expired. }
  rewrite <-Est3 in E. apply (stage_quiet_trans _ _ _ H2) in H3. destruct hit as [e|]; injection E as <- <-; [|by exists w3].
  eexists. split_and!; [eapply stage_quiet_trans; [exact H3|]; split; [apply rtc_once, StepTouchIndex|done]|done|].
  intros _. split. exists rule, q, e, expired, listed. split_and!; try done. cbn. rewrite Ek3. done.
Qed.

(** C10: The lookup stage as a whole, run from any state that an interleaving reaches.  It is
    a sequence of the steps above that writes no row, and when it decides for a hit, the
    entry and the body it hands on are those of one captured response to a request with the
    same key; a body is there exactly when the request is not HEAD and the response has one. *)
Theorem cache_stage_refines {CL : CacheCodecLaws} now w env fuel dbOK fileOK openAt snap r resolution s d hitBody :
  rtc step (init now) w → (∀ rows, env.(envScan) rows ≡ₚ values rows) →
  (∀ rule, rule ∈ snap.(SnapRules) → keyable r resolution rule) →
  cacheLookupStage env fuel dbOK fileOK openAt snap w.(st) r resolution = Some (s, d, hitBody) →
  (∃ w', rtc step w w' ∧ w'.(st) = s ∧ w'.(history) = w.(history))
  ∧ (d.(Status) = publicCacheStatusHit → ∃ rule e x, d.(DecisionRule) = Some rule ∧ rule ∈ snap.(SnapRules) ∧ d.(Entry) = Some e
      ∧ env.(envNow) < e.(ExpiresAt) ∧ x ∈ w.(history) ∧ answers x r resolution rule e
      ∧ hitBody = if needsBody r e then Some x.(origin).(received) else None).
Proof.
  intros Hreach Hscan Hkey E. unfold cacheLookupStage in E. destruct (checkPublicCacheWithSnapshot _ _ _ _ _ _) as [[s1 d1]|] eqn:Ec; [|done].
  destruct (check_steps _ _ _ _ _ _ _ _ Hscan Ec) as (w1 & [H1 Eh1] & <- & Hhit).
  destruct (String.eqb_spec d1.(Status) publicCacheStatusHit) as [Estatus|Hne].
  2: { injection E as <- <- <-. split; [by exists w1|done]. }
  destruct (Hhit Estatus) as [(rule & q & e & expired & candidates & Er & Hr & Hq & Ee & Hk & Hs)]. unfold preparePublicCacheHitBody in E. rewrite Ee in E.
  unfold openCurrentPublicCacheHit in E. assert (He : e ∈ w1.(known)) by by apply Hk, (scan_hit _ _ _ _ _ _ _ _ Hs).
  pose proof (StepOpen dir w1 dbOK fileOK openAt e (needsBody r e) He) as H2. assert (Hw1 : worldOk w1) by (eapply reach_ok; by etrans).
  assert (Hbody : ∀ b, (openFenced dbOK fileOK openAt w1.(st) e (needsBody r e)).2 = OpenedBody b → needsBody r e = true).
  { intros b. unfold openFenced. repeat case_goal; try done; by destruct (needsBody r e). }
  assert (Hnone : (openFenced dbOK fileOK openAt w1.(st) e (needsBody r e)).2 = OpenedNoBody → needsBody r e = false).
  { unfold openFenced. repeat case_goal; try done; by destruct (needsBody r e). }
  destruct (openFenced _ _ _ _ _ _) as [s2 res] eqn:Eo. cbn in H2, Hbody, Hnone.
  assert (H12 : rtc step w (withStore w1 s2)) by (eapply rtc_r; [exact H1|exact H2]).
  assert (Hserve : (∀ b, res ≠ OpenFailed b) → ∃ x, x ∈ w.(history) ∧ answers x r resolution rule e ∧ ∀ b, res = OpenedBody b → b = x.(origin).(received)).
  { intros Hres. destruct (open_item _ _ _ _ _ _ _ _ Hw1 He Eo Hres) as (x & Hx & Hf & _ & Hb). rewrite Eh1 in Hx. exists x. split_and!; [done| |done].
    eapply (item_answers w1); [done|by rewrite Eh1|done|by apply Hkey|done|]. apply (scan_hit _ _ _ _ _ _ _ _ Hs). }
  pose proof (scan_hit _ _ _ _ _ _ _ _ Hs) as (_ & _ & Hexp). destruct res as [[]| |body].
  - injection E as <- <- <-. split; [|done]. exists (withStore (withStore w1 s2) (invalidatePublicCacheEntry env.(envRemovable) env.(envInvalidateOK) s2 e)).
    split_and!; [|done|done]. eapply rtc_r; [exact H12|]. by apply (StepInvalidate dir (withStore w1 s2)).
  - injection E as <- <- <-. split; [by exists (withStore w1 s2)|done].
  - injection E as <- <- <-. split; [by exists (withStore w1 s2)|]. intros _. destruct Hserve as (x & Hx & Ha & _); [done|].
    exists rule, e, x. rewrite (Hnone eq_refl). split_and!; done.
  - injection E as <- <- <-. split; [by exists (withStore w1 s2)|]. intros _. destruct Hserve as (x & Hx & Ha & Hb); [done|].
    exists rule, e, x. rewrite (Hbody _ eq_refl), (Hb _ eq_refl). split_and!; done.
Qed.
End invariant.

(** ** An example *)

Definition exampleSnapshot : cacheSnapshot := mkCacheSnapshot exampleSettings [exampleRule] "".
Definition exampleRequest : cacheRequest := exampleGet {["v" := ["0"]]}.
Definition exampleDecision : publicCacheDecision :=
  mkDecision (Some exampleRule) "" "" "v=0" "example.com" "/a" (Some 7) (Some 3) None "" false true 1
    (publicCacheSnapshotFingerprint exampleSnapshot) true.
Definition exampleAnswer : cacheResponse := exampleResponse {["Cache-Control" := ["max-age=60"]; "Etag" := ["x"]]}.
Definition exampleCommit : commitEnv := mkCommitEnv true true true true true true true true true 40 50 51 52 map_to_list.
Definition exampleBytes : list Byte.byte := [Byte.x61; Byte.x62].

(** The cache is enabled, a request misses, its response is captured and stored in one read,
    the counters are read, and a second request finds the entry. *)
Definition world1 : world := raise (init 0) (withCache (init 0).(st) (reconcile map_to_list (init 0).(st).(cache) exampleSettings [exampleRule]))
  (reconcileRaises (init 0).(st).(cache) exampleSettings [exampleRule]).
Definition exampleDecided : decided := mkDecided exampleRequest exampleResolution (withDecisionEntry exampleDecision publicCacheStatusMiss "" None) world1.(epochs).
Definition world2 : world := mkWorld world1.(st) world1.(known) (exampleDecided :: world1.(decisions)) world1.(readers) world1.(history) world1.(epochs) false.
Definition exampleReader : option publicCacheStoreReadCloser :=
  capturePublicCacheResponseBody (λ _, None) "dir" true 30 31 world2.(st).(cache) exampleRequest exampleResolution
    exampleDecided.(decDecision) exampleAnswer (map_to_list exampleAnswer.(RespHeader)).
Definition exampleReading (rd : publicCacheStoreReadCloser) : reading :=
  mkReading rd exampleRequest exampleAnswer (map_to_list exampleAnswer.(RespHeader)) [] world1.(epochs).
Definition world3 (rd : publicCacheStoreReadCloser) : world :=
  mkWorld world2.(st) world2.(known) world2.(decisions) (<[0 := exampleReading rd]> world2.(readers)) world2.(history) world2.(epochs) false.
Definition exampleRead (rd : publicCacheStoreReadCloser) : store * publicCacheStoreReadCloser :=
  Read true exampleCommit (world3 rd).(st) rd exampleBytes ReadEOF.
Definition world4 (rd : publicCacheStoreReadCloser) : world :=
  mkWorld (exampleRead rd).1 (world3 rd).(known) (world3 rd).(decisions)
    (<[0 := withReader (exampleReading rd) (exampleRead rd).2 exampleBytes]> (world3 rd).(readers))
    (mkStored (storedRow (exampleRead rd).2 50) (withReader (exampleReading rd) (exampleRead rd).2 exampleBytes) :: (world3 rd).(history))
    (world3 rd).(epochs) false.
Definition world5 (rd : publicCacheStoreReadCloser) : world :=
  withStore (world4 rd) (withCache (world4 rd).(st)
    (storageUsageSnapshot (world4 rd).(st).(cache) (Some (SumPublicCacheBytes (world4 rd).(st).(rows)))).1).
Definition exampleLookupKey : publicCacheLookupKey := publicCacheLookupKeyFromDecision exampleRule exampleResolution exampleDecision "v=0".
Definition exampleLooked (w : world) :=
  lookupIndexedCandidates elements w.(st).(cache) exampleLookupKey 60 1 exampleDecision.(cacheFingerprint).
Definition world6 (rd : publicCacheStoreReadCloser) : world :=
  learn (world5 rd) (withCache (world5 rd).(st) (exampleLooked (world5 rd)).1) (exampleLooked (world5 rd)).2.1.
Definition exampleRd : publicCacheStoreReadCloser :=
  match exampleReader with
  | Some rd => rd
  | None => mkReader [] "" exampleDecision exampleRule "" exampleResolution "" "" "" 0 ∅ [] 0 0 None 0 0 "" 0 false false false
  end.
Definition exampleWorld : world := world6 exampleRd.

Example exampleReader_some : exampleReader = Some exampleRd.
Proof. vm_compute. reflexivity. Qed.
Example exampleGate : cacheGate exampleSnapshot world1.(st).(cache) exampleRequest exampleResolution = Proceed exampleRule "v=0" exampleDecision.
Proof. vm_compute. reflexivity. Qed.

Lemma example_query : parsedQuery {["v" := ["0"]]}.
Proof. apply map_Forall_singleton. done. Qed.

(** The path, for any reader that was captured and whose read stores a row. *)
Lemma example_path rd : exampleReader = Some rd → rd.(closed) = false → (exampleRead rd).1.(rows) ≠ (world3 rd).(st).(rows) →
  (exampleRead rd).1.(rows) !! (exampleRead rd).2.(keyDigest) = Some (storedRow (exampleRead rd).2 50) →
  rtc (step "dir") (init 0) (world6 rd).
Proof.
  intros Hrd Hc Hne Hrow.
  assert (H1 : step "dir" (init 0) world1) by apply StepReconcile.
  assert (H2 : step "dir" world1 world2) by (eapply StepDecide; [apply exampleGate|apply example_keyable, example_query]).
  assert (H3 : step "dir" world2 (world3 rd)).
  { apply (StepCapture "dir" world2 0 (λ _, None) true 30 31 exampleDecided exampleAnswer); [by left|reflexivity|reflexivity|exact Hrd]. }
  assert (H4 : step "dir" (world3 rd) (world4 rd)).
  { apply (StepStore "dir" (world3 rd) 0 (exampleReading rd) true exampleCommit exampleBytes ReadEOF (exampleRead rd).1 (exampleRead rd).2
      (storedRow (exampleRead rd).2 50)); [apply lookup_insert_eq|exact Hc|reflexivity|apply surjective_pairing|exact Hne|exact Hrow]. }
  assert (H5 : step "dir" (world4 rd) (world5 rd)) by apply (StepUsage "dir" (world4 rd) true).
  assert (H6 : step "dir" (world5 rd) (world6 rd)) by apply StepLookup.
  do 5 (eapply rtc_l; [eassumption|]). apply rtc_once, H6.
Qed.

Lemma exampleRead_size : (size (exampleRead exampleRd).1.(rows), size (world3 exampleRd).(st).(rows)) = (1%nat, 0%nat).
Proof. vm_compute. reflexivity. Qed.
Lemma exampleRead_row : (exampleRead exampleRd).1.(rows) !! (exampleRead exampleRd).2.(keyDigest) = Some (storedRow (exampleRead exampleRd).2 50).
Proof. vm_compute. reflexivity. Qed.

Lemma exampleWorld_reached : rtc (step "dir") (init 0) exampleWorld.
Proof.
  apply example_path; [apply exampleReader_some|vm_compute; reflexivity| |apply exampleRead_row].
  intros E. pose proof exampleRead_size as Hs. rewrite E in Hs. set (n := size _) in Hs. clearbody n. congruence.
Qed.

Definition exampleHit : PublicCacheEntry := storedRow (exampleRead exampleRd).2 50.
Example exampleHit_known : exampleWorld.(known) = [exampleHit].
Proof. vm_compute. reflexivity. Qed.
Example exampleHit_scan : scanCandidates exampleRequest exampleResolution exampleRule "v=0" 60 [exampleHit] = ([], Some exampleHit).
Proof. vm_compute. reflexivity. Qed.
Example exampleHit_open : (openFenced true true 70 exampleWorld.(st) exampleHit true).2 = OpenedBody exampleBytes.
Proof. vm_compute. reflexivity. Qed.


Lemma cache_usage_exact_witness : exampleWorld.(st).(cache).(storedBodyBytes) = rowBytes exampleWorld.(st).(rows).
Proof.
  assert (Hi : exampleWorld.(st).(cache).(storageUsageInitialized) = true) by (vm_compute; reflexivity).
  exact (proj1 (proj1 (cache_usage_exact "dir" 0 exampleWorld exampleWorld_reached) eq_refl Hi)).
Defined.

(** The rule is deleted while it has a row: the table is empty, the counters stand at one row
    of two bytes. *)
Example usage_drift : rtc (step "dir") (init 0) (cascade exampleWorld exampleRule.(ID))
  ∧ (let w := cascade exampleWorld exampleRule.(ID) in
     (w.(cascaded), size w.(st).(rows), w.(st).(cache).(storedEntryCount), w.(st).(cache).(storedBodyBytes))) = (true, 0%nat, 1, 2).
Proof. split; [eapply rtc_r; [apply exampleWorld_reached|apply StepDeleteRule]|vm_compute; reflexivity]. Qed.

Lemma cache_purge_final_witness : (PurgePublicCache values (λ _, true) true exampleWorld.(st) PurgeAll).1.(rows) = ∅.
Proof.
  assert (He : (raise exampleWorld (PurgePublicCache values (λ _, true) true exampleWorld.(st) PurgeAll).1 1).(epochs) < two64) by (vm_compute; reflexivity).
  exact (proj1 (cache_purge_final "dir" 0 exampleWorld values (λ _, true) _ exampleWorld_reached (rtc_refl _ _) He)).
Defined.

Definition exampleEnv : lookupEnv := mkLookupEnv elements values (λ _, true) (λ _, true) true true true true true (λ _, 75) 74 75.
Definition exampleStage := cacheLookupStage exampleEnv 10 true true 76 exampleSnapshot exampleWorld.(st) exampleRequest exampleResolution.

(** The second request is served the bytes of the first response. *)
Example exampleStage_hit : (λ x, (x.1.2.(Status), x.2)) <$> exampleStage = Some (publicCacheStatusHit, Some exampleBytes).
Proof. vm_compute. reflexivity. Qed.

Lemma cache_stage_refines_witness : ∃ x, x ∈ exampleWorld.(history) ∧ x.(origin).(received) = exampleBytes.
Proof.
  pose proof exampleStage_hit as Hs. destruct exampleStage as [[[s d] body]|] eqn:E; [|discriminate Hs]. injection Hs as Hst Hb.
  assert (Hk : ∀ rule, rule ∈ exampleSnapshot.(SnapRules) → keyable exampleRequest exampleResolution rule).
  { intros rule Hr. apply list_elem_of_singleton in Hr as ->. exact (example_keyable _ example_query). }
  destruct (cache_stage_refines "dir" 0 exampleWorld exampleEnv 10 true true 76 exampleSnapshot exampleRequest exampleResolution s d body
    exampleWorld_reached (λ _, reflexivity _) Hk E) as [_ Hhit].
  destruct (Hhit Hst) as (rule & e & x & _ & _ & _ & _ & Hx & _ & Hbody). exists x. split; [exact Hx|].
  rewrite Hb in Hbody. destruct (needsBody exampleRequest e); [|discriminate Hbody]. injection Hbody as Hbody. symmetry. exact Hbody.
Defined.
End CacheWorld.
