(* ===== verification/TrafficShaper.v ===== *)
(** Bandwidth shaping of public requests (internal/server/public_traffic_shaper.go): the
    byte buckets, the shaped bodies of a request, of a response and of an upgraded
    connection, the shaper that keeps the buckets of every rule, and the validation and
    loading of rules.

    A bucket has its own mutex; its critical sections are functions on its value.  A
    goroutine that waits for a bucket is described by a schedule: for every round of its
    loop the operations other goroutines complete on the bucket before, the reading of
    the clock, and whether the context ends the sleep that follows.  Pointers to buckets
    are addresses of a heap.  The bodies underneath are scripts of what the peer does.
    The evaluated policy expression of a rule is a function, as in WafCookies.v. *)

From S2P Require Import Prelude.
From S2P Require Import GoStrings.
From S2P Require Import GoBase64.
From S2P Require Import GoFloat.
From S2P Require Import NetIP.
From S2P Require Import ClientIdentity.
From S2P Require Import WafCookies.
From S2P Require Import RateLimiter.
From S2P Require Import RetryPolicy.
From Stdlib Require Import Ascii.

Module TrafficShaper.
Import NetIP.
Import ClientIdentity.
Import WafCookies.

(** ** Constants *)

Definition defaultTrafficShaperName := "traffic-shaper".
Definition publicTrafficShaperBudgetScopePerKey := "per_key".
Definition publicTrafficShaperBudgetScopePerRequest := "per_request".
Definition publicTrafficShaperProtocolScopeAll := "all".
Definition publicTrafficShaperProtocolScopeWebSocketOnly := "websocket_only".
Definition publicTrafficShaperProtocolScopeWebSocketExcluded := "websocket_excluded".
Definition maxTrafficShaperBytesPerSecond : Z := 1099511627776.
Definition maxTrafficShaperBurstBytes : Z := 1073741824.
Definition maxTrafficShaperExemptBytes : Z := 1073741824.
Definition maxTrafficShaperBucketsPerRule : nat := 10000.
Definition maxShapingChunkBytes : Z := 32768.
Definition trafficShaperIdleStateTTL : Z := 15 * minute.
Definition trafficShaperPruneInterval : Z := minute.

(** ** A bucket *)

Record byteTokenBucket := mkBucket {
  rateBytesPerSecond : float64;
  burstBytes : float64;
  tokens : float64;
  lastRefill : Z;
  lastUsed : Z }.

Definition newByteTokenBucket (rate burst now : Z) : option byteTokenBucket :=
  if rate <=? 0 then None
  else
    let burst := if burst <=? 0 then rate else burst in
    Some (mkBucket (float_of_int rate) (float_of_int burst) (float_of_int burst) now now).

Definition refillLocked (b : byteTokenBucket) (now : Z) : byteTokenBucket :=
  if before now b.(lastRefill) then
    mkBucket b.(rateBytesPerSecond) b.(burstBytes) b.(tokens) now b.(lastUsed)
  else
    let elapsed := Seconds (time_sub now b.(lastRefill)) in
    if fge (float_of_int 0) elapsed then b
    else
      let tok := fadd b.(tokens) (fmul elapsed b.(rateBytesPerSecond)) in
      let tok := if fgt tok b.(burstBytes) then b.(burstBytes) else tok in
      mkBucket b.(rateBytesPerSecond) b.(burstBytes) tok now b.(lastUsed).

(** One round of [waitForSpend] under the mutex: the tokens are taken, or the time to
    sleep is computed. *)
Inductive spendResult := Spent | Missing (wait : Z).

Definition attemptSpend (b : byteTokenBucket) (now : Z) (bytes : float64) : byteTokenBucket * spendResult :=
  let b := refillLocked b now in
  if fge b.(tokens) bytes then
    (mkBucket b.(rateBytesPerSecond) b.(burstBytes) (fsub b.(tokens) bytes) b.(lastRefill) now, Spent)
  else
    let missing := fsub bytes b.(tokens) in
    let wait := ceilInt (fmul (fdiv missing b.(rateBytesPerSecond)) (float_of_int second)) in
    (b, Missing (if wait <? millisecond then millisecond else wait)).

Definition refund (b : byteTokenBucket) (bytes : Z) : byteTokenBucket :=
  if bytes <=? 0 then b
  else
    let tok := fadd b.(tokens) (float_of_int bytes) in
    let tok := if fgt tok b.(burstBytes) then b.(burstBytes) else tok in
    mkBucket b.(rateBytesPerSecond) b.(burstBytes) tok b.(lastRefill) b.(lastUsed).

(** What other goroutines do to a shared bucket. *)
Inductive bucketOp := OpSpend (now : Z) (bytes : float64) | OpRefund (bytes : Z).

Definition applyOp (b : byteTokenBucket) (op : bucketOp) : byteTokenBucket :=
  match op with
  | OpSpend now bytes => (attemptSpend b now bytes).1
  | OpRefund bytes => refund b bytes
  end.
Definition applyOps (b : byteTokenBucket) (ops : list bucketOp) : byteTokenBucket := fold_left applyOp ops b.

Record attempt := mkAttempt { others : list bucketOp; clock : Z; cancelled : bool }.

(** [Blocked]: the schedule ends before the loop does. *)
Inductive waitResult := Done | CtxErr | Blocked.

(** [sleepWithContext] returns at once for a duration that is not positive. *)
Definition sleepWithContext (d : Z) (cancelled : bool) : bool := negb (d <=? 0) && cancelled.

Fixpoint waitForSpend (sched : list attempt) (b : byteTokenBucket) (bytes : float64)
    : byteTokenBucket * waitResult * list attempt :=
  match sched with
  | [] => (b, Blocked, [])
  | a :: sched =>
      match attemptSpend (applyOps b a.(others)) a.(clock) bytes with
      | (b, Spent) => (b, Done, sched)
      | (b, Missing d) => if sleepWithContext d a.(cancelled) then (b, CtxErr, sched) else waitForSpend sched b bytes
      end
  end.

(** The loop of [wait]; every round that goes on uses up part of the schedule, so its
    length bounds the rounds. *)
Fixpoint waitLoop (fuel : nat) (sched : list attempt) (b : byteTokenBucket) (remaining : float64)
    : byteTokenBucket * waitResult * list attempt :=
  if negb (fgt remaining (float_of_int 0)) then (b, Done, sched)
  else
    let spend := if fgt b.(burstBytes) (float_of_int 0) && fgt remaining b.(burstBytes)
                 then b.(burstBytes) else remaining in
    match fuel with
    | O => (b, Blocked, sched)
    | S fuel =>
        match waitForSpend sched b spend with
        | (b, Done, sched) => waitLoop fuel sched b (fsub remaining spend)
        | r => r
        end
    end.

Definition wait (b : byteTokenBucket) (bytes : Z) (sched : list attempt) : byteTokenBucket * waitResult * list attempt :=
  if (bytes <=? 0) || fge (float_of_int 0) b.(rateBytesPerSecond) then (b, Done, sched)
  else waitLoop (length sched) sched b (float_of_int bytes).

Definition chunkLimit (b : byteTokenBucket) : Z :=
  if fge (float_of_int 0) b.(burstBytes) then maxShapingChunkBytes
  else
    let limit := ceilInt b.(burstBytes) in
    let limit := if limit <? 1 then 1 else limit in
    if maxShapingChunkBytes <? limit then maxShapingChunkBytes else limit.

Definition lastUsedAt (b : byteTokenBucket) : Z := b.(lastUsed).

(** ** Shaped reading *)

Inductive ioError := EOF | BodyError (code : Z) | ContextError | InvalidWriteCount (n : Z) | ErrNoProgress.

(** What a body gives to one Read: the bytes at hand, as far as the buffer goes. *)
Record readAnswer := mkReadAnswer { atHand : nat; readErr : option ioError }.

Definition bodyRead (answer : readAnswer) (len : Z) : Z * option ioError :=
  (Z.min (Z.of_nat answer.(atHand)) len, answer.(readErr)).

(** The part of [n] bytes that is exempt, and the exemption that is left. *)
Definition exemptOf (exemptRemaining n : Z) : Z :=
  if 0 <? exemptRemaining then (if exemptRemaining <? n then exemptRemaining else n) else 0.

Record shapingReadCloser := mkReader { bucket : byteTokenBucket; exemptRemaining : Z }.

(** [Returned n err]: what the caller gets.  [charge] is the argument [wait] was called
    with, 0 when it was not. *)
Record readOutcome := mkReadOutcome { count : Z; failure : option ioError; charge : Z; finished : bool }.

Definition firstError (err : option ioError) (r : waitResult) : option ioError :=
  match r, err with CtxErr, None => Some ContextError | _, _ => err end.
Definition notBlocked (r : waitResult) : bool := match r with Blocked => false | _ => true end.

Definition Read (r : shapingReadCloser) (len : Z) (answer : readAnswer) (sched : list attempt)
    : shapingReadCloser * readOutcome :=
  let len := if chunkLimit r.(bucket) <? len then chunkLimit r.(bucket) else len in
  let '(n, err) := bodyRead answer len in
  if 0 <? n then
    let exempted := exemptOf r.(exemptRemaining) n in
    let charge := n - exempted in
    let rest := r.(exemptRemaining) - exempted in
    if 0 <? charge then
      let '(b, res, _) := wait r.(bucket) charge sched in
      (mkReader b rest, mkReadOutcome n (firstError err res) charge (notBlocked res))
    else (mkReader r.(bucket) rest, mkReadOutcome n err 0 true)
  else (r, mkReadOutcome n err 0 true).

Definition readExemptBytes (exemptBytes : Z) : Z := if exemptBytes <? 0 then 0 else exemptBytes.

(** The wrapper is only put around a body that exists, and only with a bucket. *)
Definition newShapingReadCloser (bodyPresent : bool) (bucket : option byteTokenBucket) (exemptBytes : Z)
    : option shapingReadCloser :=
  match bucket with
  | Some b => if bodyPresent then Some (mkReader b (readExemptBytes exemptBytes)) else None
  | None => None
  end.

(** ** Shaped upgraded connections *)

Record shapingReadWriteCloser := mkReadWriter {
  readBucket : option byteTokenBucket;
  writeBucket : option byteTokenBucket;
  readExemptRemaining : Z;
  writeExemptRemaining : Z }.

(** [None] is the nil bucket, which never makes anyone wait. *)
Definition waitOpt (b : option byteTokenBucket) (bytes : Z) (sched : list attempt)
    : option byteTokenBucket * waitResult * list attempt :=
  match b with
  | None => (None, Done, sched)
  | Some b => let '(b, r, sched) := wait b bytes sched in (Some b, r, sched)
  end.
Definition chunkLimitOpt (b : option byteTokenBucket) (len : Z) : Z :=
  match b with Some b => if chunkLimit b <? len then chunkLimit b else len | None => len end.

(** The bucket, the exemption left, the result and the charge. *)
Definition shapeTransferredBytes (b : option byteTokenBucket) (exemptRemaining transferred : Z)
    (sched : list attempt) : option byteTokenBucket * Z * waitResult * Z :=
  if (transferred <=? 0) || bool_decide (b = None) then (b, exemptRemaining, Done, 0)
  else
    let exempted := exemptOf exemptRemaining transferred in
    let charge := transferred - exempted in
    let '(b, r, _) := waitOpt b charge sched in
    (b, exemptRemaining - exempted, r, charge).

Definition upgradedRead (r : shapingReadWriteCloser) (len : Z) (answer : readAnswer) (sched : list attempt)
    : shapingReadWriteCloser * readOutcome :=
  let '(n, err) := bodyRead answer (chunkLimitOpt r.(readBucket) len) in
  let '(b, rest, res, charge) := shapeTransferredBytes r.(readBucket) r.(readExemptRemaining) n sched in
  (mkReadWriter b r.(writeBucket) rest r.(writeExemptRemaining),
   mkReadOutcome n (firstError err res) charge (notBlocked res)).

Record shapedByteReservation := mkReservation { reserved : Z; exempted : Z; charged : Z }.

Definition reserveShapedBytes (b : option byteTokenBucket) (exemptRemaining bytes : Z) (sched : list attempt)
    : option byteTokenBucket * Z * waitResult * shapedByteReservation * list attempt :=
  if (bytes <=? 0) || bool_decide (b = None) then (b, exemptRemaining, Done, mkReservation bytes 0 0, sched)
  else
    let exempted := exemptOf exemptRemaining bytes in
    let charged := bytes - exempted in
    let '(b, r, sched) := waitOpt b charged sched in
    match r with
    | Done => (b, exemptRemaining - exempted, Done, mkReservation bytes exempted charged, sched)
    | _ => (b, exemptRemaining, r, mkReservation 0 0 0, sched)
    end.

(** The bucket, the exemption, and the bytes given back to the bucket. *)
Definition reconcileReservation (r : shapedByteReservation) (b : option byteTokenBucket) (exemptRemaining transferred : Z)
    : option byteTokenBucket * Z * Z :=
  match b with
  | None => (b, exemptRemaining, 0)
  | Some bucket =>
      if r.(reserved) <=? 0 then (b, exemptRemaining, 0)
      else
        let transferred := if transferred <? 0 then 0 else transferred in
        let transferred := if r.(reserved) <? transferred then r.(reserved) else transferred in
        let actualExempted := Z.min transferred r.(exempted) in
        let actualCharged := transferred - actualExempted in
        let back := r.(charged) - actualCharged in
        (Some (refund bucket back), exemptRemaining + (r.(exempted) - actualExempted), back)
  end.

(** The peer of an upgraded connection: what it has accepted, and its answers. *)
Record sink := mkSink { accepted : list ascii; writeAnswers : list (Z * option ioError) }.

(** The outcome of Write; [net] is what was charged less what was given back. *)
Record writeOutcome := mkWriteOutcome { written : Z; writeFailure : option ioError; net : Z; writeFinished : bool }.

Fixpoint writeLoop (fuel : nat) (r : shapingReadWriteCloser) (s : sink) (p : list ascii) (done net : Z)
    (sched : list attempt) : shapingReadWriteCloser * sink * writeOutcome * list attempt :=
  match p with
  | [] => (r, s, mkWriteOutcome done None net true, sched)
  | _ :: _ =>
      match fuel with
      | O => (r, s, mkWriteOutcome done None net false, sched)
      | S fuel =>
      let chunk := take (Z.to_nat (chunkLimitOpt r.(writeBucket) (Z.of_nat (length p)))) p in
      let set b rest := mkReadWriter r.(readBucket) b r.(readExemptRemaining) rest in
      let '(b, rest, res, reservation, sched) :=
        reserveShapedBytes r.(writeBucket) r.(writeExemptRemaining) (Z.of_nat (length chunk)) sched in
      match res with
      | CtxErr => (set b rest, s, mkWriteOutcome done (Some ContextError) net true, sched)
      | Blocked => (set b rest, s, mkWriteOutcome done None net false, sched)
      | Done =>
          match s.(writeAnswers) with
          | [] => (set b rest, s, mkWriteOutcome done None (net + reservation.(charged)) false, sched)
          | (n, err) :: answers =>
              if (n <? 0) || (Z.of_nat (length chunk) <? n) then
                let '(b, rest, back) := reconcileReservation reservation b rest 0 in
                (set b rest, mkSink s.(accepted) answers,
                 mkWriteOutcome done (Some (InvalidWriteCount n)) (net + reservation.(charged) - back) true, sched)
              else
                let '(b, rest, back) := reconcileReservation reservation b rest n in
                let s := mkSink (s.(accepted) ++ take (Z.to_nat n) chunk) answers in
                let net := net + reservation.(charged) - back in
                let done := done + n in
                match err with
                | Some e => (set b rest, s, mkWriteOutcome done (Some e) net true, sched)
                | None =>
                    if n =? 0 then (set b rest, s, mkWriteOutcome done (Some ErrNoProgress) net true, sched)
                    else writeLoop fuel (set b rest) s (drop (Z.to_nat n) p) done net sched
                end
          end
      end
      end
  end.

(** Every round that goes on writes a byte. *)
Definition Write (r : shapingReadWriteCloser) (s : sink) (p : list ascii) (sched : list attempt)
    : shapingReadWriteCloser * sink * writeOutcome * list attempt :=
  writeLoop (length p) r s p 0 0 sched.

(** ** Rules *)

Record publicTrafficShaperRuleConfig := mkShaperRule {
  ID : Z;
  Name : string;
  Priority : Z;
  Enabled : bool;
  BudgetScope : string;
  ProtocolScope : string;
  UploadBytesPerSecond : Z;
  DownloadBytesPerSecond : Z;
  BurstBytes : Z;
  RequestExemptBytes : Z;
  ResponseExemptBytes : Z;
  Match : policyMatch;
  KeyParts : list RateLimiter.publicRateLimitKeyPartConfig;
  CreatedAt : Z;
  UpdatedAt : Z;
  Fingerprint : string }.

(** What the fingerprint of a rule digests. *)
Record fingerprintFields := mkFingerprintFields {
  fpBudgetScope : string;
  fpProtocolScope : string;
  fpUpload : Z;
  fpDownload : Z;
  fpBurst : Z;
  fpRequestExempt : Z;
  fpResponseExempt : Z;
  fpMatch : policyMatch;
  fpKeyParts : list RateLimiter.publicRateLimitKeyPartConfig;
  fpUpdatedAt : Z }.

Definition fieldsOf (rule : publicTrafficShaperRuleConfig) : fingerprintFields :=
  mkFingerprintFields rule.(BudgetScope) rule.(ProtocolScope) rule.(UploadBytesPerSecond)
    rule.(DownloadBytesPerSecond) rule.(BurstBytes) rule.(RequestExemptBytes) rule.(ResponseExemptBytes)
    rule.(Match) rule.(KeyParts) rule.(UpdatedAt).

Definition effectiveBurstBytes (rule : publicTrafficShaperRuleConfig) (rate : Z) : Z :=
  if rate <=? 0 then 0 else if 0 <? rule.(BurstBytes) then rule.(BurstBytes) else rate.

Definition keyValues (rule : publicTrafficShaperRuleConfig) (listener : publicListenerConfig) (r : httpRequest)
    : list string :=
  RateLimiter.keyValues (RateLimiter.mkRateRule 0 0 false "" 0 0 0 (λ _ _, None) rule.(KeyParts) 0 "" "") listener r.

Definition normalizePublicTrafficShaperBudgetScope (scope : string) : string :=
  if String.eqb scope publicTrafficShaperBudgetScopePerRequest then publicTrafficShaperBudgetScopePerRequest
  else publicTrafficShaperBudgetScopePerKey.

Definition normalizePublicTrafficShaperProtocolScope (scope : string) : string :=
  if String.eqb scope publicTrafficShaperProtocolScopeWebSocketOnly then publicTrafficShaperProtocolScopeWebSocketOnly
  else if String.eqb scope publicTrafficShaperProtocolScopeWebSocketExcluded
  then publicTrafficShaperProtocolScopeWebSocketExcluded
  else publicTrafficShaperProtocolScopeAll.

(** [None] is an error of the expression. *)
Definition evaluateMatchForProtocol (rule : publicTrafficShaperRuleConfig) (listener : publicListenerConfig)
    (r : httpRequest) (isWebSocket : bool) : option bool :=
  let scope := normalizePublicTrafficShaperProtocolScope rule.(ProtocolScope) in
  if String.eqb scope publicTrafficShaperProtocolScopeWebSocketOnly && negb isWebSocket then Some false
  else if String.eqb scope publicTrafficShaperProtocolScopeWebSocketExcluded && isWebSocket then Some false
  else rule.(Match) listener r.

Definition matchesForProtocol (rule : publicTrafficShaperRuleConfig) (listener : publicListenerConfig)
    (r : httpRequest) (isWebSocket : bool) : bool := default false (evaluateMatchForProtocol rule listener r isWebSocket).

Definition shaperRuleLe (x y : publicTrafficShaperRuleConfig) : bool :=
  if x.(Priority) =? y.(Priority) then x.(ID) <=? y.(ID) else x.(Priority) <=? y.(Priority).
Definition sortPublicTrafficShaperRules : list publicTrafficShaperRuleConfig → list publicTrafficShaperRuleConfig :=
  sortBy shaperRuleLe.

(** ** WebSocket handshakes *)

Definition headerHasToken (header : gmap string (list string)) (name want : string) : bool :=
  existsb (λ value, existsb (λ part, EqualFold (TrimSpace part) want) (Split "," value)) (Values header name).

(** The two fields of a request that say whether it has a body. *)
Record wireRequest := mkWire { request : httpRequest; ContentLength : Z; TransferEncoding : list string }.

Definition isWebSocketHandshakeRequest (w : wireRequest) : bool :=
  let r := w.(request) in
  if negb (EqualFold r.(Method) "GET") then false
  else if negb (w.(ContentLength) =? 0) || negb (length w.(TransferEncoding) =? 0)%nat then false
  else if negb (headerHasToken r.(Header) "Connection" "upgrade")
          || negb (EqualFold (TrimSpace (RateLimiter.headerGet r.(Header) "Upgrade")) "websocket") then false
  else if negb (String.eqb (TrimSpace (RateLimiter.headerGet r.(Header) "Sec-WebSocket-Version")) "13") then false
  else match stdDecodeString (TrimSpace (RateLimiter.headerGet r.(Header) "Sec-WebSocket-Key")) with
       | Some key => (String.length key =? 16)%nat
       | None => false
       end.

(** ** The shaper *)

Record publicTrafficShaperRuleRuntime := mkShaperRuntime {
  fingerprint : string;
  uploadBuckets : gmap string (option Z);
  downloadBuckets : gmap string (option Z) }.

(** [heap] holds every bucket ever made, by its address; [nextAddr] is the next one. *)
Record publicTrafficShaper := mkShaper {
  rules : gmap Z publicTrafficShaperRuleRuntime;
  lastPrune : Z;
  heap : gmap Z byteTokenBucket;
  nextAddr : Z }.

Record publicTrafficShaperDecision := mkDecision {
  Rule : publicTrafficShaperRuleConfig;
  Listener : publicListenerConfig;
  MatchError : bool;
  UploadBucket : option Z;
  DownloadBucket : option Z }.

Definition newPublicTrafficShaper : publicTrafficShaper := mkShaper ∅ 0 ∅ 1.

(** A pointer to a new bucket, or nil. *)
Definition allocBucket (s : publicTrafficShaper) (b : option byteTokenBucket) : publicTrafficShaper * option Z :=
  match b with
  | None => (s, None)
  | Some b => (mkShaper s.(rules) s.(lastPrune) (<[s.(nextAddr) := b]> s.(heap)) (s.(nextAddr) + 1), Some s.(nextAddr))
  end.

(** [keep[rule.ID] = rule.Fingerprint] for the enabled rules, in order. *)
Definition keepOf (config : list publicTrafficShaperRuleConfig) : gmap Z string :=
  fold_left (λ m rule, if rule.(Enabled) then <[rule.(ID) := rule.(Fingerprint)]> m else m) config ∅.

(** A nil snapshot has no rules. *)
Definition reconcile (s : publicTrafficShaper) (config : list publicTrafficShaperRuleConfig) : publicTrafficShaper :=
  mkShaper
    (map_imap (λ id fp,
       Some (match s.(rules) !! id with
             | Some rt => if String.eqb rt.(fingerprint) fp then rt else mkShaperRuntime fp ∅ ∅
             | None => mkShaperRuntime fp ∅ ∅
             end)) (keepOf config))
    s.(lastPrune) s.(heap) s.(nextAddr).

(** The bucket a pointer of a map points to; nil and no entry have none. *)
Definition bucketAt (h : gmap Z byteTokenBucket) (p : option Z) : option byteTokenBucket := p ≫= λ a, h !! a.

Definition idleBucket (h : gmap Z byteTokenBucket) (now : Z) (p : option Z) : bool :=
  match bucketAt h p with
  | Some b => trafficShaperIdleStateTTL <? time_sub now (lastUsedAt b)
  | None => false
  end.

(** [None]: a nil bucket is dereferenced. *)
Definition pruneTrafficShaperBuckets (h : gmap Z byteTokenBucket) (m : gmap string (option Z)) (now : Z)
    : option (gmap string (option Z)) :=
  if bool_decide (map_Forall (λ _ p, is_Some (bucketAt h p)) m)
  then Some (filter (λ kv, idleBucket h now kv.2 = false) m) else None.

Definition pruneRuntime (h : gmap Z byteTokenBucket) (now : Z) (rt : publicTrafficShaperRuleRuntime)
    : option publicTrafficShaperRuleRuntime :=
  match pruneTrafficShaperBuckets h rt.(uploadBuckets) now, pruneTrafficShaperBuckets h rt.(downloadBuckets) now with
  | Some up, Some down => Some (mkShaperRuntime rt.(fingerprint) up down)
  | _, _ => None
  end.

Definition pruneLocked (s : publicTrafficShaper) (now : Z) : option publicTrafficShaper :=
  if negb (is_zero_time s.(lastPrune)) && (time_sub now s.(lastPrune) <? trafficShaperPruneInterval) then Some s
  else if bool_decide (map_Forall (λ _ rt, is_Some (pruneRuntime s.(heap) now rt)) s.(rules))
  then Some (mkShaper (omap (pruneRuntime s.(heap) now) s.(rules)) now s.(heap) s.(nextAddr))
  else None.

(** The scan of the eviction: a nil entry is removed at once. *)
Fixpoint evictScan (h : gmap Z byteTokenBucket) (m : gmap string (option Z)) (best : string * Z) (keys : list string)
    : gmap string (option Z) :=
  match keys with
  | [] => if String.eqb best.1 "" then m else delete best.1 m
  | key :: keys =>
      match m !! key with
      | None => evictScan h m best keys
      | Some p =>
          match bucketAt h p with
          | None => delete key m
          | Some b => if String.eqb best.1 "" || before (lastUsedAt b) best.2
                      then evictScan h m (key, lastUsedAt b) keys else evictScan h m best keys
          end
      end
  end.

Section evaluate.
Context (hash : string → string).
Context (order : gmap string (option Z) → list string).

Definition trafficShaperKeyHash (values : list string) : string :=
  hash ("traffic-shaper" ++ String "000" (RateLimiter.hashInput values))%string.

Definition evictOldestTrafficShaperBucket (h : gmap Z byteTokenBucket) (m : gmap string (option Z))
    : gmap string (option Z) := evictScan h m ("", 0) (order m).

(** The bucket of a key in one of the two maps of a rule, made when there is none. *)
Definition bucketForKey (s : publicTrafficShaper) (m : gmap string (option Z)) (key : string) (rate burst now : Z)
    : publicTrafficShaper * gmap string (option Z) * option Z :=
  if 0 <? rate then
    match mjoin (m !! key) with
    | Some p => (s, m, Some p)
    | None =>
        let m := if (maxTrafficShaperBucketsPerRule <=? size m)%nat
                 then evictOldestTrafficShaperBucket s.(heap) m else m in
        let '(s, p) := allocBucket s (newByteTokenBucket rate burst now) in
        (s, <[key := p]> m, p)
    end
  else (s, m, None).

Definition decisionForRule (s : publicTrafficShaper) (rule : publicTrafficShaperRuleConfig)
    (listener : publicListenerConfig) (r : httpRequest) (now : Z)
    : option (publicTrafficShaper * publicTrafficShaperDecision) :=
  let up := rule.(UploadBytesPerSecond) in
  let down := rule.(DownloadBytesPerSecond) in
  if String.eqb rule.(BudgetScope) publicTrafficShaperBudgetScopePerRequest then
    let '(s, u) := allocBucket s (newByteTokenBucket up (effectiveBurstBytes rule up) now) in
    let '(s, d) := allocBucket s (newByteTokenBucket down (effectiveBurstBytes rule down) now) in
    Some (s, mkDecision rule listener false u d)
  else
    let key := trafficShaperKeyHash (keyValues rule listener r) in
    match pruneLocked s now with
    | None => None
    | Some s =>
        let runtime :=
          match s.(rules) !! rule.(ID) with
          | Some rt => if String.eqb rt.(fingerprint) rule.(Fingerprint) then rt
                       else mkShaperRuntime rule.(Fingerprint) ∅ ∅
          | None => mkShaperRuntime rule.(Fingerprint) ∅ ∅
          end in
        let '(s, mu, u) := bucketForKey s runtime.(uploadBuckets) key up (effectiveBurstBytes rule up) now in
        let '(s, md, d) := bucketForKey s runtime.(downloadBuckets) key down (effectiveBurstBytes rule down) now in
        Some (mkShaper (<[rule.(ID) := mkShaperRuntime runtime.(fingerprint) mu md]> s.(rules))
                s.(lastPrune) s.(heap) s.(nextAddr),
              mkDecision rule listener false u d)
    end.

(** The inner [None] is no decision; the outer one a panic. *)
Fixpoint evaluateForProtocol (s : publicTrafficShaper) (config : list publicTrafficShaperRuleConfig)
    (listener : publicListenerConfig) (r : httpRequest) (isWebSocket : bool) (now : Z)
    : option (publicTrafficShaper * option publicTrafficShaperDecision) :=
  match config with
  | [] => Some (s, None)
  | rule :: config =>
      if negb rule.(Enabled) then evaluateForProtocol s config listener r isWebSocket now
      else match evaluateMatchForProtocol rule listener r isWebSocket with
           | None => Some (s, Some (mkDecision rule listener true None None))
           | Some false => evaluateForProtocol s config listener r isWebSocket now
           | Some true => (λ '(s, d), (s, Some d)) <$> decisionForRule s rule listener r now
           end
  end.

Definition evaluate (s : publicTrafficShaper) (config : list publicTrafficShaperRuleConfig)
    (listener : publicListenerConfig) (w : wireRequest) (now : Z)
    : option (publicTrafficShaper * option publicTrafficShaperDecision) :=
  evaluateForProtocol s config listener w.(request) (isWebSocketHandshakeRequest w) now.

(** The part of a snapshot the selection reads. *)
Record shaperSnapshot := mkSnapshot {
  TrafficShaperRules : list publicTrafficShaperRuleConfig;
  Listeners : gmap Z publicListenerConfig }.

Definition selectPublicTrafficShaperWithSnapshotForProtocol (s : publicTrafficShaper) (snap : option shaperSnapshot)
    (listenerID : Z) (r : httpRequest) (isWebSocket : bool) (now : Z)
    : option (publicTrafficShaper * option publicTrafficShaperDecision) :=
  match snap with
  | None => Some (s, None)
  | Some snap =>
      if (length snap.(TrafficShaperRules) =? 0)%nat then Some (s, None)
      else match snap.(Listeners) !! listenerID with
           | None => Some (s, None)
           | Some listener => evaluateForProtocol s snap.(TrafficShaperRules) listener r isWebSocket now
           end
  end.

Definition selectPublicTrafficShaperWithSnapshot (s : publicTrafficShaper) (snap : option shaperSnapshot)
    (listenerID : Z) (w : wireRequest) (now : Z) : option (publicTrafficShaper * option publicTrafficShaperDecision) :=
  selectPublicTrafficShaperWithSnapshotForProtocol s snap listenerID w.(request) (isWebSocketHandshakeRequest w) now.

Definition StatusSwitchingProtocols : Z := 101.

(** The shaper of the response: a handshake that the upstream did not accept is shaped
    like any other request. *)
Definition publicTrafficShaperForResponse (s : publicTrafficShaper) (snap : option shaperSnapshot) (listenerID : Z)
    (w : wireRequest) (statusCode : Z) (selected : option publicTrafficShaperDecision) (now : Z)
    : option (publicTrafficShaper * option publicTrafficShaperDecision) :=
  if (statusCode =? StatusSwitchingProtocols) || negb (isWebSocketHandshakeRequest w) then Some (s, selected)
  else selectPublicTrafficShaperWithSnapshotForProtocol s snap listenerID w.(request) false now.
End evaluate.

(** ** Wrapping the bodies of a decision *)

Definition wrapUploadBody (d : publicTrafficShaperDecision) (h : gmap Z byteTokenBucket) (bodyPresent : bool)
    : option shapingReadCloser :=
  newShapingReadCloser bodyPresent (bucketAt h d.(UploadBucket)) d.(Rule).(RequestExemptBytes).

Definition wrapDownloadBody (d : publicTrafficShaperDecision) (h : gmap Z byteTokenBucket) (bodyPresent : bool)
    : option shapingReadCloser :=
  newShapingReadCloser bodyPresent (bucketAt h d.(DownloadBucket)) d.(Rule).(ResponseExemptBytes).

(** [writable]: the body is an [io.ReadWriteCloser]. *)
Definition wrapUpgradeBody (d : publicTrafficShaperDecision) (h : gmap Z byteTokenBucket) (bodyPresent writable : bool)
    : option shapingReadWriteCloser :=
  if negb bodyPresent || (bool_decide (d.(UploadBucket) = None) && bool_decide (d.(DownloadBucket) = None)) then None
  else if negb writable then None
  else Some (mkReadWriter (bucketAt h d.(DownloadBucket)) (bucketAt h d.(UploadBucket))
               (Z.max d.(Rule).(ResponseExemptBytes) 0) (Z.max d.(Rule).(RequestExemptBytes) 0)).

(** ** Validation and loading *)

Inductive shaperError :=
  | ErrName | ErrBudgetScope | ErrProtocolScope | ErrUpload | ErrDownload | ErrNoBandwidth | ErrBurst
  | ErrRequestExempt | ErrResponseExempt | ErrMatch | ErrKeyParts (e : RateLimiter.validationError).

Inductive protoBudgetScope := BUDGET_UNSPECIFIED | BUDGET_PER_KEY | BUDGET_PER_REQUEST | BUDGET_INVALID.
Inductive protoProtocolScope :=
  | PROTOCOL_UNSPECIFIED | PROTOCOL_ALL | PROTOCOL_WEBSOCKET_ONLY | PROTOCOL_WEBSOCKET_EXCLUDED | PROTOCOL_INVALID.

Definition trafficShaperBudgetScopeStringFromProto (scope : protoBudgetScope) : shaperError + string :=
  match scope with
  | BUDGET_UNSPECIFIED | BUDGET_PER_KEY => inr publicTrafficShaperBudgetScopePerKey
  | BUDGET_PER_REQUEST => inr publicTrafficShaperBudgetScopePerRequest
  | BUDGET_INVALID => inl ErrBudgetScope
  end.

Definition protoTrafficShaperBudgetScopeFromString (scope : string) : protoBudgetScope :=
  if String.eqb (normalizePublicTrafficShaperBudgetScope scope) publicTrafficShaperBudgetScopePerRequest
  then BUDGET_PER_REQUEST else BUDGET_PER_KEY.

Definition trafficShaperProtocolScopeStringFromProto (scope : protoProtocolScope) : shaperError + string :=
  match scope with
  | PROTOCOL_UNSPECIFIED | PROTOCOL_ALL => inr publicTrafficShaperProtocolScopeAll
  | PROTOCOL_WEBSOCKET_ONLY => inr publicTrafficShaperProtocolScopeWebSocketOnly
  | PROTOCOL_WEBSOCKET_EXCLUDED => inr publicTrafficShaperProtocolScopeWebSocketExcluded
  | PROTOCOL_INVALID => inl ErrProtocolScope
  end.

Definition protoTrafficShaperProtocolScopeFromString (scope : string) : protoProtocolScope :=
  let scope := normalizePublicTrafficShaperProtocolScope scope in
  if String.eqb scope publicTrafficShaperProtocolScopeWebSocketOnly then PROTOCOL_WEBSOCKET_ONLY
  else if String.eqb scope publicTrafficShaperProtocolScopeWebSocketExcluded then PROTOCOL_WEBSOCKET_EXCLUDED
  else PROTOCOL_ALL.

Record shaperRuleRequest := mkRequestRule {
  ReqName : string;
  ReqPriority : Z;
  ReqEnabled : bool;
  ReqBudgetScope : protoBudgetScope;
  ReqProtocolScope : protoProtocolScope;
  ReqUpload : Z;
  ReqDownload : Z;
  ReqBurst : Z;
  ReqRequestExempt : Z;
  ReqResponseExempt : Z;
  ReqKeyParts : list (option (RateLimiter.protoKeySource * string)) }.

(** What validation hands to the database; the JSON columns as the values they encode. *)
Record publicTrafficShaperRuleMutationInput := mkMutation {
  InName : string;
  InPriority : Z;
  InEnabled : Z;
  InBudgetScope : string;
  InProtocolScope : string;
  InUpload : Z;
  InDownload : Z;
  InBurst : Z;
  InRequestExempt : Z;
  InResponseExempt : Z;
  MatchJSON : policyMatch;
  KeyPartsJSON : list RateLimiter.publicRateLimitKeyPartConfig }.

Definition outside (max v : Z) : bool := (v <? 0) || (max <? v).

(** [validatePublicPolicyMatch] is the match once compiled, [None] when it is refused. *)
Definition validatePublicTrafficShaperRuleInput (req : shaperRuleRequest)
    (validatePublicPolicyMatch : option policyMatch) : shaperError + publicTrafficShaperRuleMutationInput :=
  let name := TrimSpace req.(ReqName) in
  let name := if String.eqb name "" then defaultTrafficShaperName else name in
  if negb (RetryPolicy.publicNamePattern name) then inl ErrName
  else match trafficShaperBudgetScopeStringFromProto req.(ReqBudgetScope) with
  | inl e => inl e
  | inr scope =>
  match trafficShaperProtocolScopeStringFromProto req.(ReqProtocolScope) with
  | inl e => inl e
  | inr protocol =>
  if outside maxTrafficShaperBytesPerSecond req.(ReqUpload) then inl ErrUpload
  else if outside maxTrafficShaperBytesPerSecond req.(ReqDownload) then inl ErrDownload
  else if (req.(ReqUpload) =? 0) && (req.(ReqDownload) =? 0) then inl ErrNoBandwidth
  else if outside maxTrafficShaperBurstBytes req.(ReqBurst) then inl ErrBurst
  else if outside maxTrafficShaperExemptBytes req.(ReqRequestExempt) then inl ErrRequestExempt
  else if outside maxTrafficShaperExemptBytes req.(ReqResponseExempt) then inl ErrResponseExempt
  else match validatePublicPolicyMatch with
  | None => inl ErrMatch
  | Some m =>
  match (if String.eqb scope publicTrafficShaperBudgetScopePerKey
         then RateLimiter.validateRateLimitClientIdentityKeyParts req.(ReqKeyParts) else inr []) with
  | inl e => inl (ErrKeyParts e)
  | inr parts =>
      inr (mkMutation name req.(ReqPriority) (RetryPolicy.boolInt req.(ReqEnabled)) scope protocol req.(ReqUpload)
             req.(ReqDownload) req.(ReqBurst) req.(ReqRequestExempt) req.(ReqResponseExempt) m parts)
  end end end end.

(** A row of the table.  A JSON column is the value it decodes to: [None] for the empty
    string, [Some None] where decoding fails. *)
Record shaperRuleRow := mkShaperRow {
  RowID : Z;
  RowName : string;
  RowPriority : Z;
  RowEnabled : Z;
  RowBudgetScope : string;
  RowProtocolScope : string;
  RowUpload : Z;
  RowDownload : Z;
  RowBurst : Z;
  RowRequestExempt : Z;
  RowResponseExempt : Z;
  RowMatchJson : option (option policyMatch);
  RowKeyPartsJson : option (option (list RateLimiter.publicRateLimitKeyPartConfig));
  RowCreatedAt : Z;
  RowUpdatedAt : Z }.

Section loading.
(** The digest of the fingerprint, and the match of a rule that has none. *)
Context (digest : fingerprintFields → string) (emptyMatch : policyMatch).

Definition publicTrafficShaperRuleFingerprint (rule : publicTrafficShaperRuleConfig) : string := digest (fieldsOf rule).

(** [None] is an error: the configuration is refused. *)
Definition publicTrafficShaperRuleRowToConfig (row : shaperRuleRow) : option publicTrafficShaperRuleConfig :=
  let scope := normalizePublicTrafficShaperBudgetScope row.(RowBudgetScope) in
  match default (Some emptyMatch) row.(RowMatchJson) with
  | None => None
  | Some m =>
  match default (Some []) row.(RowKeyPartsJson) with
  | None => None
  | Some parts =>
  match (if String.eqb scope publicTrafficShaperBudgetScopePerRequest then inr []
         else RateLimiter.validateStoredRateLimitClientIdentityKeyParts parts) with
  | inl _ => None
  | inr parts =>
      let rule fp := mkShaperRule row.(RowID) row.(RowName) row.(RowPriority) (negb (row.(RowEnabled) =? 0)) scope
        (normalizePublicTrafficShaperProtocolScope row.(RowProtocolScope)) row.(RowUpload) row.(RowDownload)
        row.(RowBurst) row.(RowRequestExempt) row.(RowResponseExempt) m parts row.(RowCreatedAt) row.(RowUpdatedAt) fp in
      Some (rule (publicTrafficShaperRuleFingerprint (rule "")))
  end end end.

(** The rules of a snapshot; one bad row refuses it. *)
Definition loadTrafficShaperRules (rows : list shaperRuleRow) : option (list publicTrafficShaperRuleConfig) :=
  sortPublicTrafficShaperRules <$> mapM publicTrafficShaperRuleRowToConfig rows.
End loading.

(** The row the database keeps for a validated rule. *)
Definition storedRow (id : Z) (input : publicTrafficShaperRuleMutationInput) (created updated : Z) : shaperRuleRow :=
  mkShaperRow id input.(InName) input.(InPriority) input.(InEnabled) input.(InBudgetScope) input.(InProtocolScope)
    input.(InUpload) input.(InDownload) input.(InBurst) input.(InRequestExempt) input.(InResponseExempt)
    (Some (Some input.(MatchJSON))) (Some (Some input.(KeyPartsJSON))) created updated.

(** ** The pipeline stage *)

Inductive shaperStage := StageContinue (selected : option publicTrafficShaperDecision) | StageRejected.

Definition trafficShaperStage (ok : option publicTrafficShaperDecision) : shaperStage :=
  match ok with
  | None => StageContinue None
  | Some d => if d.(MatchError) then StageRejected else StageContinue (Some d)
  end.

Definition trafficShaperDecisionIfSelected (decision : publicTrafficShaperDecision) (selected : bool)
    : option publicTrafficShaperDecision := if selected then Some decision else None.

End TrafficShaper.
