(* ===== verification/TrafficShaperProps.v ===== *)
(** Theorems on the traffic shaper of TrafficShaper.v: buckets never hold more than their
    burst, waiting spends exactly the bytes it was asked for and is released in time,
    exemptions and charges of shaped bodies add up, the maps of the shaper are bounded
    and share nothing, and rules survive storing and loading. *)

From S2P Require Import Prelude.
From S2P Require Import GoStrings.
From S2P Require Import GoFloat.
From S2P Require Import GoFloatProps.
From S2P Require Import NetIP.
From S2P Require Import ClientIdentity.
From S2P Require Import WafCookies.
From S2P Require Import RateLimiter.
From S2P Require Import RetryPolicy.
From S2P Require Import TrafficShaper.
From Stdlib Require Import Ascii.

Module TrafficShaperProps.
Import TrafficShaper.

(** ** Buckets *)

Definition zeroF : float64 := float_of_int 0.
Definition max63 : Z := 2 ^ 63.

(** A bucket of [rate] bytes per second and a burst of [burst] bytes. *)
Record bucketWf (rate burst : Z) (b : byteTokenBucket) : Prop := {
  wf_rate : b.(rateBytesPerSecond) = float_of_int rate;
  wf_burst : b.(burstBytes) = float_of_int burst;
  wf_rate_range : 0 < rate ≤ max63;
  wf_burst_range : 0 < burst ≤ max63;
  wf_tokens : good b.(tokens);
  wf_bound : val b.(tokens) ≤ val (float_of_int burst) }.

(** What a goroutine asks of a bucket: a number of bytes that is not negative. *)
Definition opOk (op : bucketOp) : Prop := match op with OpSpend _ bytes => good bytes | OpRefund _ => True end.

Section bucket.
Context {rate burst : Z}.
Implicit Types b : byteTokenBucket.

Lemma wf_burst_good b : bucketWf rate burst b → good b.(burstBytes) ∧ 0 < val b.(burstBytes) < top.
Proof.
  intros []. rewrite wf_burst0. unfold max63 in *. split; [apply of_int_good; lia|].
  split; [apply of_int_pos; lia|apply of_int_finite; lia].
Qed.

Lemma wf_rate_good b : bucketWf rate burst b → good b.(rateBytesPerSecond) ∧ 0 < val b.(rateBytesPerSecond) < top.
Proof.
  intros []. rewrite wf_rate0. unfold max63 in *. split; [apply of_int_good; lia|].
  split; [apply of_int_pos; lia|apply of_int_finite; lia].
Qed.

(** Adding tokens and cutting at the burst. *)
Lemma wf_add b x refill used : bucketWf rate burst b → good x →
  let tok := fadd b.(tokens) x in
  let tok := if fgt tok b.(burstBytes) then b.(burstBytes) else tok in
  bucketWf rate burst (mkBucket b.(rateBytesPerSecond) b.(burstBytes) tok refill used) ∧
  (val x ≤ val tok ∨ tok = b.(burstBytes)).
Proof.
  intros Hb Hx tok tok'. destruct (wf_burst_good b Hb) as [Hg _]. pose proof Hb as Hb'. destruct Hb'.
  destruct (fadd_rounds _ _ wf_tokens0 Hx) as (Hgood & _ & Hlow). fold tok in Hgood, Hlow.
  assert (Ht : good tok' ∧ val tok' ≤ val (float_of_int burst) ∧ (val x ≤ val tok' ∨ tok' = b.(burstBytes))).
  { unfold tok'. rewrite (fgt_good tok _ Hgood Hg). rewrite <- wf_burst0. destruct (Z.ltb_spec (val (burstBytes b)) (val tok)).
    - split; [done|]. split; [done|by right].
    - split; [done|]. split; [done|]. left. apply Hlow; [done|]. pose proof (val_range _ wf_tokens0). lia. }
  destruct Ht as (H1 & H2 & H3). split; [by constructor|done].
Qed.

Lemma elapsed_good b now : before now b.(lastRefill) = false → good (Seconds (time_sub now b.(lastRefill))).
Proof.
  unfold before. intros H. bprop. apply Seconds_good. unfold time_sub, sat64, min_int64, max_int64. lia.
Qed.

Lemma refill_wf b now : bucketWf rate burst b → bucketWf rate burst (refillLocked b now).
Proof.
  intros Hb. unfold refillLocked. destruct (before _ _) eqn:E; [by destruct Hb; constructor|]. cbv zeta.
  destruct (fge _ _); [done|]. apply wf_add; [done|].
  apply fmul_good; [by apply elapsed_good|by apply (wf_rate_good b)..].
Qed.

Lemma spend_wf b now bytes : bucketWf rate burst b → good bytes → bucketWf rate burst (attemptSpend b now bytes).1.
Proof.
  intros Hb Hg. unfold attemptSpend. pose proof (refill_wf b now Hb) as Hr. set (b' := refillLocked b now) in *.
  pose proof Hr as Hr'. destruct Hr'. destruct (fge _ _) eqn:E; [|done]. rewrite fge_good in E by done. bprop.
  destruct (wf_burst_good b' Hr) as [_ Hfin]. rewrite wf_burst0 in Hfin.
  destruct (fsub_rounds _ _ wf_tokens0 Hg E ltac:(lia)) as (Hgood & Hup & _). simpl. constructor; try done; simpl.
  etrans; [apply Hup|exact wf_bound0]; [done|]. pose proof (val_range _ Hg). lia.
Qed.

Lemma refund_wf b n : bucketWf rate burst b → bucketWf rate burst (refund b n).
Proof.
  intros Hb. unfold refund. destruct (Z.leb_spec n 0); [done|]. apply wf_add; [done|]. apply of_int_good. lia.
Qed.

Lemma op_wf b op : opOk op → bucketWf rate burst b → bucketWf rate burst (applyOp b op).
Proof. destruct op; intros; [by apply spend_wf|by apply refund_wf]. Qed.

Lemma ops_wf ops : ∀ b, Forall opOk ops → bucketWf rate burst b → bucketWf rate burst (applyOps b ops).
Proof.
  induction ops as [|op ops IH]; intros b Ho Hb; [done|]. apply Forall_cons in Ho as [? ?].
  apply IH; [done|]. by apply op_wf.
Qed.

(** A reading of the clock by which the time since the last refill fills the bucket. *)
Definition late b (now : Z) : bool :=
  negb (before now b.(lastRefill)) && negb (fge (float_of_int 0) (Seconds (time_sub now b.(lastRefill))))
  && fge (fmul (Seconds (time_sub now b.(lastRefill))) b.(rateBytesPerSecond)) b.(burstBytes).

Lemma late_full b now : bucketWf rate burst b → late b now = true → val (refillLocked b now).(tokens) = val b.(burstBytes).
Proof.
  intros Hb. unfold late, refillLocked. intros H. apply andb_true_iff in H as [[H1%negb_true_iff H2%negb_true_iff]%andb_true_iff H3].
  rewrite H1. cbv zeta. rewrite H2. simpl.
  assert (Hx : good (fmul (Seconds (time_sub now (lastRefill b))) (rateBytesPerSecond b))).
  { apply fmul_good; [by apply elapsed_good|by apply (wf_rate_good b)..]. }
  destruct (wf_burst_good b Hb) as [Hg _]. rewrite fge_good in H3 by done. bprop.
  destruct (wf_add b _ 0 0 Hb Hx) as [[] [Hle| ->]]; simpl in *; [|done]. apply Z.le_antisymm; [|lia].
  by rewrite wf_burst0 in wf_bound0 |- *.
Qed.

Lemma late_spent b now bytes : bucketWf rate burst b → good bytes → val bytes ≤ val b.(burstBytes) → late b now = true →
  ∃ b', attemptSpend b now bytes = (b', Spent).
Proof.
  intros Hb Hg Hle Hl. unfold attemptSpend. pose proof (late_full b now Hb Hl) as Hf.
  rewrite fge_good; [|by apply refill_wf|done]. rewrite Hf.
  destruct (Z.leb_spec (val bytes) (val (burstBytes b))); [by eexists|lia].
Qed.
End bucket.

Lemma new_wf rate burst now b : rate ≤ max63 → burst ≤ max63 → newByteTokenBucket rate burst now = Some b →
  bucketWf rate (if burst <=? 0 then rate else burst) b.
Proof.
  unfold newByteTokenBucket. intros Hr Hu H. case_if_hyp H E. injection H as <-. bprop.
  destruct (Z.leb_spec burst 0); constructor; simpl; try done; try lia; apply of_int_good; lia.
Qed.

(** ** Waiting *)

(** The pieces [bytes] is spent in. *)
Definition pieces (burst bytes : Z) : list Z :=
  replicate (Z.to_nat (bytes / burst)) burst ++ (if bytes mod burst =? 0 then [] else [bytes mod burst]).

Fixpoint runPieces (sched : list attempt) (b : byteTokenBucket) (ps : list Z)
    : byteTokenBucket * waitResult * list attempt :=
  match ps with
  | [] => (b, Done, sched)
  | p :: ps =>
      match waitForSpend sched b (float_of_int p) with
      | (b, Done, sched) => runPieces sched b ps
      | r => r
      end
  end.

Definition schedOk (sched : list attempt) : Prop := Forall (λ a, Forall opOk a.(others)) sched.

Lemma waitForSpend_shape {rate burst} sched bytes : ∀ b b' r rest,
  bucketWf rate burst b → good bytes → schedOk sched → waitForSpend sched b bytes = (b', r, rest) →
  bucketWf rate burst b' ∧ schedOk rest ∧ (length rest ≤ length sched)%nat ∧ (r = Done → (length rest < length sched)%nat) ∧
  (r = Blocked → rest = []).
Proof.
  induction sched as [|a sched IH]; intros b b' r rest Hb Hg Hs E; simpl in E.
  { injection E as <- <- <-. split_and!; done. }
  apply Forall_cons in Hs as [Ha Hs]. pose proof (spend_wf (applyOps b a.(others)) a.(clock) bytes (ops_wf _ b Ha Hb) Hg) as Hw.
  destruct (attemptSpend _ _ _) as [b1 [|d]]; simpl in Hw.
  - injection E as <- <- <-. split_and!; try done; simpl; lia.
  - destruct (sleepWithContext _ _).
    + injection E as <- <- <-. split_and!; try done; simpl; lia.
    + apply IH in E as (? & ? & ? & ? & ?); try done. split_and!; try done; simpl; [lia|]. intros. specialize (H2 H4). lia.
Qed.

Lemma pieces_next burst n : 0 < burst → 0 < n → pieces burst n = Z.min n burst :: pieces burst (n - Z.min n burst).
Proof.
  intros Hb Hn. unfold pieces. destruct (Z.lt_ge_cases n burst).
  - rewrite Z.min_l, Z.sub_diag, Z.div_small, Z.mod_small by lia. rewrite Z.div_0_l, Z.mod_0_l by lia. simpl.
    by destruct (Z.eqb_spec n 0); [lia|].
  - rewrite Z.min_r by lia.
    assert (E1 : (n - burst) / burst = n / burst - 1).
    { replace (n - burst) with (n + (-1) * burst) by lia. rewrite Z.div_add by lia. lia. }
    assert (E2 : (n - burst) mod burst = n mod burst).
    { replace (n - burst) with (n + (-1) * burst) by lia. by rewrite Z.mod_add by lia. }
    rewrite E1, E2. assert (1 ≤ n / burst) by (apply Z.div_le_lower_bound; lia).
    replace (Z.to_nat (n / burst)) with (S (Z.to_nat (n / burst - 1))) by lia. done.
Qed.

Lemma good_eq x y : good x → good y → val x = val y → 0 < val x → x = y.
Proof.
  intros Hx Hy E Hp. pose proof (val_finite_lt) as Hfin.
  destruct x as [s|s| |s m e]; [simpl in Hp; lia| |by destruct Hx|];
    (destruct y as [s'|s'| |s' m' e']; [simpl in *; lia| |by destruct Hy|]).
  - destruct Hx as [_ Hx], Hy as [_ Hy]. by destruct s, s'.
  - assert (s = false) as -> by (destruct Hx as [_ Hx]; by destruct s). specialize (Hfin _ _ _ Hy). rewrite <- E in Hfin. simpl in Hfin. lia.
  - assert (s' = false) as -> by (destruct Hy as [_ Hy]; by destruct s'). specialize (Hfin _ _ _ Hx). rewrite E in Hfin. simpl in Hfin. lia.
  - pose proof (good_exp _ _ _ Hx) as [-> Hb]. pose proof (good_exp _ _ _ Hy) as [-> _]. unfold val in E.
    destruct (Z.lt_trichotomy e e') as [Hl|[<-|Hl]].
    + pose proof (canonical_lt _ _ _ _ Hx Hy Hl). lia.
    + assert (Z.pos m = Z.pos m') as [= ->]; [|done].
      apply Z.le_antisymm; apply (V_mono_inv _ _ e); unfold base; lia.
    + pose proof (canonical_lt _ _ _ _ Hy Hx Hl). lia.
Qed.

(** Subtracting integers gives the float of the difference. *)
Lemma fsub_int_eq a b : 0 ≤ b ≤ a → a ≤ 2 ^ 53 → b < a → fsub (float_of_int a) (float_of_int b) = float_of_int (a - b).
Proof.
  intros Hb Ha Hlt. apply good_eq.
  - apply fsub_rounds; try (apply of_int_good; lia); [|apply of_int_finite; lia].
    rewrite !of_int_val by lia. by apply V0_le; lia.
  - apply of_int_good; lia.
  - rewrite fsub_int by lia. by rewrite of_int_val by lia.
  - rewrite fsub_int by lia. apply V_pos; unfold base; lia.
Qed.

Lemma zero_not_positive n : 0 ≤ n ≤ 2 ^ 53 → fgt (float_of_int n) (float_of_int 0) = (0 <? n).
Proof.
  intros Hn. rewrite fgt_good by (apply of_int_good; lia). rewrite !of_int_val by lia.
  destruct (Z.ltb_spec (V 0 0) (V n 0)) as [H|H], (Z.ltb_spec 0 n); try done.
  - assert (n = 0) as -> by lia. lia.
  - apply (proj1 (V0_le _ _)) in H. lia.
Qed.

Lemma above_burst n burst : 0 < burst → 0 ≤ n ≤ 2 ^ 53 → fgt (float_of_int n) (float_of_int burst) = (burst <? n).
Proof.
  intros Hb Hn. rewrite fgt_good by (apply of_int_good; lia). rewrite (of_int_val n) by lia.
  destruct (Z.le_gt_cases burst (2 ^ 53)) as [Hle|Hgt].
  - rewrite of_int_val by lia. pose proof (V0_le n burst) as Hiff.
    destruct (Z.ltb_spec burst n) as [H1|H1], (Z.ltb_spec (V burst 0) (V n 0)) as [H2|H2]; try done; exfalso.
    + apply Hiff in H2. lia.
    + apply Hiff in H1. lia.
  - destruct (of_int_rounds burst ltac:(lia)) as (_ & _ & Hl).
    specialize (Hl (float_of_int (2 ^ 53)) ltac:(by apply of_int_good)). rewrite of_int_val in Hl by lia.
    assert (V (2 ^ 53) 0 ≤ val (float_of_int burst)) by (apply Hl, V0_le; lia).
    assert (V n 0 ≤ V (2 ^ 53) 0) by (apply V0_le; lia).
    destruct (Z.ltb_spec burst n), (Z.ltb_spec (val (float_of_int burst)) (V n 0)); try done; lia.
Qed.

Lemma waitLoop_pieces {rate burst} fuel : ∀ sched b n,
  bucketWf rate burst b → schedOk sched → 0 ≤ n ≤ 2 ^ 53 → (length sched ≤ fuel)%nat →
  waitLoop fuel sched b (float_of_int n) = runPieces sched b (pieces burst n).
Proof.
  induction fuel as [|fuel IH]; intros sched b n Hb Hs Hn Hf.
  - destruct sched; [|simpl in Hf; lia]. simpl waitLoop. rewrite zero_not_positive by done.
    destruct (Z.ltb_spec 0 n); simpl.
    + rewrite pieces_next by (try lia; apply Hb). done.
    + assert (n = 0) as -> by lia. unfold pieces. rewrite Z.div_0_l, Z.mod_0_l by (destruct Hb; lia). done.
  - cbn [waitLoop]. rewrite zero_not_positive by done.
    assert (Hb0 : 0 < burst) by apply Hb.
    destruct (Z.ltb_spec 0 n) as [Hp|Hp]; cbn [negb].
    2: { assert (n = 0) as -> by lia. unfold pieces. by rewrite Z.div_0_l, Z.mod_0_l by lia. }
    rewrite pieces_next by lia. cbn [runPieces].
    destruct (wf_burst_good b Hb) as [Hg Hfin].
    assert (fgt b.(burstBytes) (float_of_int 0) = true) as ->.
    { rewrite fgt_good by (done || by apply of_int_good). rewrite of_int_val by lia. apply Z.ltb_lt. unfold V at 1. lia. }
    rewrite andb_true_l.
    assert ((if fgt (float_of_int n) b.(burstBytes) then b.(burstBytes) else float_of_int n) = float_of_int (Z.min n burst)) as ->.
    { rewrite (wf_burst _ _ _ Hb), above_burst by done. destruct (Z.ltb_spec burst n); f_equal; lia. }
    destruct (waitForSpend sched b _) as [[b1 r] rest] eqn:E.
    apply (waitForSpend_shape (rate := rate) (burst := burst)) in E as (Hb1 & Hs1 & _ & Hlt & _); [|done|apply of_int_good; lia|done].
    destruct r; [|done|done]. specialize (Hlt eq_refl).
    destruct (Z.eq_dec n (Z.min n burst)) as [En|En].
    + assert (fsub (float_of_int n) (float_of_int (Z.min n burst)) = float_of_int (n - Z.min n burst)) as ->.
      { rewrite <- En, Z.sub_diag. destruct (of_int_rounds n ltac:(lia)) as ((Hv & Hnn) & _).
        unfold fsub, float_of_int. destruct n as [|m|]; [done| |lia]. cbn [SpecFloat.binary_normalize].
        change (SpecFloat.binary_round 53 1024 false m 0) with (float_of_int (Z.pos m)).
        destruct (float_of_int (Z.pos m)) as [s|s| |s k e] eqn:Ef; [|exfalso|done|].
        - by destruct s.
        - pose proof (of_int_finite (Z.pos m) ltac:(lia)) as Hlt'. rewrite Ef in Hlt'. destruct s; [done|]. simpl in Hlt'. lia.
        - unfold SpecFloat.SFsub. by rewrite Z.sub_diag. }
      apply IH; [done|done|lia|lia].
    + rewrite fsub_int_eq by lia. apply IH; [done|done|lia|lia].
Qed.
Lemma pieces_sum burst n : 0 < burst → 0 ≤ n → zsum (pieces burst n) = n ∧ Forall (λ p, 0 < p ≤ burst) (pieces burst n).
Proof.
  intros Hb Hn. unfold pieces. pose proof (Z.div_pos n burst Hn Hb). pose proof (Z.mod_pos_bound n burst Hb).
  assert (Hr : ∀ k, zsum (replicate k burst) = Z.of_nat k * burst).
  { induction k as [|k IH]; [done|]. unfold zsum in *. cbn [replicate foldr]. lia. }
  split.
  - rewrite zsum_app, Hr, Z2Nat.id by done. pose proof (Z.div_mod n burst ltac:(lia)).
    destruct (Z.eqb_spec (n mod burst) 0); unfold zsum; simpl; lia.
  - apply Forall_app. split; [apply Forall_replicate; lia|].
    destruct (Z.eqb_spec (n mod burst) 0); [done|]. repeat constructor; lia.
Qed.

Lemma runPieces_wf {rate burst} ps : ∀ sched b b' r rest,
  bucketWf rate burst b → Forall (λ p, 0 ≤ p) ps → schedOk sched → runPieces sched b ps = (b', r, rest) →
  bucketWf rate burst b' ∧ schedOk rest.
Proof.
  induction ps as [|p ps IH]; intros sched b b' r rest Hb Hp Hs E; simpl in E; [by injection E as <- <- <-|].
  apply Forall_cons in Hp as [Hp0 Hp]. destruct (waitForSpend _ _ _) as [[b1 r1] s1] eqn:Ew.
  apply (waitForSpend_shape (rate := rate) (burst := burst)) in Ew as (Hb1 & Hs1 & _); [|done|by apply of_int_good|done].
  destruct r1; [by eapply IH|by injection E as <- <- <-..].
Qed.

Lemma wait_pieces {rate burst} b n sched : bucketWf rate burst b → schedOk sched → n ≤ 2 ^ 53 →
  wait b n sched = runPieces sched b (if 0 <? n then pieces burst n else []).
Proof.
  intros Hb Hs Hn. unfold wait. destruct (Z.leb_spec n 0), (Z.ltb_spec 0 n); try lia; [done|]. cbn [orb].
  destruct (wf_rate_good b Hb) as [Hg Hr]. rewrite fge_good by (done || by apply of_int_good).
  rewrite of_int_val by lia. change (V 0 0) with 0. destruct (Z.leb_spec (val (rateBytesPerSecond b)) 0); [lia|].
  by apply (waitLoop_pieces (rate := rate) (burst := burst)); [..|lia|].
Qed.

Lemma wait_wf {rate burst} b n sched b' r rest : bucketWf rate burst b → schedOk sched → n ≤ 2 ^ 53 →
  wait b n sched = (b', r, rest) → bucketWf rate burst b' ∧ schedOk rest.
Proof.
  intros Hb Hs Hn. rewrite (wait_pieces b n sched Hb Hs Hn). apply runPieces_wf; [done| |done].
  destruct (Z.ltb_spec 0 n); [|done]. destruct (pieces_sum burst n) as [_ H']; [apply Hb|lia|].
  eapply Forall_impl; [exact H'|]. simpl. lia.
Qed.

Lemma waitForSpend_app pre : ∀ b bytes b' post, waitForSpend pre b bytes = (b', Blocked, []) →
  waitForSpend (pre ++ post) b bytes = waitForSpend post b' bytes.
Proof.
  induction pre as [|a pre IH]; intros b bytes b' post E; simpl in E |- *; [by injection E as <-|].
  destruct (attemptSpend _ _ _) as [b1 [|d]]; [done|]. destruct (sleepWithContext _ _); [done|]. by apply IH.
Qed.

(** ** Reading *)

(** The calls a reader serves: the length of the buffer, what the body gives, and the
    schedule of the wait that may follow. *)
Definition readCall : Type := Z * readAnswer * list attempt.

Fixpoint readSession (r : shapingReadCloser) (calls : list readCall) : shapingReadCloser * list readOutcome :=
  match calls with
  | [] => (r, [])
  | (len, answer, sched) :: calls =>
      let '(r, o) := Read r len answer sched in
      let '(r, os) := readSession r calls in (r, o :: os)
  end.

Definition totalRead (os : list readOutcome) : Z := zsum (map count os).
Definition totalCharge (os : list readOutcome) : Z := zsum (map charge os).
Definition callOk (c : readCall) : Prop := 0 ≤ c.1.1 ∧ schedOk c.2.

Lemma chunkLimit_range {rate burst} b : bucketWf rate burst b → 1 ≤ chunkLimit b ≤ maxShapingChunkBytes.
Proof.
  intros Hb. unfold chunkLimit, maxShapingChunkBytes. destruct (fge _ _); [lia|].
  cbv zeta. destruct (Z.ltb_spec (ceilInt (burstBytes b)) 1); [simpl; lia|].
  destruct (Z.ltb_spec 32768 (ceilInt (burstBytes b))); lia.
Qed.

Lemma exemptOf_min ex n : 0 ≤ ex → 0 ≤ n → exemptOf ex n = Z.min ex n.
Proof. unfold exemptOf. intros. destruct (Z.ltb_spec 0 ex); [destruct (Z.ltb_spec ex n)|]; lia. Qed.

Lemma Read_spec {rate burst} r len answer sched r' o :
  bucketWf rate burst r.(bucket) → 0 ≤ r.(exemptRemaining) → 0 ≤ len → schedOk sched →
  Read r len answer sched = (r', o) →
  bucketWf rate burst r'.(bucket) ∧
  o.(count) = Z.min (Z.of_nat answer.(atHand)) (Z.min len (chunkLimit r.(bucket))) ∧
  r'.(exemptRemaining) = r.(exemptRemaining) - Z.min r.(exemptRemaining) o.(count) ∧
  o.(charge) = o.(count) - Z.min r.(exemptRemaining) o.(count).
Proof.
  intros Hb He Hl Hs. unfold Read, bodyRead. cbv zeta.
  assert ((if chunkLimit r.(bucket) <? len then chunkLimit r.(bucket) else len) = Z.min len (chunkLimit r.(bucket))) as ->
    by (destruct (Z.ltb_spec (chunkLimit r.(bucket)) len); lia).
  pose proof (chunkLimit_range _ Hb) as Hc. set (n := Z.min _ (Z.min _ _)).
  assert (Hn : 0 ≤ n ≤ maxShapingChunkBytes) by lia. unfold maxShapingChunkBytes in Hn.
  destruct (Z.ltb_spec 0 n).
  - rewrite exemptOf_min by lia. destruct (Z.ltb_spec 0 (n - Z.min (exemptRemaining r) n)).
    + destruct (wait _ _ _) as [[b res] rest] eqn:Ew. apply (wait_wf (rate := rate) (burst := burst)) in Ew as [Hb' _]; [|done|done|lia].
      intros [= <- <-]. simpl. split_and!; [done|lia..].
    + intros [= <- <-]. simpl. split_and!; [done|lia..].
  - intros [= <- <-]. simpl. split_and!; [done|lia..].
Qed.

Lemma readSession_spec {rate burst} calls : ∀ r r' os,
  bucketWf rate burst r.(bucket) → 0 ≤ r.(exemptRemaining) → Forall callOk calls → readSession r calls = (r', os) →
  bucketWf rate burst r'.(bucket) ∧ 0 ≤ totalRead os ∧
  r'.(exemptRemaining) = r.(exemptRemaining) - Z.min r.(exemptRemaining) (totalRead os) ∧
  totalCharge os = totalRead os - Z.min r.(exemptRemaining) (totalRead os) ∧
  Forall2 (λ c o, o.(count) = Z.min (Z.of_nat c.1.2.(atHand)) (Z.min c.1.1 (chunkLimit r.(bucket)))) calls os.
Proof.
  induction calls as [|[[len answer] sched] calls IH]; intros r r' os Hb He Hc E; simpl in E.
  { injection E as <- <-. unfold totalRead, totalCharge. simpl. split_and!; [done|lia..|constructor]. }
  apply Forall_cons in Hc as [[Hl Hs] Hc]. simpl in Hl, Hs.
  destruct (Read r len answer sched) as [r1 o] eqn:Er. destruct (readSession r1 calls) as [r2 os2] eqn:E2. injection E as <- <-.
  apply (Read_spec (rate := rate) (burst := burst)) in Er as (Hb1 & Hn & He1 & Hch); try done.
  pose proof (chunkLimit_range _ Hb) as Hcl.
  assert (Hn0 : 0 ≤ count o) by lia.
  apply IH in E2 as (Hb2 & Ht & He2 & Hc2 & Hf); [|done|lia|done].
  unfold totalRead, totalCharge, zsum in *. simpl. split_and!; [done|lia|lia|lia|].
  constructor; [done|]. assert (chunkLimit (bucket r1) = chunkLimit (bucket r)) as <-; [|done].
  unfold chunkLimit. by rewrite (wf_burst _ _ _ Hb), (wf_burst _ _ _ Hb1).
Qed.
(** ** Writing *)

Lemma reserve_spec {rate burst} b ex n sched b' ex' res v rest :
  bucketWf rate burst b → 0 ≤ ex → 0 < n ≤ 2 ^ 53 → schedOk sched →
  reserveShapedBytes (Some b) ex n sched = (b', ex', res, v, rest) →
  (∃ b1, b' = Some b1 ∧ bucketWf rate burst b1) ∧ schedOk rest ∧
  (res = Done → v = mkReservation n (Z.min ex n) (n - Z.min ex n) ∧ ex' = ex - Z.min ex n) ∧ (res ≠ Done → ex' = ex).
Proof.
  intros Hb He Hn Hs. unfold reserveShapedBytes. destruct (Z.leb_spec n 0); [lia|]. rewrite orb_false_l.
  destruct (bool_decide _) eqn:E; [by apply bool_decide_eq_true in E|]. rewrite exemptOf_min by lia. cbv zeta.
  unfold waitOpt. destruct (wait _ _ _) as [[b1 r] s1] eqn:Ew.
  apply (wait_wf (rate := rate) (burst := burst)) in Ew as [Hb1 Hs1]; [|done|done|lia].
  destruct r; intros [= <- <- <- <- <-]; (split; [by eexists|]); by split_and!.
Qed.

Lemma reconcile_spec {rate burst} b ex n m : bucketWf rate burst b → 0 < n → 0 ≤ m ≤ n → 0 ≤ ex →
  ∃ b1, reconcileReservation (mkReservation n (Z.min ex n) (n - Z.min ex n)) (Some b) (ex - Z.min ex n) m
        = (Some b1, ex - Z.min ex m, n - Z.min ex n - (m - Z.min ex m)) ∧ bucketWf rate burst b1.
Proof.
  intros Hb Hn Hm He. unfold reconcileReservation. simpl.
  destruct (Z.leb_spec n 0); [lia|]. destruct (Z.ltb_spec m 0); [lia|]. destruct (Z.ltb_spec n m); [lia|].
  assert (Z.min m (Z.min ex n) = Z.min ex m) as -> by lia.
  assert (ex - Z.min ex n + (Z.min ex n - Z.min ex m) = ex - Z.min ex m) as -> by lia.
  eexists. split; [done|by apply refund_wf].
Qed.

Record writeSpec (rate burst : Z) (r r' : shapingReadWriteCloser) (s s' : sink) (p : list ascii) (n net : Z)
    (o : writeOutcome) : Prop := {
  ws_bucket : ∃ b, r'.(writeBucket) = Some b ∧ bucketWf rate burst b;
  ws_range : n ≤ o.(written) ≤ n + Z.of_nat (length p);
  ws_accepted : s'.(accepted) = s.(accepted) ++ take (Z.to_nat (o.(written) - n)) p;
  ws_exempt : o.(writeFinished) = true →
    r'.(writeExemptRemaining) = r.(writeExemptRemaining) - Z.min r.(writeExemptRemaining) (o.(written) - n);
  ws_net : o.(writeFinished) = true →
    o.(TrafficShaper.net) = net + (o.(written) - n) - Z.min r.(writeExemptRemaining) (o.(written) - n);
  ws_all : o.(writeFinished) = true → o.(writeFailure) = None → o.(written) = n + Z.of_nat (length p) }.

Lemma writeSpec_stop rate burst r r' s s' p n net fail fin o :
  (∃ b, r'.(writeBucket) = Some b ∧ bucketWf rate burst b) → s'.(accepted) = s.(accepted) →
  0 ≤ r.(writeExemptRemaining) → (fin = true → r'.(writeExemptRemaining) = r.(writeExemptRemaining)) →
  (fin = true → fail = None → p = []) → o = mkWriteOutcome n fail net fin →
  writeSpec rate burst r r' s s' p n net o.
Proof.
  intros Hb Ha He Hex Hall ->. constructor; simpl; rewrite ?Z.sub_diag; try done.
  - lia.
  - by rewrite Ha, take_0, app_nil_r.
  - intros H. rewrite (Hex H). lia.
  - lia.
  - intros H1 H2. rewrite (Hall H1 H2). simpl. lia.
Qed.

Lemma take_take_app {A} (n m : nat) (p : list A) : (n ≤ length p)%nat → take n p ++ take m (drop n p) = take (n + m) p.
Proof.
  intros Hn. rewrite <- (take_drop n p) at 3. rewrite take_app, take_take, length_take.
  rewrite (Nat.min_r (n + m) n) by lia. do 2 f_equal. lia.
Qed.

(** A round that writes [m] bytes and goes on, or stops with an error after them. *)
Lemma writeSpec_step rate burst r r1 r' s s1 s' p n net m o :
  0 ≤ r.(writeExemptRemaining) → 0 ≤ m ≤ Z.of_nat (length p) →
  r1.(writeExemptRemaining) = r.(writeExemptRemaining) - Z.min r.(writeExemptRemaining) m →
  s1.(accepted) = s.(accepted) ++ take (Z.to_nat m) p →
  writeSpec rate burst r1 r' s1 s' (drop (Z.to_nat m) p) (n + m) (net + (m - Z.min r.(writeExemptRemaining) m)) o →
  writeSpec rate burst r r' s s' p n net o.
Proof.
  intros He Hm Hex Hacc []. rewrite length_drop in *. rewrite Nat2Z.inj_sub in * by lia. rewrite Z2Nat.id in * by lia.
  constructor; [done|lia| | | |].
  - rewrite ws_accepted0, Hacc, <- app_assoc, take_take_app by lia. do 2 f_equal. lia.
  - intros H. rewrite (ws_exempt0 H), Hex. lia.
  - intros H. rewrite (ws_net0 H), Hex. lia.
  - intros H1 H2. rewrite (ws_all0 H1 H2). lia.
Qed.

Lemma chunk_length {rate burst} b (p : list ascii) : bucketWf rate burst b → p ≠ [] →
  let chunk := take (Z.to_nat (chunkLimitOpt (Some b) (Z.of_nat (length p)))) p in
  1 ≤ Z.of_nat (length chunk) ≤ maxShapingChunkBytes ∧ (length chunk ≤ length p)%nat ∧
  ∀ m, (m ≤ length chunk)%nat → take m chunk = take m p.
Proof.
  intros Hb Hp chunk. pose proof (chunkLimit_range b Hb) as Hc.
  assert (1 ≤ length p)%nat by (destruct p; [done|simpl; lia]).
  assert (Hl : length chunk = Z.to_nat (Z.min (chunkLimit b) (Z.of_nat (length p)))).
  { unfold chunk, chunkLimitOpt. rewrite length_take. destruct (Z.ltb_spec (chunkLimit b) (Z.of_nat (length p))); lia. }
  split; [lia|]. split; [lia|]. intros m Hm. unfold chunk. rewrite take_take. f_equal.
  unfold chunk in Hm. rewrite length_take in Hm. lia.
Qed.

Lemma writeLoop_spec {rate burst} fuel : ∀ r s p n net sched r' s' o rest b,
  (length p ≤ fuel)%nat → r.(writeBucket) = Some b → bucketWf rate burst b → 0 ≤ r.(writeExemptRemaining) →
  schedOk sched → writeLoop fuel r s p n net sched = (r', s', o, rest) →
  writeSpec rate burst r r' s s' p n net o.
Proof.
  induction fuel as [|fuel IH]; intros r s p n net sched r' s' o rest b Hf Hw Hb He Hs E.
  { destruct p; [|simpl in Hf; lia]. injection E as <- <- <- <-. by eapply writeSpec_stop; eauto. }
  destruct p as [|c p'] eqn:Ep; [injection E as <- <- <- <-; by eapply writeSpec_stop; eauto|].
  rewrite <- Ep in *. assert (Hp : p ≠ []) by (subst; done).
  destruct (chunk_length b p Hb Hp) as (Hcl & Hcp & Htake).
  assert (E' : writeLoop (S fuel) r s p n net sched = (r', s', o, rest)) by done. clear E.
  rewrite Ep in E' at 1. cbn [writeLoop] in E'. rewrite <- Ep, Hw in E'.
  set (chunk := take _ p) in *. unfold maxShapingChunkBytes in Hcl.
  destruct (reserveShapedBytes _ _ _ _) as [[[[b1 ex1] res] v] s1] eqn:Er.
  apply (reserve_spec (rate := rate) (burst := burst)) in Er as ((b2 & -> & Hb2) & Hs1 & Hdone & Hnot); [|done|done|lia|done].
  destruct res.
  2, 3: injection E' as <- <- <- <-; eapply writeSpec_stop; eauto; simpl; try done; by intros; apply Hnot.
  destruct (Hdone eq_refl) as [-> ->]. clear Hdone Hnot.
  destruct (writeAnswers s) as [|[k err] answers].
  { injection E' as <- <- <- <-. constructor; simpl; try done; [by eexists|lia|]. by rewrite Z.sub_diag, take_0, app_nil_r. }
  assert (Hback : ∀ m, 0 ≤ m ≤ Z.of_nat (length chunk) → ∃ b3,
    reconcileReservation _ (Some b2) _ m = (Some b3, _, _) ∧ bucketWf rate burst b3)
    by (intros m Hm; by apply (reconcile_spec b2 r.(writeExemptRemaining) (Z.of_nat (length chunk)) m Hb2); [lia|..]).
  destruct ((k <? 0) || (Z.of_nat (length chunk) <? k)) eqn:Ek.
  - destruct (Hback 0 ltac:(lia)) as (b3 & Hrec & Hb3). rewrite Hrec in E'. injection E' as <- <- <- <-.
    apply (writeSpec_stop rate burst _ _ _ _ _ _ _ (Some (InvalidWriteCount k)) true); simpl;
      [by eexists|done|done|intros _; lia|done|f_equal; lia].
  - apply orb_false_iff in Ek as [Ek1%Z.ltb_ge Ek2%Z.ltb_ge].
    destruct (Hback k ltac:(lia)) as (b3 & Hrec & Hb3). rewrite Hrec in E'. cbv zeta in E'.
    set (r1 := mkReadWriter _ (Some b3) _ _) in E'. set (s2 := mkSink _ answers) in E'.
    eapply (writeSpec_step rate burst r r1 r' s s2 s' p n net k o He ltac:(lia)).
    3: { replace (net + (k - Z.min r.(writeExemptRemaining) k))
           with (net + charged (mkReservation (Z.of_nat (length chunk)) (Z.min r.(writeExemptRemaining) (Z.of_nat (length chunk)))
                   (Z.of_nat (length chunk) - Z.min r.(writeExemptRemaining) (Z.of_nat (length chunk))))
                 - (Z.of_nat (length chunk) - Z.min r.(writeExemptRemaining) (Z.of_nat (length chunk))
                    - (k - Z.min r.(writeExemptRemaining) k))) by (simpl; lia).
         destruct err as [e|]; [|destruct (Z.eqb_spec k 0)].
         - injection E' as <- <- <- <-. apply (writeSpec_stop rate burst _ _ _ _ _ _ _ (Some e) true); simpl; try done; [by eexists|lia].
         - injection E' as <- <- <- <-. apply (writeSpec_stop rate burst _ _ _ _ _ _ _ (Some ErrNoProgress) true); simpl; try done; [by eexists|lia].
         - eapply IH; [|..|exact E']; simpl; try done; [rewrite length_drop; lia|lia]. }
    + done.
    + simpl. by rewrite Htake by lia.
Qed.
(** ** The maps of the shaper *)

(** A map of buckets of one rate: every entry is a bucket of the heap. *)
Record mapWf (h : gmap Z byteTokenBucket) (rate burst : Z) (m : gmap string (option Z)) : Prop := {
  mw_buckets : map_Forall (λ _ p, ∃ a b, p = Some a ∧ h !! a = Some b ∧ bucketWf rate burst b) m;
  mw_nokey : m !! "" = None;
  mw_size : (size m ≤ maxTrafficShaperBucketsPerRule)%nat }.

Lemma mapWf_empty h rate burst : mapWf h rate burst ∅.
Proof. constructor; [apply map_Forall_empty|done|]. rewrite map_size_empty. apply Nat.le_0_l. Qed.

Lemma mapWf_heap h h' rate burst m :
  (∀ a b, h !! a = Some b → bucketWf rate burst b → ∃ b', h' !! a = Some b' ∧ bucketWf rate burst b') →
  mapWf h rate burst m → mapWf h' rate burst m.
Proof.
  intros Hh []. constructor; [|done|done]. intros k p Hk. destruct (mw_buckets0 k p Hk) as (a & b & -> & Ha & Hb).
  destruct (Hh a b Ha Hb) as (b' & ? & ?). by exists a, b'.
Qed.

Lemma mapWf_pointer h rate burst m k p : mapWf h rate burst m → m !! k = Some p → ∃ b, bucketAt h p = Some b.
Proof. intros Hm Hk. destruct (mw_buckets _ _ _ _ Hm k p Hk) as (a & b & -> & Ha & _). by exists b. Qed.

Lemma prune_wf h rate burst m now : mapWf h rate burst m →
  ∃ m', pruneTrafficShaperBuckets h m now = Some m' ∧ m' ⊆ m ∧ mapWf h rate burst m'.
Proof.
  intros Hm. unfold pruneTrafficShaperBuckets.
  rewrite bool_decide_true by (intros k p Hk; by eapply mapWf_pointer in Hk as [b ->]).
  eexists. split; [done|]. split; [apply map_filter_subseteq|]. destruct Hm. constructor.
  - intros k p [Hk _]%map_lookup_filter_Some. by apply (mw_buckets0 k).
  - by apply map_lookup_filter_None_2; left.
  - etrans; [apply map_size_filter|done].
Qed.

Lemma evictScan_spec h m keys : ∀ best : string * Z,
  (∀ k, k ∈ keys → k ≠ "" ∧ ∃ p b, m !! k = Some p ∧ bucketAt h p = Some b) →
  (best.1 = "" ∨ is_Some (m !! best.1)) → (keys ≠ [] ∨ best.1 ≠ "") →
  ∃ k, is_Some (m !! k) ∧ evictScan h m best keys = delete k m.
Proof.
  induction keys as [|key keys IH]; intros best Hk Hb Hne; simpl.
  { destruct Hne as [|Hne]; [done|]. destruct Hb as [|Hb]; [done|]. destruct (String.eqb_spec best.1 ""); [done|]. eauto. }
  destruct (Hk key ltac:(left)) as (Hkne & p & b & Hp & Hpb). rewrite Hp, Hpb.
  assert (Hk' : ∀ k, k ∈ keys → k ≠ "" ∧ ∃ p b, m !! k = Some p ∧ bucketAt h p = Some b) by (intros; apply Hk; by right).
  destruct (String.eqb_spec best.1 "") as [E|E]; simpl.
  - apply IH; [done|right; by exists p|by right].
  - destruct (before _ _); (apply IH; [done| |by right]); [right; by exists p|done].
Qed.

Section shaper.
Context (hash : string → string) (order : gmap string (option Z) → list string).
Context (Hhash : ∀ v, hash v ≠ "") (Horder : ∀ m k, k ∈ order m ↔ is_Some (m !! k)).

Lemma evict_wf h rate burst m : mapWf h rate burst m → (maxTrafficShaperBucketsPerRule ≤ size m)%nat →
  ∃ k, is_Some (m !! k) ∧ evictOldestTrafficShaperBucket order h m = delete k m.
Proof using Horder.
  intros Hm Hs. apply evictScan_spec; [|by left|].
  - intros k [p Hp]%Horder. split; [intros ->; by rewrite (mw_nokey _ _ _ _ Hm) in Hp|].
    destruct (mapWf_pointer _ _ _ _ _ _ Hm Hp) as [b Hb]. by exists p, b.
  - left. intros Hn. assert (m = ∅) as ->.
    { apply map_empty. intros k. destruct (m !! k) eqn:E; [|done]. exfalso. apply (not_elem_of_nil k). rewrite <- Hn.
      apply Horder. by eexists. }
    rewrite map_size_empty in Hs. by apply Nat.le_0_r in Hs.
Qed.

(** Room for one more. *)
Lemma room_wf h rate burst m : mapWf h rate burst m →
  let m' := if (maxTrafficShaperBucketsPerRule <=? size m)%nat then evictOldestTrafficShaperBucket order h m else m in
  m' ⊆ m ∧ mapWf h rate burst m' ∧ (size m' < maxTrafficShaperBucketsPerRule)%nat.
Proof using Horder.
  intros Hm m'. unfold m'. destruct (Nat.leb_spec maxTrafficShaperBucketsPerRule (size m)) as [Hle|Hlt]; [|done].
  destruct (evict_wf _ _ _ _ Hm Hle) as (k & [p Hk] & ->).
  assert (Hsize : size m = S (size (delete k m))) by (rewrite map_size_delete, Hk; simpl; destruct (size m) eqn:E; [|done];
    apply map_size_empty_inv in E; subst; by rewrite lookup_empty in Hk).
  pose proof (mw_size _ _ _ _ Hm) as Hmax. split; [apply delete_subseteq|]. split; [|lia].
  destruct Hm. constructor; [by apply map_Forall_delete|by rewrite lookup_delete_None; right|lia].
Qed.

Definition fresh (s : publicTrafficShaper) : Prop := ∀ a, is_Some (s.(heap) !! a) → a < s.(nextAddr).

(** What making or finding a bucket leaves alone. *)
Record grows (s s' : publicTrafficShaper) : Prop := {
  gr_rules : s'.(rules) = s.(rules);
  gr_prune : s'.(lastPrune) = s.(lastPrune);
  gr_heap : ∀ a b, s.(heap) !! a = Some b → s'.(heap) !! a = Some b;
  gr_next : s.(nextAddr) ≤ s'.(nextAddr);
  gr_fresh : fresh s' }.

Lemma alloc_grows s b s' p : fresh s → allocBucket s (Some b) = (s', p) →
  grows s s' ∧ p = Some s.(nextAddr) ∧ s'.(heap) !! s.(nextAddr) = Some b ∧ s'.(nextAddr) = s.(nextAddr) + 1.
Proof.
  intros Hf [= <- <-]. split; [|simpl; by rewrite lookup_insert_eq]. constructor; simpl; [done|done| |lia|].
  - intros a b' Ha. rewrite lookup_insert_ne; [done|]. intros <-. assert (s.(nextAddr) < s.(nextAddr)) by (apply Hf; by eexists). lia.
  - intros a. simpl. destruct (Z.eq_dec a s.(nextAddr)) as [->|Hne]; [lia|]. rewrite lookup_insert_ne by done.
    intros Ha. apply Hf in Ha. lia.
Qed.

Lemma grows_refl s : fresh s → grows s s.
Proof. by constructor. Qed.
Lemma grows_trans s1 s2 s3 : grows s1 s2 → grows s2 s3 → grows s1 s3.
Proof. intros [] []. constructor; [congruence|congruence|eauto|lia|done]. Qed.

Lemma bucketForKey_spec s m key rate burst now s' m' p :
  fresh s → key ≠ "" → rate ≤ max63 → 0 < burst ≤ max63 ∨ rate ≤ 0 → mapWf s.(heap) rate burst m →
  bucketForKey order s m key rate burst now = (s', m', p) →
  grows s s' ∧ mapWf s'.(heap) rate burst m' ∧
  (∀ k q, m' !! k = Some q → m !! k = Some q ∨ k = key ∧ q = Some s.(nextAddr) ∧ s.(nextAddr) < s'.(nextAddr)) ∧
  (0 < rate → ∃ a, p = Some a ∧ m' !! key = Some (Some a)) ∧ (rate ≤ 0 → p = None) ∧
  (∀ q, m !! key = Some q → 0 < rate → p = q).
Proof using Horder.
  intros Hf Hkey Hr Hu Hm. unfold bucketForKey. destruct (Z.ltb_spec 0 rate) as [Hpos|Hneg].
  2: { intros [= <- <- <-]. split; [by apply grows_refl|]. split; [done|]. split; [intros; by left|].
       split; [lia|]. split; [done|lia]. }
  destruct (mjoin (m !! key)) as [a|] eqn:Ej.
  - assert (Hkp : m !! key = Some (Some a)) by (destruct (m !! key) as [[]|]; naive_solver).
    intros [= <- <- <-]. split; [by apply grows_refl|]. split; [done|]. split; [intros; by left|].
    split; [intros; by exists a|]. split; [lia|]. intros q Hq _. congruence.
  - destruct (room_wf _ _ _ _ Hm) as (Hsub & Hwf & Hsz). cbv zeta in Hsub, Hwf, Hsz.
    set (m1 := if (_ <=? _)%nat then _ else _) in *.
    destruct (newByteTokenBucket rate burst now) as [b|] eqn:En; [|unfold newByteTokenBucket in En; by destruct (Z.leb_spec rate 0); [lia|]].
    apply new_wf in En; [|lia..]. destruct (Z.leb_spec burst 0); [lia|].
    destruct (allocBucket s (Some b)) as [s1 p1] eqn:Ea. apply alloc_grows in Ea as (Hg & -> & Hb & Hnext); [|done].
    intros [= <- <- <-]. split; [done|]. split; [|split; [|split; [|split]]].
    + constructor.
      * apply map_Forall_insert_2; [by exists s.(nextAddr), b|]. eapply mapWf_heap in Hwf; [by apply Hwf|].
        intros a b' Ha Hb'. exists b'. split; [by apply (gr_heap _ _ Hg)|done].
      * rewrite lookup_insert_ne by done. apply Hwf.
      * etrans; [apply insert_size_le|lia].
    + intros k q Hk. apply lookup_insert_Some in Hk as [[<- <-]|[Hne Hk]]; [right; split_and!; [done..|lia]|].
      left. by eapply lookup_weaken.
    + intros _. exists s.(nextAddr). by rewrite lookup_insert_eq.
    + lia.
    + intros q Hq _. rewrite Hq in Ej. simpl in Ej. destruct (mw_buckets _ _ _ _ Hm key q Hq) as (a & b' & -> & _). done.
Qed.
End shaper.

(** ** The invariant of the shaper *)

Section invariant.
Context (digest : fingerprintFields → string).

(** A rule as the loader makes it, with int64 bandwidths. *)
Definition ruleOk (rule : publicTrafficShaperRuleConfig) : Prop :=
  rule.(Fingerprint) = publicTrafficShaperRuleFingerprint digest rule ∧
  rule.(UploadBytesPerSecond) ≤ max63 ∧ rule.(DownloadBytesPerSecond) ≤ max63 ∧ rule.(BurstBytes) ≤ max63.

Definition mapOf (rt : publicTrafficShaperRuleRuntime) (up : bool) : gmap string (option Z) :=
  if up then rt.(uploadBuckets) else rt.(downloadBuckets).
Definition rateOf (rule : publicTrafficShaperRuleConfig) (up : bool) : Z :=
  if up then rule.(UploadBytesPerSecond) else rule.(DownloadBytesPerSecond).
Definition sideWf (h : gmap Z byteTokenBucket) (rule : publicTrafficShaperRuleConfig) (up : bool) (m : gmap string (option Z)) : Prop :=
  mapWf h (rateOf rule up) (effectiveBurstBytes rule (rateOf rule up)) m.

Definition runtimeWf (h : gmap Z byteTokenBucket) (rt : publicTrafficShaperRuleRuntime) : Prop :=
  ∃ rule, ruleOk rule ∧ rt.(fingerprint) = rule.(Fingerprint) ∧ ∀ up, sideWf h rule up (mapOf rt up).

(** The bucket of a key of a rule, in one direction. *)
Definition slot (s : publicTrafficShaper) (x : Z * bool * string) : option Z :=
  s.(rules) !! x.1.1 ≫= λ rt, mjoin (mapOf rt x.1.2 !! x.2).

Record shaperInv (s : publicTrafficShaper) : Prop := {
  inv_fresh : fresh s;
  inv_rules : map_Forall (λ _ rt, runtimeWf s.(heap) rt) s.(rules);
  inv_inj : ∀ x y a, slot s x = Some a → slot s y = Some a → x = y }.

Lemma slot_elem s id rt up k a : s.(rules) !! id = Some rt → mapOf rt up !! k = Some (Some a) → slot s (id, up, k) = Some a.
Proof. intros Hr Hk. unfold slot. simpl. by rewrite Hr; simpl; rewrite Hk. Qed.

Lemma slot_inv s x a : slot s x = Some a → ∃ rt, s.(rules) !! x.1.1 = Some rt ∧ mapOf rt x.1.2 !! x.2 = Some (Some a).
Proof.
  unfold slot. intros H. apply bind_Some in H as (rt & Hr & Hk). exists rt. split; [done|].
  destruct (mapOf rt x.1.2 !! x.2) as [[]|]; naive_solver.
Qed.

Lemma slot_heap s x a : shaperInv s → slot s x = Some a → a < s.(nextAddr).
Proof.
  intros Hi (rt & Hr & Hk)%slot_inv. destruct (inv_rules _ Hi _ _ Hr) as (rule & _ & _ & Hm).
  destruct (mw_buckets _ _ _ _ (Hm x.1.2) _ _ Hk) as (a' & b & [= <-] & Hb & _). apply (inv_fresh _ Hi). by eexists.
Qed.

Lemma eff_range rule up : ruleOk rule → 0 < effectiveBurstBytes rule (rateOf rule up) ≤ max63 ∨ rateOf rule up ≤ 0.
Proof.
  intros (_ & H1 & H2 & H3). unfold effectiveBurstBytes. destruct (Z.leb_spec (rateOf rule up) 0); [by right|left].
  destruct (Z.ltb_spec 0 (BurstBytes rule)); [lia|]. destruct up; simpl in *; lia.
Qed.

Lemma runtimeWf_empty h rule : ruleOk rule → runtimeWf h (mkShaperRuntime rule.(Fingerprint) ∅ ∅).
Proof. intros Hr. exists rule. split; [done|]. split; [done|]. intros []; apply mapWf_empty. Qed.

Lemma runtimeWf_heap h h' rt :
  (∀ a b rate burst, h !! a = Some b → bucketWf rate burst b → ∃ b', h' !! a = Some b' ∧ bucketWf rate burst b') →
  runtimeWf h rt → runtimeWf h' rt.
Proof. intros Hh (rule & Hr & Hf & Hm). exists rule. split; [done|]. split; [done|]. intros up. eapply mapWf_heap; [|apply Hm]. eauto. Qed.

Lemma pruneRuntime_wf h now rt : runtimeWf h rt →
  ∃ rt', pruneRuntime h now rt = Some rt' ∧ runtimeWf h rt' ∧ ∀ up, mapOf rt' up ⊆ mapOf rt up.
Proof.
  intros (rule & Hr & Hf & Hm). unfold pruneRuntime.
  destruct (prune_wf _ _ _ _ now (Hm true)) as (mu & Eu & Su & Wu). destruct (prune_wf _ _ _ _ now (Hm false)) as (md & Ed & Sd & Wd).
  simpl in Eu, Ed. rewrite Eu, Ed. eexists. split; [done|]. split; [|by intros []].
  exists rule. split; [done|]. split; [done|]. by intros [].
Qed.

Lemma pruneLocked_spec s now : shaperInv s → ∃ s', pruneLocked s now = Some s' ∧ shaperInv s' ∧
  s'.(heap) = s.(heap) ∧ s'.(nextAddr) = s.(nextAddr) ∧ (∀ x a, slot s' x = Some a → slot s x = Some a).
Proof.
  intros Hi. unfold pruneLocked. destruct (negb _ && _); [by exists s|].
  assert (Hp : ∀ id rt, s.(rules) !! id = Some rt → ∃ rt', pruneRuntime s.(heap) now rt = Some rt' ∧
    runtimeWf s.(heap) rt' ∧ ∀ up, mapOf rt' up ⊆ mapOf rt up) by (intros; eapply pruneRuntime_wf, inv_rules; eauto).
  rewrite bool_decide_true by (intros id rt Hrt; destruct (Hp id rt Hrt) as (? & -> & _); done).
  eexists. split; [done|].
  assert (Hs : ∀ x a, slot (mkShaper (omap (pruneRuntime s.(heap) now) s.(rules)) now s.(heap) s.(nextAddr)) x = Some a → slot s x = Some a).
  { intros [[id up] k] a (rt & Hr & Hk)%slot_inv. simpl in Hr, Hk. rewrite lookup_omap in Hr.
    apply bind_Some in Hr as (rt0 & Hr0 & Hr). destruct (Hp id rt0 Hr0) as (rt' & Hrt' & _ & Hsub).
    rewrite Hrt' in Hr. injection Hr as <-. eapply slot_elem; [done|]. by eapply lookup_weaken. }
  split_and!; [|done..]. constructor; simpl.
  - apply (inv_fresh _ Hi).
  - intros id rt Hr. rewrite lookup_omap in Hr. apply bind_Some in Hr as (rt0 & Hr0 & Hr).
    destruct (Hp id rt0 Hr0) as (rt' & Hrt' & Hw & _). rewrite Hrt' in Hr. by injection Hr as <-.
  - intros x y a Hx Hy. eapply (inv_inj _ Hi); by apply Hs.
Qed.

(** The digest of a rule tells bandwidths apart. *)
Definition bandwidth (f : fingerprintFields) : Z * Z * Z := (f.(fpUpload), f.(fpDownload), f.(fpBurst)).
Context (Hdigest : ∀ f g, digest f = digest g → bandwidth f = bandwidth g).

Lemma same_fingerprint r1 r2 up : ruleOk r1 → ruleOk r2 → r1.(Fingerprint) = r2.(Fingerprint) →
  rateOf r1 up = rateOf r2 up ∧ effectiveBurstBytes r1 (rateOf r1 up) = effectiveBurstBytes r2 (rateOf r2 up).
Proof using Hdigest.
  intros [H1 _] [H2 _] E. rewrite H1, H2 in E. apply Hdigest in E. injection E as E1 E2 E3. simpl in *.
  unfold effectiveBurstBytes. rewrite E3. by destruct up; simpl; rewrite ?E1, ?E2.
Qed.

(** The runtime a decision works on. *)
Definition runtimeFor (s : publicTrafficShaper) (rule : publicTrafficShaperRuleConfig) : publicTrafficShaperRuleRuntime :=
  match s.(rules) !! rule.(ID) with
  | Some rt => if String.eqb rt.(fingerprint) rule.(Fingerprint) then rt else mkShaperRuntime rule.(Fingerprint) ∅ ∅
  | None => mkShaperRuntime rule.(Fingerprint) ∅ ∅
  end.

Lemma runtimeFor_wf s rule : shaperInv s → ruleOk rule →
  (runtimeFor s rule).(fingerprint) = rule.(Fingerprint) ∧ (∀ up, sideWf s.(heap) rule up (mapOf (runtimeFor s rule) up)) ∧
  (∀ up k a, mapOf (runtimeFor s rule) up !! k = Some (Some a) → slot s (rule.(ID), up, k) = Some a).
Proof using Hdigest.
  intros Hi Hr. unfold runtimeFor.
  assert (Hnew : let rt := mkShaperRuntime rule.(Fingerprint) ∅ ∅ in
    fingerprint rt = rule.(Fingerprint) ∧ (∀ up, sideWf s.(heap) rule up (mapOf rt up)) ∧
    (∀ up k a, mapOf rt up !! k = Some (Some a) → slot s (rule.(ID), up, k) = Some a)).
  { split; [done|]. split; [intros []; apply mapWf_empty|]. by intros [] k a. }
  destruct (s.(rules) !! rule.(ID)) as [rt|] eqn:Ert; [|done].
  destruct (String.eqb_spec (fingerprint rt) rule.(Fingerprint)) as [Ef|]; [|done].
  split; [done|]. split; [|intros; by eapply slot_elem].
  intros up. destruct (inv_rules _ Hi _ _ Ert) as (rule' & Hr' & Hf' & Hm).
  destruct (same_fingerprint rule rule' up Hr Hr' ltac:(congruence)) as [E1 E2]. unfold sideWf.
  rewrite E2, E1. apply (Hm up).
Qed.

Context (hash : string → string) (order : gmap string (option Z) → list string).
Context (Hhash : ∀ v, hash v ≠ "") (Horder : ∀ m k, k ∈ order m ↔ is_Some (m !! k)).

Lemma heap_grows_wf s s' a b rate burst : grows s s' → s.(heap) !! a = Some b → bucketWf rate burst b →
  ∃ b', s'.(heap) !! a = Some b' ∧ bucketWf rate burst b'.
Proof. intros Hg Ha Hb. exists b. split; [by apply (gr_heap _ _ Hg)|done]. Qed.

(** Storing the runtime of a rule after its two maps were served. *)
Lemma store_inv s0 s1 s2 rule mu md key : shaperInv s0 → ruleOk rule → grows s0 s1 → grows s1 s2 →
  sideWf s2.(heap) rule true mu → sideWf s2.(heap) rule false md →
  (∀ k q, mu !! k = Some q → (runtimeFor s0 rule).(uploadBuckets) !! k = Some q
     ∨ k = key ∧ q = Some s0.(nextAddr) ∧ s0.(nextAddr) < s1.(nextAddr)) →
  (∀ k q, md !! k = Some q → (runtimeFor s0 rule).(downloadBuckets) !! k = Some q
     ∨ k = key ∧ q = Some s1.(nextAddr) ∧ s1.(nextAddr) < s2.(nextAddr)) →
  shaperInv (mkShaper (<[rule.(ID) := mkShaperRuntime rule.(Fingerprint) mu md]> s2.(rules)) s2.(lastPrune) s2.(heap) s2.(nextAddr)).
Proof using Hdigest.
  intros Hi Hr G1 G2 Wu Wd Hu Hd. set (s' := mkShaper _ _ _ _).
  destruct (runtimeFor_wf s0 rule Hi Hr) as (_ & _ & Hold).
  assert (Hslot : ∀ x a, slot s' x = Some a → slot s0 x = Some a
    ∨ x = (rule.(ID), true, key) ∧ a = s0.(nextAddr) ∧ s0.(nextAddr) < s1.(nextAddr)
    ∨ x = (rule.(ID), false, key) ∧ a = s1.(nextAddr)).
  { intros [[id up] k] a (rt & Hrt & Hk)%slot_inv. simpl in Hrt, Hk.
    destruct (Z.eq_dec id rule.(ID)) as [->|Hne].
    - rewrite lookup_insert_eq in Hrt. injection Hrt as <-. destruct up; simpl in Hk.
      + destruct (Hu k _ Hk) as [Ho|(-> & [= ->] & ?)]; [left; by apply (Hold true)|right; left; done].
      + destruct (Hd k _ Hk) as [Ho|(-> & [= ->] & ?)]; [left; by apply (Hold false)|right; right; done].
    - rewrite lookup_insert_ne in Hrt by done. left. rewrite (gr_rules _ _ G2), (gr_rules _ _ G1) in Hrt. by eapply slot_elem. }
  pose proof (gr_next _ _ G1). constructor.
  - apply (gr_fresh _ _ G2).
  - apply map_Forall_insert_2.
    + exists rule. split; [done|]. split; [done|]. by intros [].
    + rewrite (gr_rules _ _ G2), (gr_rules _ _ G1). intros id rt Hrt. eapply runtimeWf_heap; [|by eapply (inv_rules _ Hi)].
      intros a b rate burst Ha Hb. destruct (heap_grows_wf _ _ _ _ _ _ G1 Ha Hb) as (b1 & Ha1 & Hb1). exact (heap_grows_wf _ _ _ _ _ _ G2 Ha1 Hb1).
  - intros x y a Hx%Hslot Hy%Hslot.
    assert (Hlt : ∀ z, slot s0 z = Some a → a < s0.(nextAddr)) by (intros; by eapply slot_heap).
    destruct Hx as [Hx|[(-> & -> & ?)|[-> ->]]], Hy as [Hy|[(-> & Ey & ?)|[-> Ey]]];
      try done; try (by eapply (inv_inj _ Hi)); exfalso;
      try (pose proof (Hlt _ Hx)); try (pose proof (Hlt _ Hy)); lia.
Qed.

(** What a decision of a per-key rule gives. *)
Record decisionSpec (s' : publicTrafficShaper) (rule : publicTrafficShaperRuleConfig) (key : string)
    (d : publicTrafficShaperDecision) : Prop := {
  ds_runtime : ∃ rt, s'.(rules) !! rule.(ID) = Some rt ∧ rt.(fingerprint) = rule.(Fingerprint);
  ds_up : UploadBucket d = slot s' (rule.(ID), true, key);
  ds_down : DownloadBucket d = slot s' (rule.(ID), false, key);
  ds_up_some : 0 < rule.(UploadBytesPerSecond) ↔ is_Some (UploadBucket d);
  ds_down_some : 0 < rule.(DownloadBytesPerSecond) ↔ is_Some (DownloadBucket d) }.

Lemma slot_of_map s id rt up key (p : option Z) rate :
  s.(rules) !! id = Some rt → (0 < rate → ∃ a, p = Some a ∧ mapOf rt up !! key = Some (Some a)) → (rate ≤ 0 → p = None) →
  (rate ≤ 0 → mapOf rt up !! key = None) → p = slot s (id, up, key) ∧ (0 < rate ↔ is_Some p).
Proof.
  intros Hr Hpos Hneg Hnone. unfold slot. simpl. rewrite Hr. simpl. destruct (Z.lt_ge_cases 0 rate) as [H|H].
  - destruct (Hpos H) as (a & -> & ->). split; [done|]. split; [by eexists|done].
  - rewrite Hneg, Hnone by done. split; [done|]. split; [lia|]. by intros [].
Qed.

(** No map of a direction without a rate holds anything. *)
Lemma sideWf_none h rule up m key : sideWf h rule up m → rateOf rule up ≤ 0 → m !! key = None.
Proof.
  intros Hm Hr. destruct (m !! key) as [p|] eqn:E; [|done]. destruct (mw_buckets _ _ _ _ Hm _ _ E) as (a & b & _ & _ & Hb).
  destruct Hb. lia.
Qed.

Lemma decision_per_key s rule listener r now : shaperInv s → ruleOk rule →
  rule.(BudgetScope) ≠ publicTrafficShaperBudgetScopePerRequest →
  ∃ s' d, decisionForRule hash order s rule listener r now = Some (s', d) ∧ shaperInv s' ∧ Rule d = rule ∧
    decisionSpec s' rule (trafficShaperKeyHash hash (keyValues rule listener r)) d.
Proof using Hdigest Hhash Horder.
  intros Hi Hr Hscope. unfold decisionForRule. destruct (String.eqb_spec (BudgetScope rule) publicTrafficShaperBudgetScopePerRequest); [done|].
  destruct (pruneLocked_spec s now Hi) as (s0 & -> & Hi0 & _). set (key := trafficShaperKeyHash hash _). cbv zeta.
  fold (runtimeFor s0 rule). destruct (runtimeFor_wf s0 rule Hi0 Hr) as (Hfp & Hside & _).
  assert (Hkey : key ≠ "") by apply Hhash.
  destruct (bucketForKey order s0 _ key _ _ now) as [[s1 mu] pu] eqn:Eu.
  apply (bucketForKey_spec order Horder) in Eu as (G1 & Wu & Hu & Pu & Nu & _);
    [|apply Hi0|done|by destruct Hr as (_ & ? & ? & ?)|apply (eff_range rule true Hr)|apply (Hside true)].
  destruct (bucketForKey order s1 _ key _ _ now) as [[s2 md] pd] eqn:Ed.
  apply (bucketForKey_spec order Horder) in Ed as (G2 & Wd & Hd & Pd & Nd & _);
    [|apply (gr_fresh _ _ G1)|done|by destruct Hr as (_ & ? & ? & ?)|apply (eff_range rule false Hr)|].
  2: { eapply mapWf_heap; [|apply (Hside false)]. intros a b Ha Hb. exact (heap_grows_wf _ _ _ _ _ _ G1 Ha Hb). }
  assert (Wu2 : sideWf s2.(heap) rule true mu) by (eapply mapWf_heap; [|exact Wu]; intros a b Ha Hb; exact (heap_grows_wf _ _ _ _ _ _ G2 Ha Hb)).
  rewrite Hfp. do 2 eexists. split; [done|]. split; [by apply (store_inv s0 s1 s2 rule mu md key)|]. split; [done|].
  set (s' := mkShaper _ _ _ _).
  assert (Hrt : s'.(rules) !! rule.(ID) = Some (mkShaperRuntime rule.(Fingerprint) mu md)) by apply lookup_insert_eq.
  destruct (slot_of_map s' _ _ true key pu rule.(UploadBytesPerSecond) Hrt Pu Nu (sideWf_none _ rule true _ key Wu2)) as [E1 E2].
  destruct (slot_of_map s' _ _ false key pd rule.(DownloadBytesPerSecond) Hrt Pd Nd (sideWf_none _ rule false _ key Wd)) as [E3 E4].
  constructor; try done. by eexists.
Qed.

(** A second decision for the same key at the same instant finds what the first left. *)
Lemma pruned_again s now s' : pruneLocked s now = Some s' → is_zero_time now = false →
  ∀ s2, s2.(lastPrune) = s'.(lastPrune) → pruneLocked s2 now = Some s2.
Proof.
  unfold pruneLocked. intros H Hnow s2 E. rewrite E.
  destruct (negb (is_zero_time (lastPrune s)) && (time_sub now (lastPrune s) <? trafficShaperPruneInterval)) eqn:Ep.
  - injection H as <-. by rewrite Ep.
  - case_match; [|done]. injection H as <-. simpl. rewrite Hnow. unfold time_sub. rewrite Z.sub_diag. done.
Qed.

Lemma bucketForKey_again s1 m' key rate burst now p :
  (0 < rate → ∃ a, p = Some a ∧ m' !! key = Some (Some a)) → (rate ≤ 0 → p = None) →
  bucketForKey order s1 m' key rate burst now = (s1, m', p).
Proof.
  intros Hp Hn. unfold bucketForKey. destruct (Z.ltb_spec 0 rate) as [Hr|Hr]; [|by rewrite Hn].
  destruct (Hp Hr) as (a & -> & ->). done.
Qed.

Lemma decision_shared s rule listener r listener' r' now s1 d1 : shaperInv s → ruleOk rule →
  rule.(BudgetScope) ≠ publicTrafficShaperBudgetScopePerRequest → is_zero_time now = false →
  trafficShaperKeyHash hash (keyValues rule listener' r') = trafficShaperKeyHash hash (keyValues rule listener r) →
  decisionForRule hash order s rule listener r now = Some (s1, d1) →
  ∃ s2 d2, decisionForRule hash order s1 rule listener' r' now = Some (s2, d2) ∧
    UploadBucket d2 = UploadBucket d1 ∧ DownloadBucket d2 = DownloadBucket d1.
Proof using Hdigest Hhash Horder.
  intros Hi Hr Hscope Hnow Hkey. unfold decisionForRule.
  destruct (String.eqb_spec (BudgetScope rule) publicTrafficShaperBudgetScopePerRequest); [done|]. rewrite Hkey.
  destruct (pruneLocked_spec s now Hi) as (s0 & Hprune & Hi0 & _). rewrite Hprune. set (key := trafficShaperKeyHash hash _). cbv zeta.
  fold (runtimeFor s0 rule). destruct (runtimeFor_wf s0 rule Hi0 Hr) as (Hfp & Hside & _).
  assert (Hk : key ≠ "") by apply Hhash.
  destruct (bucketForKey order s0 _ key _ _ now) as [[sa mu] pu] eqn:Eu.
  apply (bucketForKey_spec order Horder) in Eu as (G1 & Wu & Hu & Pu & Nu & _);
    [|apply Hi0|done|by destruct Hr as (_ & ? & ? & ?)|apply (eff_range rule true Hr)|apply (Hside true)].
  destruct (bucketForKey order sa _ key _ _ now) as [[sb md] pd] eqn:Ed.
  apply (bucketForKey_spec order Horder) in Ed as (G2 & Wd & Hd & Pd & Nd & _);
    [|apply (gr_fresh _ _ G1)|done|by destruct Hr as (_ & ? & ? & ?)|apply (eff_range rule false Hr)|].
  2: { eapply mapWf_heap; [|apply (Hside false)]. intros a b Ha Hb. exact (heap_grows_wf _ _ _ _ _ _ G1 Ha Hb). }
  intros [= <- <-]. rewrite (pruned_again s now s0 Hprune Hnow) by (simpl; by rewrite (gr_prune _ _ G2), (gr_prune _ _ G1)).
  cbn [rules]. rewrite lookup_insert_eq. cbn [fingerprint]. rewrite Hfp, String.eqb_refl. cbn [uploadBuckets downloadBuckets].
  rewrite (bucketForKey_again _ mu key _ _ now pu Pu Nu).
  rewrite (bucketForKey_again _ md key _ _ now pd Pd Nd). by do 2 eexists.
Qed.

(** A pointer in a slot of a rule is a bucket with the bandwidth of the rule. *)
Lemma slot_bucket s rule up key a : shaperInv s → ruleOk rule →
  (∃ rt, s.(rules) !! rule.(ID) = Some rt ∧ rt.(fingerprint) = rule.(Fingerprint)) →
  slot s (rule.(ID), up, key) = Some a →
  ∃ b, s.(heap) !! a = Some b ∧ bucketWf (rateOf rule up) (effectiveBurstBytes rule (rateOf rule up)) b.
Proof using Hdigest.
  intros Hi Hr (rt & Hrt & Hf) (rt' & Hrt' & Hk)%slot_inv. simpl in Hrt', Hk. rewrite Hrt in Hrt'. injection Hrt' as <-.
  destruct (inv_rules _ Hi _ _ Hrt) as (rule' & Hr' & Hf' & Hm).
  destruct (same_fingerprint rule rule' up Hr Hr' ltac:(congruence)) as [E1 E2]. rewrite E2, E1.
  destruct (mw_buckets _ _ _ _ (Hm up) _ _ Hk) as (a' & b & [= <-] & Ha & Hb). by exists b.
Qed.

Lemma alloc_inv s s' p rate burst now : shaperInv s → rate ≤ max63 → burst ≤ max63 →
  allocBucket s (newByteTokenBucket rate burst now) = (s', p) →
  shaperInv s' ∧ s.(nextAddr) ≤ s'.(nextAddr) ∧ (∀ x, slot s' x = slot s x) ∧
  (∀ a, p = Some a → a = s.(nextAddr) ∧ a < s'.(nextAddr)) ∧ (0 < rate ↔ is_Some p) ∧
  (∀ a c, s.(heap) !! a = Some c → s'.(heap) !! a = Some c) ∧
  (∀ a, p = Some a → ∃ c, s'.(heap) !! a = Some c ∧ bucketWf rate (if burst <=? 0 then rate else burst) c).
Proof.
  intros Hi Hr Hu Ha.
  destruct (newByteTokenBucket rate burst now) as [c|] eqn:Ec.
  - assert (0 < rate) by (unfold newByteTokenBucket in Ec; destruct (Z.leb_spec rate 0); [done|lia]).
    apply new_wf in Ec; [|done|done]. destruct (alloc_grows _ _ _ _ (inv_fresh _ Hi) Ha) as (G & -> & Hc & Hn).
    assert (Hs : ∀ x, slot s' x = slot s x) by (intros x; unfold slot; by rewrite (gr_rules _ _ G)).
    assert (Hi' : shaperInv s'); [|split; [done|]; split; [lia|]; split; [done|];
      split; [intros a Hp; injection Hp as <-; lia|]; split; [split; [by eexists|done]|];
      split; [apply G|]; intros a Hp; injection Hp as <-; by exists c].
    constructor; [apply G| |].
    + rewrite (gr_rules _ _ G). intros id rt Hrt. eapply runtimeWf_heap; [|by eapply (inv_rules _ Hi)].
      intros a c' rate' burst' Ha' Hb'. exact (heap_grows_wf _ _ _ _ _ _ G Ha' Hb').
    + intros x y a. rewrite !Hs. apply (inv_inj _ Hi).
  - injection Ha as <- <-. split; [done|]. split; [lia|]. split; [done|]. split; [done|]. split; [|done].
    split; [|by intros []].
    unfold newByteTokenBucket in Ec. destruct (Z.leb_spec rate 0); [lia|done].
Qed.

Lemma decision_per_request s rule listener r now : shaperInv s → ruleOk rule →
  rule.(BudgetScope) = publicTrafficShaperBudgetScopePerRequest →
  ∃ s' d, decisionForRule hash order s rule listener r now = Some (s', d) ∧ shaperInv s' ∧ Rule d = rule ∧
    (∀ x, slot s' x = slot s x) ∧
    (∀ a, UploadBucket d = Some a ∨ DownloadBucket d = Some a → s.(nextAddr) ≤ a) ∧
    (∀ a, UploadBucket d = Some a → DownloadBucket d ≠ Some a) ∧
    (0 < rule.(UploadBytesPerSecond) ↔ is_Some (UploadBucket d)) ∧ (0 < rule.(DownloadBytesPerSecond) ↔ is_Some (DownloadBucket d)) ∧
    (∀ (up : bool) a, (if up then UploadBucket d else DownloadBucket d) = Some a → ∃ b, s'.(heap) !! a = Some b ∧
       bucketWf (rateOf rule up) (effectiveBurstBytes rule (rateOf rule up)) b).
Proof.
  intros Hi Hr Hscope. unfold decisionForRule. rewrite Hscope. simpl String.eqb. cbv iota.
  assert (Hu : ∀ up, rateOf rule up ≤ max63 ∧ effectiveBurstBytes rule (rateOf rule up) ≤ max63).
  { intros up. destruct Hr as (_ & H1 & H2 & H3). unfold effectiveBurstBytes, max63 in *.
    split; [by destruct up|]. destruct (Z.leb_spec (rateOf rule up) 0); [lia|].
    destruct (Z.ltb_spec 0 (BurstBytes rule)); [done|by destruct up]. }
  destruct (Hu true) as [Hu1 Hu2], (Hu false) as [Hd1 Hd2]. simpl in Hu1, Hu2, Hd1, Hd2.
  destruct (allocBucket s (newByteTokenBucket (UploadBytesPerSecond rule) _ now)) as [s1 u] eqn:Eu.
  destruct (alloc_inv _ _ _ _ _ _ Hi Hu1 Hu2 Eu) as (I1 & N1 & S1 & P1 & R1 & M1 & B1).
  destruct (allocBucket s1 (newByteTokenBucket (DownloadBytesPerSecond rule) _ now)) as [s2 d] eqn:Ed.
  destruct (alloc_inv _ _ _ _ _ _ I1 Hd1 Hd2 Ed) as (I2 & N2 & S2 & P2 & R2 & M2 & B2).
  do 2 eexists. split; [done|]. split; [done|]. split; [done|]. simpl.
  split; [intros x; by rewrite S2, S1|]. split; [intros a [Ha|Ha]; [apply P1 in Ha|apply P2 in Ha]; lia|].
  split; [intros a Ha Hb; apply P1 in Ha; apply P2 in Hb; lia|]. split; [done|]. split; [done|].
  assert (He : ∀ rate, 0 < rate → (if effectiveBurstBytes rule rate <=? 0 then rate else effectiveBurstBytes rule rate) = effectiveBurstBytes rule rate).
  { intros rate Hp. unfold effectiveBurstBytes. destruct (Z.leb_spec rate 0); [lia|].
    destruct (Z.ltb_spec 0 (BurstBytes rule)) as [Hb|Hb]; [by destruct (Z.leb_spec (BurstBytes rule) 0); [lia|]|by destruct (Z.leb_spec rate 0)]. }
  intros [] a Ha; simpl.
  - destruct (B1 a Ha) as (b & Hb & Hw). exists b. split; [by apply M2|]. rewrite He in Hw; [done|]. apply R1. by eexists.
  - destruct (B2 a Ha) as (b & Hb & Hw). exists b. split; [done|]. rewrite He in Hw; [done|]. apply R2. by eexists.
Qed.

(** ** Reachable states *)

Inductive shaperStep : publicTrafficShaper → publicTrafficShaper → Prop :=
  | step_decide s rule listener r now s' d : ruleOk rule →
      decisionForRule hash order s rule listener r now = Some (s', d) → shaperStep s s'
  | step_reconcile s config : Forall ruleOk config → shaperStep s (reconcile s config)
  | step_bucket s a b op : s.(heap) !! a = Some b → opOk op →
      shaperStep s (mkShaper s.(rules) s.(lastPrune) (<[a := applyOp b op]> s.(heap)) s.(nextAddr)).

Definition shaperReachable : publicTrafficShaper → Prop := rtc shaperStep newPublicTrafficShaper.

Lemma keepOf_rule config id fp : keepOf config !! id = Some fp → ∃ rule, rule ∈ config ∧ rule.(Fingerprint) = fp.
Proof.
  unfold keepOf. assert (Hgen : ∀ m : gmap Z string, fold_left (λ m rule, if Enabled rule then <[ID rule := Fingerprint rule]> m else m) config m !! id = Some fp →
    m !! id = Some fp ∨ ∃ rule, rule ∈ config ∧ Fingerprint rule = fp).
  { induction config as [|rule config IH]; intros m H; simpl in H; [by left|].
    apply IH in H as [H|(x & ? & ?)]; [|right; exists x; split; [by right|done]]. destruct (Enabled rule); [|by left].
    apply lookup_insert_Some in H as [[_ <-]|[_ H]]; [right; exists rule; split; [by left|done]|by left]. }
  intros H. apply Hgen in H as [H|H]; [by rewrite lookup_empty in H|done].
Qed.

Lemma reconcile_inv s config : Forall ruleOk config → shaperInv s → shaperInv (reconcile s config).
Proof.
  intros Hc Hi.
  assert (Hr : ∀ id rt, (reconcile s config).(rules) !! id = Some rt → s.(rules) !! id = Some rt ∨ ∃ rule, ruleOk rule ∧ rt = mkShaperRuntime rule.(Fingerprint) ∅ ∅).
  { intros id rt H. unfold reconcile in H. cbn [rules] in H. rewrite map_lookup_imap in H. apply bind_Some in H as (fp & Hk & [= <-]).
    apply keepOf_rule in Hk as (rule & Hin & <-). assert (ruleOk rule) by (by eapply Forall_forall in Hc).
    destruct (s.(rules) !! id) as [rt'|]; [|right; by exists rule].
    destruct (String.eqb _ _); [by left|right; by exists rule]. }
  assert (Hs : ∀ x a, slot (reconcile s config) x = Some a → slot s x = Some a).
  { intros [[id up] k] a (rt & Hrt & Hk)%slot_inv. simpl in Hrt, Hk. apply Hr in Hrt as [Hrt|(rule & _ & ->)]; [by eapply slot_elem|].
    by destruct up. }
  constructor; [apply Hi| |intros x y a Hx Hy; eapply (inv_inj _ Hi); by apply Hs].
  intros id rt Hrt. apply Hr in Hrt as [Hrt|(rule & Ho & ->)]; [by eapply (inv_rules _ Hi)|by apply runtimeWf_empty].
Qed.

Lemma bucket_inv s a b op : s.(heap) !! a = Some b → opOk op → shaperInv s →
  shaperInv (mkShaper s.(rules) s.(lastPrune) (<[a := applyOp b op]> s.(heap)) s.(nextAddr)).
Proof.
  intros Ha Ho Hi. constructor; [| |apply (inv_inj _ Hi)].
  - intros a'. simpl. destruct (Z.eq_dec a' a) as [->|Hne]; [intros _; apply (inv_fresh _ Hi); by eexists|].
    rewrite lookup_insert_ne by done. apply (inv_fresh _ Hi).
  - simpl. intros id rt Hrt. eapply runtimeWf_heap; [|by eapply (inv_rules _ Hi)].
    intros a' c rate burst Hc Hw. destruct (Z.eq_dec a' a) as [->|Hne].
    + rewrite Ha in Hc. injection Hc as <-. eexists. rewrite lookup_insert_eq. split; [done|]. by apply op_wf.
    + exists c. by rewrite lookup_insert_ne.
Qed.

Lemma reachable_inv s : shaperReachable s → shaperInv s.
Proof using Hdigest Hhash Horder.
  intros Hr. eapply (rtc_invariant _ shaperInv); [|exact Hr|].
  - intros s1 s2 [s0 rule listener r now s' d Ho E|s0 config Hc|s0 a b op Ha Ho] Hi.
    + destruct (String.eqb_spec rule.(BudgetScope) publicTrafficShaperBudgetScopePerRequest) as [Es|Es].
      * destruct (decision_per_request s0 rule listener r now Hi Ho Es) as (? & ? & E' & ? & _). by simplify_eq.
      * destruct (decision_per_key s0 rule listener r now Hi Ho Es) as (? & ? & E' & ? & _). by simplify_eq.
    + by apply reconcile_inv.
    + by apply bucket_inv.
  - constructor.
    + intros a [b Hb]. simpl in Hb. by rewrite lookup_empty in Hb.
    + apply map_Forall_empty.
    + intros x y a Hx. unfold slot in Hx. simpl in Hx. by rewrite lookup_empty in Hx.
Qed.
End invariant.
End TrafficShaperProps.
