(* ===== verification/TrafficShaperTheorems.v ===== *)
(** The properties of the traffic shaper: what the lemmas of TrafficShaperProps.v say of
    buckets, waiting goroutines, shaped bodies, decisions and stored rules, with concrete
    instances. *)

From stdpp Require Import pretty.
From S2P Require Import Prelude.
From S2P Require Import GoStrings.
From S2P Require Import GoFloat.
From S2P Require Import GoFloatProps.
From S2P Require Import NetIP.
From S2P Require Import ClientIdentity.
From S2P Require Import WafCookies.
From S2P Require Import RateLimiter.
From S2P Require Import RetryPolicy.
From S2P Require Import CacheRules.
From S2P Require Import TrafficShaper.
From S2P Require Import TrafficShaperProps.
From Stdlib Require Import Ascii.

Module TrafficShaperTheorems.
Import WafCookies.
Import TrafficShaper.
Import TrafficShaperProps.

(** ** Stored rules *)

Lemma normalize_stored k name part : ∀ source, RateLimiter.rateLimitKeySourceStringFromProto k = inr source →
  RateLimiter.normalizeKeyPart source (TrimSpace name) = inr part →
  RateLimiter.validStoredRateLimitKeySource (TrimSpace (RateLimiter.Source part)) = true ∧
  RateLimiter.normalizeKeyPart (TrimSpace (RateLimiter.Source part)) (TrimSpace (RateLimiter.PartName part)) = inr part.
Proof.
  intros source Hk Hn.
  assert (Hs : ∀ s p, RateLimiter.normalizeKeyPart s p = inr part → RateLimiter.Source part = s).
  { unfold RateLimiter.normalizeKeyPart. intros s p H. cbv zeta in H. repeat (case_hyp H); try discriminate H; by injection H as <-. }
  pose proof (Hs _ _ Hn) as Esrc. rewrite Esrc.
  assert (Hlit : TrimSpace source = source ∧ RateLimiter.validStoredRateLimitKeySource source = true)
    by (destruct k; simpl in Hk; try discriminate Hk; injection Hk as <-; by split; vm_compute).
  destruct Hlit as [-> Hv]. split; [done|]. unfold RateLimiter.normalizeKeyPart in Hn |- *. cbv zeta in *.
  destruct (String.eqb source RateLimiter.publicRateLimitKeySourceHeader) eqn:Eh.
  - case_if_hyp Hn E1. destruct (RateLimiter.validHTTPToken _) eqn:Et; [|discriminate Hn]. injection Hn as <-. simpl.
    pose proof (CacheRules.canonicalHeaderKey_name _ Et) as Hh.
    assert (TrimSpace (RateLimiter.canonicalHeaderKey (TrimSpace name)) = RateLimiter.canonicalHeaderKey (TrimSpace name)) as ->
      by (apply TrimSpace_printable; by apply CacheRules.headerName_printable).
    destruct Hh as [Hh1 Hh2]. rewrite Hh2, Hh1. simpl.
    destruct (String.eqb_spec (RateLimiter.canonicalHeaderKey (TrimSpace name)) "") as [E|]; [by rewrite E in Hh1|done].
  - destruct (_ || _) eqn:Ec.
    + case_if_hyp Hn E1. injection Hn as <-. simpl. by rewrite CacheRules.TrimSpace_idem, E1.
    + by injection Hn as <-.
Qed.

Lemma keyParts_stored parts : ∀ l, RateLimiter.keyPartsLoop parts = inr l →
  RateLimiter.storedKeyPartsLoop l = inr l ∧ (length l ≤ length parts)%nat.
Proof.
  induction parts as [|[[k name]|] parts IH]; intros l H; simpl in H; [by injection H as <-| |].
  - destruct (RateLimiter.rateLimitKeySourceStringFromProto k) as [|source] eqn:Ek; [done|].
    destruct (RateLimiter.normalizeKeyPart _ _) as [|part] eqn:En; [done|].
    destruct (RateLimiter.keyPartsLoop parts) as [|l']; [done|]. injection H as <-.
    destruct (IH l' eq_refl) as [IH1 IH2]. destruct (normalize_stored k name part source Ek En) as [Hv Hn].
    simpl. rewrite Hv, Hn, IH1. split; [done|lia].
  - destruct (IH l H). split; [done|]. simpl. lia.
Qed.

Lemma identityParts_stored parts l : RateLimiter.validateRateLimitClientIdentityKeyParts parts = inr l →
  RateLimiter.validateStoredRateLimitClientIdentityKeyParts l = inr l.
Proof.
  unfold RateLimiter.validateRateLimitClientIdentityKeyParts, RateLimiter.validateStoredRateLimitClientIdentityKeyParts.
  destruct (RateLimiter.validateRateLimitKeyParts parts) as [|c] eqn:E; [done|]. intros H.
  assert (c = l) as -> by (unfold RateLimiter.validateRateLimitClientIdentityKeyPartConfig in H; case_if_hyp H E1; by injection H).
  enough (RateLimiter.validateStoredRateLimitKeyParts l = inr l) as -> by done.
  assert (Hone : RateLimiter.validateStoredRateLimitKeyParts [RateLimiter.remoteIPPart] = inr [RateLimiter.remoteIPPart]) by by vm_compute.
  unfold RateLimiter.validateRateLimitKeyParts in E. destruct (length parts =? 0)%nat; [by injection E as <-|].
  destruct (Nat.ltb_spec RateLimiter.maxRateLimitKeyParts (length parts)); [done|].
  destruct (RateLimiter.keyPartsLoop parts) as [|l'] eqn:El; [done|]. destruct (keyParts_stored parts l' El) as [Hs Hl].
  destruct l' as [|p l']; [by injection E as <-|]. injection E as <-.
  unfold RateLimiter.validateStoredRateLimitKeyParts. simpl length at 1. cbn [Nat.eqb].
  destruct (Nat.ltb_spec RateLimiter.maxRateLimitKeyParts (length (p :: l'))); [lia|]. by rewrite Hs.
Qed.

Lemma scopes_stored b p sb sp : trafficShaperBudgetScopeStringFromProto b = inr sb →
  trafficShaperProtocolScopeStringFromProto p = inr sp →
  normalizePublicTrafficShaperBudgetScope sb = sb ∧ normalizePublicTrafficShaperProtocolScope sp = sp ∧
  (sb = publicTrafficShaperBudgetScopePerKey ∨ sb = publicTrafficShaperBudgetScopePerRequest).
Proof. intros Hb Hp. destruct b; try discriminate Hb; injection Hb as <-; destruct p; try discriminate Hp; injection Hp as <-; auto. Qed.

(** The rule that loading must yield. *)
Definition loadedRule (digest : fingerprintFields → string) (id : Z) (input : publicTrafficShaperRuleMutationInput)
    (created updated : Z) : publicTrafficShaperRuleConfig :=
  mkShaperRule id input.(InName) input.(InPriority) (negb (input.(InEnabled) =? 0)) input.(InBudgetScope)
    input.(InProtocolScope) input.(InUpload) input.(InDownload) input.(InBurst) input.(InRequestExempt)
    input.(InResponseExempt) input.(MatchJSON) input.(KeyPartsJSON) created updated
    (digest (mkFingerprintFields input.(InBudgetScope) input.(InProtocolScope) input.(InUpload) input.(InDownload)
       input.(InBurst) input.(InRequestExempt) input.(InResponseExempt) input.(MatchJSON) input.(KeyPartsJSON) updated)).

(** A rule that validation accepts is loaded back exactly as it was stored, with a
    fingerprint of its own fields, and its bandwidths, burst and exemptions are within
    the limits with at least one bandwidth positive. *)
Theorem shaper_rule_roundtrip digest emptyMatch req m input id created updated :
  validatePublicTrafficShaperRuleInput req m = inr input →
  publicTrafficShaperRuleRowToConfig digest emptyMatch (storedRow id input created updated)
    = Some (loadedRule digest id input created updated) ∧
  0 ≤ input.(InUpload) ≤ maxTrafficShaperBytesPerSecond ∧ 0 ≤ input.(InDownload) ≤ maxTrafficShaperBytesPerSecond ∧
  (0 < input.(InUpload) ∨ 0 < input.(InDownload)) ∧ 0 ≤ input.(InBurst) ≤ maxTrafficShaperBurstBytes ∧
  0 ≤ input.(InRequestExempt) ≤ maxTrafficShaperExemptBytes ∧ 0 ≤ input.(InResponseExempt) ≤ maxTrafficShaperExemptBytes.
Proof.
  unfold validatePublicTrafficShaperRuleInput. cbv zeta. intros H. set (name := if String.eqb (TrimSpace _) "" then _ else _) in H.
  case_if_hyp H En. destruct (trafficShaperBudgetScopeStringFromProto _) as [|sb] eqn:Eb; [done|].
  destruct (trafficShaperProtocolScopeStringFromProto _) as [|sp] eqn:Ep; [done|]. unfold outside in H.
  case_if_hyp H Eu. case_if_hyp H Ed. case_if_hyp H Ebw. case_if_hyp H Ebu. case_if_hyp H Ex. case_if_hyp H Er.
  destruct m as [m|]; [|done]. destruct (if String.eqb sb _ then _ else _) as [|parts] eqn:Ek; [done|]. injection H as <-. simpl.
  destruct (scopes_stored _ _ _ _ Eb Ep) as (Nb & Np & Hsb). split.
  - unfold publicTrafficShaperRuleRowToConfig, storedRow, loadedRule, publicTrafficShaperRuleFingerprint, fieldsOf. simpl. rewrite Nb, Np.
    destruct Hsb as [-> | ->]; simpl in Ek |- *.
    + by rewrite (identityParts_stored _ _ Ek).
    + injection Ek as <-. done.
  - apply orb_false_iff in Eu as [?%Z.ltb_ge ?%Z.ltb_ge], Ed as [?%Z.ltb_ge ?%Z.ltb_ge], Ebu as [?%Z.ltb_ge ?%Z.ltb_ge],
      Ex as [?%Z.ltb_ge ?%Z.ltb_ge], Er as [?%Z.ltb_ge ?%Z.ltb_ge]. apply andb_false_iff in Ebw as [?%Z.eqb_neq|?%Z.eqb_neq]; lia.
Qed.

Definition exMatch : policyMatch := λ _ _, Some true.
Definition exRequest : shaperRuleRequest :=
  mkRequestRule " api " 10 true BUDGET_PER_KEY PROTOCOL_ALL 65536 0 0 1024 0
    [Some (RateLimiter.KEY_HEADER, " x-tenant "); None; Some (RateLimiter.KEY_REMOTE_IP, "")].
(** A digest that tells bandwidths apart. *)
Definition exDigest (f : fingerprintFields) : string :=
  pretty (N.pos (encode (bandwidth f))).
Definition exInput : publicTrafficShaperRuleMutationInput :=
  mkMutation "api" 10 1 "per_key" "all" 65536 0 0 1024 0 exMatch
    [RateLimiter.mkKeyPart "header" "X-Tenant"; RateLimiter.mkKeyPart "remote_ip" ""].

Lemma shaper_rule_roundtrip_witness :
  publicTrafficShaperRuleRowToConfig exDigest exMatch (storedRow 7 exInput 1 2) = Some (loadedRule exDigest 7 exInput 1 2).
Proof. apply (shaper_rule_roundtrip exDigest exMatch exRequest (Some exMatch) exInput 7 1 2). reflexivity. Defined.

(** ** Buckets and waiting *)

(** C35: A bucket made for int64 parameters keeps its rate and its burst, and whatever
    goroutines spend and give back, and however the clock reads, it holds between nothing
    and its burst; more than the burst is never handed out at once. *)
Theorem shaper_bucket_bounded rate burst now b ops : newByteTokenBucket rate burst now = Some b →
  in_i64 rate → in_i64 burst → Forall opOk ops →
  let b' := applyOps b ops in
  b'.(rateBytesPerSecond) = float_of_int rate ∧
  b'.(burstBytes) = float_of_int (if burst <=? 0 then rate else burst) ∧
  fge b'.(tokens) (float_of_int 0) = true ∧ fge b'.(burstBytes) b'.(tokens) = true ∧
  (∀ now' bytes, good bytes → fgt bytes b'.(burstBytes) = true → ∃ d, (attemptSpend b' now' bytes).2 = Missing d).
Proof.
  intros Hn Hr Hu Ho b'. unfold in_i64, max_int64 in Hr, Hu.
  apply new_wf in Hn; [|unfold max63; lia..]. apply (ops_wf ops) in Hn; [|done]. fold b' in Hn.
  pose proof (wf_tokens _ _ _ Hn) as Ht. pose proof (wf_burst _ _ _ Hn) as Hwb. pose proof (wf_bound _ _ _ Hn) as Hwd.
  destruct (wf_burst_good b' Hn) as [Hg _]. pose proof (val_range _ Ht).
  split; [by apply (wf_rate _ _ _ Hn)|]. split; [exact Hwb|].
  rewrite !fge_good by (done || by apply of_int_good). rewrite of_int_val by lia.
  split; [apply Z.leb_le; unfold V; lia|]. split; [apply Z.leb_le; by rewrite Hwb|].
  intros now' bytes Hb Hgt. unfold attemptSpend. pose proof (refill_wf b' now' Hn) as Hf.
  rewrite fgt_good in Hgt by done. apply Z.ltb_lt in Hgt. rewrite Hwb in Hgt.
  pose proof (wf_bound _ _ _ Hf). rewrite fge_good by (done || by apply (wf_tokens _ _ _ Hf)). destruct (Z.leb_spec (val bytes) (val (tokens (refillLocked b' now')))); [lia|]. by eexists.
Qed.

Definition exNow : Z := 63000000000 * second.
Definition exBucket : byteTokenBucket := mkBucket (float_of_int 1000) (float_of_int 500) (float_of_int 500) exNow exNow.
Definition exOps : list bucketOp :=
  [OpSpend exNow (float_of_int 400); OpRefund 1000; OpSpend (exNow + second / 3) (float_of_int 500); OpSpend (exNow - 5) (float_of_int 1)].

Lemma exOps_ok : Forall opOk exOps.
Proof. repeat constructor. Qed.

Lemma shaper_bucket_bounded_witness :
  fge (applyOps exBucket exOps).(tokens) (float_of_int 0) = true ∧
  fge (applyOps exBucket exOps).(burstBytes) (applyOps exBucket exOps).(tokens) = true.
Proof.
  destruct (shaper_bucket_bounded 1000 500 exNow exBucket exOps eq_refl ltac:(done) ltac:(done) exOps_ok) as (_ & _ & H1 & H2 & _).
  by split.
Defined.

(** C36: Waiting for [n] bytes spends them in full bursts and a rest: the floating-point loop
    is the loop over integers [pieces], which are at most the burst each and [n] in sum,
    under every schedule. *)
Theorem shaper_wait_plan rate burst b n sched : bucketWf rate burst b → schedOk sched → 0 ≤ n ≤ 2 ^ 53 →
  wait b n sched = runPieces sched b (pieces burst n) ∧
  zsum (pieces burst n) = n ∧ Forall (λ p, 0 < p ≤ burst) (pieces burst n) ∧
  length (pieces burst n) = Z.to_nat ((n + burst - 1) / burst).
Proof.
  intros Hb Hs Hn. assert (Hb0 : 0 < burst) by apply Hb. destruct (pieces_sum burst n) as [H1 H2]; [done|lia|].
  split; [|split; [done|split; [done|]]].
  - rewrite (wait_pieces b n sched Hb Hs) by lia. destruct (Z.ltb_spec 0 n); [done|]. assert (n = 0) as -> by lia.
    unfold pieces. by rewrite Z.div_0_l, Z.mod_0_l by lia.
  - unfold pieces. rewrite length_app, length_replicate. pose proof (Z.div_mod n burst ltac:(lia)) as Hdm.
    pose proof (Z.mod_pos_bound n burst Hb0). pose proof (Z.div_pos n burst ltac:(lia) Hb0).
    destruct (Z.eqb_spec (n mod burst) 0) as [E|E]; simpl.
    + rewrite (Z.div_unique (n + burst - 1) burst (n / burst) (burst - 1)) by lia. lia.
    + rewrite <- (Z.div_unique (n + burst - 1) burst (n / burst + 1) (n mod burst - 1)) by lia. lia.
Qed.

Definition exSched : list attempt :=
  [mkAttempt [] exNow false; mkAttempt [OpRefund 3] (exNow + second / 4) false; mkAttempt [] (exNow + second) false;
   mkAttempt [] (exNow + 2 * second) false].

Lemma exBucket_wf : bucketWf 1000 500 exBucket.
Proof. apply (new_wf 1000 500 exNow exBucket); by vm_compute. Qed.

Lemma exSched_ok : schedOk exSched.
Proof. repeat constructor. Qed.

Lemma shaper_wait_plan_witness :
  wait exBucket 1200 exSched = runPieces exSched exBucket [500; 500; 200] ∧ (wait exBucket 1200 exSched).1.2 = Done.
Proof.
  split; [|by vm_compute].
  apply (shaper_wait_plan 1000 500 exBucket 1200 exSched exBucket_wf exSched_ok). lia.
Defined.

(** A goroutine that still waits after the attempts [pre] is released, with its bytes, by
    the next reading of the clock at which the time since the last refill, whoever made
    it, fills the bucket: no waiter starves on a clock that advances. *)
Theorem shaper_waiter_released rate burst b bytes pre a post b' :
  bucketWf rate burst b → good bytes → fge b.(burstBytes) bytes = true → schedOk (pre ++ a :: post) →
  waitForSpend pre b bytes = (b', Blocked, []) →
  late (applyOps b' a.(others)) a.(clock) = true →
  ∃ b2, waitForSpend (pre ++ a :: post) b bytes = (b2, Done, post) ∧ b2.(lastUsed) = a.(clock).
Proof.
  intros Hb Hg Hle Hs Hpre Hlate. apply Forall_app in Hs as [Hs1 [Ha Hs2]%Forall_cons].
  rewrite (waitForSpend_app pre b bytes b' (a :: post) Hpre). simpl.
  apply (waitForSpend_shape (rate := rate) (burst := burst)) in Hpre as (Hb' & _); [|done..].
  apply (ops_wf a.(others)) in Hb'; [|done]. destruct (wf_burst_good b Hb) as [Hgb _]. rewrite fge_good in Hle by done.
  apply Z.leb_le in Hle. destruct (late_spent _ a.(clock) bytes Hb' Hg) as [b2 E]; [|done|].
  { rewrite (TrafficShaperProps.wf_burst _ _ _ Hb'). by rewrite (TrafficShaperProps.wf_burst _ _ _ Hb) in Hle. }
  rewrite E. exists b2. split; [done|]. unfold attemptSpend in E. case_match; [by injection E as <-|done].
Qed.

Definition exDrained : byteTokenBucket := (attemptSpend exBucket exNow (float_of_int 500)).1.
Definition exPre : list attempt := [mkAttempt [] (exNow + 5) false; mkAttempt [] (exNow + second / 4) false].

Lemma exDrained_wf : bucketWf 1000 500 exDrained.
Proof. apply spend_wf; [apply exBucket_wf|by apply of_int_good]. Qed.

Lemma shaper_waiter_released_witness : ∃ b2,
  waitForSpend (exPre ++ [mkAttempt [OpSpend (exNow + second / 4) (float_of_int 9)] (exNow + second) false]) exDrained (float_of_int 500)
    = (b2, Done, []) ∧ b2.(lastUsed) = exNow + second.
Proof.
  apply (shaper_waiter_released 1000 500 exDrained (float_of_int 500) exPre
    (mkAttempt [OpSpend (exNow + second / 4) (float_of_int 9)] (exNow + second) false) []
    (waitForSpend exPre exDrained (float_of_int 500)).1.1).
  - apply exDrained_wf.
  - by apply of_int_good.
  - by vm_compute.
  - repeat constructor.
  - by vm_compute.
  - by vm_compute.
Defined.

(** ** Shaped bodies *)

(** However a shaped body is read, every Read passes on what the body has at hand, cut to
    the buffer and to the chunk limit, and over all of them exactly the bytes after the
    exemption have been charged to the bucket. *)
Theorem shaper_read_accounting rate burst b exempt r calls r' os :
  bucketWf rate burst b → newShapingReadCloser true (Some b) exempt = Some r → Forall callOk calls →
  readSession r calls = (r', os) →
  totalCharge os = totalRead os - Z.min (Z.max 0 exempt) (totalRead os) ∧
  r'.(exemptRemaining) = Z.max 0 exempt - Z.min (Z.max 0 exempt) (totalRead os) ∧
  1 ≤ chunkLimit b ≤ maxShapingChunkBytes ∧
  Forall2 (λ c o, o.(count) = Z.min (Z.of_nat c.1.2.(atHand)) (Z.min c.1.1 (chunkLimit b))) calls os.
Proof.
  intros Hb Hn Hc E. simpl in Hn. injection Hn as <-.
  assert (He : readExemptBytes exempt = Z.max 0 exempt) by (unfold readExemptBytes; destruct (Z.ltb_spec exempt 0); lia).
  rewrite He in E. apply (readSession_spec (rate := rate) (burst := burst)) in E as (_ & _ & H1 & H2 & H3); [|done|simpl; lia|done].
  split_and!; [done|done|by apply (chunkLimit_range b Hb)..|done].
Qed.

Definition exCalls : list readCall :=
  [(32768, mkReadAnswer 300 None, []); (32768, mkReadAnswer 700 None, [mkAttempt [] exNow false]);
   (4, mkReadAnswer 9 (Some EOF), [mkAttempt [] (exNow + second) true])].

Lemma exCalls_ok : Forall callOk exCalls.
Proof. repeat (apply Forall_cons_2; [split; [done|repeat constructor]|]). constructor. Qed.

Lemma shaper_read_accounting_witness :
  (totalRead (readSession (mkReader exBucket 400) exCalls).2, totalCharge (readSession (mkReader exBucket 400) exCalls).2) = (804, 404).
Proof.
  destruct (shaper_read_accounting 1000 500 exBucket 400 (mkReader exBucket 400) exCalls
    (readSession (mkReader exBucket 400) exCalls).1 (readSession (mkReader exBucket 400) exCalls).2 exBucket_wf eq_refl) as [H _].
  - apply exCalls_ok.
  - by vm_compute.
  - rewrite H. clear. vm_compute. reflexivity.
Defined.


Definition exPayload : list ascii := replicate 10 "x"%char.
Definition exWriter : shapingReadWriteCloser := mkReadWriter None (Some (mkBucket (float_of_int 8) (float_of_int 4) (float_of_int 4) exNow exNow)) 0 3.
Definition exSink : sink := mkSink [] [(2, None); (4, None); (4, Some (BodyError 5))].
Definition exWriteSched : list attempt :=
  [mkAttempt [] exNow false; mkAttempt [] (exNow + second) false; mkAttempt [] (exNow + 2 * second) false].

Lemma exWriter_wf : bucketWf 8 4 (mkBucket (float_of_int 8) (float_of_int 4) (float_of_int 4) exNow exNow).
Proof. apply (new_wf 8 4 exNow _); by vm_compute. Qed.

Lemma exWriteSched_ok : schedOk exWriteSched.
Proof. repeat constructor. Qed.


(** ** Decisions *)


Definition exHash (s : string) : string := String "#" s.
Definition exOrder (m : gmap string (option Z)) : list string := (map_to_list m).*1.
Definition exRule : publicTrafficShaperRuleConfig := loadedRule exDigest 7 exInput 1 2.
Definition exListener : publicListenerConfig := mkListener 1 "" "" 80 "http" true.
Definition exHttp : ClientIdentity.httpRequest := ClientIdentity.mkRequest "GET" "a.example" "" "/" "/" false "192.0.2.1:9" ∅ [] ∅ None [].

Lemma exDigest_bandwidth f g : exDigest f = exDigest g → bandwidth f = bandwidth g.
Proof. unfold exDigest. intros H. apply (inj pretty) in H. injection H as H. by apply (inj encode). Qed.

Lemma exShaperOrder_complete m k : k ∈ exOrder m ↔ is_Some (m !! k).
Proof.
  unfold exOrder. rewrite list_elem_of_fmap. split.
  - intros ([k' p] & -> & H). apply elem_of_map_to_list in H. by exists p.
  - intros [p H]. exists (k, p). split; [done|by apply elem_of_map_to_list].
Qed.

Lemma exRule_ok : ruleOk exDigest exRule.
Proof. by vm_compute. Qed.

Definition exShaper : publicTrafficShaper := reconcile newPublicTrafficShaper [exRule].

Lemma exShaper_reachable : shaperReachable exDigest exHash exOrder exShaper.
Proof. apply rtc_once, step_reconcile. repeat constructor; apply exRule_ok. Qed.


End TrafficShaperTheorems.
