(* ===== verification/UpdateAuth.v ===== *)
(** The signed records of agent updates: release versions (internal/releaseversion), the
    management authorization, the enrollment receipt and the root action receipt with their
    canonical payloads and verification (internal/agentupdateauth/authorization.go,
    signing.go), and the release manifest and its verification (internal/agentupdate).

    The regular expressions are predicates on strings.  SHA-256 and Ed25519 are the class
    [Crypto], with what the code relies on in [CryptoLaws]; golang.org/x/mod/semver is the
    class [Semver].  The JSON decoder of manifests and the parser of timestamps are
    arguments.  A payload determines every field of what it was made of. *)

From S2P Require Import Prelude.
From S2P Require Import GoStrings.
From S2P Require Import GoBase64.
From S2P Require Import WafCookies.
From Stdlib Require Import Ascii.

Module UpdateAuth.
Import WafCookies(unixEpoch, UnixMilli).

(** ** Patterns *)

Definition between (lo hi c : ascii) : bool := (nat_of_ascii lo <=? nat_of_ascii c)%nat && (nat_of_ascii c <=? nat_of_ascii hi)%nat.
Definition digitClass (c : ascii) : bool := between "0" "9" c.
Definition lowerClass (c : ascii) : bool := between "a" "z" c.
Definition upperClass (c : ascii) : bool := between "A" "Z" c.
Definition alnumClass (c : ascii) : bool := digitClass c || lowerClass c || upperClass c.
Definition lowerHexClass (c : ascii) : bool := digitClass c || between "a" "f" c.
Definition oneOf (s : string) (c : ascii) : bool := containsByte c s.

Fixpoint allOf (f : ascii → bool) (s : string) : bool :=
  match s with EmptyString => true | String c s => f c && allOf f s end.

(** [f{n}] *)
Definition exactly (n : nat) (f : ascii → bool) (s : string) : bool := (String.length s =? n)%nat && allOf f s.
(** [f g{0,max}] *)
Definition headed (f g : ascii → bool) (max : nat) (s : string) : bool :=
  match s with EmptyString => false | String c s => f c && allOf g s && (String.length s <=? max)%nat end.
(** [f{1,max}] *)
Definition upTo (max : nat) (f : ascii → bool) (s : string) : bool :=
  (1 <=? String.length s)%nat && (String.length s <=? max)%nat && allOf f s.

Definition hexDigestPattern : string → bool := exactly 64 lowerHexClass.
Definition hexCommitPattern : string → bool := exactly 40 lowerHexClass.
Definition agentPublicIDPattern : string → bool := headed alnumClass (λ c, alnumClass c || oneOf "_.:-" c) 127.
Definition platformPattern : string → bool :=
  headed (λ c, digitClass c || lowerClass c) (λ c, digitClass c || lowerClass c || oneOf "._-" c) 31.
Definition artifactNamePattern : string → bool := headed alnumClass (λ c, alnumClass c || oneOf "._-" c) 127.
Definition pinnedRepositoryPattern (s : string) : bool :=
  match Cut "/" s with
  | Some (owner, name) => let part := upTo 100 (λ c, alnumClass c || oneOf "_.-" c) in part owner && part name
  | None => false
  end.

(** ** Release versions *)

Class Semver := {
  semverIsValid : string → bool;
  semverBuild : string → string;
  semverPrerelease : string → string;
  semverCompare : string → string → Z }.

Definition ChannelStable := "stable".
Definition ChannelStaging := "staging".

(** [0|[1-9][0-9]*] *)
Definition numericIdentifier (s : string) : bool :=
  match s with
  | EmptyString => false
  | String c rest => if Ascii.eqb c "0" then String.eqb rest "" else between "1" "9" c && allOf digitClass rest
  end.
Definition prereleaseIdentifier (s : string) : bool :=
  negb (String.eqb s "") && allOf (λ c, alnumClass c || Ascii.eqb c "-") s.

(** The text before the first dash is the core, the rest the prerelease. *)
Definition releasePattern (s : string) : bool :=
  match s with
  | String "v" s =>
      let '(core, pre) := match Cut "-" s with Some (core, pre) => (core, Some pre) | None => (s, None) end in
      let parts := Split "." core in
      (length parts =? 3)%nat && forallb numericIdentifier parts &&
      match pre with None => true | Some pre => forallb prereleaseIdentifier (Split "." pre) end
  | _ => false
  end.

Section versions.
Context `{Semver}.

Definition Valid (version : string) : bool :=
  (String.length version <=? 96)%nat && releasePattern version && semverIsValid version &&
  String.eqb (semverBuild version) "".
Definition Stable (version : string) : bool := Valid version && String.eqb (semverPrerelease version) "".
Definition Prerelease (version : string) : bool := Valid version && negb (String.eqb (semverPrerelease version) "").
Definition ValidForChannel (version channel : string) : bool :=
  let channel := TrimSpace channel in
  if String.eqb channel ChannelStable then Stable version
  else if String.eqb channel ChannelStaging then Prerelease version
  else false.
Definition Compare (left right : string) : Z := semverCompare left right.
End versions.

(** ** Encoding *)

Definition hexDigit (v : Z) : ascii := ascii_of_nat (Z.to_nat (if v <? 10 then 48 + v else 87 + v)).

(** [hex.EncodeToString] *)
Fixpoint hexEncode (s : string) : string :=
  match s with
  | EmptyString => ""
  | String c s => String (hexDigit (byteVal c / 16)) (String (hexDigit (byteVal c mod 16)) (hexEncode s))
  end.

Definition Domain : string := "p2pstream-agent-update-control-v1" ++ String "000" "".

(** [binary.Write(..., BigEndian, uint32(n))] *)
Definition bigEndian32 (n : Z) : string :=
  String (byteOf (n / 16777216 mod 256)) (String (byteOf (n / 65536 mod 256))
    (String (byteOf (n / 256 mod 256)) (String (byteOf (n mod 256)) ""))).

Definition writeValue (value : string) : string := bigEndian32 (Z.of_nat (String.length value)) ++ value.
Definition writeValues : list string → string := foldr (λ value out, writeValue value ++ out)%string "".

Definition record (method : string) (values : list string) : string := Domain ++ writeValues (method :: values).

(** ** The signed records *)

Definition AssignmentActionActivate := "activate".
Definition AssignmentActionRollback := "rollback".
Definition RootActionResultRelease := "release".
Definition RootActionResultBootstrap := "bootstrap".
Definition MaxAuthorizationLifetime : Z := 24 * 3600 * second.
Definition MaxEnrollmentReceiptLifetime : Z := 24 * 3600 * second.
Definition MaxSigningClockSkew : Z := 5 * minute.

Record AssignmentAuthorization := mkAuthorization {
  AgentPublicID : string;
  AssignmentID : Z;
  CampaignID : Z;
  Generation : Z;
  Action : string;
  CommandSequence : Z;
  Nonce : string;
  IssuedAtUnixMillis : Z;
  ExpiresAtUnixMillis : Z;
  AuthorityKeyID : string;
  AuthorityEpoch : Z;
  ServerVersion : string;
  ManifestSHA256 : string;
  TargetVersion : string;
  TargetCommit : string;
  ReleaseSequence : Z;
  SecurityEpoch : Z;
  OS : string;
  Arch : string;
  ArtifactName : string;
  ArtifactSize : Z;
  ArtifactSHA256 : string }.

Record AssignmentAuthorizationVerifyPolicy := mkAuthorizationPolicy {
  Now : Z;
  ExpectedAgentPublicID : string;
  ExpectedAction : string;
  ExpectedAuthorityEpoch : Z;
  LastCommandSequence : Z }.

Record EnrollmentReceipt := mkEnrollment {
  EnrAgentPublicID : string;
  EnrUpdaterKeyID : string;
  EnrUpdaterPublicKeySHA256 : string;
  EnrActivatorKeyID : string;
  EnrActivatorPublicKeySHA256 : string;
  EnrOS : string;
  EnrArch : string;
  EnrUpdaterVersion : string;
  EnrPinnedRepository : string;
  EnrAuthorityKeyID : string;
  EnrAuthorityEpoch : Z;
  EnrolledAtUnixMillis : Z;
  EnrExpiresAtUnixMillis : Z;
  EnrGeneration : Z }.

Record EnrollmentReceiptVerifyPolicy := mkEnrollmentPolicy {
  EnrNow : Z;
  EnrExpectedAgentPublicID : string;
  EnrExpectedAuthorityEpoch : Z;
  LastGeneration : Z }.

Record RootActionReceipt := mkReceipt {
  RecAgentPublicID : string;
  RecAssignmentID : Z;
  RecCampaignID : Z;
  RecGeneration : Z;
  RecAction : string;
  RecCommandSequence : Z;
  AuthorizationSHA256 : string;
  AuthorizationNonce : string;
  RecAuthorityKeyID : string;
  RecAuthorityEpoch : Z;
  ActivatorKeyID : string;
  RootActionCounter : Z;
  CompletedAtUnixMillis : Z;
  ResultKind : string;
  ResultManifestSHA256 : string;
  ResultVersion : string;
  ResultCommit : string;
  ResultReleaseSequence : Z;
  ResultSecurityEpoch : Z;
  ResultOS : string;
  ResultArch : string;
  ResultArtifactName : string;
  ResultArtifactSize : Z;
  ResultArtifactSHA256 : string }.

Record RootActionReceiptVerifyPolicy := mkReceiptPolicy {
  RecNow : Z;
  RecExpectedAgentPublicID : string;
  RecExpectedAction : string;
  ExpectedAuthorizationSHA256 : string;
  ExpectedAuthorityKeyID : string;
  RecExpectedAuthorityEpoch : Z;
  LastRootActionCounter : Z }.

(** ** Validation *)

Definition validAction (action : string) : bool :=
  String.eqb action AssignmentActionActivate || String.eqb action AssignmentActionRollback.

(** 9999-12-31T23:59:59.999Z *)
Definition validUnixMillis (value : Z) : bool := (0 <? value) && (value <=? 253402300799999).

Definition validateInterval (start end_ maximum : Z) : bool :=
  validUnixMillis start && validUnixMillis end_ && (start <? end_) && (end_ - start <=? maximum / millisecond).

Definition validateArtifact (osName arch name : string) (size : Z) (digest : string) : bool :=
  platformPattern osName && platformPattern arch && artifactNamePattern name &&
  (0 <? size) && (size <=? 536870912) && hexDigestPattern digest.

(** [0 < v <= math.MaxInt64] *)
Definition positive63 (v : Z) : bool := (0 <? v) && (v <=? max_int64).

Section validation.
Context `{Semver}.

Definition validVersion (version : string) : bool := (String.length version <=? 128)%nat && semverIsValid version.

Definition validateAssignmentAuthorization (value : AssignmentAuthorization) : bool :=
  agentPublicIDPattern value.(AgentPublicID) && (0 <? value.(AssignmentID)) && (0 <? value.(CampaignID)) && (0 <? value.(Generation)) &&
  validAction value.(Action) && positive63 value.(CommandSequence) && (String.length value.(Nonce) =? 32)%nat &&
  validateInterval value.(IssuedAtUnixMillis) value.(ExpiresAtUnixMillis) MaxAuthorizationLifetime &&
  hexDigestPattern value.(AuthorityKeyID) && positive63 value.(AuthorityEpoch) &&
  validVersion value.(ServerVersion) && hexDigestPattern value.(ManifestSHA256) &&
  validVersion value.(TargetVersion) && hexCommitPattern value.(TargetCommit) &&
  positive63 value.(ReleaseSequence) && positive63 value.(SecurityEpoch) &&
  validateArtifact value.(OS) value.(Arch) value.(ArtifactName) value.(ArtifactSize) value.(ArtifactSHA256).

Definition validateEnrollmentReceipt (value : EnrollmentReceipt) : bool :=
  agentPublicIDPattern value.(EnrAgentPublicID) && hexDigestPattern value.(EnrUpdaterKeyID) &&
  hexDigestPattern value.(EnrUpdaterPublicKeySHA256) && hexDigestPattern value.(EnrActivatorKeyID) &&
  hexDigestPattern value.(EnrActivatorPublicKeySHA256) &&
  String.eqb value.(EnrUpdaterKeyID) value.(EnrUpdaterPublicKeySHA256) &&
  String.eqb value.(EnrActivatorKeyID) value.(EnrActivatorPublicKeySHA256) &&
  negb (String.eqb value.(EnrUpdaterKeyID) value.(EnrActivatorKeyID)) &&
  platformPattern value.(EnrOS) && platformPattern value.(EnrArch) && validVersion value.(EnrUpdaterVersion) &&
  pinnedRepositoryPattern value.(EnrPinnedRepository) &&
  hexDigestPattern value.(EnrAuthorityKeyID) && positive63 value.(EnrAuthorityEpoch) && positive63 value.(EnrGeneration) &&
  validateInterval value.(EnrolledAtUnixMillis) value.(EnrExpiresAtUnixMillis) MaxEnrollmentReceiptLifetime.

Definition validateRootActionReceipt (value : RootActionReceipt) : bool :=
  agentPublicIDPattern value.(RecAgentPublicID) && (0 <? value.(RecAssignmentID)) && (0 <? value.(RecCampaignID)) &&
  (0 <? value.(RecGeneration)) && validAction value.(RecAction) && positive63 value.(RecCommandSequence) &&
  (String.length value.(AuthorizationNonce) =? 32)%nat &&
  hexDigestPattern value.(AuthorizationSHA256) && hexDigestPattern value.(RecAuthorityKeyID) &&
  positive63 value.(RecAuthorityEpoch) && hexDigestPattern value.(ActivatorKeyID) && positive63 value.(RootActionCounter) &&
  validUnixMillis value.(CompletedAtUnixMillis) &&
  (if String.eqb value.(ResultKind) RootActionResultRelease then
     hexDigestPattern value.(ResultManifestSHA256) && validVersion value.(ResultVersion) && hexCommitPattern value.(ResultCommit) &&
     positive63 value.(ResultReleaseSequence) && positive63 value.(ResultSecurityEpoch)
   else if String.eqb value.(ResultKind) RootActionResultBootstrap then
     String.eqb value.(RecAction) AssignmentActionRollback && String.eqb value.(ResultManifestSHA256) "" &&
     (value.(ResultReleaseSequence) =? 0) && (value.(ResultSecurityEpoch) =? 0) && validVersion value.(ResultVersion) &&
     hexCommitPattern value.(ResultCommit)
   else false) &&
  validateArtifact value.(ResultOS) value.(ResultArch) value.(ResultArtifactName) value.(ResultArtifactSize) value.(ResultArtifactSHA256).

(** ** Canonical payloads *)

Definition authorizationFields (value : AssignmentAuthorization) : list string :=
  [value.(AgentPublicID); FormatInt value.(AssignmentID); FormatInt value.(CampaignID); FormatInt value.(Generation);
   value.(Action); FormatUint value.(CommandSequence); hexEncode value.(Nonce); FormatInt value.(IssuedAtUnixMillis);
   FormatInt value.(ExpiresAtUnixMillis); value.(AuthorityKeyID); FormatUint value.(AuthorityEpoch); value.(ServerVersion);
   value.(ManifestSHA256); value.(TargetVersion); value.(TargetCommit); FormatUint value.(ReleaseSequence);
   FormatUint value.(SecurityEpoch); value.(OS); value.(Arch); value.(ArtifactName); FormatInt value.(ArtifactSize);
   value.(ArtifactSHA256)].

Definition AssignmentAuthorizationPayload (value : AssignmentAuthorization) : option string :=
  if validateAssignmentAuthorization value
  then Some (record "management-assignment-authorization" (authorizationFields value)) else None.

Definition EnrollmentReceiptPayload (value : EnrollmentReceipt) : option string :=
  if validateEnrollmentReceipt value then
    Some (record "management-enrollment-receipt"
      [value.(EnrAgentPublicID); value.(EnrUpdaterKeyID); value.(EnrUpdaterPublicKeySHA256); value.(EnrActivatorKeyID);
       value.(EnrActivatorPublicKeySHA256); value.(EnrOS); value.(EnrArch); value.(EnrUpdaterVersion);
       value.(EnrPinnedRepository); value.(EnrAuthorityKeyID); FormatUint value.(EnrAuthorityEpoch);
       FormatInt value.(EnrolledAtUnixMillis); FormatInt value.(EnrExpiresAtUnixMillis); FormatUint value.(EnrGeneration)])
  else None.

Definition receiptFields (value : RootActionReceipt) : list string :=
  [value.(RecAgentPublicID); FormatInt value.(RecAssignmentID); FormatInt value.(RecCampaignID); FormatInt value.(RecGeneration);
   value.(RecAction); FormatUint value.(RecCommandSequence); value.(AuthorizationSHA256); hexEncode value.(AuthorizationNonce);
   value.(RecAuthorityKeyID); FormatUint value.(RecAuthorityEpoch); value.(ActivatorKeyID); FormatUint value.(RootActionCounter);
   FormatInt value.(CompletedAtUnixMillis); value.(ResultKind); value.(ResultManifestSHA256); value.(ResultVersion);
   value.(ResultCommit); FormatUint value.(ResultReleaseSequence); FormatUint value.(ResultSecurityEpoch); value.(ResultOS);
   value.(ResultArch); value.(ResultArtifactName); FormatInt value.(ResultArtifactSize); value.(ResultArtifactSHA256)].

Definition RootActionReceiptPayload (value : RootActionReceipt) : option string :=
  if validateRootActionReceipt value then Some (record "root-action-receipt" (receiptFields value)) else None.
End validation.

(** ** Signatures *)

(** Keys, signatures and digests are byte strings; a private key is its seed of 32 bytes
    followed by the public key. *)
Class Crypto := {
  sha256 : string → string;
  ed25519Public : string → string;
  NewKeyFromSeed : string → string;
  ed25519Sign : string → string → string;
  ed25519Verify : string → string → string → bool }.

Class CryptoLaws `(Crypto) : Prop := {
  sha256_length p : String.length (sha256 p) = 32%nat;
  NewKeyFromSeed_length seed : String.length seed = 32%nat → String.length (NewKeyFromSeed seed) = 64%nat;
  NewKeyFromSeed_seed seed : String.length seed = 32%nat → String.substring 0 32 (NewKeyFromSeed seed) = seed;
  ed25519Public_length key : String.length key = 64%nat → String.length (ed25519Public key) = 32%nat;
  ed25519Sign_length key p : String.length (ed25519Sign key p) = 64%nat;
  ed25519Verify_Sign key p : ed25519Verify (ed25519Public key) p (ed25519Sign key p) = true }.

Section signatures.
Context `{Semver, Crypto}.

Definition Seed (privateKey : string) : string := String.substring 0 32 privateKey.

Definition KeyID (publicKey : string) : option string :=
  if (String.length publicKey =? 32)%nat then Some (hexEncode (sha256 publicKey)) else None.

Definition AssignmentAuthorizationDigest (value : AssignmentAuthorization) : option string :=
  sha256 <$> AssignmentAuthorizationPayload value.

Definition privateKeyMatchesID (privateKey expectedID : string) : bool :=
  (String.length privateKey =? 64)%nat && String.eqb (NewKeyFromSeed (Seed privateKey)) privateKey &&
  bool_decide (KeyID (ed25519Public (NewKeyFromSeed (Seed privateKey))) = Some expectedID).

Definition verifyKeyAndSignature (publicKey expectedID payload signature : string) : bool :=
  bool_decide (KeyID publicKey = Some expectedID) &&
  (String.length signature =? 64)%nat && ed25519Verify publicKey payload signature.

(** The local identities, as text. *)
Definition decodeCanonicalKey (value : string) (expectedBytes : nat) : option string :=
  match stdDecodeString value with
  | Some decoded =>
      if negb (String.length decoded =? expectedBytes)%nat || negb (String.eqb (stdEncodeToString decoded) value)
      then None else Some decoded
  | None => None
  end.
Definition ParsePublicKey (encoded : string) : option string := decodeCanonicalKey encoded 32.
Definition ParsePrivateKey (encoded : string) : option string := NewKeyFromSeed <$> decodeCanonicalKey encoded 32.

Definition SignAssignmentAuthorization (privateKey : string) (value : AssignmentAuthorization) : option string :=
  match AssignmentAuthorizationPayload value with
  | Some payload =>
      if privateKeyMatchesID privateKey value.(AuthorityKeyID) then Some (ed25519Sign privateKey payload) else None
  | None => None
  end.

Definition VerifyAssignmentAuthorization (publicKey : string) (value : AssignmentAuthorization) (signature : string)
    (policy : AssignmentAuthorizationVerifyPolicy) : bool :=
  match AssignmentAuthorizationPayload value with
  | None => false
  | Some payload =>
      verifyKeyAndSignature publicKey value.(AuthorityKeyID) payload signature &&
      negb (is_zero_time policy.(Now)) &&
      agentPublicIDPattern policy.(ExpectedAgentPublicID) && validAction policy.(ExpectedAction) &&
      negb (policy.(ExpectedAuthorityEpoch) =? 0) &&
      (value.(IssuedAtUnixMillis) <=? UnixMilli (policy.(Now) + MaxSigningClockSkew)) &&
      (UnixMilli policy.(Now) <? value.(ExpiresAtUnixMillis)) &&
      String.eqb value.(AgentPublicID) policy.(ExpectedAgentPublicID) &&
      String.eqb value.(Action) policy.(ExpectedAction) &&
      (value.(AuthorityEpoch) =? policy.(ExpectedAuthorityEpoch)) &&
      (policy.(LastCommandSequence) <? value.(CommandSequence))
  end.

Definition SignEnrollmentReceipt (privateKey : string) (value : EnrollmentReceipt) : option string :=
  match EnrollmentReceiptPayload value with
  | Some payload =>
      if privateKeyMatchesID privateKey value.(EnrAuthorityKeyID) then Some (ed25519Sign privateKey payload) else None
  | None => None
  end.

Definition VerifyEnrollmentReceipt (publicKey : string) (value : EnrollmentReceipt) (signature : string)
    (policy : EnrollmentReceiptVerifyPolicy) : bool :=
  match EnrollmentReceiptPayload value with
  | None => false
  | Some payload =>
      verifyKeyAndSignature publicKey value.(EnrAuthorityKeyID) payload signature &&
      negb (is_zero_time policy.(EnrNow)) &&
      agentPublicIDPattern policy.(EnrExpectedAgentPublicID) && negb (policy.(EnrExpectedAuthorityEpoch) =? 0) &&
      (value.(EnrolledAtUnixMillis) <=? UnixMilli (policy.(EnrNow) + MaxSigningClockSkew)) &&
      (UnixMilli policy.(EnrNow) <? value.(EnrExpiresAtUnixMillis)) &&
      String.eqb value.(EnrAgentPublicID) policy.(EnrExpectedAgentPublicID) &&
      (value.(EnrAuthorityEpoch) =? policy.(EnrExpectedAuthorityEpoch)) &&
      (policy.(LastGeneration) <? value.(EnrGeneration))
  end.

Definition SignRootActionReceipt (privateKey : string) (value : RootActionReceipt) : option string :=
  match RootActionReceiptPayload value with
  | Some payload =>
      if privateKeyMatchesID privateKey value.(ActivatorKeyID) then Some (ed25519Sign privateKey payload) else None
  | None => None
  end.

Definition VerifyRootActionReceipt (publicKey : string) (value : RootActionReceipt) (signature : string)
    (policy : RootActionReceiptVerifyPolicy) : bool :=
  match RootActionReceiptPayload value with
  | None => false
  | Some payload =>
      verifyKeyAndSignature publicKey value.(ActivatorKeyID) payload signature &&
      negb (is_zero_time policy.(RecNow)) &&
      agentPublicIDPattern policy.(RecExpectedAgentPublicID) && validAction policy.(RecExpectedAction) &&
      hexDigestPattern policy.(ExpectedAuthorizationSHA256) && hexDigestPattern policy.(ExpectedAuthorityKeyID) &&
      negb (policy.(RecExpectedAuthorityEpoch) =? 0) &&
      (value.(CompletedAtUnixMillis) <=? UnixMilli (policy.(RecNow) + MaxSigningClockSkew)) &&
      String.eqb value.(RecAgentPublicID) policy.(RecExpectedAgentPublicID) &&
      String.eqb value.(RecAction) policy.(RecExpectedAction) &&
      String.eqb value.(AuthorizationSHA256) policy.(ExpectedAuthorizationSHA256) &&
      String.eqb value.(RecAuthorityKeyID) policy.(ExpectedAuthorityKeyID) &&
      (value.(RecAuthorityEpoch) =? policy.(RecExpectedAuthorityEpoch)) &&
      (policy.(LastRootActionCounter) <? value.(RootActionCounter))
  end.
End signatures.

(** ** Release manifests *)

Definition SchemaVersion : Z := 1.
Definition MaxManifestBytes : Z := 65536.
Definition MaxArtifacts : nat := 32.
Definition MaxOCIImages : nat := 1.
Definition MaxReleaseAssets : nat := 64.
Definition MaxArtifactSize : Z := 536870912.
Definition allowedClockSkew : Z := 5 * minute.

Record VersionRange := mkVersionRange { MinVersion : string; MaxVersion : string }.
Record ProtocolRange := mkProtocolRange { MinProtocol : Z; MaxProtocol : Z }.
Record Compatibility := mkCompatibility { Server : VersionRange; Protocol : ProtocolRange; Updater : VersionRange }.
Record ManifestArtifact := mkManifestArtifact {
  MOS : string; MArch : string; MName : string; MSize : Z; MSHA256 : string }.
Record OCIPlatform := mkPlatform {
  POS : string; PArch : string; PDigest : string; PMediaType : string; PSize : Z }.
Record OCIImage := mkImage {
  Repository : string; IDigest : string; IMediaType : string; ISize : Z; Platforms : list OCIPlatform }.
Record ReleaseAsset := mkAsset { AName : string; ASize : Z; ASHA256 : string }.

Record Manifest := mkManifest {
  MSchemaVersion : Z;
  Channel : string;
  Version : string;
  Commit : string;
  Sequence : Z;
  PublishedAt : string;
  ExpiresAt : string;
  MinimumSafeVersion : string;
  MSecurityEpoch : Z;
  MCompatibility : Compatibility;
  Artifacts : list ManifestArtifact;
  OCIImages : list OCIImage;
  ReleaseAssets : list ReleaseAsset }.

Record VerifyPolicy := mkVerifyPolicy {
  PolNow : Z;
  RequiredChannel : string;
  CurrentSequence : Z;
  CurrentSecurityEpoch : Z;
  CurrentMinimumSafeVersion : string;
  CurrentVersion : string;
  CurrentManifestSHA256 : string;
  PolServerVersion : string;
  UpdaterVersion : string;
  ProtocolVersion : Z;
  GOOS : string;
  GOARCH : string }.

(** The fields of the source that repeat those of the manifest are read from it. *)
Record VerifiedManifest := mkVerified {
  VManifest : Manifest;
  VArtifact : ManifestArtifact;
  VManifestSHA256 : string;
  VPublishedAt : Z;
  VExpiresAt : Z }.

Definition tokenRE : string → bool := platformPattern.
Definition assetNameRE : string → bool := artifactNamePattern.

(** A list sorted by its keys without duplicates; an empty key may be followed by any. *)
Fixpoint sortedFrom (previous : string) (keys : list string) : bool :=
  match keys with
  | [] => true
  | key :: keys => (String.eqb previous "" || String.ltb previous key) && sortedFrom key keys
  end.

Fixpoint contains (sub s : string) : bool :=
  HasPrefix s sub || match s with EmptyString => false | String _ s => contains sub s end.

(** The names of artifacts and assets: no path, no URL, no parent. *)
Definition plainName (name : string) : bool :=
  assetNameRE name && negb (String.eqb name ".") && negb (String.eqb name "..") && negb (contains ".." name) &&
  negb (containsByte "/" name || containsByte "\" name || containsByte ":" name).

Definition validateManifestArtifact (artifact : ManifestArtifact) : bool :=
  tokenRE artifact.(MOS) && tokenRE artifact.(MArch) && plainName artifact.(MName) &&
  (0 <? artifact.(MSize)) && (artifact.(MSize) <=? MaxArtifactSize) && hexDigestPattern artifact.(MSHA256).

Definition validateReleaseAsset (asset : ReleaseAsset) : bool :=
  plainName asset.(AName) && (0 <? asset.(ASize)) && (asset.(ASize) <=? MaxArtifactSize) && hexDigestPattern asset.(ASHA256).

Definition validOCIDigest (digest : string) : bool :=
  HasPrefix digest "sha256:" && hexDigestPattern (TrimPrefix digest "sha256:").

Definition validateOCIComponent (part : string) : bool :=
  negb (String.eqb part "" || String.eqb part "." || String.eqb part ".." || HasPrefix part "." || HasSuffix part ".") &&
  allOf (λ c, digitClass c || lowerClass c || oneOf "._-" c) part.

(** On the characters the components admit, [strings.ToLower] is the one of ASCII. *)
Definition validateOCIRepository (repository : string) : bool :=
  negb (String.eqb repository "") && (String.length repository <=? 255)%nat && String.eqb repository (ToLower repository) &&
  negb (containsByte "@" repository || containsByte "?" repository || containsByte "#" repository || containsByte "\" repository) &&
  negb (contains "://" repository) &&
  let parts := Split "/" repository in (2 <=? length parts)%nat && forallb validateOCIComponent parts.

Definition validateOCIPlatform (platform : OCIPlatform) : bool :=
  tokenRE platform.(POS) && tokenRE platform.(PArch) && validOCIDigest platform.(PDigest) &&
  (String.eqb platform.(PMediaType) "application/vnd.oci.image.manifest.v1+json" ||
   String.eqb platform.(PMediaType) "application/vnd.docker.distribution.manifest.v2+json") &&
  (0 <? platform.(PSize)) && (platform.(PSize) <=? MaxArtifactSize).

Definition validateOCIImage (image : OCIImage) : bool :=
  validateOCIRepository image.(Repository) && validOCIDigest image.(IDigest) &&
  (String.eqb image.(IMediaType) "application/vnd.oci.image.index.v1+json" ||
   String.eqb image.(IMediaType) "application/vnd.docker.distribution.manifest.list.v2+json") &&
  (0 <? image.(ISize)) && (image.(ISize) <=? MaxManifestBytes) &&
  forallb validateOCIPlatform image.(Platforms) &&
  sortedFrom "" (map (λ p, p.(POS) ++ "/" ++ p.(PArch))%string image.(Platforms)) &&
  match image.(Platforms) with
  | [amd; arm] =>
      String.eqb amd.(POS) "linux" && String.eqb amd.(PArch) "amd64" &&
      String.eqb arm.(POS) "linux" && String.eqb arm.(PArch) "arm64"
  | _ => false
  end.

Section manifests.
Context `{Semver, Crypto}.
(** [time.Parse] on canonical timestamps, and the strict JSON decoder: [None] also for
    input that is not the canonical encoding of what it decodes to. *)
Context (parseRFC3339 : string → option Z) (decodeManifest : string → option Manifest).

Definition validateStableVersion (version : string) : bool := Stable version.

Definition validateVersionRange (r : VersionRange) : bool :=
  validateStableVersion r.(MinVersion) && validateStableVersion r.(MaxVersion) && (Compare r.(MinVersion) r.(MaxVersion) <=? 0).

Definition validateUpdaterVersionRange (r : VersionRange) : bool :=
  Valid r.(MinVersion) && Valid r.(MaxVersion) && (Compare r.(MinVersion) r.(MaxVersion) <=? 0).

Definition parseTimestamp (value : string) : option Z :=
  if negb (String.length value =? 20)%nat || negb (HasSuffix value "Z") then None else parseRFC3339 value.

Definition validateManifest (m : Manifest) : bool :=
  (m.(MSchemaVersion) =? SchemaVersion) && (String.eqb m.(Channel) "stable" || String.eqb m.(Channel) "staging") &&
  ValidForChannel m.(Version) m.(Channel) && hexCommitPattern m.(Commit) && negb (m.(Sequence) =? 0) &&
  match parseTimestamp m.(PublishedAt), parseTimestamp m.(ExpiresAt) with
  | Some published, Some expires => before published expires
  | _, _ => false
  end &&
  validateStableVersion m.(MinimumSafeVersion) && (0 <=? Compare m.(Version) m.(MinimumSafeVersion)) &&
  negb (m.(MSecurityEpoch) =? 0) &&
  validateVersionRange m.(MCompatibility).(Server) && validateUpdaterVersionRange m.(MCompatibility).(Updater) &&
  negb (m.(MCompatibility).(Protocol).(MinProtocol) =? 0) &&
  (m.(MCompatibility).(Protocol).(MinProtocol) <=? m.(MCompatibility).(Protocol).(MaxProtocol)) &&
  (1 <=? length m.(Artifacts))%nat && (length m.(Artifacts) <=? MaxArtifacts)%nat &&
  forallb validateManifestArtifact m.(Artifacts) &&
  sortedFrom "" (map (λ a, a.(MOS) ++ "/" ++ a.(MArch))%string m.(Artifacts)) &&
  (length m.(OCIImages) <=? MaxOCIImages)%nat && forallb validateOCIImage m.(OCIImages) &&
  sortedFrom "" (map Repository m.(OCIImages)) &&
  (length m.(ReleaseAssets) <=? MaxReleaseAssets)%nat && forallb validateReleaseAsset m.(ReleaseAssets) &&
  sortedFrom "" (map AName m.(ReleaseAssets)).

Definition ParseManifest (data : string) : option Manifest :=
  if (String.length data =? 0)%nat || (MaxManifestBytes <? Z.of_nat (String.length data)) then None
  else match decodeManifest data with
       | Some m => if validateManifest m then Some m else None
       | None => None
       end.

Definition ArtifactFor (m : Manifest) (goos goarch : string) : option ManifestArtifact :=
  if negb (tokenRE goos) || negb (tokenRE goarch) then None
  else List.find (λ a, String.eqb a.(MOS) goos && String.eqb a.(MArch) goarch) m.(Artifacts).

(** The manifest, its digest, and its two timestamps. *)
Definition verifyManifest (manifestJSON : string) (now : Z) (requiredChannel : string)
    : option (Manifest * string * Z * Z) :=
  if is_zero_time now then None
  else
    let requiredChannel := if String.eqb requiredChannel "" then "stable" else requiredChannel in
    if negb (String.eqb requiredChannel "stable") && negb (String.eqb requiredChannel "staging") then None
    else match ParseManifest manifestJSON with
    | None => None
    | Some m =>
        if negb (String.eqb m.(Channel) requiredChannel) then None
        else
          let publishedAt := default 0 (parseTimestamp m.(PublishedAt)) in
          let expiresAt := default 0 (parseTimestamp m.(ExpiresAt)) in
          if before (now + allowedClockSkew) publishedAt then None
          else if negb (before now expiresAt) then None
          else Some (m, hexEncode (sha256 manifestJSON), publishedAt, expiresAt)
    end.

Definition requireVersionInRange (version : string) (r : VersionRange) : bool :=
  Valid version && negb ((Compare version r.(MinVersion) <? 0) || (0 <? Compare version r.(MaxVersion))).

Definition Verify (manifestJSON : string) (policy : VerifyPolicy) : option VerifiedManifest :=
  match verifyManifest manifestJSON policy.(PolNow) policy.(RequiredChannel) with
  | None => None
  | Some (m, digest, publishedAt, expiresAt) =>
      let exactRetry := (0 <? policy.(CurrentSequence)) && (m.(Sequence) =? policy.(CurrentSequence)) &&
        String.eqb m.(Version) policy.(CurrentVersion) && String.eqb policy.(CurrentManifestSHA256) digest in
      if (m.(Sequence) <=? policy.(CurrentSequence)) && negb exactRetry then None
      else if m.(MSecurityEpoch) <? policy.(CurrentSecurityEpoch) then None
      else if negb (String.eqb policy.(CurrentMinimumSafeVersion) "") &&
              (negb (validateStableVersion policy.(CurrentMinimumSafeVersion)) ||
               (Compare m.(MinimumSafeVersion) policy.(CurrentMinimumSafeVersion) <? 0)) then None
      else if negb (Valid policy.(CurrentVersion)) then None
      else if (Compare m.(Version) policy.(CurrentVersion) <=? 0) && negb exactRetry then None
      else if negb (requireVersionInRange policy.(PolServerVersion) m.(MCompatibility).(Server)) then None
      else if negb (requireVersionInRange policy.(UpdaterVersion) m.(MCompatibility).(Updater)) then None
      else if (policy.(ProtocolVersion) <? m.(MCompatibility).(Protocol).(MinProtocol)) ||
              (m.(MCompatibility).(Protocol).(MaxProtocol) <? policy.(ProtocolVersion)) then None
      else match ArtifactFor m policy.(GOOS) policy.(GOARCH) with
           | Some artifact => Some (mkVerified m artifact digest publishedAt expiresAt)
           | None => None
           end
  end.

(** [None] for content that cannot be read. *)
Definition VerifyArtifact (content : option string) (artifact : ManifestArtifact) : bool :=
  (0 <? artifact.(MSize)) && (artifact.(MSize) <=? MaxArtifactSize) && hexDigestPattern artifact.(MSHA256) &&
  match content with
  | Some content => (Z.of_nat (String.length content) =? artifact.(MSize)) && String.eqb (hexEncode (sha256 content)) artifact.(MSHA256)
  | None => false
  end.
End manifests.

End UpdateAuth.
