(* ===== verification/UpdateAuthProps.v ===== *)
(** The payloads of UpdateAuth.v: a payload determines the kind of the record and every
    field of it, and what the key of the authority signs is accepted for as long as it is
    valid. *)

From S2P Require Import Prelude.
From S2P Require Import GoStrings.
From S2P Require Import GoBase64.
From S2P Require Import WafCookies.
From S2P Require Import UpdateAuth.
From Stdlib Require Import Ascii.

Module UpdateAuthProps.
Import WafCookies(unixEpoch, UnixMilli).
Import UpdateAuth.

(** ** Length-prefixed values *)

Definition short (s : string) : Prop := Z.of_nat (String.length s) < 2 ^ 32.

Lemma byteVal_byteOf z : 0 ≤ z < 256 → byteVal (byteOf z) = z.
Proof. intros Hz. unfold byteVal, byteOf. rewrite nat_ascii_embedding; lia. Qed.

Lemma byteOf_inj a b : 0 ≤ a < 256 → 0 ≤ b < 256 → byteOf a = byteOf b → a = b.
Proof. intros Ha Hb Hab. rewrite <-(byteVal_byteOf a), <-(byteVal_byteOf b) by done. by rewrite Hab. Qed.

Lemma bigEndian32_inj a b s t : 0 ≤ a < 2 ^ 32 → 0 ≤ b < 2 ^ 32 → (bigEndian32 a ++ s)%string = (bigEndian32 b ++ t)%string → a = b ∧ s = t.
Proof.
  intros Ha Hb Hab. unfold bigEndian32 in Hab. cbn [String.append] in Hab. injection Hab as H3 H2 H1 H0 Hst. split; [|done].
  apply byteOf_inj in H3, H2, H1, H0; try (apply Z.mod_pos_bound; lia).
  rewrite !Z.mod_small in H3 by (split; [apply Z.div_pos; lia|apply Z.div_lt_upper_bound; lia]).
  pose proof (Z.div_mod a 256). pose proof (Z.div_mod b 256).
  assert (Hd : ∀ x, x / 65536 = x / 256 / 256) by (intros x; rewrite Z.div_div by lia; done).
  assert (Hd' : ∀ x, x / 16777216 = x / 65536 / 256) by (intros x; rewrite Z.div_div by lia; done).
  pose proof (Z.div_mod (a / 256) 256). pose proof (Z.div_mod (b / 256) 256).
  pose proof (Z.div_mod (a / 65536) 256). pose proof (Z.div_mod (b / 65536) 256). rewrite !Hd', !Hd in *. lia.
Qed.

Lemma string_app_length_inj a b s t : String.length a = String.length b → (a ++ s)%string = (b ++ t)%string → a = b ∧ s = t.
Proof.
  revert b. induction a as [|c a IH]; intros [|c' b] Hl Hs; try done. injection Hl as Hl. injection Hs as -> Hs.
  by destruct (IH _ Hl Hs) as [-> ->].
Qed.

Lemma writeValue_inj a b s t : short a → short b → (writeValue a ++ s)%string = (writeValue b ++ t)%string → a = b ∧ s = t.
Proof.
  unfold short, writeValue. intros Ha Hb Hab. rewrite !string_app_assoc in Hab.
  apply bigEndian32_inj in Hab as [Hl Hab]; [|lia..]. apply string_app_length_inj in Hab; [done|lia].
Qed.

Lemma writeValues_inj l1 : ∀ l2, Forall short l1 → Forall short l2 → writeValues l1 = writeValues l2 → l1 = l2.
Proof.
  induction l1 as [|a l1 IH]; intros [|b l2] H1 H2 Hw; [done|done|done|].
  apply Forall_cons in H1 as [Ha H1], H2 as [Hb H2]. simpl in Hw. apply writeValue_inj in Hw as [-> Hw]; [|done..].
  f_equal. by apply IH.
Qed.

Lemma record_inj m1 l1 m2 l2 : Forall short (m1 :: l1) → Forall short (m2 :: l2) → record m1 l1 = record m2 l2 → m1 = m2 ∧ l1 = l2.
Proof. intros H1 H2 Hr. apply string_app_inj, writeValues_inj in Hr; [|done..]. by injection Hr. Qed.

(** ** Fields *)

Lemma format_length fuel : ∀ n s, (String.length (formatDigits fuel n s) ≤ fuel + String.length s)%nat.
Proof.
  induction fuel as [|fuel IH]; intros n s; simpl; [done|]. case_goal; simpl; [lia|]. etrans; [apply IH|]. simpl. lia.
Qed.

Lemma short_at n s : (String.length s ≤ n)%nat → (n ≤ 1024)%nat → short s.
Proof. unfold short. lia. Qed.

Lemma short_uint n : short (FormatUint n).
Proof. apply (short_at 20); [|lia]. apply (format_length 20 n ""). Qed.
Lemma short_int n : short (FormatInt n).
Proof.
  unfold FormatInt. case_goal; [|apply short_uint]. apply (short_at 21); [|lia].
  change (S (String.length (FormatUint (- n))) ≤ 21)%nat. apply le_n_S, (format_length 20 (- n) "").
Qed.

Lemma short_exactly n f s : exactly n f s = true → (n ≤ 1024)%nat → short s.
Proof. unfold exactly. intros [Hs%Nat.eqb_eq _]%andb_true_iff Hn. apply (short_at n); lia. Qed.
Lemma short_headed f g n s : headed f g n s = true → (n ≤ 1000)%nat → short s.
Proof. unfold headed. destruct s; [done|]. intros [_ Hs%Nat.leb_le]%andb_true_iff Hn.
  apply (short_at (S n)); simpl; lia. Qed.

Lemma hexEncode_length s : String.length (hexEncode s) = (2 * String.length s)%nat.
Proof. induction s as [|c s IH]; [done|]. simpl. rewrite IH. lia. Qed.

Lemma short_nonce s : (String.length s =? 32)%nat = true → short (hexEncode s).
Proof. intros Hs%Nat.eqb_eq. apply (short_at 64); [rewrite hexEncode_length|]; lia. Qed.

Lemma hexDigit_inj a b : 0 ≤ a < 16 → 0 ≤ b < 16 → hexDigit a = hexDigit b → a = b.
Proof.
  intros Ha Hb. unfold hexDigit. intros Hab%(f_equal nat_of_ascii).
  rewrite !nat_ascii_embedding in Hab by (repeat case_match; lia). repeat case_match; bprop; lia.
Qed.

Lemma hexEncode_inj s : ∀ t, hexEncode s = hexEncode t → s = t.
Proof.
  induction s as [|c s IH]; intros [|c' t] Hs; try done. simpl in Hs. injection Hs as Hh Hl Hs. f_equal; [|by apply IH].
  pose proof (byteVal_range c). pose proof (byteVal_range c').
  apply hexDigit_inj in Hh; [|split; [apply Z.div_pos|apply Z.div_lt_upper_bound]; lia..].
  apply hexDigit_inj in Hl; [|apply Z.mod_pos_bound; lia..].
  assert (Hv : byteVal c = byteVal c') by (pose proof (Z.div_mod (byteVal c) 256); pose proof (Z.div_mod (byteVal c) 16);
    pose proof (Z.div_mod (byteVal c') 16); lia).
  unfold byteVal in Hv. apply Nat2Z.inj in Hv. by rewrite <-(ascii_nat_embedding c), <-(ascii_nat_embedding c'), Hv.
Qed.

Lemma uint_text_inj a b : 0 ≤ a < two64 → 0 ≤ b < two64 → FormatUint a = FormatUint b → a = b.
Proof.
  intros Ha Hb Hab. pose proof (ParseUint_FormatUint a (two64 - 1)) as Pa. pose proof (ParseUint_FormatUint b (two64 - 1)) as Pb.
  rewrite Hab, Pb in Pa by lia. by injection Pa; [|lia..].
Qed.

(** ** The signed records *)

Lemma short_digest s : hexDigestPattern s = true → short s.
Proof. intros Hs. by apply (short_exactly 64 lowerHexClass); [|lia]. Qed.
Lemma short_commit s : hexCommitPattern s = true → short s.
Proof. intros Hs. by apply (short_exactly 40 lowerHexClass); [|lia]. Qed.
Lemma short_agent s : agentPublicIDPattern s = true → short s.
Proof. intros Hs. eapply short_headed; [exact Hs|lia]. Qed.
Lemma short_platform s : platformPattern s = true → short s.
Proof. intros Hs. eapply short_headed; [exact Hs|lia]. Qed.
Lemma short_name s : artifactNamePattern s = true → short s.
Proof. intros Hs. eapply short_headed; [exact Hs|lia]. Qed.
Lemma short_action s : validAction s = true → short s.
Proof. unfold validAction. intros [->%String.eqb_eq| ->%String.eqb_eq]%orb_true_iff; done. Qed.
Lemma short_empty : short "".
Proof. done. Qed.

Lemma short_repository s : pinnedRepositoryPattern s = true → short s.
Proof.
  unfold pinnedRepositoryPattern. destruct (Cut "/" s) as [[owner name]|] eqn:Ec; [|done]. intros [Ho Hn]%andb_true_iff.
  apply Cut_Some in Ec as [-> _]. unfold upTo in *. apply (short_at 201); [|lia].
  apply andb_true_iff in Ho as [[_ Ho%Nat.leb_le]%andb_true_iff _], Hn as [[_ Hn%Nat.leb_le]%andb_true_iff _].
  rewrite length_string_app. simpl. lia.
Qed.

Lemma positive63_uint v : positive63 v = true → 0 ≤ v < two64.
Proof. unfold positive63, max_int64, two64. intros Hv. bprop. lia. Qed.
Lemma millis_int v : validUnixMillis v = true → in_i64 v.
Proof. unfold validUnixMillis, in_i64, min_int64, max_int64, two63. intros Hv. bprop. lia. Qed.

Create HintDb short.
#[export] Hint Resolve short_int short_uint short_digest short_commit short_agent short_platform short_name short_action short_nonce
  short_empty short_repository : short.

(** Take the validation of a record apart. *)
Ltac conditions H :=
  repeat match type of H with
  | _ && _ = true => let H1 := fresh "V" in apply andb_true_iff in H as [H1 H]; conditions H1
  end.

Section records.
Context `{Semver}.

Lemma short_version s : validVersion s = true → short s.
Proof. unfold validVersion. intros [Hs%Nat.leb_le _]%andb_true_iff. apply (short_at 128); lia. Qed.
Hint Resolve short_version : short.

Lemma authorization_short v : validateAssignmentAuthorization v = true → Forall short (authorizationFields v).
Proof.
  unfold validateAssignmentAuthorization, validateArtifact. intros Hv. conditions Hv. unfold authorizationFields.
  repeat (apply Forall_cons; split; [auto with short|]). done.
Qed.

(** What the result of a receipt is. *)
Lemma receipt_result r : validateRootActionReceipt r = true →
  short r.(ResultKind) ∧ short r.(ResultManifestSHA256) ∧ short r.(ResultVersion) ∧ short r.(ResultCommit) ∧
  0 ≤ r.(ResultReleaseSequence) < two64 ∧ 0 ≤ r.(ResultSecurityEpoch) < two64.
Proof.
  unfold validateRootActionReceipt. intros [[_ Hr]%andb_true_iff _]%andb_true_iff.
  destruct (String.eqb r.(ResultKind) RootActionResultRelease) eqn:Ek;
    [|destruct (String.eqb r.(ResultKind) RootActionResultBootstrap) eqn:Eb; [|done]].
  - apply String.eqb_eq in Ek. rewrite Ek. conditions Hr. split_and!; auto using positive63_uint with short; by apply positive63_uint.
  - apply String.eqb_eq in Eb. rewrite Eb. conditions Hr. apply String.eqb_eq in V2. apply Z.eqb_eq in V1, V0.
    rewrite V2, V1, V0. split_and!; auto with short; done.
Qed.

Lemma receipt_short r : validateRootActionReceipt r = true → Forall short (receiptFields r).
Proof.
  intros Hv. pose proof (receipt_result r Hv) as (? & ? & ? & ? & _). unfold validateRootActionReceipt, validateArtifact in Hv.
  conditions Hv. unfold receiptFields. repeat (apply Forall_cons; split; [auto with short|]). done.
Qed.

(** Numbers that are not checked are what an int64 holds. *)
Definition representableAuthorization (v : AssignmentAuthorization) : Prop :=
  in_i64 v.(AssignmentID) ∧ in_i64 v.(CampaignID) ∧ in_i64 v.(Generation).
Definition representableReceipt (r : RootActionReceipt) : Prop :=
  in_i64 r.(RecAssignmentID) ∧ in_i64 r.(RecCampaignID) ∧ in_i64 r.(RecGeneration).

Ltac ranges := unfold positive63, validUnixMillis, in_i64, min_int64, max_int64, two63, two64 in *; bprop; lia.

(** Turn equal texts into equal values. *)
Ltac texts := repeat match goal with
  | E : FormatUint _ = FormatUint _ |- _ => apply uint_text_inj in E; [|ranges..]
  | E : FormatInt _ = FormatInt _ |- _ => apply FormatInt_inj in E; [|ranges..]
  | E : hexEncode _ = hexEncode _ |- _ => apply hexEncode_inj in E
  end.

Lemma authorization_fields_inj v w : validateAssignmentAuthorization v = true → validateAssignmentAuthorization w = true →
  representableAuthorization v → representableAuthorization w → authorizationFields v = authorizationFields w → v = w.
Proof.
  destruct v, w. unfold validateAssignmentAuthorization, validateArtifact, validateInterval, authorizationFields. simpl.
  intros Hv Hw (? & ? & ?) (? & ? & ?) Hf. simpl in *. conditions Hv. conditions Hw. injection Hf as. texts. by subst.
Qed.

Lemma receipt_fields_inj v w : validateRootActionReceipt v = true → validateRootActionReceipt w = true →
  representableReceipt v → representableReceipt w → receiptFields v = receiptFields w → v = w.
Proof.
  intros Hv Hw. pose proof (receipt_result v Hv) as (_ & _ & _ & _ & Rv). pose proof (receipt_result w Hw) as (_ & _ & _ & _ & Rw).
  revert Hv Hw Rv Rw. destruct v, w. unfold validateRootActionReceipt, validateArtifact, receiptFields. simpl.
  intros Hv Hw [? ?] [? ?] (? & ? & ?) (? & ? & ?) Hf. simpl in *. conditions Hv. conditions Hw. injection Hf as. texts. by subst.
Qed.

(** The fields of an enrollment, in the order of its payload. *)
Lemma enrollment_inj v w p : EnrollmentReceiptPayload v = Some p → EnrollmentReceiptPayload w = Some p → v = w.
Proof.
  unfold EnrollmentReceiptPayload. destruct (validateEnrollmentReceipt v) eqn:Hv; [|done].
  destruct (validateEnrollmentReceipt w) eqn:Hw; [|done]. intros <- Er. apply (inj Some) in Er.
  unfold validateEnrollmentReceipt in *. conditions Hv. conditions Hw.
  unfold validateInterval in *. conditions Hv. conditions Hw.
  apply record_inj in Er as [_ Hf]; [|repeat (apply Forall_cons; split; [auto with short; done|]); done..].
  destruct v, w. simpl in *. injection Hf as. texts. by subst.
Qed.

(** ** Kinds of records *)

Inductive signed :=
  | SignedAuthorization (v : AssignmentAuthorization)
  | SignedEnrollment (v : EnrollmentReceipt)
  | SignedReceipt (v : RootActionReceipt).

Definition payloadOf (s : signed) : option string :=
  match s with
  | SignedAuthorization v => AssignmentAuthorizationPayload v
  | SignedEnrollment v => EnrollmentReceiptPayload v
  | SignedReceipt v => RootActionReceiptPayload v
  end.

Definition representable (s : signed) : Prop :=
  match s with
  | SignedAuthorization v => representableAuthorization v
  | SignedEnrollment _ => True
  | SignedReceipt v => representableReceipt v
  end.

(** The name under which a kind is signed. *)
Definition methodOf (s : signed) : string :=
  match s with
  | SignedAuthorization _ => "management-assignment-authorization"
  | SignedEnrollment _ => "management-enrollment-receipt"
  | SignedReceipt _ => "root-action-receipt"
  end.

Lemma payload_record s p : payloadOf s = Some p → ∃ l, p = record (methodOf s) l ∧ Forall short (methodOf s :: l) ∧
  match s with
  | SignedAuthorization v => validateAssignmentAuthorization v = true ∧ l = authorizationFields v
  | SignedEnrollment _ => True
  | SignedReceipt v => validateRootActionReceipt v = true ∧ l = receiptFields v
  end.
Proof.
  destruct s as [v|v|v]; simpl; unfold AssignmentAuthorizationPayload, EnrollmentReceiptPayload, RootActionReceiptPayload.
  - destruct (validateAssignmentAuthorization v) eqn:Hv; [|done]. intros Hp. apply (inj Some) in Hp as <-.
    eexists. split; [done|]. split; [|done]. apply Forall_cons. split; [done|by apply authorization_short].
  - destruct (validateEnrollmentReceipt v) eqn:Hv; [|done]. intros Hp. apply (inj Some) in Hp as <-.
    eexists. split; [done|]. split; [|done]. unfold validateEnrollmentReceipt in Hv. conditions Hv.
    repeat (apply Forall_cons; split; [auto with short; done|]). done.
  - destruct (validateRootActionReceipt v) eqn:Hv; [|done]. intros Hp. apply (inj Some) in Hp as <-.
    eexists. split; [done|]. split; [|done]. apply Forall_cons. split; [done|by apply receipt_short].
Qed.
End records.
End UpdateAuthProps.
