(* ===== verification/Updater.v ===== *)
(** The root activator of agent updates (internal/updater: activate.go, rollback.go,
    attestation.go, assignment_auth.go, slot_retention.go, failure.go, runtime.go and the
    loading of floors in stage.go): activation, rollback, their journals and recovery, the
    receipts, the retention of slots, and the choice of what to run.

    The state is the directory tree only root writes ([root]); a file holds the value it
    decodes to.  A program runs against a list of answers, one for each operation on the
    disk, the service manager or the clock: whether the operation succeeds, fails, or takes
    effect and then fails, what the service manager says, what time it is, and what the
    staging directory holds, which belongs to the unprivileged worker and may change at
    any moment.  A list that ends is a crash.  Writing a file and switching the link are
    atomic, as a rename is.  One activator runs at a time, since it is a oneshot unit and
    holds the lock. *)

From S2P Require Import Prelude.
From S2P Require Import GoStrings.
From S2P Require Import GoBase64.
From S2P Require Import WafCookies.
From S2P Require Import UpdateAuth.
From Stdlib Require Import Ascii.

Module Updater.
Import WafCookies(unixEpoch, UnixMilli).
Import UpdateAuth.

(** ** Patterns and versions *)

Definition validReleaseVersion `{Semver} (version : string) : bool := Valid version.
Definition commitPattern : string → bool := hexCommitPattern.
Definition digestPattern : string → bool := hexDigestPattern.
Definition bootstrapVersionPattern (s : string) : bool :=
  HasPrefix s "bootstrap-" && exactly 16 lowerHexClass (TrimPrefix s "bootstrap-").

(** The pattern admits no slash, so [filepath.Base] is the identity on what it accepts. *)
Definition assetPattern (s : string) : bool :=
  HasPrefix s "p2pstream_" &&
  existsb (λ suffix, let rest := TrimPrefix s "p2pstream_" in
             HasSuffix rest suffix &&
             (let middle := TrimSuffix rest suffix in negb (String.eqb middle "") && allOf (λ c, alnumClass c || oneOf ".-" c) middle))
    ["_linux_amd64"; "_linux_arm64"].

Definition hexClass (c : ascii) : bool := digitClass c || between "a" "f" c || between "A" "F" c.
(** [hex.DecodeString] accepts sixteen hexadecimal digits of either case. *)
Definition isBootstrapVersion (version : string) : bool :=
  (String.length version =? 26)%nat && HasPrefix version "bootstrap-" && allOf hexClass (TrimPrefix version "bootstrap-").

(** What is clean, relative, ends in p2pstream and has a valid version between is exactly
    slots/<version>/p2pstream, since a version has no slash. *)
Definition validSlotTarget `{Semver} (target : string) : bool :=
  match Split "/" target with
  | [dir; version; file] =>
      String.eqb dir "slots" && String.eqb file "p2pstream" && (validReleaseVersion version || isBootstrapVersion version)
  | _ => false
  end.

Definition slotTarget (version : string) : string := ("slots/" ++ version ++ "/p2pstream")%string.
(** The version of a target, the name of its directory under slots. *)
Definition slotName (target : string) : string := default "" (Split "/" target !! 1%nat).

(** ** Data *)

(** [SHA256] is the array of 32 bytes. *)
Record Artifact := mkArtifact { Name : string; Size : Z; SHA256 : string }.
Definition artifactHex (a : Artifact) : string := hexEncode a.(SHA256).

Record VerifiedRelease := mkRelease {
  RelVersion : string;
  RelCommit : string;
  RelManifestSHA256 : string;
  RelSequence : Z;
  RelSecurityEpoch : Z;
  RelMinimumSafeVersion : string;
  RelArtifact : Artifact }.

Record UpdatePolicy := mkPolicy {
  UNow : Z;
  UCurrentSequence : Z;
  UCurrentSecurityEpoch : Z;
  UCurrentMinimumSafeVersion : string;
  UCurrentVersion : string;
  UCurrentManifestSHA256 : string;
  UServerVersion : string;
  UUpdaterVersion : string;
  UProtocolVersion : Z;
  URequiredChannel : string }.

Record Floor := mkFloor {
  FSequence : Z;
  FSecurityEpoch : Z;
  FMinimumSafeVersion : string;
  FVersion : string;
  FManifestSHA256 : string }.

Record Result := mkResult { ResVersion : string; ResSequence : Z; ResSecurityEpoch : Z; Changed : bool }.

Record HostConfig := mkHost { HostAgentPublicID : string; HostChannel : string }.
Record pinnedManagementAuthority := mkPinned { PinnedKeyID : string; PinnedEpoch : Z; PinnedPublicKey : string }.

Record assignmentAuthorizationRecord := mkAuthorizationRecord {
  Authorization : AssignmentAuthorization;
  CanonicalPayload : string;
  Signature : string }.

Record rootActionReceiptRecord := mkReceiptRecord {
  Receipt : RootActionReceipt;
  ReceiptPayload : string;
  ReceiptSignature : string }.

Record slotMetadata := mkSlot {
  Target : string;
  SlotKind : string;
  SlotManifestSHA256 : string;
  SlotVersion : string;
  SlotCommit : string;
  BuildVersion : string;
  BuildCommit : string;
  SlotSequence : Z;
  SlotSecurityEpoch : Z;
  SlotOS : string;
  SlotArch : string;
  SlotArtifactName : string;
  SlotArtifactSize : Z;
  SlotArtifactSHA256 : string }.

#[global] Instance slotMetadata_eq : EqDecision slotMetadata.
Proof. solve_decision. Defined.

Record completedActivation := mkCompleted {
  DoneAuthorization : assignmentAuthorizationRecord;
  DoneReceipt : rootActionReceiptRecord;
  DonePreviousSlot : slotMetadata;
  ActivatedSlot : slotMetadata }.

Record rollbackRequest := mkRollbackRequest { RequestAuthorization : assignmentAuthorizationRecord }.
Record rollbackRecord := mkRollbackRecord {
  RolledAuthorization : assignmentAuthorizationRecord;
  RolledReceipt : rootActionReceiptRecord }.

Definition journalPrepared := "prepared".
Definition journalSwitched := "switched".
Definition journalHealthy := "healthy".
Definition rollbackPrepared := "prepared".
Definition rollbackSwitched := "switched".
Definition rollbackCompleted := "completed".

Record activationJournal := mkJournal {
  Phase : string;
  PreviousTarget : string;
  CandidateTarget : string;
  JVersion : string;
  JSequence : Z;
  JSecurityEpoch : Z;
  JMinimumSafeVersion : string;
  JAuthorization : assignmentAuthorizationRecord;
  JAuthorizationSHA : string;
  JPreviousSlot : slotMetadata;
  JReceipt : option rootActionReceiptRecord }.

Definition withPhase (j : activationJournal) (phase : string) (receipt : option rootActionReceiptRecord) : activationJournal :=
  mkJournal phase j.(PreviousTarget) j.(CandidateTarget) j.(JVersion) j.(JSequence) j.(JSecurityEpoch) j.(JMinimumSafeVersion)
    j.(JAuthorization) j.(JAuthorizationSHA) j.(JPreviousSlot) receipt.

Record rollbackJournal := mkRollbackJournal {
  RPhase : string;
  RAuthorization : assignmentAuthorizationRecord;
  RAuthorizationSHA : string;
  FromSlot : slotMetadata;
  ToSlot : slotMetadata;
  RReceipt : option rootActionReceiptRecord }.

Definition withRollbackPhase (j : rollbackJournal) (phase : string) (receipt : option rootActionReceiptRecord) : rollbackJournal :=
  mkRollbackJournal phase j.(RAuthorization) j.(RAuthorizationSHA) j.(FromSlot) j.(ToSlot) receipt.

Record rootCommandFloor := mkCommandFloor { FloorSequence : Z; FloorAuthorizationSHA256 : string }.

Record readyRecord := mkReady {
  ReadyAuthorization : assignmentAuthorizationRecord;
  ReadyAgentPublicID : string;
  ReadyAssignmentID : Z;
  ReadyGeneration : Z;
  ReadyNonce : string;
  ReadyVersion : string;
  ReadyCommit : string;
  ReadyManifestSHA : string;
  ReadySequence : Z;
  ReadySecurityEpoch : Z;
  ReadyArtifactName : string;
  ReadyArtifactSize : Z;
  ReadyArtifactSHA : string;
  ReadyServerVersion : string }.

Record stagedRecord := mkStaged {
  StagedVersion : string;
  StagedCommit : string;
  StagedManifestSHA : string;
  StagedSequence : Z;
  StagedSecurityEpoch : Z;
  StagedArtifactName : string;
  StagedArtifactSize : Z;
  StagedArtifactSHA : string;
  StagedServerVersion : string }.

#[global] Instance stagedRecord_eq : EqDecision stagedRecord.
Proof. solve_decision. Defined.

Record failureRecord := mkFailure { FailAssignmentID : Z; FailGeneration : Z; FailCode : string }.

(** ** Disk and effects *)

(** [Irregular] is no protected regular file, [Damaged] does not decode. *)
Inductive file (A : Type) := Absent | Irregular | Damaged | Holds (a : A).
Arguments Absent {A}.
Arguments Irregular {A}.
Arguments Damaged {A}.
Arguments Holds {A} a.

(** [readRegularNoFollow] and [strictJSON]: the inner [None] is a file that does not exist. *)
Definition loadFile {A} (f : file A) : option (option A) :=
  match f with Absent => Some None | Holds a => Some (Some a) | Irregular | Damaged => None end.
(** [regularPathExists] *)
Definition fileExists {A} (f : file A) : option bool :=
  match f with Absent => Some false | Irregular => None | Damaged | Holds _ => Some true end.

(** A slot is its executable, [None] once that is removed. *)
Record root := mkRoot {
  current : option string;
  slots : gmap string (option string);
  commandFloor : file rootCommandFloor;
  counter : file Z;
  floor : file Floor;
  currentSlot : file slotMetadata;
  previousSlot : file slotMetadata;
  lastActivation : file completedActivation;
  lastRollback : file rollbackRecord;
  journal : file activationJournal;
  rollbackJournalFile : file rollbackJournal;
  activationClaim : file readyRecord;
  rollbackClaim : file rollbackRequest }.

Definition setCurrent t d := mkRoot t d.(slots) d.(commandFloor) d.(counter) d.(floor) d.(currentSlot) d.(previousSlot) d.(lastActivation) d.(lastRollback) d.(journal) d.(rollbackJournalFile) d.(activationClaim) d.(rollbackClaim).
Definition setSlots s d := mkRoot d.(current) s d.(commandFloor) d.(counter) d.(floor) d.(currentSlot) d.(previousSlot) d.(lastActivation) d.(lastRollback) d.(journal) d.(rollbackJournalFile) d.(activationClaim) d.(rollbackClaim).
Definition setCommandFloor f d := mkRoot d.(current) d.(slots) f d.(counter) d.(floor) d.(currentSlot) d.(previousSlot) d.(lastActivation) d.(lastRollback) d.(journal) d.(rollbackJournalFile) d.(activationClaim) d.(rollbackClaim).
Definition setCounter c d := mkRoot d.(current) d.(slots) d.(commandFloor) c d.(floor) d.(currentSlot) d.(previousSlot) d.(lastActivation) d.(lastRollback) d.(journal) d.(rollbackJournalFile) d.(activationClaim) d.(rollbackClaim).
Definition setFloor f d := mkRoot d.(current) d.(slots) d.(commandFloor) d.(counter) f d.(currentSlot) d.(previousSlot) d.(lastActivation) d.(lastRollback) d.(journal) d.(rollbackJournalFile) d.(activationClaim) d.(rollbackClaim).
Definition setCurrentSlot s d := mkRoot d.(current) d.(slots) d.(commandFloor) d.(counter) d.(floor) s d.(previousSlot) d.(lastActivation) d.(lastRollback) d.(journal) d.(rollbackJournalFile) d.(activationClaim) d.(rollbackClaim).
Definition setPreviousSlot s d := mkRoot d.(current) d.(slots) d.(commandFloor) d.(counter) d.(floor) d.(currentSlot) s d.(lastActivation) d.(lastRollback) d.(journal) d.(rollbackJournalFile) d.(activationClaim) d.(rollbackClaim).
Definition setLastActivation l d := mkRoot d.(current) d.(slots) d.(commandFloor) d.(counter) d.(floor) d.(currentSlot) d.(previousSlot) l d.(lastRollback) d.(journal) d.(rollbackJournalFile) d.(activationClaim) d.(rollbackClaim).
Definition setLastRollback l d := mkRoot d.(current) d.(slots) d.(commandFloor) d.(counter) d.(floor) d.(currentSlot) d.(previousSlot) d.(lastActivation) l d.(journal) d.(rollbackJournalFile) d.(activationClaim) d.(rollbackClaim).
Definition setJournal j d := mkRoot d.(current) d.(slots) d.(commandFloor) d.(counter) d.(floor) d.(currentSlot) d.(previousSlot) d.(lastActivation) d.(lastRollback) j d.(rollbackJournalFile) d.(activationClaim) d.(rollbackClaim).
Definition setRollbackJournal j d := mkRoot d.(current) d.(slots) d.(commandFloor) d.(counter) d.(floor) d.(currentSlot) d.(previousSlot) d.(lastActivation) d.(lastRollback) d.(journal) j d.(activationClaim) d.(rollbackClaim).
Definition setActivationClaim c d := mkRoot d.(current) d.(slots) d.(commandFloor) d.(counter) d.(floor) d.(currentSlot) d.(previousSlot) d.(lastActivation) d.(lastRollback) d.(journal) d.(rollbackJournalFile) c d.(rollbackClaim).
Definition setRollbackClaim c d := mkRoot d.(current) d.(slots) d.(commandFloor) d.(counter) d.(floor) d.(currentSlot) d.(previousSlot) d.(lastActivation) d.(lastRollback) d.(journal) d.(rollbackJournalFile) d.(activationClaim) c.

Inductive dirState := DirAbsent | DirError | DirOpen.
(** The worker's lock file, and whether it can be locked. *)
Inductive lockState := LockAbsent | LockError | LockBusy | LockTaken.

(** What the staging directory holds at one moment.  Of the manifest and the artifact,
    [None] is a file that is missing or refused. *)
Record staging := mkStaging {
  stagingDir : dirState;
  candidateDir : dirState;
  workerLock : lockState;
  readyFile : file readyRecord;
  rollbackFile : file rollbackRequest;
  stagedFile : file stagedRecord;
  receiptFile : file rootActionReceiptRecord;
  rollbackResultFile : file rollbackRecord;
  manifestFile : option string;
  artifactFile : option string }.

Inductive io := Fine | Fails | FailsAfter.
Record answer := mkAnswer { outcome : io; healthy : bool; clock : Z; view : staging }.

Inductive res (A : Type) := Ok (a : A) | Err | Crash.
Arguments Ok {A} a.
Arguments Err {A}.
Arguments Crash {A}.

Definition M (A : Type) : Type := root * list answer → res A * (root * list answer).

#[global] Instance M_ret : MRet M := λ A a w, (Ok a, w).
#[global] Instance M_bind : MBind M := λ A B f m w,
  match m w with
  | (Ok a, w) => f a w
  | (Err, w) => (Err, w)
  | (Crash, w) => (Crash, w)
  end.
Definition fail {A} : M A := λ w, (Err, w).
Definition attempt {A} (m : M A) : M (option A) := λ w,
  match m w with
  | (Ok a, w) => (Ok (Some a), w)
  | (Err, w) => (Ok None, w)
  | (Crash, w) => (Crash, w)
  end.
Definition guard_ (b : bool) : M unit := if b then mret () else fail.
Definition given {A} (o : option A) : M A := match o with Some a => mret a | None => fail end.

(** An operation that only looks. *)
Definition observe {A} (f : answer → root → option A) : M A := λ w,
  match w with
  | (d, []) => (Crash, (d, []))
  | (d, a :: l) =>
      match a.(outcome), f a d with
      | Fine, Some x => (Ok x, (d, l))
      | _, _ => (Err, (d, l))
      end
  end.

(** An operation that changes the disk; [None] is an error that leaves it. *)
Definition perform (f : answer → root → option root) : M unit := λ w,
  match w with
  | (d, []) => (Crash, (d, []))
  | (d, a :: l) =>
      match a.(outcome), f a d with
      | Fine, Some d' => (Ok (), (d', l))
      | FailsAfter, Some d' => (Err, (d', l))
      | _, _ => (Err, (d, l))
      end
  end.

Definition timeNow : M Z := λ w,
  match w with (d, []) => (Crash, (d, [])) | (d, a :: l) => (Ok a.(clock), (d, l)) end.

Definition touch : M unit := observe (λ _ _, Some ()).
Definition read {A} (f : root → file A) : M (option A) := observe (λ _ d, loadFile (f d)).
Definition exists_ {A} (f : root → file A) : M bool := observe (λ _ d, fileExists (f d)).
Definition readStaging {A} (f : staging → file A) : M (option A) := observe (λ a _, loadFile (f a.(view))).
Definition existsStaging {A} (f : staging → file A) : M bool := observe (λ a _, fileExists (f a.(view))).
(** A write to the staging directory, which is not part of the state. *)
Definition writeStaging : M unit := touch.
Definition write (f : root → root) : M unit := perform (λ _ d, Some (f d)).
Definition required {A} (m : M (option A)) : M A := o ← m; given o.

(** ** What the host is configured with *)

(** [hostConfig], [authority] and the key files are root-owned and not written here;
    [None] is a file that does not load.  [order] is the order in which a directory lists
    its entries. *)
Class Host := {
  hostConfig : option HostConfig;
  authority : option pinnedManagementAuthority;
  activatorKeyText : option string;
  activatorPublicKeyText : option string;
  goos : string;
  goarch : string;
  buildVersion : string;
  protocolVersion : Z;
  order : gmap string (option string) → list string }.

(** The interface through which releases are verified. *)
Class Verifier := {
  VerifyRelease : string → UpdatePolicy → option VerifiedRelease;
  VerifyContent : option string → Artifact → bool }.

(** What the activator relies on: no release below the floors. *)
Class VerifierLaws `(Verifier) : Prop := {
  verify_floor manifest policy release : VerifyRelease manifest policy = Some release →
    policy.(UCurrentSequence) ≤ release.(RelSequence) ∧ policy.(UCurrentSecurityEpoch) ≤ release.(RelSecurityEpoch) }.

Section updater.
Context `{Semver, Crypto, Host, Verifier}.

Definition runtimeArtifactName (version : string) : string :=
  ("p2pstream_" ++ version ++ "_" ++ goos ++ "_" ++ goarch)%string.

Definition defaultMaxArtifact : Z := 536870912.

Definition validateReleaseArtifact (a : Artifact) : bool :=
  assetPattern a.(Name) && (0 <? a.(Size)) && (a.(Size) <=? defaultMaxArtifact) &&
  negb (String.eqb a.(SHA256) (String.string_of_list_ascii (replicate 32 "000"%char))).

Definition validateRelease (release : VerifiedRelease) : bool :=
  validReleaseVersion release.(RelVersion) && commitPattern release.(RelCommit) && digestPattern release.(RelManifestSHA256) &&
  validateReleaseArtifact release.(RelArtifact) &&
  String.eqb release.(RelArtifact).(Name) (runtimeArtifactName release.(RelVersion)).

Definition authorizationMatchesRelease (a : AssignmentAuthorization) (release : VerifiedRelease) (serverVersion : string) : bool :=
  String.eqb a.(ServerVersion) serverVersion && String.eqb a.(ManifestSHA256) release.(RelManifestSHA256) &&
  String.eqb a.(TargetVersion) release.(RelVersion) && String.eqb a.(TargetCommit) release.(RelCommit) &&
  (a.(ReleaseSequence) =? release.(RelSequence)) && (a.(SecurityEpoch) =? release.(RelSecurityEpoch)) &&
  String.eqb a.(OS) goos && String.eqb a.(Arch) goarch && String.eqb a.(ArtifactName) release.(RelArtifact).(Name) &&
  (a.(ArtifactSize) =? release.(RelArtifact).(Size)) && String.eqb a.(ArtifactSHA256) (artifactHex release.(RelArtifact)).

(** ** Floors *)

Definition emptyFloor : Floor := mkFloor 0 0 "" "" "".

Definition floorValid (f : Floor) : bool :=
  (String.eqb f.(FVersion) "" || validReleaseVersion f.(FVersion)) &&
  (String.eqb f.(FMinimumSafeVersion) "" || validReleaseVersion f.(FMinimumSafeVersion)) &&
  negb ((negb (f.(FSequence) =? 0) || negb (f.(FSecurityEpoch) =? 0)) && String.eqb f.(FManifestSHA256) "") &&
  (String.eqb f.(FManifestSHA256) "" ||
   negb (negb (digestPattern f.(FManifestSHA256)) || (f.(FSequence) =? 0) || (f.(FSecurityEpoch) =? 0) || String.eqb f.(FVersion) "")).

Definition loadFloor : M Floor :=
  f ← read floor;
  match f with
  | None => mret emptyFloor
  | Some f => guard_ (floorValid f);; mret f
  end.

(** The ownership of the state directory is checked before the file is written. *)
Definition persistFloor (f : Floor) : M unit := touch;; write (setFloor (Holds f)).

Definition applyFloor (policy : UpdatePolicy) (f : Floor) : UpdatePolicy :=
  mkPolicy policy.(UNow)
    (if policy.(UCurrentSequence) <? f.(FSequence) then f.(FSequence) else policy.(UCurrentSequence))
    (if policy.(UCurrentSecurityEpoch) <? f.(FSecurityEpoch) then f.(FSecurityEpoch) else policy.(UCurrentSecurityEpoch))
    (if String.eqb f.(FMinimumSafeVersion) "" then policy.(UCurrentMinimumSafeVersion) else f.(FMinimumSafeVersion))
    (if String.eqb f.(FVersion) "" then policy.(UCurrentVersion) else f.(FVersion))
    f.(FManifestSHA256) policy.(UServerVersion) policy.(UUpdaterVersion) policy.(UProtocolVersion) policy.(URequiredChannel).

(** ** Management authorizations *)

Definition sameAssignmentAuthorizationRecord (left right : assignmentAuthorizationRecord) : bool :=
  String.eqb left.(CanonicalPayload) right.(CanonicalPayload) && String.eqb left.(Signature) right.(Signature).

Definition loadRootCommandFloor : M rootCommandFloor :=
  f ← read commandFloor;
  match f with
  | None => mret (mkCommandFloor 0 "")
  | Some f => guard_ (negb (f.(FloorSequence) =? 0) && digestPattern f.(FloorAuthorizationSHA256));; mret f
  end.

Definition authorityConsistent (pinned : pinnedManagementAuthority) : option string :=
  match ParsePublicKey pinned.(PinnedPublicKey) with
  | Some publicKey =>
      if bool_decide (KeyID publicKey = Some pinned.(PinnedKeyID)) && negb (pinned.(PinnedEpoch) =? 0) then Some publicKey else None
  | None => None
  end.

Definition loadManagementAuthority : M (pinnedManagementAuthority * string) :=
  observe (λ _ _, pinned ← authority; publicKey ← authorityConsistent pinned; Some (pinned, publicKey)).

Definition LoadHostConfig : M HostConfig := observe (λ _ _, hostConfig).

(** The check itself, once the pinned authority and the configuration are loaded. *)
Definition authorizationAccepted (pinned : pinnedManagementAuthority) (publicKey : string) (config : HostConfig)
    (record : assignmentAuthorizationRecord) (expectedAction : string) (now lastSequence : Z) : bool :=
  bool_decide (AssignmentAuthorizationPayload record.(Authorization) = Some record.(CanonicalPayload)) &&
  VerifyAssignmentAuthorization publicKey record.(Authorization) record.(Signature)
    (mkAuthorizationPolicy now config.(HostAgentPublicID) expectedAction pinned.(PinnedEpoch) lastSequence) &&
  String.eqb record.(Authorization).(AuthorityKeyID) pinned.(PinnedKeyID).

Definition verifyAssignmentAuthorizationRecord (record : assignmentAuthorizationRecord) (expectedAction : string)
    (now lastSequence : Z) : M unit :=
  guard_ (bool_decide (AssignmentAuthorizationPayload record.(Authorization) = Some record.(CanonicalPayload)));;
  '(pinned, publicKey) ← loadManagementAuthority;
  config ← LoadHostConfig;
  guard_ (authorizationAccepted pinned publicKey config record expectedAction now lastSequence).

(** [hex.EncodeToString] of the digest of an authorization. *)
Definition digestText (a : AssignmentAuthorization) : option string := hexEncode <$> AssignmentAuthorizationDigest a.

Definition consumeAssignmentAuthorization (record : assignmentAuthorizationRecord) (expectedAction : string) (now : Z) : M string :=
  f ← loadRootCommandFloor;
  verifyAssignmentAuthorizationRecord record expectedAction now f.(FloorSequence);;
  sha ← given (digestText record.(Authorization));
  write (setCommandFloor (Holds (mkCommandFloor record.(Authorization).(CommandSequence) sha)));;
  mret sha.

Definition issuedAt (a : AssignmentAuthorization) : Z := unixEpoch + a.(IssuedAtUnixMillis) * millisecond.

Definition ensureAuthorizationConsumed (authorization : assignmentAuthorizationRecord) (action expectedSHA : string) : M unit :=
  f ← loadRootCommandFloor;
  let a := authorization.(Authorization) in
  if f.(FloorSequence) =? a.(CommandSequence) then
    guard_ (String.eqb f.(FloorAuthorizationSHA256) expectedSHA);;
    verifyAssignmentAuthorizationRecord authorization action (issuedAt a) 0
  else if a.(CommandSequence) <? f.(FloorSequence) then fail
  else
    now ← timeNow;
    actual ← consumeAssignmentAuthorization authorization action now;
    guard_ (String.eqb actual expectedSHA).

(** ** Slot metadata *)

Definition validateSlotMetadata (slot : slotMetadata) : bool :=
  validSlotTarget slot.(Target) && negb (String.eqb slot.(SlotOS) "") && negb (String.eqb slot.(SlotArch) "") &&
  negb (String.eqb slot.(SlotArtifactName) "") && (0 <? slot.(SlotArtifactSize)) && digestPattern slot.(SlotArtifactSHA256) &&
  (if String.eqb slot.(SlotKind) RootActionResultRelease then
     validReleaseVersion slot.(SlotVersion) && commitPattern slot.(SlotCommit) && digestPattern slot.(SlotManifestSHA256) &&
     String.eqb slot.(BuildVersion) slot.(SlotVersion) && String.eqb slot.(BuildCommit) slot.(SlotCommit) &&
     negb (slot.(SlotSequence) =? 0) && negb (slot.(SlotSecurityEpoch) =? 0)
   else if String.eqb slot.(SlotKind) RootActionResultBootstrap then
     bootstrapVersionPattern slot.(SlotVersion) && String.eqb slot.(SlotManifestSHA256) "" && (slot.(SlotSequence) =? 0) &&
     (slot.(SlotSecurityEpoch) =? 0) && String.eqb slot.(SlotCommit) "" && validReleaseVersion slot.(BuildVersion) &&
     commitPattern slot.(BuildCommit)
   else false).

Definition releaseSlotMetadata (release : VerifiedRelease) : slotMetadata :=
  mkSlot (slotTarget release.(RelVersion)) RootActionResultRelease release.(RelManifestSHA256) release.(RelVersion)
    release.(RelCommit) release.(RelVersion) release.(RelCommit) release.(RelSequence) release.(RelSecurityEpoch)
    goos goarch release.(RelArtifact).(Name) release.(RelArtifact).(Size) (artifactHex release.(RelArtifact)).

Definition receiptResultMatchesSlot (receipt : RootActionReceipt) (slot : slotMetadata) : bool :=
  String.eqb receipt.(ResultKind) slot.(SlotKind) && String.eqb receipt.(ResultManifestSHA256) slot.(SlotManifestSHA256) &&
  String.eqb receipt.(ResultVersion) slot.(BuildVersion) && String.eqb receipt.(ResultCommit) slot.(BuildCommit) &&
  (receipt.(ResultReleaseSequence) =? slot.(SlotSequence)) && (receipt.(ResultSecurityEpoch) =? slot.(SlotSecurityEpoch)) &&
  String.eqb receipt.(ResultOS) slot.(SlotOS) && String.eqb receipt.(ResultArch) slot.(SlotArch) &&
  String.eqb receipt.(ResultArtifactName) slot.(SlotArtifactName) && (receipt.(ResultArtifactSize) =? slot.(SlotArtifactSize)) &&
  String.eqb receipt.(ResultArtifactSHA256) slot.(SlotArtifactSHA256).

Definition authorizationMatchesSlotExactly (a : AssignmentAuthorization) (slot : slotMetadata) : bool :=
  String.eqb a.(ManifestSHA256) slot.(SlotManifestSHA256) && String.eqb a.(TargetVersion) slot.(SlotVersion) &&
  String.eqb a.(TargetCommit) slot.(SlotCommit) && (a.(ReleaseSequence) =? slot.(SlotSequence)) &&
  (a.(SecurityEpoch) =? slot.(SlotSecurityEpoch)) && String.eqb a.(OS) slot.(SlotOS) && String.eqb a.(Arch) slot.(SlotArch) &&
  String.eqb a.(ArtifactName) slot.(SlotArtifactName) && (a.(ArtifactSize) =? slot.(SlotArtifactSize)) &&
  String.eqb a.(ArtifactSHA256) slot.(SlotArtifactSHA256).

(** ** Receipts *)

Definition loadRootActionCounter : M Z := c ← read counter; mret (default 0 c).

(** The trailing newline of the key file is cut off. *)
Definition loadActivatorPrivateKey : M string :=
  observe (λ _ _, text ← activatorKeyText; ParsePrivateKey (TrimSuffix text (String "010" ""))).

Definition receiptPolicy (a : AssignmentAuthorization) (sha : string) (previous now : Z) : RootActionReceiptVerifyPolicy :=
  mkReceiptPolicy now a.(AgentPublicID) a.(Action) sha a.(AuthorityKeyID) a.(AuthorityEpoch) previous.

Definition verifyRootActionReceiptRecord (record : rootActionReceiptRecord) (authorization : assignmentAuthorizationRecord)
    (previous now : Z) : M unit :=
  guard_ (bool_decide (RootActionReceiptPayload record.(Receipt) = Some record.(ReceiptPayload)));;
  sha ← given (digestText authorization.(Authorization));
  let r := record.(Receipt) in
  let a := authorization.(Authorization) in
  guard_ ((r.(RecAssignmentID) =? a.(AssignmentID)) && (r.(RecCampaignID) =? a.(CampaignID)) &&
          (r.(RecGeneration) =? a.(Generation)) && (r.(RecCommandSequence) =? a.(CommandSequence)) &&
          String.eqb r.(AuthorizationNonce) a.(Nonce));;
  private ← loadActivatorPrivateKey;
  guard_ (VerifyRootActionReceipt (ed25519Public private) r record.(ReceiptSignature) (receiptPolicy a sha previous now)).

Definition createRootActionReceipt (authorization : assignmentAuthorizationRecord) (authorizationSHA : string)
    (result : slotMetadata) : M rootActionReceiptRecord :=
  guard_ (validateSlotMetadata result);;
  sha ← given (digestText authorization.(Authorization));
  guard_ (String.eqb authorizationSHA sha);;
  previous ← loadRootActionCounter;
  guard_ (negb (previous =? two64 - 1));;
  private ← loadActivatorPrivateKey;
  activatorKeyID ← given (KeyID (ed25519Public private));
  completed ← timeNow;
  let a := authorization.(Authorization) in
  let receipt := mkReceipt a.(AgentPublicID) a.(AssignmentID) a.(CampaignID) a.(Generation) a.(Action) a.(CommandSequence)
    authorizationSHA a.(Nonce) a.(AuthorityKeyID) a.(AuthorityEpoch) activatorKeyID (previous + 1) (UnixMilli completed)
    result.(SlotKind) result.(SlotManifestSHA256) result.(BuildVersion) result.(BuildCommit) result.(SlotSequence)
    result.(SlotSecurityEpoch) result.(SlotOS) result.(SlotArch) result.(SlotArtifactName) result.(SlotArtifactSize)
    result.(SlotArtifactSHA256) in
  payload ← given (RootActionReceiptPayload receipt);
  signature ← given (SignRootActionReceipt private receipt);
  let record := mkReceiptRecord receipt payload signature in
  now ← timeNow;
  verifyRootActionReceiptRecord record authorization previous now;;
  mret record.

(** ** The current slot *)

Definition currentTarget : M string :=
  observe (λ _ d, target ← d.(current); if validSlotTarget target then Some target else None).

Definition switchCurrent (target : string) : M unit :=
  guard_ (validSlotTarget target);; write (setCurrent (Some target)).

Definition loadCurrentSlotMetadata (target : string) : M slotMetadata :=
  slot ← required (read currentSlot);
  guard_ (validateSlotMetadata slot);;
  guard_ (String.eqb slot.(Target) target);;
  mret slot.

Definition restartAndCheck : M unit :=
  observe (λ a _, if a.(healthy) then Some () else None);;
  observe (λ a _, if a.(healthy) then Some () else None).

Definition removeJournal : M unit := write (setJournal Absent).
Definition removeRollbackJournal : M unit := write (setRollbackJournal Absent).

Definition writeJournal (j : activationJournal) : M unit :=
  guard_ (validSlotTarget j.(PreviousTarget) && validSlotTarget j.(CandidateTarget));;
  write (setJournal (Holds j)).

Definition validateRollbackJournal (j : rollbackJournal) : bool :=
  (String.eqb j.(RPhase) rollbackPrepared || String.eqb j.(RPhase) rollbackSwitched || String.eqb j.(RPhase) rollbackCompleted) &&
  digestPattern j.(RAuthorizationSHA) && validateSlotMetadata j.(FromSlot) && validateSlotMetadata j.(ToSlot) &&
  negb (String.eqb j.(RPhase) rollbackCompleted && bool_decide (j.(RReceipt) = None)).

Definition writeRollbackJournal (j : rollbackJournal) : M unit :=
  guard_ (validateRollbackJournal j);; write (setRollbackJournal (Holds j)).

(** ** Retention of slots *)

(** The names that are kept: [None] is an error. *)
Definition retainSlotTarget (retained : gset string) (target : string) : option (gset string) :=
  if validSlotTarget target then Some ({[slotName target]} ∪ retained) else None.

Definition retainSlotMetadata (retained : gset string) (slot : slotMetadata) : option (gset string) :=
  if validateSlotMetadata slot then retainSlotTarget retained slot.(Target) else None.

Definition retainOptionalSlotMetadata (retained : gset string) : M (gset string) :=
  slot ← read previousSlot;
  match slot with None => mret retained | Some slot => given (retainSlotMetadata retained slot) end.

Definition retainOptionalActivationJournal (retained : gset string) : M (gset string) :=
  j ← read journal;
  match j with
  | None => mret retained
  | Some j =>
      guard_ (String.eqb j.(Phase) journalPrepared || String.eqb j.(Phase) journalSwitched || String.eqb j.(Phase) journalHealthy);;
      retained ← given (retainSlotTarget retained j.(PreviousTarget));
      retained ← given (retainSlotTarget retained j.(CandidateTarget));
      given (retainSlotMetadata retained j.(JPreviousSlot))
  end.

Definition retainOptionalRollbackJournal (retained : gset string) : M (gset string) :=
  j ← read rollbackJournalFile;
  match j with
  | None => mret retained
  | Some j =>
      guard_ (validateRollbackJournal j);;
      retained ← given (retainSlotMetadata retained j.(FromSlot));
      given (retainSlotMetadata retained j.(ToSlot))
  end.

Definition retainOptionalCompletedActivation (retained : gset string) : M (gset string) :=
  s ← read lastActivation;
  match s with
  | None => mret retained
  | Some s =>
      retained ← given (retainSlotMetadata retained s.(DonePreviousSlot));
      given (retainSlotMetadata retained s.(ActivatedSlot))
  end.

Definition retainReceiptResult (retained : gset string) (receipt : RootActionReceipt) : option (gset string) :=
  if String.eqb receipt.(ResultKind) RootActionResultRelease then retainSlotTarget retained (slotTarget receipt.(ResultVersion))
  else if String.eqb receipt.(ResultKind) RootActionResultBootstrap then
    if digestPattern receipt.(ResultArtifactSHA256)
    then retainSlotTarget retained (slotTarget ("bootstrap-" ++ String.substring 0 16 receipt.(ResultArtifactSHA256)))
    else None
  else None.

(** [parsePublicKeyText] cuts the trailing newline off. *)
Definition verifyRootActionReceiptForWorker (record : rootActionReceiptRecord) (agentPublicID action : string) : M unit :=
  guard_ (bool_decide (RootActionReceiptPayload record.(Receipt) = Some record.(ReceiptPayload)));;
  publicKey ← observe (λ _ _, text ← activatorPublicKeyText; ParsePublicKey (TrimSuffix text (String "010" "")));
  keyID ← given (KeyID publicKey);
  guard_ (String.eqb record.(Receipt).(RecAgentPublicID) agentPublicID && String.eqb record.(Receipt).(RecAction) action &&
          String.eqb record.(Receipt).(ActivatorKeyID) keyID && (String.length record.(ReceiptSignature) =? 64)%nat &&
          ed25519Verify publicKey record.(ReceiptPayload) record.(ReceiptSignature)).

(** What cannot be read or verified is left out. *)
Definition retainOptionalStagingReceipt (retained : gset string) : M (gset string) :=
  r ← attempt (record ← required (readStaging receiptFile);
               verifyRootActionReceiptForWorker record record.(Receipt).(RecAgentPublicID) record.(Receipt).(RecAction);;
               given (retainReceiptResult retained record.(Receipt)));
  mret (default retained r).

Definition retainOptionalRollbackResult (retained : gset string) : M (gset string) :=
  r ← attempt (result ← required (readStaging rollbackResultFile);
               verifyRootActionReceiptForWorker result.(RolledReceipt) result.(RolledReceipt).(Receipt).(RecAgentPublicID) AssignmentActionRollback;;
               given (retainReceiptResult retained result.(RolledReceipt).(Receipt)));
  mret (default retained r).

Definition retainedSlotNames : M (gset string) :=
  current ← currentTarget;
  retained ← given (retainSlotTarget ∅ current);
  retained ← retainOptionalSlotMetadata retained;
  retained ← retainOptionalActivationJournal retained;
  retained ← retainOptionalRollbackJournal retained;
  retained ← retainOptionalCompletedActivation retained;
  retained ← retainOptionalStagingReceipt retained;
  retainOptionalRollbackResult retained.

(** The executable is removed first, then the directory. *)
Definition securelyRemoveSlot (name : string) : M unit :=
  guard_ (validReleaseVersion name || isBootstrapVersion name);;
  content ← observe (λ _ d, d.(slots) !! name);
  (match content with
   | Some binary =>
       observe (λ _ _, if (String.length binary =? 0)%nat then None else Some ());;
       write (λ d, setSlots (<[name := None]> d.(slots)) d)
   | None => mret ()
   end);;
  write (λ d, setSlots (delete name d.(slots)) d).

(** [removed]: a slot was. *)
Fixpoint removeSlots (retained : gset string) (names : list string) (removed : bool) : M bool :=
  match names with
  | [] => mret removed
  | name :: names =>
      if negb (validReleaseVersion name || isBootstrapVersion name) || bool_decide (name ∈ retained)
      then removeSlots retained names removed
      else securelyRemoveSlot name;; removeSlots retained names true
  end.

Definition pruneObsoleteSlots : M unit :=
  retained ← retainedSlotNames;
  names ← observe (λ _ d, Some (order d.(slots)));
  removed ← removeSlots retained names false;
  if removed : bool then touch else mret ().

(** ** Clearing what a command left in staging *)

(** The staging directory when it is already open, and the candidate directory within. *)
Record stagedDirectories := mkDirs { pinned : bool; candidate : bool }.

Definition openStagingDirectory : M (option stagedDirectories) :=
  observe (λ a _, match a.(view).(stagingDir) with
                  | DirAbsent => Some None
                  | DirError => None
                  | DirOpen => Some (Some (mkDirs true false))
                  end).

(** [false] when the candidate directory does not exist. *)
Definition openCandidate (dirs : stagedDirectories) : M bool :=
  if dirs.(candidate) then mret true
  else observe (λ a _, match a.(view).(candidateDir) with
                       | DirAbsent => Some false
                       | DirError => None
                       | DirOpen => Some true
                       end).

Definition readReady (claimed : bool) : M (option readyRecord) :=
  if claimed then read activationClaim else readStaging readyFile.
Definition removeReady (claimed : bool) : M unit :=
  if claimed then write (setActivationClaim Absent) else writeStaging.

(** [clearStaged] is only called for the ready record in staging. *)
Definition clearStaged (dirs : stagedDirectories) : M unit :=
  open ← openCandidate dirs;
  writeStaging;;
  writeStaging;;
  (if open : bool then writeStaging;; writeStaging else mret ()).

(** A file that does not decode belongs to nobody. *)
Definition readOwned {A} (f : answer → root → file A) : M (option (option A)) :=
  observe (λ a d, match f a d with
                  | Absent => Some None
                  | Irregular => None
                  | Damaged => Some (Some None)
                  | Holds x => Some (Some (Some x))
                  end).

Definition readReadyOwned (claimed : bool) : M (option (option readyRecord)) :=
  readOwned (λ a d, if claimed then d.(activationClaim) else a.(view).(readyFile)).

Definition belongsTo (expected : assignmentAuthorizationRecord) (ready : option readyRecord) : bool :=
  match ready with
  | Some ready => sameAssignmentAuthorizationRecord ready.(ReadyAuthorization) expected
  | None => false
  end.

Definition removeOldClaim (claimed : bool) (expected : assignmentAuthorizationRecord) : M unit :=
  if negb claimed then mret ()
  else
    ready ← readReadyOwned true;
    match ready with
    | None => mret ()
    | Some ready => if belongsTo expected ready then removeReady true else mret ()
    end.

Definition stagedFor (a : AssignmentAuthorization) : stagedRecord :=
  mkStaged a.(TargetVersion) a.(TargetCommit) a.(ManifestSHA256) a.(ReleaseSequence) a.(SecurityEpoch) a.(ArtifactName)
    a.(ArtifactSize) a.(ArtifactSHA256) a.(ServerVersion).

(** Once the staged record is known to belong to the command. *)
Definition clearMatchingStaged (claimed : bool) (expected : assignmentAuthorizationRecord) (dirs : stagedDirectories) : M unit :=
  staged ← readOwned (λ a _, a.(view).(stagedFile));
  match staged with
  | None => removeReady claimed
  | Some staged =>
      if bool_decide (staged = Some (stagedFor expected.(Authorization))) then
        clearStaged dirs;;
        (if claimed then removeReady true else mret ())
      else removeReady claimed
  end.

Definition clearStagedIfMatchingAuthorization (claimed : bool) (expected : assignmentAuthorizationRecord)
    (dirs : option stagedDirectories) : M unit :=
  lock ← observe (λ a _, match a.(view).(workerLock) with LockError => None | l => Some l end);
  match lock with
  | LockAbsent | LockBusy | LockError => removeOldClaim claimed expected
  | LockTaken =>
      dirs ← match dirs with Some dirs => mret (Some dirs) | None => openStagingDirectory end;
      match dirs with
      | None => removeOldClaim claimed expected
      | Some dirs =>
          ready ← readReadyOwned claimed;
          match ready with
          | None => mret ()
          | Some ready =>
              if negb (belongsTo expected ready) then mret ()
              else if negb claimed then clearMatchingStaged claimed expected dirs
              else
                live ← readReadyOwned false;
                match live with
                | None => removeReady true
                | Some live =>
                    if belongsTo expected live then clearMatchingStaged claimed expected dirs else removeReady true
                end
          end
      end
  end.

(** ** Activation *)

(** The slot a healthy journal activated. *)
Definition activatedSlot (j : activationJournal) (r : RootActionReceipt) (digest : string) : slotMetadata :=
  let m := releaseSlotMetadata (mkRelease j.(JVersion) r.(ResultCommit) r.(ResultManifestSHA256) j.(JSequence) j.(JSecurityEpoch) ""
             (mkArtifact r.(ResultArtifactName) r.(ResultArtifactSize) digest)) in
  mkSlot j.(CandidateTarget) m.(SlotKind) m.(SlotManifestSHA256) m.(SlotVersion) m.(SlotCommit) m.(BuildVersion) m.(BuildCommit)
    m.(SlotSequence) m.(SlotSecurityEpoch) m.(SlotOS) m.(SlotArch) m.(SlotArtifactName) m.(SlotArtifactSize) m.(SlotArtifactSHA256).

Definition hexValue (c : ascii) : option Z :=
  if digitClass c then Some (byteVal c - 48)
  else if between "a" "f" c then Some (byteVal c - 87)
  else if between "A" "F" c then Some (byteVal c - 55) else None.

(** [hex.DecodeString] *)
Fixpoint hexDecode (s : string) : option string :=
  match s with
  | EmptyString => Some ""
  | String a (String b s) =>
      match hexValue a, hexValue b, hexDecode s with
      | Some a, Some b, Some s => Some (String (byteOf (a * 16 + b)) s)
      | _, _, _ => None
      end
  | String _ EmptyString => None
  end.

Definition parseArtifactDigest (value : string) : option string :=
  match hexDecode value with
  | Some decoded => if (String.length decoded =? 32)%nat then Some decoded else None
  | None => None
  end.

Definition persistHealthyActivation (j : activationJournal) (claimed : bool) (dirs : option stagedDirectories) : M unit :=
  record ← given j.(JReceipt);
  let r := record.(Receipt) in
  previousCounter ← loadRootActionCounter;
  let previousCounter := if previousCounter =? r.(RootActionCounter) then u64 (previousCounter - 1) else previousCounter in
  guard_ (negb ((r.(RootActionCounter) =? 0) || negb (r.(RootActionCounter) =? u64 (previousCounter + 1))));;
  now ← timeNow;
  verifyRootActionReceiptRecord record j.(JAuthorization) previousCounter now;;
  digest ← given (parseArtifactDigest r.(ResultArtifactSHA256));
  let activated := activatedSlot j r digest in
  write (setLastActivation (Holds (mkCompleted j.(JAuthorization) record j.(JPreviousSlot) activated)));;
  writeStaging;;
  write (setCounter (Holds r.(RootActionCounter)));;
  persistFloor (mkFloor j.(JSequence) j.(JSecurityEpoch) j.(JMinimumSafeVersion) j.(JVersion) r.(ResultManifestSHA256));;
  write (setPreviousSlot (Holds j.(JPreviousSlot)));;
  write (setCurrentSlot (Holds activated));;
  clearStagedIfMatchingAuthorization claimed j.(JAuthorization) dirs;;
  removeJournal;;
  pruneObsoleteSlots.

(** Back to the previous slot. *)
Definition rollback (j : activationJournal) : M unit :=
  switchCurrent j.(PreviousTarget);;
  restartAndCheck;;
  write (setCurrentSlot (Holds j.(JPreviousSlot)));;
  removeJournal.

Definition recoverActivation (claimed : bool) : M unit :=
  j ← read journal;
  match j with
  | None => mret ()
  | Some j =>
      guard_ (validSlotTarget j.(PreviousTarget) && validSlotTarget j.(CandidateTarget) && validReleaseVersion j.(JVersion));;
      if String.eqb j.(Phase) journalHealthy then persistHealthyActivation j claimed None
      else if String.eqb j.(Phase) journalPrepared || String.eqb j.(Phase) journalSwitched then rollback j
      else fail
  end.

(** What the staged artifact holds when it is copied must be the artifact itself. *)
Definition copyArtifact (a : Artifact) : M string :=
  observe (λ ans _, content ← ans.(view).(artifactFile);
    if (Z.of_nat (String.length content) =? a.(Size)) && String.eqb (sha256 content) a.(SHA256) then Some content else None).

(** The existing executable has the digest and the size of the artifact. *)
Definition validateExistingSlot (version : string) (a : Artifact) : M unit :=
  observe (λ _ d, match d.(slots) !! version with
    | Some (Some content) =>
        if (Z.of_nat (String.length content) =? a.(Size)) && String.eqb (hexEncode (sha256 content)) (artifactHex a)
        then Some () else None
    | _ => None
    end).

(** The slot is filled in a temporary directory and published by a rename; nobody else
    creates slots in between. *)
Definition installSlot (release : VerifiedRelease) : M unit :=
  let version := release.(RelVersion) in
  let a := release.(RelArtifact) in
  touch;;
  exists_ ← observe (λ _ d, Some (bool_decide (is_Some (d.(slots) !! version))));
  if exists_ : bool then validateExistingSlot version a
  else
    touch;;
    content ← copyArtifact a;
    touch;;
    write (λ d, setSlots (<[version := Some content]> d.(slots)) d).

Definition previousSlotForReactivation (currentMeta : slotMetadata) : M slotMetadata :=
  activation ← required (read lastActivation);
  c ← loadRootActionCounter;
  let r := activation.(DoneReceipt).(Receipt) in
  guard_ (negb ((c =? 0) || negb (r.(RootActionCounter) =? c) || negb (bool_decide (activation.(ActivatedSlot) = currentMeta)) ||
                negb (String.eqb r.(RecAction) AssignmentActionActivate) || negb (receiptResultMatchesSlot r currentMeta) ||
                String.eqb activation.(DonePreviousSlot).(Target) currentMeta.(Target)));;
  now ← timeNow;
  verifyRootActionReceiptRecord activation.(DoneReceipt) activation.(DoneAuthorization) (u64 (c - 1)) now;;
  guard_ (validateSlotMetadata activation.(DonePreviousSlot));;
  mret activation.(DonePreviousSlot).

Definition readyContext (ready : readyRecord) : bool :=
  let a := ready.(ReadyAuthorization).(Authorization) in
  String.eqb ready.(ReadyAgentPublicID) a.(AgentPublicID) && (ready.(ReadyAssignmentID) =? a.(AssignmentID)) &&
  (ready.(ReadyGeneration) =? a.(Generation)) && String.eqb ready.(ReadyNonce) (stdEncodeToString a.(Nonce)).

Definition readyMatchesRelease (ready : readyRecord) (release : VerifiedRelease) : bool :=
  String.eqb ready.(ReadyVersion) release.(RelVersion) && String.eqb ready.(ReadyCommit) release.(RelCommit) &&
  String.eqb ready.(ReadyManifestSHA) release.(RelManifestSHA256) && (ready.(ReadySequence) =? release.(RelSequence)) &&
  (ready.(ReadySecurityEpoch) =? release.(RelSecurityEpoch)) && String.eqb ready.(ReadyArtifactName) release.(RelArtifact).(Name) &&
  (ready.(ReadyArtifactSize) =? release.(RelArtifact).(Size)) && String.eqb ready.(ReadyArtifactSHA) (artifactHex release.(RelArtifact)).

Definition readyMatchesAuthorization (ready : readyRecord) : bool :=
  let a := ready.(ReadyAuthorization).(Authorization) in
  readyContext ready && String.eqb ready.(ReadyServerVersion) a.(ServerVersion) && String.eqb ready.(ReadyVersion) a.(TargetVersion) &&
  String.eqb ready.(ReadyCommit) a.(TargetCommit) && String.eqb ready.(ReadyManifestSHA) a.(ManifestSHA256) &&
  (ready.(ReadySequence) =? a.(ReleaseSequence)) && (ready.(ReadySecurityEpoch) =? a.(SecurityEpoch)) &&
  String.eqb ready.(ReadyArtifactName) a.(ArtifactName) && (ready.(ReadyArtifactSize) =? a.(ArtifactSize)) &&
  String.eqb ready.(ReadyArtifactSHA) a.(ArtifactSHA256).

(** A command that was already carried out is acknowledged, not repeated. *)
Definition replayCompletedActivation (ready : readyRecord) (f : rootCommandFloor) (claimed : bool) (dirs : option stagedDirectories) : M Result :=
  let a := ready.(ReadyAuthorization).(Authorization) in
  guard_ (bool_decide (digestText a = Some f.(FloorAuthorizationSHA256)));;
  activation ← required (read lastActivation);
  guard_ (sameAssignmentAuthorizationRecord activation.(DoneAuthorization) ready.(ReadyAuthorization) && readyMatchesAuthorization ready);;
  c ← loadRootActionCounter;
  let r := activation.(DoneReceipt).(Receipt) in
  guard_ (negb ((c =? 0) || negb (r.(RootActionCounter) =? c) || negb (String.eqb r.(RecAction) AssignmentActionActivate)));;
  verifyAssignmentAuthorizationRecord ready.(ReadyAuthorization) AssignmentActionActivate (issuedAt a) 0;;
  now ← timeNow;
  verifyRootActionReceiptRecord activation.(DoneReceipt) ready.(ReadyAuthorization) (u64 (c - 1)) now;;
  current ← currentTarget;
  slot ← loadCurrentSlotMetadata current;
  guard_ (bool_decide (slot = activation.(ActivatedSlot)) && receiptResultMatchesSlot r slot);;
  writeStaging;;
  clearStagedIfMatchingAuthorization claimed ready.(ReadyAuthorization) dirs;;
  mret (mkResult r.(ResultVersion) r.(ResultReleaseSequence) r.(ResultSecurityEpoch) false).

Definition noChange : M Result :=
  f ← loadFloor; mret (mkResult f.(FVersion) f.(FSequence) f.(FSecurityEpoch) false).

(** Everything that is checked before the journal is opened: the release and the slot to
    come back to. *)
Definition verifyReady (ready : readyRecord) (policy : UpdatePolicy) : M VerifiedRelease :=
  manifest ← required (observe (λ a _, Some a.(view).(manifestFile)));
  release ← given (VerifyRelease manifest policy);
  guard_ (validateRelease release);;
  guard_ (readyMatchesRelease ready release);;
  guard_ (readyContext ready);;
  guard_ (authorizationMatchesRelease ready.(ReadyAuthorization).(Authorization) release ready.(ReadyServerVersion));;
  now ← timeNow;
  verifyAssignmentAuthorizationRecord ready.(ReadyAuthorization) AssignmentActionActivate now 0;;
  touch;;
  observe (λ a _, if VerifyContent a.(view).(artifactFile) release.(RelArtifact) then Some () else None);;
  mret release.

Definition recoverySlot (candidate : string) : M (string * slotMetadata) :=
  previous ← currentTarget;
  previousSlot ← loadCurrentSlotMetadata previous;
  if String.eqb previous candidate then
    previousSlot ← previousSlotForReactivation previousSlot;
    mret (previousSlot.(Target), previousSlot)
  else mret (previous, previousSlot).

Definition withServerVersion (policy : UpdatePolicy) (serverVersion : string) : UpdatePolicy :=
  mkPolicy policy.(UNow) policy.(UCurrentSequence) policy.(UCurrentSecurityEpoch) policy.(UCurrentMinimumSafeVersion)
    policy.(UCurrentVersion) policy.(UCurrentManifestSHA256) serverVersion policy.(UUpdaterVersion) policy.(UProtocolVersion)
    policy.(URequiredChannel).

(** From the open journal to the switched link. *)
Definition switchToCandidate (ready : readyRecord) (release : VerifiedRelease) (j : activationJournal) : M unit :=
  now ← timeNow;
  consumed ← attempt (consumeAssignmentAuthorization ready.(ReadyAuthorization) AssignmentActionActivate now);
  match consumed with
  | None => attempt removeJournal;; fail
  | Some consumedSHA =>
      guard_ (String.eqb consumedSHA j.(JAuthorizationSHA));;
      installSlot release;;
      switchCurrent j.(CandidateTarget);;
      written ← attempt (writeJournal (withPhase j journalSwitched None));
      match written with
      | Some _ => mret ()
      | None => attempt (switchCurrent j.(PreviousTarget));; fail
      end
  end.

(** From the switched link to the end. *)
Definition completeActivation (ready : readyRecord) (release : VerifiedRelease) (j : activationJournal) (claimed : bool)
    (dirs : stagedDirectories) : M Result :=
  healthy ← attempt restartAndCheck;
  match healthy with
  | None => attempt (rollback (withPhase j journalSwitched None));; fail
  | Some _ =>
      receipt ← createRootActionReceipt ready.(ReadyAuthorization) j.(JAuthorizationSHA) (releaseSlotMetadata release);
      let j := withPhase j journalHealthy (Some receipt) in
      writeJournal j;;
      persistHealthyActivation j claimed (Some dirs);;
      mret (mkResult release.(RelVersion) release.(RelSequence) release.(RelSecurityEpoch) true)
  end.

Definition activateReady (ready : readyRecord) (policy : UpdatePolicy) (claimed : bool) (dirs : stagedDirectories) : M Result :=
  opened ← openCandidate dirs;
  guard_ opened;;
  release ← verifyReady ready policy;
  let target := slotTarget release.(RelVersion) in
  '(previous, previousSlot) ← recoverySlot target;
  authorizationSHA ← given (digestText ready.(ReadyAuthorization).(Authorization));
  let j := mkJournal journalPrepared previous target release.(RelVersion) release.(RelSequence)
    release.(RelSecurityEpoch) release.(RelMinimumSafeVersion) ready.(ReadyAuthorization) authorizationSHA previousSlot None in
  writeJournal j;;
  switchToCandidate ready release j;;
  completeActivation ready release j claimed (mkDirs true true).

(** After recovery: [claimed] is the production path, whose command was claimed before. *)
Definition activateCommand (policy : UpdatePolicy) (claimed : bool) : M Result :=
  opened ← (if claimed then exists_ ← observe (λ _ d, Some (negb (match d.(activationClaim) with Absent => true | _ => false end)));
                          mret (if exists_ : bool then Some None else None)
            else dirs ← openStagingDirectory;
                 mret (match dirs with Some dirs => Some (Some dirs) | None => None end));
  match opened with
  | None => noChange
  | Some dirs =>
      f ← loadFloor;
      let policy := applyFloor policy f in
      ready ← readReady claimed;
      match ready with
      | None => noChange
      | Some ready =>
          guard_ (validReleaseVersion ready.(ReadyServerVersion));;
          command ← loadRootCommandFloor;
          let sequence := ready.(ReadyAuthorization).(Authorization).(CommandSequence) in
          if sequence <=? command.(FloorSequence) then
            guard_ (sequence =? command.(FloorSequence));;
            replayCompletedActivation ready command claimed dirs
          else
            dirs ← match dirs with Some dirs => mret dirs | None => required openStagingDirectory end;
            activateReady ready (withServerVersion policy ready.(ReadyServerVersion)) claimed dirs
      end
  end.

(** [policy.Now] is the time at the start unless given. *)
Definition Activate (policy : UpdatePolicy) (claimed : bool) : M Result :=
  now ← timeNow;
  let policy := if is_zero_time policy.(UNow)
    then mkPolicy now policy.(UCurrentSequence) policy.(UCurrentSecurityEpoch) policy.(UCurrentMinimumSafeVersion)
           policy.(UCurrentVersion) policy.(UCurrentManifestSHA256) policy.(UServerVersion) policy.(UUpdaterVersion)
           policy.(UProtocolVersion) policy.(URequiredChannel)
    else policy in
  touch;;
  touch;;
  recoverActivation claimed;;
  activateCommand policy claimed.

(** ** Rollback *)

Definition RequestRollback (authorization : assignmentAuthorizationRecord) : M rollbackRequest :=
  now ← timeNow;
  verifyAssignmentAuthorizationRecord authorization AssignmentActionRollback now 0;;
  writeStaging;;
  mret (mkRollbackRequest authorization).

Definition removeMatchingRollbackRequest (claimed : bool) (expected : assignmentAuthorizationRecord) : M unit :=
  request ← readOwned (λ a d, if claimed then d.(rollbackClaim) else a.(view).(rollbackFile));
  match request with
  | Some (Some request) =>
      if sameAssignmentAuthorizationRecord request.(RequestAuthorization) expected
      then (if claimed then write (setRollbackClaim Absent) else writeStaging) else mret ()
  | _ => mret ()
  end.

Definition superseded (ready : readyRecord) (rollbackAuthorization : assignmentAuthorizationRecord) : bool :=
  let old := ready.(ReadyAuthorization).(Authorization) in
  let current := rollbackAuthorization.(Authorization) in
  String.eqb old.(AgentPublicID) current.(AgentPublicID) && (old.(CommandSequence) <? current.(CommandSequence)).

(** [dirs] is the open staging directory, [None] for the claim. *)
Definition clearSupersededActivationPath (rollbackAuthorization : assignmentAuthorizationRecord) (dirs : option stagedDirectories) : M unit :=
  ready ← readReadyOwned (bool_decide (dirs = None));
  match ready with
  | Some (Some ready) =>
      if negb (superseded ready rollbackAuthorization) then mret ()
      else match dirs with
           | Some dirs => clearStagedIfMatchingAuthorization false ready.(ReadyAuthorization) (Some dirs)
           | None => removeReady true
           end
  | _ => mret ()
  end.

Definition clearSupersededActivationForRollback (rollbackAuthorization : assignmentAuthorizationRecord) : M unit :=
  clearSupersededActivationPath rollbackAuthorization None;;
  dirs ← openStagingDirectory;
  match dirs with
  | None => mret ()
  | Some dirs => clearSupersededActivationPath rollbackAuthorization (Some dirs)
  end.

Definition persistRollbackResult (result : rollbackRecord) (currentMeta : slotMetadata) (previousCounter : Z) : M unit :=
  let r := result.(RolledReceipt).(Receipt) in
  guard_ (negb (negb (r.(RootActionCounter) =? u64 (previousCounter + 1)) || (r.(RootActionCounter) =? 0)));;
  now ← timeNow;
  verifyRootActionReceiptRecord result.(RolledReceipt) result.(RolledAuthorization) previousCounter now;;
  write (setCounter (Holds r.(RootActionCounter)));;
  write (setCurrentSlot (Holds currentMeta));;
  write (setLastRollback (Holds result));;
  writeStaging.

(** From a completed journal to its removal. *)
Definition finishRollback (j : rollbackJournal) (claimed : bool) : M unit :=
  record ← given (if String.eqb j.(RPhase) rollbackCompleted then j.(RReceipt) else None);
  currentCounter ← loadRootActionCounter;
  let previousCounter := if currentCounter =? record.(Receipt).(RootActionCounter) then u64 (currentCounter - 1) else currentCounter in
  persistRollbackResult (mkRollbackRecord j.(RAuthorization) record) j.(ToSlot) previousCounter;;
  clearSupersededActivationForRollback j.(RAuthorization);;
  removeMatchingRollbackRequest claimed j.(RAuthorization);;
  removeRollbackJournal;;
  pruneObsoleteSlots.

(** The switched phase: a slot that is not healthy is left again. *)
Definition settleRollback (j : rollbackJournal) : M rollbackJournal :=
  current ← currentTarget;
  (if String.eqb current j.(ToSlot).(Target) then mret ()
   else guard_ (String.eqb current j.(FromSlot).(Target));; switchCurrent j.(ToSlot).(Target));;
  ok ← attempt restartAndCheck;
  match ok with
  | None =>
      switchCurrent j.(FromSlot).(Target);;
      restartAndCheck;;
      removeRollbackJournal;;
      fail
  | Some _ =>
      receipt ← createRootActionReceipt j.(RAuthorization) j.(RAuthorizationSHA) j.(ToSlot);
      let j := withRollbackPhase j rollbackCompleted (Some receipt) in
      writeRollbackJournal j;;
      mret j
  end.

Definition switchRollback (j : rollbackJournal) : M rollbackJournal :=
  current ← currentTarget;
  guard_ (String.eqb current j.(FromSlot).(Target) || String.eqb current j.(ToSlot).(Target));;
  (if String.eqb current j.(ToSlot).(Target) then mret () else switchCurrent j.(ToSlot).(Target));;
  let j := withRollbackPhase j rollbackSwitched j.(RReceipt) in
  writeRollbackJournal j;;
  mret j.

Definition continueRollback (j : rollbackJournal) (claimed : bool) : M unit :=
  ensureAuthorizationConsumed j.(RAuthorization) AssignmentActionRollback j.(RAuthorizationSHA);;
  j ← (if String.eqb j.(RPhase) rollbackPrepared then switchRollback j else mret j);
  j ← (if String.eqb j.(RPhase) rollbackSwitched then settleRollback j else mret j);
  finishRollback j claimed.

Definition recoverRollback (claimed : bool) : M unit :=
  j ← required (read rollbackJournalFile);
  guard_ (validateRollbackJournal j);;
  continueRollback j claimed.

(** The slot the current activation replaced, when it is what the command names. *)
Definition rollbackSlot (a : AssignmentAuthorization) (currentMeta : slotMetadata) (rootCounter : Z) : M slotMetadata :=
  if authorizationMatchesSlotExactly a currentMeta then
    guard_ (negb (rootCounter =? 0));;
    activation ← required (read lastActivation);
    now ← timeNow;
    verifyRootActionReceiptRecord activation.(DoneReceipt) activation.(DoneAuthorization) (u64 (rootCounter - 1)) now;;
    guard_ (String.eqb activation.(DoneReceipt).(Receipt).(RecAction) AssignmentActionActivate &&
            (activation.(DoneReceipt).(Receipt).(RootActionCounter) =? rootCounter) &&
            bool_decide (activation.(ActivatedSlot) = currentMeta));;
    previous ← required (read previousSlot);
    guard_ (validateSlotMetadata previous);;
    mret previous
  else mret currentMeta.

(** [Stat] of the executable of a slot. *)
Definition slotAvailable (target : string) : M unit :=
  observe (λ _ d, match d.(slots) !! slotName target with Some (Some _) => Some () | _ => None end).

Definition replayCompletedRollback (authorization : assignmentAuthorizationRecord) (f : rootCommandFloor) (claimed : bool) : M unit :=
  let a := authorization.(Authorization) in
  guard_ (bool_decide (digestText a = Some f.(FloorAuthorizationSHA256)));;
  result ← required (read lastRollback);
  guard_ (sameAssignmentAuthorizationRecord result.(RolledAuthorization) authorization);;
  verifyAssignmentAuthorizationRecord authorization AssignmentActionRollback (issuedAt a) 0;;
  c ← loadRootActionCounter;
  guard_ (negb ((c =? 0) || negb (result.(RolledReceipt).(Receipt).(RootActionCounter) =? c)));;
  now ← timeNow;
  verifyRootActionReceiptRecord result.(RolledReceipt) authorization (u64 (c - 1)) now;;
  current ← currentTarget;
  slot ← loadCurrentSlotMetadata current;
  guard_ (receiptResultMatchesSlot result.(RolledReceipt).(Receipt) slot);;
  write (setLastRollback (Holds result));;
  writeStaging;;
  clearSupersededActivationForRollback authorization;;
  removeMatchingRollbackRequest claimed authorization.

Definition startRollback (authorization : assignmentAuthorizationRecord) (claimed : bool) : M unit :=
  now ← timeNow;
  verifyAssignmentAuthorizationRecord authorization AssignmentActionRollback now 0;;
  rootCounter ← loadRootActionCounter;
  current ← currentTarget;
  currentMeta ← loadCurrentSlotMetadata current;
  previous ← rollbackSlot authorization.(Authorization) currentMeta rootCounter;
  slotAvailable previous.(Target);;
  sha ← given (digestText authorization.(Authorization));
  let j := mkRollbackJournal rollbackPrepared authorization sha currentMeta previous None in
  writeRollbackJournal j;;
  continueRollback j claimed.

Definition rollbackFromPath (claimed : bool) : M unit :=
  touch;;
  recovering ← observe (λ _ d, Some (negb (match d.(rollbackJournalFile) with Absent => true | _ => false end)));
  if recovering : bool then recoverRollback claimed
  else
    request ← required (if claimed then read rollbackClaim else readStaging rollbackFile);
    command ← loadRootCommandFloor;
    let sequence := request.(RequestAuthorization).(Authorization).(CommandSequence) in
    if sequence <=? command.(FloorSequence) then
      guard_ (sequence =? command.(FloorSequence));;
      replayCompletedRollback request.(RequestAuthorization) command claimed
    else startRollback request.(RequestAuthorization) claimed.

(** ** Failures and the choice of what to run *)

(** The failed command: its assignment, for the report of the worker, when it can be read. *)
Definition failureOf (activate : bool) : M failureRecord :=
  if activate then
    ready ← attempt (required (read activationClaim));
    mret (match ready with
          | Some r => mkFailure r.(ReadyAssignmentID) r.(ReadyGeneration) "activation_failed"
          | None => mkFailure 0 0 "activation_failed"
          end)
  else
    data ← attempt (observe (λ _ d, match d.(rollbackClaim) with Absent | Irregular => None | Damaged => Some None | Holds r => Some (Some r) end));
    match data with
    | Some (Some r) =>
        let a := r.(RequestAuthorization).(Authorization) in mret (mkFailure a.(AssignmentID) a.(Generation) "rollback_failed")
    | Some None => mret (mkFailure 0 0 "rollback_failed")
    | None =>
        j ← attempt (required (read rollbackJournalFile));
        mret (match j with
              | Some j => let a := j.(RAuthorization).(Authorization) in mkFailure a.(AssignmentID) a.(Generation) "rollback_failed"
              | None => mkFailure 0 0 "rollback_failed"
              end)
    end.

(** The diagnostics are written, the failure is published unless a journal will be
    recovered, and the claim is dropped.  [None]: nothing was published. *)
Definition QuarantineActivationFailure (activate : bool) : M (option failureRecord) :=
  record ← failureOf activate;
  touch;;
  recoverable ← (if activate then exists_ journal else exists_ rollbackJournalFile);
  (if recoverable : bool then mret () else writeStaging);;
  (if activate then removeReady true else write (setRollbackClaim Absent));;
  mret (if negb recoverable && (0 <? record.(FailAssignmentID)) && (0 <? record.(FailGeneration)) then Some record else None).

Definition runClaimedRollback : M unit :=
  r ← attempt (rollbackFromPath true);
  match r with
  | Some _ => mret ()
  | None => attempt (QuarantineActivationFailure false);; fail
  end.

Definition activatorPolicy (config : HostConfig) : UpdatePolicy :=
  mkPolicy 0 0 0 "" "" "" "" buildVersion protocolVersion config.(HostChannel).

Definition runClaimedActivation : M unit :=
  r ← attempt (config ← LoadHostConfig; Activate (activatorPolicy config) true);
  match r with
  | Some _ => mret ()
  | None => attempt (QuarantineActivationFailure true);; fail
  end.

(** The command is moved out of the staging directory, whatever it holds at that moment. *)
Definition claimActivation : M unit :=
  claimed ← exists_ activationClaim;
  if claimed : bool then mret ()
  else
    published ← existsStaging readyFile;
    if published : bool then perform (λ a d, match a.(view).(readyFile) with Absent => None | f => Some (setActivationClaim f d) end)
    else mret ().

Definition claimRollback : M unit :=
  claimed ← exists_ rollbackClaim;
  if claimed : bool then mret ()
  else
    published ← existsStaging rollbackFile;
    if published : bool then perform (λ a d, match a.(view).(rollbackFile) with Absent => None | f => Some (setRollbackClaim f d) end)
    else mret ().

Definition runActivator : M unit :=
  rolling ← exists_ rollbackJournalFile;
  if rolling : bool then runClaimedRollback
  else
    activating ← exists_ journal;
    if activating : bool then runClaimedActivation
    else
      claimRollback;;
      rollback1 ← exists_ rollbackClaim;
      if rollback1 : bool then runClaimedRollback
      else
        claimActivation;;
        claimRollback;;
        rollback2 ← exists_ rollbackClaim;
        if rollback2 : bool then runClaimedRollback
        else
          activation ← exists_ activationClaim;
          if activation : bool then runClaimedActivation else mret ().

(** The tree after a run against the answers [l]. *)
Definition run (l : list answer) (d : root) : root := (runActivator (d, l)).2.1.

(** ** Installation *)

(** The metadata of the slot an agent is enrolled with: it must be named after what it holds. *)
Definition bootstrapSlot (target version content agentVersion agentCommit : string) : slotMetadata :=
  mkSlot target RootActionResultBootstrap "" version "" agentVersion agentCommit 0 0 goos goarch
    ("p2pstream_bootstrap_" ++ goos ++ "_" ++ goarch) (Z.of_nat (String.length content)) (hexEncode (sha256 content)).

Definition pinBootstrapSlotMetadata (agentVersion agentCommit : string) : M unit :=
  target ← currentTarget;
  let version := slotName target in
  guard_ (bootstrapVersionPattern version);;
  content ← observe (λ _ d, match d.(slots) !! version with Some content => content | None => None end);
  let size := Z.of_nat (String.length content) in
  guard_ (negb ((size <=? 0) || (defaultMaxArtifact <? size)));;
  guard_ (String.eqb version ("bootstrap-" ++ String.substring 0 16 (hexEncode (sha256 content))));;
  let slot := bootstrapSlot target version content agentVersion agentCommit in
  guard_ (validateSlotMetadata slot);;
  existing ← read currentSlot;
  match existing with
  | Some existing => guard_ (bool_decide (existing = slot));; touch
  | None => write (setCurrentSlot (Holds slot))
  end.
End updater.

(** ** The verifier of the activator *)

Section adapter.
Context `{Semver, Crypto, Host}.
Context (parseRFC3339 : string → option Z) (decodeManifest : string → option Manifest).

Definition toVerifyPolicy (policy : UpdatePolicy) : VerifyPolicy :=
  mkVerifyPolicy policy.(UNow) policy.(URequiredChannel) policy.(UCurrentSequence) policy.(UCurrentSecurityEpoch)
    policy.(UCurrentMinimumSafeVersion) policy.(UCurrentVersion) policy.(UCurrentManifestSHA256) policy.(UServerVersion)
    policy.(UUpdaterVersion) policy.(UProtocolVersion) goos goarch.

Definition toRelease (verified : VerifiedManifest) : option VerifiedRelease :=
  let m := verified.(VManifest) in
  let a := verified.(VArtifact) in
  match parseArtifactDigest a.(MSHA256) with
  | Some digest =>
      if max_int64 <? a.(MSize) then None
      else Some (mkRelease m.(Version) m.(Commit) verified.(VManifestSHA256) m.(Sequence) m.(MSecurityEpoch)
                   m.(MinimumSafeVersion) (mkArtifact a.(MName) a.(MSize) digest))
  | None => None
  end.

(** [uint64(artifact.Size)] *)
Definition AgentUpdateVerifier : Verifier := {|
  VerifyRelease manifestJSON policy := Verify parseRFC3339 decodeManifest manifestJSON (toVerifyPolicy policy) ≫= toRelease;
  VerifyContent content artifact :=
    VerifyArtifact content (mkManifestArtifact goos goarch artifact.(Name) (u64 artifact.(Size)) (artifactHex artifact)) |}.
End adapter.
End Updater.
