(* ===== verification/UpdaterProps.v ===== *)
(** A program logic for the root activator of Updater.v and the invariant of its tree.

    [wp m Q E C d]: whatever the answers, [m] started on the tree [d] ends with a result
    and a tree that satisfy [Q], or with an error in a tree that satisfies [E], or crashes
    in a tree that satisfies [C].  The invariant [Inv] says what the slots hold, what the
    files of the activator refer to, in which phase an action is, and that the receipts
    form a log [L] in which counters and command sequences grow together; every program
    keeps it at every point where it may stop. *)

From S2P Require Import Prelude.
From S2P Require Import GoStrings.
From S2P Require Import GoBase64.
From S2P Require Import WafCookies.
From S2P Require Import UpdateAuth.
From S2P Require Import Updater.
From Stdlib Require Import Ascii.

Module UpdaterProps.
Import UpdateAuth.
Import Updater.

(** ** The logic *)

Definition wp {A} (m : M A) (Q : A → root → Prop) (E C : root → Prop) (d : root) : Prop :=
  ∀ l, match m (d, l) with
       | (Ok a, (d', _)) => Q a d'
       | (Err, (d', _)) => E d'
       | (Crash, (d', _)) => C d'
       end.

Section logic.
Context {A B : Type}.
Implicit Types (m : M A) (Q : A → root → Prop) (E C : root → Prop) (d : root).

Lemma wp_ret (a : A) Q E C d : Q a d → wp (mret a) Q E C d.
Proof. by intros HQ l. Qed.

Lemma wp_fail Q E C d : E d → wp fail Q E C d.
Proof. by intros HE l. Qed.

Lemma wp_bind m (f : A → M B) (QB : B → root → Prop) E C d :
  wp m (λ a, wp (f a) QB E C) E C d → wp (m ≫= f) QB E C d.
Proof.
  intros Hm l. specialize (Hm l). unfold mbind, M_bind.
  destruct (m (d, l)) as [[a| |] [d' l']]; [apply Hm|done..].
Qed.

Lemma wp_mono m (Q Q' : A → root → Prop) (E E' C C' : root → Prop) d : wp m Q E C d →
  (∀ a d', Q a d' → Q' a d') → (∀ d', E d' → E' d') → (∀ d', C d' → C' d') → wp m Q' E' C' d.
Proof.
  intros Hm HQ HE HC l. specialize (Hm l). destruct (m (d, l)) as [[a| |] [d' l']]; auto.
Qed.

Lemma wp_attempt m (QO : option A → root → Prop) E C d :
  wp m (λ a, QO (Some a)) (QO None) C d → wp (attempt m) QO E C d.
Proof. intros Hm l. specialize (Hm l). unfold attempt. destruct (m (d, l)) as [[a| |] [d' l']]; done. Qed.

Lemma wp_observe (f : answer → root → option A) Q E C d :
  E d → C d → (∀ ans a, f ans d = Some a → Q a d) → wp (observe f) Q E C d.
Proof.
  intros HE HC HQ l. unfold observe. destruct l as [|ans l]; [done|].
  destruct (outcome ans), (f ans d) eqn:Ef; try done. by eapply HQ.
Qed.

Lemma wp_given (o : option A) Q E C d : E d → (∀ a, o = Some a → Q a d) → wp (given o) Q E C d.
Proof. intros HE HQ. destruct o; [by apply wp_ret, HQ|by apply wp_fail]. Qed.
End logic.

Lemma wp_perform f (Q : unit → root → Prop) (E C : root → Prop) d :
  E d → C d → (∀ ans d', f ans d = Some d' → Q () d' ∧ E d') → wp (perform f) Q E C d.
Proof.
  intros HE HC HQ l. unfold perform. destruct l as [|ans l]; [done|].
  destruct (outcome ans), (f ans d) eqn:Ef; try done; by eapply HQ.
Qed.

Lemma wp_write f (Q : unit → root → Prop) (E C : root → Prop) d :
  E d → C d → Q () (f d) → E (f d) → wp (write f) Q E C d.
Proof. intros HE HC HQ HE'. apply wp_perform; [done..|]. by intros _ d' [= <-]. Qed.

Lemma wp_now (Q : Z → root → Prop) (E C : root → Prop) d : C d → (∀ t, Q t d) → wp timeNow Q E C d.
Proof. intros HC HQ l. unfold timeNow. by destruct l. Qed.

Lemma wp_guard b (Q : unit → root → Prop) (E C : root → Prop) d : E d → (b = true → Q () d) → wp (guard_ b) Q E C d.
Proof. intros HE HQ. destruct b; [by apply wp_ret, HQ|by apply wp_fail]. Qed.

Lemma wp_touch (Q : unit → root → Prop) (E C : root → Prop) d : E d → C d → Q () d → wp touch Q E C d.
Proof. intros HE HC HQ. apply wp_observe; [done..|]. by intros _ []. Qed.

Lemma wp_read {A} (f : root → file A) (Q : option A → root → Prop) (E C : root → Prop) d : E d → C d →
  (f d = Absent → Q None d) → (∀ a, f d = Holds a → Q (Some a) d) → wp (read f) Q E C d.
Proof. intros HE HC HN HS. apply wp_observe; [done..|]. intros _ a. destruct (f d) eqn:Ef; simpl; intros [= <-]; eauto. Qed.

Lemma wp_required {A} (m : M (option A)) (Q : A → root → Prop) (E C : root → Prop) d :
  wp m (λ o d', match o with Some a => Q a d' | None => E d' end) E C d → wp (required m) Q E C d.
Proof.
  intros Hm. apply wp_bind. eapply wp_mono; [exact Hm|..]; [|done..].
  intros [a|] d' HQ; [by apply wp_ret|by apply wp_fail].
Qed.

Lemma wp_exists {A} (f : root → file A) (Q : bool → root → Prop) (E C : root → Prop) d : E d → C d →
  (f d = Absent → Q false d) → (f d ≠ Absent → Q true d) → wp (exists_ f) Q E C d.
Proof. intros HE HC HN HS. apply wp_observe; [done..|]. intros _ a. destruct (f d) eqn:Ef; simpl; intros [= <-]; auto. Qed.

(** ** Programs that only look *)

Definition readOnly {A} (m : M A) : Prop := ∀ d l, (m (d, l)).2.1 = d.

Lemma wp_readOnly {A} (m : M A) (Q : A → root → Prop) (E C : root → Prop) d :
  readOnly m → E d → C d → (∀ a, Q a d) → wp m Q E C d.
Proof.
  intros Hm HE HC HQ l. specialize (Hm d l). destruct (m (d, l)) as [[a| |] [d' l']]; simpl in Hm; subst; auto.
Qed.

Lemma ro_ret {A} (a : A) : readOnly (mret a).
Proof. done. Qed.
Lemma ro_fail {A} : readOnly (fail : M A).
Proof. done. Qed.
Lemma ro_bind {A B} (m : M A) (f : A → M B) : readOnly m → (∀ a, readOnly (f a)) → readOnly (m ≫= f).
Proof.
  intros Hm Hf d l. specialize (Hm d l). unfold mbind, M_bind. destruct (m (d, l)) as [[a| |] [d' l']]; simpl in Hm; subst; [apply Hf|done..].
Qed.
Lemma ro_attempt {A} (m : M A) : readOnly m → readOnly (attempt m).
Proof. intros Hm d l. specialize (Hm d l). unfold attempt. by destruct (m (d, l)) as [[a| |] [d' l']]. Qed.
Lemma ro_observe {A} (f : answer → root → option A) : readOnly (observe f).
Proof. intros d l. unfold observe. destruct l as [|ans l]; [done|]. by destruct (outcome ans), (f ans d). Qed.
Lemma ro_now : readOnly timeNow.
Proof. intros d l. by destruct l. Qed.
Lemma ro_guard b : readOnly (guard_ b).
Proof. by destruct b. Qed.
Lemma ro_given {A} (o : option A) : readOnly (given o).
Proof. by destruct o. Qed.

Create HintDb readonly.
#[export] Hint Resolve ro_ret ro_fail ro_attempt ro_observe ro_now ro_guard ro_given : readonly.
#[export] Hint Unfold touch read exists_ readStaging existsStaging writeStaging readOwned readReadyOwned : readonly.

(** Take a program apart as long as it only looks. *)
Ltac ro := repeat first
  [ done
  | progress cbv beta zeta
  | progress auto with readonly
  | apply ro_bind; [|intros]
  | apply ro_attempt
  | match goal with
    | |- readOnly (match ?x with _ => _ end) => destruct x
    | |- readOnly (let '_ := ?x in _) => destruct x
    | |- readOnly (required _) => unfold required
    | |- readOnly touch => unfold touch
    | |- readOnly (read _) => unfold read
    | |- readOnly (exists_ _) => unfold exists_
    | |- readOnly (readStaging _) => unfold readStaging
    | |- readOnly (existsStaging _) => unfold existsStaging
    | |- readOnly writeStaging => unfold writeStaging
    | |- readOnly (readOwned _) => unfold readOwned
    | |- readOnly (readReadyOwned _) => unfold readReadyOwned
    end ].

Section props.
Context `{Semver, Crypto, Host, Verifier}.

Lemma ro_loadFloor : readOnly loadFloor.
Proof. unfold loadFloor. ro. Qed.
Lemma ro_loadRootCommandFloor : readOnly loadRootCommandFloor.
Proof. unfold loadRootCommandFloor. ro. Qed.
Lemma ro_verifyAuthorization r a n s : readOnly (verifyAssignmentAuthorizationRecord r a n s).
Proof. unfold verifyAssignmentAuthorizationRecord, loadManagementAuthority, LoadHostConfig. ro. Qed.
Lemma ro_verifyReceipt r a p n : readOnly (verifyRootActionReceiptRecord r a p n).
Proof. unfold verifyRootActionReceiptRecord, loadActivatorPrivateKey. ro. Qed.
Lemma ro_counter : readOnly loadRootActionCounter.
Proof. unfold loadRootActionCounter. ro. Qed.
Lemma ro_restart : readOnly restartAndCheck.
Proof. unfold restartAndCheck. ro. Qed.
Lemma ro_workerReceipt r a s : readOnly (verifyRootActionReceiptForWorker r a s).
Proof. unfold verifyRootActionReceiptForWorker. ro. Qed.
End props.
#[export] Hint Resolve ro_loadFloor ro_loadRootCommandFloor ro_verifyAuthorization ro_verifyReceipt ro_counter ro_restart
  ro_workerReceipt : readonly.


(** ** The verifier *)

Section adapter.
Context `{Semver, Crypto, Host}.
Context (parseRFC3339 : string → option Z) (decodeManifest : string → option Manifest).

(** What [Verify] accepts is not below the floors of its policy. *)
Lemma Verify_floor manifestJSON policy v : Verify parseRFC3339 decodeManifest manifestJSON policy = Some v →
  policy.(CurrentSequence) ≤ v.(VManifest).(Sequence) ∧ policy.(CurrentSecurityEpoch) ≤ v.(VManifest).(MSecurityEpoch).
Proof.
  unfold Verify. destruct (verifyManifest _ _ _ _ _) as [[[[m digest] published] expires]|]; [|done]. cbv zeta. intros Hv.
  case_if_hyp Hv Eretry. case_if_hyp Hv Eepoch. do 6 (let E := fresh "E" in case_if_hyp Hv E). destruct (ArtifactFor _ _ _); [|done].
  injection Hv as <-. simpl. apply Z.ltb_ge in Eepoch. split; [|done]. apply andb_false_iff in Eretry as [Hle%Z.leb_gt|Hx]; [lia|].
  apply negb_false_iff in Hx. bprop. lia.
Qed.

#[export] Instance AgentUpdateVerifierLaws : VerifierLaws (AgentUpdateVerifier parseRFC3339 decodeManifest).
Proof.
  constructor. intros manifest policy release Hv. apply bind_Some in Hv as (v & Hv%Verify_floor & Hr).
  unfold toRelease in Hr. destruct (parseArtifactDigest _); [|done]. case_if_hyp Hr E. by injection Hr as <-.
Qed.
End adapter.

(** ** The invariant *)

Section invariant.
Context `{Semver, Crypto, Host, Verifier}.
(** The executables the host was installed with, by version. *)
Context (base : gmap string string).

(** An authorization of the pinned authority for this agent names the executable. *)
Definition authorizedContent (version content : string) : Prop :=
  ∃ pinned key config record now,
    authority = Some pinned ∧ authorityConsistent pinned = Some key ∧ hostConfig = Some config ∧
    authorizationAccepted pinned key config record AssignmentActionActivate now 0 = true ∧
    record.(Authorization).(TargetVersion) = version ∧
    Z.of_nat (String.length content) = record.(Authorization).(ArtifactSize) ∧
    hexEncode (sha256 content) = record.(Authorization).(ArtifactSHA256).

Definition allowed (version content : string) : Prop :=
  base !! version = Some content ∨ authorizedContent version content.

Definition installed (sl : gmap string (option string)) (target : string) : Prop :=
  validSlotTarget target = true ∧ ∃ content, sl !! slotName target = Some (Some content).

Definition contentIs (sl : gmap string (option string)) (target : string) (size : Z) (sha : string) : Prop :=
  validSlotTarget target = true ∧
  ∃ content, sl !! slotName target = Some (Some content) ∧ Z.of_nat (String.length content) = size ∧ hexEncode (sha256 content) = sha.

(** The slot holds the executable the metadata describe. *)
Definition describes (sl : gmap string (option string)) (s : slotMetadata) : Prop :=
  contentIs sl s.(Target) s.(SlotArtifactSize) s.(SlotArtifactSHA256).

Definition counterOf (d : root) : Z := match d.(counter) with Holds c => c | _ => 0 end.
Definition floorOf (d : root) : Z := match d.(commandFloor) with Holds f => f.(FloorSequence) | _ => 0 end.

Definition seqOf (r : RootActionReceipt) : Z := r.(RecCommandSequence).

(** Every receipt in the tree. *)
Inductive recorded (d : root) : RootActionReceipt → Prop :=
  | recorded_activation s : d.(lastActivation) = Holds s → recorded d s.(DoneReceipt).(Receipt)
  | recorded_rollback s : d.(lastRollback) = Holds s → recorded d s.(RolledReceipt).(Receipt)
  | recorded_journal j r : d.(journal) = Holds j → j.(JReceipt) = Some r → recorded d r.(Receipt)
  | recorded_rollbackJournal j r : d.(rollbackJournalFile) = Holds j → j.(RReceipt) = Some r → recorded d r.(Receipt).

(** What an activation activated is a release at or below the bound; a rollback is not bounded. *)
Definition within (bound : Z * Z) (r : RootActionReceipt) : Prop :=
  r.(RecAction) = AssignmentActionActivate → r.(ResultReleaseSequence) ≤ bound.1 ∧ r.(ResultSecurityEpoch) ≤ bound.2.

(** Counters count from one, command sequences grow, and no activation goes back behind the
    release of an earlier one. *)
Record logOk (L : list RootActionReceipt) : Prop := {
  log_counter i r : L !! i = Some r → r.(RootActionCounter) = Z.of_nat i + 1;
  log_sequence i k r r' : (i < k)%nat → L !! i = Some r → L !! k = Some r' → seqOf r < seqOf r';
  log_release i k r r' : (i < k)%nat → L !! i = Some r → L !! k = Some r' → r'.(RecAction) = AssignmentActionActivate →
    within (r'.(ResultReleaseSequence), r'.(ResultSecurityEpoch)) r }.

(** The release floor, which lags while a completed activation is persisted. *)
Definition releaseFloor (d : root) : Z * Z := match d.(floor) with Holds f => (f.(FSequence), f.(FSecurityEpoch)) | _ => (0, 0) end.
Definition ceiling (d : root) : Z * Z :=
  match d.(journal) with
  | Holds j => if String.eqb j.(Phase) journalHealthy then (j.(JSequence), j.(JSecurityEpoch)) else releaseFloor d
  | _ => releaseFloor d
  end.

(** The receipt of a completed action is the last of the log; the counter file may lag. *)
Definition sealed (L : list RootActionReceipt) (d : root) (record : option rootActionReceiptRecord) : Prop :=
  ∃ r, record = Some r ∧ last L = Some r.(Receipt) ∧
       (counterOf d = Z.of_nat (length L) ∨ counterOf d = Z.of_nat (length L) - 1).

(** An action that is not completed has a command newer than every receipt. *)
Definition unsealed (L : list RootActionReceipt) (d : root) (record : option rootActionReceiptRecord) (a : AssignmentAuthorization) : Prop :=
  record = None ∧ Forall (λ r, seqOf r < a.(CommandSequence)) L ∧ counterOf d = Z.of_nat (length L).

(** What the journal switches to is the slot of a release. *)
Definition candidateOk (j : activationJournal) : Prop :=
  validSlotTarget j.(CandidateTarget) = true ∧ validReleaseVersion j.(JVersion) = true.

Definition journalOk (L : list RootActionReceipt) (d : root) (j : activationJournal) : Prop :=
  describes d.(slots) j.(JPreviousSlot) ∧ j.(PreviousTarget) = j.(JPreviousSlot).(Target) ∧
  j.(CandidateTarget) = slotTarget j.(JVersion) ∧ candidateOk j ∧
  ((j.(Phase) = journalPrepared ∨ j.(Phase) = journalSwitched) ∧ unsealed L d j.(JReceipt) j.(JAuthorization).(Authorization) ∨
   j.(Phase) = journalHealthy ∧ sealed L d j.(JReceipt) ∧ d.(current) = Some j.(CandidateTarget) ∧
   ∃ r, j.(JReceipt) = Some r ∧
        contentIs d.(slots) j.(CandidateTarget) r.(Receipt).(ResultArtifactSize) r.(Receipt).(ResultArtifactSHA256)).

Definition rollbackOk (L : list RootActionReceipt) (d : root) (j : rollbackJournal) : Prop :=
  describes d.(slots) j.(FromSlot) ∧ describes d.(slots) j.(ToSlot) ∧
  ((j.(RPhase) = rollbackPrepared ∨ j.(RPhase) = rollbackSwitched) ∧ unsealed L d j.(RReceipt) j.(RAuthorization).(Authorization) ∧
     d.(currentSlot) = Holds j.(FromSlot) ∧
     (d.(current) = Some j.(FromSlot).(Target) ∨ d.(current) = Some j.(ToSlot).(Target)) ∨
   j.(RPhase) = rollbackCompleted ∧ sealed L d j.(RReceipt) ∧ d.(current) = Some j.(ToSlot).(Target)).

(** Nothing is going on: the metadata describe what runs, and the counter is the log's. *)
Definition quiet (L : list RootActionReceipt) (d : root) : Prop :=
  ∃ s, d.(currentSlot) = Holds s ∧ d.(current) = Some s.(Target) ∧ describes d.(slots) s ∧ counterOf d = Z.of_nat (length L).

Definition actionOk (L : list RootActionReceipt) (d : root) : Prop :=
  match d.(journal), d.(rollbackJournalFile) with
  | Absent, Absent => quiet L d
  | Holds j, Absent => journalOk L d j
  | Absent, Holds j => rollbackOk L d j
  | _, _ => False
  end.

Record Inv (L : list RootActionReceipt) (d : root) : Prop := {
  inv_slots version content : d.(slots) !! version = Some (Some content) → allowed version content;
  inv_current : ∃ t, d.(current) = Some t ∧ installed d.(slots) t;
  inv_previous s : d.(previousSlot) = Holds s → describes d.(slots) s;
  inv_done s : d.(lastActivation) = Holds s → describes d.(slots) s.(DonePreviousSlot) ∧ describes d.(slots) s.(ActivatedSlot);
  inv_action : actionOk L d;
  inv_log : logOk L;
  inv_recorded r : recorded d r → ∃ i, L !! i = Some r;
  inv_floor : Forall (λ r, seqOf r ≤ floorOf d) L;
  inv_release : Forall (within (ceiling d)) L }.

Lemma contentIs_installed sl t size sha : contentIs sl t size sha → installed sl t.
Proof. intros (? & c & ? & _). split; eauto. Qed.

Lemma describes_installed sl s : describes sl s → installed sl s.(Target).
Proof. apply contentIs_installed. Qed.

(** Slots that are kept keep what refers to them. *)
Definition keeps (sl sl' : gmap string (option string)) (target : string) : Prop :=
  sl' !! slotName target = sl !! slotName target.

Lemma contentIs_keeps sl sl' t size sha : contentIs sl t size sha → keeps sl sl' t → contentIs sl' t size sha.
Proof. intros (Hv & c & Hc & ? & ?) Hk. split; [done|]. exists c. by rewrite Hk. Qed.

Lemma installed_keeps sl sl' t : installed sl t → keeps sl sl' t → installed sl' t.
Proof. intros (Hv & c & Hc) Hk. split; [done|]. exists c. by rewrite Hk. Qed.

(** The targets that must stay installed. *)
Inductive needed (d : root) : string → Prop :=
  | needed_current t : d.(current) = Some t → needed d t
  | needed_slot s : d.(currentSlot) = Holds s → d.(journal) = Absent → d.(rollbackJournalFile) = Absent → needed d s.(Target)
  | needed_previous s : d.(previousSlot) = Holds s → needed d s.(Target)
  | needed_done_previous s : d.(lastActivation) = Holds s → needed d s.(DonePreviousSlot).(Target)
  | needed_done_activated s : d.(lastActivation) = Holds s → needed d s.(ActivatedSlot).(Target)
  | needed_journal j : d.(journal) = Holds j → needed d j.(JPreviousSlot).(Target)
  | needed_candidate j : d.(journal) = Holds j → j.(Phase) = journalHealthy → needed d j.(CandidateTarget)
  | needed_from j : d.(rollbackJournalFile) = Holds j → needed d j.(FromSlot).(Target)
  | needed_to j : d.(rollbackJournalFile) = Holds j → needed d j.(ToSlot).(Target).

Lemma needed_installed L d t : Inv L d → needed d t → installed d.(slots) t.
Proof.
  intros Hi Hn. pose proof (inv_action _ _ Hi) as Ha. unfold actionOk in Ha.
  destruct Hn as [t Ht|s Hs Hj Hr|s Hs|s Hs|s Hs|j Hj|j Hj Hp|j Hj|j Hj].
  - destruct (inv_current _ _ Hi) as (t' & Ht' & ?). rewrite Ht in Ht'. by injection Ht' as <-.
  - rewrite Hj, Hr in Ha. destruct Ha as (s' & Hs' & _ & ? & _). rewrite Hs in Hs'. injection Hs' as <-. by apply describes_installed.
  - by apply describes_installed, (inv_previous _ _ Hi).
  - by apply describes_installed, (inv_done _ _ Hi).
  - by apply describes_installed, (inv_done _ _ Hi).
  - rewrite Hj in Ha. destruct (rollbackJournalFile d); try done. by apply describes_installed, Ha.
  - rewrite Hj in Ha. destruct (rollbackJournalFile d); try done.
    destruct Ha as (_ & _ & _ & _ & [[[Hq|Hq] _]|(_ & _ & _ & r & _ & ?)]); [by rewrite Hp in Hq..|by eapply contentIs_installed].
  - rewrite Hj in Ha. destruct (journal d); try done. by apply describes_installed, Ha.
  - rewrite Hj in Ha. destruct (journal d); try done. by apply describes_installed, Ha.
Qed.

(** Slots may change as long as what is needed stays and what is new is allowed. *)
Lemma inv_setSlots L d sl : Inv L d → (∀ t, needed d t → keeps d.(slots) sl t) →
  (∀ version content, sl !! version = Some (Some content) → allowed version content) → Inv L (setSlots sl d).
Proof.
  intros Hi Hk Ha. constructor; simpl.
  - done.
  - destruct (inv_current _ _ Hi) as (t & Ht & Hin). exists t. split; [done|]. eapply installed_keeps; [done|]. apply Hk. by constructor.
  - intros s Hs. eapply contentIs_keeps; [by apply (inv_previous _ _ Hi)|]. apply Hk. by apply needed_previous.
  - intros s Hs. destruct (inv_done _ _ Hi s Hs). split; (eapply contentIs_keeps; [done|]); apply Hk;
      [by apply needed_done_previous|by apply needed_done_activated].
  - pose proof (inv_action _ _ Hi) as Hact. unfold actionOk in *. simpl.
    destruct (journal d) as [| | |j] eqn:Ej, (rollbackJournalFile d) as [| | |k] eqn:Ek; try done.
    + destruct Hact as (s & Hs & Hcur & Hd & Hc). exists s. do 2 (split; [done|]). split; [|done].
      eapply contentIs_keeps; [done|]. apply Hk. by apply needed_slot.
    + destruct Hact as (Hf & Ht & Hp). split; [eapply contentIs_keeps; [done|]; apply Hk; by apply needed_from|].
      split; [eapply contentIs_keeps; [done|]; apply Hk; by apply needed_to|]. exact Hp.
    + destruct Hact as (Hp & Hpt & Hct & Hcv & Hph). split; [eapply contentIs_keeps; [done|]; apply Hk; by apply needed_journal|].
      do 3 (split; [done|]). destruct Hph as [Hph|(Hph & Hs & Hcur & r & Hr & Hc)]; [by left|right].
      do 3 (split; [done|]). exists r. split; [done|]. eapply contentIs_keeps; [done|]. apply Hk. by apply needed_candidate.
  - apply (inv_log _ _ Hi).
  - intros r Hr. apply (inv_recorded _ _ Hi). inversion Hr; [by apply recorded_activation|by apply recorded_rollback|
      by eapply recorded_journal|by eapply recorded_rollbackJournal].
  - apply (inv_floor _ _ Hi).
  - apply (inv_release _ _ Hi).
Qed.

(** Of the other writes, each changes one file; [keep] carries the untouched parts over. *)
Ltac keep Hi :=
  constructor; simpl;
  [ try exact (inv_slots _ _ Hi) | try exact (inv_current _ _ Hi) | try exact (inv_previous _ _ Hi) | try exact (inv_done _ _ Hi)
  | try exact (inv_action _ _ Hi) | try exact (inv_log _ _ Hi)
  | try (let rc := fresh "rc" in let Hrec := fresh "Hrec" in
         intros rc Hrec; apply (inv_recorded _ _ Hi); inversion Hrec; subst; simpl in *;
         first [discriminate|by apply recorded_activation|by apply recorded_rollback|by eapply recorded_journal|by eapply recorded_rollbackJournal])
  | try exact (inv_floor _ _ Hi) | try exact (inv_release _ _ Hi) ].

Lemma inv_claim L d f : Inv L d → Inv L (setActivationClaim f d).
Proof. intros Hi. keep Hi. Qed.
Lemma inv_rollbackClaim L d f : Inv L d → Inv L (setRollbackClaim f d).
Proof. intros Hi. keep Hi. Qed.
(** The floor is written while the journal holds the bound. *)
Lemma inv_setFloor L d j f : Inv L d → d.(journal) = Holds j → j.(Phase) = journalHealthy → Inv L (setFloor f d).
Proof.
  intros Hi Hj Hp. keep Hi. pose proof (inv_release _ _ Hi) as Hr. unfold ceiling in *. simpl. by rewrite Hj, Hp in *.
Qed.
Lemma inv_setPreviousSlot L d s : Inv L d → describes d.(slots) s → Inv L (setPreviousSlot (Holds s) d).
Proof. intros Hi Hs. keep Hi. by intros ? [= <-]. Qed.

Lemma inv_setCommandFloor L d f : Inv L d → floorOf d ≤ f.(FloorSequence) → Inv L (setCommandFloor (Holds f) d).
Proof.
  intros Hi Hle. keep Hi. eapply Forall_impl; [apply (inv_floor _ _ Hi)|]. intros r Hr. unfold floorOf. simpl in *. lia.
Qed.

(** *** Activation *)

Definition idle (d : root) : Prop := d.(journal) = Absent ∧ d.(rollbackJournalFile) = Absent.

Lemma inv_quiet L d : Inv L d → idle d → quiet L d.
Proof. intros Hi [Hj Hr]. pose proof (inv_action _ _ Hi) as Ha. unfold actionOk in Ha. by rewrite Hj, Hr in Ha. Qed.

Lemma inv_journalOk L d j : Inv L d → d.(journal) = Holds j → journalOk L d j ∧ d.(rollbackJournalFile) = Absent.
Proof.
  intros Hi Hj. pose proof (inv_action _ _ Hi) as Ha. unfold actionOk in Ha. rewrite Hj in Ha. by destruct (rollbackJournalFile d).
Qed.

Lemma inv_rollbackOk L d j : Inv L d → d.(rollbackJournalFile) = Holds j → rollbackOk L d j ∧ d.(journal) = Absent.
Proof.
  intros Hi Hj. pose proof (inv_action _ _ Hi) as Ha. unfold actionOk in Ha. rewrite Hj in Ha. by destruct (journal d).
Qed.

(** A journal that holds no receipt, or one that is in the log, replaces the state of the action. *)
Lemma inv_setJournal L d j : Inv L d → d.(rollbackJournalFile) = Absent → journalOk L d j → ceiling (setJournal (Holds j) d) = ceiling d →
  (∀ r, j.(JReceipt) = Some r → ∃ i, L !! i = Some r.(Receipt)) → Inv L (setJournal (Holds j) d).
Proof.
  intros Hi Hr Hj Hce Hl. keep Hi.
  - unfold actionOk. simpl. by rewrite Hr.
  - intros r Hrec. inversion Hrec as [s Hs|s Hs|j' r' Hj' Hr'|j' r' Hj' Hr']; subst; simpl in *.
    + by apply (inv_recorded _ _ Hi), recorded_activation.
    + by apply (inv_recorded _ _ Hi), recorded_rollback.
    + injection Hj' as <-. by apply Hl.
    + congruence.
  - rewrite Hce. apply (inv_release _ _ Hi).
Qed.

Lemma inv_setRollbackJournal L d j : Inv L d → d.(journal) = Absent → rollbackOk L d j →
  (∀ r, j.(RReceipt) = Some r → ∃ i, L !! i = Some r.(Receipt)) → Inv L (setRollbackJournal (Holds j) d).
Proof.
  intros Hi Hr Hj Hl. keep Hi.
  - unfold actionOk. simpl. by rewrite Hr.
  - intros r Hrec. inversion Hrec as [s Hs|s Hs|j' r' Hj' Hr'|j' r' Hj' Hr']; subst; simpl in *.
    + by apply (inv_recorded _ _ Hi), recorded_activation.
    + by apply (inv_recorded _ _ Hi), recorded_rollback.
    + congruence.
    + injection Hj' as <-. by apply Hl.
Qed.

Lemma inv_closeJournal L d : Inv L d → d.(rollbackJournalFile) = Absent → quiet L d → releaseFloor d = ceiling d →
  Inv L (setJournal Absent d).
Proof.
  intros Hi Hr Hq Hce. keep Hi; [unfold actionOk; simpl; by rewrite Hr|]. change (ceiling (setJournal Absent d)) with (releaseFloor d).
  rewrite Hce. apply (inv_release _ _ Hi).
Qed.

Lemma inv_closeRollbackJournal L d : Inv L d → d.(journal) = Absent → quiet L d → Inv L (setRollbackJournal Absent d).
Proof. intros Hi Hr Hq. keep Hi. unfold actionOk. simpl. by rewrite Hr. Qed.

(** A new receipt: the next counter, a command newer than all others and consumed, no older release. *)
Lemma log_extend L r : logOk L → r.(RootActionCounter) = Z.of_nat (length L) + 1 → Forall (λ r', seqOf r' < seqOf r) L →
  (r.(RecAction) = AssignmentActionActivate → Forall (within (r.(ResultReleaseSequence), r.(ResultSecurityEpoch))) L) → logOk (L ++ [r]).
Proof.
  intros Hl Hc Hs Hrel. constructor.
  - intros i r'. rewrite lookup_app_Some. intros [Hi|[Hi Hr]]; [by apply (log_counter _ Hl)|].
    apply list_lookup_singleton_Some in Hr as [Hi' <-]. rewrite Hc. lia.
  - intros i k r1 r2 Hik Ha Hb. apply lookup_app_Some in Ha as [Ha|[Ha Ha']], Hb as [Hb|[Hb Hb']].
    + by eapply (log_sequence _ Hl).
    + apply list_lookup_singleton_Some in Hb' as [_ <-]. rewrite Forall_lookup in Hs. by eapply Hs.
    + apply lookup_lt_Some in Hb. lia.
    + apply list_lookup_singleton_Some in Ha' as [? _], Hb' as [? _]. lia.
  - intros i k r1 r2 Hik Ha Hb Hact. apply lookup_app_Some in Ha as [Ha|[Ha Ha']], Hb as [Hb|[Hb Hb']].
    + by eapply (log_release _ Hl).
    + apply list_lookup_singleton_Some in Hb' as [_ <-]. apply Hrel in Hact. rewrite Forall_lookup in Hact. by eapply Hact.
    + apply lookup_lt_Some in Hb. lia.
    + apply list_lookup_singleton_Some in Ha' as [? _], Hb' as [? _]. lia.
Qed.

Lemma within_weaken b b' r : b.1 ≤ b'.1 → b.2 ≤ b'.2 → within b r → within b' r.
Proof. intros ?? Hw Ha. apply Hw in Ha. lia. Qed.

Lemma inv_seal L d d' r : Inv L d → r.(RootActionCounter) = Z.of_nat (length L) + 1 → Forall (λ r', seqOf r' < seqOf r) L →
  seqOf r ≤ floorOf d → (ceiling d).1 ≤ (ceiling d').1 → (ceiling d).2 ≤ (ceiling d').2 →
  (r.(RecAction) = AssignmentActionActivate → ceiling d' = (r.(ResultReleaseSequence), r.(ResultSecurityEpoch))) → d'.(slots) = d.(slots) → d'.(current) = d.(current) → d'.(previousSlot) = d.(previousSlot) →
  d'.(lastActivation) = d.(lastActivation) → d'.(commandFloor) = d.(commandFloor) →
  (∀ r', recorded d' r' → r' = r ∨ recorded d r') → actionOk (L ++ [r]) d' → Inv (L ++ [r]) d'.
Proof.
  intros Hi Hc Hs Hf Hb1 Hb2 Hrel Esl Ecur Epr Ela Ecf Hrec Ha.
  assert (Hw : Forall (within (ceiling d')) L) by (eapply Forall_impl; [apply (inv_release _ _ Hi)|]; intros ?; by apply within_weaken).
  constructor; rewrite ?Esl, ?Ecur, ?Epr, ?Ela;
    [exact (inv_slots _ _ Hi)|exact (inv_current _ _ Hi)|exact (inv_previous _ _ Hi)|exact (inv_done _ _ Hi)|exact Ha| | | |].
  - apply log_extend; [apply (inv_log _ _ Hi)|done|done|]. intros Hact. by rewrite <-(Hrel Hact).
  - intros r' [->|Hr']%Hrec; [exists (length L); by rewrite list_lookup_middle|].
    destruct (inv_recorded _ _ Hi r' Hr') as [i Hi']. exists i. by apply lookup_app_l_Some.
  - unfold floorOf. rewrite Ecf. apply Forall_app. split; [apply (inv_floor _ _ Hi)|]. by constructor.
  - apply Forall_app. split; [done|]. constructor; [|done]. intros Hact. rewrite (Hrel Hact). simpl. lia.
Qed.

End invariant.

End UpdaterProps.
