(* ===== verification/UpdaterInv.v ===== *)
(** Every program of the root activator keeps the invariant of UpdaterProps.v: whatever the
    answers, the tree it leaves, after a result, an error or a crash, satisfies [Inv] for a
    log that extends the one before.  One lemma per program, in the order of Updater.v. *)

From S2P Require Import Prelude.
From S2P Require Import GoStrings.
From S2P Require Import GoBase64.
From S2P Require Import WafCookies.
From S2P Require Import UpdateAuth.
From S2P Require Import UpdateAuthProps.
From S2P Require Import Updater.
From S2P Require Import UpdaterProps.
From Stdlib Require Import Ascii.

Module UpdaterInv.
Import UpdateAuth.
Import UpdateAuthProps(byteVal_byteOf).
Import Updater.
Import UpdaterProps.

(** ** Programs that only touch the claims *)

Definition claimsOnly (d d' : root) : Prop := ∃ a r, d' = setActivationClaim a (setRollbackClaim r d).

Lemma claimsOnly_refl d : claimsOnly d d.
Proof. exists d.(activationClaim), d.(rollbackClaim). by destruct d. Qed.

Lemma claimsOnly_trans d1 d2 d3 : claimsOnly d1 d2 → claimsOnly d2 d3 → claimsOnly d1 d3.
Proof. intros (a & r & ->) (a' & r' & ->). by exists a', r'. Qed.

Definition claims {A} (m : M A) : Prop := ∀ d l, claimsOnly d (m (d, l)).2.1.

Lemma cl_readOnly {A} (m : M A) : readOnly m → claims m.
Proof. intros Hm d l. rewrite Hm. apply claimsOnly_refl. Qed.

Lemma cl_bind {A B} (m : M A) (f : A → M B) : claims m → (∀ a, claims (f a)) → claims (m ≫= f).
Proof.
  intros Hm Hf d l. specialize (Hm d l). unfold mbind, M_bind.
  destruct (m (d, l)) as [[a| |] [d' l']]; simpl in Hm; [|done..]. eapply claimsOnly_trans; [exact Hm|apply Hf].
Qed.

Lemma cl_attempt {A} (m : M A) : claims m → claims (attempt m).
Proof. intros Hm d l. specialize (Hm d l). unfold attempt. by destruct (m (d, l)) as [[a| |] [d' l']]. Qed.

Lemma cl_removeReady claimed : claims (removeReady claimed).
Proof.
  unfold removeReady. destruct claimed; [|by apply cl_readOnly; ro]. intros d l. unfold write, perform.
  destruct l as [|a l]; [apply claimsOnly_refl|]. destruct (outcome a); simpl;
    first [apply claimsOnly_refl|by exists Absent, d.(rollbackClaim); destruct d].
Qed.

Lemma cl_removeRequest (b : bool) : claims (if b then write (setRollbackClaim Absent) else writeStaging).
Proof.
  destruct b; [|by apply cl_readOnly; ro]. intros d l. unfold write, perform.
  destruct l as [|a l]; [apply claimsOnly_refl|]. destruct (outcome a); simpl;
    first [apply claimsOnly_refl|by exists d.(activationClaim), Absent; destruct d].
Qed.

Lemma ro_openCandidate dirs : readOnly (openCandidate dirs).
Proof. unfold openCandidate. ro. Qed.
Lemma ro_openStaging : readOnly openStagingDirectory.
Proof. unfold openStagingDirectory. ro. Qed.
#[export] Hint Resolve ro_openCandidate ro_openStaging : readonly.

(** Take a program apart until it only looks or removes a claim. *)
Ltac cl := repeat first
  [ done
  | progress cbv beta zeta
  | apply cl_removeReady
  | apply cl_removeRequest
  | apply (cl_removeRequest true)
  | solve [apply cl_readOnly; ro]
  | apply cl_attempt
  | apply cl_bind; [|intros]
  | match goal with |- claims (match ?x with _ => _ end) => destruct x end ].

Lemma wp_claims {A} (m : M A) (Q : A → root → Prop) (E C : root → Prop) d : claims m →
  (∀ d', claimsOnly d d' → E d' ∧ C d' ∧ ∀ a, Q a d') → wp m Q E C d.
Proof.
  intros Hm HR l. specialize (Hm d l). destruct (m (d, l)) as [[a| |] [d' l']]; simpl in Hm; apply HR in Hm as (? & ? & ?); auto.
Qed.

(** ** Hexadecimal digests *)

Lemma hexValue_spec c v : lowerHexClass c = true → hexValue c = Some v → 0 ≤ v < 16 ∧ hexDigit v = c.
Proof.
  destruct c as [[] [] [] [] [] [] [] []]; intros Hc Hv; try discriminate Hc; vm_compute in Hv; injection Hv as <-;
    (split; [lia|reflexivity]).
Qed.

Lemma hexDecode_encode n : ∀ s decoded, (String.length s ≤ n)%nat → allOf lowerHexClass s = true → hexDecode s = Some decoded →
  hexEncode decoded = s.
Proof.
  induction n as [|n IH]; intros s decoded Hn Hs Hd.
  { destruct s; [by injection Hd as <-|simpl in Hn; lia]. }
  destruct s as [|a [|b s]]; [by injection Hd as <-|done|]. simpl in Hn, Hs, Hd.
  apply andb_true_iff in Hs as [Ha [Hb Hs]%andb_true_iff].
  destruct (hexValue a) as [va|] eqn:Ea; [|done]. destruct (hexValue b) as [vb|] eqn:Eb; [|done].
  destruct (hexDecode s) as [ds|] eqn:Es; [|done]. injection Hd as <-.
  destruct (hexValue_spec _ _ Ha Ea) as [Ra <-]. destruct (hexValue_spec _ _ Hb Eb) as [Rb <-].
  simpl. rewrite byteVal_byteOf by lia. rewrite Z.div_add_l, (Z.div_small vb 16), Z.add_0_r by lia.
  rewrite (Z.add_comm (va * 16)), Z.mod_add, (Z.mod_small vb 16) by lia. do 2 f_equal. apply IH; [lia|done..].
Qed.

Section inv.
Context `{Semver, Crypto, Host, Verifier}.
Context (base : gmap string string).
Notation Inv := (Inv base).

Lemma cl_clearMatching claimed expected dirs : claims (clearMatchingStaged claimed expected dirs).
Proof. unfold clearMatchingStaged, clearStaged. cl. Qed.

Lemma cl_removeOldClaim claimed expected : claims (removeOldClaim claimed expected).
Proof. unfold removeOldClaim. cl. Qed.

Lemma cl_clearStaged claimed expected dirs : claims (clearStagedIfMatchingAuthorization claimed expected dirs).
Proof.
  unfold clearStagedIfMatchingAuthorization.
  repeat first [apply cl_clearMatching|apply cl_removeOldClaim|progress cl].
Qed.

Lemma cl_superseded a dirs : claims (clearSupersededActivationPath a dirs).
Proof. unfold clearSupersededActivationPath. repeat first [apply cl_clearStaged|progress cl]. Qed.

Lemma cl_supersededRollback a : claims (clearSupersededActivationForRollback a).
Proof. unfold clearSupersededActivationForRollback. repeat first [apply cl_superseded|progress cl]. Qed.

Lemma cl_removeMatching claimed a : claims (removeMatchingRollbackRequest claimed a).
Proof. unfold removeMatchingRollbackRequest. cl. Qed.

Lemma cl_quarantine b : claims (QuarantineActivationFailure b).
Proof. unfold QuarantineActivationFailure, failureOf. cl. Qed.

Lemma inv_claims L d d' : claimsOnly d d' → Inv L d → Inv L d'.
Proof. intros (a & r & ->) Hi. by apply inv_claim, inv_rollbackClaim. Qed.

(** ** Authorizations and receipts *)

Lemma wp_verifyAuthorization r action now s (Q : unit → root → Prop) (E C : root → Prop) d : E d → C d →
  (∀ pinned key config, authority = Some pinned → authorityConsistent pinned = Some key → hostConfig = Some config →
     authorizationAccepted pinned key config r action now s = true → Q () d) →
  wp (verifyAssignmentAuthorizationRecord r action now s) Q E C d.
Proof.
  intros HE HC HQ. apply wp_bind, wp_guard; [done|]. intros _. apply wp_bind, wp_observe; [done..|].
  intros _ [pinned key] Hp. destruct authority as [p|] eqn:Ea; [|done]. simpl in Hp.
  destruct (authorityConsistent p) as [k|] eqn:Ek; [|done]. injection Hp as <- <-.
  apply wp_bind, wp_observe; [done..|]. intros _ config Hc. apply wp_guard; [done|]. eauto.
Qed.

Lemma accepted_sequence pinned key config r action now s :
  authorizationAccepted pinned key config r action now s = true → s < r.(Authorization).(CommandSequence).
Proof.
  unfold authorizationAccepted, VerifyAssignmentAuthorization. intros Ha. bprop. destruct (AssignmentAuthorizationPayload _); [|done]. bprop. simpl in *. lia.
Qed.

Lemma accepted_action pinned key config r action now s :
  authorizationAccepted pinned key config r action now s = true → r.(Authorization).(Action) = action.
Proof.
  unfold authorizationAccepted, VerifyAssignmentAuthorization. intros Ha. bprop. destruct (AssignmentAuthorizationPayload _); [|done]. bprop. done.
Qed.

Lemma wp_commandFloor (Q : rootCommandFloor → root → Prop) (E C : root → Prop) d : E d → C d →
  (∀ f, f.(FloorSequence) = floorOf d → Q f d) → wp loadRootCommandFloor Q E C d.
Proof.
  intros HE HC HQ. apply wp_bind, wp_read; [done..| |].
  - intros Ha. apply wp_ret, HQ. unfold floorOf. by rewrite Ha.
  - intros f Hf. apply wp_bind, wp_guard; [done|]. intros _. apply wp_ret, HQ. unfold floorOf. by rewrite Hf.
Qed.

Lemma wp_consume r action now (Q : string → root → Prop) (E C : root → Prop) d : E d → C d →
  (∀ sha f, f.(FloorSequence) = r.(Authorization).(CommandSequence) → floorOf d < f.(FloorSequence) → r.(Authorization).(Action) = action →
     Q sha (setCommandFloor (Holds f) d) ∧ E (setCommandFloor (Holds f) d) ∧ C (setCommandFloor (Holds f) d)) →
  wp (consumeAssignmentAuthorization r action now) Q E C d.
Proof.
  intros HE HC HQ. apply wp_bind, wp_commandFloor; [done..|]. intros f Hf.
  apply wp_bind, wp_verifyAuthorization; [done..|]. intros pinned key config _ _ _ Hacc.
  pose proof (accepted_action _ _ _ _ _ _ _ Hacc) as Hact. apply accepted_sequence in Hacc as Ha.
  apply wp_bind, wp_given; [done|]. intros sha _. rewrite Hf in Ha.
  destruct (HQ sha (mkCommandFloor r.(Authorization).(CommandSequence) sha) eq_refl Ha Hact) as (? & ? & ?).
  apply wp_bind, wp_write; [done..| |done]. by apply wp_ret.
Qed.

Lemma wp_counter (Q : Z → root → Prop) (E C : root → Prop) d : E d → C d → Q (counterOf d) d → wp loadRootActionCounter Q E C d.
Proof.
  intros HE HC HQ. apply wp_bind, wp_read; [done..| |].
  - intros Ha. apply wp_ret. unfold counterOf in HQ. by rewrite Ha in HQ.
  - intros c Hc. apply wp_ret. unfold counterOf in HQ. by rewrite Hc in HQ.
Qed.

Lemma receipt_payload r payload : RootActionReceiptPayload r = Some payload → validateRootActionReceipt r = true.
Proof. unfold RootActionReceiptPayload. generalize (validateRootActionReceipt r). by intros []. Qed.

Lemma wp_verifyReceipt r a p now (Q : unit → root → Prop) (E C : root → Prop) d : E d → C d →
  (validateRootActionReceipt r.(Receipt) = true → Q () d) → wp (verifyRootActionReceiptRecord r a p now) Q E C d.
Proof.
  intros HE HC HQ. apply wp_bind, wp_guard; [done|]. intros Hp%bool_decide_eq_true%receipt_payload. apply wp_readOnly; [ro; unfold loadActivatorPrivateKey; ro|done..|]. intros []. by apply HQ.
Qed.

(** What a new receipt says. *)
Record receiptFor (a : AssignmentAuthorization) (c : Z) (s : slotMetadata) (r : RootActionReceipt) : Prop := {
  for_counter : r.(RootActionCounter) = c + 1;
  for_sequence : seqOf r = a.(CommandSequence);
  for_action : r.(RecAction) = a.(Action);
  for_release : r.(ResultReleaseSequence) = s.(SlotSequence);
  for_epoch : r.(ResultSecurityEpoch) = s.(SlotSecurityEpoch);
  for_size : r.(ResultArtifactSize) = s.(SlotArtifactSize);
  for_digest : r.(ResultArtifactSHA256) = s.(SlotArtifactSHA256) }.

Lemma wp_createReceipt a sha s (Q : rootActionReceiptRecord → root → Prop) (E C : root → Prop) d : E d → C d →
  (∀ r, receiptFor a.(Authorization) (counterOf d) s r.(Receipt) → Q r d) → wp (createRootActionReceipt a sha s) Q E C d.
Proof.
  intros HE HC HQ. apply wp_bind, wp_guard; [done|]. intros _. apply wp_bind, wp_given; [done|]. intros sha' _.
  apply wp_bind, wp_guard; [done|]. intros _. apply wp_bind, wp_counter; [done..|]. apply wp_bind, wp_guard; [done|]. intros _.
  apply wp_bind, wp_observe; [done..|]. intros _ private _. apply wp_bind, wp_given; [done|]. intros keyID _.
  apply wp_bind, wp_now; [done|]. intros completed. apply wp_bind, wp_given; [done|]. intros payload _.
  apply wp_bind, wp_given; [done|]. intros signature _. apply wp_bind, wp_now; [done|]. intros now.
  apply wp_bind, wp_verifyReceipt; [done..|]. intros _. apply wp_ret, HQ. by repeat split.
Qed.

(** ** The current slot *)

Lemma wp_currentTarget (Q : string → root → Prop) (E C : root → Prop) d : E d → C d →
  (∀ t, d.(current) = Some t → validSlotTarget t = true → Q t d) → wp currentTarget Q E C d.
Proof.
  intros HE HC HQ. apply wp_observe; [done..|]. intros _ t Ht. destruct (current d) as [t'|] eqn:Ec; [|done]. simpl in Ht.
  destruct (validSlotTarget t') eqn:Ev; [|done]. injection Ht as <-. by apply HQ.
Qed.

Lemma wp_currentSlot t (Q : slotMetadata → root → Prop) (E C : root → Prop) d : E d → C d →
  (∀ s, d.(currentSlot) = Holds s → s.(Target) = t → validateSlotMetadata s = true → Q s d) → wp (loadCurrentSlotMetadata t) Q E C d.
Proof.
  intros HE HC HQ. apply wp_bind, wp_required, wp_read; [done..|done|]. intros s Hs. apply wp_bind, wp_guard; [done|]. intros Hv.
  apply wp_bind, wp_guard; [done|]. intros Ht%String.eqb_eq. apply wp_ret. by apply HQ.
Qed.

Lemma wp_switch t (Q : unit → root → Prop) (E C : root → Prop) d : E d → C d →
  (validSlotTarget t = true → Q () (setCurrent (Some t) d) ∧ E (setCurrent (Some t) d)) → wp (switchCurrent t) Q E C d.
Proof. intros HE HC HQ. apply wp_bind, wp_guard; [done|]. intros Hv. destruct (HQ Hv). by apply wp_write. Qed.

Lemma wp_restart (Q : unit → root → Prop) (E C : root → Prop) d : E d → C d → Q () d → wp restartAndCheck Q E C d.
Proof. intros HE HC HQ. apply wp_readOnly; [auto with readonly|done..|]. by intros []. Qed.

Lemma wp_writeJournal j (Q : unit → root → Prop) (E C : root → Prop) d : E d → C d →
  (validSlotTarget j.(PreviousTarget) = true → validSlotTarget j.(CandidateTarget) = true →
   Q () (setJournal (Holds j) d) ∧ E (setJournal (Holds j) d)) → wp (writeJournal j) Q E C d.
Proof.
  intros HE HC HQ. apply wp_bind, wp_guard; [done|]. intros [Hp Hc]%andb_true_iff. destruct (HQ Hp Hc). by apply wp_write.
Qed.

Lemma wp_writeRollbackJournal j (Q : unit → root → Prop) (E C : root → Prop) d : E d → C d →
  (Q () (setRollbackJournal (Holds j) d) ∧ E (setRollbackJournal (Holds j) d)) → wp (writeRollbackJournal j) Q E C d.
Proof. intros HE HC [HQ HE']. apply wp_bind, wp_guard; [done|]. intros _. by apply wp_write. Qed.

(** ** Single writes *)

Ltac keep Hi :=
  constructor; simpl;
  [ try exact (inv_slots _ _ _ Hi) | try exact (inv_current _ _ _ Hi) | try exact (inv_previous _ _ _ Hi) | try exact (inv_done _ _ _ Hi)
  | try exact (inv_action _ _ _ Hi) | try exact (inv_log _ _ _ Hi)
  | try (let rc := fresh "rc" in let Hrec := fresh "Hrec" in
         intros rc Hrec; apply (inv_recorded _ _ _ Hi); inversion Hrec; subst; simpl in *;
         first [discriminate|by apply recorded_activation|by apply recorded_rollback|by eapply recorded_journal|by eapply recorded_rollbackJournal])
  | try exact (inv_floor _ _ _ Hi) | try exact (inv_release _ _ _ Hi) ].

Definition switching (j : activationJournal) : Prop := j.(Phase) = journalPrepared ∨ j.(Phase) = journalSwitched.
Definition rolling (j : rollbackJournal) : Prop := j.(RPhase) = rollbackPrepared ∨ j.(RPhase) = rollbackSwitched.

Lemma ceiling_switching d j : d.(journal) = Holds j → switching j → ceiling d = releaseFloor d.
Proof. intros Hj [Hp|Hp]; unfold ceiling; by rewrite Hj, Hp. Qed.

Lemma journal_switching L d j : journalOk L d j → switching j → unsealed L d j.(JReceipt) j.(JAuthorization).(Authorization).
Proof. intros (_ & _ & _ & _ & [[_ Hu]|(Hh & _)]) [Hp|Hp]; first [done|by rewrite Hp in Hh]. Qed.

Lemma journal_healthy L d j : journalOk L d j → j.(Phase) = journalHealthy →
  sealed L d j.(JReceipt) ∧ d.(current) = Some j.(CandidateTarget) ∧
  ∃ r, j.(JReceipt) = Some r ∧ contentIs d.(slots) j.(CandidateTarget) r.(Receipt).(ResultArtifactSize) r.(Receipt).(ResultArtifactSHA256).
Proof. intros (_ & _ & _ & _ & [[[Hp|Hp] _]|(_ & ? & ? & ?)]) Hh; first [by rewrite Hh in Hp|done]. Qed.

Lemma rollback_rolling L d j : rollbackOk L d j → rolling j → unsealed L d j.(RReceipt) j.(RAuthorization).(Authorization) ∧
  d.(currentSlot) = Holds j.(FromSlot) ∧ (d.(current) = Some j.(FromSlot).(Target) ∨ d.(current) = Some j.(ToSlot).(Target)).
Proof. intros (_ & _ & [(_ & ? & ? & ?)|(Hc & _)]) [Hp|Hp]; first [done|by rewrite Hp in Hc]. Qed.

Lemma rollback_completed L d j : rollbackOk L d j → j.(RPhase) = rollbackCompleted →
  sealed L d j.(RReceipt) ∧ d.(current) = Some j.(ToSlot).(Target).
Proof. intros (_ & _ & [([Hp|Hp] & _)|(_ & ? & ?)]) Hh; first [by rewrite Hh in Hp|done]. Qed.

Lemma inv_setCurrent L d j t : Inv L d → d.(journal) = Holds j → switching j → installed d.(slots) t → Inv L (setCurrent (Some t) d).
Proof.
  intros Hi Hj Hs Ht. keep Hi; [by exists t|]. destruct (inv_journalOk _ _ _ _ Hi Hj) as [Hok Hr]. unfold actionOk. simpl.
  rewrite Hj, Hr. pose proof (journal_switching _ _ _ Hok Hs) as Hu. destruct Hok as (? & ? & ? & ? & _). do 4 (split; [done|]). by left.
Qed.

Lemma inv_setCurrent_rollback L d j s : Inv L d → d.(rollbackJournalFile) = Holds j → rolling j → s = j.(FromSlot) ∨ s = j.(ToSlot) →
  Inv L (setCurrent (Some s.(Target)) d).
Proof.
  intros Hi Hj Hs Ht. destruct (inv_rollbackOk _ _ _ _ Hi Hj) as [Hok Hr]. pose proof (rollback_rolling _ _ _ Hok Hs) as (Hu & Hc & _).
  pose proof Hok as (Hf & Hto & _). keep Hi.
  - exists s.(Target). split; [done|]. apply describes_installed. by destruct Ht as [->| ->].
  - unfold actionOk. simpl. rewrite Hj, Hr. split; [done|]. split; [done|]. left. do 3 (split; [done|]).
    destruct Ht as [->| ->]; [by left|by right].
Qed.

Lemma inv_setCurrentSlot L d j f : Inv L d → d.(journal) = Holds j → Inv L (setCurrentSlot f d).
Proof.
  intros Hi Hj. keep Hi. destruct (inv_journalOk _ _ _ _ Hi Hj) as [Hok Hr]. unfold actionOk. simpl. rewrite Hj, Hr. exact Hok.
Qed.

Lemma inv_setCurrentSlot_rollback L d j f : Inv L d → d.(rollbackJournalFile) = Holds j → j.(RPhase) = rollbackCompleted →
  Inv L (setCurrentSlot f d).
Proof.
  intros Hi Hj Hp. keep Hi. destruct (inv_rollbackOk _ _ _ _ Hi Hj) as [Hok Hr]. unfold actionOk. simpl. rewrite Hj, Hr.
  destruct (rollback_completed _ _ _ Hok Hp). destruct Hok as (? & ? & _). split; [done|]. split; [done|]. by right.
Qed.

(** The counter file catches up with the log. *)
Lemma inv_setCounter L d c : Inv L d → c = Z.of_nat (length L) →
  (∃ j, d.(journal) = Holds j ∧ j.(Phase) = journalHealthy) ∨ (∃ j, d.(rollbackJournalFile) = Holds j ∧ j.(RPhase) = rollbackCompleted) →
  Inv L (setCounter (Holds c) d).
Proof.
  intros Hi -> [(j & Hj & Hp)|(j & Hj & Hp)].
  - keep Hi. destruct (inv_journalOk _ _ _ _ Hi Hj) as [Hok Hr]. unfold actionOk. simpl. rewrite Hj, Hr.
    destruct (journal_healthy _ _ _ Hok Hp) as ((r & ? & ? & _) & ? & ?). destruct Hok as (? & ? & ? & ? & _).
    do 4 (split; [done|]). right. split; [done|]. split; [|done]. exists r. do 2 (split; [done|]). by left.
  - keep Hi. destruct (inv_rollbackOk _ _ _ _ Hi Hj) as [Hok Hr]. unfold actionOk. simpl. rewrite Hj, Hr.
    destruct (rollback_completed _ _ _ Hok Hp) as ((r & ? & ? & _) & ?). destruct Hok as (? & ? & _).
    do 2 (split; [done|]). right. split; [done|]. split; [|done]. exists r. do 2 (split; [done|]). by left.
Qed.

Lemma inv_setLastActivation L d s : Inv L d → describes d.(slots) s.(DonePreviousSlot) → describes d.(slots) s.(ActivatedSlot) →
  (∃ i, L !! i = Some s.(DoneReceipt).(Receipt)) → Inv L (setLastActivation (Holds s) d).
Proof.
  intros Hi Hp Ha Hl. keep Hi; [by intros ? [= <-]|].
  intros r Hrec. inversion Hrec as [s' Hs|s' Hs|j' r' Hj' Hr'|j' r' Hj' Hr']; subst; simpl in *; [by injection Hs as <-|..];
    apply (inv_recorded _ _ _ Hi); first [by apply recorded_rollback|by eapply recorded_journal|by eapply recorded_rollbackJournal].
Qed.

Lemma inv_setLastRollback L d s : Inv L d → (∃ i, L !! i = Some s.(RolledReceipt).(Receipt)) → Inv L (setLastRollback (Holds s) d).
Proof.
  intros Hi Hl. keep Hi. intros r Hrec. inversion Hrec as [s' Hs|s' Hs|j' r' Hj' Hr'|j' r' Hj' Hr']; subst; simpl in *;
    [|by injection Hs as <-|..];
    apply (inv_recorded _ _ _ Hi); first [by apply recorded_activation|by eapply recorded_journal|by eapply recorded_rollbackJournal].
Qed.

(** ** Retention *)

Lemma retain_target R t R' : retainSlotTarget R t = Some R' → R' = {[slotName t]} ∪ R.
Proof. unfold retainSlotTarget. destruct (validSlotTarget t); [|done]. by intros [= <-]. Qed.

Lemma retain_metadata R s R' : retainSlotMetadata R s = Some R' → R' = {[slotName s.(Target)]} ∪ R.
Proof. unfold retainSlotMetadata. destruct (validateSlotMetadata s); [|done]. apply retain_target. Qed.

(** A stage of the retention only looks and keeps what was kept. *)
Lemma wp_stage (m : M (gset string)) (P : gset string → Prop) (Q : gset string → root → Prop) (E C : root → Prop) d : E d → C d →
  wp m (λ R d', d' = d ∧ P R) (λ d', d' = d) (λ d', d' = d) d → (∀ R, P R → Q R d) → wp m Q E C d.
Proof. intros HE HC Hm HQ. eapply wp_mono; [exact Hm|..]; [intros R d' [-> HP]; by apply HQ|by intros ? ->..]. Qed.

Lemma stage_previous d R : wp (retainOptionalSlotMetadata R)
  (λ R' d', d' = d ∧ (R ⊆ R' ∧ ∀ s, d.(previousSlot) = Holds s → slotName s.(Target) ∈ R')) (λ d', d' = d) (λ d', d' = d) d.
Proof.
  apply wp_bind, wp_read; [done..| |].
  - intros Ha. apply wp_ret. do 2 (split; [done|]). intros s. by rewrite Ha.
  - intros s Hs. apply wp_given; [done|]. intros R' ->%retain_metadata. split; [done|]. split; [set_solver|].
    rewrite Hs. intros ? [= <-]. set_solver.
Qed.

Lemma stage_journal d R : wp (retainOptionalActivationJournal R)
  (λ R' d', d' = d ∧ (R ⊆ R' ∧ ∀ j, d.(journal) = Holds j → slotName j.(JPreviousSlot).(Target) ∈ R' ∧ slotName j.(CandidateTarget) ∈ R'))
  (λ d', d' = d) (λ d', d' = d) d.
Proof.
  apply wp_bind, wp_read; [done..| |].
  - intros Ha. apply wp_ret. do 2 (split; [done|]). intros s. by rewrite Ha.
  - intros j Hj. apply wp_bind, wp_guard; [done|]. intros _. apply wp_bind, wp_given; [done|]. intros R1 ->%retain_target.
    apply wp_bind, wp_given; [done|]. intros R2 ->%retain_target. apply wp_given; [done|]. intros R3 ->%retain_metadata.
    split; [done|]. split; [set_solver|]. rewrite Hj. intros ? [= <-]. set_solver.
Qed.

Lemma stage_rollback d R : wp (retainOptionalRollbackJournal R)
  (λ R' d', d' = d ∧ (R ⊆ R' ∧ ∀ j, d.(rollbackJournalFile) = Holds j → slotName j.(FromSlot).(Target) ∈ R' ∧ slotName j.(ToSlot).(Target) ∈ R'))
  (λ d', d' = d) (λ d', d' = d) d.
Proof.
  apply wp_bind, wp_read; [done..| |].
  - intros Ha. apply wp_ret. do 2 (split; [done|]). intros s. by rewrite Ha.
  - intros j Hj. apply wp_bind, wp_guard; [done|]. intros _. apply wp_bind, wp_given; [done|]. intros R1 ->%retain_metadata.
    apply wp_given; [done|]. intros R2 ->%retain_metadata.
    split; [done|]. split; [set_solver|]. rewrite Hj. intros ? [= <-]. set_solver.
Qed.

Lemma stage_completed d R : wp (retainOptionalCompletedActivation R)
  (λ R' d', d' = d ∧ (R ⊆ R' ∧ ∀ s, d.(lastActivation) = Holds s → slotName s.(DonePreviousSlot).(Target) ∈ R' ∧ slotName s.(ActivatedSlot).(Target) ∈ R'))
  (λ d', d' = d) (λ d', d' = d) d.
Proof.
  apply wp_bind, wp_read; [done..| |].
  - intros Ha. apply wp_ret. do 2 (split; [done|]). intros s. by rewrite Ha.
  - intros j Hj. apply wp_bind, wp_given; [done|]. intros R1 ->%retain_metadata.
    apply wp_given; [done|]. intros R2 ->%retain_metadata.
    split; [done|]. split; [set_solver|]. rewrite Hj. intros ? [= <-]. set_solver.
Qed.

(** Of what a staging receipt retains nothing is relied on. *)
Lemma stage_receipt (m : M rootActionReceiptRecord) (f : rootActionReceiptRecord → M unit) d R : readOnly m → (∀ r, readOnly (f r)) →
  wp (r ← attempt (record ← m; f record;; given (retainReceiptResult R record.(Receipt))); mret (default R r))
     (λ R' d', d' = d ∧ R ⊆ R') (λ d', d' = d) (λ d', d' = d) d.
Proof.
  intros Hm Hf. apply wp_bind, wp_attempt.
  apply wp_bind, wp_readOnly; [done|by apply wp_ret|done|]. intros r. apply wp_bind, wp_readOnly; [done|by apply wp_ret|done|]. intros _.
  apply wp_given; [by apply wp_ret|]. intros R' HR'. apply wp_ret. split; [done|]. simpl.
  unfold retainReceiptResult in HR'. repeat case_match; try done; apply retain_target in HR' as ->; set_solver.
Qed.

Lemma stage_staging d R : wp (retainOptionalStagingReceipt R) (λ R' d', d' = d ∧ R ⊆ R') (λ d', d' = d) (λ d', d' = d) d.
Proof. apply stage_receipt; [ro|intros; ro]. Qed.

Lemma stage_result d R : wp (retainOptionalRollbackResult R) (λ R' d', d' = d ∧ R ⊆ R') (λ d', d' = d) (λ d', d' = d) d.
Proof.
  apply wp_bind, wp_attempt. apply wp_bind, wp_readOnly; [ro|by apply wp_ret|done|]. intros r.
  apply wp_bind, wp_readOnly; [ro|by apply wp_ret|done|]. intros _.
  apply wp_given; [by apply wp_ret|]. intros R' HR'. apply wp_ret. split; [done|]. simpl.
  unfold retainReceiptResult in HR'. repeat case_match; try done; apply retain_target in HR' as ->; set_solver.
Qed.

(** Everything that is needed is retained. *)
Lemma wp_retained L (Q : gset string → root → Prop) (E C : root → Prop) d : Inv L d → E d → C d →
  (∀ R, (∀ t, needed d t → slotName t ∈ R) → Q R d) → wp retainedSlotNames Q E C d.
Proof.
  intros Hi HE HC HQ. apply wp_bind, wp_currentTarget; [done..|]. intros t Ht Hv. apply wp_bind, wp_given; [done|].
  intros R0 ->%retain_target.
  apply wp_bind; eapply wp_stage; [done..|apply stage_previous|]. intros R1 [H01 Hprev].
  apply wp_bind; eapply wp_stage; [done..|apply stage_journal|]. intros R2 [H12 Hj].
  apply wp_bind; eapply wp_stage; [done..|apply stage_rollback|]. intros R3 [H23 Hr].
  apply wp_bind; eapply wp_stage; [done..|apply stage_completed|]. intros R4 [H34 Hd].
  apply wp_bind; eapply wp_stage; [done..|apply stage_staging|]. intros R5 H45.
  eapply wp_stage; [done..|apply stage_result|]. intros R6 H56. apply HQ.
  assert (Hcur : slotName t ∈ R6) by set_solver.
  intros u Hu. inversion Hu as [? Hu'|s Hs Hn1 Hn2|s Hs|s Hs|s Hs|j Hj'|j Hj' _|j Hj'|j Hj']; subst.
  - by rewrite Ht in Hu'; injection Hu' as <-.
  - pose proof (inv_quiet _ _ _ Hi (conj Hn1 Hn2)) as (s' & Hs' & Hc & _). rewrite Hs in Hs'. injection Hs' as <-.
    rewrite Ht in Hc. by injection Hc as <-.
  - apply Hprev in Hs. set_solver.
  - apply Hd in Hs. set_solver.
  - apply Hd in Hs. set_solver.
  - apply Hj in Hj'. set_solver.
  - apply Hj in Hj'. set_solver.
  - apply Hr in Hj'. set_solver.
  - apply Hr in Hj'. set_solver.
Qed.

Definition slotsOnly (d d' : root) : Prop := ∃ sl, d' = setSlots sl d.

Lemma needed_slots d sl t : needed (setSlots sl d) t → needed d t.
Proof.
  intros Ht. inversion Ht; subst; simpl in *; [by apply needed_current|by apply needed_slot|by apply needed_previous|
    by apply needed_done_previous|by apply needed_done_activated|by apply needed_journal|by apply needed_candidate|
    by apply needed_from|by apply needed_to].
Qed.

Lemma wp_removeSlots L R names : ∀ removed (Q : bool → root → Prop) (E C : root → Prop) d, Inv L d → (∀ t, needed d t → slotName t ∈ R) →
  (∀ b d', Inv L d' → slotsOnly d d' → Q b d' ∧ E d' ∧ C d') → wp (removeSlots R names removed) Q E C d.
Proof.
  induction names as [|name names IH]; intros removed Q E C d Hi HR HQ.
  { apply wp_ret. apply HQ; [done|]. exists d.(slots). by destruct d. }
  simpl. destruct (HQ removed d Hi) as (_ & HE & HC); [exists d.(slots); by destruct d|].
  destruct (_ || _) eqn:Eb; [by apply IH|]. apply orb_false_iff in Eb as [_ Hn%bool_decide_eq_false].
  assert (Hwrite : ∀ sl d1, Inv L d1 → slotsOnly d d1 →
    (∀ v c, sl !! v = Some (Some c) → d1.(slots) !! v = Some (Some c)) → (∀ v, v ≠ name → sl !! v = d1.(slots) !! v) →
    Inv L (setSlots sl d1) ∧ slotsOnly d (setSlots sl d1)).
  { intros sl d1 Hi1 [sl1 ->] Hsub Hsame. split; [|by exists sl]. apply inv_setSlots; [done| |].
    - intros t Ht%needed_slots%HR. apply Hsame. by intros <-.
    - intros v c Hv%Hsub. by apply (inv_slots _ _ _ Hi1). }
  assert (Hdone : ∀ d1, Inv L d1 → slotsOnly d d1 → E d1 ∧ C d1 ∧ wp (removeSlots R names true) Q E C d1).
  { intros d1 Hi1 Hs1. destruct (HQ true d1 Hi1 Hs1) as (_ & HE1 & HC1). split; [done|]. split; [done|]. apply IH; [done| |].
    - destruct Hs1 as [sl ->]. intros t Ht%needed_slots. by apply HR.
    - intros b d2 Hi2 [sl2 ->]. apply HQ; [done|]. destruct Hs1 as [sl ->]. by exists sl2. }
  apply wp_bind. apply wp_bind, wp_guard; [done|]. intros _. apply wp_bind, wp_observe; [done..|]. intros _ content Hcontent.
  assert (Hdel : ∀ d1, Inv L d1 → slotsOnly d d1 →
    wp (write (λ d0, setSlots (delete name d0.(slots)) d0)) (λ _ d2, wp (removeSlots R names true) Q E C d2) E C d1).
  { intros d1 Hi1 Hs1. destruct (Hdone d1 Hi1 Hs1) as (? & ? & _).
    destruct (Hwrite (delete name d1.(slots)) d1 Hi1 Hs1) as [Hi2 Hs2].
    - intros v c [_ Hv]%lookup_delete_Some. done.
    - intros v Hv. by apply lookup_delete_ne.
    - destruct (Hdone _ Hi2 Hs2) as (? & ? & ?). by apply wp_write. }
  apply wp_bind. destruct content as [binary|].
  - apply wp_bind, wp_observe; [done..|]. intros _ _ _.
    destruct (Hwrite (<[name := None]> d.(slots)) d Hi) as [Hi1 Hs1].
    + exists d.(slots). by destruct d.
    + intros v c [[_ ?]|[_ Hv]]%lookup_insert_Some; done.
    + intros v Hv. by apply lookup_insert_ne.
    + destruct (Hdone _ Hi1 Hs1) as (? & ? & _). apply wp_write; [done..| |done]. by apply Hdel.
  - apply wp_ret, Hdel; [done|]. exists d.(slots). by destruct d.
Qed.

Lemma wp_prune L (Q : unit → root → Prop) (E C : root → Prop) d : Inv L d →
  (∀ d', Inv L d' → slotsOnly d d' → Q () d' ∧ E d' ∧ C d') → wp pruneObsoleteSlots Q E C d.
Proof.
  intros Hi HQ. destruct (HQ d Hi) as (_ & HE & HC); [exists d.(slots); by destruct d|].
  apply wp_bind, (wp_retained L); [done..|]. intros R HR. apply wp_bind, wp_observe; [done..|]. intros _ names _.
  apply wp_bind, (wp_removeSlots L); [done..|]. intros b d' Hi' Hs'. destruct (HQ d' Hi' Hs') as (? & ? & ?).
  split; [|done]. destruct b; [by apply wp_touch|by apply wp_ret].
Qed.

(** ** Activation *)

Lemma digest_roundtrip v digest : hexDigestPattern v = true → parseArtifactDigest v = Some digest → hexEncode digest = v.
Proof.
  unfold hexDigestPattern, exactly, parseArtifactDigest. intros [_ Hv]%andb_true_iff Hp. destruct (hexDecode v) as [dg|] eqn:Ed; [|done].
  destruct (_ =? _)%nat; [|done]. injection Hp as <-. by eapply hexDecode_encode.
Qed.

Lemma receipt_digest r : validateRootActionReceipt r = true → hexDigestPattern r.(ResultArtifactSHA256) = true.
Proof. unfold validateRootActionReceipt, validateArtifact. intros Hv. bprop. done. Qed.

Lemma last_length {A} (l : list A) x : last l = Some x → l !! (length l - 1)%nat = Some x.
Proof. rewrite last_lookup. intros <-. f_equal. lia. Qed.

Lemma wp_persist L j claimed dirs (Q : unit → root → Prop) (E C : root → Prop) d : Inv L d → d.(journal) = Holds j → j.(Phase) = journalHealthy →
  (∀ d', Inv L d' → E d' ∧ C d') → (∀ d', Inv L d' → idle d' → Q () d') → wp (persistHealthyActivation j claimed dirs) Q E C d.
Proof.
  intros Hi Hj Hp HEC HQ. destruct (HEC d Hi) as [HE HC].
  destruct (inv_journalOk _ _ _ _ Hi Hj) as [Hok Hroll]. pose proof (journal_healthy _ _ _ Hok Hp) as ((rec & Hrec & Hlast & _) & Hcur & rec' & Hrec' & Hcontent).
  rewrite Hrec in Hrec'. injection Hrec' as <-. destruct Hok as (Hprev & _ & _).
  pose proof (last_length _ _ Hlast) as HL. pose proof (log_counter _ (inv_log _ _ _ Hi) _ _ HL) as Hcount.
  assert (Hlen : (length L ≠ 0)%nat) by (by destruct L).
  apply wp_bind, wp_given; [done|]. rewrite Hrec. intros ? [= <-]. apply wp_bind, wp_counter; [done..|].
  apply wp_bind, wp_guard; [done|]. intros _. apply wp_bind, wp_now; [done|]. intros now.
  apply wp_bind, wp_verifyReceipt; [done..|]. intros Hv%receipt_digest. apply wp_bind, wp_given; [done|]. intros digest Hd%digest_roundtrip; [|done].
  set (activated := activatedSlot j rec.(Receipt) digest).
  assert (Hact : describes d.(slots) activated).
  { change (contentIs d.(slots) j.(CandidateTarget) rec.(Receipt).(ResultArtifactSize) (hexEncode digest)). by rewrite Hd. }
  (* the writes, one tree after the other *)
  pose proof (inv_setLastActivation L d (mkCompleted j.(JAuthorization) rec j.(JPreviousSlot) activated) Hi Hprev Hact (ex_intro _ _ HL)) as Hi1.
  destruct (HEC _ Hi1) as [HE1 HC1]. apply wp_bind, wp_write; [done..| |done]. apply wp_bind, wp_touch; [done..|].
  set (d1 := setLastActivation _ d) in *.
  assert (Hi2 : Inv L (setCounter (Holds rec.(Receipt).(RootActionCounter)) d1)).
  { apply inv_setCounter; [done|lia|]. left. by exists j. }
  destruct (HEC _ Hi2) as [HE2 HC2]. apply wp_bind, wp_write; [done..| |done]. set (d2 := setCounter _ d1) in *.
  pose proof (inv_setFloor base L d2 j (Holds (mkFloor j.(JSequence) j.(JSecurityEpoch) j.(JMinimumSafeVersion) j.(JVersion) rec.(Receipt).(ResultManifestSHA256))) Hi2 Hj Hp) as Hi3.
  destruct (HEC _ Hi3) as [HE3 HC3]. apply wp_bind, wp_bind, wp_touch; [done..|]. apply wp_write; [done..| |done]. set (d3 := setFloor _ d2) in *.
  pose proof (inv_setPreviousSlot _ _ _ _ Hi3 Hprev) as Hi4.
  destruct (HEC _ Hi4) as [HE4 HC4]. apply wp_bind, wp_write; [done..| |done]. set (d4 := setPreviousSlot _ d3) in *.
  pose proof (inv_setCurrentSlot L d4 j (Holds activated) Hi4 Hj) as Hi5.
  destruct (HEC _ Hi5) as [HE5 HC5]. apply wp_bind, wp_write; [done..| |done]. set (d5 := setCurrentSlot _ d4) in *.
  apply wp_bind, wp_claims; [apply cl_clearStaged|]. intros d6 (a & r & ->).
  assert (Hi6 : Inv L (setActivationClaim a (setRollbackClaim r d5))) by (by apply inv_claim, inv_rollbackClaim).
  destruct (HEC _ Hi6) as [HE6 HC6]. do 2 (split; [done|]). intros _.
  assert (Hi7 : Inv L (setJournal Absent (setActivationClaim a (setRollbackClaim r d5)))).
  { apply inv_closeJournal; [done|done| |unfold ceiling; simpl; by rewrite Hj, Hp].
    exists activated. do 3 (split; [done|]). unfold counterOf. simpl. lia. }
  destruct (HEC _ Hi7) as [HE7 HC7]. apply wp_bind, wp_write; [done..| |done].
  apply (wp_prune L); [done|]. intros d8 Hi8 (sl & ->). destruct (HEC _ Hi8). split; [|done]. by apply HQ.
Qed.

Lemma wp_rollback L j (Q : unit → root → Prop) (E C : root → Prop) d : Inv L d → d.(journal) = Holds j → switching j →
  (∀ d', Inv L d' → E d' ∧ C d') → (∀ d', Inv L d' → idle d' → Q () d') → ∀ j', j'.(PreviousTarget) = j.(PreviousTarget) →
  j'.(JPreviousSlot) = j.(JPreviousSlot) → wp (rollback j') Q E C d.
Proof.
  intros Hi Hj Hs HEC HQ j' Ht' Hs'. destruct (HEC d Hi) as [HE HC].
  destruct (inv_journalOk _ _ _ _ Hi Hj) as [Hok Hroll]. pose proof (journal_switching _ _ _ Hok Hs) as (_ & _ & Hc).
  destruct Hok as (Hprev & Hpt & _).
  assert (Hi1 : Inv L (setCurrent (Some j'.(PreviousTarget)) d)).
  { eapply inv_setCurrent; [done..|]. rewrite Ht', Hpt. by apply describes_installed. }
  destruct (HEC _ Hi1) as [HE1 HC1]. apply wp_bind, wp_switch; [done..|]. intros _. split; [|done].
  apply wp_bind, wp_restart; [done..|].
  pose proof (inv_setCurrentSlot L _ j (Holds j'.(JPreviousSlot)) Hi1 Hj) as Hi2.
  destruct (HEC _ Hi2) as [HE2 HC2]. apply wp_bind, wp_write; [done..| |done].
  assert (Hi3 : Inv L (setJournal Absent (setCurrentSlot (Holds j'.(JPreviousSlot)) (setCurrent (Some j'.(PreviousTarget)) d)))).
  { apply inv_closeJournal; [done|done| |symmetry; by apply (ceiling_switching _ j)].
    exists j'.(JPreviousSlot). split; [done|]. simpl. by rewrite Ht', Hs', Hpt. }
  destruct (HEC _ Hi3) as [HE3 HC3]. apply wp_write; [done..| |done]. by apply HQ.
Qed.

Lemma wp_recoverActivation L claimed (Q : unit → root → Prop) (E C : root → Prop) d : Inv L d → d.(rollbackJournalFile) = Absent →
  (∀ d', Inv L d' → E d' ∧ C d') → (∀ d', Inv L d' → idle d' → Q () d') → wp (recoverActivation claimed) Q E C d.
Proof.
  intros Hi Hr HEC HQ. destruct (HEC d Hi) as [HE HC]. apply wp_bind, wp_read; [done..| |].
  - intros Hj. apply wp_ret. by apply HQ.
  - intros j Hj. apply wp_bind, wp_guard; [done|]. intros _.
    case_if Eh; [apply (wp_persist L); [done..|by apply String.eqb_eq|done|done]|].
    case_if Es; [|by apply wp_fail]. apply (wp_rollback L j); [done..| |done|done|done|done].
    apply orb_true_iff in Es as [?%String.eqb_eq|?%String.eqb_eq]; [by left|by right].
Qed.
End inv.

End UpdaterInv.
