(* ===== verification/UpdaterRuns.v ===== *)
(** Activation, rollback and whole runs of the root activator keep the invariant of
    UpdaterProps.v: the journal is opened before the authorization is consumed, the link is
    switched under the journal, and a receipt is added to the log when the journal says that
    the action is complete. *)

From S2P Require Import Prelude.
From S2P Require Import GoStrings.
From S2P Require Import UpdateAuth.
From S2P Require Import Updater.
From S2P Require Import UpdaterProps.
From S2P Require Import UpdaterInv.
From Stdlib Require Import Ascii.

Module UpdaterRuns.
Import UpdateAuth.
Import Updater.
Import UpdaterProps.
Import UpdaterInv.

(** ** Names of slots *)

Lemma Split_single c v x : Split c v = [x] → v = x.
Proof.
  revert x. induction v as [|a v IH]; intros x; simpl; [by intros [= <-]|].
  destruct (Ascii.eqb a c); [|destruct (Split c v) as [|p ps] eqn:Ev; [by destruct (Split_nonempty c v)|]].
  - intros [= _ Hn]. by destruct (Split_nonempty c v).
  - intros [= <- ->]. f_equal. by apply IH.
Qed.

Lemma cl_perform f : (∀ ans d d', f ans d = Some d' → claimsOnly d d') → claims (perform f).
Proof.
  intros Hf d l. unfold perform. destruct l as [|ans l]; [apply claimsOnly_refl|].
  destruct (outcome ans), (f ans d) eqn:Ef; simpl; try apply claimsOnly_refl; by eapply Hf.
Qed.

Section runs.
Context `{Semver, Crypto, Host, HVerifier : Verifier, HLaws : !VerifierLaws HVerifier}.
Context (base : gmap string string).
Notation Inv := (Inv base).

Lemma slotName_target v : validSlotTarget (slotTarget v) = true → slotName (slotTarget v) = v.
Proof.
  unfold validSlotTarget, slotName.
  assert (Split "/" (slotTarget v) = "slots" :: Split "/" v ++ ["p2pstream"]) as ->.
  { change (slotTarget v) with ("slots" ++ String "/" (v ++ String "/" "p2pstream"))%string. by rewrite !Split_app. }
  destruct (Split "/" v) as [|x [|y l]] eqn:Ev; simpl; [done| |by destruct l].
  intros _. by apply Split_single in Ev.
Qed.

(** What a run leaves: the invariant, for a log that extends the one before. *)
Definition good (L : list RootActionReceipt) (d : root) : Prop := ∃ L', L `prefix_of` L' ∧ Inv L' d.

Lemma good_refl L d : Inv L d → good L d.
Proof. by exists L. Qed.

Lemma good_trans L L' d : L `prefix_of` L' → good L' d → good L d.
Proof. intros HL (L2 & HL2 & Hi). exists L2. split; [by etrans|done]. Qed.
Hint Resolve good_refl : core.

Definition safe {A} (L : list RootActionReceipt) (m : M A) (d : root) : Prop := wp m (λ _, good L) (good L) (good L) d.

Lemma safe_trans {A} L L' (m : M A) d : L `prefix_of` L' → safe L' m d → safe L m d.
Proof. intros HL Hm. eapply wp_mono; [exact Hm|..]; simpl; eauto using good_trans. Qed.

Lemma safe_fail {A} L d : good L d → safe L (fail : M A) d.
Proof. apply wp_fail. Qed.

(** ** Installing a slot *)

Definition fits (content : string) (a : Artifact) : Prop :=
  Z.of_nat (String.length content) = a.(Size) ∧ sha256 content = a.(SHA256).

Lemma wp_install L j release (Q : unit → root → Prop) (E C : root → Prop) d : Inv L d → d.(journal) = Holds j → switching j →
  validSlotTarget (slotTarget release.(RelVersion)) = true →
  (∀ content, fits content release.(RelArtifact) → allowed base release.(RelVersion) content) → E d → C d →
  (∀ sl, Inv L (setSlots sl d) →
     contentIs sl (slotTarget release.(RelVersion)) release.(RelArtifact).(Size) (artifactHex release.(RelArtifact)) →
     Q () (setSlots sl d) ∧ E (setSlots sl d)) →
  wp (installSlot release) Q E C d.
Proof.
  intros Hi Hj Hs Hv Ha HE HC HQ. pose proof (slotName_target _ Hv) as Hn.
  apply wp_bind, wp_touch; [done..|]. apply wp_bind, wp_observe; [done..|]. intros _ b [= <-]. case_bool_decide as Hex.
  - apply wp_observe; [done..|]. intros _ []. destruct (slots d !! RelVersion release) as [[content|]|] eqn:Ec; [|done..].
    destruct (_ && _) eqn:Eb; [|done]. intros _. apply andb_true_iff in Eb as [Es%Z.eqb_eq Eh%String.eqb_eq].
    replace d with (setSlots d.(slots) d) by by destruct d. apply HQ; [by destruct d|].
    split; [done|]. exists content. by rewrite Hn.
  - apply wp_bind, wp_touch; [done..|]. apply wp_bind, wp_observe; [done..|]. intros ans content Hc.
    destruct (artifactFile _) as [text|]; [|done]. simpl in Hc. destruct (_ && _) eqn:Eb; [|done]. injection Hc as ->.
    apply andb_true_iff in Eb as [Es%Z.eqb_eq Eh%String.eqb_eq]. apply wp_bind, wp_touch; [done..|].
    assert (Hnone : d.(slots) !! release.(RelVersion) = None).
    { destruct (_ !! _) eqn:El; [|done]. destruct Hex. eauto. }
    destruct (HQ (<[RelVersion release := Some content]> d.(slots))) as [HQ' HE'].
    + apply inv_setSlots; [done| |].
      * intros t Ht. destruct (needed_installed base _ _ _ Hi Ht) as (_ & c & Hc). apply lookup_insert_ne.
        intros Hv'. rewrite <-Hv', Hnone in Hc. done.
      * intros version c. rewrite lookup_insert_Some. intros [[<- [= <-]]|[_ Hc]]; [by apply Ha|by apply (inv_slots _ _ _ Hi)].
    + split; [done|]. exists content. rewrite Hn, lookup_insert_eq. split; [done|]. split; [done|]. unfold artifactHex. by rewrite Eh.
    + by apply wp_write.
Qed.
(** ** Activation *)

(** What is checked before the journal is opened names the executable. *)
Definition checked (ready : readyRecord) (release : VerifiedRelease) : Prop :=
  validSlotTarget (slotTarget release.(RelVersion)) = true →
  ∀ content, fits content release.(RelArtifact) → allowed base release.(RelVersion) content.

Lemma wp_verifyReady ready policy (Q : VerifiedRelease → root → Prop) (E C : root → Prop) d : E d → C d →
  (∀ release, checked ready release → policy.(UCurrentSequence) ≤ release.(RelSequence) →
     policy.(UCurrentSecurityEpoch) ≤ release.(RelSecurityEpoch) → validReleaseVersion release.(RelVersion) = true → Q release d) → wp (verifyReady ready policy) Q E C d.
Proof using HLaws.
  intros HE HC HQ. apply wp_bind, wp_required, wp_observe; [done..|]. intros ans [manifest|] _; [|done].
  apply wp_bind, wp_given; [done|]. intros release [Hsq Hep]%verify_floor. apply wp_bind, wp_guard; [done|]. intros Hrel.
  assert (Hver : validReleaseVersion release.(RelVersion) = true) by (unfold validateRelease in Hrel; by do 4 apply andb_true_iff in Hrel as [Hrel _]).
  do 2 (apply wp_bind, wp_guard; [done|]; intros _). apply wp_bind, wp_guard; [done|]. intros Hm. apply wp_bind, wp_now; [done|]. intros now.
  apply wp_bind, wp_verifyAuthorization; [done..|]. intros pinned key config Hp Hk Hc Ha.
  apply wp_bind, wp_touch; [done..|]. apply wp_bind, wp_observe; [done..|]. intros _ _ _. apply wp_ret, HQ; [|done..].
  intros _ content [Hsize Hsha]. right. unfold authorizationMatchesRelease in Hm. bprop.
  exists pinned, key, config, ready.(ReadyAuthorization), now. do 5 (split; [done|]).
  split; [unfold fits in *; congruence|]. by rewrite Hsha.
Qed.

(** The slot to come back to is one the tree describes. *)
Lemma wp_recoverySlot L candidate (Q : string * slotMetadata → root → Prop) (E C : root → Prop) d : Inv L d → idle d → E d → C d →
  (∀ s, describes d.(slots) s → Q (s.(Target), s) d) → wp (recoverySlot candidate) Q E C d.
Proof.
  intros Hi Hd HE HC HQ. destruct (inv_quiet _ _ _ Hi Hd) as (s & Hs & Hc & Hdes & _).
  apply wp_bind, wp_currentTarget; [done..|]. intros t Ht _. rewrite Hc in Ht. injection Ht as <-.
  apply wp_bind, wp_currentSlot; [done..|]. intros s' Hs' _ _. rewrite Hs in Hs'. injection Hs' as <-.
  case_if Ec; [|by apply wp_ret, HQ]. apply wp_bind.
  apply wp_bind, wp_required, wp_read; [done..|done|]. intros done_ Hdone. apply wp_bind, wp_counter; [done..|].
  apply wp_bind, wp_guard; [done|]. intros _. apply wp_bind, wp_now; [done|]. intros now.
  apply wp_bind, wp_verifyReceipt; [done..|]. intros _. apply wp_bind, wp_guard; [done|]. intros _.
  apply wp_ret, wp_ret, HQ. by apply (inv_done _ _ _ Hi).
Qed.

(** The tree while the journal is prepared: the metadata still describe what runs. *)
Record prepared (L : list RootActionReceipt) (j : activationJournal) (d : root) : Prop := {
  prepared_inv : Inv L d;
  prepared_journal : d.(journal) = Holds j;
  prepared_quiet : quiet L d }.

Lemma prepared_close L j d : prepared L j d → switching j → Inv L (setJournal Absent d).
Proof.
  intros [Hi Hj Hq] Hs. apply inv_closeJournal; [done| |done|symmetry; by eapply ceiling_switching].
  by apply (inv_journalOk _ _ _ _ Hi Hj).
Qed.

(** The journal is for a release at or above the floor. *)
Definition ahead (d : root) (j : activationJournal) : Prop := (releaseFloor d).1 ≤ j.(JSequence) ∧ (releaseFloor d).2 ≤ j.(JSecurityEpoch).

(** The tree between the switch and the receipt. *)
Record switched (L : list RootActionReceipt) (j : activationJournal) (release : VerifiedRelease) (d : root) : Prop := {
  switched_inv : Inv L d;
  switched_journal : d.(journal) = Holds (withPhase j journalSwitched None);
  switched_current : d.(current) = Some j.(CandidateTarget);
  switched_ahead : ahead d j;
  switched_floor : floorOf d = j.(JAuthorization).(Authorization).(CommandSequence);
  switched_content : contentIs d.(slots) j.(CandidateTarget) release.(RelArtifact).(Size) (artifactHex release.(RelArtifact)) }.

Lemma journalOk_phase L d j phase : journalOk L d j → switching j → phase = journalPrepared ∨ phase = journalSwitched →
  journalOk L d (withPhase j phase None).
Proof.
  intros Hok Hs Hp. pose proof (journal_switching _ _ _ Hok Hs) as (? & ? & ?). destruct Hok as (? & ? & ? & ? & _).
  do 4 (split; [done|]). left. split; [done|]. by split.
Qed.

Lemma wp_switchToCandidate L ready release j (Q : unit → root → Prop) d : prepared L j d → j.(Phase) = journalPrepared →
  j.(JAuthorization) = ready.(ReadyAuthorization) → j.(CandidateTarget) = slotTarget release.(RelVersion) → checked ready release →
  ahead d j → (∀ d', switched L j release d' → Q () d') → wp (switchToCandidate ready release j) Q (Inv L) (Inv L) d.
Proof.
  intros Hp Hphase Ha Ht Hch Hahead HQ. pose proof (prepared_inv _ _ _ Hp) as Hi. pose proof (prepared_journal _ _ _ Hp) as Hj.
  assert (Hsw : switching j) by by left.
  apply wp_bind, wp_now; [done|]. intros now.
  assert (Hundo : ∀ d', prepared L j d' → wp (attempt removeJournal;; fail) Q (Inv L) (Inv L) d').
  { intros d' Hp'. pose proof (prepared_inv _ _ _ Hp'). pose proof (prepared_close _ _ _ Hp' Hsw).
    apply wp_bind, wp_attempt, wp_write; [by apply wp_fail|done|by apply wp_fail| by apply wp_fail]. }
  apply wp_bind, wp_attempt, (wp_consume _ _ _ _ _ _ _ (Hundo _ Hp) Hi).
  intros sha f Hf Hlt _. set (d1 := setCommandFloor (Holds f) d).
  assert (Hi1 : Inv L d1) by (apply inv_setCommandFloor; [done|lia]).
  assert (Hp1 : prepared L j d1) by (constructor; [done|done|apply Hp]).
  split; [|split; [by apply Hundo|done]]. apply wp_bind, wp_guard; [done|]. intros _.
  destruct (inv_journalOk _ _ _ _ Hi1 Hj) as [Hok1 _]. pose proof Hok1 as (Hprev & Hpt & _ & (Hv & _) & _).
  assert (Hv' : validSlotTarget (slotTarget release.(RelVersion)) = true) by (by rewrite <-Ht).
  apply wp_bind, (wp_install L j); try done; [by apply Hch|]. intros sl Hi2 Hcontent. rewrite <-Ht in Hcontent.
  split; [|done]. set (d2 := setSlots sl d1) in *.
  pose proof (inv_setCurrent base L d2 j _ Hi2 Hj Hsw (contentIs_installed _ _ _ _ Hcontent)) as Hi3.
  apply wp_bind, wp_switch; [done..|]. intros _. split; [|done]. set (d3 := setCurrent _ d2) in *.
  destruct (inv_journalOk _ _ _ _ Hi3 Hj) as [Hok3 Hr3].
  assert (Hi4 : Inv L (setJournal (Holds (withPhase j journalSwitched None)) d3)).
  { apply inv_setJournal; try done; [apply journalOk_phase; [done|done|by right]|].
    rewrite (ceiling_switching d3 j Hj Hsw). exact (ceiling_switching (setJournal (Holds (withPhase j journalSwitched None)) d3) _ eq_refl (or_intror eq_refl)). }
  assert (Hback : ∀ d', Inv L d' → d'.(slots) = sl → (∃ j', d'.(journal) = Holds j' ∧ switching j') →
    wp (attempt (switchCurrent j.(PreviousTarget));; fail) Q (Inv L) (Inv L) d').
  { intros d' Hi' Hsl (j' & Hj' & Hs'). assert (Hi5 : Inv L (setCurrent (Some j.(PreviousTarget)) d')).
    { eapply inv_setCurrent; [done..|]. rewrite Hsl, Hpt. destruct (inv_journalOk _ _ _ _ Hi2 Hj) as [Hok2 _].
      destruct Hok2 as (Hd2 & _). by apply describes_installed in Hd2. }
    apply wp_bind, wp_attempt, wp_switch; [by apply wp_fail|done|]. intros _. split; by apply wp_fail. }
  apply wp_bind, wp_attempt, wp_writeJournal; [apply Hback; [done|done|by exists j]|done|]. intros _ _. split.
  - apply wp_ret, HQ. constructor; [done|done|done|done| |done]. rewrite Ha, <-Hf. done.
  - apply Hback; [done|done|]. eexists. split; [done|]. by right.
Qed.

Lemma wp_completeActivation L ready release j claimed dirs d : switched L j release d → j.(JAuthorization) = ready.(ReadyAuthorization) →
  j.(JSequence) = release.(RelSequence) → j.(JSecurityEpoch) = release.(RelSecurityEpoch) →
  safe L (completeActivation ready release j claimed dirs) d.
Proof.
  intros Hsw Ha Hjs Hje. pose proof (switched_inv _ _ _ _ Hsw) as Hi. pose proof (switched_journal _ _ _ _ Hsw) as Hj.
  destruct (inv_journalOk _ _ _ _ Hi Hj) as [Hok Hr]. pose proof (journal_switching _ _ _ Hok (or_intror eq_refl)) as (_ & Hnew & Hcount).
  pose proof Hok as (Hprev & Hpt & Hct & Hv & _). simpl in *.
  apply wp_bind, wp_attempt, wp_restart; [|by apply good_refl|].
  { apply wp_bind, wp_attempt. apply (wp_rollback base L (withPhase j journalSwitched None)); try done; [by right|..].
    - intros d' Hi'. split; [by apply wp_fail, good_refl|by apply good_refl].
    - intros d' Hi' _. by apply wp_fail, good_refl. }
  apply wp_bind, wp_createReceipt; [by apply good_refl..|]. intros receipt [Hc Hseq Hact Hrs Hre Hsize Hsha].
  pose proof (ceiling_switching _ _ Hj (or_intror eq_refl)) as Hce. destruct (switched_ahead _ _ _ _ Hsw) as [Hb1 Hb2].
  set (j1 := withPhase j journalHealthy (Some receipt)). set (L1 := L ++ [receipt.(Receipt)]).
  assert (HL1 : L `prefix_of` L1) by by eexists.
  assert (Hi1 : Inv L1 (setJournal (Holds j1) d)).
  { apply inv_seal with d; [done|lia| | |by rewrite Hce..| |done|done|done|done|done| |].
    - by rewrite Hseq, <-Ha.
    - rewrite Hseq, (switched_floor _ _ _ _ Hsw), Ha. lia.
    - intros _. rewrite Hrs, Hre. simpl. by rewrite <-Hjs, <-Hje.
    - intros r Hrec. inversion Hrec as [s Hs|s Hs|j' r' Hj' Hr'|j' r' Hj' Hr']; subst; simpl in *.
      + right. by apply recorded_activation.
      + right. by apply recorded_rollback.
      + injection Hj' as <-. simpl in Hr'. injection Hr' as <-. by left.
      + congruence.
    - unfold actionOk. simpl. rewrite Hr. do 4 (split; [done|]). right. split; [done|].
      split; [|split; [apply Hsw|]].
      + exists receipt. split; [done|]. rewrite last_snoc, length_app. split; [done|]. right. unfold counterOf in *. simpl. lia.
      + exists receipt. split; [done|]. rewrite Hsize, Hsha. apply Hsw. }
  assert (Hg1 : ∀ d', Inv L1 d' → good L d') by (intros d' Hd'; by exists L1).
  apply wp_bind, wp_writeJournal; [by apply good_refl..|]. intros _ _. split; [|by apply Hg1].
  apply wp_bind, (wp_persist base L1); [done|done|done|by split; apply Hg1|].
  intros d' Hi' _. by apply wp_ret, Hg1.
Qed.
Lemma wp_readOnlyGood {A B} L (m : M A) (f : A → M B) d : readOnly m → Inv L d → (∀ a, safe L (f a) d) → safe L (m ≫= f) d.
Proof. intros Hm Hi Hf. apply wp_bind, wp_readOnly; [done|by apply good_refl..|done]. Qed.

Lemma newest L d seq : Inv L d → floorOf d < seq → Forall (λ r, seqOf r < seq) L.
Proof. intros Hi Hlt. eapply Forall_impl; [apply (inv_floor _ _ _ Hi)|]. simpl. lia. Qed.

Lemma wp_activateReady L ready policy claimed dirs d : Inv L d → idle d →
  floorOf d < ready.(ReadyAuthorization).(Authorization).(CommandSequence) →
  (releaseFloor d).1 ≤ policy.(UCurrentSequence) → (releaseFloor d).2 ≤ policy.(UCurrentSecurityEpoch) → safe L (activateReady ready policy claimed dirs) d.
Proof using HLaws.
  intros Hi Hd Hseq Hps Hpe. pose proof (good_refl _ _ Hi) as Hg. pose proof (inv_quiet _ _ _ Hi Hd) as Hq.
  apply wp_readOnlyGood; [auto with readonly|done|]. intros opened.
  apply wp_bind, wp_guard; [done|]. intros _. apply wp_bind, wp_verifyReady; [done..|]. intros release Hch Hrs Hre Hrv.
  apply wp_bind, (wp_recoverySlot L); [done..|]. intros s Hs. apply wp_bind, wp_given; [done|]. intros sha _.
  set (j := mkJournal _ _ _ _ _ _ _ _ _ _ _). apply wp_bind, wp_writeJournal; [done..|]. intros _ Hv.
  assert (Hi1 : Inv L (setJournal (Holds j) d)).
  { apply inv_setJournal; [done|apply Hd| |by unfold ceiling; destruct Hd as [-> _]|done]. do 3 (split; [done|]). split; [exact (conj Hv Hrv)|]. left. split; [by left|]. split; [done|].
    split; [by eapply newest|]. by destruct Hq as (? & _ & _ & _ & ?). }
  split; [|by apply good_refl]. apply wp_bind.
  eapply (wp_mono _ (λ _ d', switched L j release d')); [apply (wp_switchToCandidate L); try done; unfold ahead; simpl; change (releaseFloor (setJournal _ d)) with (releaseFloor d); lia|..].
  - intros [] d' Hd'. by apply wp_completeActivation.
  - apply good_refl.
  - apply good_refl.
Qed.

Lemma safe_clear L claimed a dirs (Q : unit → root → Prop) d : Inv L d → (∀ d', Inv L d' → Q () d') →
  wp (clearStagedIfMatchingAuthorization claimed a dirs) Q (good L) (good L) d.
Proof.
  intros Hi HQ. apply wp_claims; [apply cl_clearStaged|]. intros d' Hd'%(inv_claims base L); [|done].
  split; [by apply good_refl|]. split; [by apply good_refl|]. intros []. by apply HQ.
Qed.

Lemma ro_replayChecks : readOnly currentTarget.
Proof. unfold currentTarget. ro. Qed.
Lemma ro_currentSlot t : readOnly (loadCurrentSlotMetadata t).
Proof. unfold loadCurrentSlotMetadata. ro. Qed.
Hint Resolve ro_replayChecks ro_currentSlot : readonly.

Lemma safe_replay L ready f claimed dirs d : Inv L d → safe L (replayCompletedActivation ready f claimed dirs) d.
Proof.
  intros Hi. unfold replayCompletedActivation.
  repeat (apply wp_readOnlyGood; [solve [ro]|done|intros]). apply wp_bind, safe_clear; [done|]. intros d' Hi'. by apply wp_ret, good_refl.
Qed.

Lemma wp_loadFloor (Q : Floor → root → Prop) (E C : root → Prop) d : E d → C d →
  (∀ f, f.(FSequence) = (releaseFloor d).1 → f.(FSecurityEpoch) = (releaseFloor d).2 → Q f d) → wp loadFloor Q E C d.
Proof.
  intros HE HC HQ. apply wp_bind, wp_read; [done..| |].
  - intros Hf. apply wp_ret, HQ; unfold releaseFloor; by rewrite Hf.
  - intros f Hf. apply wp_bind, wp_guard; [done|]. intros _. apply wp_ret, HQ; unfold releaseFloor; by rewrite Hf.
Qed.

(** A policy that the floor was applied to is at or above it. *)
Lemma applyFloor_above policy f :
  f.(FSequence) ≤ (applyFloor policy f).(UCurrentSequence) ∧ f.(FSecurityEpoch) ≤ (applyFloor policy f).(UCurrentSecurityEpoch).
Proof. unfold applyFloor. simpl. split; case_match; lia. Qed.

Lemma safe_noChange L d : Inv L d → safe L noChange d.
Proof. intros Hi. apply wp_bind, wp_loadFloor; [by apply good_refl..|]. intros f _ _. by apply wp_ret, good_refl. Qed.

Lemma ro_readReady claimed : readOnly (readReady claimed).
Proof. unfold readReady. ro. Qed.
Hint Resolve ro_readReady : readonly.

Lemma safe_activateCommand L policy claimed d : Inv L d → idle d → safe L (activateCommand policy claimed) d.
Proof using HLaws.
  intros Hi Hd. pose proof (good_refl _ _ Hi) as Hg.
  apply wp_readOnlyGood; [destruct claimed; ro|done|]. intros [dirs|]; [|by apply safe_noChange].
  apply wp_bind, wp_loadFloor; [done..|]. intros floor_ Hfs Hfe. destruct (applyFloor_above policy floor_) as [Hps Hpe].
  apply wp_readOnlyGood; [auto with readonly|done|]. intros [ready|]; [|by apply safe_noChange].
  apply wp_bind, wp_guard; [done|]. intros _. apply wp_bind, wp_commandFloor; [done..|]. intros f Hf.
  cbv zeta. case_if Ef.
  - apply wp_bind, wp_guard; [done|]. intros _. by apply safe_replay.
  - apply wp_readOnlyGood; [destruct dirs; ro|done|]. intros dirs'. apply Z.leb_gt in Ef. apply wp_activateReady; [done|done|lia|simpl in *; lia..].
Qed.

Lemma safe_Activate L policy claimed d : Inv L d → d.(rollbackJournalFile) = Absent → safe L (Activate policy claimed) d.
Proof using HLaws.
  intros Hi Hr. pose proof (good_refl _ _ Hi) as Hg. apply wp_readOnlyGood; [auto with readonly|done|]. intros now.
  do 2 (apply wp_bind, wp_touch; [done..|]).
  apply wp_bind, (wp_recoverActivation base L); [done|done|by split; apply good_refl|]. intros d' Hi' Hd'. by apply safe_activateCommand.
Qed.

(** ** Rollback *)

Lemma wp_ensure L authorization action sha (Q : unit → root → Prop) d : Inv L d →
  (∀ d', Inv L d' → d' = d ∨ (∃ f, d' = setCommandFloor (Holds f) d) → floorOf d' = authorization.(Authorization).(CommandSequence) →
     authorization.(Authorization).(Action) = action → Q () d') →
  wp (ensureAuthorizationConsumed authorization action sha) Q (Inv L) (Inv L) d.
Proof.
  intros Hi HQ. apply wp_bind, wp_commandFloor; [done..|]. intros f Hf. cbv zeta. case_if Ef; [|case_if Elt; [by apply wp_fail|]].
  - apply wp_bind, wp_guard; [done|]. intros _. apply wp_verifyAuthorization; [done..|].
    intros pinned key config _ _ _ Ha%accepted_action. apply HQ; [done|by left| |done]. apply Z.eqb_eq in Ef. lia.
  - apply wp_bind, wp_now; [done|]. intros now. apply wp_bind, wp_consume; [done..|]. intros sha' f' Hf' Hlt Ha.
    assert (Inv L (setCommandFloor (Holds f') d)) by (apply inv_setCommandFloor; [done|lia]). split; [|done].
    apply wp_guard; [done|]. intros _. apply HQ; [done|by right; exists f'|done|done].
Qed.

Lemma rollbackOk_phase L d j phase : rollbackOk L d j → rolling j → phase = rollbackPrepared ∨ phase = rollbackSwitched →
  rollbackOk L d (withRollbackPhase j phase j.(RReceipt)).
Proof.
  intros Hok Hs Hp. pose proof (rollback_rolling _ _ _ Hok Hs). destruct Hok as (? & ? & _). do 2 (split; [done|]). by left.
Qed.

Lemma wp_switchRollback L j (Q : rollbackJournal → root → Prop) d : Inv L d → d.(rollbackJournalFile) = Holds j → rolling j →
  (∀ d', let j' := withRollbackPhase j rollbackSwitched j.(RReceipt) in
     Inv L d' → d'.(rollbackJournalFile) = Holds j' → floorOf d' = floorOf d → Q j' d') →
  wp (switchRollback j) Q (Inv L) (Inv L) d.
Proof.
  intros Hi Hj Hs HQ. apply wp_bind, wp_currentTarget; [done..|]. intros t Ht _. apply wp_bind, wp_guard; [done|]. intros _.
  assert (Hwrite : ∀ d1, Inv L d1 → d1.(rollbackJournalFile) = Holds j → floorOf d1 = floorOf d →
    wp (let j := withRollbackPhase j rollbackSwitched j.(RReceipt) in writeRollbackJournal j;; mret j) Q (Inv L) (Inv L) d1).
  { intros d1 Hi1 Hj1 Hf1. destruct (inv_rollbackOk _ _ _ _ Hi1 Hj1) as [Hok Hn].
    pose proof (rollback_rolling _ _ _ Hok Hs) as ((Hnone & _) & _).
    assert (Inv L (setRollbackJournal (Holds (withRollbackPhase j rollbackSwitched j.(RReceipt))) d1)).
    { apply inv_setRollbackJournal; [done|done| |by rewrite Hnone]. apply rollbackOk_phase; [done|done|by right]. }
    apply wp_bind, wp_writeRollbackJournal; [done..|]. split; [|done]. by apply wp_ret, HQ. }
  apply wp_bind. case_if Et; [by apply wp_ret, Hwrite|].
  assert (Inv L (setCurrent (Some (Target (ToSlot j))) d)) by (eapply inv_setCurrent_rollback; [done..|by right]).
  apply wp_switch; [done..|]. intros _. split; [|done]. by apply Hwrite.
Qed.
(** The receipt of the rollback completes the journal. *)
Lemma inv_sealRollback L d j receipt : Inv L d → d.(rollbackJournalFile) = Holds j → rolling j →
  d.(current) = Some j.(ToSlot).(Target) → floorOf d = j.(RAuthorization).(Authorization).(CommandSequence) →
  j.(RAuthorization).(Authorization).(Action) = AssignmentActionRollback →
  receiptFor j.(RAuthorization).(Authorization) (counterOf d) j.(ToSlot) receipt.(Receipt) →
  Inv (L ++ [receipt.(Receipt)]) (setRollbackJournal (Holds (withRollbackPhase j rollbackCompleted (Some receipt))) d).
Proof.
  intros Hi Hj Hs Hcur Hf Hact [Hc Hseq Hra _ _ _ _]. destruct (inv_rollbackOk _ _ _ _ Hi Hj) as [Hok Hn].
  pose proof (rollback_rolling _ _ _ Hok Hs) as ((_ & Hnew & Hcount) & _). pose proof Hok as (Hfrom & Hto & _).
  apply inv_seal with d; [done|lia|by rewrite Hseq|lia|done|done| |done..| |].
  - by rewrite Hra, Hact.
  - intros r Hrec. inversion Hrec as [s Hs'|s Hs'|j' r' Hj' Hr'|j' r' Hj' Hr']; subst; simpl in *.
    + right. by apply recorded_activation.
    + right. by apply recorded_rollback.
    + congruence.
    + injection Hj' as <-. simpl in Hr'. injection Hr' as <-. by left.
  - unfold actionOk. simpl. rewrite Hn. do 2 (split; [done|]). right. split; [done|]. split; [|done].
    exists receipt. split; [done|]. rewrite last_snoc, length_app. split; [done|]. right. unfold counterOf in *. simpl. lia.
Qed.

Lemma wp_settleRollback L j (Q : rollbackJournal → root → Prop) d : Inv L d → d.(rollbackJournalFile) = Holds j →
  j.(RPhase) = rollbackSwitched → floorOf d = j.(RAuthorization).(Authorization).(CommandSequence) →
  j.(RAuthorization).(Authorization).(Action) = AssignmentActionRollback →
  (∀ L' j' d', L `prefix_of` L' → Inv L' d' → d'.(rollbackJournalFile) = Holds j' → Q j' d') →
  wp (settleRollback j) Q (good L) (good L) d.
Proof.
  intros Hi Hj Hp Hf Hact HQ. pose proof (good_refl _ _ Hi) as Hg. assert (Hs : rolling j) by by right.
  destruct (inv_rollbackOk _ _ _ _ Hi Hj) as [Hok Hn].
  apply wp_bind, wp_currentTarget; [done..|]. intros t Ht _.
  assert (Hrest : ∀ d1, Inv L d1 → d1.(rollbackJournalFile) = Holds j → d1.(current) = Some j.(ToSlot).(Target) → floorOf d1 = floorOf d →
    wp (ok ← attempt restartAndCheck;
        match ok with
        | None => switchCurrent j.(FromSlot).(Target);; restartAndCheck;; removeRollbackJournal;; fail
        | Some _ =>
            receipt ← createRootActionReceipt j.(RAuthorization) j.(RAuthorizationSHA) j.(ToSlot);
            let j := withRollbackPhase j rollbackCompleted (Some receipt) in
            writeRollbackJournal j;; mret j
        end) Q (good L) (good L) d1).
  { intros d1 Hi1 Hj1 Hc1 Hf1. pose proof (good_refl _ _ Hi1) as Hg1. destruct (inv_rollbackOk _ _ _ _ Hi1 Hj1) as [Hok1 Hn1].
    pose proof (rollback_rolling _ _ _ Hok1 Hs) as ((_ & _ & Hcount) & Hslot & _). pose proof Hok1 as (Hfrom & _ & _).
    apply wp_bind, wp_attempt, wp_restart; [|done|].
    - assert (Hi2 : Inv L (setCurrent (Some j.(FromSlot).(Target)) d1)) by (eapply inv_setCurrent_rollback; [done..|by left]).
      pose proof (good_refl _ _ Hi2). apply wp_bind, wp_switch; [done..|]. intros _. split; [|done].
      apply wp_bind, wp_restart; [done..|].
      assert (Hi3 : Inv L (setRollbackJournal Absent (setCurrent (Some j.(FromSlot).(Target)) d1))).
      { apply inv_closeRollbackJournal; [done|done|]. by exists j.(FromSlot). }
      pose proof (good_refl _ _ Hi3). apply wp_bind, wp_write; [done..|by apply wp_fail|done].
    - apply wp_bind, wp_createReceipt; [done..|]. intros receipt Hr.
      assert (Hi2 := inv_sealRollback L d1 j receipt Hi1 Hj1 Hs Hc1 ltac:(congruence) Hact Hr).
      assert (HL : L `prefix_of` L ++ [receipt.(Receipt)]) by by eexists.
      apply wp_bind, wp_writeRollbackJournal; [done..|]. split; [|by eexists]. by apply wp_ret, (HQ _ _ _ HL Hi2). }
  apply wp_bind. case_if Et.
  - apply wp_ret, Hrest; [done|done| |done]. apply String.eqb_eq in Et. by rewrite Ht, Et.
  - apply wp_bind, wp_guard; [done|]. intros _.
    assert (Hi1 : Inv L (setCurrent (Some (Target (ToSlot j))) d)) by (eapply inv_setCurrent_rollback; [done..|by right]).
    pose proof (good_refl _ _ Hi1). apply wp_switch; [done..|]. intros _. split; [|done]. by apply Hrest.
Qed.

Lemma safe_claims {A B} L (m : M A) (f : A → M B) d : claims m → Inv L d →
  (∀ a d', Inv L d' → (∃ c r, d' = setActivationClaim c (setRollbackClaim r d)) → safe L (f a) d') → safe L (m ≫= f) d.
Proof.
  intros Hm Hi Hf. apply wp_bind, wp_claims; [done|]. intros d' Hd'. pose proof (inv_claims base _ _ _ Hd' Hi).
  split; [by apply good_refl|]. split; [by apply good_refl|]. intros a. by apply Hf.
Qed.

Lemma safe_finishRollback L j claimed d : Inv L d → d.(rollbackJournalFile) = Holds j → safe L (finishRollback j claimed) d.
Proof.
  intros Hi Hj. pose proof (good_refl _ _ Hi) as Hg. destruct (inv_rollbackOk _ _ _ _ Hi Hj) as [Hok Hn].
  apply wp_bind, wp_given; [done|]. intros record Hrec. destruct (String.eqb_spec j.(RPhase) rollbackCompleted) as [Hp|]; [|done].
  destruct (rollback_completed _ _ _ Hok Hp) as ((record' & Hrec' & Hlast & _) & Hcur). rewrite Hrec in Hrec'. injection Hrec' as <-.
  pose proof Hok as (_ & Hto & _).
  pose proof (last_length _ _ Hlast) as HL. pose proof (log_counter _ (inv_log _ _ _ Hi) _ _ HL) as Hcount.
  assert (Hlen : (length L ≠ 0)%nat) by (by destruct L).
  apply wp_bind, wp_counter; [done..|]. cbv zeta. apply wp_bind.
  apply wp_bind, wp_guard; [done|]. intros _. apply wp_bind, wp_now; [done|]. intros now.
  apply wp_bind, wp_verifyReceipt; [done..|]. intros _.
  assert (Hi1 : Inv L (setCounter (Holds record.(Receipt).(RootActionCounter)) d)).
  { apply inv_setCounter; [done|lia|]. right. by exists j. }
  apply wp_bind, wp_write; [done..| |by apply good_refl]. set (d1 := setCounter _ d) in *.
  assert (Hi2 : Inv L (setCurrentSlot (Holds j.(ToSlot)) d1)) by by eapply inv_setCurrentSlot_rollback.
  apply wp_bind, wp_write; [by apply good_refl..| |by apply good_refl]. set (d2 := setCurrentSlot _ d1) in *.
  assert (Hi3 : Inv L (setLastRollback (Holds (mkRollbackRecord j.(RAuthorization) record)) d2)) by (apply inv_setLastRollback; eauto).
  apply wp_bind, wp_write; [by apply good_refl..| |by apply good_refl]. set (d3 := setLastRollback _ d2) in *.
  apply wp_touch; [by apply good_refl..|].
  apply safe_claims; [apply cl_supersededRollback|done|]. intros _ d4 Hi4 (a & r & ->).
  apply safe_claims; [apply cl_removeMatching|done|]. intros _ d5 Hi5 (a' & r' & ->).
  set (d5 := setActivationClaim a' _) in *.
  assert (Hi6 : Inv L (setRollbackJournal Absent d5)).
  { apply inv_closeRollbackJournal; [done|done|]. exists j.(ToSlot). do 3 (split; [done|]). unfold counterOf. simpl. lia. }
  apply wp_bind, wp_write; [by apply good_refl..| |by apply good_refl].
  apply (wp_prune base L); [done|]. intros d7 Hi7 _. split; [by apply good_refl|]. split; by apply good_refl.
Qed.
Lemma safe_continueRollback L j claimed d : Inv L d → d.(rollbackJournalFile) = Holds j → safe L (continueRollback j claimed) d.
Proof.
  intros Hi Hj. destruct (inv_rollbackOk _ _ _ _ Hi Hj) as [Hok0 _].
  apply wp_bind. eapply wp_mono; [eapply (wp_ensure L _ _ _ (λ _ d1, Inv L d1 ∧ d1.(rollbackJournalFile) = Holds j ∧
    floorOf d1 = j.(RAuthorization).(Authorization).(CommandSequence) ∧ j.(RAuthorization).(Authorization).(Action) = AssignmentActionRollback)); [done|]| |apply good_refl..].
  { intros d1 Hi1 [->|[f ->]] Hf1 Ha; done. }
  intros [] d1 (Hi1 & Hj1 & Hf1 & Hact). apply wp_bind.
  assert (Hsettle : ∀ j1 d2, Inv L d2 → d2.(rollbackJournalFile) = Holds j1 → floorOf d2 = j1.(RAuthorization).(Authorization).(CommandSequence) →
    j1.(RAuthorization).(Authorization).(Action) = AssignmentActionRollback →
    safe L (j ← (if String.eqb j1.(RPhase) rollbackSwitched then settleRollback j1 else mret j1); finishRollback j claimed) d2).
  { intros j1 d2 Hi2 Hj2 Hf2 Ha2. apply wp_bind. case_if Ep.
    - apply (wp_settleRollback L); [done|done|by apply String.eqb_eq|done|done|]. intros L' j' d3 HL Hi3 Hj3.
      by eapply safe_trans, safe_finishRollback.
    - by apply wp_ret, safe_finishRollback. }
  case_if Ep; [|by apply wp_ret, Hsettle]. apply String.eqb_eq in Ep.
  eapply wp_mono; [apply (wp_switchRollback L j (λ j2 d2, safe L (j ← (if String.eqb j2.(RPhase) rollbackSwitched then settleRollback j2 else mret j2);
    finishRollback j claimed) d2)); [done|done|by left|]|done|apply good_refl..].
  intros d2 j2 Hi2 Hj2 Hf2. apply Hsettle; [done|done|by rewrite Hf2|done].
Qed.

Lemma safe_recoverRollback L claimed d : Inv L d → safe L (recoverRollback claimed) d.
Proof.
  intros Hi. pose proof (good_refl _ _ Hi). apply wp_bind, wp_required, wp_read; [done..|]. intros j Hj.
  apply wp_bind, wp_guard; [done|]. intros _. by apply safe_continueRollback.
Qed.

(** What a rollback goes back to is described by the tree. *)
Lemma wp_rollbackSlot L a s c (Q : slotMetadata → root → Prop) (E C : root → Prop) d : Inv L d → describes d.(slots) s → E d → C d →
  (∀ s', describes d.(slots) s' → Q s' d) → wp (rollbackSlot a s c) Q E C d.
Proof.
  intros Hi Hs HE HC HQ. unfold rollbackSlot. case_if Ea; [|by apply wp_ret, HQ].
  apply wp_bind, wp_guard; [done|]. intros _. apply wp_bind, wp_required, wp_read; [done..|]. intros done_ _.
  apply wp_bind, wp_now; [done|]. intros now. apply wp_bind, wp_verifyReceipt; [done..|]. intros _.
  apply wp_bind, wp_guard; [done|]. intros _. apply wp_bind, wp_required, wp_read; [done..|]. intros s' Hs'.
  apply wp_bind, wp_guard; [done|]. intros _. by apply wp_ret, HQ, (inv_previous _ _ _ Hi).
Qed.

Lemma safe_startRollback L authorization claimed d : Inv L d → idle d → floorOf d < authorization.(Authorization).(CommandSequence) →
  safe L (startRollback authorization claimed) d.
Proof.
  intros Hi Hd Hseq. pose proof (good_refl _ _ Hi) as Hg. destruct (inv_quiet _ _ _ Hi Hd) as (s & Hs & Hcur & Hdes & Hcount).
  do 3 (apply wp_readOnlyGood; [auto with readonly|done|]; intros ?).
  apply wp_bind, wp_currentTarget; [done..|]. intros t Ht _. apply wp_bind, wp_currentSlot; [done..|]. intros s1 Hs1 _ _.
  rewrite Hs in Hs1. injection Hs1 as <-. apply wp_bind, (wp_rollbackSlot L); [done..|]. intros previous Hprev.
  apply wp_bind, wp_observe; [done..|]. intros _ _ _. apply wp_bind, wp_given; [done|]. intros sha _. cbv zeta.
  set (j := mkRollbackJournal _ _ _ _ _ _).
  assert (Hi1 : Inv L (setRollbackJournal (Holds j) d)).
  { apply inv_setRollbackJournal; [done|apply Hd| |done]. do 2 (split; [done|]). left. split; [by left|].
    split; [split; [done|split; [by eapply newest|done]]|]. split; [done|by left]. }
  apply wp_bind, wp_writeRollbackJournal; [done..|]. split; [|by apply good_refl]. by apply safe_continueRollback.
Qed.

Lemma safe_replayRollback L authorization f claimed d : Inv L d → safe L (replayCompletedRollback authorization f claimed) d.
Proof.
  intros Hi. pose proof (good_refl _ _ Hi). apply wp_bind, wp_guard; [done|]. intros _.
  apply wp_bind, wp_required, wp_read; [done..|]. intros result Hresult.
  do 9 (apply wp_readOnlyGood; [auto with readonly|done|]; intros ?).
  assert (Inv L (setLastRollback (Holds result) d)).
  { apply inv_setLastRollback; [done|]. apply (inv_recorded _ _ _ Hi). by apply recorded_rollback. }
  apply wp_bind, wp_write; [by apply good_refl..| |by apply good_refl]. apply wp_bind, wp_touch; [by apply good_refl..|].
  apply safe_claims; [apply cl_supersededRollback|done|]. intros _ d1 Hi1 _.
  apply wp_claims; [apply cl_removeMatching|]. intros d2 Hd2%(inv_claims base L); [|done].
  split; [by apply good_refl|]. split; [by apply good_refl|]. intros _. by apply good_refl.
Qed.

Lemma safe_rollbackFromPath L claimed d : Inv L d → d.(journal) = Absent → safe L (rollbackFromPath claimed) d.
Proof.
  intros Hi Hj. pose proof (good_refl _ _ Hi). apply wp_bind, wp_touch; [done..|]. apply wp_bind, wp_observe; [done..|].
  intros _ recovering [= <-]. case_if Er; [by apply safe_recoverRollback|].
  assert (Hr : d.(rollbackJournalFile) = Absent) by by destruct (rollbackJournalFile d).
  apply wp_readOnlyGood; [destruct claimed; ro|done|]. intros request.
  apply wp_bind, wp_commandFloor; [done..|]. intros f Hf. cbv zeta. case_if El.
  - apply wp_bind, wp_guard; [done|]. intros _. by apply safe_replayRollback.
  - apply safe_startRollback; [done..|]. apply Z.leb_gt in El. lia.
Qed.

(** ** Whole runs *)

(** What fails is quarantined, which touches only the claims. *)
Lemma safe_quarantine {A} L (m : M A) b d : safe L m d →
  safe L (r ← attempt m; match r with Some _ => mret () | None => attempt (QuarantineActivationFailure b);; fail end) d.
Proof.
  intros Hm. apply wp_bind, wp_attempt. eapply wp_mono; [exact Hm|..|done].
  - intros a d' Hd'. by apply wp_ret.
  - intros d' Hd'. apply wp_bind, wp_claims; [apply cl_attempt, cl_quarantine|]. intros d2 Hd2.
    assert (good L d2) by (destruct Hd' as (L' & HL & Hi); exists L'; split; [done|by eapply inv_claims]).
    do 2 (split; [done|]). intros _. by apply safe_fail.
Qed.

(** Moving a command out of the staging directory touches its claim. *)
Lemma cl_claimActivation : claims claimActivation.
Proof.
  unfold claimActivation. apply cl_bind; [by apply cl_readOnly; ro|]. intros [|]; [by apply cl_readOnly; ro|].
  apply cl_bind; [by apply cl_readOnly; ro|]. intros [|]; [|by apply cl_readOnly; ro].
  apply cl_perform. intros ans d d' Hd'. exists d'.(activationClaim), d.(rollbackClaim).
  destruct (readyFile _); [done|injection Hd' as <-; by destruct d..].
Qed.

Lemma cl_claimRollback : claims claimRollback.
Proof.
  unfold claimRollback. apply cl_bind; [by apply cl_readOnly; ro|]. intros [|]; [by apply cl_readOnly; ro|].
  apply cl_bind; [by apply cl_readOnly; ro|]. intros [|]; [|by apply cl_readOnly; ro].
  apply cl_perform. intros ans d d' Hd'. exists d.(activationClaim), d'.(rollbackClaim).
  destruct (rollbackFile _); [done|injection Hd' as <-; by destruct d..].
Qed.

Lemma safe_runClaimedRollback L d : Inv L d → d.(journal) = Absent → safe L runClaimedRollback d.
Proof. intros Hi Hj. by apply safe_quarantine, safe_rollbackFromPath. Qed.

Lemma safe_runClaimedActivation L d : Inv L d → d.(rollbackJournalFile) = Absent → safe L runClaimedActivation d.
Proof using HLaws.
  intros Hi Hr. apply safe_quarantine. pose proof (good_refl _ _ Hi).
  apply wp_bind, wp_observe; [done..|]. intros _ config _. by apply safe_Activate.
Qed.

Theorem safe_runActivator L d : Inv L d → safe L runActivator d.
Proof using HLaws.
  intros Hi. pose proof (good_refl _ _ Hi) as Hg. pose proof (inv_action _ _ _ Hi) as Ha. unfold actionOk in Ha.
  apply wp_bind, wp_exists; [done..| |].
  2:{ intros Hr. apply safe_runClaimedRollback; [done|]. destruct (journal d), (rollbackJournalFile d); done. }
  intros Hr. rewrite Hr in Ha. apply wp_bind, wp_exists; [done..| |by intros _; apply safe_runClaimedActivation].
  intros Hj. assert (Hd : idle d) by done.
  assert (Hroll : ∀ (k : M unit) d1, Inv L d1 → idle d1 → safe L k d1 →
    safe L (b ← exists_ rollbackClaim; if b : bool then runClaimedRollback else k) d1).
  { intros k d1 Hi1 Hd1 Hk. apply wp_readOnlyGood; [ro|done|]. intros [|]; [|done].
    apply safe_runClaimedRollback; [done|apply Hd1]. }
  apply safe_claims; [apply cl_claimRollback|done|]. intros _ d1 Hi1 Hd1; cbv beta.
  assert (Hc1 : idle d1) by (destruct Hd1 as (? & ? & ->); done). apply Hroll; [done|done|].
  apply safe_claims; [apply cl_claimActivation|done|]. intros _ d2 Hi2 Hd2.
  assert (Hc2 : idle d2) by (destruct Hd2 as (? & ? & ->); done).
  apply safe_claims; [apply cl_claimRollback|done|]. intros _ d3 Hi3 Hd3.
  assert (Hc3 : idle d3) by (destruct Hd3 as (? & ? & ->); done). apply Hroll; [done|done|].
  apply wp_readOnlyGood; [ro|done|]. intros [|]; [|by apply wp_ret, good_refl].
  apply safe_runClaimedActivation; [done|apply Hc3].
Qed.
End runs.
End UpdaterRuns.
