(* ===== verification/UpdaterTheorems.v ===== *)
(** What the root activator of Updater.v guarantees on a host: in every tree that runs and
    crashes can leave, the link leads to an executable the management authority named or the
    host was enrolled with; receipts are never repeated, and their counters, command
    sequences and releases grow together; at rest the metadata describe what runs; and an
    interrupted activation is undone.  One theorem is about an interrupted rollback that
    never recovers. *)

From S2P Require Import Prelude.
From S2P Require Import GoStrings.
From S2P Require Import GoBase64.
From S2P Require Import WafCookies.
From S2P Require Import UpdateAuth.
From S2P Require Import UpdateAuthProps.
From S2P Require Import Updater.
From S2P Require Import UpdaterProps.
From S2P Require Import UpdaterInv.
From S2P Require Import UpdaterRuns.
From Stdlib Require Import Ascii.

Module UpdaterTheorems.
Import WafCookies(unixEpoch, UnixMilli).
Import UpdateAuth.
Import UpdateAuthProps.
Import Updater.
Import UpdaterProps.
Import UpdaterInv.
Import UpdaterRuns.

Section theorems.
Context `{Semver, Crypto, Host}.
Context (parseRFC3339 : string → option Z) (decodeManifest : string → option Manifest).
Hint Extern 0 Verifier => exact (AgentUpdateVerifier parseRFC3339 decodeManifest) : typeclass_instances.

(** ** Histories *)

(** A tree in which the activator has not done anything yet. *)
Definition pristine (d : root) : Prop :=
  d.(counter) = Absent ∧ d.(previousSlot) = Absent ∧ d.(lastActivation) = Absent ∧ d.(lastRollback) = Absent ∧ idle d.

(** One run of the activator, complete or not. *)
Definition ran (d d' : root) : Prop := ∃ l, d' = run l d.

(** The trees of a host that was enrolled on [d0]. *)
Definition deployed (d0 d : root) : Prop :=
  pristine d0 ∧ ∃ agentVersion agentCommit l l' d1,
    pinBootstrapSlotMetadata agentVersion agentCommit (d0, l) = (Ok (), (d1, l')) ∧ rtc ran d1 d.

(** The executables the host came with. *)
Definition initialSlots (d : root) : gmap string string := omap (λ content, content) d.(slots).

Lemma pin_inv agentVersion agentCommit d : pristine d →
  wp (pinBootstrapSlotMetadata agentVersion agentCommit) (λ _, Inv (initialSlots d) []) (λ _, True) (λ _, True) d.
Proof.
  intros (Hcount & Hprev & Hact & Hroll & Hj & Hr). apply wp_bind, wp_currentTarget; [done..|]. intros t Ht Hv. cbv zeta.
  apply wp_bind, wp_guard; [done|]. intros _. apply wp_bind, wp_observe; [done..|]. intros _ content Hc.
  do 3 (apply wp_bind, wp_guard; [done|]; intros _).
  set (slot := bootstrapSlot _ _ _ _ _).
  assert (Hlook : d.(slots) !! slotName t = Some (Some content)) by by destruct (_ !! _) as [[?|]|]; simplify_eq.
  assert (Hinv : Inv (initialSlots d) [] (setCurrentSlot (Holds slot) d)).
  { constructor; simpl.
    - intros version text Hs. left. unfold initialSlots. by rewrite lookup_omap, Hs.
    - exists t. split; [done|]. split; [done|]. by exists content.
    - intros s. by rewrite Hprev.
    - intros s. by rewrite Hact.
    - unfold actionOk. simpl. rewrite Hj, Hr. exists slot. do 2 (split; [done|]). split; [split; [done|by exists content]|].
      unfold counterOf. simpl. by rewrite Hcount.
    - constructor; intros i; intros; by rewrite lookup_nil in *.
    - intros r Hrec. inversion Hrec as [s Hs|s Hs|j r' Hs|j r' Hs]; simpl in Hs; congruence.
    - constructor.
    - constructor. }
  apply wp_bind, wp_read; [done..| |].
  - intros _. by apply wp_write.
  - intros existing Hex. apply wp_bind, wp_guard; [done|]. intros ->%bool_decide_eq_true. apply wp_touch; [done..|].
    replace d with (setCurrentSlot (Holds slot) d) at 2; [done|]. rewrite <-Hex. by destruct d.
Qed.

Lemma run_inv base L d l : Inv base L d → good base L (run l d).
Proof.
  intros Hi. pose proof (safe_runActivator base L d Hi l) as Hs. unfold run.
  destruct (runActivator (d, l)) as [[a| |] [d' l']]; exact Hs.
Qed.

Lemma runs_inv base L d d' : rtc ran d d' → Inv base L d → ∃ L', L `prefix_of` L' ∧ Inv base L' d'.
Proof.
  intros Hr. revert L. induction Hr as [d|d d1 d2 [l ->] Hr IH]; intros L Hi; [by exists L|].
  destruct (run_inv _ _ _ l Hi) as (L1 & HL1 & Hi1). destruct (IH _ Hi1) as (L2 & HL2 & Hi2). exists L2. split; [by etrans|done].
Qed.

Lemma deployed_inv d0 d : deployed d0 d → ∃ L, Inv (initialSlots d0) L d.
Proof.
  intros (Hp & v & c & l & l' & d1 & Hpin & Hr). pose proof (pin_inv v c d0 Hp l) as Hi. rewrite Hpin in Hi.
  destruct (runs_inv _ _ _ _ Hr Hi) as (L & _ & HL). by exists L.
Qed.

(** C1: Whatever the worker stages, whatever fails and wherever a run is cut off, the link
    [current] of a deployed host leads to an executable that is there, and that the host was
    enrolled with or that is the artifact, by size and digest, of an activation the pinned
    management authority signed for this agent. *)
Theorem updater_runs_authorized d0 d : deployed d0 d →
  ∃ target content, d.(current) = Some target ∧ validSlotTarget target = true ∧ d.(slots) !! slotName target = Some (Some content) ∧
    (d0.(slots) !! slotName target = Some (Some content) ∨ authorizedContent (slotName target) content).
Proof.
  intros (L & Hi)%deployed_inv. destruct (inv_current _ _ _ Hi) as (t & Ht & Hv & content & Hc). exists t, content.
  do 3 (split; [done|]). destruct (inv_slots _ _ _ Hi _ _ Hc) as [Hb|Ha]; [left|by right].
  unfold initialSlots in Hb. rewrite lookup_omap in Hb. apply bind_Some in Hb as (o & Ho & ->). done.
Qed.

(** How two receipts of a host relate. *)
Record ordered (r r' : RootActionReceipt) : Prop := {
  ordered_same : r.(RootActionCounter) = r'.(RootActionCounter) → r = r';
  ordered_sequence : r.(RootActionCounter) < r'.(RootActionCounter) → r.(RecCommandSequence) < r'.(RecCommandSequence);
  ordered_release : r.(RootActionCounter) < r'.(RootActionCounter) → r.(RecAction) = AssignmentActionActivate →
    r'.(RecAction) = AssignmentActionActivate →
    r.(ResultReleaseSequence) ≤ r'.(ResultReleaseSequence) ∧ r.(ResultSecurityEpoch) ≤ r'.(ResultSecurityEpoch) }.

Lemma log_ordered L i k r r' : logOk L → L !! i = Some r → L !! k = Some r' → ordered r r'.
Proof.
  intros Hl Hr Hr'. pose proof (log_counter _ Hl _ _ Hr) as Hi. pose proof (log_counter _ Hl _ _ Hr') as Hk. constructor.
  - intros Hc. assert (i = k) as -> by lia. congruence.
  - intros Hc. eapply (log_sequence _ Hl i k); [lia|done..].
  - intros Hc Ha Ha'. eapply (log_release _ Hl i k r r'); [lia|done..].
Qed.

(** C2: Of any two receipts found at any two times on a deployed host: the same counter
    means the same receipt, a larger counter means a newer command, and a later activation
    activated no older release and no lower security epoch. *)
Theorem updater_receipts_ordered d0 d1 d2 r1 r2 : deployed d0 d1 → rtc ran d1 d2 → recorded d1 r1 → recorded d2 r2 →
  ordered r1 r2 ∧ ordered r2 r1.
Proof.
  intros (L1 & Hi1)%deployed_inv Hr Hr1 Hr2. destruct (runs_inv _ _ _ _ Hr Hi1) as (L2 & HL & Hi2).
  destruct (inv_recorded _ _ _ Hi1 _ Hr1) as [i Hi]. destruct (inv_recorded _ _ _ Hi2 _ Hr2) as [k Hk].
  eapply prefix_lookup_Some in Hi; [|done]. pose proof (inv_log _ _ _ Hi2). split; by eapply log_ordered.
Qed.

(** C3: On a deployed host without an open journal the metadata describe, by size and digest,
    the executable the link leads to, and every receipt is covered by the counter, by the
    command floor, and, for an activation, by the release floor. *)
Theorem updater_settled d0 d : deployed d0 d → idle d →
  (∃ s content, d.(currentSlot) = Holds s ∧ d.(current) = Some s.(Target) ∧ d.(slots) !! slotName s.(Target) = Some (Some content) ∧
     Z.of_nat (String.length content) = s.(SlotArtifactSize) ∧ hexEncode (sha256 content) = s.(SlotArtifactSHA256)) ∧
  ∀ r, recorded d r → 1 ≤ r.(RootActionCounter) ≤ counterOf d ∧ r.(RecCommandSequence) ≤ floorOf d ∧ within (releaseFloor d) r.
Proof.
  intros (L & Hi)%deployed_inv Hd. destruct (inv_quiet _ _ _ Hi Hd) as (s & Hs & Hc & (_ & content & Hl & Hsize & Hsha) & Hcount).
  split; [by exists s, content|]. intros r Hr. destruct (inv_recorded _ _ _ Hi _ Hr) as [i HL].
  pose proof (log_counter _ (inv_log _ _ _ Hi) _ _ HL). pose proof (lookup_lt_Some _ _ _ HL).
  pose proof (inv_floor _ _ _ Hi) as Hf. rewrite Forall_lookup in Hf. pose proof (Hf _ _ HL).
  pose proof (inv_release _ _ _ Hi) as Hw. rewrite Forall_lookup in Hw. pose proof (Hw _ _ HL) as Hwr.
  unfold ceiling in Hwr. destruct Hd as [Hj _]. rewrite Hj in Hwr. split; [lia|]. split; [done|exact Hwr].
Qed.
(** ** Recovery *)

(** An answer of a host where nothing fails. *)
Definition fine (a : answer) : Prop := a.(outcome) = Fine ∧ a.(healthy) = true.

Lemma ok_bind {A B} (m : M A) (k : A → M B) w w' a : m w = (Ok a, w') → (m ≫= k) w = k a w'.
Proof. intros Hm. unfold mbind, M_bind. by rewrite Hm. Qed.
Lemma ok_observe {A} (f : answer → root → option A) d a l x : fine a → f a d = Some x → observe f (d, a :: l) = (Ok x, (d, l)).
Proof. intros [Ha _] Hf. unfold observe. by rewrite Ha, Hf. Qed.
Lemma ok_healthy d a l : fine a → observe (λ a _, if a.(healthy) then Some () else None) (d, a :: l) = (Ok (), (d, l)).
Proof. intros Ha. apply ok_observe; [done|]. by destruct Ha as [_ ->]. Qed.
Lemma ok_write f d a l : fine a → write f (d, a :: l) = (Ok (), (f d, l)).
Proof. intros [Ha _]. unfold write, perform. by rewrite Ha. Qed.

(** C4: An activation of a deployed host that was cut off before its receipt is undone by
    six operations that do not fail: the link leads back to the previous slot, whose
    executable is there as its metadata say, the journal is gone, and the command stays
    consumed. *)
Theorem updater_recovers d0 d j claimed l : deployed d0 d → d.(journal) = Holds j → switching j → Forall fine l → (6 ≤ length l)%nat →
  ∃ d', recoverActivation claimed (d, l) = (Ok (), (d', drop 6 l)) ∧ idle d' ∧ d'.(current) = Some j.(PreviousTarget) ∧
    d'.(currentSlot) = Holds j.(JPreviousSlot) ∧ d'.(commandFloor) = d.(commandFloor) ∧
    ∃ content, d'.(slots) !! slotName j.(PreviousTarget) = Some (Some content) ∧
      Z.of_nat (String.length content) = j.(JPreviousSlot).(SlotArtifactSize) ∧
      hexEncode (sha256 content) = j.(JPreviousSlot).(SlotArtifactSHA256).
Proof.
  intros (L & Hi)%deployed_inv Hj Hs Hl Hlen. destruct (inv_journalOk _ _ _ _ Hi Hj) as [Hok Hroll].
  pose proof Hok as ((Hv & content & Hc & Hsize & Hsha) & Hpt & _ & (Hcv & Hver) & _). rewrite <-Hpt in Hv, Hc.
  do 6 (destruct l as [|? l]; [simpl in Hlen; lia|apply Forall_cons in Hl as [? Hl]]).
  exists (setJournal Absent (setCurrentSlot (Holds j.(JPreviousSlot)) (setCurrent (Some j.(PreviousTarget)) d))).
  split; [|split; [done|do 3 (split; [done|]); by exists content]].
  assert (Hphase : String.eqb j.(Phase) journalHealthy = false ∧ (String.eqb j.(Phase) journalPrepared || String.eqb j.(Phase) journalSwitched) = true)
    by by destruct Hs as [-> | ->].
  destruct Hphase as [Hh Hp]. unfold recoverActivation. erewrite ok_bind by (apply ok_observe; [done|by rewrite Hj]). cbv beta iota.
  erewrite ok_bind by (by rewrite Hv, Hcv, Hver). rewrite Hh, Hp. unfold rollback, switchCurrent, restartAndCheck.
  erewrite ok_bind; [|erewrite ok_bind by (by rewrite Hv); by apply ok_write].
  erewrite ok_bind; [|erewrite ok_bind by (by apply ok_healthy); by apply ok_healthy].
  erewrite ok_bind by by apply ok_write. by apply ok_write.
Qed.
(** ** A rollback that does not recover *)

(** [m] on [d] against answers that satisfy [P] leaves the tree; a result satisfies [Q]. *)
Definition during {A} (P : answer → Prop) (m : M A) (Q : A → Prop) (d : root) : Prop :=
  ∀ l, Forall P l → match m (d, l) with
                    | (Ok a, (d', l')) => d' = d ∧ Forall P l' ∧ Q a
                    | (_, (d', _)) => d' = d
                    end.

Lemma during_bind {A B} P (m : M A) (k : A → M B) Q d : during P m (λ a, during P (k a) Q d) d → during P (m ≫= k) Q d.
Proof.
  intros Hm l Hl. specialize (Hm l Hl). unfold mbind, M_bind. destruct (m (d, l)) as [[a| |] [d' l']]; [|done..].
  destruct Hm as (-> & Hl' & Hk). by apply Hk.
Qed.
Lemma during_ret {A} P (a : A) (Q : A → Prop) d : Q a → during P (mret a) Q d.
Proof. by intros HQ l Hl. Qed.
Lemma during_guard P b (Q : unit → Prop) d : (b = true → Q ()) → during P (guard_ b) Q d.
Proof. intros HQ l Hl. by destruct b; [split; [|split; [|apply HQ]]|]. Qed.
Lemma during_observe {A} P (f : answer → root → option A) (Q : A → Prop) d : (∀ a x, f a d = Some x → Q x) → during P (observe f) Q d.
Proof.
  intros HQ l Hl. unfold observe. destruct l as [|a l]; [done|]. apply Forall_cons in Hl as [_ Hl].
  destruct (outcome a), (f a d) as [x|] eqn:Ef; try done. split; [done|]. split; [done|]. by eapply HQ.
Qed.
Lemma during_now P (Q : Z → Prop) d : (∀ a, P a → Q a.(clock)) → during P timeNow Q d.
Proof. intros HQ l Hl. destruct l as [|a l]; [done|]. apply Forall_cons in Hl as [Ha Hl]. split; [done|]. split; [done|]. by apply HQ. Qed.
Lemma during_required {A} P (f : root → file A) x (Q : A → Prop) d : f d = Holds x → Q x → during P (required (read f)) Q d.
Proof.
  intros Hf HQ. apply during_bind, during_observe. intros _ o. rewrite Hf. intros [= <-]. by apply during_ret.
Qed.

Lemma during_floor P (Q : rootCommandFloor → Prop) d : (∀ f, f.(FloorSequence) = floorOf d → Q f) → during P loadRootCommandFloor Q d.
Proof.
  intros HQ. apply during_bind, during_observe. intros _ o. unfold floorOf in HQ. destruct (commandFloor d) as [| | |f]; [|done..|];
    intros [= <-]; [by apply during_ret, HQ|]. apply during_bind, during_guard. intros _. by apply during_ret, HQ.
Qed.

(** The authorization has expired at every moment of the run. *)
Definition expired (a : AssignmentAuthorization) (ans : answer) : Prop := a.(ExpiresAtUnixMillis) ≤ UnixMilli ans.(clock).

Lemma accepted_expiry pinned key config r action now s :
  authorizationAccepted pinned key config r action now s = true → UnixMilli now < r.(Authorization).(ExpiresAtUnixMillis).
Proof.
  unfold authorizationAccepted, VerifyAssignmentAuthorization. intros Ha. bprop. destruct (AssignmentAuthorizationPayload _); [|done]. bprop. simpl in *. lia.
Qed.

Lemma during_wedged j claimed d : d.(rollbackJournalFile) = Holds j → floorOf d < j.(RAuthorization).(Authorization).(CommandSequence) →
  during (expired j.(RAuthorization).(Authorization)) (rollbackFromPath claimed) (λ _, False) d.
Proof.
  intros Hj Hseq. set (P := expired _). apply during_bind, during_observe. intros _ [] _.
  apply during_bind, during_observe. rewrite Hj. intros _ b [= <-]. apply during_bind, (during_required _ _ j); [done|].
  apply during_bind, during_guard. intros _. apply during_bind. apply during_bind, during_floor. intros f Hf. cbv zeta.
  case_if Ef; [apply Z.eqb_eq in Ef; lia|]. case_if Elt; [by intros l Hl|].
  apply during_bind, during_now. intros ans Hans. apply during_bind. apply during_bind, during_floor. intros f' Hf'.
  apply during_bind. apply during_bind, during_guard. intros _. apply during_bind, during_observe. intros _ [pinned key] _.
  apply during_bind, during_observe. intros _ config _. apply during_guard. intros Hacc%accepted_expiry. unfold P, expired in Hans. lia.
Qed.

(** [m] never returns a result and at most drops claims. *)
Definition refuses (P : answer → Prop) (m : M unit) (d : root) : Prop :=
  ∀ l, Forall P l → (m (d, l)).1 ≠ Ok () ∧ claimsOnly d (m (d, l)).2.1.

Lemma refuses_bind {A} P (m : M A) (k : A → M unit) d : during P m (λ a, refuses P (k a) d) d → refuses P (m ≫= k) d.
Proof.
  intros Hm l Hl. specialize (Hm l Hl). unfold mbind, M_bind. destruct (m (d, l)) as [[a| |] [d' l']].
  - destruct Hm as (-> & Hl' & Hk). by apply Hk.
  - rewrite Hm. split; [done|apply claimsOnly_refl].
  - rewrite Hm. split; [done|apply claimsOnly_refl].
Qed.

Lemma refuses_quarantine P (m : M unit) b d : during P m (λ _, False) d →
  refuses P (r ← attempt m; match r with Some _ => mret () | None => attempt (QuarantineActivationFailure b);; fail end) d.
Proof.
  intros Hm l Hl. specialize (Hm l Hl). unfold mbind, M_bind. unfold attempt at 1 3. destruct (m (d, l)) as [[a| |] [d' l']].
  - by destruct Hm as (_ & _ & []).
  - subst d'. pose proof (cl_attempt _ (cl_quarantine b) d l') as Hq. destruct (attempt _ (d, l')) as [[x| |] [d2 l2]]; done.
  - rewrite Hm. split; [done|apply claimsOnly_refl].
Qed.

Lemma run_wedged j d : d.(rollbackJournalFile) = Holds j → floorOf d < j.(RAuthorization).(Authorization).(CommandSequence) →
  refuses (expired j.(RAuthorization).(Authorization)) runActivator d.
Proof.
  intros Hj Hseq. apply refuses_bind, during_observe. intros _ rolling. rewrite Hj. intros [= <-].
  by apply refuses_quarantine, (during_wedged j).
Qed.

(** C5: A run that is cut off between writing the rollback journal and consuming its
    authorization, and is not resumed before the authorization expires, leaves a host that
    no later run gets out of: every run fails, the journal stays, the link stays, and no
    command is consumed any more. *)
Theorem rollback_never_recovers d j d' : d.(rollbackJournalFile) = Holds j →
  floorOf d < j.(RAuthorization).(Authorization).(CommandSequence) →
  rtc (λ d d', ∃ l, Forall (expired j.(RAuthorization).(Authorization)) l ∧ d' = run l d) d d' →
  d'.(rollbackJournalFile) = Holds j ∧ d'.(current) = d.(current) ∧ d'.(commandFloor) = d.(commandFloor) ∧
  ∀ l, Forall (expired j.(RAuthorization).(Authorization)) l → (runActivator (d', l)).1 ≠ Ok ().
Proof.
  intros Hj Hseq Hr. induction Hr as [d|d d1 d2 (l & Hl & ->) Hr IH].
  - do 3 (split; [done|]). intros l Hl. by apply (run_wedged j).
  - destruct (run_wedged j d Hj Hseq l Hl) as [_ (a & r & Hd)]. change ((runActivator (d, l)).2.1) with (run l d) in Hd. rewrite Hd in *. by apply IH.
Qed.
(** C6: A payload determines what was signed: two records of any of the three kinds that
    have the same payload are of the same kind and equal in every field, so that a signature
    on one is never a signature on another. *)
Theorem payload_determines_record s1 s2 p : representable s1 → representable s2 → payloadOf s1 = Some p → payloadOf s2 = Some p → s1 = s2.
Proof.
  intros R1 R2 P1 P2. destruct (payload_record _ _ P1) as (l1 & E1 & S1 & V1). destruct (payload_record _ _ P2) as (l2 & E2 & S2 & V2).
  rewrite E1 in E2. apply record_inj in E2 as [Em El]; [|done..]. subst l2.
  destruct s1 as [v1|v1|v1], s2 as [v2|v2|v2]; try discriminate Em.
  - destruct V1 as [V1 ->], V2 as [V2 El]. f_equal. by apply authorization_fields_inj.
  - f_equal. by eapply enrollment_inj.
  - destruct V1 as [V1 ->], V2 as [V2 El]. f_equal. by apply receipt_fields_inj.
Qed.

(** What the key of the authority signs is accepted exactly while it is valid: for the
    agent, action and epoch it was issued for, no earlier than its issue less the skew, before
    its expiry, and after an older command sequence only. *)
Theorem signed_authorization_accepted privateKey a signature policy : CryptoLaws _ →
  SignAssignmentAuthorization privateKey a = Some signature → is_zero_time policy.(Now) = false →
  (VerifyAssignmentAuthorization (ed25519Public privateKey) a signature policy = true ↔
   a.(AgentPublicID) = policy.(ExpectedAgentPublicID) ∧ a.(Action) = policy.(ExpectedAction) ∧
   a.(AuthorityEpoch) = policy.(ExpectedAuthorityEpoch) ∧ policy.(LastCommandSequence) < a.(CommandSequence) ∧
   a.(IssuedAtUnixMillis) ≤ UnixMilli (policy.(Now) + MaxSigningClockSkew) ∧ UnixMilli policy.(Now) < a.(ExpiresAtUnixMillis)).
Proof.
  intros Hlaws. unfold SignAssignmentAuthorization, VerifyAssignmentAuthorization, AssignmentAuthorizationPayload.
  destruct (validateAssignmentAuthorization a) eqn:Hv; [|done]. unfold privateKeyMatchesID.
  intros Hs Hnow. destruct (_ && _) eqn:Hk in Hs; [|done]. injection Hs as <-.
  apply andb_true_iff in Hk as [[Hlen Hseed%String.eqb_eq]%andb_true_iff Hid]. rewrite Hseed in Hid.
  unfold verifyKeyAndSignature. rewrite Hid, ed25519Sign_length, ed25519Verify_Sign, Hnow. simpl.
  unfold validateAssignmentAuthorization in Hv. conditions Hv. split.
  - intros Hp. bprop. split_and!; try done; lia.
  - intros (Ha & Hact & He & Hseq & Hi & Hx). rewrite <-Ha, <-Hact, <-He, V14, V10, !String.eqb_refl, Z.eqb_refl.
    unfold positive63 in V5. apply andb_true_iff in V5 as [V5 _]. apply Z.ltb_lt in V5.
    rewrite (proj2 (Z.eqb_neq _ 0)) by lia. apply Z.leb_le in Hi. apply Z.ltb_lt in Hx, Hseq. by rewrite Hi, Hx, Hseq.
Qed.
End theorems.

(** ** An example host *)

Section example.

(** Versions are compared as texts, digests are sums of bytes, and a signature is a digest of
    the public key and the payload. *)
#[local] Instance exampleSemver : Semver := {|
  semverIsValid s := HasPrefix s "v";
  semverBuild _ := "";
  semverPrerelease _ := "";
  semverCompare a b := if String.eqb a b then 0 else if String.ltb a b then -1 else 1 |}.

Fixpoint wordBytes (n : nat) (z : Z) : string :=
  match n with O => "" | S n => String (byteOf (Z.land z 255)) (wordBytes n (Z.shiftr z 8)) end.
Definition sum (s : string) : string :=
  let mask := Z.ones 256 in
  wordBytes 32 (foldl (λ h c, Z.land (h * 257 + byteVal c + 1) mask) 7 (String.list_ascii_of_string s)).

#[local] Instance exampleCrypto : Crypto := {|
  sha256 := sum;
  ed25519Public key := sum (String.substring 0 32 key);
  NewKeyFromSeed seed := (seed ++ sum seed)%string;
  ed25519Sign key p := (sum (sum (String.substring 0 32 key) ++ p) ++ sum "signed")%string;
  ed25519Verify key p s := String.eqb s (sum (key ++ p) ++ sum "signed") |}.

Lemma wordBytes_length n : ∀ z, String.length (wordBytes n z) = n.
Proof. induction n as [|n IH]; intros z; [done|]. simpl. by rewrite IH. Qed.
Lemma sum_length s : String.length (sum s) = 32%nat.
Proof. apply wordBytes_length. Qed.

#[local] Instance exampleCryptoLaws : CryptoLaws exampleCrypto.
Proof.
  constructor; cbn -[sum String.length String.substring String.append].
  - apply sum_length.
  - intros seed Hs. by rewrite length_string_app, sum_length, Hs.
  - intros seed Hs. rewrite <-Hs at 1. apply substring_head.
  - intros key _. apply sum_length.
  - intros key p. by rewrite length_string_app, !sum_length.
  - intros key p. apply String.eqb_refl.
Qed.

Definition authoritySeed := "authority-seed-authority-seed-01".
Definition activatorSeed := "activator-seed-activator-seed-01".
Definition authorityKey : string := NewKeyFromSeed authoritySeed.
Definition authorityKeyID : string := default "" (KeyID (ed25519Public authorityKey)).

#[local] Instance exampleHost : Host := {|
  hostConfig := Some (mkHost "agent-1" "stable");
  authority := Some (mkPinned authorityKeyID 1 (stdEncodeToString (ed25519Public authorityKey)));
  activatorKeyText := Some (stdEncodeToString activatorSeed);
  activatorPublicKeyText := Some (stdEncodeToString (ed25519Public (NewKeyFromSeed activatorSeed)));
  goos := "linux";
  goarch := "amd64";
  buildVersion := "v1.0.0";
  protocolVersion := 1;
  order := λ slots, (map_to_list slots).*1 |}.

Definition bootBinary := "the first agent".
Definition newBinary := "the second agent".
Definition commit := "0123456789abcdef0123456789abcdef01234567".

Definition exampleManifest : Manifest :=
  mkManifest 1 "stable" "v1.1.0" commit 5 "2026-01-01T00:00:00Z" "2027-01-01T00:00:00Z" "v1.0.0" 1
    (mkCompatibility (mkVersionRange "v1.0.0" "v2.0.0") (mkProtocolRange 1 1) (mkVersionRange "v1.0.0" "v2.0.0"))
    [mkManifestArtifact "linux" "amd64" "p2pstream_v1.1.0_linux_amd64" (Z.of_nat (String.length newBinary)) (hexEncode (sum newBinary))] [] [].

Definition exampleNow : Z := unixEpoch + 1780000000 * second.
Definition parseExample (s : string) : option Z :=
  if String.eqb s "2026-01-01T00:00:00Z" then Some (unixEpoch + 1767225600 * second)
  else if String.eqb s "2027-01-01T00:00:00Z" then Some (unixEpoch + 1798761600 * second) else None.
Definition decodeExample (s : string) : option Manifest := if String.eqb s "manifest" then Some exampleManifest else None.
#[local] Hint Extern 0 Verifier => exact (AgentUpdateVerifier parseExample decodeExample) : typeclass_instances.

Definition exampleAuthorization (action : string) (sequence : Z) : AssignmentAuthorization :=
  mkAuthorization "agent-1" 1 1 1 action sequence "nonce-nonce-nonce-nonce-nonce-01" 1779999000000 1780003600000 authorityKeyID 1
    "v1.0.5" (hexEncode (sum "manifest")) "v1.1.0" commit 5 1 "linux" "amd64" "p2pstream_v1.1.0_linux_amd64"
    (Z.of_nat (String.length newBinary)) (hexEncode (sum newBinary)).

Definition signedBy (a : AssignmentAuthorization) : assignmentAuthorizationRecord :=
  mkAuthorizationRecord a (default "" (AssignmentAuthorizationPayload a)) (default "" (SignAssignmentAuthorization authorityKey a)).

Definition exampleReady (sequence : Z) : readyRecord :=
  mkReady (signedBy (exampleAuthorization AssignmentActionActivate sequence)) "agent-1" 1 1
    (stdEncodeToString "nonce-nonce-nonce-nonce-nonce-01") "v1.1.0" commit (hexEncode (sum "manifest")) 5 1
    "p2pstream_v1.1.0_linux_amd64" (Z.of_nat (String.length newBinary)) (hexEncode (sum newBinary)) "v1.0.5".

(** The staging directory with a command, and with none. *)
Definition exampleStaging (ready : file readyRecord) (rollback : file rollbackRequest) : staging :=
  mkStaging DirOpen DirOpen LockTaken ready rollback Absent Absent Absent (Some "manifest") (Some newBinary).
Definition answersAt (n : nat) (now : Z) (s : staging) : list answer := replicate n (mkAnswer Fine true now s).
Definition activating : staging := exampleStaging (Holds (exampleReady 1)) Absent.
Definition rollingBack : staging := exampleStaging Absent (Holds (mkRollbackRequest (signedBy (exampleAuthorization AssignmentActionRollback 2)))).
Definition noCommand : staging := exampleStaging Absent Absent.

Definition bootVersion : string := "bootstrap-" ++ String.substring 0 16 (hexEncode (sum bootBinary)).
Definition exampleRoot : root :=
  mkRoot (Some (slotTarget bootVersion)) {[bootVersion := Some bootBinary]} Absent Absent
    (Holds (mkFloor 0 0 "" "v1.0.0" "")) Absent Absent Absent Absent Absent Absent Absent Absent.
Definition enrolledRoot : root := (pinBootstrapSlotMetadata "v1.0.0" commit (exampleRoot, answersAt 10 exampleNow noCommand)).2.1.

Definition activatedRoot : root := run (answersAt 400 exampleNow activating) enrolledRoot.
Definition rolledBackRoot : root := run (answersAt 400 exampleNow rollingBack) activatedRoot.

(** Cut off after the switch, and after the journal of a rollback was written. *)
Definition interruptedRoot : root := run (answersAt 50 exampleNow activating) enrolledRoot.
Definition wedgedRoot : root := run (answersAt 25 exampleNow rollingBack) activatedRoot.
Definition tomorrow : list answer := answersAt 400 (exampleNow + 24 * 3600 * second) noCommand.

Lemma answers_fine n now s : Forall fine (answersAt n now s).
Proof. apply Forall_replicate. by split. Qed.

Lemma answers_expired a n now s : a.(ExpiresAtUnixMillis) ≤ UnixMilli now → Forall (expired a) (answersAt n now s).
Proof. intros Ha. by apply Forall_replicate. Qed.

Lemma deployed_run d l : deployed parseExample decodeExample exampleRoot d → deployed parseExample decodeExample exampleRoot (run l d).
Proof.
  intros (Hp & v & c & l0 & l' & d1 & Hpin & Hr). split; [done|]. exists v, c, l0, l', d1. split; [done|].
  eapply rtc_r; [exact Hr|]. by exists l.
Qed.

Lemma deployed_enrolled : deployed parseExample decodeExample exampleRoot enrolledRoot.
Proof.
  split; [vm_compute; tauto|]. exists "v1.0.0", commit, (answersAt 10 exampleNow noCommand).
  eexists _, enrolledRoot. split; [vm_compute; reflexivity|apply rtc_refl].
Qed.

Lemma holds_spec {A} (f : file A) : match f with Holds _ => true | _ => false end = true → ∃ a, f = Holds a.
Proof. destruct f; eauto; done. Qed.

Lemma updater_runs_authorized_witness :
  activatedRoot.(current) = Some (slotTarget "v1.1.0") ∧
  ∃ target content, activatedRoot.(current) = Some target ∧ validSlotTarget target = true ∧
    activatedRoot.(slots) !! slotName target = Some (Some content) ∧
    (exampleRoot.(slots) !! slotName target = Some (Some content) ∨ authorizedContent (slotName target) content).
Proof.
  split; [vm_compute; reflexivity|]. apply (updater_runs_authorized parseExample decodeExample), deployed_run, deployed_enrolled.
Defined.

Lemma updater_receipts_ordered_witness : ∃ s1 s2, activatedRoot.(lastActivation) = Holds s1 ∧ rolledBackRoot.(lastRollback) = Holds s2 ∧
  ordered s1.(DoneReceipt).(Receipt) s2.(RolledReceipt).(Receipt) ∧ ordered s2.(RolledReceipt).(Receipt) s1.(DoneReceipt).(Receipt).
Proof.
  destruct (holds_spec activatedRoot.(lastActivation)) as [s1 E1]; [vm_compute; reflexivity|].
  destruct (holds_spec rolledBackRoot.(lastRollback)) as [s2 E2]; [vm_compute; reflexivity|].
  exists s1, s2. split; [exact E1|]. split; [exact E2|].
  apply (updater_receipts_ordered parseExample decodeExample exampleRoot activatedRoot rolledBackRoot).
  - apply deployed_run, deployed_enrolled.
  - exact (rtc_once _ _ (ex_intro _ (answersAt 400 exampleNow rollingBack) eq_refl)).
  - by apply recorded_activation.
  - by apply recorded_rollback.
Defined.

Lemma updater_settled_witness :
  (∃ s content, rolledBackRoot.(currentSlot) = Holds s ∧ rolledBackRoot.(current) = Some s.(Target) ∧
     rolledBackRoot.(slots) !! slotName s.(Target) = Some (Some content) ∧
     Z.of_nat (String.length content) = s.(SlotArtifactSize) ∧ hexEncode (sum content) = s.(SlotArtifactSHA256)) ∧
  counterOf rolledBackRoot = 2.
Proof.
  split; [|vm_compute; reflexivity]. refine (proj1 (updater_settled parseExample decodeExample exampleRoot rolledBackRoot _ _)).
  - apply deployed_run, deployed_run, deployed_enrolled.
  - split; vm_compute; reflexivity.
Defined.

Lemma updater_recovers_witness : ∃ j d', interruptedRoot.(journal) = Holds j ∧ interruptedRoot.(current) = Some (slotTarget "v1.1.0") ∧
  recoverActivation true (interruptedRoot, answersAt 6 exampleNow noCommand) = (Ok (), (d', [])) ∧ idle d' ∧
  d'.(current) = Some j.(PreviousTarget).
Proof.
  destruct (holds_spec interruptedRoot.(journal)) as [j Ej]; [vm_compute; reflexivity|].
  assert (Hp : match interruptedRoot.(journal) with Holds j => String.eqb j.(Phase) journalSwitched | _ => false end = true)
    by (vm_compute; reflexivity).
  rewrite Ej in Hp. apply String.eqb_eq in Hp.
  destruct (updater_recovers parseExample decodeExample exampleRoot interruptedRoot j true (answersAt 6 exampleNow noCommand))
    as (d' & Hrec & Hd & Hc & _); [apply deployed_run, deployed_enrolled|exact Ej|by right| |done|].
  - apply answers_fine.
  - exists j, d'. split; [exact Ej|]. split; [vm_compute; reflexivity|]. split; [exact Hrec|]. split; [exact Hd|exact Hc].
Defined.

Lemma rollback_never_recovers_witness : ∃ j, wedgedRoot.(rollbackJournalFile) = Holds j ∧ j.(RPhase) = rollbackPrepared ∧
  deployed parseExample decodeExample exampleRoot wedgedRoot ∧
  (run tomorrow wedgedRoot).(rollbackJournalFile) = Holds j ∧ (runActivator (run tomorrow wedgedRoot, tomorrow)).1 ≠ Ok ().
Proof.
  destruct (holds_spec wedgedRoot.(rollbackJournalFile)) as [j Ej]; [vm_compute; reflexivity|].
  assert (Hp : match wedgedRoot.(rollbackJournalFile) with
    | Holds j => String.eqb j.(RPhase) rollbackPrepared && (floorOf wedgedRoot <? j.(RAuthorization).(Authorization).(CommandSequence)) &&
                 (j.(RAuthorization).(Authorization).(ExpiresAtUnixMillis) <=? UnixMilli (exampleNow + 24 * 3600 * second))
    | _ => false end = true) by (vm_compute; reflexivity).
  rewrite Ej in Hp. apply andb_true_iff in Hp as [[Hp%String.eqb_eq Hf%Z.ltb_lt]%andb_true_iff Hx%Z.leb_le].
  assert (Hl : Forall (expired j.(RAuthorization).(Authorization)) tomorrow) by exact (answers_expired _ 400 _ _ Hx).
  destruct (rollback_never_recovers parseExample decodeExample wedgedRoot j (run tomorrow wedgedRoot) Ej Hf) as (Hj & _ & _ & Hr).
  - exact (rtc_once _ _ (ex_intro _ tomorrow (conj Hl eq_refl))).
  - exists j. split; [exact Ej|]. split; [exact Hp|]. split; [apply deployed_run, deployed_run, deployed_enrolled|]. split; [exact Hj|exact (Hr tomorrow Hl)].
Defined.

Lemma payload_determines_record_witness :
  let s := SignedAuthorization (exampleAuthorization AssignmentActionActivate 1) in is_Some (payloadOf s) ∧ s = s.
Proof.
  split; [vm_compute; eauto|].
  apply (payload_determines_record _ _ (default "" (payloadOf (SignedAuthorization (exampleAuthorization AssignmentActionActivate 1)))));
    vm_compute; first [reflexivity|repeat split; discriminate].
Defined.

Lemma signed_authorization_accepted_witness :
  VerifyAssignmentAuthorization (ed25519Public authorityKey) (exampleAuthorization AssignmentActionActivate 1)
    (signedBy (exampleAuthorization AssignmentActionActivate 1)).(Signature)
    (mkAuthorizationPolicy exampleNow "agent-1" AssignmentActionActivate 1 0) = true.
Proof.
  apply (signed_authorization_accepted authorityKey _ _ (mkAuthorizationPolicy exampleNow "agent-1" AssignmentActionActivate 1 0)
    exampleCryptoLaws).
  - vm_compute. reflexivity.
  - vm_compute. reflexivity.
  - split_and!; vm_compute; first [reflexivity|discriminate].
Defined.
End example.
End UpdaterTheorems.
